(* ===== verification/_CoqProject ===== *)
-Q . S2P
Prelude.v
Vector.v
Hoare.v
Crc32.v
Ondisk.v
Fields.v
Sb.v
Disk.v
Kernel.v
Nilfs.v
Segment.v
Parser.v
Ismounted.v
Feature.v
Tune.v
Bitops.v
Gc.v
Resize.v
GcProtocol.v
FileSystem.v
Collect.v
Reclaim.v
ReclaimSpec.v
ResizeSpec.v
Mkfs.v
MkfsSpec.v
MkfsBuild.v
MkfsResult.v
MkfsLog.v
Mock.v
Cnormap.v
Float64.v
Policy.v
Cldconfig.v
Realpath.v
Cleanerd.v
CleanerdSpec.v
CleanerExec.v
Mounts.v
Open.v
OpenSpec.v
ResizeMain.v
CleanerdMain.v
CleanerCtl.v
Handshake.v
Mntent.v
Fstab.v
FstabSpec.v
MtabSpec.v
MountOpts.v
MountOptsSpec.v
Mount.v
Umount.v
MountSpec.v
Attrs.v
Libmount.v
AttrsSpec.v
MountDemo.v
Clean.v
ClientSpec.v
CnormapSpec.v
Lscp.v
LscpSpec.v
Cptools.v
CptoolsSpec.v
Dumpseg.v
Lssu.v
Scenarios.v
ClientDemo.v
ToolDemo.v
