(* ===== verification/Prelude.v ===== *)
(** * nilfs-utils: a verification library

    The user-space tools of the log-structured file system NILFS2 reclaim
    space in the background: a daemon picks segments of the log by a policy,
    finds out which of their blocks are still in use and asks the kernel to
    copy those and to free the rest.  This development models that path from
    the bytes on the device up to the main loop of the daemon, in the order in
    which the code is layered, and proves what each layer promises to the next;
    the library and the tool that talk to the daemon; the tools that create,
    tune and resize a file system; those that list, make, change and
    remove checkpoints and print segments; and the programs that mount and
    unmount a file system and keep its daemon.

    ** Components

    Each file models one part of the program; a definition has the name of
    the C function it translates, helpers that stand for a part of a function
    say which in their comment.

    - [Prelude] (this file): machine integers, errno values, the monad [M] of
      state and errors with its notation, sorting ([qsort]), tactics, hints.
    - [Hoare]: total correctness of computations in [M], with one rule per
      construct and a loop rule; [wpe] has a postcondition for each way in
      which a computation can end, and no other end is allowed.
    - [Vector] (lib/vector.c, include/vector.h): the growable array all other
      parts store their data in.
    - [Crc32] (lib/crc32.c): the checksum.
    - [Ondisk] (include/linux/nilfs2_ondisk.h): little-endian fields and
      the superblock as a buffer of bytes.
    - [Fields]: buffers that are filled field by field, and what is read back.
    - [Sb] (lib/sb.c): choosing, reading and rewriting the superblocks;
      [Disk]: the laws of a device that keeps what is written, and what the
      two operations do on it.
    - [Kernel] (include/linux/nilfs2_api.h): the records exchanged with the
      kernel and the class of everything that is not in these sources.
    - [Nilfs] (lib/nilfs.c): options, the cleaner lock, the wrappers of the
      ioctls, and access to the raw segments.
    - [Segment] (lib/segment.c, include/segment.h): the nested iterators over
      logs, files and blocks of a segment.
    - [Parser] (lib/parser.c): checkpoint ranges and protection periods.
    - [Feature] (lib/feature.c): the names of features and editing them.
    - [Tune] (sbin/nilfs-tune.c): the tool that changes a super block.
    - [Ismounted] (lib/ismounted.c): whether a device is mounted.
    - [Bitops] (sbin/bitops.c): bitmaps.
    - [Gc] (lib/gc.c): collecting and judging blocks, the reclaim itself;
      [GcProtocol]: its effect on the lock and the file system.
    - [FileSystem]: the laws of a file system behind the class of [Kernel] -
      what a read of the device and each ioctl answer in terms of an abstract
      [fs] - and what the wrappers of [Nilfs] do on one that obeys them.
    - [Collect], [Reclaim], [ReclaimSpec]: the specification of a reclaim (the
      blocks the logs of a segment describe, which of them are in use) and the
      refinement: collecting, judging, and the request made in the end.
    - [Cnormap] (lib/cnormap.c): from a period of time to the oldest
      checkpoint in it; [CnormapSpec]: what the enumeration presents.
    - [Float64]: the type [double]; [Policy] (sbin/policies): the four
      cleaning policies.
    - [Cldconfig] (sbin/cldconfig.c): the configuration file.
    - [Cleanerd] (sbin/cleanerd.c): the daemon, its modes, messages, timer and
      main loop; [CleanerdSpec]: its invariant and its behaviour;
      [CleanerdMain]: its start, from the command line to the loop;
      [Handshake]: what the daemon says to its parent and what
      [CleanerExec] and [CleanerCtl] make of it.
    - [Realpath] (lib/realpath.c): canonical paths, and the definition on lists
      of components that the loop over the buffer implements.
    - [CleanerExec] (lib/cleaner_exec.c): starting the daemon and waiting for
      its end; [CleanerCtl] (lib/cleaner_ctl.c): finding the daemon of a file
      system, the message queues and the requests; [Clean]
      (sbin/nilfs-clean.c): the command line of the requests.  [ClientSpec]:
      the library and the handlers of [Cleanerd] put together.
    - [Mounts]: the mount table, as lib/nilfs.c and lib/cleaner_ctl.c read it;
      [Open] (lib/nilfs.c): [nilfs_open] and [nilfs_close]; [OpenSpec]: the
      laws of files and semaphores, and what an open object has.
    - [Lscp] (bin/lscp.c), [Lssu] (bin/lssu.c): listing checkpoints and
      segments; [LscpSpec]: the listing as a function of the checkpoints.
      [Cptools] (bin/chcp.c, bin/mkcp.c, bin/rmcp.c), with a Module for each
      program; [CptoolsSpec]: the laws of the checkpoints they change.
      [Dumpseg] (bin/dumpseg.c): printing what is in a segment.
    - [Resize] (sbin/nilfs-resize.c): the tool that shrinks and extends a
      mounted file system; [ResizeSpec]: the protocol it keeps;
      [ResizeMain]: its command line and the device.
    - [Mkfs] (sbin/mkfs.c): the tool that creates a file system, from the
      command line to the last write.  [MkfsSpec]: the environment's laws, the
      invariant of the image in memory and the blocks each function builds;
      [MkfsBuild]: the options, the checks of the device and the layout;
      [MkfsResult]: what is written, and how the program ends; [MkfsLog]: the
      first log as [Segment] reads it.
    - [Mntent] (sbin/mount/mount_mntent.c, xmalloc.c): the lines of the mount
      table; [Fstab] (sbin/mount/fstab.c): the rings of nodes it is read into,
      its lock and its replacement.  [FstabSpec]: a ring as the list of its
      entries; [MtabSpec]: the laws of files, the lock and the clock, and the
      update.
    - [MountOpts] (sbin/mount/mount_opts.c, sundries.c): the text of options;
      [MountOptsSpec]: the text as a list of options.
    - [Mount] (sbin/mount/mount.nilfs2.c), [Umount]
      (sbin/mount/umount.nilfs2.c): the two programs, with the daemon that
      they stop and start; [MountSpec]: what a mount looks up and refuses.
    - [Attrs] (sbin/mount/mount_attrs.c): the attributes of a mount, a text of
      options; [Libmount] (sbin/mount/mount_libmount.c, umount_libmount.c): the
      same two programs on top of libmount, with a Module for each;
      [AttrsSpec]: what one stores and the other reads, and what is not
      refused.
    - [Mock], [Scenarios], [ClientDemo], [ToolDemo], [MountDemo]: a kernel
      that can be run, a daemon with its client, runs of the tools, and
      concrete inputs on which the hypotheses of the theorems hold.

    The state grows with the layers: [W] is the world behind the kernel and
    arbitrary throughout; [sys W] adds the [struct nilfs]; [gcs W] the vectors
    of a reclaim; [cns W C] the checkpoint map and the context of a callback;
    [ds W] the members of [struct nilfs_cleanerd]; [rs W] is a [gcs W] with the
    variables of the resize tool, [ms W] a world with the options, the layout,
    the file position and the disk buffer of mkfs, [ct W] one with the
    [struct nilfs_cleaner] of a client; in [ClientSpec] that world is the [ds]
    of a daemon.  [mtab_state W] has the mount table that was read and the lock
    that is held.  [tool W L] is a [sys W] with the path names of the object and
    the lines of type [L] that a program of bin/ has printed.  The embeddings [call],
    [lib_call], [gc_call], [cns_call] and [lib] run a computation of one layer
    in the next, the way the C functions call each other.

    ** Conventions

    A function that returns -1 and sets [errno] ends in [Err]; a failed
    assertion, an access outside of an object and undefined behaviour end in
    [Abort], so that a theorem that excludes [Abort] is a statement of memory
    safety; [Exit] is [exit()].  A buffer is the list of its bytes and a
    pointer into it an offset; memory that was not written holds an arbitrary
    value ([junk]).  Integers are kept at their width, with the conversions
    written out; loop indices of type [int] are assumed not to reach 2^31.
    Times wrap around like unsigned numbers.  Memory is freed implicitly
    (except in [Realpath], where a buffer is used after it was freed).
    Messages to the log are left out, as is the text of error messages.
    Laws of the outside are classes or records of hypotheses beside the
    theorems that use them; what a theorem asks beyond documented behaviour is
    one of its own hypotheses, and its comment says so.

    Loops that are not structural take fuel, and ending in [NoFuel] is a
    result of its own which the theorems exclude: [ENLARGE_FUEL] is 64 since
    a capacity is doubled at most 64 times before it overflows; the iterators
    of [Segment] get the size of the segment, since each log and each file
    takes space; the loops over a vector get its size; the loops of the
    daemon over the segments get their number, as each ioctl that reports
    none ends them, except in [count_inuse_loop] where the theorem assumes
    that the kernel reports some; [read_lines] gets the length of the
    file; [EXPAND_FUEL] is what the limit on links leaves of a path.  Waiting
    for the end of the daemon takes nine turns at most while the clock runs;
    emptying a queue takes two when nobody else writes to it.  The lock of the
    mount table is waited for in turns that take a while each, so as many as
    fit into thirty seconds are enough; a ring is walked in as many turns as
    it has nodes ([TURNS]), a table is read in one turn for each byte.  The
    enumerations of checkpoints and the listings depend on the kernel and take
    the fuel as an argument; the theorems say how much is enough: for lscp the
    number of checkpoints and 66 times the next number, for rmcp the next
    number, for lssu the number of segments.  [main_loop] is bounded by a number of rounds: the daemon
    runs until it is told to stop, and its theorems hold for any number.

    ** Theorems

    - Data structures: every sequence of vector operations does what the
      operations on lists do, deletions whose range does not wrap around (C1); the table-driven checksum is division by
      the polynomial (C2).
    - Superblocks: an update changes the selected fields and yields a valid
      superblock (C3); reading yields the first copy that can be used (C4).
      The tool that changes them writes the fields asked for to the copies
      and nothing else, and never on a mounted device without force; the copies
      must not make its shifts undefined, nor with -l its display (C36).
    - Untrusted logs: the size of the descriptors is their layout, and
      the three iterators stay inside the segment whatever it holds, end, and
      yield positions that are valid and ascending (C6, C7, C8).
    - Texts: ranges of checkpoints (C9), tokens; the only configuration files
      that make the reader go wrong have a line that starts with NUL or a time
      that it cannot convert (C21); a list of features
      is read back as the edits it spells (C35).  The canonical path is the one
      of the definition on components, in the bounds of the buffer (C11).
    - Reclaiming: the dead and the live are told apart by the definition of
      liveness, or the checkpoints cannot be read (C12); the periods to delete are unified; a dry run
      has no effect (C15); the lock is released on
      every path and everything happens under it (C16).  On a file system that
      answers as documented the whole function ends safely and its request
      moves and frees the right blocks (C33); a dry run reports the true
      counts (C34).
    - Policies: the selection of the segregation policy (C19) and of the
      others, the best two of all that were accepted (C30).
    - The daemon: the invariant that keeps the selected segments inside their
      array (C24); the modes (C25); the timer (C28).
    - Open files: [nilfs_open] returns an object that has just the parts its
      flags ask for, or leaves nothing open (C14).
    - Checkpoints and segments: the listings are the checkpoints (C17) and the
      segments (C23) asked for, in order, each once; the modes are changed
      under the lock and only where asked, and the lock is given back unless
      that fails (C27, C31); only plain checkpoints
      in the ranges are removed (C10); a segment with any contents is printed
      (C29); the forward enumeration of the mapper presents every checkpoint
      once and in order (C32).
    - The client: a session of requests is answered as by an abstract cleaner,
      up to a shutdown (C18); stopping the daemon ends, and success means that
      the process is gone (C20).
    - Resizing: whatever happens to the segments meanwhile, the tool ends and
      asks the kernel for a change of the size in a fixed protocol, under the
      lock, provided that no active segment is full (C37); the size it asks for is a lower bound (C38).
    - Mounting: the program without libmount does not mount again what is
      mounted for writing, and such a call changes nothing (C5); the mount table
      is replaced as a whole under its lock, which is taken in bounded time and
      given back unless its file cannot be removed (C22); a value
      stored among the options is found again, and the other options stay as
      they are (C26) - when the new text is not longer than the old one:
      otherwise the code spoils the text, and the model does so, too.  With
      libmount, umount reads the attributes that mount has stored (C13).
    - Creating: mkfs ends with status 0 or 1 whatever the command line and
      the environment are, and status 0 means that the device holds the
      superblocks asked for (C39); the iterators of [Segment] find in the
      first segment the one log and the files and blocks that mkfs has laid
      out (C40); both if no write was short, which mkfs does not notice.  The device must have 1 MB + 1 KB: on smaller ones the
      erasing of the device can run into an assertion.

    ** What is not modelled

    The contents of the log files and of the utilization log, and the texts
    that are printed; signals, that cut a request of nilfs-clean short or end
    a program; libmount, whose functions are parameters; the matching of
    types in sundries.c, which no program uses; the workload generators.
    Of mkfs every block is modelled; what the metadata files contain (the
    inode file, the DAT, the usage file) has no theorem, nor have the backward
    enumeration of the mapper and [nilfs_cnormap_track_back] as a whole.
    [ClientSpec] leaves out the request to reload the configuration. *)

From stdpp Require Export prelude list numbers sorting.
From Stdlib Require Export ZArith Lia.

#[global] Open Scope Z_scope.

(** ** Machine integers

    A C integer is the [Z] it denotes; a conversion to a [w]-bit type is
    written out with one of the following functions. *)

Definition u8 (x : Z) : Z := x `mod` 2 ^ 8.
Definition u16 (x : Z) : Z := x `mod` 2 ^ 16.
Definition u32 (x : Z) : Z := x `mod` 2 ^ 32.
Definition u64 (x : Z) : Z := x `mod` 2 ^ 64.
Definition i32 (x : Z) : Z := (x + 2 ^ 31) `mod` 2 ^ 32 - 2 ^ 31.
Definition i64 (x : Z) : Z := (x + 2 ^ 63) `mod` 2 ^ 64 - 2 ^ 63.

Definition SIZE_MAX : Z := 2 ^ 64 - 1.
Definition ULONG_MAX : Z := 2 ^ 64 - 1.
Definition INT64_MAX : Z := 2 ^ 63 - 1.
Definition PATH_MAX : Z := 4096.

Definition is_u8 (x : Z) : Prop := 0 <= x < 2 ^ 8.
Definition is_u16 (x : Z) : Prop := 0 <= x < 2 ^ 16.
Definition is_u32 (x : Z) : Prop := 0 <= x < 2 ^ 32.
Definition is_u64 (x : Z) : Prop := 0 <= x < 2 ^ 64.
Definition is_i64 (x : Z) : Prop := - 2 ^ 63 <= x < 2 ^ 63.

(** The unfolding set used by the arithmetic tactic below. *)
Ltac unfold_words :=
  unfold u8, u16, u32, u64, i32, i64, is_u8, is_u16, is_u32, is_u64, is_i64,
    SIZE_MAX, ULONG_MAX, INT64_MAX in *;
  change (2 ^ 8) with 256 in *; change (2 ^ 16) with 65536 in *;
  change (2 ^ 31) with 2147483648 in *;
  change (2 ^ 32) with 4294967296 in *;
  change (2 ^ 63) with 9223372036854775808 in *;
  change (2 ^ 64) with 18446744073709551616 in *.

(** [word_lia]: linear arithmetic with wrap-around made explicit. *)
Ltac word_lia := unfold_words; Z.to_euclidean_division_equations; lia.

Create HintDb words.
Create Rewrite HintDb words.

Lemma u32_id x : is_u32 x -> u32 x = x.
Proof. apply Z.mod_small. Qed.

Lemma u64_id x : is_u64 x -> u64 x = x.
Proof. apply Z.mod_small. Qed.

Lemma i64_id x : is_i64 x -> i64 x = x.
Proof. unfold i64, is_i64; intros; rewrite Z.mod_small; lia. Qed.

Lemma u32_range x : is_u32 (u32 x).
Proof. apply Z.mod_pos_bound; lia. Qed.

Lemma u64_range x : is_u64 (u64 x).
Proof. apply Z.mod_pos_bound; lia. Qed.

Lemma u16_range x : is_u16 (u16 x).
Proof. apply Z.mod_pos_bound; lia. Qed.

#[export] Hint Resolve u32_range u64_range u16_range : words.
#[export] Hint Rewrite u32_id u64_id i64_id using (unfold_words; lia) : words.

Tactic Notation "words" := autorewrite with words.
Tactic Notation "words" "in" hyp(H) := autorewrite with words in H.

(** Bitwise operations stay within a word. *)
Lemma lxor_lt_pow2 w a b :
  0 <= w -> 0 <= a < 2 ^ w -> 0 <= b < 2 ^ w -> 0 <= Z.lxor a b < 2 ^ w.
Proof.
  intros Hw Ha Hb.
  destruct (Z.eq_dec a 0) as [->|]; [by rewrite Z.lxor_0_l|].
  destruct (Z.eq_dec b 0) as [->|]; [by rewrite Z.lxor_0_r|].
  assert (0 <= Z.lxor a b) by (apply Z.lxor_nonneg; lia).
  split; [done|]. destruct (Z.eq_dec (Z.lxor a b) 0) as [->|Hz]; [lia|].
  apply Z.log2_lt_pow2; [lia|].
  eapply Z.le_lt_trans; [apply Z.log2_lxor; lia|].
  apply Z.max_lub_lt; apply Z.log2_lt_pow2; lia.
Qed.

Lemma testbit_pow2 i n : 0 <= i -> Z.testbit (2 ^ i) n = (i =? n).
Proof.
  intros Hi. destruct (Z.eqb_spec i n) as [->|].
  - by apply Z.pow2_bits_true.
  - by apply Z.pow2_bits_false.
Qed.

(** ** Helper macros of include/util.h *)

(** [cnt64_ge a b]: comparison of free-running 64-bit counters, by the sign
    of the difference of the two values seen as [int64_t]. *)
Definition cnt64_ge (a b : Z) : bool := 0 <=? i64 (i64 a - i64 b).
Definition cnt64_gt (a b : Z) : bool := i64 (i64 b - i64 a) <? 0.

Definition DIV_ROUND_UP (n m : Z) : Z := (n + m - 1) / m.
Definition roundup (x y : Z) : Z := ((x + y - 1) / y) * y.

(** ** The errno values the sources use (Linux numbering) *)
Definition ENOENT : Z := 2.
Definition ENAMETOOLONG : Z := 36.
Definition EPERM : Z := 1.
Definition EINTR : Z := 4.
Definition EIO : Z := 5.
Definition ENXIO : Z := 6.
Definition EBADF : Z := 9.
Definition EAGAIN : Z := 11.
Definition ENOMEM : Z := 12.
Definition ENODEV : Z := 19.
Definition EINVAL : Z := 22.
Definition ENOTTY : Z := 25.
Definition ERANGE : Z := 34.
Definition EOVERFLOW : Z := 75.
Definition EOPNOTSUPP : Z := 95.
Definition ENOTSUP : Z := 95.

(** ** Effects

    A C function that returns 0 or a value on success and -1 (or NULL) with
    [errno] set on failure is a computation of the state-and-error monad
    [M S A]: it threads the state [S] it may change and ends in one of
    - [Ok a], success;
    - [Err e], failure with [errno = e];
    - [Abort], [abort()], a failed [assert] or undefined behaviour (an
      access outside an object), after which nothing is promised;
    - [Exit s], [exit(s)];
    - [NoFuel], the loop bound given by the caller was exhausted. *)
Inductive res (A : Type) : Type :=
| Ok (a : A)
| Err (e : Z)
| Abort
| Exit (status : Z)
| NoFuel.
Arguments Ok {A} _.
Arguments Err {A} _.
Arguments Abort {A}.
Arguments Exit {A} _.
Arguments NoFuel {A}.

Definition M (S A : Type) : Type := S -> res A * S.

Section Monad.
Context {S : Type}.

Definition ret {A} (a : A) : M S A := fun s => (Ok a, s).
Definition fail {A} (e : Z) : M S A := fun s => (Err e, s).
Definition abort {A} : M S A := fun s => (Abort, s).
Definition exit_with {A} (status : Z) : M S A := fun s => (Exit status, s).
Definition out_of_fuel {A} : M S A := fun s => (NoFuel, s).

Definition bind {A B} (m : M S A) (k : A -> M S B) : M S B :=
  fun s => match m s with
           | (Ok a, s') => k a s'
           | (Err e, s') => (Err e, s')
           | (Abort, s') => (Abort, s')
           | (Exit c, s') => (Exit c, s')
           | (NoFuel, s') => (NoFuel, s')
           end.

(** [attempt m] makes the success or failure of [m] a value, as a caller
    that tests the sign of the returned [int] does. *)
Definition attempt {A} (m : M S A) : M S (A + Z) :=
  fun s => match m s with
           | (Ok a, s') => (Ok (inl a), s')
           | (Err e, s') => (Ok (inr e), s')
           | (Abort, s') => (Abort, s')
           | (Exit c, s') => (Exit c, s')
           | (NoFuel, s') => (NoFuel, s')
           end.

Definition get_state : M S S := fun s => (Ok s, s).
Definition put_state (s : S) : M S unit := fun _ => (Ok tt, s).
Definition gets {A} (f : S -> A) : M S A := fun s => (Ok (f s), s).
Definition modify (f : S -> S) : M S unit := fun s => (Ok tt, f s).

(** An operation of the environment that reports an error in [errno]. *)
Definition lift_sum {A} (f : S -> (A + Z) * S) : M S A :=
  fun s => match f s with
           | (inl a, s') => (Ok a, s')
           | (inr e, s') => (Err e, s')
           end.

(** [of_option o]: a memory access, undefined when out of bounds. *)
Definition of_option {A} (o : option A) : M S A :=
  match o with Some a => ret a | None => abort end.
End Monad.

Declare Scope prog_scope.
Delimit Scope prog_scope with prog.
Notation "'let*' p ':=' m 'in' k" := (bind m (fun p => k))
  (at level 10, p pattern, m at level 200, k at level 200) : prog_scope.
Notation "m ;; k" := (bind m (fun _ => k))
  (at level 100, right associativity) : prog_scope.
#[global] Open Scope prog_scope.

Section MonadLaws.
Context {S : Type}.

Lemma bind_ret {A B} (a : A) (k : A -> M S B) s : bind (ret a) k s = k a s.
Proof. reflexivity. Qed.

Lemma bind_some {A B} (a : A) (k : A -> M S B) s : bind (of_option (Some a)) k s = k a s.
Proof. reflexivity. Qed.

Lemma bind_gets {A B} (f : S -> A) (k : A -> M S B) s : bind (gets f) k s = k (f s) s.
Proof. reflexivity. Qed.

Lemma bind_modify {B} (f : S -> S) (k : unit -> M S B) s : bind (modify f) k s = k tt (f s).
Proof. reflexivity. Qed.

Lemma bind_ok {A B} (m : M S A) (k : A -> M S B) s a s' :
  m s = (Ok a, s') -> bind m k s = k a s'.
Proof. unfold bind; by intros ->. Qed.

Lemma bind_err {A B} (m : M S A) (k : A -> M S B) s e s' :
  m s = (Err e, s') -> bind m k s = (Err e, s').
Proof. unfold bind; by intros ->. Qed.

Lemma bind_abort {A B} (m : M S A) (k : A -> M S B) s s' :
  m s = (Abort, s') -> bind m k s = (Abort, s').
Proof. unfold bind; by intros ->. Qed.

Lemma bind_ok_inv {A B} (m : M S A) (k : A -> M S B) s b s'' :
  bind m k s = (Ok b, s'') ->
  exists a s', m s = (Ok a, s') /\ k a s' = (Ok b, s'').
Proof. unfold bind; destruct (m s) as [[] ?]; naive_solver. Qed.

Lemma bind_assoc {A B C} (m : M S A) (f : A -> M S B) (g : B -> M S C) s :
  bind (bind m f) g s = bind m (fun a => bind (f a) g) s.
Proof. unfold bind; by destruct (m s) as [[] ?]. Qed.
End MonadLaws.

(** [run_bind]: advance a computation over a step whose result is known. *)
Ltac run_bind :=
  match goal with
  | |- context [bind ?m ?k ?s] =>
    match goal with
    | H : m s = (Ok _, _) |- _ => rewrite (bind_ok m k s _ _ H)
    | H : m s = (Err _, _) |- _ => rewrite (bind_err m k s _ _ H)
    end
  | |- context [bind (ret _) _ _] => rewrite bind_ret
  end.

(** [inv_bind H]: split a successful run into the run of its steps. *)
Ltac inv_bind H :=
  let a := fresh "a" in let s := fresh "s" in
  let H1 := fresh "Hrun" in
  apply bind_ok_inv in H as (a & s & H1 & H).

(** [case_if]: split on the test of a conditional, as a comparison. *)
Ltac case_if :=
  match goal with
  | |- context [if ?a <? ?b then _ else _] => destruct (Z.ltb_spec a b)
  | |- context [if ?a <=? ?b then _ else _] => destruct (Z.leb_spec a b)
  | |- context [if ?a =? ?b then _ else _] => destruct (Z.eqb_spec a b)
  | |- context [if ?b then _ else _] => destruct b eqn:?
  end.

Ltac case_if_in H :=
  match type of H with
  | context [if ?a <? ?b then _ else _] => destruct (Z.ltb_spec a b)
  | context [if ?a <=? ?b then _ else _] => destruct (Z.leb_spec a b)
  | context [if ?a =? ?b then _ else _] => destruct (Z.eqb_spec a b)
  | context [if ?b then _ else _] => destruct b eqn:?
  end.

(** ** The standard library's [qsort]

    C leaves the order of elements that compare equal unspecified; the model
    is a stable insertion sort driven by the sign of the comparison function.
    The facts below ask of a comparison only what its sign means, so that
    they also hold of comparison functions that never return 0. *)
Section Qsort.
Context {A : Type} (cmp : A -> A -> Z).

Fixpoint insert_sorted (x : A) (l : list A) : list A :=
  match l with
  | [] => [x]
  | y :: l' => if cmp x y <=? 0 then x :: y :: l' else y :: insert_sorted x l'
  end.

Definition qsort (l : list A) : list A := foldr insert_sorted [] l.

Lemma insert_sorted_perm x l : insert_sorted x l ≡ₚ x :: l.
Proof.
  induction l as [|y l IH]; simpl; [done|].
  case_if; [done|]. by rewrite IH, Permutation_swap.
Qed.

Lemma qsort_perm l : qsort l ≡ₚ l.
Proof. induction l as [|x l IH]; simpl; [done|]. by rewrite insert_sorted_perm, IH. Qed.

Lemma qsort_length l : length (qsort l) = length l.
Proof. apply Permutation_length, qsort_perm. Qed.

Lemma elem_of_qsort x l : x ∈ qsort l <-> x ∈ l.
Proof. by rewrite qsort_perm. Qed.

Context (L : relation A) `{!Transitive L}.
Hypothesis cmp_le : forall x y, cmp x y <= 0 -> L x y.
Hypothesis cmp_gt : forall x y, 0 < cmp x y -> L y x.

Lemma insert_sorted_sorted x l :
  StronglySorted L l -> StronglySorted L (insert_sorted x l).
Proof.
  induction 1 as [|y l Hl IH Hy]; simpl; [repeat constructor|].
  case_if.
  - constructor; [by constructor|]. constructor; [by apply cmp_le|].
    eapply Forall_impl; [exact Hy|]. intros z Hz. transitivity y; [by apply cmp_le|done].
  - constructor; [done|]. rewrite insert_sorted_perm. constructor; [|done].
    apply cmp_gt; lia.
Qed.

Lemma qsort_sorted l : StronglySorted L (qsort l).
Proof. induction l; simpl; [constructor|]. by apply insert_sorted_sorted. Qed.
End Qsort.

Lemma StronglySorted_impl {A} (R1 R2 : relation A) l :
  (forall x y, R1 x y -> R2 x y) -> StronglySorted R1 l -> StronglySorted R2 l.
Proof.
  intros HR; induction 1 as [|x l Hl IH Hx]; constructor; [done|].
  eapply Forall_impl; [exact Hx|]. by apply HR.
Qed.

(** Sorting images, and with a comparison that agrees on the elements. *)
Lemma insert_sorted_ext {A} (c1 c2 : A -> A -> Z) x l :
  (forall y, y ∈ l -> c1 x y = c2 x y) -> insert_sorted c1 x l = insert_sorted c2 x l.
Proof.
  induction l as [|y l IH]; intros Hc; simpl; [done|].
  rewrite Hc by by left. case_if; [done|]. f_equal. apply IH. intros z Hz. apply Hc. by right.
Qed.

Lemma qsort_ext {A} (c1 c2 : A -> A -> Z) l :
  (forall x y, x ∈ l -> y ∈ l -> c1 x y = c2 x y) -> qsort c1 l = qsort c2 l.
Proof.
  induction l as [|x l IH]; intros Hc; simpl; [done|].
  rewrite <- IH by (intros; apply Hc; by right).
  apply insert_sorted_ext. intros y Hy%elem_of_qsort. apply Hc; [by left|by right].
Qed.

Lemma qsort_fmap {A B} (f : A -> B) (cmp : B -> B -> Z) l :
  qsort cmp (f <$> l) = f <$> qsort (fun x y => cmp (f x) (f y)) l.
Proof.
  assert (Hi : forall x l, insert_sorted cmp (f x) (f <$> l) =
                           f <$> insert_sorted (fun x y => cmp (f x) (f y)) x l).
  { intros x k; induction k as [|y k IH]; [done|]. rewrite fmap_cons. cbn [insert_sorted].
    case_if; [done|]. by rewrite fmap_cons, IH. }
  induction l as [|x l IH]; [done|]. rewrite fmap_cons.
  change (qsort cmp (f x :: (f <$> l))) with (insert_sorted cmp (f x) (qsort cmp (f <$> l))).
  by rewrite IH, Hi.
Qed.

(** ** Lists of words *)

(** Filtering a list whose elements all pass, or all fail, the test. *)
Lemma filter_all_pass {A} (P : A -> Prop) `{forall x, Decision (P x)} l :
  Forall P l -> filter P l = l.
Proof. induction 1 as [|x l Hx _ IH]; [done|]. rewrite filter_cons_True by done. by f_equal. Qed.

Lemma filter_all_fail {A} (P : A -> Prop) `{forall x, Decision (P x)} l :
  Forall (fun x => ~ P x) l -> filter P l = [].
Proof. induction 1 as [|x l Hx _ IH]; [done|]. by rewrite filter_cons_False. Qed.

Lemma list_take_drop_delete {A} (l : list A) (i n : nat) :
  (i + n <= length l)%nat ->
  length (take i l ++ drop (i + n) l) = (length l - n)%nat.
Proof. intros; rewrite length_app, length_take, length_drop; lia. Qed.

(** The two ways in which a [Forall] follows from a lookup. *)
Definition sum_Z (l : list Z) : Z := foldr Z.add 0 l.

Lemma sum_Z_cons x l : sum_Z (x :: l) = x + sum_Z l.
Proof. reflexivity. Qed.

Lemma sum_Z_le {A} (f g : A -> Z) l : Forall (fun x => f x <= g x) l -> sum_Z (f <$> l) <= sum_Z (g <$> l).
Proof. induction 1 as [|x l Hx Hl IH]; [done|]. cbn [fmap list_fmap]. rewrite !sum_Z_cons. lia. Qed.

Lemma Forall_lookup_total_Z {A} (P : A -> Prop) (l : list A) :
  (forall (i : nat) x, l !! i = Some x -> P x) -> Forall P l.
Proof. intros H; apply Forall_lookup; eauto. Qed.
