(* ===== verification/Vector.v ===== *)
(** * The resizable array of lib/vector.c and include/vector.h

    A vector owns an allocation of [v_maxelems] cells of which the first
    [v_nelems] are in use.  The model keeps every cell, so that the contents
    of a freshly obtained element ([junk], what the allocator left there) and
    the moves done by [memmove] are visible; [elems] is the abstract list the
    vector stands for, and the theorems state each operation on it. *)

From S2P Require Import Prelude.

(** The part of the environment the allocator needs: [malloc n] says whether
    [n] bytes could be obtained. *)
Class Alloc (S : Type) := malloc : Z -> S -> bool * S.

Definition m_malloc {S} `{Alloc S} (n : Z) : M S unit :=
  fun s => match malloc n s with
           | (true, s') => (Ok tt, s')
           | (false, s') => (Err ENOMEM, s')
           end.

Definition NILFS_VECTOR_INIT_MAXELEMS : Z := 256.
Definition NILFS_VECTOR_FACTOR : Z := 2.
Definition sizeof_nilfs_vector : Z := 32.

Record nilfs_vector (A : Type) := mk_vector {
  v_data : list A;
  v_elemsize : Z;
  v_nelems : Z;
  v_maxelems : Z;
}.
Arguments mk_vector {A} _ _ _ _.
Arguments v_data {A} _.
Arguments v_elemsize {A} _.
Arguments v_nelems {A} _.
Arguments v_maxelems {A} _.

(** The cells in use. *)
Definition elems {A} (v : nilfs_vector A) : list A :=
  take (Z.to_nat (v_nelems v)) (v_data v).

(** Representation invariant. *)
Record vec_wf {A} (v : nilfs_vector A) : Prop := {
  wf_elemsize : 0 < v_elemsize v;
  wf_nelems : 0 <= v_nelems v <= v_maxelems v;
  wf_data : Z.of_nat (length (v_data v)) = v_maxelems v;
  wf_maxelems : NILFS_VECTOR_INIT_MAXELEMS <= v_maxelems v;
  wf_bytes : v_elemsize v * v_maxelems v <= SIZE_MAX;
}.

Section Cells.
Context {A : Type}.

(** [memmove] of [n] cells from offset [src] to offset [dst] of one
    allocation; an access outside of it is undefined. *)
Definition memmove_cells (dst src n : Z) (l : list A) : option (list A) :=
  if (dst + n <=? Z.of_nat (length l)) && (src + n <=? Z.of_nat (length l)) then
    Some (take (Z.to_nat dst) l ++ take (Z.to_nat n) (drop (Z.to_nat src) l)
          ++ drop (Z.to_nat (dst + n)) l)
  else None.

(** [realloc]: keep what fits, leave the rest unspecified. *)
Definition realloc_cells (junk : A) (n : Z) (l : list A) : list A :=
  resize (Z.to_nat n) junk l.
End Cells.

Section Vector.
Context {S : Type} `{Alloc S} {A : Type} (junk : A).
Implicit Types v : nilfs_vector A.

Definition nilfs_vector_create (elemsize : Z) : M S (nilfs_vector A) :=
  if elemsize =? 0 then fail EINVAL
  else
    m_malloc sizeof_nilfs_vector ;;
    let bytes := u64 (elemsize * NILFS_VECTOR_INIT_MAXELEMS) in
    m_malloc bytes ;;
    ret (mk_vector (replicate (Z.to_nat (bytes / elemsize)) junk)
                   elemsize 0 NILFS_VECTOR_INIT_MAXELEMS).

(** The [do ... while] of [nilfs_vector_enlarge]: the new capacity. *)
Fixpoint enlarge_loop (fuel : nat) (nelems_limit minelems maxelems : Z) : res Z :=
  match fuel with
  | O => NoFuel
  | Datatypes.S fuel' =>
    if nelems_limit <? maxelems then Err EOVERFLOW
    else
      let maxelems' := u64 (maxelems * NILFS_VECTOR_FACTOR) in
      if maxelems' <? minelems then enlarge_loop fuel' nelems_limit minelems maxelems'
      else Ok maxelems'
  end.

Definition ENLARGE_FUEL : nat := 64.

Definition nilfs_vector_enlarge (v : nilfs_vector A) (minelems : Z)
  : M S (nilfs_vector A) :=
  let nelems_limit := (SIZE_MAX / NILFS_VECTOR_FACTOR) / v_elemsize v in
  let* maxelems := (fun s => (enlarge_loop ENLARGE_FUEL nelems_limit minelems
                                (v_maxelems v), s)) in
  let bytes := u64 (v_elemsize v * maxelems) in
  m_malloc bytes ;;
  ret (mk_vector (realloc_cells junk (bytes / v_elemsize v) (v_data v))
                 (v_elemsize v) (v_nelems v) maxelems).

(** Returns the index of the new element with the updated vector. *)
Definition nilfs_vector_get_new_element (v : nilfs_vector A)
  : M S (Z * nilfs_vector A) :=
  let* v := (if v_maxelems v <=? v_nelems v
             then nilfs_vector_enlarge v (u64 (v_nelems v + 1)) else ret v) in
  ret (v_nelems v,
       mk_vector (v_data v) (v_elemsize v) (u64 (v_nelems v + 1)) (v_maxelems v)).

Definition nilfs_vector_delete_elements (v : nilfs_vector A) (index nelems : Z)
  : M S (nilfs_vector A) :=
  if (v_nelems v <=? index) || (v_nelems v <=? u64 (index + nelems - 1))
  then fail EINVAL
  else
    let* data :=
      (if u64 (index + nelems - 1) <? u64 (v_nelems v - 1)
       then of_option (memmove_cells index (u64 (index + nelems))
                         (u64 (v_nelems v - u64 (index + nelems))) (v_data v))
       else ret (v_data v)) in
    ret (mk_vector data (v_elemsize v) (u64 (v_nelems v - nelems)) (v_maxelems v)).

(** A failing [realloc] is ignored ([errno] is restored). *)
Definition nilfs_vector_clear (v : nilfs_vector A) : M S (nilfs_vector A) :=
  let maxelems := NILFS_VECTOR_INIT_MAXELEMS in
  let* v' :=
    (if maxelems <? v_maxelems v then
       let bytes := u64 (v_elemsize v * maxelems) in
       let* r := attempt (m_malloc bytes) in
       match r with
       | inl _ => ret (mk_vector (realloc_cells junk (bytes / v_elemsize v) (v_data v))
                                 (v_elemsize v) (v_nelems v) maxelems)
       | inr _ => ret v
       end
     else ret v) in
  ret (mk_vector (v_data v') (v_elemsize v') 0 (v_maxelems v')).

(** The end of [nilfs_vector_insert_elements], once the array is large
    enough: open the gap and count the new elements. *)
Definition insert_gap (v : nilfs_vector A) (index nelems : Z)
  : M S (Z * nilfs_vector A) :=
  let* data :=
    (if index <? v_nelems v
     then of_option (memmove_cells (u64 (index + nelems)) index
                       (v_nelems v - index) (v_data v))
     else ret (v_data v)) in
  ret (index, mk_vector data (v_elemsize v) (u64 (v_nelems v + nelems)) (v_maxelems v)).

(** Returns the index of the first inserted element with the vector. *)
Definition nilfs_vector_insert_elements (v : nilfs_vector A) (index nelems : Z)
  : M S (Z * nilfs_vector A) :=
  if v_nelems v <? index then fail EINVAL
  else if SIZE_MAX - v_nelems v <? nelems then fail EOVERFLOW
  else
    let* v := (if v_maxelems v <? u64 (v_nelems v + nelems)
               then nilfs_vector_enlarge v (u64 (v_nelems v + nelems)) else ret v) in
    insert_gap v index nelems.

Definition nilfs_vector_get_size (v : nilfs_vector A) : Z := v_nelems v.

(** The pointer returned by the C function, as the index of the cell. *)
Definition nilfs_vector_get_element (v : nilfs_vector A) (index : Z) : option Z :=
  if index <? v_nelems v then Some index else None.

Definition nilfs_vector_delete_element (v : nilfs_vector A) (index : Z)
  : M S (nilfs_vector A) := nilfs_vector_delete_elements v index 1.

Definition nilfs_vector_insert_element (v : nilfs_vector A) (index : Z)
  : M S (Z * nilfs_vector A) := nilfs_vector_insert_elements v index 1.

Definition nilfs_vector_sort (compar : A -> A -> Z) (v : nilfs_vector A)
  : nilfs_vector A :=
  mk_vector (qsort compar (elems v) ++ drop (Z.to_nat (v_nelems v)) (v_data v))
            (v_elemsize v) (v_nelems v) (v_maxelems v).

(** Accesses through a returned pointer: read the cell, or replace it by a
    function of what it held (the C code assigns single fields). *)
Definition read_cell (v : nilfs_vector A) (i : Z) : option A :=
  v_data v !! Z.to_nat i.

Definition write_cell (v : nilfs_vector A) (i : Z) (f : A -> A) : nilfs_vector A :=
  mk_vector (alter f (Z.to_nat i) (v_data v)) (v_elemsize v) (v_nelems v) (v_maxelems v).
End Vector.

(** ** The capacity loop *)

Section Enlarge.
Lemma enlarge_loop_ok fuel limit minelems maxelems m :
  0 < maxelems -> 0 <= limit -> 2 * limit <= SIZE_MAX ->
  enlarge_loop fuel limit minelems maxelems = Ok m ->
  minelems <= m /\ 2 * maxelems <= m <= 2 * limit.
Proof.
  intros Hmax Hlim Hl2; revert maxelems Hmax.
  induction fuel as [|fuel IH]; intros maxelems Hmax; simpl; [done|].
  case_if; [done|]. unfold NILFS_VECTOR_FACTOR.
  rewrite u64_id by (unfold_words; lia).
  case_if; [intros Hr; apply IH in Hr; lia|]. intros [= <-]; lia.
Qed.

Lemma enlarge_loop_fuel fuel limit minelems maxelems :
  0 < maxelems -> 2 * limit <= SIZE_MAX -> limit < maxelems * 2 ^ Z.of_nat fuel ->
  enlarge_loop (Datatypes.S fuel) limit minelems maxelems <> NoFuel.
Proof.
  intros Hmax Hl2; revert maxelems Hmax.
  induction fuel as [|fuel IH]; intros maxelems Hmax Hlt.
  - simpl in *. case_if; [done|lia].
  - rewrite Nat2Z.inj_succ, Z.pow_succ_r in Hlt by lia. remember (Datatypes.S fuel) as f.
    simpl. case_if; [done|]. case_if; [|done]. unfold NILFS_VECTOR_FACTOR in *.
    rewrite u64_id in * by (unfold_words; lia). subst f. apply IH; lia.
Qed.

Lemma enlarge_loop_spec limit minelems maxelems :
  0 < maxelems -> 0 <= limit -> 2 * limit <= SIZE_MAX ->
  match enlarge_loop ENLARGE_FUEL limit minelems maxelems with
  | Ok m => minelems <= m /\ 2 * maxelems <= m <= 2 * limit
  | Err e => e = EOVERFLOW
  | _ => False
  end.
Proof.
  intros Hmax Hlim Hl2.
  assert (Herr : forall f x, match enlarge_loop f limit minelems x with
    | Ok _ | NoFuel => True | Err e => e = EOVERFLOW | _ => False end).
  { induction f as [|f IH]; intros x; simpl; [done|].
    case_if; [done|]. case_if; [apply IH|done]. }
  assert (Hf : enlarge_loop ENLARGE_FUEL limit minelems maxelems <> NoFuel).
  { apply (enlarge_loop_fuel 63); [done..|].
    change (2 ^ Z.of_nat 63) with (2 ^ 63). unfold_words; lia. }
  specialize (Herr ENLARGE_FUEL maxelems).
  pose proof (enlarge_loop_ok ENLARGE_FUEL limit minelems maxelems) as Hok.
  destruct (enlarge_loop _ _ _ _); try done. by apply Hok.
Qed.
End Enlarge.

Section VectorFacts.
Context {S : Type} `{Alloc S} {A : Type} (junk : A).
Implicit Types v : nilfs_vector A.

Lemma elems_length v : vec_wf v -> Z.of_nat (length (elems v)) = v_nelems v.
Proof. intros []; unfold elems; rewrite length_take; lia. Qed.

Lemma vec_wf_bounds v : vec_wf v -> 0 <= v_nelems v < 2 ^ 64 /\ v_maxelems v < 2 ^ 64.
Proof. intros []; unfold_words; nia. Qed.

Lemma resize_take (n m : nat) (l : list A) :
  (n <= m)%nat -> (n <= length l)%nat -> take n (resize m junk l) = take n l.
Proof.
  intros Hn Hm. destruct (decide (m <= length l)%nat).
  - rewrite resize_le by done. rewrite take_take. f_equal; lia.
  - rewrite resize_ge by lia. by rewrite take_app_le.
Qed.

Lemma div_bytes e m : 0 < e -> 0 <= m -> e * m <= SIZE_MAX -> u64 (e * m) / e = m.
Proof.
  intros. rewrite u64_id by (unfold_words; nia).
  rewrite Z.mul_comm, Z.div_mul; lia.
Qed.

(** Growing or shrinking an allocation to [m] cells that still hold the
    elements keeps the elements. *)
Lemma resize_wf v m :
  vec_wf v -> v_nelems v <= m -> NILFS_VECTOR_INIT_MAXELEMS <= m ->
  v_elemsize v * m <= SIZE_MAX ->
  let v' := mk_vector (realloc_cells junk (u64 (v_elemsize v * m) / v_elemsize v) (v_data v))
                      (v_elemsize v) (v_nelems v) m in
  vec_wf v' /\ elems v' = elems v.
Proof.
  intros [] Hn Hm Hb v'; unfold NILFS_VECTOR_INIT_MAXELEMS in *; subst v'.
  unfold elems, realloc_cells; simpl. rewrite div_bytes by lia.
  split; [|apply resize_take; lia].
  constructor; simpl; try done; [lia|]. rewrite length_resize. lia.
Qed.

Lemma enlarge_limit e : 0 < e ->
  let limit := (SIZE_MAX / NILFS_VECTOR_FACTOR) / e in
  0 <= limit /\ 2 * limit <= SIZE_MAX /\ 2 * limit * e <= SIZE_MAX.
Proof.
  intros He limit. unfold NILFS_VECTOR_FACTOR, SIZE_MAX in limit.
  change ((2 ^ 64 - 1) / 2) with (2 ^ 63 - 1) in limit.
  assert (limit * e <= 2 ^ 63 - 1) by (unfold limit; rewrite Z.mul_comm; apply Z.mul_div_le; lia).
  assert (0 <= limit) by (apply Z.div_pos; lia). unfold_words. nia.
Qed.

(** [nilfs_vector_enlarge] either yields a well-formed vector with the same
    elements and at least the requested capacity, or fails with EOVERFLOW
    or ENOMEM; it always terminates. *)
Lemma enlarge_spec v minelems s : vec_wf v ->
  match nilfs_vector_enlarge junk v minelems s with
  | (Ok v', _) => vec_wf v' /\ elems v' = elems v /\ v_nelems v' = v_nelems v /\
                  v_elemsize v' = v_elemsize v /\
                  minelems <= v_maxelems v' /\ 2 * v_maxelems v <= v_maxelems v'
  | (Err e, _) => e = EOVERFLOW \/ e = ENOMEM
  | _ => False
  end.
Proof.
  intros Hwf. unfold nilfs_vector_enlarge, bind, m_malloc, ret.
  pose proof Hwf as [He Hn Hd Hm Hb]. unfold NILFS_VECTOR_INIT_MAXELEMS in Hm.
  destruct (enlarge_limit (v_elemsize v)) as (Hl0 & Hl1 & Hl2); [done|].
  epose proof (enlarge_loop_spec _ minelems (v_maxelems v) _ Hl0 Hl1) as Hloop.
  destruct (enlarge_loop _ _ _ _) as [m|e| | |]; try done; [|by left].
  destruct (malloc _ s) as [[] s']; [|by right]; simpl.
  edestruct (resize_wf v m Hwf) as [Hw Hel];
    [lia|unfold NILFS_VECTOR_INIT_MAXELEMS; lia|nia|].
  simpl in Hw, Hel |- *. split_and!; try done; lia.
  Unshelve. lia.
Qed.

Lemma create_spec e s : 0 < e -> e * NILFS_VECTOR_INIT_MAXELEMS <= SIZE_MAX ->
  match nilfs_vector_create junk e s with
  | (Ok v, _) => vec_wf v /\ elems v = []
  | (Err e, _) => e = ENOMEM
  | _ => False
  end.
Proof.
  intros He Hb. unfold nilfs_vector_create, bind, m_malloc, ret.
  destruct (Z.eqb_spec e 0); [lia|].
  destruct (malloc _ s) as [[] s']; [|done]. destruct (malloc _ s') as [[] s'']; [|done].
  unfold NILFS_VECTOR_INIT_MAXELEMS in *. rewrite div_bytes by lia.
  split; [|done]. by constructor; simpl; try lia.
Qed.

(** A new element goes to the end; what it holds is whatever the cell held. *)
Lemma get_new_element_spec v s : vec_wf v ->
  match nilfs_vector_get_new_element junk v s with
  | (Ok (i, v'), _) => vec_wf v' /\ i = v_nelems v /\ v_nelems v' = v_nelems v + 1 /\
                       v_elemsize v' = v_elemsize v /\
                       exists x, elems v' = elems v ++ [x]
  | (Err e, _) => e = EOVERFLOW \/ e = ENOMEM
  | _ => False
  end.
Proof.
  intros Hwf. unfold nilfs_vector_get_new_element, bind at 1.
  assert (Hstep : forall v1, vec_wf v1 -> v_nelems v1 < v_maxelems v1 ->
    let v' := mk_vector (v_data v1) (v_elemsize v1) (u64 (v_nelems v1 + 1)) (v_maxelems v1) in
    vec_wf v' /\ v_nelems v' = v_nelems v1 + 1 /\ exists x, elems v' = elems v1 ++ [x]).
  { intros v1 Hw1 Hlt v'. pose proof (vec_wf_bounds _ Hw1). destruct Hw1; subst v'; simpl.
    rewrite u64_id by (unfold_words; lia). split_and!; [constructor; simpl; lia|done|].
    unfold elems; simpl. rewrite Z2Nat.inj_add by lia.
    destruct (lookup_lt_is_Some_2 (v_data v1) (Z.to_nat (v_nelems v1))) as [x Hx]; [lia|].
    exists x. replace (Z.to_nat (v_nelems v1) + Z.to_nat 1)%nat
      with (Datatypes.S (Z.to_nat (v_nelems v1))) by lia. by apply take_S_r. }
  case_if.
  - pose proof (enlarge_spec v (u64 (v_nelems v + 1)) s Hwf) as He.
    destruct (nilfs_vector_enlarge junk v _ s) as [[v1| | | |] s1]; try done; simpl.
    destruct He as (Hw1 & He1 & Hn1 & Hs1 & ? & ?).
    pose proof (wf_nelems _ Hwf). pose proof (wf_maxelems _ Hwf). unfold NILFS_VECTOR_INIT_MAXELEMS in *.
    destruct (Hstep v1 Hw1) as (? & ? & ?); [lia|]. rewrite Hn1, Hs1, He1 in *. eauto.
  - simpl. destruct (Hstep v Hwf) as (? & ? & ?); [lia|]. eauto.
Qed.
End VectorFacts.

(** ** Operations that stay within the allocation *)

Section VectorOps.
Context {S : Type} `{Alloc S} {A : Type} (junk : A).
Implicit Types v : nilfs_vector A.

(** Changing the cells and the count inside one allocation. *)
Lemma vec_wf_update v (data : list A) n :
  vec_wf v -> length data = length (v_data v) -> 0 <= n <= v_maxelems v ->
  vec_wf (mk_vector data (v_elemsize v) n (v_maxelems v)).
Proof. intros [] Hl Hn; constructor; simpl; lia. Qed.

Lemma memmove_cells_length dst src n (l l' : list A) :
  0 <= dst -> 0 <= src -> 0 <= n ->
  memmove_cells dst src n l = Some l' -> length l' = length l.
Proof.
  unfold memmove_cells; intros ???; case_if; [|done]. intros [= <-].
  apply andb_true_iff in Heqb as [?%Z.leb_le ?%Z.leb_le].
  rewrite !length_app, !length_take, !length_drop. lia.
Qed.

Lemma take_memmove_down (i n m : nat) (l : list A) :
  (i + n <= m)%nat -> (m <= length l)%nat ->
  take (m - n) (take i l ++ take (m - (i + n)) (drop (i + n) l)
                ++ drop (i + (m - (i + n))) l)
  = take i (take m l) ++ drop (i + n) (take m l).
Proof.
  intros. rewrite take_take, Nat.min_l by lia.
  rewrite skipn_firstn_comm. rewrite app_assoc, take_app_le.
  - rewrite take_ge; [done|]. rewrite length_app, !length_take, length_drop. lia.
  - rewrite length_app, !length_take, length_drop. lia.
Qed.

(** The end of the range wraps around: the check passes, and in a full array
    the move runs over its end. *)
Lemma delete_elements_wraps v index n (s : S) :
  vec_wf v -> v_nelems v = v_maxelems v -> 0 <= index < v_nelems v ->
  n < 2 ^ 64 -> 2 ^ 64 < index + n ->
  nilfs_vector_delete_elements v index n s = (Abort, s).
Proof.
  intros Hwf Hf Hi Hn Hw. pose proof (vec_wf_bounds _ Hwf). pose proof Hwf as [He Hne Hd Hm Hb].
  unfold nilfs_vector_delete_elements.
  replace (u64 (index + n - 1)) with (index + n - 1 - 2 ^ 64) by word_lia.
  replace (u64 (index + n)) with (index + n - 2 ^ 64) by word_lia.
  rewrite (u64_id (v_nelems v - 1)) by (unfold_words; lia).
  rewrite (u64_id (v_nelems v - _)) by (unfold_words; lia).
  replace (v_nelems v <=? index) with false by lia.
  replace (v_nelems v <=? index + n - 1 - 2 ^ 64) with false by lia.
  replace (index + n - 1 - 2 ^ 64 <? v_nelems v - 1) with true by lia.
  assert (Hlen : Z.of_nat (length (v_data v)) <
                 index + (v_nelems v - (index + n - 2 ^ 64))) by lia.
  unfold memmove_cells. rewrite (proj2 (Z.leb_gt _ _)) by exact Hlen. done.
Qed.

Lemma delete_elements_spec v index n (s : S) :
  vec_wf v -> 0 <= index -> 0 <= n -> index + n <= 2 ^ 64 ->
  if (index <? v_nelems v) && (index + n <=? v_nelems v) && ((0 <? n) || (0 <? index))
  then exists v', nilfs_vector_delete_elements v index n s = (Ok v', s) /\ vec_wf v' /\
         elems v' = take (Z.to_nat index) (elems v) ++ drop (Z.to_nat (index + n)) (elems v)
  else nilfs_vector_delete_elements v index n s = (Err EINVAL, s).
Proof.
  intros Hwf Hi Hn Hr. pose proof (vec_wf_bounds _ Hwf). pose proof Hwf as [He Hne Hd Hm Hb].
  unfold nilfs_vector_delete_elements.
  assert (Hsub : (index = 0 /\ n = 0 /\ u64 (index + n - 1) = 2 ^ 64 - 1) \/
                 (0 <= index + n - 1 /\ u64 (index + n - 1) = index + n - 1)).
  { destruct (decide (index + n = 0)); [left|right]; word_lia. }
  destruct (Z.ltb_spec index (v_nelems v)), (Z.leb_spec (index + n) (v_nelems v)); simpl;
    [|repeat case_if; try done; simpl in *; lia..].
  destruct Hsub as [(-> & -> & Hs)|[Hp Hs]]; rewrite Hs.
  { change (0 + 0) with 0.
    replace ((v_nelems v <=? 0) || (v_nelems v <=? 2 ^ 64 - 1)) with true by lia. done. }
  replace ((0 <? n) || (0 <? index)) with true by lia.
  replace ((v_nelems v <=? index) || (v_nelems v <=? index + n - 1)) with false by lia.
  rewrite (u64_id (v_nelems v - 1)), (u64_id (index + n)) by (unfold_words; lia).
  rewrite (u64_id (v_nelems v - n)), (u64_id (v_nelems v - (index + n))) by (unfold_words; lia).
  case_if.
  - unfold memmove_cells.
    replace ((index + (v_nelems v - (index + n)) <=? Z.of_nat (length (v_data v))) &&
             (index + n + (v_nelems v - (index + n)) <=? Z.of_nat (length (v_data v))))
      with true by lia.
    simpl. eexists; split_and!; [reflexivity| |].
    + apply vec_wf_update; [done| |lia].
      rewrite !length_app, !length_take, !length_drop. lia.
    + unfold elems; simpl.
      set (m := Z.to_nat (v_nelems v)). set (i := Z.to_nat index). set (k := Z.to_nat n).
      replace (Z.to_nat (index + n)) with (i + k)%nat by lia.
      replace (Z.to_nat (v_nelems v - n)) with (m - k)%nat by lia.
      replace (Z.to_nat (v_nelems v - (index + n))) with (m - (i + k))%nat by lia.
      replace (Z.to_nat (index + (v_nelems v - (index + n))))
        with (i + (m - (i + k)))%nat by lia.
      apply take_memmove_down; lia.
  - eexists; split_and!; [reflexivity|by apply vec_wf_update; [..|lia]|].
    unfold elems; simpl. rewrite (drop_ge (take _ _)) by (rewrite length_take; lia).
    rewrite app_nil_r, take_take. f_equal; lia.
Qed.

Lemma clear_spec v (s : S) : vec_wf v ->
  exists v' s', nilfs_vector_clear junk v s = (Ok v', s') /\ vec_wf v' /\ elems v' = [].
Proof.
  intros Hwf. pose proof Hwf as [He Hn Hd Hm Hb].
  unfold nilfs_vector_clear, attempt, bind, m_malloc, ret. simpl.
  case_if; [|do 2 eexists; split_and!; [reflexivity| |done];
             by apply vec_wf_update; [..|lia]].
  destruct (malloc _ s) as [[] s']; simpl.
  - do 2 eexists; split_and!; [reflexivity| |done].
    unfold NILFS_VECTOR_INIT_MAXELEMS in *.
    constructor; simpl; unfold NILFS_VECTOR_INIT_MAXELEMS; try lia; try nia.
    unfold realloc_cells. rewrite div_bytes, length_resize by nia. lia.
  - do 2 eexists; split_and!; [reflexivity| |done]. by apply vec_wf_update; [..|lia].
Qed.

Lemma elems_write_cell v i f :
  vec_wf v -> 0 <= i < v_nelems v ->
  vec_wf (write_cell v i f) /\ elems (write_cell v i f) = alter f (Z.to_nat i) (elems v).
Proof.
  intros Hwf Hi. pose proof Hwf as [He Hn Hd Hm Hb]. split.
  - apply vec_wf_update; [done|apply length_alter|done].
  - unfold elems; simpl. rewrite take_alter_lt by lia. done.
Qed.

Lemma sort_spec compar v : vec_wf v ->
  vec_wf (nilfs_vector_sort compar v) /\
  elems (nilfs_vector_sort compar v) = qsort compar (elems v).
Proof.
  intros Hwf. pose proof Hwf as [He Hn Hd Hm Hb].
  pose proof (elems_length v Hwf) as Hl. pose proof (qsort_length compar (elems v)) as Hq.
  split.
  - apply vec_wf_update; [done| |done]. rewrite length_app, length_drop, Hq. lia.
  - unfold elems at 1; simpl. rewrite take_app_le, take_ge by lia. done.
Qed.
End VectorOps.

Section VectorInsert.
Context {S : Type} `{Alloc S} {A : Type} (junk : A).
Implicit Types v : nilfs_vector A.

Lemma take_memmove_up (i n m : nat) (l : list A) :
  (i <= m)%nat -> (m + n <= length l)%nat ->
  exists gap, length gap = n /\
  take (m + n) (take (i + n) l ++ take (m - i) (drop i l) ++ drop (i + n + (m - i)) l)
  = take i (take m l) ++ gap ++ drop i (take m l).
Proof.
  intros Hi Hm. exists (take n (drop i l)). split.
  { rewrite length_take, length_drop; lia. }
  rewrite take_take, Nat.min_l by lia.
  rewrite skipn_firstn_comm, app_assoc, take_app_le, take_ge;
    rewrite ?length_app, ?length_take, ?length_drop; try lia.
  rewrite app_assoc. f_equal. symmetry. apply take_take_drop.
Qed.

Definition inserted v v' (index n : Z) : Prop :=
  vec_wf v' /\ v_nelems v' = v_nelems v + n /\
  exists gap, length gap = Z.to_nat n /\
    elems v' = take (Z.to_nat index) (elems v) ++ gap ++ drop (Z.to_nat index) (elems v).

Lemma insert_gap_spec v index n (s : S) :
  vec_wf v -> 0 <= index <= v_nelems v -> 0 <= n -> v_nelems v + n <= v_maxelems v ->
  exists v', insert_gap v index n s = (Ok (index, v'), s) /\ inserted v v' index n.
Proof.
  intros Hw Hi Hn Hc. pose proof (vec_wf_bounds _ Hw). pose proof Hw as [_ Hne Hd Hm Hb].
  unfold insert_gap, inserted, elems. rewrite !(u64_id) by (unfold_words; lia). simpl.
  set (i := Z.to_nat index). set (k := Z.to_nat n). set (m := Z.to_nat (v_nelems v)).
  case_if.
  - unfold memmove_cells.
    replace ((index + n + (v_nelems v - index) <=? Z.of_nat (length (v_data v))) &&
             (index + (v_nelems v - index) <=? Z.of_nat (length (v_data v))))
      with true by lia.
    eexists; split_and!; [reflexivity| |done|].
    + apply vec_wf_update; [done| |lia].
      rewrite !length_app, !length_take, !length_drop. lia.
    + simpl. replace (Z.to_nat (index + n)) with (i + k)%nat by lia.
      replace (Z.to_nat (v_nelems v - index)) with (m - i)%nat by lia.
      replace (Z.to_nat (index + n + (v_nelems v - index))) with (i + k + (m - i))%nat by lia.
      replace (Z.to_nat (v_nelems v + n)) with (m + k)%nat by lia.
      apply take_memmove_up; lia.
  - eexists; split_and!; [reflexivity|by apply vec_wf_update; [..|lia]|done|]. simpl.
    exists (take k (drop m (v_data v))). split; [rewrite length_take, length_drop; lia|].
    rewrite (drop_ge (take _ _)), app_nil_r by (rewrite length_take; lia).
    replace (Z.to_nat (v_nelems v + n)) with (m + k)%nat by lia.
    rewrite take_take, Nat.min_r by lia. symmetry; apply take_take_drop.
Qed.

(** [index] and [nelems] below are what the C types allow. *)
Lemma insert_elements_spec v index n (s : S) :
  vec_wf v -> 0 <= index -> 0 <= n ->
  match nilfs_vector_insert_elements junk v index n s with
  | (Ok (i, v'), _) => i = index /\ index <= v_nelems v /\ inserted v v' index n
  | (Err e, _) => (e = EINVAL /\ v_nelems v < index) \/
                  (index <= v_nelems v /\ (e = EOVERFLOW \/ e = ENOMEM))
  | _ => False
  end.
Proof.
  intros Hwf Hi Hn. pose proof (vec_wf_bounds _ Hwf) as Hbd.
  unfold nilfs_vector_insert_elements.
  case_if; [by left|]. case_if; [right; split; [lia|by left]|].
  rewrite (u64_id (v_nelems v + n)) by (unfold_words; lia).
  case_if.
  - unfold bind at 1. pose proof (enlarge_spec junk v (v_nelems v + n) s Hwf) as He.
    destruct (nilfs_vector_enlarge junk v _ s) as [[v1| | | |] s1]; try done; simpl;
      [|right; split; [lia|done]].
    destruct He as (Hw1 & He1 & Hn1 & Hs1 & ? & ?).
    destruct (insert_gap_spec v1 index n s1) as (v' & -> & Hins); try done; [lia..|].
    unfold inserted in *. by rewrite Hn1, He1 in Hins.
  - rewrite bind_ret. destruct (insert_gap_spec v index n s) as (v' & -> & ?); try done; lia.
Qed.
End VectorInsert.

(** ** Refinement: a vector is a list

    [vec_op] are the calls a client makes, a returned pointer being used at
    once to store what the new elements are to hold; [spec_op] is the
    abstract contract on lists, [None] where the code reports EINVAL. *)

Inductive vec_op (A : Type) : Type :=
| VPush (x : A)
| VDelete (index nelems : Z)
| VInsert (index : Z) (xs : list A)
| VSet (index : Z) (x : A)
| VSort (compar : A -> A -> Z)
| VClear.
Arguments VPush {A} _.
Arguments VDelete {A} _ _.
Arguments VInsert {A} _ _.
Arguments VSet {A} _ _.
Arguments VSort {A} _.
Arguments VClear {A}.

Section Refinement.
Context {S : Type} `{Alloc S} {A : Type} (junk : A).
Implicit Types (v : nilfs_vector A) (l : list A) (op : vec_op A).

Fixpoint fill_cells (v : nilfs_vector A) (i : Z) (xs : list A) : nilfs_vector A :=
  match xs with
  | [] => v
  | x :: xs' => fill_cells (write_cell v i (fun _ => x)) (i + 1) xs'
  end.

Definition exec_op (op : vec_op A) (v : nilfs_vector A) : M S (nilfs_vector A) :=
  match op with
  | VPush x => let* (i, v') := nilfs_vector_get_new_element junk v in
               ret (write_cell v' i (fun _ => x))
  | VDelete index n => nilfs_vector_delete_elements v index n
  | VInsert index xs =>
      let* (i, v') := nilfs_vector_insert_elements junk v index (Z.of_nat (length xs)) in
      ret (fill_cells v' i xs)
  | VSet index x => match nilfs_vector_get_element v index with
                    | Some i => ret (write_cell v i (fun _ => x))
                    | None => fail EINVAL
                    end
  | VSort compar => ret (nilfs_vector_sort compar v)
  | VClear => nilfs_vector_clear junk v
  end.

Definition spec_op (op : vec_op A) (l : list A) : option (list A) :=
  let len := Z.of_nat (length l) in
  match op with
  | VPush x => Some (l ++ [x])
  | VDelete i n =>
      if (i <? len) && (i + n <=? len) && ((0 <? n) || (0 <? i))
      then Some (take (Z.to_nat i) l ++ drop (Z.to_nat (i + n)) l) else None
  | VInsert i xs =>
      if i <=? len then Some (take (Z.to_nat i) l ++ xs ++ drop (Z.to_nat i) l) else None
  | VSet i x => if i <? len then Some (<[Z.to_nat i := x]> l) else None
  | VSort compar => Some (qsort compar l)
  | VClear => Some []
  end.

(** What the C types of the arguments allow, with the arithmetic of
    [nilfs_vector_delete_elements] kept from wrapping around. *)
Definition op_args_ok (op : vec_op A) : Prop :=
  match op with
  | VDelete i n => 0 <= i /\ 0 <= n /\ i + n <= 2 ^ 64
  | VInsert i _ | VSet i _ => 0 <= i
  | _ => True
  end.

Fixpoint exec_ops (ops : list (vec_op A)) (v : nilfs_vector A) : M S (nilfs_vector A) :=
  match ops with
  | [] => ret v
  | op :: ops' => let* v' := exec_op op v in exec_ops ops' v'
  end.

Fixpoint spec_ops (ops : list (vec_op A)) (l : list A) : option (list A) :=
  match ops with
  | [] => Some l
  | op :: ops' => spec_op op l ≫= spec_ops ops'
  end.

Lemma fill_cells_spec v i xs pre gap post :
  vec_wf v -> elems v = pre ++ gap ++ post -> i = Z.of_nat (length pre) ->
  length gap = length xs ->
  vec_wf (fill_cells v i xs) /\ elems (fill_cells v i xs) = pre ++ xs ++ post.
Proof.
  revert v i pre gap; induction xs as [|x xs IH]; intros v i pre gap Hw He -> Hl; simpl.
  { by destruct gap. }
  destruct gap as [|g gap]; [done|]. pose proof (elems_length v Hw) as Hlen.
  rewrite He, !length_app in Hlen. simpl in Hlen.
  destruct (elems_write_cell v (Z.of_nat (length pre)) (fun _ => x)) as [Hw' He'];
    [done|lia|].
  rewrite (cons_middle x pre), (app_assoc pre [x]).
  apply (IH _ _ _ gap); [done| |rewrite length_app; simpl; lia|by injection Hl].
  rewrite He', He, Nat2Z.id. rewrite <- app_assoc.
  replace (length pre) with (length pre + 0)%nat by lia. rewrite alter_app_r. done.
Qed.

Definition op_outcome (r : res (nilfs_vector A)) (o : option (list A)) : Prop :=
  match r with
  | Ok v' => vec_wf v' /\ o = Some (elems v')
  | Err e => e = ENOMEM \/ e = EOVERFLOW \/ (e = EINVAL /\ o = None)
  | _ => False
  end.

Lemma exec_op_refines op v (s : S) :
  vec_wf v -> op_args_ok op -> op_outcome (exec_op op v s).1 (spec_op op (elems v)).
Proof.
  intros Hw Hop. pose proof (elems_length v Hw) as Hlen. pose proof (wf_nelems v Hw).
  destruct op as [x|i n|i xs|i x|cmp|]; simpl in *; rewrite ?Hlen.
  - unfold bind. pose proof (get_new_element_spec junk v s Hw) as Hg.
    destruct (nilfs_vector_get_new_element junk v s) as [[[i v']| | | |] s']; simpl; try tauto.
    destruct Hg as (Hw' & -> & Hn & _ & y & Hy).
    destruct (elems_write_cell v' (v_nelems v) (fun _ => x)) as [Hw2 He2]; [done|lia|].
    split; [done|]. rewrite He2, Hy. f_equal.
    replace (Z.to_nat (v_nelems v)) with (length (elems v) + 0)%nat by lia.
    by rewrite alter_app_r.
  - destruct Hop as (? & ? & ?).
    pose proof (delete_elements_spec v i n s Hw) as Hd. specialize (Hd ltac:(done) ltac:(done) ltac:(done)).
    destruct (_ && _); [|rewrite Hd; simpl; tauto].
    destruct Hd as (v' & -> & Hw' & <-). done.
  - unfold bind.
    pose proof (insert_elements_spec junk v i (Z.of_nat (length xs)) s Hw Hop ltac:(lia)) as Hi.
    destruct (nilfs_vector_insert_elements junk v i _ s) as [[[j v']|e| | |] s']; simpl; try tauto.
    + destruct Hi as (-> & Hle & Hw' & Hn & gap & Hgap & He).
      replace (i <=? v_nelems v) with true by lia.
      rewrite Nat2Z.id in Hgap.
      edestruct (fill_cells_spec v' i xs _ gap _ Hw' He) as [Hw2 He2]; [|done|].
      { rewrite length_take. lia. }
      by rewrite He2.
    + replace (i <=? v_nelems v) with (bool_decide (i <= v_nelems v))
        by (case_bool_decide; lia).
      destruct Hi as [[-> ?]|[? [-> | ->]]]; [|tauto..].
      rewrite bool_decide_false by lia. tauto.
  - unfold nilfs_vector_get_element. case_if; simpl; [|tauto].
    destruct (elems_write_cell v i (fun _ => x)) as [Hw2 He2]; [done|lia|].
    split; [done|]. rewrite He2. f_equal. symmetry.
    apply list_eq; intros j. rewrite list_lookup_alter, list_lookup_insert.
    destruct (decide (Z.to_nat i = j)) as [<-|].
    + destruct (lookup_lt_is_Some_2 (elems v) (Z.to_nat i)) as [y ->]; [lia|]. simpl.
      by rewrite decide_True by (split; [done|lia]).
    + by rewrite decide_False by naive_solver.
  - destruct (sort_spec cmp v Hw) as [? ->]. done.
  - destruct (clear_spec junk v s Hw) as (v' & s' & -> & ? & Hv). simpl. by rewrite Hv.
Qed.

(** C1: any sequence of vector operations, started on a well-formed
    vector, either runs out of memory (ENOMEM, EOVERFLOW) or does exactly
    what the same operations do to the list of the elements, failing with
    EINVAL exactly where the list operation is out of range (deleting no
    element at index 0 counts as out of range, too, as in the code); it never
    touches memory outside its allocation, and leaves a well-formed
    vector.  The condition on the arguments: in a deletion of [nelems]
    elements from [index], [index + nelems] is at most [2 ^ 64], so that the
    sum [index + nelems - 1] does not wrap around; where it does, the check
    of vector.c:147 passes and the move leaves the array
    ([delete_elements_wraps]). *)
Theorem vector_refines_list ops v (s : S) :
  vec_wf v -> Forall op_args_ok ops ->
  op_outcome (exec_ops ops v s).1 (spec_ops ops (elems v)).
Proof.
  intros Hw Hops; revert v s Hw.
  induction Hops as [|op ops Hop _ IH]; intros v s Hw; [done|]; simpl.
  unfold bind. pose proof (exec_op_refines op v s Hw Hop) as Hstep.
  destruct (exec_op op v s) as [[v'|e| | |] s']; simpl in *; try done.
  - destruct Hstep as [Hw' ->]. by apply IH.
  - destruct Hstep as [|[|[-> ->]]]; tauto.
Qed.
End Refinement.
