(* ===== verification/Hoare.v ===== *)
(** * Total-correctness reasoning about computations

    [wp m Q E s]: run from [s], the computation [m] ends, in success with a
    value and state that satisfy [Q] or in failure with an errno and state
    that satisfy [E].  It does not abort, access memory outside of an object,
    exit or exhaust the bound of a loop.  The rules follow the operations of
    the monad; [wp_step] applies the one that fits. *)

From S2P Require Import Prelude Vector.

Section Wp.
Context {S : Type}.

Definition wp {A} (m : M S A) (Q : A -> S -> Prop) (E : Z -> S -> Prop) (s : S) : Prop :=
  match m s with
  | (Ok a, s') => Q a s'
  | (Err e, s') => E e s'
  | _ => False
  end.

Context {A B : Type}.
Implicit Types (Q : A -> S -> Prop) (E : Z -> S -> Prop).

Lemma wp_ret (a : A) Q E s : Q a s -> wp (ret a) Q E s.
Proof using. done. Qed.
Lemma wp_fail e Q E s : E e s -> wp (fail e) Q E s.
Proof using. done. Qed.
Lemma wp_gets (f : S -> A) Q E s : Q (f s) s -> wp (gets f) Q E s.
Proof using. done. Qed.
Lemma wp_modify f (Q : unit -> S -> Prop) E s : Q tt (f s) -> wp (modify f) Q E s.
Proof using. done. Qed.
Lemma wp_get_state (Q : S -> S -> Prop) E s : Q s s -> wp get_state Q E s.
Proof using. done. Qed.
Lemma wp_of_option (o : option A) a Q E s : o = Some a -> Q a s -> wp (of_option o) Q E s.
Proof using. by intros ->. Qed.

Lemma wp_run (m : M S A) a s' Q E s : m s = (Ok a, s') -> Q a s' -> wp m Q E s.
Proof using. unfold wp. by intros ->. Qed.

Lemma wp_bind (m : M S A) (k : A -> M S B) (Q : B -> S -> Prop) E s :
  wp m (fun a => wp (k a) Q E) E s -> wp (bind m k) Q E s.
Proof using. unfold wp, bind. by destruct (m s) as [[] ?]. Qed.

Lemma wp_mono (m : M S A) Q E Q' E' s :
  wp m Q E s -> (forall a s', Q a s' -> Q' a s') -> (forall e s', E e s' -> E' e s') -> wp m Q' E' s.
Proof using. unfold wp. destruct (m s) as [[] ?]; eauto. Qed.

(** A step whose triple is known, and the rest of the computation. *)
Lemma wp_seq (m : M S A) (k : A -> M S B) Q1 E1 (Q : B -> S -> Prop) E s :
  wp m Q1 E1 s -> (forall a s', Q1 a s' -> wp (k a) Q E s') -> (forall e s', E1 e s' -> E e s') ->
  wp (bind m k) Q E s.
Proof using. intros Hm Hk He. apply wp_bind. by eapply wp_mono. Qed.

Lemma wp_attempt (m : M S A) (Q : A + Z -> S -> Prop) E s :
  wp m (fun a => Q (inl a)) (fun e => Q (inr e)) s -> wp (attempt m) Q E s.
Proof using. unfold wp, attempt. by destruct (m s) as [[] ?]. Qed.

(** A call whose failure the caller handles. *)
Lemma wp_try (m : M S A) (k : A + Z -> M S B) Q1 E1 (Q : B -> S -> Prop) E s :
  wp m Q1 E1 s -> (forall a s', Q1 a s' -> wp (k (inl a)) Q E s') ->
  (forall e s', E1 e s' -> wp (k (inr e)) Q E s') -> wp (bind (attempt m) k) Q E s.
Proof using. unfold wp, bind, attempt. destruct (m s) as [[] ?]; naive_solver. Qed.

Lemma wp_malloc `{Alloc S} n (Q : unit -> S -> Prop) E s :
  (forall b s', malloc n s = (b, s') -> if b then Q tt s' else E ENOMEM s') -> wp (m_malloc n) Q E s.
Proof using.
  unfold wp, m_malloc. intros Hq. specialize (Hq _ _ (surjective_pairing _)).
  by destruct (malloc n s) as [[] s'].
Qed.

(** What holds of every outcome. *)
Lemma wp_both (m : M S A) (R : S -> Prop) Q E s :
  wp m Q E s -> R (m s).2 -> wp m (fun a s' => Q a s' /\ R s') (fun e s' => E e s' /\ R s') s.
Proof using. unfold wp. destruct (m s) as [[] ?]; simpl; tauto. Qed.
End Wp.

(** [wp_step]: one step of a computation by the rule of its operation. *)
Ltac wp_step :=
  match goal with
  | |- wp (bind _ _) _ _ _ => apply wp_bind
  | |- wp (ret _) _ _ _ => apply wp_ret
  | |- wp (fail _) _ _ _ => apply wp_fail
  | |- wp (gets _) _ _ _ => apply wp_gets
  | |- wp get_state _ _ _ => apply wp_get_state
  | |- wp (modify _) _ _ _ => apply wp_modify
  | |- wp (attempt _) _ _ _ => apply wp_attempt
  | |- wp (of_option (Some _)) _ _ _ => apply (wp_of_option _ _ _ _ _ eq_refl)
  end; cbv beta.

(** ** Programs that may exit

    [wpe m Q E X s]: as [wp], but [m] may also exit, with a status and a
    state that satisfy [X]. *)

Section Wpe.
Context {S : Type}.

Definition wpe {A} (m : M S A) (Q : A -> S -> Prop) (E X : Z -> S -> Prop) (s : S) : Prop :=
  match m s with
  | (Ok a, s') => Q a s'
  | (Err e, s') => E e s'
  | (Exit c, s') => X c s'
  | _ => False
  end.

Context {A B : Type}.
Implicit Types (Q : A -> S -> Prop) (E X : Z -> S -> Prop).

Lemma wpe_ret (a : A) Q E X s : Q a s -> wpe (ret a) Q E X s.
Proof using. done. Qed.
Lemma wpe_fail e Q E X s : E e s -> wpe (fail e) Q E X s.
Proof using. done. Qed.
Lemma wpe_exit c Q E X s : X c s -> wpe (exit_with c) Q E X s.
Proof using. done. Qed.
Lemma wpe_gets (f : S -> A) Q E X s : Q (f s) s -> wpe (gets f) Q E X s.
Proof using. done. Qed.
Lemma wpe_modify f (Q : unit -> S -> Prop) E X s : Q tt (f s) -> wpe (modify f) Q E X s.
Proof using. done. Qed.
Lemma wpe_get_state (Q : S -> S -> Prop) E X s : Q s s -> wpe get_state Q E X s.
Proof using. done. Qed.
Lemma wpe_put_state s' (Q : unit -> S -> Prop) E X s : Q tt s' -> wpe (put_state s') Q E X s.
Proof using. done. Qed.
Lemma wpe_of_option (o : option A) a Q E X s : o = Some a -> Q a s -> wpe (of_option o) Q E X s.
Proof using. by intros ->. Qed.

Lemma wpe_bind (m : M S A) (k : A -> M S B) (Q : B -> S -> Prop) E X s :
  wpe m (fun a => wpe (k a) Q E X) E X s -> wpe (bind m k) Q E X s.
Proof using. unfold wpe, bind. by destruct (m s) as [[] ?]. Qed.

Lemma wpe_mono (m : M S A) Q E X Q' E' X' s :
  wpe m Q E X s -> (forall a s', Q a s' -> Q' a s') -> (forall e s', E e s' -> E' e s') ->
  (forall c s', X c s' -> X' c s') -> wpe m Q' E' X' s.
Proof using. unfold wpe. destruct (m s) as [[] ?]; eauto. Qed.

(** A step whose triple is known, and the rest, which fails and exits alike. *)
Lemma wpe_seq (m : M S A) (k : A -> M S B) Q1 (Q : B -> S -> Prop) E X s :
  wpe m Q1 E X s -> (forall a s', Q1 a s' -> wpe (k a) Q E X s') -> wpe (bind m k) Q E X s.
Proof using. intros Hm Hk. apply wpe_bind. by eapply wpe_mono. Qed.

Lemma wpe_attempt (m : M S A) (Q : A + Z -> S -> Prop) E X s :
  wpe m (fun a => Q (inl a)) (fun e => Q (inr e)) X s -> wpe (attempt m) Q E X s.
Proof using. unfold wpe, attempt. by destruct (m s) as [[] ?]. Qed.

(** The state on which the rest depends, changed by a step that always
    succeeds. *)
Lemma wpe_run (m : M S A) a s' Q E X s : m s = (Ok a, s') -> Q a s' -> wpe m Q E X s.
Proof using. unfold wpe. by intros ->. Qed.
End Wpe.

(** [wpe_step]: one step of a computation by the rule of its operation. *)
Ltac wpe_step :=
  match goal with
  | |- wpe (bind _ _) _ _ _ _ => apply wpe_bind
  | |- wpe (ret _) _ _ _ _ => apply wpe_ret
  | |- wpe (fail _) _ _ _ _ => apply wpe_fail
  | |- wpe (exit_with _) _ _ _ _ => apply wpe_exit
  | |- wpe (gets _) _ _ _ _ => apply wpe_gets
  | |- wpe get_state _ _ _ _ => apply wpe_get_state
  | |- wpe (put_state _) _ _ _ _ => apply wpe_put_state
  | |- wpe (modify _) _ _ _ _ => apply wpe_modify
  | |- wpe (attempt _) _ _ _ _ => apply wpe_attempt
  | |- wpe (of_option _) _ _ _ _ => eapply wpe_of_option; [reflexivity|]
  end; cbv beta iota.

(** ** Loops over a list of states known in advance *)

Section Mfor.
Context {S I : Type}.

Fixpoint mfor (body : I -> M S unit) (l : list I) : M S unit :=
  match l with
  | [] => ret tt
  | x :: l' => body x ;; mfor body l'
  end.

(** The rule of the loop: the invariant speaks of the states done. *)
Lemma wp_mfor (R : list I -> S -> Prop) (E : Z -> S -> Prop) body l s :
  R [] s ->
  (forall pre x post s', l = pre ++ x :: post -> R pre s' -> wp (body x) (fun _ => R (pre ++ [x])) E s') ->
  wp (mfor body l) (fun _ => R l) E s.
Proof.
  intros Hs Hb. enough (Hgen : forall post pre s', l = pre ++ post -> R pre s' ->
    wp (mfor body post) (fun _ => R (pre ++ post)) E s') by by apply (Hgen l []).
  intros post; induction post as [|x post IH]; intros pre s' Hl Hr; cbn [mfor].
  - wp_step. by rewrite app_nil_r.
  - eapply wp_seq; [by eapply Hb| |done]. intros [] s'' Hr'.
    rewrite (cons_middle x), app_assoc in Hl |- *. by apply IH.
Qed.
End Mfor.
