(* ===== verification/Crc32.v ===== *)
(** * CRC-32 of lib/crc32.c

    The table-driven checksum [crc32_le] that protects superblocks and
    segment summaries, and its equivalence with the bit-by-bit division by
    the reflected polynomial 0xedb88320. *)

From S2P Require Import Prelude.

Definition crc32tab : list Z := (* CRC polynomial 0xedb88320 *)
  [0x00000000; 0x77073096; 0xee0e612c; 0x990951ba; 0x076dc419;
   0x706af48f; 0xe963a535; 0x9e6495a3; 0x0edb8832; 0x79dcb8a4;
   0xe0d5e91e; 0x97d2d988; 0x09b64c2b; 0x7eb17cbd; 0xe7b82d07;
   0x90bf1d91; 0x1db71064; 0x6ab020f2; 0xf3b97148; 0x84be41de;
   0x1adad47d; 0x6ddde4eb; 0xf4d4b551; 0x83d385c7; 0x136c9856;
   0x646ba8c0; 0xfd62f97a; 0x8a65c9ec; 0x14015c4f; 0x63066cd9;
   0xfa0f3d63; 0x8d080df5; 0x3b6e20c8; 0x4c69105e; 0xd56041e4;
   0xa2677172; 0x3c03e4d1; 0x4b04d447; 0xd20d85fd; 0xa50ab56b;
   0x35b5a8fa; 0x42b2986c; 0xdbbbc9d6; 0xacbcf940; 0x32d86ce3;
   0x45df5c75; 0xdcd60dcf; 0xabd13d59; 0x26d930ac; 0x51de003a;
   0xc8d75180; 0xbfd06116; 0x21b4f4b5; 0x56b3c423; 0xcfba9599;
   0xb8bda50f; 0x2802b89e; 0x5f058808; 0xc60cd9b2; 0xb10be924;
   0x2f6f7c87; 0x58684c11; 0xc1611dab; 0xb6662d3d; 0x76dc4190;
   0x01db7106; 0x98d220bc; 0xefd5102a; 0x71b18589; 0x06b6b51f;
   0x9fbfe4a5; 0xe8b8d433; 0x7807c9a2; 0x0f00f934; 0x9609a88e;
   0xe10e9818; 0x7f6a0dbb; 0x086d3d2d; 0x91646c97; 0xe6635c01;
   0x6b6b51f4; 0x1c6c6162; 0x856530d8; 0xf262004e; 0x6c0695ed;
   0x1b01a57b; 0x8208f4c1; 0xf50fc457; 0x65b0d9c6; 0x12b7e950;
   0x8bbeb8ea; 0xfcb9887c; 0x62dd1ddf; 0x15da2d49; 0x8cd37cf3;
   0xfbd44c65; 0x4db26158; 0x3ab551ce; 0xa3bc0074; 0xd4bb30e2;
   0x4adfa541; 0x3dd895d7; 0xa4d1c46d; 0xd3d6f4fb; 0x4369e96a;
   0x346ed9fc; 0xad678846; 0xda60b8d0; 0x44042d73; 0x33031de5;
   0xaa0a4c5f; 0xdd0d7cc9; 0x5005713c; 0x270241aa; 0xbe0b1010;
   0xc90c2086; 0x5768b525; 0x206f85b3; 0xb966d409; 0xce61e49f;
   0x5edef90e; 0x29d9c998; 0xb0d09822; 0xc7d7a8b4; 0x59b33d17;
   0x2eb40d81; 0xb7bd5c3b; 0xc0ba6cad; 0xedb88320; 0x9abfb3b6;
   0x03b6e20c; 0x74b1d29a; 0xead54739; 0x9dd277af; 0x04db2615;
   0x73dc1683; 0xe3630b12; 0x94643b84; 0x0d6d6a3e; 0x7a6a5aa8;
   0xe40ecf0b; 0x9309ff9d; 0x0a00ae27; 0x7d079eb1; 0xf00f9344;
   0x8708a3d2; 0x1e01f268; 0x6906c2fe; 0xf762575d; 0x806567cb;
   0x196c3671; 0x6e6b06e7; 0xfed41b76; 0x89d32be0; 0x10da7a5a;
   0x67dd4acc; 0xf9b9df6f; 0x8ebeeff9; 0x17b7be43; 0x60b08ed5;
   0xd6d6a3e8; 0xa1d1937e; 0x38d8c2c4; 0x4fdff252; 0xd1bb67f1;
   0xa6bc5767; 0x3fb506dd; 0x48b2364b; 0xd80d2bda; 0xaf0a1b4c;
   0x36034af6; 0x41047a60; 0xdf60efc3; 0xa867df55; 0x316e8eef;
   0x4669be79; 0xcb61b38c; 0xbc66831a; 0x256fd2a0; 0x5268e236;
   0xcc0c7795; 0xbb0b4703; 0x220216b9; 0x5505262f; 0xc5ba3bbe;
   0xb2bd0b28; 0x2bb45a92; 0x5cb36a04; 0xc2d7ffa7; 0xb5d0cf31;
   0x2cd99e8b; 0x5bdeae1d; 0x9b64c2b0; 0xec63f226; 0x756aa39c;
   0x026d930a; 0x9c0906a9; 0xeb0e363f; 0x72076785; 0x05005713;
   0x95bf4a82; 0xe2b87a14; 0x7bb12bae; 0x0cb61b38; 0x92d28e9b;
   0xe5d5be0d; 0x7cdcefb7; 0x0bdbdf21; 0x86d3d2d4; 0xf1d4e242;
   0x68ddb3f8; 0x1fda836e; 0x81be16cd; 0xf6b9265b; 0x6fb077e1;
   0x18b74777; 0x88085ae6; 0xff0f6a70; 0x66063bca; 0x11010b5c;
   0x8f659eff; 0xf862ae69; 0x616bffd3; 0x166ccf45; 0xa00ae278;
   0xd70dd2ee; 0x4e048354; 0x3903b3c2; 0xa7672661; 0xd06016f7;
   0x4969474d; 0x3e6e77db; 0xaed16a4a; 0xd9d65adc; 0x40df0b66;
   0x37d83bf0; 0xa9bcae53; 0xdebb9ec5; 0x47b2cf7f; 0x30b5ffe9;
   0xbdbdf21c; 0xcabac28a; 0x53b39330; 0x24b4a3a6; 0xbad03605;
   0xcdd70693; 0x54de5729; 0x23d967bf; 0xb3667a2e; 0xc4614ab8;
   0x5d681b02; 0x2a6f2b94; 0xb40bbe37; 0xc30c8ea1; 0x5a05df1b;
   0x2d02ef8d].

(** One turn of the loop.  The index is a byte, so the access is inside the
    table; 0 stands for the entry that a wider index would not find. *)
Definition crc32_step (crc byte : Z) : Z :=
  Z.lxor (Z.shiftr crc 8)
         (default 0 (crc32tab !! Z.to_nat (Z.lxor (u8 crc) byte))).

(** [crc32_le crc buffer]: the loop over the [Length_I] bytes of the buffer. *)
Definition crc32_le (crc : Z) (buffer : list Z) : Z := foldl crc32_step crc buffer.

(** ** Reference definition *)

Definition CRC_POLY : Z := 0xedb88320.

(** Division of one bit. *)
Definition crc_bit (x : Z) : Z :=
  Z.lxor (Z.shiftr x 1) (if Z.odd x then CRC_POLY else 0).

Definition crc_bits (n : nat) (x : Z) : Z := Nat.iter n crc_bit x.

Definition crc32_reference (crc : Z) (buffer : list Z) : Z :=
  foldl (fun c b => crc_bits 8 (Z.lxor c b)) crc buffer.

Lemma crc32tab_length : length crc32tab = 256%nat.
Proof. reflexivity. Qed.

Lemma crc32tab_range : Forall is_u32 crc32tab.
Proof.
  apply Forall_forall. intros x Hx.
  assert (Hall : forallb (fun x => (0 <=? x) && (x <? 2 ^ 32)) crc32tab = true)
    by (vm_compute; reflexivity).
  rewrite forallb_forall in Hall. apply list_elem_of_In in Hx.
  apply Hall in Hx. cbv beta in Hx. unfold_words. lia.
Qed.

(** Every entry of the table is the remainder of its index. *)
Lemma crc32tab_bits : crc32tab = crc_bits 8 <$> seqZ 0 256.
Proof. vm_compute. reflexivity. Qed.

Lemma crc32tab_lookup i : 0 <= i < 256 -> crc32tab !! Z.to_nat i = Some (crc_bits 8 i).
Proof.
  intros Hi. rewrite crc32tab_bits, list_lookup_fmap, lookup_seqZ_lt by lia.
  by rewrite Z.add_0_l, Z2Nat.id by lia.
Qed.

(** Bits above the ones being divided are only shifted. *)
Lemma crc_bit_high x y k : 0 <= k ->
  crc_bit (Z.lxor x (Z.shiftl y (k + 1))) = Z.lxor (crc_bit x) (Z.shiftl y k).
Proof.
  intros Hk. unfold crc_bit.
  assert (Hodd : Z.odd (Z.lxor x (Z.shiftl y (k + 1))) = Z.odd x).
  { rewrite <- !Z.bit0_odd, Z.lxor_spec, Z.shiftl_spec_low by lia. apply xorb_false_r. }
  rewrite Hodd, Z.shiftr_lxor, Z.shiftr_shiftl_l by lia.
  replace (k + 1 - 1) with k by lia.
  by rewrite !Z.lxor_assoc, (Z.lxor_comm (Z.shiftl y k)).
Qed.

Lemma crc_bits_high n x y :
  crc_bits n (Z.lxor x (Z.shiftl y (Z.of_nat n))) = Z.lxor (crc_bits n x) y.
Proof.
  unfold crc_bits.
  assert (Hgen : forall k, 0 <= k ->
    Nat.iter n crc_bit (Z.lxor x (Z.shiftl y (k + Z.of_nat n))) =
    Z.lxor (Nat.iter n crc_bit x) (Z.shiftl y k)).
  { induction n as [|n IH]; intros k Hk.
    - by rewrite Z.add_0_r.
    - rewrite Nat2Z.inj_succ. simpl.
      replace (k + Z.succ (Z.of_nat n)) with ((k + 1) + Z.of_nat n) by lia.
      rewrite IH by lia. by apply crc_bit_high. }
  specialize (Hgen 0 ltac:(lia)). by rewrite Z.shiftl_0_r in Hgen.
Qed.

#[local] Opaque crc_bits.

Lemma split_low_byte x : 0 <= x -> x = Z.lxor (u8 x) (Z.shiftl (Z.shiftr x 8) 8).
Proof.
  intros Hx. apply Z.bits_inj_iff'. intros n Hn.
  unfold u8. rewrite <- Z.land_ones, Z.lxor_spec, Z.land_spec by lia.
  rewrite Z.testbit_ones_nonneg by lia.
  destruct (Z.ltb_spec n 8).
  - by rewrite Z.shiftl_spec_low, andb_true_r, xorb_false_r by lia.
  - rewrite Z.shiftl_spec, Z.shiftr_spec by lia. rewrite andb_false_r, xorb_false_l.
    f_equal; lia.
Qed.

Lemma lxor_byte_range a b : is_u8 a -> is_u8 b -> is_u8 (Z.lxor a b).
Proof. apply lxor_lt_pow2; lia. Qed.

Lemma crc32_step_bits crc b :
  0 <= crc -> is_u8 b -> crc32_step crc b = crc_bits 8 (Z.lxor crc b).
Proof.
  intros Hc Hb. unfold crc32_step.
  assert (is_u8 (u8 crc)) by (unfold is_u8, u8; apply Z.mod_pos_bound; lia).
  pose proof (lxor_byte_range (u8 crc) b ltac:(done) Hb) as Hr.
  rewrite crc32tab_lookup by (unfold is_u8 in Hr; lia). simpl default.
  assert (Hx : Z.lxor crc b = Z.lxor (Z.lxor (u8 crc) b) (Z.shiftl (Z.shiftr crc 8) 8)).
  { rewrite (split_low_byte crc Hc) at 1. rewrite !Z.lxor_assoc. f_equal. apply Z.lxor_comm. }
  pose proof (crc_bits_high 8 (Z.lxor (u8 crc) b) (Z.shiftr crc 8)) as Hh.
  change (Z.of_nat 8) with 8 in Hh. rewrite Hx, Hh. apply Z.lxor_comm.
Qed.

Lemma crc32_step_range crc b :
  is_u32 crc -> is_u8 b -> is_u32 (crc32_step crc b).
Proof.
  intros Hc Hb. unfold crc32_step.
  assert (is_u8 (u8 crc)) as Hu by (unfold is_u8, u8; apply Z.mod_pos_bound; lia).
  pose proof (lxor_byte_range (u8 crc) b Hu Hb) as Hr. unfold is_u8 in Hr.
  pose proof (crc32tab_lookup _ Hr) as Hl. rewrite Hl. simpl default.
  pose proof crc32tab_range as Ht. rewrite Forall_lookup in Ht.
  specialize (Ht _ _ Hl). clear Hl. unfold is_u32 in *.
  apply lxor_lt_pow2; [lia| |done].
  rewrite Z.shiftr_div_pow2 by lia. word_lia.
Qed.

Lemma crc32_le_range crc buf :
  is_u32 crc -> Forall is_u8 buf -> is_u32 (crc32_le crc buf).
Proof.
  intros Hc Hb; revert crc Hc; unfold crc32_le.
  induction Hb as [|b buf Hb _ IH]; intros crc Hc; simpl; [done|].
  by apply IH, crc32_step_range.
Qed.

(** C2: for every 32-bit seed and every buffer of bytes, the table-driven
    checksum is the bit-by-bit division by the CRC polynomial, and is again
    a 32-bit value. *)
Theorem crc32_le_reference crc buf :
  is_u32 crc -> Forall is_u8 buf ->
  crc32_le crc buf = crc32_reference crc buf /\ is_u32 (crc32_le crc buf).
Proof.
  intros Hc Hb. split; [|by apply crc32_le_range]. revert crc Hc.
  unfold crc32_le, crc32_reference.
  induction Hb as [|b buf Hb _ IH]; intros crc Hc; simpl; [done|].
  rewrite (crc32_step_bits crc b) by (unfold is_u32 in Hc; done || lia). apply IH.
  rewrite <- crc32_step_bits by (unfold is_u32 in Hc; done || lia). by apply crc32_step_range.
Qed.

(** The checksum of a buffer given in two parts. *)
Lemma crc32_le_app crc a b : crc32_le crc (a ++ b) = crc32_le (crc32_le crc a) b.
Proof. apply foldl_app. Qed.

(** The standard check value: CRC-32 of "123456789" (with the usual initial
    and final complement). *)
Example crc32_check_value :
  Z.lxor (crc32_le 0xffffffff [49; 50; 51; 52; 53; 54; 55; 56; 57]) 0xffffffff = 0xcbf43926.
Proof. vm_compute. reflexivity. Qed.

Lemma crc32_le_reference_witness :
  crc32_le 0xffffffff [49; 50; 51] = crc32_reference 0xffffffff [49; 50; 51] /\
  is_u32 (crc32_le 0xffffffff [49; 50; 51]).
Proof.
  apply (crc32_le_reference 0xffffffff [49; 50; 51]).
  - unfold is_u32; lia.
  - repeat constructor; unfold is_u8; lia.
Defined.
