(* ===== verification/Ondisk.v ===== *)
(** * Little-endian on-disk data (include/linux/nilfs2_ondisk.h)

    Byte buffers are lists of bytes.  [rd_le] reads an unsigned little-endian
    field at a byte offset and fails outside the buffer, so that memory safety
    of the readers is a statement about the model; [put_bytes] overwrites.
    The superblock, segment summary, finfo and binfo layouts are given by the
    offsets of their fields. *)

From S2P Require Import Prelude.

Section Bytes.
Implicit Types (l bs : list Z).

Definition le_value (bs : list Z) : Z := foldr (fun b acc => b + 256 * acc) 0 bs.

Fixpoint le_bytes (n : nat) (x : Z) : list Z :=
  match n with
  | O => []
  | Datatypes.S n' => x `mod` 256 :: le_bytes n' (x / 256)
  end.

Definition rd_bytes (l : list Z) (off n : Z) : option (list Z) :=
  if (0 <=? off) && (0 <=? n) && (off + n <=? Z.of_nat (length l))
  then Some (take (Z.to_nat n) (drop (Z.to_nat off) l)) else None.

Definition rd_le (n : Z) (l : list Z) (off : Z) : option Z :=
  le_value <$> rd_bytes l off n.

(** Overwrite [bs] at [off]; the callers stay inside the buffer. *)
Definition put_bytes (l : list Z) (off : Z) (bs : list Z) : list Z :=
  take (Z.to_nat off) l ++ bs ++ drop (Z.to_nat off + length bs) l.

Lemma le_bytes_length n x : length (le_bytes n x) = n.
Proof. revert x; induction n; intros; simpl; [done|]. by f_equal. Qed.

Lemma le_bytes_u8 n x : Forall is_u8 (le_bytes n x).
Proof.
  revert x; induction n as [|n IH]; intros; simpl; constructor; [|apply IH].
  unfold is_u8. apply Z.mod_pos_bound; lia.
Qed.

Lemma le_value_bytes n x : le_value (le_bytes n x) = x `mod` 256 ^ Z.of_nat n.
Proof.
  revert x; induction n as [|n IH]; intros x; [by rewrite Z.mod_1_r|].
  rewrite Nat2Z.inj_succ, Z.pow_succ_r by lia. simpl.
  unfold le_value in IH. rewrite IH, Z.rem_mul_r by lia. done.
Qed.

Lemma le_value_range bs : Forall is_u8 bs -> 0 <= le_value bs < 256 ^ Z.of_nat (length bs).
Proof.
  induction 1 as [|b bs Hb _ IH]; [simpl; lia|].
  cbn [length]. rewrite Nat2Z.inj_succ, Z.pow_succ_r by lia. unfold is_u8 in Hb. simpl. lia.
Qed.

Lemma put_bytes_length l off bs :
  0 <= off -> off + Z.of_nat (length bs) <= Z.of_nat (length l) ->
  length (put_bytes l off bs) = length l.
Proof.
  intros. unfold put_bytes. rewrite !length_app, length_take, length_drop. lia.
Qed.

Lemma put_bytes_u8 l off bs :
  Forall is_u8 l -> Forall is_u8 bs -> Forall is_u8 (put_bytes l off bs).
Proof.
  intros. unfold put_bytes. repeat apply Forall_app_2; auto using Forall_take, Forall_drop.
Qed.

Lemma put_bytes_lookup l off bs (i : nat) :
  0 <= off -> off + Z.of_nat (length bs) <= Z.of_nat (length l) ->
  put_bytes l off bs !! i =
    if decide (Z.to_nat off <= i < Z.to_nat off + length bs)%nat
    then bs !! (i - Z.to_nat off)%nat else l !! i.
Proof.
  intros Ho Hl. unfold put_bytes. case_decide as Hd.
  - rewrite lookup_app_r by (rewrite length_take; lia).
    rewrite length_take, Nat.min_l by lia. by rewrite lookup_app_l by lia.
  - destruct (decide (i < Z.to_nat off)%nat).
    + rewrite lookup_app_l by (rewrite length_take; lia). by rewrite lookup_take_lt.
    + rewrite lookup_app_r by (rewrite length_take; lia).
      rewrite length_take, Nat.min_l by lia.
      rewrite lookup_app_r by lia. rewrite lookup_drop. f_equal. lia.
Qed.

(** Reading back what was written, and reading elsewhere. *)
Lemma rd_bytes_put_eq l off bs :
  0 <= off -> off + Z.of_nat (length bs) <= Z.of_nat (length l) ->
  rd_bytes (put_bytes l off bs) off (Z.of_nat (length bs)) = Some bs.
Proof.
  intros Ho Hl. unfold rd_bytes. rewrite put_bytes_length by done.
  replace ((0 <=? off) && (0 <=? Z.of_nat (length bs)) &&
    (off + Z.of_nat (length bs) <=? Z.of_nat (length l))) with true by lia.
  f_equal. unfold put_bytes. rewrite Nat2Z.id.
  rewrite drop_app_length' by (rewrite length_take; lia).
  by rewrite take_app_length.
Qed.

Lemma rd_bytes_put_ne l off bs off' n :
  0 <= off -> off + Z.of_nat (length bs) <= Z.of_nat (length l) ->
  off' + n <= off \/ off + Z.of_nat (length bs) <= off' ->
  rd_bytes (put_bytes l off bs) off' n = rd_bytes l off' n.
Proof.
  intros Ho Hl Hd. unfold rd_bytes. rewrite put_bytes_length by done.
  case_if; [|done]. apply andb_true_iff in Heqb as [[??]%andb_true_iff ?]. f_equal.
  apply list_eq; intros i. rewrite !lookup_take. case_decide; [|done].
  rewrite !lookup_drop, put_bytes_lookup by done. rewrite decide_False by lia. done.
Qed.

Lemma rd_le_range n l off x : 0 <= n ->
  Forall is_u8 l -> rd_le n l off = Some x -> 0 <= x < 256 ^ n.
Proof.
  unfold rd_le, rd_bytes. intros Hn Hl. case_if; [|done]. simpl. intros [= <-].
  apply andb_true_iff in Heqb as [[??]%andb_true_iff ?].
  assert (Hlen : length (take (Z.to_nat n) (drop (Z.to_nat off) l)) = Z.to_nat n)
    by (rewrite length_take, length_drop; lia).
  pose proof (le_value_range (take (Z.to_nat n) (drop (Z.to_nat off) l))) as Hr.
  rewrite Hlen, Z2Nat.id in Hr by done. apply Hr. by apply Forall_take, Forall_drop.
Qed.

Lemma rd_le_is_Some n l off :
  0 <= off -> 0 <= n -> off + n <= Z.of_nat (length l) -> is_Some (rd_le n l off).
Proof.
  intros. unfold rd_le, rd_bytes.
  replace ((0 <=? off) && (0 <=? n) && (off + n <=? Z.of_nat (length l))) with true by lia.
  by eexists.
Qed.

Lemma rd_le_Some_bound n l off x :
  rd_le n l off = Some x -> 0 <= off /\ 0 <= n /\ off + n <= Z.of_nat (length l).
Proof. unfold rd_le, rd_bytes. case_if; [|done]. lia. Qed.
End Bytes.

(** ** Constants of the on-disk format *)
Definition NILFS_SUPER_MAGIC : Z := 0x3434.
Definition NILFS_SB_OFFSET_BYTES : Z := 1024.
Definition NILFS_SB2_OFFSET_BYTES (devsize : Z) : Z :=
  u64 (Z.shiftl (u64 (Z.shiftr devsize 12 - 1)) 12).
Definition NILFS_DAT_INO : Z := 3.
Definition NILFS_SEG_MIN_BLOCKS : Z := 16.
Definition NILFS_PSEG_MIN_BLOCKS : Z := 2.
Definition NILFS_MIN_NRSVSEGS : Z := 8.
Definition NILFS_SEGSUM_MAGIC : Z := 0x1eaffa11.
Definition NILFS_FEATURE_INCOMPAT_SUPP : Z := 0.

(** ** The superblock, a buffer of 1024 bytes *)
Definition NILFS_MAX_SB_SIZE : Z := 1024.

Record sb_field := { f_off : Z; f_size : Z }.

Definition s_rev_level : sb_field := {| f_off := 0x00; f_size := 4 |}.
Definition s_minor_rev_level : sb_field := {| f_off := 0x04; f_size := 2 |}.
Definition s_magic : sb_field := {| f_off := 0x06; f_size := 2 |}.
Definition s_bytes : sb_field := {| f_off := 0x08; f_size := 2 |}.
Definition s_flags : sb_field := {| f_off := 0x0a; f_size := 2 |}.
Definition s_crc_seed : sb_field := {| f_off := 0x0c; f_size := 4 |}.
Definition s_sum : sb_field := {| f_off := 0x10; f_size := 4 |}.
Definition s_log_block_size : sb_field := {| f_off := 0x14; f_size := 4 |}.
Definition s_nsegments : sb_field := {| f_off := 0x18; f_size := 8 |}.
Definition s_dev_size : sb_field := {| f_off := 0x20; f_size := 8 |}.
Definition s_first_data_block : sb_field := {| f_off := 0x28; f_size := 8 |}.
Definition s_blocks_per_segment : sb_field := {| f_off := 0x30; f_size := 4 |}.
Definition s_r_segments_percentage : sb_field := {| f_off := 0x34; f_size := 4 |}.
Definition s_last_cno : sb_field := {| f_off := 0x38; f_size := 8 |}.
Definition s_last_pseg : sb_field := {| f_off := 0x40; f_size := 8 |}.
Definition s_last_seq : sb_field := {| f_off := 0x48; f_size := 8 |}.
Definition s_free_blocks_count : sb_field := {| f_off := 0x50; f_size := 8 |}.
Definition s_ctime : sb_field := {| f_off := 0x58; f_size := 8 |}.
Definition s_mtime : sb_field := {| f_off := 0x60; f_size := 8 |}.
Definition s_wtime : sb_field := {| f_off := 0x68; f_size := 8 |}.
Definition s_mnt_count : sb_field := {| f_off := 0x70; f_size := 2 |}.
Definition s_max_mnt_count : sb_field := {| f_off := 0x72; f_size := 2 |}.
Definition s_state : sb_field := {| f_off := 0x74; f_size := 2 |}.
Definition s_errors : sb_field := {| f_off := 0x76; f_size := 2 |}.
Definition s_lastcheck : sb_field := {| f_off := 0x78; f_size := 8 |}.
Definition s_checkinterval : sb_field := {| f_off := 0x80; f_size := 4 |}.
Definition s_creator_os : sb_field := {| f_off := 0x84; f_size := 4 |}.
Definition s_def_resuid : sb_field := {| f_off := 0x88; f_size := 2 |}.
Definition s_def_resgid : sb_field := {| f_off := 0x8a; f_size := 2 |}.
Definition s_first_ino : sb_field := {| f_off := 0x8c; f_size := 4 |}.
Definition s_inode_size : sb_field := {| f_off := 0x90; f_size := 2 |}.
Definition s_dat_entry_size : sb_field := {| f_off := 0x92; f_size := 2 |}.
Definition s_checkpoint_size : sb_field := {| f_off := 0x94; f_size := 2 |}.
Definition s_segment_usage_size : sb_field := {| f_off := 0x96; f_size := 2 |}.
Definition s_uuid : sb_field := {| f_off := 0x98; f_size := 16 |}.
Definition s_volume_name : sb_field := {| f_off := 0xa8; f_size := 80 |}.
Definition s_c_interval : sb_field := {| f_off := 0xf8; f_size := 4 |}.
Definition s_c_block_max : sb_field := {| f_off := 0xfc; f_size := 4 |}.
Definition s_feature_compat : sb_field := {| f_off := 0x100; f_size := 8 |}.
Definition s_feature_compat_ro : sb_field := {| f_off := 0x108; f_size := 8 |}.
Definition s_feature_incompat : sb_field := {| f_off := 0x110; f_size := 8 |}.

(** A superblock buffer always holds 1024 bytes, so that reading a field
    never fails; the default is never used. *)
Definition sb_bytes_of (sb : list Z) (f : sb_field) : list Z :=
  default [] (rd_bytes sb (f_off f) (f_size f)).
Definition sb_get (sb : list Z) (f : sb_field) : Z := le_value (sb_bytes_of sb f).
Definition sb_put (sb : list Z) (f : sb_field) (bs : list Z) : list Z :=
  put_bytes sb (f_off f) bs.

Definition sb_buffer (sb : list Z) : Prop :=
  length sb = 1024%nat /\ Forall is_u8 sb.
