(* ===== verification/Fields.v ===== *)
(** * Buffers that are filled field by field

    A structure that is stored into a buffer is the list of the stores to its
    fields; what a reader finds at a field is the last store to it. *)

From S2P Require Import Prelude Ondisk.

(** ** Reading a part of a buffer *)

Lemma rd_bytes_more (a r : list Z) off n x : rd_bytes a off n = Some x -> rd_bytes (a ++ r) off n = Some x.
Proof.
  unfold rd_bytes. destruct (_ && _) eqn:Hc; [|done]. apply andb_true_iff in Hc as [[H1%Z.leb_le H2%Z.leb_le]%andb_true_iff H3%Z.leb_le].
  intros [= <-]. rewrite length_app, Nat2Z.inj_add.
  rewrite (proj2 (Z.leb_le 0 off)), (proj2 (Z.leb_le 0 n)), (proj2 (Z.leb_le (off + n) _)) by lia. cbn [andb]. f_equal.
  rewrite drop_app_le by lia. rewrite take_app_le by (rewrite length_drop; lia). done.
Qed.

Lemma rd_le_more (a r : list Z) off n x : rd_le n a off = Some x -> rd_le n (a ++ r) off = Some x.
Proof.
  unfold rd_le. destruct (rd_bytes a off n) as [l|] eqn:Hr; [|done]. by rewrite (rd_bytes_more a r _ _ _ Hr).
Qed.

Lemma rd_bytes_less (a r : list Z) off n x : rd_bytes (a ++ r) off n = Some x -> off + n <= Z.of_nat (length a) ->
  rd_bytes a off n = Some x.
Proof.
  unfold rd_bytes. destruct (_ && _) eqn:Hc; [|done]. apply andb_true_iff in Hc as [[H1%Z.leb_le H2%Z.leb_le]%andb_true_iff _].
  intros [= <-] Hn. rewrite (proj2 (Z.leb_le 0 off)), (proj2 (Z.leb_le 0 n)), (proj2 (Z.leb_le (off + n) _)) by lia. cbn [andb].
  f_equal. rewrite drop_app_le by lia. rewrite take_app_le by (rewrite length_drop; lia). done.
Qed.

Lemma rd_bytes_u8 (a : list Z) off n x : rd_bytes a off n = Some x -> Forall is_u8 a -> Forall is_u8 x.
Proof. unfold rd_bytes. destruct (_ && _); [|done]. intros [= <-] Ha. by apply Forall_take, Forall_drop. Qed.

Lemma rd_bytes_some (a : list Z) off n : 0 <= off -> 0 <= n -> off + n <= Z.of_nat (length a) -> exists x, rd_bytes a off n = Some x.
Proof.
  intros H1 H2 H3. unfold rd_bytes. rewrite (proj2 (Z.leb_le 0 off)), (proj2 (Z.leb_le 0 n)), (proj2 (Z.leb_le (off + n) _)) by lia.
  by eexists.
Qed.


(** ** Stores *)

(** A store: an offset, a number of bytes, a value. *)
Definition field : Type := Z * nat * Z.

Definition field_inside (bs : Z) (f : field) : Prop := 0 <= f.1.1 /\ f.1.1 + Z.of_nat f.1.2 <= bs.

Definition put_field (block : list Z) (f : field) : list Z := put_bytes block f.1.1 (le_bytes f.1.2 f.2).

Definition put_fields (l : list field) (block : list Z) : list Z := foldl put_field block l.

(** The value that is read of the block: the last store to the field, if no
    later one overlaps it. *)
Fixpoint last_field (l : list field) (off : Z) (n : nat) : option Z :=
  match l with
  | [] => None
  | (o, k, v) :: l =>
    match last_field l off n with
    | Some v => Some v
    | None =>
      if forallb (fun g : field => (g.1.1 + Z.of_nat g.1.2 <=? off) || (off + Z.of_nat n <=? g.1.1)) l &&
         (o =? off) && Nat.eqb k n then Some v else None
    end
  end.

Section Fields.
Implicit Types (l : list field) (block : list Z).

Lemma put_field_length block f bs : Z.of_nat (length block) = bs -> field_inside bs f ->
  Z.of_nat (length (put_field block f)) = bs.
Proof.
  intros Hb [H1 H2]. unfold put_field. rewrite put_bytes_length by (rewrite ?le_bytes_length; lia). done.
Qed.

Lemma put_field_u8 block f : Forall is_u8 block -> Forall is_u8 (put_field block f).
Proof. intros. apply put_bytes_u8; [done|apply le_bytes_u8]. Qed.

Lemma put_fields_length l block bs : Z.of_nat (length block) = bs -> Forall (field_inside bs) l ->
  Z.of_nat (length (put_fields l block)) = bs.
Proof.
  intros Hb Hl. revert block Hb. induction Hl as [|f l Hf _ IH]; intros block Hb; [done|].
  apply IH. by apply put_field_length.
Qed.

Lemma put_fields_u8 l block : Forall is_u8 block -> Forall is_u8 (put_fields l block).
Proof. revert block. induction l as [|f l IH]; intros block Hb; [done|]. apply IH. by apply put_field_u8. Qed.

Lemma put_fields_app l1 l2 block : put_fields (l1 ++ l2) block = put_fields l2 (put_fields l1 block).
Proof. apply foldl_app. Qed.

(** Bytes that no store touches are as before. *)
Lemma put_fields_ne l block bs off n : Z.of_nat (length block) = bs -> Forall (field_inside bs) l ->
  Forall (fun f : field => f.1.1 + Z.of_nat f.1.2 <= off \/ off + n <= f.1.1) l ->
  rd_bytes (put_fields l block) off n = rd_bytes block off n.
Proof.
  intros Hb Hl. revert block Hb. induction Hl as [|f l Hf _ IH]; intros block Hb Hd; [done|].
  apply Forall_cons in Hd as [Hd Hds]. cbn [put_fields foldl]. fold (put_fields l (put_field block f)).
  rewrite IH by (done || by apply put_field_length). destruct Hf.
  apply rd_bytes_put_ne; rewrite ?le_bytes_length; lia.
Qed.

Lemma last_field_bytes l block bs off n v : Z.of_nat (length block) = bs -> Forall (field_inside bs) l ->
  last_field l off n = Some v -> rd_bytes (put_fields l block) off (Z.of_nat n) = Some (le_bytes n v).
Proof.
  intros Hb Hl. revert block Hb. induction Hl as [|[[o k] w] l Hf Hl IH]; intros block Hb; [done|].
  cbn [last_field]. destruct (last_field l off n) as [u|] eqn:Hu.
  - intros [= <-]. apply IH; [by apply put_field_length|done].
  - destruct (forallb _ l && (o =? off) && Nat.eqb k n) eqn:Hc; [|done]. intros [= <-].
    apply andb_true_iff in Hc as [[Hd Ho%Z.eqb_eq]%andb_true_iff Hk%Nat.eqb_eq]. subst o k.
    change (put_fields ((off, n, w) :: l) block) with (put_fields l (put_field block (off, n, w))).
    rewrite (put_fields_ne l _ bs) by first [done | by apply put_field_length
      | apply Forall_forall; intros g Hg; rewrite forallb_forall in Hd;
        apply list_elem_of_In in Hg; specialize (Hd g Hg); lia].
    destruct Hf as [H1 H2]. cbn in H1, H2. unfold put_field. cbn [fst snd].
    rewrite <- (le_bytes_length n w) at 2. apply rd_bytes_put_eq; rewrite ?le_bytes_length; lia.
Qed.

Lemma last_field_le l block bs off n v : Z.of_nat (length block) = bs -> Forall (field_inside bs) l ->
  last_field l off n = Some v -> rd_le (Z.of_nat n) (put_fields l block) off = Some (v `mod` 256 ^ Z.of_nat n).
Proof.
  intros Hb Hl Hf. unfold rd_le. rewrite (last_field_bytes l block bs off n v) by done. cbn.
  by rewrite le_value_bytes.
Qed.
(** Only the bytes that the fields cover matter. *)
Lemma put_fields_prefix l a r : Forall (field_inside (Z.of_nat (length a))) l ->
  put_fields l (a ++ r) = put_fields l a ++ r.
Proof.
  revert a. induction l as [|f l IH]; intros a Hl; [done|]. apply Forall_cons in Hl as [[H1 H2] Hl].
  cbn [put_fields foldl]. fold (put_fields l (put_field (a ++ r) f)). fold (put_fields l (put_field a f)).
  assert (Hf : put_field (a ++ r) f = put_field a f ++ r).
  { unfold put_field, put_bytes. rewrite le_bytes_length. rewrite take_app_le, drop_app_le by lia. by rewrite !app_assoc. }
  rewrite Hf. apply IH. unfold put_field. rewrite put_bytes_length by (rewrite ?le_bytes_length; lia). done.
Qed.
End Fields.

(** ** Fields one after the other *)

Lemma rd_bytes_at (a x r : list Z) off n : Z.of_nat (length a) = off -> Z.of_nat (length x) = n -> rd_bytes (a ++ x ++ r) off n = Some x.
Proof.
  intros <- <-. unfold rd_bytes. rewrite !length_app. rewrite (proj2 (Z.leb_le 0 _)), (proj2 (Z.leb_le 0 _)), (proj2 (Z.leb_le _ _)) by lia.
  cbn [andb]. rewrite !Nat2Z.id. by rewrite drop_app_length, take_app_length.
Qed.

Lemma rd_le_at (a r : list Z) off n v : Z.of_nat (length a) = off ->
  rd_le (Z.of_nat n) (a ++ le_bytes n v ++ r) off = Some (v `mod` 256 ^ Z.of_nat n).
Proof.
  intros Ha. unfold rd_le. rewrite (rd_bytes_at a (le_bytes n v) r) by (done || by rewrite le_bytes_length).
  cbn. by rewrite le_value_bytes.
Qed.

Lemma rd_le_field (a r buf : list Z) off n k v : buf = a ++ le_bytes n v ++ r -> Z.of_nat (length a) = off -> Z.of_nat n = k ->
  rd_le k buf off = Some (v `mod` 256 ^ k).
Proof. intros -> Ha <-. by apply rd_le_at. Qed.

Lemma rd_bytes_field (a x r buf : list Z) off n : buf = a ++ x ++ r -> Z.of_nat (length a) = off -> Z.of_nat (length x) = n ->
  rd_bytes buf off n = Some x.
Proof. intros ->. apply rd_bytes_at. Qed.

(** Reading behind a prefix. *)
Lemma rd_le_behind (a b : list Z) off n k : Z.of_nat (length a) = k -> 0 <= off -> rd_le n (a ++ b) (k + off) = rd_le n b off.
Proof.
  intros <- Ho. unfold rd_le, rd_bytes. rewrite length_app. f_equal.
  rewrite (proj2 (Z.leb_le 0 (Z.of_nat (length a) + off))), (proj2 (Z.leb_le 0 off)) by lia. cbn [andb].
  replace (Z.of_nat (length a) + off + n) with (Z.of_nat (length a) + (off + n)) by lia. rewrite Nat2Z.inj_add.
  assert (Hb : (Z.of_nat (length a) + (off + n) <=? Z.of_nat (length a) + Z.of_nat (length b)) = (off + n <=? Z.of_nat (length b))).
  { destruct (Z.leb_spec (off + n) (Z.of_nat (length b))); [apply Z.leb_le|apply Z.leb_gt]; lia. }
  rewrite Hb. rewrite Z2Nat.inj_add, Nat2Z.id by lia. by rewrite drop_app_add.
Qed.
