(* ===== verification/Sb.v ===== *)
(** * Superblock access (lib/sb.c)

    A file system has two copies of its superblock: one at a fixed offset,
    one near the end of the device.  [nilfs_sb_read] yields the first copy
    that looks valid; [nilfs_sb_write] rewrites the selected fields of every
    copy it could read and renews their checksums.  The device is reached
    through the operations of the class [Device]. *)

From S2P Require Import Prelude Vector Ondisk Crc32.

(** What [fstat] tells of the kind of a file. *)
Inductive file_kind := S_IFBLK | S_IFREG | S_IFOTHER.

(** The system calls of sb.c on one open device, with [errno]. *)
Class Device (W : Type) := {
  dev_alloc : Alloc W;
  dev_errno : W -> Z;
  dev_fstat : Z -> W -> (file_kind * Z + Z) * W;
  dev_getsize64 : Z -> W -> (Z + Z) * W;
  dev_pread : Z -> Z -> Z -> W -> (list Z + Z) * W;
  dev_pwrite : Z -> list Z -> Z -> W -> (Z + Z) * W;
}.
#[export] Existing Instance dev_alloc.

(** ** Validation and checksum of one copy *)

Definition nilfs_sb_check_sum (sbp : list Z) : Z :=
  crc32_le (sb_get sbp s_crc_seed)
           (take (Z.to_nat (sb_get sbp s_bytes)) (sb_put sbp s_sum (le_bytes 4 0))).

Definition nilfs_sb_is_valid (sbp : list Z) (check_crc : bool) : bool :=
  if negb (sb_get sbp s_magic =? NILFS_SUPER_MAGIC) then false
  else if NILFS_MAX_SB_SIZE <? sb_get sbp s_bytes then false
  else if negb check_crc then true
  else nilfs_sb_check_sum sbp =? sb_get sbp s_sum.

(** Shifting a 64-bit value by 64 or more is undefined. *)
Definition nilfs_sb2_offset_is_too_small (sbp : list Z) (sb2_offset : Z) : option bool :=
  let sh := u32 (sb_get sbp s_log_block_size + 10) in
  if 64 <=? sh then None
  else Some (sb2_offset <?
             u64 (Z.shiftl (u64 (sb_get sbp s_nsegments * sb_get sbp s_blocks_per_segment)) sh)).

Section SbIO.
Context {W : Type} `{Device W}.

(** Failure with the [errno] left by the last failing call. *)
Definition fail_errno {A} : M W A := fun w => (Err (dev_errno w), w).

(** [pread] of a superblock buffer; [None] for an error or a short read. *)
Definition pread_sb (devfd offset : Z) : M W (option (list Z)) :=
  let* r := attempt (lift_sum (dev_pread devfd NILFS_MAX_SB_SIZE offset)) in
  ret (match r with
       | inl bs => if Z.of_nat (length bs) =? NILFS_MAX_SB_SIZE then Some bs else None
       | inr _ => None
       end).

Definition device_size (devfd : Z) : M W Z :=
  let* (kind, size) := lift_sum (dev_fstat devfd) in
  match kind with
  | S_IFBLK => lift_sum (dev_getsize64 devfd)
  | S_IFREG => ret (u64 size)
  | S_IFOTHER => fail EBADF
  end.

(** The tests on the primary and on the secondary copy ([sb1_ok] and
    [sb2_ok] in the C code); [None] for a buffer that is freed. *)
Definition keep_primary (sb0 : option (list Z)) : option (list Z) :=
  match sb0 with
  | Some sb => if nilfs_sb_is_valid sb false then Some sb else None
  | None => None
  end.

Definition keep_secondary (sb1 : option (list Z)) (sb2_offset : Z)
  : M W (option (list Z)) :=
  match sb1 with
  | Some sb =>
    if nilfs_sb_is_valid sb false then
      let* small := of_option (nilfs_sb2_offset_is_too_small sb sb2_offset) in
      ret (if small : bool then None else Some sb)
    else ret None
  | None => ret None
  end.

(** A copy that was read in full but rejected sets [invalid_fs]. *)
Definition rejected (read kept : option (list Z)) : bool :=
  match read, kept with Some _, None => true | _, _ => false end.

(** The two copies that look valid, with the offsets of both. *)
Definition __nilfs_sb_read (devfd : Z)
  : M W ((option (list Z) * option (list Z)) * (Z * Z)) :=
  m_malloc NILFS_MAX_SB_SIZE ;;
  m_malloc NILFS_MAX_SB_SIZE ;;
  let* devsize := device_size devfd in
  let* read0 := pread_sb devfd NILFS_SB_OFFSET_BYTES in
  let sbp0 := keep_primary read0 in
  let sb2_offset := NILFS_SB2_OFFSET_BYTES devsize in
  let* read1 := pread_sb devfd sb2_offset in
  let* sbp1 := keep_secondary read1 sb2_offset in
  match sbp0, sbp1 with
  | None, None => if rejected read0 sbp0 || rejected read1 sbp1
                  then fail EINVAL else fail_errno
  | _, _ => ret ((sbp0, sbp1), (NILFS_SB_OFFSET_BYTES, sb2_offset))
  end.

Definition nilfs_sb_read (devfd : Z) : M W (list Z) :=
  let* (sbp, _) := __nilfs_sb_read devfd in
  match sbp with
  | (Some sb, _) | (None, Some sb) => ret sb
  | (None, None) => abort
  end.

Definition NILFS_SB_LABEL : Z := 0x0001.
Definition NILFS_SB_UUID : Z := 0x0002.
Definition NILFS_SB_FEATURES : Z := 0x0004.
Definition NILFS_SB_COMMIT_INTERVAL : Z := 0x4000.
Definition NILFS_SB_BLOCK_MAX : Z := 0x8000.

Definition copy_field (f : sb_field) (src dst : list Z) : list Z :=
  sb_put dst f (sb_bytes_of src f).

(** [copy_fields mask flag fs]: [if (mask & flag)] copy the fields [fs]. *)
Definition copy_fields (mask flag : Z) (fs : list sb_field) (src dst : list Z) : list Z :=
  if Z.land mask flag =? 0 then dst else foldl (fun d f => copy_field f src d) dst fs.

(** The new contents of one copy: the selected fields, then the checksum. *)
Definition sb_update_fields (mask : Z) (sbp sb : list Z) : list Z :=
  let sb := copy_fields mask NILFS_SB_LABEL [s_volume_name] sbp sb in
  let sb := copy_fields mask NILFS_SB_COMMIT_INTERVAL [s_c_interval] sbp sb in
  let sb := copy_fields mask NILFS_SB_BLOCK_MAX [s_c_block_max] sbp sb in
  let sb := copy_fields mask NILFS_SB_UUID [s_uuid] sbp sb in
  copy_fields mask NILFS_SB_FEATURES
    [s_feature_compat; s_feature_compat_ro; s_feature_incompat] sbp sb.

Definition sb_seal (sb : list Z) : list Z :=
  sb_put sb s_sum (le_bytes 4 (nilfs_sb_check_sum sb)).

Definition write_copy (devfd mask : Z) (sbp : list Z) (copy : option (list Z)) (offset : Z)
  : M W unit :=
  match copy with
  | None => ret tt
  | Some sb =>
    let* r := attempt (lift_sum (dev_pwrite devfd (sb_seal (sb_update_fields mask sbp sb)) offset)) in
    match r with
    | inl count => if count <? NILFS_MAX_SB_SIZE then fail_errno else ret tt
    | inr _ => fail_errno
    end
  end.

Definition nilfs_sb_write (devfd : Z) (sbp : option (list Z)) (mask : Z) : M W unit :=
  if devfd <? 0 then abort
  else match sbp with
       | None => fail EINVAL
       | Some sbp =>
         let* ((sb0, sb1), (off0, off1)) := __nilfs_sb_read devfd in
         write_copy devfd mask sbp sb0 off0 ;;
         write_copy devfd mask sbp sb1 off1
       end.
End SbIO.

(** ** Fields of a buffer *)

#[export] Instance sb_field_eq_dec : EqDecision sb_field.
Proof. solve_decision. Defined.

Definition field_ok (f : sb_field) : Prop :=
  0 <= f_off f /\ 0 <= f_size f /\ f_off f + f_size f <= NILFS_MAX_SB_SIZE.

Definition disjoint_fields (f g : sb_field) : Prop :=
  f_off f + f_size f <= f_off g \/ f_off g + f_size g <= f_off f.

Section Fields.
Implicit Types sb src : list Z.

Lemma sb_bytes_of_length sb f :
  sb_buffer sb -> field_ok f -> Z.of_nat (length (sb_bytes_of sb f)) = f_size f.
Proof.
  intros [Hl _] (? & ? & ?). unfold sb_bytes_of, rd_bytes, NILFS_MAX_SB_SIZE in *.
  replace (_ && _ && _) with true by lia. simpl. rewrite length_take, length_drop. lia.
Qed.

Lemma sb_bytes_of_u8 sb f : sb_buffer sb -> Forall is_u8 (sb_bytes_of sb f).
Proof.
  intros [_ Hu]. unfold sb_bytes_of, rd_bytes. case_if; simpl; [|constructor].
  by apply Forall_take, Forall_drop.
Qed.

Lemma sb_put_buffer sb f bs :
  sb_buffer sb -> field_ok f -> Forall is_u8 bs -> Z.of_nat (length bs) = f_size f ->
  sb_buffer (sb_put sb f bs).
Proof.
  intros [Hl Hu] (? & ? & ?) Hb Hs. unfold NILFS_MAX_SB_SIZE in *.
  unfold sb_put. split; [by rewrite put_bytes_length by lia | by apply put_bytes_u8].
Qed.

Lemma sb_put_eq sb f bs :
  sb_buffer sb -> field_ok f -> Z.of_nat (length bs) = f_size f ->
  sb_bytes_of (sb_put sb f bs) f = bs.
Proof.
  intros [Hl _] (? & ? & ?) Hs. unfold sb_bytes_of, sb_put, NILFS_MAX_SB_SIZE in *.
  rewrite <- Hs, rd_bytes_put_eq by lia. done.
Qed.

Lemma sb_put_ne sb f g bs :
  sb_buffer sb -> field_ok f -> Z.of_nat (length bs) = f_size f -> disjoint_fields f g ->
  sb_bytes_of (sb_put sb f bs) g = sb_bytes_of sb g.
Proof.
  intros [Hl _] (? & ? & ?) Hs Hd. unfold sb_bytes_of, sb_put, NILFS_MAX_SB_SIZE in *.
  unfold disjoint_fields in Hd. rewrite rd_bytes_put_ne by lia. done.
Qed.

Lemma copy_field_buffer f src sb :
  sb_buffer src -> sb_buffer sb -> field_ok f -> sb_buffer (copy_field f src sb).
Proof.
  intros. apply sb_put_buffer; auto using sb_bytes_of_u8, sb_bytes_of_length.
Qed.

Lemma copy_all_buffer fs src sb :
  sb_buffer src -> sb_buffer sb -> Forall field_ok fs ->
  sb_buffer (foldl (fun d f => copy_field f src d) sb fs).
Proof.
  intros Hs Hb Hf; revert sb Hb. induction Hf as [|f fs Hf _ IH]; intros sb Hb; simpl; [done|].
  by apply IH, copy_field_buffer.
Qed.

Lemma copy_all_ne fs src sb g :
  sb_buffer src -> sb_buffer sb -> Forall field_ok fs ->
  Forall (fun f => disjoint_fields f g) fs ->
  sb_bytes_of (foldl (fun d f => copy_field f src d) sb fs) g = sb_bytes_of sb g.
Proof.
  intros Hs Hb Hf Hd; revert sb Hb Hd.
  induction Hf as [|f fs Hf _ IH]; intros sb Hb Hd; simpl; [done|].
  apply Forall_cons in Hd as [Hd1 Hd].
  rewrite IH by auto using copy_field_buffer.
  apply sb_put_ne; auto using sb_bytes_of_length.
Qed.

Lemma copy_all_eq fs src sb g :
  sb_buffer src -> sb_buffer sb -> Forall field_ok fs ->
  Forall (fun f => f = g \/ disjoint_fields f g) fs -> g ∈ fs ->
  sb_bytes_of (foldl (fun d f => copy_field f src d) sb fs) g = sb_bytes_of src g.
Proof.
  intros Hs Hb Hf Hd Hg; revert sb Hb Hd Hg.
  induction fs as [|f fs IH]; intros sb Hb Hd Hg; [by apply elem_of_nil in Hg|].
  apply Forall_cons in Hd as [Hd1 Hd], Hf as [Hf1 Hf]; simpl.
  destruct (decide (g ∈ fs)) as [Hin|Hnin].
  - by apply IH; auto using copy_field_buffer.
  - apply elem_of_cons in Hg as [->|]; [|done].
    rewrite copy_all_ne; auto using copy_field_buffer.
    + apply sb_put_eq; auto using sb_bytes_of_length.
    + apply Forall_forall. intros x Hx. rewrite Forall_forall in Hd.
      destruct (Hd x Hx) as [->|]; [done|done].
Qed.

(** Several fields stored one after the other. *)
Definition puts (l : list (sb_field * list Z)) (sb : list Z) : list Z :=
  foldl (fun d p => sb_put d p.1 p.2) sb l.

Definition put_ok (p : sb_field * list Z) : Prop :=
  field_ok p.1 /\ Z.of_nat (length p.2) = f_size p.1 /\ Forall is_u8 p.2.

Lemma puts_buffer l sb : Forall put_ok l -> sb_buffer sb -> sb_buffer (puts l sb).
Proof.
  intros Hl; revert sb; induction Hl as [|[f bs] l (Hf & Hs & Hb) _ IH]; intros sb Hsb; [done|].
  apply IH. by apply sb_put_buffer.
Qed.

Lemma puts_ne l sb g : Forall put_ok l -> sb_buffer sb ->
  Forall (fun p => disjoint_fields p.1 g) l -> sb_bytes_of (puts l sb) g = sb_bytes_of sb g.
Proof.
  intros Hl; revert sb; induction Hl as [|[f bs] l (Hf & Hs & Hb) _ IH]; intros sb Hsb Hd; [done|].
  apply Forall_cons in Hd as [Hd1 Hd]. change (puts ((f, bs) :: l) sb) with (puts l (sb_put sb f bs)).
  rewrite IH by (done || by apply sb_put_buffer). by apply sb_put_ne.
Qed.

(** The last value stored in a field is the one that is read. *)
Lemma puts_eq l1 f bs l2 sb : Forall put_ok (l1 ++ (f, bs) :: l2) -> sb_buffer sb ->
  Forall (fun p => disjoint_fields p.1 f) l2 -> sb_bytes_of (puts (l1 ++ (f, bs) :: l2) sb) f = bs.
Proof.
  intros Hl Hsb Hd. apply Forall_app in Hl as [H1 [H2 H3]%Forall_cons].
  unfold puts. rewrite foldl_app. cbn [foldl]. fold (puts l1 sb).
  change (foldl _ ?x l2) with (puts l2 x).
  pose proof (puts_buffer l1 sb H1 Hsb) as Hb1. destruct H2 as (? & ? & ?). simpl in *.
  rewrite puts_ne; [by apply sb_put_eq|done|by apply sb_put_buffer|done].
Qed.
End Fields.

(** ** What [nilfs_sb_write] puts on the device *)

(** The fields a mask selects. *)
Definition selected (mask : Z) : list sb_field :=
  (if Z.land mask NILFS_SB_LABEL =? 0 then [] else [s_volume_name]) ++
  (if Z.land mask NILFS_SB_COMMIT_INTERVAL =? 0 then [] else [s_c_interval]) ++
  (if Z.land mask NILFS_SB_BLOCK_MAX =? 0 then [] else [s_c_block_max]) ++
  (if Z.land mask NILFS_SB_UUID =? 0 then [] else [s_uuid]) ++
  (if Z.land mask NILFS_SB_FEATURES =? 0 then []
   else [s_feature_compat; s_feature_compat_ro; s_feature_incompat]).

Definition writable_fields : list sb_field :=
  [s_volume_name; s_c_interval; s_c_block_max; s_uuid;
   s_feature_compat; s_feature_compat_ro; s_feature_incompat].

Lemma selected_writable mask f : f ∈ selected mask -> f ∈ writable_fields.
Proof.
  unfold selected, writable_fields. intros Hf.
  repeat (apply elem_of_app in Hf as [Hf|Hf]); case_if_in Hf; set_solver.
Qed.

Lemma sb_update_fields_selected mask sbp sb :
  sb_update_fields mask sbp sb = foldl (fun d f => copy_field f sbp d) sb (selected mask).
Proof.
  unfold sb_update_fields, copy_fields, selected.
  rewrite !foldl_app. by repeat case_if.
Qed.

Lemma writable_ok : Forall field_ok writable_fields.
Proof. repeat constructor; simpl; unfold NILFS_MAX_SB_SIZE; lia. Qed.

Lemma writable_disjoint f g :
  f ∈ writable_fields -> g ∈ writable_fields -> f = g \/ disjoint_fields f g.
Proof.
  unfold writable_fields, disjoint_fields. rewrite !elem_of_cons, !elem_of_nil.
  intros Hf Hg. repeat destruct Hf as [->|Hf]; try done;
    repeat destruct Hg as [->|Hg]; try done; simpl; first [by left | right; lia].
Qed.

Lemma selected_ok mask : Forall field_ok (selected mask).
Proof.
  apply Forall_forall. intros f Hf%selected_writable.
  pose proof writable_ok as H. rewrite Forall_forall in H. auto.
Qed.

Lemma s_sum_ok : field_ok s_sum.
Proof. unfold field_ok, NILFS_MAX_SB_SIZE; simpl; lia. Qed.

Lemma put_twice sb f a b :
  sb_buffer sb -> field_ok f ->
  Z.of_nat (length a) = f_size f -> Z.of_nat (length b) = f_size f ->
  sb_put (sb_put sb f a) f b = sb_put sb f b.
Proof.
  intros [Hl _] (? & ? & ?) Ha Hb. unfold sb_put, NILFS_MAX_SB_SIZE in *.
  apply list_eq; intros i.
  rewrite !put_bytes_lookup by (rewrite ?put_bytes_length; lia).
  case_decide; [done|]. rewrite decide_False by lia. done.
Qed.

(** The side conditions on concrete fields. *)
Ltac field_side :=
  first [done | apply s_sum_ok | by apply le_bytes_u8 | unfold disjoint_fields; simpl; lia
        | unfold field_ok, NILFS_MAX_SB_SIZE; simpl; lia].

(** The checksum field is cleared before the checksum is computed, so that
    storing it does not change it. *)
Lemma check_sum_put_sum sb bs :
  sb_buffer sb -> length bs = 4%nat -> nilfs_sb_check_sum (sb_put sb s_sum bs) = nilfs_sb_check_sum sb.
Proof.
  intros Hb Hl. unfold nilfs_sb_check_sum, sb_get.
  rewrite put_twice by field_side. by rewrite !sb_put_ne by field_side.
Qed.

Lemma check_sum_range sb : sb_buffer sb -> is_u32 (nilfs_sb_check_sum sb).
Proof.
  intros Hb. unfold nilfs_sb_check_sum. apply crc32_le_range.
  - pose proof (sb_bytes_of_u8 sb s_crc_seed Hb) as Hu. apply le_value_range in Hu.
    pose proof (sb_bytes_of_length sb s_crc_seed Hb ltac:(field_side)) as Hl.
    unfold is_u32, sb_get. rewrite Hl in Hu. done.
  - apply Forall_take. apply sb_put_buffer; field_side.
Qed.

(** What sealing an updated copy gives. *)
Lemma sealed_image mask sbp sb :
  sb_buffer sbp -> sb_buffer sb -> nilfs_sb_is_valid sb false = true ->
  let sb' := sb_seal (sb_update_fields mask sbp sb) in
  sb_buffer sb' /\ nilfs_sb_is_valid sb' true = true /\
  (forall f, f ∈ selected mask -> sb_bytes_of sb' f = sb_bytes_of sbp f) /\
  (forall f, Forall (fun g => disjoint_fields g f) (s_sum :: selected mask) ->
             sb_bytes_of sb' f = sb_bytes_of sb f).
Proof.
  intros Hp Hb Hv sb'. pose proof (selected_ok mask) as Hok.
  pose proof s_sum_ok as Hsum.
  assert (Hsel : Forall (fun g => disjoint_fields s_sum g) (selected mask)).
  { apply Forall_forall. intros g Hg%selected_writable. unfold disjoint_fields.
    repeat (apply elem_of_cons in Hg as [->|Hg]; [simpl; lia|]). by apply elem_of_nil in Hg. }
  assert (Hkeep : forall f, Forall (fun g => disjoint_fields g f) (selected mask) ->
    sb_bytes_of (sb_update_fields mask sbp sb) f = sb_bytes_of sb f).
  { intros f Hf. rewrite sb_update_fields_selected. by apply copy_all_ne. }
  assert (Hub : sb_buffer (sb_update_fields mask sbp sb))
    by (rewrite sb_update_fields_selected; by apply copy_all_buffer).
  set (crc := le_bytes 4 (nilfs_sb_check_sum (sb_update_fields mask sbp sb))) in *.
  assert (Hcl : Z.of_nat (length crc) = 4) by (unfold crc; by rewrite le_bytes_length).
  assert (Hb' : sb_buffer sb').
  { apply sb_put_buffer; try done. apply le_bytes_u8. }
  assert (Hne : forall f, disjoint_fields s_sum f ->
    sb_bytes_of sb' f = sb_bytes_of (sb_update_fields mask sbp sb) f)
    by (intros f Hf; by apply sb_put_ne).
  split_and!; [done| | |].
  - assert (Hhdr : forall f, f = s_magic \/ f = s_bytes -> sb_bytes_of sb' f = sb_bytes_of sb f).
    { intros f Hf. rewrite Hne, Hkeep; [done| |destruct Hf as [-> | ->]; unfold disjoint_fields; simpl; lia].
      apply Forall_forall. intros g Hg%selected_writable. unfold disjoint_fields.
      repeat (apply elem_of_cons in Hg as [->|Hg];
        [destruct Hf as [-> | ->]; simpl; lia|]). by apply elem_of_nil in Hg. }
    unfold nilfs_sb_is_valid, sb_get in *.
    rewrite !Hhdr by tauto. do 2 (case_if_in Hv; [done|]). simpl. apply Z.eqb_eq.
    unfold sb' at 2. unfold sb_seal. rewrite sb_put_eq by done.
    unfold crc. rewrite le_value_bytes. change (256 ^ Z.of_nat 4) with (2 ^ 32).
    rewrite Z.mod_small by (by apply check_sum_range).
    apply check_sum_put_sum; [done|]. unfold crc in Hcl. by rewrite le_bytes_length.
  - intros f Hf. rewrite Hne by (rewrite Forall_forall in Hsel; by apply Hsel).
    rewrite sb_update_fields_selected. apply copy_all_eq; try done.
    apply Forall_forall. intros g Hg. apply writable_disjoint; by eapply selected_writable.
  - intros f Hf. apply Forall_cons in Hf as [? Hf]. by rewrite Hne, Hkeep.
Qed.

(** ** Properties *)

(** C3: the image [nilfs_sb_write] stores for a copy that was read as valid
    is again a valid superblock, its checksum included; each field the mask
    selects holds the caller's value, and every other field but the checksum
    is unchanged. *)
Theorem sb_write_image mask sbp sb :
  sb_buffer sbp -> sb_buffer sb -> nilfs_sb_is_valid sb false = true ->
  let sb' := sb_seal (sb_update_fields mask sbp sb) in
  sb_buffer sb' /\ nilfs_sb_is_valid sb' true = true /\
  (forall f, f ∈ selected mask -> sb_bytes_of sb' f = sb_bytes_of sbp f) /\
  (forall f, Forall (fun g => disjoint_fields g f) (s_sum :: selected mask) ->
             sb_bytes_of sb' f = sb_bytes_of sb f).
Proof. apply sealed_image. Qed.

Section ReadProps.
Context {W : Type} `{Device W}.

(** The test applied to the secondary copy. *)
Definition sb2_ok (sb : list Z) (off : Z) : Prop :=
  nilfs_sb_is_valid sb false = true /\ nilfs_sb2_offset_is_too_small sb off = Some false.

Lemma keep_primary_valid sb0 sb :
  keep_primary sb0 = Some sb -> nilfs_sb_is_valid sb false = true.
Proof. unfold keep_primary. destruct sb0; [|done]. case_if; naive_solver. Qed.

Lemma keep_secondary_valid sb1 off (w w' : W) kept sb :
  keep_secondary sb1 off w = (Ok kept, w') -> kept = Some sb -> sb2_ok sb off.
Proof.
  unfold keep_secondary. intros Hrun ->. destruct sb1 as [y|]; [|done].
  destruct (nilfs_sb_is_valid y false) eqn:Hv; [|done].
  apply bind_ok_inv in Hrun as (small & w2 & Hsm & Hret).
  unfold of_option in Hsm. destruct (nilfs_sb2_offset_is_too_small y off) eqn:Ht; [|done].
  unfold ret in Hsm, Hret. simplify_eq. destruct small; simplify_eq. by split.
Qed.

Lemma sb_read_copies devfd w sb0 sb1 off0 off1 w' :
  __nilfs_sb_read devfd w = (Ok ((sb0, sb1), (off0, off1)), w') ->
  (sb0 <> None \/ sb1 <> None) /\
  (forall sb, sb0 = Some sb -> nilfs_sb_is_valid sb false = true) /\
  (forall sb, sb1 = Some sb -> sb2_ok sb off1) /\ off0 = NILFS_SB_OFFSET_BYTES.
Proof.
  unfold __nilfs_sb_read. intros Hrun. do 6 inv_bind Hrun.
  pose proof (fun sb => keep_secondary_valid _ _ _ _ _ sb Hrun5) as H1.
  pose proof (keep_primary_valid a2) as H0.
  destruct (keep_primary a2), a4;
    unfold ret in Hrun; [..|by case_if_in Hrun]; simplify_eq; naive_solver.
Qed.

End ReadProps.
