(* ===== verification/Disk.v ===== *)
(** * A device that holds bytes

    The laws of the device behind the class [Device]: reading returns bytes of
    the device and changes nothing, writing replaces some bytes at the given
    offset; both may fail or be cut short.  From them follows what reading
    and writing the superblocks does to the device. *)

From S2P Require Import Prelude Vector Hoare Ondisk Crc32 Sb.

Class DiskLaws {W : Type} (D : Device W) (disk : W -> list Z) : Prop := {
  dl_alloc : forall n w, disk (malloc n w).2 = disk w;
  dl_fstat : forall fd w r w', dev_fstat fd w = (r, w') -> disk w' = disk w /\
    forall n, r = inl (S_IFREG, n) -> n = Z.of_nat (length (disk w));
  dl_getsize64 : forall fd w r w', dev_getsize64 fd w = (r, w') -> disk w' = disk w /\
    forall n, r = inl n -> n = Z.of_nat (length (disk w));
  dl_pread : forall fd n off w r w', dev_pread fd n off w = (r, w') -> disk w' = disk w /\
    forall bs, r = inl bs -> bs = take (length bs) (drop (Z.to_nat off) (disk w)) /\
                             (length bs <= Z.to_nat n)%nat;
  dl_pwrite : forall fd bs off w r w', dev_pwrite fd bs off w = (r, w') ->
    0 <= off -> off + Z.of_nat (length bs) <= Z.of_nat (length (disk w)) ->
    exists k, (k <= length bs)%nat /\ disk w' = put_bytes (disk w) off (take k bs) /\
              forall count, r = inl count -> count = Z.of_nat k;
}.

Section Disk.
Context {W : Type} {D : Device W} {disk : W -> list Z} {L : DiskLaws D disk}.

(** A device of at least two blocks of 4 KB, below the largest offset. *)
Definition size_ok (d : list Z) : Prop := 8192 <= Z.of_nat (length d) < 2 ^ 63.

Definition sb2_off (d : list Z) : Z := NILFS_SB2_OFFSET_BYTES (Z.of_nat (length d)).

Lemma sb2_off_range d : size_ok d ->
  4096 <= sb2_off d /\ sb2_off d + 4096 <= Z.of_nat (length d).
Proof.
  unfold size_ok, sb2_off, NILFS_SB2_OFFSET_BYTES. intros Hd.
  rewrite Z.shiftr_div_pow2, Z.shiftl_mul_pow2 by lia. change (2 ^ 12) with 4096. word_lia.
Qed.

(** The bytes of the two copies. *)
Definition copy_at (d : list Z) (off : Z) : option (list Z) := rd_bytes d off NILFS_MAX_SB_SIZE.

(** The descriptor tells the size of the device, and a read inside the device
    returns all the bytes asked for.  ([DiskLaws] also allows reads that fail
    or are cut short.) *)
Record reliable (fd : Z) : Prop := {
  rl_size : forall w, exists k n, (dev_fstat fd w).1 = inl (k, n) /\
    (k = S_IFREG \/ k = S_IFBLK /\ forall w', exists m, (dev_getsize64 fd w').1 = inl m);
  rl_pread : forall n off w, 0 <= n -> 0 <= off -> off + n <= Z.of_nat (length (disk w)) ->
    exists bs, (dev_pread fd n off w).1 = inl bs /\ Z.of_nat (length bs) = n;
}.

(** The readers leave the device alone; [F] tells of their failures. *)
Definition reads {A} (m : M W A) (R : list Z -> A -> Prop) (F : Z -> Prop) : Prop :=
  forall w, wp m (fun a w' => R (disk w) a /\ disk w' = disk w) (fun e w' => F e /\ disk w' = disk w) w.

Lemma device_size_reads fd : reads (device_size fd) (fun d n => Z.of_nat (length d) < 2 ^ 63 ->
  n = Z.of_nat (length d)) (fun _ => ~ reliable fd).
Proof using L.
  intros w. unfold device_size, lift_sum, wp, bind. destruct (dev_fstat fd w) as [[[k n]|e] w1] eqn:Hf;
    destruct (dl_fstat _ _ _ _ Hf) as [H1 H2].
  2: { split; [|done]. intros Hr. destruct (rl_size _ Hr w) as (? & ? & Hx & _). by rewrite Hf in Hx. }
  assert (Hk : reliable fd -> k = S_IFREG \/ k = S_IFBLK /\ forall w', exists m, (dev_getsize64 fd w').1 = inl m).
  { intros Hr. destruct (rl_size _ Hr w) as (k' & n' & Hx & Hy). rewrite Hf in Hx. by simplify_eq/=. }
  destruct k.
  - destruct (dev_getsize64 fd w1) as [[m|e] w2] eqn:Hg;
      destruct (dl_getsize64 _ _ _ _ Hg) as [H3 H4]; rewrite H1 in *; [by auto|]. split; [|done].
    intros Hr. destruct (Hk Hr) as [|[_ Hm]]; [done|]. destruct (Hm w1) as [? Hx]. by rewrite Hg in Hx.
  - rewrite (H2 n eq_refl). split; [|done]. intros Hlt. apply u64_id. unfold is_u64. lia.
  - split; [|done]. intros Hr. by destruct (Hk Hr) as [|[]].
Qed.

Lemma pread_sb_reads fd off : 0 <= off -> reads (pread_sb fd off)
  (fun d r => (forall sb, r = Some sb -> copy_at d off = Some sb) /\
              (reliable fd -> off + 1024 <= Z.of_nat (length d) -> r = copy_at d off)) (fun _ => False).
Proof using L.
  intros Ho w.
  assert (Hgot : forall bs, bs = take (length bs) (drop (Z.to_nat off) (disk w)) ->
    Z.of_nat (length bs) = NILFS_MAX_SB_SIZE -> copy_at (disk w) off = Some bs).
  { intros bs Hb Hl. unfold copy_at, rd_bytes, NILFS_MAX_SB_SIZE in *.
    assert (Hlen : (1024 <= length (drop (Z.to_nat off) (disk w)))%nat).
    { apply (f_equal length) in Hb. rewrite length_take in Hb. lia. }
    rewrite length_drop in Hlen. replace (_ && _ && _) with true by lia.
    f_equal. rewrite Hb. f_equal. lia. }
  unfold pread_sb, lift_sum, wp, bind, attempt.
  destruct (dev_pread fd NILFS_MAX_SB_SIZE off w) as [r w1] eqn:Hp.
  destruct (dl_pread _ _ _ _ _ _ Hp) as [H1 H2].
  assert (Hrl : reliable fd -> off + 1024 <= Z.of_nat (length (disk w)) ->
    exists bs, r = inl bs /\ Z.of_nat (length bs) = NILFS_MAX_SB_SIZE).
  { intros Hr Hl. destruct (rl_pread _ Hr NILFS_MAX_SB_SIZE off w) as (bs & Hx & Hy); [done..|].
    rewrite Hp in Hx. by exists bs. }
  destruct r as [bs|e]; (split; [split|done]); [|intros Hr Hl|done|intros Hr Hl].
  - intros sb. destruct (Z.eqb_spec (Z.of_nat (length bs)) NILFS_MAX_SB_SIZE) as [Hl|]; [|done].
    intros [= <-]. by apply Hgot; [apply H2|].
  - destruct (Hrl Hr Hl) as (? & [= <-] & Hlen). rewrite (proj2 (Z.eqb_eq _ _) Hlen).
    symmetry. by apply Hgot; [apply H2|].
  - by destruct (Hrl Hr Hl) as (? & ? & _).
Qed.

(** The test of a copy, and what the library is to take for each of them. *)
Definition looks_valid (sb : list Z) : Prop :=
  sb_get sb s_magic = NILFS_SUPER_MAGIC /\ sb_get sb s_bytes <= NILFS_MAX_SB_SIZE.

#[global] Instance looks_valid_dec sb : Decision (looks_valid sb).
Proof. unfold looks_valid. apply _. Defined.

Lemma is_valid_looks sb : nilfs_sb_is_valid sb false = true <-> looks_valid sb.
Proof using.
  unfold nilfs_sb_is_valid, looks_valid. cbn [negb].
  destruct (Z.eqb_spec (sb_get sb s_magic) NILFS_SUPER_MAGIC), (Z.ltb_spec NILFS_MAX_SB_SIZE (sb_get sb s_bytes));
    cbn [negb]; split; intros; try done; try lia.
Qed.

Definition first_copy (d : list Z) : option (list Z) :=
  copy_at d NILFS_SB_OFFSET_BYTES ≫= fun sb => if decide (looks_valid sb) then Some sb else None.

Definition second_copy (d : list Z) : option (list Z) :=
  copy_at d (sb2_off d) ≫= fun sb =>
    if decide (looks_valid sb /\ nilfs_sb2_offset_is_too_small sb (sb2_off d) = Some false) then Some sb else None.

(** The superblock of the device: the first copy that can be used. *)
Definition chosen (d : list Z) : option (list Z) :=
  match first_copy d with Some sb => Some sb | None => second_copy d end.

Lemma keep_primary_copy r : keep_primary r = r ≫= fun sb => if decide (looks_valid sb) then Some sb else None.
Proof using.
  destruct r as [sb|]; [|done]. cbn. pose proof (is_valid_looks sb) as Hv.
  case_decide; destruct (nilfs_sb_is_valid sb false); naive_solver.
Qed.

Lemma keep_secondary_reads sb1 off :
  (forall sb, sb1 = Some sb -> nilfs_sb_is_valid sb false = true -> is_Some (nilfs_sb2_offset_is_too_small sb off)) ->
  reads (keep_secondary sb1 off) (fun _ r => r = sb1 ≫= fun sb =>
    if decide (looks_valid sb /\ nilfs_sb2_offset_is_too_small sb off = Some false) then Some sb else None)
    (fun _ => False).
Proof using L.
  intros Hs w. unfold keep_secondary. destruct sb1 as [sb|]; [|by apply wp_ret]. cbn [mbind option_bind].
  pose proof (is_valid_looks sb) as Hv. destruct (nilfs_sb_is_valid sb false) eqn:Hvv.
  - destruct (Hs sb eq_refl Hvv) as [b Hb]. rewrite Hb. wp_step. wp_step. wp_step.
    split; [|done]. case_decide; destruct b; naive_solver.
  - apply wp_ret. split; [|done]. rewrite decide_False; naive_solver.
Qed.

(** The size of a block of a second copy that looks valid is sane, so that its
    test does not shift too far. *)
Definition shift_ok (d : list Z) : Prop :=
  forall sb, copy_at d (sb2_off d) = Some sb -> looks_valid sb -> u32 (sb_get sb s_log_block_size + 10) < 64.

Lemma malloc_reads n : reads (m_malloc n) (fun _ _ => True) (fun e => e = ENOMEM).
Proof using L.
  intros w. apply wp_malloc. intros b w' Hm. pose proof (dl_alloc n w) as Ha. rewrite Hm in Ha.
  by destruct b.
Qed.

(** A computation that reads, and then one that may write. *)
Lemma wp_reads {A B} (m : M W A) R F (k : A -> M W B) Q (E : Z -> W -> Prop) w : reads m R F ->
  (forall a w', R (disk w) a -> disk w' = disk w -> wp (k a) Q E w') ->
  (forall e w', F e -> disk w' = disk w -> E e w') -> wp (bind m k) Q E w.
Proof using.
  intros Hm Hk He. eapply wp_seq; [apply Hm| |].
  - intros a w' [Ha Hw]. by apply Hk.
  - intros e w' [Hf Hw]. by apply He.
Qed.

(** The copies that were found, with their offsets; a reliable device yields
    all that can be used. *)
Definition copies_of (fd : Z) (d : list Z) (r : (option (list Z) * option (list Z)) * (Z * Z)) : Prop :=
  let '((sb0, sb1), (off0, off1)) := r in
  off0 = NILFS_SB_OFFSET_BYTES /\ off1 = sb2_off d /\ (sb0 <> None \/ sb1 <> None) /\
  (forall sb, sb0 = Some sb -> first_copy d = Some sb) /\
  (forall sb, sb1 = Some sb -> second_copy d = Some sb) /\
  (reliable fd -> sb0 = first_copy d /\ sb1 = second_copy d).

Definition no_copies (fd : Z) (d : list Z) (e : Z) : Prop :=
  reliable fd -> e = ENOMEM \/ e = EINVAL /\ chosen d = None.

Lemma first_copy_inv d sb : first_copy d = Some sb ->
  copy_at d NILFS_SB_OFFSET_BYTES = Some sb /\ nilfs_sb_is_valid sb false = true.
Proof using.
  unfold first_copy. rewrite is_valid_looks. destruct (copy_at d _) as [x|]; [|done]. cbn.
  case_decide; [|done]. by intros [= ->].
Qed.

Lemma second_copy_inv d sb : second_copy d = Some sb ->
  copy_at d (sb2_off d) = Some sb /\ nilfs_sb_is_valid sb false = true.
Proof using.
  unfold second_copy. rewrite is_valid_looks. destruct (copy_at d _) as [x|]; [|done]. cbn.
  case_decide as Hd; [|done]. intros [= ->]. split; [done|apply Hd].
Qed.

Lemma copy_at_inside d off : 0 <= off -> off + 1024 <= Z.of_nat (length d) -> is_Some (copy_at d off).
Proof using. intros. unfold copy_at, rd_bytes, NILFS_MAX_SB_SIZE. replace (_ && _ && _) with true by lia. by eexists. Qed.

Lemma rejected_reads r0 r1 k0 k1 : k0 = None -> k1 = None -> is_Some r0 -> rejected r0 k0 || rejected r1 k1 = true.
Proof using. by intros -> -> [x ->]. Qed.

Lemma read_copies fd w : size_ok (disk w) -> shift_ok (disk w) ->
  wp (__nilfs_sb_read fd) (fun r w' => copies_of fd (disk w) r /\ disk w' = disk w)
     (fun e w' => no_copies fd (disk w) e /\ disk w' = disk w) w.
Proof using L.
  intros Hs Hsh. pose proof (sb2_off_range _ Hs) as Hr. unfold __nilfs_sb_read.
  apply (wp_reads _ _ _ _ _ _ _ (malloc_reads _)); [|intros e w' -> ?; by split; [intros _; left|]]. intros _ w1 _ H1.
  apply (wp_reads _ _ _ _ _ _ _ (malloc_reads _)); [|intros e w' -> ?; by split; [intros _; left|congruence]]. intros _ w2 _ H2.
  apply (wp_reads _ _ _ _ _ _ _ (device_size_reads fd)); [|intros e w' Hn ?; split; [by intros ?%Hn|congruence]].
  rewrite H2, H1. intros devsize w3 Hd H3. unfold size_ok in Hs. specialize (Hd (proj2 Hs)). subst devsize.
  fold (sb2_off (disk w)).
  apply (wp_reads _ _ _ _ _ _ _ (pread_sb_reads fd NILFS_SB_OFFSET_BYTES ltac:(done))); [|done].
  rewrite H3. intros read0 w4 [Hr0 Hr0'] H4.
  apply (wp_reads _ _ _ _ _ _ _ (pread_sb_reads fd (sb2_off (disk w)) ltac:(lia))); [|done].
  rewrite H4. intros read1 w5 [Hr1 Hr1'] H5.
  apply (wp_reads _ _ _ _ _ _ _ (keep_secondary_reads read1 (sb2_off (disk w))
    ltac:(intros sb Hsb Hv; apply is_valid_looks in Hv; unfold nilfs_sb2_offset_is_too_small;
          specialize (Hsh sb (Hr1 sb Hsb) Hv); case_if; [lia|done]))); [|done].
  intros sbp1 w6 Hk H6. assert (H06 : disk w6 = disk w) by congruence. rewrite keep_primary_copy.
  set (sbp0 := read0 ≫= _).
  assert (Hc0 : forall sb, sbp0 = Some sb -> first_copy (disk w) = Some sb).
  { unfold sbp0, first_copy. destruct read0 as [x|]; [|done]. by rewrite (Hr0 x). }
  assert (Hc1 : forall sb, sbp1 = Some sb -> second_copy (disk w) = Some sb).
  { rewrite Hk. unfold second_copy. destruct read1 as [x|]; [|done]. by rewrite (Hr1 x). }
  assert (Hall : reliable fd -> sbp0 = first_copy (disk w) /\ sbp1 = second_copy (disk w) /\ is_Some read0).
  { intros Hrl. unfold NILFS_SB_OFFSET_BYTES in *.
    pose proof (Hr0' Hrl ltac:(lia)) as E0. pose proof (Hr1' Hrl ltac:(lia)) as E1.
    split_and!; [by unfold sbp0; rewrite E0|by rewrite Hk, E1|]. rewrite E0. apply copy_at_inside; lia. }
  clearbody sbp0.
  assert (Hok : sbp0 <> None \/ sbp1 <> None ->
    copies_of fd (disk w) (sbp0, sbp1, (NILFS_SB_OFFSET_BYTES, sb2_off (disk w))))
    by (intros Hne; split_and!; auto; naive_solver).
  destruct sbp0 as [s0|]; [apply wp_ret; by auto|]. destruct sbp1 as [s1|]; [apply wp_ret; by auto|].
  destruct (rejected read0 None || rejected read1 None) eqn:Hrej.
  - split; [|done]. intros (H & H' & _)%Hall. right. unfold chosen. by rewrite <- H, <- H'.
  - split; [|done]. intros (_ & _ & Hi)%Hall. by rewrite (rejected_reads read0 read1 None None) in Hrej.
Qed.

(** ** Writing *)

(** The image that replaces a copy, and the copy at an offset replaced. *)
Definition new_copy (mask : Z) (sbp sb : list Z) : list Z := sb_seal (sb_update_fields mask sbp sb).

Definition updated (mask : Z) (sbp d d' : list Z) (off : Z) : Prop :=
  exists sb, copy_at d off = Some sb /\ nilfs_sb_is_valid sb false = true /\
             copy_at d' off = Some (new_copy mask sbp sb).

(** A byte that belongs to neither copy. *)
Definition outside (d : list Z) (i : nat) : Prop :=
  forall off, off = NILFS_SB_OFFSET_BYTES \/ off = sb2_off d ->
    Z.of_nat i < off \/ off + NILFS_MAX_SB_SIZE <= Z.of_nat i.

Definition only_copies (d d' : list Z) : Prop :=
  length d' = length d /\ forall i, outside d i -> d' !! i = d !! i.

Definition bytes (d : list Z) : Prop := Forall is_u8 d.

Lemma copy_at_buffer d off sb : bytes d -> copy_at d off = Some sb -> sb_buffer sb.
Proof using.
  unfold copy_at, rd_bytes, NILFS_MAX_SB_SIZE. intros Hb. case_if; [|done]. intros [= <-].
  split; [rewrite length_take, length_drop; lia|]. by apply Forall_take, Forall_drop.
Qed.

Lemma copy_at_range d off sb : copy_at d off = Some sb -> 0 <= off /\ off + 1024 <= Z.of_nat (length d).
Proof using. unfold copy_at, rd_bytes, NILFS_MAX_SB_SIZE. case_if; [lia|done]. Qed.

Lemma new_copy_length mask sbp sb : sb_buffer sbp -> sb_buffer sb -> length (new_copy mask sbp sb) = 1024%nat.
Proof using.
  intros Hp Hb. assert (Hu : sb_buffer (sb_update_fields mask sbp sb)).
  { rewrite sb_update_fields_selected. apply copy_all_buffer; [done|done|apply selected_ok]. }
  apply (sb_put_buffer _ s_sum (le_bytes 4 (nilfs_sb_check_sum (sb_update_fields mask sbp sb)))
           Hu s_sum_ok (le_bytes_u8 _ _) eq_refl).
Qed.

(** What a write of one copy does. *)
Lemma write_copy_wp fd mask sbp copy off w : sb_buffer sbp ->
  (forall sb, copy = Some sb -> copy_at (disk w) off = Some sb /\ sb_buffer sb) ->
  let R w' := length (disk w') = length (disk w) /\
    (forall i : nat, Z.of_nat i < off \/ off + NILFS_MAX_SB_SIZE <= Z.of_nat i -> disk w' !! i = disk w !! i) in
  wp (write_copy fd mask sbp copy off)
     (fun _ w' => R w' /\ match copy with
                          | None => disk w' = disk w
                          | Some sb => copy_at (disk w') off = Some (new_copy mask sbp sb)
                          end)
     (fun _ w' => R w') w.
Proof using L.
  intros Hp Hc R. unfold write_copy. destruct copy as [sb|]; [|apply wp_ret; by split].
  destruct (Hc sb eq_refl) as [Hc0 Hb]. clear Hc. rename Hc0 into Hc. destruct (copy_at_range _ _ _ Hc) as [Ho Hr].
  pose proof (new_copy_length mask sbp sb Hp Hb) as Hl.
  fold (new_copy mask sbp sb). set (img := new_copy mask sbp sb) in *.
  unfold wp, bind, attempt, lift_sum. destruct (dev_pwrite fd img off w) as [r w1] eqn:Hw.
  destruct (dl_pwrite (disk := disk) _ _ _ _ _ _ Hw Ho ltac:(lia)) as (k & Hk & Hd & Hcount).
  assert (HR : R w1).
  { split; rewrite Hd; [rewrite put_bytes_length by (rewrite ?length_take; lia); done|].
    intros i Hi. rewrite put_bytes_lookup by (rewrite ?length_take; lia).
    unfold NILFS_MAX_SB_SIZE in Hi. rewrite decide_False by (rewrite length_take; lia). done. }
  destruct r as [count|e]; [|done]. destruct (Z.ltb_spec count NILFS_MAX_SB_SIZE); [done|].
  split; [done|]. specialize (Hcount _ eq_refl). unfold NILFS_MAX_SB_SIZE in *.
  rewrite Hd, take_ge by lia. unfold copy_at, NILFS_MAX_SB_SIZE. replace 1024 with (Z.of_nat (length img)) by lia.
  apply rd_bytes_put_eq; lia.
Qed.

Lemma copy_at_same d d' off : length d' = length d ->
  (forall i : nat, off <= Z.of_nat i < off + NILFS_MAX_SB_SIZE -> d' !! i = d !! i) ->
  copy_at d' off = copy_at d off.
Proof using.
  unfold copy_at, rd_bytes, NILFS_MAX_SB_SIZE. intros Hl Hi. rewrite Hl. case_if; [|done]. f_equal.
  apply list_eq. intros i. rewrite !lookup_take. case_decide; [|done]. rewrite !lookup_drop. apply Hi. lia.
Qed.

(** What a successful update leaves: each copy is as it was or updated, and
    one is updated. *)
Definition copies_updated (mask : Z) (sbp d d' : list Z) : Prop :=
  let at_ off := updated mask sbp d d' off \/ copy_at d' off = copy_at d off in
  at_ NILFS_SB_OFFSET_BYTES /\ at_ (sb2_off d) /\
  (updated mask sbp d d' NILFS_SB_OFFSET_BYTES \/ updated mask sbp d d' (sb2_off d)).

Lemma sb_write_wp fd mask sbp w : 0 <= fd -> sb_buffer sbp -> bytes (disk w) -> size_ok (disk w) ->
  shift_ok (disk w) ->
  wp (nilfs_sb_write fd (Some sbp) mask)
     (fun _ w' => only_copies (disk w) (disk w') /\ copies_updated mask sbp (disk w) (disk w'))
     (fun _ w' => only_copies (disk w) (disk w')) w.
Proof using L.
  intros Hfd Hp Hb Hs Hsh. pose proof (sb2_off_range _ Hs) as Hr. unfold nilfs_sb_write.
  destruct (Z.ltb_spec fd 0); [lia|].
  eapply wp_seq; [by apply read_copies| |intros e w' [_ ->]; by split].
  intros [[sb0 sb1] [off0 off1]] w1 [(-> & -> & Hne & H0 & H1 & _) Hw1]. rewrite <- Hw1 in *. clear w Hw1.
  pose proof (fun sb Hsb => first_copy_inv _ _ (H0 sb Hsb)) as H0'. clear H0. rename H0' into H0.
  pose proof (fun sb Hsb => second_copy_inv _ _ (H1 sb Hsb)) as H1'. clear H1. rename H1' into H1.
  set (d := disk w1) in *. unfold only_copies, outside.
  assert (Hbuf : forall off sb, copy_at d off = Some sb -> sb_buffer sb) by (intros; by eapply copy_at_buffer).
  change NILFS_MAX_SB_SIZE with 1024 in *. change NILFS_SB_OFFSET_BYTES with 1024 in *.
  eapply wp_seq; [apply (write_copy_wp fd mask sbp sb0 _ w1 Hp); naive_solver| |].
  2: { intros e w' [Hl Hi]. split; [done|]. intros i Ho. apply Hi, Ho. by left. }
  intros [] w2 [[Hl Hi] Hc0]. fold d in Hl, Hi, Hc0. change NILFS_MAX_SB_SIZE with 1024 in *.
  assert (Hsame1 : copy_at (disk w2) (sb2_off d) = copy_at d (sb2_off d)).
  { apply copy_at_same; [done|]. change NILFS_MAX_SB_SIZE with 1024. intros i Hlt. apply Hi. lia. }
  eapply wp_mono; [apply (write_copy_wp fd mask sbp sb1 _ w2 Hp); rewrite Hsame1; naive_solver| |].
  2: { intros e w' [Hl' Hi']. change NILFS_MAX_SB_SIZE with 1024 in *. split; [congruence|]. intros i Ho.
       rewrite Hi' by (apply Ho; by right). apply Hi, Ho. by left. }
  intros [] w3 [[Hl' Hi'] Hc1]. change NILFS_MAX_SB_SIZE with 1024 in *.
  assert (Hsame0 : copy_at (disk w3) 1024 = copy_at (disk w2) 1024).
  { apply copy_at_same; [done|]. change NILFS_MAX_SB_SIZE with 1024. intros i Hlt. apply Hi'. lia. }
  split; [split; [congruence|]; intros i Ho; rewrite Hi' by (apply Ho; by right); apply Hi, Ho; by left|].
  assert (Hu0 : forall s, sb0 = Some s -> updated mask sbp d (disk w3) 1024).
  { intros s ->. exists s. rewrite Hsame0. naive_solver. }
  assert (Hu1 : forall s, sb1 = Some s -> updated mask sbp d (disk w3) (sb2_off d)).
  { intros s ->. exists s. naive_solver. }
  unfold copies_updated. change NILFS_SB_OFFSET_BYTES with 1024. split_and!.
  - destruct sb0 as [s|]; [left; by eapply Hu0|right]. rewrite Hsame0. by rewrite Hc0.
  - destruct sb1 as [s|]; [left; by eapply Hu1|right]. by rewrite Hc1.
  - destruct sb0 as [s|]; [left; by eapply Hu0|]. destruct sb1 as [s|]; [right; by eapply Hu1|]. naive_solver.
Qed.

(** ** Reading *)

Lemma sb_read_run fd w : size_ok (disk w) -> shift_ok (disk w) ->
  wp (nilfs_sb_read fd)
     (fun sb w' => disk w' = disk w /\ (first_copy (disk w) = Some sb \/ second_copy (disk w) = Some sb) /\
                   (reliable fd -> chosen (disk w) = Some sb))
     (fun e w' => disk w' = disk w /\ (reliable fd -> e = ENOMEM \/ e = EINVAL /\ chosen (disk w) = None)) w.
Proof using L.
  intros Hs Hsh. unfold nilfs_sb_read. eapply wp_seq; [by apply read_copies| |by intros e w' []].
  intros [[sb0 sb1] [off0 off1]] w1 [(-> & -> & Hne & H0 & H1 & Hall) Hw1].
  destruct sb0 as [s0|]; [|destruct sb1 as [s1|]; [|naive_solver]]; apply wp_ret; (split_and!; [done|auto|]);
    intros [E0 E1]%Hall; unfold chosen; by rewrite <- E0, <- ?E1.
Qed.

Lemma sb_read_wp fd w : size_ok (disk w) -> shift_ok (disk w) ->
  wp (nilfs_sb_read fd) (fun sb w' => disk w' = disk w /\ nilfs_sb_is_valid sb false = true /\
      (copy_at (disk w) NILFS_SB_OFFSET_BYTES = Some sb \/ copy_at (disk w) (sb2_off (disk w)) = Some sb))
     (fun _ w' => disk w' = disk w) w.
Proof using L.
  intros Hs Hsh. eapply wp_mono; [by apply sb_read_run| |by intros e w' []].
  intros sb w' (? & [[]%first_copy_inv|[]%second_copy_inv] & _); auto.
Qed.

(** C4: on a device of at least 8 KB, reading the superblock yields the first
    copy, that is the 1024 bytes at offset 1024, when they have the magic
    number of the file system and a sane size, and otherwise the second copy,
    at its place near the end of the device, when it looks valid in the same
    way and lies behind the segments.  This is what it yields whenever the
    device is reliable (it tells its size and answers reads inside it in
    full); then it fails only with ENOMEM, or with EINVAL when neither copy can
    be used.  On any other device, too, what it returns is one of the two
    copies, usable in this sense.  Nothing is written.  The condition
    [shift_ok] - the block size of a second copy that looks valid is below
    2 ^ 64 - keeps the shift of lib/sb.c:102 defined. *)
Theorem sb_read_chooses fd w : size_ok (disk w) -> shift_ok (disk w) ->
  wp (nilfs_sb_read fd)
     (fun sb w' => disk w' = disk w /\ (first_copy (disk w) = Some sb \/ second_copy (disk w) = Some sb) /\
                   (reliable fd -> chosen (disk w) = Some sb))
     (fun e w' => disk w' = disk w /\ (reliable fd -> e = ENOMEM \/ e = EINVAL /\ chosen (disk w) = None)) w.
Proof using L. apply sb_read_run. Qed.
End Disk.
