(* ===== verification/Kernel.v ===== *)
(** * The interface to the kernel (include/linux/nilfs2_api.h)

    The records that the nilfs2 ioctls exchange, the tests on them that the
    header defines, and the class [Kernel] of the operations that are not
    part of these sources: the ioctls, the device, memory mapping, the
    semaphore, the clocks and the signal mask.  What the code relies on about
    them is stated where it is used, by the classes of laws there and by the
    hypotheses of single theorems. *)

From S2P Require Import Prelude Vector Ondisk Sb.

Record nilfs_cpinfo := mk_cpinfo {
  ci_flags : Z; ci_cno : Z; ci_create : Z; ci_nblk_inc : Z;
  ci_inodes_count : Z; ci_blocks_count : Z; ci_next : Z;
}.

Record nilfs_suinfo := mk_suinfo {
  sui_lastmod : Z; sui_nblocks : Z; sui_flags : Z;
}.

(** Flag bits of [sui_flags]. *)
Definition NILFS_SUINFO_ACTIVE : Z := 0.
Definition NILFS_SUINFO_DIRTY : Z := 1.
Definition NILFS_SUINFO_ERROR : Z := 2.

Definition nilfs_suinfo_active (si : nilfs_suinfo) : bool := Z.testbit (sui_flags si) NILFS_SUINFO_ACTIVE.
Definition nilfs_suinfo_dirty (si : nilfs_suinfo) : bool := Z.testbit (sui_flags si) NILFS_SUINFO_DIRTY.
Definition nilfs_suinfo_error (si : nilfs_suinfo) : bool := Z.testbit (sui_flags si) NILFS_SUINFO_ERROR.
Definition nilfs_suinfo_clean (si : nilfs_suinfo) : bool := sui_flags si =? 0.

(** include/nilfs_gc.h *)
Definition nilfs_suinfo_reclaimable (si : nilfs_suinfo) : bool :=
  nilfs_suinfo_dirty si && negb (nilfs_suinfo_active si) && negb (nilfs_suinfo_error si).
Definition nilfs_suinfo_empty (si : nilfs_suinfo) : bool := sui_nblocks si =? 0.

Record nilfs_suinfo_update := mk_suinfo_update {
  sup_segnum : Z; sup_flags : Z; sup_reserved : Z; sup_sui : nilfs_suinfo;
}.

Definition NILFS_SUINFO_UPDATE_LASTMOD : Z := 0.

(** [nilfs_suinfo_update_set_lastmod]. *)
Definition nilfs_suinfo_update_set_lastmod (sup : nilfs_suinfo_update) : nilfs_suinfo_update :=
  mk_suinfo_update (sup_segnum sup)
    (Z.lor (sup_flags sup) (Z.shiftl 1 NILFS_SUINFO_UPDATE_LASTMOD))
    (sup_reserved sup) (sup_sui sup).

Definition NILFS_CHECKPOINT : Z := 0.
Definition NILFS_SNAPSHOT : Z := 1.

Record nilfs_period := mk_period { p_start : Z; p_end : Z }.

Record nilfs_cpstat := mk_cpstat { cs_cno : Z; cs_ncps : Z; cs_nsss : Z }.

Record nilfs_sustat := mk_sustat {
  ss_nsegs : Z; ss_ncleansegs : Z; ss_ndirtysegs : Z;
  ss_ctime : Z; ss_nongc_ctime : Z; ss_prot_seq : Z;
}.

Record nilfs_vinfo := mk_vinfo {
  vi_vblocknr : Z; vi_start : Z; vi_end : Z; vi_blocknr : Z;
}.

Record nilfs_vdesc := mk_vdesc {
  vd_ino : Z; vd_cno : Z; vd_vblocknr : Z; vd_period : nilfs_period;
  vd_blocknr : Z; vd_offset : Z; vd_flags : Z;
}.

Record nilfs_bdesc := mk_bdesc {
  bd_ino : Z; bd_oblocknr : Z; bd_blocknr : Z; bd_offset : Z; bd_level : Z;
}.

Definition NILFS_CNO_MIN : Z := 1.
Definition NILFS_CNO_MAX : Z := 2 ^ 64 - 1.

(** Sizes of the records, for the vectors that hold them. *)
Definition sizeof_nilfs_vdesc : Z := 64.
Definition sizeof_nilfs_bdesc : Z := 40.
Definition sizeof_nilfs_period : Z := 16.
Definition sizeof_uint64 : Z := 8.
Definition sizeof_nilfs_suinfo_update : Z := 32.

(** Seconds and nanoseconds. *)
Record timespec := mk_timespec { tv_sec : Z; tv_nsec : Z }.

Inductive clockid := CLOCK_REALTIME | CLOCK_MONOTONIC | CLOCK_REALTIME_COARSE
                   | CLOCK_MONOTONIC_COARSE | CLOCK_BOOTTIME.

(** The system calls the library makes; each may fail with an errno.  The
    first argument of the device and ioctl calls is the file descriptor, and
    [nmembs] is the 32-bit member count of [struct nilfs_argv]. *)
Class Kernel (W : Type) := {
  k_device : Device W;
  k_pagesize : W -> Z;
  k_junk : W -> Z;     (** what memory holds that was not written *)
  k_mmap : Z -> Z -> Z -> W -> ((Z * list Z) + Z) * W;   (** fd, length, offset *)
  k_munmap : Z -> Z -> W -> (unit + Z) * W;
  ioc_change_cpmode : Z -> Z -> Z -> W -> (unit + Z) * W;
  ioc_get_cpinfo : Z -> Z -> Z -> Z -> W -> (list nilfs_cpinfo + Z) * W; (** fd, nmembs, index, mode *)
  ioc_delete_checkpoint : Z -> Z -> W -> (unit + Z) * W;
  ioc_get_cpstat : Z -> W -> (nilfs_cpstat + Z) * W;
  ioc_get_suinfo : Z -> Z -> Z -> W -> (list nilfs_suinfo + Z) * W;      (** fd, nmembs, index *)
  ioc_set_suinfo : Z -> list nilfs_suinfo_update -> W -> (unit + Z) * W;
  ioc_get_sustat : Z -> W -> (nilfs_sustat + Z) * W;
  ioc_get_vinfo : Z -> list nilfs_vinfo -> W -> (list nilfs_vinfo + Z) * W;
  ioc_get_bdescs : Z -> list nilfs_bdesc -> W -> (list nilfs_bdesc + Z) * W;
  ioc_clean_segments : Z -> list nilfs_vdesc -> list nilfs_period -> list Z ->
                       list nilfs_bdesc -> list Z -> W -> (unit + Z) * W;
  ioc_sync : Z -> W -> (Z + Z) * W;
  ioc_resize : Z -> Z -> W -> (unit + Z) * W;
  ioc_set_alloc_range : Z -> Z -> Z -> W -> (unit + Z) * W;
  ioc_freeze : Z -> W -> (unit + Z) * W;
  ioc_thaw : Z -> W -> (unit + Z) * W;
  sem_wait : W -> (unit + Z) * W;
  sem_trywait : W -> (unit + Z) * W;
  sem_post : W -> (unit + Z) * W;
  sigprocmask_block : W -> (unit + Z) * W;    (** block SIGINT and SIGTERM *)
  sigprocmask_restore : W -> W;
  sigpending_intterm : W -> (bool + Z) * W;   (** is SIGINT or SIGTERM pending? *)
  k_clock_gettime : clockid -> W -> (timespec + Z) * W;
  k_gettimeofday : W -> (Z + Z) * W;          (** seconds *)
}.
#[export] Existing Instance k_device.
