(* ===== verification/Nilfs.v ===== *)
(** * The nilfs object and its ioctl wrappers (lib/nilfs.c)

    [sys W] is the state the library works on: the [struct nilfs] object and
    the world [W] behind the [Kernel] operations.  Every wrapper checks its
    arguments and the file descriptor before it enters the kernel. *)

From S2P Require Import Prelude Vector Ondisk Sb Kernel.

(** [struct nilfs]; the path names are not modelled. *)
Record nilfs := mk_nilfs {
  n_sb : option (list Z);
  n_devfd : Z;
  n_iocfd : Z;
  n_opts : Z;
  n_mincno : Z;
  n_sem : bool;    (** is [n_sems[0]] open? *)
}.

Record sys (W : Type) := mk_sys { s_nilfs : nilfs; s_world : W }.
Arguments mk_sys {W} _ _.
Arguments s_nilfs {W} _.
Arguments s_world {W} _.

Definition set_mincno (nf : nilfs) (cno : Z) : nilfs :=
  mk_nilfs (n_sb nf) (n_devfd nf) (n_iocfd nf) (n_opts nf) cno (n_sem nf).
Definition set_opts (nf : nilfs) (opts : Z) : nilfs :=
  mk_nilfs (n_sb nf) (n_devfd nf) (n_iocfd nf) opts (n_mincno nf) (n_sem nf).

(** [struct nilfs_segment]; [seg_base] is the address and [seg_addr] the
    bytes that can be read from it on. *)
Record nilfs_segment := mk_segment {
  seg_base : Z; seg_addr : list Z; seg_segsize : Z; seg_segnum : Z;
  seg_seqnum : Z; seg_blocknr : Z; seg_nblocks : Z;
  seg_blocks_per_segment : Z; seg_blkbits : Z; seg_seed : Z;
  seg_mmapped : bool; seg_adjusted : bool;
}.

Record nilfs_layout := mk_layout {
  lo_rev_level : Z; lo_minor_rev_level : Z; lo_flags : Z; lo_blocksize_bits : Z;
  lo_blocksize : Z; lo_devsize : Z; lo_crc_seed : Z; lo_nsegments : Z;
  lo_blocks_per_segment : Z; lo_reserved_segments_ratio : Z;
  lo_first_segment_blkoff : Z; lo_feature_compat : Z; lo_feature_compat_ro : Z;
  lo_feature_incompat : Z;
}.

Definition NILFS_OPT_MMAP : Z := 0.
Definition NILFS_OPT_SET_SUINFO : Z := 1.
Definition __NR_NILFS_OPT : Z := 2.

(** Offsets in [struct nilfs_segment_summary]. *)
Definition ss_seq_off : Z := 16.

(** [1UL << n] is undefined from 64 on. *)
Definition shl64 (x n : Z) : option Z :=
  if (0 <=? n) && (n <? 64) then Some (u64 (Z.shiftl x n)) else None.

Section Nilfs.
Context {W : Type} `{Kernel W}.
Abbreviation MS := (M (sys W)).

(** A call into the world, and one that uses the nilfs object. *)
Definition os {A} (f : W -> (A + Z) * W) : MS A :=
  fun s => let '(r, w) := f (s_world s) in
           (match r with inl a => Ok a | inr e => Err e end, mk_sys (s_nilfs s) w).
Definition os_pure {A} (f : W -> A) : MS A := gets (fun s => f (s_world s)).
Definition the_nilfs : MS nilfs := gets s_nilfs.
Definition put_nilfs (nf : nilfs) : MS unit := modify (fun s => mk_sys nf (s_world s)).
Definition errno_now {A} : MS A := fun s => (Err (dev_errno (s_world s)), s).

#[export] Instance sys_alloc : Alloc (sys W) :=
  fun n s => let '(b, w) := malloc n (s_world s) in (b, mk_sys (s_nilfs s) w).

(** [assert(nilfs->n_sb != NULL)] and a field of the superblock. *)
Definition sb_field_of (f : sb_field) : MS Z :=
  let* nf := the_nilfs in
  let* sb := of_option (n_sb nf) in
  ret (sb_get sb f).

Definition nilfs_get_block_size : MS Z :=
  let* lbs := sb_field_of s_log_block_size in
  of_option (shl64 1 (u32 (lbs + 10))).
Definition nilfs_get_nsegments : MS Z := sb_field_of s_nsegments.
Definition nilfs_get_blocks_per_segment : MS Z := sb_field_of s_blocks_per_segment.
Definition nilfs_get_reserved_segments_ratio : MS Z := sb_field_of s_r_segments_percentage.

Definition nilfs_get_layout (layout_size : Z) : MS (nilfs_layout) :=
  if layout_size <? 0x50 then fail EINVAL
  else
    let* nf := the_nilfs in
    match n_sb nf with
    | None => fail EPERM
    | Some sb =>
      let bits := u32 (sb_get sb s_log_block_size + 10) in
      let* bs := of_option (shl64 1 bits) in
      ret {| lo_rev_level := sb_get sb s_rev_level;
             lo_minor_rev_level := sb_get sb s_minor_rev_level;
             lo_flags := sb_get sb s_flags;
             lo_blocksize_bits := bits;
             lo_blocksize := u32 bs;
             lo_devsize := sb_get sb s_dev_size;
             lo_crc_seed := sb_get sb s_crc_seed;
             lo_nsegments := sb_get sb s_nsegments;
             lo_blocks_per_segment := sb_get sb s_blocks_per_segment;
             lo_reserved_segments_ratio := sb_get sb s_r_segments_percentage;
             lo_first_segment_blkoff := sb_get sb s_first_data_block;
             lo_feature_compat := sb_get sb s_feature_compat;
             lo_feature_compat_ro := sb_get sb s_feature_compat_ro;
             lo_feature_incompat := sb_get sb s_feature_incompat |}
    end.

(** ** Options *)

Definition __nilfs_opt_set_mmap : MS unit :=
  let* pagesize := os_pure k_pagesize in
  if pagesize <? 0 then errno_now
  else
    let* nf := the_nilfs in
    match n_sb nf with
    | None => fail EPERM
    | Some _ =>
      let* bps := nilfs_get_blocks_per_segment in
      let* bs := nilfs_get_block_size in
      let segsize := u64 (bps * bs) in
      if pagesize =? 0 then abort
      else if negb (segsize `mod` pagesize =? 0) then errno_now else ret tt
    end.

Definition nilfs_opt_test (index : Z) (nf : nilfs) : bool :=
  if __NR_NILFS_OPT <=? index then false
  else negb (Z.land (n_opts nf) (Z.shiftl 1 index) =? 0).

Definition nilfs_opt_set (index : Z) : MS unit :=
  if __NR_NILFS_OPT <=? index then fail EINVAL
  else
    (if index =? NILFS_OPT_MMAP then __nilfs_opt_set_mmap else ret tt) ;;
    let* nf := the_nilfs in
    put_nilfs (set_opts nf (Z.lor (n_opts nf) (Z.shiftl 1 index))).

Definition nilfs_opt_clear (index : Z) : MS unit :=
  if __NR_NILFS_OPT <=? index then fail EINVAL
  else
    let* nf := the_nilfs in
    put_nilfs (set_opts nf (Z.land (n_opts nf) (Z.lnot (Z.shiftl 1 index)))).

(** ** Locks *)

Definition with_sem (index : Z) (op : W -> (unit + Z) * W) : MS unit :=
  if 1 <=? index then fail EINVAL
  else let* nf := the_nilfs in
       if n_sem nf then os op else abort.

Definition nilfs_lock (index : Z) : MS unit := with_sem index sem_wait.
Definition nilfs_trylock (index : Z) : MS unit := with_sem index sem_trywait.
Definition nilfs_unlock (index : Z) : MS unit := with_sem index sem_post.

(** ** Ioctls *)

(** [if (nilfs->n_iocfd < 0) { errno = EBADF; return -1; }] *)
Definition with_iocfd {A} (k : Z -> MS A) : MS A :=
  let* nf := the_nilfs in
  if n_iocfd nf <? 0 then fail EBADF else k (n_iocfd nf).

Definition nilfs_change_cpmode (cno mode : Z) : MS unit :=
  with_iocfd (fun fd =>
    if cno <? NILFS_CNO_MIN then fail EINVAL else os (ioc_change_cpmode fd cno mode)).

Definition nilfs_get_cpinfo (cno mode nci : Z) : MS (list nilfs_cpinfo) :=
  with_iocfd (fun fd =>
    if (mode =? NILFS_CHECKPOINT) && (cno <? NILFS_CNO_MIN) then fail EINVAL
    else
      let* nf := the_nilfs in
      let cno := if (mode =? NILFS_CHECKPOINT) && (cno <? n_mincno nf)
                 then n_mincno nf else cno in
      let* cpinfo := os (ioc_get_cpinfo fd (u32 nci) cno mode) in
      (match cpinfo with
       | ci :: _ =>
         if (mode =? NILFS_CHECKPOINT) && (cno =? n_mincno nf) && (n_mincno nf <? ci_cno ci)
         then put_nilfs (set_mincno nf (ci_cno ci)) else ret tt
       | [] => ret tt
       end) ;;
      ret cpinfo).

Definition nilfs_delete_checkpoint (cno : Z) : MS unit :=
  with_iocfd (fun fd => os (ioc_delete_checkpoint fd cno)).

Definition nilfs_get_cpstat : MS nilfs_cpstat :=
  with_iocfd (fun fd => os (ioc_get_cpstat fd)).

Definition nilfs_get_suinfo (segnum nsi : Z) : MS (list nilfs_suinfo) :=
  with_iocfd (fun fd => os (ioc_get_suinfo fd (u32 nsi) segnum)).

Definition nilfs_set_suinfo (sup : list nilfs_suinfo_update) (nsup : Z) : MS unit :=
  with_iocfd (fun fd => os (ioc_set_suinfo fd (take (Z.to_nat (u32 nsup)) sup))).

Definition nilfs_get_sustat : MS nilfs_sustat :=
  with_iocfd (fun fd => os (ioc_get_sustat fd)).

(** The kernel fills in the descriptors it is given; the list returned is
    the part that was filled in. *)
Definition nilfs_get_vinfo (vinfo : list nilfs_vinfo) (nvi : Z) : MS (list nilfs_vinfo) :=
  with_iocfd (fun fd => os (ioc_get_vinfo fd (take (Z.to_nat (u32 nvi)) vinfo))).

Definition nilfs_get_bdescs (bdescs : list nilfs_bdesc) (nbdescs : Z) : MS (list nilfs_bdesc) :=
  with_iocfd (fun fd => os (ioc_get_bdescs fd (take (Z.to_nat (u32 nbdescs)) bdescs))).

Definition nilfs_clean_segments (vdescs : list nilfs_vdesc) (periods : list nilfs_period)
    (vblocknrs : list Z) (bdescs : list nilfs_bdesc) (segnums : list Z) : MS unit :=
  let arg {A} (l : list A) := take (Z.to_nat (u32 (Z.of_nat (length l)))) l in
  with_iocfd (fun fd =>
    os (ioc_clean_segments fd (arg vdescs) (arg periods) (arg vblocknrs) (arg bdescs)
          (arg segnums))).

Definition nilfs_sync : MS Z := with_iocfd (fun fd => os (ioc_sync fd)).
Definition nilfs_resize (size : Z) : MS unit :=
  with_iocfd (fun fd => os (ioc_resize fd (u64 size))).
Definition nilfs_set_alloc_range (start end_ : Z) : MS unit :=
  with_iocfd (fun fd => os (ioc_set_alloc_range fd (u64 start) (u64 end_))).
Definition nilfs_freeze : MS unit := with_iocfd (fun fd => os (ioc_freeze fd)).
Definition nilfs_thaw : MS unit := with_iocfd (fun fd => os (ioc_thaw fd)).

(** The result of the ioctl is ignored. *)
Definition nilfs_get_oldest_cno : MS Z :=
  let* nf := the_nilfs in
  let* _ := attempt (nilfs_get_cpinfo (n_mincno nf) NILFS_CHECKPOINT 1) in
  gets (fun s => n_mincno (s_nilfs s)).

(** ** Raw segments *)

(** Start block and length of a segment. *)
Definition segment_extent (sb : list Z) (segnum blocks_per_segment : Z) : MS (Z * Z) :=
  if segnum =? 0 then
    let segblocknr := sb_get sb s_first_data_block in
    if blocks_per_segment <=? segblocknr then fail EINVAL
    else ret (segblocknr, u32 (blocks_per_segment - u32 segblocknr))
  else ret (u64 (blocks_per_segment * segnum), blocks_per_segment).

(** How the bytes are obtained: base address, bytes, and the flags. *)
Definition segment_bytes (nf : nilfs) (pagesize segsize segstart : Z)
  : MS (Z * list Z * bool * bool) :=
  let by_read :=
    m_malloc segsize ;;
    let* bytes := os (dev_pread (n_devfd nf) segsize segstart) in
    let* junk := os_pure k_junk in
    ret (0, resize (Z.to_nat segsize) junk bytes, false, false) in
  if nilfs_opt_test NILFS_OPT_MMAP nf then
    let page_offset := Z.rem segstart pagesize in
    let alloc_size := u64 (u64 (u64 (segsize + page_offset) + pagesize - 1) / pagesize * pagesize) in
    let* r := attempt (os (k_mmap (n_devfd nf) alloc_size (segstart - page_offset))) in
    match r with
    | inl (base, bytes) =>
        ret (base, bytes, true, negb (page_offset =? 0) || negb (alloc_size =? pagesize))
    | inr e => if e =? ENODEV then by_read else fail e
    end
  else by_read.

Definition nilfs_get_segment (segnum : Z) : MS nilfs_segment :=
  let* nf := the_nilfs in
  match n_sb nf with
  | None => fail EBADF
  | Some sb =>
    if n_devfd nf <? 0 then fail EBADF
    else
      let* pagesize := os_pure k_pagesize in
      if pagesize <=? 0 then fail EINVAL
      else if sb_get sb s_nsegments <=? segnum then fail EINVAL
      else
        let blkbits := u32 (sb_get sb s_log_block_size + 10) in
        let blocks_per_segment := sb_get sb s_blocks_per_segment in
        if blocks_per_segment <? NILFS_SEG_MIN_BLOCKS then fail EINVAL
        else
          let* (segblocknr, nblocks) := segment_extent sb segnum blocks_per_segment in
          let* segsize := of_option (shl64 nblocks blkbits) in
          let* segstart := of_option (shl64 segblocknr blkbits) in
          let* (base, addr, mmapped, adjusted) :=
            segment_bytes nf pagesize segsize (i64 segstart) in
          let* seqnum := of_option (rd_le 8 addr ss_seq_off) in
          ret {| seg_base := base; seg_addr := addr; seg_segsize := segsize;
                 seg_segnum := segnum; seg_seqnum := seqnum; seg_blocknr := segblocknr;
                 seg_nblocks := nblocks; seg_blocks_per_segment := blocks_per_segment;
                 seg_blkbits := blkbits; seg_seed := sb_get sb s_crc_seed;
                 seg_mmapped := mmapped; seg_adjusted := adjusted |}
  end.

Definition nilfs_put_segment (segment : nilfs_segment) : MS unit :=
  if seg_mmapped segment then
    if seg_adjusted segment then
      let* pagesize := os_pure k_pagesize in
      if pagesize <=? 0 then fail EINVAL
      else
        let page_offset := seg_base segment `mod` pagesize in
        let size := u64 (u64 (u64 (seg_segsize segment + page_offset) + pagesize - 1)
                         / pagesize * pagesize) in
        os (k_munmap (seg_base segment - page_offset) size)
    else os (k_munmap (seg_base segment) (seg_segsize segment))
  else ret tt.

Definition nilfs_get_segment_seqnum (segnum : Z) : MS Z :=
  let* nf := the_nilfs in
  match n_sb nf with
  | None => fail EBADF
  | Some sb =>
    if n_devfd nf <? 0 then fail EBADF
    else if sb_get sb s_nsegments <=? segnum then fail EINVAL
    else
      let blkbits := u32 (sb_get sb s_log_block_size + 10) in
      let blk := if segnum =? 0 then sb_get sb s_first_data_block
                 else u64 (sb_get sb s_blocks_per_segment * segnum) in
      let* segstart := of_option (shl64 blk blkbits) in
      let* bytes := os (dev_pread (n_devfd nf) 8 (i64 (i64 segstart + ss_seq_off))) in
      let* junk := os_pure k_junk in
      of_option (rd_le 8 (resize 8 junk bytes) 0)
  end.
End Nilfs.
#[export] Existing Instance sys_alloc.
