(* ===== verification/Segment.v ===== *)
(** * Segment summaries: the iterators of lib/segment.c

    A segment is a sequence of logs (partial segments); the summary of a log
    lists the files written in it, and for each file one descriptor (binfo)
    per block.  Three nested iterators walk over these on-disk structures,
    which are not trusted.  Pointers into the segment are byte offsets from
    its start; a result [None] is an access outside the segment buffer. *)

From S2P Require Import Prelude Vector Ondisk Crc32 Sb Kernel Nilfs.

(** Layout of [struct nilfs_segment_summary] and [struct nilfs_finfo]. *)
Definition ss_magic_off : Z := 8.
Definition ss_bytes_off : Z := 12.
Definition ss_nblocks_off : Z := 40.
Definition ss_nfinfo_off : Z := 44.
Definition ss_sumbytes_off : Z := 48.
Definition ss_sumsum_end : Z := 8.     (** offsetofend(..., ss_sumsum) *)
Definition fi_ino_off : Z := 0.
Definition fi_cno_off : Z := 8.
Definition fi_nblocks_off : Z := 16.
Definition fi_ndatablk_off : Z := 20.
Definition sizeof_finfo : Z := 24.

Definition NILFS_BINFO_DATA_SIZE : Z := 16.
Definition NILFS_BINFO_NODE_SIZE : Z := 8.
Definition NILFS_BINFO_DAT_DATA_SIZE : Z := 8.
Definition NILFS_BINFO_DAT_NODE_SIZE : Z := 16.

(** Error codes of the iterators. *)
Definition NILFS_PSEGMENT_SUCCESS : Z := 0.
Definition NILFS_PSEGMENT_ERROR_ALIGNMENT : Z := 1.
Definition NILFS_PSEGMENT_ERROR_BIGPSEG : Z := 2.
Definition NILFS_PSEGMENT_ERROR_BIGHDR : Z := 3.
Definition NILFS_PSEGMENT_ERROR_BIGSUM : Z := 4.
Definition NILFS_FILE_SUCCESS : Z := 0.
Definition NILFS_FILE_ERROR_MANYBLKS : Z := 1.
Definition NILFS_FILE_ERROR_BLKCNT : Z := 2.
Definition NILFS_FILE_ERROR_OVERRUN : Z := 3.

Record nilfs_psegment := mk_psegment {
  ps_segsum : Z; ps_blocknr : Z; ps_blkcnt : Z; ps_blkbits : Z; ps_error : Z;
}.

Record nilfs_file := mk_file {
  fl_finfo : Z; fl_blocknr : Z; fl_offset : Z; fl_index : Z; fl_nfinfo : Z;
  fl_sumbytes : Z; fl_sumlen : Z; fl_error : Z; fl_use_real_blocknr : bool;
}.

Record nilfs_block := mk_block {
  bk_binfo : Z; bk_blocknr : Z; bk_offset : Z; bk_index : Z; bk_nbinfo : Z;
  bk_nbinfo_data : Z; bk_dsize : Z; bk_nsize : Z;
}.

(** [1UL << blkbits] as [uint32_t]. *)
Definition blksize_of (blkbits : Z) : Z := u32 (Z.shiftl 1 blkbits).

Section Iterators.
Context (seg : nilfs_segment).
Abbreviation mem := (seg_addr seg).

(** ** Partial segments *)

Definition nilfs_psegment_init (blkcnt : Z) : nilfs_psegment :=
  mk_psegment 0 (seg_blocknr seg) (Z.min blkcnt (seg_nblocks seg)) (seg_blkbits seg)
    NILFS_PSEGMENT_SUCCESS.

Definition set_ps_error (ps : nilfs_psegment) (e : Z) : nilfs_psegment :=
  mk_psegment (ps_segsum ps) (ps_blocknr ps) (ps_blkcnt ps) (ps_blkbits ps) e.

(** The size checks of [nilfs_psegment_is_valid]: the error they raise. *)
Definition psegment_sanity (ps : nilfs_psegment) (hdrsize sumbytes nblocks : Z) : option Z :=
  if negb (Z.land hdrsize 7 =? 0) then Some NILFS_PSEGMENT_ERROR_ALIGNMENT
  else if u64 (seg_blocknr seg + seg_nblocks seg) <? u64 (ps_blocknr ps + nblocks)
       then Some NILFS_PSEGMENT_ERROR_BIGPSEG
  else if sumbytes <? hdrsize then Some NILFS_PSEGMENT_ERROR_BIGHDR
  else if nblocks <=? u32 (Z.shiftr (u64 (sumbytes + Z.shiftl 1 (ps_blkbits ps) - 1))
                             (ps_blkbits ps))
       then Some NILFS_PSEGMENT_ERROR_BIGSUM
  else None.

Definition nilfs_psegment_is_valid (ps : nilfs_psegment) : option (bool * nilfs_psegment) :=
  magic ← rd_le 4 mem (ps_segsum ps + ss_magic_off);
  if negb (magic =? NILFS_SEGSUM_MAGIC) then Some (false, ps)
  else
    sumbytes ← rd_le 4 mem (ps_segsum ps + ss_sumbytes_off);
    if (sumbytes <? ss_sumsum_end) || (seg_segsize seg <=? ps_segsum ps + sumbytes)
    then Some (false, ps)
    else
      sum ← rd_le 4 mem (ps_segsum ps + 4);
      covered ← rd_bytes mem (ps_segsum ps + ss_sumsum_end) (sumbytes - ss_sumsum_end);
      if negb (sum =? crc32_le (seg_seed seg) covered) then Some (false, ps)
      else
        hdrsize ← rd_le 2 mem (ps_segsum ps + ss_bytes_off);
        nblocks ← rd_le 4 mem (ps_segsum ps + ss_nblocks_off);
        match psegment_sanity ps hdrsize sumbytes nblocks with
        | Some e => Some (false, set_ps_error ps e)
        | None => Some (true, ps)
        end.

Definition nilfs_psegment_is_end (ps : nilfs_psegment) : option (bool * nilfs_psegment) :=
  if ps_blkcnt ps <? NILFS_PSEG_MIN_BLOCKS then Some (true, ps)
  else '(ok, ps') ← nilfs_psegment_is_valid ps; Some (negb ok, ps').

Definition nilfs_psegment_next (ps : nilfs_psegment) : option nilfs_psegment :=
  nblocks ← rd_le 4 mem (ps_segsum ps + ss_nblocks_off);
  Some (mk_psegment (ps_segsum ps + u64 (Z.shiftl nblocks (ps_blkbits ps)))
                    (u64 (ps_blocknr ps + nblocks))
                    (if nblocks <=? ps_blkcnt ps then ps_blkcnt ps - nblocks else 0)
                    (ps_blkbits ps) (ps_error ps)).

Definition nilfs_psegment_is_error (ps : nilfs_psegment) : bool := negb (ps_error ps =? 0).

(** ** Files *)

(** Bytes left in the summary block that holds [offset]. *)
Definition rest_of_block (blksize offset : Z) : Z :=
  u32 (blksize - Z.land offset (u32 (blksize - 1))).

Definition nilfs_file_adjust_finfo_position (blksize : Z) (f : nilfs_file) : nilfs_file :=
  let rest := rest_of_block blksize (fl_offset f) in
  if rest <? sizeof_finfo then
    mk_file (fl_finfo f + rest) (fl_blocknr f) (u32 (fl_offset f + rest)) (fl_index f)
      (fl_nfinfo f) (fl_sumbytes f) (fl_sumlen f) (fl_error f) (fl_use_real_blocknr f)
  else f.

Definition nilfs_binfo_total_size (offset blksize binfosize blkcnt : Z) : Z :=
  let rest := rest_of_block blksize offset in
  if u32 (binfosize * blkcnt) <=? rest then u32 (binfosize * blkcnt)
  else
    let blkcnt := u32 (blkcnt - rest / binfosize) in
    let binfo_per_block := blksize / binfosize in
    u64 (rest + (blkcnt / binfo_per_block) * blksize
         + u32 ((blkcnt `mod` binfo_per_block) * binfosize)).

Definition binfo_sizes (use_real : bool) : Z * Z :=
  if use_real then (NILFS_BINFO_DAT_DATA_SIZE, NILFS_BINFO_DAT_NODE_SIZE)
  else (NILFS_BINFO_DATA_SIZE, NILFS_BINFO_NODE_SIZE).

(** [nilfs_file_info_size], the counts having been read from the finfo. *)
Definition info_size (blksize offset : Z) (use_real : bool) (nblocks ndatablk : Z) : Z :=
  let '(dsize, nsize) := binfo_sizes use_real in
  let delta := sizeof_finfo in
  let delta := u64 (delta + nilfs_binfo_total_size (u64 (offset + delta)) blksize dsize ndatablk) in
  u64 (delta + nilfs_binfo_total_size (u64 (offset + delta)) blksize nsize
                 (u32 (nblocks - ndatablk))).

Definition nilfs_file_info_size (blkbits : Z) (f : nilfs_file) : option Z :=
  nblocks ← rd_le 4 mem (fl_finfo f + fi_nblocks_off);
  ndatablk ← rd_le 4 mem (fl_finfo f + fi_ndatablk_off);
  Some (info_size (blksize_of blkbits) (fl_offset f) (fl_use_real_blocknr f) nblocks ndatablk).

(** The dummy length makes [nilfs_file_is_valid] fail. *)
Definition nilfs_file_init_from_finfo (blkbits : Z) (f : nilfs_file) : option nilfs_file :=
  let with_len len use_real :=
    mk_file (fl_finfo f) (fl_blocknr f) (fl_offset f) (fl_index f) (fl_nfinfo f)
      (fl_sumbytes f) len (fl_error f) use_real in
  if fl_sumbytes f <? fl_offset f + sizeof_finfo
  then Some (with_len sizeof_finfo (fl_use_real_blocknr f))
  else
    ino ← rd_le 8 mem (fl_finfo f + fi_ino_off);
    let use_real := ino =? NILFS_DAT_INO in
    len ← nilfs_file_info_size blkbits (with_len 0 use_real);
    Some (with_len len use_real).

Definition nilfs_file_init (ps : nilfs_psegment) : option nilfs_file :=
  let blkbits := ps_blkbits ps in
  let blksize := blksize_of blkbits in
  nfinfo ← rd_le 4 mem (ps_segsum ps + ss_nfinfo_off);
  sumbytes ← rd_le 4 mem (ps_segsum ps + ss_sumbytes_off);
  hdrsize ← rd_le 2 mem (ps_segsum ps + ss_bytes_off);
  let blocknr := u64 (ps_blocknr ps + Z.shiftr (u32 (sumbytes + blksize - 1)) blkbits) in
  nilfs_file_init_from_finfo blkbits
    (nilfs_file_adjust_finfo_position blksize
       (mk_file (ps_segsum ps + hdrsize) blocknr hdrsize 0 nfinfo sumbytes 0
          NILFS_FILE_SUCCESS false)).

Definition set_fl_error (f : nilfs_file) (e : Z) : nilfs_file :=
  mk_file (fl_finfo f) (fl_blocknr f) (fl_offset f) (fl_index f) (fl_nfinfo f)
    (fl_sumbytes f) (fl_sumlen f) e (fl_use_real_blocknr f).

Definition nilfs_file_is_valid (ps : nilfs_psegment) (f : nilfs_file)
  : option (bool * nilfs_file) :=
  if fl_sumbytes f <? u64 (fl_offset f + fl_sumlen f)
  then Some (false, set_fl_error f NILFS_FILE_ERROR_OVERRUN)
  else
    nblocks ← rd_le 4 mem (fl_finfo f + fi_nblocks_off);
    let blkoff := u32 (fl_blocknr f - ps_blocknr ps) in
    pseg_nblocks ← rd_le 4 mem (ps_segsum ps + ss_nblocks_off);
    if pseg_nblocks <? u32 (blkoff + nblocks)
    then Some (false, set_fl_error f NILFS_FILE_ERROR_MANYBLKS)
    else
      ndatablk ← rd_le 4 mem (fl_finfo f + fi_ndatablk_off);
      if nblocks <? ndatablk then Some (false, set_fl_error f NILFS_FILE_ERROR_BLKCNT)
      else Some (true, f).

Definition nilfs_file_is_end (ps : nilfs_psegment) (f : nilfs_file)
  : option (bool * nilfs_file) :=
  if fl_nfinfo f <=? fl_index f then Some (true, f)
  else '(ok, f') ← nilfs_file_is_valid ps f; Some (negb ok, f').

Definition nilfs_file_next (ps : nilfs_psegment) (f : nilfs_file) : option nilfs_file :=
  let blkbits := ps_blkbits ps in
  nblocks ← rd_le 4 mem (fl_finfo f + fi_nblocks_off);
  f' ← nilfs_file_init_from_finfo blkbits
         (nilfs_file_adjust_finfo_position (blksize_of blkbits)
            (mk_file (fl_finfo f + fl_sumlen f) (u64 (fl_blocknr f + nblocks))
               (u32 (fl_offset f + fl_sumlen f)) (fl_index f) (fl_nfinfo f)
               (fl_sumbytes f) (fl_sumlen f) (fl_error f) (fl_use_real_blocknr f)));
  Some (mk_file (fl_finfo f') (fl_blocknr f') (fl_offset f') (u32 (fl_index f' + 1))
          (fl_nfinfo f') (fl_sumbytes f') (fl_sumlen f') (fl_error f')
          (fl_use_real_blocknr f')).

Definition nilfs_file_is_error (f : nilfs_file) : bool := negb (fl_error f =? 0).

(** ** Blocks *)

Definition nilfs_block_is_data (b : nilfs_block) : bool := bk_index b <? bk_nbinfo_data b.

Definition binfosize (b : nilfs_block) : Z :=
  if nilfs_block_is_data b then bk_dsize b else bk_nsize b.

Definition nilfs_block_adjust_binfo_position (blksize : Z) (b : nilfs_block) : nilfs_block :=
  let rest := rest_of_block blksize (bk_offset b) in
  if rest <? binfosize b then
    mk_block (bk_binfo b + rest) (bk_blocknr b) (u32 (bk_offset b + rest)) (bk_index b)
      (bk_nbinfo b) (bk_nbinfo_data b) (bk_dsize b) (bk_nsize b)
  else b.

Definition nilfs_block_init (ps : nilfs_psegment) (f : nilfs_file) : option nilfs_block :=
  nblocks ← rd_le 4 mem (fl_finfo f + fi_nblocks_off);
  ndatablk ← rd_le 4 mem (fl_finfo f + fi_ndatablk_off);
  let '(dsize, nsize) := binfo_sizes (fl_use_real_blocknr f) in
  Some (nilfs_block_adjust_binfo_position (blksize_of (ps_blkbits ps))
          (mk_block (fl_finfo f + sizeof_finfo) (fl_blocknr f)
             (u32 (fl_offset f + sizeof_finfo)) 0 nblocks ndatablk dsize nsize)).

Definition nilfs_block_is_end (b : nilfs_block) : bool := bk_nbinfo b <=? bk_index b.

Definition nilfs_block_next (ps : nilfs_psegment) (b : nilfs_block) : nilfs_block :=
  let sz := binfosize b in
  nilfs_block_adjust_binfo_position (blksize_of (ps_blkbits ps))
    (mk_block (bk_binfo b + sz) (u64 (bk_blocknr b + 1)) (u32 (bk_offset b + sz))
       (u32 (bk_index b + 1)) (bk_nbinfo b) (bk_nbinfo_data b) (bk_dsize b) (bk_nsize b)).

(** The [..._for_each] macros: [trace fuel is_end next it] lists the states
    in which the body of the loop runs, and the state it ends in. *)
Fixpoint trace {I : Type} (fuel : nat) (is_end : I -> option (bool * I))
    (next : I -> option I) (it : I) : option (list I * I) :=
  match fuel with
  | O => None
  | Datatypes.S fuel' =>
    '(stop, it') ← is_end it;
    if (stop : bool) then Some ([], it')
    else
      it'' ← next it';
      '(l, last) ← trace fuel' is_end next it'';
      Some (it' :: l, last)
  end.

Definition nilfs_psegment_for_each (blkcnt : Z) : option (list nilfs_psegment * nilfs_psegment) :=
  trace (Datatypes.S (Z.to_nat (seg_nblocks seg))) nilfs_psegment_is_end nilfs_psegment_next
    (nilfs_psegment_init blkcnt).

Definition nilfs_file_for_each (ps : nilfs_psegment) : option (list nilfs_file * nilfs_file) :=
  f ← nilfs_file_init ps;
  trace (Datatypes.S (Z.to_nat (seg_segsize seg))) (nilfs_file_is_end ps) (nilfs_file_next ps) f.

Definition nilfs_block_for_each (ps : nilfs_psegment) (f : nilfs_file)
  : option (list nilfs_block * nilfs_block) :=
  b ← nilfs_block_init ps f;
  trace (Datatypes.S (Z.to_nat (bk_nbinfo b))) (fun b => Some (nilfs_block_is_end b, b))
    (fun b => Some (nilfs_block_next ps b)) b.
End Iterators.

(** ** The space taken by the binfos of a file *)

(** Where the [n]-th binfo of [d] bytes starts or the [(n-1)]-th ends, when
    binfos are laid out one after the other from [o] on and none crosses a
    block boundary. *)
Definition place (B d p : Z) : Z :=
  let rest := B - p `mod` B in if rest <? d then p + rest else p.

Fixpoint binfo_end (B d o : Z) (n : nat) : Z :=
  match n with
  | O => o
  | Datatypes.S n' => place B d (binfo_end B d o n') + d
  end.

Section TotalSize.
Context (bits d : Z).
Hypothesis Hbits : 10 <= bits <= 16.
Hypothesis Hd : d = 8 \/ d = 16.
Abbreviation B := (2 ^ bits).

Lemma block_range : 1024 <= B <= 65536 /\ B `mod` 16 = 0.
Proof using Hbits.
  assert (bits = 10 \/ bits = 11 \/ bits = 12 \/ bits = 13 \/ bits = 14 \/ bits = 15 \/ bits = 16)
    as Hb by lia.
  destruct Hb as [->|[->|[->|[->|[->|[->| ->]]]]]]; vm_compute; repeat split; congruence.
Qed.

Lemma blksize_of_eq : blksize_of bits = B.
Proof using Hbits.
  unfold blksize_of. rewrite Z.shiftl_1_l. apply u32_id. pose proof block_range. word_lia.
Qed.

Lemma rest_of_block_eq o : rest_of_block B o = B - o `mod` B.
Proof using Hbits.
  unfold rest_of_block. pose proof block_range as [HB _].
  rewrite (u32_id (B - 1)) by word_lia.
  replace (B - 1) with (Z.ones bits) by (rewrite Z.ones_equiv; lia).
  rewrite Z.land_ones by lia. apply u32_id.
  pose proof (Z.mod_pos_bound o B ltac:(lia)). word_lia.
Qed.

Lemma mod_block_shift o x :
  0 <= x -> o `mod` B + x < B -> (o + x) `mod` B = o `mod` B + x.
Proof using Hbits.
  intros. pose proof block_range as [HB _].
  pose proof (Z.mod_pos_bound o B ltac:(lia)).
  rewrite <- (Z.mod_small (o `mod` B + x) B) by lia.
  by rewrite Zplus_mod_idemp_l.
Qed.

Lemma place_inside p : 0 <= p -> B - p `mod` B >= d -> place B d p = p.
Proof. intros. unfold place. case_if; lia. Qed.

Lemma mod_block_multiple m : (d * m) `mod` B + d <= B.
Proof using Hbits Hd.
  pose proof block_range as [HB H16]. pose proof (Z.mod_pos_bound (d * m) B ltac:(lia)).
  assert (B = d * (B / d) /\ (d * m) `mod` B = d * (m `mod` (B / d))) as [HBd Hm].
  { assert (HBd : B = d * (B / d)) by
      (apply Z.div_exact; [lia|]; destruct Hd as [->| ->]; word_lia).
    split; [done|]. rewrite HBd at 1. rewrite Z.mul_mod_distr_l; [done|nia|lia]. }
  pose proof (Z.mod_pos_bound m (B / d) ltac:(nia)). nia.
Qed.

(** Entries that fit in the rest of the first block, then full blocks. *)
Lemma binfo_end_closed o (n : nat) :
  0 <= o ->
  let rest := B - o `mod` B in
  binfo_end B d o n =
    if d * Z.of_nat n <=? rest then o + d * Z.of_nat n
    else o + rest + d * (Z.of_nat n - rest / d).
Proof using Hbits Hd.
  intros Ho rest. pose proof block_range as [HB _].
  pose proof (Z.mod_pos_bound o B ltac:(lia)) as Hm.
  assert (Hq : d * (rest / d) <= rest < d * (rest / d) + d)
    by (pose proof (Z.div_mod rest d ltac:(lia)); pose proof (Z.mod_pos_bound rest d ltac:(lia)); lia).
  assert (Hend : (o + rest) `mod` B = 0).
  { unfold rest. replace (o + (B - o `mod` B)) with ((1 + o / B) * B)
      by (pose proof (Z.div_mod o B ltac:(lia)); lia).
    apply Z.mod_mul; lia. }
  induction n as [|n IH]; [simpl; case_if; lia|].
  cbn [binfo_end]. rewrite IH. clear IH. rewrite Nat2Z.inj_succ.
  destruct (Z.leb_spec (d * Z.of_nat n) rest) as [Hn|Hn].
  - destruct (Z.eq_dec (d * Z.of_nat n) rest) as [He|He].
    + rewrite He, place_inside by (rewrite ?Hend; lia).
      assert (Z.of_nat n = rest / d) by nia. case_if; lia.
    + assert (Hmm : (o + d * Z.of_nat n) `mod` B = o `mod` B + d * Z.of_nat n)
        by (apply mod_block_shift; lia).
      unfold place. rewrite Hmm. case_if; case_if; try lia.
  - rewrite place_inside; [case_if; lia|nia|].
    rewrite <- Zplus_mod_idemp_l, Hend, Z.add_0_l.
    pose proof (mod_block_multiple (Z.of_nat n - rest / d)). lia.
Qed.

Lemma total_size_closed o n :
  0 <= o -> is_u32 n ->
  let rest := B - o `mod` B in
  nilfs_binfo_total_size o B d n =
    if u32 (d * n) <=? rest then u32 (d * n) else rest + d * (n - rest / d).
Proof using Hbits Hd.
  intros Ho Hn rest. unfold nilfs_binfo_total_size. rewrite rest_of_block_eq. fold rest.
  case_if; [done|]. pose proof block_range as [HB H16].
  pose proof (Z.mod_pos_bound o B ltac:(lia)) as Hm.
  assert (Hq : d * (rest / d) <= rest) by (apply Z.mul_div_le; lia).
  assert (Hge : rest < d * n) by (unfold u32 in *; pose proof (Z.mod_le (d * n) (2 ^ 32)); unfold_words; lia).
  assert (Hr : 0 <= rest / d <= n) by (split; [apply Z.div_pos; lia|nia]).
  rewrite (u32_id (n - rest / d)) by (unfold_words; lia).
  set (m := n - rest / d) in *.
  assert (HBd : B = d * (B / d))
    by (apply Z.div_exact; [lia|]; destruct Hd as [->| ->]; word_lia).
  pose proof (Z.mod_pos_bound m (B / d) ltac:(nia)).
  rewrite (u32_id ((m `mod` (B / d)) * d)) by (unfold_words; nia).
  pose proof (Z.div_mod m (B / d) ltac:(nia)).
  assert (Hm' : 0 <= m / (B / d)) by (apply Z.div_pos; [lia|nia]).
  replace (rest + m / (B / d) * B + m `mod` (B / d) * d) with (rest + d * m) by nia.
  apply u64_id. unfold_words. nia.
Qed.

Lemma total_size_layout o n :
  0 <= o -> 0 <= n -> d * n < 2 ^ 32 ->
  nilfs_binfo_total_size o B d n = binfo_end B d o (Z.to_nat n) - o.
Proof using Hbits Hd.
  intros Ho Hn Hw. rewrite total_size_closed, binfo_end_closed; [|done|done|unfold_words; lia].
  rewrite Z2Nat.id, u32_id by (unfold_words; lia). case_if; lia.
Qed.

Lemma total_size_bounds o n : 0 <= o -> is_u32 n ->
  0 <= nilfs_binfo_total_size o B d n <= 2 ^ 37.
Proof using Hbits Hd.
  intros Ho Hn. rewrite total_size_closed by done. pose proof block_range as [HB _].
  pose proof (Z.mod_pos_bound o B ltac:(lia)). pose proof (u32_range (d * n)).
  pose proof (Z.div_pos (B - o `mod` B) d ltac:(lia) ltac:(lia)).
  pose proof (Z.mul_div_le (B - o `mod` B) d ltac:(lia)).
  case_if; [unfold_words; lia|].
  assert (u32 (d * n) <= d * n) by (apply Z.mod_le; [unfold_words|]; lia).
  unfold_words; nia.
Qed.

(** A small total bounds the count modulo 2^28, even if the product wraps. *)
Lemma total_size_small o n : 0 <= o -> is_u32 n ->
  nilfs_binfo_total_size o B d n <= 2 ^ 29 -> n `mod` 2 ^ 28 <= 2 ^ 26.
Proof using Hbits Hd.
  intros Ho Hn. rewrite total_size_closed by done. pose proof block_range as [HB _].
  pose proof (Z.mod_pos_bound o B ltac:(lia)).
  pose proof (Z.mul_div_le (B - o `mod` B) d ltac:(lia)).
  change (2 ^ 28) with 268435456. change (2 ^ 26) with 67108864. change (2 ^ 29) with 536870912.
  case_if; intros Ht.
  - destruct Hd as [-> | ->]; word_lia.
  - assert (d * n <= 536870912) by lia.
    rewrite Z.mod_small; word_lia.
Qed.

(** [nilfs_binfo_total_size] computes in closed form where the block
    iterator gets to, entry by entry, when each binfo that would cross a
    block boundary moves to the next block: exactly when the 32-bit product
    of size and count does not wrap to a value that fits in the first
    block. *)
Theorem binfo_total_size_layout o n :
  0 <= o -> is_u32 n ->
  nilfs_binfo_total_size o B d n = binfo_end B d o (Z.to_nat n) - o <->
  d * n < 2 ^ 32 \/ rest_of_block B o < u32 (d * n).
Proof using Hbits Hd.
  intros Ho Hn. split; [|intros [Hw|Hw]].
  - rewrite rest_of_block_eq, total_size_closed, binfo_end_closed by done.
    rewrite Z2Nat.id by (unfold_words; lia).
    pose proof block_range as [HB _]. pose proof (Z.mod_pos_bound o B ltac:(lia)).
    destruct (Z.leb_spec (u32 (d * n)) (B - o `mod` B)); [|lia].
    pose proof (Z.mul_div_le (B - o `mod` B) d ltac:(lia)).
    destruct (decide (d * n < 2 ^ 32)); [by left|]. case_if; unfold_words; nia.
  - apply total_size_layout; unfold_words; lia.
  - rewrite rest_of_block_eq in Hw. rewrite total_size_closed, binfo_end_closed by done.
    assert (u32 (d * n) <= d * n) by (apply Z.mod_le; unfold_words; lia).
    rewrite Z2Nat.id by (unfold_words; lia). case_if; case_if; lia.
Qed.
End TotalSize.

(** ** Safety of the iterators on arbitrary segment contents *)

(** What [nilfs_get_segment] provides.  The bound on the size keeps the
    32-bit products of [nilfs_binfo_total_size] from wrapping; the default
    segment size is 8 MB. *)
Record seg_ok (seg : nilfs_segment) : Prop := {
  so_bits : 10 <= seg_blkbits seg <= 16;
  so_size : seg_segsize seg = seg_nblocks seg * 2 ^ seg_blkbits seg;
  so_len : seg_segsize seg <= Z.of_nat (length (seg_addr seg));
  so_bytes : Forall is_u8 (seg_addr seg);
  so_nblocks : 0 <= seg_nblocks seg;
  so_limit : seg_segsize seg <= 2 ^ 29;
  so_blocknr : 0 <= seg_blocknr seg < 2 ^ 63;
}.

Section Trace.
Context {I : Type} (is_end : I -> option (bool * I)) (next : I -> option I).
Context (Inv : I -> Prop) (Vis : I -> Prop) (measure : I -> nat).
Hypothesis step_ok : forall it, Inv it ->
  exists stop it', is_end it = Some (stop, it') /\
    (stop = false -> Vis it' /\ exists it'', next it' = Some it'' /\ Inv it'' /\
                                (measure it'' < measure it)%nat).

(** A loop whose steps neither fault nor fail to make progress ends, with
    the property [Vis] at each run of its body. *)
Lemma trace_ok fuel it :
  Inv it -> (measure it < fuel)%nat ->
  exists l last, trace fuel is_end next it = Some (l, last) /\ Forall Vis l.
Proof using step_ok.
  revert it; induction fuel as [|fuel IH]; intros it Hi Hf; [lia|].
  destruct (step_ok it Hi) as (stop & it' & He & Hs). simpl. rewrite He. simpl.
  destruct stop; [by exists [], it'|].
  destruct (Hs eq_refl) as (Hv & it'' & Hn & Hi' & Hm). rewrite Hn. simpl.
  destruct (IH it'' Hi' ltac:(lia)) as (l & last & -> & Hl). simpl. eauto.
Qed.

(** When each run of the body uses up some of what is left, all of them
    together use up no more than there was. *)
Lemma trace_weight (weight room : I -> Z) fuel it l last :
  (forall it stop it', Inv it -> is_end it = Some (stop, it') -> stop = false ->
     forall it'', next it' = Some it'' -> weight it' + room it'' <= room it) ->
  (forall it, Inv it -> 0 <= room it) ->
  Inv it -> trace fuel is_end next it = Some (l, last) -> sum_Z (weight <$> l) <= room it.
Proof using step_ok.
  intros Hw Hr. revert it l; induction fuel as [|fuel IH]; intros it l Hi; [done|]. simpl.
  destruct (step_ok it Hi) as (stop & it' & He & Hs). rewrite He. simpl.
  destruct stop; [intros [= <- <-]; by apply Hr|].
  destruct (Hs eq_refl) as (_ & it'' & Hn & Hi' & _). rewrite Hn. simpl.
  destruct (trace fuel is_end next it'') as [[l' last']|] eqn:Ht; [|done].
  intros [= <- ->]. specialize (IH it'' l' Hi' Ht). pose proof (Hw it false it' Hi He eq_refl it'' Hn).
  rewrite fmap_cons, sum_Z_cons. lia.
Qed.
End Trace.

Lemma trace_S {I : Type} fuel (is_end : I -> option (bool * I)) next it :
  trace (Datatypes.S fuel) is_end next it =
    ('(stop, it') ← is_end it;
     if (stop : bool) then Some ([], it')
     else it'' ← next it'; '(l, last) ← trace fuel is_end next it''; Some (it' :: l, last)).
Proof. reflexivity. Qed.

Section Psegments.
Context (seg : nilfs_segment) (Hseg : seg_ok seg).
Abbreviation mem := (seg_addr seg).
Abbreviation bb := (seg_blkbits seg).
Abbreviation B := (2 ^ bb).

(** The cursor stands at block [k] of the segment. *)
Definition ps_at (ps : nilfs_psegment) (k : Z) : Prop :=
  0 <= k /\ ps_segsum ps = k * B /\ ps_blocknr ps = seg_blocknr seg + k /\
  ps_blkbits ps = bb /\ 0 <= ps_blkcnt ps /\ k + ps_blkcnt ps <= seg_nblocks seg.

Definition ps_inv (ps : nilfs_psegment) : Prop := exists k, ps_at ps k.

(** A log that passed the checks: it lies inside the segment, its summary
    takes fewer blocks than the log has, and the header fits in it. *)
Definition ps_valid (ps : nilfs_psegment) : Prop :=
  exists k nblocks sumbytes hdrsize,
    ps_at ps k /\
    rd_le 4 mem (ps_segsum ps + ss_nblocks_off) = Some nblocks /\
    rd_le 4 mem (ps_segsum ps + ss_sumbytes_off) = Some sumbytes /\
    rd_le 2 mem (ps_segsum ps + ss_bytes_off) = Some hdrsize /\
    k + nblocks <= seg_nblocks seg /\ 2 <= nblocks /\
    8 <= sumbytes /\ hdrsize <= sumbytes /\ hdrsize `mod` 8 = 0 /\ 0 <= hdrsize /\
    (sumbytes + B - 1) / B < nblocks.

Lemma seg_range : 1024 <= B <= 65536 /\ B `mod` 16 = 0 /\ seg_nblocks seg * 1024 <= 2 ^ 29.
Proof using Hseg.
  destruct Hseg. pose proof (block_range bb so_bits0) as [??]. repeat split; lia.
Qed.

Lemma rd_seg n off : 0 <= off -> 0 <= n -> off + n <= seg_segsize seg ->
  exists x, rd_le n mem off = Some x /\ 0 <= x < 256 ^ n.
Proof using Hseg.
  intros. destruct (rd_le_is_Some n mem off) as [x Hx]; [done|done|destruct Hseg; lia|].
  exists x. split; [done|]. by eapply rd_le_range; [|apply Hseg|].
Qed.

Lemma sumblks_eq ps sumbytes : ps_blkbits ps = bb -> is_u32 sumbytes ->
  u32 (Z.shiftr (u64 (sumbytes + Z.shiftl 1 (ps_blkbits ps) - 1)) (ps_blkbits ps)) =
  (sumbytes + B - 1) / B.
Proof using Hseg.
  intros -> Hs. destruct seg_range as (HB & _). destruct Hseg.
  rewrite Z.shiftl_1_l, u64_id, Z.shiftr_div_pow2 by word_lia.
  apply u32_id. split; [apply Z.div_pos; word_lia|].
  apply Z.div_lt_upper_bound; word_lia.
Qed.

Lemma psegment_sanity_none ps k hdrsize sumbytes nblocks :
  ps_at ps k -> 0 <= hdrsize -> is_u32 sumbytes -> is_u32 nblocks ->
  psegment_sanity seg ps hdrsize sumbytes nblocks = None ->
  hdrsize `mod` 8 = 0 /\ hdrsize <= sumbytes /\ k + nblocks <= seg_nblocks seg /\
  (sumbytes + B - 1) / B < nblocks.
Proof using Hseg.
  intros (Hk & _ & Hbn & Hbb & Hc & Hkc) Hh Hs Hn. unfold psegment_sanity.
  rewrite sumblks_eq by done. change 7 with (Z.ones 3). rewrite Z.land_ones by lia.
  destruct seg_range as (HB & _ & Hnb). destruct Hseg.
  rewrite Hbn, (u64_id (seg_blocknr seg + seg_nblocks seg)) by word_lia.
  destruct (Z.eqb_spec (hdrsize `mod` 2 ^ 3) 0); [|done]. simpl.
  repeat (case_if; [done|]). intros _. repeat split; try done.
  rewrite u64_id in * by word_lia. lia.
Qed.

Ltac rejected := do 2 eexists; refine (conj eq_refl (conj _ (conj eq_refl _))); [eassumption|congruence].

(** The validity check reads only inside the segment, keeps the position,
    and accepts only logs that satisfy [ps_valid]. *)
Lemma psegment_is_valid_spec ps k :
  ps_at ps k -> 2 <= ps_blkcnt ps ->
  exists ok ps', nilfs_psegment_is_valid seg ps = Some (ok, ps') /\ ps_at ps' k /\
    ps_blkcnt ps' = ps_blkcnt ps /\ (ok = true -> ps' = ps /\ ps_valid ps).
Proof using Hseg.
  intros Hat Hc. pose proof Hat as (Hk & Hss & Hbn & Hbb & _ & Hkc).
  destruct seg_range as (HB & _ & Hnb). pose proof (so_size _ Hseg) as Hsz.
  assert (Hin : 0 <= ps_segsum ps /\ ps_segsum ps + 64 <= seg_segsize seg) by nia.
  destruct (rd_seg 4 (ps_segsum ps + ss_magic_off)) as (mg & Hmg & _); [unfold ss_magic_off; lia..|].
  destruct (rd_seg 4 (ps_segsum ps + ss_sumbytes_off)) as (sby & Hsby & Hsbr); [unfold ss_sumbytes_off; lia..|].
  destruct (rd_seg 4 (ps_segsum ps + 4)) as (sm & Hsm & _); [lia..|].
  destruct (rd_seg 2 (ps_segsum ps + ss_bytes_off)) as (hd & Hhd & Hhr); [unfold ss_bytes_off; lia..|].
  destruct (rd_seg 4 (ps_segsum ps + ss_nblocks_off)) as (nb & Hnbl & Hnr); [unfold ss_nblocks_off; lia..|].
  unfold nilfs_psegment_is_valid. rewrite Hmg. simpl.
  case_if; [rejected|]. rewrite Hsby. simpl. case_if; [rejected|].
  apply orb_false_iff in Heqb0 as [Hlo Hhi]. apply Z.ltb_ge in Hlo. apply Z.leb_gt in Hhi.
  rewrite Hsm. simpl. unfold ss_sumsum_end in *. unfold rd_bytes at 1.
  replace (_ && _) with true by (symmetry; rewrite !andb_true_iff, !Z.leb_le; pose proof (so_len _ Hseg); lia).
  simpl. case_if; [rejected|]. rewrite Hhd. simpl. rewrite Hnbl. simpl.
  destruct (psegment_sanity seg ps hd sby nb) eqn:Hsan; [rejected|].
  eapply psegment_sanity_none in Hsan as (?&?&?&Hsum); [|first [exact Hat | exact Hsbr | exact Hnr | lia]..].
  do 2 eexists. refine (conj eq_refl (conj Hat (conj eq_refl (fun _ => conj eq_refl _)))).
  assert (1 <= (sby + B - 1) / B) by (apply Z.div_le_lower_bound; lia).
  exists k, nb, sby, hd. repeat split; try done; lia.
Qed.

Lemma psegment_next_spec ps :
  ps_valid ps -> 2 <= ps_blkcnt ps ->
  exists ps', nilfs_psegment_next seg ps = Some ps' /\ ps_inv ps' /\
    (Z.to_nat (ps_blkcnt ps') < Z.to_nat (ps_blkcnt ps))%nat.
Proof using Hseg.
  intros (k & nb & sby & hd & Hat & Hnb & _ & _ & Hk & Hnb2 & _) Hc.
  pose proof Hat as (Hk0 & Hss & Hbn & Hbb & _ & Hkc).
  destruct seg_range as (HB & _ & Hlim). pose proof (so_blocknr _ Hseg).
  unfold nilfs_psegment_next. rewrite Hnb. simpl. eexists; split; [done|].
  rewrite Hbb, Z.shiftl_mul_pow2 by (pose proof (so_bits _ Hseg); lia).
  rewrite u64_id by (unfold_words; nia). rewrite u64_id by (unfold_words; lia). simpl.
  split; [|case_if; lia]. exists (k + nb). unfold ps_at; simpl. case_if; repeat split; lia.
Qed.

Lemma psegment_step ps : ps_inv ps ->
  exists stop ps', nilfs_psegment_is_end seg ps = Some (stop, ps') /\
    (stop = false -> ps_valid ps' /\ exists ps'', nilfs_psegment_next seg ps' = Some ps'' /\
       ps_inv ps'' /\ (Z.to_nat (ps_blkcnt ps'') < Z.to_nat (ps_blkcnt ps))%nat).
Proof using Hseg.
  intros [k Hat]. unfold nilfs_psegment_is_end. case_if; [by do 2 eexists|].
  destruct (psegment_is_valid_spec ps k Hat) as (ok & ps' & -> & _ & Hcnt & Hok);
    [unfold NILFS_PSEG_MIN_BLOCKS in *; lia|].
  simpl. do 2 eexists; split; [done|]. intros ->%negb_false_iff.
  destruct (Hok eq_refl) as [-> Hv]. split; [done|].
  apply psegment_next_spec; [done|unfold NILFS_PSEG_MIN_BLOCKS in *; lia].
Qed.

(** The blocks a log says it has. *)
Definition ps_nblocks (ps : nilfs_psegment) : Z := default 0 (rd_le 4 mem (ps_segsum ps + ss_nblocks_off)).

Lemma psegment_advance ps ps' : ps_valid ps -> nilfs_psegment_next seg ps = Some ps' ->
  ps_nblocks ps + (seg_blocknr seg + seg_nblocks seg - ps_blocknr ps') =
  seg_blocknr seg + seg_nblocks seg - ps_blocknr ps.
Proof using Hseg.
  intros (k & nblocks & sby & hd & Hat & Hnb & _ & _ & Hk & Hnb2 & _).
  pose proof Hat as (Hk0 & Hss & Hbn & Hbb & _ & Hkc).
  destruct seg_range as (HB & _ & Hlim). pose proof (so_blocknr _ Hseg).
  unfold nilfs_psegment_next, ps_nblocks. rewrite Hnb. simpl. intros [= <-]. simpl.
  change (2 ^ 29) with 536870912 in *. rewrite (u64_id (ps_blocknr ps + nblocks)) by (unfold_words; lia). lia.
Qed.

(** The logs of a segment: the iteration over them ends, each is valid, and
    together they have no more blocks than the segment. *)
Lemma psegments_spec blkcnt : 0 <= blkcnt ->
  exists l last, nilfs_psegment_for_each seg blkcnt = Some (l, last) /\ Forall ps_valid l /\
    sum_Z (ps_nblocks <$> l) <= seg_nblocks seg.
Proof using Hseg.
  intros Hb. unfold nilfs_psegment_for_each. pose proof (so_nblocks _ Hseg).
  assert (Hi : ps_inv (nilfs_psegment_init seg blkcnt)) by (exists 0; unfold ps_at; simpl; repeat split; lia).
  destruct (trace_ok _ _ ps_inv ps_valid (fun ps => Z.to_nat (ps_blkcnt ps)) psegment_step
    (Datatypes.S (Z.to_nat (seg_nblocks seg))) _ Hi) as (l & last & Hl & Hv); [simpl; lia|].
  exists l, last. split_and!; [done|done|].
  enough (sum_Z (ps_nblocks <$> l) <= seg_blocknr seg + seg_nblocks seg
    - ps_blocknr (nilfs_psegment_init seg blkcnt)) by (simpl in *; lia).
  refine (trace_weight _ _ ps_inv ps_valid (fun ps => Z.to_nat (ps_blkcnt ps)) psegment_step ps_nblocks
    (fun ps => seg_blocknr seg + seg_nblocks seg - ps_blocknr ps) _ _ l last _ _ Hi Hl).
  - intros ps stop ps' Hps He Hstop ps'' Hn.
    destruct (psegment_step ps Hps) as (stop' & ps1 & He' & Hs). rewrite He in He'. injection He' as <- <-.
    destruct (Hs Hstop) as [Hv' _]. rewrite (psegment_advance _ _ Hv' Hn).
    revert He. unfold nilfs_psegment_is_end. case_if; [by intros [= <- <-]|].
    destruct Hps as [k Hat]. destruct (psegment_is_valid_spec ps k Hat) as (ok & ps2 & -> & _ & _ & Hok);
      [unfold NILFS_PSEG_MIN_BLOCKS in *; lia|]. simpl. intros [= <- <-].
    apply negb_false_iff in Hstop. destruct (Hok Hstop) as [-> _]. lia.
  - intros ps (k & Hk & _ & Hbn & _ & Hc & Hkc). lia.
Qed.

(** C6: on a segment with arbitrary contents, iterating over its logs reads
    only inside the segment buffer, ends within as many steps as the segment
    has blocks, and each log visited lies inside the segment, has its summary
    header inside its summary and at least one payload block; together the
    logs have no more blocks than the segment. *)
Theorem psegment_for_each_safe blkcnt : 0 <= blkcnt ->
  exists l last, nilfs_psegment_for_each seg blkcnt = Some (l, last) /\ Forall ps_valid l /\
    sum_Z (ps_nblocks <$> l) <= seg_nblocks seg.
Proof using Hseg. apply psegments_spec. Qed.
End Psegments.

Lemma binfo_sizes_ok r : let '(ds, ns) := binfo_sizes r in
  (ds = 8 \/ ds = 16) /\ (ns = 8 \/ ns = 16).
Proof. destruct r; simpl; unfold NILFS_BINFO_DAT_DATA_SIZE, NILFS_BINFO_DAT_NODE_SIZE,
  NILFS_BINFO_DATA_SIZE, NILFS_BINFO_NODE_SIZE; lia. Qed.

Lemma info_size_eq bb o r nb nd : 10 <= bb <= 16 -> is_u32 o -> is_u32 nb -> is_u32 nd ->
  info_size (2 ^ bb) o r nb nd =
    let '(ds, ns) := binfo_sizes r in
    let t := nilfs_binfo_total_size (o + 24) (2 ^ bb) ds nd in
    24 + t + nilfs_binfo_total_size (o + 24 + t) (2 ^ bb) ns (u32 (nb - nd)).
Proof.
  intros Hbits Ho Hb Hd'. unfold info_size. pose proof (binfo_sizes_ok r) as Hs.
  destruct (binfo_sizes r) as [ds ns]. destruct Hs as [Hds Hns]. unfold sizeof_finfo.
  rewrite (u64_id (o + 24)) by word_lia.
  pose proof (total_size_bounds bb ds Hbits Hds (o + 24) nd ltac:(word_lia) Hd').
  set (t := nilfs_binfo_total_size (o + 24) (2 ^ bb) ds nd) in *.
  change (2 ^ 37) with 137438953472 in *.
  rewrite (u64_id (24 + t)), (u64_id (o + (24 + t))) by word_lia.
  replace (o + (24 + t)) with (o + 24 + t) by lia.
  pose proof (total_size_bounds bb ns Hbits Hns (o + 24 + t) (u32 (nb - nd))
    ltac:(word_lia) (u32_range _)).
  change (2 ^ 37) with 137438953472 in *. rewrite u64_id by word_lia. lia.
Qed.

(** A descriptor list that fits in a summary of less than 2^29 bytes cannot
    describe nearly 2^32 blocks, so the wrapping test on the block count is
    exact. *)
Lemma info_size_counts bb o r nb nd used nblocks :
  10 <= bb <= 16 -> 0 <= o <= 2 ^ 29 -> is_u32 nb -> is_u32 nd -> nd <= nb ->
  0 <= used <= nblocks -> nblocks <= 2 ^ 19 -> u32 (used + nb) <= nblocks ->
  info_size (2 ^ bb) o r nb nd <= 2 ^ 29 -> used + nb <= nblocks.
Proof.
  intros Hbits Ho Hnb Hnd Hle Hu Hn Hw. rewrite info_size_eq by (change (2 ^ 29) with 536870912 in *; word_lia).
  pose proof (binfo_sizes_ok r) as Hs. destruct (binfo_sizes r) as [ds ns]. destruct Hs as [Hds Hns].
  cbv zeta. intros Ht.
  pose proof (total_size_bounds bb ds Hbits Hds (o + 24) nd ltac:(lia) Hnd) as Hb1.
  pose proof (total_size_bounds bb ns Hbits Hns (o + 24 + nilfs_binfo_total_size (o + 24) (2 ^ bb) ds nd)
                (u32 (nb - nd)) ltac:(lia) (u32_range _)) as Hb2.
  pose proof (total_size_small bb ds Hbits Hds (o + 24) nd ltac:(lia) Hnd ltac:(lia)) as H1.
  pose proof (total_size_small bb ns Hbits Hns (o + 24 + nilfs_binfo_total_size (o + 24) (2 ^ bb) ds nd)
                (u32 (nb - nd)) ltac:(lia) (u32_range _) ltac:(lia)) as H2.
  clear - Hnb Hnd Hle Hu Hn Hw H1 H2. rewrite (u32_id (nb - nd)) in H2 by word_lia.
  change (2 ^ 28) with 268435456 in *. change (2 ^ 26) with 67108864 in *.
  change (2 ^ 19) with 524288 in *. word_lia.
Qed.

Lemma info_size_layout bb o r nb nd :
  10 <= bb <= 16 -> is_u32 o -> 0 <= nd <= nb -> nb <= 2 ^ 19 ->
  let '(ds, ns) := binfo_sizes r in
  o + info_size (2 ^ bb) o r nb nd =
    binfo_end (2 ^ bb) ns (binfo_end (2 ^ bb) ds (o + 24) (Z.to_nat nd)) (Z.to_nat (nb - nd)) /\
  24 <= info_size (2 ^ bb) o r nb nd.
Proof.
  intros Hbits Ho Hd Hn. change (2 ^ 19) with 524288 in *. rewrite info_size_eq by word_lia.
  pose proof (binfo_sizes_ok r) as Hs. destruct (binfo_sizes r) as [ds ns]. destruct Hs as [Hds Hns].
  cbv zeta. rewrite (u32_id (nb - nd)) by word_lia.
  pose proof (total_size_bounds bb ds Hbits Hds (o + 24) nd ltac:(word_lia) ltac:(word_lia)) as Hb1.
  pose proof (total_size_bounds bb ns Hbits Hns (o + 24 + nilfs_binfo_total_size (o + 24) (2 ^ bb) ds nd)
                (nb - nd) ltac:(word_lia) ltac:(word_lia)) as Hb2.
  split; [|lia]. clear Hb2.
  rewrite (total_size_layout bb ns) by (unfold_words; nia).
  assert (Heq : o + 24 + nilfs_binfo_total_size (o + 24) (2 ^ bb) ds nd
                = binfo_end (2 ^ bb) ds (o + 24) (Z.to_nat nd)).
  { rewrite total_size_layout by (unfold_words; first [done | lia | destruct Hds as [->| ->]; lia]).
    lia. }
  rewrite Heq. lia.
Qed.

(** The files of one log.  The parameters are what [ps_valid] provides. *)
Section Files.
Context (seg : nilfs_segment) (Hseg : seg_ok seg) (ps : nilfs_psegment).
Context (k nblocks sumbytes hdrsize : Z).
Abbreviation mem := (seg_addr seg).
Abbreviation bb := (seg_blkbits seg).
Abbreviation B := (2 ^ bb).
Hypothesis Hat : ps_at seg ps k.
Hypothesis Hnb : rd_le 4 mem (ps_segsum ps + ss_nblocks_off) = Some nblocks.
Hypothesis Hsby : rd_le 4 mem (ps_segsum ps + ss_sumbytes_off) = Some sumbytes.
Hypothesis Hhd : rd_le 2 mem (ps_segsum ps + ss_bytes_off) = Some hdrsize.
Hypothesis Hfit : k + nblocks <= seg_nblocks seg.
Hypothesis Hhdr : 0 <= hdrsize <= sumbytes.
Hypothesis Hsum : (sumbytes + B - 1) / B < nblocks.

Definition nblocks_at (f : nilfs_file) : option Z := rd_le 4 mem (fl_finfo f + fi_nblocks_off).
Definition ndatablk_at (f : nilfs_file) : option Z := rd_le 4 mem (fl_finfo f + fi_ndatablk_off).

(** Where the cursor is, [used] blocks of the log being taken before it. *)
Definition file_pos (used : Z) (f : nilfs_file) : Prop :=
  fl_finfo f = ps_segsum ps + fl_offset f /\ 0 <= fl_offset f <= sumbytes + 24 /\
  fl_sumbytes f = sumbytes /\ fl_blocknr f = ps_blocknr ps + used /\ 0 <= used <= nblocks.

(** The length is that of the finfo under the cursor, or the dummy value
    that makes the validity check fail. *)
Definition file_len (f : nilfs_file) : Prop :=
  (sumbytes < fl_offset f + 24 /\ fl_sumlen f = 24) \/
  (fl_offset f + 24 <= sumbytes /\ exists nb nd,
     nblocks_at f = Some nb /\ is_u32 nb /\ ndatablk_at f = Some nd /\ is_u32 nd /\
     fl_sumlen f = info_size B (fl_offset f) (fl_use_real_blocknr f) nb nd).

Definition file_at (f : nilfs_file) : Prop := (exists used, file_pos used f) /\ file_len f.

(** A file the loop body sees: its descriptors lie inside the summary, and
    its blocks inside the log. *)
Definition file_valid (f : nilfs_file) : Prop :=
  exists used nb nd,
    file_pos used f /\ nblocks_at f = Some nb /\ ndatablk_at f = Some nd /\
    0 <= nd <= nb /\ used + nb <= nblocks /\
    (let '(dsize, nsize) := binfo_sizes (fl_use_real_blocknr f) in
     fl_offset f + fl_sumlen f =
       binfo_end B nsize (binfo_end B dsize (fl_offset f + 24) (Z.to_nat nd)) (Z.to_nat (nb - nd))) /\
    fl_offset f + 24 <= fl_offset f + fl_sumlen f <= sumbytes.

Lemma log_range : 1024 <= B <= 65536 /\ 0 <= ps_segsum ps /\ nblocks <= 2 ^ 19 /\
  ps_segsum ps + sumbytes + 1024 <= seg_segsize seg /\ sumbytes <= 2 ^ 29 - 1024 /\
  seg_segsize seg <= 2 ^ 29 /\ 0 <= ps_blocknr ps < 2 ^ 63 + 2 ^ 19 /\ ps_blkbits ps = bb.
Proof using Hseg Hat Hfit Hhdr Hsum.
  destruct (seg_range seg Hseg) as (HB & _ & Hlim).
  destruct Hat as (Hk & Hss & Hbn & Hbb & _ & _). destruct Hseg.
  assert (sumbytes <= (nblocks - 1) * B).
  { pose proof (Z.div_mod (sumbytes + B - 1) B ltac:(lia)).
    pose proof (Z.mod_pos_bound (sumbytes + B - 1) B ltac:(lia)). nia. }
  assert (0 <= k * B) by nia.
  change (2 ^ 19) with 524288 in *. change (2 ^ 29) with 536870912 in *.
  repeat split; try lia; nia.
Qed.

Lemma rd_log n off : 0 <= off -> 0 <= n -> off + n <= sumbytes + 1024 ->
  exists x, rd_le n mem (ps_segsum ps + off) = Some x /\ 0 <= x < 256 ^ n.
Proof using Hseg Hat Hfit Hhdr Hsum.
  intros. pose proof log_range as (_ & ? & _ & ? & _). apply rd_seg; [done|lia..].
Qed.


Lemma adjust_pos used f : file_pos used f -> fl_offset f <= sumbytes ->
  let f' := nilfs_file_adjust_finfo_position (blksize_of (ps_blkbits ps)) f in
  file_pos used f' /\ fl_offset f <= fl_offset f'.
Proof using Hseg Hat Hfit Hhdr Hsum.
  intros (Hf & Ho & Hs & Hbn & Hu) Hle f'. pose proof log_range as (HB & _ & _ & _ & Hsb & _ & _ & Hbb).
  subst f'. unfold nilfs_file_adjust_finfo_position.
  rewrite Hbb, blksize_of_eq, rest_of_block_eq by apply Hseg.
  pose proof (Z.mod_pos_bound (fl_offset f) B ltac:(lia)).
  case_if; unfold file_pos; simpl; unfold sizeof_finfo in *; [|repeat split; lia].
  change (2 ^ 29) with 536870912 in *. rewrite u32_id by word_lia. repeat split; lia.
Qed.

Lemma init_from_finfo_spec used f : file_pos used f ->
  exists f', nilfs_file_init_from_finfo seg (ps_blkbits ps) f = Some f' /\
    file_pos used f' /\ file_len f' /\ fl_offset f' = fl_offset f.
Proof using Hseg Hat Hfit Hhdr Hsum.
  intros Hp. pose proof Hp as (Hf & Ho & Hs & Hbn & Hu).
  pose proof log_range as (HB & _ & _ & _ & Hsb & _ & _ & Hbb).
  unfold nilfs_file_init_from_finfo, sizeof_finfo. rewrite Hs.
  destruct (Z.ltb_spec sumbytes (fl_offset f + 24)) as [Hlt|Hge].
  { eexists; split; [done|]. split; [unfold file_pos; simpl; repeat split; lia|]. split; [|done]. by left. }
  rewrite Hf. unfold fi_ino_off. rewrite <- Z.add_assoc.
  destruct (rd_log 8 (fl_offset f + 0)) as (ino & -> & _); [lia..|]. simpl.
  destruct (rd_log 4 (fl_offset f + fi_nblocks_off)) as (nb & Hnb' & Hnbr); [unfold fi_nblocks_off; lia..|].
  destruct (rd_log 4 (fl_offset f + fi_ndatablk_off)) as (nd & Hnd' & Hndr); [unfold fi_ndatablk_off; lia..|].
  unfold nilfs_file_info_size. simpl. rewrite <- !Z.add_assoc, Hnb', Hnd'. simpl.
  rewrite Hbb, blksize_of_eq by apply Hseg.
  eexists; split; [done|]. split; [unfold file_pos; simpl; repeat split; lia|]. split; [|done]. right. split; [done|].
  unfold nblocks_at, ndatablk_at; simpl. rewrite <- !Z.add_assoc, Hnb', Hnd'. by exists nb, nd.
Qed.

Lemma file_init_spec : exists f, nilfs_file_init seg ps = Some f /\ file_at f.
Proof using Hseg Hat Hnb Hsby Hhd Hfit Hhdr Hsum.
  pose proof log_range as (HB & _ & Hn & _ & Hsb & _ & Hpb & Hbb).
  destruct (rd_log 4 ss_nfinfo_off) as (nf & Hnf & _); [unfold ss_nfinfo_off; lia..|].
  unfold nilfs_file_init. rewrite Hnf, Hsby, Hhd. simpl.
  set (f0 := mk_file _ _ _ _ _ _ _ _ _).
  assert (Hp : file_pos ((sumbytes + B - 1) / B) f0).
  { unfold f0, file_pos; simpl. rewrite Hbb, blksize_of_eq by apply Hseg.
    change (2 ^ 29) with 536870912 in *. change (2 ^ 19) with 524288 in *.
    rewrite (u32_id (sumbytes + B - 1)), Z.shiftr_div_pow2 by (first [word_lia | pose proof (so_bits _ Hseg); lia]).
    pose proof (Z.div_pos (sumbytes + B - 1) B ltac:(lia) ltac:(lia)).
    rewrite u64_id by (unfold_words; lia). repeat split; lia. }
  apply adjust_pos in Hp as [Hp _]; [|simpl; lia].
  destruct (init_from_finfo_spec _ _ Hp) as (f' & -> & Hp' & Hl & _).
  exists f'. split; [done|]. split; eauto.
Qed.

(** The validity check stays inside the log and accepts only valid files. *)
Lemma file_is_valid_spec f : file_at f ->
  exists ok f', nilfs_file_is_valid seg ps f = Some (ok, f') /\
    (ok = true -> f' = f /\ file_valid f).
Proof using Hseg Hat Hnb Hfit Hhdr Hsum.
  intros [[used Hp] Hl]. pose proof Hp as (Hf & Ho & Hs & Hbn & Hu).
  pose proof log_range as (HB & _ & Hn & _ & Hsb & _ & Hpb & Hbb).
  unfold nilfs_file_is_valid. rewrite Hs.
  destruct Hl as [[Hlt Hlen]|(Hge & nb & nd & Hnb' & Hnbr & Hnd' & Hndr & Hlen)].
  { rewrite Hlen, u64_id by (change (2 ^ 29) with 536870912 in *; word_lia).
    destruct (Z.ltb_spec sumbytes (fl_offset f + 24)); [|lia]. by do 2 eexists. }
  assert (Hi : 0 <= fl_sumlen f <= 2 ^ 39).
  { rewrite Hlen, info_size_eq by (apply Hseg || (change (2 ^ 29) with 536870912 in *; word_lia)).
    pose proof (binfo_sizes_ok (fl_use_real_blocknr f)) as Hsz.
    destruct (binfo_sizes (fl_use_real_blocknr f)) as [ds ns]. destruct Hsz as [Hds Hns]. cbv zeta.
    pose proof (total_size_bounds bb ds (so_bits _ Hseg) Hds (fl_offset f + 24) nd ltac:(lia) Hndr) as Hb1.
    pose proof (total_size_bounds bb ns (so_bits _ Hseg) Hns
       (fl_offset f + 24 + nilfs_binfo_total_size (fl_offset f + 24) B ds nd) (u32 (nb - nd))
       ltac:(lia) (u32_range _)) as Hb2. lia. }
  change (2 ^ 39) with 549755813888 in *. rewrite u64_id by (change (2 ^ 29) with 536870912 in *; unfold_words; lia).
  case_if; [by do 2 eexists|]. fold (nblocks_at f). rewrite Hnb'. simpl.
  rewrite Hnb. simpl. case_if; [by do 2 eexists|].
  fold (ndatablk_at f). rewrite Hnd'. simpl. case_if; [by do 2 eexists|].
  do 2 eexists; split; [done|]. intros _. split; [done|].
  replace (fl_blocknr f - ps_blocknr ps) with used in * by lia.
  rewrite (u32_id used) in * by (change (2 ^ 19) with 524288 in *; unfold_words; lia).
  assert (Hc : used + nb <= nblocks).
  { eapply (info_size_counts bb (fl_offset f) (fl_use_real_blocknr f) nb nd); try done;
      [apply Hseg|lia..]. }
  exists used, nb, nd.
  pose proof (info_size_layout bb (fl_offset f) (fl_use_real_blocknr f) nb nd (so_bits _ Hseg)) as Hlay.
  destruct (binfo_sizes (fl_use_real_blocknr f)) as [ds ns]. rewrite <- Hlen in Hlay.
  destruct Hlay as [Hl1 Hl2]; [change (2 ^ 29) with 536870912 in *; unfold_words; lia..|].
  split; [done|]. repeat split; try done; unfold_words; lia.
Qed.

(** The blocks a file says it has in this log. *)
Definition fl_nblocks (f : nilfs_file) : Z := default 0 (nblocks_at f).

Lemma file_next_spec f : file_valid f ->
  exists f', nilfs_file_next seg ps f = Some f' /\ file_at f' /\ fl_offset f < fl_offset f' /\
    fl_offset f + 24 <= sumbytes /\ fl_blocknr f' = fl_blocknr f + fl_nblocks f.
Proof using Hseg Hat Hfit Hhdr Hsum.
  intros (used & nb & nd & Hp & Hnb' & _ & Hnd & Hc & _ & Hl).
  pose proof Hp as (Hf & Ho & Hs & Hbn & Hu).
  pose proof log_range as (HB & _ & Hn & _ & Hsb & _ & Hpb & Hbb).
  change (2 ^ 29) with 536870912 in *. change (2 ^ 19) with 524288 in *.
  unfold nilfs_file_next. fold (nblocks_at f). rewrite Hnb'. simpl.
  rewrite u64_id, u32_id by (unfold_words; lia). set (f0 := mk_file _ _ _ _ _ _ _ _ _).
  assert (Hp0 : file_pos (used + nb) f0) by (unfold f0, file_pos; simpl; repeat split; lia).
  destruct (adjust_pos _ _ Hp0) as [Hp1 Hge]; [simpl; lia|].
  destruct (init_from_finfo_spec _ _ Hp1) as (f' & -> & Hp' & Hlen & Heq). simpl in *.
  eexists; split; [done|]. unfold file_at, fl_nblocks. rewrite Hnb'. simpl.
  pose proof Hp' as (_ & _ & _ & Hbn' & _). repeat split; simpl; try lia; eauto.
Qed.

Lemma file_step f : file_at f ->
  exists stop f', nilfs_file_is_end seg ps f = Some (stop, f') /\
    (stop = false -> file_valid f' /\ exists f'', nilfs_file_next seg ps f' = Some f'' /\ file_at f'' /\
       (Z.to_nat (sumbytes - fl_offset f'') < Z.to_nat (sumbytes - fl_offset f))%nat).
Proof using Hseg Hat Hnb Hfit Hhdr Hsum.
  intros Ha. unfold nilfs_file_is_end. case_if; [by do 2 eexists|].
  destruct (file_is_valid_spec f Ha) as (ok & f' & -> & Hok). simpl.
  do 2 eexists; split; [done|]. intros ->%negb_false_iff. destruct (Hok eq_refl) as [-> Hv].
  split; [done|]. destruct (file_next_spec f Hv) as (f'' & -> & Ha'' & Hlt & Hle & _).
  eexists; split; [done|]. split; [done|]. destruct Ha'' as [[u (_ & Ho & _)] _]. lia.
Qed.

Lemma file_end_same f f' : file_at f -> nilfs_file_is_end seg ps f = Some (false, f') -> f' = f.
Proof using Hseg Hat Hnb Hfit Hhdr Hsum.
  intros Ha. unfold nilfs_file_is_end. case_if; [done|].
  destruct (file_is_valid_spec f Ha) as (ok & f1 & -> & Hok). simpl. intros [= Hs <-].
  apply negb_false_iff in Hs. by apply Hok.
Qed.

(** The files of a log: the iteration ends, each is valid, and together they
    have no more blocks than the log. *)
Lemma file_for_each_spec : exists l last,
  nilfs_file_for_each seg ps = Some (l, last) /\ Forall file_valid l /\
  sum_Z (fl_nblocks <$> l) <= nblocks.
Proof using Hseg Hat Hnb Hsby Hhd Hfit Hhdr Hsum.
  destruct file_init_spec as (f & Hf & Ha). unfold nilfs_file_for_each. rewrite Hf. cbv [mbind option_bind].
  pose proof log_range as (HB & ? & _ & ? & _).
  destruct (trace_ok _ _ file_at file_valid (fun f => Z.to_nat (sumbytes - fl_offset f)) file_step
    (Datatypes.S (Z.to_nat (seg_segsize seg))) f Ha) as (l & last & Hl & Hv).
  { destruct Ha as [[u (_ & Ho & _)] _]. lia. }
  exists l, last. split_and!; [done|done|].
  enough (sum_Z (fl_nblocks <$> l) <= nblocks - (fl_blocknr f - ps_blocknr ps)).
  { destruct Ha as [[u (_ & _ & _ & Hbn & Hu)] _]. lia. }
  refine (trace_weight _ _ file_at file_valid (fun f => Z.to_nat (sumbytes - fl_offset f)) file_step fl_nblocks
    (fun f => nblocks - (fl_blocknr f - ps_blocknr ps)) _ _ l last _ _ Ha Hl).
  - intros f1 stop f2 Ha1 He -> f3 Hn. pose proof (file_end_same _ _ Ha1 He) as ->.
    destruct (file_step f1 Ha1) as (stop & f2 & He' & Hs). rewrite He in He'. injection He' as <- <-.
    destruct (Hs eq_refl) as [Hv1 _]. destruct (file_next_spec f1 Hv1) as (f3' & Hn' & _ & _ & _ & Hbn).
    rewrite Hn in Hn'. injection Hn' as <-. lia.
  - intros f1 [[u (_ & _ & _ & Hbn & Hu)] _]. lia.
Qed.
End Files.

(** The files of a log, with the log's header left implicit. *)
Definition file_in_log (seg : nilfs_segment) (ps : nilfs_psegment) (f : nilfs_file) : Prop :=
  exists nblocks sumbytes,
    rd_le 4 (seg_addr seg) (ps_segsum ps + ss_nblocks_off) = Some nblocks /\
    rd_le 4 (seg_addr seg) (ps_segsum ps + ss_sumbytes_off) = Some sumbytes /\
    file_valid seg ps nblocks sumbytes f.

Lemma files_spec seg ps :
  seg_ok seg -> ps_valid seg ps ->
  exists l last, nilfs_file_for_each seg ps = Some (l, last) /\ Forall (file_in_log seg ps) l /\
    sum_Z (fl_nblocks seg <$> l) <= ps_nblocks seg ps.
Proof.
  intros Hseg (k & nb & sby & hd & Hat & Hnb & Hsby & Hhd & Hk & Hnb2 & Hs8 & Hh & _ & Hh0 & Hsum).
  destruct (file_for_each_spec seg Hseg ps k nb sby hd) as (l & last & Hl & Hv & Hle); [done..|].
  exists l, last. split_and!; [done| |unfold ps_nblocks; by rewrite Hnb].
  eapply Forall_impl; [exact Hv|]. intros f Hf. by exists nb, sby.
Qed.

(** C7: for a log that passed its checks, iterating over its finfos reads only
    inside the segment, whatever they contain; it ends, and each file visited
    has its finfo and all its binfos inside the summary and its blocks inside
    the log; together the files have no more blocks than the log. *)
Theorem file_for_each_safe seg ps :
  seg_ok seg -> ps_valid seg ps ->
  exists l last, nilfs_file_for_each seg ps = Some (l, last) /\ Forall (file_in_log seg ps) l /\
    sum_Z (fl_nblocks seg <$> l) <= ps_nblocks seg ps.
Proof. apply files_spec. Qed.

(** ** The blocks of one file *)

Section Layout.
Context (B d : Z).
Hypothesis HB : 0 < B.
Hypothesis Hd : 0 < d <= B.

Lemma place_ge p : p <= place B d p < p + B + 1.
Proof using HB. unfold place. pose proof (Z.mod_pos_bound p B HB). case_if; lia. Qed.

Lemma place_fits p : place B d p `mod` B + d <= B.
Proof using HB Hd.
  unfold place. pose proof (Z.mod_pos_bound p B HB). case_if; [|lia].
  replace (p + (B - p `mod` B)) with ((1 + p / B) * B) by (pose proof (Z.div_mod p B ltac:(lia)); lia).
  rewrite Z.mod_mul; lia.
Qed.

Lemma binfo_end_mono o (m n : nat) : (m <= n)%nat -> binfo_end B d o m <= binfo_end B d o n.
Proof using HB Hd.
  induction 1 as [|n _ IH]; [lia|]. simpl. pose proof (place_ge (binfo_end B d o n)). lia.
Qed.
End Layout.

(** The [i]-th state of the block iterator of a file with [nb] blocks, [nd] of
    them data blocks. *)
Definition block_size_at (f : nilfs_file) (nd : Z) (i : nat) : Z :=
  let '(ds, ns) := binfo_sizes (fl_use_real_blocknr f) in
  if Z.of_nat i <? nd then ds else ns.

Definition block_pos (B : Z) (f : nilfs_file) (nd : Z) (i : nat) : Z :=
  let '(ds, ns) := binfo_sizes (fl_use_real_blocknr f) in
  let o := fl_offset f + 24 in
  if Z.of_nat i <? nd then place B ds (binfo_end B ds o i)
  else place B ns (binfo_end B ns (binfo_end B ds o (Z.to_nat nd)) (i - Z.to_nat nd)).

Definition block_at (B : Z) (ps : nilfs_psegment) (f : nilfs_file) (nb nd : Z) (i : nat)
  : nilfs_block :=
  let '(ds, ns) := binfo_sizes (fl_use_real_blocknr f) in
  let pos := block_pos B f nd i in
  mk_block (ps_segsum ps + pos) (fl_blocknr f + Z.of_nat i) pos (Z.of_nat i) nb nd ds ns.

Section Blocks.
Context (seg : nilfs_segment) (Hseg : seg_ok seg) (ps : nilfs_psegment) (f : nilfs_file).
Context (k nblocks sumbytes hdrsize used nb nd : Z).
Abbreviation mem := (seg_addr seg).
Abbreviation bb := (seg_blkbits seg).
Abbreviation B := (2 ^ bb).
Hypothesis Hlog : 1024 <= B <= 65536 /\ 0 <= ps_segsum ps /\ nblocks <= 2 ^ 19 /\
  ps_segsum ps + sumbytes + 1024 <= seg_segsize seg /\ sumbytes <= 2 ^ 29 - 1024 /\
  seg_segsize seg <= 2 ^ 29 /\ 0 <= ps_blocknr ps < 2 ^ 63 + 2 ^ 19 /\ ps_blkbits ps = bb.
Hypothesis Hpos : file_pos ps nblocks sumbytes used f.
Hypothesis Hnb : nblocks_at seg f = Some nb.
Hypothesis Hnd : ndatablk_at seg f = Some nd.
Hypothesis Hcnt : 0 <= nd <= nb.
Hypothesis Hfit : used + nb <= nblocks.
Hypothesis Hend : let '(ds, ns) := binfo_sizes (fl_use_real_blocknr f) in
  fl_offset f + fl_sumlen f =
    binfo_end B ns (binfo_end B ds (fl_offset f + 24) (Z.to_nat nd)) (Z.to_nat (nb - nd)).
Hypothesis Hlen : fl_offset f + 24 <= fl_offset f + fl_sumlen f <= sumbytes.

(** Where the descriptors of the file end. *)
Lemma block_pos_bound (i : nat) : (Z.of_nat i < nb) ->
  fl_offset f + 24 <= block_pos B f nd i /\
  block_pos B f nd i + block_size_at f nd i <= fl_offset f + fl_sumlen f /\
  block_pos B f nd i `mod` B + block_size_at f nd i <= B.
Proof using Hlog Hcnt Hend.
  intros Hi. revert Hend. unfold block_pos, block_size_at.
  pose proof (binfo_sizes_ok (fl_use_real_blocknr f)) as Hs.
  destruct (binfo_sizes (fl_use_real_blocknr f)) as [ds ns]. destruct Hs as [Hds Hns]. intros ->.
  destruct Hlog as (HB & _). set (o := fl_offset f + 24).
  pose proof (binfo_end_mono B ns ltac:(lia) ltac:(lia) (binfo_end B ds o (Z.to_nat nd)) 0 (Z.to_nat (nb - nd)) ltac:(lia)) as Hm0.
  simpl in Hm0. destruct (Z.ltb_spec (Z.of_nat i) nd).
  - pose proof (binfo_end_mono B ds ltac:(lia) ltac:(lia) o 0 i ltac:(lia)) as Hm1. simpl in Hm1.
    pose proof (binfo_end_mono B ds ltac:(lia) ltac:(lia) o (Datatypes.S i) (Z.to_nat nd) ltac:(lia)) as Hm2.
    simpl in Hm2. pose proof (place_ge B ds ltac:(lia) (binfo_end B ds o i)).
    pose proof (place_fits B ds ltac:(lia) ltac:(lia) (binfo_end B ds o i)). lia.
  - pose proof (binfo_end_mono B ds ltac:(lia) ltac:(lia) o 0 (Z.to_nat nd) ltac:(lia)) as Hm1. simpl in Hm1.
    set (o' := binfo_end B ds o (Z.to_nat nd)) in *. set (j := (i - Z.to_nat nd)%nat).
    pose proof (binfo_end_mono B ns ltac:(lia) ltac:(lia) o' 0 j ltac:(lia)) as Hm2. simpl in Hm2.
    pose proof (binfo_end_mono B ns ltac:(lia) ltac:(lia) o' (Datatypes.S j) (Z.to_nat (nb - nd)) ltac:(lia)) as Hm3.
    simpl in Hm3. pose proof (place_ge B ns ltac:(lia) (binfo_end B ns o' j)).
    pose proof (place_fits B ns ltac:(lia) ltac:(lia) (binfo_end B ns o' j)). lia.
Qed.

(** The position before the adjustment for entry [i]. *)
Definition raw_pos (i : nat) : Z :=
  let '(ds, ns) := binfo_sizes (fl_use_real_blocknr f) in
  let o := fl_offset f + 24 in
  if Z.of_nat i <=? nd then binfo_end B ds o i
  else binfo_end B ns (binfo_end B ds o (Z.to_nat nd)) (i - Z.to_nat nd).

Lemma block_pos_raw i : block_pos B f nd i = place B (block_size_at f nd i) (raw_pos i).
Proof using Hcnt.
  clear Hend. unfold block_pos, block_size_at, raw_pos.
  destruct (binfo_sizes (fl_use_real_blocknr f)) as [ds ns].
  destruct (Z.ltb_spec (Z.of_nat i) nd), (Z.leb_spec (Z.of_nat i) nd); try lia; try done.
  replace (i - Z.to_nat nd)%nat with 0%nat by lia. by replace (Z.to_nat nd) with i by lia.
Qed.

Lemma raw_pos_S i : raw_pos (Datatypes.S i) = block_pos B f nd i + block_size_at f nd i.
Proof using Hcnt.
  clear Hend. unfold block_pos, block_size_at, raw_pos.
  destruct (binfo_sizes (fl_use_real_blocknr f)) as [ds ns].
  destruct (Z.ltb_spec (Z.of_nat i) nd), (Z.leb_spec (Z.of_nat (Datatypes.S i)) nd); try lia; try done.
  by replace (Datatypes.S i - Z.to_nat nd)%nat with (Datatypes.S (i - Z.to_nat nd)) by lia.
Qed.

Lemma raw_pos_bound (i : nat) : Z.of_nat i <= nb ->
  fl_offset f + 24 <= raw_pos i <= fl_offset f + fl_sumlen f.
Proof using Hlog Hcnt Hend Hlen.
  intros Hi. destruct i as [|i].
  - clear Hend. unfold raw_pos. destruct (binfo_sizes _).
    rewrite (proj2 (Z.leb_le (Z.of_nat 0) nd)) by lia. simpl. lia.
  - rewrite raw_pos_S. pose proof (block_pos_bound i ltac:(lia)).
    pose proof (binfo_sizes_ok (fl_use_real_blocknr f)) as Hs. unfold block_size_at in *.
    clear Hend. destruct (binfo_sizes _), (Z.of_nat i <? nd); lia.
Qed.

(** The adjustment, from any state with the position before it. *)
Lemma adjust_block (i : nat) : Z.of_nat i <= nb ->
  let '(ds, ns) := binfo_sizes (fl_use_real_blocknr f) in
  nilfs_block_adjust_binfo_position (blksize_of (ps_blkbits ps))
    (mk_block (ps_segsum ps + raw_pos i) (fl_blocknr f + Z.of_nat i) (raw_pos i) (Z.of_nat i)
       nb nd ds ns) = block_at B ps f nb nd i.
Proof using Hlog Hcnt Hend Hlen Hseg Hpos.
  intros Hi. pose proof (raw_pos_bound i Hi) as Hr. pose proof (block_pos_raw i) as Hraw.
  destruct Hlog as (HB & _ & _ & _ & Hsb & _ & _ & Hbb). destruct Hpos as (_ & Ho & _).
  unfold nilfs_block_adjust_binfo_position, block_at, binfosize, nilfs_block_is_data.
  unfold block_size_at in Hraw. clear Hend.
  destruct (binfo_sizes _) as [ds ns]. simpl.
  rewrite Hbb, blksize_of_eq, rest_of_block_eq by apply Hseg.
  rewrite Hraw. unfold place. pose proof (Z.mod_pos_bound (raw_pos i) B ltac:(lia)).
  change (2 ^ 29) with 536870912 in *.
  destruct (Z.ltb_spec (Z.of_nat i) nd); case_if; try done;
    rewrite u32_id by (unfold_words; lia); f_equal; lia.
Qed.

Lemma block_next_at (i : nat) : Z.of_nat i < nb ->
  nilfs_block_next ps (block_at B ps f nb nd i) = block_at B ps f nb nd (Datatypes.S i).
Proof using Hlog Hcnt Hend Hlen Hseg Hpos Hfit.
  intros Hi. pose proof (adjust_block (Datatypes.S i) ltac:(lia)) as Hadj.
  pose proof (raw_pos_bound (Datatypes.S i) ltac:(lia)) as Hr.
  pose proof (raw_pos_S i) as HS.
  destruct Hlog as (HB & _ & Hn & _ & Hsb & _ & Hpb & Hbb). destruct Hpos as (_ & Ho & _ & Hbn & Hu).
  set (next := block_at B ps f nb nd (Datatypes.S i)) in *. clearbody next.
  revert Hadj HS. unfold nilfs_block_next.
  unfold block_at, block_size_at, binfosize, nilfs_block_is_data. clear Hend.
  destruct (binfo_sizes _) as [ds ns]. simpl. intros <- HS.
  change (2 ^ 29) with 536870912 in *. change (2 ^ 19) with 524288 in *.
  rewrite <- HS, (u64_id (_ + 1)), !u32_id by (unfold_words; lia).
  f_equal. f_equal; lia.
Qed.

Lemma block_trace (m i : nat) : Z.of_nat (i + m) = nb ->
  trace (Datatypes.S m) (fun b => Some (nilfs_block_is_end b, b))
    (fun b => Some (nilfs_block_next ps b)) (block_at B ps f nb nd i) =
  Some (block_at B ps f nb nd <$> seq i m, block_at B ps f nb nd (i + m)).
Proof using Hlog Hcnt Hend Hlen Hseg Hpos Hfit.
  assert (Hstop : forall j, nilfs_block_is_end (block_at B ps f nb nd j) = (nb <=? Z.of_nat j)).
  { intros j. unfold nilfs_block_is_end, block_at. clear Hend. by destruct (binfo_sizes _). }
  revert i; induction m as [|m IH]; intros i Hm.
  - simpl. rewrite Hstop. case_if; [|lia]. by rewrite Nat.add_0_r.
  - rewrite trace_S. cbv [mbind option_bind]. rewrite Hstop. case_if; [lia|].
    rewrite block_next_at, IH by lia. simpl. repeat f_equal; lia.
Qed.

Lemma block_for_each_spec :
  nilfs_block_for_each seg ps f =
    Some (block_at B ps f nb nd <$> seq 0 (Z.to_nat nb), block_at B ps f nb nd (Z.to_nat nb)).
Proof using Hlog Hcnt Hend Hlen Hseg Hpos Hfit Hnb Hnd.
  unfold nilfs_block_for_each, nilfs_block_init.
  pose proof (adjust_block 0 ltac:(lia)) as Hadj.
  fold (nblocks_at seg f) (ndatablk_at seg f). rewrite Hnb, Hnd.
  destruct Hlog as (HB & _ & Hn & _ & Hsb & _). destruct Hpos as (Hf & Ho & _).
  assert (Hraw : raw_pos 0 = fl_offset f + 24).
  { clear Hend Hadj. unfold raw_pos. destruct (binfo_sizes _).
    by rewrite (proj2 (Z.leb_le (Z.of_nat 0) nd)) by lia. }
  assert (Hnbi : bk_nbinfo (block_at B ps f nb nd 0) = nb)
    by (unfold block_at; clear Hend Hadj; by destruct (binfo_sizes _)).
  pose proof (block_trace (Z.to_nat nb) 0 ltac:(lia)) as Htr. rewrite <- Hnbi in Htr at 1.
  set (b0 := block_at B ps f nb nd 0) in *. clearbody b0. revert Hadj.
  rewrite Hraw. clear Hend. destruct (binfo_sizes _) as [ds ns]. cbv [mbind option_bind].
  unfold sizeof_finfo. rewrite u32_id by (change (2 ^ 29) with 536870912 in *; unfold_words; lia).
  change (Z.of_nat 0) with 0. rewrite Hf, Z.add_0_r, Z.add_assoc. intros ->. exact Htr.
Qed.
End Blocks.

Lemma blocks_spec seg ps f :
  seg_ok seg -> ps_valid seg ps -> file_in_log seg ps f ->
  exists nb nd last,
    nblocks_at seg f = Some nb /\ ndatablk_at seg f = Some nd /\
    nilfs_block_for_each seg ps f =
      Some (block_at (2 ^ seg_blkbits seg) ps f nb nd <$> seq 0 (Z.to_nat nb), last) /\
    forall i, Z.of_nat i < nb ->
      let b := block_at (2 ^ seg_blkbits seg) ps f nb nd i in
      nilfs_block_is_data b = (Z.of_nat i <? nd) /\
      bk_binfo b = ps_segsum ps + bk_offset b /\
      fl_offset f + sizeof_finfo <= bk_offset b /\
      bk_offset b + binfosize b <= fl_offset f + fl_sumlen f /\
      bk_binfo b + binfosize b <= seg_segsize seg /\
      bk_offset b `mod` 2 ^ seg_blkbits seg + binfosize b <= 2 ^ seg_blkbits seg /\
      seg_blocknr seg <= bk_blocknr b < seg_blocknr seg + seg_nblocks seg.
Proof.
  intros Hseg (k & nblocks & sby & hd & Hat & Hnb & Hsby & Hhd & Hk & _ & _ & Hh & _ & Hh0 & Hsum)
    (nblocks' & sby' & Hnb' & Hsby' & used & nb & nd & Hp & Hb & Hd & Hcnt & Hfit & Hend & Hlen).
  rewrite Hnb in Hnb'; rewrite Hsby in Hsby'; simplify_eq.
  pose proof (log_range seg Hseg ps k _ _ hd Hat Hk (conj Hh0 Hh) Hsum) as Hlog.
  exists nb, nd. eexists. split; [done|]. split; [done|]. split.
  { eapply block_for_each_spec; eauto. }
  intros i Hi. pose proof (block_pos_bound seg ps f _ _ nb nd Hlog Hcnt Hend i Hi) as (H1 & H2 & H3).
  destruct Hat as (Hk0 & _ & Hbn & _). destruct Hp as (_ & _ & _ & Hbn' & Hu).
  destruct Hlog as (_ & _ & _ & Hlog & _).
  unfold binfosize, nilfs_block_is_data, block_at. unfold block_size_at in *. clear Hend.
  destruct (binfo_sizes _) as [ds ns]. simpl. unfold sizeof_finfo. repeat split; lia.
Qed.

(** C8: for a file that passed its checks, the block iterator visits exactly
    the blocks the finfo counts; each binfo it stands on lies inside the part
    of the summary accounted to the file and does not cross a block of it, and
    the block number lies inside the log. *)
Theorem block_for_each_safe seg ps f :
  seg_ok seg -> ps_valid seg ps -> file_in_log seg ps f ->
  exists nb nd last,
    nblocks_at seg f = Some nb /\ ndatablk_at seg f = Some nd /\
    nilfs_block_for_each seg ps f =
      Some (block_at (2 ^ seg_blkbits seg) ps f nb nd <$> seq 0 (Z.to_nat nb), last) /\
    forall i, Z.of_nat i < nb ->
      let b := block_at (2 ^ seg_blkbits seg) ps f nb nd i in
      nilfs_block_is_data b = (Z.of_nat i <? nd) /\
      bk_binfo b = ps_segsum ps + bk_offset b /\
      fl_offset f + sizeof_finfo <= bk_offset b /\
      bk_offset b + binfosize b <= fl_offset f + fl_sumlen f /\
      bk_binfo b + binfosize b <= seg_segsize seg /\
      bk_offset b `mod` 2 ^ seg_blkbits seg + binfosize b <= 2 ^ seg_blkbits seg /\
      seg_blocknr seg <= bk_blocknr b < seg_blocknr seg + seg_nblocks seg.
Proof. apply blocks_spec. Qed.


(** ** A segment of four blocks of 1 KB with one log of one file *)
Module Demo.
Definition put (l : list Z) (at_ : Z * nat * Z) : list Z :=
  let '(off, n, x) := at_ in put_bytes l off (le_bytes n x).

Definition raw : list Z :=
  foldl put (replicate (Z.to_nat 4096) 0)
    [(8, 4%nat, NILFS_SEGSUM_MAGIC); (12, 2%nat, 64); (40, 4%nat, 3); (44, 4%nat, 1);
     (48, 4%nat, 120); (64, 8%nat, 12); (72, 8%nat, 1); (80, 4%nat, 2); (84, 4%nat, 2);
     (88, 8%nat, 100); (96, 8%nat, 0); (104, 8%nat, 101); (112, 8%nat, 1)].
Definition seed : Z := 0x12345678.
Definition bytes : list Z :=
  put raw (4, 4%nat, crc32_le seed (default [] (rd_bytes raw 8 112))).
Definition segment : nilfs_segment := Eval vm_compute in
  mk_segment 0 bytes 4096 1 0 4096 4 4 10 seed false false.

Definition first_log : nilfs_psegment := mk_psegment 0 4096 4 10 0.
Definition first_file : nilfs_file := mk_file 64 4097 64 0 1 120 56 0 false.

Lemma bytes_u8 (l : list Z) : forallb (fun b => (0 <=? b) && (b <? 256)) l = true -> Forall is_u8 l.
Proof.
  intros Hl. apply Forall_forall. intros x Hx. unfold is_u8. change (2 ^ 8) with 256.
  rewrite forallb_forall in Hl. specialize (Hl x). apply list_elem_of_In in Hx.
  apply Hl in Hx. lia.
Qed.

Lemma segment_seg_ok : seg_ok segment.
Proof.
  split; try (vm_compute; intuition congruence).
  apply bytes_u8. vm_compute. reflexivity.
Qed.

Lemma first_log_valid : ps_valid segment first_log.
Proof.
  exists 0, 3, 120, 64. vm_compute. intuition congruence.
Qed.

Lemma first_file_in_log : file_in_log segment first_log first_file.
Proof.
  exists 3, 120. split; [reflexivity|]. split; [reflexivity|].
  exists 1, 2, 2. vm_compute. intuition congruence.
Qed.
End Demo.

Lemma binfo_total_size_layout_witness :
  nilfs_binfo_total_size 1000 (2 ^ 10) 16 70 = binfo_end (2 ^ 10) 16 1000 (Z.to_nat 70) - 1000.
Proof.
  apply binfo_total_size_layout; [lia|lia|lia|unfold is_u32; lia|left; lia].
Defined.

Lemma psegment_for_each_safe_witness :
  exists l last, nilfs_psegment_for_each Demo.segment 4 = Some (l, last) /\
                 Forall (ps_valid Demo.segment) l /\ sum_Z (ps_nblocks Demo.segment <$> l) <= 4.
Proof. apply psegment_for_each_safe; [exact Demo.segment_seg_ok|lia]. Defined.

Lemma file_for_each_safe_witness :
  exists l last, nilfs_file_for_each Demo.segment Demo.first_log = Some (l, last) /\
                 Forall (file_in_log Demo.segment Demo.first_log) l /\
                 sum_Z (fl_nblocks Demo.segment <$> l) <= ps_nblocks Demo.segment Demo.first_log.
Proof. apply file_for_each_safe; [exact Demo.segment_seg_ok|exact Demo.first_log_valid]. Defined.

Lemma block_for_each_safe_witness :
  exists nb nd last, nblocks_at Demo.segment Demo.first_file = Some nb /\
    ndatablk_at Demo.segment Demo.first_file = Some nd /\
    nilfs_block_for_each Demo.segment Demo.first_log Demo.first_file =
      Some (block_at (2 ^ 10) Demo.first_log Demo.first_file nb nd <$> seq 0 (Z.to_nat nb), last).
Proof.
  destruct (block_for_each_safe Demo.segment Demo.first_log Demo.first_file) as (nb & nd & last & H1 & H2 & H3 & _);
    [exact Demo.segment_seg_ok|exact Demo.first_log_valid|exact Demo.first_file_in_log|].
  exists nb, nd, last. exact (conj H1 (conj H2 H3)).
Defined.

(** The iterators do visit the log, the file and its two blocks. *)
Example demo_visits :
  option_map fst (nilfs_psegment_for_each Demo.segment 4) = Some [Demo.first_log] /\
  option_map fst (nilfs_file_for_each Demo.segment Demo.first_log) = Some [Demo.first_file] /\
  option_map (fun r => bk_binfo <$> fst r)
    (nilfs_block_for_each Demo.segment Demo.first_log Demo.first_file) = Some [88; 104].
Proof. vm_compute. auto. Qed.

(** The product [binfosize * blkcnt] wraps: 2^28 descriptors of 16 bytes are
    said to take no space. *)
Example binfo_total_size_wraps : nilfs_binfo_total_size 0 1024 16 (2 ^ 28) = 0.
Proof. reflexivity. Qed.
