(* ===== verification/Parser.v ===== *)
(** * Command line values: lib/parser.c

    A C string is the list of its characters (codes, without the final NUL); a
    pointer into it is the suffix that starts there, and a character read at
    its end is 0.  [strtoull] is modelled from the C standard. *)

From Stdlib Require Import String Ascii.
From S2P Require Import Prelude Kernel.

Definition codes (s : string) : list Z :=
  (fun c => Z.of_nat (nat_of_ascii c)) <$> list_ascii_of_string s.

(** The character a pointer points to, and the one after it. *)
Definition char_at (s : list Z) : Z := match s with c :: _ => c | [] => 0 end.
Definition char_at1 (s : list Z) : Z := char_at (tail s).

Definition isspace (c : Z) : bool := (c =? 32) || ((9 <=? c) && (c <=? 13)).

Fixpoint skip_spaces (s : list Z) : list Z :=
  match s with
  | c :: s' => if isspace c then skip_spaces s' else s
  | [] => []
  end.

(** ** strtoull *)

Definition digit_value (c : Z) : Z :=
  if (48 <=? c) && (c <=? 57) then c - 48
  else if (97 <=? c) && (c <=? 122) then c - 87
  else if (65 <=? c) && (c <=? 90) then c - 55
  else 99.

Definition is_digit (base c : Z) : bool := digit_value c <? base.

Fixpoint strto_digits (base acc : Z) (s : list Z) : Z * list Z :=
  match s with
  | c :: s' => if is_digit base c then strto_digits base (acc * base + digit_value c) s'
               else (acc, s)
  | [] => (acc, [])
  end.

(** A "0x" counts as a prefix only when a hexadecimal digit follows. *)
Definition hex_prefix (s : list Z) : bool :=
  match s with
  | 48 :: x :: d :: _ => ((x =? 120) || (x =? 88)) && is_digit 16 d
  | _ => false
  end.

Definition ULLONG_MAX : Z := 2 ^ 64 - 1.

(** The value and where the parse stopped. *)
Definition strtoull (arg : list Z) (base : Z) : Z * list Z :=
  let s := skip_spaces arg in
  let '(neg, s) := match s with
                   | 45 :: s' => (true, s')
                   | 43 :: s' => (false, s')
                   | _ => (false, s)
                   end in
  let '(base, s) :=
    if ((base =? 0) || (base =? 16)) && hex_prefix s then (16, drop 2 s)
    else if base =? 0 then (if char_at s =? 48 then 8 else 10, s)
    else (base, s) in
  if is_digit base (char_at s) then
    let '(v, rest) := strto_digits base 0 s in
    (if ULLONG_MAX <? v then ULLONG_MAX else if neg then u64 (- v) else v, rest)
  else (0, arg).

(** ** The parsers *)

(** [endptr] is not set for a negative number. *)
Definition nilfs_parse_cno (arg : list Z) (base : Z) : Z * option (list Z) :=
  let arg := skip_spaces arg in
  if char_at arg =? 45 then (NILFS_CNO_MAX, None)
  else let '(v, endptr) := strtoull arg base in (v, Some endptr).

(** [strstr(arg, "..")] *)
Fixpoint find_dots (s : list Z) : option (list Z) :=
  match s with
  | 46 :: ((46 :: _) as s') => Some s
  | _ :: s' => find_dots s'
  | [] => None
  end.

Definition at_end (p : option (list Z)) : bool :=
  match p with Some [] => true | _ => false end.

(** Equality of two pointers into the same string. *)
Definition same_ptr (p : option (list Z)) (q : list Z) : bool :=
  match p with Some p => Nat.eqb (length p) (length q) | None => false end.

(** [None] is the parse error; an empty argument violates the assertion. *)
Definition nilfs_parse_cno_range (arg : list Z) (base : Z) : res (option (Z * Z)) :=
  match arg with
  | [] => Abort
  | _ =>
    Ok (match find_dots arg with
        | Some delim =>
          if Nat.eqb (length delim) (length arg) then
            if negb (Nat.eqb (length (drop 2 arg)) 0) then
              let '(cno, endptr) := nilfs_parse_cno (drop 2 arg) base in
              if (cno <? NILFS_CNO_MAX) && at_end endptr then Some (NILFS_CNO_MIN, cno) else None
            else None
          else
            let '(cno, endptr) := nilfs_parse_cno arg base in
            if (cno <? NILFS_CNO_MAX) && same_ptr endptr delim then
              match drop 2 delim with
              | [] => Some (cno, NILFS_CNO_MAX)
              | rest =>
                let '(cno2, endptr) := nilfs_parse_cno rest base in
                if (cno2 <? NILFS_CNO_MAX) && at_end endptr then Some (cno, cno2) else None
              end
            else None
        | None =>
          let '(cno, endptr) := nilfs_parse_cno arg base in
          if (cno <? NILFS_CNO_MAX) && at_end endptr then Some (cno, cno) else None
        end)
  end.

(** The factor of a unit letter. *)
Definition period_unit (c : Z) : option Z :=
  if c =? 115 then Some 1            (* s *)
  else if c =? 109 then Some 60      (* m *)
  else if c =? 104 then Some 3600    (* h *)
  else if c =? 100 then Some 86400   (* d *)
  else if c =? 119 then Some 604800  (* w *)
  else if c =? 77 then Some 2678400  (* M *)
  else if c =? 89 then Some 31536000 (* Y *)
  else None.

Inductive period_result := PeriodOk (seconds : Z) | PeriodErr (errno : Z) | PeriodBadUnit.

Definition nilfs_parse_protection_period (arg : list Z) : period_result :=
  let '(val, endptr) := strtoull arg 10 in
  let finish val := if ULONG_MAX <=? val then PeriodErr ERANGE else PeriodOk val in
  if Nat.eqb (length endptr) (length arg) then PeriodErr EINVAL
  else if negb (char_at endptr =? 0) && (char_at1 endptr =? 0) && (val <? ULONG_MAX) then
    match period_unit (char_at endptr) with
    | Some k => finish (u64 (val * k))
    | None => PeriodBadUnit
    end
  else finish val.

(** ** Where parses stop *)

Lemma skip_spaces_suffix s : skip_spaces s `suffix_of` s.
Proof. induction s as [|c s IH]; simpl; [done|]. case_if; [by apply suffix_cons_r|done]. Qed.

Lemma strto_digits_suffix base s : forall a, (strto_digits base a s).2 `suffix_of` s.
Proof.
  induction s as [|c s IH]; intros a; simpl; [done|].
  case_if; [by apply suffix_cons_r|done].
Qed.

(** What a match on the sign leaves of the string. *)
Lemma sign_suffix (s : list Z) :
  (match s with 45 :: s' => (true, s') | 43 :: s' => (false, s') | _ => (false, s) end).2 `suffix_of` s.
Proof.
  destruct s as [|c s]; [done|]. assert (Hs : s `suffix_of` c :: s) by by apply suffix_cons_r.
  destruct c as [|c|c]; try done. by repeat (destruct c as [c|c|]; try done).
Qed.

Lemma strtoull_suffix arg base : (strtoull arg base).2 `suffix_of` arg.
Proof.
  unfold strtoull. pose proof (sign_suffix (skip_spaces arg)) as Hs.
  set (sg := match skip_spaces arg with 45 :: s' => (true, s') | 43 :: s' => (false, s')
             | _ => (false, skip_spaces arg) end) in *. clearbody sg. destruct sg as [neg s]. simpl in Hs.
  assert (Ha : s `suffix_of` arg) by (etransitivity; [exact Hs|apply skip_spaces_suffix]). clear Hs.
  assert (Hd : drop 2 s `suffix_of` arg) by (etransitivity; [apply suffix_drop|exact Ha]).
  match goal with |- context [let '(_, _) := ?x in _] => set (bs := x) end.
  assert (Hbs : bs.2 `suffix_of` arg) by (unfold bs; repeat case_if; done).
  destruct bs as [b s']. simpl in Hbs. case_if; [|done].
  pose proof (strto_digits_suffix b s' 0) as Hr. destruct (strto_digits b 0 s') as [v rest].
  simpl in *. by etransitivity.
Qed.

Lemma digit_value_nonneg c : 0 <= digit_value c.
Proof. unfold digit_value. repeat case_if; lia. Qed.

Lemma strto_digits_nonneg base s : forall a, 0 <= base -> 0 <= a -> 0 <= (strto_digits base a s).1.
Proof.
  induction s as [|c s IH]; intros a Hb Ha; simpl; [done|]. pose proof (digit_value_nonneg c).
  case_if; [apply IH; nia|done].
Qed.

Lemma strtoull_nonneg arg base : 0 <= base -> 0 <= (strtoull arg base).1.
Proof.
  intros Hb. unfold strtoull.
  match goal with |- context [let '(_, _) := ?x in _] => destruct x as [neg s] end.
  match goal with |- context [let '(_, _) := ?x in _] =>
    assert (Hx : 0 <= x.1) by (repeat case_if; simpl; lia); destruct x as [b s'] end.
  case_if; [|done]. simpl in Hx. pose proof (strto_digits_nonneg b s' 0 Hx ltac:(lia)) as Hd.
  destruct (strto_digits b 0 s') as [v rest]. simpl in *. unfold ULLONG_MAX.
  case_if; [lia|]. destruct neg; [|done]. unfold u64. apply Z.mod_pos_bound. lia.
Qed.

(** ** Printing, for the round trips *)

(** The decimal digits of [n], most significant first ([printf("%llu")]). *)
Fixpoint dec_digits (fuel : nat) (n : Z) (acc : list Z) : list Z :=
  match fuel with
  | O => acc
  | Datatypes.S fuel' =>
    let acc := (48 + n `mod` 10) :: acc in
    if n <? 10 then acc else dec_digits fuel' (n / 10) acc
  end.

Definition print_cno (n : Z) : list Z := dec_digits 20 n [].

Lemma dec_digits_length fuel : forall n acc, (length (dec_digits fuel n acc) <= fuel + length acc)%nat.
Proof. induction fuel as [|fuel IH]; intros n acc; cbn; [lia|]. case_if; [cbn; lia|]. etransitivity; [apply IH|]. cbn. lia. Qed.

Lemma print_cno_length n : (length (print_cno n) <= 20)%nat.
Proof. unfold print_cno. etransitivity; [apply dec_digits_length|]. cbn. lia. Qed.

Definition dots : list Z := [46; 46].

(** Text that ends a number. *)
Definition stops (s : list Z) : Prop := is_digit 10 (char_at s) = false.

Lemma is_digit_dec d : 0 <= d < 10 ->
  is_digit 10 (48 + d) = true /\ digit_value (48 + d) = d /\ isspace (48 + d) = false.
Proof.
  intros Hd. unfold is_digit, digit_value, isspace.
  assert ((48 <=? 48 + d) && (48 + d <=? 57) = true) as -> by lia. repeat split; lia.
Qed.

(** [n] read from the digits of [n], whatever was read before. *)
Lemma strto_dec_digits fuel n acc a :
  0 <= n < 10 ^ Z.of_nat fuel ->
  exists k, 0 <= k /\
    strto_digits 10 a (dec_digits fuel n acc) = strto_digits 10 (a * 10 ^ k + n) acc.
Proof.
  revert n acc a; induction fuel as [|fuel IH]; intros n acc a Hn.
  { exists 0. split; [lia|]. simpl in *. f_equal. lia. }
  rewrite Nat2Z.inj_succ, Z.pow_succ_r in Hn by lia. cbn [dec_digits].
  destruct (is_digit_dec (n `mod` 10)) as (H1 & H2 & _); [apply Z.mod_pos_bound; lia|].
  case_if.
  - exists 1. split; [lia|]. cbn [strto_digits]. rewrite H1, H2. f_equal.
    rewrite Z.mod_small by lia. lia.
  - destruct (IH (n / 10) ((48 + n `mod` 10) :: acc) a) as (k & Hk & ->).
    { split; [apply Z.div_pos; lia|]. apply Z.div_lt_upper_bound; lia. }
    exists (k + 1). split; [lia|]. cbn [strto_digits]. rewrite H1, H2. f_equal.
    rewrite Z.pow_add_r by lia. pose proof (Z.div_mod n 10). lia.
Qed.

Lemma dec_digits_head fuel n acc : (0 < fuel)%nat -> 0 <= n ->
  exists d l, 0 <= d < 10 /\ dec_digits fuel n acc = (48 + d) :: l.
Proof.
  revert n acc; induction fuel as [|fuel IH]; intros n acc Hf Hn; [lia|]. cbn [dec_digits].
  pose proof (Z.mod_pos_bound n 10 ltac:(lia)). case_if; [by eauto|].
  destruct fuel as [|fuel]; [by eauto|]. apply IH; [lia|]. apply Z.div_pos; lia.
Qed.

Lemma dec_digits_app fuel n acc : dec_digits fuel n acc = dec_digits fuel n [] ++ acc.
Proof.
  revert n acc; induction fuel as [|fuel IH]; intros n acc; [done|]. cbn [dec_digits].
  case_if; [done|]. rewrite IH, (IH _ [_]), <- app_assoc. done.
Qed.

Lemma strto_digits_stops base a s : is_digit base (char_at s) = false -> strto_digits base a s = (a, s).
Proof. destruct s as [|c s]; simpl; [done|]. by intros ->. Qed.

Lemma digit_no_sign d (l : list Z) : 0 <= d < 10 ->
  match (48 + d) :: l with
  | 45 :: s' => (true, s') | 43 :: s' => (false, s') | _ => (false, (48 + d) :: l)
  end = (false, (48 + d) :: l).
Proof.
  intros Hd. assert (d = 0 \/ d = 1 \/ d = 2 \/ d = 3 \/ d = 4 \/ d = 5 \/ d = 6 \/ d = 7 \/ d = 8 \/ d = 9)
    by lia. intuition (subst; reflexivity).
Qed.

Lemma strtoull_print n s : 0 <= n < 2 ^ 64 -> stops s ->
  strtoull (print_cno n ++ s) 10 = (n, s) /\
  exists d l, 0 <= d < 10 /\ print_cno n ++ s = (48 + d) :: l.
Proof.
  intros Hn Hs. unfold print_cno. rewrite <- dec_digits_app.
  destruct (dec_digits_head 20 n s) as (d & l & Hd & Hl); [lia..|].
  destruct (strto_dec_digits 20 n s 0) as (k & Hk & Hv); [lia|].
  rewrite Z.mul_0_l, Z.add_0_l, (strto_digits_stops _ _ s) in Hv by done.
  destruct (is_digit_dec d Hd) as (H1 & _ & H3). split; [|by eauto].
  rewrite Hl in *. unfold strtoull. cbn [skip_spaces]. rewrite H3.
  rewrite (digit_no_sign d l Hd). cbn [Z.eqb Pos.eqb orb andb char_at]. rewrite H1, Hv.
  unfold ULLONG_MAX. case_if; [lia|done].
Qed.

Lemma parse_cno_print n s : 0 <= n < 2 ^ 64 -> stops s ->
  nilfs_parse_cno (print_cno n ++ s) 10 = (n, Some s).
Proof.
  intros Hn Hs. destruct (strtoull_print n s Hn Hs) as (Hv & d & l & Hd & Hl).
  unfold nilfs_parse_cno. rewrite Hl in *. destruct (is_digit_dec d Hd) as (_ & _ & H3).
  cbn [skip_spaces]. rewrite H3. cbn [char_at]. case_if; [lia|]. by rewrite Hv.
Qed.

Lemma print_cno_digits n : 0 <= n -> Forall (fun c => 48 <= c < 58) (print_cno n).
Proof.
  intros Hn. unfold print_cno. assert (Ha : Forall (fun c => 48 <= c < 58) []) by constructor.
  revert n Hn Ha. generalize (@nil Z) as acc. generalize 20%nat as fuel.
  induction fuel as [|fuel IH]; intros acc n Hn Ha; [done|]. cbn [dec_digits].
  pose proof (Z.mod_pos_bound n 10 ltac:(lia)).
  case_if; [constructor; [lia|done]|]. apply IH; [apply Z.div_pos; lia|]. constructor; [lia|done].
Qed.

Lemma print_cno_no_dot n : 0 <= n -> Forall (fun c => c <> 46) (print_cno n).
Proof. intros H. eapply Forall_impl; [by apply print_cno_digits|simpl; lia]. Qed.

Lemma find_dots_skip l s : Forall (fun c => c <> 46) l ->
  find_dots (l ++ s) = find_dots s.
Proof.
  induction 1 as [|c l Hc _ IH]; [done|]. rewrite <- IH. cbn [app find_dots].
  destruct c as [|c|c]; try done. repeat (destruct c as [c|c|]; try done).
Qed.

Lemma stops_dots s : stops (dots ++ s).
Proof. reflexivity. Qed.

Lemma stops_nil : stops [].
Proof. reflexivity. Qed.

Lemma print_cno_nonempty n : 0 <= n < 2 ^ 64 -> print_cno n <> [].
Proof.
  intros Hn. destruct (strtoull_print n [] Hn stops_nil) as (_ & d & l & _ & Hl).
  rewrite app_nil_r in Hl. by rewrite Hl.
Qed.

(** C9: a printed checkpoint number or range is parsed back: "a", "a..", "..b"
    and "a..b" denote the ranges they should, for all numbers below
    [NILFS_CNO_MAX]. *)
Theorem parse_cno_range_roundtrip a b :
  0 <= a < NILFS_CNO_MAX -> 0 <= b < NILFS_CNO_MAX ->
  nilfs_parse_cno_range (print_cno a) 10 = Ok (Some (a, a)) /\
  nilfs_parse_cno_range (print_cno a ++ dots) 10 = Ok (Some (a, NILFS_CNO_MAX)) /\
  nilfs_parse_cno_range (dots ++ print_cno b) 10 = Ok (Some (NILFS_CNO_MIN, b)) /\
  nilfs_parse_cno_range (print_cno a ++ dots ++ print_cno b) 10 = Ok (Some (a, b)).
Proof.
  unfold NILFS_CNO_MAX at 1 2. intros Ha Hb.
  pose proof (print_cno_nonempty a ltac:(lia)) as Hna.
  pose proof (print_cno_nonempty b ltac:(lia)) as Hnb.
  pose proof (print_cno_no_dot a ltac:(lia)) as Hda.
  pose proof (parse_cno_print a [] ltac:(lia) stops_nil) as Hpa. rewrite app_nil_r in Hpa.
  pose proof (parse_cno_print b [] ltac:(lia) stops_nil) as Hpb. rewrite app_nil_r in Hpb.
  assert (Hlt : forall x, 0 <= x < 2 ^ 64 - 1 -> (x <? NILFS_CNO_MAX) = true)
    by (intros; unfold NILFS_CNO_MAX; lia).
  assert (Hne : forall s, Nat.eqb (length (dots ++ s)) (length (print_cno a ++ dots ++ s)) = false).
  { intros s. apply Nat.eqb_neq. rewrite (length_app (print_cno a)). destruct (print_cno a); simpl; [done|lia]. }
  assert (Hrange : forall s, nilfs_parse_cno_range (print_cno a ++ dots ++ s) 10 =
    Ok (match s with
        | [] => Some (a, NILFS_CNO_MAX)
        | _ => let '(c, e) := nilfs_parse_cno s 10 in
               if (c <? NILFS_CNO_MAX) && at_end e then Some (a, c) else None
        end)).
  { intros s. unfold nilfs_parse_cno_range. destruct (print_cno a ++ dots ++ s) eqn:He.
    { apply app_eq_nil in He as [He _]. done. }
    rewrite <- He. rewrite find_dots_skip by done. change (find_dots (dots ++ s)) with (Some (dots ++ s)).
    cbv iota. rewrite Hne, parse_cno_print by (lia || apply stops_dots). rewrite Hlt by lia.
    unfold same_ptr. rewrite Nat.eqb_refl. cbn [andb]. change (drop 2 (dots ++ s)) with s. by destruct s. }
  split; [|split; [|split]].
  - unfold nilfs_parse_cno_range. destruct (print_cno a) eqn:He; [done|]. rewrite <- He in *.
    pose proof (find_dots_skip (print_cno a) [] Hda) as Hf. rewrite app_nil_r in Hf.
    rewrite Hf. simpl. rewrite Hpa, Hlt by lia. done.
  - specialize (Hrange []). by rewrite app_nil_r in Hrange.
  - unfold nilfs_parse_cno_range. simpl. rewrite Nat.eqb_refl, drop_0.
    destruct (print_cno b) eqn:He; [done|]. rewrite <- He in *. cbn [Nat.eqb length negb].
    rewrite Hpb, Hlt by lia. rewrite He. done.
  - rewrite Hrange, Hpb, Hlt by lia. by destruct (print_cno b).
Qed.

(** A decimal number with a unit letter denotes the product, as the 64-bit
    arithmetic computes it; without a unit it is a number of seconds.  The
    product is exact as long as it stays below 2^64 - 1. *)
Theorem parse_protection_period_units n c k :
  0 <= n < ULONG_MAX -> period_unit c = Some k ->
  nilfs_parse_protection_period (print_cno n) = PeriodOk n /\
  nilfs_parse_protection_period (print_cno n ++ [c]) =
    (if ULONG_MAX <=? u64 (n * k) then PeriodErr ERANGE else PeriodOk (u64 (n * k))) /\
  (n * k < ULONG_MAX -> nilfs_parse_protection_period (print_cno n ++ [c]) = PeriodOk (n * k)).
Proof.
  unfold ULONG_MAX at 1. intros Hn Hk.
  assert (Hc : is_digit 10 c = false /\ c <> 0).
  { unfold period_unit in Hk. repeat (case_if_in Hk; [subst; done|]). done. }
  pose proof (print_cno_nonempty n ltac:(lia)) as Hne.
  assert (Hu : nilfs_parse_protection_period (print_cno n ++ [c]) =
    (if ULONG_MAX <=? u64 (n * k) then PeriodErr ERANGE else PeriodOk (u64 (n * k)))).
  { unfold nilfs_parse_protection_period.
    destruct (strtoull_print n [c]) as [-> _]; [lia|apply Hc|].
    rewrite length_app. destruct (Nat.eqb_spec (length [c]) (length (print_cno n) + length [c])).
    { destruct (print_cno n); simpl in *; [done|lia]. }
    cbn [char_at char_at1 tail]. unfold ULONG_MAX at 1.
    replace (negb (c =? 0) && (0 =? 0) && (n <? 2 ^ 64 - 1)) with true by lia.
    by rewrite Hk. }
  split; [|split; [exact Hu|]].
  - unfold nilfs_parse_protection_period.
    destruct (strtoull_print n []) as [Hv _]; [lia|done|]. rewrite app_nil_r in Hv. rewrite Hv.
    destruct (print_cno n); [done|]. cbn. unfold ULONG_MAX. case_if; [lia|done].
  - intros Hlt. assert (0 <= k) by (unfold period_unit in Hk; repeat (case_if_in Hk; [injection Hk; lia|]); done).
    rewrite Hu, u64_id by (unfold_words; nia). case_if; [lia|done].
Qed.

Lemma parse_cno_range_roundtrip_witness :
  nilfs_parse_cno_range (codes "12..34") 10 = Ok (Some (12, 34)).
Proof. apply (parse_cno_range_roundtrip 12 34); unfold NILFS_CNO_MAX; lia. Defined.

Lemma parse_protection_period_units_witness :
  nilfs_parse_protection_period (codes "2h") = PeriodOk 7200.
Proof.
  apply (parse_protection_period_units 2 104 3600); [unfold ULONG_MAX; lia|reflexivity|unfold ULONG_MAX; lia].
Defined.

(** The product wraps around, text after the number is dropped, and a negative
    number is taken modulo 2^64. *)
Example protection_period_oddities :
  nilfs_parse_protection_period (codes "584942417356Y") = PeriodOk 29264384 /\
  nilfs_parse_protection_period (codes "10min") = PeriodOk 10 /\
  nilfs_parse_protection_period (codes "-5") = PeriodOk (2 ^ 64 - 5).
Proof. vm_compute. auto. Qed.
