(* ===== verification/Ismounted.v ===== *)
(** * Whether a device is mounted: lib/ismounted.c

    [check_mount] looks for an entry of the mount table that belongs to the
    device: by its name, by its number, as the file behind a loop device, or
    as the same file.  The table, [stat] and the files of sysfs are the class
    [MountsOs]; the table is taken to be read at once. *)

From Stdlib Require Import String.
From S2P Require Import Prelude Vector Hoare Parser.

(** An entry of the mount table. *)
Record mntent := mk_mntent { mnt_fsname : list Z; mnt_dir : list Z; mnt_type : list Z; mnt_opts : list Z }.

Inductive inode_kind := Block | Regular | Directory | OtherKind.
Record stat_answer := mk_stat { st_kind : inode_kind; st_rdev : Z; st_dev : Z; st_ino : Z }.

Definition SYSFS_LOOP_DIR_PATH_BUFSZ : Z := 64.

(** [im_pagesize] is -1 if it is not known; [im_openat] has a directory or
    [None] for [AT_FDCWD]. *)
Class MountsOs (W : Type) := {
  im_pagesize : Z;
  im_major : Z -> Z;
  im_minor : Z -> Z;
  im_mtab : W -> (list mntent + Z) * W;
  im_stat : list Z -> W -> (stat_answer + Z) * W;
  im_openat : option Z -> list Z -> W -> (Z + Z) * W;
  im_read : Z -> Z -> W -> (list Z + Z) * W;
  im_close : Z -> W -> W;
}.

(** The bytes up to the end of the line or a NUL. *)
Fixpoint line_of_file (bs : list Z) : list Z :=
  match bs with
  | [] => []
  | c :: bs => if (c =? 10) || (c =? 0) then [] else c :: line_of_file bs
  end.

(** The variables [file_rdev], [file_dev] and [file_ino]. *)
Record identity := mk_identity { file_rdev : Z; file_dev : Z; file_ino : Z }.

Definition identity_of (st : stat_answer + Z) : identity :=
  match st with
  | inl st =>
    match st_kind st with
    | Block => mk_identity (st_rdev st) 0 0
    | _ => mk_identity 0 (st_dev st) (st_ino st)
    end
  | inr _ => mk_identity 0 0 0
  end.

Definition same_device (t : identity) (st : stat_answer) : bool := negb (file_rdev t =? 0) && (file_rdev t =? st_rdev st).
Definition same_file (t : identity) (st : stat_answer) : bool :=
  negb (file_dev t =? 0) && ((file_dev t =? st_dev st) && (file_ino t =? st_ino st)).

Definition path_buf_size (pagesize : Z) : Z := if (0 <? pagesize) && (pagesize <? PATH_MAX + 1) then pagesize else PATH_MAX + 1.

Section Ismounted.
Context {W : Type} {A : Alloc W} {MO : MountsOs W}.
Abbreviation MW := (M W).

Definition im_do (f : W -> W) : MW unit := modify f.

(** The name of the backing file, in a buffer of [bufsz] bytes; empty if
    there is none. *)
Definition loop_get_backing_file (dev bufsz : Z) : MW (list Z) :=
  if bufsz <=? 1 then abort
  else
    let dir_path := codes "/sys/dev/block/" ++ print_cno (im_major dev) ++ [58] ++ print_cno (im_minor dev) in
    if SYSFS_LOOP_DIR_PATH_BUFSZ <=? Z.of_nat (length dir_path) then fail ENAMETOOLONG
    else
      let* dir_fd := lift_sum (im_openat None dir_path) in
      let* fd := attempt (lift_sum (im_openat (Some dir_fd) (codes "loop/backing_file"))) in
      match fd with
      | inr e => im_do (im_close dir_fd) ;; if e =? ENOENT then ret [] else fail e
      | inl fd =>
        let* r := attempt (lift_sum (im_read fd (bufsz - 1))) in
        (match r with
         | inl bs => if bufsz - 1 <? Z.of_nat (length bs) then abort else ret tt
         | inr _ => ret tt
         end) ;;
        im_do (im_close fd) ;;
        im_do (im_close dir_fd) ;;
        match r with
        | inr e => fail e
        | inl bs => ret (line_of_file bs)
        end
      end.

(** The body of the loop over the table: whether it breaks. *)
Definition entry_is (device : list Z) (bufsz : Z) (t : identity) (e : mntent) : MW bool :=
  if negb (char_at (mnt_fsname e) =? 47) then ret false
  else if bool_decide (device = mnt_fsname e) then ret true
  else
    let* st := attempt (lift_sum (im_stat (mnt_fsname e))) in
    match st with
    | inr _ => ret false
    | inl st =>
      match st_kind st with
      | Block =>
        if same_device t st then ret true
        else
          let* name := loop_get_backing_file (st_rdev st) bufsz in
          ret ((0 <? Z.of_nat (length name)) && bool_decide (name = device))
      | _ => ret (same_file t st)
      end
    end.

Fixpoint find_mount (device : list Z) (bufsz : Z) (t : identity) (entries : list mntent) : MW bool :=
  match entries with
  | [] => ret false
  | e :: entries =>
    let* found := entry_is device bufsz t e in
    if (found : bool) then ret true else find_mount device bufsz t entries
  end.

Definition check_mount (device : list Z) : MW bool :=
  let bufsz := path_buf_size im_pagesize in
  m_malloc bufsz ;;
  let* entries := lift_sum im_mtab in
  let* st := attempt (lift_sum (im_stat device)) in
  find_mount device bufsz (identity_of st) entries.
End Ismounted.

(** ** What it finds *)

(** What is observed of the world stays as it is, and a read is not longer
    than asked for. *)
Class MountsQuiet {W T : Type} {A : Alloc W} (MO : MountsOs W) (obs : W -> T) : Prop := {
  mq_pagesize : im_pagesize <> 1;
  mq_alloc : forall n w, obs (malloc n w).2 = obs w;
  mq_mtab : forall w, obs (im_mtab w).2 = obs w;
  mq_stat : forall path w, obs (im_stat path w).2 = obs w;
  mq_openat : forall dir path w, obs (im_openat dir path w).2 = obs w;
  mq_read : forall fd n w, obs (im_read fd n w).2 = obs w /\ forall bs, (im_read fd n w).1 = inl bs -> Z.of_nat (length bs) <= n;
  mq_close : forall fd w, obs (im_close fd w) = obs w;
}.

(** The table, what [stat] answers, and the contents of
    [loop/backing_file] of the device with a number. *)
Record mount_view := mk_mview {
  mv_table : list mntent; mv_stat : list Z -> option stat_answer; mv_backing : Z -> option (list Z);
}.

Definition dev_dir `{MO : MountsOs W} (dev : Z) : list Z :=
  codes "/sys/dev/block/" ++ print_cno (im_major dev) ++ [58] ++ print_cno (im_minor dev).

(** Every answer is that of the view; [dirs] and [files] are what the
    descriptors stand for. *)
Class MountsLaws {W : Type} {A : Alloc W} (MO : MountsOs W) (view : W -> mount_view) (dirs files : W -> Z -> option Z) : Prop := {
  mt_quiet : MountsQuiet MO view;
  mt_mtab : forall w l, (im_mtab w).1 = inl l -> l = mv_table (view w);
  mt_stat : forall path w, match (im_stat path w).1 with
    | inl st => mv_stat (view w) path = Some st
    | inr _ => mv_stat (view w) path = None
    end;
  mt_dir : forall dev w fd w', im_openat None (dev_dir dev) w = (inl fd, w') -> dirs w' fd = Some dev;
  mt_file : forall d dev w, dirs w d = Some dev -> match im_openat (Some d) (codes "loop/backing_file") w with
    | (inl fd, w') => files w' fd = Some dev /\ is_Some (mv_backing (view w) dev)
    | (inr e, _) => e = ENOENT -> mv_backing (view w) dev = None
    end;
  mt_read : forall fd dev n w bs, files w fd = Some dev -> (im_read fd n w).1 = inl bs ->
    exists contents, mv_backing (view w) dev = Some contents /\ bs = take (Z.to_nat n) contents;
}.
#[export] Existing Instance mt_quiet.

(** The entry of the table belongs to the device. *)
Definition belongs (bufsz : Z) (v : mount_view) (device : list Z) (e : mntent) : Prop :=
  char_at (mnt_fsname e) = 47 /\
  (device = mnt_fsname e \/
   exists st, mv_stat v (mnt_fsname e) = Some st /\
     match st_kind st with
     | Block =>
       (exists d, mv_stat v device = Some d /\ st_kind d = Block /\ st_rdev d = st_rdev st /\ st_rdev st <> 0) \/
       (exists contents, mv_backing v (st_rdev st) = Some contents /\ device <> [] /\
          line_of_file (take (Z.to_nat (bufsz - 1)) contents) = device)
     | _ => exists d, mv_stat v device = Some d /\ st_kind d <> Block /\ st_dev d = st_dev st /\ st_ino d = st_ino st /\ st_dev st <> 0
     end).

Lemma dev_dir_short `{MO : MountsOs W} dev : Z.of_nat (length (dev_dir dev)) < SYSFS_LOOP_DIR_PATH_BUFSZ.
Proof.
  unfold dev_dir, SYSFS_LOOP_DIR_PATH_BUFSZ. rewrite !length_app. change (length (codes "/sys/dev/block/")) with 15%nat. cbn [length].
  pose proof (print_cno_length (im_major dev)). pose proof (print_cno_length (im_minor dev)). lia.
Qed.

Section Quiet.
Context {W T : Type} {A : Alloc W} {MO : MountsOs W} (obs : W -> T) {MQ : MountsQuiet MO obs}.

(** The computation ends, and what is observed stays. *)
Abbreviation quiet m := (forall w, wp m (fun _ w' => obs w' = obs w) (fun _ w' => obs w' = obs w) w).

Lemma quiet_bind {B C} (m : M W B) (k : B -> M W C) : quiet m -> (forall b, quiet (k b)) -> quiet (bind m k).
Proof using. clear. intros Hm Hk w. eapply wp_seq; [apply Hm| |done]. intros b w1 H1. rewrite <- H1. apply Hk. Qed.

Lemma quiet_try {B C} (m : M W B) (k : B + Z -> M W C) : quiet m -> (forall b, quiet (k b)) -> quiet (bind (attempt m) k).
Proof using. clear. intros Hm Hk. apply quiet_bind; [|done]. intros w. apply wp_attempt. eapply wp_mono; [apply Hm|done..]. Qed.

Lemma quiet_ret {B} (b : B) : quiet (ret b).
Proof using. by intros w. Qed.

Lemma quiet_fail {B} e : quiet (fail e : M W B).
Proof using. by intros w. Qed.

Lemma quiet_lift {B} (f : W -> (B + Z) * W) : (forall w, obs (f w).2 = obs w) -> quiet (lift_sum f).
Proof using. clear. intros Hf w. unfold wp, lift_sum. specialize (Hf w). by destruct (f w) as [[] w1]. Qed.

Lemma quiet_close fd : quiet (im_do (im_close fd)).
Proof using MQ. intros w. apply mq_close. Qed.

Lemma loop_file_quiet dev bufsz : 1 < bufsz -> quiet (loop_get_backing_file dev bufsz).
Proof using MQ.
  intros Hb. unfold loop_get_backing_file. case_if; [lia|]. case_if; [apply quiet_fail|].
  apply quiet_bind; [apply quiet_lift; intros; apply mq_openat|]. intros d. apply quiet_try; [apply quiet_lift; intros; apply mq_openat|].
  intros [fd|e].
  - intros w. eapply (wp_seq _ _ (fun r w' => obs w' = obs w /\ forall bs, r = inl bs -> Z.of_nat (length bs) <= bufsz - 1) (fun _ w' => obs w' = obs w)); [| |done].
    { apply wp_attempt. unfold wp, lift_sum. destruct (mq_read (obs := obs) fd (bufsz - 1) w) as [H1 H2]. destruct (im_read fd (bufsz - 1) w) as [[bs|e] w1]; [|done].
      split; [done|]. intros ? [= <-]. by apply H2. }
    intros r w1 [<- Hr]. revert w1. apply quiet_bind; [destruct r as [bs|]; [case_if; [specialize (Hr bs eq_refl); lia|]|]; apply quiet_ret|].
    intros []. apply quiet_bind; [apply quiet_close|]. intros []. apply quiet_bind; [apply quiet_close|]. intros []. destruct r; [apply quiet_ret|apply quiet_fail].
  - apply quiet_bind; [apply quiet_close|]. intros []. case_if; [apply quiet_ret|apply quiet_fail].
Qed.

Lemma path_buf_size_range pagesize : pagesize <> 1 -> 1 < path_buf_size pagesize.
Proof using. clear. unfold path_buf_size, PATH_MAX. intros H. destruct (Z.ltb_spec 0 pagesize), (Z.ltb_spec pagesize (4096 + 1)); cbn [andb]; lia. Qed.

Lemma entry_is_quiet device bufsz t e : 1 < bufsz -> quiet (entry_is device bufsz t e).
Proof using MQ.
  intros Hb. unfold entry_is. case_if; [apply quiet_ret|]. case_if; [apply quiet_ret|]. apply quiet_try; [apply quiet_lift; intros; apply mq_stat|].
  intros [st|]; [|apply quiet_ret]. destruct (st_kind st); [|apply quiet_ret..]. case_if; [apply quiet_ret|].
  apply quiet_bind; [by apply loop_file_quiet|]. intros name. apply quiet_ret.
Qed.

Lemma find_mount_quiet device bufsz t l : 1 < bufsz -> quiet (find_mount device bufsz t l).
Proof using MQ.
  intros Hb. induction l as [|e l IH]; cbn [find_mount]; [apply quiet_ret|]. apply quiet_bind; [by apply entry_is_quiet|]. intros []; [apply quiet_ret|done].
Qed.

Lemma check_mount_quiet device : quiet (check_mount device).
Proof using MQ.
  unfold check_mount. pose proof (path_buf_size_range im_pagesize mq_pagesize) as Hb. apply quiet_bind.
  { intros w. apply wp_malloc. intros b w' Hm. pose proof (mq_alloc (obs := obs) (path_buf_size im_pagesize) w) as Hq. rewrite Hm in Hq. by destruct b. }
  intros []. apply quiet_bind; [apply quiet_lift; intros; apply mq_mtab|]. intros l. apply quiet_try; [apply quiet_lift; intros; apply mq_stat|].
  intros st. by apply find_mount_quiet.
Qed.
End Quiet.

Section Finds.
Context {W : Type} {A : Alloc W} {MO : MountsOs W} (view : W -> mount_view) (dirs files : W -> Z -> option Z) {ML : MountsLaws MO view dirs files}.
Context (device : list Z).

Lemma loop_file_spec dev bufsz w : 1 < bufsz ->
  wp (loop_get_backing_file dev bufsz)
    (fun name w' => view w' = view w /\ forall d, d <> [] ->
       (name = d <-> exists contents, mv_backing (view w) dev = Some contents /\ line_of_file (take (Z.to_nat (bufsz - 1)) contents) = d))
    (fun _ w' => view w' = view w) w.
Proof using ML.
  intros Hb. unfold loop_get_backing_file. destruct (Z.leb_spec bufsz 1); [lia|]. fold (dev_dir dev). pose proof (dev_dir_short dev) as Hd.
  destruct (Z.leb_spec SYSFS_LOOP_DIR_PATH_BUFSZ (Z.of_nat (length (dev_dir dev)))); [lia|].
  wp_step. unfold wp at 1, lift_sum. pose proof (mq_openat (obs := view) None (dev_dir dev) w) as V1. pose proof (mt_dir (view := view) (dirs := dirs) (files := files) dev w) as D1.
  destruct (im_openat None (dev_dir dev) w) as [[d|e] w1]; [|done]. specialize (D1 d w1 eq_refl). cbn in V1.
  wp_step. wp_step. unfold wp at 1, lift_sum. pose proof (mq_openat (obs := view) (Some d) (codes "loop/backing_file") w1) as V2.
  pose proof (mt_file (view := view) (files := files) d dev w1 D1) as D2. destruct (im_openat (Some d) _ w1) as [[fd|e] w2]; cbn in V2.
  - destruct D2 as [D2 _]. wp_step. wp_step. unfold wp at 1, lift_sum. pose proof (mq_read (obs := view) fd (bufsz - 1) w2) as [V3 V4].
    pose proof (mt_read (view := view) (dirs := dirs) fd dev (bufsz - 1) w2) as D3. destruct (im_read fd (bufsz - 1) w2) as [[bs|e] w3]; cbn [fst snd] in *.
    + wp_step. specialize (V4 bs eq_refl). destruct (D3 bs D2 eq_refl) as (c & D4 & ->). case_if; [lia|]. wp_step.
      do 2 (wp_step; eapply wp_mono; [apply (quiet_close view)| |intros; congruence]; intros [] ? ?). wp_step. split; [congruence|]. intros d0 _.
      rewrite <- V1, <- V2, D4. split; [intros <-; by exists c|by intros (? & [= <-] & ?)].
    + wp_step. wp_step. do 2 (wp_step; eapply wp_mono; [apply (quiet_close view)| |intros; congruence]; intros [] ? ?). wp_step. congruence.
  - wp_step. eapply wp_mono; [apply (quiet_close view)| |intros; congruence]. intros [] w3 V3. destruct (Z.eqb_spec e ENOENT) as [He|]; [|wp_step; congruence].
    wp_step. split; [congruence|]. intros d0 Hne. rewrite <- V1, (D2 He). split; [congruence|by intros (? & ? & _)].
Qed.

(** The answer of [stat] for the device is that of the view. *)
Definition answered (v : mount_view) (r : stat_answer + Z) : Prop :=
  match r with inl d => mv_stat v device = Some d | inr _ => mv_stat v device = None end.

Lemma same_device_iff v r st : answered v r ->
  same_device (identity_of r) st = true <-> exists d, mv_stat v device = Some d /\ st_kind d = Block /\ st_rdev d = st_rdev st /\ st_rdev st <> 0.
Proof using.
  clear ML. unfold same_device, answered. intros Hr. rewrite andb_true_iff, negb_true_iff, Z.eqb_eq, Z.eqb_neq. destruct r as [d|]; cbn [identity_of]; rewrite Hr.
  - destruct (st_kind d) eqn:Hk; cbn [file_rdev]; (split; [intros [? ?]; exists d; split_and!; congruence|intros (? & [= <-] & ? & ? & ?); split; congruence]).
  - split; [by intros []|by intros (? & ? & _)].
Qed.

Lemma same_file_iff v r st : answered v r ->
  same_file (identity_of r) st = true <->
  exists d, mv_stat v device = Some d /\ st_kind d <> Block /\ st_dev d = st_dev st /\ st_ino d = st_ino st /\ st_dev st <> 0.
Proof using.
  clear ML. unfold same_file, answered. intros Hr. rewrite !andb_true_iff, negb_true_iff, !Z.eqb_eq, Z.eqb_neq. destruct r as [d|]; cbn [identity_of]; rewrite Hr.
  - destruct (st_kind d) eqn:Hk; cbn [file_dev file_ino];
      (split; [intros (? & ? & ?); exists d; rewrite Hk; split_and!; congruence|intros (? & [= <-] & ? & ? & ? & ?); split_and!; congruence]).
  - split; [by intros []|by intros (? & ? & _)].
Qed.

Lemma entry_is_spec bufsz r e w : 1 < bufsz -> answered (view w) r ->
  wp (entry_is device bufsz (identity_of r) e) (fun b w' => view w' = view w /\ (b = true <-> belongs bufsz (view w) device e)) (fun _ w' => view w' = view w) w.
Proof using ML.
  intros Hb Hr. unfold entry_is, belongs. destruct (Z.eqb_spec (char_at (mnt_fsname e)) 47) as [Hc|Hc]; cbn [negb]; [|wp_step; split; [done|]; by split; [|intros []]].
  case_bool_decide as Hname; [wp_step; split; [done|]; split; [|done]; intros _; split; [done|by left]|].
  wp_step. wp_step. unfold wp at 1, lift_sum. pose proof (mq_stat (obs := view) (mnt_fsname e) w) as V1.
  pose proof (mt_stat (view := view) (dirs := dirs) (files := files) (mnt_fsname e) w) as D1. destruct (im_stat (mnt_fsname e) w) as [[st|er] w1]; cbn in V1, D1.
  2: { wp_step. split; [done|]. split; [done|]. intros (_ & [?|(st & ? & _)]); congruence. }
  assert (Hplain : st_kind st <> Block -> wp (ret (same_file (identity_of r) st)) (fun b w' => view w' = view w /\ (b = true <->
      char_at (mnt_fsname e) = 47 /\ (device = mnt_fsname e \/ exists st0, mv_stat (view w) (mnt_fsname e) = Some st0 /\
        exists d, mv_stat (view w) device = Some d /\ st_kind d <> Block /\ st_dev d = st_dev st0 /\ st_ino d = st_ino st0 /\ st_dev st0 <> 0)))
      (fun _ w' => view w' = view w) w1).
  { intros _. wp_step. split; [done|]. rewrite (same_file_iff (view w) r st Hr). split; [intros H; split; [done|]; right; by exists st|].
    intros (_ & [?|(st0 & H0 & H1)]); [done|]. rewrite D1 in H0. by injection H0 as <-. }
  destruct (st_kind st) eqn:Hk.
  1: { destruct (same_device (identity_of r) st) eqn:Hs.
    + wp_step. split; [done|]. split; [intros _|done]. split; [done|]. right. exists st. rewrite Hk. split; [done|]. left. by eapply same_device_iff.
    + wp_step. rewrite <- V1. eapply wp_mono; [by apply loop_file_spec| |done]. intros name w2 [V2 Hn]. wp_step. split; [done|].
      rewrite andb_true_iff, Z.ltb_lt, bool_decide_eq_true. split.
      * intros [Hlen ->]. split; [done|]. right. exists st. rewrite Hk, V1. split; [done|]. right.
        assert (Hne : device <> []) by (intros ->; cbn in Hlen; lia). destruct (proj1 (Hn _ Hne) eq_refl) as (c & H1 & H2). rewrite V1 in H1. by exists c.
      * intros (_ & [?|(st0 & H0 & H1)]); [done|]. rewrite V1, D1 in H0. injection H0 as <-. rewrite Hk, V1 in H1. destruct H1 as [H1|(c & H1 & H2 & H3)].
        { apply (same_device_iff _ r) in H1; [congruence|done]. }
        assert (name = device) as -> by (apply Hn; [done|]; exists c; by rewrite V1). split; [destruct device; [done|cbn; lia]|done]. }
  all: eapply wp_mono; [by apply Hplain| |done]; intros b w2 [V2 Hi]; (split; [done|]); rewrite Hi; split; (intros (_ & [?|(st0 & H0 & H1)]); split; [done|auto|done|]);
      right; exists st0; (split; [done|]); rewrite D1 in H0; injection H0 as <-; by rewrite Hk in *.
Qed.

Lemma find_mount_spec bufsz r l : 1 < bufsz -> forall w, answered (view w) r ->
  wp (find_mount device bufsz (identity_of r) l) (fun b w' => view w' = view w /\ (b = true <-> exists e, e ∈ l /\ belongs bufsz (view w) device e))
    (fun _ w' => view w' = view w) w.
Proof using ML.
  intros Hb. induction l as [|e l IH]; intros w Hr; cbn [find_mount].
  { wp_step. split; [done|]. split; [done|]. by intros (e & ?%elem_of_nil & _). }
  wp_step. eapply wp_mono; [by apply entry_is_spec| |done]. intros b w1 [V1 H1]. destruct b.
  - wp_step. split; [done|]. split; [intros _|done]. exists e. split; [apply list_elem_of_here|by apply H1].
  - eapply wp_mono; [apply IH; by rewrite V1| |intros; congruence]. intros b w2 [V2 H2]. split; [congruence|]. rewrite H2, V1. split.
    + intros (e0 & He & Hbe). exists e0. split; [by apply list_elem_of_further|done].
    + intros (e0 & [->|He]%elem_of_cons & Hbe); [by apply H1 in Hbe|]. by exists e0.
Qed.

(** [check_mount] answers whether an entry of the mount table belongs to the
    device: the one with its name, its number, the file that backs it or the
    same file; other entries, and those that [stat] does not know, do not
    count. *)
Theorem check_mount_finds w :
  wp (check_mount device)
    (fun b w' => view w' = view w /\ (b = true <-> exists e, e ∈ mv_table (view w) /\ belongs (path_buf_size im_pagesize) (view w) device e))
    (fun _ w' => view w' = view w) w.
Proof using ML.
  unfold check_mount. pose proof (path_buf_size_range im_pagesize mq_pagesize) as Hb. set (bufsz := path_buf_size im_pagesize) in *.
  wp_step. apply wp_malloc. intros b w1 Hm. pose proof (mq_alloc (obs := view) bufsz w) as V1. rewrite Hm in V1. cbn in V1. destruct b; [|done].
  wp_step. unfold wp at 1, lift_sum. pose proof (mq_mtab (obs := view) w1) as V2. pose proof (mt_mtab (view := view) (dirs := dirs) (files := files) w1) as D2.
  destruct (im_mtab w1) as [[l|e] w2]; cbn in V2, D2; [|congruence]. specialize (D2 l eq_refl). subst l.
  wp_step. wp_step. unfold wp at 1, lift_sum. pose proof (mq_stat (obs := view) device w2) as V3.
  pose proof (mt_stat (view := view) (dirs := dirs) (files := files) device w2) as D3.
  assert (Hr : answered (view (im_stat device w2).2) (im_stat device w2).1) by (rewrite V3; exact D3).
  destruct (im_stat device w2) as [r w3]. cbn [fst snd] in *.
  assert (Hgo : wp (find_mount device bufsz (identity_of r) (mv_table (view w1)))
    (fun b w' => view w' = view w /\ (b = true <-> exists e, e ∈ mv_table (view w) /\ belongs bufsz (view w) device e)) (fun _ w' => view w' = view w) w3).
  { assert (V : view w3 = view w) by congruence. rewrite V1. rewrite <- V. by apply find_mount_spec. }
  by destruct r.
Qed.
End Finds.
