(* ===== verification/Feature.v ===== *)
(** * Feature sets: lib/feature.c

    A file system carries three sets of features, of 64 bits each.  The tools
    name a feature by a word, either its proper name or ["FEATURE_"] with the
    letter of its set and the number of its bit, and change the sets by a list
    of such words.  The array of the three sets is the state of the monad;
    [malloc] of the copy of the text may fail. *)

From Stdlib Require Import String.
From S2P Require Import Prelude Parser.

(** ** Characters (the C locale) *)

Definition tolower (c : Z) : Z := if (65 <=? c) && (c <=? 90) then c + 32 else c.
Definition toupper (c : Z) : Z := if (97 <=? c) && (c <=? 122) then c - 32 else c.
Definition isdigit (c : Z) : bool := (48 <=? c) && (c <=? 57).

(** [strcasecmp(a, b) == 0] and [strncasecmp(a, b, n) == 0]. *)
Definition strcaseeq (a b : list Z) : bool := bool_decide (tolower <$> a = tolower <$> b).
Definition strncaseeq (a b : list Z) (n : nat) : bool := strcaseeq (take n a) (take n b).

(** ** The table of named features *)

Definition NILFS_FEATURE_TYPE_COMPAT : Z := 0.
Definition NILFS_FEATURE_TYPE_COMPAT_RO : Z := 1.
Definition NILFS_FEATURE_TYPE_INCOMPAT : Z := 2.
Definition NILFS_MAX_FEATURE_TYPES : nat := 3.
Definition NILFS_FEATURE_TYPE_MASK : Z := 3.
Definition NILFS_FEATURE_TYPE_NEGATE_FLAG : Z := 0x80.
Definition NILFS_FEATURE_COMPAT_RO_BLOCK_COUNT : Z := 0x1.

Record nilfs_feature := mk_feature { ft_type : Z; ft_mask : Z; ft_name : list Z }.

Definition features : list nilfs_feature :=
  [mk_feature NILFS_FEATURE_TYPE_COMPAT_RO NILFS_FEATURE_COMPAT_RO_BLOCK_COUNT (codes "block_count")].

(** The number of times a mask can be shifted right before it is 0. *)
Fixpoint shift_count (fuel : nat) (mask i : Z) : Z :=
  match fuel with
  | O => i
  | Datatypes.S fuel' =>
    let mask := Z.shiftr mask 1 in
    if mask =? 0 then i else shift_count fuel' mask (i + 1)
  end.

Definition nilfs_feature2string (compat_type mask : Z) : list Z :=
  match List.find (fun f => (ft_type f =? compat_type) && (ft_mask f =? mask)) features with
  | Some f => ft_name f
  | None =>
    let tchar := if compat_type =? NILFS_FEATURE_TYPE_COMPAT then 67
                 else if compat_type =? NILFS_FEATURE_TYPE_COMPAT_RO then 82
                 else if compat_type =? NILFS_FEATURE_TYPE_INCOMPAT then 73
                 else 63 in
    take 31 (codes "FEATURE_" ++ tchar :: print_cno (shift_count 64 mask 0))
  end.

(** The type and the mask, or failure. *)
Definition nilfs_string2feature (str : list Z) : option (Z * Z) :=
  match List.find (fun f => strcaseeq str (ft_name f)) features with
  | Some f => Some (ft_type f, ft_mask f)
  | None =>
    if negb (strncaseeq str (codes "FEATURE_") 8) || (char_at (drop 8 str) =? 0) then None
    else
      let tchar := toupper (char_at (drop 8 str)) in
      match (if tchar =? 67 then Some NILFS_FEATURE_TYPE_COMPAT
             else if tchar =? 82 then Some NILFS_FEATURE_TYPE_COMPAT_RO
             else if tchar =? 73 then Some NILFS_FEATURE_TYPE_INCOMPAT
             else None) with
      | None => None
      | Some type =>
        if negb (isdigit (char_at (drop 9 str))) then None
        else
          let '(num, endptr) := strtoull (drop 9 str) 10 in
          if (64 <=? num) || negb (char_at endptr =? 0) then None
          else Some (type, Z.shiftl 1 num)
      end
  end.

(** ** Editing *)

Definition skip_over_blanks (cp : list Z) : list Z := skip_spaces cp.

(** The characters of the word, and the pointer behind it. *)
Fixpoint skip_over_word (cp : list Z) : list Z * list Z :=
  match cp with
  | c :: cp' =>
    if negb (isspace c) && negb (c =? 44)
    then let '(w, next) := skip_over_word cp' in (c :: w, next)
    else ([], cp)
  | [] => ([], [])
  end.

(** 0, or -1 with what is stored in [bad_type] and [bad_mask]. *)
Inductive edit_result := EditOk | EditBad (bad_type bad_mask : Z).

Section Edit.
Context (ok_array clear_ok_array : option (list Z)).

(** [array && !(array[type] & mask)]: the change is not allowed. *)
Definition forbidden (array : option (list Z)) (type mask : Z) : M (list Z) bool :=
  match array with
  | None => ret false
  | Some l => let* a := of_option (l !! Z.to_nat type) in ret (Z.land a mask =? 0)
  end.

Definition update_set (type : Z) (f : Z -> Z) : M (list Z) unit :=
  let* arr := get_state in
  let* a := of_option (arr !! Z.to_nat type) in
  put_state (<[Z.to_nat type := f a]> arr).

Definition clear_all : M (list Z) unit :=
  update_set 0 (fun _ => 0) ;; update_set 1 (fun _ => 0) ;; update_set 2 (fun _ => 0).

Fixpoint edit_loop (fuel : nat) (cp : list Z) : M (list Z) edit_result :=
  match fuel with
  | O => out_of_fuel
  | Datatypes.S fuel' =>
    match cp with
    | [] => ret EditOk
    | _ =>
      let '(word, next) := skip_over_word (skip_over_blanks cp) in
      let continue := match next with [] => ret EditOk | _ :: next => edit_loop fuel' next end in
      if strcaseeq word (codes "none") then clear_all ;; continue
      else
        let '(neg, word) := match word with 94 :: w => (true, w) | _ => (false, word) end in
        match nilfs_string2feature word with
        | None => ret (EditBad 0 0)
        | Some (type, mask) =>
          if neg : bool then
            let* bad := forbidden clear_ok_array type mask in
            if bad : bool then ret (EditBad (Z.lor type NILFS_FEATURE_TYPE_NEGATE_FLAG) mask)
            else update_set type (fun a => Z.land a (Z.lnot mask)) ;; continue
          else
            let* bad := forbidden ok_array type mask in
            if bad : bool then ret (EditBad type mask)
            else update_set type (fun a => Z.lor a mask) ;; continue
        end
    end
  end.
End Edit.

Definition nilfs_edit_feature (mem : bool) (str : list Z) (ok_array clear_ok_array : option (list Z))
  : M (list Z) edit_result :=
  let clear_ok_array := match clear_ok_array with None => ok_array | _ => clear_ok_array end in
  if negb mem then ret (EditBad 0 0)
  else edit_loop ok_array clear_ok_array (Datatypes.S (length str)) str.

(** ** Names *)

Definition types : list Z := [0; 1; 2].

(** The properties of the names, decided for all 192 features. *)
Definition name_ok (tn : Z * nat) : bool :=
  let '(t, n) := tn in
  let w := nilfs_feature2string t (2 ^ Z.of_nat n) in
  bool_decide (nilfs_string2feature w = Some (t, 2 ^ Z.of_nat n)) &&
  forallb (fun c => negb (isspace c) && negb (c =? 44)) w &&
  negb (strcaseeq w (codes "none")) && negb (strcaseeq (94 :: w) (codes "none")) &&
  match w with c :: _ => negb (c =? 94) | [] => false end.

Lemma names_ok : forallb name_ok (list_prod types (seq 0 64)) = true.
Proof. vm_compute. reflexivity. Qed.

Lemma name_ok_true t n : t ∈ types -> (n < 64)%nat -> name_ok (t, n) = true.
Proof.
  intros Ht Hn. pose proof names_ok as H. rewrite forallb_forall in H.
  apply H, in_prod; [by apply list_elem_of_In|]. apply in_seq. lia.
Qed.

(** What the parser accepts is a single bit of one of the three sets. *)
Lemma string2feature_bit s t m : nilfs_string2feature s = Some (t, m) ->
  t ∈ types /\ exists n, 0 <= n < 64 /\ m = 2 ^ n.
Proof.
  unfold nilfs_string2feature, types. destruct (List.find _ features) as [f|] eqn:Hf.
  { apply find_some in Hf as [Hin _]. destruct Hin as [<-|[]]. intros [= <- <-].
    split; [set_solver|]. exists 0. split; [lia|done]. }
  destruct (negb _ || _); [done|]. destruct (if _ =? 67 then _ else _) as [type|] eqn:Ht; [|done].
  destruct (negb _); [done|]. pose proof (strtoull_nonneg (drop 9 s) 10 ltac:(lia)) as Hn.
  destruct (strtoull (drop 9 s) 10) as [num endptr]; simpl in Hn.
  destruct (Z.leb_spec 64 num); [done|]. destruct (char_at endptr =? 0); [|done].
  intros [= <- <-]. split.
  - repeat (case_if_in Ht; [injection Ht as <-; set_solver|]). done.
  - exists num. split; [lia|]. by rewrite Z.shiftl_1_l.
Qed.

(** ** The meaning of a list of words *)

Inductive edit := EdNone | EdSet (type : Z) (bit : nat) | EdClear (type : Z) (bit : nat).

Definition edit_wf (e : edit) : Prop :=
  match e with EdNone => True | EdSet t n | EdClear t n => t ∈ types /\ (n < 64)%nat end.

Definition spell (e : edit) : list Z :=
  match e with
  | EdNone => codes "none"
  | EdSet t n => nilfs_feature2string t (2 ^ Z.of_nat n)
  | EdClear t n => 94 :: nilfs_feature2string t (2 ^ Z.of_nat n)
  end.

(** A text with the words of [es]: blanks may come before each word, which a
    comma or a blank ends. *)
Inductive spells : list edit -> list Z -> Prop :=
| spells_nil : spells [] []
| spells_last b e : edit_wf e -> Forall (fun c => isspace c = true) b -> spells [e] (b ++ spell e)
| spells_cons b e c es s :
    edit_wf e -> Forall (fun c => isspace c = true) b -> isspace c || (c =? 44) = true ->
    spells es s -> spells (e :: es) (b ++ spell e ++ c :: s).

(** Whether bit [n] of set [t] is in an array of sets. *)
Definition has (l : list Z) (t : Z) (n : nat) : bool :=
  Z.testbit (l !!! Z.to_nat t) (Z.of_nat n).

Definition may (array : option (list Z)) (t : Z) (n : nat) : bool :=
  match array with None => true | Some l => has l t n end.

(** The edits one after the other, up to the first that is not allowed. *)
Fixpoint run_edits (ok clear_ok : option (list Z)) (es : list edit) (arr : list Z)
  : edit_result * list Z :=
  match es with
  | [] => (EditOk, arr)
  | EdNone :: es => run_edits ok clear_ok es [0; 0; 0]
  | EdSet t n :: es =>
    if may ok t n
    then run_edits ok clear_ok es (<[Z.to_nat t := Z.setbit (arr !!! Z.to_nat t) (Z.of_nat n)]> arr)
    else (EditBad t (2 ^ Z.of_nat n), arr)
  | EdClear t n :: es =>
    if may clear_ok t n
    then run_edits ok clear_ok es (<[Z.to_nat t := Z.clearbit (arr !!! Z.to_nat t) (Z.of_nat n)]> arr)
    else (EditBad (Z.lor t NILFS_FEATURE_TYPE_NEGATE_FLAG) (2 ^ Z.of_nat n), arr)
  end.

(** An array of three sets. *)
Definition sets (l : list Z) : Prop := length l = NILFS_MAX_FEATURE_TYPES.
Definition opt_sets (o : option (list Z)) : Prop := match o with None => True | Some l => sets l end.

Lemma sets_lookup l t : sets l -> t ∈ types -> l !! Z.to_nat t = Some (l !!! Z.to_nat t).
Proof.
  intros Hl Ht. apply list_lookup_lookup_total_lt. unfold sets, NILFS_MAX_FEATURE_TYPES in Hl.
  unfold types in Ht. set_unfold. lia.
Qed.

Lemma land_bit a n : 0 <= n -> (Z.land a (2 ^ n) =? 0) = negb (Z.testbit a n).
Proof.
  intros Hn. rewrite <- (Z.mul_1_l (2 ^ n)), <- Z.shiftl_mul_pow2 by done.
  destruct (Z.testbit a n) eqn:Hb; simpl.
  - apply Z.eqb_neq. intros H0. apply (f_equal (fun x => Z.testbit x n)) in H0.
    rewrite Z.land_spec, Z.shiftl_spec, Z.sub_diag, Z.bits_0, Hb in H0 by done. done.
  - apply Z.eqb_eq, Z.bits_inj'. intros i Hi. rewrite Z.land_spec, Z.shiftl_1_l, testbit_pow2, Z.bits_0 by done.
    destruct (Z.eqb_spec n i) as [->|]; [by rewrite Hb|by rewrite andb_false_r].
Qed.

Section Steps.
Context (ok clear_ok : option (list Z)).
Hypothesis Hok : opt_sets ok.
Hypothesis Hclear : opt_sets clear_ok.

Lemma forbidden_run array t n arr : opt_sets array -> t ∈ types ->
  forbidden array t (2 ^ Z.of_nat n) arr = (Ok (negb (may array t n)), arr).
Proof.
  intros Ha Ht. unfold forbidden, may, has. destruct array as [l|]; [|done].
  rewrite (sets_lookup l t Ha Ht), bind_some. unfold ret. by rewrite land_bit by lia.
Qed.

Lemma update_set_run t f arr : sets arr -> t ∈ types ->
  update_set t f arr = (Ok tt, <[Z.to_nat t := f (arr !!! Z.to_nat t)]> arr).
Proof. intros Ha Ht. unfold update_set, bind, get_state. by rewrite (sets_lookup arr t Ha Ht). Qed.

Lemma clear_all_run arr : sets arr -> clear_all arr = (Ok tt, [0; 0; 0]).
Proof. unfold sets. intros Hl. by destruct arr as [|? [|? [|? []]]]. Qed.

(** One round of the loop on a word, whatever follows it. *)
Definition word_step (word : list Z) (continue : M (list Z) edit_result) : M (list Z) edit_result :=
  if strcaseeq word (codes "none") then clear_all ;; continue
  else
    let '(neg, word) := match word with 94 :: w => (true, w) | _ => (false, word) end in
    match nilfs_string2feature word with
    | None => ret (EditBad 0 0)
    | Some (type, mask) =>
      if neg : bool then
        let* bad := forbidden clear_ok type mask in
        if bad : bool then ret (EditBad (Z.lor type NILFS_FEATURE_TYPE_NEGATE_FLAG) mask)
        else update_set type (fun a => Z.land a (Z.lnot mask)) ;; continue
      else
        let* bad := forbidden ok type mask in
        if bad : bool then ret (EditBad type mask)
        else update_set type (fun a => Z.lor a mask) ;; continue
    end.

(** What an edit does before the next one, and its result when it is refused. *)
Definition edit_step (e : edit) (arr : list Z) : edit_result + list Z :=
  match e with
  | EdNone => inr [0; 0; 0]
  | EdSet t n =>
    if may ok t n then inr (<[Z.to_nat t := Z.setbit (arr !!! Z.to_nat t) (Z.of_nat n)]> arr)
    else inl (EditBad t (2 ^ Z.of_nat n))
  | EdClear t n =>
    if may clear_ok t n then inr (<[Z.to_nat t := Z.clearbit (arr !!! Z.to_nat t) (Z.of_nat n)]> arr)
    else inl (EditBad (Z.lor t NILFS_FEATURE_TYPE_NEGATE_FLAG) (2 ^ Z.of_nat n))
  end.

Lemma run_edits_cons e es arr :
  run_edits ok clear_ok (e :: es) arr =
    match edit_step e arr with inl r => (r, arr) | inr arr' => run_edits ok clear_ok es arr' end.
Proof. destruct e; simpl; [done|by case_if..]. Qed.

Lemma edit_step_sets e arr arr' : sets arr -> edit_step e arr = inr arr' -> sets arr'.
Proof.
  unfold sets, NILFS_MAX_FEATURE_TYPES. intros Ha. destruct e; simpl.
  - by intros [= <-].
  - case_if; [|done]. intros [= <-]. by rewrite length_insert.
  - case_if; [|done]. intros [= <-]. by rewrite length_insert.
Qed.

Lemma name_facts t n : t ∈ types -> (n < 64)%nat ->
  let w := nilfs_feature2string t (2 ^ Z.of_nat n) in
  nilfs_string2feature w = Some (t, 2 ^ Z.of_nat n) /\
  Forall (fun c => negb (isspace c) && negb (c =? 44) = true) w /\
  strcaseeq w (codes "none") = false /\ strcaseeq (94 :: w) (codes "none") = false /\
  exists c w', w = c :: w' /\ c <> 94.
Proof.
  intros Ht Hn w. pose proof (name_ok_true t n Ht Hn) as H. unfold name_ok in H. fold w in H.
  apply andb_true_iff in H as [[[[H1 H2]%andb_true_iff H3]%andb_true_iff H4]%andb_true_iff H5].
  split_and!.
  - by apply bool_decide_eq_true in H1.
  - apply Forall_forall. intros c Hc. rewrite forallb_forall in H2. by apply H2, list_elem_of_In.
  - by apply negb_true_iff.
  - by apply negb_true_iff.
  - destruct w as [|c w']; [done|]. exists c, w'. split; [done|]. apply negb_true_iff in H5. lia.
Qed.

Lemma neg_of_word (c : Z) w : c <> 94 ->
  match c :: w with 94 :: w' => (true, w') | _ => (false, c :: w) end = (false, c :: w).
Proof. intros Hc. destruct c as [|c|c]; try done. by repeat (destruct c as [c|c|]; try done). Qed.

Lemma word_step_spell e k arr : edit_wf e -> sets arr ->
  word_step (spell e) k arr =
    match edit_step e arr with inl r => (Ok r, arr) | inr arr' => k arr' end.
Proof using Hok Hclear.
  intros He Ha. unfold word_step. destruct e as [|t n|t n]; cbn [spell].
  - change (strcaseeq (codes "none") (codes "none")) with true. cbv iota.
    rewrite (bind_ok _ _ _ _ _ (clear_all_run arr Ha)). done.
  - destruct He as [Ht Hn]. destruct (name_facts t n Ht Hn) as (H1 & _ & H3 & _ & c & w & Hw & Hc).
    rewrite H3. rewrite Hw in *. rewrite neg_of_word, H1 by done. cbv iota.
    rewrite (bind_ok _ _ _ _ _ (forbidden_run ok t n arr Hok Ht)). simpl.
    destruct (may ok t n); [|done]. simpl.
    rewrite (bind_ok _ _ _ _ _ (update_set_run t _ arr Ha Ht)). unfold Z.setbit. by rewrite Z.shiftl_1_l.
  - destruct He as [Ht Hn]. destruct (name_facts t n Ht Hn) as (H1 & _ & _ & H4 & _).
    rewrite H4, H1. cbv iota.
    rewrite (bind_ok _ _ _ _ _ (forbidden_run clear_ok t n arr Hclear Ht)). simpl.
    destruct (may clear_ok t n); [|done]. simpl.
    rewrite (bind_ok _ _ _ _ _ (update_set_run t _ arr Ha Ht)). unfold Z.clearbit.
    by rewrite Z.shiftl_1_l, Z.ldiff_land.
Qed.
End Steps.

(** ** The text of an edit is split into its words *)

Definition word_char (c : Z) : Prop := negb (isspace c) && negb (c =? 44) = true.

Lemma spell_chars e : edit_wf e -> Forall word_char (spell e) /\ spell e <> [].
Proof.
  destruct e as [|t n|t n]; cbn [spell edit_wf].
  - intros _. split; [|done]. vm_compute. repeat constructor.
  - intros [Ht Hn]. destruct (name_facts t n Ht Hn) as (_ & H & _ & _ & c & w & Hw & _).
    split; [done|]. by rewrite Hw.
  - intros [Ht Hn]. destruct (name_facts t n Ht Hn) as (_ & H & _). split; [|done].
    by constructor; [vm_compute|].
Qed.

Lemma skip_blanks_app b w s : Forall (fun c => isspace c = true) b ->
  Forall word_char w -> w <> [] -> skip_over_blanks (b ++ w ++ s) = w ++ s.
Proof.
  intros Hb Hw Hne. unfold skip_over_blanks. induction Hb as [|c b Hc _ IH]; simpl.
  - destruct w as [|c w]; [done|]. apply Forall_cons in Hw as [Hc _]. simpl.
    unfold word_char in Hc. by destruct (isspace c).
  - by rewrite Hc.
Qed.

(** The rest of a text that ends a word. *)
Definition ends_word (s : list Z) : Prop :=
  match s with [] => True | c :: _ => isspace c || (c =? 44) = true end.

Lemma skip_word_app w s : Forall word_char w -> ends_word s -> skip_over_word (w ++ s) = (w, s).
Proof.
  intros Hw Hs. induction Hw as [|c w Hc _ IH]; simpl.
  - destruct s as [|c s]; [done|]. cbn in *. destruct (isspace c), (c =? 44); done.
  - unfold word_char in Hc. by rewrite Hc, IH.
Qed.

Lemma skip_word_length s : (length (skip_over_word s).2 <= length s)%nat.
Proof.
  induction s as [|c s IH]; simpl; [lia|]. case_if; [|done].
  destruct (skip_over_word s) as [w n]. simpl in *. lia.
Qed.

Section Loop.
Context (ok clear_ok : option (list Z)).
Hypothesis Hok : opt_sets ok.
Hypothesis Hclear : opt_sets clear_ok.

Lemma edit_loop_step fuel cp : cp <> [] ->
  edit_loop ok clear_ok (Datatypes.S fuel) cp =
    let '(word, next) := skip_over_word (skip_over_blanks cp) in
    word_step ok clear_ok word
      (match next with [] => ret EditOk | _ :: next => edit_loop ok clear_ok fuel next end).
Proof. by destruct cp. Qed.

Lemma edit_loop_spells es s : spells es s -> forall fuel arr, (length s < fuel)%nat -> sets arr ->
  edit_loop ok clear_ok fuel s arr =
    let '(r, arr') := run_edits ok clear_ok es arr in (Ok r, arr').
Proof using Hok Hclear.
  induction 1 as [|b e He Hb|b e c es s He Hb Hc _ IH]; intros fuel arr Hf Ha.
  - by destruct fuel; [simpl in Hf; lia|].
  - destruct (spell_chars e He) as [Hw Hne]. destruct fuel as [|fuel]; [lia|].
    rewrite edit_loop_step by (by destruct b, (spell e)).
    rewrite <- (app_nil_r (spell e)), skip_blanks_app, skip_word_app by done.
    rewrite word_step_spell, run_edits_cons by done. by destruct (edit_step ok clear_ok e arr).
  - destruct (spell_chars e He) as [Hw Hne]. destruct fuel as [|fuel]; [lia|].
    rewrite edit_loop_step by (destruct b, (spell e); done).
    rewrite skip_blanks_app, skip_word_app by done.
    rewrite word_step_spell, run_edits_cons by done.
    destruct (edit_step ok clear_ok e arr) as [r|arr'] eqn:Hs; [done|]. apply IH.
    + rewrite !length_app in Hf. simpl in Hf. lia.
    + by apply (edit_step_sets ok clear_ok e arr).
Qed.

(** What any text can do: [arr'] has no feature that [arr] did not have and
    that may not be set. *)
Definition gains (arr arr' : list Z) : Prop :=
  sets arr' /\ forall t n, t ∈ types -> has arr' t n = true -> has arr t n = true \/ may ok t n = true.

Lemma gains_trans a b c : gains a b -> gains b c -> gains a c.
Proof. intros [_ H1] [Hc H2]. split; [done|]. intros t n Ht Hn. destruct (H2 t n Ht Hn); naive_solver. Qed.

Lemma gains_insert arr t v : sets arr -> t ∈ types ->
  (forall n, Z.testbit v (Z.of_nat n) = true -> has arr t n = true \/ may ok t n = true) ->
  gains arr (<[Z.to_nat t := v]> arr).
Proof.
  intros Ha Ht Hv. split; [unfold sets; by rewrite length_insert|]. intros t' n Ht' Hn. unfold has in Hn.
  assert (Hl : forall x, x ∈ types -> (Z.to_nat x < length arr)%nat).
  { unfold sets, NILFS_MAX_FEATURE_TYPES in Ha. rewrite Ha. unfold types. intros. set_unfold. lia. }
  destruct (decide (Z.to_nat t = Z.to_nat t')) as [He|Hne].
  - rewrite He, list_lookup_total_insert_eq in Hn by auto. unfold has, may, has in *.
    rewrite He in Hv. replace t' with t in * by (unfold types in *; set_unfold; lia). auto.
  - rewrite list_lookup_total_insert_ne in Hn by done. by left.
Qed.

Lemma word_step_gains word k arr : sets arr ->
  (forall arr', sets arr' -> exists r arr'', k arr' = (Ok r, arr'') /\ gains arr' arr'') ->
  exists r arr', word_step ok clear_ok word k arr = (Ok r, arr') /\ gains arr arr'.
Proof using Hok Hclear.
  intros Ha Hk. assert (Hrefl : gains arr arr) by (split; [done|auto]). unfold word_step.
  assert (Hcont : forall arr', gains arr arr' -> exists r arr'', k arr' = (Ok r, arr'') /\ gains arr arr'').
  { intros arr' Hg. destruct (Hk arr' (proj1 Hg)) as (r & a & -> & Hg2).
    exists r, a. split; [done|]. by apply (gains_trans _ arr'). }
  destruct (strcaseeq word (codes "none")).
  { rewrite (bind_ok _ _ _ _ _ (clear_all_run arr Ha)). apply Hcont. split; [done|].
    intros t n Ht Hn. unfold types in Ht. unfold has at 1 in Hn.
    repeat (apply elem_of_cons in Ht as [->|Ht]; [cbn in Hn; by rewrite Z.bits_0 in Hn|]).
    by apply elem_of_nil in Ht. }
  destruct (match word with 94 :: w => (true, w) | _ => (false, word) end) as [neg w].
  destruct (nilfs_string2feature w) as [[t m]|] eqn:Hf; [|by exists (EditBad 0 0), arr].
  apply string2feature_bit in Hf as (Ht & n & Hn & ->). replace n with (Z.of_nat (Z.to_nat n)) by lia.
  generalize (Z.to_nat n). clear n Hn. intros n. destruct neg.
  - rewrite (bind_ok _ _ _ _ _ (forbidden_run clear_ok t n arr Hclear Ht)).
    destruct (may clear_ok t n); [|by eexists _, arr]. simpl.
    rewrite (bind_ok _ _ _ _ _ (update_set_run t _ arr Ha Ht)). apply Hcont, gains_insert; [done..|].
    intros i. rewrite Z.land_spec. intros [Hi _]%andb_true_iff. by left.
  - rewrite (bind_ok _ _ _ _ _ (forbidden_run ok t n arr Hok Ht)).
    destruct (may ok t n) eqn:Hm; [|by eexists _, arr]. simpl.
    rewrite (bind_ok _ _ _ _ _ (update_set_run t _ arr Ha Ht)). apply Hcont, gains_insert; [done..|].
    intros i. rewrite Z.lor_spec, testbit_pow2 by lia. intros [Hi|Hi]%orb_true_iff; [by left|].
    right. apply Z.eqb_eq in Hi. by replace i with n by lia.
Qed.

Lemma edit_loop_gains fuel cp arr : (length cp < fuel)%nat -> sets arr ->
  exists r arr', edit_loop ok clear_ok fuel cp arr = (Ok r, arr') /\ gains arr arr'.
Proof using Hok Hclear.
  revert cp arr; induction fuel as [|fuel IH]; intros cp arr Hf Ha; [lia|].
  destruct cp as [|c cp]; [exists EditOk, arr; split; [done|split; auto]|].
  rewrite edit_loop_step by done. pose proof (skip_word_length (skip_over_blanks (c :: cp))) as Hl.
  pose proof (suffix_length _ _ (skip_spaces_suffix (c :: cp))) as Hs. unfold skip_over_blanks in *.
  destruct (skip_over_word (skip_spaces (c :: cp))) as [word next]. simpl in Hl, Hs, Hf.
  apply word_step_gains; [done|]. intros arr' Ha'. destruct next as [|x next].
  - exists EditOk, arr'. split; [done|]. split; auto.
  - simpl in Hl. apply IH; [lia|done].
Qed.
End Loop.

(** C35: [nilfs_edit_feature] on a text that spells a list of edits - names
    printed by [nilfs_feature2string], with ["^"] for clearing, or ["none"],
    separated by commas or blanks - applies these edits one after the other;
    it stops at the first that is not allowed and reports it. *)
Theorem edit_feature_spells ok clear_ok es s arr :
  opt_sets ok -> opt_sets clear_ok -> sets arr -> spells es s ->
  nilfs_edit_feature true s ok clear_ok arr =
    let '(r, arr') := run_edits ok (match clear_ok with None => ok | _ => clear_ok end) es arr in
    (Ok r, arr').
Proof.
  intros Hok Hc Ha Hs. unfold nilfs_edit_feature. simpl negb. cbv iota.
  apply edit_loop_spells; [done|by destruct clear_ok|done|lia|done].
Qed.

(** Whatever the text, editing ends without going wrong, and sets no feature
    that may not be set. *)
Lemma edit_feature_gains mem s ok clear_ok arr :
  opt_sets ok -> opt_sets clear_ok -> sets arr ->
  exists r arr', nilfs_edit_feature mem s ok clear_ok arr = (Ok r, arr') /\ gains ok arr arr'.
Proof.
  intros Hok Hc Ha. unfold nilfs_edit_feature. destruct mem; simpl negb; cbv iota.
  - apply edit_loop_gains; [done|by destruct clear_ok|lia|done].
  - exists (EditBad 0 0), arr. split; [done|]. split; auto.
Qed.

Lemma edit_feature_spells_witness :
  nilfs_edit_feature true (codes "none, block_count,^FEATURE_I9 FEATURE_C3")
      (Some [0; 1; 0]) (Some [0; 0; 2 ^ 9]) [7; 0; 512] = (Ok (EditBad 0 8), [0; 1; 0]).
Proof.
  apply (edit_feature_spells (Some [0; 1; 0]) (Some [0; 0; 2 ^ 9])
           [EdNone; EdSet 1 0; EdClear 2 9; EdSet 0 3]); [done..|].
  assert (Hb : Forall (fun c => isspace c = true) [32]) by by constructor.
  assert (Hn : Forall (fun c => isspace c = true) []) by constructor.
  assert (Hw : forall t n, t ∈ types -> (n <? 64)%nat = true -> t ∈ types /\ (n < 64)%nat)
    by (intros t n Ht Hlt; split; [done|by apply Nat.ltb_lt]).
  apply (spells_cons [] EdNone 44 _ (codes " block_count,^FEATURE_I9 FEATURE_C3")); [done..|].
  apply (spells_cons [32] (EdSet 1 0) 44 _ (codes "^FEATURE_I9 FEATURE_C3"));
    [by apply Hw; [unfold types; set_solver|]|done..|].
  apply (spells_cons [] (EdClear 2 9) 32 _ (codes "FEATURE_C3"));
    [by apply Hw; [unfold types; set_solver|]|done..|].
  apply (spells_last [] (EdSet 0 3)); [by apply Hw; [unfold types; set_solver|]|done].
Defined.

(** A word must follow each separator but the last character: two blanks at
    the end of the text are an error, and so is a blank before a comma. *)
Example trailing_blanks :
  nilfs_edit_feature true (codes "block_count ") None None [0; 0; 0] = (Ok EditOk, [0; 1; 0]) /\
  nilfs_edit_feature true (codes "block_count  ") None None [0; 0; 0] = (Ok (EditBad 0 0), [0; 1; 0]) /\
  nilfs_edit_feature true (codes "none ,block_count") None None [0; 0; 0] = (Ok (EditBad 0 0), [0; 0; 0]).
Proof. vm_compute. auto. Qed.
