(* ===== verification/Tune.v ===== *)
(** * Changing the parameters of a file system: sbin/nilfs-tune.c

    The tool reads its options, refuses to change a mounted file system, and
    rewrites the selected fields of the superblocks through [Sb].  The
    command line is the list of what [getopt] returns, an option letter with
    its argument.  [show_nilfs_sb] is the text that [-l] prints at the end. *)

From Stdlib Require Import String.
From S2P Require Import Prelude Vector Hoare Ondisk Crc32 Sb Disk Parser Ismounted Feature.

Definition EXIT_SUCCESS : Z := 0.
Definition EXIT_FAILURE : Z := 1.
Definition O_RDONLY : Z := 0.
Definition O_RDWR : Z := 2.

(** The system calls and the mount table; [ctime], which can fail, the names
    of [getpwuid] and [getgrgid], and printing to standard output. *)
Class TuneEnv (W : Type) := {
  te_device : Device W;
  te_mounts : MountsOs W;
  te_open : Z -> W -> (Z + Z) * W;
  te_ctime : Z -> option (list Z);
  te_user : Z -> option (list Z);
  te_group : Z -> option (list Z);
  te_print : list Z -> W -> W;
}.
#[export] Existing Instance te_device.
#[export] Existing Instance te_mounts.

Record nilfs_tune_options := mk_topts {
  o_flags : Z;
  o_display : bool;
  o_mask : Z;
  o_force : bool;
  o_c_interval : Z;
  o_c_block_max : Z;
  o_label : list Z;
  o_uuid : list Z;
  o_fs_features : option (list Z);
}.

Definition ok_features : list Z := [0; NILFS_FEATURE_COMPAT_RO_BLOCK_COUNT; 0].
Definition clear_ok_features : list Z := [0; NILFS_FEATURE_COMPAT_RO_BLOCK_COUNT; 0].
Definition NILFS_FEATURE_COMPAT_RO_SUPP : Z := NILFS_FEATURE_COMPAT_RO_BLOCK_COUNT.

(** ** Values of options *)

Definition isxdigit (c : Z) : bool :=
  isdigit c || ((97 <=? c) && (c <=? 102)) || ((65 <=? c) && (c <=? 70)).

(** The loop over the 36 characters, from index [i]: [None] is -1. *)
Fixpoint parse_uuid_loop (fuel : nat) (s : list Z) (i : Z) (uuid : list Z) : option (list Z) :=
  match fuel with
  | O => None
  | Datatypes.S fuel' =>
    if i <? 36 then
      if (i =? 8) || (i =? 13) || (i =? 18) || (i =? 23) then
        if char_at s =? 45 then parse_uuid_loop fuel' (tail s) (i + 1) uuid else None
      else if negb (isxdigit (char_at s)) || negb (isxdigit (char_at1 s)) then None
      else parse_uuid_loop fuel' (drop 2 s) (i + 2)
             (uuid ++ [u8 (strtoull [char_at s; char_at1 s] 16).1])
    else Some uuid
  end.

Definition parse_uuid (uuid_string : list Z) : option (list Z) :=
  if negb (Nat.eqb (length uuid_string) 36) then None
  else parse_uuid_loop 37 uuid_string 0 [].

Definition LONG_MAX : Z := 2 ^ 63 - 1.
Definition LONG_MIN : Z := - 2 ^ 63.

(** [atol]: the value of the decimal number at the start, at most [LONG_MAX]
    and at least [LONG_MIN]. *)
Definition atol (s : list Z) : Z :=
  let s := skip_spaces s in
  let '(neg, s) := match s with
                   | 45 :: s' => (true, s')
                   | 43 :: s' => (false, s')
                   | _ => (false, s)
                   end in
  let v := (strto_digits 10 0 s).1 in
  if neg then Z.max LONG_MIN (- v) else Z.min LONG_MAX v.

(** [strncpy(dst, s, n)]: the rest is filled with zeros. *)
Definition strncpy (s : list Z) (n : nat) : list Z := take n (s ++ replicate n 0).

(** ** Options *)

Definition with_field (o : nilfs_tune_options) (flag ci bm : Z) (label uuid : list Z)
    (features : option (list Z)) : nilfs_tune_options :=
  mk_topts O_RDWR (o_display o) (Z.lor (o_mask o) flag) (o_force o) ci bm label uuid features.

(** The body of the loop of [parse_options]. *)
Definition parse_option (c : Z) (optarg : list Z) : M nilfs_tune_options unit :=
  let* o := get_state in
  if c =? 102 (* f *) then
    put_state (mk_topts (o_flags o) (o_display o) (o_mask o) true (o_c_interval o) (o_c_block_max o)
                 (o_label o) (o_uuid o) (o_fs_features o))
  else if c =? 104 (* h *) then exit_with EXIT_SUCCESS
  else if c =? 105 (* i *) then
    put_state (with_field o NILFS_SB_COMMIT_INTERVAL (u32 (atol optarg)) (o_c_block_max o) (o_label o)
                 (o_uuid o) (o_fs_features o))
  else if c =? 76 (* L *) then
    put_state (with_field o NILFS_SB_LABEL (o_c_interval o) (o_c_block_max o) (strncpy optarg 80)
                 (o_uuid o) (o_fs_features o))
  else if c =? 109 (* m *) then
    put_state (with_field o NILFS_SB_BLOCK_MAX (o_c_interval o) (u32 (atol optarg)) (o_label o)
                 (o_uuid o) (o_fs_features o))
  else if c =? 108 (* l *) then
    put_state (mk_topts (o_flags o) true (o_mask o) (o_force o) (o_c_interval o) (o_c_block_max o)
                 (o_label o) (o_uuid o) (o_fs_features o))
  else if c =? 79 (* O *) then
    match o_fs_features o with
    | Some _ => exit_with EXIT_FAILURE
    | None => put_state (with_field o NILFS_SB_FEATURES (o_c_interval o) (o_c_block_max o) (o_label o)
                           (o_uuid o) (Some optarg))
    end
  else if c =? 85 (* U *) then
    match parse_uuid optarg with
    | None => exit_with EXIT_FAILURE
    | Some uuid => put_state (with_field o NILFS_SB_UUID (o_c_interval o) (o_c_block_max o) (o_label o)
                                uuid (o_fs_features o))
    end
  else if c =? 86 (* V *) then exit_with 0
  else exit_with EXIT_FAILURE.

Fixpoint parse_option_loop (argv : list (Z * list Z)) : M nilfs_tune_options unit :=
  match argv with
  | [] => ret tt
  | (c, optarg) :: argv => parse_option c optarg ;; parse_option_loop argv
  end.

(** [rest]: the number of arguments behind the options.  [o] is the structure
    on the stack of [main]; the members that are not set are not used. *)
Definition parse_options (argv : list (Z * list Z)) (rest : nat) : M nilfs_tune_options unit :=
  modify (fun o => mk_topts O_RDONLY false 0 false (o_c_interval o) (o_c_block_max o) (o_label o)
                     (o_uuid o) None) ;;
  parse_option_loop argv ;;
  if Nat.eqb rest 0 then exit_with EXIT_FAILURE else ret tt.

(** ** Display *)

Definition hex_digit (d : Z) : Z := if d <? 10 then 48 + d else 87 + d.

(** ["%02x"] of a byte. *)
Definition hex_byte (b : Z) : list Z := [hex_digit (b / 16); hex_digit (b `mod` 16)].

Definition uuid_string (uuid : list Z) : list Z :=
  let part a n := concat (hex_byte <$> take n (drop a uuid)) in
  part 0%nat 4%nat ++ 45 :: part 4%nat 2%nat ++ 45 :: part 6%nat 2%nat ++ 45 :: part 8%nat 2%nat ++
  45 :: part 10%nat 6%nat.

Definition NILFS_VALID_FS : Z := 0x1.
Definition NILFS_ERROR_FS : Z := 0x2.
Definition NILFS_RESIZE_FS : Z := 0x4.

Definition state_string (state : Z) : list Z :=
  (if negb (Z.land state NILFS_VALID_FS =? 0) then codes "valid" else codes "invalid or mounted") ++
  (if negb (Z.land state NILFS_ERROR_FS =? 0) then codes ",error" else []) ++
  (if negb (Z.land state NILFS_RESIZE_FS =? 0) then codes ",resize" else []).

(** The three sets of a superblock. *)
Definition features_of (sbp : list Z) : list Z :=
  [sb_get sbp s_feature_compat; sb_get sbp s_feature_compat_ro; sb_get sbp s_feature_incompat].

Definition print_feature_set (type mask : Z) : list Z :=
  concat ((fun j => if negb (Z.land mask (2 ^ Z.of_nat j) =? 0)
                    then 32 :: nilfs_feature2string type (2 ^ Z.of_nat j) else []) <$> seq 0 64).

Definition print_features (sbp : list Z) : list Z :=
  let sets := concat (zip_with print_feature_set types (features_of sbp)) in
  codes "Filesystem features:     " ++ match sets with [] => codes " (none)" | _ => sets end ++ [10].

Definition NILFS_OS_LINUX : Z := 0.

Definition creator_os_string (creator : Z) : list Z :=
  if creator =? NILFS_OS_LINUX then codes "Linux" else codes "Unknown".

(** ["%0nx"], and ["%d"] of an [int]. *)
Fixpoint hex_padded (n : nat) (x : Z) : list Z :=
  match n with O => [] | Datatypes.S n' => hex_padded n' (x / 16) ++ [hex_digit (x `mod` 16)] end.

Definition print_int (x : Z) : list Z := if x <? 0 then 45 :: print_cno (- x) else print_cno x.

(** What [%s] prints of a buffer. *)
Fixpoint c_text (l : list Z) : list Z :=
  match l with [] => [] | c :: l' => if c =? 0 then [] else c :: c_text l' end.

Definition LOGIN_NAME_MAX : Z := 256.

Section Show.
Context {W : Type} {T : TuneEnv W}.

(** The text of [ctime] has its newline; printing the null pointer it returns
    for a year it cannot represent is undefined. *)
Definition time_string (t : Z) : option (list Z) := te_ctime (i64 t).

(** A name is cut to the size of the buffer. *)
Definition name_or_unknown (name : option (list Z)) : list Z :=
  take (Z.to_nat (LOGIN_NAME_MAX - 1)) (default (codes "unknown") name).

Definition user_string (uid : Z) : list Z := codes "user " ++ name_or_unknown (te_user uid).
Definition group_string (gid : Z) : list Z := codes "group " ++ name_or_unknown (te_group gid).

Definition line (label : string) (tabs : nat) (text : list Z) : list Z :=
  codes label ++ replicate tabs 9 ++ codes "  " ++ text ++ [10].

Definition number_line (label : string) (tabs : nat) (sbp : list Z) (f : sb_field) : list Z :=
  line label tabs (print_cno (sb_get sbp f)).

(** Shifting 1 by 31 or more is undefined: [None]. *)
Definition block_size_text (sbp : list Z) : option (list Z) :=
  let bits := u32 (sb_get sbp s_log_block_size + 10) in
  if bits <? 31 then Some (print_cno (Z.shiftl 1 bits)) else None.

Definition show_nilfs_sb (sbp : list Z) : option (list Z) :=
  let label := match c_text (sb_bytes_of sbp s_volume_name) with [] => codes "(none)" | l => l end in
  let uid := sb_get sbp s_def_resuid in
  let gid := sb_get sbp s_def_resgid in
  match block_size_text sbp, time_string (sb_get sbp s_ctime), time_string (sb_get sbp s_mtime),
        time_string (sb_get sbp s_wtime) with
  | Some block_size, Some created, Some mounted, Some written =>
    Some (concat [
      line "Filesystem volume name:" 1 label;
      line "Filesystem UUID:" 1 (uuid_string (sb_bytes_of sbp s_uuid));
      codes "Filesystem magic number:  0x" ++ hex_padded 4 (sb_get sbp s_magic) ++ [10];
      line "Filesystem revision #:" 1
        (print_int (i32 (sb_get sbp s_rev_level)) ++ 46 :: print_cno (sb_get sbp s_minor_rev_level));
      print_features sbp;
      line "Filesystem state:" 1 (state_string (sb_get sbp s_state));
      line "Filesystem OS type:" 1 (creator_os_string (sb_get sbp s_creator_os));
      line "Block size:" 2 block_size;
      codes "Filesystem created:" ++ 9 :: codes "  " ++ created;
      codes "Last mount time:" ++ 9 :: codes "  " ++ mounted;
      codes "Last write time:" ++ 9 :: codes "  " ++ written;
      number_line "Mount count:" 2 sbp s_mnt_count;
      number_line "Maximum mount count:" 1 sbp s_max_mnt_count;
      line "Reserve blocks uid:" 1 (print_cno uid ++ codes " (" ++ user_string uid ++ codes ")");
      line "Reserve blocks gid:" 1 (print_cno gid ++ codes " (" ++ group_string gid ++ codes ")");
      number_line "First inode:" 2 sbp s_first_ino;
      number_line "Inode size:" 2 sbp s_inode_size;
      number_line "DAT entry size:" 2 sbp s_dat_entry_size;
      number_line "Checkpoint size:" 1 sbp s_checkpoint_size;
      number_line "Segment usage size:" 1 sbp s_segment_usage_size;
      number_line "Number of segments:" 1 sbp s_nsegments;
      number_line "Device size:" 2 sbp s_dev_size;
      number_line "First data block:" 1 sbp s_first_data_block;
      codes "# of blocks per segment:  " ++ print_cno (sb_get sbp s_blocks_per_segment) ++ [10];
      number_line "Reserved segments %:" 1 sbp s_r_segments_percentage;
      number_line "Last checkpoint #:" 1 sbp s_last_cno;
      number_line "Last block address:" 1 sbp s_last_pseg;
      number_line "Last sequence #:" 1 sbp s_last_seq;
      number_line "Free blocks count:" 1 sbp s_free_blocks_count;
      number_line "Commit interval:" 1 sbp s_c_interval;
      codes "# of blks to create seg:  " ++ print_cno (sb_get sbp s_c_block_max) ++ [10];
      codes "CRC seed:" ++ 9 :: 9 :: codes "  0x" ++ hex_padded 8 (sb_get sbp s_crc_seed) ++ [10];
      codes "CRC check sum:" ++ 9 :: 9 :: codes "  0x" ++ hex_padded 8 (sb_get sbp s_sum) ++ [10];
      codes "CRC check data size:" ++ 9 :: codes "  0x" ++ hex_padded 4 (sb_get sbp s_bytes) ++ [10]])
  | _, _, _, _ => None
  end.
End Show.

(** ** The changes *)

Section Modify.
Context {W : Type} {T : TuneEnv W}.

(** The superblock in memory is passed and returned; [None] is -1. *)
Definition update_feature_set (sbp : list Z) (opts : nilfs_tune_options) : M W (option (list Z)) :=
  match o_fs_features opts with
  | None => abort
  | Some str =>
    let* mem := attempt (m_malloc (Z.of_nat (length str) + 1)) in
    match nilfs_edit_feature (match mem with inl _ => true | inr _ => false end) str
            (Some ok_features) (Some clear_ok_features) (features_of sbp) with
    | (Ok EditOk, [compat; compat_ro; incompat]) =>
      ret (Some (sb_put (sb_put (sb_put sbp s_feature_compat (le_bytes 8 compat))
                           s_feature_compat_ro (le_bytes 8 compat_ro))
                  s_feature_incompat (le_bytes 8 incompat)))
    | (Ok (EditBad _ _), _) => ret None
    | _ => abort
    end
  end.

(** [if (opts->mask & flag)] store a field. *)
Definition set_field (opts : nilfs_tune_options) (flag : Z) (f : sb_field) (bs sbp : list Z) : list Z :=
  if Z.land (o_mask opts) flag =? 0 then sbp else sb_put sbp f bs.

Definition edit_super_block (opts : nilfs_tune_options) (sbp : list Z) : M W (option (list Z)) :=
  let sbp := set_field opts NILFS_SB_LABEL s_volume_name (o_label opts) sbp in
  let sbp := set_field opts NILFS_SB_UUID s_uuid (o_uuid opts) sbp in
  let sbp := set_field opts NILFS_SB_COMMIT_INTERVAL s_c_interval (le_bytes 4 (o_c_interval opts)) sbp in
  let sbp := set_field opts NILFS_SB_BLOCK_MAX s_c_block_max (le_bytes 4 (o_c_block_max opts)) sbp in
  if Z.land (o_mask opts) NILFS_SB_FEATURES =? 0 then ret (Some sbp)
  else update_feature_set sbp opts.

Definition modify_nilfs (opts : nilfs_tune_options) : M W Z :=
  let* devfd := attempt (lift_sum (te_open (o_flags opts))) in
  match devfd with
  | inr _ => ret EXIT_FAILURE
  | inl devfd =>
    let* sbp := attempt (nilfs_sb_read devfd) in
    match sbp with
    | inr _ => ret EXIT_FAILURE
    | inl sbp =>
      let* edited := edit_super_block opts sbp in
      match edited with
      | None => ret EXIT_FAILURE
      | Some sbp =>
        let* status :=
          (if negb (o_mask opts =? 0) then
             let* r := attempt (nilfs_sb_write devfd (Some sbp) (o_mask opts)) in
             ret (match r with inl _ => EXIT_SUCCESS | inr _ => EXIT_FAILURE end)
           else ret EXIT_SUCCESS) in
        (if o_display opts then
           let* text := of_option (show_nilfs_sb sbp) in modify (te_print text)
         else ret tt) ;;
        ret status
      end
    end
  end.

(** [main]: the exit status.  [argc] counts the name of the program, [rest]
    the arguments behind the options, the first of which is [device]. *)
Definition main (argc : nat) (argv : list (Z * list Z)) (rest : nat) (device : list Z) (stack : nilfs_tune_options) : M W Z :=
  if Nat.ltb argc 2 then exit_with EXIT_SUCCESS
  else
    match parse_options argv rest stack with
    | (Ok _, opts) =>
      if negb (o_force opts) && (o_flags opts =? O_RDWR) then
        let* r := attempt (check_mount device) in
        match r with
        | inr _ => exit_with EXIT_FAILURE
        | inl true => exit_with EXIT_FAILURE
        | inl false => modify_nilfs opts
        end
      else modify_nilfs opts
    | (Exit s, _) => exit_with s
    | _ => abort
    end.
End Modify.

(** ** The options that come out of the command line *)

Definition byte_args (argv : list (Z * list Z)) : Prop := Forall (fun p => Forall is_u8 p.2) argv.

(** What the mask says about the other members. *)
Record opts_ok (o : nilfs_tune_options) : Prop := {
  ok_write : o_mask o <> 0 -> o_flags o = O_RDWR;
  ok_label : Z.land (o_mask o) NILFS_SB_LABEL <> 0 -> length (o_label o) = 80%nat /\ Forall is_u8 (o_label o);
  ok_uuid : Z.land (o_mask o) NILFS_SB_UUID <> 0 -> length (o_uuid o) = 16%nat /\ Forall is_u8 (o_uuid o);
  ok_feat : Z.land (o_mask o) NILFS_SB_FEATURES <> 0 -> o_fs_features o <> None;
}.

Lemma land_lor_other m a b : Z.land a b = 0 -> Z.land (Z.lor m a) b = Z.land m b.
Proof. intros H. by rewrite Z.land_lor_distr_l, H, Z.lor_0_r. Qed.

Lemma strncpy_spec s n : Forall is_u8 s -> length (strncpy s n) = n /\ Forall is_u8 (strncpy s n).
Proof.
  intros Hs. unfold strncpy. split; [rewrite length_take, length_app, length_replicate; lia|].
  apply Forall_take, Forall_app_2; [done|]. by apply Forall_replicate.
Qed.

Lemma parse_uuid_loop_spec fuel : forall s i uuid l, parse_uuid_loop fuel s i uuid = Some l ->
  Forall is_u8 uuid ->
  2 * Z.of_nat (length uuid) + (if 8 <? i then 1 else 0) + (if 13 <? i then 1 else 0) +
    (if 18 <? i then 1 else 0) + (if 23 <? i then 1 else 0) = i -> 0 <= i <= 36 ->
  length l = 16%nat /\ Forall is_u8 l.
Proof.
  induction fuel as [|fuel IH]; intros s i uuid l Hp Hu Hlen Hi; [done|]. cbn [parse_uuid_loop] in Hp.
  destruct (Z.ltb_spec i 36).
  - destruct ((i =? 8) || (i =? 13) || (i =? 18) || (i =? 23)) eqn:Hd.
    + destruct (char_at s =? 45); [|done]. apply (IH _ _ _ _ Hp Hu); [|lia]. revert Hlen.
      repeat case_if; lia.
    + destruct (negb _ || negb _); [done|]. eapply (IH _ _ _ _ Hp).
      * apply Forall_app_2; [done|]. constructor; [|done]. apply Z.mod_pos_bound. lia.
      * rewrite length_app. simpl length. revert Hlen. repeat case_if; lia.
      * assert (i <> 35); [|lia]. intros ->. revert Hlen. cbn. lia.
  - injection Hp as <-. split; [|done]. revert Hlen. repeat case_if; lia.
Qed.

Lemma parse_uuid_spec s l : parse_uuid s = Some l -> length l = 16%nat /\ Forall is_u8 l.
Proof.
  unfold parse_uuid. case_if; [done|]. intros Hp. by apply (parse_uuid_loop_spec _ _ _ _ _ Hp).
Qed.

(** A byte printed and read again. *)
Lemma hex_byte_read b : is_u8 b ->
  exists x y, hex_byte b = [x; y] /\ isxdigit x = true /\ isxdigit y = true /\
              u8 (strtoull [x; y] 16).1 = b.
Proof.
  unfold is_u8. intros Hb. exists (hex_digit (b / 16)), (hex_digit (b `mod` 16)). split; [done|].
  assert (H : forallb (fun n => let b := Z.of_nat n in
    isxdigit (hex_digit (b / 16)) && isxdigit (hex_digit (b `mod` 16)) &&
    (u8 (strtoull [hex_digit (b / 16); hex_digit (b `mod` 16)] 16).1 =? b)) (seq 0 256) = true)
    by (vm_compute; reflexivity).
  rewrite forallb_forall in H. specialize (H (Z.to_nat b) ltac:(apply in_seq; lia)).
  cbv zeta in H. rewrite Z2Nat.id in H by lia.
  apply andb_true_iff in H as [[H1 H2]%andb_true_iff H3%Z.eqb_eq]. done.
Qed.

Lemma parse_uuid_byte fuel b s i l : is_u8 b -> i < 36 ->
  (i =? 8) || (i =? 13) || (i =? 18) || (i =? 23) = false ->
  parse_uuid_loop (Datatypes.S fuel) (hex_byte b ++ s) i l = parse_uuid_loop fuel s (i + 2) (l ++ [b]).
Proof.
  intros Hb Hi Hd. destruct (hex_byte_read b Hb) as (x & y & -> & Hx & Hy & Hv).
  cbn [parse_uuid_loop app]. destruct (Z.ltb_spec i 36); [|lia]. rewrite Hd.
  unfold char_at1. cbn [char_at tail]. rewrite Hx, Hy, Hv. done.
Qed.

Lemma parse_uuid_dash fuel s i l : i < 36 ->
  (i =? 8) || (i =? 13) || (i =? 18) || (i =? 23) = true ->
  parse_uuid_loop (Datatypes.S fuel) (45 :: s) i l = parse_uuid_loop fuel s (i + 1) l.
Proof.
  intros Hi Hd. cbn [parse_uuid_loop]. destruct (Z.ltb_spec i 36); [|lia]. by rewrite Hd.
Qed.

(** Every UUID can be entered in the form in which it is displayed. *)
Lemma uuid_roundtrip uuid : length uuid = 16%nat -> Forall is_u8 uuid ->
  parse_uuid (uuid_string uuid) = Some uuid.
Proof.
  intros Hl Hu. do 16 (destruct uuid as [|? uuid]; [done|]). destruct uuid; [|done].
  repeat match goal with H : Forall _ (_ :: _) |- _ => apply Forall_cons in H as [? H] end.
  unfold parse_uuid. unfold uuid_string.
  cbn [drop take fmap list_fmap concat]. rewrite <- !app_assoc. cbn [app].
  assert (Hlen : forall b s, length (hex_byte b ++ s) = Datatypes.S (Datatypes.S (length s))) by done.
  repeat (rewrite Hlen || cbn [length]). cbn [Nat.eqb negb].
  repeat first [rewrite parse_uuid_byte by done | rewrite parse_uuid_dash by done]. done.
Qed.

(** The flag of an option and the member it stores. *)
Lemma with_field_ok o flag ci bm label uuid f : opts_ok o ->
  flag ∈ [NILFS_SB_LABEL; NILFS_SB_UUID; NILFS_SB_FEATURES; NILFS_SB_COMMIT_INTERVAL; NILFS_SB_BLOCK_MAX] ->
  (if flag =? NILFS_SB_LABEL then length label = 80%nat /\ Forall is_u8 label else label = o_label o) ->
  (if flag =? NILFS_SB_UUID then length uuid = 16%nat /\ Forall is_u8 uuid else uuid = o_uuid o) ->
  (if flag =? NILFS_SB_FEATURES then f <> None else f = o_fs_features o) ->
  opts_ok (with_field o flag ci bm label uuid f).
Proof.
  intros [Hw Hl Hu Hf] Hin H1 H2 H3.
  split; cbn [with_field o_mask o_flags o_label o_uuid o_fs_features]; [done|..];
    repeat (apply elem_of_cons in Hin as [->|Hin];
            [cbn in H1, H2, H3; subst; rewrite ?land_lor_other by done; auto|]); by apply elem_of_nil in Hin.
Qed.

(** One option keeps the members and the mask in step. *)
Lemma parse_option_ok c arg o : Forall is_u8 arg -> opts_ok o ->
  match parse_option c arg o with
  | (Ok _, o') => opts_ok o'
  | (Exit _, _) => True
  | _ => False
  end.
Proof.
  intros Ha Ho. pose proof (strncpy_spec arg 80 Ha) as Hs. unfold parse_option. cbn [bind get_state].
  destruct (c =? 102); [by destruct Ho|]. destruct (c =? 104); [done|].
  destruct (c =? 105); [apply with_field_ok; set_solver|].
  destruct (c =? 76); [apply with_field_ok; set_solver|].
  destruct (c =? 109); [apply with_field_ok; set_solver|].
  destruct (c =? 108); [by destruct Ho|].
  destruct (c =? 79); [destruct (o_fs_features o); [done|]; apply with_field_ok; set_solver|].
  destruct (c =? 85); [|by destruct (c =? 86)].
  destruct (parse_uuid arg) as [u|] eqn:Hp; [|done]. apply parse_uuid_spec in Hp.
  apply with_field_ok; set_solver.
Qed.

Lemma parse_option_loop_ok argv : byte_args argv -> forall o, opts_ok o ->
  match parse_option_loop argv o with
  | (Ok _, o') => opts_ok o'
  | (Exit _, _) => True
  | _ => False
  end.
Proof.
  induction 1 as [|[c arg] argv Ha _ IH]; intros o Ho; [done|]. cbn [parse_option_loop].
  pose proof (parse_option_ok c arg o Ha Ho) as H. unfold bind.
  destruct (parse_option c arg o) as [[] o']; try done. by apply IH.
Qed.

Lemma parse_options_ok argv rest o : byte_args argv ->
  match parse_options argv rest o with
  | (Ok _, o') => opts_ok o'
  | (Exit _, _) => True
  | _ => False
  end.
Proof.
  intros Ha. unfold parse_options. rewrite bind_modify. unfold bind at 1.
  set (o1 := mk_topts _ _ _ _ _ _ _ _ _). assert (Ho : opts_ok o1) by done.
  pose proof (parse_option_loop_ok argv Ha o1 Ho) as H.
  destruct (parse_option_loop argv o1) as [[] o']; try done. by destruct (Nat.eqb rest 0).
Qed.

(** ** What a run does to the device *)

(** The values asked for; [feats] are the three sets after editing. *)
Definition changes (opts : nilfs_tune_options) : list (sb_field * list Z) :=
  (if Z.land (o_mask opts) NILFS_SB_LABEL =? 0 then [] else [(s_volume_name, o_label opts)]) ++
  (if Z.land (o_mask opts) NILFS_SB_UUID =? 0 then [] else [(s_uuid, o_uuid opts)]) ++
  (if Z.land (o_mask opts) NILFS_SB_COMMIT_INTERVAL =? 0 then []
   else [(s_c_interval, le_bytes 4 (o_c_interval opts))]) ++
  (if Z.land (o_mask opts) NILFS_SB_BLOCK_MAX =? 0 then []
   else [(s_c_block_max, le_bytes 4 (o_c_block_max opts))]).

Definition feature_fields : list sb_field := [s_feature_compat; s_feature_compat_ro; s_feature_incompat].

Definition requested (opts : nilfs_tune_options) (feats : list Z) : list (sb_field * list Z) :=
  changes opts ++
  (if Z.land (o_mask opts) NILFS_SB_FEATURES =? 0 then []
   else zip feature_fields (le_bytes 8 <$> feats)).

(** The sets that the edits on the sets of [sb] result in. *)
Definition edits_to (opts : nilfs_tune_options) (sb feats : list Z) : Prop :=
  if Z.land (o_mask opts) NILFS_SB_FEATURES =? 0 then feats = features_of sb
  else exists str, o_fs_features opts = Some str /\
    nilfs_edit_feature true str (Some ok_features) (Some clear_ok_features) (features_of sb) =
      (Ok EditOk, feats) /\
    gains (Some ok_features) (features_of sb) feats.

(** The new contents of a copy: valid, with the values asked for, and the
    rest as it was. *)
Record tuned (req : list (sb_field * list Z)) (old new : list Z) : Prop := {
  tu_valid : nilfs_sb_is_valid new true = true;
  tu_new : forall f bs, (f, bs) ∈ req -> sb_bytes_of new f = bs;
  tu_keep : forall f, Forall (fun g => disjoint_fields g f) (s_sum :: req.*1) ->
              sb_bytes_of new f = sb_bytes_of old f;
}.

Lemma requested_fields opts feats : sets feats ->
  NoDup (requested opts feats).*1 /\ (forall f, f ∈ (requested opts feats).*1 <-> f ∈ selected (o_mask opts)).
Proof.
  unfold sets, NILFS_MAX_FEATURE_TYPES. intros Hl. destruct feats as [|a [|b [|c []]]]; try done.
  unfold requested, changes, selected. repeat case_if; cbn;
    (split; [by apply (bool_decide_unpack _); vm_compute|intros f; set_solver]).
Qed.

Lemma le_put_ok f n x : field_ok f -> f_size f = Z.of_nat n -> put_ok (f, le_bytes n x).
Proof. intros Hf Hs. split; [done|]. cbn [fst snd]. rewrite le_bytes_length. split; [done|apply le_bytes_u8]. Qed.

Lemma requested_put_ok opts feats : opts_ok opts -> sets feats -> Forall put_ok (requested opts feats).
Proof.
  intros [_ Hl Hu _]. unfold sets, NILFS_MAX_FEATURE_TYPES. intros Hf.
  destruct feats as [|a [|b [|c []]]]; try done. unfold requested, changes.
  repeat apply Forall_app_2.
  - destruct (Z.eqb_spec (Z.land (o_mask opts) NILFS_SB_LABEL) 0) as [|H]; [done|].
    destruct (Hl H) as [Hn Hb]. apply Forall_singleton. split; [field_side|]. by cbn; rewrite Hn.
  - destruct (Z.eqb_spec (Z.land (o_mask opts) NILFS_SB_UUID) 0) as [|H]; [done|].
    destruct (Hu H) as [Hn Hb]. apply Forall_singleton. split; [field_side|]. by cbn; rewrite Hn.
  - case_if; [done|]. apply Forall_singleton, le_put_ok; field_side.
  - case_if; [done|]. apply Forall_singleton, le_put_ok; field_side.
  - case_if; [done|]. cbn [zip zip_with feature_fields fmap list_fmap].
    repeat (apply Forall_cons; split; [apply le_put_ok; field_side|]). constructor.
Qed.

(** Distinct fields that may be written are disjoint. *)
Lemma requested_value opts feats sb f bs : opts_ok opts -> sets feats -> sb_buffer sb ->
  (f, bs) ∈ requested opts feats -> sb_bytes_of (puts (requested opts feats) sb) f = bs.
Proof.
  intros Ho Hf Hb Hin. destruct (requested_fields opts feats Hf) as [Hnd Hsel].
  pose proof (requested_put_ok opts feats Ho Hf) as Hok.
  assert (Hw : forall g, g ∈ (requested opts feats).*1 -> g ∈ writable_fields)
    by (intros g Hg; by eapply selected_writable, Hsel).
  apply list_elem_of_split in Hin as (l1 & l2 & Hl). rewrite Hl in *.
  apply puts_eq; [done..|]. rewrite fmap_app, fmap_cons in Hnd, Hw.
  apply NoDup_app in Hnd as (_ & _ & Hnd). apply NoDup_cons in Hnd as [Hnot _].
  apply Forall_forall. intros [g gb] Hg. cbn [fst] in *.
  assert (Hg1 : g ∈ l2.*1) by (apply list_elem_of_fmap; by exists (g, gb)).
  destruct (writable_disjoint g f) as [->|]; [apply Hw; set_solver..|done|done].
Qed.

Lemma features_of_puts l sb : Forall put_ok l -> sb_buffer sb ->
  Forall (fun p => Forall (fun g => disjoint_fields p.1 g) feature_fields) l ->
  features_of (puts l sb) = features_of sb.
Proof.
  intros Hl Hb Hd. unfold features_of, sb_get.
  rewrite !puts_ne; try done; apply (Forall_impl _ _ _ Hd); intros p Hp;
    rewrite Forall_forall in Hp; apply Hp; unfold feature_fields; set_solver.
Qed.

(** The changes before the features, and all of them. *)
Lemma set_fields_puts opts sb :
  set_field opts NILFS_SB_BLOCK_MAX s_c_block_max (le_bytes 4 (o_c_block_max opts))
    (set_field opts NILFS_SB_COMMIT_INTERVAL s_c_interval (le_bytes 4 (o_c_interval opts))
      (set_field opts NILFS_SB_UUID s_uuid (o_uuid opts)
        (set_field opts NILFS_SB_LABEL s_volume_name (o_label opts) sb))) = puts (changes opts) sb.
Proof.
  unfold set_field, changes, puts. rewrite !foldl_app. by repeat case_if.
Qed.

Lemma changes_put_ok opts : opts_ok opts -> Forall put_ok (changes opts).
Proof.
  intros Ho. pose proof (requested_put_ok opts [0; 0; 0] Ho eq_refl) as H. by apply Forall_app in H as [H _].
Qed.

Lemma changes_no_features opts :
  Forall (fun p => Forall (fun g => disjoint_fields p.1 g) feature_fields) (changes opts).
Proof.
  unfold changes. repeat apply Forall_app_2; case_if; try done;
    apply Forall_singleton; repeat constructor; field_side.
Qed.

(** The fields that are displayed in a way that can go wrong are not changed. *)
Definition time_fields : list sb_field := [s_ctime; s_mtime; s_wtime].

Lemma requested_not_shown opts feats : sets feats ->
  Forall (fun p => Forall (fun g => disjoint_fields p.1 g) (s_log_block_size :: time_fields)) (requested opts feats).
Proof.
  intros Hf. destruct (requested_fields opts feats Hf) as [_ Hsel].
  assert (Hw : Forall (fun f => Forall (fun g => disjoint_fields f g) (s_log_block_size :: time_fields)) writable_fields)
    by (repeat (apply Forall_cons; split; [repeat constructor; field_side|]); constructor).
  apply Forall_forall. intros p Hp. rewrite Forall_forall in Hw.
  apply Hw, (selected_writable (o_mask opts)), Hsel, list_elem_of_fmap. by exists p.
Qed.

Lemma shown_kept opts feats sb g : opts_ok opts -> sets feats -> sb_buffer sb ->
  g ∈ s_log_block_size :: time_fields -> sb_get (puts (requested opts feats) sb) g = sb_get sb g.
Proof.
  intros Ho Hf Hb Hg. unfold sb_get. rewrite puts_ne; [done|by apply requested_put_ok|done|].
  apply (Forall_impl _ _ _ (requested_not_shown opts feats Hf)). intros p Hp.
  rewrite Forall_forall in Hp. by apply Hp.
Qed.

Section Run.
Context {W : Type} {T : TuneEnv W} {disk : W -> list Z}.

(** A superblock that can be displayed: the block size is an [int], and the
    years of the times can be represented. *)
Record printable (sb : list Z) : Prop := {
  pr_size : u32 (sb_get sb s_log_block_size + 10) < 31;
  pr_times : forall f, f ∈ time_fields -> is_Some (time_string (sb_get sb f));
}.

Lemma printable_shown sb : printable sb -> is_Some (show_nilfs_sb sb).
Proof.
  intros [Hs Ht]. unfold show_nilfs_sb, block_size_text. rewrite (proj2 (Z.ltb_lt _ _) Hs).
  destruct (Ht s_ctime ltac:(set_solver)) as [a ->], (Ht s_mtime ltac:(set_solver)) as [b ->],
    (Ht s_wtime ltac:(set_solver)) as [c ->]. by eexists.
Qed.

Lemma printable_kept opts feats sb : opts_ok opts -> sets feats -> sb_buffer sb ->
  printable sb -> printable (puts (requested opts feats) sb).
Proof.
  intros Ho Hf Hb [Hs Ht]. split; [by rewrite shown_kept by (done || by left)|].
  intros f Hin. rewrite shown_kept by (done || by right). by apply Ht.
Qed.

(** Beside the laws of the device: the mount table and standard output are
    elsewhere, and an open file has a number. *)
Class TuneLaws : Prop := {
  tl_disk : DiskLaws te_device disk;
  tl_mounts : MountsQuiet te_mounts disk;
  tl_open : forall flags w r w', te_open flags w = (r, w') -> disk w' = disk w /\
    forall fd, r = inl fd -> 0 <= fd;
  tl_print : forall text w, disk (te_print text w) = disk w;
}.
Context {L : TuneLaws}.
Existing Instance tl_disk.
Existing Instance tl_mounts.

Lemma edit_super_block_wp opts sb w : opts_ok opts -> sb_buffer sb ->
  wp (edit_super_block opts sb)
     (fun r w' => disk w' = disk w /\ forall sbp, r = Some sbp ->
        exists feats, sets feats /\ edits_to opts sb feats /\ sbp = puts (requested opts feats) sb)
     (fun _ _ => False) w.
Proof using L.
  intros Ho Hb. unfold edit_super_block, edits_to, requested. rewrite set_fields_puts.
  destruct (Z.eqb_spec (Z.land (o_mask opts) NILFS_SB_FEATURES) 0) as [Hm|Hm].
  { apply wp_ret. split; [done|]. intros sbp [= <-]. exists (features_of sb). by rewrite app_nil_r. }
  unfold update_feature_set. destruct (o_fs_features opts) as [str|] eqn:Hstr;
    [|by destruct (ok_feat opts Ho Hm)].
  rewrite features_of_puts by auto using changes_put_ok, changes_no_features.
  eapply (wp_seq _ _ (fun _ w' => disk w' = disk w) (fun _ _ => False)); [|intros mem w2 Hw|done].
  { apply wp_attempt, wp_malloc. intros b w1 Hm1.
    pose proof (dl_alloc (disk := disk) (Z.of_nat (length str) + 1) w) as Hd. rewrite Hm1 in Hd.
    by destruct b. }
  set (m := match mem with inl _ => true | inr _ => false end).
  destruct (edit_feature_gains m str (Some ok_features) (Some clear_ok_features) (features_of sb))
    as (r & feats & Hrun & Hg); [done..|]. rewrite Hrun. destruct Hg as [Hf Hg].
  destruct feats as [|a [|b [|c []]]]; try done. destruct r as [|ty bm]; [|by apply wp_ret].
  apply wp_ret. split; [done|]. intros sbp [= <-]. exists [a; b; c].
  assert (m = true) as Hmt by (unfold nilfs_edit_feature in Hrun; by destruct m). rewrite Hmt in Hrun.
  split_and!; [done| |unfold puts; by rewrite foldl_app]. by exists str.
Qed.

(** ** The theorem *)

(** What is asked of a device that is tuned. *)
Record tunable (d : list Z) : Prop := {
  tn_bytes : bytes d;
  tn_size : size_ok d;
  tn_shift : shift_ok d;
}.

(** A copy that is replaced was valid before and holds the new values. *)
Definition retuned (req : list (sb_field * list Z)) (d d' : list Z) (off : Z) : Prop :=
  exists old new, copy_at d off = Some old /\ nilfs_sb_is_valid old false = true /\
    copy_at d' off = Some new /\ tuned req old new.

Definition outcome (opts : nilfs_tune_options) (status : Z) (d d' : list Z) : Prop :=
  only_copies d d' /\ (o_mask opts = 0 -> d' = d) /\
  (status = EXIT_SUCCESS -> o_mask opts <> 0 ->
   exists sb feats, nilfs_sb_is_valid sb false = true /\
     (copy_at d NILFS_SB_OFFSET_BYTES = Some sb \/ copy_at d (sb2_off d) = Some sb) /\
     edits_to opts sb feats /\
     let at_ off := retuned (requested opts feats) d d' off \/ copy_at d' off = copy_at d off in
     at_ NILFS_SB_OFFSET_BYTES /\ at_ (sb2_off d) /\
     (retuned (requested opts feats) d d' NILFS_SB_OFFSET_BYTES \/
      retuned (requested opts feats) d d' (sb2_off d))).

Lemma updated_retuned opts feats sb d d' off : opts_ok opts -> sets feats -> sb_buffer sb -> bytes d ->
  updated (o_mask opts) (puts (requested opts feats) sb) d d' off ->
  retuned (requested opts feats) d d' off.
Proof using.
  intros Ho Hf Hb Hd (old & Hold & Hv & Hnew). exists old, (new_copy (o_mask opts) (puts (requested opts feats) sb) old).
  split_and!; [done..|]. pose proof (copy_at_buffer _ _ _ Hd Hold) as Hob.
  pose proof (puts_buffer _ _ (requested_put_ok opts feats Ho Hf) Hb) as Hpb.
  destruct (sealed_image (o_mask opts) _ old Hpb Hob Hv) as (_ & Hv' & Hsel & Hkeep).
  destruct (requested_fields opts feats Hf) as [_ Hfs]. split; [done| |].
  - intros f bs Hin. unfold new_copy. rewrite Hsel.
    + by apply requested_value.
    + apply Hfs, list_elem_of_fmap. by exists (f, bs).
  - intros f Hdis. apply Hkeep. apply Forall_forall. intros g Hg. rewrite Forall_forall in Hdis. apply Hdis.
    apply elem_of_cons in Hg as [->|Hg]; [by left|right; by apply Hfs].
Qed.

Lemma only_copies_refl d d' : d' = d -> only_copies d d'.
Proof using. by intros ->. Qed.

(** Every copy that looks valid can be displayed. *)
Definition showable (d : list Z) : Prop :=
  forall off sb, off ∈ [NILFS_SB_OFFSET_BYTES; sb2_off d] -> copy_at d off = Some sb ->
    nilfs_sb_is_valid sb false = true -> printable sb.

(** The display is the last step; it leaves the device alone. *)
Lemma display_wp (display : bool) sbp status (Q : Z -> W -> Prop) E w :
  (display = true -> printable sbp) -> (forall w', disk w' = disk w -> Q status w') ->
  wp ((if display then let* text := of_option (show_nilfs_sb sbp) in modify (te_print text) else ret tt) ;;
      ret status) Q E w.
Proof using L.
  intros Hp HQ. destruct display; [|by apply HQ].
  destruct (printable_shown sbp (Hp eq_refl)) as [text Ht]. rewrite Ht. apply HQ, tl_print.
Qed.

Lemma modify_nilfs_wp opts w : opts_ok opts -> tunable (disk w) ->
  (o_display opts = true -> showable (disk w)) ->
  wp (modify_nilfs opts) (fun s w' => outcome opts s (disk w) (disk w')) (fun _ _ => False) w.
Proof using L.
  intros Ho [Hb Hs Hsh] Hshow. unfold modify_nilfs.
  assert (Hfail : forall w', disk w' = disk w -> outcome opts EXIT_FAILURE (disk w) (disk w'))
    by (intros w' Hw; split; [by apply only_copies_refl|done]).
  apply (wp_try _ _ (fun fd w' => disk w' = disk w /\ 0 <= fd) (fun _ w' => disk w' = disk w)).
  { unfold wp, lift_sum. destruct (te_open (o_flags opts) w) as [r w1] eqn:Hop.
    destruct (tl_open _ _ _ _ Hop) as [Hd Hr]. destruct r; auto. }
  2: { intros e w1 Hw. by apply wp_ret, Hfail. }
  intros fd w1 [Hw1 Hfd]. rewrite <- Hw1 in *. eapply wp_try; [by apply (sb_read_wp (disk := disk))|..].
  2: { intros e w2 Hw. apply wp_ret, Hfail. congruence. }
  intros sb w2 (Hw2 & Hv & Hcopy). rewrite Hw1, <- Hw2 in *. clear w w1 Hw1 Hw2.
  assert (Hsb : sb_buffer sb) by (destruct Hcopy; by eapply copy_at_buffer).
  eapply wp_seq; [by apply edit_super_block_wp| |done]. intros r w3 [Hw3 Hr].
  destruct r as [sbp|]; [|apply wp_ret; auto]. destruct (Hr sbp eq_refl) as (feats & Hf & He & ->). clear Hr.
  assert (Hpr : o_display opts = true -> printable (puts (requested opts feats) sb))
    by (intros Hdisp; apply printable_kept; [done..|]; destruct Hcopy as [Hc|Hc]; eapply (Hshow Hdisp); [|exact Hc|done| |exact Hc|done]; set_solver).
  pose proof (puts_buffer _ _ (requested_put_ok opts feats Ho Hf) Hsb) as Hp. rewrite <- Hw3 in *.
  apply (wp_seq _ _ (fun s w' => outcome opts s (disk w3) (disk w')) (fun _ _ => False)); [|..|done].
  2: { intros s w4 Ho4. apply display_wp; [done|]. by intros w5 ->. }
  destruct (Z.eqb_spec (o_mask opts) 0) as [Hm|Hm]; cbn [negb].
  { apply wp_ret. split; [by apply only_copies_refl|done]. }
  eapply wp_try; [by apply (sb_write_wp (disk := disk))|..].
  - intros [] w4 [Hoc Hup]. apply wp_ret. split; [done|]. split; [done|]. intros _ _. exists sb, feats.
    split_and!; [done..|]. destruct Hup as (H1 & H2 & H3).
    pose proof (updated_retuned opts feats sb (disk w3) (disk w4)) as Hre.
    split_and!; [destruct H1|destruct H2|destruct H3]; auto.
  - intros e w4 Hoc. apply wp_ret. by split.
Qed.

(** C36: take a device of at least 8192 and less than 2^63 bytes; where the
    second copy of its superblock looks valid, let the shift of its block size
    be below 64, and with [-l], let each copy that looks valid be printable: a
    block size of less than 2^31 and times that [ctime] can print.  Then,
    whatever the options, nilfs-tune ends without going wrong and changes
    nothing of the device but the two copies of the superblock, and nothing at
    all when no change is asked for or the file system is mounted and [-f] is
    not given.  When it succeeds in a change, each copy that it replaces was
    valid, is valid again with its checksum, holds every value asked for -
    with the features edited as the option says, gaining only supported ones -
    and is otherwise as before; at least one copy is replaced, and the other
    one is unchanged if it is not. *)
Theorem tune_updates argc argv rest device stack w : byte_args argv -> tunable (disk w) ->
  (forall opts, parse_options argv rest stack = (Ok tt, opts) -> o_display opts = true -> showable (disk w)) ->
  match main argc argv rest device stack w with
  | (Ok status, w') => exists opts, parse_options argv rest stack = (Ok tt, opts) /\
      outcome opts status (disk w) (disk w') /\
      (o_mask opts <> 0 -> o_force opts = false -> exists w1, check_mount device w = (Ok false, w1))
  | (Exit _, w') => disk w' = disk w
  | _ => False
  end.
Proof using L.
  intros Ha Ht Hl. unfold main. destruct (Nat.ltb argc 2); [done|].
  pose proof (parse_options_ok argv rest stack Ha) as Hp.
  destruct (parse_options argv rest stack) as [[[]| | | |] opts]; try done. specialize (Hl opts eq_refl).
  destruct (o_force opts) eqn:Hforce; cbn [negb andb].
  { pose proof (modify_nilfs_wp opts w Hp Ht Hl) as Hwp. unfold wp in Hwp.
    destruct (modify_nilfs opts w) as [[] w']; try done. exists opts. by rewrite Hforce. }
  destruct (Z.eqb_spec (o_flags opts) O_RDWR) as [Hrw|Hro].
  - unfold bind, attempt. pose proof (check_mount_quiet disk device w) as Hd. unfold wp in Hd.
    destruct (check_mount device w) as [[[]|e| | |] w1] eqn:Hc; try done.
    rewrite <- Hd in Ht, Hl |- *. pose proof (modify_nilfs_wp opts w1 Hp Ht Hl) as Hwp. unfold wp in Hwp.
    destruct (modify_nilfs opts w1) as [[] w']; try done. exists opts. split_and!; [done..|]. eauto.
  - pose proof (modify_nilfs_wp opts w Hp Ht Hl) as Hwp. unfold wp in Hwp.
    destruct (modify_nilfs opts w) as [[] w']; try done. exists opts. split_and!; [done..|].
    intros Hm. by destruct (Hro (ok_write opts Hp Hm)).
Qed.
End Run.

(** ** A device that can be run *)

Module TuneDemo.

(** The state is the contents of the device, a file. *)
#[export] Instance file_device : Device (list Z) := {
  dev_alloc := fun _ d => (true, d);
  dev_errno := fun _ => EIO;
  dev_fstat := fun _ d => (inl (S_IFREG, Z.of_nat (length d)), d);
  dev_getsize64 := fun _ d => (inr ENOTTY, d);
  dev_pread := fun _ n off d => (inl (take (Z.to_nat n) (drop (Z.to_nat off) d)), d);
  dev_pwrite := fun _ bs off d =>
    if off + Z.of_nat (length bs) <=? Z.of_nat (length d)
    then (inl (Z.of_nat (length bs)), put_bytes d off bs) else (inr EIO, d);
}.

(** Nothing is mounted. *)
Definition quiet_mounts {W : Type} : MountsOs W := {|
  im_pagesize := 4096; im_major := fun d => d; im_minor := fun d => d;
  im_mtab := fun w => (inl [], w); im_stat := fun _ w => (inr ENOENT, w);
  im_openat := fun _ _ w => (inr ENOENT, w); im_read := fun _ _ w => (inr EIO, w); im_close := fun _ w => w;
|}.

#[export] Instance file_env : TuneEnv (list Z) := {
  te_device := file_device;
  te_mounts := quiet_mounts;
  te_open := fun _ d => (inl 3, d);
  te_ctime := fun t => if Z.abs t <? 2 ^ 55 then Some (codes "Thu Jan  1 00:00:00 1970" ++ [10]) else None;
  te_user := fun uid => if uid =? 0 then Some (codes "root") else None;
  te_group := fun _ => None;
  te_print := fun _ d => d;
}.

#[export] Instance file_laws : TuneLaws (disk := fun d : list Z => d).
Proof.
  split; [split|..]; cbn; try done.
  - intros _ w r w' [= <- <-]. split; [done|]. intros n [= <-]. done.
  - intros _ w r w' [= <- <-]. done.
  - intros _ n off w r w' [= <- <-]. split; [done|]. intros bs [= <-].
    split; [|rewrite length_take; lia]. rewrite length_take.
    destruct (decide (Z.to_nat n <= length (drop (Z.to_nat off) w))%nat);
      [by rewrite Nat.min_l|]. by rewrite Nat.min_r, !take_ge by lia.
  - intros _ bs off w r w'. case_if; intros [= <- <-] Ho Hl; cbv beta in *; [|lia].
    exists (length bs). rewrite firstn_all. split; [done|]. split; [done|]. by intros ? [= <-].
  - intros flags w r w' [= <- <-]. split; [done|]. intros fd [= <-]. done.
Qed.

(** A file of 16 KB with the primary superblock of a file system of 4 segments. *)
Definition sb : list Z :=
  puts [(s_magic, le_bytes 2 NILFS_SUPER_MAGIC); (s_bytes, le_bytes 2 280); (s_crc_seed, le_bytes 4 7);
        (s_nsegments, le_bytes 8 4); (s_blocks_per_segment, le_bytes 4 16)] (replicate 1024 0).

Definition image : list Z := put_bytes (replicate 16384 0) 1024 sb.

Definition stack : nilfs_tune_options := mk_topts 0 false 0 false 0 0 [] [] None.

Definition device : list Z := codes "disk.img".
Definition argv : list (Z * list Z) := [(76, codes "backup"); (79, codes "block_count"); (108, [])].

Lemma image_tunable : tunable image.
Proof.
  split.
  - unfold bytes. apply put_bytes_u8; [by apply Forall_replicate|]. apply puts_buffer.
    + repeat constructor; cbn; try done; try (by apply le_bytes_u8); unfold NILFS_MAX_SB_SIZE; try lia.
    + split; [done|]. by apply Forall_replicate.
  - unfold size_ok. vm_compute. split; [discriminate|reflexivity].
  - assert (H : copy_at image (sb2_off image) = Some (replicate 1024 0)) by (vm_compute; reflexivity).
    intros s Hs _. rewrite H in Hs. injection Hs as <-. vm_compute. reflexivity.
Qed.

Lemma image_showable : showable image.
Proof.
  assert (H1 : copy_at image NILFS_SB_OFFSET_BYTES = Some sb) by (vm_compute; reflexivity).
  assert (H2 : copy_at image (sb2_off image) = Some (replicate 1024 0)) by (vm_compute; reflexivity).
  intros off s [->|[->|[]%elem_of_nil]%elem_of_cons]%elem_of_cons Hs Hv.
  - rewrite H1 in Hs. injection Hs as <-. split; [by vm_compute|].
    intros f Hf. repeat (apply elem_of_cons in Hf as [->|Hf]; [vm_compute; by eexists|]). destruct (not_elem_of_nil _ Hf).
  - rewrite H2 in Hs. injection Hs as <-. by vm_compute in Hv.
Qed.
End TuneDemo.
Import TuneDemo.

Lemma tune_updates_witness :
  exists opts, parse_options TuneDemo.argv 1 TuneDemo.stack = (Ok tt, opts) /\
    outcome opts EXIT_SUCCESS TuneDemo.image
      (main 3 TuneDemo.argv 1 TuneDemo.device TuneDemo.stack TuneDemo.image).2.
Proof.
  assert (Hargs : byte_args TuneDemo.argv).
  { apply Forall_cons; split; [|apply Forall_cons; split; [|apply Forall_singleton]]; vm_compute; repeat constructor; discriminate. }
  assert (Hshow : forall opts, parse_options TuneDemo.argv 1 TuneDemo.stack = (Ok tt, opts) ->
            o_display opts = true -> showable TuneDemo.image) by (intros; exact TuneDemo.image_showable).
  pose proof (tune_updates (disk := fun d => d) 3 TuneDemo.argv 1 TuneDemo.device TuneDemo.stack TuneDemo.image
                Hargs TuneDemo.image_tunable Hshow) as H.
  assert (Hrun : (main 3 TuneDemo.argv 1 TuneDemo.device TuneDemo.stack TuneDemo.image).1 = Ok EXIT_SUCCESS)
    by (vm_compute; reflexivity).
  destruct (main 3 TuneDemo.argv 1 TuneDemo.device TuneDemo.stack TuneDemo.image) as [r d']. cbn [fst snd] in *.
  subst r. destruct H as (opts & H1 & H2 & _). by exists opts.
Defined.

(** ** Reading the superblock of the file *)

Lemma file_reliable fd : reliable (D := file_device) (disk := fun d : list Z => d) fd.
Proof.
  split; cbn.
  - intros d. exists S_IFREG, (Z.of_nat (length d)). by split; [|left].
  - intros n off d Hn Ho Hl. eexists. split; [done|]. rewrite length_take, length_drop. lia.
Qed.

Lemma sb_read_chooses_witness :
  nilfs_sb_read 3 TuneDemo.image = (Ok TuneDemo.sb, TuneDemo.image) /\ chosen TuneDemo.image = Some TuneDemo.sb.
Proof.
  pose proof (sb_read_chooses (D := file_device) (disk := fun d => d) (L := tl_disk) 3 TuneDemo.image
                (tn_size _ TuneDemo.image_tunable) (tn_shift _ TuneDemo.image_tunable)) as H.
  assert (Hrun : @nilfs_sb_read _ file_device 3 TuneDemo.image = (Ok TuneDemo.sb, TuneDemo.image)) by (vm_compute; reflexivity).
  unfold wp in H. rewrite Hrun in H. destruct H as (_ & _ & Hr). split; [exact Hrun|]. exact (Hr (file_reliable 3)).
Defined.
