(* ===== verification/Bitops.v ===== *)
(** * Bitmaps: sbin/bitops.c

    A bitmap is an array of bytes; [None] is an access outside of it. *)

From S2P Require Import Prelude.

Definition mask_of (nr : Z) : Z := Z.shiftl 1 (Z.land nr 7).

Definition byte_at (nr : Z) (addr : list Z) : option Z :=
  if nr <? 0 then None else addr !! Z.to_nat (Z.shiftr nr 3).

Definition ext2fs_set_bit (nr : Z) (addr : list Z) : option (Z * list Z) :=
  b ← byte_at nr addr;
  Some (Z.land (mask_of nr) b, <[Z.to_nat (Z.shiftr nr 3) := u8 (Z.lor b (mask_of nr))]> addr).

Definition ext2fs_clear_bit (nr : Z) (addr : list Z) : option (Z * list Z) :=
  b ← byte_at nr addr;
  Some (Z.land (mask_of nr) b,
        <[Z.to_nat (Z.shiftr nr 3) := u8 (Z.land b (Z.lnot (mask_of nr)))]> addr).

Definition ext2fs_test_bit (nr : Z) (addr : list Z) : option Z :=
  b ← byte_at nr addr; Some (Z.land (mask_of nr) b).

(** The abstract bitmap: the set of indices whose bit is set. *)
Definition bit_of (addr : list Z) (nr : Z) : bool :=
  match byte_at nr addr with Some b => Z.testbit b (nr `mod` 8) | None => false end.

Lemma mask_of_eq nr : mask_of nr = 2 ^ (nr `mod` 8).
Proof.
  unfold mask_of. change 7 with (Z.ones 3). rewrite Z.land_ones by lia.
  by rewrite Z.shiftl_1_l.
Qed.

Lemma land_mask nr b : 0 <= nr -> Z.land (mask_of nr) b = if Z.testbit b (nr `mod` 8) then mask_of nr else 0.
Proof.
  intros Hn. rewrite mask_of_eq. pose proof (Z.mod_pos_bound nr 8 ltac:(lia)).
  apply Z.bits_inj'. intros i Hi. rewrite Z.land_spec, testbit_pow2 by lia.
  destruct (Z.eqb_spec (nr `mod` 8) i) as [->|He]; simpl.
  - destruct (Z.testbit b i); [rewrite Z.pow2_bits_true by lia; done|by rewrite Z.bits_0].
  - destruct (Z.testbit b (nr `mod` 8)); [rewrite Z.pow2_bits_false by done; done|by rewrite Z.bits_0].
Qed.

Lemma lor_mask_other nr b i : 0 <= nr -> 0 <= i -> i <> nr `mod` 8 ->
  Z.testbit (Z.lor b (mask_of nr)) i = Z.testbit b i.
Proof.
  intros. pose proof (Z.mod_pos_bound nr 8 ltac:(lia)).
  rewrite Z.lor_spec, mask_of_eq, testbit_pow2 by lia. destruct (Z.eqb_spec (nr `mod` 8) i); [lia|apply orb_false_r].
Qed.

Lemma land_mask_other nr b i : 0 <= nr -> 0 <= i -> i <> nr `mod` 8 ->
  Z.testbit (Z.land b (Z.lnot (mask_of nr))) i = Z.testbit b i.
Proof.
  intros. pose proof (Z.mod_pos_bound nr 8 ltac:(lia)).
  rewrite Z.land_spec, Z.lnot_spec, mask_of_eq, testbit_pow2 by lia. destruct (Z.eqb_spec (nr `mod` 8) i); [lia|apply andb_true_r].
Qed.

Lemma u8_testbit x i : 0 <= i < 8 -> Z.testbit (u8 x) i = Z.testbit x i.
Proof. intros. unfold u8. rewrite Z.mod_pow2_bits_low by lia. done. Qed.

Lemma byte_index nr nr' : 0 <= nr -> 0 <= nr' ->
  nr <> nr' -> Z.to_nat (Z.shiftr nr 3) = Z.to_nat (Z.shiftr nr' 3) -> nr `mod` 8 <> nr' `mod` 8.
Proof.
  intros H1 H2 Hne. rewrite !Z.shiftr_div_pow2 by lia. change (2 ^ 3) with 8.
  pose proof (Z.div_mod nr 8). pose proof (Z.div_mod nr' 8).
  pose proof (Z.div_pos nr 8). pose proof (Z.div_pos nr' 8). lia.
Qed.

(** What a write of one byte does to the bitmap. *)
Lemma bit_of_update nr addr b b' :
  0 <= nr -> byte_at nr addr = Some b ->
  forall nr', 0 <= nr' ->
  (forall i, 0 <= i < 8 -> i <> nr `mod` 8 -> Z.testbit b' i = Z.testbit b i) ->
  bit_of (<[Z.to_nat (Z.shiftr nr 3) := u8 b']> addr) nr' =
    if nr' =? nr then Z.testbit b' (nr `mod` 8) else bit_of addr nr'.
Proof.
  intros Hn Hb nr' Hn' Hrest. unfold bit_of, byte_at in *.
  destruct (Z.ltb_spec nr 0), (Z.ltb_spec nr' 0); try lia.
  pose proof (Z.mod_pos_bound nr' 8 ltac:(lia)).
  assert (Hlen : (Z.to_nat (Z.shiftr nr 3) < length addr)%nat) by (apply lookup_lt_is_Some; eauto).
  destruct (decide (Z.to_nat (Z.shiftr nr 3) = Z.to_nat (Z.shiftr nr' 3))) as [He|He].
  - rewrite <- He, list_lookup_insert_eq, u8_testbit by done. rewrite He in Hb.
    case_if; [by subst|]. rewrite <- He in Hb. rewrite Hb. apply Hrest; [done|].
    intros ?. by apply (byte_index nr nr').
  - rewrite list_lookup_insert_ne by done. case_if; [subst; done|done].
Qed.

Lemma byte_at_inside nr addr : 0 <= nr < 8 * Z.of_nat (length addr) -> exists b, byte_at nr addr = Some b.
Proof.
  intros Hn. unfold byte_at. case_if; [lia|]. apply lookup_lt_is_Some. rewrite Z.shiftr_div_pow2 by lia.
  change (2 ^ 3) with 8. assert (nr / 8 < Z.of_nat (length addr)) by (apply Z.div_lt_upper_bound; lia).
  pose proof (Z.div_pos nr 8). lia.
Qed.

(** Testing and setting a bit. *)
Lemma test_set_bit nr addr : 0 <= nr < 8 * Z.of_nat (length addr) ->
  let old := if bit_of addr nr then 2 ^ (nr `mod` 8) else 0 in
  exists addr', ext2fs_test_bit nr addr = Some old /\ ext2fs_set_bit nr addr = Some (old, addr') /\
    length addr' = length addr /\ (Forall is_u8 addr -> Forall is_u8 addr') /\
    forall nr', 0 <= nr' -> bit_of addr' nr' = (nr' =? nr) || bit_of addr nr'.
Proof.
  intros Hn old. pose proof (Z.mod_pos_bound nr 8 ltac:(lia)) as Hm.
  destruct (byte_at_inside nr addr Hn) as [b Hb].
  assert (Hold : Z.land (mask_of nr) b = old).
  { unfold old. rewrite land_mask, mask_of_eq by lia. unfold bit_of. by rewrite Hb. }
  unfold ext2fs_test_bit, ext2fs_set_bit. rewrite Hb. simpl. rewrite Hold.
  eexists. split; [done|]. split; [done|]. split; [by rewrite length_insert|]. split.
  { intros Hu. apply Forall_insert; [done|]. apply Z.mod_pos_bound. lia. }
  intros nr' Hn'. rewrite (bit_of_update _ _ b); [|lia|done|lia|intros; apply lor_mask_other; lia].
  case_if; simpl; [|done]. rewrite Z.lor_spec, mask_of_eq, testbit_pow2, Z.eqb_refl by lia. apply orb_true_r.
Qed.

(** The three operations implement set insertion, removal and membership
    on a bitmap: the value returned says whether the bit was set before, and
    only the bit named changes; they are defined for every index inside the
    bitmap. *)
Theorem bitops_spec nr addr :
  0 <= nr < 8 * Z.of_nat (length addr) ->
  exists old a1 a2,
    ext2fs_test_bit nr addr = Some old /\
    ext2fs_set_bit nr addr = Some (old, a1) /\ ext2fs_clear_bit nr addr = Some (old, a2) /\
    old = (if bit_of addr nr then 2 ^ (nr `mod` 8) else 0) /\
    length a1 = length addr /\ length a2 = length addr /\
    (forall nr', 0 <= nr' -> bit_of a1 nr' = (nr' =? nr) || bit_of addr nr') /\
    (forall nr', 0 <= nr' -> bit_of a2 nr' = negb (nr' =? nr) && bit_of addr nr').
Proof.
  intros Hn. pose proof (Z.mod_pos_bound nr 8 ltac:(lia)) as Hm.
  destruct (test_set_bit nr addr Hn) as (a1 & Ht & Hs & Hl & _ & Hbits).
  destruct (byte_at_inside nr addr Hn) as [b Hb].
  eexists _, a1, _. split; [exact Ht|]. split; [exact Hs|]. unfold ext2fs_clear_bit. rewrite Hb. simpl.
  split; [f_equal; f_equal; unfold ext2fs_test_bit in Ht; rewrite Hb in Ht; by injection Ht|].
  rewrite length_insert. do 3 (split; [done|]). split; [exact Hbits|]. intros nr' Hn'.
  rewrite (bit_of_update _ _ b); [|lia|done|lia|intros; apply land_mask_other; lia].
  case_if; simpl; [|done]. rewrite Z.land_spec, Z.lnot_spec, mask_of_eq, testbit_pow2, Z.eqb_refl by lia.
  apply andb_false_r.
Qed.

Lemma bitops_spec_witness :
  exists old a1 a2, ext2fs_test_bit 13 [0; 0] = Some old /\ ext2fs_set_bit 13 [0; 0] = Some (old, a1) /\
    ext2fs_clear_bit 13 [0; 0] = Some (old, a2).
Proof.
  destruct (bitops_spec 13 [0; 0]) as (old & a1 & a2 & H1 & H2 & H3 & _); [simpl; lia|].
  exists old, a1, a2. exact (conj H1 (conj H2 H3)).
Defined.
