(* ===== verification/Gc.v ===== *)
(** * Garbage collection of segments: lib/gc.c

    [nilfs_xreclaim_segment] collects the descriptors of all blocks of the
    selected segments, asks the kernel which of them are still in use, and
    hands the live ones and the periods and block numbers of the dead ones to
    the kernel, which moves the former and frees the latter.

    The state [gcs] holds the objects the functions share: the nilfs object
    and the world behind it, the caller's array of segment numbers and its
    statistics (both are changed in place, also when the call fails), and the
    five vectors. *)

From S2P Require Import Prelude Vector Ondisk Crc32 Sb Kernel Nilfs Segment.

Definition NILFS_GC_NBDESCS : Z := 512.
Definition NILFS_GC_NVINFO : Z := 512.
Definition NILFS_GC_NCPINFO : Z := 512.

Definition NILFS_RECLAIM_PARAM_PROTSEQ : Z := 1.
Definition NILFS_RECLAIM_PARAM_PROTCNO : Z := 2.
Definition NILFS_RECLAIM_PARAM_MIN_RECLAIMABLE_BLKS : Z := 4.
Definition __NR_NILFS_RECLAIM_PARAMS : Z := 3.

Record nilfs_reclaim_params := mk_params {
  rp_flags : Z; rp_min_reclaimable_blks : Z; rp_protseq : Z; rp_protcno : Z;
}.

Record nilfs_reclaim_stat := mk_stat {
  rs_exflags : Z; rs_cleaned_segs : Z; rs_protected_segs : Z; rs_deferred_segs : Z;
  rs_live_blks : Z; rs_live_vblks : Z; rs_live_pblks : Z;
  rs_defunct_blks : Z; rs_defunct_vblks : Z; rs_defunct_pblks : Z; rs_freed_vblks : Z;
}.

(** After [memset(&stat, 0, sizeof(stat))]. *)
Definition zero_stat : nilfs_reclaim_stat := mk_stat 0 0 0 0 0 0 0 0 0 0 0.

(** ** Comparison functions *)

Definition nilfs_comp_vdesc_blocknr (v1 v2 : nilfs_vdesc) : Z :=
  if vd_blocknr v1 <? vd_blocknr v2 then -1 else 1.

Definition nilfs_comp_vdesc_vblocknr (v1 v2 : nilfs_vdesc) : Z :=
  if vd_vblocknr v1 <? vd_vblocknr v2 then -1 else 1.

Definition nilfs_comp_period (p1 p2 : nilfs_period) : Z :=
  if p_start p1 <? p_start p2 then -1 else if p_start p1 =? p_start p2 then 0 else 1.

Definition nilfs_comp_bdesc (b1 b2 : nilfs_bdesc) : Z :=
  if bd_ino b1 <? bd_ino b2 then -1 else if bd_ino b2 <? bd_ino b1 then 1
  else if bd_level b1 <? bd_level b2 then -1 else if bd_level b2 <? bd_level b1 then 1
  else if bd_offset b1 <? bd_offset b2 then -1 else if bd_offset b2 <? bd_offset b1 then 1
  else 0.

(** ** Deselection of a segment *)

(** The array after the call and the value returned; [None] is an access
    outside of the array. *)
Definition nilfs_deselect_segment (segnums : list Z) (nsegs nr : Z) : option (list Z * Z) :=
  if (nsegs <=? nr) || (nsegs =? 0) then Some (segnums, -1)
  else
    tn ← segnums !! Z.to_nat nr;
    if nr <? nsegs - 1 then
      moved ← memmove_cells nr (nr + 1) (nsegs - 1 - nr) segnums;
      Some (<[Z.to_nat (nsegs - 1) := tn]> moved, nsegs - 1)
    else Some (segnums, nsegs - 1).

(** ** Liveness *)

(** The binary search of [nilfs_vdesc_is_live]: the snapshot found. *)
Fixpoint search_snapshot (fuel : nat) (p : nilfs_period) (ss : list Z) (low high : Z)
  : option (option Z) :=
  match fuel with
  | O => None
  | Datatypes.S fuel' =>
    if low <=? high then
      let index := (low + high) ÷ 2 in
      x ← ss !! Z.to_nat index;
      if x <? p_start p then search_snapshot fuel' p ss (index + 1) high
      else if p_end p <=? x then search_snapshot fuel' p ss low (index - 1)
      else Some (Some x)
    else Some None
  end.

(** The verdict and the last hit; [None] is an access outside of [ss] or a
    search that does not end. *)
Definition nilfs_vdesc_is_live (vdesc : nilfs_vdesc) (protect : Z) (ss : list Z) (last_hit : Z)
  : option (bool * Z) :=
  let p := vd_period vdesc in
  let n := Z.of_nat (length ss) in
  if vd_cno vdesc =? 0 then Some (p_end p =? NILFS_CNO_MAX, last_hit)
  else if p_end p =? vd_cno vdesc then Some (false, last_hit)
  else if (p_end p =? NILFS_CNO_MAX) || (protect <? p_end p) then Some (true, last_hit)
  else if n =? 0 then Some (false, last_hit)
  else
    first ← ss !! 0%nat;
    last ← ss !! Z.to_nat (n - 1);
    if (last <? p_start p) || (p_end p <=? first) then Some (false, last_hit)
    else if (p_start p <=? last_hit) && (last_hit <? p_end p) then Some (true, last_hit)
    else
      r ← search_snapshot (Datatypes.S (length ss)) p ss 0 (n - 1);
      match r with
      | Some x => Some (true, x)
      | None => Some (false, last_hit)
      end.

Definition nilfs_bdesc_is_live (bdesc : nilfs_bdesc) : bool :=
  bd_oblocknr bdesc =? bd_blocknr bdesc.

(** What freshly obtained vector elements hold. *)
Class Junk := {
  junk_vdesc : nilfs_vdesc; junk_bdesc : nilfs_bdesc; junk_period : nilfs_period;
  junk_u64 : Z; junk_sup : nilfs_suinfo_update; junk_si : nilfs_suinfo;
}.

Record gcs (W : Type) := mk_gcs {
  g_sys : sys W;
  g_segnums : list Z;
  g_stat : option nilfs_reclaim_stat;
  g_vdescv : nilfs_vector nilfs_vdesc;
  g_bdescv : nilfs_vector nilfs_bdesc;
  g_periodv : nilfs_vector nilfs_period;
  g_vblocknrv : nilfs_vector Z;
  g_supv : nilfs_vector nilfs_suinfo_update;
}.
Arguments mk_gcs {W} _ _ _ _ _ _ _ _.
Arguments g_sys {W} _.
Arguments g_segnums {W} _.
Arguments g_stat {W} _.
Arguments g_vdescv {W} _.
Arguments g_bdescv {W} _.
Arguments g_periodv {W} _.
Arguments g_vblocknrv {W} _.
Arguments g_supv {W} _.

Section Setters.
Context {W : Type} (g : gcs W).
Definition with_sys (x : sys W) : gcs W :=
  mk_gcs x (g_segnums g) (g_stat g) (g_vdescv g) (g_bdescv g) (g_periodv g) (g_vblocknrv g) (g_supv g).
Definition with_segnums (x : list Z) : gcs W :=
  mk_gcs (g_sys g) x (g_stat g) (g_vdescv g) (g_bdescv g) (g_periodv g) (g_vblocknrv g) (g_supv g).
Definition with_stat (x : option nilfs_reclaim_stat) : gcs W :=
  mk_gcs (g_sys g) (g_segnums g) x (g_vdescv g) (g_bdescv g) (g_periodv g) (g_vblocknrv g) (g_supv g).
Definition with_vdescv (x : nilfs_vector nilfs_vdesc) : gcs W :=
  mk_gcs (g_sys g) (g_segnums g) (g_stat g) x (g_bdescv g) (g_periodv g) (g_vblocknrv g) (g_supv g).
Definition with_bdescv (x : nilfs_vector nilfs_bdesc) : gcs W :=
  mk_gcs (g_sys g) (g_segnums g) (g_stat g) (g_vdescv g) x (g_periodv g) (g_vblocknrv g) (g_supv g).
Definition with_periodv (x : nilfs_vector nilfs_period) : gcs W :=
  mk_gcs (g_sys g) (g_segnums g) (g_stat g) (g_vdescv g) (g_bdescv g) x (g_vblocknrv g) (g_supv g).
Definition with_vblocknrv (x : nilfs_vector Z) : gcs W :=
  mk_gcs (g_sys g) (g_segnums g) (g_stat g) (g_vdescv g) (g_bdescv g) (g_periodv g) x (g_supv g).
Definition with_supv (x : nilfs_vector nilfs_suinfo_update) : gcs W :=
  mk_gcs (g_sys g) (g_segnums g) (g_stat g) (g_vdescv g) (g_bdescv g) (g_periodv g) (g_vblocknrv g) x.
End Setters.

Section Gc.
Context {W : Type} {K : Kernel W} {J : Junk}.
Abbreviation G := (M (gcs W)).

(** A call of the nilfs library. *)
Definition call {A} (m : M (sys W) A) : G A :=
  fun g => let '(r, s) := m (g_sys g) in (r, with_sys g s).

#[export] Instance gcs_alloc : Alloc (gcs W) :=
  fun n g => let '(b, s) := malloc n (g_sys g) in (b, with_sys g s).

(** [for (init; !is_end(it); next(it)) body] over the iterators of
    segment.h; the result is the iterator after the loop. *)
Fixpoint for_each {I : Type} (fuel : nat) (is_end : I -> option (bool * I))
    (next : I -> option I) (body : I -> G unit) (it : I) : G I :=
  match fuel with
  | O => out_of_fuel
  | Datatypes.S fuel' =>
    let* (stop, it') := of_option (is_end it) in
    if (stop : bool) then ret it'
    else
      body it' ;;
      let* it'' := of_option (next it') in
      for_each fuel' is_end next body it''
  end.

(** A new element of a vector of the state, and the assignments to its
    fields that follow, which may read outside of the segment. *)
Definition push {A} (junk : A) (get : gcs W -> nilfs_vector A)
    (set : gcs W -> nilfs_vector A -> gcs W) (f : A -> option A) : G unit :=
  let* v := gets get in
  let* (i, v') := nilfs_vector_get_new_element junk v in
  let* x := of_option (read_cell v' i) in
  let* y := of_option (f x) in
  modify (fun g => set g (write_cell v' i (fun _ => y))).

Definition push_vdesc := push junk_vdesc g_vdescv with_vdescv.
Definition push_bdesc := push junk_bdesc g_bdescv with_bdescv.
Definition push_period := push junk_period g_periodv with_periodv.
Definition push_vblocknr := push junk_u64 g_vblocknrv with_vblocknrv.
Definition push_sup := push junk_sup g_supv with_supv.

(** ** Collecting the blocks of a segment *)

Section Collect.
Context (seg : nilfs_segment).
Abbreviation mem := (seg_addr seg).

(** The descriptor of one DAT block: [bd_blocknr] is not assigned. *)
Definition acc_bdesc (ino : Z) (blk : nilfs_block) : G unit :=
  push_bdesc (fun b =>
    offset ← rd_le 8 mem (bk_binfo blk);
    level ← (if nilfs_block_is_data blk then Some 0 else rd_le 1 mem (bk_binfo blk + 8));
    Some (mk_bdesc ino (bk_blocknr blk) (bd_blocknr b) offset level)).

(** The descriptor of one virtual block: [vd_period] is not assigned, nor
    is [vd_offset] for a node block. *)
Definition acc_vdesc (ino cno : Z) (blk : nilfs_block) : G unit :=
  push_vdesc (fun v =>
    vblocknr ← rd_le 8 mem (bk_binfo blk);
    offset ← (if nilfs_block_is_data blk then rd_le 8 mem (bk_binfo blk + 8)
              else Some (vd_offset v));
    Some (mk_vdesc ino cno vblocknr (vd_period v) (bk_blocknr blk) offset
            (if nilfs_block_is_data blk then 0 else 1))).

Definition for_each_block (ps : nilfs_psegment) (f : nilfs_file) (body : nilfs_block -> G unit)
  : G unit :=
  let* b := of_option (nilfs_block_init seg ps f) in
  for_each (Datatypes.S (Z.to_nat (bk_nbinfo b))) (fun b => Some (nilfs_block_is_end b, b))
    (fun b => Some (nilfs_block_next ps b)) body b ;;
  ret tt.

Definition nilfs_acc_blocks_file (ps : nilfs_psegment) (f : nilfs_file) : G unit :=
  let* ino := of_option (rd_le 8 mem (fl_finfo f + fi_ino_off)) in
  if fl_use_real_blocknr f then for_each_block ps f (acc_bdesc ino)
  else
    let* cno := of_option (rd_le 8 mem (fl_finfo f + fi_cno_off)) in
    for_each_block ps f (acc_vdesc ino cno).

Definition nilfs_acc_blocks_psegment (ps : nilfs_psegment) : G unit :=
  let* f := of_option (nilfs_file_init seg ps) in
  let* last := for_each (Datatypes.S (Z.to_nat (seg_segsize seg))) (nilfs_file_is_end seg ps)
                 (nilfs_file_next seg ps) (nilfs_acc_blocks_file ps) f in
  if nilfs_file_is_error last then fail EINVAL else ret tt.

Definition nilfs_acc_blocks_segment (nblocks : Z) : G unit :=
  let* last := for_each (Datatypes.S (Z.to_nat (seg_nblocks seg))) (nilfs_psegment_is_end seg)
                 (nilfs_psegment_next seg) nilfs_acc_blocks_psegment
                 (nilfs_psegment_init seg nblocks) in
  if nilfs_psegment_is_error last then fail EINVAL else ret tt.
End Collect.

Definition deselect (n i : Z) : G Z :=
  let* segnums := gets g_segnums in
  match nilfs_deselect_segment segnums n i with
  | Some (segnums', n') => modify (fun g => with_segnums g segnums') ;; ret n'
  | None => abort
  end.

(** The [while (i < n)] loop of [nilfs_acc_blocks].  [si] is the local
    variable, which keeps its value when the ioctl returns no entry. *)
Fixpoint acc_blocks_loop (fuel : nat) (protseq : Z) (si : nilfs_suinfo) (i n : Z) : G Z :=
  match fuel with
  | O => out_of_fuel
  | Datatypes.S fuel' =>
    if i <? n then
      let* segnums := gets g_segnums in
      let* segnum := of_option (segnums !! Z.to_nat i) in
      let* sis := call (nilfs_get_suinfo segnum 1) in
      let si := default si (head sis) in
      if negb (nilfs_suinfo_reclaimable si) then
        let* n := deselect n i in acc_blocks_loop fuel' protseq si i n
      else if nilfs_suinfo_empty si then acc_blocks_loop fuel' protseq si (i + 1) n
      else
        let* segment := call (nilfs_get_segment segnum) in
        if cnt64_ge (seg_seqnum segment) protseq then
          let* n := deselect n i in
          call (nilfs_put_segment segment) ;;
          acc_blocks_loop fuel' protseq si i n
        else
          let* r := attempt (nilfs_acc_blocks_segment segment (sui_nblocks si)) in
          call (nilfs_put_segment segment) ;;
          match r with
          | inl _ => acc_blocks_loop fuel' protseq si (i + 1) n
          | inr e => fail e
          end
    else ret n
  end.

Definition nilfs_acc_blocks (nsegs protseq : Z) : G Z :=
  acc_blocks_loop (Datatypes.S (Z.to_nat nsegs)) protseq junk_si 0 nsegs.

(** ** Virtual blocks *)

(** The periods the kernel reported, stored in the elements from [i] on. *)
Fixpoint store_vinfo (i : Z) (vinfo : list nilfs_vinfo) : G unit :=
  match vinfo with
  | [] => ret tt
  | vi :: vinfo' =>
    let* vdescv := gets g_vdescv in
    let* k := of_option (nilfs_vector_get_element vdescv i) in
    let* vdesc := of_option (read_cell vdescv k) in
    if negb (vd_vblocknr vdesc =? vi_vblocknr vi) then abort
    else
      modify (fun g => with_vdescv g (write_cell vdescv k (fun v =>
        mk_vdesc (vd_ino v) (vd_cno v) (vd_vblocknr v) (mk_period (vi_start vi) (vi_end vi))
                 (vd_blocknr v) (vd_offset v) (vd_flags v)))) ;;
      store_vinfo (i + 1) vinfo'
  end.

(** The request for the elements [i .. i + NILFS_GC_NVINFO); the fields other
    than the block number are filled in by the kernel. *)
Definition vinfo_request (vdescv : nilfs_vector nilfs_vdesc) (i : Z) : list nilfs_vinfo :=
  (fun v => mk_vinfo (vd_vblocknr v) 0 0 0) <$>
    take (Z.to_nat NILFS_GC_NVINFO) (drop (Z.to_nat i) (elems vdescv)).

Fixpoint get_vdesc_loop (fuel : nat) (i : Z) : G unit :=
  match fuel with
  | O => out_of_fuel
  | Datatypes.S fuel' =>
    let* vdescv := gets g_vdescv in
    if i <? nilfs_vector_get_size vdescv then
      let req := vinfo_request vdescv i in
      let* vinfo := call (nilfs_get_vinfo req (Z.of_nat (length req))) in
      store_vinfo i vinfo ;;
      get_vdesc_loop fuel' (i + Z.of_nat (length vinfo))
    else ret tt
  end.

Definition nilfs_get_vdesc : G unit :=
  modify (fun g => with_vdescv g (nilfs_vector_sort nilfs_comp_vdesc_vblocknr (g_vdescv g))) ;;
  let* vdescv := gets g_vdescv in
  get_vdesc_loop (Datatypes.S (Z.to_nat (nilfs_vector_get_size vdescv))) 0.

(** The entries of one reply appended to the array of snapshots, which has
    room for [nsss] of them. *)
Fixpoint store_snapshots (nsss : Z) (ss : list Z) (prev : Z) (ci : list nilfs_cpinfo)
  : G (list Z * Z) :=
  match ci with
  | [] => ret (ss, prev)
  | c :: ci' =>
    if nsss <=? Z.of_nat (length ss) then abort
    else if ci_cno c <=? prev then fail EIO
    else store_snapshots nsss (ss ++ [ci_cno c]) (ci_cno c) ci'
  end.

Fixpoint get_snapshot_loop (fuel : nat) (nsss : Z) (ss : list Z) (prev cno : Z) : G (list Z) :=
  match fuel with
  | O => out_of_fuel
  | Datatypes.S fuel' =>
    if Z.of_nat (length ss) <? nsss then
      let* cpinfo := call (nilfs_get_cpinfo cno NILFS_SNAPSHOT NILFS_GC_NCPINFO) in
      match last cpinfo with
      | None => ret ss
      | Some final =>
        let* (ss, prev) := store_snapshots nsss ss prev cpinfo in
        if ci_next final =? 0 then ret ss
        else get_snapshot_loop fuel' nsss ss prev (ci_next final)
      end
    else ret ss
  end.

Definition nilfs_get_snapshot : G (list Z) :=
  let* cpstat := call nilfs_get_cpstat in
  if cs_nsss cpstat =? 0 then ret []
  else
    m_malloc (u64 (sizeof_uint64 * cs_nsss cpstat)) ;;
    get_snapshot_loop (Datatypes.S (Z.to_nat (cs_nsss cpstat))) (cs_nsss cpstat) [] 0 0.

(** The inner loop of [nilfs_toss_vdescs]: the first live element from [j]
    on, the dead ones before it being recorded for deletion. *)
Fixpoint toss_inner (fuel : nat) (protcno : Z) (ss : list Z) (j last_hit : Z) : G (Z * Z) :=
  match fuel with
  | O => out_of_fuel
  | Datatypes.S fuel' =>
    let* vdescv := gets g_vdescv in
    if j <? nilfs_vector_get_size vdescv then
      let* k := of_option (nilfs_vector_get_element vdescv j) in
      let* vdesc := of_option (read_cell vdescv k) in
      let* (live, last_hit) := of_option (nilfs_vdesc_is_live vdesc protcno ss last_hit) in
      if (live : bool) then ret (j, last_hit)
      else
        push_vblocknr (fun _ => Some (vd_vblocknr vdesc)) ;;
        (if negb (vd_cno vdesc =? 0) then push_period (fun _ => Some (vd_period vdesc))
         else ret tt) ;;
        toss_inner fuel' protcno ss (j + 1) last_hit
    else ret (j, last_hit)
  end.

(** The result of the deletion is not checked. *)
Definition delete_range {A} (get : gcs W -> nilfs_vector A)
    (set : gcs W -> nilfs_vector A -> gcs W) (i n : Z) : G unit :=
  let* v := gets get in
  let* r := attempt (nilfs_vector_delete_elements v i n) in
  match r with
  | inl v' => modify (fun g => set g v')
  | inr _ => ret tt
  end.

Fixpoint toss_outer (fuel : nat) (protcno : Z) (ss : list Z) (i last_hit : Z) : G unit :=
  match fuel with
  | O => out_of_fuel
  | Datatypes.S fuel' =>
    let* vdescv := gets g_vdescv in
    let size := nilfs_vector_get_size vdescv in
    if i <? size then
      let* (j, last_hit) := toss_inner (Datatypes.S (Z.to_nat (size - i))) protcno ss i last_hit in
      (if i <? j then delete_range g_vdescv with_vdescv i (j - i) else ret tt) ;;
      toss_outer fuel' protcno ss (i + 1) last_hit
    else ret tt
  end.

Definition nilfs_toss_vdescs (protcno : Z) : G unit :=
  let* ss := nilfs_get_snapshot in
  let* vdescv := gets g_vdescv in
  toss_outer (Datatypes.S (Z.to_nat (nilfs_vector_get_size vdescv))) protcno ss 0 0.

(** ** Periods *)

(** The inner loop of [nilfs_unify_period]: the base element [i] absorbs the
    elements [j], [j + 1], ... that start at or before its end; the result
    is the first one that does not. *)
Fixpoint unify_inner (fuel : nat) (i j : Z) : G Z :=
  match fuel with
  | O => out_of_fuel
  | Datatypes.S fuel' =>
    let* periodv := gets g_periodv in
    if j <? nilfs_vector_get_size periodv then
      let* base := of_option (read_cell periodv i) in
      let* k := of_option (nilfs_vector_get_element periodv j) in
      let* target := of_option (read_cell periodv k) in
      if p_end base <? p_start target then ret j
      else
        (if p_end base <? p_end target then
           modify (fun g => with_periodv g (write_cell periodv i (fun p =>
             mk_period (p_start p) (p_end target))))
         else ret tt) ;;
        unify_inner fuel' i (j + 1)
    else ret j
  end.

Fixpoint unify_outer (fuel : nat) (i : Z) : G unit :=
  match fuel with
  | O => out_of_fuel
  | Datatypes.S fuel' =>
    let* periodv := gets g_periodv in
    let size := nilfs_vector_get_size periodv in
    if i <? size then
      let* _ := of_option (nilfs_vector_get_element periodv i) in
      let* j := unify_inner (Datatypes.S (Z.to_nat (size - i))) i (i + 1) in
      (if i + 1 <? j then delete_range g_periodv with_periodv (i + 1) (j - i - 1) else ret tt) ;;
      unify_outer fuel' (i + 1)
    else ret tt
  end.

Definition nilfs_unify_period : G unit :=
  modify (fun g => with_periodv g (nilfs_vector_sort nilfs_comp_period (g_periodv g))) ;;
  let* periodv := gets g_periodv in
  unify_outer (Datatypes.S (Z.to_nat (nilfs_vector_get_size periodv))) 0.

(** ** Blocks of the DAT file *)

(** The kernel updates [n] descriptors of the array from [i] on in place. *)
Definition store_bdescs (i : Z) (bdescs : list nilfs_bdesc) (v : nilfs_vector nilfs_bdesc)
  : nilfs_vector nilfs_bdesc :=
  mk_vector (list_inserts (Z.to_nat i) bdescs (v_data v)) (v_elemsize v) (v_nelems v) (v_maxelems v).

Fixpoint get_bdesc_loop (fuel : nat) (nbdescs i : Z) : G unit :=
  match fuel with
  | O => out_of_fuel
  | Datatypes.S fuel' =>
    if i <? nbdescs then
      let count := Z.min (nbdescs - i) NILFS_GC_NBDESCS in
      let* bdescv := gets g_bdescv in
      let* bdescs := call (nilfs_get_bdescs (drop (Z.to_nat i) (v_data bdescv)) count) in
      modify (fun g => with_bdescv g (store_bdescs i bdescs bdescv)) ;;
      get_bdesc_loop fuel' nbdescs (i + Z.of_nat (length bdescs))
    else ret tt
  end.

Definition nilfs_get_bdesc : G unit :=
  modify (fun g => with_bdescv g (nilfs_vector_sort nilfs_comp_bdesc (g_bdescv g))) ;;
  let* bdescv := gets g_bdescv in
  let nbdescs := nilfs_vector_get_size bdescv in
  get_bdesc_loop (Datatypes.S (Z.to_nat nbdescs)) nbdescs 0.

Fixpoint toss_bdescs_inner (fuel : nat) (j : Z) : G Z :=
  match fuel with
  | O => out_of_fuel
  | Datatypes.S fuel' =>
    let* bdescv := gets g_bdescv in
    if j <? nilfs_vector_get_size bdescv then
      let* k := of_option (nilfs_vector_get_element bdescv j) in
      let* bdesc := of_option (read_cell bdescv k) in
      if nilfs_bdesc_is_live bdesc then ret j else toss_bdescs_inner fuel' (j + 1)
    else ret j
  end.

Fixpoint toss_bdescs_outer (fuel : nat) (i : Z) : G unit :=
  match fuel with
  | O => out_of_fuel
  | Datatypes.S fuel' =>
    let* bdescv := gets g_bdescv in
    let size := nilfs_vector_get_size bdescv in
    if i <? size then
      let* j := toss_bdescs_inner (Datatypes.S (Z.to_nat (size - i))) i in
      (if i <? j then delete_range g_bdescv with_bdescv i (j - i) else ret tt) ;;
      toss_bdescs_outer fuel' (i + 1)
    else ret tt
  end.

Definition nilfs_toss_bdescs : G unit :=
  let* bdescv := gets g_bdescv in
  toss_bdescs_outer (Datatypes.S (Z.to_nat (nilfs_vector_get_size bdescv))) 0.

(** ** Reclaiming *)

(** [if (stat) ...] *)
Definition update_stat (f : nilfs_reclaim_stat -> nilfs_reclaim_stat) : G unit :=
  modify (fun g => with_stat g (f <$> g_stat g)).

Definition stat_counts (n nsegs : Z) (st : nilfs_reclaim_stat) : nilfs_reclaim_stat :=
  mk_stat (rs_exflags st) n (u64 (nsegs - n)) 0 (rs_live_blks st) (rs_live_vblks st)
    (rs_live_pblks st) (rs_defunct_blks st) (rs_defunct_vblks st) (rs_defunct_pblks st)
    (rs_freed_vblks st).

Definition stat_vblks (nblocks live freed : Z) (st : nilfs_reclaim_stat) : nilfs_reclaim_stat :=
  mk_stat (rs_exflags st) (rs_cleaned_segs st) (rs_protected_segs st) (rs_deferred_segs st)
    (rs_live_blks st) live (rs_live_pblks st) (rs_defunct_blks st) (u64 (nblocks - live))
    (rs_defunct_pblks st) freed.

Definition stat_pblks (nblocks live reclaimable : Z) (st : nilfs_reclaim_stat)
  : nilfs_reclaim_stat :=
  mk_stat (rs_exflags st) (rs_cleaned_segs st) (rs_protected_segs st) (rs_deferred_segs st)
    (u64 (rs_live_vblks st + live)) (rs_live_vblks st) live reclaimable (rs_defunct_vblks st)
    (u64 (nblocks - live)) (rs_freed_vblks st).

Definition stat_deferred (deferred cleaned : Z) (st : nilfs_reclaim_stat) : nilfs_reclaim_stat :=
  mk_stat (rs_exflags st) cleaned (rs_protected_segs st) deferred (rs_live_blks st)
    (rs_live_vblks st) (rs_live_pblks st) (rs_defunct_blks st) (rs_defunct_vblks st)
    (rs_defunct_pblks st) (rs_freed_vblks st).

(** The suinfo updates of the first [n] segments.  [false] when an element
    could not be allocated. *)
Fixpoint fill_sup (n : nat) (i : Z) (now : Z) : G bool :=
  match n with
  | O => ret true
  | Datatypes.S n' =>
    let* segnums := gets g_segnums in
    let* r := attempt (push_sup (fun sup =>
      segnum ← segnums !! Z.to_nat i;
      let sup := mk_suinfo_update segnum 0 (sup_reserved sup) (sup_sui sup) in
      let sup := nilfs_suinfo_update_set_lastmod sup in
      Some (mk_suinfo_update (sup_segnum sup) (sup_flags sup) (sup_reserved sup)
              (mk_suinfo now (sui_nblocks (sup_sui sup)) (sui_flags (sup_sui sup)))))) in
    match r with
    | inl _ => fill_sup n' (i + 1) now
    | inr _ => ret false
    end
  end.

(** Updating the last modification time instead of cleaning: [true] when
    the function is to return 0 at once, [false] to go on with cleaning. *)
Definition defer_segments (n : Z) : G bool :=
  update_stat (stat_deferred n 0) ;;
  let* now := call (os k_gettimeofday) in
  let* filled := fill_sup (Z.to_nat n) 0 now in
  if negb filled then ret true
  else
    let* supv := gets g_supv in
    let* r := attempt (call (nilfs_set_suinfo (v_data supv) n)) in
    match r with
    | inl _ => ret true
    | inr e =>
      if negb (e =? ENOTTY) then fail e
      else
        call (nilfs_opt_clear NILFS_OPT_SET_SUINFO) ;;
        update_stat (stat_deferred 0 n) ;;
        ret false
    end.

Definition clean_segments_now (n : Z) : G unit :=
  let* g := get_state in
  call (nilfs_clean_segments (elems (g_vdescv g)) (elems (g_periodv g)) (elems (g_vblocknrv g))
          (elems (g_bdescv g)) (take (Z.to_nat n) (g_segnums g))).

(** From the test for signals on. *)
Definition commit_segments (params : nilfs_reclaim_params) (n reclaimable_blocks : Z) : G unit :=
  let* pending := call (os sigpending_intterm) in
  if (pending : bool) then ret tt
  else
    let* nf := call the_nilfs in
    let* finished :=
      (if negb (Z.land (rp_flags params) NILFS_RECLAIM_PARAM_MIN_RECLAIMABLE_BLKS =? 0)
          && nilfs_opt_test NILFS_OPT_SET_SUINFO nf
          && (reclaimable_blocks <? u64 (rp_min_reclaimable_blks params * n))
       then defer_segments n else ret false) in
    if (finished : bool) then ret tt else clean_segments_now n.

(** The part of [nilfs_xreclaim_segment] that runs with the lock held. *)
Definition reclaim_locked (nsegs : Z) (dryrun : bool) (params : nilfs_reclaim_params) : G unit :=
  let* n := nilfs_acc_blocks nsegs (rp_protseq params) in
  if n <? 0 then call errno_now
  else
    update_stat (stat_counts n nsegs) ;;
    if n =? 0 then ret tt
    else
      nilfs_get_vdesc ;;
      let* nvblocks := gets (fun g => nilfs_vector_get_size (g_vdescv g)) in
      let protcno := if negb (Z.land (rp_flags params) NILFS_RECLAIM_PARAM_PROTCNO =? 0)
                     then rp_protcno params else NILFS_CNO_MAX in
      nilfs_toss_vdescs protcno ;;
      let* nlive := gets (fun g => nilfs_vector_get_size (g_vdescv g)) in
      let* nfreed := gets (fun g => nilfs_vector_get_size (g_vblocknrv g)) in
      update_stat (stat_vblks nvblocks nlive nfreed) ;;
      modify (fun g => with_vdescv g (nilfs_vector_sort nilfs_comp_vdesc_blocknr (g_vdescv g))) ;;
      nilfs_unify_period ;;
      nilfs_get_bdesc ;;
      let* nbblocks := gets (fun g => nilfs_vector_get_size (g_bdescv g)) in
      nilfs_toss_bdescs ;;
      let* nblive := gets (fun g => nilfs_vector_get_size (g_bdescv g)) in
      let* bps := call nilfs_get_blocks_per_segment in
      let reclaimable_blocks := u32 (bps * n - (nlive + nblive)) in
      update_stat (stat_pblks nbblocks nblive reclaimable_blocks) ;;
      if dryrun then ret tt else commit_segments params n reclaimable_blocks.

(** [out_lock]: unlock whatever happened, or die. *)
Definition unlock_or_exit : G unit :=
  let* r := attempt (call (nilfs_unlock 0)) in
  match r with inl _ => ret tt | inr _ => exit_with 1 end.

Definition restore_signals : G unit :=
  modify (fun g => with_sys g (mk_sys (s_nilfs (g_sys g)) (sigprocmask_restore (s_world (g_sys g))))).

(** Run [m], then [cleanup] on both outcomes, with the result of [m]. *)
Definition finally {A} (m : G A) (cleanup : G unit) : G A :=
  let* r := attempt m in
  cleanup ;;
  match r with inl a => ret a | inr e => fail e end.

Definition params_ok (params : nilfs_reclaim_params) : bool :=
  negb (Z.land (rp_flags params) NILFS_RECLAIM_PARAM_PROTSEQ =? 0) &&
  (Z.land (rp_flags params) (u64 (Z.shiftl (2 ^ 64 - 1) __NR_NILFS_RECLAIM_PARAMS)) =? 0).

(** The vectors are created at the start and freed at the end. *)
Definition create_vectors : G unit :=
  let* r1 := attempt (nilfs_vector_create junk_vdesc sizeof_nilfs_vdesc) in
  let* r2 := attempt (nilfs_vector_create junk_bdesc sizeof_nilfs_bdesc) in
  let* r3 := attempt (nilfs_vector_create junk_period sizeof_nilfs_period) in
  let* r4 := attempt (nilfs_vector_create junk_u64 sizeof_uint64) in
  let* r5 := attempt (nilfs_vector_create junk_sup sizeof_nilfs_suinfo_update) in
  match r1, r2, r3, r4, r5 with
  | inl vdescv, inl bdescv, inl periodv, inl vblocknrv, inl supv =>
    modify (fun g => mk_gcs (g_sys g) (g_segnums g) (g_stat g) vdescv bdescv periodv vblocknrv supv)
  | _, _, _, _, _ => fail ENOMEM
  end.

Definition nilfs_xreclaim_segment (nsegs : Z) (dryrun : bool) (params : nilfs_reclaim_params)
  : G unit :=
  if negb (params_ok params) then fail EINVAL
  else if nsegs =? 0 then ret tt
  else
    create_vectors ;;
    call (os sigprocmask_block) ;;
    finally
      (call (nilfs_lock 0) ;; finally (reclaim_locked nsegs dryrun params) unlock_or_exit)
      restore_signals.

Definition nilfs_reclaim_segment (nsegs protseq protcno : Z) : G Z :=
  let params := mk_params (Z.lor NILFS_RECLAIM_PARAM_PROTSEQ NILFS_RECLAIM_PARAM_PROTCNO)
                  0 protseq protcno in
  modify (fun g => with_stat g (Some zero_stat)) ;;
  nilfs_xreclaim_segment nsegs false params ;;
  let* st := gets g_stat in
  ret (i32 (match st with Some st => rs_cleaned_segs st | None => 0 end)).

Definition nilfs_segment_is_protected (segnum protseq : Z) : G bool :=
  let* seqnum := call (nilfs_get_segment_seqnum segnum) in
  ret (cnt64_ge seqnum protseq).

(** [Ok None] is the result 0 (the segment is clean), [Ok (Some stat)] the
    result 1. *)
Definition assess_segment_if_dirty (sustat : nilfs_sustat) (segnum protcno : Z)
  : G (option nilfs_reclaim_stat) :=
  let* sis := call (nilfs_get_suinfo segnum 1) in
  match sis with
  | [si] =>
    if nilfs_suinfo_clean si then ret None
    else
      let params := mk_params (Z.lor NILFS_RECLAIM_PARAM_PROTSEQ NILFS_RECLAIM_PARAM_PROTCNO)
                      0 (ss_prot_seq sustat) protcno in
      modify (fun g => with_segnums (with_stat g (Some zero_stat)) [segnum]) ;;
      nilfs_xreclaim_segment 1 true params ;;
      gets g_stat
  | _ => call errno_now
  end.
End Gc.
#[export] Existing Instance gcs_alloc.

(** ** Liveness of a virtual block *)

(** What the judgement means: system files (number 0) live while they are not
    superseded; a block overwritten within its own log is dead; any other block
    lives if its period reaches the current or a protected checkpoint, or
    contains a snapshot. *)
Definition vdesc_live (protect : Z) (ss : list Z) (v : nilfs_vdesc) : Prop :=
  let p := vd_period v in
  if decide (vd_cno v = 0) then p_end p = NILFS_CNO_MAX
  else p_end p <> vd_cno v /\
       (p_end p = NILFS_CNO_MAX \/ protect < p_end p \/
        exists x, x ∈ ss /\ p_start p <= x < p_end p).

#[export] Instance vdesc_live_dec protect ss v : Decision (vdesc_live protect ss v).
Proof.
  unfold vdesc_live. assert (Decision (exists x, x ∈ ss /\ p_start (vd_period v) <= x < p_end (vd_period v))).
  { refine (cast_if (decide (Exists (fun x => p_start (vd_period v) <= x < p_end (vd_period v)) ss)));
      by rewrite <- Exists_exists. }
  case_decide; apply _.
Defined.

(** The cached hit is a snapshot, or the initial 0. *)
Definition hit_ok (ss : list Z) (hit : Z) : Prop := hit = 0 \/ hit ∈ ss.

Section Liveness.
Context (ss : list Z).
Hypothesis Hss : StronglySorted Z.lt ss.

Lemma sorted_lookup (i j : nat) x y :
  (i <= j)%nat -> ss !! i = Some x -> ss !! j = Some y -> x <= y.
Proof using Hss.
  clear -Hss. revert i j. induction Hss as [|z l Hl IH Hz]; intros [|i] [|j] Hij Hi Hj;
    simplify_eq/=; try lia; [|by eapply (IH Hl i j); [lia|..]].
  rewrite Forall_forall in Hz. apply list_elem_of_lookup_2 in Hj. apply Hz in Hj. lia.
Qed.

(** The binary search finds a snapshot in the period if there is one. *)
Lemma search_snapshot_spec fuel p low high :
  0 <= low -> high < Z.of_nat (length ss) -> low <= high + 1 ->
  high + 1 - low < Z.of_nat fuel ->
  (forall (i : nat) x, ss !! i = Some x -> Z.of_nat i < low -> x < p_start p) ->
  (forall (i : nat) x, ss !! i = Some x -> high < Z.of_nat i -> p_end p <= x) ->
  match search_snapshot fuel p ss low high with
  | Some (Some x) => x ∈ ss /\ p_start p <= x < p_end p
  | Some None => ~ exists x, x ∈ ss /\ p_start p <= x < p_end p
  | None => False
  end.
Proof using Hss.
  revert low high; induction fuel as [|fuel IH]; intros low high Hl Hh Hlh Hf Hbelow Habove; [lia|].
  cbn [search_snapshot]. case_if.
  - rewrite Z.quot_div_nonneg by lia. set (m := (low + high) / 2).
    assert (Hm : low <= m <= high) by (unfold m; split; [apply Z.div_le_lower_bound|apply Z.div_le_upper_bound]; lia).
    destruct (lookup_lt_is_Some_2 ss (Z.to_nat m) ltac:(lia)) as [x Hx]. rewrite Hx. simpl.
    case_if; [|case_if].
    + apply IH; try lia; [|done]. intros i y Hy Hi.
      destruct (decide (Z.of_nat i <= m)); [|lia].
      pose proof (sorted_lookup i (Z.to_nat m) y x ltac:(lia) Hy Hx). lia.
    + apply IH; try lia; [done|]. intros i y Hy Hi.
      pose proof (sorted_lookup (Z.to_nat m) i x y ltac:(lia) Hx Hy). lia.
    + split; [by eapply list_elem_of_lookup_2|lia].
  - intros (x & [i Hi]%list_elem_of_lookup_1 & Hx).
    destruct (decide (Z.of_nat i < low)) as [Hb|Hb]; [apply Hbelow in Hi; lia|].
    apply Habove in Hi; lia.
Qed.

Lemma vdesc_is_live_spec v protect hit :
  0 < p_start (vd_period v) -> hit_ok ss hit ->
  exists live hit', nilfs_vdesc_is_live v protect ss hit = Some (live, hit') /\
    hit_ok ss hit' /\ (live = true <-> vdesc_live protect ss v).
Proof using Hss.
  intros Hp Hhit. unfold nilfs_vdesc_is_live, vdesc_live. set (p := vd_period v) in *.
  destruct (Z.eqb_spec (vd_cno v) 0); case_decide; try done.
  { do 2 eexists; split; [done|]. split; [done|]. apply Z.eqb_eq. }
  destruct (Z.eqb_spec (p_end p) (vd_cno v)); [do 2 eexists; split; [done|]; naive_solver|].
  destruct (Z.eqb_spec (p_end p) NILFS_CNO_MAX) as [|HM]; cbn [orb]; [do 2 eexists; split; [done|]; naive_solver|].
  case_if; [do 2 eexists; split; [done|]; naive_solver|].
  destruct (Z.eqb_spec (Z.of_nat (length ss)) 0).
  { assert (ss = []) as -> by (apply nil_length_inv; lia).
    do 2 eexists; split; [done|]. split; [done|]. split; [done|].
    intros (_ & [|[|(x & []%not_elem_of_nil & _)]]); lia. }
  destruct (lookup_lt_is_Some_2 ss 0 ltac:(lia)) as [first Hfirst].
  destruct (lookup_lt_is_Some_2 ss (Z.to_nat (Z.of_nat (length ss) - 1)) ltac:(lia)) as [final Hfinal].
  rewrite Hfirst, Hfinal. cbv [mbind option_bind]. destruct ((final <? p_start p) || (p_end p <=? first)) eqn:Hout.
  { do 2 eexists; split; [done|]. split; [done|]. split; [done|].
    intros (_ & [|[|(x & [i Hi]%list_elem_of_lookup_1 & Hx)]]); [lia..|].
    pose proof (lookup_lt_Some _ _ _ Hi).
    pose proof (sorted_lookup 0 i _ _ ltac:(lia) Hfirst Hi).
    pose proof (sorted_lookup i (Z.to_nat (Z.of_nat (length ss) - 1)) _ _ ltac:(lia) Hi Hfinal). lia. }
  destruct ((p_start p <=? hit) && (hit <? p_end p)) eqn:Hcache.
  { do 2 eexists; split; [done|]. split; [done|]. split; [|done]. intros _.
    apply andb_true_iff in Hcache as [H1%Z.leb_le H2%Z.ltb_lt].
    split; [done|]. right; right. destruct Hhit as [->|Hin]; [lia|]. eauto. }
  pose proof (search_snapshot_spec (Datatypes.S (length ss)) p 0 (Z.of_nat (length ss) - 1)
    ltac:(lia) ltac:(lia) ltac:(lia) ltac:(lia)) as Hsearch.
  destruct (search_snapshot _ p ss _ _) as [[x|]|].
  - do 2 eexists; split; [done|].
    destruct Hsearch as [Hx1 Hx2]; [lia|intros i y Hy; apply lookup_lt_Some in Hy; lia|].
    split; [by right|]. split; [|done]. eauto 8.
  - do 2 eexists; split; [done|]. split; [done|]. split; [done|].
    intros (_ & [|[|Hx]]); [lia..|]. exfalso. apply Hsearch; [lia| |done].
    intros i y Hy; apply lookup_lt_Some in Hy; lia.
  - exfalso. apply Hsearch; [lia|]. intros i y Hy; apply lookup_lt_Some in Hy; lia.
Qed.
End Liveness.

(** ** Tossing dead blocks *)

Section Toss.
Context {W : Type} {K : Kernel W} {J : Junk}.
Implicit Types g : gcs W.

Definition alloc_error (e : Z) : Prop := e = EOVERFLOW \/ e = ENOMEM.

(** A step of the state that only the allocator made. *)
Definition alloc_step (s s' : sys W) : Prop := s' = s \/ exists n b, malloc n s = (b, s').

(** What may have happened to the state meanwhile. *)
Definition alloc_only : relation (gcs W) := fun g g' => rtc alloc_step (g_sys g) (g_sys g').

#[export] Instance alloc_only_preorder : PreOrder alloc_only.
Proof. split; [intros g; apply rtc_refl|]. intros g1 g2 g3 H12 H23. by eapply rtc_trans. Qed.

Lemma new_element_frame {A} (junk : A) v g r g' :
  nilfs_vector_get_new_element junk v g = (r, g') -> exists s, g' = with_sys g s /\ alloc_step (g_sys g) s.
Proof.
  assert (Hid : g = with_sys g (g_sys g)) by by destruct g. unfold alloc_step.
  unfold nilfs_vector_get_new_element, nilfs_vector_enlarge, bind, ret, m_malloc, malloc at 1, gcs_alloc.
  case_if; [|intros [= _ <-]; eauto].
  destruct (enlarge_loop _ _ _ _); try (intros [= _ <-]; by eauto).
  match goal with |- context [malloc ?n (g_sys g)] => destruct (malloc n (g_sys g)) as [[] s] eqn:He end;
    intros [= _ <-]; eauto 6.
Qed.

(** A new element of a vector of the state gets the value assigned, which may
    keep part of what the element held. *)
Lemma push_value {A} (P : A -> Prop) (junk : A) get set (f : A -> option A) g :
  vec_wf (get g) -> (forall x, exists y, f x = Some y /\ P y) -> (forall g s, get (with_sys g s) = get g) ->
  match push junk get set f g with
  | (Ok _, g') => exists s v y, g' = set (with_sys g s) v /\ alloc_step (g_sys g) s /\ vec_wf v /\
      P y /\ elems v = elems (get g) ++ [y]
  | (Err e, g') => alloc_error e /\ exists s, g' = with_sys g s /\ alloc_step (g_sys g) s
  | _ => False
  end.
Proof.
  intros Hwf Hf Hget. unfold push, bind, gets.
  pose proof (get_new_element_spec junk (get g) g Hwf) as Hnew.
  destruct (nilfs_vector_get_new_element junk (get g) g) as [[[i v']|e| | |] g'] eqn:He; try done;
    apply new_element_frame in He; [|by eauto].
  destruct Hnew as (Hwf' & -> & Hn & Hsz & x & Hx).
  pose proof (wf_nelems _ Hwf) as Hnn. pose proof (elems_length _ Hwf) as Hlen.
  assert (Hlook : read_cell v' (v_nelems (get g)) = Some x).
  { unfold read_cell. rewrite <- (lookup_take_lt _ (Z.to_nat (v_nelems v'))) by lia.
    change (take _ _) with (elems v'). rewrite Hx, lookup_app_r by lia.
    by replace (Z.to_nat (v_nelems (get g)) - length (elems (get g)))%nat with 0%nat by lia. }
  destruct (Hf x) as (y & Hy & Py). rewrite Hlook. simpl. rewrite Hy. simpl.
  destruct He as (s & -> & Hs). do 2 eexists. exists y. split; [done|]. split; [done|].
  destruct (elems_write_cell v' (v_nelems (get g)) (fun _ => y) Hwf' ltac:(lia)) as [Hw1 Hw2].
  split; [done|]. split; [done|]. rewrite Hw2, Hx, alter_app_r_alt by lia.
  by replace (Z.to_nat (v_nelems (get g)) - length (elems (get g)))%nat with 0%nat by lia.
Qed.

Lemma push_spec {A} (junk : A) get set (f : A -> option A) y g :
  vec_wf (get g) -> (forall x, f x = Some y) -> (forall g s, get (with_sys g s) = get g) ->
  match push junk get set f g with
  | (Ok _, g') => exists s v, g' = set (with_sys g s) v /\ alloc_step (g_sys g) s /\ vec_wf v /\
      elems v = elems (get g) ++ [y]
  | (Err e, g') => alloc_error e /\ alloc_only g g'
  | _ => False
  end.
Proof.
  intros Hwf Hf Hget. pose proof (push_value (fun z => z = y) junk get set f g Hwf ltac:(eauto) Hget) as Hp.
  destruct (push junk get set f g) as [[[]|e| | |] g']; [| |done..].
  - destruct Hp as (s & v & ? & -> & Hs & Hv & -> & He). eauto 6.
  - destruct Hp as (He & s & -> & Hs). split; [done|]. by apply rtc_once.
Qed.

Lemma element_at {A} (v : nilfs_vector A) j x :
  vec_wf v -> 0 <= j -> elems v !! Z.to_nat j = Some x ->
  nilfs_vector_get_element v j = Some j /\ read_cell v j = Some x.
Proof.
  intros Hwf Hj Hx. pose proof (lookup_lt_Some _ _ _ Hx). pose proof (elems_length _ Hwf).
  unfold nilfs_vector_get_element, read_cell. split; [case_if; [done|lia]|].
  unfold elems in Hx. by rewrite lookup_take_lt in Hx by lia.
Qed.

(** The state of the three vectors that tossing changes. *)
Definition toss_state (g0 : gcs W) (vd : list nilfs_vdesc) (vb : list Z) (pd : list nilfs_period)
    (g : gcs W) : Prop :=
  exists s v b p, g = mk_gcs s (g_segnums g0) (g_stat g0) v (g_bdescv g0) p b (g_supv g0) /\
    vec_wf v /\ elems v = vd /\ vec_wf b /\ elems b = vb /\ vec_wf p /\ elems p = pd /\
    rtc alloc_step (g_sys g0) s.

Definition dead_periods (l : list nilfs_vdesc) : list nilfs_period :=
  vd_period <$> filter (fun v => vd_cno v <> 0) l.

(** Recording one dead block. *)
Lemma record_dead g0 vd vb pd v g : toss_state g0 vd vb pd g ->
  match (push_vblocknr (fun _ => Some (vd_vblocknr v)) ;;
         (if negb (vd_cno v =? 0) then push_period (fun _ => Some (vd_period v)) else ret tt)) g with
  | (Ok _, g') => toss_state g0 vd (vb ++ [vd_vblocknr v]) (pd ++ dead_periods [v]) g'
  | (Err e, g') => alloc_error e /\ alloc_only g0 g'
  | _ => False
  end.
Proof.
  intros (s & vv & b & p & -> & Hv & Hve & Hb & Hbe & Hp & Hpe & Hal). unfold bind at 1.
  set (g1 := mk_gcs _ _ _ _ _ _ _ _).
  pose proof (push_spec junk_u64 g_vblocknrv with_vblocknrv (fun _ => Some (vd_vblocknr v)) _ g1
    Hb (fun _ => eq_refl) (fun _ _ => eq_refl)) as Hpush.
  fold push_vblocknr in Hpush. destruct (push_vblocknr _ g1) as [[[]|e| | |] g2]; try done.
  2:{ destruct Hpush as [? Hg2]. split; [done|]. by eapply rtc_trans. }
  destruct Hpush as (s' & b' & -> & Hs' & Hb' & Hbe'). apply rtc_r with (z := s') in Hal; [|done]. simpl in Hbe'. unfold dead_periods.
  destruct (Z.eqb_spec (vd_cno v) 0) as [Hc|Hc]; simpl.
  { rewrite filter_cons_False by lia. exists s', vv, b', p. rewrite filter_nil. simpl.
    rewrite app_nil_r. split_and!; try done. by rewrite Hbe', Hbe. }
  set (g2 := with_vblocknrv _ _).
  pose proof (push_spec junk_period g_periodv with_periodv (fun _ => Some (vd_period v)) _ g2
    Hp (fun _ => eq_refl) (fun _ _ => eq_refl)) as Hpush.
  fold push_period in Hpush. destruct (push_period _ g2) as [[[]|e| | |] g3]; try done.
  2:{ destruct Hpush as [? Hg3]. split; [done|]. by eapply rtc_trans. }
  destruct Hpush as (s'' & p' & -> & Hs'' & Hp' & Hpe'). apply rtc_r with (z := s'') in Hal; [|done]. simpl in Hpe'. rewrite filter_cons_True by lia. rewrite filter_nil. simpl.
  exists s'', vv, b', p'. split_and!; try done; [by rewrite Hbe', Hbe|by rewrite Hpe', Hpe].
Qed.

Context (protcno : Z) (ss : list Z).
Hypothesis Hss : StronglySorted Z.lt ss.
Abbreviation live := (vdesc_live protcno ss).

(** The inner loop passes over a run of dead blocks and records them. *)
Lemma toss_inner_spec fuel g0 vd vb pd g j hit :
  toss_state g0 vd vb pd g -> Forall (fun v => 0 < p_start (vd_period v)) vd ->
  0 <= j <= Z.of_nat (length vd) -> hit_ok ss hit -> Z.of_nat (length vd) - j < Z.of_nat fuel ->
  match toss_inner fuel protcno ss j hit g with
  | (Ok (j', hit'), g') => hit_ok ss hit' /\ exists dead rest,
      drop (Z.to_nat j) vd = dead ++ rest /\ j' = j + Z.of_nat (length dead) /\
      Forall (fun v => ~ live v) dead /\ (match rest with [] => True | v :: _ => live v end) /\
      toss_state g0 vd (vb ++ (vd_vblocknr <$> dead)) (pd ++ dead_periods dead) g'
  | (Err e, g') => alloc_error e /\ alloc_only g0 g'
  | _ => False
  end.
Proof using Hss.
  revert vb pd g j hit; induction fuel as [|fuel IH]; intros vb pd g j hit Hg Hpos Hj Hhit Hf; [lia|].
  cbn [toss_inner]. unfold bind at 1, gets. pose proof Hg as (s & v & b & p & Hgeq & Hv & Hve & Hb & Hbe & Hp & Hpe & _).
  assert (Hgv : g_vdescv g = v) by by subst g. rewrite Hgv.
  unfold nilfs_vector_get_size. rewrite <- (elems_length v Hv), Hve.
  destruct (Z.ltb_spec j (Z.of_nat (length vd))) as [Hlt|Hge].
  - destruct (lookup_lt_is_Some_2 vd (Z.to_nat j) ltac:(lia)) as [x Hx].
    destruct (element_at v j x Hv ltac:(lia)) as [H1 H2]; [by rewrite Hve|].
    rewrite H1. unfold bind at 1, of_option at 1, ret. cbv beta iota. unfold bind at 1. rewrite H2.
    cbv beta iota delta [of_option ret].
    destruct (vdesc_is_live_spec ss Hss x protcno hit) as (lv & hit' & Hl & Hh' & Hiff); [by eapply (Forall_lookup_1 _ _ _ _ Hpos)|done|].
    unfold bind at 1. rewrite Hl. cbv beta iota.
    destruct lv.
    + split; [done|]. exists [], (drop (Z.to_nat j) vd). rewrite (drop_S _ x) by done. simpl.
      change (dead_periods []) with (@nil nilfs_period). rewrite !app_nil_r.
      split_and!; try done; [lia|]. by apply Hiff.
    + pose proof (record_dead g0 vd vb pd x g Hg) as Hrec.
      rewrite <- bind_assoc. unfold bind at 1.
      destruct (bind (push_vblocknr _) _ g) as [[[]|e| | |] g1]; try done.
      specialize (IH _ _ g1 (j + 1) hit' Hrec Hpos ltac:(lia) Hh' ltac:(lia)).
      destruct (toss_inner fuel protcno ss (j + 1) hit' g1) as [[[j' hit'']|e| | |] g2]; try done.
      destruct IH as (Hh'' & dead & rest & Hd & -> & Hdead & Hrest & Hst). split; [done|].
      exists (x :: dead), rest. rewrite (drop_S _ x) by done.
      replace (Datatypes.S (Z.to_nat j)) with (Z.to_nat (j + 1)) by lia. rewrite Hd.
      split_and!; [done|simpl; lia| |done|].
      { constructor; [|done]. intros Hx'. apply Hiff in Hx'. done. }
      unfold dead_periods in *. rewrite filter_cons. rewrite <- !app_assoc in Hst. simpl in Hst. rewrite filter_cons, filter_nil in Hst.
      by case_decide.
  - split; [done|]. exists [], []. rewrite drop_ge by lia.
    change (dead_periods []) with (@nil nilfs_period). rewrite !app_nil_r.
    split_and!; try done. simpl; lia.
Qed.

Lemma delete_range_spec {A} get set (v : nilfs_vector A) i n (g : gcs W) :
  get g = v -> vec_wf v -> 0 <= i -> 0 < n -> i + n <= Z.of_nat (length (elems v)) ->
  exists v', delete_range get set i n g = (Ok tt, set g v') /\ vec_wf v' /\
    elems v' = take (Z.to_nat i) (elems v) ++ drop (Z.to_nat (i + n)) (elems v).
Proof.
  intros Hg Hv Hi Hn Hle. unfold delete_range, gets, bind. rewrite Hg.
  pose proof (elems_length _ Hv). pose proof (vec_wf_bounds _ Hv) as [Hb _].
  pose proof (delete_elements_spec v i n g Hv Hi ltac:(lia) ltac:(lia)) as Hd.
  replace (_ && _) with true in Hd by (symmetry; rewrite !andb_true_iff, !orb_true_iff, !Z.ltb_lt, Z.leb_le; lia).
  destruct Hd as (v' & Hd & Hv' & He). unfold attempt. rewrite Hd. eauto.
Qed.

(** Dropping a run of elements that fail the test, and keeping the next. *)
Lemma toss_list {A} (P : A -> Prop) `{forall x, Decision (P x)} (pre dead rest : list A) :
  Forall (fun x => ~ P x) dead -> match rest with [] => True | x :: _ => P x end ->
  take (Datatypes.S (length pre)) (pre ++ rest) ++ filter P (drop (Datatypes.S (length pre)) (pre ++ rest))
    = pre ++ filter P (dead ++ rest) /\
  filter (fun x => ~ P x) (dead ++ rest) =
    dead ++ filter (fun x => ~ P x) (drop (Datatypes.S (length pre)) (pre ++ rest)).
Proof.
  intros Hdead Hrest. rewrite !filter_app.
  rewrite (filter_all_fail P dead), (filter_all_pass (fun x => ~ P x) dead) by done.
  destruct rest as [|x rest].
  { rewrite app_nil_r, drop_ge, take_ge by lia. by rewrite !filter_nil, !app_nil_r. }
  rewrite (cons_middle x), app_assoc.
  rewrite take_app_length', drop_app_length' by (rewrite length_app; simpl; lia).
  rewrite <- app_assoc. simpl.
  rewrite (filter_cons_True P), (filter_cons_False (fun x => ~ P x)) by (done || tauto). done.
Qed.

(** The deletion of the run [i .. i + length dead). *)
Lemma delete_run {A} get set (v : nilfs_vector A) i dead rest (g : gcs W) :
  get g = v -> vec_wf v -> 0 <= i -> drop (Z.to_nat i) (elems v) = dead ++ rest ->
  i <= Z.of_nat (length (elems v)) -> set g (get g) = g ->
  exists v', (if i <? i + Z.of_nat (length dead)
              then delete_range get set i (i + Z.of_nat (length dead) - i) else ret tt) g
             = (Ok tt, set g v') /\
    vec_wf v' /\ elems v' = take (Z.to_nat i) (elems v) ++ rest.
Proof.
  intros Hg Hv Hi Hd Hle Hset.
  assert (Hlen : Z.of_nat (length dead) + Z.of_nat (length rest) = Z.of_nat (length (elems v)) - i)
    by (apply (f_equal length) in Hd; rewrite length_drop, length_app in Hd; lia).
  case_if.
  - destruct (delete_range_spec get set v i (i + Z.of_nat (length dead) - i) g)
      as (v' & Hrun & Hv' & He); [done|done|lia..|].
    exists v'. split_and!; [done|done|]. rewrite He. f_equal.
    replace (Z.to_nat (i + _)) with (Z.to_nat i + length dead)%nat by lia.
    rewrite <- drop_drop, Hd. apply drop_app_length.
  - assert (dead = []) as -> by (apply nil_length_inv; lia). exists v. rewrite <- Hg at 1.
    rewrite Hset. split_and!; [done|done|]. simpl in Hd. rewrite <- Hd. by rewrite take_drop.
Qed.

(** What remains when the elements from [i] on are filtered. *)
Lemma toss_outer_spec fuel g0 vd vb pd g i hit :
  toss_state g0 vd vb pd g -> Forall (fun v => 0 < p_start (vd_period v)) vd ->
  0 <= i -> hit_ok ss hit -> (0 < fuel)%nat -> Z.of_nat (length vd) - i < Z.of_nat fuel ->
  match toss_outer fuel protcno ss i hit g with
  | (Ok _, g') =>
    let dead := filter (fun v => ~ live v) (drop (Z.to_nat i) vd) in
    toss_state g0 (take (Z.to_nat i) vd ++ filter live (drop (Z.to_nat i) vd))
      (vb ++ (vd_vblocknr <$> dead)) (pd ++ dead_periods dead) g'
  | (Err e, g') => alloc_error e /\ alloc_only g0 g'
  | _ => False
  end.
Proof using Hss.
  revert vd vb pd g i hit; induction fuel as [|fuel IH]; intros vd vb pd g i hit Hg Hpos Hi Hhit Hf0 Hf; [lia|].
  cbn [toss_outer]. unfold bind at 1, gets.
  pose proof Hg as (s & v & b & p & Hgeq & Hv & Hve & _).
  assert (Hgv : g_vdescv g = v) by by subst g. rewrite Hgv.
  unfold nilfs_vector_get_size. rewrite <- (elems_length v Hv), Hve.
  destruct (Z.ltb_spec i (Z.of_nat (length vd))) as [Hlt|Hge].
  2:{ simpl. rewrite drop_ge, take_ge by lia. rewrite !filter_nil. unfold dead_periods.
      rewrite filter_nil. simpl. by rewrite !app_nil_r. }
  pose proof (toss_inner_spec (Datatypes.S (Z.to_nat (Z.of_nat (length vd) - i))) g0 vd vb pd g i hit
    Hg Hpos ltac:(lia) Hhit ltac:(lia)) as Hin.
  unfold bind at 1.
  destruct (toss_inner _ protcno ss i hit g) as [[[j hit']|e| | |] g1]; try done.
  destruct Hin as (Hh' & dead & rest & Hd & -> & Hdead & Hrest & s1 & v1 & b1 & p1 & -> & Hv1 & Hve1 & Hst).
  destruct (delete_run g_vdescv with_vdescv v1 i dead rest
    (mk_gcs s1 (g_segnums g0) (g_stat g0) v1 (g_bdescv g0) p1 b1 (g_supv g0)))
    as (v2 & Hdel & Hv2 & He2); [done|done|done|by rewrite Hve1|rewrite Hve1; lia|done|].
  unfold bind at 1. rewrite Hdel. clear Hdel. rewrite Hve1 in He2.
  assert (Hti : length (take (Z.to_nat i) vd) = Z.to_nat i) by (rewrite length_take; lia).
  pose proof (toss_list live (take (Z.to_nat i) vd) dead rest Hdead Hrest) as [Hl1 Hl2].
  rewrite Hti in Hl1, Hl2.
  assert (Hpos2 : Forall (fun v => 0 < p_start (vd_period v)) (take (Z.to_nat i) vd ++ rest)).
  { rewrite <- (take_drop (Z.to_nat i) vd), Hd in Hpos. rewrite !Forall_app in *. tauto. }
  apply (f_equal length) in Hd as Hlen. rewrite length_drop, length_app in Hlen.
  specialize (IH (take (Z.to_nat i) vd ++ rest) (vb ++ (vd_vblocknr <$> dead)) (pd ++ dead_periods dead)
    (with_vdescv (mk_gcs s1 (g_segnums g0) (g_stat g0) v1 (g_bdescv g0) p1 b1 (g_supv g0)) v2) (i + 1) hit'
    ltac:(by exists s1, v2, b1, p1) Hpos2 ltac:(lia) Hh' ltac:(lia) ltac:(rewrite length_app, Hti; lia)).
  destruct (toss_outer fuel protcno ss (i + 1) hit' _) as [[u|e| | |] g3]; try done.
  cbv zeta in *. replace (Z.to_nat (i + 1)) with (Datatypes.S (Z.to_nat i)) in IH by lia.
  rewrite Hl1, <- Hd in IH. rewrite Hd, Hl2, fmap_app.
  unfold dead_periods in *. rewrite (filter_app (fun v => vd_cno v <> 0)), fmap_app, !(app_assoc _ (_ <$> _)).
  by rewrite Hd in IH.
Qed.
End Toss.

(** ** Snapshots *)

Section Snapshots.
Context {W : Type} {K : Kernel W} {J : Junk}.
Implicit Types g : gcs W.

Definition ascending (ss : list Z) (prev : Z) : Prop :=
  StronglySorted Z.lt ss /\ Forall (fun x => x <= prev) ss.

Lemma ascending_snoc ss prev x : ascending ss prev -> prev < x -> ascending (ss ++ [x]) x.
Proof.
  intros [Hs Hf] Hx. rewrite Forall_forall in Hf. split.
  - apply StronglySorted_app_2; [|done|by repeat constructor].
    intros a b Ha ->%list_elem_of_singleton. apply Hf in Ha. lia.
  - apply Forall_app; split; [|by constructor]. apply Forall_forall. intros a Ha. apply Hf in Ha. lia.
Qed.

Lemma store_snapshots_ok nsss ss prev ci g r g' :
  ascending ss prev -> store_snapshots nsss ss prev ci g = (r, g') ->
  g' = g /\ match r with Ok (ss', prev') => ascending ss' prev' | _ => True end.
Proof.
  revert ss prev; induction ci as [|c ci IH]; intros ss prev Ha; cbn [store_snapshots].
  { by intros [= <- <-]. }
  case_if; [by intros [= <- <-]|]. case_if; [by intros [= <- <-]|].
  apply IH. eapply ascending_snoc; [done|lia].
Qed.

Lemma call_frame {A} (m : M (sys W) A) g r g' :
  call m g = (r, g') -> exists s, g' = with_sys g s.
Proof. unfold call. destruct (m (g_sys g)); intros [= _ <-]; eauto. Qed.

(** A call of the library succeeds or fails. *)
Definition answers {A} (r : res A) : Prop := match r with Ok _ | Err _ => True | _ => False end.

Lemma get_cpinfo_answers cno mode nci g : answers (call (nilfs_get_cpinfo cno mode nci) g).1.
Proof.
  unfold call, nilfs_get_cpinfo, with_iocfd, the_nilfs, bind, gets, os, fail, ret, put_nilfs, modify. case_if; [done|]. case_if; [done|].
  destruct (ioc_get_cpinfo _ _ _ _ _) as [[[|c ci]|e] w]; [done| |done]. by case_if.
Qed.

Lemma get_cpstat_answers g : answers (call nilfs_get_cpstat g).1.
Proof.
  unfold call, nilfs_get_cpstat, with_iocfd, the_nilfs, bind, gets, os, fail. case_if; [done|].
  by destruct (ioc_get_cpstat _ _) as [[st|e] w].
Qed.

(** The outcomes of the query: an array with snapshots, an errno, or a write
    behind the end of the array. *)
Definition snapshots_or (r : res (list Z)) : Prop :=
  match r with Ok ss => StronglySorted Z.lt ss | Err _ | Abort => True | _ => False end.

Lemma store_snapshots_longer nsss ci : forall ss prev g ss' prev' g',
  Z.of_nat (length ss) <= nsss -> store_snapshots nsss ss prev ci g = (Ok (ss', prev'), g') ->
  length ss' = (length ss + length ci)%nat /\ Z.of_nat (length ss') <= nsss.
Proof.
  induction ci as [|c ci IH]; intros ss prev g ss' prev' g' Hle; cbn [store_snapshots].
  { intros [= <- <- <-]. simpl. lia. }
  case_if; [done|]. case_if; [done|]. intros Hx%IH; rewrite length_app in *; simpl in *; lia.
Qed.

Lemma store_snapshots_ends nsss ss prev ci g : match (store_snapshots nsss ss prev ci g).1 with NoFuel | Exit _ => False | _ => True end.
Proof. revert ss prev. induction ci as [|c ci IH]; intros ss prev; cbn [store_snapshots]; [done|].
  case_if; [done|]. case_if; [done|]. apply IH.
Qed.

Lemma get_snapshot_loop_ok fuel nsss : forall ss prev cno g r g',
  ascending ss prev -> Z.of_nat (length ss) <= Z.max 0 nsss < Z.of_nat (length ss) + Z.of_nat fuel ->
  get_snapshot_loop fuel nsss ss prev cno g = (r, g') -> (exists s, g' = with_sys g s) /\ snapshots_or r.
Proof.
  assert (Hid : forall g : gcs W, exists s, g = with_sys g s) by (intros []; by eexists).
  induction fuel as [|fuel IH]; intros ss prev cno g r g' Ha Hf; cbn [get_snapshot_loop].
  { simpl in Hf. lia. }
  case_if; [|intros [= <- <-]; split; [done|apply Ha]].
  unfold bind at 1. pose proof (get_cpinfo_answers cno NILFS_SNAPSHOT NILFS_GC_NCPINFO g) as Hans.
  destruct (call (nilfs_get_cpinfo cno NILFS_SNAPSHOT NILFS_GC_NCPINFO) g)
    as [[ci|e| | |] g1] eqn:Hc; try done; apply call_frame in Hc as [s1 ->]; [|intros [= <- <-]; by eauto].
  destruct (last ci) as [c|] eqn:Hl; [|intros [= <- <-]; split; [eauto|apply Ha]].
  unfold bind at 1. pose proof (store_snapshots_ends nsss ss prev ci (with_sys g s1)) as He.
  destruct (store_snapshots nsss ss prev ci (with_sys g s1)) as [rs g2] eqn:Hs. cbn [fst] in He.
  pose proof (store_snapshots_longer nsss ci ss prev (with_sys g s1)) as Hlen. rewrite Hs in Hlen.
  apply store_snapshots_ok in Hs as [-> Hs]; [|done].
  destruct rs as [[ss' prev']|e| | |]; try done; try (intros [= <- <-]; by eauto).
  case_if; [intros [= <- <-]; split; [eauto|apply Hs]|].
  destruct (Hlen _ _ _ ltac:(lia) eq_refl) as [Hlen1 Hlen2]. destruct ci as [|c0 ci]; [done|]. simpl in Hlen1.
  intros Hr. apply (IH _ _ _ _ _ _ Hs) in Hr as [[s2 ->] Hr]; [|lia]. split; [|done]. by exists s2.
Qed.

(** The snapshots reach the liveness test in strictly ascending order. *)
Lemma get_snapshot_ok g r g' :
  nilfs_get_snapshot g = (r, g') -> (exists s, g' = with_sys g s) /\ snapshots_or r.
Proof.
  unfold nilfs_get_snapshot, bind at 1. pose proof (get_cpstat_answers g) as Hans.
  destruct (call nilfs_get_cpstat g) as [[cs|e| | |] g1] eqn:Hc; try done; apply call_frame in Hc as [s1 ->];
    [|intros [= <- <-]; by eauto].
  case_if; [intros [= <- <-]; split; [eauto|constructor]|].
  unfold bind, m_malloc, malloc at 1, gcs_alloc.
  destruct (malloc _ _) as [[] s2]; [|intros [= <- <-]; split; [by exists s2|done]].
  intros Hr. apply get_snapshot_loop_ok in Hr as [[s3 ->] Hr]; [|by repeat constructor|simpl; lia].
  split; [by exists s3|done].
Qed.
End Snapshots.

(** The whole of [nilfs_toss_vdescs], once the snapshots are known. *)
Lemma toss_vdescs_run {W : Type} {K : Kernel W} {J : Junk} (g : gcs W) protcno ss s :
  vec_wf (g_vdescv g) -> vec_wf (g_vblocknrv g) -> vec_wf (g_periodv g) ->
  Forall (fun v => NILFS_CNO_MIN <= p_start (vd_period v)) (elems (g_vdescv g)) ->
  StronglySorted Z.lt ss -> nilfs_get_snapshot g = (Ok ss, with_sys g s) ->
  match nilfs_toss_vdescs protcno g with
  | (Ok _, g') =>
    let dead := filter (fun v => ~ vdesc_live protcno ss v) (elems (g_vdescv g)) in
    toss_state (with_sys g s) (filter (vdesc_live protcno ss) (elems (g_vdescv g)))
      (elems (g_vblocknrv g) ++ (vd_vblocknr <$> dead)) (elems (g_periodv g) ++ dead_periods dead) g'
  | (Err e, g') => alloc_error e /\ alloc_only (with_sys g s) g'
  | _ => False
  end.
Proof.
  intros Hv Hb Hp Hpos Hsort Hss. unfold nilfs_toss_vdescs, bind at 1. rewrite Hss.
  unfold bind, gets. change (g_vdescv (with_sys g s)) with (g_vdescv g).
  unfold nilfs_vector_get_size. rewrite <- elems_length, Nat2Z.id by done.
  pose proof (toss_outer_spec protcno ss Hsort (Datatypes.S (length (elems (g_vdescv g)))) (with_sys g s)
    (elems (g_vdescv g)) (elems (g_vblocknrv g)) (elems (g_periodv g)) (with_sys g s) 0 0) as Htoss.
  apply Htoss; [| |lia|by left|lia..].
  - do 4 eexists. split_and!; done.
  - eapply Forall_impl; [exact Hpos|]. unfold NILFS_CNO_MIN. simpl. lia.
Qed.

(** C12: [nilfs_toss_vdescs] partitions the collected virtual blocks by the
    meaning of liveness, keeping their order: the live ones stay in the
    vector, and for each dead one its block number, and its period unless it
    belongs to a system file, are recorded for deletion.  Otherwise it fails,
    for lack of memory or because the query of the snapshots failed; then the
    error is that of the query and nothing has been touched.  It ends, and
    never accesses an element outside of a vector - with one exception that
    is in the query: when the kernel returns more snapshots than it has
    counted before, they are written behind the end of the array
    (finding gc.c:446).  The conditions: the three vectors are
    well-formed, and the periods start at a checkpoint, whose numbers begin
    with NILFS_CNO_MIN. *)
Theorem toss_vdescs_partition {W : Type} {K : Kernel W} {J : Junk} (g : gcs W) protcno :
  vec_wf (g_vdescv g) -> vec_wf (g_vblocknrv g) -> vec_wf (g_periodv g) ->
  Forall (fun v => NILFS_CNO_MIN <= p_start (vd_period v)) (elems (g_vdescv g)) ->
  match nilfs_get_snapshot g with
  | (Ok ss, _) =>
    match nilfs_toss_vdescs protcno g with
    | (Ok _, g') =>
      let vdescs := elems (g_vdescv g) in
      let dead := filter (fun v => ~ vdesc_live protcno ss v) vdescs in
      elems (g_vdescv g') = filter (vdesc_live protcno ss) vdescs /\
      elems (g_vblocknrv g') = elems (g_vblocknrv g) ++ (vd_vblocknr <$> dead) /\
      elems (g_periodv g') = elems (g_periodv g) ++ dead_periods dead /\
      g_bdescv g' = g_bdescv g /\ g_segnums g' = g_segnums g
    | (Err e, _) => alloc_error e
    | _ => False
    end
  | (Err e, g1) => nilfs_toss_vdescs protcno g = (Err e, g1) /\ exists s, g1 = with_sys g s
  | (Abort, _) => (nilfs_toss_vdescs protcno g).1 = Abort
  | _ => False
  end.
Proof.
  intros Hv Hb Hp Hpos. destruct (nilfs_get_snapshot g) as [r g1] eqn:Hss.
  pose proof (get_snapshot_ok _ _ _ Hss) as [[s ->] Hr].
  destruct r as [ss|e| | |]; try done.
  - pose proof (toss_vdescs_run g protcno ss s Hv Hb Hp Hpos Hr Hss) as Hrun.
    destruct (nilfs_toss_vdescs protcno g) as [[u|e| | |] g']; [|by apply Hrun|done..].
    destruct Hrun as (s' & v & b & p & -> & _ & Hve & _ & Hbe & _ & Hpe & _). simpl. split_and!; done.
  - split; [|by exists s]. unfold nilfs_toss_vdescs. by rewrite (bind_err _ _ _ _ _ Hss).
  - unfold nilfs_toss_vdescs, bind at 1. by rewrite Hss.
Qed.

(** ** Unifying periods *)

(** The list algorithm: extend the base while the next period touches it. *)
Fixpoint merge_periods (base : nilfs_period) (l : list nilfs_period) : list nilfs_period :=
  match l with
  | [] => [base]
  | t :: l' =>
    if p_end base <? p_start t then base :: merge_periods t l'
    else merge_periods (mk_period (p_start base) (Z.max (p_end base) (p_end t))) l'
  end.

Definition unified (l : list nilfs_period) : list nilfs_period :=
  match l with [] => [] | b :: l' => merge_periods b l' end.

Section Unify.
Context {W : Type} {K : Kernel W} {J : Junk}.
Implicit Types g : gcs W.

Definition period_state (g0 : gcs W) (l : list nilfs_period) (g : gcs W) : Prop :=
  exists v, g = with_periodv g0 v /\ vec_wf v /\ elems v = l.

Lemma with_periodv_twice g v v' : with_periodv (with_periodv g v) v' = with_periodv g v'.
Proof. reflexivity. Qed.

(** The base at position [length pre] absorbs [gone], which stays in place. *)
Lemma unify_inner_spec fuel g0 pre base gone rest g :
  period_state g0 (pre ++ base :: gone ++ rest) g -> (length rest < fuel)%nat ->
  exists base' absorbed rest' g',
    unify_inner fuel (Z.of_nat (length pre)) (Z.of_nat (length pre + 1 + length gone)) g
      = (Ok (Z.of_nat (length pre + 1 + length gone + length absorbed)), g') /\
    rest = absorbed ++ rest' /\ period_state g0 (pre ++ base' :: gone ++ absorbed ++ rest') g' /\
    merge_periods base rest = base' :: unified rest'.
Proof.
  revert base gone rest g; induction fuel as [|fuel IH]; intros base gone rest g Hg Hf; [lia|].
  destruct Hg as (v & -> & Hv & Hve). cbn [unify_inner]. rewrite bind_gets.
  change (g_periodv (with_periodv g0 v)) with v.
  unfold nilfs_vector_get_size. rewrite <- (elems_length v Hv), Hve.
  destruct (element_at v (Z.of_nat (length pre)) base Hv ltac:(lia)) as [_ Hbase].
  { rewrite Nat2Z.id, Hve. by apply list_lookup_middle. }
  destruct rest as [|t rest].
  - destruct (Z.ltb_spec (Z.of_nat (length pre + 1 + length gone)) (Z.of_nat (length (pre ++ base :: gone ++ [])))) as [Hlt|_].
    { rewrite length_app in Hlt. cbn [length] in Hlt. rewrite length_app in Hlt. simpl in Hlt. lia. }
    exists base, [], [], (with_periodv g0 v). split_and!; [|done|by exists v|done].
    simpl. by rewrite Nat.add_0_r.
  - destruct (Z.ltb_spec (Z.of_nat (length pre + 1 + length gone)) (Z.of_nat (length (pre ++ base :: gone ++ t :: rest)))) as [_|Hge].
    2:{ rewrite length_app in Hge. cbn [length] in Hge. rewrite length_app in Hge. simpl in Hge. lia. }
    destruct (element_at v (Z.of_nat (length pre + 1 + length gone)) t Hv ltac:(lia)) as [Hel Ht].
    { rewrite Nat2Z.id, Hve, cons_middle, !app_assoc. apply list_lookup_middle. rewrite !length_app. simpl. lia. }
    rewrite Hbase, bind_some, Hel, bind_some, Ht, bind_some.
    cbn [merge_periods]. destruct (Z.ltb_spec (p_end base) (p_start t)) as [Hgap|Hgap].
    { exists base, [], (t :: rest), (with_periodv g0 v). split_and!; [|done|by exists v|done].
      simpl. by rewrite Nat.add_0_r. }
    set (base1 := mk_period (p_start base) (Z.max (p_end base) (p_end t))).
    assert (exists g1, (if p_end base <? p_end t
              then modify (fun g => with_periodv g (write_cell v (Z.of_nat (length pre))
                     (fun p => mk_period (p_start p) (p_end t))))
              else ret tt) (with_periodv g0 v) = (Ok tt, g1) /\
             period_state g0 (pre ++ base1 :: (gone ++ [t]) ++ rest) g1) as (g1 & Hstep & Hg1).
    { destruct (Z.ltb_spec (p_end base) (p_end t)) as [Hlt|Hle]; eexists; (split; [done|]).
      - rewrite with_periodv_twice. eexists; split; [done|].
        destruct (elems_write_cell v (Z.of_nat (length pre)) (fun p => mk_period (p_start p) (p_end t)) Hv) as [Hw1 Hw2].
        { pose proof (elems_length v Hv) as Hl. rewrite Hve, length_app in Hl. simpl in Hl. lia. }
        split; [done|]. rewrite Hw2, Hve, Nat2Z.id, <- app_assoc. simpl.
        rewrite alter_app_r_alt, Nat.sub_diag by lia. simpl. unfold base1. by rewrite Z.max_r by lia.
      - exists v. split_and!; [done|done|]. rewrite Hve, <- app_assoc. simpl. unfold base1.
        rewrite Z.max_l by lia. by destruct base. }
    rewrite (bind_ok _ _ _ _ _ Hstep).
    destruct (IH base1 (gone ++ [t]) rest g1 Hg1 ltac:(simpl in Hf; lia))
      as (base' & absorbed & rest' & g' & Hrun & -> & Hst & Hm).
    exists base', (t :: absorbed), rest', g'. split_and!; [|done|by rewrite <- app_assoc in Hst|done].
    rewrite length_app in Hrun. simpl in *.
    replace (Z.of_nat (length pre + 1 + length gone) + 1)
      with (Z.of_nat (length pre + 1 + (length gone + 1))) by lia.
    rewrite Hrun. do 2 f_equal. f_equal. lia.
Qed.

Lemma unify_outer_spec fuel g0 pre l g :
  period_state g0 (pre ++ l) g -> (length l < fuel)%nat ->
  exists g', unify_outer fuel (Z.of_nat (length pre)) g = (Ok tt, g') /\
    period_state g0 (pre ++ unified l) g'.
Proof.
  revert pre l g; induction fuel as [|fuel IH]; intros pre l g Hg Hf; [lia|].
  pose proof Hg as (v & -> & Hv & Hve). cbn [unify_outer]. rewrite bind_gets.
  change (g_periodv (with_periodv g0 v)) with v.
  unfold nilfs_vector_get_size. rewrite <- (elems_length v Hv), Hve, length_app.
  destruct l as [|base l].
  { destruct (Z.ltb_spec (Z.of_nat (length pre)) (Z.of_nat (length pre + length (@nil nilfs_period)))); [simpl in *; lia|].
    eexists; split; [done|]. by exists v. }
  destruct (Z.ltb_spec (Z.of_nat (length pre)) (Z.of_nat (length pre + length (base :: l)))) as [_|]; [|simpl in *; lia].
  destruct (element_at v (Z.of_nat (length pre)) base Hv ltac:(lia)) as [Hel _].
  { rewrite Nat2Z.id, Hve. by apply list_lookup_middle. }
  rewrite Hel, bind_some.
  destruct (unify_inner_spec (Datatypes.S (Z.to_nat (Z.of_nat (length pre + length (base :: l)) - Z.of_nat (length pre))))
    g0 pre base [] l (with_periodv g0 v)) as (base' & absorbed & rest' & g1 & Hrun & -> & Hst & Hm);
    [done|simpl; lia|].
  replace (Z.of_nat (length pre) + 1) with (Z.of_nat (length pre + 1)) by lia.
  rewrite Nat.add_0_r in Hrun. rewrite (bind_ok _ _ _ _ _ Hrun). clear Hrun.
  destruct Hst as (v1 & -> & Hv1 & Hve1). simpl in Hve1.
  destruct (delete_run g_periodv with_periodv v1 (Z.of_nat (length pre + 1)) absorbed rest' (with_periodv g0 v1))
    as (v2 & Hdel & Hv2 & He2); [done|done|lia| | |done|].
  { rewrite Nat2Z.id, Hve1, cons_middle, app_assoc, drop_app_length'; [done|]. rewrite length_app; simpl; lia. }
  { rewrite Hve1, length_app. simpl. lia. }
  replace (Z.of_nat (length pre + 1 + length absorbed))
    with (Z.of_nat (length pre + 1) + Z.of_nat (length absorbed)) by lia.
  replace (Z.of_nat (length pre + 1) + Z.of_nat (length absorbed) - Z.of_nat (length pre) - 1)
    with (Z.of_nat (length pre + 1) + Z.of_nat (length absorbed) - Z.of_nat (length pre + 1)) by lia.
  rewrite (bind_ok _ _ _ _ _ Hdel). rewrite Hve1, Nat2Z.id, cons_middle, app_assoc in He2.
  rewrite take_app_length' in He2 by (rewrite length_app; simpl; lia).
  destruct (IH (pre ++ [base']) rest' (with_periodv (with_periodv g0 v1) v2)) as (g' & Hrun & Hst).
  { by exists v2. }
  { simpl in Hf. rewrite length_app in Hf. lia. }
  rewrite length_app in Hrun. exists g'. split; [done|]. cbn [unified]. rewrite Hm.
  by rewrite <- app_assoc in Hst.
Qed.
End Unify.

(** Checkpoints that belong to one of the periods. *)
Definition covered (l : list nilfs_period) (c : Z) : Prop :=
  Exists (fun p => p_start p <= c < p_end p) l.

(** Consecutive periods are separated by a gap. *)
Definition separated : relation nilfs_period := fun p q => p_end p < p_start q.

Lemma covered_perm l l' c : l ≡ₚ l' -> covered l c <-> covered l' c.
Proof.
  intros Hp. unfold covered. rewrite !Exists_exists.
  split; intros (p & Hin & Hc); exists p; (split; [|done]); [rewrite Hp in Hin; exact Hin|rewrite Hp; exact Hin].
Qed.

Lemma covered_cons p l c : covered (p :: l) c <-> p_start p <= c < p_end p \/ covered l c.
Proof. apply Exists_cons. Qed.

Definition starts_after (p q : nilfs_period) : Prop := p_start p <= p_start q.

Lemma merge_periods_covered base l c :
  StronglySorted starts_after (base :: l) ->
  covered (merge_periods base l) c <-> covered (base :: l) c.
Proof.
  revert base; induction l as [|t l IH]; intros base Hs; [done|].
  inversion_clear Hs as [|?? Hl Hb]. inversion_clear Hl as [|?? Hl' Ht].
  inversion_clear Hb as [|?? Hbt Hb']. unfold starts_after in Hbt. cbn [merge_periods]. case_if.
  - rewrite covered_cons, IH by by constructor. by rewrite <- covered_cons.
  - rewrite IH by by constructor. rewrite !covered_cons. simpl. intuition lia.
Qed.

Lemma merge_periods_gaps base l :
  Sorted separated (merge_periods base l) /\
  exists p r, merge_periods base l = p :: r /\ p_start p = p_start base.
Proof.
  revert base; induction l as [|t l IH]; intros base; cbn [merge_periods].
  - split; [by repeat constructor|eauto].
  - case_if; [|destruct (IH (mk_period (p_start base) (Z.max (p_end base) (p_end t)))) as [? ?]; eauto].
    destruct (IH t) as [Hs (p & r & He & Hp)]. split; [|eauto].
    constructor; [done|]. rewrite He. constructor. unfold separated. lia.
Qed.

#[export] Instance starts_after_trans : Transitive starts_after.
Proof. unfold starts_after. intros ???; lia. Qed.

Lemma qsort_periods_sorted l : StronglySorted starts_after (qsort nilfs_comp_period l).
Proof.
  apply (qsort_sorted nilfs_comp_period starts_after); unfold nilfs_comp_period, starts_after;
    intros x y; repeat case_if; lia.
Qed.

(** The function computes the list algorithm on the sorted periods. *)
Lemma unify_period_run {W : Type} {K : Kernel W} {J : Junk} (g : gcs W) :
  vec_wf (g_periodv g) ->
  exists v, nilfs_unify_period g = (Ok tt, with_periodv g v) /\ vec_wf v /\
    elems v = unified (qsort nilfs_comp_period (elems (g_periodv g))).
Proof.
  intros Hv. unfold nilfs_unify_period. rewrite bind_modify, bind_gets.
  destruct (sort_spec nilfs_comp_period (g_periodv g) Hv) as [Hsv Hse].
  set (v0 := nilfs_vector_sort nilfs_comp_period (g_periodv g)) in *.
  change (g_periodv (with_periodv g v0)) with v0.
  unfold nilfs_vector_get_size. rewrite <- (elems_length v0 Hsv), Nat2Z.id.
  destruct (unify_outer_spec (Datatypes.S (length (elems v0))) g [] (elems v0) (with_periodv g v0))
    as (g' & Hrun & v & -> & Hv' & He); [by exists v0|lia|].
  exists v. split; [exact Hrun|]. split; [done|]. by rewrite He, Hse.
Qed.

(** What the list algorithm achieves. *)
Lemma unified_spec l : Sorted separated (unified (qsort nilfs_comp_period l)) /\
  forall c, covered (unified (qsort nilfs_comp_period l)) c <-> covered l c.
Proof.
  pose proof (qsort_periods_sorted l) as Hsorted. split.
  - destruct (qsort nilfs_comp_period l); [constructor|apply merge_periods_gaps].
  - intros c. rewrite <- (covered_perm _ _ c (qsort_perm nilfs_comp_period l)).
    destruct (qsort nilfs_comp_period l); [reflexivity|by apply merge_periods_covered].
Qed.

(** [nilfs_unify_period] always succeeds, and replaces the periods by ones
    that cover the same checkpoints, in ascending order and with a gap between
    any two neighbours. *)
Theorem unify_period_spec {W : Type} {K : Kernel W} {J : Junk} (g : gcs W) :
  vec_wf (g_periodv g) ->
  exists v, nilfs_unify_period g = (Ok tt, with_periodv g v) /\ vec_wf v /\
    Sorted separated (elems v) /\
    forall c, covered (elems v) c <-> covered (elems (g_periodv g)) c.
Proof.
  intros (v & Hrun & Hv & He)%unify_period_run. exists v. rewrite He. split_and!; [done|done|apply unified_spec..].
Qed.

(** ** Deselecting a segment *)

Lemma drop_last_one (y : Z) post tail : exists z, drop (length post) (y :: post ++ tail) = z :: tail.
Proof. revert y; induction post as [|x post IH]; intros y; [by exists y|]. apply (IH x). Qed.

Lemma deselect_run pre x post tail nsegs :
  nsegs = Z.of_nat (length (pre ++ x :: post)) ->
  nilfs_deselect_segment ((pre ++ x :: post) ++ tail) nsegs (Z.of_nat (length pre)) =
    Some (((pre ++ post) ++ x :: tail), nsegs - 1).
Proof.
  intros ->. unfold nilfs_deselect_segment. rewrite length_app. cbn [length].
  destruct ((_ <=? _) || (_ =? _)) eqn:He.
  { apply orb_true_iff in He as [He%Z.leb_le|He%Z.eqb_eq]; lia. }
  clear He.
  rewrite lookup_app_l by (rewrite Nat2Z.id, length_app; simpl; lia).
  rewrite Nat2Z.id, list_lookup_middle by done. cbv [mbind option_bind].
  destruct post as [|y post].
  - destruct (Z.ltb_spec (Z.of_nat (length pre)) (Z.of_nat (length pre + Datatypes.S (length (@nil Z))) - 1)) as [Hl|_];
      [simpl in Hl; lia|]. by rewrite app_nil_r, <- app_assoc.
  - destruct (Z.ltb_spec (Z.of_nat (length pre)) (Z.of_nat (length pre + Datatypes.S (length (y :: post))) - 1)) as [_|Hl];
      [|simpl in Hl; lia].
    unfold memmove_cells. rewrite !length_app. cbn [length].
    destruct ((_ <=? _) && (_ <=? _)) eqn:He.
    2:{ apply andb_false_iff in He as [He%Z.leb_gt|He%Z.leb_gt]; lia. }
    clear He. f_equal. f_equal.
    set (n := length post).
    replace (Z.to_nat (Z.of_nat (length pre) + (Z.of_nat (length pre + Datatypes.S (Datatypes.S n)) - 1 - Z.of_nat (length pre))))
      with (length pre + Datatypes.S n)%nat by lia.
    replace (Z.to_nat (Z.of_nat (length pre + Datatypes.S (Datatypes.S n)) - 1 - Z.of_nat (length pre))) with (Datatypes.S n) by lia.
    replace (Z.to_nat (Z.of_nat (length pre + Datatypes.S (Datatypes.S n)) - 1)) with (length (pre ++ y :: post) + 0)%nat
      by (rewrite length_app; simpl; lia).
    replace (Z.to_nat (Z.of_nat (length pre) + 1)) with (length pre + 1)%nat by lia.
    rewrite Nat2Z.id, <- !app_assoc.
    rewrite take_app_length, <- !drop_drop, !drop_app_length. cbn [drop app].
    rewrite (app_comm_cons post tail y), take_app_length' by done.
    destruct (drop_last_one y post tail) as [z Hz]. 
    change (drop n ((y :: post) ++ tail) = z :: tail) in Hz. rewrite Hz.
    rewrite app_assoc, insert_app_r. simpl. by rewrite <- app_assoc.
Qed.

(** [nilfs_deselect_segment] moves the segment named to the end of the
    selected range, keeps the order of the others, does not touch the rest of
    the array and counts one segment less. *)
Theorem deselect_segment_spec pre x post tail nsegs :
  nsegs = Z.of_nat (length (pre ++ x :: post)) ->
  nilfs_deselect_segment ((pre ++ x :: post) ++ tail) nsegs (Z.of_nat (length pre)) =
    Some (((pre ++ post) ++ x :: tail), nsegs - 1).
Proof. apply deselect_run. Qed.

(** ** Disk blocks of the DAT *)

Section TossBdescs.
Context {W : Type} {K : Kernel W} {J : Junk}.
Implicit Types g : gcs W.
Abbreviation blive := (fun b => nilfs_bdesc_is_live b = true).

(** The end of the run of dead descriptors that starts at [j]. *)
Lemma toss_bdescs_inner_spec fuel : forall g j, vec_wf (g_bdescv g) -> 0 <= j <= Z.of_nat (length (elems (g_bdescv g))) ->
  Z.of_nat (length (elems (g_bdescv g))) - j < Z.of_nat fuel ->
  exists dead rest, drop (Z.to_nat j) (elems (g_bdescv g)) = dead ++ rest /\
    toss_bdescs_inner fuel j g = (Ok (j + Z.of_nat (length dead)), g) /\
    Forall (fun b => ~ blive b) dead /\ match rest with [] => True | b :: _ => blive b end.
Proof using.
  induction fuel as [|fuel IH]; intros g j Hwf Hj Hf; [lia|]. set (l := elems (g_bdescv g)) in *.
  cbn [toss_bdescs_inner]. rewrite bind_gets. unfold nilfs_vector_get_size.
  rewrite <- (elems_length _ Hwf). fold l. case_if.
  - destruct (lookup_lt_is_Some_2 l (Z.to_nat j)) as [b Hb]; [lia|].
    destruct (element_at (g_bdescv g) j b Hwf) as [Hel Hrd]; [lia|done|].
    rewrite Hel, bind_some, Hrd, bind_some.
    pose proof (drop_S l b (Z.to_nat j) Hb) as Hd. destruct (nilfs_bdesc_is_live b) eqn:Hl.
    + exists [], (drop (Z.to_nat j) l). split_and!; [done|simpl; unfold ret; do 2 f_equal; lia|constructor|].
      by rewrite Hd.
    + destruct (IH g (j + 1) Hwf) as (dead & rest & H1 & H2 & H3 & H4); fold l; [lia|lia|].
      exists (b :: dead), rest. fold l in H1. replace (Z.to_nat (j + 1)) with (Datatypes.S (Z.to_nat j)) in H1 by lia.
      split_and!; [by rewrite Hd, H1|rewrite H2; simpl length; do 2 f_equal; lia|constructor; [by rewrite Hl|done]|done].
  - exists [], []. rewrite drop_ge by lia. split_and!; [done|unfold ret; simpl; do 2 f_equal; lia|constructor|done].
Qed.

Lemma toss_bdescs_outer_spec fuel : forall g i, vec_wf (g_bdescv g) -> 0 <= i -> (0 < fuel)%nat ->
  Z.of_nat (length (elems (g_bdescv g))) - i < Z.of_nat fuel ->
  exists v, toss_bdescs_outer fuel i g = (Ok tt, with_bdescv g v) /\ vec_wf v /\
    elems v = take (Z.to_nat i) (elems (g_bdescv g)) ++ filter blive (drop (Z.to_nat i) (elems (g_bdescv g))).
Proof using.
  induction fuel as [|fuel IH]; intros g i Hwf Hi Hf0 Hf; [lia|]. set (l := elems (g_bdescv g)) in *.
  cbn [toss_bdescs_outer]. rewrite bind_gets. unfold nilfs_vector_get_size.
  rewrite <- (elems_length _ Hwf). fold l. case_if.
  2: { exists (g_bdescv g). rewrite drop_ge, take_ge, filter_nil, app_nil_r by lia.
       split_and!; [by destruct g|done|done]. }
  destruct (toss_bdescs_inner_spec (Datatypes.S (Z.to_nat (Z.of_nat (length l) - i))) g i Hwf)
    as (dead & rest & Hd & Hrun & Hdead & Hrest); fold l; [lia|lia|].
  rewrite (bind_ok _ _ _ _ _ Hrun).
  destruct (delete_run g_bdescv with_bdescv (g_bdescv g) i dead rest g) as (v & Hdel & Hv & He);
    [done|done|done|done|fold l; lia|by destruct g|].
  rewrite (bind_ok _ _ _ _ _ Hdel). fold l in He.
  assert (Hti : length (take (Z.to_nat i) l) = Z.to_nat i) by (rewrite length_take; lia).
  fold l in Hd. apply (f_equal length) in Hd as Hlen. rewrite length_drop, length_app in Hlen.
  destruct (IH (with_bdescv g v) (i + 1)) as (v' & Hrun' & Hv' & He'); [done|lia|lia| |].
  { simpl. rewrite He, length_app, Hti. lia. }
  exists v'. split_and!; [exact Hrun'|done|]. simpl in He'. rewrite He', He.
  replace (Z.to_nat (i + 1)) with (Datatypes.S (Z.to_nat i)) by lia.
  pose proof (toss_list blive (take (Z.to_nat i) l) dead rest Hdead Hrest) as [Hl _].
  rewrite Hti in Hl. by rewrite Hl, <- Hd.
Qed.

Lemma toss_bdescs_run g : vec_wf (g_bdescv g) ->
  exists v, nilfs_toss_bdescs g = (Ok tt, with_bdescv g v) /\ vec_wf v /\
    elems v = filter blive (elems (g_bdescv g)).
Proof using.
  intros Hwf. unfold nilfs_toss_bdescs. rewrite bind_gets. unfold nilfs_vector_get_size.
  destruct (toss_bdescs_outer_spec (Datatypes.S (Z.to_nat (v_nelems (g_bdescv g)))) g 0 Hwf)
    as (v & Hrun & Hv & He); [lia|lia|rewrite (elems_length _ Hwf); lia|].
  exists v. split_and!; [done|done|]. by rewrite He.
Qed.

(** Tossing keeps exactly the disk blocks of the DAT that are still where
    they were collected, in their order, and fails on no input. *)
Theorem toss_bdescs_filter g : vec_wf (g_bdescv g) ->
  exists v, nilfs_toss_bdescs g = (Ok tt, with_bdescv g v) /\ vec_wf v /\
    elems v = filter blive (elems (g_bdescv g)).
Proof using. apply toss_bdescs_run. Qed.
End TossBdescs.
