(* ===== verification/Resize.v ===== *)
(** * Resizing a mounted file system: sbin/nilfs-resize.c

    The state is that of the library, with the variables of the tool: the
    segment usage statistics, the layout, the range of segments that will be
    cut off, and the progress meter.  Messages are recorded in [r_out]; the
    option flags are parameters.  A function of the tool that returns -1 ends
    in [failed]: no caller looks at [errno] then. *)

From Stdlib Require Import String.
From stdpp Require Import pretty.
From S2P Require Import Prelude Vector Hoare Ondisk Sb Kernel Nilfs Segment Parser Gc.

Definition NILFS_RESIZE_NSUINFO : Z := 256.
Definition NILFS_RESIZE_NSEGNUMS : Z := 256.
Definition NILFS_RESIZE_BALLOON_MAX_CHUNKSIZE : Z := 16392.
Definition EXIT_SUCCESS : Z := 0.
Definition EXIT_FAILURE : Z := 1.
Definition EBUSY : Z := 16.
Definition show_progress : bool := true.

(** [nsegments_per_clean], [clean_interval]. *)
Definition nsegments_per_clean : Z := 2.
Definition clean_interval : timespec := mk_timespec 0 100000000.

(** The system calls the tool makes besides those of the library. *)
Class ResizeEnv (W : Type) := {
  e_nanosleep : timespec -> W -> W;
  e_getchar : W -> Z * W;
  e_getpid : W -> Z;
  e_open : string -> W -> (Z + Z) * W;              (** for reading *)
  e_openat : Z -> string -> W -> (Z + Z) * W;       (** create or truncate *)
  e_unlinkat : Z -> string -> W -> (unit + Z) * W;
  e_read : Z -> Z -> W -> (list Z + Z) * W;
  e_write : Z -> list Z -> W -> (Z + Z) * W;
  e_close : Z -> W -> W;
  e_rand : W -> Z * W;
}.

(** The progress meter; [pm_in_progress] is 0 (off), 1 (on) or -1
    (interrupted). *)
Record progress := mk_pm {
  pm_barwidth : Z; pm_max : Z; pm_done : Z; pm_curpos : Z; pm_in_progress : Z;
}.

(** Messages, with the numbers that one of them computes. *)
Inductive message :=
| Text (s : string)
| Insufficient (nsegs nbytes : Z)    (** "needs %llu more segments" *)
| WillBeLeft (nsegs nbytes : Z)      (** "%llu free segments will be left" *)
| Bar (curpos : Z).

Record rs (W : Type) := mk_rs {
  r_lib : gcs W;
  r_sustat : nilfs_sustat;
  r_layout : nilfs_layout;
  r_trunc : Z * Z;
  r_pm : progress;
  r_out : list message;
}.
Arguments mk_rs {W} _ _ _ _ _ _.
Arguments r_lib {W} _.
Arguments r_sustat {W} _.
Arguments r_layout {W} _.
Arguments r_trunc {W} _.
Arguments r_pm {W} _.
Arguments r_out {W} _.

Section Setters.
Context {W : Type} (x : rs W).
Definition with_lib (g : gcs W) : rs W := mk_rs g (r_sustat x) (r_layout x) (r_trunc x) (r_pm x) (r_out x).
Definition with_sustat (s : nilfs_sustat) : rs W := mk_rs (r_lib x) s (r_layout x) (r_trunc x) (r_pm x) (r_out x).
Definition with_layout (l : nilfs_layout) : rs W := mk_rs (r_lib x) (r_sustat x) l (r_trunc x) (r_pm x) (r_out x).
Definition with_trunc (t : Z * Z) : rs W := mk_rs (r_lib x) (r_sustat x) (r_layout x) t (r_pm x) (r_out x).
Definition with_pm (p : progress) : rs W := mk_rs (r_lib x) (r_sustat x) (r_layout x) (r_trunc x) p (r_out x).
Definition with_out (o : list message) : rs W := mk_rs (r_lib x) (r_sustat x) (r_layout x) (r_trunc x) (r_pm x) o.
End Setters.

Definition set_in_progress (p : progress) (v : Z) : progress :=
  mk_pm (pm_barwidth p) (pm_max p) (pm_done p) (pm_curpos p) v.
Definition set_max (p : progress) (v : Z) : progress :=
  mk_pm (pm_barwidth p) v (pm_done p) (pm_curpos p) (pm_in_progress p).

(** [nilfs_resize_parse_size]: [None] is -1.  The argument is not empty, as
    it is asserted. *)
Definition nilfs_resize_parse_size (arg : list Z) : option Z :=
  let '(size, endptr) := strtoull arg 0 in
  match endptr with
  | [] => Some size
  | [c] =>
    if c =? 115 then Some (u64 (Z.shiftl size 9))
    else if c =? 75 then Some (u64 (Z.shiftl size 10))
    else if c =? 77 then Some (u64 (Z.shiftl size 20))
    else if c =? 71 then Some (u64 (Z.shiftl size 30))
    else if c =? 84 then Some (u64 (Z.shiftl size 40))
    else if c =? 80 then Some (u64 (Z.shiftl size 50))
    else None
  | _ => None
  end.

Section Resize.
Context {W : Type} {K : Kernel W} {J : Junk} {T : ResizeEnv W}.
Context (verbose assume_yes : bool).
Abbreviation R := (M (rs W)).

(** A call of the library, of one of its functions that work on the [struct
    nilfs] only, and of the environment. *)
Definition lib {A} (m : M (gcs W) A) : R A :=
  fun x => let '(r, g) := m (r_lib x) in (r, with_lib x g).
Definition libs {A} (m : M (sys W) A) : R A := lib (call m).
Definition env {A} (f : W -> A * W) : R A :=
  libs (fun s => let '(a, w) := f (s_world s) in (Ok a, mk_sys (s_nilfs s) w)).
Definition env_ {A} (f : W -> (A + Z) * W) : R A := libs (os f).
Definition env_tt (f : W -> W) : R unit := env (fun w => (tt, f w)).

#[export] Instance rs_alloc : Alloc (rs W) :=
  fun n x => let '(b, g) := malloc n (r_lib x) in (b, with_lib x g).

Definition failed {A} : R A := fail 0.

(** ** Messages and the progress meter *)

Definition print (m : message) : R unit := modify (fun x => with_out x (r_out x ++ [m])).

Definition nilfs_resize_progress_show : R unit :=
  let* p := gets r_pm in print (Bar (pm_curpos p)).

Definition nilfs_resize_progress_init (maxval : Z) : R unit :=
  let* p := gets r_pm in
  modify (fun x => with_pm x (mk_pm (Z.max (60 - 10 - 3) 10) maxval 0 0 (pm_in_progress p))) ;;
  nilfs_resize_progress_show ;;
  modify (fun x => with_pm x (set_in_progress (r_pm x) 1)).

Definition nilfs_resize_progress_update (done : Z) : R unit :=
  let* p := gets r_pm in
  if pm_in_progress p =? 0 then ret tt
  else
    (if pm_in_progress p <? 0 then
       nilfs_resize_progress_show ;;
       modify (fun x => with_pm x (set_in_progress (r_pm x) 1))
     else ret tt) ;;
    if pm_max p =? 0 then abort
    else
      let pos := i32 (u64 (pm_barwidth p * Z.min done (pm_max p)) / pm_max p) in
      print (Bar pos) ;;
      modify (fun x => with_pm x (mk_pm (pm_barwidth p) (pm_max p) done pos (pm_in_progress (r_pm x)))).

Definition nilfs_resize_progress_inc (n : Z) : R unit :=
  let* p := gets r_pm in
  nilfs_resize_progress_update (u64 (pm_done p + n)).

Definition nilfs_resize_progress_exit : R unit :=
  modify (fun x => with_pm x (set_in_progress (r_pm x) 0)).

Definition msg (m : message) : R unit :=
  modify (fun x => if 0 <? pm_in_progress (r_pm x) then with_pm x (set_in_progress (r_pm x) (-1)) else x) ;;
  print m.

Definition verbose_msg (s : string) : R unit := if verbose then msg (Text s) else ret tt.
Definition err (s : string) : R unit := msg (Text s).
Definition verbose_err (s : string) : R unit := if verbose then err s else ret tt.

(** A call whose failure is reported and returned. *)
Definition or_report {A} (m : R A) (s : string) : R A :=
  let* r := attempt m in
  match r with
  | inl a => ret a
  | inr _ => err s ;; failed
  end.

(** A call whose result is ignored. *)
Definition ignore {A} (m : R A) : R unit := attempt m ;; ret tt.

(** ** Layout and statistics *)

Definition nilfs_resize_load_layout : R unit :=
  let* l := or_report (libs (nilfs_get_layout 0x50)) "failed to get layout information" in
  modify (fun x => with_layout x l).

Definition nilfs_resize_update_sustat : R unit :=
  let* s := or_report (libs nilfs_get_sustat) "failed to get segment usage status" in
  modify (fun x => with_sustat x s).

Definition nilfs_resize_lock_cleaner : R unit :=
  or_report (env_ sigprocmask_block) "cannot block signals" ;;
  let* r := attempt (libs (nilfs_lock 0)) in
  match r with
  | inl _ => ret tt
  | inr _ => err "failed to lock cleaner" ;; env_tt sigprocmask_restore ;; failed
  end.

Definition nilfs_resize_unlock_cleaner : R unit :=
  ignore (libs (nilfs_unlock 0)) ;;
  env_tt sigprocmask_restore.

Definition nilfs_resize_calc_nrsvsegs (layout : nilfs_layout) (nsegs : Z) : Z :=
  Z.max NILFS_MIN_NRSVSEGS (u64 (u64 (u64 (nsegs * lo_reserved_segments_ratio layout) + 100) - 1) / 100).

(** A shift by the width of the type or more is undefined. *)
Definition nilfs_resize_calc_size_of_segments (layout : nilfs_layout) (nsegs : Z) : option Z :=
  shl64 (u64 (nsegs * lo_blocks_per_segment layout)) (lo_blocksize_bits layout).

Definition nilfs_resize_check_free_space (newnsegs : Z) : R unit :=
  let* layout := gets r_layout in
  let* sustat := gets r_sustat in
  let nrsvsegs := nilfs_resize_calc_nrsvsegs layout newnsegs in
  if ss_ncleansegs sustat <? u64 (u64 (ss_nsegs sustat - newnsegs) + nrsvsegs) then
    let nsegs := u64 (u64 (u64 (ss_nsegs sustat - newnsegs) - ss_ncleansegs sustat) + nrsvsegs) in
    let* nbytes := of_option (nilfs_resize_calc_size_of_segments layout (u64 (newnsegs + nsegs))) in
    msg (Insufficient nsegs (u64 (nbytes + 4096))) ;;
    failed
  else if verbose then
    let nsegs := u64 (u64 (ss_ncleansegs sustat - u64 (ss_nsegs sustat - newnsegs)) - nrsvsegs) in
    let* nbytes := of_option (nilfs_resize_calc_size_of_segments layout nsegs) in
    msg (WillBeLeft nsegs nbytes)
  else ret tt.

(** The result of [nilfs_set_alloc_range] is ignored. *)
Definition nilfs_resize_restore_alloc_range : R unit :=
  let* r := attempt nilfs_resize_update_sustat in
  match r with
  | inr _ => ret tt
  | inl _ =>
    let* layout := gets r_layout in
    ignore (libs (nilfs_set_alloc_range 0 (lo_devsize layout)))
  end.

(** ** The balloon file *)

(** ".nilfs-balloon-%u" *)
Definition balloon_name (pid : Z) : string := (".nilfs-balloon-" ++ pretty (Z.to_N pid))%string.

(** [n] bytes of [rand()]. *)
Fixpoint rand_bytes (n : nat) : R (list Z) :=
  match n with
  | O => ret []
  | Datatypes.S n' =>
    let* c := env e_rand in
    let* cs := rand_bytes n' in
    ret (Z.land c 0xff :: cs)
  end.

(** The data of one write: read from the random device while that works; the
    flag tells whether it has failed. *)
Definition balloon_data (in_fd : Z) (read_failed : bool) (request : Z) : R (list Z * bool) :=
  let fallback (failed : bool) : R (list Z * bool) :=
    let* bytes := rand_bytes (Z.to_nat request) in ret (bytes, failed) in
  if (0 <=? in_fd) && negb read_failed then
    let* r := attempt (env_ (e_read in_fd request)) in
    match r with
    | inl (b :: bs) => ret (b :: bs, false)
    | _ => verbose_err "failed to read balloon data" ;; fallback true
    end
  else fallback read_failed.

Fixpoint inflate_loop (fuel : nat) (in_fd out_fd : Z) (read_failed : bool) (rest : Z) : R unit :=
  match fuel with
  | O => out_of_fuel
  | Datatypes.S fuel' =>
    if 0 <? rest then
      let* (data, read_failed) :=
        balloon_data in_fd read_failed (Z.min rest NILFS_RESIZE_BALLOON_MAX_CHUNKSIZE) in
      let* r := attempt (env_ (e_write out_fd data)) in
      match r with
      | inr _ => err "failed to inflate balloon file"
      | inl count => inflate_loop fuel' in_fd out_fd read_failed (i64 (rest - count))
      end
    else ret tt
  end.

(** [for (cno = first; cno <= ecno; cno++)]. *)
Fixpoint delete_checkpoints (fuel : nat) (cno ecno : Z) : R unit :=
  match fuel with
  | O => out_of_fuel
  | Datatypes.S fuel' =>
    if cno <=? ecno then
      ignore (libs (nilfs_delete_checkpoint cno)) ;;
      delete_checkpoints fuel' (u64 (cno + 1)) ecno
    else ret tt
  end.

(** The part from the creation of the file on, with signals blocked. *)
Definition prod_blocked (in_fd scno rest : Z) : R unit :=
  let* dirfd := libs (gets (fun s => n_iocfd (s_nilfs s))) in
  let* pid := libs (os_pure e_getpid) in
  let* r := attempt (env_ (e_openat dirfd (balloon_name pid))) in
  match r with
  | inr _ => err "failed to create balloon file" ;; failed
  | inl out_fd =>
    inflate_loop (Datatypes.S (Z.to_nat rest)) in_fd out_fd false rest ;;
    let* e := attempt (libs nilfs_sync) in
    let ecno := match e with inl cno => cno | inr _ => 0 end in
    env_tt (e_close out_fd) ;;
    let* u := attempt (env_ (e_unlinkat dirfd (balloon_name pid))) in
    match u with inr _ => verbose_err "Balloon file deletion failed" | inl _ => ret tt end ;;
    (if 0 <? ecno then
       let first := if scno =? 0 then ecno else u64 (scno + 1) in
       delete_checkpoints (Datatypes.S (Z.to_nat (ecno - first + 1))) first ecno
     else ret tt) ;;
    ignore (libs nilfs_sync)
  end.

Definition nilfs_resize_prod_fs (nblk_write : Z) : R unit :=
  let* layout := gets r_layout in
  let rest := i64 (nblk_write * lo_blocksize layout) in
  if nblk_write =? 0 then ret tt
  else
    m_malloc NILFS_RESIZE_BALLOON_MAX_CHUNKSIZE ;;
    let* i := attempt (env_ (e_open "/dev/urandom")) in
    let in_fd := match i with inl fd => fd | inr _ => -1 end in
    (if in_fd <? 0 then verbose_err "cannot open /dev/urandom - use calculated values" else ret tt) ;;
    let* s := attempt (libs nilfs_sync) in
    let scno := match s with inl cno => cno | inr _ => 0 end in
    let* r := attempt
      (or_report (env_ sigprocmask_block) "cannot block signals" ;;
       let* r := attempt (prod_blocked in_fd scno rest) in
       env_tt sigprocmask_restore ;;
       ignore nilfs_resize_update_sustat ;;
       match r with inl _ => ret tt | inr _ => failed end) in
    (if 0 <=? in_fd then env_tt (e_close in_fd) else ret tt) ;;
    match r with inl _ => ret tt | inr _ => failed end.

(** ** Scanning the usage of segments

    The four functions below share this loop: [take] tells whether a segment
    is wanted and [add] stores it. *)
Section Scan.
Context {A : Type} (take : Z -> nilfs_suinfo -> R bool) (add : A -> Z -> nilfs_suinfo -> R A) (what : string).

(** [for (i = 0; i < nsi; i++, segnum++)]. *)
Fixpoint scan_batch (sis : list nilfs_suinfo) (segnum rest : Z) (acc : A) : R (Z * Z * A) :=
  match sis with
  | [] => ret (segnum, rest, acc)
  | si :: sis' =>
    let* hit := take segnum si in
    if (hit : bool) then
      let* acc' := add acc segnum si in
      scan_batch sis' (u64 (segnum + 1)) (u64 (rest - 1)) acc'
    else scan_batch sis' (u64 (segnum + 1)) rest acc
  end.

Fixpoint scan_loop (fuel : nat) (end_ segnum rest : Z) (acc : A) : R A :=
  match fuel with
  | O => out_of_fuel
  | Datatypes.S fuel' =>
    if (0 <? rest) && (segnum <=? end_) then
      let* sis := or_report (libs (nilfs_get_suinfo segnum (Z.min rest NILFS_RESIZE_NSUINFO))) what in
      let* (segnum', rest', acc') := scan_batch sis segnum rest acc in
      scan_loop fuel' end_ segnum' rest' acc'
    else ret acc
  end.

Definition scan (start end_ maxsegs : Z) (acc : A) : R A :=
  if end_ <? start then abort
  else scan_loop (Datatypes.S (Z.to_nat (u64 (end_ - start + 1)))) end_ start
         (Z.min maxsegs (u64 (end_ - start + 1))) acc.
End Scan.

(** [*snp++ = segnum] into an array of [cap] elements. *)
Definition store (cap : Z) (segnumv : list Z) (segnum : Z) : R (list Z) :=
  if Z.of_nat (length segnumv) <? cap then ret (segnumv ++ [segnum]) else abort.

(** The array of the caller has room for [maxsegnums] numbers; the result is
    the part of it that was filled. *)
Definition nilfs_resize_find_movable_segments (start end_ maxsegnums : Z) : R (list Z) :=
  let* sustat := gets r_sustat in
  scan (fun segnum si =>
      if negb (nilfs_suinfo_reclaimable si) then ret false
      else if nilfs_suinfo_empty si then ret true
      else
        let* prot := or_report (lib (nilfs_segment_is_protected segnum (ss_prot_seq sustat)))
                       "failed to read segment" in
        ret (negb prot))
    (fun v segnum _ => store maxsegnums v segnum)
    "operation failed during searching movable segments" start end_ maxsegnums [].

(** With the sum that is stored in [*nblocks]. *)
Definition nilfs_resize_find_active_segments (start end_ maxsegnums : Z) : R (list Z * Z) :=
  scan (fun _ si => ret (nilfs_suinfo_active si && negb (nilfs_suinfo_error si)))
    (fun '(v, nb) segnum si =>
       let* v' := store maxsegnums v segnum in ret (v', u64 (nb + sui_nblocks si)))
    "operation failed during searching active segments" start end_ maxsegnums ([], 0).

Definition nilfs_resize_find_reclaimable_segments (start end_ maxsegnums : Z) : R (list Z) :=
  scan (fun _ si => ret (nilfs_suinfo_reclaimable si))
    (fun v segnum _ => store maxsegnums v segnum)
    "operation failed during searching reclaimable segments" start end_ maxsegnums [].

Definition nilfs_resize_count_inuse_segments (start end_ : Z) : R Z :=
  scan (fun _ si => ret (nilfs_suinfo_dirty si))
    (fun n _ _ => ret (i64 (n + 1)))
    "operation failed during counting in-use segments" start end_ ULONG_MAX 0.

(** ** Moving segments *)

Definition NILFS_RESIZE_SEGMENT_PROTECTED : Z := 0x01.
Definition NILFS_RESIZE_SEGMENT_UNRECLAIMABLE : Z := 0x02.

(** One segment: the flags to add to the reason. *)
Definition verify_segment (prot_seq segnum : Z) : R Z :=
  let by_seqnum (reason : Z) : R Z :=
    let* p := attempt (lib (nilfs_segment_is_protected segnum prot_seq)) in
    ret (match p with inl true => Z.lor reason NILFS_RESIZE_SEGMENT_PROTECTED | _ => reason end) in
  let* r := attempt (libs (nilfs_get_suinfo segnum 1)) in
  match r with
  | inl [si] =>
    let reason := if negb (nilfs_suinfo_reclaimable si) then NILFS_RESIZE_SEGMENT_UNRECLAIMABLE else 0 in
    if nilfs_suinfo_reclaimable si && nilfs_suinfo_empty si then ret 0
    else if nilfs_suinfo_active si then ret (Z.lor reason NILFS_RESIZE_SEGMENT_PROTECTED)
    else by_seqnum reason
  | _ => by_seqnum 0
  end.

Fixpoint nilfs_resize_verify_failure (segnumv : list Z) (reason : Z) : R Z :=
  match segnumv with
  | [] => ret reason
  | segnum :: segnumv' =>
    let* sustat := gets r_sustat in
    let* flags := verify_segment (ss_prot_seq sustat) segnum in
    nilfs_resize_verify_failure segnumv' (Z.lor reason flags)
  end.

(** One round of the loop: the first [nc] numbers at [snp] are handed to the
    library, which may reorder them.  The result is the number of segments
    moved and the flags of those that were not. *)
Definition move_chunk (chunk : list Z) (reason : bool) : R (Z * Z) :=
  let nc := Z.of_nat (length chunk) in
  nilfs_resize_update_sustat ;;
  let* sustat := gets r_sustat in
  lib (modify (fun g => with_segnums g chunk)) ;;
  let* n := lib (nilfs_reclaim_segment nc (ss_prot_seq sustat) 0) in
  let* snp := gets (fun x => g_segnums (r_lib x)) in
  let* (trunc_start, trunc_end) := gets r_trunc in
  let nhits := length (filter (fun s => trunc_start <= s <= trunc_end) (take (Z.to_nat n) snp)) in
  (if (nhits =? 0)%nat then ret tt else nilfs_resize_progress_inc (Z.of_nat nhits)) ;;
  let* rv := (if (n <? nc) && reason then nilfs_resize_verify_failure (drop (Z.to_nat n) snp) 0 else ret 0) in
  env_tt (e_nanosleep clean_interval) ;;
  ret (n, rv).

Fixpoint move_loop (fuel : nat) (segnumv : list Z) (reason : bool) (nmoved rv : Z) : R (Z * Z) :=
  match fuel with
  | O => out_of_fuel
  | Datatypes.S fuel' =>
    match segnumv with
    | [] => ret (nmoved, rv)
    | _ =>
      let nc := Z.to_nat nsegments_per_clean in
      let* (n, flags) := move_chunk (take nc segnumv) reason in
      move_loop fuel' (drop nc segnumv) reason (i64 (nmoved + n)) (Z.lor rv flags)
    end
  end.

(** [reason] tells whether the caller asks for the reason; the result is the
    number of segments moved, with the reason. *)
Definition nilfs_resize_move_segments (segnumv : list Z) (reason : bool) : R (Z * Z) :=
  move_loop (Datatypes.S (length segnumv)) segnumv reason 0 0.

Definition __nilfs_resize_try_update_log_cursor : R unit :=
  ignore (libs nilfs_sync) ;;
  let* r := attempt (libs (nilfs_freeze ;; nilfs_thaw)) in
  ignore nilfs_resize_update_sustat ;;
  match r with inl _ => ret tt | inr _ => failed end.

Definition nilfs_resize_try_update_log_cursor : R unit :=
  verbose_msg "Trying to update log cursor .." ;;
  let* r := attempt __nilfs_resize_try_update_log_cursor in
  verbose_msg (match r with inl _ => " ok." | inr _ => " failed." end) ;;
  match r with inl _ => ret tt | inr _ => failed end.

(** ** Moving segments out of a range *)

(** The [while] loop of [nilfs_resize_reclaim_nibble]; the flag tells whether
    [count] segments have been moved. *)
Fixpoint nibble_pass (fuel : nat) (segnum end_ count nmoved : Z) : R (Z * bool) :=
  match fuel with
  | O => out_of_fuel
  | Datatypes.S fuel' =>
    if segnum <=? end_ then
      let nc := Z.min (u64 (count - nmoved)) 2 in
      let* segnumv := nilfs_resize_find_movable_segments segnum end_ nc in
      match last segnumv with
      | None => ret (nmoved, false)
      | Some l =>
        let* (nm, _) := nilfs_resize_move_segments segnumv false in
        let nmoved' := i64 (nmoved + nm) in
        if count <=? nmoved' then ret (nmoved', true)
        else nibble_pass fuel' (u64 (l + 1)) end_ count nmoved'
      end
    else ret (nmoved, false)
  end.

(** From the label [retry] on; [end_] is the variable [end], [end2] its first
    value.  The result is [false] when no segments could be moved. *)
Fixpoint nibble_retry (fuel : nat) (start end2 count : Z) (unprotect : bool)
    (segnum end_ nmoved : Z) (log_cursor_updated prodded : bool) : R bool :=
  match fuel with
  | O => out_of_fuel
  | Datatypes.S fuel' =>
    let* (nmoved, done) := nibble_pass (Datatypes.S (Z.to_nat (end_ - segnum + 1))) segnum end_ count nmoved in
    if (done : bool) then
      (if unprotect && negb log_cursor_updated then ignore nilfs_resize_try_update_log_cursor else ret tt) ;;
      ret true
    else if start <=? end_ then
      nibble_retry fuel' start end2 count unprotect 0 (u64 (start - 1)) nmoved log_cursor_updated prodded
    else if negb log_cursor_updated then
      nilfs_resize_try_update_log_cursor ;;
      nibble_retry fuel' start end2 count unprotect start end2 nmoved true prodded
    else if negb prodded then
      let* (segnumv, nblocks) := nilfs_resize_find_active_segments start end2 2 in
      match segnumv with
      | [] => ret false
      | _ =>
        let* layout := gets r_layout in
        let max_blocks := u32 (lo_blocks_per_segment layout * 2) in
        if max_blocks <=? nblocks then abort
        else
          verbose_msg "Try forcing a filesystem update." ;;
          or_report (nilfs_resize_prod_fs (max_blocks - nblocks)) "forced filesystem update failed" ;;
          verbose_msg "Succeeded - retry moving segments." ;;
          nibble_retry fuel' start end2 count unprotect start end2 nmoved false true
      end
    else ret false
  end.

(** Each of the two ranges is searched at most four times: before and after
    the log cursor is updated, without and with a forced update. *)
Definition NIBBLE_FUEL : nat := 8.

Definition nilfs_resize_reclaim_nibble (start end_ count : Z) (unprotect : bool) : R unit :=
  let* moved := or_report (nibble_retry NIBBLE_FUEL start end_ count unprotect start end_ 0 false false)
                  "operation failed during moving segments" in
  if (moved : bool) then ret tt
  else err "couldn't move any segments." ;; failed.

Definition retry_interval : timespec := mk_timespec 0 500000000.

(** The loop of [nilfs_resize_move_out_active_segments] ends at the seventh
    round. *)
Fixpoint move_out_loop (fuel : nat) (start end_ retrycnt : Z) : R bool :=
  match fuel with
  | O => out_of_fuel
  | Datatypes.S fuel' =>
    nilfs_resize_update_sustat ;;
    let* (segnums, _) := nilfs_resize_find_active_segments start end_ NILFS_RESIZE_NSEGNUMS in
    match segnums with
    | [] => ret (0 <? retrycnt)
    | _ =>
      if 6 <=? retrycnt then err "Failed to move active segments -- give up." ;; failed
      else
        (if retrycnt =? 0 then verbose_msg "Active segments are found in the range." else ret tt) ;;
        nilfs_resize_reclaim_nibble start end_ (Z.of_nat (length segnums)) false ;;
        env_tt (e_nanosleep retry_interval) ;;
        move_out_loop fuel' start end_ (retrycnt + 1)
    end
  end.

Definition nilfs_resize_move_out_active_segments (start end_ : Z) : R bool :=
  move_out_loop 7 start end_ 0.

(** Count the segments in use again, and show the progress. *)
Definition refresh_progress (start end_ : Z) : R unit :=
  let* p := gets r_pm in
  if pm_in_progress p =? 0 then ret tt
  else
    let* r := attempt (nilfs_resize_count_inuse_segments start end_) in
    match r with
    | inr _ => ret tt
    | inl nfound =>
      if nfound <? 0 then ret tt
      else
        modify (fun x => if pm_max (r_pm x) <? nfound then with_pm x (set_max (r_pm x) nfound) else x) ;;
        let* p := gets r_pm in
        nilfs_resize_progress_update (u64 (pm_max p - nfound))
    end.

(** The loop over the reclaimable segments. *)
Fixpoint reclaim_loop (fuel : nat) (start end_ segnum : Z) : R unit :=
  match fuel with
  | O => out_of_fuel
  | Datatypes.S fuel' =>
    if segnum <=? end_ then
      let* segnums := nilfs_resize_find_reclaimable_segments segnum end_ NILFS_RESIZE_NSEGNUMS in
      match last segnums with
      | None => ret tt
      | Some l =>
        let* (nmoved, reason) := or_report (nilfs_resize_move_segments segnums true)
                                   "operation failed during moving reclaimable segments" in
        (if (nmoved <? Z.of_nat (length segnums)) && negb (Z.land reason NILFS_RESIZE_SEGMENT_PROTECTED =? 0) then
           ignore (nilfs_resize_reclaim_nibble start end_ 2 true) ;;
           refresh_progress start end_
         else ret tt) ;;
        reclaim_loop fuel' start end_ (u64 (l + 1))
      end
    else ret tt
  end.

Definition nilfs_resize_reclaim_range (newnsegs : Z) : R unit :=
  nilfs_resize_update_sustat ;;
  let* sustat := gets r_sustat in
  if ss_nsegs sustat <? newnsegs then
    err "Confused. Number of segments became larger than requested size." ;; failed
  else if newnsegs =? ss_nsegs sustat then ret tt
  else
    let start := newnsegs in
    let end_ := u64 (ss_nsegs sustat - 1) in
    let* moved := nilfs_resize_move_out_active_segments start end_ in
    (if (moved : bool) then refresh_progress start end_ else ret tt) ;;
    reclaim_loop (Datatypes.S (Z.to_nat (end_ - start + 1))) start end_ start.

(** ** Shrinking and extending *)

Definition nilfs_print_resize_error (ec : Z) (shrink : bool) : R unit :=
  err (if shrink then "failed to shrink the filesystem" else "failed to extend the filesystem") ;;
  if ec =? ENOTTY then msg (Text "This kernel does not support the resize API.") else ret tt.

(** Whether to go on: the answer of the user is 'y' or 'Y'. *)
Definition nilfs_resize_prompt : R bool :=
  msg (Text "Do you wish to proceed (y/N)? ") ;;
  let* c := env e_getchar in
  ret ((c =? 121) || (c =? 89)).

(** The number of segments that fit below the second superblock of a device
    of [newsize] bytes; [None] is a division by zero. *)
Definition new_nsegments (layout : nilfs_layout) (newsize : Z) : option Z :=
  if 4096 <=? newsize then
    if lo_blocks_per_segment layout =? 0 then None
    else if 64 <=? lo_blocksize_bits layout then None
    else Some (Z.shiftr (u64 (NILFS_SB2_OFFSET_BYTES newsize)) (lo_blocksize_bits layout) / lo_blocks_per_segment layout)
  else Some 0.

(** How the retry loop of [nilfs_shrink_online] is left. *)
Inductive shrink_end := Shrunk | RestoreRange | GaveUp.

(** One attempt to cut off the segments: the lock is held around the ioctl. *)
Definition truncate_segments (newsize : Z) : R (unit + Z) :=
  verbose_msg "Truncating segments." ;;
  let* r := attempt (libs (nilfs_resize newsize)) in
  nilfs_resize_unlock_cleaner ;;
  ret r.

(** After EBUSY. *)
Definition shrink_recheck (newnsegs : Z) : R unit :=
  nilfs_resize_load_layout ;;
  nilfs_resize_update_sustat ;;
  nilfs_resize_check_free_space newnsegs.

Fixpoint shrink_loop (retries : nat) (newsize newnsegs : Z) : R shrink_end :=
  match retries with
  | O => err "retries failed -- give up" ;; ret GaveUp
  | Datatypes.S retries' =>
    let* r := attempt (nilfs_resize_reclaim_range newnsegs ;; nilfs_resize_lock_cleaner) in
    match r with
    | inr _ => ret RestoreRange
    | inl _ =>
      let* r := truncate_segments newsize in
      match r with
      | inl _ => ret Shrunk
      | inr ec =>
        if negb (ec =? EBUSY) then nilfs_print_resize_error ec true ;; ret RestoreRange
        else
          let* r := attempt (shrink_recheck newnsegs) in
          match r with
          | inr _ => ret RestoreRange
          | inl _ =>
            verbose_msg "In-use segment found again. will retry moving them.." ;;
            shrink_loop retries' newsize newnsegs
          end
      end
    end
  end.

(** Set the range to be cut off and start the progress meter. *)
Definition shrink_begin (newnsegs : Z) : R unit :=
  let* sustat := gets r_sustat in
  if newnsegs <? ss_nsegs sustat then
    modify (fun x => with_trunc x (newnsegs, u64 (ss_nsegs sustat - 1))) ;;
    let* r := attempt (nilfs_resize_count_inuse_segments newnsegs (u64 (ss_nsegs sustat - 1))) in
    match r with
    | inl nuses =>
      if (0 <? nuses) && show_progress then
        msg (Text "Moving in-use segments.") ;; nilfs_resize_progress_init nuses
      else ret tt
    | inr _ => ret tt
    end
  else ret tt.

(** From [nilfs_set_alloc_range] on; the result is the status. *)
Definition shrink_commit (newsize newnsegs : Z) : R Z :=
  let* r := attempt (libs (nilfs_set_alloc_range 0 newsize)) in
  match r with
  | inr e =>
    err "failed to limit allocation range" ;;
    (if e =? ENOTTY then msg (Text "This kernel does not support the set allocation range API.") else ret tt) ;;
    ret EXIT_FAILURE
  | inl _ =>
    shrink_begin newnsegs ;;
    let* e := shrink_loop 4 newsize newnsegs in
    match e with
    | Shrunk => ret EXIT_SUCCESS
    | GaveUp => ret EXIT_FAILURE
    | RestoreRange => nilfs_resize_restore_alloc_range ;; ret EXIT_FAILURE
    end
  end.

(** The checks before anything is changed; [false] is [goto out]. *)
Definition shrink_check (newnsegs : Z) : R bool :=
  let* r := attempt (nilfs_resize_check_free_space newnsegs) in
  match r with
  | inr _ => ret false
  | inl _ =>
    let* sustat := gets r_sustat in
    if newnsegs <? ss_nsegs sustat then msg (Text "segments will be truncated") ;; ret true
    else if newnsegs =? ss_nsegs sustat then msg (Text "No segments will be truncated.") ;; ret true
    else err "Confused. Number of segments became larger than requested size" ;; ret false
  end.

Definition nilfs_shrink_online (newsize : Z) : R Z :=
  let* r := attempt nilfs_resize_update_sustat in
  match r with
  | inr _ => ret (-1)
  | inl _ =>
    msg (Text "Shrink the filesystem size") ;;
    let* layout := gets r_layout in
    let* newnsegs := of_option (new_nsegments layout newsize) in
    let* go := shrink_check newnsegs in
    let* go := (if (go : bool) then if assume_yes then ret true else nilfs_resize_prompt else ret false) in
    let* status := (if (go : bool) then shrink_commit newsize newnsegs else ret EXIT_FAILURE) in
    nilfs_resize_progress_exit ;;
    ret status
  end.

Definition nilfs_extend_online (newsize : Z) : R Z :=
  msg (Text "Extend the filesystem size") ;;
  let* go := (if assume_yes then ret true else nilfs_resize_prompt) in
  if negb go then ret EXIT_FAILURE
  else
    let* r := attempt nilfs_resize_lock_cleaner in
    match r with
    | inr _ => ret EXIT_FAILURE
    | inl _ =>
      let* r := attempt (libs (nilfs_resize newsize)) in
      let* status := (match r with
                      | inl _ => ret EXIT_SUCCESS
                      | inr e => nilfs_print_resize_error e false ;; ret EXIT_FAILURE
                      end) in
      nilfs_resize_unlock_cleaner ;;
      ret status
    end.

(** [nilfs_resize_online], once the file system is open; closing it follows. *)
Definition resize_opened (newsize : Z) : R Z :=
  let* r := attempt nilfs_resize_load_layout in
  match r with
  | inr _ => ret EXIT_FAILURE
  | inl _ =>
    let* layout := gets r_layout in
    if newsize =? lo_devsize layout then msg (Text "It already fits the device.") ;; ret EXIT_SUCCESS
    else
      ignore (libs nilfs_sync) ;;
      let* status := (if lo_devsize layout <? newsize then nilfs_extend_online newsize
                      else nilfs_shrink_online newsize) in
      msg (Text (if status =? EXIT_SUCCESS then "Done." else "Aborted.")) ;;
      ret status
  end.
End Resize.
#[export] Existing Instance rs_alloc.
