(* ===== verification/GcProtocol.v ===== *)
(** * What a reclaim does to the system around it

    The ioctls, the semaphore and the signal mask are operations of the class
    [Kernel], of which nothing is known.  The theorems of this file follow an
    arbitrary observation of the world through [nilfs_xreclaim_segment]:
    operations that only query the kernel are assumed to leave the observation
    alone (class [Quiet]), and the theorems say what the whole run does to
    it.  With the observation "is the cleaner lock held" this gives the
    release of the lock on every path; with a log of the requests to clean, that a dry
    run requests nothing and that a reclaim issues at most one request. *)

From S2P Require Import Prelude Vector Ondisk Crc32 Sb Kernel Nilfs Segment Gc.

(** The queries of the kernel do not change the observation [obs]. *)
Class Quiet {W O : Type} (K : Kernel W) (obs : W -> O) : Prop := {
  q_malloc : forall n w, obs (malloc n w).2 = obs w;
  q_pread : forall fd n off w, obs (dev_pread fd n off w).2 = obs w;
  q_mmap : forall fd n off w, obs (k_mmap fd n off w).2 = obs w;
  q_munmap : forall a n w, obs (k_munmap a n w).2 = obs w;
  q_cpinfo : forall fd n i m w, obs (ioc_get_cpinfo fd n i m w).2 = obs w;
  q_cpstat : forall fd w, obs (ioc_get_cpstat fd w).2 = obs w;
  q_suinfo : forall fd n i w, obs (ioc_get_suinfo fd n i w).2 = obs w;
  q_vinfo : forall fd l w, obs (ioc_get_vinfo fd l w).2 = obs w;
  q_bdescs : forall fd l w, obs (ioc_get_bdescs fd l w).2 = obs w;
  q_time : forall w, obs (k_gettimeofday w).2 = obs w;
  q_pending : forall w, obs (sigpending_intterm w).2 = obs w;
}.

(** ** Computations that keep an observation *)

Section Keeps.
Context {W O : Type} (obs : W -> O) {S : Type} (world : S -> W).

Definition keeps {A} (m : M S A) : Prop := forall s, obs (world (m s).2) = obs (world s).

Lemma keeps_ret {A} (a : A) : keeps (ret a).
Proof. done. Qed.
Lemma keeps_fail {A} e : keeps (@fail S A e).
Proof. done. Qed.
Lemma keeps_abort {A} : keeps (@abort S A).
Proof. done. Qed.
Lemma keeps_fuel {A} : keeps (@out_of_fuel S A).
Proof. done. Qed.
Lemma keeps_gets {A} (f : S -> A) : keeps (gets f).
Proof. done. Qed.
Lemma keeps_get : keeps get_state.
Proof. done. Qed.
Lemma keeps_of_option {A} (o : option A) : keeps (@of_option S A o).
Proof. by destruct o. Qed.

Lemma keeps_modify f : (forall s, obs (world (f s)) = obs (world s)) -> keeps (modify f).
Proof. intros Hf s. apply Hf. Qed.

Lemma keeps_bind {A B} (m : M S A) (k : A -> M S B) :
  keeps m -> (forall a, keeps (k a)) -> keeps (bind m k).
Proof.
  intros Hm Hk s. unfold bind. specialize (Hm s). destruct (m s) as [[] s']; simpl in *; [|done..].
  by rewrite Hk.
Qed.

Lemma keeps_attempt {A} (m : M S A) : keeps m -> keeps (attempt m).
Proof. intros Hm s. unfold attempt. specialize (Hm s). by destruct (m s) as [[] s']. Qed.

Lemma keeps_malloc `{Alloc S} n :
  (forall n s, obs (world (malloc n s).2) = obs (world s)) -> keeps (m_malloc n).
Proof. intros Hm s. unfold m_malloc. specialize (Hm n s). by destruct (malloc n s) as [[] s']. Qed.
End Keeps.

Create HintDb keeps.
#[export] Hint Resolve keeps_ret keeps_fail keeps_abort keeps_fuel keeps_gets keeps_get
  keeps_of_option keeps_attempt : keeps.

(** [keep]: split a computation into its steps and cases, and close the steps
    that are known to keep the observation. *)
Ltac keep :=
  repeat first
    [ progress intros
    | solve [auto with keeps]
    | match goal with
      | |- keeps _ _ (bind _ _) => apply keeps_bind
      | |- keeps _ _ (attempt _) => apply keeps_attempt
      | |- keeps _ _ (modify _) => apply keeps_modify; intros; reflexivity
      end
    | case_match
    | progress cbn beta iota zeta ].

Section QuietOps.
Context {W O : Type} {K : Kernel W} {J : Junk} (obs : W -> O) {Q : Quiet K obs}.

(** *** The nilfs object *)
Abbreviation keeps_s := (keeps obs (@s_world W)).
Abbreviation keeps_g := (keeps obs (fun g : gcs W => s_world (g_sys g))).

Lemma keeps_os {A} (f : W -> (A + Z) * W) : (forall w, obs (f w).2 = obs w) -> keeps_s (os f).
Proof using. intros Hf s. unfold os. specialize (Hf (s_world s)). by destruct (f (s_world s)) as [[] ?]. Qed.

Lemma keeps_put_nilfs nf : keeps_s (put_nilfs nf).
Proof using. done. Qed.
Lemma keeps_the_nilfs : keeps_s the_nilfs.
Proof using. done. Qed.
Lemma keeps_os_pure {A} (f : W -> A) : keeps_s (os_pure f).
Proof using. done. Qed.
Lemma keeps_errno_now {A} : keeps_s (@errno_now W _ A).
Proof using. done. Qed.
Lemma keeps_sys_malloc n : keeps_s (m_malloc n).
Proof using Q.
  apply keeps_malloc. intros m s. unfold malloc at 1, sys_alloc. pose proof (q_malloc m (s_world s)) as Hq.
  by destruct (malloc m (s_world s)).
Qed.

Hint Resolve keeps_put_nilfs keeps_the_nilfs keeps_os_pure keeps_errno_now keeps_sys_malloc : keeps.
Hint Extern 1 (keeps _ _ (os _)) => (apply keeps_os; intros; apply Q) : keeps.

Lemma keeps_with_iocfd {A} (k : Z -> M (sys W) A) : (forall fd, keeps_s (k fd)) -> keeps_s (with_iocfd k).
Proof using. intros Hk. unfold with_iocfd. keep. Qed.

Hint Extern 1 (keeps _ _ (with_iocfd _)) => (apply keeps_with_iocfd; intros) : keeps.

Lemma keeps_get_suinfo i n : keeps_s (nilfs_get_suinfo i n).
Proof using Q. unfold nilfs_get_suinfo. keep. Qed.
Lemma keeps_get_cpstat : keeps_s nilfs_get_cpstat.
Proof using Q. unfold nilfs_get_cpstat. keep. Qed.
Lemma keeps_get_cpinfo c m n : keeps_s (nilfs_get_cpinfo c m n).
Proof using Q. unfold nilfs_get_cpinfo. apply keeps_with_iocfd. keep. Qed.
Lemma keeps_get_vinfo l n : keeps_s (nilfs_get_vinfo l n).
Proof using Q. unfold nilfs_get_vinfo. keep. Qed.
Lemma keeps_get_bdescs l n : keeps_s (nilfs_get_bdescs l n).
Proof using Q. unfold nilfs_get_bdescs. keep. Qed.
Lemma keeps_get_segment n : keeps_s (nilfs_get_segment n).
Proof using Q. unfold nilfs_get_segment, segment_extent, segment_bytes. keep. Qed.
Lemma keeps_put_segment seg : keeps_s (nilfs_put_segment seg).
Proof using Q. unfold nilfs_put_segment. keep. Qed.
Lemma keeps_get_bps : keeps_s nilfs_get_blocks_per_segment.
Proof using Q. unfold nilfs_get_blocks_per_segment, sb_field_of. keep. Qed.

Hint Resolve keeps_get_suinfo keeps_get_cpstat keeps_get_cpinfo keeps_get_vinfo keeps_get_bdescs
  keeps_get_segment keeps_put_segment keeps_get_bps : keeps.

(** *** Garbage collection *)

Lemma keeps_call {A} (m : M (sys W) A) : keeps_s m -> keeps_g (call m).
Proof using. intros Hm g. unfold call. specialize (Hm (g_sys g)). by destruct (m (g_sys g)). Qed.
Hint Resolve keeps_call : keeps.

Lemma keeps_gcs_malloc n : keeps_g (m_malloc n).
Proof using Q.
  apply keeps_malloc. intros m g. unfold malloc at 1, gcs_alloc, malloc at 1, sys_alloc.
  pose proof (q_malloc m (s_world (g_sys g))) as Hq. by destruct (malloc m (s_world (g_sys g))).
Qed.
Hint Resolve keeps_gcs_malloc : keeps.

Lemma keeps_new_element {A} (junk : A) v : keeps_g (nilfs_vector_get_new_element junk v).
Proof using Q.
  unfold nilfs_vector_get_new_element, nilfs_vector_enlarge. keep. by intros g.
Qed.
Lemma keeps_create {A} (junk : A) n : keeps_g (nilfs_vector_create junk n).
Proof using Q. unfold nilfs_vector_create. keep. Qed.
Lemma keeps_delete {A} (v : nilfs_vector A) i n : keeps_g (nilfs_vector_delete_elements v i n).
Proof using Q. unfold nilfs_vector_delete_elements. keep. Qed.
Hint Resolve keeps_new_element keeps_create keeps_delete : keeps.

Lemma keeps_push {A} (junk : A) get set f :
  (forall g v, g_sys (set g v) = g_sys g) -> keeps_g (push junk get set f).
Proof using Q. intros Hset. unfold push. keep. apply keeps_modify. intros g. by rewrite Hset. Qed.
Hint Extern 1 (keeps _ _ (push_vdesc _)) => (apply keeps_push; reflexivity) : keeps.
Hint Extern 1 (keeps _ _ (push_bdesc _)) => (apply keeps_push; reflexivity) : keeps.
Hint Extern 1 (keeps _ _ (push_period _)) => (apply keeps_push; reflexivity) : keeps.
Hint Extern 1 (keeps _ _ (push_vblocknr _)) => (apply keeps_push; reflexivity) : keeps.
Hint Extern 1 (keeps _ _ (push_sup _)) => (apply keeps_push; reflexivity) : keeps.

Lemma keeps_for_each {I} fuel ie nx (body : I -> M (gcs W) unit) it :
  (forall i, keeps_g (body i)) -> keeps_g (for_each fuel ie nx body it).
Proof using. intros Hb. revert it; induction fuel; intros; cbn [for_each]; keep. Qed.

Hint Extern 1 (keeps _ _ (for_each _ _ _ _ _)) => (apply keeps_for_each; intros) : keeps.

Lemma keeps_acc_bdesc seg ino b : keeps_g (acc_bdesc seg ino b).
Proof using Q. unfold acc_bdesc. keep. Qed.
Lemma keeps_acc_vdesc seg ino cno b : keeps_g (acc_vdesc seg ino cno b).
Proof using Q. unfold acc_vdesc. keep. Qed.
Hint Resolve keeps_acc_bdesc keeps_acc_vdesc : keeps.

Lemma keeps_acc_file seg ps f : keeps_g (nilfs_acc_blocks_file seg ps f).
Proof using Q. unfold nilfs_acc_blocks_file, for_each_block. keep; apply keeps_for_each; keep. Qed.
Hint Resolve keeps_acc_file : keeps.
Lemma keeps_acc_psegment seg ps : keeps_g (nilfs_acc_blocks_psegment seg ps).
Proof using Q. unfold nilfs_acc_blocks_psegment. keep; apply keeps_for_each; keep. Qed.
Hint Resolve keeps_acc_psegment : keeps.
Lemma keeps_acc_segment seg n : keeps_g (nilfs_acc_blocks_segment seg n).
Proof using Q. unfold nilfs_acc_blocks_segment. keep; apply keeps_for_each; keep. Qed.
Hint Resolve keeps_acc_segment : keeps.

Lemma keeps_deselect n i : keeps_g (deselect n i).
Proof using. unfold deselect. keep. Qed.
Hint Resolve keeps_deselect : keeps.

Lemma keeps_acc_blocks nsegs protseq : keeps_g (nilfs_acc_blocks nsegs protseq).
Proof using Q.
  unfold nilfs_acc_blocks. generalize (Datatypes.S (Z.to_nat nsegs)) as fuel.
  generalize junk_si, 0, nsegs.
  intros si i n fuel; revert si i n; induction fuel as [|fuel IH]; intros; cbn [acc_blocks_loop]; keep.
Qed.

Lemma keeps_store_vinfo i l : keeps_g (store_vinfo i l).
Proof using. revert i; induction l as [|v l IH]; intros i; cbn [store_vinfo]; keep. Qed.
Hint Resolve keeps_store_vinfo : keeps.
Lemma keeps_get_vdesc_loop fuel i : keeps_g (get_vdesc_loop fuel i).
Proof using Q. revert i; induction fuel as [|fuel IH]; intros i; cbn [get_vdesc_loop]; keep. Qed.
Hint Resolve keeps_get_vdesc_loop : keeps.
Lemma keeps_get_vdesc : keeps_g nilfs_get_vdesc.
Proof using Q. unfold nilfs_get_vdesc. keep. Qed.

Lemma keeps_store_snapshots n ss p ci : keeps_g (store_snapshots n ss p ci).
Proof using. revert ss p; induction ci as [|c ci IH]; intros; cbn [store_snapshots]; keep. Qed.
Hint Resolve keeps_store_snapshots : keeps.
Lemma keeps_get_snapshot_loop fuel n ss p c : keeps_g (get_snapshot_loop fuel n ss p c).
Proof using Q. revert ss p c; induction fuel as [|fuel IH]; intros; cbn [get_snapshot_loop]; keep. Qed.
Hint Resolve keeps_get_snapshot_loop : keeps.
Lemma keeps_get_snapshot : keeps_g nilfs_get_snapshot.
Proof using Q. unfold nilfs_get_snapshot. keep. Qed.

Lemma keeps_toss_inner fuel p ss j h : keeps_g (toss_inner fuel p ss j h).
Proof using Q. revert j h; induction fuel as [|fuel IH]; intros; cbn [toss_inner]; keep. Qed.
Lemma keeps_delete_range {A} (get : gcs W -> nilfs_vector A) set i n :
  (forall g v, g_sys (set g v) = g_sys g) -> keeps_g (delete_range get set i n).
Proof using Q. intros Hset. unfold delete_range. keep. apply keeps_modify. intros g. by rewrite Hset. Qed.
Hint Resolve keeps_get_snapshot keeps_toss_inner : keeps.
Hint Extern 1 (keeps _ _ (delete_range _ _ _ _)) => (apply keeps_delete_range; reflexivity) : keeps.
Lemma keeps_toss_outer fuel p ss i h : keeps_g (toss_outer fuel p ss i h).
Proof using Q. revert i h; induction fuel as [|fuel IH]; intros; cbn [toss_outer]; keep. Qed.
Hint Resolve keeps_toss_outer : keeps.
Lemma keeps_toss_vdescs p : keeps_g (nilfs_toss_vdescs p).
Proof using Q. unfold nilfs_toss_vdescs. keep. Qed.

Lemma keeps_unify_inner fuel i j : keeps_g (unify_inner fuel i j).
Proof using Q. revert j; induction fuel as [|fuel IH]; intros; cbn [unify_inner]; keep. Qed.
Hint Resolve keeps_unify_inner : keeps.
Lemma keeps_unify_outer fuel i : keeps_g (unify_outer fuel i).
Proof using Q. revert i; induction fuel as [|fuel IH]; intros; cbn [unify_outer]; keep. Qed.
Hint Resolve keeps_unify_outer : keeps.
Lemma keeps_unify_period : keeps_g nilfs_unify_period.
Proof using Q. unfold nilfs_unify_period. keep. Qed.

Lemma keeps_get_bdesc_loop fuel n i : keeps_g (get_bdesc_loop fuel n i).
Proof using Q. revert i; induction fuel as [|fuel IH]; intros; cbn [get_bdesc_loop]; keep. Qed.
Hint Resolve keeps_get_bdesc_loop : keeps.
Lemma keeps_get_bdesc : keeps_g nilfs_get_bdesc.
Proof using Q. unfold nilfs_get_bdesc. keep. Qed.

Lemma keeps_toss_bdescs_inner fuel j : keeps_g (toss_bdescs_inner fuel j).
Proof using Q. revert j; induction fuel as [|fuel IH]; intros; cbn [toss_bdescs_inner]; keep. Qed.
Hint Resolve keeps_toss_bdescs_inner : keeps.
Lemma keeps_toss_bdescs_outer fuel i : keeps_g (toss_bdescs_outer fuel i).
Proof using Q. revert i; induction fuel as [|fuel IH]; intros; cbn [toss_bdescs_outer]; keep. Qed.
Hint Resolve keeps_toss_bdescs_outer : keeps.
Lemma keeps_toss_bdescs : keeps_g nilfs_toss_bdescs.
Proof using Q. unfold nilfs_toss_bdescs. keep. Qed.

Lemma keeps_create_vectors : keeps_g create_vectors.
Proof using Q. unfold create_vectors. keep. Qed.

Lemma keeps_fill_sup n i now : keeps_g (fill_sup n i now).
Proof using Q. revert i; induction n as [|n IH]; intros; cbn [fill_sup]; keep. Qed.

(** *** Runs that start in, and stay in, one observation

    For the operations that are quiet only in some states. *)
Definition stays (v : O) {A} (m : M (gcs W) A) : Prop :=
  forall g, obs (s_world (g_sys g)) = v -> obs (s_world (g_sys (m g).2)) = v.

Lemma stays_keeps v {A} (m : M (gcs W) A) : keeps_g m -> stays v m.
Proof using. intros Hm g Hg. by rewrite Hm. Qed.

Lemma stays_bind v {A B} (m : M (gcs W) A) (k : A -> M (gcs W) B) :
  stays v m -> (forall a, stays v (k a)) -> stays v (bind m k).
Proof using.
  intros Hm Hk g Hg. unfold bind. specialize (Hm g Hg).
  destruct (m g) as [[] g']; simpl in *; [by apply Hk|done..].
Qed.

Lemma stays_attempt v {A} (m : M (gcs W) A) : stays v m -> stays v (attempt m).
Proof using. intros Hm g Hg. unfold attempt. specialize (Hm g Hg). by destruct (m g) as [[] g']. Qed.

Hint Resolve keeps_acc_blocks keeps_get_vdesc keeps_toss_vdescs keeps_unify_period keeps_get_bdesc
  keeps_toss_bdescs keeps_create_vectors keeps_fill_sup : keeps.

(** Everything before the commit, and all of it for a dry run. *)
Lemma stays_reclaim_locked v nsegs dryrun params :
  (dryrun = false -> forall n r, stays v (commit_segments params n r)) ->
  stays v (reclaim_locked nsegs dryrun params).
Proof using Q.
  intros Hc. unfold reclaim_locked, update_stat.
  repeat first
    [ solve [apply Hc; done]
    | apply stays_bind; [apply stays_keeps; solve [keep]|intros]
    | match goal with |- stays _ (if ?c then _ else _) => destruct c eqn:? end
    | solve [apply stays_keeps; keep] ].
Qed.

(** The commit, when the two requests that change the file system stay. *)
Lemma stays_commit v params n r :
  (forall a b c d e, stays v (call (nilfs_clean_segments a b c d e))) ->
  (forall l m, stays v (call (nilfs_set_suinfo l m))) ->
  stays v (commit_segments params n r).
Proof using Q.
  intros Hclean Hset. unfold commit_segments, defer_segments, clean_segments_now, update_stat.
  repeat first
    [ apply stays_bind; [|intros]
    | apply Hclean
    | apply stays_attempt, Hset
    | solve [apply stays_keeps; unfold nilfs_opt_clear; keep]
    | match goal with
      | |- stays _ (if ?c then _ else _) => destruct c eqn:?
      | |- stays _ (match ?x with _ => _ end) => destruct x
      end ].
Qed.
End QuietOps.


#[export] Hint Resolve keeps_acc_blocks keeps_get_vdesc keeps_toss_vdescs keeps_unify_period keeps_get_bdesc
  keeps_toss_bdescs keeps_create_vectors keeps_fill_sup : keeps.

(** ** The protocol of a reclaim *)

(** The synchronisation around the reclaim leaves [obs] alone as well. *)
Class QuietSync {W O : Type} (K : Kernel W) (obs : W -> O) : Prop := {
  qs_wait : forall w, obs (sem_wait w).2 = obs w;
  qs_post : forall w, obs (sem_post w).2 = obs w;
  qs_block : forall w, obs (sigprocmask_block w).2 = obs w;
  qs_restore : forall w, obs (sigprocmask_restore w) = obs w;
}.

(** The lock, seen through [held]; [unsafe] says that the file system was
    changed while the lock was free. *)
Class LockLaws {W : Type} (K : Kernel W) (held unsafe : W -> bool) : Prop := {
  l_quiet : Quiet K (fun w => (held w, unsafe w));
  l_wait_ok : forall w w', sem_wait w = (inl tt, w') -> held w' = true;
  l_wait_err : forall w w' e, sem_wait w = (inr e, w') -> held w' = held w;
  l_post_ok : forall w w', sem_post w = (inl tt, w') -> held w' = false;
  l_sem_unsafe : forall w, unsafe (sem_wait w).2 = unsafe w /\ unsafe (sem_post w).2 = unsafe w;
  l_block : forall w, held (sigprocmask_block w).2 = held w /\ unsafe (sigprocmask_block w).2 = unsafe w;
  l_restore : forall w, held (sigprocmask_restore w) = held w /\ unsafe (sigprocmask_restore w) = unsafe w;
  l_clean : forall fd a b c d e w, let w' := (ioc_clean_segments fd a b c d e w).2 in
    held w' = held w /\ unsafe w' = unsafe w || negb (held w);
  l_set : forall fd l w, let w' := (ioc_set_suinfo fd l w).2 in
    held w' = held w /\ unsafe w' = unsafe w || negb (held w);
}.

Section Protocol.
Context {W : Type} {K : Kernel W} {J : Junk}.

Lemma keeps_finally {O} (obs : W -> O) {A} (m : M (gcs W) A) c :
  keeps obs (fun g => s_world (g_sys g)) m -> keeps obs (fun g => s_world (g_sys g)) c ->
  keeps obs (fun g => s_world (g_sys g)) (finally m c).
Proof. intros Hm Hc. unfold finally. keep. Qed.

Lemma keeps_sem {O} (obs : W -> O) op i : (forall w, obs (op w).2 = obs w) ->
  keeps obs s_world (with_sem i op).
Proof. intros Hop. unfold with_sem. keep; [done|]. by apply keeps_os. Qed.

(** C15: a dry run issues no request that changes the file system: any
    observation that the queries and the synchronisation leave alone is the
    same after it as before, whatever its result. *)
Theorem dryrun_requests_nothing {O} (obs : W -> O) {Q : Quiet K obs} {QS : QuietSync K obs}
    nsegs params (g : gcs W) :
  obs (s_world (g_sys (nilfs_xreclaim_segment nsegs true params g).2)) = obs (s_world (g_sys g)).
Proof.
  revert g. change (keeps obs (fun g => s_world (g_sys g)) (nilfs_xreclaim_segment nsegs true params)).
  unfold nilfs_xreclaim_segment. case_match; [apply keeps_fail|]. case_match; [apply keeps_ret|].
  apply keeps_bind; [by apply keeps_create_vectors|intros _].
  apply keeps_bind; [apply keeps_call, keeps_os, QS|intros _].
  apply keeps_finally; [|apply keeps_modify; intros; apply QS].
  apply keeps_bind; [apply keeps_call, keeps_sem, QS|intros _].
  apply keeps_finally.
  - intros g. apply (stays_reclaim_locked obs); done.
  - unfold unlock_or_exit. apply keeps_bind; [apply keeps_attempt, keeps_call, keeps_sem, QS|].
    intros [|]; done.
Qed.

(** A semaphore operation, as the state sees it. *)
Lemma call_sem op (g : gcs W) :
  call (with_sem 0 op) g =
    if n_sem (s_nilfs (g_sys g)) then
      let '(r, w) := op (s_world (g_sys g)) in
      (match r with inl a => Ok a | inr e => Err e end, with_sys g (mk_sys (s_nilfs (g_sys g)) w))
    else (Abort, g).
Proof.
  unfold call, with_sem, bind, the_nilfs, gets, os. simpl. case_if; [by destruct (op _)|].
  unfold abort. by destruct g.
Qed.

Section Lock.
Context (held unsafe : W -> bool) {L : LockLaws K held unsafe}.
Abbreviation obs := (fun w => (held w, unsafe w)).
Existing Instance l_quiet.

(** The observation of a state. *)
Definition lock_of (g : gcs W) : bool * bool := obs (s_world (g_sys g)).

Lemma clean_stays u a b c d e :
  stays obs (true, u) (call (nilfs_clean_segments a b c d e)).
Proof using L.
  intros g Hg. unfold call, nilfs_clean_segments, with_iocfd, bind, the_nilfs, gets.
  case_if; [done|]. unfold os.
  match goal with |- context [ioc_clean_segments ?fd ?a ?b ?c ?d ?e ?w] =>
    pose proof (l_clean fd a b c d e w) as [H1 H2]; destruct (ioc_clean_segments fd a b c d e w) as [r w'] end.
  simpl in *. injection Hg as Hh Hu. by rewrite H1, H2, Hh, Hu, orb_false_r.
Qed.

Lemma set_stays u l m : stays obs (true, u) (call (nilfs_set_suinfo l m)).
Proof using L.
  intros g Hg. unfold call, nilfs_set_suinfo, with_iocfd, bind, the_nilfs, gets.
  case_if; [done|]. unfold os.
  match goal with |- context [ioc_set_suinfo ?fd ?l ?w] =>
    pose proof (l_set fd l w) as [H1 H2]; destruct (ioc_set_suinfo fd l w) as [r w'] end.
  simpl in *. injection Hg as Hh Hu. by rewrite H1, H2, Hh, Hu, orb_false_r.
Qed.

Lemma reclaim_locked_stays u nsegs dryrun params :
  stays obs (true, u) (reclaim_locked nsegs dryrun params).
Proof using L.
  apply stays_reclaim_locked; [apply L|]. intros _ n r.
  apply stays_commit; [apply L|apply clean_stays|apply set_stays].
Qed.

(** The outcome of a call that ends normally. *)
Definition lock_after (u : bool) {A} (x : res A * gcs W) : Prop :=
  match x with
  | (Ok _, g) | (Err _, g) => lock_of g = (false, u)
  | _ => True
  end.

Lemma unlock_after u {A} (m : M (gcs W) A) g :
  stays obs (true, u) m -> lock_of g = (true, u) -> lock_after u (finally m unlock_or_exit g).
Proof using L.
  intros Hm Hg. unfold finally, bind, attempt. specialize (Hm g Hg).
  destruct (m g) as [r g1]. simpl in Hm.
  assert (Hpost : match unlock_or_exit g1 with (Ok _, g2) => lock_of g2 = (false, u) | (Err _, _) => False | _ => True end).
  { unfold unlock_or_exit, bind, attempt, nilfs_unlock. rewrite call_sem.
    case_if; [|done]. injection Hm as Hh Hu.
    pose proof (l_sem_unsafe (s_world (g_sys g1))) as [_ Hun].
    pose proof (l_post_ok (s_world (g_sys g1))) as Hok.
    destruct (sem_post (s_world (g_sys g1))) as [[[]|e] w']; [|done].
    unfold lock_of; simpl in *. by rewrite (Hok w' eq_refl), Hun, Hu. }
  destruct r; try done;
    (destruct (unlock_or_exit g1) as [[[]|?| | |] g2]; done).
Qed.

Lemma restore_after u {A} (m : M (gcs W) A) g :
  lock_after u (m g) -> lock_after u (finally m restore_signals g).
Proof using L.
  intros Hm. unfold finally, bind, attempt. destruct (m g) as [[a|e| | |] g1]; try done;
    pose proof (l_restore (s_world (g_sys g1))) as [H1 H2]; simpl in *; unfold lock_of in *;
    simpl; by rewrite H1, H2.
Qed.

Lemma locked_after u nsegs dryrun params g :
  lock_of g = (false, u) ->
  lock_after u ((call (nilfs_lock 0) ;; finally (reclaim_locked nsegs dryrun params) unlock_or_exit) g).
Proof using L.
  intros Hg. unfold bind at 1, nilfs_lock. rewrite call_sem. case_if; [|done].
  injection Hg as Hh Hu. pose proof (l_sem_unsafe (s_world (g_sys g))) as [Hun _].
  pose proof (l_wait_ok (s_world (g_sys g))) as Hok. pose proof (l_wait_err (s_world (g_sys g))) as Herr.
  destruct (sem_wait (s_world (g_sys g))) as [[[]|e] w]; simpl in *.
  - apply unlock_after; [apply reclaim_locked_stays|]. unfold lock_of; simpl.
    by rewrite (Hok w eq_refl), Hun, Hu.
  - unfold lock_of; simpl. by rewrite (Herr w e eq_refl), Hun, Hh, Hu.
Qed.

(** C16: whichever way [nilfs_xreclaim_segment] returns, the cleaner lock
    is free afterwards if it was free before, and the file system is only
    changed while the lock is held. *)
Theorem xreclaim_releases_lock nsegs dryrun params (g : gcs W) :
  held (s_world (g_sys g)) = false ->
  match nilfs_xreclaim_segment nsegs dryrun params g with
  | (Ok _, g') | (Err _, g') =>
    held (s_world (g_sys g')) = false /\
    unsafe (s_world (g_sys g')) = unsafe (s_world (g_sys g))
  | _ => True
  end.
Proof using L.
  intros Hg. set (u := unsafe (s_world (g_sys g))).
  assert (Hg' : lock_of g = (false, u)) by (unfold lock_of; by rewrite Hg).
  enough (Ha : lock_after u (nilfs_xreclaim_segment nsegs dryrun params g)).
  { unfold lock_after, lock_of in Ha. destruct (nilfs_xreclaim_segment _ _ _ g) as [[] g']; by simplify_eq/=. }
  unfold nilfs_xreclaim_segment. destruct (negb (params_ok params)); [exact Hg'|]. case_if; [exact Hg'|].
  unfold bind at 1. pose proof (keeps_create_vectors obs g) as Hk. simpl in Hk.
  change (lock_of (create_vectors g).2 = lock_of g) in Hk. rewrite Hg' in Hk.
  destruct (create_vectors g) as [[[]|?| | |] g1]; try done. simpl in Hk.
  unfold bind at 1, call at 1, os. pose proof (l_block (s_world (g_sys g1))) as [Hb1 Hb2].
  injection Hk as Hh1 Hu1.
  destruct (sigprocmask_block (s_world (g_sys g1))) as [[[]|e] w2]; simpl in *;
    [|unfold lock_of; simpl; by rewrite Hb1, Hb2, Hh1, Hu1].
  apply restore_after. apply locked_after. unfold lock_of; simpl. by rewrite Hb1, Hb2, Hh1, Hu1.
Qed.
End Lock.
End Protocol.
