(* ===== verification/FileSystem.v ===== *)
(** * The file system behind the kernel interface

    The theorems on a whole reclaim need to know what the kernel answers.
    This file describes the state of a mounted file system as far as the
    library can see it ([fs], the requests made so far and the cleaner lock),
    the laws that relate the answers of the ioctls to it (class [FsLaws], the
    documented behaviour of the nilfs2 driver), and derives from them what
    each wrapper of lib/nilfs.c returns.  All the triples are total: the
    wrappers end, and read only inside of what was obtained. *)

From S2P Require Import Prelude Vector Hoare Ondisk Sb Kernel Nilfs Segment Gc GcProtocol.

(** A request to clean segments, as the kernel receives it. *)
Record clean_request := mk_request {
  cr_vdescs : list nilfs_vdesc; cr_periods : list nilfs_period; cr_vblocknrs : list Z;
  cr_bdescs : list nilfs_bdesc; cr_segnums : list Z;
}.

(** What the queries report: the snapshots, the period of each virtual block
    number, the disk block that now holds a block of the DAT (by inode
    number, offset and level), the usage of each segment, and the bytes of
    the device (by offset and length); [fs_sb] is the superblock with which it
    was mounted. *)
Record fs := mk_fs {
  fs_snaps : list Z;
  fs_dat : Z -> nilfs_period;
  fs_where : Z -> Z -> Z -> Z;
  fs_sui : Z -> nilfs_suinfo;
  fs_bytes : Z -> Z -> list Z;
  fs_sb : list Z;
}.

(** A descriptor of a block of the DAT completed by the place of the block. *)
Definition located (F : fs) (q : nilfs_bdesc) : nilfs_bdesc :=
  mk_bdesc (bd_ino q) (bd_oblocknr q) (fs_where F (bd_ino q) (bd_offset q) (bd_level q))
    (bd_offset q) (bd_level q).

Record fs_wf (F : fs) : Prop := {
  fw_snaps : StronglySorted Z.lt (0 :: fs_snaps F);
  fw_dat : forall n, NILFS_CNO_MIN <= p_start (fs_dat F n);
  fw_sui : forall n, is_u32 (sui_nblocks (fs_sui F n));
  fw_bytes : forall off n, Forall is_u8 (fs_bytes F off n);
}.

(** The answers of the kernel.  A query returns at least one entry if there
    is one, and may return fewer than were asked for. *)
Class FsLaws {W : Type} (K : Kernel W) (fs_of : W -> fs) (requests : W -> list clean_request)
    (locked : W -> bool) : Prop := {
  fl_quiet : Quiet K (fun w => (fs_of w, requests w, locked w));
  fl_wf : forall w, fs_wf (fs_of w);
  fl_pagesize : forall w, k_pagesize w <= 2 ^ 32;
  fl_junk : forall w, is_u8 (k_junk w);
  fl_pread : forall fd n off w r w', dev_pread fd n off w = (inl r, w') -> r = fs_bytes (fs_of w) off n;
  fl_mmap : forall fd n off w base r w', k_mmap fd n off w = (inl (base, r), w') ->
    r = fs_bytes (fs_of w) off n /\ Z.of_nat (length r) = n;
  fl_suinfo : forall fd n i w r w', ioc_get_suinfo fd n i w = (inl r, w') -> 1 <= n ->
    head r = Some (fs_sui (fs_of w) i);
  fl_cpstat : forall fd w r w', ioc_get_cpstat fd w = (inl r, w') ->
    cs_nsss r = Z.of_nat (length (fs_snaps (fs_of w)));
  fl_snapshots : forall fd n i w r w', ioc_get_cpinfo fd n i NILFS_SNAPSHOT w = (inl r, w') -> 1 <= n ->
    i = 0 \/ i ∈ fs_snaps (fs_of w) ->
    exists rest, filter (fun x => i <= x) (fs_snaps (fs_of w)) = (ci_cno <$> r) ++ rest /\
      (r = [] -> rest = []) /\ forall c, last r = Some c -> ci_next c = default 0 (head rest);
  fl_vinfo : forall fd l w r w', ioc_get_vinfo fd l w = (inl r, w') ->
    (l <> [] -> r <> []) /\
    Forall2 (fun q a => vi_vblocknr a = vi_vblocknr q /\
                        mk_period (vi_start a) (vi_end a) = fs_dat (fs_of w) (vi_vblocknr q))
      (take (length r) l) r;
  fl_bdescs : forall fd l w r w', ioc_get_bdescs fd l w = (inl r, w') ->
    (l <> [] -> r <> []) /\
    r = located (fs_of w) <$> take (length r) l;
  (** Setting usage information changes that, if it succeeds. *)
  fl_set : forall fd l w r w', ioc_set_suinfo fd l w = (r, w') ->
    requests w' = requests w /\ locked w' = locked w /\
    match r with inl _ => fs_sb (fs_of w') = fs_sb (fs_of w) | inr _ => fs_of w' = fs_of w end;
  fl_clean : forall fd v p b d s w, let w' := (ioc_clean_segments fd v p b d s w).2 in
    requests w' = requests w ++ [mk_request v p b d s] /\ locked w' = locked w /\
    fs_sb (fs_of w') = fs_sb (fs_of w);
  (** The lock is taken unless the call fails; an open semaphore can be
      posted. *)
  fl_wait : forall w r w', sem_wait w = (r, w') ->
    fs_of w' = fs_of w /\ requests w' = requests w /\
    locked w' = match r with inl _ => true | inr _ => locked w end;
  fl_post : forall w, exists w', sem_post w = (inl tt, w') /\ fs_of w' = fs_of w /\
    requests w' = requests w /\ locked w' = false;
  fl_block : forall w, let w' := (sigprocmask_block w).2 in
    fs_of w' = fs_of w /\ requests w' = requests w /\ locked w' = locked w;
  fl_restore : forall w, let w' := sigprocmask_restore w in
    fs_of w' = fs_of w /\ requests w' = requests w /\ locked w' = locked w;
}.

(** A superblock with blocks of 1 KB to 64 KB and segments of at most 512 MB
    that all lie below the largest file offset. *)
Record geometry_ok (sb : list Z) : Prop := {
  ge_bits : 0 <= sb_get sb s_log_block_size <= 6;
  ge_bps : 0 <= sb_get sb s_blocks_per_segment;
  ge_segsize : sb_get sb s_blocks_per_segment * 2 ^ (sb_get sb s_log_block_size + 10) <= 2 ^ 29;
  ge_first : 0 <= sb_get sb s_first_data_block;
  ge_size : sb_get sb s_nsegments * (sb_get sb s_blocks_per_segment * 2 ^ (sb_get sb s_log_block_size + 10)) < 2 ^ 63;
}.

(** The library holds the superblock of a sane file system, and the semaphore
    is open. *)
Definition nilfs_ok (F : fs) (nf : nilfs) : Prop :=
  geometry_ok (fs_sb F) /\ n_sb nf = Some (fs_sb F) /\ n_sem nf = true.

Section Stable.
Context {W : Type} {K : Kernel W} {fs_of : W -> fs} {requests : W -> list clean_request} {locked : W -> bool}.
Context {L : FsLaws K fs_of requests locked}.
Context (F : fs) (rq : list clean_request) (lk : bool).
Existing Instance fl_quiet.

(** The world shows the file system [F], and the nilfs object is usable. *)
Definition sys_ok (s : sys W) : Prop :=
  (fs_of (s_world s), requests (s_world s), locked (s_world s)) = (F, rq, lk) /\ nilfs_ok F (s_nilfs s).

(** A computation that leaves the file system alone, with the values it can
    return.  It may fail. *)
Definition stable {A} (m : M (sys W) A) (R : A -> Prop) : Prop :=
  forall s, sys_ok s -> wp m (fun a s' => R a /\ sys_ok s') (fun _ => sys_ok) s.

Lemma stable_os {A} (f : W -> (A + Z) * W) (R : A -> Prop) :
  (forall w, (fs_of (f w).2, requests (f w).2, locked (f w).2) = (fs_of w, requests w, locked w)) ->
  (forall w a w', fs_of w = F -> f w = (inl a, w') -> R a) -> stable (os f) R.
Proof using.
  intros Hq Hr s [Hs Hn]. unfold wp, os. specialize (Hq (s_world s)). specialize (Hr (s_world s)).
  rewrite Hs in Hq. injection Hs as HF _ _. destruct (f (s_world s)) as [[a|e] w]; simpl in *; [|done].
  split; [by eapply Hr|done].
Qed.

Lemma stable_bind {A B} (m : M (sys W) A) (k : A -> M (sys W) B) R R' :
  stable m R -> (forall a, R a -> stable (k a) R') -> stable (bind m k) R'.
Proof using.
  intros Hm Hk s Hs. eapply wp_seq; [by apply Hm| |done]. intros a s' [Ha Hs']. by apply (Hk a Ha).
Qed.

Lemma stable_ret {A} (a : A) (R : A -> Prop) : R a -> stable (ret a) R.
Proof using. by intros ? s ?. Qed.
Lemma stable_fail {A} e (R : A -> Prop) : stable (fail e) R.
Proof using. by intros s ?. Qed.
Lemma stable_nilfs : stable the_nilfs (nilfs_ok F).
Proof using. intros s Hs. split; [apply Hs|done]. Qed.
Lemma stable_of_option {A} (o : option A) a (R : A -> Prop) : o = Some a -> R a -> stable (of_option o) R.
Proof using. intros -> Ha s Hs. done. Qed.
Lemma stable_impl {A} (m : M (sys W) A) (R R' : A -> Prop) :
  stable m R -> (forall a, R a -> R' a) -> stable m R'.
Proof using. intros Hm Hr s Hs. eapply wp_mono; [by apply Hm| |done]. intros a s' []; eauto. Qed.
Lemma stable_attempt {A} (m : M (sys W) A) (R : A -> Prop) :
  stable m R -> stable (attempt m) (fun r => match r with inl a => R a | inr _ => True end).
Proof using. intros Hm s Hs. apply wp_attempt. eapply wp_mono; [by apply Hm| |]; simpl; tauto. Qed.
Lemma stable_os_pure {A} (f : W -> A) (R : A -> Prop) :
  (forall w, fs_of w = F -> R (f w)) -> stable (os_pure f) R.
Proof using. intros Hf s Hs. split; [|done]. apply Hf. by destruct Hs as [[= HF _ _] _]. Qed.

Lemma stable_malloc n : stable (m_malloc n) (fun _ => True).
Proof using L.
  intros s [Hs Hn]. apply wp_malloc. unfold malloc at 1, sys_alloc. intros b s'.
  pose proof (q_malloc (obs := fun w => (fs_of w, requests w, locked w)) n (s_world s)) as Hq.
  destruct (malloc n (s_world s)) as [b' w]. intros [= <- <-]. simpl in Hq.
  assert (sys_ok (mk_sys (s_nilfs s) w)) by (split; [simpl; congruence|done]). by destruct b'.
Qed.

Lemma stable_with_iocfd {A} (k : Z -> M (sys W) A) R : (forall fd, stable (k fd) R) -> stable (with_iocfd k) R.
Proof using.
  intros Hk. eapply stable_bind; [apply stable_nilfs|]. intros nf _. case_if; [apply stable_fail|apply Hk].
Qed.

(** ** The queries *)

Lemma get_suinfo_stable segnum : stable (nilfs_get_suinfo segnum 1)
  (fun r => head r = Some (fs_sui F segnum)).
Proof using L.
  apply stable_with_iocfd; intros fd. apply stable_os; [intros; apply fl_quiet|].
  intros w r w' <- Hr. eapply fl_suinfo; [exact Hr|]. done.
Qed.

Lemma get_cpstat_stable : stable nilfs_get_cpstat (fun r => cs_nsss r = Z.of_nat (length (fs_snaps F))).
Proof using L.
  apply stable_with_iocfd; intros fd. apply stable_os; [intros; apply fl_quiet|].
  intros w r w' <- Hr. by eapply fl_cpstat.
Qed.

(** One step of the enumeration of the snapshots, from [i] on. *)
Definition snapshots_from (i : Z) (r : list nilfs_cpinfo) : Prop :=
  exists rest, filter (fun x => i <= x) (fs_snaps F) = (ci_cno <$> r) ++ rest /\
    (r = [] -> rest = []) /\ forall c, last r = Some c -> ci_next c = default 0 (head rest).

Lemma get_snapshots_stable i : i = 0 \/ i ∈ fs_snaps F ->
  stable (nilfs_get_cpinfo i NILFS_SNAPSHOT NILFS_GC_NCPINFO) (snapshots_from i).
Proof using L.
  intros Hi. apply stable_with_iocfd; intros fd. simpl.
  eapply stable_bind; [apply stable_nilfs|]. intros nf _.
  eapply (stable_bind _ _ (snapshots_from i)).
  - apply stable_os; [intros; apply fl_quiet|]. intros w r w' HF Hr. unfold snapshots_from. subst F.
    by eapply fl_snapshots.
  - intros r Hr. eapply (stable_bind _ _ (fun _ => True)); [|intros; by apply stable_ret].
    destruct r; by apply stable_ret.
Qed.

Lemma get_vinfo_stable l : Z.of_nat (length l) < 2 ^ 32 ->
  stable (nilfs_get_vinfo l (Z.of_nat (length l)))
    (fun r => (l <> [] -> r <> []) /\ (length r <= length l)%nat /\
       Forall2 (fun q a => vi_vblocknr a = vi_vblocknr q /\
                           mk_period (vi_start a) (vi_end a) = fs_dat F (vi_vblocknr q)) (take (length r) l) r).
Proof using L.
  intros Hl. apply stable_with_iocfd; intros fd.
  rewrite u32_id, Nat2Z.id, take_ge by (unfold_words; lia).
  eapply stable_impl; [apply stable_os; [intros; apply fl_quiet|]|].
  - intros w r w' HF Hr%fl_vinfo. rewrite HF in Hr. exact Hr.
  - intros r [H1 H2]. split_and!; [done| |done]. apply Forall2_length in H2. rewrite length_take in H2. lia.
Qed.

Lemma get_bdescs_stable l n : 0 <= n < 2 ^ 32 ->
  let req := take (Z.to_nat n) l in
  stable (nilfs_get_bdescs l n)
    (fun r => (req <> [] -> r <> []) /\ (length r <= length req)%nat /\
       r = located F <$> take (length r) req).
Proof using L.
  intros Hn req. apply stable_with_iocfd; intros fd. rewrite u32_id by (unfold_words; lia). fold req.
  eapply stable_impl; [apply stable_os; [intros; apply fl_quiet|]|].
  - intros w r w' HF Hr%fl_bdescs. rewrite HF in Hr. exact Hr.
  - intros r [H1 H2]. split; [done|]. split.
    { apply (f_equal length) in H2. rewrite length_fmap, length_take in H2. lia. }
    exact H2.
Qed.

Lemma get_bps_stable : stable nilfs_get_blocks_per_segment (fun n => is_u32 n).
Proof using.
  unfold nilfs_get_blocks_per_segment, sb_field_of.
  eapply stable_bind; [apply stable_nilfs|]. intros nf (Hg & Hsb & _).
  rewrite Hsb. eapply stable_bind; [by apply (stable_of_option _ (fs_sb F) (fun x => geometry_ok x))|].
  intros sb' Hg'. apply stable_ret. destruct Hg'.
  assert (1 <= 2 ^ (sb_get sb' s_log_block_size + 10)) by (apply (Z.pow_le_mono_r 2 0); lia).
  unfold_words. nia.
Qed.

(** ** Segments *)

Context (Hwf : fs_wf F).

(** A segment as it was read: its number is [segnum]; what is read from the
    device starts with the segment, while a mapping starts with the page the
    segment begins in. *)
Definition read_from (segnum : Z) (seg : nilfs_segment) : Prop :=
  seg_ok seg /\ seg_segnum seg = segnum /\
  (seg_mmapped seg = false -> exists junk, seg_addr seg =
     resize (Z.to_nat (seg_segsize seg)) junk (fs_bytes F (seg_blocknr seg * 2 ^ seg_blkbits seg) (seg_segsize seg))) /\
  rd_le 8 (seg_addr seg) ss_seq_off = Some (seg_seqnum seg).

Lemma put_segment_stable seg : 0 <= seg_segsize seg -> stable (nilfs_put_segment seg) (fun _ => True).
Proof using L.
  intros _. unfold nilfs_put_segment. case_if; [case_if|by apply stable_ret].
  - eapply (stable_bind _ _ (fun _ => True)); [by apply stable_os_pure|]. intros p _.
    case_if; [apply stable_fail|]. by apply stable_os; [intros; apply fl_quiet|].
  - by apply stable_os; [intros; apply fl_quiet|].
Qed.

(** The bytes obtained: enough of them, also when memory is mapped. *)
Lemma segment_bytes_stable nf pagesize size start :
  0 < pagesize <= 2 ^ 32 -> 0 <= size <= 2 ^ 29 -> 0 <= start < 2 ^ 63 ->
  stable (segment_bytes nf pagesize size start) (fun '(_, bytes, mapped, _) =>
    Forall is_u8 bytes /\ size <= Z.of_nat (length bytes) /\
    (mapped = false -> exists junk, bytes = resize (Z.to_nat size) junk (fs_bytes F start size))).
Proof using L Hwf.
  intros Hp Hsz Hst. unfold segment_bytes.
  match goal with |- stable _ ?P => set (R := P) end.
  set (by_read := bind (m_malloc size) _).
  assert (Hread : stable by_read R).
  { unfold by_read. eapply stable_bind; [apply stable_malloc|]. intros _ _.
    eapply (stable_bind _ _ (fun b => b = fs_bytes F start size)).
    { apply stable_os; [intros; apply fl_quiet|]. intros w r w' HF Hr%fl_pread. by rewrite HF in Hr. }
    intros bytes ->. eapply (stable_bind _ _ is_u8); [apply stable_os_pure; intros; apply fl_junk|].
    intros junk Hj. apply stable_ret. unfold R. rewrite length_resize. split_and!; [|lia|eauto].
    apply Forall_resize; [done|apply Hwf]. }
  case_if; [|done].
  rewrite Z.rem_mod_nonneg by lia. pose proof (Z.mod_pos_bound start pagesize ltac:(lia)) as Hoff.
  set (off := start `mod` pagesize) in *. set (len := u64 _).
  assert (Hlen : size <= len).
  { unfold len. change (2 ^ 32) with 4294967296 in *. change (2 ^ 29) with 536870912 in *.
    rewrite (u64_id (size + off)), (u64_id (size + off + pagesize - 1)) by (unfold_words; lia).
    pose proof (Z.div_mod (size + off + pagesize - 1) pagesize ltac:(lia)).
    pose proof (Z.mod_pos_bound (size + off + pagesize - 1) pagesize ltac:(lia)).
    rewrite u64_id by (unfold_words; nia). nia. }
  eapply stable_bind; [apply (stable_attempt _ (fun x : Z * list Z => Forall is_u8 x.2 /\ size <= Z.of_nat (length x.2)))|].
  - apply stable_os; [intros; apply fl_quiet|]. intros w [base bytes] w' Hw Hr%fl_mmap.
    rewrite Hw in Hr. destruct Hr as [-> Hl]. split; [apply Hwf|]. simpl. lia.
  - intros [[base bytes]|e] Hr; [|case_if; [done|apply stable_fail]].
    apply stable_ret. unfold R. destruct Hr. done.
Qed.

Lemma shl64_some x n : 0 <= n < 64 -> 0 <= x -> x * 2 ^ n < 2 ^ 64 -> shl64 x n = Some (x * 2 ^ n).
Proof using.
  intros Hn Hx Hb. unfold shl64. rewrite Z.shiftl_mul_pow2, u64_id by (unfold_words; nia || lia).
  destruct (Z.leb_spec 0 n), (Z.ltb_spec n 64); done || lia.
Qed.

(** Where a segment of the device lies. *)
Lemma segment_extent_stable sb segnum : geometry_ok sb -> 0 <= segnum < sb_get sb s_nsegments ->
  NILFS_SEG_MIN_BLOCKS <= sb_get sb s_blocks_per_segment ->
  stable (segment_extent sb segnum (sb_get sb s_blocks_per_segment)) (fun '(start, n) =>
    0 <= start /\ 1 <= n <= sb_get sb s_blocks_per_segment /\
    start + n <= sb_get sb s_nsegments * sb_get sb s_blocks_per_segment).
Proof using.
  intros [Hb Hbps Hseg Hf Hsz] Hn Hmin. unfold segment_extent, NILFS_SEG_MIN_BLOCKS in *.
  set (bps := sb_get sb s_blocks_per_segment) in *. set (bits := sb_get sb s_log_block_size + 10) in *.
  assert (2 ^ 10 <= 2 ^ bits) by (apply (Z.pow_le_mono_r 2 10); lia). change (2 ^ 10) with 1024 in *. change (2 ^ 29) with 536870912 in *.
  destruct (Z.eqb_spec segnum 0).
  - case_if; [apply stable_fail|]. apply stable_ret.
    rewrite (u32_id (sb_get sb s_first_data_block)), u32_id by (unfold_words; nia). nia.
  - apply stable_ret. rewrite u64_id by (unfold_words; nia). nia.
Qed.

Lemma get_segment_stable segnum : 0 <= segnum -> stable (nilfs_get_segment segnum) (read_from segnum).
Proof using L Hwf.
  intros Hn0. unfold nilfs_get_segment. eapply stable_bind; [apply stable_nilfs|]. intros nf (Hg & Hsb & _).
  rewrite Hsb. set (sb := fs_sb F) in *. clearbody sb. clear Hsb.
  case_if; [apply stable_fail|].
  eapply (stable_bind _ _ (fun p => p <= 2 ^ 32)); [apply stable_os_pure; intros; apply fl_pagesize|]. intros p Hp.
  destruct (Z.leb_spec p 0); [apply stable_fail|].
  destruct (Z.leb_spec (sb_get sb s_nsegments) segnum); [apply stable_fail|].
  case_if; [apply stable_fail|].
  eapply stable_bind; [apply segment_extent_stable; [done|lia|done]|]. intros [start n] (Hst & Hn & Hend).
  destruct Hg as [Hb Hbps Hseg Hf Hsz]. rewrite u32_id by (unfold_words; lia).
  set (bps := sb_get sb s_blocks_per_segment) in *. set (bits := sb_get sb s_log_block_size + 10) in *.
  assert (2 ^ 10 <= 2 ^ bits) by (apply (Z.pow_le_mono_r 2 10); lia). change (2 ^ 10) with 1024 in *.
  assert (start + n <= sb_get sb s_nsegments * bps -> (start + n) * 2 ^ bits < 2 ^ 63) as Hlim by nia.
  specialize (Hlim Hend). assert (n * 2 ^ bits <= 2 ^ 29) by nia.
  eapply stable_bind; [apply (stable_of_option _ (n * 2 ^ bits) (fun x => x = n * 2 ^ bits)); [apply shl64_some; nia|done]|].
  intros size ->. eapply stable_bind; [apply (stable_of_option _ (start * 2 ^ bits) (fun x => x = start * 2 ^ bits)); [apply shl64_some; nia|done]|].
  intros sstart ->. rewrite i64_id by (unfold_words; nia).
  eapply stable_bind; [apply segment_bytes_stable; [lia|nia|nia]|].
  intros [[[base bytes] mapped] adjusted] (Hu & Hl & Hbytes).
  destruct (rd_le_is_Some 8 bytes ss_seq_off) as [sq Hsq]; [unfold ss_seq_off; lia|lia|unfold ss_seq_off; nia|].
  eapply stable_bind; [by apply (stable_of_option _ sq (fun x => x = sq))|]. intros ? ->.
  apply stable_ret. split_and!; [|done|done|done]. constructor; simpl; try done; nia.
Qed.
End Stable.
