(* ===== verification/Collect.v ===== *)
(** * Which blocks a reclaim collects

    What the logs of a segment describe, as lists computed from the bytes of
    the segment ([segment_contents]), and the proof that the nested loops of
    [nilfs_acc_blocks] append exactly these descriptors to the vectors, for
    every segment that stays selected.  The loops end and never read outside
    of the segments, whatever these hold. *)

From S2P Require Import Prelude Vector Hoare Ondisk Sb Kernel Nilfs Segment Gc GcProtocol FileSystem.

(** ** The blocks a segment describes *)

(** The fields of a descriptor that the segment determines. *)
Definition fields (v : nilfs_vdesc) : nilfs_vdesc :=
  mk_vdesc (vd_ino v) (vd_cno v) (vd_vblocknr v) (mk_period 0 0) (vd_blocknr v)
    (if vd_flags v =? 0 then vd_offset v else 0) (vd_flags v).

Definition bfields (b : nilfs_bdesc) : nilfs_bdesc :=
  mk_bdesc (bd_ino b) (bd_oblocknr b) 0 (bd_offset b) (bd_level b).

(** Descriptors of virtual blocks and of blocks of the DAT. *)
Definition contents : Type := list nilfs_vdesc * list nilfs_bdesc.

Definition join_contents (l : list contents) : contents := (concat l.*1, concat l.*2).

Section Contents.
Context (seg : nilfs_segment).
Abbreviation mem := (seg_addr seg).

Definition block_vdesc (ino cno : Z) (b : nilfs_block) : option nilfs_vdesc :=
  vblocknr ← rd_le 8 mem (bk_binfo b);
  offset ← (if nilfs_block_is_data b then rd_le 8 mem (bk_binfo b + 8) else Some 0);
  Some (mk_vdesc ino cno vblocknr (mk_period 0 0) (bk_blocknr b) offset
          (if nilfs_block_is_data b then 0 else 1)).

Definition block_bdesc (ino : Z) (b : nilfs_block) : option nilfs_bdesc :=
  offset ← rd_le 8 mem (bk_binfo b);
  level ← (if nilfs_block_is_data b then Some 0 else rd_le 1 mem (bk_binfo b + 8));
  Some (mk_bdesc ino (bk_blocknr b) 0 offset level).

Definition file_contents (ps : nilfs_psegment) (f : nilfs_file) : option contents :=
  ino ← rd_le 8 mem (fl_finfo f + fi_ino_off);
  '(blocks, _) ← nilfs_block_for_each seg ps f;
  if fl_use_real_blocknr f then bs ← mapM (block_bdesc ino) blocks; Some ([], bs)
  else
    cno ← rd_le 8 mem (fl_finfo f + fi_cno_off);
    vs ← mapM (block_vdesc ino cno) blocks; Some (vs, []).

Definition log_contents (ps : nilfs_psegment) : option contents :=
  '(files, _) ← nilfs_file_for_each seg ps;
  join_contents <$> mapM (file_contents ps) files.

Definition segment_contents (nblocks : Z) : option contents :=
  '(logs, _) ← nilfs_psegment_for_each seg nblocks;
  join_contents <$> mapM log_contents logs.
End Contents.

(** How many descriptors there are. *)
Definition size_of (c : contents) : Z := Z.of_nat (length c.1) + Z.of_nat (length c.2).

Lemma join_contents_size l : size_of (join_contents l) = sum_Z (size_of <$> l).
Proof.
  induction l as [|c l IH]; [done|]. rewrite fmap_cons, sum_Z_cons, <- IH.
  unfold size_of, join_contents. cbn [fst snd fmap list_fmap concat]. rewrite !length_app. lia.
Qed.

Lemma mapM_sizes {A} (f : A -> option contents) (w : A -> Z) l cs :
  Forall (fun x => forall c, f x = Some c -> size_of c <= w x) l -> mapM f l = Some cs ->
  size_of (join_contents cs) <= sum_Z (w <$> l).
Proof.
  intros Hl Hm. apply mapM_Some in Hm. rewrite join_contents_size.
  induction Hm as [|x c l cs Hx Hm IH]; [done|]. apply Forall_cons in Hl as [Hw Hl].
  rewrite !fmap_cons, !sum_Z_cons. specialize (Hw c Hx). specialize (IH Hl). lia.
Qed.

(** A segment describes no more blocks than it has. *)
Lemma file_contents_size seg ps f c : seg_ok seg -> ps_valid seg ps -> file_in_log seg ps f ->
  file_contents seg ps f = Some c -> size_of c <= fl_nblocks seg f.
Proof.
  intros Hseg Hps Hf. destruct (blocks_spec seg ps f Hseg Hps Hf) as (nb & nd & last & Hnb & _ & Hb & _).
  unfold file_contents, fl_nblocks. rewrite Hnb, Hb.
  destruct Hf as (? & ? & _ & _ & ? & nb' & nd' & _ & Hnb' & _ & Hn & _). rewrite Hnb in Hnb'. injection Hnb' as <-.
  set (blocks := _ <$> _). assert (Hlen : length blocks = Z.to_nat nb) by (unfold blocks; by rewrite length_fmap, length_seq).
  clearbody blocks. cbv [mbind option_bind].
  destruct (rd_le 8 _ (fl_finfo f + fi_ino_off)); [|by intros]. case_if.
  - destruct (mapM _ blocks) as [bs|] eqn:Hm; [|by intros]. intros [= <-]. unfold size_of. simpl.
    apply length_mapM in Hm. lia.
  - destruct (rd_le 8 _ (fl_finfo f + fi_cno_off)); [|by intros]. destruct (mapM _ blocks) as [vs|] eqn:Hm; [|by intros].
    intros [= <-]. unfold size_of. simpl. apply length_mapM in Hm. lia.
Qed.

Lemma log_contents_size seg ps c : seg_ok seg -> ps_valid seg ps ->
  log_contents seg ps = Some c -> size_of c <= ps_nblocks seg ps.
Proof.
  intros Hseg Hps. destruct (files_spec seg ps Hseg Hps) as (files & last & Hf & Hv & Hle).
  unfold log_contents. rewrite Hf. cbv [mbind option_bind].
  intros (cs & Hm & ->)%fmap_Some. etransitivity; [|exact Hle]. eapply mapM_sizes; [|exact Hm].
  eapply Forall_impl; [exact Hv|]. intros f Hf' c'. by apply file_contents_size.
Qed.

Lemma segment_contents_size seg n c : seg_ok seg -> 0 <= n ->
  segment_contents seg n = Some c -> size_of c <= seg_nblocks seg.
Proof.
  intros Hseg Hn. destruct (psegments_spec seg Hseg n Hn) as (logs & last & Hl & Hv & Hle).
  unfold segment_contents. rewrite Hl. cbv [mbind option_bind].
  intros (cs & Hm & ->)%fmap_Some. etransitivity; [|exact Hle]. eapply mapM_sizes; [|exact Hm].
  eapply Forall_impl; [exact Hv|]. intros ps Hps c'. by apply log_contents_size.
Qed.

Lemma finfo_readable seg ps f : seg_ok seg -> ps_valid seg ps -> file_in_log seg ps f ->
  exists ino cno, rd_le 8 (seg_addr seg) (fl_finfo f + fi_ino_off) = Some ino /\
    rd_le 8 (seg_addr seg) (fl_finfo f + fi_cno_off) = Some cno.
Proof.
  intros Hseg (k & nblocks & sby & hd & Hat & Hnb & Hsby & _ & Hk & _ & _ & Hh & _ & Hh0 & Hsum)
    (nblocks' & sby' & Hnb' & Hsby' & used & nb & nd & (Hf & Ho & _) & _ & _ & _ & _ & _ & Hlen).
  rewrite Hnb in Hnb'; rewrite Hsby in Hsby'; simplify_eq.
  pose proof (log_range seg Hseg ps k _ _ hd Hat Hk (conj Hh0 Hh) Hsum) as (_ & ? & _ & ? & _).
  destruct (rd_seg seg Hseg 8 (fl_finfo f + fi_ino_off)) as (ino & Hino & _); [unfold fi_ino_off; lia..|].
  destruct (rd_seg seg Hseg 8 (fl_finfo f + fi_cno_off)) as (cno & Hcno & _); [unfold fi_cno_off; lia..|].
  eauto.
Qed.

(** Every descriptor of a valid file lies inside of the segment. *)
Lemma block_descs seg ps f ino cno : seg_ok seg -> ps_valid seg ps -> file_in_log seg ps f ->
  exists blocks last, nilfs_block_for_each seg ps f = Some (blocks, last) /\
    (fl_use_real_blocknr f = false -> is_Some (mapM (block_vdesc seg ino cno) blocks)) /\
    (fl_use_real_blocknr f = true -> is_Some (mapM (block_bdesc seg ino) blocks)).
Proof.
  intros Hseg Hps Hf. destruct (blocks_spec seg ps f Hseg Hps Hf) as (nb & nd & last & _ & _ & Hb & Hi).
  do 2 eexists. split; [exact Hb|].
  assert (Hpos : 0 <= ps_segsum ps /\ 0 <= fl_offset f).
  { destruct Hps as (k & ? & ? & ? & (Hk & -> & _) & _). destruct Hf as (? & ? & _ & _ & ? & ? & ? & (_ & ? & _) & _).
    pose proof (Z.pow_nonneg 2 (seg_blkbits seg)). nia. }
  pose proof (so_len _ Hseg). unfold sizeof_finfo in Hi.
  assert (Hsz : forall b, nilfs_block_is_data b = true \/ nilfs_block_is_data b = false) by (intros b; destruct (nilfs_block_is_data b); auto).
  split; intros Hreal; apply mapM_is_Some; apply Forall_fmap, Forall_forall; intros i Hin%elem_of_seq;
    specialize (Hi i ltac:(lia)); unfold binfosize in Hi; cbv zeta in Hi; simpl.
  - set (b := block_at _ _ _ _ _ _) in *. assert (bk_dsize b = 16 /\ bk_nsize b = 8) as [Hd Hn].
    { unfold b, block_at, binfo_sizes. by rewrite Hreal. }
    rewrite Hd, Hn in Hi. destruct Hi as (_ & ? & ? & ? & ? & _). unfold block_vdesc.
    destruct (rd_le_is_Some 8 (seg_addr seg) (bk_binfo b)) as [x ->]; [lia|lia|destruct (nilfs_block_is_data b); lia|].
    simpl. destruct (nilfs_block_is_data b); [|by eexists].
    destruct (rd_le_is_Some 8 (seg_addr seg) (bk_binfo b + 8)) as [y ->]; [lia..|by eexists].
  - set (b := block_at _ _ _ _ _ _) in *. assert (bk_dsize b = 8 /\ bk_nsize b = 16) as [Hd Hn].
    { unfold b, block_at, binfo_sizes. by rewrite Hreal. }
    rewrite Hd, Hn in Hi. destruct Hi as (_ & ? & ? & ? & ? & _). unfold block_bdesc.
    destruct (rd_le_is_Some 8 (seg_addr seg) (bk_binfo b)) as [x ->]; [lia|lia|destruct (nilfs_block_is_data b); lia|].
    simpl. destruct (nilfs_block_is_data b); [by eexists|].
    destruct (rd_le_is_Some 1 (seg_addr seg) (bk_binfo b + 8)) as [y ->]; [lia..|by eexists].
Qed.

(** Lists of descriptors of one kind. *)
Lemma join_left {A} (h : A -> option nilfs_vdesc) l cs :
  mapM (fun x => (fun d => ([d], [])) <$> h x) l = Some cs -> exists ds, mapM h l = Some ds /\ join_contents cs = (ds, []).
Proof.
  revert cs; induction l as [|x l IH]; intros cs; cbn [mapM]; [intros [= <-]; by exists []|].
  destruct (h x) as [d|]; [|by intros]. simpl. destruct (mapM _ l) as [cs'|]; [|by intros]. intros [= <-].
  destruct (IH cs' eq_refl) as (ds & -> & Hj). exists (d :: ds). split; [done|].
  unfold join_contents in *. injection Hj as H1 H2. cbn [fst snd fmap list_fmap concat app] in *.
  by rewrite H1, H2.
Qed.

Lemma join_right {A} (h : A -> option nilfs_bdesc) l cs :
  mapM (fun x => (fun d => ([], [d])) <$> h x) l = Some cs -> exists ds, mapM h l = Some ds /\ join_contents cs = ([], ds).
Proof.
  revert cs; induction l as [|x l IH]; intros cs; cbn [mapM]; [intros [= <-]; by exists []|].
  destruct (h x) as [d|]; [|by intros]. simpl. destruct (mapM _ l) as [cs'|]; [|by intros]. intros [= <-].
  destruct (IH cs' eq_refl) as (ds & -> & Hj). exists (d :: ds). split; [done|].
  unfold join_contents in *. injection Hj as H1 H2. cbn [fst snd fmap list_fmap concat app] in *.
  by rewrite H1, H2.
Qed.

(** ** The loops *)

Section Loops.
Context {W : Type} {K : Kernel W} {J : Junk}.
Implicit Types g : gcs W.

(** A loop over an iterator whose states are known. *)
Lemma for_each_trace {I} fuel ie nx (body : I -> M (gcs W) unit) it l final g :
  trace fuel ie nx it = Some (l, final) ->
  for_each fuel ie nx body it g = (mfor body l ;; ret final) g.
Proof using.
  revert it l g; induction fuel as [|fuel IH]; intros it l g; [done|]. cbn [trace for_each].
  destruct (ie it) as [[stop it']|]; [|by intros]. cbv [mbind option_bind]. rewrite bind_some.
  destruct stop; [by intros [= <- <-]|].
  destruct (nx it') as [it''|]; [|by intros].
  destruct (trace fuel ie nx it'') as [[l' final']|] eqn:Ht; [|by intros].
  intros [= <- ->]. cbn [mfor]. rewrite bind_assoc. unfold bind at 1 3.
  destruct (body it' g) as [[[]|e| | |] g']; try done. rewrite bind_some. by apply IH.
Qed.

Lemma wp_for_each {I} fuel ie nx (body : I -> M (gcs W) unit) it l final Q E g :
  trace fuel ie nx it = Some (l, final) -> wp (mfor body l) (fun _ => Q final) E g ->
  wp (for_each fuel ie nx body it) Q E g.
Proof using.
  intros Ht Hm. unfold wp. rewrite (for_each_trace _ _ _ _ _ _ _ _ Ht). by apply wp_bind.
Qed.

Context {fs_of : W -> fs} {requests : W -> list clean_request} {locked : W -> bool}.
Context {L : FsLaws K fs_of requests locked}.
Context (F : fs) (rq : list clean_request) (lk : bool).
Existing Instance fl_quiet.

Definition ok : sys W -> Prop := sys_ok (fs_of := fs_of) (requests := requests) (locked := locked) F rq lk.

(** After a failure the world and the nilfs object are still usable. *)
Definition still_ok : Z -> gcs W -> Prop := fun _ g => ok (g_sys g).

Lemma ok_alloc s s' : ok s -> alloc_step s s' -> ok s'.
Proof using L.
  intros Hs [->|(n & b & Hm)]; [done|]. revert Hm. unfold malloc, sys_alloc.
  pose proof (q_malloc (obs := fun w => (fs_of w, requests w, locked w)) n (s_world s)) as Hq.
  destruct (malloc n (s_world s)) as [b' w]. intros [= <- <-]. destruct Hs as [Hs Hn].
  split; [simpl in *; congruence|done].
Qed.

Lemma ok_alloc_only g g' : ok (g_sys g) -> alloc_only g g' -> ok (g_sys g').
Proof using L. intros Hg Ha. red in Ha. induction Ha; eauto using ok_alloc. Qed.

(** A call that leaves the file system alone. *)
Lemma wp_call {A} (m : M (sys W) A) R Q E g :
  stable (fs_of := fs_of) (requests := requests) (locked := locked) F rq lk m R -> ok (g_sys g) ->
  (forall a s, R a -> ok s -> Q a (with_sys g s)) -> (forall e s, ok s -> E e (with_sys g s)) ->
  wp (call m) Q E g.
Proof using.
  intros Hm Hg HQ HE. specialize (Hm (g_sys g) Hg). unfold wp, call in *.
  destruct (m (g_sys g)) as [[a|e| | |] s]; try done; [|by apply HE]. destruct Hm. by apply HQ.
Qed.

(** The state while blocks are collected: the vectors hold descriptors with
    the given fields, everything else is as in [g0]. *)
Definition collected (g0 : gcs W) (c : contents) (g : gcs W) : Prop :=
  exists s v b, g = mk_gcs s (g_segnums g0) (g_stat g0) v b (g_periodv g0) (g_vblocknrv g0) (g_supv g0) /\
    ok s /\ vec_wf v /\ fields <$> elems v = c.1 /\ vec_wf b /\ bfields <$> elems b = c.2.

Lemma collected_ok g0 c g : collected g0 c g -> ok (g_sys g).
Proof using. by intros (s & v & b & -> & ? & _). Qed.

Definition add_contents (c d : contents) : contents := (c.1 ++ d.1, c.2 ++ d.2).

Lemma add_contents_assoc c d e : add_contents (add_contents c d) e = add_contents c (add_contents d e).
Proof using. unfold add_contents. simpl. by rewrite !app_assoc. Qed.

(** A loop each run of which adds what [f] computes. *)
Lemma wp_gather {I} (f : I -> option contents) (body : I -> M (gcs W) unit) g0 l :
  Forall (fun x => forall c g, collected g0 c g ->
    wp (body x) (fun _ g' => exists d, f x = Some d /\ collected g0 (add_contents c d) g') still_ok g) l ->
  forall c g, collected g0 c g ->
  wp (mfor body l) (fun _ g' => exists cs, mapM f l = Some cs /\
    collected g0 (add_contents c (join_contents cs)) g') still_ok g.
Proof using.
  induction 1 as [|x l Hx Hl IH]; intros c g Hc; cbn [mfor].
  - apply wp_ret. exists []. split; [done|]. unfold add_contents, join_contents. simpl.
    rewrite !app_nil_r. by destruct c.
  - eapply wp_seq; [by apply Hx| |done]. intros [] g1 (d & Hd & Hc1).
    eapply wp_mono; [by apply IH| |done]. intros [] g2 (cs & Hcs & Hc2). exists (d :: cs).
    split; [cbn [mapM]; by rewrite Hd; simpl; rewrite Hcs|]. by rewrite add_contents_assoc in Hc2.
Qed.

(** A new element of one of the vectors. *)
Lemma wp_push {A} (P : A -> Prop) (junk : A) get set (f : A -> option A) (Q : unit -> gcs W -> Prop) E g :
  vec_wf (get g) -> ok (g_sys g) -> (forall g s, get (with_sys g s) = get g) ->
  (forall x, exists y, f x = Some y /\ P y) ->
  (forall s v y, ok s -> vec_wf v -> P y -> elems v = elems (get g) ++ [y] -> Q tt (set (with_sys g s) v)) ->
  (forall e s, ok s -> E e (with_sys g s)) -> wp (push junk get set f) Q E g.
Proof using L.
  intros Hv Hg Hget Hf HQ HE. pose proof (push_value P junk get set f g Hv Hf Hget) as Hp.
  unfold wp. destruct (push junk get set f g) as [[[]|e| | |] g']; [| |done..].
  - destruct Hp as (s & v & y & -> & Hs & Hv' & Hy & He). eapply HQ; eauto using ok_alloc.
  - destruct Hp as (_ & s & -> & Hs). eauto using ok_alloc.
Qed.

(** One descriptor. *)
Lemma acc_vdesc_wp seg ino cno b d g0 c g :
  block_vdesc seg ino cno b = Some d -> collected g0 c g ->
  wp (acc_vdesc seg ino cno b) (fun _ => collected g0 (add_contents c ([d], []))) still_ok g.
Proof using L.
  unfold block_vdesc, acc_vdesc, push_vdesc. cbv [mbind option_bind].
  destruct (rd_le 8 (seg_addr seg) (bk_binfo b)) as [vbn|]; [|by intros].
  intros Hd (s & v & bv & -> & Hs & Hv & Hve & Hb & Hbe).
  apply (wp_push (fun y => fields y = d)); [done|done|done| | |by intros].
  - intros x. destruct (nilfs_block_is_data b); [destruct (rd_le 8 _ _); [|done]|];
      injection Hd as <-; eauto.
  - intros s' v' y Hs' Hv' Hy He. simpl in He. exists s', v', bv. split_and!; try done; simpl.
    + by rewrite He, fmap_app, Hve, <- Hy.
    + by rewrite app_nil_r.
Qed.

Lemma acc_bdesc_wp seg ino b d g0 c g :
  block_bdesc seg ino b = Some d -> collected g0 c g ->
  wp (acc_bdesc seg ino b) (fun _ => collected g0 (add_contents c ([], [d]))) still_ok g.
Proof using L.
  unfold block_bdesc, acc_bdesc, push_bdesc. cbv [mbind option_bind].
  destruct (rd_le 8 (seg_addr seg) (bk_binfo b)) as [off|]; [|by intros].
  intros Hd (s & v & bv & -> & Hs & Hv & Hve & Hb & Hbe).
  apply (wp_push (fun y => bfields y = d)); [done|done|done| | |by intros].
  - intros x. destruct (nilfs_block_is_data b); [|destruct (rd_le 1 _ _); [|done]];
      injection Hd as <-; eauto.
  - intros s' v' y Hs' Hv' Hy He. simpl in He. exists s', v, v'. split_and!; try done; simpl.
    + by rewrite app_nil_r.
    + by rewrite He, fmap_app, Hbe, <- Hy.
Qed.

Lemma wp_for_each_block seg ps f body blocks final Q E g :
  nilfs_block_for_each seg ps f = Some (blocks, final) -> wp (mfor body blocks) (fun _ => Q tt) E g ->
  wp (for_each_block seg ps f body) Q E g.
Proof using.
  unfold nilfs_block_for_each, for_each_block. destruct (nilfs_block_init seg ps f) as [b|]; [|by intros].
  cbv [mbind option_bind]. intros Ht Hm. wp_step. wp_step. apply (wp_seq _ _ (fun _ => Q tt) E);
    [eapply wp_for_each; [exact Ht|exact Hm]| |done]. intros b' g' HQ. by apply wp_ret.
Qed.

(** The blocks of one file. *)
Lemma acc_file_wp seg ps f g0 c g : seg_ok seg -> ps_valid seg ps -> file_in_log seg ps f -> collected g0 c g ->
  wp (nilfs_acc_blocks_file seg ps f) (fun _ g' => exists d, file_contents seg ps f = Some d /\
    collected g0 (add_contents c d) g') still_ok g.
Proof using L.
  intros Hseg Hps Hf Hc. unfold nilfs_acc_blocks_file, file_contents.
  destruct (finfo_readable seg ps f Hseg Hps Hf) as (ino & cno & -> & ->).
  destruct (block_descs seg ps f ino cno Hseg Hps Hf) as (blocks & final & Hb & Hv & Hd). rewrite Hb.
  wp_step. wp_step. cbn [mbind option_bind]. destruct (fl_use_real_blocknr f).
  - specialize (Hd eq_refl). eapply wp_for_each_block; [done|]. eapply wp_mono;
      [eapply (wp_gather (fun b => (fun d => ([], [d])) <$> block_bdesc seg ino b)); [|exact Hc]| |done].
    + apply mapM_is_Some in Hd. eapply Forall_impl; [exact Hd|]. intros b [d Hb'] c' g' Hc'. simpl in Hb'.
      rewrite Hb'. eapply wp_mono; [by eapply acc_bdesc_wp| |done]. eauto.
    + intros [] g' (cs & (ds & -> & Hj)%join_right & Hc'). rewrite Hj in Hc'. eauto.
  - specialize (Hv eq_refl). wp_step. wp_step. eapply wp_for_each_block; [done|]. eapply wp_mono;
      [eapply (wp_gather (fun b => (fun d => ([d], [])) <$> block_vdesc seg ino cno b)); [|exact Hc]| |done].
    + apply mapM_is_Some in Hv. eapply Forall_impl; [exact Hv|]. intros b [d Hb'] c' g' Hc'. simpl in Hb'.
      rewrite Hb'. eapply wp_mono; [by eapply acc_vdesc_wp| |done]. eauto.
    + intros [] g' (cs & (ds & -> & Hj)%join_left & Hc'). rewrite Hj in Hc'. eauto.
Qed.

(** The files of one log. *)
Lemma acc_psegment_wp seg ps g0 c g : seg_ok seg -> ps_valid seg ps -> collected g0 c g ->
  wp (nilfs_acc_blocks_psegment seg ps) (fun _ g' => exists d, log_contents seg ps = Some d /\
    collected g0 (add_contents c d) g') still_ok g.
Proof using L.
  intros Hseg Hps Hc. destruct (files_spec seg ps Hseg Hps) as (files & final & Hf & Hv & _).
  unfold nilfs_acc_blocks_psegment, log_contents. rewrite Hf. unfold nilfs_file_for_each in Hf.
  destruct (nilfs_file_init seg ps) as [f|]; [|done]. cbn [mbind option_bind] in Hf |- *.
  wp_step. wp_step. wp_step. eapply wp_for_each; [exact Hf|].
  eapply wp_mono; [eapply (wp_gather (file_contents seg ps)); [|exact Hc]| |done].
  - eapply Forall_impl; [exact Hv|]. intros f' Hf' c' g' Hc'. by apply acc_file_wp.
  - intros [] g' (cs & -> & Hc'). case_if; wp_step; [by eapply collected_ok|]. simpl. eauto.
Qed.

(** The logs of one segment. *)
Lemma acc_segment_wp seg n g0 c g : seg_ok seg -> 0 <= n -> collected g0 c g ->
  wp (nilfs_acc_blocks_segment seg n) (fun _ g' => exists d, segment_contents seg n = Some d /\
    collected g0 (add_contents c d) g') still_ok g.
Proof using L.
  intros Hseg Hn Hc. destruct (psegments_spec seg Hseg n Hn) as (logs & final & Hl & Hv & _).
  unfold nilfs_acc_blocks_segment, segment_contents. rewrite Hl. cbn [mbind option_bind].
  wp_step. eapply wp_for_each; [exact Hl|].
  eapply wp_mono; [eapply (wp_gather (log_contents seg)); [|exact Hc]| |done].
  - eapply Forall_impl; [exact Hv|]. intros ps Hps c' g' Hc'. by apply acc_psegment_wp.
  - intros [] g' (cs & -> & Hc'). case_if; wp_step; [by eapply collected_ok|]. simpl. eauto.
Qed.

(** ** The selected segments *)

Context (protseq : Z).

(** What a selected segment contributes: nothing if it has no blocks. *)
Inductive collects : Z -> contents -> Prop :=
| collects_empty n :
    nilfs_suinfo_reclaimable (fs_sui F n) = true -> nilfs_suinfo_empty (fs_sui F n) = true ->
    collects n ([], [])
| collects_read n seg c :
    nilfs_suinfo_reclaimable (fs_sui F n) = true -> nilfs_suinfo_empty (fs_sui F n) = false ->
    read_from F n seg -> cnt64_ge (seg_seqnum seg) protseq = false ->
    segment_contents seg (sui_nblocks (fs_sui F n)) = Some c -> collects n c.

(** Why a segment is deselected. *)
Definition not_collected (n : Z) : Prop :=
  nilfs_suinfo_reclaimable (fs_sui F n) = false \/
  exists seg, read_from F n seg /\ cnt64_ge (seg_seqnum seg) protseq = true.

Lemma collects_size n c : is_u32 (sui_nblocks (fs_sui F n)) -> collects n c -> size_of c <= 2 ^ 19.
Proof using.
  intros Hu Hn. destruct Hn as [n _ _|n seg c _ _ [Hseg _] _ Hc]; [done|].
  apply segment_contents_size in Hc; [|done|unfold_words; lia].
  pose proof (seg_range seg Hseg) as (HB & _ & Hlim). change (2 ^ 29) with 536870912 in *.
  change (2 ^ 19) with 524288. lia.
Qed.

(** The segments kept [cs] of [dn], those deselected [out], and the part of
    the array that was not selected [tail]. *)
Definition partitioned (g0 : gcs W) (tail dn out : list Z) (cs : list contents) (g : gcs W) : Prop :=
  Forall2 collects dn cs /\ Forall not_collected out /\
  collected (with_segnums g0 (dn ++ out ++ tail)) (join_contents cs) g.

Lemma deselect_wp g0 tail dn x td out cs g :
  collected (with_segnums g0 ((dn ++ x :: td) ++ out ++ tail)) cs g ->
  wp (deselect (Z.of_nat (length (dn ++ x :: td))) (Z.of_nat (length dn)))
    (fun n g' => n = Z.of_nat (length (dn ++ td)) /\
       collected (with_segnums g0 ((dn ++ td) ++ (x :: out) ++ tail)) cs g') still_ok g.
Proof using.
  intros (s & v & b & -> & Hs & Hv & Hve & Hb & Hbe). unfold deselect. wp_step. wp_step.
  simpl. rewrite deselect_run by done. wp_step. wp_step. wp_step. split.
  - rewrite !length_app. simpl. lia.
  - by exists s, v, b.
Qed.

(** The result of the loop on the selected segments [all]. *)
Definition acc_post (g0 : gcs W) (tail all : list Z) (n : Z) (g : gcs W) : Prop :=
  exists dn out cs, n = Z.of_nat (length dn) /\ dn ++ out ≡ₚ all /\ partitioned g0 tail dn out cs g.

Lemma acc_post_perm g0 tail all all' n g : all ≡ₚ all' -> acc_post g0 tail all n g -> acc_post g0 tail all' n g.
Proof using. intros Hp (dn & out & cs & Hn & Hq & Hr). exists dn, out, cs. by rewrite <- Hp. Qed.

(** A call of the library while blocks are collected. *)
Lemma collected_call {A} (m : M (sys W) A) R g0 c (Q : A -> gcs W -> Prop) (E : Z -> gcs W -> Prop) g :
  stable (fs_of := fs_of) (requests := requests) (locked := locked) F rq lk m R -> collected g0 c g ->
  (forall a g', R a -> collected g0 c g' -> Q a g') -> (forall e g', collected g0 c g' -> E e g') ->
  wp (call m) Q E g.
Proof using.
  intros Hm Hg HQ HE. destruct Hg as (s & v & b & -> & Hs & Hrest).
  eapply wp_call; [exact Hm|done|intros a s' Ha Hs'; apply HQ; [done|]|intros e s' Hs'; apply HE];
    by exists s', v, b.
Qed.

(** The loop continues with one segment less. *)
Lemma deselect_then g0 tail dn x td out cs (k : Z -> M (gcs W) Z) g :
  collected (with_segnums g0 ((dn ++ x :: td) ++ out ++ tail)) cs g ->
  (forall g', collected (with_segnums g0 ((dn ++ td) ++ (x :: out) ++ tail)) cs g' ->
     wp (k (Z.of_nat (length (dn ++ td)))) (acc_post g0 tail (dn ++ td ++ x :: out)) still_ok g') ->
  wp (bind (deselect (Z.of_nat (length (dn ++ x :: td))) (Z.of_nat (length dn))) k)
    (acc_post g0 tail (dn ++ (x :: td) ++ out)) still_ok g.
Proof using.
  intros Hg Hk. eapply wp_seq; [by apply deselect_wp| |done]. intros n g' [-> Hg'].
  eapply wp_mono; [by apply Hk| |done]. intros n g''. apply acc_post_perm.
  by rewrite <- Permutation_middle.
Qed.

Lemma join_snoc cs c : join_contents (cs ++ [c]) = add_contents (join_contents cs) c.
Proof using.
  unfold join_contents, add_contents. rewrite !fmap_app, !concat_app. simpl. by rewrite !app_nil_r.
Qed.

Definition loop_ok (fuel : nat) : Prop := forall si g0 tail dn td out cs g,
  Forall (fun n => 0 <= n) td -> (length td < fuel)%nat ->
  Forall2 collects dn cs -> Forall not_collected out ->
  collected (with_segnums g0 ((dn ++ td) ++ out ++ tail)) (join_contents cs) g ->
  wp (acc_blocks_loop fuel protseq si (Z.of_nat (length dn)) (Z.of_nat (length (dn ++ td))))
    (acc_post g0 tail (dn ++ td ++ out)) still_ok g.

Lemma put_segment_wp c d seg g : seg_ok seg -> collected c d g ->
  wp (call (nilfs_put_segment seg)) (fun _ => collected c d) still_ok g.
Proof using L.
  intros Hseg Hg. eapply collected_call; [apply put_segment_stable|exact Hg|by intros|].
  - destruct Hseg. nia.
  - intros e g' Hg'. by eapply collected_ok.
Qed.

Section Iteration.
Context (Hwf : fs_wf F) (fuel : nat) (IH : loop_ok fuel).
Context (g0 : gcs W) (tail dn : list Z) (x : Z) (td out : list Z) (cs : list contents).
Hypothesis Hx : 0 <= x.
Hypothesis Htd : Forall (fun n => 0 <= n) td.
Hypothesis Hf : (length td < fuel)%nat.
Hypothesis Hdn : Forall2 collects dn cs.
Hypothesis Hout : Forall not_collected out.
Abbreviation here := (collected (with_segnums g0 ((dn ++ x :: td) ++ out ++ tail)) (join_contents cs)).
Abbreviation post := (acc_post g0 tail (dn ++ (x :: td) ++ out)).
Abbreviation i := (Z.of_nat (length dn)).
Abbreviation n := (Z.of_nat (length (dn ++ x :: td))).

(** The segment [x] was collected. *)
Lemma loop_next si c g : collects x c ->
  collected (with_segnums g0 ((dn ++ x :: td) ++ out ++ tail)) (add_contents (join_contents cs) c) g ->
  wp (acc_blocks_loop fuel protseq si (i + 1) n) post still_ok g.
Proof using IH Htd Hf Hdn Hout.
  intros Hc Hg. replace (i + 1) with (Z.of_nat (length (dn ++ [x]))) by (rewrite length_app; simpl; lia).
  assert (dn ++ x :: td = (dn ++ [x]) ++ td) as Heq by by rewrite <- app_assoc.
  assert (dn ++ (x :: td) ++ out = (dn ++ [x]) ++ td ++ out) as -> by by rewrite <- app_assoc.
  rewrite Heq in Hg |- *.
  apply (IH _ _ _ _ _ _ (cs ++ [c])); try done; [by apply Forall2_app; [|repeat constructor]|by rewrite join_snoc].
Qed.

(** The segment [x] is deselected. *)
Lemma loop_drop si (after : M (gcs W) unit) g : not_collected x -> here g ->
  (forall c g', collected c (join_contents cs) g' ->
     wp after (fun _ => collected c (join_contents cs)) still_ok g') ->
  wp (let* n' := deselect n i in after ;; acc_blocks_loop fuel protseq si i n') post still_ok g.
Proof using IH Htd Hf Hdn Hout.
  intros Hn Hg Ha. eapply deselect_then; [exact Hg|]. intros g' Hg'.
  eapply wp_seq; [by apply Ha| |done]. intros [] g'' Hg''. apply (IH _ _ _ _ _ _ cs); try done.
  by constructor.
Qed.

(** The segment [x] was read. *)
Lemma loop_read si segment g : nilfs_suinfo_reclaimable (fs_sui F x) = true ->
  nilfs_suinfo_empty (fs_sui F x) = false -> read_from F x segment -> here g ->
  wp (if cnt64_ge (seg_seqnum segment) protseq then
        let* n' := deselect n i in
        call (nilfs_put_segment segment) ;; acc_blocks_loop fuel protseq si i n'
      else
        let* r := attempt (nilfs_acc_blocks_segment segment (sui_nblocks (fs_sui F x))) in
        call (nilfs_put_segment segment) ;;
        match r with
        | inl _ => acc_blocks_loop fuel protseq si (i + 1) n
        | inr e => fail e
        end) post still_ok g.
Proof using L Hwf IH Htd Hf Hdn Hout.
  intros Hr He Hread Hg. pose proof Hread as [Hseg _]. destruct (cnt64_ge _ _) eqn:Hprot.
  - apply loop_drop; [right; eauto|done|]. intros. by apply put_segment_wp.
  - wp_step. wp_step. eapply wp_mono; [apply acc_segment_wp; [done|apply Hwf|exact Hg]| |].
    + intros [] g' (c & Hc & Hg'). eapply wp_seq; [by apply put_segment_wp| |done].
      intros [] g'' Hg''. eapply loop_next; [by eapply collects_read|done].
    + intros e g' Hg'. wp_step. eapply wp_call; [apply put_segment_stable|exact Hg'|by intros|by intros].
      destruct Hseg. nia.
Qed.

Lemma loop_step si g : here g ->
  wp (acc_blocks_loop (Datatypes.S fuel) protseq si i n) post still_ok g.
Proof using L Hwf IH Hx Htd Hf Hdn Hout.
  intros Hg. cbn [acc_blocks_loop].
  destruct (Z.ltb_spec i n) as [_|Hge]; [|rewrite length_app in Hge; simpl in Hge; lia].
  assert (Hlook : g_segnums g !! Z.to_nat i = Some x).
  { destruct Hg as (s & v & b & -> & _). simpl. rewrite Nat2Z.id, <- app_assoc. by apply list_lookup_middle. }
  wp_step. wp_step. wp_step. rewrite Hlook. wp_step. wp_step.
  eapply collected_call; [apply get_suinfo_stable|exact Hg| |intros e g' Hg'; by eapply collected_ok].
  intros sis g' Hsi Hg'. rewrite Hsi. simpl default.
  destruct (nilfs_suinfo_reclaimable (fs_sui F x)) eqn:Hr; simpl negb; cbv iota.
  2:{ apply (loop_drop _ (ret tt)); [by left|done|]. intros. by wp_step. }
  destruct (nilfs_suinfo_empty (fs_sui F x)) eqn:He.
  - apply (loop_next _ ([], [])); [by constructor|]. unfold add_contents. simpl.
    by rewrite !app_nil_r.
  - wp_step. eapply collected_call; [by apply get_segment_stable|exact Hg'| |intros e g'' Hg''; by eapply collected_ok].
    intros segment g'' Hread Hg''. by apply loop_read.
Qed.
End Iteration.

Lemma acc_blocks_loop_wp : fs_wf F -> forall fuel, loop_ok fuel.
Proof using L.
  intros Hwf fuel; induction fuel as [|fuel IH]; intros si g0 tail dn td out cs g Htd Hf Hdn Hout Hg; [lia|].
  destruct td as [|x td].
  - cbn [acc_blocks_loop]. rewrite app_nil_r in *.
    destruct (Z.ltb_spec (Z.of_nat (length dn)) (Z.of_nat (length dn))); [lia|].
    wp_step. exists dn, out, cs. split_and!; [done|done|]. by split_and!.
  - apply Forall_cons in Htd as [Hx Htd]. simpl in Hf. by eapply loop_step; [..|exact Hg]; try done; lia.
Qed.

(** [nilfs_acc_blocks] splits the selected segments [sel] into those it keeps,
    in front, whose blocks it collects, and those it deselects. *)
Lemma acc_blocks_wp sel tail g : fs_wf F -> Forall (fun n => 0 <= n) sel ->
  g_segnums g = sel ++ tail -> collected g ([], []) g ->
  wp (nilfs_acc_blocks (Z.of_nat (length sel)) protseq) (acc_post g tail sel) still_ok g.
Proof using L.
  intros Hwf Hsel Hsegs Hg. unfold nilfs_acc_blocks. rewrite Nat2Z.id.
  eapply wp_mono; [apply (acc_blocks_loop_wp Hwf (Datatypes.S (length sel)) junk_si g tail [] sel [] [] g)| |]; try done; [lia| |].
  - simpl. rewrite <- Hsegs. by destruct g.
  - intros n g'. by rewrite app_nil_r.
Qed.
End Loops.
