(* ===== verification/Reclaim.v ===== *)
(** * The request of a reclaim

    Follows [nilfs_xreclaim_segment] from the segments it is given to the one
    request it makes, on a file system that obeys [FsLaws]: the periods of the
    collected blocks are those of the kernel's table, the snapshots are all of
    them, the dead blocks are freed and all others are moved. *)

From S2P Require Import Prelude Vector Hoare Ondisk Sb Kernel Nilfs Segment Gc GcProtocol FileSystem Collect.

(** A descriptor completed by the period of its block. *)
Definition dated (F : fs) (v : nilfs_vdesc) : nilfs_vdesc :=
  mk_vdesc (vd_ino v) (vd_cno v) (vd_vblocknr v) (fs_dat F (vd_vblocknr v)) (vd_blocknr v)
    (vd_offset v) (vd_flags v).

Lemma sorted_suffix (l1 l2 : list Z) c :
  StronglySorted Z.lt (l1 ++ c :: l2) -> filter (fun x => c <= x) (l1 ++ c :: l2) = c :: l2.
Proof.
  intros Hs. rewrite filter_app. induction l1 as [|x l1 IH]; simpl in Hs.
  - inversion_clear Hs as [|? ? _ Hc]. rewrite filter_nil. simpl. rewrite filter_cons_True by lia. f_equal.
    apply filter_all_pass. eapply Forall_impl; [exact Hc|]. simpl. lia.
  - inversion_clear Hs as [|? ? Hs' Hx]. rewrite filter_cons_False; [by apply IH|].
    apply Forall_app in Hx as [_ Hx]. inversion Hx. lia.
Qed.

Lemma sorted_tail (a : Z) l1 l2 :
  StronglySorted Z.lt (a :: l1 ++ l2) -> StronglySorted Z.lt (default a (last l1) :: l2).
Proof.
  revert a; induction l1 as [|x l1 IH]; intros a Hs; [done|].
  inversion_clear Hs as [|? ? Hs' Hx]. rewrite last_cons. specialize (IH x Hs'). by destruct (last l1).
Qed.

Lemma sorted_app_l (a : Z) l1 l2 : StronglySorted Z.lt (a :: l1 ++ l2) -> StronglySorted Z.lt (a :: l1).
Proof.
  revert a; induction l1 as [|x l1 IH]; intros a Hs; [by repeat constructor|].
  inversion_clear Hs as [|? ? Hs' Hx]. constructor; [by apply IH|].
  rewrite app_comm_cons, Forall_app in Hx. apply Hx.
Qed.

Lemma list_inserts_middle {A} (a b c r : list A) i : i = length a -> length b = length r ->
  list_inserts i r (a ++ b ++ c) = a ++ r ++ c.
Proof.
  intros -> Hb. rewrite <- (Nat.add_0_r (length a)), list_inserts_app_r, list_inserts_0_r; done.
Qed.

Section Reclaim.
Context {W : Type} {K : Kernel W} {J : Junk}.
Context {fs_of : W -> fs} {requests : W -> list clean_request} {locked : W -> bool}.
Context {L : FsLaws K fs_of requests locked}.
Context (F : fs) (Hwf : fs_wf F) (rq : list clean_request) (lk : bool).
Existing Instance fl_quiet.
Implicit Types g : gcs W.
Abbreviation ok := (ok (fs_of := fs_of) (requests := requests) (locked := locked) F rq lk).
Abbreviation still_ok := (still_ok (fs_of := fs_of) (requests := requests) (locked := locked) F rq lk).

(** ** Periods of the virtual blocks *)

(** The vector of virtual blocks holds [l]; all but the world is as in [g0]. *)
Definition vd_state (g0 : gcs W) (l : list nilfs_vdesc) (g : gcs W) : Prop :=
  exists s v, g = with_vdescv (with_sys g0 s) v /\ ok s /\ vec_wf v /\ elems v = l.

Lemma store_vinfo_run td r g v pre post :
  g_vdescv g = v -> vec_wf v -> elems v = pre ++ td ++ post ->
  Forall2 (fun d a => vi_vblocknr a = vd_vblocknr d /\
                      mk_period (vi_start a) (vi_end a) = fs_dat F (vd_vblocknr d)) td r ->
  exists v', store_vinfo (Z.of_nat (length pre)) r g = (Ok tt, with_vdescv g v') /\ vec_wf v' /\
    elems v' = pre ++ (dated F <$> td) ++ post.
Proof using.
  intros Hg Hv He Hr. revert g v pre Hg Hv He. induction Hr as [|d a td r [Hn Hp] Hr IH]; intros g v pre Hg Hv He.
  - exists v. split_and!; [|done|done]. subst v. by destruct g.
  - cbn [store_vinfo]. rewrite bind_gets, Hg. simpl in He.
    destruct (element_at v (Z.of_nat (length pre)) d Hv ltac:(lia)) as [Hel Hrd].
    { rewrite Nat2Z.id, He. by apply list_lookup_middle. }
    rewrite Hel, bind_some, Hrd, bind_some, Hn, Z.eqb_refl. cbn [negb]. rewrite bind_modify, Hp.
    set (f := fun w : nilfs_vdesc => _). set (g1 := with_vdescv g _).
    destruct (elems_write_cell v (Z.of_nat (length pre)) f Hv) as [Hw1 Hw2].
    { pose proof (elems_length v Hv) as Hl. rewrite He, length_app in Hl. simpl in Hl. lia. }
    rewrite He, Nat2Z.id, alter_app_r_alt, Nat.sub_diag in Hw2 by lia. simpl in Hw2.
    destruct (IH g1 _ (pre ++ [f d]) eq_refl Hw1) as (v' & Hrun & Hv' & He').
    { simpl. by rewrite Hw2, <- app_assoc. }
    exists v'. split_and!; [|done|].
    + rewrite length_app in Hrun. simpl in Hrun. rewrite Nat2Z.inj_add in Hrun. exact Hrun.
    + rewrite He', <- app_assoc. done.
Qed.

Lemma get_vdesc_loop_wp fuel g0 dn td g :
  vd_state g0 ((dated F <$> dn) ++ td) g -> (length td < fuel)%nat ->
  wp (get_vdesc_loop fuel (Z.of_nat (length dn))) (fun _ => vd_state g0 (dated F <$> (dn ++ td))) still_ok g.
Proof using L.
  revert dn td g; induction fuel as [|fuel IH]; intros dn td g Hg Hf; [lia|].
  pose proof Hg as (s & v & -> & Hs & Hv & Hve). cbn [get_vdesc_loop]. wp_step. wp_step.
  change (g_vdescv (with_vdescv (with_sys g0 s) v)) with v.
  unfold nilfs_vector_get_size. rewrite <- (elems_length v Hv), Hve, length_app, length_fmap.
  destruct (Z.ltb_spec (Z.of_nat (length dn)) (Z.of_nat (length dn + length td))).
  2:{ wp_step. destruct td; [|simpl in *; lia]. by rewrite app_nil_r in *. }
  unfold vinfo_request. rewrite Hve, Nat2Z.id, drop_app_length' by by rewrite length_fmap.
  set (req := _ <$> _). assert (Hreq : length req = Nat.min (Z.to_nat NILFS_GC_NVINFO) (length td))
    by (unfold req; by rewrite length_fmap, length_take).
  change (Z.to_nat NILFS_GC_NVINFO) with 512%nat in *.
  wp_step. eapply wp_call; [apply get_vinfo_stable; lia|exact Hs| |by intros].
  intros r s' (Hne & Hle & Hr) Hs'.
  assert (Hne' : length r <> 0%nat).
  { intros Hz%nil_length_inv. apply Hne in Hz; [done|]. intros Hz'. rewrite Hz' in Hreq. cbn [length] in Hreq. lia. }
  assert (Htake : take (length r) req = (fun v => mk_vinfo (vd_vblocknr v) 0 0 0) <$> take (length r) td).
  { unfold req. rewrite <- fmap_take, take_take. do 2 f_equal. lia. }
  rewrite Htake in Hr. apply Forall2_fmap_l in Hr. simpl in Hr.
  destruct (store_vinfo_run (take (length r) td) r (with_sys (with_vdescv (with_sys g0 s) v) s') v (dated F <$> dn) (drop (length r) td)
    eq_refl Hv) as (v' & Hrun & Hv' & He'); [by rewrite take_drop|exact Hr|].
  rewrite length_fmap in Hrun. wp_step. eapply wp_run; [exact Hrun|].
  replace (Z.of_nat (length dn) + Z.of_nat (length r)) with (Z.of_nat (length (dn ++ take (length r) td)))
    by (rewrite length_app, length_take; lia).
  eapply wp_mono; [apply (IH _ (drop (length r) td))| |done].
  - exists s', v'. split_and!; [done|done|done|]. by rewrite He', fmap_app, <- app_assoc.
  - rewrite length_drop. lia.
  - intros [] g'. by rewrite <- app_assoc, take_drop.
Qed.

(** All collected descriptors get the period the kernel knows, and are put
    into the order of their block numbers. *)
Lemma get_vdesc_wp g : ok (g_sys g) -> vec_wf (g_vdescv g) ->
  wp nilfs_get_vdesc
    (fun _ => vd_state g (dated F <$> qsort nilfs_comp_vdesc_vblocknr (elems (g_vdescv g)))) still_ok g.
Proof using L.
  intros Hg Hv. unfold nilfs_get_vdesc. wp_step. wp_step. wp_step. wp_step.
  destruct (sort_spec nilfs_comp_vdesc_vblocknr (g_vdescv g) Hv) as [Hsv Hse].
  apply (get_vdesc_loop_wp _ g [] (qsort nilfs_comp_vdesc_vblocknr (elems (g_vdescv g)))).
  - exists (g_sys g), (nilfs_vector_sort nilfs_comp_vdesc_vblocknr (g_vdescv g)).
    split_and!; [by destruct g|done|done|done].
  - pose proof (elems_length _ Hsv) as Hl. rewrite Hse in Hl. unfold nilfs_vector_get_size.
    cbn [g_vdescv with_vdescv]. lia.
Qed.

(** ** Snapshots *)

Lemma store_snapshots_run nsss ss prev ci g :
  StronglySorted Z.lt (prev :: (ci_cno <$> ci)) -> Z.of_nat (length ss + length ci) <= nsss ->
  store_snapshots nsss ss prev ci g = (Ok (ss ++ (ci_cno <$> ci), default prev (ci_cno <$> last ci)), g).
Proof using.
  revert ss prev; induction ci as [|c ci IH]; intros ss prev Hs Hn; cbn [store_snapshots].
  { simpl. by rewrite app_nil_r. }
  simpl in Hn. destruct (Z.leb_spec nsss (Z.of_nat (length ss))); [lia|].
  inversion_clear Hs as [|? ? Hs' Hp]. inversion_clear Hp as [|? ? Hc Hp'].
  destruct (Z.leb_spec (ci_cno c) prev); [lia|].
  rewrite IH; [|done|rewrite length_app; simpl; lia]. rewrite <- app_assoc. simpl.
  do 3 f_equal. rewrite last_cons. by destruct (last ci).
Qed.

(** The rest of the enumeration, from [cno] on. *)
Lemma get_snapshot_loop_wp fuel ss rest cno g : ok (g_sys g) -> fs_snaps F = ss ++ rest ->
  (cno = 0 /\ ss = [] \/ head rest = Some cno) -> (length rest < fuel)%nat ->
  wp (get_snapshot_loop fuel (Z.of_nat (length (fs_snaps F))) ss (default 0 (last ss)) cno)
    (fun ss' g' => ss' = fs_snaps F /\ exists s, g' = with_sys g s /\ ok s) still_ok g.
Proof using L Hwf.
  revert ss rest cno g; induction fuel as [|fuel IH]; intros ss rest cno g Hg Hsn Hc Hf; [lia|].
  pose proof (fw_snaps F Hwf) as Hsort. cbn [get_snapshot_loop].
  destruct (Z.ltb_spec (Z.of_nat (length ss)) (Z.of_nat (length (fs_snaps F)))) as [Hlt|Hge].
  2:{ wp_step. rewrite Hsn, length_app in *. destruct rest; [|simpl in *; lia]. rewrite app_nil_r.
      split; [done|]. exists (g_sys g). by destruct g. }
  wp_step. eapply wp_call; [apply get_snapshots_stable|exact Hg| |by intros].
  { rewrite Hsn. destruct Hc as [[-> _]|Hc]; [by left|right]. destruct rest; [done|]. injection Hc as ->. set_solver. }
  intros r s (rest' & Hr & Hne & Hnext) Hs.
  assert (Hrest : rest = (ci_cno <$> r) ++ rest').
  { rewrite <- Hr, Hsn. destruct Hc as [[-> ->]|Hc].
    - symmetry. apply filter_all_pass. rewrite Hsn in Hsort. inversion_clear Hsort as [|? ? _ Hp].
      eapply Forall_impl; [exact Hp|]. simpl. lia.
    - destruct rest as [|c rest]; [done|]. injection Hc as ->. symmetry. apply sorted_suffix.
      rewrite Hsn in Hsort. by inversion Hsort. }
  destruct (last r) as [final|] eqn:Hlast.
  2:{ apply last_None in Hlast as ->. rewrite (Hne eq_refl) in Hrest. subst rest. rewrite Hsn, app_nil_r in Hlt. lia. }
  specialize (Hnext final eq_refl). rewrite Hrest in Hsn. rewrite Hsn in Hsort.
  wp_step. eapply wp_run.
  { apply store_snapshots_run; [eapply sorted_app_l, sorted_tail, Hsort|].
    rewrite Hsn, !length_app, length_fmap. lia. }
  rewrite Hlast. simpl. destruct rest' as [|c rest'].
  - rewrite Hnext. simpl. wp_step. split; [by rewrite Hsn, app_nil_r|eauto].
  - simpl in Hnext. rewrite Hnext. assert (0 < c).
    { inversion_clear Hsort as [|? ? _ Hp]. rewrite !Forall_app in Hp. destruct Hp as (_ & _ & Hp). by inversion Hp. }
    destruct (Z.eqb_spec c 0); [lia|]. specialize (IH (ss ++ (ci_cno <$> r)) (c :: rest') c (with_sys g s) Hs).
    rewrite last_app, fmap_last, Hlast in IH. simpl in IH. eapply wp_mono; [apply IH| |done].
    + by rewrite <- app_assoc.
    + by right.
    + rewrite Hrest, length_app, length_fmap in Hf. simpl in *. destruct r; [done|]. simpl in Hf. lia.
    + intros ss' g' [-> (s' & -> & Hs')]. split; [done|]. by exists s'.
Qed.

(** The liveness test gets all snapshots of the file system. *)
Lemma get_snapshot_wp g : ok (g_sys g) ->
  wp nilfs_get_snapshot (fun ss g' => ss = fs_snaps F /\ exists s, g' = with_sys g s /\ ok s) still_ok g.
Proof using L Hwf.
  intros Hg. unfold nilfs_get_snapshot. wp_step. eapply wp_call; [apply get_cpstat_stable|exact Hg| |by intros].
  intros cs s Hcs Hs. simpl in Hcs. rewrite Hcs. destruct (Z.eqb_spec (Z.of_nat (length (fs_snaps F))) 0) as [Hz|_].
  { wp_step. split; [symmetry; apply nil_length_inv; lia|eauto]. }
  wp_step. apply wp_malloc. intros b g' Hm.
  assert (exists s', g' = with_sys g s' /\ ok s') as (s' & -> & Hs').
  { revert Hm. unfold malloc at 1, gcs_alloc. destruct (malloc _ _) as [b' s'] eqn:Hm. intros [= <- <-].
    exists s'. split; [done|]. eapply ok_alloc; [exact Hs|]. right. eauto. }
  destruct b; [|done]. rewrite Nat2Z.id.
  eapply wp_mono; [apply (get_snapshot_loop_wp _ [] (fs_snaps F) 0)| |done]; [done|done|by left|lia|].
  intros ss g' [-> (s2 & -> & Hs2)]. split; [done|]. by exists s2.
Qed.

(** ** The abstract state

    The lists the vectors stand for.  Each step below is shown to compute a
    function of them. *)
Record gc_view := mk_gv {
  gv_segnums : list Z; gv_stat : option nilfs_reclaim_stat;
  gv_vdescs : list nilfs_vdesc; gv_bdescs : list nilfs_bdesc;
  gv_periods : list nilfs_period; gv_vblocknrs : list Z;
}.

Definition vec_holds {A} (v : nilfs_vector A) (l : list A) : Prop := vec_wf v /\ elems v = l.

Definition holds (a : gc_view) (g : gcs W) : Prop :=
  ok (g_sys g) /\ g_segnums g = gv_segnums a /\ g_stat g = gv_stat a /\
  vec_holds (g_vdescv g) (gv_vdescs a) /\ vec_holds (g_bdescv g) (gv_bdescs a) /\
  vec_holds (g_periodv g) (gv_periods a) /\ vec_holds (g_vblocknrv g) (gv_vblocknrs a) /\
  vec_wf (g_supv g).

Lemma vec_holds_size {A} (v : nilfs_vector A) l : vec_holds v l -> nilfs_vector_get_size v = Z.of_nat (length l).
Proof using. intros [Hv <-]. symmetry. by apply elems_length. Qed.

Lemma vec_holds_sort {A} cmp (v : nilfs_vector A) l :
  vec_holds v l -> vec_holds (nilfs_vector_sort cmp v) (qsort cmp l).
Proof using. intros [Hv <-]. by apply sort_spec. Qed.

Definition add_periods (a : gc_view) : gc_view :=
  mk_gv (gv_segnums a) (gv_stat a) (dated F <$> qsort nilfs_comp_vdesc_vblocknr (gv_vdescs a))
    (gv_bdescs a) (gv_periods a) (gv_vblocknrs a).

Lemma get_vdesc_holds a g : holds a g -> wp nilfs_get_vdesc (fun _ => holds (add_periods a)) still_ok g.
Proof using L.
  intros (Hg & Hsg & Hst & [Hv Hve] & Hrest). eapply wp_mono; [by apply get_vdesc_wp| |done].
  intros [] g' (s & v & -> & Hs & Hv' & He). unfold holds, vec_holds. simpl. by rewrite He, Hve.
Qed.

Definition toss_dead (protcno : Z) (a : gc_view) : gc_view :=
  let dead := filter (fun v => ~ vdesc_live protcno (fs_snaps F) v) (gv_vdescs a) in
  mk_gv (gv_segnums a) (gv_stat a) (filter (vdesc_live protcno (fs_snaps F)) (gv_vdescs a))
    (gv_bdescs a) (gv_periods a ++ dead_periods dead) (gv_vblocknrs a ++ (vd_vblocknr <$> dead)).

Lemma toss_vdescs_holds protcno a g : holds a g ->
  Forall (fun v => NILFS_CNO_MIN <= p_start (vd_period v)) (gv_vdescs a) ->
  wp (nilfs_toss_vdescs protcno) (fun _ => holds (toss_dead protcno a)) still_ok g.
Proof using L Hwf.
  intros (Hg & Hsg & Hst & [Hv Hve] & Hb & [Hp Hpe] & [Hn Hne] & Hsup) Hpos.
  pose proof (get_snapshot_wp g Hg) as Hss. unfold wp in Hss.
  destruct (nilfs_get_snapshot g) as [[ss|e| | |] g1] eqn:Hrun; try done.
  2:{ unfold wp, nilfs_toss_vdescs. by rewrite (bind_err _ _ _ _ _ Hrun). }
  destruct Hss as (-> & s & -> & Hs). pose proof (fw_snaps F Hwf) as Hsort. inversion_clear Hsort as [|? ? Hsort' _].
  pose proof (toss_vdescs_run g protcno (fs_snaps F) s Hv Hn Hp ltac:(by rewrite Hve) Hsort' Hrun) as Htoss.
  unfold wp. destruct (nilfs_toss_vdescs protcno g) as [[[]|e| | |] g']; try done.
  - destruct Htoss as (s' & v & b & p & -> & Hv' & Hve' & Hb' & Hbe' & Hp' & Hpe' & Hal).
    unfold holds, vec_holds, toss_dead. simpl. rewrite Hve', Hbe', Hpe', Hve, Hne, Hpe.
    split_and!; try done; try apply Hb; try apply Hsup.
    exact (ok_alloc_only F rq lk (with_sys g s) (with_sys g s') Hs Hal).
  - destruct Htoss as [_ Hal]. by eapply ok_alloc_only; [|exact Hal].
Qed.

Definition unify_periods (a : gc_view) : gc_view :=
  mk_gv (gv_segnums a) (gv_stat a) (gv_vdescs a) (gv_bdescs a)
    (unified (qsort nilfs_comp_period (gv_periods a))) (gv_vblocknrs a).

Lemma unify_period_holds a g : holds a g ->
  wp nilfs_unify_period (fun _ => holds (unify_periods a)) still_ok g.
Proof using K J.
  intros (Hg & Hsg & Hst & Hv & Hb & [Hp Hpe] & Hrest).
  destruct (unify_period_run g Hp) as (v & Hrun & Hv' & He). eapply wp_run; [exact Hrun|].
  unfold holds, vec_holds. simpl. by rewrite He, Hpe.
Qed.

(** ** Places of the blocks of the DAT *)

Lemma elems_store_bdescs i r (v : nilfs_vector nilfs_bdesc) :
  vec_wf v -> (i + length r <= length (elems v))%nat ->
  vec_holds (store_bdescs (Z.of_nat i) r v) (take i (elems v) ++ r ++ drop (i + length r) (elems v)).
Proof using.
  intros Hv Hi. assert (Hdata : v_data v = elems v ++ drop (Z.to_nat (v_nelems v)) (v_data v)) by (unfold elems; by rewrite take_drop).
  pose proof (elems_length v Hv) as Hl.
  assert (Hins : list_inserts i r (v_data v) =
    (take i (elems v) ++ r ++ drop (i + length r) (elems v)) ++ drop (Z.to_nat (v_nelems v)) (v_data v)).
  { rewrite Hdata at 1. rewrite <- (take_drop i (elems v)) at 1.
    rewrite <- (take_drop (length r) (drop i (elems v))) at 1. rewrite drop_drop, <- !app_assoc.
    apply list_inserts_middle; [by rewrite length_take_le by lia|].
    rewrite length_take, length_drop. lia. }
  unfold store_bdescs, vec_holds. rewrite Nat2Z.id. split.
  - apply vec_wf_update; [done|apply length_inserts|]. pose proof (wf_nelems _ Hv). lia.
  - unfold elems at 1. simpl. rewrite Hins, take_app_length'; [done|].
    rewrite !length_app, length_take, length_drop. lia.
Qed.

Definition bd_state (g0 : gcs W) (l : list nilfs_bdesc) (g : gcs W) : Prop :=
  exists s b, g = with_bdescv (with_sys g0 s) b /\ ok s /\ vec_holds b l.

Lemma get_bdesc_loop_wp fuel g0 dn td g :
  bd_state g0 ((located F <$> dn) ++ td) g -> (length td < fuel)%nat ->
  wp (get_bdesc_loop fuel (Z.of_nat (length (dn ++ td))) (Z.of_nat (length dn)))
    (fun _ => bd_state g0 (located F <$> (dn ++ td))) still_ok g.
Proof using L.
  revert dn td g; induction fuel as [|fuel IH]; intros dn td g Hg Hf; [lia|].
  pose proof Hg as (s & b & -> & Hs & Hb & Hbe). cbn [get_bdesc_loop]. rewrite length_app.
  destruct (Z.ltb_spec (Z.of_nat (length dn)) (Z.of_nat (length dn + length td))).
  2:{ wp_step. destruct td; [|simpl in *; lia]. by rewrite app_nil_r in *. }
  wp_step. wp_step. change (g_bdescv (with_bdescv (with_sys g0 s) b)) with b. rewrite Nat2Z.id.
  set (count := Z.min _ _). assert (Hcount : 0 < count <= Z.of_nat (length td) /\ count <= 512)
    by (unfold count, NILFS_GC_NBDESCS; lia).
  assert (Hreq : take (Z.to_nat count) (drop (length dn) (v_data b)) = take (Z.to_nat count) td).
  { assert (Hdata : v_data b = elems b ++ drop (Z.to_nat (v_nelems b)) (v_data b)) by (unfold elems; by rewrite take_drop).
    rewrite Hdata, Hbe, <- app_assoc, drop_app_length' by by rewrite length_fmap. rewrite take_app_le by lia. done. }
  wp_step. eapply wp_call; [apply (get_bdescs_stable F rq lk (drop (length dn) (v_data b)) count); lia|exact Hs| |by intros].
  rewrite Hreq. intros r s' (Hne & Hle & Hr) Hs'. rewrite length_take in Hle.
  assert (Hne' : length r <> 0%nat).
  { intros Hz%nil_length_inv. apply Hne in Hz; [done|]. destruct td; [simpl in *; lia|].
    by replace (Z.to_nat count) with (Datatypes.S (pred (Z.to_nat count))) by lia. }
  rewrite take_take, Nat.min_l in Hr by lia.
  wp_step. wp_step.
  replace (Z.of_nat (length dn) + Z.of_nat (length r)) with (Z.of_nat (length (dn ++ take (length r) td)))
    by (rewrite length_app, length_take; lia).
  replace (Z.of_nat (length dn + length td)) with (Z.of_nat (length ((dn ++ take (length r) td) ++ drop (length r) td)))
    by (rewrite <- app_assoc, take_drop, length_app; lia).
  eapply wp_mono; [apply (IH _ (drop (length r) td))| |done].
  - exists s', (store_bdescs (Z.of_nat (length dn)) r b). split_and!; [done|done|].
    pose proof (elems_store_bdescs (length dn) r b Hb) as Hst. rewrite Hbe, length_app, length_fmap in Hst.
    specialize (Hst ltac:(lia)). rewrite take_app_length' in Hst by by rewrite length_fmap.
    rewrite <- drop_drop, drop_app_length' in Hst by by rewrite length_fmap.
    by rewrite fmap_app, <- app_assoc, <- Hr.
  - rewrite length_drop. lia.
  - intros [] g'. by rewrite <- app_assoc, take_drop.
Qed.

Definition locate_blocks (a : gc_view) : gc_view :=
  mk_gv (gv_segnums a) (gv_stat a) (gv_vdescs a) (located F <$> qsort nilfs_comp_bdesc (gv_bdescs a))
    (gv_periods a) (gv_vblocknrs a).

Lemma get_bdesc_holds a g : holds a g -> wp nilfs_get_bdesc (fun _ => holds (locate_blocks a)) still_ok g.
Proof using L.
  intros (Hg & Hsg & Hst & Hv & Hb & Hrest). unfold nilfs_get_bdesc. wp_step. wp_step. wp_step. wp_step.
  apply (vec_holds_sort nilfs_comp_bdesc) in Hb. set (l := qsort nilfs_comp_bdesc (gv_bdescs a)) in *.
  change (g_bdescv (with_bdescv g ?b)) with b. rewrite (vec_holds_size _ _ Hb), Nat2Z.id.
  eapply wp_mono; [apply (get_bdesc_loop_wp _ g [] l); [|lia]| |done].
  - exists (g_sys g), (nilfs_vector_sort nilfs_comp_bdesc (g_bdescv g)). split_and!; [by destruct g|done|done].
  - intros [] g' (s & b & -> & Hs & Hb'). by unfold holds.
Qed.

Definition toss_dat_blocks (a : gc_view) : gc_view :=
  mk_gv (gv_segnums a) (gv_stat a) (gv_vdescs a) (filter (fun b => nilfs_bdesc_is_live b = true) (gv_bdescs a))
    (gv_periods a) (gv_vblocknrs a).

Lemma toss_bdescs_holds a g : holds a g ->
  wp nilfs_toss_bdescs (fun _ => holds (toss_dat_blocks a)) still_ok g.
Proof using K J.
  intros (Hg & Hsg & Hst & Hv & [Hb Hbe] & Hrest).
  destruct (toss_bdescs_run g Hb) as (v & Hrun & Hv' & He). eapply wp_run; [exact Hrun|].
  unfold holds, vec_holds. simpl. by rewrite He, Hbe.
Qed.

(** ** From the segments to the request *)

Definition map_stat (f : nilfs_reclaim_stat -> nilfs_reclaim_stat) (a : gc_view) : gc_view :=
  mk_gv (gv_segnums a) (f <$> gv_stat a) (gv_vdescs a) (gv_bdescs a) (gv_periods a) (gv_vblocknrs a).

Lemma update_stat_holds f a g : holds a g -> wp (update_stat f) (fun _ => holds (map_stat f a)) still_ok g.
Proof using. intros (Hg & Hsg & Hst & Hrest). unfold update_stat. wp_step. unfold holds. simpl. by rewrite Hst. Qed.

Definition sort_moved (a : gc_view) : gc_view :=
  mk_gv (gv_segnums a) (gv_stat a) (qsort nilfs_comp_vdesc_blocknr (gv_vdescs a)) (gv_bdescs a)
    (gv_periods a) (gv_vblocknrs a).

Lemma sort_moved_holds a g : holds a g ->
  holds (sort_moved a) (with_vdescv g (nilfs_vector_sort nilfs_comp_vdesc_blocknr (g_vdescv g))).
Proof using.
  intros (Hg & Hsg & Hst & Hv & Hrest). unfold holds. split_and!; try done; try apply Hrest. by apply vec_holds_sort.
Qed.

Definition protcno_of (params : nilfs_reclaim_params) : Z :=
  if negb (Z.land (rp_flags params) NILFS_RECLAIM_PARAM_PROTCNO =? 0) then rp_protcno params else NILFS_CNO_MAX.

(** The number of elements as the statistics count it. *)
Abbreviation len l := (Z.of_nat (length l)).

(** The dead blocks are sorted out of the [n] segments collected. *)
Definition judged (protcno n nsegs : Z) (a : gc_view) : gc_view :=
  let a1 := add_periods (map_stat (stat_counts n nsegs) a) in
  let a2 := toss_dead protcno a1 in
  unify_periods (sort_moved
    (map_stat (stat_vblks (len (gv_vdescs a1)) (len (gv_vdescs a2)) (len (gv_vblocknrs a2))) a2)).

(** Then those of the DAT, and the statistics are complete. *)
Definition assessed (protcno n nsegs bps : Z) (a : gc_view) : gc_view :=
  let a1 := locate_blocks (judged protcno n nsegs a) in
  let a2 := toss_dat_blocks a1 in
  map_stat (stat_pblks (len (gv_bdescs a1)) (len (gv_bdescs a2))
    (u32 (bps * n - (len (gv_vdescs a2) + len (gv_bdescs a2))))) a2.

Lemma dated_positive l : Forall (fun v => NILFS_CNO_MIN <= p_start (vd_period v)) (dated F <$> l).
Proof using Hwf. apply Forall_fmap, Forall_forall. intros v _. apply Hwf. Qed.

(** The judgement on what was collected, and what follows it. *)
Lemma judge_then protcno n nsegs a (k : Z -> M (gcs W) unit) Q E g :
  holds (map_stat (stat_counts n nsegs) a) g ->
  (forall g', holds (judged protcno n nsegs a) g' -> wp (k (len (gv_vdescs (judged protcno n nsegs a)))) Q E g') ->
  (forall e g', still_ok e g' -> E e g') ->
  wp (nilfs_get_vdesc ;;
      let* nvblocks := gets (fun g => nilfs_vector_get_size (g_vdescv g)) in
      nilfs_toss_vdescs protcno ;;
      let* nlive := gets (fun g => nilfs_vector_get_size (g_vdescv g)) in
      let* nfreed := gets (fun g => nilfs_vector_get_size (g_vblocknrv g)) in
      update_stat (stat_vblks nvblocks nlive nfreed) ;;
      modify (fun g => with_vdescv g (nilfs_vector_sort nilfs_comp_vdesc_blocknr (g_vdescv g))) ;;
      nilfs_unify_period ;; k nlive) Q E g.
Proof using L Hwf.
  intros Hg Hk HE. set (a0 := map_stat _ a) in *.
  eapply wp_seq; [by apply get_vdesc_holds| |exact HE]. intros [] g1 H1.
  wp_step. wp_step. eapply wp_seq; [apply toss_vdescs_holds; [exact H1|apply dated_positive]| |exact HE].
  intros [] g2 H2. pose proof H1 as (_ & _ & _ & Hv1 & _). pose proof H2 as (_ & _ & _ & Hv2 & _ & _ & Hn2 & _).
  wp_step. wp_step. wp_step. wp_step. rewrite (vec_holds_size _ _ Hv1), (vec_holds_size _ _ Hv2), (vec_holds_size _ _ Hn2).
  eapply wp_seq; [by apply update_stat_holds| |exact HE]. intros [] g3 H3.
  wp_step. wp_step. eapply wp_seq; [by apply unify_period_holds, sort_moved_holds| |exact HE].
  intros [] g4 H4. specialize (Hk g4 H4). unfold judged in Hk. cbv zeta in Hk.
  cbn [gv_vdescs unify_periods sort_moved map_stat] in Hk. by rewrite qsort_length in Hk.
Qed.

(** The same for the blocks of the DAT. *)
Lemma dat_then (n : Z) a (k : Z -> M (gcs W) unit) Q E g :
  holds a g ->
  (forall bps g', is_u32 bps ->
     let b := toss_dat_blocks (locate_blocks a) in
     let r := u32 (bps * n - (len (gv_vdescs b) + len (gv_bdescs b))) in
     holds (map_stat (stat_pblks (len (gv_bdescs (locate_blocks a))) (len (gv_bdescs b)) r) b) g' -> wp (k r) Q E g') ->
  (forall e g', still_ok e g' -> E e g') ->
  wp (nilfs_get_bdesc ;;
      let* nbblocks := gets (fun g => nilfs_vector_get_size (g_bdescv g)) in
      nilfs_toss_bdescs ;;
      let* nblive := gets (fun g => nilfs_vector_get_size (g_bdescv g)) in
      let* bps := call nilfs_get_blocks_per_segment in
      let r := u32 (bps * n - (len (gv_vdescs a) + nblive)) in
      update_stat (stat_pblks nbblocks nblive r) ;; k r) Q E g.
Proof using L Hwf J.
  intros Hg Hk HE. eapply wp_seq; [by apply get_bdesc_holds| |exact HE]. intros [] g1 H1.
  wp_step. wp_step. eapply wp_seq; [by apply toss_bdescs_holds| |exact HE]. intros [] g2 H2.
  pose proof H1 as (_ & _ & _ & _ & Hb1 & _). pose proof H2 as (Hok2 & _ & _ & _ & Hb2 & _).
  wp_step. wp_step. rewrite (vec_holds_size _ _ Hb1), (vec_holds_size _ _ Hb2).
  wp_step. eapply wp_call; [apply get_bps_stable|exact Hok2| |intros e s Hs; by apply HE].
  intros bps' s Hbps Hs. cbv zeta. eapply wp_seq; [apply update_stat_holds| |exact HE].
  - instantiate (1 := toss_dat_blocks (locate_blocks a)). unfold holds in *. simpl. split; [done|apply H2].
  - intros [] g3 H3. by apply (Hk bps').
Qed.

(** What a run that collected the segments [dn] found in them. *)
Record collection (protseq : Z) (sel tail dn out : list Z) (a : gc_view) : Prop := {
  co_perm : dn ++ out ≡ₚ sel;
  co_segnums : gv_segnums a = dn ++ out ++ tail;
  co_out : Forall (not_collected F protseq) out;
  co_contents : exists cs, Forall2 (collects F protseq) dn cs /\
    fields <$> gv_vdescs a = (join_contents cs).1 /\ bfields <$> gv_bdescs a = (join_contents cs).2;
  co_fresh : gv_periods a = [] /\ gv_vblocknrs a = [];
}.

(** Nothing was collected yet. *)
Definition fresh (st : option nilfs_reclaim_stat) (segnums : list Z) : gc_view := mk_gv segnums st [] [] [] [].

Lemma acc_blocks_holds protseq sel tail st g :
  Forall (fun n => 0 <= n) sel -> holds (fresh st (sel ++ tail)) g ->
  wp (nilfs_acc_blocks (len sel) protseq) (fun n g' => exists dn out a, n = len dn /\ gv_stat a = st /\
    collection protseq sel tail dn out a /\ holds a g') still_ok g.
Proof using L Hwf.
  intros Hsel (Hg & Hsg & Hst & [Hv Hve] & [Hb Hbe] & Hp & Hn & Hsup). simpl in *.
  eapply wp_mono; [apply (acc_blocks_wp F rq lk protseq sel tail g Hwf Hsel Hsg)| |done].
  { exists (g_sys g), (g_vdescv g), (g_bdescv g). rewrite Hve, Hbe. split_and!; try done. by destruct g. }
  intros n g' (dn & out & cs & -> & Hperm & Hdn & Hout & s & v & b & -> & Hs & Hv' & Hve' & Hb' & Hbe').
  exists dn, out, (mk_gv (dn ++ out ++ tail) st (elems v) (elems b) [] []). split_and!; [done|done| |].
  - split; try done. by exists cs.
  - unfold holds, vec_holds. simpl. split_and!; try done; try apply Hp; apply Hn.
Qed.

(** The part of the reclaim that runs with the lock held, up to the commit. *)
Lemma reclaim_locked_wp (dryrun : bool) params sel tail st g (Q : unit -> gcs W -> Prop) E :
  Forall (fun n => 0 <= n) sel -> holds (fresh st (sel ++ tail)) g ->
  (forall e g', still_ok e g' -> E e g') ->
  (forall out a g', collection (rp_protseq params) sel tail [] out a -> gv_stat a = st ->
     holds (map_stat (stat_counts 0 (len sel)) a) g' -> Q tt g') ->
  (forall dn out a bps g', collection (rp_protseq params) sel tail dn out a -> gv_stat a = st -> dn <> [] ->
     let b := assessed (protcno_of params) (len dn) (len sel) bps a in
     holds b g' ->
     wp (if dryrun then ret tt
         else commit_segments params (len dn) (u32 (bps * len dn - (len (gv_vdescs b) + len (gv_bdescs b))))) Q E g') ->
  wp (reclaim_locked (len sel) dryrun params) Q E g.
Proof using L Hwf J.
  intros Hsel Hg HE Hnone Hsome. unfold reclaim_locked.
  eapply wp_seq; [by apply acc_blocks_holds| |exact HE]. intros n g1 (dn & out & a & -> & Hst & Hco & H1).
  destruct (Z.ltb_spec (len dn) 0); [lia|].
  eapply wp_seq; [by apply update_stat_holds| |exact HE]. intros [] g2 H2.
  destruct (Z.eqb_spec (len dn) 0) as [Hz|Hz].
  { wp_step. assert (dn = []) as -> by (apply nil_length_inv; lia). by eapply Hnone. }
  fold (protcno_of params). eapply (judge_then _ _ _ _ _ _ _ _ H2); [|exact HE]. intros g3 H3.
  apply (dat_then (len dn) _ (fun r => if dryrun then ret tt else commit_segments params (len dn) r) _ _ _ H3); [|exact HE].
  intros bps g4 _ b r H4. eapply Hsome; [exact Hco|done|by intros ->|exact H4].
Qed.
End Reclaim.
