(* ===== verification/ReclaimSpec.v ===== *)
(** * What a reclaim requests

    The end of [nilfs_xreclaim_segment]: the commit, the lock around it, and
    the two theorems on the whole function.  It ends on every path, without
    reading outside of an object; it makes at most one request, which moves
    the live blocks of the segments it names, frees the dead ones, and gives
    up only checkpoints in which nothing but dead blocks were in use. *)

From S2P Require Import Prelude Vector Hoare Ondisk Sb Kernel Nilfs Segment Gc GcProtocol FileSystem Collect Reclaim.

(** The request is a function of the abstract state. *)
Definition request_of (n : nat) (a : gc_view) : clean_request :=
  mk_request (gv_vdescs a) (gv_periods a) (gv_vblocknrs a) (gv_bdescs a) (take n (gv_segnums a)).

(** All counts fit into the 32-bit fields of the ioctl. *)
Definition small (n : nat) (a : gc_view) : Prop :=
  Z.of_nat n < 2 ^ 32 /\ Z.of_nat (length (gv_vdescs a)) < 2 ^ 32 /\ Z.of_nat (length (gv_bdescs a)) < 2 ^ 32 /\
  Z.of_nat (length (gv_periods a)) < 2 ^ 32 /\ Z.of_nat (length (gv_vblocknrs a)) < 2 ^ 32.

Section Commit.
Context {W : Type} {K : Kernel W} {J : Junk}.
Context {fs_of : W -> fs} {requests : W -> list clean_request} {locked : W -> bool}.
Context {L : FsLaws K fs_of requests locked}.
Context (F : fs) (Hwf : fs_wf F) (rq : list clean_request) (lk : bool).
Existing Instance fl_quiet.
Implicit Types g : gcs W.
Abbreviation ok := (ok (fs_of := fs_of) (requests := requests) (locked := locked) F rq lk).
Abbreviation still_ok := (still_ok (fs_of := fs_of) (requests := requests) (locked := locked) F rq lk).
Abbreviation holds := (holds (fs_of := fs_of) (requests := requests) (locked := locked) F rq lk).

Abbreviation holds_stat := (update_stat_holds (fs_of := fs_of) (requests := requests) (locked := locked) F rq lk).
Abbreviation os_stable := (stable_os (fs_of := fs_of) (requests := requests) (locked := locked) F rq lk).

(** The state after the commit: [made] lists the requests made meanwhile. *)
Definition settled (made : list clean_request) (g : gcs W) : Prop :=
  nilfs_ok F (s_nilfs (g_sys g)) /\ requests (s_world (g_sys g)) = rq ++ made /\
  locked (s_world (g_sys g)) = lk /\ fs_sb (fs_of (s_world (g_sys g))) = fs_sb F.

Lemma ok_settled g : ok (g_sys g) -> settled [] g.
Proof using. intros [[= HF Hr Hl] Hn]. split_and!; [done|by rewrite app_nil_r|done|congruence]. Qed.

Lemma take_all {A} (l : list A) : Z.of_nat (length l) < 2 ^ 32 ->
  take (Z.to_nat (u32 (Z.of_nat (length l)))) l = l.
Proof using. intros. rewrite u32_id, Nat2Z.id by (unfold_words; lia). by apply take_ge. Qed.

(** The list of segments is that of [a], and at most [n] segments are counted
    as cleaned. *)
Definition bounded (n : Z) (st : option nilfs_reclaim_stat) : Prop :=
  match st with Some st => 0 <= rs_cleaned_segs st <= n | None => True end.

Definition counted (n : nat) (a : gc_view) (g : gcs W) : Prop :=
  g_segnums g = gv_segnums a /\ bounded (Z.of_nat n) (g_stat g).

Lemma holds_counted n a g : holds a g -> bounded (Z.of_nat n) (gv_stat a) -> counted n a g.
Proof using. intros (_ & Hs & Hst & _) Hb. split; [done|by rewrite Hst]. Qed.

(** The request is the one the abstract state describes. *)
Lemma clean_now_wp a n g : holds a g -> small n a -> (n <= length (gv_segnums a))%nat ->
  bounded (Z.of_nat n) (gv_stat a) ->
  wp (clean_segments_now (Z.of_nat n)) (fun _ g' => settled [request_of n a] g' /\ counted n a g')
    (fun _ g' => settled [] g' \/ settled [request_of n a] g') g.
Proof using L.
  intros (Hg & Hsg & Hst & [Hv Hve] & [Hb Hbe] & [Hp Hpe] & [Hn Hne] & _) (H1 & H2 & H3 & H4 & H5) Hle Hbound.
  unfold counted. rewrite <- Hst in Hbound.
  unfold clean_segments_now. wp_step. wp_step. unfold nilfs_clean_segments, with_iocfd.
  rewrite Hve, Hbe, Hpe, Hne, Hsg, Nat2Z.id, !take_all by (done || rewrite length_take_le; done).
  unfold wp, call, bind, the_nilfs, gets. case_if; [left; by apply ok_settled|].
  unfold os. match goal with |- context [ioc_clean_segments ?fd ?a ?b ?c ?d ?e ?w] =>
    pose proof (fl_clean fd a b c d e w) as (Hr & Hl & Hsb); destruct (ioc_clean_segments fd a b c d e w) as [[r|e'] w'] end;
    destruct Hg as [[= HF Hr0 Hl0] Hok]; simpl in *; [|right]; unfold settled; simpl;
    rewrite ?Hr, ?Hr0, ?Hl, ?Hl0, ?Hsb, ?HF; done.
Qed.

(** ** Deferral *)

Lemma fill_sup_holds a n i now g : holds a g -> 0 <= i -> i + Z.of_nat n <= Z.of_nat (length (gv_segnums a)) ->
  wp (fill_sup n i now) (fun _ => holds a) still_ok g.
Proof using L.
  revert i g; induction n as [|n IH]; intros i g Hg Hi Hle; cbn [fill_sup]; [by wp_step|].
  pose proof Hg as (Hok & Hsg & Hst & Hv & Hb & Hp & Hn & Hs). wp_step. wp_step. rewrite Hsg.
  destruct (lookup_lt_is_Some_2 (gv_segnums a) (Z.to_nat i) ltac:(lia)) as [x Hx]. rewrite Hx.
  wp_step. wp_step. unfold push_sup. apply (wp_push (fs_of := fs_of) (requests := requests) (locked := locked) F rq lk (fun _ => True));
    [done|done|done| | |].
  - intros sup. eexists. by split.
  - intros s v y Hok' Hv' _ _. apply IH; [|lia|lia]. by unfold Reclaim.holds in *; split_and!.
  - intros e s Hok'. wp_step. by unfold Reclaim.holds in *; split_and!.
Qed.

Lemma opt_clear_stable : stable (fs_of := fs_of) (requests := requests) (locked := locked) F rq lk
  (nilfs_opt_clear NILFS_OPT_SET_SUINFO) (fun _ => True).
Proof using.
  intros s Hs. unfold nilfs_opt_clear. simpl. wp_step. split; [done|]. destruct Hs as [Hw (H1 & H2 & H3)].
  split; [exact Hw|by split_and!].
Qed.

(** The update of the usage information: on success the file system has
    changed, on failure it has not. *)
Lemma set_suinfo_wp l n (Q : unit -> gcs W -> Prop) (E : Z -> gcs W -> Prop) g : ok (g_sys g) ->
  (forall s, settled [] (with_sys g s) -> Q tt (with_sys g s)) -> (forall e s, ok s -> E e (with_sys g s)) ->
  wp (call (nilfs_set_suinfo l n)) Q E g.
Proof using L.
  intros Hg HQ HE. unfold wp, call, nilfs_set_suinfo, with_iocfd, bind, the_nilfs, gets.
  case_if; [by apply HE|]. unfold os.
  match goal with |- context [ioc_set_suinfo ?fd ?l ?w] =>
    pose proof (fl_set fd l w) as Hset; destruct (ioc_set_suinfo fd l w) as [r w'] end.
  specialize (Hset r w' eq_refl) as (Hr & Hl & HF). destruct Hg as [[= HF0 Hr0 Hl0] Hok].
  destruct r as [[]|e]; [apply HQ|apply HE].
  - unfold settled. simpl. split_and!; [done|by rewrite app_nil_r, Hr|by rewrite Hl|congruence].
  - split; [simpl; congruence|done].
Qed.

(** Nothing is requested when the segments are deferred; otherwise [false]
    says to go on. *)
Lemma defer_segments_wp a n g : holds a g -> (n <= length (gv_segnums a))%nat ->
  wp (defer_segments (Z.of_nat n)) (fun b g' => if b then settled [] g' /\ counted n a g' else
      exists st, bounded (Z.of_nat n) st /\
        holds (mk_gv (gv_segnums a) st (gv_vdescs a) (gv_bdescs a) (gv_periods a) (gv_vblocknrs a)) g')
    (fun _ => settled []) g.
Proof using L.
  intros Hg Hn. unfold defer_segments.
  eapply wp_seq; [by apply holds_stat| |intros e g'; apply ok_settled]. intros [] g1 H1.
  wp_step. eapply wp_call; [apply (os_stable _ (fun _ => True)); [intros; apply fl_quiet|done]|apply H1| |].
  2:{ intros e s Hs. by apply ok_settled. }
  intros now s _ Hs. rewrite Nat2Z.id.
  eapply wp_seq; [apply (fill_sup_holds (map_stat (stat_deferred (Z.of_nat n) 0) a)); [|lia|simpl; lia]| |intros e g'; apply ok_settled].
  { unfold Reclaim.holds in *. by split_and!; try apply H1. }
  intros filled g2 H2.
  assert (Hcount : counted n a g2).
  { apply (holds_counted n) in H2; [done|]. simpl. destruct (gv_stat a); simpl; [lia|done]. }
  destruct filled; cbn [negb]; [|wp_step; split; [apply ok_settled, H2|done]]. wp_step. wp_step. wp_step.
  wp_step. apply set_suinfo_wp; [apply H2|intros s' Hg'; by wp_step|].
  intros e s3 Hs3. destruct (Z.eqb_spec e ENOTTY); cbn [negb]; [|wp_step; by apply ok_settled].
  wp_step. eapply wp_call; [apply opt_clear_stable|done| |intros e' s' Hs'; by apply ok_settled].
  intros _ s' _ Hs'. eapply wp_seq; [apply (holds_stat _ (map_stat (stat_deferred (Z.of_nat n) 0) a))| |].
  - unfold Reclaim.holds in *. split; [done|apply H2].
  - intros [] g3 H3. wp_step. eexists. split; [|exact H3]. simpl. destruct (gv_stat a); simpl; [lia|done].
  - intros e' g'. apply ok_settled.
Qed.

(** ** The commit *)

(** Why a commit may succeed without a request: a signal is pending, or the
    caller has set a minimum of reclaimable blocks. *)
Definition may_skip (params : nilfs_reclaim_params) : Prop :=
  (exists w w', sigpending_intterm w = (inl true, w')) \/
  Z.land (rp_flags params) NILFS_RECLAIM_PARAM_MIN_RECLAIMABLE_BLKS <> 0.

Lemma commit_wp params a n r g : holds a g -> small n a -> (n <= length (gv_segnums a))%nat ->
  bounded (Z.of_nat n) (gv_stat a) ->
  wp (commit_segments params (Z.of_nat n) r)
    (fun _ g' => (settled [request_of n a] g' \/ settled [] g' /\ may_skip params) /\ counted n a g')
    (fun _ g' => settled [] g' \/ settled [request_of n a] g') g.
Proof using L.
  intros Hg Hs Hn Hbound. unfold commit_segments. wp_step.
  eapply wp_call; [apply (os_stable _ (fun b : bool => b = true -> may_skip params)); [intros; apply fl_quiet|]|apply Hg| |].
  { intros w b w' _ Hrun ->. left. eauto. }
  2:{ intros e s Hs'. left. by apply ok_settled. }
  intros pending s Hskip Hs'. destruct pending.
  { wp_step. split; [right; split; [by apply ok_settled|auto]|]. by apply (holds_counted n _ g). }
  wp_step. eapply wp_call; [apply (stable_nilfs (fs_of := fs_of) (requests := requests) (locked := locked) F rq lk)|done| |intros e s2 Hs2; left; by apply ok_settled].
  intros nf s2 _ Hs2. set (g2 := with_sys _ s2).
  assert (Hg2 : holds a g2) by (unfold Reclaim.holds in *; split; [done|apply Hg]).
  clearbody g2. wp_step. destruct (_ && _) eqn:Hdefer.
  - eapply wp_mono; [by apply defer_segments_wp| |intros e g' Hg'; by left]. intros [] g3 H3.
    + wp_step. split; [|apply H3]. right. split; [apply H3|]. right. apply andb_true_iff in Hdefer as [[Hf _]%andb_true_iff _].
      by apply negb_true_iff, Z.eqb_neq in Hf.
    + destruct H3 as (st & Hst & H3). eapply wp_mono; [by apply (clean_now_wp _ n _ H3)| |done].
      intros [] g4 [H4 H4']. split; [by left|exact H4'].
  - wp_step. eapply wp_mono; [by apply clean_now_wp| |done]. intros [] g4 [H4 H4']. split; [by left|exact H4'].
Qed.
End Commit.

(** ** Creating the vectors *)

Section Create.
Context {W : Type} {K : Kernel W} {J : Junk}.
Context {fs_of : W -> fs} {requests : W -> list clean_request} {locked : W -> bool}.
Context {L : FsLaws K fs_of requests locked}.
Context (F : fs) (rq : list clean_request) (lk : bool).
Implicit Types g : gcs W.
Abbreviation ok := (ok (fs_of := fs_of) (requests := requests) (locked := locked) F rq lk).
Abbreviation still_ok := (still_ok (fs_of := fs_of) (requests := requests) (locked := locked) F rq lk).
Abbreviation holds := (holds (fs_of := fs_of) (requests := requests) (locked := locked) F rq lk).

(** Only the world has changed. *)
Definition only_sys (g g' : gcs W) : Prop := exists s, g' = with_sys g s /\ ok s.

Lemma create_wp {A} (junk : A) e g0 g : 0 < e <= 64 -> only_sys g0 g ->
  wp (attempt (nilfs_vector_create junk e))
    (fun r g' => (match r with inl v => vec_holds v [] | inr _ => True end) /\ only_sys g0 g') (fun _ _ => False) g.
Proof using L.
  intros He (s0 & -> & Hs0). wp_step. unfold nilfs_vector_create.
  destruct (Z.eqb_spec e 0); [lia|].
  assert (Hm : forall n s (Q : unit -> gcs W -> Prop) (E : Z -> gcs W -> Prop), ok s ->
    (forall s', ok s' -> Q tt (with_sys g0 s')) -> (forall s', ok s' -> E ENOMEM (with_sys g0 s')) ->
    wp (m_malloc n) Q E (with_sys g0 s)).
  { intros n' s Q E Hs HQ HE. apply wp_malloc. intros b g'. unfold malloc at 1, gcs_alloc. simpl.
    destruct (malloc n' s) as [b' s'] eqn:Hrun. intros [= <- <-].
    assert (ok s') by (eapply ok_alloc; [exact Hs|right; eauto]). destruct b'; [by apply HQ|by apply HE]. }
  wp_step. apply Hm; [done| |intros s Hs; split; [done|by exists s]]. intros s1 Hs1.
  wp_step. apply Hm; [done| |intros s Hs; split; [done|by exists s]]. intros s2 Hs2.
  wp_step. split; [|by exists s2].
  unfold NILFS_VECTOR_INIT_MAXELEMS. rewrite div_bytes by (unfold SIZE_MAX; lia).
  split; [|done]. by constructor; simpl; unfold NILFS_VECTOR_INIT_MAXELEMS, SIZE_MAX; try lia.
Qed.

Lemma create_vectors_wp g : ok (g_sys g) ->
  wp create_vectors (fun _ => holds (fresh (g_stat g) (g_segnums g))) still_ok g.
Proof using L.
  intros Hg. assert (Hg0 : only_sys g g) by (exists (g_sys g); by destruct g).
  unfold create_vectors.
  wp_step. eapply wp_mono; [by apply (create_wp _ _ g)|intros r1 g1 [H1 Hg1]|done].
  wp_step. eapply wp_mono; [by apply (create_wp _ _ g)|intros r2 g2 [H2 Hg2]|done].
  wp_step. eapply wp_mono; [by apply (create_wp _ _ g)|intros r3 g3 [H3 Hg3]|done].
  wp_step. eapply wp_mono; [by apply (create_wp _ _ g)|intros r4 g4 [H4 Hg4]|done].
  wp_step. eapply wp_mono; [by apply (create_wp _ _ g)|intros r5 g5 [H5 Hg5]|done].
  destruct Hg5 as (s & -> & Hs).
  destruct r1, r2, r3, r4, r5; try (wp_step; exact Hs). wp_step.
  unfold Reclaim.holds. simpl. split_and!; try done. apply H5.
Qed.
End Create.

(** ** Around the lock *)

Lemma wp_finally {W A} (m : M (gcs W) A) c Q E g :
  wp m (fun a => wp c (fun _ => Q a) E) (fun e => wp c (fun _ => E e) E) g -> wp (finally m c) Q E g.
Proof.
  intros Hm. unfold finally. wp_step. wp_step. eapply wp_mono; [exact Hm| |]; intros x g' Hc;
    wp_step; (eapply wp_mono; [exact Hc| |done]); intros [] g'' HQ; by wp_step.
Qed.

Section Lock.
Context {W : Type} {K : Kernel W} {J : Junk}.
Context {fs_of : W -> fs} {requests : W -> list clean_request} {locked : W -> bool}.
Context {L : FsLaws K fs_of requests locked}.
Context (F : fs) (rq : list clean_request).
Implicit Types g : gcs W.
Abbreviation ok := (ok (fs_of := fs_of) (requests := requests) (locked := locked) F rq).
Abbreviation settled := (settled (fs_of := fs_of) (requests := requests) (locked := locked) F rq).

Lemma lock_wp (Q : unit -> gcs W -> Prop) (E : Z -> gcs W -> Prop) g : ok false (g_sys g) ->
  (forall s, ok true s -> Q tt (with_sys g s)) -> (forall e s, ok false s -> E e (with_sys g s)) ->
  wp (call (nilfs_lock 0)) Q E g.
Proof using L.
  intros [[= HF Hr Hl] Hn] HQ HE. pose proof Hn as (_ & _ & Hsem). unfold wp, nilfs_lock.
  rewrite call_sem, Hsem. pose proof (fl_wait (s_world (g_sys g))) as Hw.
  destruct (sem_wait (s_world (g_sys g))) as [[[]|e] w]; specialize (Hw _ _ eq_refl) as (H1 & H2 & H3);
    [apply HQ|apply HE]; (split; [simpl; congruence|done]).
Qed.

Lemma unlock_wp made (Q : unit -> gcs W -> Prop) E g : settled true made g ->
  (forall s, settled false made (with_sys g s) -> Q tt (with_sys g s)) -> wp unlock_or_exit Q E g.
Proof using L.
  intros (Hn & Hr & _ & Hsb) HQ. pose proof Hn as (_ & _ & Hsem). unfold unlock_or_exit. wp_step. wp_step.
  unfold wp at 1, nilfs_unlock. rewrite call_sem, Hsem.
  destruct (fl_post (s_world (g_sys g))) as (w & -> & H1 & H2 & H3). wp_step. apply HQ.
  split_and!; [done|simpl; congruence|done|simpl; congruence].
Qed.

Lemma restore_wp made (Q : unit -> gcs W -> Prop) E g : settled false made g ->
  (forall s, settled false made (with_sys g s) -> Q tt (with_sys g s)) -> wp restore_signals Q E g.
Proof using L.
  intros (Hn & Hr & Hl & Hsb) HQ. unfold restore_signals. wp_step. apply HQ.
  pose proof (fl_restore (s_world (g_sys g))) as (H1 & H2 & H3).
  split_and!; [done|simpl; congruence..].
Qed.
End Lock.

(** ** What the request says *)

(** Is the block of a descriptor in use, by the period the kernel knows? *)
Definition in_use (F : fs) (protcno : Z) (v : nilfs_vdesc) : Prop :=
  vdesc_live protcno (fs_snaps F) (dated F v).

#[export] Instance in_use_dec F protcno v : Decision (in_use F protcno v).
Proof. unfold in_use. apply _. Defined.

(** Is the block of the DAT still where it was found? *)
Definition in_place (F : fs) (b : nilfs_bdesc) : Prop :=
  bd_oblocknr b = fs_where F (bd_ino b) (bd_offset b) (bd_level b).

#[export] Instance in_place_dec F b : Decision (in_place F b).
Proof. unfold in_place. apply _. Defined.

(** The request [r] cleans some of the selected segments [sel]: of the blocks
    their logs describe, those in use are moved, the others freed; the
    periods given up are those of the freed blocks of regular files. *)
Record request_ok (F : fs) (protseq protcno : Z) (sel : list Z) (r : clean_request) : Prop := {
  ro_selected : exists out, cr_segnums r ++ out ≡ₚ sel /\ Forall (not_collected F protseq) out;
  ro_blocks : exists cs, Forall2 (collects F protseq) (cr_segnums r) cs /\
    let '(vs, bs) := join_contents cs in
    fields <$> cr_vdescs r ≡ₚ filter (in_use F protcno) vs /\
    cr_vblocknrs r ≡ₚ vd_vblocknr <$> filter (fun v => ~ in_use F protcno v) vs /\
    (forall c, covered (cr_periods r) c <->
       exists v, v ∈ vs /\ ~ in_use F protcno v /\ vd_cno v <> 0 /\
         p_start (fs_dat F (vd_vblocknr v)) <= c < p_end (fs_dat F (vd_vblocknr v))) /\
    bfields <$> cr_bdescs r ≡ₚ filter (in_place F) bs;
  ro_dated : Forall (fun v => vd_period v = fs_dat F (vd_vblocknr v)) (cr_vdescs r);
  ro_separated : Sorted separated (cr_periods r);
}.

Lemma filter_perm {A} (P : A -> Prop) `{forall x, Decision (P x)} l l' : l ≡ₚ l' -> filter P l ≡ₚ filter P l'.
Proof. by intros ->. Qed.

Section Request.
Context (F : fs) (protcno : Z).
Abbreviation live := (vdesc_live protcno (fs_snaps F)).

Lemma in_use_fields v : in_use F protcno (fields v) <-> in_use F protcno v.
Proof. done. Qed.

Lemma moved_blocks (vds : list nilfs_vdesc) :
  fields <$> filter live (dated F <$> vds) = filter (in_use F protcno) (fields <$> vds).
Proof.
  induction vds as [|v vds IH]; [done|]. rewrite !fmap_cons, !filter_cons.
  repeat case_decide; try tauto; rewrite ?fmap_cons, IH; done.
Qed.

Lemma freed_blocks (vds : list nilfs_vdesc) :
  vd_vblocknr <$> filter (fun v => ~ live v) (dated F <$> vds) =
  vd_vblocknr <$> filter (fun v => ~ in_use F protcno v) (fields <$> vds).
Proof.
  induction vds as [|v vds IH]; [done|]. rewrite !fmap_cons, !filter_cons.
  repeat case_decide; try tauto; rewrite ?fmap_cons, IH; done.
Qed.

Lemma kept_dat_blocks (bds : list nilfs_bdesc) :
  bfields <$> filter (fun b => nilfs_bdesc_is_live b = true) (located F <$> bds) =
  filter (in_place F) (bfields <$> bds).
Proof.
  induction bds as [|b bds IH]; [done|]. rewrite !fmap_cons, !filter_cons.
  assert (nilfs_bdesc_is_live (located F b) = true <-> in_place F (bfields b)) by apply Z.eqb_eq.
  repeat case_decide; try tauto; rewrite ?fmap_cons, IH; done.
Qed.

(** The periods of the dead blocks. *)
Lemma dead_periods_covered (vds : list nilfs_vdesc) c :
  covered (dead_periods (filter (fun v => ~ live v) (dated F <$> vds))) c <->
  exists v, v ∈ fields <$> vds /\ ~ in_use F protcno v /\ vd_cno v <> 0 /\
    p_start (fs_dat F (vd_vblocknr v)) <= c < p_end (fs_dat F (vd_vblocknr v)).
Proof.
  unfold covered, dead_periods. rewrite Exists_fmap, Exists_exists. split.
  - intros (v & [Hc [Hl Hin]%list_elem_of_filter]%list_elem_of_filter & Hp).
    apply list_elem_of_fmap in Hin as (w & -> & Hin). exists (fields w).
    split; [by apply list_elem_of_fmap_2|done].
  - intros (v & Hin & Hl & Hc & Hp). apply list_elem_of_fmap in Hin as (w & -> & Hin).
    exists (dated F w). split; [|done]. apply list_elem_of_filter. split; [done|].
    apply list_elem_of_filter. split; [done|]. by apply list_elem_of_fmap_2.
Qed.
End Request.

(** ** From the abstract state to the request *)

Lemma merge_periods_length base l : (length (merge_periods base l) <= Datatypes.S (length l))%nat.
Proof.
  revert base; induction l as [|t l IH]; intros base; cbn [merge_periods]; [done|].
  case_if; simpl; [specialize (IH t)|specialize (IH (mk_period (p_start base) (Z.max (p_end base) (p_end t))))]; lia.
Qed.

Lemma unified_length l : (length (unified l) <= length l)%nat.
Proof. destruct l as [|b l]; [done|]. apply merge_periods_length. Qed.

Lemma filter_length_le {A} (P : A -> Prop) `{forall x, Decision (P x)} l : (length (filter P l) <= length l)%nat.
Proof. apply length_filter. Qed.

Section Assessed.
Context (F : fs) (Hwf : fs_wf F) (protseq protcno : Z) (sel tail dn out : list Z) (a : gc_view).
Hypothesis Hco : collection F protseq sel tail dn out a.
Abbreviation live := (vdesc_live protcno (fs_snaps F)).
Abbreviation all := (dated F <$> qsort nilfs_comp_vdesc_vblocknr (gv_vdescs a)).
Abbreviation dead := (filter (fun v => ~ live v) all).

Lemma assessed_lists n nsegs bps : let b := assessed F protcno n nsegs bps a in
  gv_segnums b = gv_segnums a /\
  gv_vdescs b = qsort nilfs_comp_vdesc_blocknr (filter live all) /\
  gv_periods b = unified (qsort nilfs_comp_period (dead_periods dead)) /\
  gv_vblocknrs b = vd_vblocknr <$> dead /\
  gv_bdescs b = filter (fun b => nilfs_bdesc_is_live b = true) (located F <$> qsort nilfs_comp_bdesc (gv_bdescs a)).
Proof using Hco.
  destruct Hco as [_ _ _ _ [Hp Hn]]. unfold assessed, judged, toss_dead. simpl. by rewrite Hp, Hn.
Qed.

(** Everything that was collected was described by the segments. *)
Lemma collection_size : Z.of_nat (length sel) <= 2 ^ 12 ->
  Z.of_nat (length (gv_vdescs a)) + Z.of_nat (length (gv_bdescs a)) <= 2 ^ 31 /\ (length dn <= length sel)%nat.
Proof using Hco Hwf.
  intros Hsel. destruct Hco as [Hperm _ _ (cs & Hcs & Hv & Hb) _].
  assert (length dn <= length sel)%nat as Hdn by (rewrite <- Hperm, length_app; lia). split; [|done].
  apply (f_equal length) in Hv. apply (f_equal length) in Hb. rewrite length_fmap in Hv. rewrite length_fmap in Hb.
  assert (size_of (join_contents cs) <= 2 ^ 19 * Z.of_nat (length dn)) as Hsz.
  { rewrite join_contents_size. clear Hv Hb Hdn Hperm Hco. induction Hcs as [|n c dn' cs Hc Hcs IH]; [done|].
    apply collects_size in Hc; [|apply Hwf]. rewrite fmap_cons, sum_Z_cons. cbn [length]. lia. }
  unfold size_of in Hsz. rewrite <- Hv, <- Hb in Hsz. change (2 ^ 12) with 4096 in *.
  change (2 ^ 19) with 524288 in *. change (2 ^ 31) with 2147483648. lia.
Qed.

Lemma assessed_small n nsegs bps : Z.of_nat (length sel) <= 2 ^ 12 -> small (length dn) (assessed F protcno n nsegs bps a).
Proof using Hco Hwf.
  intros Hsel. destruct (collection_size Hsel) as [Hsz Hdn].
  destruct (assessed_lists n nsegs bps) as (_ & Hv & Hp & Hn & Hb).
  unfold small. rewrite Hv, Hp, Hn, Hb, !qsort_length, !length_fmap.
  assert (Hall : length all = length (gv_vdescs a)) by by rewrite length_fmap, qsort_length.
  pose proof (filter_length_le live all) as H1. pose proof (filter_length_le (fun v => ~ live v) all) as H2.
  pose proof (filter_length_le (fun b => nilfs_bdesc_is_live b = true) (located F <$> qsort nilfs_comp_bdesc (gv_bdescs a))) as H3.
  pose proof (unified_length (qsort nilfs_comp_period (dead_periods dead))) as H4.
  rewrite qsort_length in H4. unfold dead_periods at 2 in H4. rewrite length_fmap in H4.
  pose proof (filter_length_le (fun v => vd_cno v <> 0) dead) as H5.
  rewrite length_fmap, qsort_length in H3. change (2 ^ 12) with 4096 in *. change (2 ^ 31) with 2147483648 in *.
  change (2 ^ 32) with 4294967296. lia.
Qed.

Lemma assessed_request n nsegs bps : request_ok F protseq protcno sel (request_of (length dn) (assessed F protcno n nsegs bps a)).
Proof using Hco.
  destruct (assessed_lists n nsegs bps) as (Hs & Hv & Hp & Hn & Hb).
  destruct Hco as [Hperm Hsegs Hout (cs & Hcs & Hfv & Hfb) _].
  assert (Hall : all ≡ₚ dated F <$> gv_vdescs a) by by rewrite qsort_perm.
  assert (Htake : take (length dn) (gv_segnums (assessed F protcno n nsegs bps a)) = dn)
    by (rewrite Hs, Hsegs; apply take_app_length).
  unfold request_of. rewrite Htake, Hv, Hp, Hn, Hb. clear Htake Hv Hp Hn Hb. split; cbn [cr_segnums cr_vdescs cr_vblocknrs cr_periods cr_bdescs].
  - by exists out.
  - exists cs. split; [done|]. destruct (join_contents cs) as [vs bs]. simpl in Hfv, Hfb. subst vs bs. split_and!.
    + rewrite <- moved_blocks, qsort_perm. by apply fmap_Permutation, filter_perm.
    + rewrite <- freed_blocks. by apply fmap_Permutation, filter_perm.
    + intros c. rewrite <- (dead_periods_covered F protcno). rewrite (proj2 (unified_spec _)).
      apply covered_perm. unfold dead_periods. by apply fmap_Permutation, filter_perm, filter_perm.
    + rewrite <- kept_dat_blocks. apply fmap_Permutation, filter_perm, fmap_Permutation, qsort_perm.
  - apply Forall_forall. intros v Hin. rewrite elem_of_qsort in Hin.
    apply list_elem_of_filter in Hin as [_ Hin]. by apply list_elem_of_fmap in Hin as (w & -> & _).
  - apply unified_spec.
Qed.
End Assessed.

(** ** The whole function *)

(** What the statistics say of the blocks described by the cleaned segments. *)
Record stat_ok (F : fs) (protseq protcno : Z) (sel : list Z) (st : nilfs_reclaim_stat) : Prop := {
  so_segs : rs_protected_segs st = u64 (Z.of_nat (length sel) - rs_cleaned_segs st);
  so_blocks : exists dn out cs, dn ++ out ≡ₚ sel /\ Forall (not_collected F protseq) out /\
    Forall2 (collects F protseq) dn cs /\ rs_cleaned_segs st = Z.of_nat (length dn) /\
    (dn <> [] -> let '(vs, bs) := join_contents cs in
     rs_live_vblks st = Z.of_nat (length (filter (in_use F protcno) vs)) /\
     rs_freed_vblks st = Z.of_nat (length (filter (fun v => ~ in_use F protcno v) vs)) /\
     rs_defunct_vblks st = rs_freed_vblks st /\
     rs_live_pblks st = Z.of_nat (length (filter (in_place F) bs)) /\
     rs_defunct_pblks st = Z.of_nat (length bs) - rs_live_pblks st /\
     rs_live_blks st = rs_live_vblks st + rs_live_pblks st);
}.

Lemma filter_split_length {A} (P : A -> Prop) `{forall x, Decision (P x)} (l : list A) :
  (length (filter P l) + length (filter (fun x => ~ P x) l))%nat = length l.
Proof.
  induction l as [|x l IH]; [done|]. rewrite !filter_cons. repeat case_decide; simpl; try tauto; lia.
Qed.

Section Counts.
Context (F : fs) (protcno : Z).

Lemma live_count cmp vds : length (filter (vdesc_live protcno (fs_snaps F)) (dated F <$> qsort cmp vds)) =
  length (filter (in_use F protcno) (fields <$> vds)).
Proof.
  rewrite <- (length_fmap fields), moved_blocks. by apply Permutation_length, filter_perm, fmap_Permutation, qsort_perm.
Qed.

Lemma dead_count cmp vds :
  length (filter (fun v => ~ vdesc_live protcno (fs_snaps F) v) (dated F <$> qsort cmp vds)) =
  length (filter (fun v => ~ in_use F protcno v) (fields <$> vds)).
Proof.
  rewrite <- (length_fmap vd_vblocknr), freed_blocks, length_fmap.
  by apply Permutation_length, filter_perm, fmap_Permutation, qsort_perm.
Qed.

Lemma in_place_count cmp bds :
  length (filter (fun b => nilfs_bdesc_is_live b = true) (located F <$> qsort cmp bds)) =
  length (filter (in_place F) (bfields <$> bds)).
Proof.
  rewrite <- (length_fmap bfields), kept_dat_blocks. by apply Permutation_length, filter_perm, fmap_Permutation, qsort_perm.
Qed.
End Counts.

Lemma assessed_stat F protseq protcno sel tail dn out a bps st : fs_wf F ->
  collection F protseq sel tail dn out a -> Z.of_nat (length sel) <= 2 ^ 12 ->
  gv_stat a = Some st ->
  exists st', gv_stat (assessed F protcno (Z.of_nat (length dn)) (Z.of_nat (length sel)) bps a) = Some st' /\
    stat_ok F protseq protcno sel st'.
Proof.
  intros Hwf Hco Hsel Hst. unfold assessed, judged. simpl. rewrite Hst. simpl. eexists. split; [done|].
  destruct (collection_size F Hwf protseq sel tail dn out a Hco Hsel) as [Hsz _].
  destruct Hco as [Hperm _ Hout (cs & Hcs & Hv & Hb) [_ Hn]].
  split; [done|]. exists dn, out, cs. split_and!; try done. intros _.
  destruct (join_contents cs) as [vs bs]. simpl in Hv, Hb. subst vs bs. rewrite Hn. simpl.
  rewrite length_fmap, live_count, dead_count, in_place_count, !length_fmap, !qsort_length.
  pose proof (filter_split_length (in_use F protcno) (fields <$> gv_vdescs a)) as H1.
  pose proof (filter_length_le (in_place F) (bfields <$> gv_bdescs a)) as H2.
  rewrite length_fmap in H1. rewrite length_fmap in H2.
  change (2 ^ 31) with 2147483648 in *.
  split_and!; try done; rewrite ?u64_id by (unfold_words; lia); lia.
Qed.

Section Main.
Context {W : Type} {K : Kernel W} {J : Junk}.
Context {fs_of : W -> fs} {requests : W -> list clean_request} {locked : W -> bool}.
Context {L : FsLaws K fs_of requests locked}.
Existing Instance fl_quiet.

(** The file system may receive the request of the theorems below. *)
Record ready (g : gcs W) (sel tail : list Z) : Prop := {
  re_nilfs : nilfs_ok (fs_of (s_world (g_sys g))) (s_nilfs (g_sys g));
  re_lock : locked (s_world (g_sys g)) = false;
  re_segnums : g_segnums g = sel ++ tail;
  re_range : Forall (fun n => 0 <= n) sel;
  re_count : Z.of_nat (length sel) <= 2 ^ 12;
}.

(** After a run from [g]: the lock is free, and [made] was requested. *)
Definition requested (g : gcs W) (made : list clean_request) (g' : gcs W) : Prop :=
  locked (s_world (g_sys g')) = false /\ requests (s_world (g_sys g')) = requests (s_world (g_sys g)) ++ made.

Section Run.
Context (g0 : gcs W) (sel tail : list Z) (Hr : ready g0 sel tail) (dryrun : bool) (params : nilfs_reclaim_params).
Abbreviation F := (fs_of (s_world (g_sys g0))).
Abbreviation rq := (requests (s_world (g_sys g0))).

(** The requests a run may make. *)
Definition may_request (made : list clean_request) : Prop :=
  made = [] \/ dryrun = false /\ exists r, made = [r] /\ request_ok F (rp_protseq params) (protcno_of params) sel r.

(** The statistics of a run that succeeds. *)
Definition stat_after (g : gcs W) : Prop :=
  forall st, g_stat g0 = Some st -> dryrun = true ->
    exists st', g_stat g = Some st' /\ stat_ok F (rp_protseq params) (protcno_of params) sel st'.

(** A run that succeeds without a request has a reason: it was a dry run, it
    was cut short, or none of the segments was to be collected. *)
Definition complete (made : list clean_request) : Prop :=
  made = [] -> dryrun = true \/ may_skip (W := W) params \/ Forall (not_collected F (rp_protseq params)) sel.

(** The segments counted as cleaned are at the start of the array. *)
Definition counts (g : gcs W) : Prop :=
  exists dn out, dn ++ out ≡ₚ sel /\ g_segnums g = dn ++ out ++ tail /\
    bounded (Z.of_nat (length dn)) (g_stat g).

(** While the lock is held ([lk]), and after. *)
Definition ends (lk : bool) (Q : list clean_request -> gcs W -> Prop) (g : gcs W) : Prop :=
  exists made, settled (fs_of := fs_of) (requests := requests) (locked := locked) F rq lk made g /\ may_request made /\ Q made g.

Lemma collection_counts dn out a b g : collection F (rp_protseq params) sel tail dn out a ->
  gv_segnums b = gv_segnums a -> counted (length dn) b g -> counts g.
Proof using. intros Hco Hb [Hs Hbd]. exists dn, out. rewrite Hs, Hb. by destruct Hco. Qed.

Abbreviation success := (fun made g => complete made /\ stat_after g /\ counts g).

Lemma locked_part_wp g :
  holds (fs_of := fs_of) (requests := requests) (locked := locked) F rq true (fresh (g_stat g0) (sel ++ tail)) g ->
  wp (reclaim_locked (Z.of_nat (length sel)) dryrun params) (fun _ => ends true success)
    (fun _ => ends true (fun _ _ => True)) g.
Proof using L Hr.
  intros Hg. pose proof (fl_wf (s_world (g_sys g0))) as Hwf. destruct Hr as [Hn Hl Hs Hsel Hcount].
  assert (Hquiet : forall (Q : _ -> _ -> Prop) g', ok (fs_of := fs_of) (requests := requests) (locked := locked) F rq true (g_sys g') ->
    Q [] g' -> ends true Q g').
  { intros Q g' Hok HQ. exists []. split_and!; [by eapply ok_settled|by left|done]. }
  apply (reclaim_locked_wp F Hwf rq true dryrun params sel tail (g_stat g0)); [done|done| | |].
  - intros e g' Hok. by apply Hquiet.
  - intros out a g' Hco Hst H. apply Hquiet; [apply H|].
    assert (counts g').
    { eapply collection_counts; [exact Hco| |apply (holds_counted _ _ _ 0 _ _ H)]; [done|].
      simpl. by destruct (gv_stat a). }
    destruct H as (_ & _ & Hst' & _). destruct Hco as [Hperm _ Hout (cs & Hcs & _) _]. split_and!; [| |done].
    { intros _. right; right. by rewrite <- Hperm. }
    intros st Hst0 _. rewrite Hst'. simpl. rewrite Hst, Hst0. simpl. eexists. split; [done|]. split; [done|].
    by exists [], out, cs.
  - intros dn out a bps g' Hco Hst Hdn b H.
    pose proof (assessed_small F Hwf _ (protcno_of params) _ _ _ _ _ Hco (Z.of_nat (length dn)) (Z.of_nat (length sel)) bps Hcount) as Hsmall.
    pose proof (assessed_request F _ (protcno_of params) _ _ _ _ _ Hco (Z.of_nat (length dn)) (Z.of_nat (length sel)) bps) as Hreq.
    fold b in Hsmall, Hreq.
    destruct (assessed_lists F _ (protcno_of params) _ _ _ _ _ Hco (Z.of_nat (length dn)) (Z.of_nat (length sel)) bps) as (Hsg & _).
    assert (Hbd : bounded (Z.of_nat (length dn)) (gv_stat b)) by (unfold b; simpl; destruct (gv_stat a); simpl; [lia|done]).
    destruct dryrun eqn:Hdry.
    + wp_step. apply Hquiet; [apply H|]. split_and!; [by left| |].
      2:{ eapply collection_counts; [exact Hco|exact Hsg|by eapply holds_counted]. }
      intros st Hst0 _.
      destruct (assessed_stat F _ (protcno_of params) _ _ _ _ _ bps st Hwf Hco Hcount ltac:(by rewrite Hst)) as (st' & Hst' & Hok).
      destruct H as (_ & _ & -> & _). eauto.
    + assert (Hmade : may_request [request_of (length dn) b]) by (right; rewrite Hdry; eauto).
      eapply wp_mono; [apply (commit_wp F rq true params b); [exact H|exact Hsmall| |exact Hbd]| |].
      * unfold b. rewrite Hsg, (co_segnums _ _ _ _ _ _ _ Hco), !length_app. lia.
      * intros [] g1 [H1 Hct]. assert (stat_after g1) by (intros st _ Hd; by rewrite Hdry in Hd).
        assert (counts g1) by (eapply collection_counts; [exact Hco|exact Hsg|exact Hct]).
        destruct H1 as [H1|[H1 Hskip]]; eexists; (split; [exact H1|]); split_and!; try done; [by left|]. right; by left.
      * intros e g1 H1. destruct H1 as [H1|H1]; eexists; (split; [exact H1|]); split_and!; done || by left.
Qed.

(** All of [nilfs_xreclaim_segment]. *)
Lemma xreclaim_wp :
  wp (nilfs_xreclaim_segment (Z.of_nat (length sel)) dryrun params)
    (fun _ => ends false (fun made g => params_ok params = true -> sel <> [] -> success made g))
    (fun _ => ends false (fun _ _ => True)) g0.
Proof using L Hr.
  pose proof Hr as [Hn Hl Hs Hsel Hcount].
  assert (Hok0 : ok (fs_of := fs_of) (requests := requests) (locked := locked) F rq false (g_sys g0)).
  { split; [by rewrite Hl|done]. }
  assert (Hquiet : forall (Q : _ -> _ -> Prop) g', ok (fs_of := fs_of) (requests := requests) (locked := locked) F rq false (g_sys g') ->
    Q [] g' -> ends false Q g').
  { intros Q g' Hok HQ. exists []. split_and!; [by eapply ok_settled|by left|done]. }
  unfold nilfs_xreclaim_segment. destruct (params_ok params) eqn:Hp; cbn [negb]; [|wp_step; by apply Hquiet].
  destruct (Z.eqb_spec (Z.of_nat (length sel)) 0) as [Hz|Hz].
  { wp_step. apply Hquiet; [done|]. intros _ Hne. destruct sel; [done|simpl in Hz; lia]. }
  eapply wp_seq; [by apply (create_vectors_wp F rq false)| |intros e g' Hok; by apply Hquiet].
  intros [] g1 H1. rewrite Hs in H1.
  wp_step. eapply wp_call; [apply (stable_os (fs_of := fs_of) (requests := requests) (locked := locked) F rq false _ (fun _ => True)); [|done]|apply H1| |].
  { intros w. destruct (fl_block w) as (-> & -> & ->). done. }
  2:{ intros e s Hok. by apply Hquiet. }
  intros _ s _ Hok. apply wp_finally.
  enough (Hlock : wp (call (nilfs_lock 0) ;; finally (reclaim_locked (Z.of_nat (length sel)) dryrun params) unlock_or_exit)
    (fun _ => ends false success) (fun _ => ends false (fun _ _ => True)) (with_sys g1 s)).
  { eapply wp_mono; [exact Hlock| |].
    - intros [] g2 (made & H2 & Hm & HQ). eapply restore_wp; [exact H2|]. intros s2 Hs2. exists made. exact (conj Hs2 (conj Hm (fun _ _ => HQ))).
    - intros e g2 (made & H2 & Hm & _). eapply restore_wp; [exact H2|]. intros s2 Hs2. exists made. by split_and!. }
  wp_step. apply (lock_wp (fs_of := fs_of) (requests := requests) (locked := locked) F rq); [done| |intros e s2 Hs2; by apply Hquiet].
  intros s2 Hs2. apply wp_finally. eapply wp_mono; [apply locked_part_wp| |].
  - destruct H1 as [_ H1]. by split.
  - intros [] g2 (made & H2 & Hm & HQ). eapply unlock_wp; [exact H2|]. intros s3 Hs3. exists made. exact (conj Hs3 (conj Hm HQ)).
  - intros e g2 (made & H2 & Hm & _). eapply unlock_wp; [exact H2|]. intros s3 Hs3. exists made. by split_and!.
Qed.
End Run.

(** The library is ready for a reclaim, whatever the list of segments. *)
Definition idle (g : gcs W) : Prop :=
  nilfs_ok (fs_of (s_world (g_sys g))) (s_nilfs (g_sys g)) /\ locked (s_world (g_sys g)) = false.

(** [nilfs_reclaim_segment] for its callers: it ends, the library is ready for
    the next one, and the first of the segments were cleaned, as many as the
    result says. *)
Lemma reclaim_segment_wp (g : gcs W) sel protseq protcno : idle g -> g_segnums g = sel -> sel <> [] ->
  Forall (fun n => 0 <= n) sel -> Z.of_nat (length sel) <= 2 ^ 12 ->
  let sb g := fs_sb (fs_of (s_world (g_sys g))) in
  wp (nilfs_reclaim_segment (Z.of_nat (length sel)) protseq protcno)
    (fun n g' => idle g' /\ sb g' = sb g /\ 0 <= n <= Z.of_nat (length sel) /\ g_segnums g' ≡ₚ sel)
    (fun _ g' => idle g' /\ sb g' = sb g) g.
Proof using L.
  intros [Hn Hl] Hsel Hne Hpos Hlen sb. unfold nilfs_reclaim_segment. wp_step. wp_step.
  set (g1 := with_stat g _).
  assert (Hr : ready g1 sel []) by (split; try done; by rewrite app_nil_r).
  eapply wp_seq; [apply (xreclaim_wp g1 sel [] Hr)| |].
  - intros [] g2 (made & (H1 & H2 & H3 & H4) & _ & HQ). wp_step. wp_step. wp_step.
    set (params := mk_params _ _ _ _) in HQ. assert (Hp : params_ok params = true) by done.
    destruct (HQ Hp Hne) as (_ & _ & dn & out & Hperm & Hseg & Hbd). rewrite app_nil_r in Hseg.
    assert (length dn <= length sel)%nat by (rewrite <- Hperm, length_app; lia).
    assert (Hidle : idle g2) by (split; [unfold nilfs_ok in *; by rewrite H4|done]).
    split_and!; [done|done| | |by rewrite Hseg].
    + destruct (g_stat g2) as [st|]; simpl in Hbd; change (2 ^ 12) with 4096 in *; word_lia.
    + destruct (g_stat g2) as [st|]; simpl in Hbd; change (2 ^ 12) with 4096 in *; word_lia.
  - intros e g2 (made & (H1 & H2 & H3 & H4) & _). split; [|done]. split; [unfold nilfs_ok in *; by rewrite H4|done].
Qed.

(** C33: on a file system that answers as documented, whatever the segments
    hold, [nilfs_xreclaim_segment] ends and never accesses memory outside of
    an object; the lock is free afterwards and at most one request was made.
    That request names selected segments only; of the blocks their logs
    describe it moves those in use by the protected checkpoints or by a
    snapshot and frees all others, and it gives up exactly the periods of the
    latter.  A run that succeeds without a request was a dry run, was cut
    short by a signal or by the minimum of reclaimable blocks, or had nothing
    to collect. *)
Theorem xreclaim_requests (g : gcs W) sel tail dryrun params : ready g sel tail ->
  let F := fs_of (s_world (g_sys g)) in
  exists made,
    match nilfs_xreclaim_segment (Z.of_nat (length sel)) dryrun params g with
    | (Ok _, g') => requested g made g' /\
        (params_ok params = true -> made = [] -> sel = [] \/ dryrun = true \/ may_skip (W := W) params \/
           Forall (not_collected F (rp_protseq params)) sel)
    | (Err _, g') => requested g made g'
    | _ => False
    end /\
    (made = [] \/ dryrun = false /\
       exists r, made = [r] /\ request_ok F (rp_protseq params) (protcno_of params) sel r).
Proof using L.
  intros Hr F. pose proof (xreclaim_wp g sel tail Hr dryrun params) as Hwp. unfold wp in Hwp.
  destruct (nilfs_xreclaim_segment _ dryrun params g) as [[u|e| | |] g']; try done;
    destruct Hwp as (made & (_ & Hreq & Hl & _) & Hm & HQ); exists made; (split; [|exact Hm]); [|done].
  split; [done|]. intros Hp Hnil. destruct (decide (sel = [])); [by left|]. right. by apply HQ.
Qed.

(** C34: a dry run that succeeds leaves in the caller's structure the true
    counts: how many segments would be cleaned and how many are protected,
    and how many of the blocks described by the former are in use and how
    many are not, for virtual blocks and for blocks of the DAT. *)
Theorem dryrun_counts (g : gcs W) sel tail params st : ready g sel tail ->
  params_ok params = true -> sel <> [] -> g_stat g = Some st ->
  match nilfs_xreclaim_segment (Z.of_nat (length sel)) true params g with
  | (Ok _, g') => exists st', g_stat g' = Some st' /\
      stat_ok (fs_of (s_world (g_sys g))) (rp_protseq params) (protcno_of params) sel st'
  | (Err _, _) => True
  | _ => False
  end.
Proof using L.
  intros Hr Hp Hne Hst. pose proof (xreclaim_wp g sel tail Hr true params) as Hwp. unfold wp in Hwp.
  destruct (nilfs_xreclaim_segment _ true params g) as [[u|e| | |] g']; try done.
  destruct Hwp as (made & _ & _ & HQ). destruct (HQ Hp Hne) as (_ & Hstat & _).
  exact (Hstat st Hst eq_refl).
Qed.
End Main.
