(* ===== verification/ResizeSpec.v ===== *)
(** * What resizing a file system does to it

    The protocol between the tool of [Resize] and the kernel.  The kernel
    keeps a record of the two control operations ([control]); everything else
    the tool does, moving segments and forcing updates included, leaves that
    record alone, ends, and leaves the library ready for the next call. *)

From Stdlib Require Import String.
From S2P Require Import Prelude Vector Hoare Ondisk Sb Kernel Nilfs Segment Gc Resize GcProtocol FileSystem Collect Reclaim ReclaimSpec.

(** A reclaim keeps an observation that no operation it uses changes. *)
Class QuietClean {W O : Type} (K : Kernel W) (obs : W -> O) : Prop := {
  qc_queries : Quiet K obs;
  qc_sync : QuietSync K obs;
  qc_clean : forall fd a b c d e w, obs (ioc_clean_segments fd a b c d e w).2 = obs w;
  qc_set : forall fd l w, obs (ioc_set_suinfo fd l w).2 = obs w;
}.

Section KeepsReclaim.
Context {W O : Type} {K : Kernel W} {J : Junk} (obs : W -> O) {Q : QuietClean K obs}.
Existing Instances qc_queries qc_sync.
Abbreviation keeps_g := (keeps obs (fun g : gcs W => s_world (g_sys g))).

Lemma keeps_reclaim_locked nsegs dryrun params : keeps_g (reclaim_locked nsegs dryrun params).
Proof using Q.
  intros g. apply (stays_reclaim_locked obs); [|done]. intros _ n r. apply stays_commit; [apply Q| |].
  - intros a b c d e. apply stays_keeps, keeps_call. unfold nilfs_clean_segments.
    apply keeps_with_iocfd; intros fd. apply keeps_os. intros; apply qc_clean.
  - intros l m. apply stays_keeps, keeps_call. unfold nilfs_set_suinfo.
    apply keeps_with_iocfd; intros fd. apply keeps_os. intros; apply qc_set.
Qed.

Lemma keeps_reclaim_segment nsegs protseq protcno : keeps_g (nilfs_reclaim_segment nsegs protseq protcno).
Proof using Q.
  unfold nilfs_reclaim_segment. apply keeps_bind; [by apply keeps_modify|intros _].
  apply keeps_bind; [|intros _; keep]. unfold nilfs_xreclaim_segment.
  case_match; [apply keeps_fail|]. case_match; [apply keeps_ret|].
  apply keeps_bind; [apply (keeps_create_vectors obs)|intros _].
  apply keeps_bind; [apply keeps_call, keeps_os, Q|intros _].
  apply keeps_finally; [|apply keeps_modify; intros; apply Q].
  apply keeps_bind; [apply keeps_call, keeps_sem, Q|intros _].
  apply keeps_finally; [apply keeps_reclaim_locked|].
  unfold unlock_or_exit. apply keeps_bind; [apply keeps_attempt, keeps_call, keeps_sem, Q|].
  intros [|]; done.
Qed.
End KeepsReclaim.

(** What the kernel records: a change of the range of allocation, and an
    attempt to change the size, with the state of the cleaner lock and the
    error. *)
Inductive control :=
| SetRange (lo hi : Z) (ok : bool)
| Cut (size : Z) (held : bool) (error : option Z).

Definition error_of {A} (r : A + Z) : option Z := match r with inl _ => None | inr e => Some e end.

(** What of the world matters here: the superblock the file system was mounted
    with, the lock, and the record. *)
Definition view {W : Type} (fs_of : W -> fs) (locked : W -> bool) (ctl : W -> list control) (w : W)
    : list Z * bool * list control := (fs_sb (fs_of w), locked w, ctl w).

(** The laws of the operations that only this tool uses. *)
Class ResizeLaws {W : Type} (K : Kernel W) (T : ResizeEnv W) (fs_of : W -> fs) (locked : W -> bool)
    (ctl : W -> list control) : Prop := {
  rl_quiet : QuietClean K ctl;
  rl_suinfo : forall fd n i w r w', 0 <= n -> ioc_get_suinfo fd n i w = (inl r, w') ->
    Z.of_nat (length r) <= n /\ forall k si, r !! k = Some si -> si = fs_sui (fs_of w) (i + Z.of_nat k);
  rl_sustat : forall fd w s w', ioc_get_sustat fd w = (inl s, w') ->
    0 <= ss_ncleansegs s <= ss_nsegs s /\ ss_nsegs s < 2 ^ 49;
  rl_sync : forall fd w c w', ioc_sync fd w = (inl c, w') -> 0 <= c < 2 ^ 64 - 1;
  rl_read : forall fd n w l w', 0 <= n -> e_read fd n w = (inl l, w') -> Z.of_nat (length l) <= n;
  rl_write : forall fd l w n w', e_write fd l w = (inl n, w') -> l <> [] -> 1 <= n <= Z.of_nat (length l);
  (** None of these changes what is seen of the world. *)
  v_sustat : forall fd w, view fs_of locked ctl (ioc_get_sustat fd w).2 = view fs_of locked ctl w;
  v_sync : forall fd w, view fs_of locked ctl (ioc_sync fd w).2 = view fs_of locked ctl w;
  v_freeze : forall fd w, view fs_of locked ctl (ioc_freeze fd w).2 = view fs_of locked ctl w;
  v_thaw : forall fd w, view fs_of locked ctl (ioc_thaw fd w).2 = view fs_of locked ctl w;
  v_delete : forall fd c w, view fs_of locked ctl (ioc_delete_checkpoint fd c w).2 = view fs_of locked ctl w;
  v_nanosleep : forall t w, view fs_of locked ctl (e_nanosleep t w) = view fs_of locked ctl w;
  v_getchar : forall w, view fs_of locked ctl (e_getchar w).2 = view fs_of locked ctl w;
  v_open : forall p w, view fs_of locked ctl (e_open p w).2 = view fs_of locked ctl w;
  v_openat : forall d p w, view fs_of locked ctl (e_openat d p w).2 = view fs_of locked ctl w;
  v_unlinkat : forall d p w, view fs_of locked ctl (e_unlinkat d p w).2 = view fs_of locked ctl w;
  v_read : forall fd n w, view fs_of locked ctl (e_read fd n w).2 = view fs_of locked ctl w;
  v_write : forall fd l w, view fs_of locked ctl (e_write fd l w).2 = view fs_of locked ctl w;
  v_close : forall fd w, view fs_of locked ctl (e_close fd w) = view fs_of locked ctl w;
  v_rand : forall w, view fs_of locked ctl (e_rand w).2 = view fs_of locked ctl w;
  rl_range : forall fd lo hi w r w', ioc_set_alloc_range fd lo hi w = (r, w') ->
    fs_sb (fs_of w') = fs_sb (fs_of w) /\ locked w' = locked w /\
    ctl w' = ctl w ++ [SetRange lo hi (match r with inl _ => true | inr _ => false end)];
  rl_resize : forall fd size w r w', ioc_resize fd size w = (r, w') ->
    fs_sb (fs_of w') = fs_sb (fs_of w) /\ locked w' = locked w /\
    ctl w' = ctl w ++ [Cut size (locked w) (error_of r)];
}.

(** Whether the last query of the segment statistics failed. *)
Class StatRecord {W : Type} (K : Kernel W) (unread : W -> bool) : Prop :=
  sr_sustat : forall fd w r w', ioc_get_sustat fd w = (r, w') ->
    unread w' = match r with inl _ => false | inr _ => true end.

(** A segment that is being written is not full: the tool asserts that the
    active segments it finds, at most two, hold fewer blocks than two segments
    can (nilfs-resize.c:1161). *)
Definition active_have_room {W : Type} (fs_of : W -> fs) : Prop :=
  forall w i, nilfs_suinfo_active (fs_sui (fs_of w) i) = true ->
    sui_nblocks (fs_sui (fs_of w) i) < sb_get (fs_sb (fs_of w)) s_blocks_per_segment.

(** The layout that [nilfs_get_layout] reports. *)
Definition layout_of (sb : list Z) : nilfs_layout := {|
  lo_rev_level := sb_get sb s_rev_level; lo_minor_rev_level := sb_get sb s_minor_rev_level;
  lo_flags := sb_get sb s_flags; lo_blocksize_bits := sb_get sb s_log_block_size + 10;
  lo_blocksize := 2 ^ (sb_get sb s_log_block_size + 10); lo_devsize := sb_get sb s_dev_size;
  lo_crc_seed := sb_get sb s_crc_seed; lo_nsegments := sb_get sb s_nsegments;
  lo_blocks_per_segment := sb_get sb s_blocks_per_segment;
  lo_reserved_segments_ratio := sb_get sb s_r_segments_percentage;
  lo_first_segment_blkoff := sb_get sb s_first_data_block; lo_feature_compat := sb_get sb s_feature_compat;
  lo_feature_compat_ro := sb_get sb s_feature_compat_ro; lo_feature_incompat := sb_get sb s_feature_incompat;
|}.

(** The progress meter: the cursor is inside of the bar, and the maximum is
    not zero. *)
Definition pm_ok (p : progress) : Prop :=
  pm_in_progress p = 0 \/
  pm_barwidth p = 47 /\ 0 <= pm_curpos p <= 47 /\ 1 <= pm_max p < 2 ^ 50.

(** ** The protocol *)

(** The attempts to cut the device off at [newsize], of which [n] are left,
    and how the loop over them ends.  Each is made with the lock held; only
    EBUSY leads to another. *)
Inductive attempts (newsize : Z) : nat -> list control -> shrink_end -> Prop :=
| at_shrunk n : attempts newsize (Datatypes.S n) [Cut newsize true None] Shrunk
| at_error n e : e <> EBUSY -> attempts newsize (Datatypes.S n) [Cut newsize true (Some e)] RestoreRange
| at_stop n : attempts newsize (Datatypes.S n) [] RestoreRange
| at_busy n : attempts newsize (Datatypes.S n) [Cut newsize true (Some EBUSY)] RestoreRange
| at_retry n tr e : attempts newsize n tr e ->
    attempts newsize (Datatypes.S n) (Cut newsize true (Some EBUSY) :: tr) e
| at_end : attempts newsize 0 [] GaveUp.

(** After the range of allocation has been limited.  The range is set back
    unless the statistics, which are read first, are refused: [blind]. *)
Definition shrunk (devsize newsize : Z) (blind : Prop) (tr : list control) (status : Z) : Prop :=
  exists cuts e restore, tr = cuts ++ restore /\ attempts newsize 4 cuts e /\
    (status = EXIT_SUCCESS <-> e = Shrunk) /\
    match e with
    | RestoreRange => (restore = [] /\ blind) \/ exists ok, restore = [SetRange 0 devsize ok]
    | _ => restore = []
    end.

(** What the tool asks of the kernel for a device of [devsize] bytes, and the
    exit status. *)
Definition protocol (devsize newsize : Z) (blind : Prop) (tr : list control) (status : Z) : Prop :=
  tr = [] /\ (status = EXIT_SUCCESS -> newsize = devsize) \/
  devsize < newsize /\ (exists e, tr = [Cut newsize true e] /\ (status = EXIT_SUCCESS <-> e = None)) \/
  newsize < devsize /\
    (tr = [SetRange 0 newsize false] /\ status = EXIT_FAILURE \/
     exists tr', tr = SetRange 0 newsize true :: tr' /\ shrunk devsize newsize blind tr' status).

(** A range of segments to search. *)
Definition range_ok (start end_ : Z) : Prop := 0 <= start <= end_ /\ end_ < 2 ^ 49.

(** Numbers that may be found: from [start] on, and at most one batch beyond
    the end. *)
Definition found_ok (start end_ maxsegs : Z) (v : list Z) : Prop :=
  Forall (fun n => start <= n <= end_ + 256) v /\ Z.of_nat (length v) <= maxsegs.

Lemma range_size start end_ : range_ok start end_ ->
  u64 (end_ - start + 1) = end_ - start + 1 /\ 1 <= end_ - start + 1 < 2 ^ 64.
Proof.
  intros [H1 H2]. change (2 ^ 49) with 562949953421312 in H2.
  split; [apply u64_id; unfold_words|change (2 ^ 64) with 18446744073709551616]; lia.
Qed.

(** What the caller of a search does with the numbers found. *)
Lemma found_last start end_ m v l : range_ok start end_ -> found_ok start end_ m v -> last v = Some l ->
  Forall (fun n => 0 <= n) v /\ start <= l /\ u64 (l + 1) = l + 1.
Proof.
  intros [H1 H2] [Hv _] Hl. change (2 ^ 49) with 562949953421312 in H2.
  assert (start <= l <= end_ + 256).
  { apply last_Some in Hl as [v' ->]. apply Forall_app in Hv as [_ Hv]. by apply Forall_cons in Hv as [Hv _]. }
  split_and!; [|lia|apply u64_id; unfold_words; lia]. eapply Forall_impl; [exact Hv|]. simpl. lia.
Qed.

(** The new position of the cursor. *)
Lemma bar_position done max : 0 <= done -> 1 <= max < 2 ^ 50 -> 0 <= i32 (u64 (47 * Z.min done max) / max) <= 47.
Proof.
  intros Hd Hm. change (2 ^ 50) with 1125899906842624 in Hm.
  rewrite u64_id by (unfold_words; lia).
  assert (0 <= 47 * Z.min done max / max <= 47).
  { split; [apply Z.div_pos; lia|]. apply Z.div_le_upper_bound; nia. }
  unfold i32. rewrite Z.mod_small; unfold_words; lia.
Qed.

Section Resize.
Context {W : Type} {K : Kernel W} {J : Junk} {T : ResizeEnv W}.
Context {fs_of : W -> fs} {requests : W -> list clean_request} {locked : W -> bool} {ctl : W -> list control}.
Context {L : FsLaws K fs_of requests locked} {RL : ResizeLaws K T fs_of locked ctl}.
Context {unread : W -> bool} {SR : StatRecord K unread} (Hroom : active_have_room fs_of).
Context (sb : list Z) (Hg : geometry_ok sb) (Hbps : NILFS_SEG_MIN_BLOCKS <= sb_get sb s_blocks_per_segment).
Context (verbose assume_yes : bool).
Existing Instances fl_quiet rl_quiet qc_queries.
Abbreviation R := (M (rs W)).
Abbreviation world x := (s_world (g_sys (r_lib x))).

(** The world, as far as it matters here, and the nilfs object. *)
Definition lib_ok (lk : bool) (c : list control) (s : sys W) : Prop :=
  fs_sb (fs_of (s_world s)) = sb /\ n_sb (s_nilfs s) = Some sb /\ n_sem (s_nilfs s) = true /\
  locked (s_world s) = lk /\ ctl (s_world s) = c.

Definition vars_ok (x : rs W) : Prop :=
  r_layout x = layout_of sb /\ pm_ok (r_pm x) /\
  0 <= ss_ncleansegs (r_sustat x) <= ss_nsegs (r_sustat x) /\ ss_nsegs (r_sustat x) < 2 ^ 49.

Definition inv (lk : bool) (c : list control) (x : rs W) : Prop := lib_ok lk c (g_sys (r_lib x)) /\ vars_ok x.

(** A computation that keeps the invariant, with the values it can return.
    It may fail. *)
Definition safe (lk : bool) (c : list control) {A} (m : R A) (P : A -> Prop) : Prop :=
  forall x, inv lk c x -> wp m (fun a x' => P a /\ inv lk c x') (fun _ => inv lk c) x.

Section Safe.
Context (lk : bool) (c : list control).
Abbreviation safe := (safe lk c).

Lemma rsafe_ret {A} (a : A) (P : A -> Prop) : P a -> safe (ret a) P.
Proof using. by intros ? x ?. Qed.
Lemma safe_failed {A} (P : A -> Prop) : safe failed P.
Proof using. by intros x ?. Qed.
Lemma rsafe_bind {A B} (m : R A) (k : A -> R B) P P' :
  safe m P -> (forall a, P a -> safe (k a) P') -> safe (bind m k) P'.
Proof using.
  intros Hm Hk x Hx. eapply wp_seq; [by apply Hm| |done]. intros a x' [Ha Hx']. by apply (Hk a Ha).
Qed.
Lemma rsafe_attempt {A} (m : R A) (P : A -> Prop) :
  safe m P -> safe (attempt m) (fun r => match r with inl a => P a | inr _ => True end).
Proof using. intros Hm x Hx. apply wp_attempt. eapply wp_mono; [by apply Hm| |]; simpl; tauto. Qed.
Lemma safe_impl {A} (m : R A) (P P' : A -> Prop) : safe m P -> (forall a, P a -> P' a) -> safe m P'.
Proof using. intros Hm Hp x Hx. eapply wp_mono; [by apply Hm| |done]. intros a x' []; eauto. Qed.
Lemma safe_gets {A} (f : rs W -> A) (P : A -> Prop) : (forall x, vars_ok x -> P (f x)) -> safe (gets f) P.
Proof using. intros Hp x Hx. wp_step. split; [apply Hp, Hx|done]. Qed.
Lemma safe_modify f : (forall x, vars_ok x -> r_lib (f x) = r_lib x /\ vars_ok (f x)) -> safe (modify f) (fun _ => True).
Proof using.
  intros Hf x [Hl Hv]. wp_step. destruct (Hf x Hv) as [He Hv']. split; [done|]. unfold inv. by rewrite He.
Qed.
Lemma rsafe_of_option {A} (o : option A) a (P : A -> Prop) : o = Some a -> P a -> safe (of_option o) P.
Proof using. by intros -> ? x ?. Qed.
Lemma safe_ignore {A} (m : R A) (P : A -> Prop) : safe m P -> safe (ignore m) (fun _ => True).
Proof using.
  intros Hm. unfold ignore. eapply rsafe_bind; [by apply rsafe_attempt|]. intros; by apply rsafe_ret.
Qed.

(** ** Calls *)

Lemma safe_libs {A} (m : M (sys W) A) (P : A -> Prop) :
  (forall s, lib_ok lk c s -> wp m (fun a s' => P a /\ lib_ok lk c s') (fun _ => lib_ok lk c) s) -> safe (libs m) P.
Proof using.
  intros Hm x [Hl Hv]. specialize (Hm _ Hl). unfold wp, libs, lib, call in *.
  destruct (m (g_sys (r_lib x))) as [[] s]; try done; unfold inv; simpl; tauto.
Qed.

Lemma lib_ok_view s w : view fs_of locked ctl w = view fs_of locked ctl (s_world s) -> lib_ok lk c s ->
  lib_ok lk c (mk_sys (s_nilfs s) w).
Proof using. unfold view. intros [= H1 H2 H3]. unfold lib_ok. simpl. by rewrite H1, H2, H3. Qed.

Lemma safe_env {A} (f : W -> A * W) (P : A -> Prop) :
  (forall w, view fs_of locked ctl (f w).2 = view fs_of locked ctl w) -> (forall w a w', f w = (a, w') -> P a) ->
  safe (env f) P.
Proof using.
  intros Hv Hp. apply safe_libs. intros s Hs. unfold wp. specialize (Hv (s_world s)). specialize (Hp (s_world s)).
  destruct (f (s_world s)) as [a w]. split; [by eapply Hp|by apply lib_ok_view].
Qed.

Lemma safe_env_tt (f : W -> W) : (forall w, view fs_of locked ctl (f w) = view fs_of locked ctl w) ->
  safe (env_tt f) (fun _ => True).
Proof using. intros Hv. by apply safe_env. Qed.

Lemma os_ok {A} (f : W -> (A + Z) * W) (P : A -> Prop) s :
  (forall w, view fs_of locked ctl (f w).2 = view fs_of locked ctl w) ->
  (forall w a w', fs_sb (fs_of w) = sb -> f w = (inl a, w') -> P a) -> lib_ok lk c s ->
  wp (os f) (fun a s' => P a /\ lib_ok lk c s') (fun _ => lib_ok lk c) s.
Proof using.
  intros Hv Hp Hs. unfold wp, os. specialize (Hv (s_world s)). specialize (Hp (s_world s)).
  pose proof (proj1 Hs) as Hsb.
  destruct (f (s_world s)) as [[a|e] w]; [split; [by eapply Hp|]|]; by apply lib_ok_view.
Qed.

Lemma safe_env_ {A} (f : W -> (A + Z) * W) (P : A -> Prop) :
  (forall w, view fs_of locked ctl (f w).2 = view fs_of locked ctl w) ->
  (forall w a w', f w = (inl a, w') -> P a) -> safe (env_ f) P.
Proof using. intros Hv Hp. apply safe_libs. intros s Hs. apply os_ok; [done| |done]. eauto. Qed.

Lemma safe_ioctl {A} (f : Z -> W -> (A + Z) * W) (P : A -> Prop) :
  (forall fd w, view fs_of locked ctl (f fd w).2 = view fs_of locked ctl w) ->
  (forall fd w a w', fs_sb (fs_of w) = sb -> f fd w = (inl a, w') -> P a) ->
  safe (libs (with_iocfd (fun fd => os (f fd)))) P.
Proof using.
  intros Hv Hp. apply safe_libs. intros s Hs. unfold with_iocfd, the_nilfs. wp_step. wp_step.
  case_if; [by wp_step|]. apply os_ok; eauto.
Qed.

(** What a computation that leaves the file system alone does. *)
Lemma safe_stable {A} (m : M (sys W) A) (P : A -> Prop) :
  (forall F rq, fs_wf F -> stable (fs_of := fs_of) (requests := requests) (locked := locked) F rq lk m P) ->
  keeps ctl s_world m -> safe (libs m) P.
Proof using L Hg.
  intros Hm Hk. apply safe_libs. intros s (Hsb & Hn & Hsem & Hl & Hc).
  specialize (Hm (fs_of (s_world s)) (requests (s_world s)) (fl_wf _) s).
  assert (Hok : sys_ok (fs_of := fs_of) (requests := requests) (locked := locked)
    (fs_of (s_world s)) (requests (s_world s)) lk s).
  { split; [by rewrite Hl|]. unfold nilfs_ok. by rewrite Hsb. }
  specialize (Hm Hok). specialize (Hk s). rewrite Hc in Hk.
  assert (Hkeep : forall s', sys_ok (fs_of := fs_of) (requests := requests) (locked := locked)
    (fs_of (s_world s)) (requests (s_world s)) lk s' -> ctl (s_world s') = c -> lib_ok lk c s').
  { intros s' [[= H1 H2 H3] (H4 & H5 & H6)] H7. rewrite Hsb in H4, H5. unfold lib_ok. by rewrite H1. }
  unfold wp in *. destruct (m s) as [[a|e| | |] s']; try done; simpl in *.
  - destruct Hm. split; [done|]. by apply Hkeep.
  - by apply Hkeep.
Qed.

(** ** Messages *)

Lemma safe_print m : safe (print m) (fun _ => True).
Proof using. by apply safe_modify. Qed.

Lemma safe_msg m : safe (msg m) (fun _ => True).
Proof using.
  unfold msg. eapply rsafe_bind; [|intros; apply safe_print]. apply safe_modify.
  intros x (H1 & H2 & H3). case_if; [|done]. split; [done|]. split; [done|]. split; [|exact H3].
  destruct H2 as [H2|H2]; [lia|]. by right.
Qed.

Lemma safe_verbose_msg s : safe (verbose_msg verbose s) (fun _ => True).
Proof using. unfold verbose_msg. case_if; [apply safe_msg|by apply rsafe_ret]. Qed.

Lemma safe_or_report {A} (m : R A) s (P : A -> Prop) : safe m P -> safe (or_report m s) P.
Proof using.
  intros Hm. unfold or_report. eapply rsafe_bind; [by apply rsafe_attempt|]. intros [a|e] Ha; [by apply rsafe_ret|].
  eapply rsafe_bind; [apply safe_msg|]. intros; apply safe_failed.
Qed.

Lemma safe_progress_update done : 0 <= done -> safe (nilfs_resize_progress_update done) (fun _ => True).
Proof using.
  intros Hd x [Hl (H1 & H2 & H3)]. unfold nilfs_resize_progress_update, nilfs_resize_progress_show, print.
  wp_step. wp_step. destruct (Z.eqb_spec (pm_in_progress (r_pm x)) 0); [by wp_step|].
  destruct H2 as [H2|(Hb & Hc & Hm)]; [done|].
  wp_step. destruct (Z.ltb_spec (pm_in_progress (r_pm x)) 0); repeat wp_step;
    (destruct (Z.eqb_spec (pm_max (r_pm x)) 0); [lia|]); repeat wp_step;
    (split; [done|]; split; [exact Hl|]; split; [exact H1|]; split; [|exact H3]; right; simpl; rewrite Hb;
     split; [done|]; split; [by apply bar_position|done]).
Qed.

Lemma safe_progress_inc n : safe (nilfs_resize_progress_inc n) (fun _ => True).
Proof using.
  eapply (rsafe_bind _ _ (fun _ => True)); [by apply safe_gets|]. intros p _. apply safe_progress_update, u64_range.
Qed.

Lemma safe_progress_init n : 1 <= n < 2 ^ 50 -> safe (nilfs_resize_progress_init n) (fun _ => True).
Proof using.
  intros Hn x [Hl (H1 & H2 & H3)]. unfold nilfs_resize_progress_init, nilfs_resize_progress_show, print.
  repeat wp_step. split; [done|]. split; [exact Hl|]. split; [exact H1|]. split; [|exact H3].
  right. simpl. lia.
Qed.

(** ** Layout and statistics *)

Lemma get_layout_ok s : lib_ok lk c s ->
  wp (nilfs_get_layout 0x50) (fun l s' => l = layout_of sb /\ lib_ok lk c s') (fun _ => lib_ok lk c) s.
Proof using Hg.
  intros Hs. pose proof Hs as (_ & Hn & _). destruct Hg as [Hb _ _ _ _]. unfold nilfs_get_layout, the_nilfs.
  destruct (Z.ltb_spec 0x50 0x50); [lia|]. wp_step. wp_step. rewrite Hn. cbv zeta. rewrite u32_id by (unfold_words; lia).
  set (bits := sb_get sb s_log_block_size + 10). assert (10 <= bits <= 16) by lia.
  assert (Hp : 0 < 2 ^ bits <= 2 ^ 16) by (split; [lia|apply Z.pow_le_mono_r; lia]). change (2 ^ 16) with 65536 in Hp.
  rewrite (shl64_some 1 bits) by (change (2 ^ 64) with 18446744073709551616; lia). wp_step.
  apply (wp_of_option _ _ _ _ _ eq_refl). wp_step. split; [|done]. unfold layout_of. f_equal. fold bits. rewrite Z.mul_1_l. apply u32_id. unfold_words. lia.
Qed.

Lemma safe_load_layout : safe nilfs_resize_load_layout (fun _ => True).
Proof using Hg.
  eapply rsafe_bind; [apply safe_or_report, safe_libs, get_layout_ok|]. intros l ->. apply safe_modify.
  intros x (H1 & H2). split; [done|]. by split.
Qed.

Lemma safe_update_sustat : safe nilfs_resize_update_sustat (fun _ => True).
Proof using RL.
  eapply rsafe_bind; [apply safe_or_report, safe_ioctl;
    [apply v_sustat|intros fd w s w' _ Hs; eapply rl_sustat; exact Hs]|].
  intros s Hs. apply safe_modify. intros x (H1 & H2 & _). done.
Qed.

Lemma safe_sync : safe (libs nilfs_sync) (fun cno => 0 <= cno < 2 ^ 64 - 1).
Proof using RL. apply safe_ioctl; [apply v_sync|]. intros fd w a w' _ Ha. by eapply rl_sync. Qed.

(** The usage of a segment that may be reported. *)
Definition sane (si : nilfs_suinfo) : Prop :=
  0 <= sui_nblocks si /\ (nilfs_suinfo_active si = true -> sui_nblocks si < sb_get sb s_blocks_per_segment).

Lemma safe_suinfo segnum n : safe (libs (nilfs_get_suinfo segnum n)) (fun r =>
  Z.of_nat (length r) <= u32 n /\ (1 <= u32 n -> r <> []) /\
  Forall sane r).
Proof using RL L Hroom.
  apply (safe_ioctl (fun fd => ioc_get_suinfo fd (u32 n) segnum)).
  - intros fd w. unfold view. pose proof (q_suinfo (obs := ctl) fd (u32 n) segnum w) as H1.
    pose proof (q_suinfo (obs := fun w => (fs_of w, requests w, locked w)) fd (u32 n) segnum w) as H2.
    simpl in H2. injection H2 as -> _ ->. by rewrite H1.
  - intros fd w r w' Hsb Hr. destruct (rl_suinfo _ _ _ _ _ _ (proj1 (u32_range n)) Hr) as [Hl Hs]. split; [exact Hl|]. split.
    + intros Hn. apply fl_suinfo in Hr; [|done]. by destruct r.
    + apply Forall_lookup. intros i si Hi. rewrite (Hs i si Hi).
      split; [apply fw_sui, fl_wf|]. rewrite <- Hsb. apply Hroom.
Qed.

Lemma seqnum_stable F rq segnum :
  stable (fs_of := fs_of) (requests := requests) (locked := locked) F rq lk (nilfs_get_segment_seqnum segnum) (fun _ => True).
Proof using L.
  unfold nilfs_get_segment_seqnum. eapply stable_bind; [apply stable_nilfs|]. intros nf (Hgeo & Hsb & _).
  rewrite Hsb. case_if; [apply stable_fail|]. case_if; [apply stable_fail|].
  eapply (stable_bind _ _ _ _ _ (fun _ => True)).
  { destruct Hgeo as [Hb _ _ _ _]. rewrite u32_id by (unfold_words; lia). unfold shl64.
    set (bits := sb_get (fs_sb F) s_log_block_size + 10).
    assert (10 <= bits <= 16) by lia. replace ((0 <=? bits) && (bits <? 64)) with true by lia.
    by eapply stable_of_option. }
  intros start _. eapply (stable_bind _ _ _ _ _ (fun _ => True)).
  { apply stable_os; [intros; apply fl_quiet|done]. }
  intros bytes _. eapply (stable_bind _ _ _ _ _ (fun _ => True)); [by apply stable_os_pure|]. intros junk _.
  destruct (rd_le_is_Some 8 (resize 8 junk bytes) 0) as [v Hv]; [lia|lia|rewrite length_resize; lia|].
  by eapply stable_of_option.
Qed.

Lemma keeps_seqnum segnum : keeps ctl s_world (nilfs_get_segment_seqnum (W := W) segnum).
Proof using RL.
  unfold nilfs_get_segment_seqnum. keep; first [by intros s|apply keeps_os; intros; apply (q_pread (obs := ctl))].
Qed.

Lemma safe_is_protected segnum seq : safe (lib (nilfs_segment_is_protected segnum seq)) (fun _ => True).
Proof using L RL Hg.
  assert (Hs : safe (libs (nilfs_get_segment_seqnum segnum)) (fun _ => True)).
  { apply safe_stable; [intros; apply seqnum_stable|apply keeps_seqnum]. }
  intros x Hx. specialize (Hs x Hx). unfold wp, libs, lib, nilfs_segment_is_protected, bind, ret in *.
  by destruct (call (nilfs_get_segment_seqnum segnum) (r_lib x)) as [[] g].
Qed.

(** ** Scanning *)

Section Scan.
Context {A : Type} (take : Z -> nilfs_suinfo -> R bool) (add : A -> Z -> nilfs_suinfo -> R A) (what : string).
(** [P rest acc]: what holds of the segments found while [rest] more are
    looked for, all of them from [lo] on and below [hi]. *)
Context (lo hi : Z) (P : Z -> A -> Prop).
Context (Hhi : 0 <= lo /\ hi < 2 ^ 63).
Context (Q : nilfs_suinfo -> Prop).
Context (Htake : forall segnum si, lo <= segnum <= hi -> safe (take segnum si) (fun b => b = true -> Q si)).
Context (Hadd : forall acc segnum si rest, lo <= segnum <= hi -> sane si -> Q si ->
  1 <= rest < 2 ^ 64 -> P rest acc -> safe (add acc segnum si) (P (rest - 1))).

Lemma safe_scan_batch sis segnum rest acc : Forall sane sis ->
  lo <= segnum -> segnum + Z.of_nat (length sis) <= hi ->
  Z.of_nat (length sis) <= rest < 2 ^ 64 -> P rest acc ->
  safe (scan_batch take add sis segnum rest acc) (fun '(segnum', rest', acc') =>
    segnum' = segnum + Z.of_nat (length sis) /\ 0 <= rest' <= rest /\ P rest' acc').
Proof using Hadd Hhi Htake.
  intros Hsis. revert segnum rest acc; induction Hsis as [|si sis Hsi Hsis IH]; intros segnum rest acc Hlo Hle Hrest HP;
    cbn [scan_batch length] in *.
  { apply rsafe_ret. split; [lia|]. split; [lia|done]. }
  change (2 ^ 63) with 9223372036854775808 in *. change (2 ^ 64) with 18446744073709551616 in *.
  eapply rsafe_bind; [apply Htake; lia|]. intros b Hb. rewrite (u64_id (segnum + 1)) by (unfold_words; lia).
  destruct b.
  - rewrite (u64_id (rest - 1)) by (unfold_words; lia).
    eapply rsafe_bind; [apply (Hadd _ _ _ rest); [lia|done|by apply Hb|lia|done]|]. intros acc' HP'.
    eapply safe_impl; [apply IH; done || lia|]. intros [[s r] a] (H1 & H2 & H3). split; [lia|]. split; [lia|done].
  - eapply safe_impl; [apply IH; done || lia|]. intros [[s r] a] (H1 & H2 & H3). split; [lia|]. split; [lia|done].
Qed.

Lemma safe_scan_loop fuel end_ segnum rest acc : lo <= segnum -> end_ + 256 <= hi -> 0 <= rest < 2 ^ 64 ->
  P rest acc -> (Z.to_nat (end_ - segnum + 1) < fuel)%nat ->
  safe (scan_loop take add what fuel end_ segnum rest acc) (fun acc' => exists r, 0 <= r <= rest /\ P r acc').
Proof using Hadd Hhi Htake L RL Hroom.
  revert segnum rest acc; induction fuel as [|fuel IH]; intros segnum rest acc Hlo Hend Hrest HP Hfuel; cbn [scan_loop].
  { lia. }
  destruct (Z.ltb_spec 0 rest), (Z.leb_spec segnum end_); simpl;
    try (apply rsafe_ret; exists rest; split; [lia|done]).
  eapply rsafe_bind; [apply safe_or_report, safe_suinfo|]. unfold NILFS_RESIZE_NSUINFO.
  rewrite u32_id by (unfold_words; lia). intros sis (Hl & Hne & Hsis). specialize (Hne ltac:(lia)).
  eapply rsafe_bind; [apply safe_scan_batch; done || lia|]. intros [[s r] a] (-> & Hr & HP').
  destruct sis as [|si sis]; [done|]. simpl in *.
  eapply safe_impl; [apply IH; done || lia|]. intros a' (r' & H1 & H2). exists r'. split; [lia|done].
Qed.
End Scan.

Lemma safe_scan {A} take add what start end_ maxsegs (acc : A) (P : Z -> A -> Prop) (Q : nilfs_suinfo -> Prop) :
  range_ok start end_ -> 0 <= maxsegs -> P (Z.min maxsegs (end_ - start + 1)) acc ->
  (forall segnum si, safe (take segnum si) (fun b => b = true -> Q si)) ->
  (forall acc segnum si rest, start <= segnum <= end_ + 256 -> sane si -> Q si -> 1 <= rest < 2 ^ 64 ->
     P rest acc -> safe (add acc segnum si) (P (rest - 1))) ->
  safe (scan take add what start end_ maxsegs acc)
    (fun acc' => exists r, 0 <= r <= Z.min maxsegs (end_ - start + 1) /\ P r acc').
Proof using L RL Hroom.
  intros Hr Hm HP Htake Hadd. destruct (range_size _ _ Hr) as [Hu Hb]. unfold scan. rewrite Hu.
  destruct Hr as [H1 H2]. change (2 ^ 49) with 562949953421312 in H2. change (2 ^ 64) with 18446744073709551616 in *.
  destruct (Z.ltb_spec end_ start); [lia|].
  apply (safe_scan_loop take add what start (end_ + 256) P) with (Q := Q);
    change (2 ^ 63) with 9223372036854775808; change (2 ^ 64) with 18446744073709551616; auto; lia.
Qed.

Lemma safe_store cap start end_ v segnum rest m : m <= cap -> start <= segnum <= end_ + 256 -> 1 <= rest ->
  Forall (fun n => start <= n <= end_ + 256) v /\ Z.of_nat (length v) + rest = m ->
  safe (store cap v segnum) (fun v' =>
    Forall (fun n => start <= n <= end_ + 256) v' /\ Z.of_nat (length v') + (rest - 1) = m).
Proof using.
  intros Hm Hs Hr [Hv Hl]. unfold store. destruct (Z.ltb_spec (Z.of_nat (length v)) cap); [|lia].
  apply rsafe_ret. split; [by apply Forall_app; split; [|constructor]|]. rewrite length_app. simpl. lia.
Qed.

Section Find.
Context (start end_ maxsegs : Z) (Hr : range_ok start end_) (Hm : 0 <= maxsegs).
Abbreviation m := (Z.min maxsegs (end_ - start + 1)).
Definition stored (rest : Z) (v : list Z) : Prop :=
  Forall (fun n => start <= n <= end_ + 256) v /\ Z.of_nat (length v) + rest = m.

Lemma stored_found (v : list Z) r : 0 <= r -> stored r v -> found_ok start end_ maxsegs v.
Proof using. intros H1 [H2 H3]. split; [done|]. lia. Qed.

Lemma safe_find (take : Z -> nilfs_suinfo -> R bool) what : (forall segnum si, safe (take segnum si) (fun _ => True)) ->
  safe (scan take (fun v segnum _ => store maxsegs v segnum) what start end_ maxsegs []) (found_ok start end_ maxsegs).
Proof using Hm Hr L RL Hroom.
  intros Ht. eapply safe_impl; [apply (safe_scan _ _ _ _ _ _ _ stored (fun _ => True)); try done|].
  - intros segnum si. eapply safe_impl; [apply Ht|]. done.
  - intros acc segnum si rest Hs _ _ Hrest Ha. apply safe_store; try done; lia.
  - intros v (r & H1 & H2). eapply stored_found; [|exact H2]. lia.
Qed.

Lemma safe_find_movable : safe (nilfs_resize_find_movable_segments start end_ maxsegs) (found_ok start end_ maxsegs).
Proof using Hg Hm Hr L RL Hroom.
  apply (rsafe_bind _ _ (fun _ => True)); [by apply safe_gets|]. intros st _. apply safe_find.
  intros segnum si. case_if; [by apply rsafe_ret|]. case_if; [by apply rsafe_ret|].
  eapply rsafe_bind; [apply safe_or_report, safe_is_protected|]. intros; by apply rsafe_ret.
Qed.

Lemma safe_find_reclaimable :
  safe (nilfs_resize_find_reclaimable_segments start end_ maxsegs) (found_ok start end_ maxsegs).
Proof using Hm Hr L RL Hroom. apply safe_find. intros. by apply rsafe_ret. Qed.

(** The blocks of active segments: fewer than the segments have room for. *)
Lemma safe_find_active : maxsegs <= 256 ->
  safe (nilfs_resize_find_active_segments start end_ maxsegs) (fun '(v, nb) =>
    found_ok start end_ maxsegs v /\
    0 <= nb <= Z.of_nat (length v) * (sb_get sb s_blocks_per_segment - 1)).
Proof using Hbps Hg Hm Hr L RL Hroom.
  intros Hmax. set (bps := sb_get sb s_blocks_per_segment) in *.
  assert (Hb : 1 <= bps <= 2 ^ 29).
  { destruct Hg as [Hb _ Hs _ _]. fold bps in Hs. unfold NILFS_SEG_MIN_BLOCKS in Hbps.
    assert (1 <= 2 ^ (sb_get sb s_log_block_size + 10)) by (apply (Z.pow_le_mono_r 2 0); lia). nia. }
  change (2 ^ 29) with 536870912 in Hb.
  eapply safe_impl; [apply (safe_scan _ _ _ _ _ _ _
    (fun rest '(v, nb) => stored rest v /\ 0 <= nb <= Z.of_nat (length v) * (bps - 1))
    (fun si => nilfs_suinfo_active si = true)); try done|].
  - intros segnum si. apply rsafe_ret. by intros [? _]%andb_true_iff.
  - intros [v nb] segnum si rest Hs [Hn Hfull] Ha Hrest [Hv Hnb]. specialize (Hfull Ha). fold bps in Hfull.
    eapply rsafe_bind; [apply (safe_store _ start end_ _ _ rest m); try done; lia|].
    intros v' Hv'. apply rsafe_ret. pose proof Hv as [_ Hl1]. pose proof Hv' as [_ Hl2].
    split; [exact Hv'|]. rewrite u64_id by (unfold_words; nia). nia.
  - intros [v nb] (r & H1 & H2 & H3). split; [|exact H3]. eapply stored_found; [|exact H2]. lia.
Qed.
End Find.

Lemma safe_count_inuse start end_ : range_ok start end_ ->
  safe (nilfs_resize_count_inuse_segments start end_) (fun n => 0 <= n <= end_ - start + 1).
Proof using L RL Hroom.
  intros Hr. destruct (range_size _ _ Hr) as [_ Hb]. pose proof Hr as [H1 H2].
  change (2 ^ 49) with 562949953421312 in H2.
  eapply safe_impl; [apply (safe_scan _ _ _ _ _ _ _ (fun rest n => 0 <= n /\ n + rest = end_ - start + 1) (fun _ => True)); try done|].
  - split; [lia|]. rewrite Z.min_r; [lia|]. unfold_words. lia.
  - intros n segnum si rest Hs _ _ Hrest Hn. apply rsafe_ret. rewrite i64_id by (unfold_words; lia). lia.
  - intros n (r & H3 & H4). lia.
Qed.
End Safe.

(** ** Moving segments, with the lock free *)

Section Moving.
Context (c : list control).
Abbreviation safe := (safe false c).

Lemma wp_lib {A} (m : M (gcs W) A) Q E (x : rs W) :
  wp m (fun a g => Q a (with_lib x g)) (fun e g => E e (with_lib x g)) (r_lib x) -> wp (lib m) Q E x.
Proof using. unfold wp, lib. by destruct (m (r_lib x)) as [[] g]. Qed.

Lemma lib_ok_idle (g : gcs W) : lib_ok false c (g_sys g) <->
  idle (fs_of := fs_of) (locked := locked) g /\ fs_sb (fs_of (s_world (g_sys g))) = sb /\ ctl (s_world (g_sys g)) = c.
Proof using Hg.
  unfold lib_ok, idle, nilfs_ok. split.
  - intros (-> & H2 & H3 & H4 & H5). done.
  - intros [[(H1 & H2 & H3) H4] [H5 H6]]. rewrite H5 in H2. done.
Qed.

(** The reclaim of a few segments: it keeps the invariant, and the array holds
    the same segments afterwards. *)
Lemma reclaim_inv chunk seq x : inv false c x -> g_segnums (r_lib x) = chunk -> chunk <> [] ->
  Forall (fun n => 0 <= n) chunk -> Z.of_nat (length chunk) <= 2 ^ 12 ->
  wp (lib (nilfs_reclaim_segment (Z.of_nat (length chunk)) seq 0))
    (fun n x' => inv false c x' /\ 0 <= n <= Z.of_nat (length chunk)) (fun _ => inv false c) x.
Proof using Hg L RL.
  intros [Hl Hv] Hseg Hne Hpos Hlen. apply wp_lib. apply lib_ok_idle in Hl as (Hi & Hsb & Hc).
  pose proof (keeps_reclaim_segment ctl (Z.of_nat (length chunk)) seq 0 (r_lib x)) as Hk. simpl in Hk.
  eapply wp_mono; [apply (wp_both _ (fun g => ctl (s_world (g_sys g)) = c));
    [by apply (reclaim_segment_wp (requests := requests) (r_lib x) chunk)|by rewrite Hk]| |].
  - intros n g [(H1 & H2 & H3 & _) H4]. split; [|exact H3]. split; [|exact Hv]. apply lib_ok_idle.
    split; [exact H1|]. split; [exact (eq_trans H2 Hsb)|exact H4].
  - intros e g [(H1 & H2) H4]. split; [|exact Hv]. apply lib_ok_idle.
    split; [exact H1|]. split; [exact (eq_trans H2 Hsb)|exact H4].
Qed.

Lemma safe_verify_segment seq segnum : safe (verify_segment seq segnum) (fun _ => True).
Proof using Hg L RL Hroom.
  assert (Hs : forall reason, safe (
    let* p := attempt (lib (nilfs_segment_is_protected segnum seq)) in
    ret (match p with inl true => Z.lor reason NILFS_RESIZE_SEGMENT_PROTECTED | _ => reason end)) (fun _ => True)).
  { intros reason. eapply rsafe_bind; [apply rsafe_attempt, safe_is_protected|]. intros; by apply rsafe_ret. }
  unfold verify_segment. eapply rsafe_bind; [apply rsafe_attempt, safe_suinfo|].
  intros r _. repeat case_match; try apply Hs; by apply rsafe_ret.
Qed.

Lemma safe_verify_failure v reason : safe (nilfs_resize_verify_failure v reason) (fun _ => True).
Proof using Hg L RL Hroom.
  revert reason; induction v as [|n v IH]; intros reason; cbn [nilfs_resize_verify_failure]; [by apply rsafe_ret|].
  apply (rsafe_bind _ _ _ _ (fun _ => True)); [by apply safe_gets|]. intros st _.
  eapply rsafe_bind; [apply safe_verify_segment|]. intros; apply IH.
Qed.

Lemma safe_nanosleep t : safe (env_tt (e_nanosleep t)) (fun _ => True).
Proof using RL. apply safe_env_tt. intros. apply v_nanosleep. Qed.

Lemma safe_move_chunk chunk reason : chunk <> [] -> Forall (fun n => 0 <= n) chunk -> (length chunk <= 2)%nat ->
  safe (move_chunk chunk reason) (fun '(n, _) => 0 <= n <= Z.of_nat (length chunk)).
Proof using Hg L RL Hroom.
  intros Hne Hpos Hlen. unfold move_chunk. eapply rsafe_bind; [apply safe_update_sustat|]. intros _ _.
  apply (rsafe_bind _ _ _ _ (fun _ => True)); [by apply safe_gets|]. intros st _.
  intros x Hx. wp_step. apply wp_lib. wp_step. set (x1 := with_lib x _).
  assert (Hx1 : inv false c x1) by exact Hx.
  eapply wp_seq; [apply (reclaim_inv chunk (ss_prot_seq st) x1); [done|done|done|done|]| |done].
  { change (2 ^ 12) with 4096. lia. }
  intros n x2 [Hx2 Hn]. revert x2 Hx2. change (safe (
    let* snp := gets (fun x => g_segnums (r_lib x)) in
    let* (trunc_start, trunc_end) := gets r_trunc in
    let nhits := length (filter (fun s => trunc_start <= s <= trunc_end) (take (Z.to_nat n) snp)) in
    (if (nhits =? 0)%nat then ret tt else nilfs_resize_progress_inc (Z.of_nat nhits)) ;;
    let* rv := (if (n <? Z.of_nat (length chunk)) && reason then
                  nilfs_resize_verify_failure (drop (Z.to_nat n) snp) 0 else ret 0) in
    env_tt (e_nanosleep clean_interval) ;;
    ret (n, rv)) (fun '(n, _) => 0 <= n <= Z.of_nat (length chunk))).
  apply (rsafe_bind _ _ _ _ (fun _ => True)); [by apply safe_gets|]. intros snp _.
  apply (rsafe_bind _ _ _ _ (fun _ => True)); [by apply safe_gets|]. intros [t1 t2] _. cbv zeta.
  apply (rsafe_bind _ _ _ _ (fun _ => True)); [case_match; [by apply rsafe_ret|apply safe_progress_inc]|]. intros _ _.
  apply (rsafe_bind _ _ _ _ (fun _ => True)); [case_match; [apply safe_verify_failure|by apply rsafe_ret]|]. intros rv _.
  eapply rsafe_bind; [apply safe_nanosleep|]. intros _ _. by apply rsafe_ret.
Qed.

Lemma safe_move_loop fuel v reason nmoved rv : Forall (fun n => 0 <= n) v -> (length v < fuel)%nat ->
  0 <= nmoved -> nmoved + Z.of_nat (length v) < 2 ^ 63 ->
  safe (move_loop fuel v reason nmoved rv) (fun '(n, _) => nmoved <= n <= nmoved + Z.of_nat (length v)).
Proof using Hg L RL Hroom.
  revert v nmoved rv; induction fuel as [|fuel IH]; intros v nmoved rv Hv Hf Hn Hb; [lia|]. cbn [move_loop].
  destruct v as [|s v]; [apply rsafe_ret; simpl; lia|].
  change (Z.to_nat nsegments_per_clean) with 2%nat. set (l := s :: v) in *.
  assert (Hl : (1 <= length (take 2 l) <= 2)%nat /\ (length (take 2 l) + length (drop 2 l) = length l)%nat).
  { rewrite length_take, length_drop. unfold l. simpl length. lia. }
  eapply rsafe_bind; [apply (safe_move_chunk (take 2 l)); [by destruct v|by apply Forall_take|lia]|].
  intros [n flags] Hn'. change (2 ^ 63) with 9223372036854775808 in *. rewrite i64_id by (unfold_words; lia).
  eapply safe_impl; [apply IH; [by apply Forall_drop|lia|lia|change (2 ^ 63) with 9223372036854775808; lia]|].
  intros [n' r'] Hn2. lia.
Qed.

Lemma safe_move_segments v reason : Forall (fun n => 0 <= n) v -> Z.of_nat (length v) < 2 ^ 63 ->
  safe (nilfs_resize_move_segments v reason) (fun '(n, _) => 0 <= n <= Z.of_nat (length v)).
Proof using Hg L RL Hroom. intros Hv Hl. apply safe_move_loop; done || lia. Qed.
End Moving.


(** ** Forcing updates *)

Lemma v_block w : view fs_of locked ctl (sigprocmask_block w).2 = view fs_of locked ctl w.
Proof using L RL.
  unfold view. pose proof (fl_block w) as (H1 & H2 & H3). pose proof (qs_block (QuietSync := qc_sync) w) as H4.
  by rewrite H1, H3, H4.
Qed.

Lemma v_restore w : view fs_of locked ctl (sigprocmask_restore w) = view fs_of locked ctl w.
Proof using L RL.
  unfold view. pose proof (fl_restore w) as (H1 & H2 & H3). pose proof (qs_restore (QuietSync := qc_sync) w) as H4.
  by rewrite H1, H3, H4.
Qed.

Section Update.
Context (lk : bool) (c : list control).
Abbreviation safe := (safe lk c).

Lemma safe_block s : safe (or_report (env_ sigprocmask_block) s) (fun _ => True).
Proof using L RL. apply safe_or_report, safe_env_; [apply v_block|done]. Qed.

Lemma safe_restore : safe (env_tt sigprocmask_restore) (fun _ => True).
Proof using L RL. apply safe_env_tt, v_restore. Qed.

Lemma safe_libs_gets {A} (f : sys W -> A) : safe (libs (gets f)) (fun _ => True).
Proof using. apply safe_libs. intros s Hs. by wp_step. Qed.

Lemma safe_freeze_thaw : safe (libs (nilfs_freeze ;; nilfs_thaw)) (fun _ => True).
Proof using RL.
  assert (Hf : safe (libs nilfs_freeze) (fun _ => True)) by (apply safe_ioctl; [apply v_freeze|done]).
  assert (Ht : safe (libs nilfs_thaw) (fun _ => True)) by (apply safe_ioctl; [apply v_thaw|done]).
  intros x Hx. assert (H : safe (libs nilfs_freeze ;; libs nilfs_thaw) (fun _ => True)).
  { eapply rsafe_bind; [exact Hf|]. intros _ _. exact Ht. }
  specialize (H x Hx). unfold wp, libs, lib, call, bind in *. simpl in *.
  by destruct (nilfs_freeze (g_sys (r_lib x))) as [[] s].
Qed.

Lemma safe_try_update : safe (nilfs_resize_try_update_log_cursor verbose) (fun _ => True).
Proof using RL.
  eapply rsafe_bind; [apply safe_verbose_msg|]. intros _ _.
  eapply rsafe_bind; [apply rsafe_attempt, (rsafe_bind _ _ _ _ (fun _ => True) (fun _ => True))|].
  - eapply safe_ignore, safe_sync.
  - intros _ _. eapply rsafe_bind; [apply rsafe_attempt, safe_freeze_thaw|].
    intros r _. eapply rsafe_bind; [eapply safe_ignore, safe_update_sustat|]. intros _ _.
    destruct r; [by apply rsafe_ret|apply safe_failed].
  - intros r _. eapply rsafe_bind; [apply safe_verbose_msg|]. intros _ _.
    destruct r; [by apply rsafe_ret|apply safe_failed].
Qed.

Lemma safe_rand_bytes n : safe (rand_bytes n) (fun l => length l = n).
Proof using RL.
  induction n as [|n IH]; cbn [rand_bytes]; [by apply rsafe_ret|].
  apply (rsafe_bind _ _ _ _ (fun _ => True)); [by apply safe_env; [apply v_rand|]|]. intros b _.
  eapply rsafe_bind; [exact IH|]. intros l Hl. apply rsafe_ret. simpl. by rewrite Hl.
Qed.

Lemma safe_balloon_data in_fd failed request : 1 <= request ->
  safe (balloon_data verbose in_fd failed request) (fun '(l, _) => l <> [] /\ Z.of_nat (length l) <= request).
Proof using RL.
  intros Hr. unfold balloon_data.
  assert (Hf : forall b : bool, safe (let* bytes := rand_bytes (Z.to_nat request) in ret (bytes, b))
    (fun '((l, _) : list Z * bool) => l <> [] /\ Z.of_nat (length l) <= request)).
  { intros b. eapply rsafe_bind; [apply safe_rand_bytes|]. intros l Hl. apply rsafe_ret.
    cbv beta in Hl. split; [|lia]. intros Hnil. subst l. cbn [length] in Hl. lia. }
  case_match; [|apply Hf].
  eapply rsafe_bind; [apply rsafe_attempt, (safe_env_ _ _ _ (fun l => Z.of_nat (length l) <= request))|].
  - intros. apply v_read.
  - intros w l w' Hl. eapply rl_read; [|exact Hl]. lia.
  - intros [[|b l]|e] Hl; [|by apply rsafe_ret|]; (eapply rsafe_bind; [apply safe_verbose_msg|]; intros; apply Hf).
Qed.

Lemma safe_inflate fuel in_fd out_fd failed rest : 0 <= rest < 2 ^ 63 -> (Z.to_nat rest < fuel)%nat ->
  safe (inflate_loop verbose fuel in_fd out_fd failed rest) (fun _ => True).
Proof using RL.
  revert failed rest; induction fuel as [|fuel IH]; intros failed rest Hr Hf; [lia|]. cbn [inflate_loop].
  destruct (Z.ltb_spec 0 rest); [|by apply rsafe_ret].
  eapply rsafe_bind; [apply safe_balloon_data; unfold NILFS_RESIZE_BALLOON_MAX_CHUNKSIZE; lia|].
  intros [data b] [Hne Hd].
  eapply rsafe_bind; [apply rsafe_attempt, (safe_env_ _ _ _ (fun n => 1 <= n <= Z.of_nat (length data)))|].
  - intros. apply v_write.
  - intros w n w' Hn. eapply rl_write; [exact Hn|done].
  - intros [n|e] Hn; [|apply safe_msg]. rewrite i64_id by (unfold_words; lia). apply IH; lia.
Qed.

Lemma safe_delete_checkpoints fuel cno ecno : 0 <= cno -> ecno < 2 ^ 64 - 1 -> (Z.to_nat (ecno - cno + 1) < fuel)%nat ->
  safe (delete_checkpoints fuel cno ecno) (fun _ => True).
Proof using RL.
  revert cno; induction fuel as [|fuel IH]; intros cno Hc He Hf; [lia|]. cbn [delete_checkpoints].
  destruct (Z.leb_spec cno ecno); [|by apply rsafe_ret].
  apply (rsafe_bind _ _ _ _ (fun _ => True)).
  { eapply safe_ignore, (safe_ioctl _ _ _ (fun _ => True)); [intros; apply v_delete|done]. }
  intros _ _. rewrite u64_id by (unfold_words; lia). apply IH; lia.
Qed.

Lemma safe_prod_blocked in_fd scno rest : 0 <= scno < 2 ^ 64 - 1 -> 0 <= rest < 2 ^ 63 ->
  safe (prod_blocked verbose in_fd scno rest) (fun _ => True).
Proof using RL.
  intros Hs Hr. unfold prod_blocked. eapply rsafe_bind; [apply safe_libs_gets|]. intros dirfd _.
  eapply rsafe_bind; [apply safe_libs_gets|]. intros pid _.
  eapply rsafe_bind; [apply rsafe_attempt, (safe_env_ _ _ _ (fun _ => True)); [intros; apply v_openat|done]|].
  intros [out_fd|e] _; [|eapply rsafe_bind; [apply safe_msg|]; intros; apply safe_failed].
  eapply rsafe_bind; [apply safe_inflate; lia|]. intros _ _.
  eapply rsafe_bind; [apply rsafe_attempt, safe_sync|]. intros r Hsync. cbv zeta.
  set (ecno := match r with inl cno => cno | inr _ => 0 end).
  assert (He : 0 <= ecno < 2 ^ 64 - 1) by (unfold ecno; destruct r; [done|lia]).
  eapply rsafe_bind; [apply safe_env_tt; intros; apply v_close|]. intros _ _.
  eapply rsafe_bind; [apply rsafe_attempt, (safe_env_ _ _ _ (fun _ => True)); [intros; apply v_unlinkat|done]|].
  intros u _. apply (rsafe_bind _ _ _ _ (fun _ => True)); [destruct u; [by apply rsafe_ret|apply safe_verbose_msg]|].
  intros _ _. apply (rsafe_bind _ _ _ _ (fun _ => True)); [|intros; eapply safe_ignore, safe_sync].
  case_match; [|by apply rsafe_ret]. apply safe_delete_checkpoints; [|lia|lia].
  case_match; [lia|]. apply u64_range.
Qed.

Lemma rsafe_malloc n : safe (m_malloc n) (fun _ => True).
Proof using L RL.
  intros x Hx. apply wp_malloc. intros b x' Hrun.
  assert (H : safe (libs (fun s => let '(b, s') := malloc n s in (Ok b, s'))) (fun _ => True)).
  { apply safe_libs. intros s Hs. unfold wp, malloc, sys_alloc.
    assert (Hv : view fs_of locked ctl (malloc n (s_world s)).2 = view fs_of locked ctl (s_world s)).
    { unfold view. pose proof (q_malloc (obs := ctl) n (s_world s)) as H1.
      pose proof (q_malloc (obs := fun w => (fs_of w, requests w, locked w)) n (s_world s)) as H2.
      simpl in H2. injection H2 as -> _ ->. by rewrite H1. }
    unfold malloc at 1. unfold malloc in Hv. destruct (dev_alloc n (s_world s)) as [b' w]. split; [done|].
    by apply lib_ok_view. }
  specialize (H x Hx). unfold wp, libs, lib, call in H. unfold malloc, rs_alloc, malloc, gcs_alloc in Hrun.
  destruct (malloc n (g_sys (r_lib x))) as [b' s']. destruct H as [_ H]. injection Hrun as <- <-. by destruct b'.
Qed.
End Update.

Lemma size_bound : 1 <= sb_get sb s_blocks_per_segment /\
  1 <= 2 ^ (sb_get sb s_log_block_size + 10) /\
  sb_get sb s_blocks_per_segment * 2 ^ (sb_get sb s_log_block_size + 10) <= 2 ^ 29.
Proof using Hg Hbps.
  destruct Hg as [Hb _ Hs _ _]. unfold NILFS_SEG_MIN_BLOCKS in Hbps. split; [lia|]. split; [|exact Hs].
  apply (Z.pow_le_mono_r 2 0); lia.
Qed.

Lemma safe_prod_fs c n : 0 <= n <= 2 * sb_get sb s_blocks_per_segment ->
  safe false c (nilfs_resize_prod_fs verbose n) (fun _ => True).
Proof using Hg Hbps L RL.
  intros Hn. destruct size_bound as (H1 & H2 & H3). unfold nilfs_resize_prod_fs.
  apply (rsafe_bind _ _ _ _ (fun l => l = layout_of sb)); [apply safe_gets; by intros x [? _]|]. intros l ->. cbv zeta.
  case_match; [by apply rsafe_ret|]. set (bs := 2 ^ (sb_get sb s_log_block_size + 10)) in *.
  change (lo_blocksize (layout_of sb)) with bs. change (2 ^ 29) with 536870912 in H3.
  rewrite (i64_id (n * bs)) by (unfold_words; nia).
  eapply rsafe_bind; [apply rsafe_malloc|]. intros _ _.
  eapply rsafe_bind; [apply rsafe_attempt, (safe_env_ _ _ _ (fun _ => True)); [intros; apply v_open|done]|]. intros i _.
  set (in_fd := match i with inl fd => fd | inr _ => -1 end).
  apply (rsafe_bind _ _ _ _ (fun _ => True)); [case_match; [apply safe_verbose_msg|by apply rsafe_ret]|]. intros _ _.
  eapply rsafe_bind; [apply rsafe_attempt, safe_sync|]. intros s Hs.
  set (scno := match s with inl cno => cno | inr _ => 0 end).
  assert (Hsc : 0 <= scno < 2 ^ 64 - 1) by (unfold scno; destruct s; [done|lia]). clearbody scno in_fd.
  eapply rsafe_bind; [apply rsafe_attempt, (rsafe_bind _ _ _ _ (fun _ => True) (fun _ => True)); [apply safe_block|]|].
  { intros _ _. eapply rsafe_bind; [apply rsafe_attempt, safe_prod_blocked; [exact Hsc|]|].
    { change (2 ^ 63) with 9223372036854775808. nia. }
    intros r _. eapply rsafe_bind; [apply safe_restore|]. intros _ _.
    eapply rsafe_bind; [eapply safe_ignore, safe_update_sustat|]. intros _ _.
    destruct r; [by apply rsafe_ret|apply safe_failed]. }
  intros r _. apply (rsafe_bind _ _ _ _ (fun _ => True)).
  { case_match; [|by apply rsafe_ret]. apply safe_env_tt. intros; apply v_close. }
  intros _ _. destruct r; [by apply rsafe_ret|apply safe_failed].
Qed.


(** ** Emptying a range *)

Section Empty.
Context (c : list control).
Abbreviation safe := (safe false c).

Lemma safe_nibble_pass fuel segnum end_ count nmoved : 0 <= segnum -> end_ < 2 ^ 49 ->
  0 <= nmoved < count -> count < 2 ^ 63 -> (Z.to_nat (end_ - segnum + 1) < fuel)%nat ->
  safe (nibble_pass fuel segnum end_ count nmoved) (fun '(n, done) => done = false -> 0 <= n < count).
Proof using Hg L RL Hroom.
  intros Hs He Hn Hc. revert segnum nmoved Hs Hn; induction fuel as [|fuel IH]; intros segnum nmoved Hs Hn Hf; [lia|].
  cbn [nibble_pass]. destruct (Z.leb_spec segnum end_); [|by apply rsafe_ret].
  change (2 ^ 63) with 9223372036854775808 in Hc. rewrite (u64_id (count - nmoved)) by (unfold_words; lia).
  assert (Hr : range_ok segnum end_) by (split; [lia|done]).
  eapply rsafe_bind; [apply safe_find_movable; [exact Hr|lia]|]. intros v Hv.
  destruct (last v) as [l|] eqn:Hl; [|by apply rsafe_ret].
  destruct (found_last _ _ _ _ _ Hr Hv Hl) as (Hpos & Hl1 & Hl2). destruct Hv as [_ Hlen].
  eapply rsafe_bind; [apply safe_move_segments; [exact Hpos|change (2 ^ 63) with 9223372036854775808; lia]|].
  intros [nm rv] Hnm. rewrite i64_id by (unfold_words; lia).
  destruct (Z.leb_spec count (nmoved + nm)); [by apply rsafe_ret|].
  rewrite Hl2. apply IH; lia.
Qed.

(** The rounds left, in which a search of the range comes before one of the
    segments in front of it. *)
Definition rank (inside updated prodded : bool) : nat :=
  (if inside then 1 else 0) + (if updated then 0 else 2) + (if prodded then 0 else 4) + 1.

Lemma safe_nibble_retry fuel start end2 count unprotect inside nmoved updated prodded :
  range_ok start end2 -> 1 <= start -> 0 <= nmoved < count -> count < 2 ^ 63 ->
  (rank inside updated prodded <= fuel)%nat ->
  safe (nibble_retry verbose fuel start end2 count unprotect (if inside then start else 0)
    (if inside then end2 else start - 1) nmoved updated prodded) (fun _ => True).
Proof using Hg Hbps L RL Hroom.
  intros Hr Hst Hn Hc. pose proof Hr as [H1 H2]. destruct size_bound as (Hb1 & Hb2 & Hb3).
  revert inside nmoved updated prodded Hn; induction fuel as [|fuel IH]; intros inside nmoved updated prodded Hn Hf;
    [unfold rank in Hf; lia|]. cbn [nibble_retry].
  eapply rsafe_bind; [apply safe_nibble_pass; [destruct inside; lia| |exact Hn|exact Hc|lia]|].
  { destruct inside; [done|]. change (2 ^ 49) with 562949953421312 in *. lia. }
  intros [n [|]] Hn'.
  { eapply (rsafe_bind _ _ _ _ (fun _ => True)); [|intros; by apply rsafe_ret].
    case_match; [eapply safe_ignore, safe_try_update|by apply rsafe_ret]. }
  specialize (Hn' eq_refl). unfold rank in Hf.
  destruct (Z.leb_spec start (if inside then end2 else start - 1)).
  { destruct inside; [|lia]. change (2 ^ 49) with 562949953421312 in *. rewrite u64_id by (unfold_words; lia).
    apply (IH false); [done|unfold rank; lia]. }
  destruct inside; [lia|]. destruct updated; cbn [negb].
  - destruct prodded; cbn [negb]; [by apply rsafe_ret|].
    eapply rsafe_bind; [apply safe_find_active; [exact Hr|lia|lia]|]. intros [v nb] [[_ Hl] Hnb].
    destruct v as [|s v]; [by apply rsafe_ret|]. set (v' := s :: v) in *.
    apply (rsafe_bind _ _ _ _ (fun l => l = layout_of sb)); [apply safe_gets; by intros x [? _]|]. intros l ->.
    change (lo_blocks_per_segment (layout_of sb)) with (sb_get sb s_blocks_per_segment).
    set (bps := sb_get sb s_blocks_per_segment) in *. change (2 ^ 29) with 536870912 in Hb3.
    assert (bps <= 536870912) by nia. cbv zeta. rewrite u32_id by (unfold_words; lia).
    destruct (Z.leb_spec (bps * 2) nb); [nia|].
    eapply rsafe_bind; [apply safe_verbose_msg|]. intros _ _.
    eapply rsafe_bind; [apply safe_or_report, safe_prod_fs; fold bps; lia|]. intros _ _.
    eapply rsafe_bind; [apply safe_verbose_msg|]. intros _ _.
    apply (IH true); [done|unfold rank; lia].
  - eapply rsafe_bind; [apply safe_try_update|]. intros _ _. apply (IH true); [done|unfold rank; lia].
Qed.

Lemma safe_nibble start end_ count unprotect : range_ok start end_ -> 1 <= start -> 1 <= count < 2 ^ 63 ->
  safe (nilfs_resize_reclaim_nibble verbose start end_ count unprotect) (fun _ => True).
Proof using Hg Hbps L RL Hroom.
  intros Hr Hst Hc. eapply rsafe_bind.
  - apply safe_or_report, (safe_nibble_retry NIBBLE_FUEL start end_ count unprotect true 0 false false); try done; lia.
  - intros [|] _; [by apply rsafe_ret|]. eapply rsafe_bind; [apply safe_msg|]. intros; apply safe_failed.
Qed.

Lemma safe_move_out_loop fuel start end_ retrycnt : range_ok start end_ -> 1 <= start ->
  0 <= retrycnt <= 6 -> retrycnt + Z.of_nat fuel = 7 ->
  safe (move_out_loop verbose fuel start end_ retrycnt) (fun _ => True).
Proof using Hg Hbps L RL Hroom.
  intros Hr Hst. revert retrycnt; induction fuel as [|fuel IH]; intros n Hn Hf; [lia|]. cbn [move_out_loop].
  eapply rsafe_bind; [apply safe_update_sustat|]. intros _ _.
  eapply rsafe_bind; [apply safe_find_active; [exact Hr|unfold NILFS_RESIZE_NSEGNUMS; lia|done]|].
  intros [v nb] [[_ Hl] _]. destruct v as [|s v]; [by apply rsafe_ret|].
  destruct (Z.leb_spec 6 n); [eapply rsafe_bind; [apply safe_msg|]; intros; apply safe_failed|].
  apply (rsafe_bind _ _ _ _ (fun _ => True)); [case_match; [apply safe_verbose_msg|by apply rsafe_ret]|]. intros _ _.
  eapply rsafe_bind; [apply safe_nibble; [exact Hr|exact Hst|]|].
  { unfold NILFS_RESIZE_NSEGNUMS in Hl. change (2 ^ 63) with 9223372036854775808. cbn [length] in *. lia. }
  intros _ _. eapply rsafe_bind; [apply safe_nanosleep|]. intros _ _. apply IH; lia.
Qed.

Lemma safe_refresh_progress start end_ : range_ok start end_ -> safe (refresh_progress start end_) (fun _ => True).
Proof using L RL Hroom.
  intros Hr. pose proof Hr as [H1 H2]. change (2 ^ 49) with 562949953421312 in H2.
  apply (rsafe_bind _ _ _ _ (fun _ => True)); [by apply safe_gets|]. intros p _.
  destruct (pm_in_progress p =? 0); [by apply rsafe_ret|].
  eapply rsafe_bind; [apply rsafe_attempt, safe_count_inuse, Hr|]. intros [n|e] Hn; [|by apply rsafe_ret].
  destruct (n <? 0); [by apply rsafe_ret|].
  apply (rsafe_bind _ _ _ _ (fun _ => True)).
  { apply safe_modify. intros x (H3 & H4 & H5). destruct (Z.ltb_spec (pm_max (r_pm x)) n); [|done].
    split; [done|]. split; [done|]. split; [|exact H5]. destruct H4 as [H4|(H6 & H7 & H8)]; [by left|right].
    simpl. change (2 ^ 50) with 1125899906842624 in *. lia. }
  intros _ _. apply (rsafe_bind _ _ _ _ (fun _ => True)); [by apply safe_gets|]. intros q _.
  apply safe_progress_update, u64_range.
Qed.

Lemma safe_reclaim_loop fuel start end_ segnum : range_ok start end_ -> 1 <= start -> 0 <= segnum ->
  (Z.to_nat (end_ - segnum + 1) < fuel)%nat ->
  safe (reclaim_loop verbose fuel start end_ segnum) (fun _ => True).
Proof using Hg Hbps L RL Hroom.
  intros Hr Hst. pose proof Hr as [H1 H2]. revert segnum; induction fuel as [|fuel IH]; intros segnum Hs Hf; [lia|].
  cbn [reclaim_loop]. destruct (Z.leb_spec segnum end_); [|by apply rsafe_ret].
  assert (Hr' : range_ok segnum end_) by (split; [lia|done]).
  eapply rsafe_bind; [apply safe_find_reclaimable; [exact Hr'|unfold NILFS_RESIZE_NSEGNUMS; lia]|]. intros v Hv.
  destruct (last v) as [l|] eqn:Hl; [|by apply rsafe_ret].
  destruct (found_last _ _ _ _ _ Hr' Hv Hl) as (Hpos & Hl1 & Hl2). destruct Hv as [_ Hlen].
  unfold NILFS_RESIZE_NSEGNUMS in Hlen.
  eapply rsafe_bind; [apply safe_or_report, safe_move_segments; [exact Hpos|]|].
  { change (2 ^ 63) with 9223372036854775808. lia. }
  intros [nm reason] _. apply (rsafe_bind _ _ _ _ (fun _ => True)).
  { case_match; [|by apply rsafe_ret]. eapply rsafe_bind; [eapply safe_ignore, safe_nibble; done|].
    intros _ _. by apply safe_refresh_progress. }
  intros _ _. rewrite Hl2. apply IH; lia.
Qed.

Lemma safe_reclaim_range newnsegs : 1 <= newnsegs -> safe (nilfs_resize_reclaim_range verbose newnsegs) (fun _ => True).
Proof using Hg Hbps L RL Hroom.
  intros Hn. eapply rsafe_bind; [apply safe_update_sustat|]. intros _ _.
  apply (rsafe_bind _ _ _ _ (fun st => 0 <= ss_nsegs st < 2 ^ 49)).
  { apply safe_gets. intros x (_ & _ & H1 & H2). lia. }
  intros st Hst. change (2 ^ 49) with 562949953421312 in Hst.
  destruct (Z.ltb_spec (ss_nsegs st) newnsegs).
  { eapply rsafe_bind; [apply safe_msg|]. intros; apply safe_failed. }
  destruct (Z.eqb_spec newnsegs (ss_nsegs st)); [by apply rsafe_ret|].
  cbv zeta. rewrite (u64_id (ss_nsegs st - 1)) by (unfold_words; lia).
  assert (Hr : range_ok newnsegs (ss_nsegs st - 1)) by (split; [lia|change (2 ^ 49) with 562949953421312; lia]).
  eapply rsafe_bind; [apply safe_move_out_loop; done || lia|]. intros moved _.
  apply (rsafe_bind _ _ _ _ (fun _ => True)); [destruct moved; [by apply safe_refresh_progress|by apply rsafe_ret]|].
  intros _ _. apply safe_reclaim_loop; done || lia.
Qed.
End Empty.


(** ** The lock and the control operations *)

(** A computation that cannot fail and keeps the invariant. *)
Definition calm (lk : bool) (c : list control) {A} (m : R A) (P : A -> Prop) : Prop :=
  forall x, inv lk c x -> wp m (fun a x' => P a /\ inv lk c x') (fun _ _ => False) x.

Lemma calm_ret lk c {A} (a : A) (P : A -> Prop) : P a -> calm lk c (ret a) P.
Proof using. by intros ? x ?. Qed.
Lemma calm_bind lk c {A B} (m : R A) (k : A -> R B) P P' :
  calm lk c m P -> (forall a, P a -> calm lk c (k a) P') -> calm lk c (bind m k) P'.
Proof using.
  intros Hm Hk x Hx. eapply wp_seq; [by apply Hm| |done]. intros a x' [Ha Hx']. by apply (Hk a Ha).
Qed.
Lemma calm_attempt lk c {A} (m : R A) (P : A -> Prop) : safe lk c m P ->
  calm lk c (attempt m) (fun r => match r with inl a => P a | inr _ => True end).
Proof using. intros Hm x Hx. apply wp_attempt. eapply wp_mono; [by apply Hm| |]; simpl; tauto. Qed.
Lemma calm_ignore lk c {A} (m : R A) (P : A -> Prop) : safe lk c m P -> calm lk c (ignore m) (fun _ => True).
Proof using.
  intros Hm. unfold ignore. eapply calm_bind; [by apply calm_attempt|]. intros; by apply calm_ret.
Qed.
Lemma calm_gets lk c {A} (f : rs W -> A) (P : A -> Prop) : (forall x, vars_ok x -> P (f x)) -> calm lk c (gets f) P.
Proof using. intros Hp x Hx. wp_step. split; [apply Hp, Hx|done]. Qed.

(** Computations without calls do not fail. *)
Lemma calm_of lk c {A} (m : R A) (P : A -> Prop) :
  safe lk c m P -> (forall x, match m x with (Err _, _) => False | _ => True end) -> calm lk c m P.
Proof using.
  intros Hm He x Hx. specialize (Hm x Hx). specialize (He x). unfold wp in *. by destruct (m x) as [[] x'].
Qed.
Lemma calm_msg lk c m : calm lk c (msg m) (fun _ => True).
Proof using. by apply calm_of; [apply safe_msg|]. Qed.
Lemma calm_verbose lk c s : calm lk c (verbose_msg verbose s) (fun _ => True).
Proof using. unfold verbose_msg. case_if; [apply calm_msg|by apply calm_ret]. Qed.
Lemma calm_modify lk c f : (forall x, vars_ok x -> r_lib (f x) = r_lib x /\ vars_ok (f x)) ->
  calm lk c (modify f) (fun _ => True).
Proof using. intros Hf. by apply calm_of; [apply safe_modify|]. Qed.
Lemma calm_env_tt lk c (f : W -> W) : (forall w, view fs_of locked ctl (f w) = view fs_of locked ctl w) ->
  calm lk c (env_tt f) (fun _ => True).
Proof using. intros Hf. by apply calm_of; [apply safe_env_tt|]. Qed.

(** A step of the world on which the invariant depends. *)
Lemma os_control {A} lk c lk' c' (f : W -> (A + Z) * W) (Q : A -> sys W -> Prop) (E : Z -> sys W -> Prop) s :
  lib_ok lk c s ->
  (forall r w', f (s_world s) = (r, w') ->
     fs_sb (fs_of w') = sb /\ locked w' = lk' r /\ ctl w' = c' r) ->
  (forall a s', lib_ok (lk' (inl a)) (c' (inl a)) s' -> Q a s') ->
  (forall e s', lib_ok (lk' (inr e)) (c' (inr e)) s' -> E e s') -> wp (os f) Q E s.
Proof using.
  intros (H1 & H2 & H3 & H4 & H5) Hf HQ HE. unfold wp, os. specialize (Hf _ _ (surjective_pairing _)).
  destruct (f (s_world s)) as [[a|e] w]; simpl in *; destruct Hf as (F1 & F2 & F3); [apply HQ|apply HE]; by split_and!.
Qed.

Lemma wp_libs {A} (m : M (sys W) A) (Q : A -> rs W -> Prop) E x (Q' : A -> sys W -> Prop) E' : vars_ok x ->
  wp m Q' E' (g_sys (r_lib x)) ->
  (forall a x', vars_ok x' -> Q' a (g_sys (r_lib x')) -> Q a x') ->
  (forall e x', vars_ok x' -> E' e (g_sys (r_lib x')) -> E e x') -> wp (libs m) Q E x.
Proof using.
  intros Hv Hm HQ HE. unfold wp, libs, lib, call in *.
  destruct (m (g_sys (r_lib x))) as [[a|e| | |] s]; try done; [by apply HQ|by apply HE].
Qed.

Lemma lock_ok c s : lib_ok false c s -> wp (nilfs_lock 0) (fun _ => lib_ok true c) (fun _ => lib_ok false c) s.
Proof using L RL.
  intros Hs. pose proof Hs as (_ & _ & Hsem & _). unfold nilfs_lock, with_sem, the_nilfs. simpl. wp_step. wp_step.
  rewrite Hsem. apply (os_control false c (fun r => match r with inl _ => true | inr _ => false end) (fun _ => c)); auto.
  destruct Hs as (H1 & _ & _ & H4 & H5). intros r w' Hr. pose proof (qs_wait (QuietSync := qc_sync) (s_world s)) as Hc.
  destruct (fl_wait _ _ _ Hr) as (-> & _ & ->). rewrite Hr in Hc. simpl in Hc. rewrite Hc, H4.
  split_and!; [done|by destruct r|done].
Qed.

Lemma unlock_ok lk c s : lib_ok lk c s -> wp (nilfs_unlock 0) (fun _ => lib_ok false c) (fun _ _ => False) s.
Proof using L RL.
  intros Hs. pose proof Hs as (H1 & H2 & H3 & _ & H5). unfold nilfs_unlock, with_sem, the_nilfs. simpl. wp_step. wp_step.
  rewrite H3. unfold wp, os. pose proof (qs_post (QuietSync := qc_sync) (s_world s)) as Hc.
  destruct (fl_post (s_world s)) as (w' & Hw & F1 & _ & F3). rewrite Hw in *. simpl in Hc.
  unfold lib_ok. simpl. rewrite F1, F3, Hc. by split_and!.
Qed.

Lemma lock_cleaner_wp c x : inv false c x ->
  wp nilfs_resize_lock_cleaner (fun _ => inv true c) (fun _ => inv false c) x.
Proof using L RL.
  intros Hx. eapply wp_seq; [by apply safe_block| |done]. intros [] x1 [_ [Hl1 Hv1]].
  eapply (wp_try _ _ (fun _ => inv true c) (fun _ => inv false c)).
  - eapply wp_libs; [exact Hv1|by apply lock_ok| |]; intros a x' Hv Hl; by split.
  - intros [] x2 Hx2. by wp_step.
  - intros e x2 Hx2. eapply wp_seq; [by apply safe_msg| |done]. intros [] x3 [_ Hx3].
    eapply wp_seq; [by apply safe_restore| |done]. intros [] x4 [_ Hx4]. exact Hx4.
Qed.

Lemma unlock_cleaner_wp lk c x : inv lk c x ->
  wp nilfs_resize_unlock_cleaner (fun _ => inv false c) (fun _ _ => False) x.
Proof using L RL.
  intros [Hl Hv]. unfold nilfs_resize_unlock_cleaner, ignore. wp_step. wp_step. wp_step.
  eapply wp_libs; [exact Hv|by eapply unlock_ok| |done]. intros [] x1 Hv1 Hl1. wp_step.
  eapply wp_mono; [apply (calm_env_tt false c); [apply v_restore|by split]| |done]. by intros [] x2 [_ Hx2].
Qed.

(** The statistics cannot be read, or there is no file for the ioctls. *)
Definition blind (x : rs W) : Prop :=
  unread (world x) = true \/ n_iocfd (s_nilfs (g_sys (r_lib x))) < 0.

Lemma update_sustat_blind c x : inv false c x ->
  wp nilfs_resize_update_sustat (fun _ => inv false c) (fun _ x' => inv false c x' /\ blind x') x.
Proof using RL SR.
  intros Hx. assert (Hs := safe_update_sustat false c x Hx). revert Hs.
  unfold wp, nilfs_resize_update_sustat, or_report, libs, lib, call, nilfs_get_sustat, with_iocfd, the_nilfs, bind, gets, attempt, os, fail.
  destruct (Z.ltb_spec (n_iocfd (s_nilfs (g_sys (r_lib x)))) 0) as [Hfd|Hfd].
  { intros Hinv. split; [exact Hinv|]. right. unfold err, msg, print, bind, modify, ret. cbn [fst snd].
    case_if; exact Hfd. }
  destruct (ioc_get_sustat _ (s_world (g_sys (r_lib x)))) as [[st|e] w'] eqn:Hq; [by intros []|].
  intros Hinv. split; [exact Hinv|]. left. apply sr_sustat in Hq.
  unfold err, msg, print, bind, modify, ret. cbn [fst snd]. case_if; exact Hq.
Qed.

Section Control.
Context (newsize : Z) (Hsize : 0 <= newsize < 2 ^ 64).
Abbreviation devsize := (u64 (sb_get sb s_dev_size)).

(** The two control operations: each is recorded, unless the file descriptor
    is not open. *)
Lemma set_range_wp c hi x : inv false c x -> is_u64 hi ->
  wp (libs (nilfs_set_alloc_range 0 hi)) (fun _ => inv false (c ++ [SetRange 0 hi true]))
    (fun _ x' => (inv false c x' /\ blind x') \/ inv false (c ++ [SetRange 0 hi false]) x') x.
Proof using RL.
  intros [Hl Hv] Hhi. eapply (wp_libs _ _ _ _ (fun _ => lib_ok false (c ++ [SetRange 0 hi true]))
    (fun _ s => (lib_ok false c s /\ n_iocfd (s_nilfs s) < 0) \/ lib_ok false (c ++ [SetRange 0 hi false]) s)); [exact Hv| | |].
  - unfold nilfs_set_alloc_range, with_iocfd, the_nilfs. wp_step. wp_step. case_if; [wp_step; by left|].
    rewrite (u64_id hi), (u64_id 0) by (done || (unfold_words; lia)).
    apply (os_control false c (fun _ => false) (fun r => c ++ [SetRange 0 hi (match r with inl _ => true | inr _ => false end)]));
      [done| |auto|auto].
    intros r w' Hr. destruct Hl as (H1 & _ & _ & H4 & H5). destruct (rl_range _ _ _ _ _ _ Hr) as (-> & -> & ->).
    by rewrite H1, H4, H5.
  - intros [] x' Hv' Hl'. by split.
  - intros e x' Hv' [[Hl' Hfd]|Hl']; [left; split; [by split|by right]|right; by split].
Qed.

Lemma resize_wp c x : inv true c x ->
  wp (libs (nilfs_resize newsize)) (fun _ => inv true (c ++ [Cut newsize true None]))
    (fun e x' => e = EBADF /\ inv true c x' \/ inv true (c ++ [Cut newsize true (Some e)]) x') x.
Proof using RL Hsize.
  intros [Hl Hv]. eapply (wp_libs _ _ _ _ (fun _ => lib_ok true (c ++ [Cut newsize true None]))
    (fun e s => e = EBADF /\ lib_ok true c s \/ lib_ok true (c ++ [Cut newsize true (Some e)]) s)); [exact Hv| | |].
  - unfold nilfs_resize, with_iocfd, the_nilfs. wp_step. wp_step. case_if; [wp_step; by left|].
    rewrite (u64_id newsize) by done.
    apply (os_control true c (fun _ => true) (fun r => c ++ [Cut newsize true (error_of r)]));
      [done| |auto|auto].
    intros r w' Hr. destruct Hl as (H1 & _ & _ & H4 & H5). destruct (rl_resize _ _ _ _ _ Hr) as (-> & -> & ->).
    by rewrite H1, H4, H5.
  - intros [] x' Hv' Hl'. by split.
  - intros e x' Hv' [[-> Hl']|Hl']; [left; split; [done|]|right]; by split.
Qed.

(** *** Shrinking *)

Lemma shl64_is_Some x : is_Some (shl64 x (lo_blocksize_bits (layout_of sb))).
Proof using Hg.
  destruct Hg as [Hb _ _ _ _]. unfold shl64. change (lo_blocksize_bits (layout_of sb)) with (sb_get sb s_log_block_size + 10).
  destruct (Z.leb_spec 0 (sb_get sb s_log_block_size + 10)), (Z.ltb_spec (sb_get sb s_log_block_size + 10) 64);
    [by eexists|lia..].
Qed.

(** The check of the free space fails if no segment would be left. *)
Lemma safe_check_free_space lk c newnsegs : 0 <= newnsegs ->
  safe lk c (nilfs_resize_check_free_space verbose newnsegs) (fun _ => 1 <= newnsegs).
Proof using Hg.
  intros Hn. unfold nilfs_resize_check_free_space.
  apply (rsafe_bind _ _ _ _ (fun l => l = layout_of sb)); [apply safe_gets; by intros x [? _]|]. intros l ->.
  apply (rsafe_bind _ _ _ _ (fun st => 0 <= ss_ncleansegs st <= ss_nsegs st /\ ss_nsegs st < 2 ^ 49)).
  { apply safe_gets. by intros x (_ & _ & H1). }
  intros st [Hst1 Hst2]. change (2 ^ 49) with 562949953421312 in Hst2. cbv zeta. unfold nilfs_resize_calc_size_of_segments.
  set (nrsv := nilfs_resize_calc_nrsvsegs _ _).
  destruct (Z.ltb_spec (ss_ncleansegs st) (u64 (u64 (ss_nsegs st - newnsegs) + nrsv))).
  - match goal with |- context [shl64 ?a ?b] => destruct (shl64_is_Some a) as [nb Hnb] end.
    apply (rsafe_bind _ _ _ _ (fun _ => True)); [by eapply rsafe_of_option|]. intros nb' _.
    eapply rsafe_bind; [apply safe_msg|]. intros; apply safe_failed.
  - assert (1 <= newnsegs).
    { destruct (decide (newnsegs = 0)) as [Hz|]; [|lia]. exfalso. revert H. subst newnsegs.
      assert (nrsv = 8) as -> by (unfold nrsv, nilfs_resize_calc_nrsvsegs; rewrite Z.mul_0_l; reflexivity).
      rewrite Z.sub_0_r, (u64_id (ss_nsegs st)), u64_id by (unfold_words; lia). lia. }
    destruct verbose; [|by apply rsafe_ret].
    match goal with |- context [shl64 ?a ?b] => destruct (shl64_is_Some a) as [nb Hnb] end.
    apply (rsafe_bind _ _ _ _ (fun _ => True)); [by eapply rsafe_of_option|]. intros nb' _.
    eapply safe_impl; [apply safe_msg|done].
Qed.

Lemma calm_print_error lk c ec b : calm lk c (nilfs_print_resize_error ec b) (fun _ => True).
Proof using. eapply calm_bind; [apply calm_msg|]. intros _ _. case_if; [apply calm_msg|by apply calm_ret]. Qed.

(** One attempt: it is recorded, and the lock is free afterwards. *)
Lemma truncate_wp c x : inv true c x ->
  wp (truncate_segments verbose newsize) (fun r x' =>
      (exists e, r = inr e /\ e <> EBUSY) /\ inv false c x' \/ inv false (c ++ [Cut newsize true (error_of r)]) x')
    (fun _ _ => False) x.
Proof using L RL Hsize.
  intros Hx. unfold truncate_segments. eapply wp_seq; [by apply calm_verbose| |done]. intros [] x1 [_ Hx1].
  eapply wp_try; [by apply resize_wp| |].
  - intros [] x2 Hx2. eapply wp_seq; [by eapply unlock_cleaner_wp| |done]. intros [] x3 Hx3. wp_step. by right.
  - intros e x2 [[-> Hx2]|Hx2]; (eapply wp_seq; [by eapply unlock_cleaner_wp| |done]); intros [] x3 Hx3; wp_step;
      [left; split; [by exists EBADF|done]|by right].
Qed.

Lemma safe_recheck c newnsegs : 0 <= newnsegs -> safe false c (shrink_recheck verbose newnsegs) (fun _ => True).
Proof using Hg RL.
  intros Hn. eapply rsafe_bind; [apply safe_load_layout|]. intros _ _.
  eapply rsafe_bind; [apply safe_update_sustat|]. intros _ _.
  eapply safe_impl; [by apply safe_check_free_space|done].
Qed.

Lemma shrink_loop_wp n newnsegs c x : 1 <= newnsegs -> inv false c x ->
  wp (shrink_loop verbose n newsize newnsegs)
    (fun e x' => exists tr, attempts newsize n tr e /\ inv false (c ++ tr) x') (fun _ _ => False) x.
Proof using Hg Hbps L RL Hsize Hroom.
  intros Hn. revert c x; induction n as [|n IH]; intros c x Hx; cbn [shrink_loop].
  { eapply wp_seq; [by apply calm_msg| |done]. intros [] x1 [_ Hx1]. wp_step. exists []. rewrite app_nil_r.
    split; [constructor|done]. }
  eapply (wp_try _ _ (fun _ => inv true c) (fun _ => inv false c)).
  { eapply wp_seq; [by apply safe_reclaim_range| |done]. intros [] x1 [_ Hx1]. by apply lock_cleaner_wp. }
  2:{ intros e x1 Hx1. wp_step. exists []. rewrite app_nil_r. split; [constructor|done]. }
  intros [] x1 Hx1. eapply wp_seq; [by apply truncate_wp| |done]. intros r x2 Hr.
  destruct r as [[]|ec]; [wp_step|].
  { destruct Hr as [[(e & He & _) _]|Hx2]; [done|]. eexists. split; [constructor|exact Hx2]. }
  destruct (Z.eqb_spec ec EBUSY) as [->|Hne]; cbn [negb].
  - destruct Hr as [[(e & [= <-] & He) _]|Hx2]; [done|].
    eapply wp_try; [apply safe_recheck; [lia|exact Hx2]| |].
    + intros [] x3 [_ Hx3]. eapply wp_seq; [by apply calm_verbose| |done]. intros [] x4 [_ Hx4].
      eapply wp_mono; [by apply IH| |done]. intros e x5 (tr & Htr & Hx5). rewrite <- app_assoc in Hx5.
      eexists. split; [by apply at_retry|exact Hx5].
    + intros e x3 Hx3. wp_step. eexists. split; [apply at_busy|exact Hx3].
  - destruct Hr as [[_ Hx2]|Hx2]; (eapply wp_seq; [by apply calm_print_error| |done]); intros [] x3 [_ Hx3]; wp_step.
    + exists []. rewrite app_nil_r. split; [constructor|done].
    + eexists. split; [by apply at_error|exact Hx3].
Qed.

Lemma restore_range_wp c x : inv false c x ->
  wp nilfs_resize_restore_alloc_range (fun _ x' => (inv false c x' /\ blind x') \/ exists ok, inv false (c ++ [SetRange 0 devsize ok]) x')
    (fun _ _ => False) x.
Proof using RL SR.
  intros Hx. eapply wp_try; [by apply update_sustat_blind| |intros e x1 Hx1; wp_step; by left].
  intros [] x1 Hx1. wp_step. wp_step. pose proof Hx1 as (_ & Hlay & _). rewrite Hlay.
  change (lo_devsize (layout_of sb)) with (sb_get sb s_dev_size).
  assert (Hset : libs (nilfs_set_alloc_range 0 (sb_get sb s_dev_size)) = libs (nilfs_set_alloc_range (W := W) 0 devsize)).
  { unfold nilfs_set_alloc_range. by rewrite (u64_id devsize) by apply u64_range. }
  rewrite Hset. unfold ignore. eapply wp_try; [apply set_range_wp; [done|apply u64_range]| |].
  - intros [] x2 Hx2. wp_step. right. by exists true.
  - intros e x2 [Hx2|Hx2]; wp_step; [by left|right; by exists false].
Qed.

Lemma calm_shrink_begin c newnsegs : 1 <= newnsegs -> calm false c (shrink_begin newnsegs) (fun _ => True).
Proof using L RL Hroom.
  intros Hn. unfold shrink_begin.
  apply (calm_bind _ _ _ _ (fun st => 0 <= ss_nsegs st < 2 ^ 49)).
  { apply calm_gets. intros x (_ & _ & H1 & H2). lia. }
  intros st Hst. change (2 ^ 49) with 562949953421312 in Hst.
  destruct (Z.ltb_spec newnsegs (ss_nsegs st)); [|by apply calm_ret].
  rewrite (u64_id (ss_nsegs st - 1)) by (unfold_words; lia).
  eapply calm_bind; [by apply calm_modify|]. intros _ _.
  assert (Hr : range_ok newnsegs (ss_nsegs st - 1)) by (split; [lia|change (2 ^ 49) with 562949953421312; lia]).
  eapply calm_bind; [apply calm_attempt, safe_count_inuse, Hr|]. intros [n|e] Hc; [|by apply calm_ret].
  destruct (Z.ltb_spec 0 n); [|by apply calm_ret].
  change (true && show_progress) with true. eapply calm_bind; [apply calm_msg|]. intros _ _.
  apply calm_of; [apply safe_progress_init; change (2 ^ 50) with 1125899906842624; lia|done].
Qed.

(** From the limit of the range of allocation on. *)
Lemma shrink_commit_wp c newnsegs x : 1 <= newnsegs -> inv false c x ->
  wp (shrink_commit verbose newsize newnsegs) (fun status x' => exists tr, inv false (c ++ tr) x' /\
      (tr = [] /\ status = EXIT_FAILURE \/ tr = [SetRange 0 newsize false] /\ status = EXIT_FAILURE \/
       exists tr', tr = SetRange 0 newsize true :: tr' /\ shrunk devsize newsize (blind x') tr' status))
    (fun _ _ => False) x.
Proof using Hg Hbps L RL Hsize SR Hroom.
  intros Hn Hx. unfold shrink_commit. eapply wp_try; [by apply set_range_wp| |].
  2:{ intros e x1 Hx1. assert (Hex : exists tr, inv false (c ++ tr) x1 /\ (tr = [] \/ tr = [SetRange 0 newsize false])).
      { destruct Hx1 as [[Hx1 _]|Hx1]; [exists []; rewrite app_nil_r|]; eauto. }
      clear Hx1. destruct Hex as (tr & Hx1 & Htr).
      eapply wp_seq; [by apply calm_msg| |done]. intros [] x2 [_ Hx2].
      eapply (wp_seq _ _ (fun _ x' => inv false (c ++ tr) x') (fun _ _ => False)); [| |done].
      { case_if; [eapply wp_mono; [by apply calm_msg| |done]; by intros ? ? [_ ?]|by wp_step]. }
      intros [] x3 Hx3. wp_step. exists tr. naive_solver. }
  intros [] x1 Hx1. eapply wp_seq; [by apply calm_shrink_begin| |done]. intros [] x2 [_ Hx2].
  eapply wp_seq; [by apply shrink_loop_wp| |done]. intros e x3 (cuts & Hat & Hx3). rewrite <- app_assoc in Hx3.
  destruct e.
  - wp_step. eexists. split; [exact Hx3|]. right; right. exists cuts. split; [done|].
    exists cuts, Shrunk, []. rewrite app_nil_r. done.
  - eapply wp_seq; [by apply restore_range_wp| |done]. intros [] x4 Hx4. wp_step.
    destruct Hx4 as [[Hx4 Hbl]|[ok Hx4]].
    + eexists. split; [exact Hx4|]. right; right. exists cuts. split; [done|].
      exists cuts, RestoreRange, []. rewrite app_nil_r. split_and!; try done. by left.
    + rewrite <- app_assoc in Hx4. eexists. split; [exact Hx4|]. right; right. eexists. split; [done|].
      exists cuts, RestoreRange, [SetRange 0 devsize ok]. split_and!; try done. right. by exists ok.
  - wp_step. eexists. split; [exact Hx3|]. right; right. exists cuts. split; [done|].
    exists cuts, GaveUp, []. rewrite app_nil_r. done.
Qed.

Lemma new_nsegments_some : exists n, new_nsegments (layout_of sb) newsize = Some n /\ 0 <= n.
Proof using Hg Hbps Hsize.
  destruct Hg as [Hb _ _ _ _]. unfold NILFS_SEG_MIN_BLOCKS in Hbps. unfold new_nsegments.
  change (lo_blocks_per_segment (layout_of sb)) with (sb_get sb s_blocks_per_segment).
  change (lo_blocksize_bits (layout_of sb)) with (sb_get sb s_log_block_size + 10).
  case_if; [|by exists 0]. destruct (Z.eqb_spec (sb_get sb s_blocks_per_segment) 0); [lia|].
  destruct (Z.leb_spec 64 (sb_get sb s_log_block_size + 10)); [lia|]. eexists. split; [done|].
  apply Z.div_pos; [|lia]. apply Z.shiftr_nonneg, u64_range.
Qed.

Lemma calm_shrink_check c newnsegs : 0 <= newnsegs ->
  calm false c (shrink_check verbose newnsegs) (fun b => b = true -> 1 <= newnsegs).
Proof using Hg.
  intros Hn. eapply calm_bind; [by apply calm_attempt, safe_check_free_space|].
  intros [[]|e] Hr; [|by apply calm_ret].
  apply (calm_bind _ _ _ _ (fun _ => True)); [by apply calm_gets|]. intros st _.
  repeat case_if; (eapply calm_bind; [apply calm_msg|]; intros; by apply calm_ret).
Qed.

Lemma calm_prompt c : calm false c nilfs_resize_prompt (fun _ => True).
Proof using RL.
  eapply calm_bind; [apply calm_msg|]. intros _ _.
  apply calm_of.
  - apply (rsafe_bind _ _ _ _ (fun _ => True)); [by apply safe_env; [apply v_getchar|]|]. intros; by apply rsafe_ret.
  - intros x. unfold env, libs, lib, call, bind, ret. by destruct (e_getchar _).
Qed.

(** What a run that started with the record [c] leaves behind. *)
Definition outcome (c : list control) (status : Z) (x : rs W) : Prop :=
  exists tr, lib_ok false (c ++ tr) (g_sys (r_lib x)) /\ protocol devsize newsize (blind x) tr status.

Lemma outcome_nothing c x status : (status = EXIT_SUCCESS -> newsize = devsize) ->
  lib_ok false c (g_sys (r_lib x)) -> outcome c status x.
Proof using. intros Hs Hx. exists []. rewrite app_nil_r. split; [done|]. by left. Qed.

Lemma shrink_online_wp c x : newsize < devsize -> inv false c x ->
  wp (nilfs_shrink_online verbose assume_yes newsize) (outcome c) (fun _ _ => False) x.
Proof using Hg Hbps L RL Hsize SR Hroom.
  intros Hlt Hx. unfold nilfs_shrink_online.
  eapply wp_try; [by apply safe_update_sustat| |].
  2:{ intros e x1 Hx1. wp_step. apply outcome_nothing; [done|apply Hx1]. }
  intros [] x1 [_ Hx1]. eapply wp_seq; [by apply calm_msg| |done]. intros [] x2 [_ Hx2].
  wp_step. wp_step. pose proof Hx2 as (_ & Hlay & _). rewrite Hlay.
  destruct new_nsegments_some as (n & Hnew & Hn). rewrite Hnew. wp_step. wp_step.
  eapply wp_seq; [by apply calm_shrink_check| |done]. intros go x3 [Hgo Hx3].
  eapply (wp_seq _ _ (fun go' x' => (go' = true -> 1 <= n) /\ inv false c x') (fun _ _ => False)); [| |done].
  { destruct go; [|by wp_step]. destruct assume_yes; [wp_step; split; auto|].
    eapply wp_mono; [by apply calm_prompt| |done]. intros b x4 [_ Hx4]. split; auto. }
  intros go' x4 [Hgo' Hx4].
  eapply (wp_seq _ _ (fun status x' => outcome c status x' ) (fun _ _ => False)); [| |done].
  - destruct go'; [|wp_step; by apply outcome_nothing; [|apply Hx4]].
    eapply wp_mono; [by apply shrink_commit_wp; [auto|]| |done].
    intros status x5 (tr & Hx5 & Htr). exists tr. split; [apply Hx5|].
    destruct Htr as [[-> ->]|[[-> ->]|Htr]]; [by left|right; right; split; [done|by left]|].
    right; right. split; [done|by right].
  - intros status x5 Hx5. unfold nilfs_resize_progress_exit. wp_step. wp_step. wp_step. exact Hx5.
Qed.

Lemma extend_online_wp c x : devsize < newsize -> inv false c x ->
  wp (nilfs_extend_online assume_yes newsize) (outcome c) (fun _ _ => False) x.
Proof using L RL Hsize.
  intros Hlt Hx. unfold nilfs_extend_online.
  eapply wp_seq; [by apply calm_msg| |done]. intros [] x1 [_ Hx1].
  eapply (wp_seq _ _ (fun _ => inv false c) (fun _ _ => False)); [| |done].
  { destruct assume_yes; [by wp_step|]. eapply wp_mono; [by apply calm_prompt| |done]. by intros b x2 [_ Hx2]. }
  intros go x2 Hx2. destruct go; cbn [negb]; [|wp_step; by apply outcome_nothing; [|apply Hx2]].
  eapply wp_try; [by apply lock_cleaner_wp| |].
  2:{ intros e x3 Hx3. wp_step. by apply outcome_nothing; [|apply Hx3]. }
  assert (Hend : forall e status c' x', (status = EXIT_SUCCESS <-> e = None) ->
    c' = c ++ [Cut newsize true e] \/ c' = c /\ status <> EXIT_SUCCESS -> inv true c' x' ->
    wp (nilfs_resize_unlock_cleaner ;; ret status) (outcome c) (fun _ _ => False) x').
  { intros e status c' x' Hst Hc' Hx'. eapply wp_seq; [by eapply unlock_cleaner_wp| |done]. intros [] x4 [Hx4 _].
    wp_step. destruct Hc' as [->|[-> Hne]]; [|by apply outcome_nothing].
    eexists. split; [exact Hx4|]. right; left. split; [done|]. by exists e. }
  intros [] x3 Hx3. eapply wp_try; [by apply resize_wp| |].
  - intros [] x4 Hx4. wp_step. wp_step. by eapply (Hend None); [|left|exact Hx4].
  - intros e x4 Hx4. wp_step.
    assert (Hx4' : exists c', (c' = c ++ [Cut newsize true (Some e)] \/ c' = c) /\ inv true c' x4).
    { destruct Hx4 as [[_ ?]|?]; eauto. }
    destruct Hx4' as (c' & Hc' & Hx4'). eapply wp_seq; [by apply calm_print_error| |done]. intros [] x5 [_ Hx5].
    wp_step. eapply (Hend (Some e)); [done| |exact Hx5]. destruct Hc'; [by left|by right].
Qed.

(** The layout is loaded before it is used. *)
Lemma load_layout_wp c x : lib_ok false c (g_sys (r_lib x)) -> pm_ok (r_pm x) ->
  0 <= ss_ncleansegs (r_sustat x) <= ss_nsegs (r_sustat x) /\ ss_nsegs (r_sustat x) < 2 ^ 49 ->
  wp nilfs_resize_load_layout (fun _ => inv false c) (fun _ x' => lib_ok false c (g_sys (r_lib x'))) x.
Proof using Hg.
  intros Hl Hp Hs. pose proof (get_layout_ok _ _ _ Hl) as Hlay.
  unfold nilfs_resize_load_layout, or_report. apply wp_bind. eapply wp_try.
  - apply wp_lib. unfold wp, call in *. instantiate (1 := fun _ x' => lib_ok false c (g_sys (r_lib x'))).
    instantiate (1 := fun l x' => l = layout_of sb /\ lib_ok false c (g_sys (r_lib x')) /\ pm_ok (r_pm x') /\
      0 <= ss_ncleansegs (r_sustat x') <= ss_nsegs (r_sustat x') /\ ss_nsegs (r_sustat x') < 2 ^ 49).
    destruct (nilfs_get_layout 0x50 (g_sys (r_lib x))) as [[l|e| | |] s]; try done. destruct Hlay. done.
  - intros l x1 (-> & Hl1 & Hp1 & Hs1). wp_step. wp_step. by split.
  - intros e x1 Hl1. unfold err, msg, print. wp_step. wp_step. wp_step. wp_step.
    destruct (0 <? pm_in_progress (r_pm x1)); exact Hl1.
Qed.

Lemma resize_opened_wp c x : lib_ok false c (g_sys (r_lib x)) -> pm_ok (r_pm x) ->
  0 <= ss_ncleansegs (r_sustat x) <= ss_nsegs (r_sustat x) /\ ss_nsegs (r_sustat x) < 2 ^ 49 ->
  sb_get sb s_dev_size = devsize ->
  wp (resize_opened verbose assume_yes newsize) (outcome c) (fun _ _ => False) x.
Proof using Hg Hbps L RL Hsize SR Hroom.
  intros Hl Hp Hs Hdev. unfold resize_opened.
  eapply wp_try; [by apply load_layout_wp| |].
  2:{ intros e x1 Hx1. wp_step. by apply outcome_nothing. }
  intros [] x1 Hx1. wp_step. wp_step. pose proof Hx1 as (_ & Hlay & _). rewrite Hlay.
  change (lo_devsize (layout_of sb)) with (sb_get sb s_dev_size). rewrite Hdev.
  destruct (Z.eqb_spec newsize devsize).
  { eapply wp_seq; [by apply calm_msg| |done]. intros [] x2 [_ Hx2]. wp_step. apply outcome_nothing; [done|apply Hx2]. }
  eapply wp_seq; [eapply calm_ignore; [apply safe_sync|exact Hx1]| |done]. intros [] x2 [_ Hx2].
  eapply (wp_seq _ _ (outcome c) (fun _ _ => False)); [| |done].
  { destruct (Z.ltb_spec devsize newsize); [by apply extend_online_wp|apply shrink_online_wp; [lia|done]]. }
  intros status x3 Hx3. unfold msg, print. wp_step. wp_step. wp_step. wp_step. wp_step.
  destruct (0 <? pm_in_progress (r_pm x3)); exact Hx3.
Qed.
End Control.
End Resize.

(** ** The theorem *)

Section Protocol.
Context {W : Type} {K : Kernel W} {J : Junk} {T : ResizeEnv W}.
Context {fs_of : W -> fs} {requests : W -> list clean_request} {locked : W -> bool} {ctl : W -> list control}.
Context {L : FsLaws K fs_of requests locked} {RL : ResizeLaws K T fs_of locked ctl}.
Context {unread : W -> bool} {SR : StatRecord K unread}.
Abbreviation world x := (s_world (g_sys (r_lib x))).
Abbreviation sb_of x := (fs_sb (fs_of (world x))).

(** The state in which [nilfs_open] returns: the library is ready, and the
    variables of the tool have their first values. *)
Record opened (x : rs W) : Prop := {
  op_lib : idle (fs_of := fs_of) (locked := locked) (r_lib x);
  op_bps : NILFS_SEG_MIN_BLOCKS <= sb_get (sb_of x) s_blocks_per_segment;
  op_devsize : is_u64 (sb_get (sb_of x) s_dev_size);
  op_pm : pm_in_progress (r_pm x) = 0;
  op_sustat : r_sustat x = mk_sustat 0 0 0 0 0 0;
}.

(** C37: on a file system that answers as documented, and whose active
    segments are never full, resizing it ends: every search, retry and wait is
    bounded, and nothing is accessed outside of an object.  The lock is free
    afterwards, as posting its semaphore does not fail.  The kernel is asked to
    change the size only with the lock held, at most once to extend the file
    system; to shrink it, only after the range of allocation was limited, at
    most four times, and again only after EBUSY.  When an attempt ends in
    another way the tool sets the range back, or tries to; it does not try only
    if the kernel refused the statistics that it reads before that, or the
    library has no file for the ioctls.  The exit status is that of success
    exactly if the kernel reported success, or if there was nothing to do. *)
Theorem resize_protocol verbose assume_yes newsize (x : rs W) :
  active_have_room fs_of -> opened x -> is_u64 newsize ->
  match resize_opened verbose assume_yes newsize x with
  | (Ok status, x') => locked (world x') = false /\
      exists tr, ctl (world x') = ctl (world x) ++ tr /\
        protocol (sb_get (sb_of x) s_dev_size) newsize (blind (unread := unread) x') tr status
  | _ => False
  end.
Proof using L RL SR.
  intros Hroom [[(H1 & H2 & H3) H4] Hbps Hdev Hpm Hst] Hsize.
  assert (Hwp : wp (resize_opened verbose assume_yes newsize)
    (outcome (fs_of := fs_of) (locked := locked) (ctl := ctl) (unread := unread) (sb_of x) newsize (ctl (world x))) (fun _ _ => False) x).
  { apply (resize_opened_wp (requests := requests)); [done..| | | |by rewrite u64_id]; [done|by left|].
    rewrite Hst. simpl. lia. }
  unfold wp in Hwp. destruct (resize_opened verbose assume_yes newsize x) as [[status|e| | |] x']; try done.
  destruct Hwp as (tr & (_ & _ & _ & H6 & H7) & Htr). rewrite u64_id in Htr by done.
  split; [exact H6|]. by exists tr.
Qed.
End Protocol.

(** ** How much space is enough *)

Section FreeSpace.
Context (l : nilfs_layout) (st : nilfs_sustat).
Abbreviation segsize := (lo_blocks_per_segment l * 2 ^ lo_blocksize_bits l).
Abbreviation nrsv := (nilfs_resize_calc_nrsvsegs l).

(** A file system of a sane size, of which not more than all is reserved. *)
Record sizes_ok : Prop := {
  sz_bits : 10 <= lo_blocksize_bits l <= 16;
  sz_bps : 1 <= lo_blocks_per_segment l;
  sz_segsize : segsize <= 2 ^ 29;
  sz_ratio : 0 <= lo_reserved_segments_ratio l <= 100;
  sz_clean : 0 <= ss_ncleansegs st <= ss_nsegs st;
  sz_total : ss_nsegs st * segsize < 2 ^ 61;
}.

Context (Hok : sizes_ok).

Lemma nsegs_bound : ss_nsegs st < 2 ^ 51 /\ 2 ^ 10 <= segsize.
Proof using Hok.
  destruct Hok as [H1 H2 H3 H4 H5 H6].
  assert (2 ^ 10 <= 2 ^ lo_blocksize_bits l) by (apply Z.pow_le_mono_r; lia).
  assert (2 ^ 10 <= segsize) by nia. split; [|done].
  change (2 ^ 61) with (2 ^ 51 * 2 ^ 10) in H6. nia.
Qed.

Lemma nrsv_value n : 0 <= n < 2 ^ 54 -> nrsv n = Z.max 8 ((n * lo_reserved_segments_ratio l + 99) / 100).
Proof using Hok.
  intros Hn. destruct Hok as [_ _ _ H4 _ _]. change (2 ^ 54) with 18014398509481984 in Hn.
  unfold nilfs_resize_calc_nrsvsegs, NILFS_MIN_NRSVSEGS. f_equal.
  rewrite (u64_id (n * _)), (u64_id (_ + 100)), u64_id by (unfold_words; nia). f_equal. lia.
Qed.

(** With more segments, more are reserved, but not more than are added. *)
Lemma nrsv_mono a b : 0 <= a <= b -> b < 2 ^ 54 -> nrsv a <= nrsv b <= nrsv a + (b - a).
Proof using Hok.
  intros Hab Hb. rewrite !nrsv_value by lia. destruct Hok as [_ _ _ H4 _ _].
  set (r := lo_reserved_segments_ratio l) in *.
  assert ((a * r + 99) / 100 <= (b * r + 99) / 100) by (apply Z.div_le_mono; nia).
  assert ((b * r + 99) / 100 <= (a * r + 99) / 100 + (b - a)).
  { rewrite <- Z.div_add by lia. apply Z.div_le_mono; nia. }
  lia.
Qed.

Lemma nrsv_le n : 0 <= n < 2 ^ 54 -> 8 <= nrsv n <= n + 8.
Proof using Hok.
  intros Hn. pose proof (nrsv_mono 0 n ltac:(lia) ltac:(lia)) as Hm.
  rewrite (nrsv_value 0) in Hm by lia. rewrite Z.mul_0_l in Hm. change (Z.max 8 ((0 + 99) / 100)) with 8 in Hm. lia.
Qed.

(** The segments below the second superblock of a smaller device. *)
Lemma new_nsegments_below size n m : 0 <= size < m * segsize + 4096 -> m * segsize + 4096 < 2 ^ 64 -> 1 <= m ->
  new_nsegments l size = Some n -> 0 <= n < m.
Proof using Hok.
  intros Hs Hm Hm1. destruct Hok as [H1 H2 H3 _ _ _]. unfold new_nsegments. change (2 ^ 64) with 18446744073709551616 in Hm.
  destruct (Z.leb_spec 4096 size); [|intros [= <-]; lia].
  destruct (Z.eqb_spec (lo_blocks_per_segment l) 0); [lia|]. destruct (Z.leb_spec 64 (lo_blocksize_bits l)); [lia|].
  intros [= <-]. unfold NILFS_SB2_OFFSET_BYTES. rewrite Z.shiftl_mul_pow2, !Z.shiftr_div_pow2 by lia.
  change (2 ^ 12) with 4096. pose proof (Z.div_mod size 4096 ltac:(lia)). pose proof (Z.mod_pos_bound size 4096 ltac:(lia)).
  rewrite (u64_id (_ - 1)), (u64_id (_ * 4096)), u64_id by (unfold_words; nia).
  set (off := (size / 4096 - 1) * 4096). assert (0 <= off < m * segsize) by nia.
  rewrite Z.div_div by lia. split; [apply Z.div_pos; lia|]. apply Z.div_lt_upper_bound; nia.
Qed.

(** The check fails exactly if the numbers say so (also, when there would be
    more segments than now, if they say so). *)
Lemma check_fails {W} verbose n (x : rs W) : r_layout x = l -> r_sustat x = st -> 0 <= n < 2 ^ 54 ->
  ss_ncleansegs st < ss_nsegs st - n + nrsv n ->
  exists x', nilfs_resize_check_free_space verbose n x = (Err 0, x') /\ forall k b,
    k = ss_nsegs st - n - ss_ncleansegs st + nrsv n -> k < 2 ^ 54 ->
    b = (n + k) * segsize + 4096 -> b < 2 ^ 64 -> last (r_out x') = Some (Insufficient k b).
Proof using Hok.
  intros Hl Hs Hn Hlt. pose proof (nrsv_le n Hn) as Hr. pose proof Hok as [H1 H2 H3 _ H5 _].
  pose proof nsegs_bound as [Hns Hseg]. change (2 ^ 54) with 18014398509481984 in *.
  change (2 ^ 51) with 2251799813685248 in *. change (2 ^ 10) with 1024 in *.
  unfold nilfs_resize_check_free_space, bind, gets. rewrite Hl, Hs.
  assert (Hv : u64 (u64 (ss_nsegs st - n) + nrsv n) = ss_nsegs st - n + nrsv n).
  { unfold u64. rewrite Zplus_mod_idemp_l. apply u64_id. unfold_words. lia. }
  rewrite Hv. destruct (Z.ltb_spec (ss_ncleansegs st) (ss_nsegs st - n + nrsv n)); [|lia].
  set (k := u64 (u64 (u64 (ss_nsegs st - n) - ss_ncleansegs st) + nrsv n)). unfold nilfs_resize_calc_size_of_segments, shl64.
  destruct (Z.leb_spec 0 (lo_blocksize_bits l)); [|lia]. destruct (Z.ltb_spec (lo_blocksize_bits l) 64); [|lia].
  simpl. eexists. split; [reflexivity|]. simpl. intros k' b -> Hk -> Hb. rewrite last_snoc.
  assert (Hke : k = ss_nsegs st - n - ss_ncleansegs st + nrsv n).
  { unfold k, u64. rewrite Zplus_mod_idemp_l, <- Z.add_sub_swap, <- Z.add_sub_assoc, Zplus_mod_idemp_l.
    rewrite Z.mod_small; [lia|]. change (2 ^ 64) with 18446744073709551616. lia. }
  rewrite Hke. set (k' := ss_nsegs st - n - ss_ncleansegs st + nrsv n) in *. assert (0 <= k') by lia. clearbody k'.
  change (2 ^ 64) with 18446744073709551616 in *.
  rewrite (u64_id (n + k')) by (unfold_words; lia). rewrite Z.shiftl_mul_pow2 by lia.
  rewrite (u64_id ((n + k') * _)) by (unfold_words; nia). rewrite <- Z.mul_assoc.
  rewrite (u64_id ((n + k') * _)), u64_id by (unfold_words; lia). done.
Qed.
End FreeSpace.

Lemma new_nsegments_nonneg l size n : 1 <= lo_blocks_per_segment l -> 0 <= lo_blocksize_bits l ->
  new_nsegments l size = Some n -> 0 <= n.
Proof.
  intros Hb Hbits. unfold new_nsegments. repeat case_if; try done; intros [= <-]; [|done].
  apply Z.div_pos; [|lia]. apply Z.shiftr_nonneg, u64_range.
Qed.

(** A refusal has its reason. *)
Lemma check_refused {W} verbose n (x x' : rs W) : nilfs_resize_check_free_space verbose n x = (Err 0, x') ->
  let st := r_sustat x in let nrsv := nilfs_resize_calc_nrsvsegs (r_layout x) n in
  0 <= nrsv -> 0 <= ss_nsegs st - n -> ss_nsegs st - n + nrsv < 2 ^ 63 ->
  ss_ncleansegs st < ss_nsegs st - n + nrsv.
Proof.
  intros Hrun st nrsv Hr Hd Hb. change (2 ^ 63) with 9223372036854775808 in Hb.
  unfold nilfs_resize_check_free_space, bind, gets in Hrun. fold st nrsv in Hrun.
  rewrite (u64_id (ss_nsegs st - n)), (u64_id (_ + nrsv)) in Hrun by (unfold_words; lia).
  destruct (Z.ltb_spec (ss_ncleansegs st) (ss_nsegs st - n + nrsv)); [done|].
  destruct verbose; [|done]. destruct (nilfs_resize_calc_size_of_segments _ _); done.
Qed.

(** C38: when the check of the free space refuses to shrink to [newsize], the
    device size it asks for is a lower bound: whatever smaller size is tried
    next, while the usage stays as it is, will be refused as well. *)
Theorem needed_size_minimal {W} verbose newsize n (x x' : rs W) :
  sizes_ok (r_layout x) (r_sustat x) -> is_u64 newsize ->
  new_nsegments (r_layout x) newsize = Some n -> n <= ss_nsegs (r_sustat x) ->
  nilfs_resize_check_free_space verbose n x = (Err 0, x') ->
  exists k b, last (r_out x') = Some (Insufficient k b) /\ 1 <= k /\
    forall size' n' (y : rs W), 0 <= size' < b -> new_nsegments (r_layout x) size' = Some n' ->
      r_layout y = r_layout x -> r_sustat y = r_sustat x ->
      exists y', nilfs_resize_check_free_space verbose n' y = (Err 0, y').
Proof.
  set (l := r_layout x). set (st := r_sustat x). intros Hok Hsize Hnew Hle Hrun.
  pose proof (nsegs_bound _ _ Hok) as [Hns Hseg]. pose proof Hok as [H1 H2 H3 H4 H5 H6].
  set (segsize := lo_blocks_per_segment l * 2 ^ lo_blocksize_bits l) in *.
  change (2 ^ 51) with 2251799813685248 in *. change (2 ^ 10) with 1024 in *. change (2 ^ 29) with 536870912 in *.
  change (2 ^ 61) with 2305843009213693952 in *.
  assert (Hn : 0 <= n) by (eapply new_nsegments_nonneg; [exact H2|lia|exact Hnew]).
  assert (Hn54 : n < 2 ^ 54) by (change (2 ^ 54) with 18014398509481984; lia).
  pose proof (nrsv_le _ _ Hok n ltac:(lia)) as Hr. set (r := nilfs_resize_calc_nrsvsegs l n) in *.
  assert (Hlt : ss_ncleansegs st < ss_nsegs st - n + r).
  { apply (check_refused verbose n x x' Hrun); fold l st r; [lia|lia|]. change (2 ^ 63) with 9223372036854775808. lia. }
  destruct (check_fails _ _ Hok verbose n x eq_refl eq_refl ltac:(lia) Hlt) as (x1 & Hrun1 & Hlast).
  rewrite Hrun in Hrun1. injection Hrun1 as <-.
  set (k := ss_nsegs st - n - ss_ncleansegs st + r). set (b := (n + k) * segsize + 4096).
  assert (Hk : 1 <= k < 2 ^ 54) by (unfold k; change (2 ^ 54) with 18014398509481984; lia).
  assert (Hnk : n + k <= 2 * ss_nsegs st + 8) by (unfold k; lia).
  assert (Hb : b < 2 ^ 64) by (unfold b; change (2 ^ 64) with 18446744073709551616; nia).
  exists k, b. split; [apply Hlast; [done|apply Hk|done|exact Hb]|]. split; [lia|].
  intros size' n' y Hs' Hnew' Hly Hsy.
  destruct (new_nsegments_below _ _ Hok size' n' (n + k) Hs' Hb ltac:(lia) Hnew') as [Hn'0 Hn'1].
  assert (Hn' : n' < 2 ^ 54) by (change (2 ^ 54) with 18014398509481984; lia).
  destruct (check_fails _ _ Hok verbose n' y Hly Hsy ltac:(lia)) as (y1 & Hy & _); [|by exists y1].
  destruct (Z.le_gt_cases n n').
  - pose proof (nrsv_mono _ _ Hok n n' ltac:(lia) Hn'). unfold k in Hn'1. lia.
  - pose proof (nrsv_mono _ _ Hok n' n ltac:(lia) Hn54). lia.
Qed.

(** ** A kernel that can be run *)

Module ResizeDemo.
Record world := mk_world { dw_held : bool; dw_requests : list clean_request; dw_ctl : list control }.

(** Twenty segments of sixteen 1 KB blocks; the last one is in use until it
    has been cleaned. *)
Definition sb : list Z :=
  foldl Demo.put (replicate 1024 0)
    [(0x06, 2%nat, NILFS_SUPER_MAGIC); (0x18, 8%nat, 20); (0x20, 8%nat, 335872); (0x28, 8%nat, 2);
     (0x30, 4%nat, 16); (0x34, 4%nat, 5)].

Definition sui (w : world) (n : Z) : nilfs_suinfo :=
  if bool_decide (n = 19 /\ 19 ∉ mjoin (cr_segnums <$> dw_requests w)) then mk_suinfo 0 4 2 else mk_suinfo 0 0 0.

Definition fs_of (w : world) : fs := {|
  fs_snaps := []; fs_dat := fun _ => mk_period 1 NILFS_CNO_MAX; fs_where := fun _ _ _ => 0;
  fs_sui := sui w; fs_bytes := fun _ n => replicate (Z.to_nat n) 0; fs_sb := sb;
|}.

#[export] Instance device : Device world := {
  dev_alloc := fun _ w => (true, w);
  dev_errno := fun _ => EIO;
  dev_fstat := fun _ w => (inl (S_IFREG, 335872), w);
  dev_getsize64 := fun _ w => (inl 335872, w);
  dev_pread := fun _ n _ w => (inl (replicate (Z.to_nat n) 0), w);
  dev_pwrite := fun _ bs _ w => (inl (Z.of_nat (length bs)), w);
}.

#[export] Instance kernel : Kernel world := {
  k_device := device;
  k_pagesize := fun _ => 4096;
  k_junk := fun _ => 0;
  k_mmap := fun _ _ _ w => (inr ENODEV, w);
  k_munmap := fun _ _ w => (inl tt, w);
  ioc_change_cpmode := fun _ _ _ w => (inl tt, w);
  ioc_get_cpinfo := fun _ _ _ _ w => (inl [], w);
  ioc_delete_checkpoint := fun _ _ w => (inl tt, w);
  ioc_get_cpstat := fun _ w => (inl (mk_cpstat 10 4 0), w);
  ioc_get_suinfo := fun _ n i w => (inl (sui w <$> ((fun k => i + Z.of_nat k) <$> seq 0 (Z.to_nat n))), w);
  ioc_set_suinfo := fun _ _ w => (inl tt, w);
  ioc_get_sustat := fun _ w => (inl (mk_sustat 20 14 5 0 0 8192), w);
  ioc_get_vinfo := fun _ l w => (inl ((fun v => mk_vinfo (vi_vblocknr v) 1 NILFS_CNO_MAX 0) <$> l), w);
  ioc_get_bdescs := fun _ l w => (inl (located (fs_of w) <$> l), w);
  ioc_clean_segments := fun _ v p b d s w =>
    (inl tt, mk_world (dw_held w) (dw_requests w ++ [mk_request v p b d s]) (dw_ctl w));
  ioc_sync := fun _ w => (inl 5, w);
  ioc_resize := fun _ size w => (inl tt, mk_world (dw_held w) (dw_requests w) (dw_ctl w ++ [Cut size (dw_held w) None]));
  ioc_set_alloc_range := fun _ lo hi w => (inl tt, mk_world (dw_held w) (dw_requests w) (dw_ctl w ++ [SetRange lo hi true]));
  ioc_freeze := fun _ w => (inl tt, w);
  ioc_thaw := fun _ w => (inl tt, w);
  sem_wait := fun w => (inl tt, mk_world true (dw_requests w) (dw_ctl w));
  sem_trywait := fun w => (inl tt, mk_world true (dw_requests w) (dw_ctl w));
  sem_post := fun w => (inl tt, mk_world false (dw_requests w) (dw_ctl w));
  sigprocmask_block := fun w => (inl tt, w);
  sigprocmask_restore := fun w => w;
  sigpending_intterm := fun w => (inl false, w);
  k_clock_gettime := fun _ w => (inl (mk_timespec 0 0), w);
  k_gettimeofday := fun w => (inl 0, w);
}.

#[export] Instance resize_env : ResizeEnv world := {
  e_nanosleep := fun _ w => w;
  e_getchar := fun w => (121, w);
  e_getpid := fun _ => 42;
  e_open := fun _ w => (inl 5, w);
  e_openat := fun _ _ w => (inl 6, w);
  e_unlinkat := fun _ _ w => (inl tt, w);
  e_read := fun _ _ w => (inl [], w);
  e_write := fun _ l w => (inl (Z.of_nat (length l)), w);
  e_close := fun _ w => w;
  e_rand := fun w => (4, w);
}.

#[export] Instance junk : Junk := {
  junk_vdesc := mk_vdesc 0 0 0 (mk_period 0 0) 0 0 0; junk_bdesc := mk_bdesc 0 0 0 0 0;
  junk_period := mk_period 0 0; junk_u64 := 0;
  junk_sup := mk_suinfo_update 0 0 0 (mk_suinfo 0 0 0); junk_si := mk_suinfo 0 0 0;
}.

Definition no_vector {A} (size : Z) : nilfs_vector A := mk_vector [] size 0 0.
Definition start : rs world := mk_rs
  (mk_gcs (mk_sys (mk_nilfs (Some sb) 3 4 0 0 true) (mk_world false [] [])) [] None
     (no_vector 64) (no_vector 40) (no_vector 16) (no_vector 8) (no_vector 32))
  (mk_sustat 0 0 0 0 0 0) (mk_layout 0 0 0 0 0 0 0 0 0 0 0 0 0 0) (0, 0) (mk_pm 0 0 0 0 0) [].

(** Shrinking by one segment: it is cleaned, then cut off. *)
Example shrink_by_one :
  let '(r, x) := resize_opened false false 315392 start in
  let w := s_world (g_sys (r_lib x)) in
  r = Ok EXIT_SUCCESS /\ cr_segnums <$> dw_requests w = [[19]] /\
  dw_ctl w = [SetRange 0 315392 true; Cut 315392 true None].
Proof. vm_compute. done. Qed.

Lemma demo_fs_wf w : fs_wf (fs_of w).
Proof.
  split; simpl.
  - repeat constructor.
  - intros n. unfold NILFS_CNO_MIN. lia.
  - intros n. unfold sui. case_match; simpl; unfold_words; lia.
  - intros off n. apply Forall_replicate. unfold_words. lia.
Qed.

#[export] Instance laws : FsLaws kernel fs_of dw_requests dw_held.
Proof.
  split; try done.
  - intros w. apply demo_fs_wf.
  - by intros fd n off w r w' [= <- <-].
  - intros fd n i w r w' [= <- <-] Hn. destruct (Z.to_nat n) eqn:He; [lia|]. simpl. by rewrite Z.add_0_r.
  - by intros fd w r w' [= <- <-].
  - intros fd n i w r w' [= <- <-] _ _. exists []. done.
  - intros fd l w r w' [= <- <-]. split; [by destruct l|].
    rewrite length_fmap, firstn_all. apply Forall2_fmap_r, Forall_Forall2_diag, Forall_forall. done.
  - intros fd l w r w' [= <- <-]. split; [by destruct l|]. by rewrite length_fmap, firstn_all.
  - by intros fd l w r w' [= <- <-].
  - by intros w r w' [= <- <-].
  - intros w. by eexists.
Qed.

#[export] Instance resize_laws : ResizeLaws kernel resize_env fs_of dw_held dw_ctl.
Proof.
  split; try done.
  - intros fd n i w r w' Hn [= <- <-]. rewrite !length_fmap, length_seq. split; [lia|].
    intros k si Hk. rewrite !list_lookup_fmap in Hk.
    destruct (seq 0 (Z.to_nat n) !! k) as [m|] eqn:Hm; [|done]. apply lookup_seq in Hm as [-> _]. by injection Hk as <-.
  - intros fd w s w' [= <- <-]. simpl. lia.
  - intros fd w c w' [= <- <-]. lia.
  - by intros fd n w l w' Hn [= <- <-].
  - intros fd l w n w' [= <- <-] Hl. destruct l; [done|]. simpl. lia.
  - by intros fd lo hi w r w' [= <- <-].
  - by intros fd size w r w' [= <- <-].
Qed.

#[export] Instance stat_record : StatRecord kernel (fun _ => false).
Proof. by intros fd w r w' [= <- <-]. Qed.

Lemma active_room : active_have_room fs_of.
Proof. intros w i. simpl. unfold sui. case_match; simpl; [|done]. vm_compute. done. Qed.

Lemma start_opened : opened (fs_of := fs_of) (locked := dw_held) start.
Proof.
  by split.
Qed.
End ResizeDemo.

Import ResizeDemo.

Lemma resize_protocol_witness :
  let '(r, x) := resize_opened false false 315392 start in
  r = Ok EXIT_SUCCESS /\
  protocol 335872 315392 (blind (unread := fun _ => false) x) (dw_ctl (s_world (g_sys (r_lib x)))) EXIT_SUCCESS.
Proof.
  pose proof (resize_protocol (requests := dw_requests) (ctl := dw_ctl) (unread := fun _ => false) false false 315392 start
                active_room start_opened ltac:(unfold_words; lia)) as Hp.
  pose proof shrink_by_one as Hd. destruct (resize_opened false false 315392 start) as [r x]. destruct Hd as (-> & _ & _).
  split; [reflexivity|]. destruct Hp as (_ & tr & Htr & Hp). rewrite Htr. exact Hp.
Defined.

(** Five segments are too few when only fourteen of twenty are free. *)
Definition too_small : rs world := with_sustat (with_layout start (layout_of sb)) (mk_sustat 20 14 5 0 0 0).

Lemma needed_size_minimal_witness :
  exists x' k b, nilfs_resize_check_free_space false 5 too_small = (Err 0, x') /\
    last (r_out x') = Some (Insufficient k b) /\ 1 <= k.
Proof.
  assert (Hok : sizes_ok (r_layout too_small) (r_sustat too_small)) by (split; vm_compute; done).
  pose proof (needed_size_minimal false 86016 5 too_small (nilfs_resize_check_free_space false 5 too_small).2 Hok
    ltac:(unfold_words; lia) ltac:(vm_compute; reflexivity) ltac:(simpl; lia) ltac:(vm_compute; reflexivity))
    as (k & b & Hl & Hk & _).
  eexists _, k, b. split; [vm_compute; reflexivity|]. split; [exact Hl|exact Hk].
Defined.
