(* ===== verification/Mkfs.v ===== *)
(** * Making a file system: sbin/mkfs.c

    The tool decides the layout of the first log - the root directory, the
    inode file, the checkpoint file, the segment usage file and the table of
    disk addresses - builds its blocks in memory, and writes them and the two
    superblocks to the device.

    [disk_buffer] is a list of blocks that are absent until they are first
    mapped; a pointer into it is the number of a block and an offset, and
    using one that is not inside of a block that is present ends in [Abort].
    [BUG_ON] is an assertion, [perr] the exit with status 1.  A pointer to a
    file of the current segment is its index.  The structures are read and
    written field by field at their offsets on disk.  The command line is the
    list of what [getopt] returns; the device has one name. *)

From Stdlib Require Import String.
From S2P Require Import Prelude Vector Hoare Ondisk Crc32 Sb Kernel Parser Ismounted Disk Feature Segment Bitops Tune.

(** What the parent learns of the check for bad blocks. *)
Inductive child := ForkFailed | WaitFailed | Killed | Exited (status : Z).

(** What libblkid says of the device: whether the probe could be made, the
    size, the result of enabling partitions and of the probe, and whether a
    type or a partition table was found. *)
Record blkid_answer := {
  bl_probe : bool;
  bl_size : Z;
  bl_partitions : Z;
  bl_fullprobe : Z;
  bl_type : bool;
  bl_pttype : bool;
}.

(** The system and the libraries.  The input of the terminal is the finite
    sequence of characters up to its end; [me_memory] is what fresh memory
    holds. *)
Class MkfsEnv (W : Type) := {
  me_device : Device W;
  me_time : W -> Z * W;
  me_pagesize : Z;
  me_stat : W -> (file_kind + Z) * W;
  me_badblocks : W -> bool * W;
  me_run_badblocks : list (list Z) -> W -> child * W;
  me_mounts : MountsOs W;
  me_open : W -> (Z + Z) * W;
  me_blkid : W -> blkid_answer * W;
  me_input : W -> list Z;
  me_memory : W -> Z -> Z;
  me_uuid_generate : W -> list Z * W;
  me_discard : Z -> Z -> Z -> W -> bool * W;
  me_discard_zeroes : Z -> W -> Z * W;
  me_fsync : Z -> W -> bool * W;
}.
#[export] Existing Instance me_device.
#[export] Existing Instance me_mounts.

(** ** Constants and layouts *)

Definition NILFS_DISKHDR_SIZE : Z := 4096.
Definition NILFS_DISK_ERASE_SIZE : Z := 1048576.
Definition NILFS_DEF_BLOCKSIZE : Z := 4096.
Definition NILFS_DEF_BLKS_PER_SEG : Z := 2048.
Definition NILFS_DEF_CHECK_INTERVAL : Z := 60 * 60 * 24 * 180.
Definition NILFS_DEF_RESERVED_SEGMENTS : Z := 5.
Definition NILFS_INODE_BMAP_SIZE : Z := 7.
Definition NILFS_MAX_BMAP_ROOT_PTRS : Z := NILFS_INODE_BMAP_SIZE - 1.
Definition NILFS_MIN_BLOCKSIZE : Z := 1024.
Definition NILFS_MIN_NUSERSEGS : Z := 8.
Definition NILFS_ROOT_INO : Z := 2.
Definition NILFS_CPFILE_INO : Z := 4.
Definition NILFS_SUFILE_INO : Z := 5.
Definition NILFS_IFILE_INO : Z := 6.
Definition NILFS_ATIME_INO : Z := 7.
Definition NILFS_USER_INO : Z := 11.
Definition NILFS_MAX_INITIAL_INO : Z := NILFS_USER_INO.
Definition NILFS_CURRENT_REV : Z := 2.
Definition NILFS_MINOR_REV : Z := 0.
Definition NILFS_DFL_MAX_MNT_COUNT : Z := 50.
Definition NILFS_SB_BYTES : Z := 0x118.
Definition NILFS_SS_LOGBGN : Z := 0x0001.
Definition NILFS_SS_LOGEND : Z := 0x0002.
Definition NILFS_SS_SR : Z := 0x0004.
Definition NILFS_MAX_REC_LEN : Z := 2 ^ 16 - 1.
Definition NILFS_FT_DIR : Z := 2.
Definition DT_DIR : Z := 4.
Definition DT_REG : Z := 8.
Definition MAX_FILES : Z := 16.
Definition MAX_NBLOCKS_CLEAR_BUFFER : Z := 8.

Definition group_desc_blocks_per_group : Z := 1.
Definition bitmap_blocks_per_group : Z := 1.
Definition nr_initial_segments : Z := 2.
Definition nr_initial_inodes : Z := 1.
Definition first_cno : Z := 1.

(** [struct nilfs_inode] *)
Definition sizeof_inode : Z := 128.
Definition i_blocks_off : Z := 0.
Definition i_size_off : Z := 8.
Definition i_ctime_off : Z := 16.
Definition i_mtime_off : Z := 24.
Definition i_mode_off : Z := 48.
Definition i_links_count_off : Z := 50.
Definition i_flags_off : Z := 52.
Definition i_bmap_off (i : Z) : Z := 56 + 8 * i.

(** [struct nilfs_super_root] *)
Definition sr_sum_off : Z := 0.
Definition sr_bytes_off : Z := 4.
Definition sr_flags_off : Z := 6.
Definition sr_nongc_ctime_off : Z := 8.
Definition NILFS_SR_MDT_OFFSET (i : Z) : Z := 16 + sizeof_inode * i.
Definition sr_dat_off : Z := NILFS_SR_MDT_OFFSET 0.
Definition sr_cpfile_off : Z := NILFS_SR_MDT_OFFSET 1.
Definition sr_sufile_off : Z := NILFS_SR_MDT_OFFSET 2.
Definition NILFS_SR_BYTES : Z := NILFS_SR_MDT_OFFSET 3.

(** The rest of [struct nilfs_segment_summary] *)
Definition sizeof_segment_summary : Z := 64.
Definition ss_datasum_off : Z := 0.
Definition ss_sumsum_off : Z := 4.
Definition ss_flags_off : Z := 14.
Definition ss_seq_off : Z := 16.
Definition ss_create_off : Z := 24.
Definition ss_next_off : Z := 32.
Definition ss_cno_off : Z := 56.

(** [struct nilfs_dat_entry], [struct nilfs_checkpoint],
    [struct nilfs_cpfile_header] *)
Definition sizeof_dat_entry : Z := 32.
Definition de_blocknr_off : Z := 0.
Definition de_start_off : Z := 8.
Definition de_end_off : Z := 16.
Definition sizeof_checkpoint : Z := 192.
Definition cp_flags_off : Z := 0.
Definition cp_cno_off : Z := 24.
Definition cp_create_off : Z := 32.
Definition cp_nblk_inc_off : Z := 40.
Definition cp_inodes_count_off : Z := 48.
Definition cp_blocks_count_off : Z := 56.
Definition cp_ifile_inode_off : Z := 64.
Definition sizeof_cpfile_header : Z := 32.
Definition ch_ncheckpoints_off : Z := 0.
Definition NILFS_CPFILE_FIRST_CHECKPOINT_OFFSET : Z :=
  (sizeof_cpfile_header + sizeof_checkpoint - 1) / sizeof_checkpoint.
Definition NILFS_CHECKPOINT_INVALID : Z := 1.

(** [struct nilfs_segment_usage], [struct nilfs_sufile_header],
    [struct nilfs_palloc_group_desc], [struct nilfs_dir_entry] *)
Definition sizeof_segment_usage : Z := 16.
Definition su_lastmod_off : Z := 0.
Definition su_nblocks_off : Z := 8.
Definition su_flags_off : Z := 12.
Definition NILFS_SEGMENT_USAGE_ACTIVE : Z := 0.
Definition NILFS_SEGMENT_USAGE_DIRTY : Z := 1.
Definition sizeof_sufile_header : Z := 24.
Definition sh_ncleansegs_off : Z := 0.
Definition sh_ndirtysegs_off : Z := 8.
Definition sh_last_alloc_off : Z := 16.
Definition NILFS_SUFILE_FIRST_SEGMENT_USAGE_OFFSET : Z :=
  (sizeof_sufile_header + sizeof_segment_usage - 1) / sizeof_segment_usage.
Definition sizeof_group_desc : Z := 4.
Definition de_inode_off : Z := 0.
Definition de_rec_len_off : Z := 8.
Definition de_name_len_off : Z := 10.
Definition de_file_type_off : Z := 11.
Definition de_name_off : Z := 12.
Definition NILFS_DIR_REC_LEN (name_len : Z) : Z := Z.land (name_len + 12 + 7) (Z.lnot 7).

(** ** The state *)

(** The options, with the variables of [parse_options]. *)
Record mkfs_options := mk_mopts {
  mo_quiet : bool;
  mo_cflag : Z;
  mo_nflag : bool;
  mo_verbose : Z;
  mo_discard : bool;
  mo_force_overwrite : bool;
  mo_blocksize : Z;
  mo_blocks_per_segment : Z;
  mo_r_segments_percentage : Z;
  mo_creation_time : Z;
  mo_volume_label : list Z;
  mo_compat_array : list Z;
  mo_show_version_only : bool;
  mo_fs_features : option (list Z);
}.

(** A pointer into the buffer: a block and an offset in it. *)
Definition ptr : Type := Z * Z.

Record nilfs_file_info := mk_fi {
  mf_ino : Z;
  mf_start_blocknr : Z;
  mf_nblocks : Z;
  mf_raw_inode : option ptr;
}.

(** The number of files is the length of the list. *)
Record nilfs_segment_info := mk_si {
  si_start_blocknr : Z;
  si_nblocks : Z;
  si_nfinfo : Z;
  si_sumbytes : Z;
  si_nblk_sum : Z;
  si_files : list nilfs_file_info;
  si_nvblocknrs : Z;
}.

(** The number of segments is the length of the list. *)
Record nilfs_disk_info := mk_di {
  di_dev_size : Z;
  di_blkbits : Z;
  di_ctime : Z;
  di_crc_seed : Z;
  di_blocks_per_segment : Z;
  di_nsegments : Z;
  di_first_segment_block : Z;
  di_nblocks_to_write : Z;
  di_nblocks_used : Z;
  di_nsegments_to_write : Z;
  di_seginfo : list nilfs_segment_info;
}.

Record nilfs_segment_ref := mk_sref {
  sref_seq : Z;
  sref_start_blocknr : Z;
  sref_free_blocks_count : Z;
  sref_cno : Z;
}.

(** [struct nilfs_fs_info]; [diskinfo] is the one of the state. *)
Record nilfs_fs_info := mk_ni {
  ni_current_segment : option nat;
  ni_last_segment_ref : nilfs_segment_ref;
  ni_segsum : option ptr;
  ni_checkpoint : option ptr;
  ni_super_root : option ptr;
  ni_files : list (option nat);
  ni_next : Z;
  ni_altnext : Z;
  ni_seq : Z;
  ni_cno : Z;
  ni_vblocknr : Z;
}.

(** The variables of the program: the world, the offset of the open file, the
    options, the layout, [disk_buffer], [raw_sb] and [nilfs]. *)
Record ms {W : Type} := mk_ms {
  m_world : W;
  m_pos : Z;
  m_opts : mkfs_options;
  m_di : nilfs_disk_info;
  m_buf : list (option (list Z));
  m_sb : option ptr;
  m_fs : nilfs_fs_info;
}.
Arguments ms : clear implicits.

Definition set_mo_quiet (x : bool) (r : mkfs_options) : mkfs_options :=
  mk_mopts x (mo_cflag r) (mo_nflag r) (mo_verbose r) (mo_discard r) (mo_force_overwrite r)
    (mo_blocksize r) (mo_blocks_per_segment r) (mo_r_segments_percentage r) (mo_creation_time r)
    (mo_volume_label r) (mo_compat_array r) (mo_show_version_only r) (mo_fs_features r).
Definition set_mo_cflag (x : Z) (r : mkfs_options) : mkfs_options :=
  mk_mopts (mo_quiet r) x (mo_nflag r) (mo_verbose r) (mo_discard r) (mo_force_overwrite r)
    (mo_blocksize r) (mo_blocks_per_segment r) (mo_r_segments_percentage r) (mo_creation_time r)
    (mo_volume_label r) (mo_compat_array r) (mo_show_version_only r) (mo_fs_features r).
Definition set_mo_nflag (x : bool) (r : mkfs_options) : mkfs_options :=
  mk_mopts (mo_quiet r) (mo_cflag r) x (mo_verbose r) (mo_discard r) (mo_force_overwrite r)
    (mo_blocksize r) (mo_blocks_per_segment r) (mo_r_segments_percentage r) (mo_creation_time r)
    (mo_volume_label r) (mo_compat_array r) (mo_show_version_only r) (mo_fs_features r).
Definition set_mo_verbose (x : Z) (r : mkfs_options) : mkfs_options :=
  mk_mopts (mo_quiet r) (mo_cflag r) (mo_nflag r) x (mo_discard r) (mo_force_overwrite r)
    (mo_blocksize r) (mo_blocks_per_segment r) (mo_r_segments_percentage r) (mo_creation_time r)
    (mo_volume_label r) (mo_compat_array r) (mo_show_version_only r) (mo_fs_features r).
Definition set_mo_discard (x : bool) (r : mkfs_options) : mkfs_options :=
  mk_mopts (mo_quiet r) (mo_cflag r) (mo_nflag r) (mo_verbose r) x (mo_force_overwrite r)
    (mo_blocksize r) (mo_blocks_per_segment r) (mo_r_segments_percentage r) (mo_creation_time r)
    (mo_volume_label r) (mo_compat_array r) (mo_show_version_only r) (mo_fs_features r).
Definition set_mo_force_overwrite (x : bool) (r : mkfs_options) : mkfs_options :=
  mk_mopts (mo_quiet r) (mo_cflag r) (mo_nflag r) (mo_verbose r) (mo_discard r) x (mo_blocksize
    r) (mo_blocks_per_segment r) (mo_r_segments_percentage r) (mo_creation_time r)
    (mo_volume_label r) (mo_compat_array r) (mo_show_version_only r) (mo_fs_features r).
Definition set_mo_blocksize (x : Z) (r : mkfs_options) : mkfs_options :=
  mk_mopts (mo_quiet r) (mo_cflag r) (mo_nflag r) (mo_verbose r) (mo_discard r)
    (mo_force_overwrite r) x (mo_blocks_per_segment r) (mo_r_segments_percentage r)
    (mo_creation_time r) (mo_volume_label r) (mo_compat_array r) (mo_show_version_only r)
    (mo_fs_features r).
Definition set_mo_blocks_per_segment (x : Z) (r : mkfs_options) : mkfs_options :=
  mk_mopts (mo_quiet r) (mo_cflag r) (mo_nflag r) (mo_verbose r) (mo_discard r)
    (mo_force_overwrite r) (mo_blocksize r) x (mo_r_segments_percentage r) (mo_creation_time r)
    (mo_volume_label r) (mo_compat_array r) (mo_show_version_only r) (mo_fs_features r).
Definition set_mo_r_segments_percentage (x : Z) (r : mkfs_options) : mkfs_options :=
  mk_mopts (mo_quiet r) (mo_cflag r) (mo_nflag r) (mo_verbose r) (mo_discard r)
    (mo_force_overwrite r) (mo_blocksize r) (mo_blocks_per_segment r) x (mo_creation_time r)
    (mo_volume_label r) (mo_compat_array r) (mo_show_version_only r) (mo_fs_features r).
Definition set_mo_creation_time (x : Z) (r : mkfs_options) : mkfs_options :=
  mk_mopts (mo_quiet r) (mo_cflag r) (mo_nflag r) (mo_verbose r) (mo_discard r)
    (mo_force_overwrite r) (mo_blocksize r) (mo_blocks_per_segment r) (mo_r_segments_percentage r)
    x (mo_volume_label r) (mo_compat_array r) (mo_show_version_only r) (mo_fs_features r).
Definition set_mo_volume_label (x : list Z) (r : mkfs_options) : mkfs_options :=
  mk_mopts (mo_quiet r) (mo_cflag r) (mo_nflag r) (mo_verbose r) (mo_discard r)
    (mo_force_overwrite r) (mo_blocksize r) (mo_blocks_per_segment r) (mo_r_segments_percentage r)
    (mo_creation_time r) x (mo_compat_array r) (mo_show_version_only r) (mo_fs_features r).
Definition set_mo_compat_array (x : list Z) (r : mkfs_options) : mkfs_options :=
  mk_mopts (mo_quiet r) (mo_cflag r) (mo_nflag r) (mo_verbose r) (mo_discard r)
    (mo_force_overwrite r) (mo_blocksize r) (mo_blocks_per_segment r) (mo_r_segments_percentage r)
    (mo_creation_time r) (mo_volume_label r) x (mo_show_version_only r) (mo_fs_features r).
Definition set_mo_show_version_only (x : bool) (r : mkfs_options) : mkfs_options :=
  mk_mopts (mo_quiet r) (mo_cflag r) (mo_nflag r) (mo_verbose r) (mo_discard r)
    (mo_force_overwrite r) (mo_blocksize r) (mo_blocks_per_segment r) (mo_r_segments_percentage r)
    (mo_creation_time r) (mo_volume_label r) (mo_compat_array r) x (mo_fs_features r).
Definition set_mo_fs_features (x : option (list Z)) (r : mkfs_options) : mkfs_options :=
  mk_mopts (mo_quiet r) (mo_cflag r) (mo_nflag r) (mo_verbose r) (mo_discard r)
    (mo_force_overwrite r) (mo_blocksize r) (mo_blocks_per_segment r) (mo_r_segments_percentage r)
    (mo_creation_time r) (mo_volume_label r) (mo_compat_array r) (mo_show_version_only r) x.

Definition set_di_seginfo (x : list nilfs_segment_info) (r : nilfs_disk_info) : nilfs_disk_info :=
  mk_di (di_dev_size r) (di_blkbits r) (di_ctime r) (di_crc_seed r) (di_blocks_per_segment r)
    (di_nsegments r) (di_first_segment_block r) (di_nblocks_to_write r) (di_nblocks_used r)
    (di_nsegments_to_write r) x.
Definition set_ni_current_segment (x : option nat) (r : nilfs_fs_info) : nilfs_fs_info :=
  mk_ni x (ni_last_segment_ref r) (ni_segsum r) (ni_checkpoint r) (ni_super_root r) (ni_files r)
    (ni_next r) (ni_altnext r) (ni_seq r) (ni_cno r) (ni_vblocknr r).
Definition set_ni_last_segment_ref (x : nilfs_segment_ref) (r : nilfs_fs_info) : nilfs_fs_info :=
  mk_ni (ni_current_segment r) x (ni_segsum r) (ni_checkpoint r) (ni_super_root r) (ni_files r)
    (ni_next r) (ni_altnext r) (ni_seq r) (ni_cno r) (ni_vblocknr r).
Definition set_ni_segsum (x : option ptr) (r : nilfs_fs_info) : nilfs_fs_info :=
  mk_ni (ni_current_segment r) (ni_last_segment_ref r) x (ni_checkpoint r) (ni_super_root r)
    (ni_files r) (ni_next r) (ni_altnext r) (ni_seq r) (ni_cno r) (ni_vblocknr r).
Definition set_ni_checkpoint (x : option ptr) (r : nilfs_fs_info) : nilfs_fs_info :=
  mk_ni (ni_current_segment r) (ni_last_segment_ref r) (ni_segsum r) x (ni_super_root r)
    (ni_files r) (ni_next r) (ni_altnext r) (ni_seq r) (ni_cno r) (ni_vblocknr r).
Definition set_ni_super_root (x : option ptr) (r : nilfs_fs_info) : nilfs_fs_info :=
  mk_ni (ni_current_segment r) (ni_last_segment_ref r) (ni_segsum r) (ni_checkpoint r) x
    (ni_files r) (ni_next r) (ni_altnext r) (ni_seq r) (ni_cno r) (ni_vblocknr r).
Definition set_ni_files (x : list (option nat)) (r : nilfs_fs_info) : nilfs_fs_info :=
  mk_ni (ni_current_segment r) (ni_last_segment_ref r) (ni_segsum r) (ni_checkpoint r)
    (ni_super_root r) x (ni_next r) (ni_altnext r) (ni_seq r) (ni_cno r) (ni_vblocknr r).
Definition set_ni_vblocknr (x : Z) (r : nilfs_fs_info) : nilfs_fs_info :=
  mk_ni (ni_current_segment r) (ni_last_segment_ref r) (ni_segsum r) (ni_checkpoint r)
    (ni_super_root r) (ni_files r) (ni_next r) (ni_altnext r) (ni_seq r) (ni_cno r) x.

(** ** Counting blocks *)

(** Values of type [unsigned]; a [perr] is [None]. *)
Section Counts.
Context (blocksize : Z).

Definition count_blockgrouped_file_blocks (entry_size nr_initial_entries : Z) : Z :=
  let entries_per_block := blocksize / entry_size in
  u32 (group_desc_blocks_per_group + bitmap_blocks_per_group +
       DIV_ROUND_UP nr_initial_entries entries_per_block).

Definition count_ifile_blocks : option Z :=
  let entries_per_group := u64 (blocksize * 8) in
  let nblocks := count_blockgrouped_file_blocks sizeof_inode NILFS_MAX_INITIAL_INO in
  if (entries_per_group <? NILFS_MAX_INITIAL_INO) || (NILFS_MAX_BMAP_ROOT_PTRS <? nblocks)
  then None else Some nblocks.

Definition count_sufile_blocks : Z :=
  let per_block := blocksize / sizeof_segment_usage in
  u32 (DIV_ROUND_UP (nr_initial_segments + NILFS_SUFILE_FIRST_SEGMENT_USAGE_OFFSET) per_block).

Definition count_cpfile_blocks : Z :=
  let nr_initial_checkpoints := 1 in
  let per_block := blocksize / sizeof_checkpoint in
  u32 (DIV_ROUND_UP (nr_initial_checkpoints + NILFS_CPFILE_FIRST_CHECKPOINT_OFFSET - 1) per_block).

Definition count_dat_blocks (nr_dat_entries : Z) : option Z :=
  let entries_per_group := u64 (blocksize * 8) in
  let nblocks := count_blockgrouped_file_blocks sizeof_dat_entry nr_dat_entries in
  if (entries_per_group <? nr_dat_entries) || (NILFS_MAX_BMAP_ROOT_PTRS <? nblocks)
  then None else Some nblocks.

(** The size of a summary after [count] more items. *)
Definition __increment_segsum_size (offset item_size count : Z) : Z :=
  let rest_items_in_block := u32 ((blocksize - offset `mod` blocksize) / item_size) in
  if count <=? rest_items_in_block then u64 (offset + u32 (item_size * count))
  else
    let nitems_per_block := u32 (blocksize / item_size) in
    let count := u32 (count - rest_items_in_block) in
    u64 (blocksize * (offset / blocksize + 1 + count / nitems_per_block) +
         u32 (count `mod` nitems_per_block * item_size)).

Definition increment_segsum_size (sumbytes nblocks_in_file : Z) (dat_flag : bool) : Z :=
  let binfo_size := if dat_flag then NILFS_BINFO_DAT_DATA_SIZE else NILFS_BINFO_DATA_SIZE in
  __increment_segsum_size (__increment_segsum_size sumbytes sizeof_finfo 1) binfo_size nblocks_in_file.
End Counts.

(** The loop of [my_log2]; a [long] is shifted at most 62 times. *)
Fixpoint my_log2_loop (fuel : nat) (i n : Z) : Z :=
  match fuel with
  | O => n
  | Datatypes.S fuel' => if 1 <? i then my_log2_loop fuel' (Z.shiftr i 1) (n + 1) else n
  end.

Definition my_log2 (i : Z) : Z := my_log2_loop 63 i 0.

(** [srand48(seed)] and the [uint32_t] of the first [mrand48()]. *)
Definition first_mrand48 (seed : Z) : Z :=
  let x0 := Z.lor (Z.shiftl (u32 seed) 16) 0x330e in
  Z.shiftr ((0x5deece66d * x0 + 0xb) `mod` 2 ^ 48) 16.

Definition nilfs_min_nsegments (nsegments rp : Z) : Z :=
  u64 (Z.max (u64 (u64 (rp * nsegments) + 99) / 100) NILFS_MIN_NRSVSEGS +
       Z.max nr_initial_segments NILFS_MIN_NUSERSEGS).

Definition count_free_blocks (di : nilfs_disk_info) : Z :=
  u64 (di_blocks_per_segment di * u64 (di_nsegments di - di_nsegments_to_write di)).

Definition segment_start_blocknr (di : nilfs_disk_info) (segnum : Z) : Z :=
  if 0 <? segnum then u64 (di_blocks_per_segment di * segnum) else di_first_segment_block di.

Definition nilfs_rec_len_from_disk (dlen : Z) : Z :=
  if dlen =? NILFS_MAX_REC_LEN then 2 ^ 16 else dlen.

(** [None] is the [BUG_ON]. *)
Definition nilfs_rec_len_to_disk (len : Z) : option Z :=
  if 2 ^ 16 <? len then None
  else Some (if len =? 2 ^ 16 then NILFS_MAX_REC_LEN else u16 len).

(** ** The question whether to overwrite a file system *)

(** [getchar]: [None] is [EOF]. *)
Definition next_char (input : list Z) : option Z * list Z :=
  match input with [] => (None, []) | c :: input => (Some c, input) end.

Definition at_line_end (c : option Z) : bool :=
  match c with None => true | Some c => c =? 10 end.

(** The loop at [clear_input_buffer]. *)
Fixpoint clear_input_buffer (input : list Z) : list Z :=
  match input with
  | [] => []
  | c :: input => if c =? 10 then input else clear_input_buffer input
  end.

(** The dialogue: whether the device may be overwritten. *)
Fixpoint confirm_format (fuel : nat) (input : list Z) : option bool :=
  match fuel with
  | O => None
  | Datatypes.S fuel' =>
    let '(c, input) := next_char input in
    match c with
    | None => Some false
    | Some c =>
      if c =? 10 then Some false
      else
        let '(c_next, input) := next_char input in
        let rest := if at_line_end c_next then input else clear_input_buffer input in
        if at_line_end c_next && ((c =? 110) || (c =? 78)) then Some false
        else if (c =? 121) || (c =? 89) then Some true
        else confirm_format fuel' rest
    end
  end.

(** ** The program *)

Section Mkfs.
Context {W : Type} {E : MkfsEnv W}.

(** [perr] and the functions that end in it. *)
Definition perr {A} : M (ms W) A := exit_with EXIT_FAILURE.

(** A call of the system; the bytes and the kind of error are the same. *)
Definition sys_call {A} (f : W -> A * W) : M (ms W) A :=
  fun s => let '(a, w) := f (m_world s) in
           (Ok a, mk_ms W w (m_pos s) (m_opts s) (m_di s) (m_buf s) (m_sb s) (m_fs s)).

(** A function of the library that only needs the world. *)
Definition sys_lib {A} (m : M W A) : M (ms W) A :=
  fun s => let '(r, w) := m (m_world s) in
           (r, mk_ms W w (m_pos s) (m_opts s) (m_di s) (m_buf s) (m_sb s) (m_fs s)).

#[export] Instance ms_alloc : Alloc (ms W) :=
  fun n s => let '(b, w) := malloc n (m_world s) in
             (b, mk_ms W w (m_pos s) (m_opts s) (m_di s) (m_buf s) (m_sb s) (m_fs s)).

Definition set_pos (p : Z) (s : ms W) : ms W :=
  mk_ms W (m_world s) p (m_opts s) (m_di s) (m_buf s) (m_sb s) (m_fs s).
Definition set_opts (o : mkfs_options) (s : ms W) : ms W :=
  mk_ms W (m_world s) (m_pos s) o (m_di s) (m_buf s) (m_sb s) (m_fs s).
Definition set_di (d : nilfs_disk_info) (s : ms W) : ms W :=
  mk_ms W (m_world s) (m_pos s) (m_opts s) d (m_buf s) (m_sb s) (m_fs s).
Definition set_buf (b : list (option (list Z))) (s : ms W) : ms W :=
  mk_ms W (m_world s) (m_pos s) (m_opts s) (m_di s) b (m_sb s) (m_fs s).
Definition set_sb (p : option ptr) (s : ms W) : ms W :=
  mk_ms W (m_world s) (m_pos s) (m_opts s) (m_di s) (m_buf s) p (m_fs s).
Definition set_fs (f : nilfs_fs_info) (s : ms W) : ms W :=
  mk_ms W (m_world s) (m_pos s) (m_opts s) (m_di s) (m_buf s) (m_sb s) f.

Definition blocksize (s : ms W) : Z := mo_blocksize (m_opts s).

(** *** Memory *)

(** [posix_memalign] of a block: cleared, or what the memory held. *)
Definition map_disk_buffer (blocknr : Z) (clear_flag : bool) : M (ms W) ptr :=
  let* s := get_state in
  if Z.of_nat (length (m_buf s)) <=? blocknr then perr
  else if blocknr <? 0 then abort
  else match m_buf s !! Z.to_nat blocknr with
       | Some (Some _) => ret (blocknr, 0)
       | _ =>
         let* r := attempt (m_malloc (blocksize s)) in
         match r with
         | inr _ => perr
         | inl _ =>
           let* w := gets m_world in
           let block := if clear_flag then replicate (Z.to_nat (blocksize s)) 0
                        else (fun i => u8 (me_memory w i)) <$> seqZ 0 (blocksize s) in
           modify (fun s => set_buf (<[Z.to_nat blocknr := Some block]> (m_buf s)) s) ;;
           ret (blocknr, 0)
         end
       end.

(** The block that a pointer points into. *)
Definition block_at (p : ptr) (s : ms W) : option (list Z) :=
  if p.1 <? 0 then None else mjoin (m_buf s !! Z.to_nat p.1).

Definition shift (p : ptr) (off : Z) : ptr := (p.1, p.2 + off).

(** Reading [n] bytes, and storing bytes, at an offset behind a pointer. *)
Definition load_bytes (p : ptr) (off n : Z) : M (ms W) (list Z) :=
  let* s := get_state in
  of_option (block_at p s ≫= fun block => rd_bytes block (p.2 + off) n).

Definition load (p : ptr) (off n : Z) : M (ms W) Z :=
  let* bs := load_bytes p off n in ret (le_value bs).

Definition store_bytes (p : ptr) (off : Z) (bs : list Z) : M (ms W) unit :=
  let* s := get_state in
  match block_at p s with
  | Some block =>
    if (0 <=? p.2 + off) && (p.2 + off + Z.of_nat (length bs) <=? Z.of_nat (length block))
    then put_state (set_buf (<[Z.to_nat p.1 := Some (put_bytes block (p.2 + off) bs)]> (m_buf s)) s)
    else abort
  | None => abort
  end.

(** Storing a little-endian value of [n] bytes. *)
Definition store (p : ptr) (off : Z) (n : nat) (v : Z) : M (ms W) unit := store_bytes p off (le_bytes n v).

(** A pointer that must not be [NULL]. *)
Definition deref {A} (p : option A) : M (ms W) A := of_option p.

(** *** The layout *)

(** The part of [init_disk_layout] that finds out the size of the device. *)
Definition get_dev_size (fd : Z) : M (ms W) Z :=
  let* r := sys_call (dev_fstat fd) in
  match r with
  | inr _ => perr
  | inl (S_IFBLK, _) =>
    let* r := sys_call (dev_getsize64 fd) in
    match r with inl n => ret n | inr _ => perr end
  | inl (_, size) => ret (u64 size)
  end.

Definition init_disk_layout (fd : Z) : M (ms W) unit :=
  let* nilfs_time := sys_call me_time in
  let* dev_size := get_dev_size fd in
  let* o := gets m_opts in
  let bs := mo_blocksize o in
  let bps := mo_blocks_per_segment o in
  let blkbits := my_log2 (i64 bs) in
  let ctime := if mo_creation_time o =? 0 then nilfs_time else mo_creation_time o in
  let crc_seed := first_mrand48 nilfs_time in
  let first_segblk := u64 (u64 (NILFS_DISKHDR_SIZE + bs) - 1) / bs in
  if bps <? u64 (first_segblk + NILFS_PSEG_MIN_BLOCKS) then perr
  else
    let nsegments := Z.shiftr (NILFS_SB2_OFFSET_BYTES dev_size) blkbits / bps in
    let min_nsegments := nilfs_min_nsegments nsegments (mo_r_segments_percentage o) in
    if nsegments <? min_nsegments then perr
    else modify (fun s => set_di (mk_di dev_size blkbits ctime crc_seed bps nsegments first_segblk
                   (di_nblocks_to_write (m_di s)) (di_nblocks_used (m_di s))
                   (di_nsegments_to_write (m_di s)) []) s).

(** The segment that is returned is the last one of the list. *)
Definition new_segment : M (ms W) unit :=
  let* s := get_state in
  match di_seginfo (m_di s) with
  | _ :: _ => perr
  | [] =>
    let sumbytes := sizeof_segment_summary in
    let si := mk_si (di_first_segment_block (m_di s)) 0 0 sumbytes
                (u32 (DIV_ROUND_UP sumbytes (blocksize s))) [] 0 in
    put_state (set_di (set_di_seginfo [si] (m_di s)) s)
  end.

Definition add_file_to (bs : Z) (si : nilfs_segment_info) (ino nblocks : Z) (dat_flag : bool)
  : nilfs_segment_info :=
  let files := si_files si ++ [mk_fi ino 0 nblocks None] in
  let total := u32 (si_nblocks si + nblocks) in
  if 0 <? nblocks then
    let sumbytes := increment_segsum_size bs (si_sumbytes si) nblocks dat_flag in
    mk_si (si_start_blocknr si) total (u32 (si_nfinfo si + 1)) sumbytes
      (u32 (DIV_ROUND_UP sumbytes bs)) files
      (if dat_flag then si_nvblocknrs si else u32 (si_nvblocknrs si + nblocks))
  else mk_si (si_start_blocknr si) total (si_nfinfo si) (si_sumbytes si) (si_nblk_sum si) files
         (si_nvblocknrs si).

(** A file of the first segment. *)
Definition add_file (ino nblocks : Z) (dat_flag : bool) : M (ms W) unit :=
  let* s := get_state in
  let* si := deref (head (di_seginfo (m_di s))) in
  if MAX_FILES <=? Z.of_nat (length (si_files si)) then perr
  else if NILFS_MAX_INITIAL_INO <=? ino then perr
  else put_state (set_di (set_di_seginfo
         (<[0%nat := add_file_to (blocksize s) si ino nblocks dat_flag]> (di_seginfo (m_di s))) (m_di s)) s).

(** The inner loop of [fix_disk_layout]: the files with their first blocks,
    and the number of blocks used by ordinary files. *)
Fixpoint fix_files (files : list nilfs_file_info) (blocknr used : Z) : list nilfs_file_info * Z :=
  match files with
  | [] => ([], used)
  | fi :: files =>
    if mf_nblocks fi =? 0 then
      let '(l, used) := fix_files files blocknr used in (fi :: l, used)
    else
      let counted := negb (mf_ino fi =? NILFS_DAT_INO) && negb (mf_ino fi =? NILFS_SUFILE_INO) &&
                     negb (mf_ino fi =? NILFS_CPFILE_INO) in
      let '(l, used) := fix_files files (u64 (blocknr + mf_nblocks fi))
                          (if counted then u64 (used + mf_nblocks fi) else used) in
      (mk_fi (mf_ino fi) blocknr (mf_nblocks fi) (mf_raw_inode fi) :: l, used)
  end.

(** The outer loop: the segments, the blocks to write and the blocks used;
    [None] is [too_small_segment]. *)
Fixpoint fix_segments (bps : Z) (l : list nilfs_segment_info) (to_write used : Z)
  : option (list nilfs_segment_info * Z * Z) :=
  match l with
  | [] => Some ([], to_write, used)
  | si :: l =>
    let nblocks := u32 (si_nblocks si + u32 (si_nblk_sum si + 1)) in
    if bps <? nblocks then None
    else
      let '(files, used) := fix_files (si_files si) (u64 (si_start_blocknr si + si_nblk_sum si)) used in
      let last := u64 (si_start_blocknr si + nblocks) in
      '(l, to_write, used) ← fix_segments bps l (if to_write <? last then last else to_write) used;
      Some (mk_si (si_start_blocknr si) nblocks (si_nfinfo si) (si_sumbytes si) (si_nblk_sum si) files
              (si_nvblocknrs si) :: l, to_write, used)
  end.

Definition fix_disk_layout : M (ms W) unit :=
  let* di := gets m_di in
  match fix_segments (di_blocks_per_segment di) (di_seginfo di) (di_first_segment_block di) 0 with
  | None => perr
  | Some (segs, to_write, used) =>
    modify (set_di (mk_di (di_dev_size di) (di_blkbits di) (di_ctime di) (di_crc_seed di)
      (di_blocks_per_segment di) (di_nsegments di) (di_first_segment_block di) to_write used
      (u32 (u64 (u64 (to_write + di_blocks_per_segment di) - 1) / di_blocks_per_segment di)) segs))
  end.

(** *** Files of the current segment *)

(** The current segment is one of the layout. *)
Definition current_segment : M (ms W) nilfs_segment_info :=
  let* s := get_state in
  let* i := deref (ni_current_segment (m_fs s)) in
  deref (di_seginfo (m_di s) !! i).

(** [nilfs.files[ino]]: the index of the file. *)
Definition file_index (ino : Z) : M (ms W) nat :=
  let* fs := gets m_fs in
  if (ino <? 0) || (NILFS_MAX_INITIAL_INO <=? ino) then abort
  else deref (mjoin (ni_files fs !! Z.to_nat ino)).

Definition file_of (i : nat) : M (ms W) nilfs_file_info :=
  let* si := current_segment in deref (si_files si !! i).

Definition file (ino : Z) : M (ms W) nilfs_file_info :=
  let* i := file_index ino in file_of i.

Definition si_set_raw_inode (i : nat) (p : ptr) (si : nilfs_segment_info) : nilfs_segment_info :=
  mk_si (si_start_blocknr si) (si_nblocks si) (si_nfinfo si) (si_sumbytes si) (si_nblk_sum si)
    (alter (fun fi => mk_fi (mf_ino fi) (mf_start_blocknr fi) (mf_nblocks fi) (Some p)) i (si_files si))
    (si_nvblocknrs si).

(** [nilfs.files[ino]->raw_inode = p] *)
Definition set_raw_inode (ino : Z) (p : ptr) : M (ms W) unit :=
  let* i := file_index ino in
  let* _ := file_of i in
  let* s := get_state in
  let* c := deref (ni_current_segment (m_fs s)) in
  put_state (set_di (set_di_seginfo (alter (si_set_raw_inode i p) c (di_seginfo (m_di s))) (m_di s)) s).

Definition raw_inode_of (fi : nilfs_file_info) : M (ms W) ptr := deref (mf_raw_inode fi).

Definition init_nilfs : M (ms W) unit :=
  modify (fun s => set_fs (mk_ni None (mk_sref 0 0 0 0) None None None
    (replicate (Z.to_nat NILFS_MAX_INITIAL_INO) None) (segment_start_blocknr (m_di s) 1) 0 0 1 1) s).

(** *** Files that consist of groups of entries *)

(** [for (i = 0; i < n; i++) body(i)] *)
Fixpoint for_upto (n i : nat) (body : nat -> M (ms W) unit) : M (ms W) unit :=
  match n with
  | O => ret tt
  | Datatypes.S n' => body i ;; for_upto n' (Datatypes.S i) body
  end.

Definition prepare_blockgrouped_file (blocknr : Z) : M (ms W) unit :=
  let* bs := gets blocksize in
  let group_descs_per_block := bs / sizeof_group_desc in
  let* desc := map_disk_buffer blocknr true in
  for_upto (Z.to_nat group_descs_per_block) 0 (fun i =>
    store desc (sizeof_group_desc * Z.of_nat i) 4 (u32 (bs * 8))) ;;
  map_disk_buffer (u64 (blocknr + 1)) true ;;
  ret tt.

(** The functions of bitops.c on a block of the buffer. *)
Definition alloc_blockgrouped_file_entry (blocknr nr : Z) : M (ms W) unit :=
  let* desc := map_disk_buffer blocknr true in
  let* bitmap := map_disk_buffer (u64 (blocknr + 1)) true in
  let* s := get_state in
  let* bits := deref (block_at bitmap s) in
  let* bit := of_option (ext2fs_test_bit nr bits) in
  if negb (bit =? 0) then perr
  else
    let* (_, bits) := of_option (ext2fs_set_bit nr bits) in
    store_bytes bitmap 0 bits ;;
    let* nfrees := load desc 0 4 in
    if nfrees =? 0 then abort
    else store desc 0 4 (u32 (nfrees - 1)).

Definition reserve_ifile_inode (ino : Z) : M (ms W) unit :=
  let* fi := file NILFS_IFILE_INO in
  alloc_blockgrouped_file_entry (mf_start_blocknr fi) ino.

Definition init_inode (ino type mode size : Z) : M (ms W) unit :=
  let* fi := file ino in
  let* raw_inode := raw_inode_of fi in
  let* di := gets m_di in
  store raw_inode i_mode_off 2 (Z.lor (Z.shiftl type 12) mode) ;;
  store raw_inode i_flags_off 4 0 ;;
  store raw_inode i_size_off 8 size ;;
  store raw_inode i_blocks_off 8 (mf_nblocks fi) ;;
  store raw_inode i_links_count_off 2 1 ;;
  store raw_inode i_ctime_off 8 (di_ctime di) ;;
  store raw_inode i_mtime_off 8 (di_ctime di) ;;
  if NILFS_USER_INO <=? ino then reserve_ifile_inode ino else ret tt.

Definition inc_link_count (ino : Z) : M (ms W) unit :=
  let* fi := file ino in
  let* raw_inode := raw_inode_of fi in
  let* n := load raw_inode i_links_count_off 2 in
  store raw_inode i_links_count_off 2 (u16 (n + 1)).

Definition next_dir_entry (de : ptr) : M (ms W) ptr :=
  let* rec_len := load de de_rec_len_off 2 in
  ret (shift de (nilfs_rec_len_from_disk rec_len)).

(** One entry of the root directory; [name] is the 8 bytes copied. *)
Definition put_dir_entry (de : ptr) (name_len rec_len : Z) (name : list Z) : M (ms W) unit :=
  store de de_inode_off 8 NILFS_ROOT_INO ;;
  store de de_name_len_off 1 name_len ;;
  let* rec_len := of_option (nilfs_rec_len_to_disk rec_len) in
  store de de_rec_len_off 2 rec_len ;;
  store de de_file_type_off 1 NILFS_FT_DIR ;;
  store_bytes de de_name_off name.

Definition nilfs_mkfs_make_rootdir : M (ms W) unit :=
  let* fi := file NILFS_ROOT_INO in
  let* de := map_disk_buffer (mf_start_blocknr fi) true in
  let* bs := gets blocksize in
  init_inode NILFS_ROOT_INO DT_DIR 0x1ed (u32 bs) ;;
  let rec_end := NILFS_DIR_REC_LEN 1 in
  put_dir_entry de 1 rec_end (46 :: replicate 7 0) ;;
  let* de := next_dir_entry de in
  put_dir_entry de 2 (u32 (bs - rec_end)) (46 :: 46 :: replicate 6 0) ;;
  inc_link_count NILFS_ROOT_INO.

Definition nilfs_mkfs_make_reserved_files : M (ms W) unit :=
  init_inode NILFS_ATIME_INO DT_REG 0 0 ;;
  init_inode 1 DT_REG 0 0 ;;
  init_inode 8 DT_REG 0 0 ;;
  init_inode 9 DT_REG 0 0 ;;
  init_inode 10 DT_REG 0 0.

(** The body of the inner loop of [prepare_ifile]: entry [i] of a block. *)
Definition place_raw_inode (entry_block : ptr) (ino : Z) (i : nat) : M (ms W) unit :=
  if ino <? NILFS_MAX_INITIAL_INO then
    let* fs := gets m_fs in
    match mjoin (ni_files fs !! Z.to_nat ino) with
    | None => ret tt
    | Some k =>
      let* fi := file_of k in
      match mf_raw_inode fi with
      | Some _ => ret tt
      | None => set_raw_inode ino (shift entry_block (sizeof_inode * Z.of_nat i))
      end
    end
  else ret tt.

Definition prepare_ifile : M (ms W) unit :=
  let* fi := file NILFS_IFILE_INO in
  let* bs := gets blocksize in
  let entries_per_block := Z.to_nat (bs / sizeof_inode) in
  let blocknr := mf_start_blocknr fi in
  prepare_blockgrouped_file blocknr ;;
  let first := group_desc_blocks_per_group + bitmap_blocks_per_group in
  for_upto (Z.to_nat (mf_nblocks fi - first)) 0 (fun b =>
    let* raw_inode := map_disk_buffer (u64 (blocknr + first + Z.of_nat b)) true in
    for_upto entries_per_block 0 (fun i =>
      place_raw_inode raw_inode (Z.of_nat (b * entries_per_block + i)) i)) ;;
  for_upto (Z.to_nat NILFS_USER_INO) 0 (fun ino => alloc_blockgrouped_file_entry blocknr (Z.of_nat ino)) ;;
  init_inode NILFS_IFILE_INO DT_REG 0 0.

(** The body of the inner loop of [prepare_cpfile], for one entry. *)
Definition init_checkpoint (cp : ptr) (cno : Z) : M (ms W) unit :=
  let* di := gets m_di in
  store cp cp_cno_off 8 cno ;;
  if cno =? first_cno then
    store cp cp_create_off 8 (di_ctime di) ;;
    modify (fun s => set_fs (set_ni_checkpoint (Some cp) (m_fs s)) s) ;;
    set_raw_inode NILFS_IFILE_INO (shift cp cp_ifile_inode_off)
  else
    let* flags := load cp cp_flags_off 4 in
    store cp cp_flags_off 4 (u32 (Z.lor flags (Z.shiftl 1 NILFS_CHECKPOINT_INVALID))).

(** The entries of a file whose first block has [head] entries less: the
    block [b], its first entry, and the number of that entry. *)
Definition entries_from (head entries_per_block : nat) (b : nat) : nat * Z :=
  match b with
  | O => (head, 0)
  | _ => (0%nat, Z.of_nat (b * entries_per_block - head))
  end.

Definition prepare_cpfile : M (ms W) unit :=
  let* fi := file NILFS_CPFILE_INO in
  let* bs := gets blocksize in
  let entries_per_block := Z.to_nat (bs / sizeof_checkpoint) in
  let blocknr := mf_start_blocknr fi in
  let* header := map_disk_buffer blocknr true in
  store header ch_ncheckpoints_off 8 1 ;;
  for_upto (Z.to_nat (mf_nblocks fi)) 0 (fun b =>
    let* entry := map_disk_buffer (u64 (blocknr + Z.of_nat b)) true in
    let '(first, done) := entries_from (Z.to_nat NILFS_CPFILE_FIRST_CHECKPOINT_OFFSET) entries_per_block b in
    for_upto (entries_per_block - first) first (fun i =>
      init_checkpoint (shift entry (sizeof_checkpoint * Z.of_nat i)) (1 + done + Z.of_nat (i - first)))) ;;
  init_inode NILFS_CPFILE_INO DT_REG 0 0.

Definition commit_cpfile : M (ms W) unit :=
  let* fs := gets m_fs in
  let* cp := deref (ni_checkpoint fs) in
  let* di := gets m_di in
  let* si := current_segment in
  store cp cp_inodes_count_off 8 nr_initial_inodes ;;
  store cp cp_blocks_count_off 8 (di_nblocks_used di) ;;
  store cp cp_nblk_inc_off 8 (si_nblocks si).

Definition set_su_flag (su : ptr) (flag : Z) : M (ms W) unit :=
  let* flags := load su su_flags_off 4 in
  store su su_flags_off 4 (u32 (Z.lor flags (Z.shiftl 1 flag))).

Definition nilfs_segment_usage_set_clean (su : ptr) : M (ms W) unit :=
  store su su_lastmod_off 8 0 ;;
  store su su_nblocks_off 4 0 ;;
  store su su_flags_off 4 0.

Definition prepare_sufile : M (ms W) unit :=
  let* fi := file NILFS_SUFILE_INO in
  let* bs := gets blocksize in
  let* di := gets m_di in
  let entries_per_block := Z.to_nat (bs / sizeof_segment_usage) in
  let blocknr := mf_start_blocknr fi in
  let* header := map_disk_buffer blocknr true in
  store header sh_ncleansegs_off 8 (u64 (di_nsegments di - nr_initial_segments)) ;;
  store header sh_ndirtysegs_off 8 nr_initial_segments ;;
  store header sh_last_alloc_off 8 (u64 (di_nsegments di - 1)) ;;
  for_upto (Z.to_nat (mf_nblocks fi)) 0 (fun b =>
    let* entry := map_disk_buffer (u64 (blocknr + Z.of_nat b)) true in
    let '(first, done) := entries_from (Z.to_nat NILFS_SUFILE_FIRST_SEGMENT_USAGE_OFFSET) entries_per_block b in
    for_upto (entries_per_block - first) first (fun i =>
      let su := shift entry (sizeof_segment_usage * Z.of_nat i) in
      if done + Z.of_nat (i - first) <? nr_initial_segments then
        set_su_flag su NILFS_SEGMENT_USAGE_ACTIVE ;; set_su_flag su NILFS_SEGMENT_USAGE_DIRTY
      else nilfs_segment_usage_set_clean su)) ;;
  init_inode NILFS_SUFILE_INO DT_REG 0 0.

Definition commit_sufile : M (ms W) unit :=
  let* fi := file NILFS_SUFILE_INO in
  let* bs := gets blocksize in
  let* di := gets m_di in
  let* si := current_segment in
  let entries_per_block := bs / sizeof_segment_usage in
  let segnum := u32 (mf_start_blocknr fi / di_blocks_per_segment di) in
  let index := u64 (segnum + NILFS_SUFILE_FIRST_SEGMENT_USAGE_OFFSET) in
  let* su := map_disk_buffer (u64 (mf_start_blocknr fi + index / entries_per_block)) true in
  let su := shift su (sizeof_segment_usage * (index `mod` entries_per_block)) in
  store su su_lastmod_off 8 (di_ctime di) ;;
  store su su_nblocks_off 4 (si_nblocks si).

(** The loop over the entries of a block does nothing. *)
Definition prepare_dat : M (ms W) unit :=
  let* fi := file NILFS_DAT_INO in
  let blocknr := mf_start_blocknr fi in
  prepare_blockgrouped_file blocknr ;;
  let first := group_desc_blocks_per_group + bitmap_blocks_per_group in
  for_upto (Z.to_nat (mf_nblocks fi - first)) 0 (fun b =>
    map_disk_buffer (u64 (blocknr + first + Z.of_nat b)) true ;; ret tt) ;;
  alloc_blockgrouped_file_entry blocknr 0 ;;
  init_inode NILFS_DAT_INO DT_REG 0 0.

Definition assign_vblocknr (blocknr : Z) : M (ms W) Z :=
  let* fi := file NILFS_DAT_INO in
  let* bs := gets blocksize in
  let* fs := gets m_fs in
  let entries_per_block := bs / sizeof_dat_entry in
  let vblocknr := ni_vblocknr fs in
  modify (fun s => set_fs (set_ni_vblocknr (u64 (vblocknr + 1)) (m_fs s)) s) ;;
  let entry_block := u64 (mf_start_blocknr fi + group_desc_blocks_per_group + bitmap_blocks_per_group +
                          vblocknr / entries_per_block) in
  alloc_blockgrouped_file_entry (mf_start_blocknr fi) vblocknr ;;
  if u64 (mf_start_blocknr fi + mf_nblocks fi) <=? entry_block then abort
  else
    let* entry := map_disk_buffer entry_block true in
    let entry := shift entry (sizeof_dat_entry * (vblocknr `mod` entries_per_block)) in
    store entry de_blocknr_off 8 blocknr ;;
    store entry de_start_off 8 (ni_cno fs) ;;
    store entry de_end_off 8 NILFS_CNO_MAX ;;
    ret vblocknr.

(** *** The first log *)

(** The table of files: [nilfs.files[fi->ino] = fi] for every file. *)
Fixpoint file_table (i : nat) (files : list nilfs_file_info) (table : list (option nat)) : list (option nat) :=
  match files with
  | [] => table
  | fi :: files => file_table (Datatypes.S i) files (<[Z.to_nat (mf_ino fi) := Some i]> table)
  end.

(** The parts of [prepare_segment] that fill the summary and the super root. *)
Definition init_segsum (segsum : ptr) (di : nilfs_disk_info) (si : nilfs_segment_info) (fs : nilfs_fs_info)
  : M (ms W) unit :=
  store segsum ss_magic_off 4 NILFS_SEGSUM_MAGIC ;;
  store segsum ss_bytes_off 2 sizeof_segment_summary ;;
  store segsum ss_flags_off 2 (Z.lor NILFS_SS_LOGBGN (Z.lor NILFS_SS_LOGEND NILFS_SS_SR)) ;;
  store segsum ss_seq_off 8 (ni_seq fs) ;;
  store segsum ss_create_off 8 (di_ctime di) ;;
  store segsum ss_next_off 8 (ni_next fs) ;;
  store segsum ss_nblocks_off 4 (si_nblocks si) ;;
  store segsum ss_nfinfo_off 4 (si_nfinfo si) ;;
  store segsum ss_sumbytes_off 4 (si_sumbytes si) ;;
  store segsum ss_cno_off 8 (ni_cno fs).

Definition init_super_root (sr : ptr) (di : nilfs_disk_info) : M (ms W) unit :=
  store sr sr_bytes_off 2 NILFS_SR_BYTES ;;
  store sr sr_nongc_ctime_off 8 (di_ctime di) ;;
  store sr sr_flags_off 2 0 ;;
  set_raw_inode NILFS_CPFILE_INO (shift sr sr_cpfile_off) ;;
  set_raw_inode NILFS_SUFILE_INO (shift sr sr_sufile_off) ;;
  set_raw_inode NILFS_DAT_INO (shift sr sr_dat_off).

Definition prepare_segment (c : nat) : M (ms W) unit :=
  let* di := gets m_di in
  let* si := deref (di_seginfo di !! c) in
  modify (fun s => set_fs (set_ni_files
    (file_table 0 (si_files si) (replicate (Z.to_nat NILFS_MAX_INITIAL_INO) None))
    (set_ni_current_segment (Some c) (m_fs s))) s) ;;
  let* segsum := map_disk_buffer (si_start_blocknr si) true in
  modify (fun s => set_fs (set_ni_segsum (Some segsum) (m_fs s)) s) ;;
  let* fs := gets m_fs in
  init_segsum segsum di si fs ;;
  let end_blocknr := u64 (si_start_blocknr si + si_nblocks si - 1) in
  let* sr := map_disk_buffer end_blocknr true in
  modify (fun s => set_fs (set_ni_super_root (Some sr) (m_fs s)) s) ;;
  init_super_root sr di ;;
  prepare_dat ;;
  prepare_sufile ;;
  prepare_cpfile ;;
  prepare_ifile.

(** The room for one item of the summary, and the offset behind it. *)
Definition map_segsum_info (start_blocknr offset item_size : Z) : M (ms W) (ptr * Z) :=
  let* bs := gets blocksize in
  let block_offset := offset / bs in
  let offset_in_block := offset `mod` bs in
  let wraps := bs - offset_in_block <? item_size in
  let block_offset := if wraps then block_offset + 1 else block_offset in
  let offset_in_block := if wraps then 0 else offset_in_block in
  let offset := if wraps then u64 (block_offset * bs) else offset in
  let* block := map_disk_buffer (u64 (start_blocknr + block_offset)) true in
  ret (shift block offset_in_block, u64 (offset + item_size)).

(** The loops over the blocks of a file, from block [i] on. *)
Fixpoint put_dat_binfos (start : Z) (fi : nilfs_file_info) (raw_inode : ptr) (n i : nat) (sum_offset : Z)
  : M (ms W) Z :=
  match n with
  | O => ret sum_offset
  | Datatypes.S n' =>
    let* (pblkoff, sum_offset) := map_segsum_info start sum_offset NILFS_BINFO_DAT_DATA_SIZE in
    store pblkoff 0 8 (Z.of_nat i) ;;
    store raw_inode (i_bmap_off (Z.of_nat i + 1)) 8 (u64 (mf_start_blocknr fi + Z.of_nat i)) ;;
    put_dat_binfos start fi raw_inode n' (Datatypes.S i) sum_offset
  end.

Fixpoint put_binfos (start : Z) (fi : nilfs_file_info) (raw_inode : ptr) (n i : nat) (sum_offset : Z)
  : M (ms W) Z :=
  match n with
  | O => ret sum_offset
  | Datatypes.S n' =>
    let* (pbinfo_v, sum_offset) := map_segsum_info start sum_offset NILFS_BINFO_DATA_SIZE in
    let* vblocknr := assign_vblocknr (u64 (mf_start_blocknr fi + Z.of_nat i)) in
    store pbinfo_v 0 8 vblocknr ;;
    store pbinfo_v 8 8 (Z.of_nat i) ;;
    store raw_inode (i_bmap_off (Z.of_nat i + 1)) 8 vblocknr ;;
    put_binfos start fi raw_inode n' (Datatypes.S i) sum_offset
  end.

Definition update_blocknr (fi : nilfs_file_info) (sum_offset : Z) : M (ms W) Z :=
  let* si := current_segment in
  let start := si_start_blocknr si in
  if mf_nblocks fi =? 0 then
    let* raw_inode := raw_inode_of fi in
    store raw_inode (i_bmap_off 0) 8 0 ;;
    ret sum_offset
  else
    let* (finfo, sum_offset) := map_segsum_info start sum_offset sizeof_finfo in
    store finfo fi_ino_off 8 (mf_ino fi) ;;
    store finfo fi_nblocks_off 4 (mf_nblocks fi) ;;
    store finfo fi_ndatablk_off 4 (mf_nblocks fi) ;;
    store finfo fi_cno_off 8 1 ;;
    let* raw_inode := raw_inode_of fi in
    store raw_inode (i_bmap_off 0) 8 0 ;;
    if mf_ino fi =? NILFS_DAT_INO
    then put_dat_binfos start fi raw_inode (Z.to_nat (mf_nblocks fi)) 0 sum_offset
    else put_binfos start fi raw_inode (Z.to_nat (mf_nblocks fi)) 0 sum_offset.

(** The files from [i] on. *)
Fixpoint update_blocknrs (n i : nat) (sum_offset : Z) : M (ms W) unit :=
  match n with
  | O => ret tt
  | Datatypes.S n' =>
    let* fi := file_of i in
    let* sum_offset := update_blocknr fi sum_offset in
    update_blocknrs n' (Datatypes.S i) sum_offset
  end.

(** The checksum of the blocks behind the first one. *)
Fixpoint crc_blocks (n : nat) (blocknr sum : Z) : M (ms W) Z :=
  match n with
  | O => ret sum
  | Datatypes.S n' =>
    let* block := map_disk_buffer (u64 (blocknr + 1)) true in
    let* bs := gets blocksize in
    let* data := load_bytes block 0 bs in
    crc_blocks n' (u64 (blocknr + 1)) (crc32_le sum data)
  end.

(** The summary is read through its first block. *)
Definition fill_in_checksums (si : nilfs_segment_info) (crc_seed : Z) : M (ms W) unit :=
  let* fs := gets m_fs in
  let* segsum := deref (ni_segsum fs) in
  let* sr := deref (ni_super_root fs) in
  let* bs := gets blocksize in
  let* sum := load_bytes segsum ss_sumsum_end (u64 (si_sumbytes si - ss_sumsum_end)) in
  store segsum ss_sumsum_off 4 (crc32_le crc_seed sum) ;;
  let* root := load_bytes sr 4 (NILFS_SR_BYTES - 4) in
  store sr sr_sum_off 4 (crc32_le crc_seed root) ;;
  if si_nblocks si =? 0 then abort
  else
    let* block := map_disk_buffer (si_start_blocknr si) true in
    let* data := load_bytes block 4 (bs - 4) in
    let* sum := crc_blocks (Z.to_nat (si_nblocks si - 1)) (si_start_blocknr si) (crc32_le crc_seed data) in
    store segsum ss_datasum_off 4 sum.

Definition commit_segment : M (ms W) unit :=
  let* s := get_state in
  let* si := current_segment in
  let* _ := deref (ni_segsum (m_fs s)) in
  update_blocknrs (length (si_files si)) 0 sizeof_segment_summary ;;
  commit_cpfile ;;
  commit_sufile ;;
  let* di := gets m_di in
  let* si := current_segment in
  fill_in_checksums si (di_crc_seed di) ;;
  modify (fun s => set_fs (set_ni_last_segment_ref
    (mk_sref (ni_seq (m_fs s)) (si_start_blocknr si) (count_free_blocks di) (ni_cno (m_fs s))) (m_fs s)) s).

(** *** The superblock *)

Definition sb_store (p : ptr) (f : sb_field) (v : Z) : M (ms W) unit :=
  store p (f_off f) (Z.to_nat (f_size f)) v.

Fixpoint sb_stores (p : ptr) (l : list (sb_field * Z)) : M (ms W) unit :=
  match l with
  | [] => ret tt
  | (f, v) :: l => sb_store p f v ;; sb_stores p l
  end.

(** The fields, in the order of the assignments. *)
Definition initial_super_block (di : nilfs_disk_info) (o : mkfs_options) : list (sb_field * Z) :=
  [(s_rev_level, NILFS_CURRENT_REV); (s_minor_rev_level, NILFS_MINOR_REV); (s_magic, NILFS_SUPER_MAGIC);
   (s_bytes, NILFS_SB_BYTES); (s_flags, 0); (s_crc_seed, di_crc_seed di); (s_sum, 0);
   (s_log_block_size, di_blkbits di - 10); (s_nsegments, di_nsegments di); (s_dev_size, di_dev_size di);
   (s_first_data_block, di_first_segment_block di); (s_blocks_per_segment, di_blocks_per_segment di);
   (s_r_segments_percentage, mo_r_segments_percentage o); (s_ctime, di_ctime di); (s_mtime, 0);
   (s_mnt_count, 0); (s_max_mnt_count, NILFS_DFL_MAX_MNT_COUNT); (s_state, NILFS_VALID_FS); (s_errors, 1);
   (s_lastcheck, di_ctime di); (s_checkinterval, NILFS_DEF_CHECK_INTERVAL);
   (s_creator_os, NILFS_OS_LINUX); (s_first_ino, NILFS_USER_INO); (s_inode_size, sizeof_inode);
   (s_dat_entry_size, sizeof_dat_entry); (s_checkpoint_size, sizeof_checkpoint);
   (s_segment_usage_size, sizeof_segment_usage);
   (s_feature_compat, default 0 (mo_compat_array o !! 0%nat));
   (s_feature_compat_ro, default 0 (mo_compat_array o !! 1%nat));
   (s_feature_incompat, default 0 (mo_compat_array o !! 2%nat))].

Definition prepare_super_block : M (ms W) unit :=
  let* s := get_state in
  let bs := blocksize s in
  if bs <? NILFS_MAX_SB_SIZE then perr
  else
    let* block := map_disk_buffer (NILFS_SB_OFFSET_BYTES / bs) true in
    let raw_sb := shift block (NILFS_SB_OFFSET_BYTES `mod` bs) in
    modify (set_sb (Some raw_sb)) ;;
    store_bytes raw_sb 0 (replicate (Z.to_nat NILFS_MAX_SB_SIZE) 0) ;;
    sb_stores raw_sb (initial_super_block (m_di s) (m_opts s)) ;;
    let* uuid := sys_call me_uuid_generate in
    store_bytes raw_sb (f_off s_uuid) uuid ;;
    store_bytes raw_sb (f_off s_volume_name) (mo_volume_label (m_opts s)).

Definition commit_super_block : M (ms W) unit :=
  let* s := get_state in
  let* raw_sb := deref (m_sb s) in
  let segref := ni_last_segment_ref (m_fs s) in
  sb_stores raw_sb [(s_last_cno, sref_cno segref); (s_last_pseg, sref_start_blocknr segref);
    (s_last_seq, sref_seq segref); (s_free_blocks_count, sref_free_blocks_count segref);
    (s_wtime, di_ctime (m_di s))] ;;
  let* data := load_bytes raw_sb 0 NILFS_SB_BYTES in
  sb_store raw_sb s_sum (crc32_le (di_crc_seed (m_di s)) data).

(** *** Input and output *)

Definition init_disk_buffer (max_blocks : Z) : M (ms W) unit :=
  let* r := attempt (m_malloc (max_blocks * 8)) in
  match r with
  | inr _ => perr
  | inl _ => modify (set_buf (replicate (Z.to_nat max_blocks) None))
  end.

(** Seeking to a negative offset fails. *)
Definition lseek (off : Z) : M (ms W) unit := if off <? 0 then fail EINVAL else modify (set_pos off).

(** [read] and [write] at the offset of the file, which moves by the bytes
    transferred. *)
Definition read (fd n : Z) : M (ms W) (list Z) :=
  let* s := get_state in
  let* r := sys_call (dev_pread fd n (m_pos s)) in
  match r with
  | inl bs => modify (set_pos (m_pos s + Z.of_nat (length bs))) ;; ret bs
  | inr e => fail e
  end.

Definition write (fd : Z) (bs : list Z) : M (ms W) Z :=
  let* s := get_state in
  let* r := sys_call (dev_pwrite fd bs (m_pos s)) in
  match r with
  | inl n => modify (set_pos (m_pos s + n)) ;; ret n
  | inr e => fail e
  end.

(** The header is one block whatever the size of a block. *)
Definition read_disk_header (fd : Z) : M (ms W) unit :=
  let* bs := gets blocksize in
  let hdr_blocks := u64 (u64 (NILFS_SB_OFFSET_BYTES + bs) - 1) / bs in
  lseek 0 ;;
  for_upto (Z.to_nat hdr_blocks) 0 (fun i =>
    let* block := map_disk_buffer (Z.of_nat i) false in
    let* r := attempt (read fd bs) in
    match r with
    | inl data => store_bytes block 0 data
    | inr _ => perr
    end).

(** Four bytes are compared with the signature of two. *)
Definition device_has_boot_sector : M (ms W) bool :=
  let* block := map_disk_buffer 0 false in
  let* bssig := load block 0x1fe 4 in
  ret (bssig =? 0xaa55).

(** The largest of [n] sizes, each half of the one before, that can be
    allocated. *)
Fixpoint erase_buffer (n : nat) (bufsz : Z) : M (ms W) Z :=
  match n with
  | O => perr
  | Datatypes.S n' =>
    let* r := attempt (m_malloc bufsz) in
    match r with
    | inl _ => ret bufsz
    | inr _ => erase_buffer n' (Z.shiftr bufsz 1)
    end
  end.

(** The loop of [erase_disk_range].  The result of [write] is compared as an
    unsigned number, so that an error does not count as a failure. *)
Fixpoint erase_loop (fuel : nat) (fd bufsz count : Z) : M (ms W) unit :=
  match fuel with
  | O => out_of_fuel
  | Datatypes.S fuel' =>
    if 0 <? count then
      let size := if bufsz <? count then bufsz else count in
      let* r := attempt (write fd (replicate (Z.to_nat size) 0)) in
      let written := match r with inl n => u64 n | inr _ => u64 (-1) end in
      if written <? size then fail EIO
      else erase_loop fuel' fd bufsz (count - size)
    else ret tt
  end.

Definition erase_disk_range (fd offset count : Z) : M (ms W) unit :=
  let* bs := gets blocksize in
  let* bufsz := erase_buffer 4 (u64 (bs * MAX_NBLOCKS_CLEAR_BUFFER)) in
  lseek offset ;;
  erase_loop (Datatypes.S (Z.to_nat count)) fd bufsz count.

(** -1 is a failure; [errno] is not used. *)
Definition erase_disk (fd : Z) : M (ms W) unit :=
  let* s := get_state in
  let* boot := device_has_boot_sector in
  let start := if boot : bool then NILFS_SB_OFFSET_BYTES else 0 in
  let end_ := i64 (Z.land (di_dev_size (m_di s)) (Z.lnot 511)) in
  if (end_ <? NILFS_DISK_ERASE_SIZE) || (end_ - NILFS_DISK_ERASE_SIZE <? start) then abort
  else
    let* skip :=
      if mo_discard (m_opts s) then
        let* ok := sys_call (me_discard fd start (end_ - start)) in
        if ok : bool then
          let* zeroes := sys_call (me_discard_zeroes fd) in ret (negb (zeroes =? 0))
        else ret false
      else ret false in
    if skip : bool then ret tt
    else
      erase_disk_range fd (end_ - NILFS_DISK_ERASE_SIZE) NILFS_DISK_ERASE_SIZE ;;
      erase_disk_range fd start (NILFS_DISK_ERASE_SIZE - start).

(** The blocks from [blocknr] on; only an error of [write] is a failure. *)
Fixpoint write_blocks (n : nat) (fd blocknr : Z) : M (ms W) unit :=
  match n with
  | O => ret tt
  | Datatypes.S n' =>
    let* block := map_disk_buffer blocknr true in
    let* bs := gets blocksize in
    let* data := load_bytes block 0 bs in
    write fd data ;;
    write_blocks n' fd (u64 (blocknr + 1))
  end.

Fixpoint write_segments (fd : Z) (l : list nilfs_segment_info) : M (ms W) unit :=
  match l with
  | [] => ret tt
  | si :: l =>
    let* bs := gets blocksize in
    attempt (lseek (i64 (u64 (si_start_blocknr si * bs)))) ;;
    write_blocks (Z.to_nat (si_nblocks si)) fd (si_start_blocknr si) ;;
    write_segments fd l
  end.

Definition fsync (fd : Z) : M (ms W) unit :=
  let* ok := sys_call (me_fsync fd) in if ok : bool then ret tt else fail EIO.

Definition write_super_block (fd off : Z) : M (ms W) unit :=
  let* s := get_state in
  let* raw_sb := deref (m_sb s) in
  lseek off ;;
  let* data := load_bytes raw_sb 0 NILFS_MAX_SB_SIZE in
  write fd data ;;
  ret tt.

(** The part of [write_disk] that can go to [failed_to_write]. *)
Definition write_data (fd : Z) : M (ms W) unit :=
  let* di := gets m_di in
  erase_disk fd ;;
  write_segments fd (di_seginfo di) ;;
  fsync fd ;;
  write_super_block fd NILFS_SB_OFFSET_BYTES ;;
  write_super_block fd (i64 (NILFS_SB2_OFFSET_BYTES (di_dev_size di))) ;;
  fsync fd.

Definition write_disk (fd : Z) : M (ms W) unit :=
  let* o := gets m_opts in
  if mo_nflag o then ret tt
  else
    let* r := attempt (write_data fd) in
    match r with inl _ => ret tt | inr _ => perr end.

(** *** Options *)

(** [long] arguments. *)
Definition check_blocksize (bs : Z) : bool :=
  negb ((me_pagesize <? bs) || (bs <? NILFS_MIN_BLOCKSIZE) || negb (Z.land (i64 (bs - 1)) bs =? 0)).

Definition check_blocks_per_segment (bps : Z) : bool :=
  negb ((bps <? NILFS_SEG_MIN_BLOCKS) || negb (Z.land (i64 (bps - 1)) bps =? 0)).

Definition check_reserved_segments_percentage (percentage : Z) : bool :=
  negb ((percentage <? 1) || (99 <? percentage)).

Definition modify_opts (f : mkfs_options -> mkfs_options) : M (ms W) unit :=
  modify (fun s => set_opts (f (m_opts s)) s).

Definition ok_features : list Z := [0; NILFS_FEATURE_COMPAT_RO_BLOCK_COUNT; 0].

Definition nilfs_mkfs_edit_feature (str : list Z) : M (ms W) unit :=
  let* mem := attempt (m_malloc (Z.of_nat (length str) + 1)) in
  let* o := gets m_opts in
  match nilfs_edit_feature (match mem with inl _ => true | inr _ => false end) str
          (Some ok_features) None (mo_compat_array o) with
  | (Ok EditOk, array) => modify_opts (set_mo_compat_array array)
  | (Ok (EditBad _ _), _) => perr
  | _ => abort
  end.

(** The body of the loop of [parse_options]; [-P] asks for the time. *)
Definition parse_option (c : Z) (optarg : list Z) : M (ms W) unit :=
  if c =? 98 (* b *) then
    let bs := atol optarg in
    modify_opts (set_mo_blocksize (u64 bs)) ;;
    if check_blocksize bs then ret tt else perr
  else if c =? 66 (* B *) then modify_opts (set_mo_blocks_per_segment (u64 (atol optarg)))
  else if c =? 99 (* c *) then modify_opts (fun o => set_mo_cflag (mo_cflag o + 1) o)
  else if c =? 102 (* f *) then modify_opts (set_mo_force_overwrite true)
  else if c =? 104 (* h *) then exit_with EXIT_SUCCESS
  else if c =? 75 (* K *) then modify_opts (set_mo_discard false)
  else if c =? 76 (* L *) then modify_opts (set_mo_volume_label (strncpy optarg 80))
  else if c =? 109 (* m *) then modify_opts (set_mo_r_segments_percentage (u64 (atol optarg)))
  else if c =? 110 (* n *) then modify_opts (set_mo_nflag true)
  else if c =? 113 (* q *) then modify_opts (set_mo_quiet true)
  else if c =? 118 (* v *) then modify_opts (fun o => set_mo_verbose (mo_verbose o + 1) o)
  else if c =? 79 (* O *) then modify_opts (set_mo_fs_features (Some optarg))
  else if c =? 80 (* P *) then
    modify_opts (set_mo_creation_time (atol optarg)) ;;
    let* _ := sys_call me_time in ret tt
  else if c =? 86 (* V *) then modify_opts (set_mo_show_version_only true)
  else exit_with EXIT_FAILURE.

Fixpoint parse_option_loop (argv : list (Z * list Z)) : M (ms W) unit :=
  match argv with
  | [] => ret tt
  | (c, optarg) :: argv => parse_option c optarg ;; parse_option_loop argv
  end.

(** [rest]: the number of arguments behind the options. *)
Definition parse_options (argv : list (Z * list Z)) (rest : nat) : M (ms W) unit :=
  parse_option_loop argv ;;
  modify_opts (fun o => if mo_quiet o then set_mo_verbose 0 o else o) ;;
  let* o := gets m_opts in
  if Nat.eqb rest 0 && negb (mo_show_version_only o) then exit_with EXIT_FAILURE
  else if mo_show_version_only o then exit_with EXIT_SUCCESS
  else if negb (check_blocks_per_segment (i64 (mo_blocks_per_segment o))) then perr
  else if negb (check_reserved_segments_percentage (i64 (mo_r_segments_percentage o))) then perr
  else match mo_fs_features o with
       | Some str => nilfs_mkfs_edit_feature str
       | None => ret tt
       end.

(** *** Checking the device *)

(** The arguments of badblocks. *)
Definition badblocks_args (o : mkfs_options) (device : list Z) : list (list Z) :=
  [codes "/sbin/badblocks"; codes "-b"; print_cno (mo_blocksize o)] ++
  (if mo_quiet o then [] else [codes "-s"]) ++
  (if 1 <? mo_cflag o then [codes "-w"] else []) ++ [device].

Definition disk_scan (device : list Z) : M (ms W) unit :=
  let* found := sys_call me_badblocks in
  if negb found then ret tt
  else
    let* o := gets m_opts in
    let* c := sys_call (me_run_badblocks (badblocks_args o device)) in
    match c with
    | Exited status => if status =? 0 then ret tt else perr
    | ForkFailed | WaitFailed | Killed => perr
    end.

(** Whether libblkid found a file system or a partition table. *)
Definition found_signature (a : blkid_answer) : bool :=
  bl_probe a && (0 <? bl_size a) && (0 <=? bl_partitions a) && (bl_fullprobe a =? 0) &&
  (bl_type a || bl_pttype a).

Definition check_safety_of_device_overwrite (device : list Z) : M (ms W) unit :=
  let* o := gets m_opts in
  match device with
  | [] => ret tt
  | _ =>
    if mo_force_overwrite o then ret tt
    else
      let* a := sys_call me_blkid in
      if found_signature a then
        let* input := gets (fun s => me_input (m_world s)) in
        match confirm_format (Datatypes.S (length input)) input with
        | Some true => ret tt
        | Some false => perr
        | None => out_of_fuel
        end
      else ret tt
  end.

(** *** The program *)

(** The files of the first log, in the order of their blocks. *)
Definition add_files : M (ms W) unit :=
  let* bs := gets blocksize in
  add_file NILFS_ROOT_INO 1 false ;;
  add_file NILFS_ATIME_INO 0 false ;;
  add_file 1 0 false ;;
  add_file 8 0 false ;;
  add_file 9 0 false ;;
  add_file 10 0 false ;;
  let* n := match count_ifile_blocks bs with Some n => ret n | None => perr end in
  add_file NILFS_IFILE_INO n false ;;
  add_file NILFS_CPFILE_INO (count_cpfile_blocks bs) false ;;
  add_file NILFS_SUFILE_INO (count_sufile_blocks bs) false ;;
  let* s := get_state in
  let* si := deref (head (di_seginfo (m_di s))) in
  let* n := match count_dat_blocks bs (si_nvblocknrs si) with Some n => ret n | None => perr end in
  add_file NILFS_DAT_INO n true.

(** [main], in three parts.  The layout is decided; *)
Definition decide_layout (fd : Z) : M (ms W) unit :=
  init_disk_layout fd ;; new_segment ;; add_files ;; fix_disk_layout.

(** the first log and the superblock are made in memory; *)
Definition build_image (fd : Z) : M (ms W) unit :=
  let* di := gets m_di in
  init_disk_buffer (di_nblocks_to_write di) ;;
  read_disk_header fd ;;
  prepare_super_block ;;
  init_nilfs ;;
  prepare_segment 0 ;;
  nilfs_mkfs_make_rootdir ;;
  nilfs_mkfs_make_reserved_files ;;
  commit_segment ;;
  commit_super_block.

Definition make_file_system (fd : Z) : M (ms W) unit :=
  decide_layout fd ;; build_image fd ;; write_disk fd.

(** and before that the options are read and the device is checked and
    opened. *)
Definition open_device (argv : list (Z * list Z)) (rest : nat) (device : list Z) : M (ms W) Z :=
  parse_options argv rest ;;
  let* r := sys_call me_stat in
  match r with
  | inr _ | inl S_IFOTHER => perr
  | inl _ =>
    let* o := gets m_opts in
    (if negb (mo_cflag o =? 0) then disk_scan device else ret tt) ;;
    let* r := attempt (sys_lib (check_mount device)) in
    match r with
    | inr _ | inl true => perr
    | inl false =>
      let* r := sys_call me_open in
      match r with
      | inr _ => perr
      | inl fd => check_safety_of_device_overwrite device ;; ret fd
      end
    end
  end.

Definition main (argv : list (Z * list Z)) (rest : nat) (device : list Z) : M (ms W) unit :=
  let* fd := open_device argv rest device in
  make_file_system fd ;;
  exit_with EXIT_SUCCESS.

(** The variables at the start of the program. *)
Definition default_options : mkfs_options :=
  mk_mopts false 0 false 0 true false NILFS_DEF_BLOCKSIZE NILFS_DEF_BLKS_PER_SEG
    NILFS_DEF_RESERVED_SEGMENTS 0 (replicate 80 0) [0; NILFS_FEATURE_COMPAT_RO_BLOCK_COUNT; 0] false None.

Definition initial_state (w : W) : ms W :=
  mk_ms W w 0 default_options (mk_di 0 0 0 0 0 0 0 0 0 0 []) [] None
    (mk_ni None (mk_sref 0 0 0 0) None None None [] 0 0 0 0 0).
End Mkfs.
