(* ===== verification/MkfsSpec.v ===== *)
(** * What mkfs makes

    The laws of the environment, total correctness of every routine of
    [Mkfs], and what a device holds when the program has succeeded: two
    superblocks that [Sb] reads back, and a first log that the iterators of
    [Segment] accept. *)

From Stdlib Require Import String.
From S2P Require Import Prelude Vector Hoare Ondisk Fields Crc32 Sb Kernel Nilfs Parser Ismounted Disk Feature Segment Bitops Tune Mkfs.

(** Nothing but [write] and [ioctl(BLKDISCARD)] changes the device; a write
    inside of the device is not cut short, and neither it nor discarding
    changes the size of the device. *)
Class MkfsLaws {W : Type} (E : MkfsEnv W) (disk : W -> list Z) : Prop := {
  ml_disk : DiskLaws me_device disk;
  ml_kind : forall fd w n w', dev_fstat fd w <> (inl (S_IFOTHER, n), w');
  ml_time : forall w, disk (me_time w).2 = disk w;
  ml_pagesize : me_pagesize <= 65536;
  ml_stat : forall w, disk (me_stat w).2 = disk w;
  ml_badblocks : forall w, disk (me_badblocks w).2 = disk w;
  ml_run_badblocks : forall l w, disk (me_run_badblocks l w).2 = disk w;
  ml_mounts : MountsQuiet me_mounts disk;
  ml_open : forall w, disk (me_open w).2 = disk w;
  ml_blkid : forall w, disk (me_blkid w).2 = disk w;
  ml_uuid_generate : forall w, disk (me_uuid_generate w).2 = disk w /\
    length (me_uuid_generate w).1 = 16%nat /\ Forall is_u8 (me_uuid_generate w).1;
  ml_discard : forall fd off len w, length (disk (me_discard fd off len w).2) = length (disk w) /\
    (Forall is_u8 (disk w) -> Forall is_u8 (disk (me_discard fd off len w).2));
  ml_discard_zeroes : forall fd w, disk (me_discard_zeroes fd w).2 = disk w;
  ml_fsync : forall fd w, disk (me_fsync fd w).2 = disk w;
  ml_pread : forall fd n off w bs w', dev_pread fd n off w = (inl bs, w') -> Forall is_u8 (disk w) -> Forall is_u8 bs;
}.
#[export] Existing Instance ml_disk.
#[export] Existing Instance ml_mounts.

(** A record of the writes: whether one of them was short, that is took fewer
    bytes than it was given, without an error.  Nothing else is recorded. *)
Class ShortWrites {W : Type} (E : MkfsEnv W) (short : W -> bool) : Prop := {
  sw_pwrite : forall fd bs off w r w', dev_pwrite fd bs off w = (r, w') ->
    short w' = short w || match r with inl n => n <? Z.of_nat (length bs) | inr _ => false end;
  sw_alloc : forall n w, short (malloc n w).2 = short w;
  sw_fsync : forall fd w, short (me_fsync fd w).2 = short w;
  sw_pread : forall fd n off w, short (dev_pread fd n off w).2 = short w;
  sw_discard : forall fd off len w, short (me_discard fd off len w).2 = short w;
  sw_discard_zeroes : forall fd w, short (me_discard_zeroes fd w).2 = short w;
}.

(** An environment in which no call fails: there is memory, and the device
    can be read, inside of its size written without a short count, and, if it
    is a block device, asked for its size. *)
Record healthy {W : Type} {E : MkfsEnv W} (disk : W -> list Z) : Prop := {
  h_alloc : forall n (w : W), (malloc n w).1 = true;
  h_fstat : forall fd w, exists r, (dev_fstat fd w).1 = inl r;
  h_getsize : forall fd w0 n w, (dev_fstat fd w0).1 = inl (S_IFBLK, n) -> exists r, (dev_getsize64 fd w).1 = inl r;
  h_read : forall fd n off w, exists r, (dev_pread fd n off w).1 = inl r;
  h_write : forall fd bs off w, 0 <= off -> off + Z.of_nat (length bs) <= Z.of_nat (length (disk w)) ->
    (dev_pwrite fd bs off w).1 = inl (Z.of_nat (length bs));
  h_fsync : forall fd w, (me_fsync fd w).1 = true;
}.

(** ** The state while the first log is built *)

(** The three shapes of the layout: the size of a block, the first block of
    the log, and the number of blocks of the inode file. *)
Definition geometry (bs start ni : Z) : Prop :=
  bs = 1024 /\ start = 4 /\ ni = 4 \/ bs = 2048 /\ start = 2 /\ ni = 3 \/
  (bs = 4096 \/ bs = 8192 \/ bs = 16384 \/ bs = 32768 \/ bs = 65536) /\ start = 1 /\ ni = 3.

Lemma geometry_range bs start ni : geometry bs start ni ->
  1024 <= bs <= 65536 /\ bs `mod` 1024 = 0 /\ 1 <= start <= 4 /\ 3 <= ni <= 4 /\ 4096 <= start * bs.
Proof. unfold geometry. intros [(-> & -> & ->)|[(-> & -> & ->)|([->|[->|[->|[->| ->]]]] & -> & ->)]]; split_and!; (lia || reflexivity). Qed.

Section Build.
Context {W : Type} {E : MkfsEnv W} {disk : W -> list Z} {L : MkfsLaws E disk}.
Context (d : list Z) (o : mkfs_options) (start ni size bits ctime seed bps nseg tw : Z).
Abbreviation bs := (mo_blocksize o).
Hypothesis Hgeom : geometry bs start ni.

(** The blocks of the log. *)
Abbreviation root_block := (start + 1).
Abbreviation ifile_block := (start + 2).
Abbreviation cpfile_block := (start + 2 + ni).
Abbreviation sufile_block := (start + 3 + ni).
Abbreviation dat_block := (start + 4 + ni).
Abbreviation sr_block := (start + 7 + ni).
Abbreviation nblocks := (start + 8 + ni).

(** The files with their first blocks and sizes, and where their inodes are. *)
Definition base_files : list (Z * Z * Z) :=
  [(NILFS_ROOT_INO, root_block, 1); (NILFS_ATIME_INO, 0, 0); (1, 0, 0); (8, 0, 0); (9, 0, 0); (10, 0, 0);
   (NILFS_IFILE_INO, ifile_block, ni); (NILFS_CPFILE_INO, cpfile_block, 1);
   (NILFS_SUFILE_INO, sufile_block, 1); (NILFS_DAT_INO, dat_block, 3)].

Definition files_of (raws : list (option ptr)) : list nilfs_file_info :=
  zip_with (fun b r => mk_fi b.1.1 b.1.2 b.2 r) base_files raws.

Definition sumbytes : Z := 256 + 16 * ni.

Definition segment_of (raws : list (option ptr)) : nilfs_segment_info :=
  mk_si start (8 + ni) 5 sumbytes 1 (files_of raws) (3 + ni).

Definition layout_of (raws : list (option ptr)) : nilfs_disk_info :=
  mk_di size bits ctime seed bps nseg start nblocks (1 + ni) tw [segment_of raws].

Definition table : list (option nat) :=
  [None; Some 2%nat; Some 0%nat; Some 9%nat; Some 7%nat; Some 8%nat; Some 6%nat; Some 1%nat; Some 3%nat;
   Some 4%nat; Some 5%nat].

Implicit Types (s : ms W) (raws : list (option ptr)) (p : ptr) (blk : list Z) (fs : nilfs_fs_info).

(** Block [b] of the buffer is present and holds [blk]. *)
Definition own (b : Z) blk s : Prop := 0 <= b /\ m_buf s !! Z.to_nat b = Some (Some blk).

Definition mapped (b : Z) s : Prop := exists blk, own b blk s.

(** A pointer to [n] bytes of a block that is present. *)
Definition ptr_ok (n : Z) p s : Prop := mapped p.1 s /\ 0 <= p.2 /\ p.2 + n <= bs.

Record inv raws fs s : Prop := {
  inv_disk : disk (m_world s) = d;
  inv_opts : m_opts s = o;
  inv_di : m_di s = layout_of raws;
  inv_fs : m_fs s = fs;
  inv_len : Z.of_nat (length (m_buf s)) = nblocks;
  inv_wf : forall b blk, own b blk s -> Z.of_nat (length blk) = bs /\ Forall is_u8 blk;
  inv_raws_len : length raws = 10%nat;
  inv_raws : forall i p, raws !! i = Some (Some p) -> start < p.1 /\ ptr_ok sizeof_inode p s;
}.

Record fs_ok fs : Prop := {
  ok_current : ni_current_segment fs = Some 0%nat;
  ok_files : ni_files fs = table;
  ok_cno : ni_cno fs = 1;
}.

(** What a routine that stores only into the blocks [P] keeps. *)
Record upd (P : Z -> Prop) s s' : Prop := {
  upd_sb : m_sb s' = m_sb s;
  upd_pos : m_pos s' = m_pos s;
  upd_mapped : forall b, mapped b s -> mapped b s';
  upd_buf : forall b, 0 <= b -> ~ P b -> m_buf s' !! Z.to_nat b = m_buf s !! Z.to_nat b;
}.

Lemma upd_refl P s : upd P s s.
Proof using. by split. Qed.

Lemma upd_trans P s1 s2 s3 : upd P s1 s2 -> upd P s2 s3 -> upd P s1 s3.
Proof using.
  intros [A1 A2 A3 A4] [B1 B2 B3 B4]. split; [congruence|congruence|auto|].
  intros b Hb Hp. by rewrite B4, A4.
Qed.

Lemma upd_mono (P Q : Z -> Prop) s s' : (forall b, P b -> Q b) -> upd P s s' -> upd Q s s'.
Proof using. intros Hpq [A1 A2 A3 A4]. split; auto. Qed.

Lemma upd_own P s s' b blk : upd P s s' -> ~ P b -> own b blk s -> own b blk s'.
Proof using. intros [_ _ _ A4] Hp [Hb Ho]. split; [done|]. by rewrite A4. Qed.

Lemma upd_own_inv P s s' b blk : upd P s s' -> ~ P b -> own b blk s' -> own b blk s.
Proof using. intros [_ _ _ A4] Hp [Hb Ho]. split; [done|]. by rewrite <- A4. Qed.

(** The exits that can happen: a call of the environment has failed. *)
Definition failed (c : Z) s : Prop := c = EXIT_FAILURE /\ ~ healthy (E := E) disk /\ disk (m_world s) = d.
Abbreviation triple m Q s := (wpe m Q (fun _ _ => False) failed s).

Lemma own_range raws fs s b blk : inv raws fs s -> own b blk s -> 0 <= b < nblocks.
Proof using. intros Hi [Hb Ho]. apply lookup_lt_Some in Ho. pose proof (inv_len _ _ _ Hi). lia. Qed.

Lemma own_fun s b blk blk' : own b blk s -> own b blk' s -> blk = blk'.
Proof using. intros [_ H1] [_ H2]. congruence. Qed.

(** Replacing the block [b]. *)
Definition with_block (b : Z) blk s : ms W := set_buf (<[Z.to_nat b := Some blk]> (m_buf s)) s.

Lemma own_with_eq b blk s : 0 <= b < Z.of_nat (length (m_buf s)) -> own b blk (with_block b blk s).
Proof using. intros Hb. split; [lia|]. cbn. apply list_lookup_insert_eq. lia. Qed.

Lemma own_with_ne b b' blk blk' s : b <> b' -> 0 <= b -> own b' blk' (with_block b blk s) <-> own b' blk' s.
Proof using. intros Hne Hb. unfold own. cbn. split; intros [H1 H2]; split; try done;
  [rewrite list_lookup_insert_ne in H2 by lia; done|rewrite list_lookup_insert_ne by lia; done]. Qed.

Lemma mapped_with b b' blk s : 0 <= b < Z.of_nat (length (m_buf s)) -> mapped b' s -> mapped b' (with_block b blk s).
Proof using.
  intros Hb [blk' Ho]. destruct (Z.eq_dec b b') as [->|Hne].
  - exists blk. by apply own_with_eq.
  - exists blk'. apply own_with_ne; [done|lia|done].
Qed.

Lemma upd_with b blk s : 0 <= b < Z.of_nat (length (m_buf s)) -> upd (eq b) s (with_block b blk s).
Proof using.
  intros Hb. split; [done|done|intros b'; by apply mapped_with|].
  intros b' Hb' Hne. cbn. rewrite list_lookup_insert_ne; [done|]. intros He. apply Hne. lia.
Qed.

Lemma inv_with raws fs s b blk : inv raws fs s -> 0 <= b < nblocks ->
  Z.of_nat (length blk) = bs -> Forall is_u8 blk -> inv raws fs (with_block b blk s).
Proof using.
  intros [H1 H2 H3 H4 H5 H6 H7 H8] Hb Hl Hu. split; try done.
  - cbn. by rewrite length_insert.
  - intros b' blk' Ho. destruct (Z.eq_dec b b') as [->|Hne].
    + assert (blk' = blk) as ->; [|done]. eapply own_fun; [exact Ho|]. apply own_with_eq. lia.
    + apply own_with_ne in Ho; [by apply (H6 b')|done|lia].
  - intros i p Hp. destruct (H8 i p Hp) as (Hs & Hm & Hr). split; [done|]. split; [|done].
    apply mapped_with; [lia|done].
Qed.

(** *** Mapping, loading and storing *)

Definition zeros : list Z := replicate (Z.to_nat bs) 0.

Lemma zeros_ok : Z.of_nat (length zeros) = bs /\ Forall is_u8 zeros.
Proof using Hgeom.
  pose proof (geometry_range _ _ _ Hgeom). unfold zeros. rewrite length_replicate.
  split; [lia|]. by apply Forall_replicate.
Qed.

(** A call that is not one of the file system changes the world only. *)
Definition with_world (w : W) s : ms W := mk_ms W w (m_pos s) (m_opts s) (m_di s) (m_buf s) (m_sb s) (m_fs s).

Lemma inv_with_world raws fs s w : inv raws fs s -> disk w = d -> inv raws fs (with_world w s).
Proof using. intros [H1 H2 H3 H4 H5 H6 H7 H8] Hw. by split. Qed.

Lemma upd_with_world P w s : upd P s (with_world w s).
Proof using. by split. Qed.

Lemma map_any clear raws fs s b (Q : ptr -> ms W -> Prop) : inv raws fs s -> 0 <= b < nblocks ->
  (forall s', inv raws fs s' -> upd (eq b) s s' ->
     (forall blk, own b blk s -> own b blk s') -> (clear = true -> ~ mapped b s -> own b zeros s') -> mapped b s' ->
     Q (b, 0) s') -> triple (map_disk_buffer b clear) Q s.
Proof using Hgeom L.
  intros Hi Hb HQ. unfold map_disk_buffer. wpe_step. wpe_step. pose proof (inv_len _ _ _ Hi) as Hlen.
  destruct (Z.leb_spec (Z.of_nat (length (m_buf s))) b); [lia|]. destruct (Z.ltb_spec b 0); [lia|].
  destruct (m_buf s !! Z.to_nat b) as [[blk|]|] eqn:Ho.
  - wpe_step. apply HQ; [done|apply upd_refl|done| |]; [intros _ Hn; destruct Hn|]; by exists blk.
  - assert (Hun : ~ mapped b s) by (intros [blk [_ Hblk]]; congruence). wpe_step. wpe_step. unfold m_malloc, wpe.
    destruct (malloc (blocksize s) s) as [ok s1] eqn:Hm. unfold malloc, ms_alloc in Hm.
    destruct (malloc (blocksize s) (m_world s)) as [ok' w1] eqn:Hm1. injection Hm as -> <-. fold (with_world w1 s).
    assert (Hd : disk w1 = d).
    { rewrite <- (inv_disk _ _ _ Hi). pose proof (dl_alloc (disk := disk) (blocksize s) (m_world s)) as Ha.
      by rewrite Hm1 in Ha. }
    destruct ok; cbv beta iota.
    + unfold bind, gets, modify, ret. destruct zeros_ok as [Hz1 Hz2]. unfold blocksize. rewrite (inv_opts _ _ _ Hi). fold zeros.
      set (block := if clear then zeros else (fun i => u8 (me_memory (m_world (with_world w1 s)) i)) <$> seqZ 0 bs).
      fold (with_block b block (with_world w1 s)).
      assert (Hblock : Z.of_nat (length block) = bs /\ Forall is_u8 block).
      { unfold block. destruct clear; [done|]. rewrite length_fmap, length_seqZ.
        split; [pose proof (geometry_range _ _ _ Hgeom); lia|]. apply Forall_fmap, Forall_forall.
        intros x _. apply Z.mod_pos_bound. lia. }
      destruct Hblock as [Hb1 Hb2]. apply HQ.
      * apply inv_with; [by apply inv_with_world|lia|done|done].
      * eapply upd_trans; [apply upd_with_world|]. apply upd_with. cbn. lia.
      * intros blk Hblk. by destruct Hun; exists blk.
      * intros -> _. apply own_with_eq. cbn. lia.
      * exists block. apply own_with_eq. cbn. lia.
    + split; [done|]. split; [|done]. intros [Hok _ _ _ _ _]. specialize (Hok (blocksize s) (m_world s)).
      by rewrite Hm1 in Hok.
  - apply lookup_ge_None in Ho. lia.
Qed.

Lemma map_new raws fs s b (Q : ptr -> ms W -> Prop) : inv raws fs s -> 0 <= b < nblocks ->
  (forall s', inv raws fs s' -> upd (eq b) s s' ->
     (forall blk, own b blk s -> own b blk s') -> (~ mapped b s -> own b zeros s') -> mapped b s' ->
     Q (b, 0) s') -> triple (map_disk_buffer b true) Q s.
Proof using Hgeom L. intros Hi Hb HQ. eapply map_any; [done..|]. auto. Qed.

(** The block that a pointer points to. *)
Lemma block_at_own p blk s : own p.1 blk s -> block_at p s = Some blk.
Proof using. intros [H1 H2]. unfold block_at. destruct (Z.ltb_spec p.1 0); [lia|]. by rewrite H2. Qed.

Lemma load_bytes_own p off n blk bytes s (Q : list Z -> ms W -> Prop) :
  own p.1 blk s -> rd_bytes blk (p.2 + off) n = Some bytes -> Q bytes s -> triple (load_bytes p off n) Q s.
Proof using.
  intros Ho Hr HQ. unfold load_bytes. wpe_step. wpe_step. rewrite (block_at_own _ _ _ Ho). cbn.
  rewrite Hr. by wpe_step.
Qed.

Lemma load_own p off n blk v s (Q : Z -> ms W -> Prop) :
  own p.1 blk s -> rd_le n blk (p.2 + off) = Some v -> Q v s -> triple (load p off n) Q s.
Proof using.
  intros Ho Hr HQ. unfold load. wpe_step. unfold rd_le in Hr.
  destruct (rd_bytes blk (p.2 + off) n) as [bytes|] eqn:Hb; [|done]. injection Hr as <-.
  eapply load_bytes_own; [done..|]. by wpe_step.
Qed.

Lemma store_bytes_own raws fs p off bytes blk s (Q : unit -> ms W -> Prop) :
  inv raws fs s -> own p.1 blk s -> 0 <= p.2 + off -> p.2 + off + Z.of_nat (length bytes) <= bs ->
  Forall is_u8 bytes ->
  (forall s', inv raws fs s' -> upd (eq p.1) s s' -> own p.1 (put_bytes blk (p.2 + off) bytes) s' -> Q tt s') ->
  triple (store_bytes p off bytes) Q s.
Proof using.
  intros Hi Ho H1 H2 Hu HQ. unfold store_bytes. wpe_step. wpe_step. rewrite (block_at_own _ _ _ Ho).
  destruct (inv_wf _ _ _ Hi _ _ Ho) as [Hl Hb]. pose proof (own_range _ _ _ _ _ Hi Ho) as Hr.
  pose proof (inv_len _ _ _ Hi).
  destruct (Z.leb_spec 0 (p.2 + off)); [|lia].
  destruct (Z.leb_spec (p.2 + off + Z.of_nat (length bytes)) (Z.of_nat (length blk))); [|lia]. cbn [andb].
  wpe_step. fold (with_block p.1 (put_bytes blk (p.2 + off) bytes) s). apply HQ.
  - apply inv_with; [done|done| |by apply put_bytes_u8]. rewrite put_bytes_length by lia. done.
  - apply upd_with. lia.
  - apply own_with_eq. lia.
Qed.

Lemma store_own raws fs p off n v blk s (Q : unit -> ms W -> Prop) :
  inv raws fs s -> own p.1 blk s -> 0 <= p.2 + off -> p.2 + off + Z.of_nat n <= bs ->
  (forall s', inv raws fs s' -> upd (eq p.1) s s' -> own p.1 (put_field blk (p.2 + off, n, v)) s' -> Q tt s') ->
  triple (store p off n v) Q s.
Proof using.
  intros Hi Ho H1 H2 HQ. unfold store. eapply store_bytes_own; [done..|rewrite le_bytes_length; lia|apply le_bytes_u8|].
  intros s'. apply HQ.
Qed.

(** A store through a pointer, when the contents do not matter. *)
Lemma store_ok raws fs p off n v s (Q : unit -> ms W -> Prop) :
  inv raws fs s -> mapped p.1 s -> 0 <= p.2 + off -> p.2 + off + Z.of_nat n <= bs ->
  (forall s', inv raws fs s' -> upd (eq p.1) s s' -> Q tt s') -> triple (store p off n v) Q s.
Proof using.
  intros Hi [blk Ho] H1 H2 HQ. eapply store_own; [done..|]. intros s' Hi' Hu _. by apply HQ.
Qed.

(** *** The files *)

Lemma current_segment_ok raws fs s (Q : nilfs_segment_info -> ms W -> Prop) :
  inv raws fs s -> fs_ok fs -> Q (segment_of raws) s -> triple current_segment Q s.
Proof using.
  intros Hi Hf HQ. unfold current_segment, deref. wpe_step. wpe_step. wpe_step. rewrite (inv_fs _ _ _ Hi), (ok_current _ Hf).
  wpe_step. rewrite (inv_di _ _ _ Hi). by apply (wpe_of_option _ (segment_of raws)).
Qed.

Lemma file_of_ok raws fs s i fi (Q : nilfs_file_info -> ms W -> Prop) :
  inv raws fs s -> fs_ok fs -> files_of raws !! i = Some fi -> Q fi s -> triple (file_of i) Q s.
Proof using.
  intros Hi Hf Hfi HQ. unfold file_of, deref. wpe_step. eapply current_segment_ok; [done..|].
  cbn [si_files segment_of]. rewrite Hfi. by wpe_step.
Qed.

Lemma file_index_ok raws fs s ino i (Q : nat -> ms W -> Prop) :
  inv raws fs s -> fs_ok fs -> 0 <= ino -> table !! Z.to_nat ino = Some (Some i) -> Q i s ->
  triple (file_index ino) Q s.
Proof using.
  intros Hi Hf H0 Ht HQ. unfold file_index, deref. wpe_step. wpe_step. rewrite (inv_fs _ _ _ Hi), (ok_files _ Hf), Ht.
  pose proof (lookup_lt_Some _ _ _ Ht) as Hlt. change (length table) with 11%nat in Hlt.
  destruct (Z.ltb_spec ino 0); [lia|]. destruct (Z.leb_spec NILFS_MAX_INITIAL_INO ino);
    [unfold NILFS_MAX_INITIAL_INO, NILFS_USER_INO in *; lia|]. cbn [orb]. by wpe_step.
Qed.

Lemma files_of_at raws i b r : base_files !! i = Some b -> raws !! i = Some r ->
  files_of raws !! i = Some (mk_fi b.1.1 b.1.2 b.2 r).
Proof using. intros Hb Hr. unfold files_of. by rewrite lookup_zip_with, Hb; cbn; rewrite Hr. Qed.

(** A file by its number: its place in [base_files]. *)
Lemma file_ok raws fs s ino i b r (Q : nilfs_file_info -> ms W -> Prop) :
  inv raws fs s -> fs_ok fs -> 0 <= ino -> table !! Z.to_nat ino = Some (Some i) ->
  base_files !! i = Some b -> raws !! i = Some r -> Q (mk_fi b.1.1 b.1.2 b.2 r) s -> triple (file ino) Q s.
Proof using.
  intros Hi Hf H0 Ht Hb Hr HQ. unfold file. wpe_step. eapply file_index_ok; [done..|].
  eapply file_of_ok; [done..| |done]. by apply files_of_at.
Qed.

Lemma files_of_insert raws i p : (i < length raws)%nat ->
  alter (fun fi => mk_fi (mf_ino fi) (mf_start_blocknr fi) (mf_nblocks fi) (Some p)) i (files_of raws) =
  files_of (<[i := Some p]> raws).
Proof using.
  intros Hi. apply list_eq. intros j. unfold files_of. destruct (decide (i = j)) as [<-|Hne].
  - rewrite list_lookup_alter_eq, !lookup_zip_with, list_lookup_insert_eq by lia.
    destruct (lookup_lt_is_Some_2 raws i Hi) as [r Hr]. rewrite Hr. by destruct (base_files !! i).
  - rewrite list_lookup_alter_ne by done. rewrite !lookup_zip_with. by rewrite list_lookup_insert_ne by done.
Qed.

Lemma set_raw_inode_ok raws fs s ino i p (Q : unit -> ms W -> Prop) :
  inv raws fs s -> fs_ok fs -> 0 <= ino -> table !! Z.to_nat ino = Some (Some i) ->
  start < p.1 -> ptr_ok sizeof_inode p s ->
  (forall s', inv (<[i := Some p]> raws) fs s' -> upd (fun _ => False) s s' -> Q tt s') ->
  triple (set_raw_inode ino p) Q s.
Proof using.
  intros Hi Hf H0 Ht Hs Hp HQ. unfold set_raw_inode, deref. wpe_step. eapply file_index_ok; [done..|].
  assert (Hlt : (i < 10)%nat).
  { destruct (Z.to_nat ino) as [|[|[|[|[|[|[|[|[|[|[|]]]]]]]]]]]; cbn in Ht; simplify_eq; lia. }
  assert (Hrl := inv_raws_len _ _ _ Hi).
  destruct (lookup_lt_is_Some_2 raws i ltac:(lia)) as [r Hr].
  destruct (lookup_lt_is_Some_2 base_files i ltac:(cbn; lia)) as [b Hb].
  pose proof (files_of_at raws i b r Hb Hr) as Hfi.
  wpe_step. eapply file_of_ok; [done..|]. wpe_step. wpe_step. wpe_step. rewrite (inv_fs _ _ _ Hi), (ok_current _ Hf).
  wpe_step. wpe_step. apply HQ; [|by split]. destruct Hi as [H1 H2 H3 H4 H5 H6 H7 H8]. split; try done.
  - cbn. rewrite H3. unfold layout_of, set_di_seginfo. cbn. do 2 f_equal. unfold segment_of, si_set_raw_inode. cbn.
    f_equal. apply files_of_insert. lia.
  - by rewrite length_insert.
  - intros j q. destruct (decide (i = j)) as [<-|Hne].
    + rewrite list_lookup_insert_eq by lia. by intros [= <-].
    + rewrite list_lookup_insert_ne by done. apply H8.
Qed.

Lemma u64_block b : 0 <= b <= nblocks -> u64 b = b.
Proof using Hgeom. intros Hb. pose proof (geometry_range _ _ _ Hgeom). apply u64_id. unfold is_u64. lia. Qed.

(** Mapping a block that is there. *)
Lemma map_old clear raws fs s b blk (Q : ptr -> ms W -> Prop) : inv raws fs s -> own b blk s ->
  (forall s', inv raws fs s' -> upd (fun _ => False) s s' -> Q (b, 0) s') -> triple (map_disk_buffer b clear) Q s.
Proof using Hgeom L.
  intros Hi Ho HQ. pose proof (own_range _ _ _ _ _ Hi Ho) as Hb. eapply map_any; [done..|].
  intros s' Hi' Hu Hown _ _. apply HQ; [done|]. destruct Hu as [U1 U2 U3 U4]. split; [done..|].
  intros b' Hb' _. destruct (Z.eq_dec b b') as [<-|Hne]; [|by apply U4].
  destruct (Hown _ Ho) as [_ ->]. by destruct Ho.
Qed.

(** A block that was mapped in an earlier state. *)
Ltac still_mapped :=
  cbn [fst snd]; first [assumption | match goal with
    | H : upd _ ?s ?s' |- mapped _ ?s' => apply (upd_mapped _ _ _ H); still_mapped end].

(** One store of a sequence through the pointer [p]. *)
Ltac store_step :=
  wpe_step; eapply store_ok;
  [eassumption | still_mapped
  | cbn [fst snd]; unfold sizeof_inode in *; lia | cbn [fst snd]; unfold sizeof_inode in *; lia |].

Lemma init_inode_ok raws fs s ino i b p type mode sz (Q : unit -> ms W -> Prop) :
  inv raws fs s -> fs_ok fs -> 0 <= ino < NILFS_USER_INO -> table !! Z.to_nat ino = Some (Some i) ->
  base_files !! i = Some b -> raws !! i = Some (Some p) ->
  (forall s', inv raws fs s' -> upd (eq p.1) s s' -> Q tt s') -> triple (init_inode ino type mode sz) Q s.
Proof using Hgeom.
  intros Hi Hf H0 Ht Hb Hp HQ. destruct (inv_raws _ _ _ Hi i p Hp) as (_ & Hm & H1 & H2).
  unfold init_inode. wpe_step. eapply file_ok; [done|done|lia|done|done|done|]. wpe_step. unfold raw_inode_of, deref. wpe_step.
  wpe_step. wpe_step. cbn [mf_nblocks].
  unfold i_mode_off, i_flags_off, i_size_off, i_blocks_off, i_links_count_off, i_ctime_off, i_mtime_off.
  store_step. intros s1 Hi1 Hu1. store_step. intros s2 Hi2 Hu2. store_step. intros s3 Hi3 Hu3.
  store_step. intros s4 Hi4 Hu4. store_step. intros s5 Hi5 Hu5. store_step. intros s6 Hi6 Hu6.
  store_step. intros s7 Hi7 Hu7. destruct (Z.leb_spec NILFS_USER_INO ino); [lia|]. wpe_step. apply HQ; [done|].
  eauto 8 using upd_trans.
Qed.

(** *** Groups of entries *)

(** The first [k] entries of the group that starts at block [b] are taken. *)
Definition group (b k : Z) s : Prop := exists desc bitmap,
  own b desc s /\ own (b + 1) bitmap s /\ rd_le 4 desc 0 = Some (bs * 8 - k) /\
  forall nr, 0 <= nr < bs * 8 -> bit_of bitmap nr = (nr <? k).

Definition of_group (b x : Z) : Prop := x = b \/ x = b + 1.

Lemma group_upd P b k s s' : upd P s s' -> ~ P b -> ~ P (b + 1) -> group b k s -> group b k s'.
Proof using.
  intros Hu H0 H1 (desc & bitmap & Hd & Hb & Hr). exists desc, bitmap.
  split; [by eapply upd_own|]. split; [by eapply upd_own|done].
Qed.

Lemma alloc_entry_ok raws fs s b k (Q : unit -> ms W -> Prop) :
  inv raws fs s -> group b k s -> 0 <= k < bs * 8 ->
  (forall s', inv raws fs s' -> upd (of_group b) s s' -> group b (k + 1) s' -> Q tt s') ->
  triple (alloc_blockgrouped_file_entry b k) Q s.
Proof using Hgeom L.
  intros Hi (desc & bitmap & Hd & Hbm & Hr & Hbits) Hk HQ. pose proof (geometry_range _ _ _ Hgeom) as Hg.
  pose proof (own_range _ _ _ _ _ Hi Hbm) as Hrange. pose proof (own_range _ _ _ _ _ Hi Hd) as Hrange0.
  unfold alloc_blockgrouped_file_entry. wpe_step. eapply map_old; [done..|]. intros s1 Hi1 Hu1.
  assert (Hd1 : own b desc s1) by (eapply upd_own; eauto). assert (Hb1 : own (b + 1) bitmap s1) by (eapply upd_own; eauto).
  wpe_step. rewrite u64_block by lia. eapply map_old; [done..|]. intros s2 Hi2 Hu2.
  assert (Hd2 : own b desc s2) by (eapply upd_own; eauto). assert (Hb2 : own (b + 1) bitmap s2) by (eapply upd_own; eauto).
  wpe_step. wpe_step. wpe_step. rewrite (block_at_own (b + 1, 0) bitmap) by done. unfold deref. wpe_step.
  destruct (inv_wf _ _ _ Hi2 _ _ Hb2) as [Hl Hu].
  destruct (test_set_bit k bitmap ltac:(lia)) as (bitmap' & Ht & Hset & Hl' & Hu' & Hbits').
  rewrite Hbits in Ht, Hset by lia. destruct (Z.ltb_spec k k); [lia|].
  wpe_step. rewrite Ht. wpe_step. cbn [negb Z.eqb]. wpe_step. rewrite Hset. wpe_step. wpe_step.
  eapply store_bytes_own; [done..|cbn; lia|cbn; lia|auto|]. cbn [fst snd]. intros s3 Hi3 Hu3 Hb3.
  assert (Hfull : put_bytes bitmap (0 + 0) bitmap' = bitmap').
  { unfold put_bytes. cbn [Z.to_nat Z.add]. rewrite drop_ge by lia. by rewrite app_nil_r. }
  rewrite Hfull in Hb3. clear Hfull. assert (Hd3 : own b desc s3) by (eapply (upd_own _ s2); eauto; cbn; lia).
  wpe_step. eapply load_own; [done|exact Hr|]. destruct (Z.eqb_spec (bs * 8 - k) 0); [lia|].
  eapply store_own; [done|exact Hd3|cbn; lia|cbn; lia|]. cbn [fst snd]. intros s4 Hi4 Hu4 Hd4.
  assert (Hu34 : upd (of_group b) s2 s4).
  { eapply upd_trans; (eapply upd_mono; [|eassumption]); cbn; intros; subst; unfold of_group; auto. }
  apply HQ; [done| |].
  - eapply upd_trans; [eapply upd_mono; [|exact Hu1]; done|]. eapply upd_trans; [eapply upd_mono; [|exact Hu2]; done|done].
  - eexists _, bitmap'. split; [exact Hd4|]. split; [eapply (upd_own _ s3); eauto; cbn; lia|]. split.
    + destruct (inv_wf _ _ _ Hi3 _ _ Hd3) as [Hld _].
      pose proof (last_field_le [(0 + 0, 4%nat, u32 (bs * 8 - k - 1))] desc bs 0 4 _ Hld ltac:(repeat constructor; cbn; lia) eq_refl) as Hrd.
      change (put_fields [?f] desc) with (put_field desc f) in Hrd. etrans; [exact Hrd|].
      f_equal. change (256 ^ Z.of_nat 4) with 4294967296. rewrite (u32_id (bs * 8 - k - 1)) by (unfold is_u32; lia). rewrite Z.mod_small by lia. lia.
    + intros nr Hnr. rewrite Hbits', Hbits by lia.
      destruct (Z.eqb_spec nr k), (Z.ltb_spec nr k), (Z.ltb_spec nr (k + 1)); (done || lia).
Qed.

(** The rule of counted loops. *)
Lemma for_upto_ok (I : nat -> ms W -> Prop) n i body s (Q : unit -> ms W -> Prop) : I i s ->
  (forall j s', (i <= j < i + n)%nat -> I j s' -> triple (body j) (fun _ => I (Datatypes.S j)) s') ->
  (forall s', I (i + n)%nat s' -> Q tt s') -> triple (for_upto n i body) Q s.
Proof using.
  revert i s. induction n as [|n IH]; intros i s Hi Hb HQ; cbn [for_upto].
  - wpe_step. apply HQ. by rewrite Nat.add_0_r.
  - eapply wpe_seq; [apply Hb; [lia|done]|]. intros [] s' Hs'. apply IH; [done| |].
    + intros j s'' Hj. apply Hb. lia.
    + intros s'' Hs''. apply HQ. by rewrite Nat.add_succ_r.
Qed.

Lemma zeros_bit nr : bit_of zeros nr = false.
Proof using.
  unfold bit_of, byte_at, zeros. case_if; [done|].
  destruct (replicate (Z.to_nat bs) 0 !! Z.to_nat (Z.shiftr nr 3)) as [b|] eqn:Hb; [|done].
  apply lookup_replicate in Hb as [-> _]. apply Z.bits_0.
Qed.

Lemma rd_field_first blk (v : Z) : Z.of_nat (length blk) = bs ->
  rd_le 4 (put_field blk (0, 4%nat, v)) 0 = Some (v `mod` 4294967296).
Proof using Hgeom.
  intros Hl. pose proof (geometry_range _ _ _ Hgeom).
  pose proof (last_field_le [(0, 4%nat, v)] blk bs 0 4 _ Hl ltac:(repeat constructor; cbn; lia) eq_refl) as Hrd.
  exact Hrd.
Qed.

(** Filling the descriptors of a block. *)
Lemma fill_descs_ok raws fs s b blk n v (Q : unit -> ms W -> Prop) :
  inv raws fs s -> own b blk s -> Z.of_nat n = bs / 4 -> 0 <= v < 2 ^ 32 ->
  (forall s' desc, inv raws fs s' -> upd (eq b) s s' -> own b desc s' -> rd_le 4 desc 0 = Some v -> Q tt s') ->
  triple (for_upto n 0 (fun i => store (b, 0) (sizeof_group_desc * Z.of_nat i) 4 v)) Q s.
Proof using Hgeom.
  intros Hi Ho Hn Hv HQ. pose proof (geometry_range _ _ _ Hgeom) as Hg.
  apply (for_upto_ok (fun i s' => inv raws fs s' /\ upd (eq b) s s' /\
    exists desc, own b desc s' /\ (i <> 0%nat -> rd_le 4 desc 0 = Some v))).
  - split; [done|]. split; [apply upd_refl|]. by exists blk.
  - intros j s1 Hj (Hi1 & Hu1 & desc & Hd1 & Hr). unfold sizeof_group_desc.
    assert (4 * Z.of_nat j + 4 <= bs) by (pose proof (Z.mul_div_le bs 4); lia).
    eapply store_own; [done|exact Hd1|cbn; lia|cbn; lia|]. cbn [fst snd]. intros s2 Hi2 Hu2 Hd2.
    split; [done|]. split; [by eapply upd_trans|]. eexists; split; [exact Hd2|]. intros _.
    destruct (inv_wf _ _ _ Hi1 _ _ Hd1) as [Hl _]. rewrite Z.add_0_l. destruct j as [|j].
    + rewrite rd_field_first by done. rewrite Z.mod_small by lia. done.
    + unfold rd_le. unfold put_field. rewrite rd_bytes_put_ne by (rewrite ?le_bytes_length; cbn; lia).
      by apply Hr.
  - intros s1 (Hi1 & Hu1 & desc & Hd1 & Hr). eapply HQ; [done|done|exact Hd1|]. apply Hr.
    pose proof (Z.div_le_mono 1024 bs 4 ltac:(lia) ltac:(lia)) as Hle. change (1024 / 4) with 256 in Hle. lia.
Qed.

Lemma prepare_group_ok raws fs s b (Q : unit -> ms W -> Prop) :
  inv raws fs s -> 0 <= b -> b + 1 < nblocks -> ~ mapped b s -> ~ mapped (b + 1) s ->
  (forall s', inv raws fs s' -> upd (of_group b) s s' -> group b 0 s' -> Q tt s') ->
  triple (prepare_blockgrouped_file b) Q s.
Proof using Hgeom L.
  intros Hi H0 H1 Hn0 Hn1 HQ. pose proof (geometry_range _ _ _ Hgeom) as Hg.
  unfold prepare_blockgrouped_file. wpe_step. wpe_step. unfold blocksize. rewrite (inv_opts _ _ _ Hi).
  wpe_step. eapply map_new; [done|lia|]. intros s1 Hi1 Hu1 _ Hz1 _. specialize (Hz1 Hn0).
  wpe_step. eapply fill_descs_ok; [done|exact Hz1|rewrite Z2Nat.id; [done|apply Z.div_pos; [lia|done]]|apply u32_range|].
  intros s2 desc Hi2 Hu2 Hd2 Hr2. wpe_step. rewrite u64_block by lia.
  assert (Hn2 : ~ mapped (b + 1) s2).
  { intros [blk Hb]. apply Hn1. exists blk. apply (upd_own_inv (eq b) s s2); [by eapply upd_trans|lia|done]. }
  eapply map_new; [done|lia|]. intros s3 Hi3 Hu3 _ Hz3 _. specialize (Hz3 Hn2). wpe_step. apply HQ; [done| |].
  - eapply upd_trans; [|eapply upd_trans]; (eapply upd_mono; [|eassumption]); cbn; intros; subst; unfold of_group; auto.
  - exists desc, zeros. split; [eapply (upd_own _ s2); [exact Hu3|lia|done]|]. split; [done|]. split.
    + rewrite Hr2. f_equal. rewrite u32_id by (unfold is_u32; lia). lia.
    + intros nr Hnr. rewrite zeros_bit. lia.
Qed.

(** *** The routines that prepare the files *)

(** Taking the first [n] entries. *)
Lemma alloc_entries_ok raws fs s b n (Q : unit -> ms W -> Prop) :
  inv raws fs s -> group b 0 s -> Z.of_nat n <= bs ->
  (forall s', inv raws fs s' -> upd (of_group b) s s' -> group b (Z.of_nat n) s' -> Q tt s') ->
  triple (for_upto n 0 (fun i => alloc_blockgrouped_file_entry b (Z.of_nat i))) Q s.
Proof using Hgeom L.
  intros Hi Hgr Hn HQ. pose proof (geometry_range _ _ _ Hgeom) as Hg.
  apply (for_upto_ok (fun i s' => inv raws fs s' /\ upd (of_group b) s s' /\ group b (Z.of_nat i) s')).
  - split; [done|]. split; [apply upd_refl|done].
  - intros j s1 Hj (Hi1 & Hu1 & Hg1). eapply alloc_entry_ok; [done..|lia|]. intros s2 Hi2 Hu2 Hg2.
    split; [done|]. split; [by eapply upd_trans|]. by rewrite Nat2Z.inj_succ.
  - intros s1 (Hi1 & Hu1 & Hg1). by apply HQ.
Qed.

(** What is prepared of the inodes: those in the super root, then the one in
    the checkpoint, then those in the inode file. *)
Definition sr_raws : list (option ptr) :=
  replicate 7 None ++ [Some (sr_block, sr_cpfile_off); Some (sr_block, sr_sufile_off); Some (sr_block, sr_dat_off)].

Definition checkpoint_ptr : ptr := (cpfile_block, sizeof_checkpoint).

Definition cp_raws : list (option ptr) :=
  <[6%nat := Some (shift checkpoint_ptr cp_ifile_inode_off)]> sr_raws.

(** Inode [ino] in the blocks of the inode file. *)
Definition inode_ptr (ino : Z) : ptr :=
  (ifile_block + 2 + ino / (bs / sizeof_inode), sizeof_inode * (ino `mod` (bs / sizeof_inode))).

Definition raws_upto (n : Z) : list (option ptr) :=
  zip_with (fun b r => match r with
                       | Some p => Some p
                       | None => if b.1.1 <? n then Some (inode_ptr b.1.1) else None
                       end) base_files cp_raws.

Lemma inv_set_fs raws fs fs' s : inv raws fs s -> inv raws fs' (set_fs fs' s).
Proof using. intros [H1 H2 H3 H4 H5 H6 H7 H8]. by split. Qed.

Lemma upd_set_fs P fs' s : upd P s (set_fs fs' s).
Proof using. by split. Qed.

Lemma unmapped_upd P s s' b : upd P s s' -> ~ P b -> ~ mapped b s -> ~ mapped b s'.
Proof using. intros Hu Hp Hn [blk Hb]. apply Hn. exists blk. by eapply upd_own_inv. Qed.

Lemma load_ok raws fs s p off n (Q : Z -> ms W -> Prop) : inv raws fs s -> mapped p.1 s ->
  0 <= p.2 + off -> 0 <= n -> p.2 + off + n <= bs -> (forall v, Q v s) -> triple (load p off n) Q s.
Proof using.
  intros Hi [blk Ho] H0 Hn H1 HQ. destruct (inv_wf _ _ _ Hi _ _ Ho) as [Hl _].
  destruct (rd_le_is_Some n blk (p.2 + off)) as [v Hv]; [lia..|]. by eapply load_own.
Qed.

Lemma prepare_dat_ok fs s (Q : unit -> ms W -> Prop) : inv sr_raws fs s -> fs_ok fs ->
  (forall b, dat_block <= b < sr_block -> ~ mapped b s) ->
  (forall s', inv sr_raws fs s' -> upd (fun b => dat_block <= b <= sr_block) s s' -> group dat_block 1 s' ->
     mapped (dat_block + 2) s' -> Q tt s') ->
  triple prepare_dat Q s.
Proof using Hgeom L.
  intros Hi Hf Hn HQ. pose proof (geometry_range _ _ _ Hgeom) as Hg. unfold prepare_dat.
  wpe_step. eapply (file_ok _ _ _ NILFS_DAT_INO 9); [done..|]. wpe_step.
  eapply prepare_group_ok; [done|cbn; lia|cbn; lia|apply Hn; cbn; lia|apply Hn; cbn; lia|]. cbn [fst snd mf_start_blocknr mf_nblocks].
  intros s1 Hi1 Hu1 Hg1. wpe_step.
  match goal with |- context [for_upto ?n] => change n with 1%nat end. cbn [for_upto].
  change (group_desc_blocks_per_group + bitmap_blocks_per_group) with 2. change (Z.of_nat 0) with 0.
  replace (dat_block + 2 + 0) with (dat_block + 2) by lia.
  wpe_step. wpe_step. rewrite u64_block by lia. eapply map_new; [done|lia|].
  intros s2 Hi2 Hu2 _ _ Hm2. wpe_step. wpe_step. wpe_step.
  assert (Hg2 : group dat_block 0 s2) by (eapply group_upd; [exact Hu2|cbn; lia..|done]).
  eapply (alloc_entry_ok _ _ _ _ 0); [exact Hi2|exact Hg2|lia|]. intros s3 Hi3 Hu3 Hg3.
  eapply (init_inode_ok _ _ _ _ 9); [done..|]. intros s4 Hi4 Hu4. cbn [fst snd] in Hu4. apply HQ; [done| | |].
  - eapply upd_trans; [|eapply upd_trans; [|eapply upd_trans]]; (eapply upd_mono; [|eassumption]);
      unfold of_group; cbn; intros; subst; lia.
  - eapply group_upd; [exact Hu4|cbn; lia..|done].
  - eapply upd_mapped; [exact Hu4|]. eapply upd_mapped; [exact Hu3|done].
Qed.

Lemma set_su_flag_ok raws fs s p flag (Q : unit -> ms W -> Prop) : inv raws fs s -> mapped p.1 s ->
  0 <= p.2 -> p.2 + 16 <= bs -> (forall s', inv raws fs s' -> upd (eq p.1) s s' -> Q tt s') ->
  triple (set_su_flag p flag) Q s.
Proof using.
  intros Hi Hm H0 H1 HQ. unfold set_su_flag, su_flags_off. wpe_step.
  eapply load_ok; [done|done|lia|lia|lia|]. intros v. eapply store_ok; [done|done|lia|lia|]. done.
Qed.

Lemma set_clean_ok raws fs s p (Q : unit -> ms W -> Prop) : inv raws fs s -> mapped p.1 s ->
  0 <= p.2 -> p.2 + 16 <= bs -> (forall s', inv raws fs s' -> upd (eq p.1) s s' -> Q tt s') ->
  triple (nilfs_segment_usage_set_clean p) Q s.
Proof using.
  intros Hi Hm H0 H1 HQ. unfold nilfs_segment_usage_set_clean, su_lastmod_off, su_nblocks_off, su_flags_off.
  store_step. intros s1 Hi1 Hu1. store_step. intros s2 Hi2 Hu2.
  eapply store_ok; [done|still_mapped|lia|lia|]. intros s3 Hi3 Hu3. apply HQ; [done|].
  eauto using upd_trans.
Qed.

Lemma prepare_sufile_ok fs s (Q : unit -> ms W -> Prop) : inv sr_raws fs s -> fs_ok fs ->
  (forall s', inv sr_raws fs s' -> upd (fun b => b = sufile_block \/ b = sr_block) s s' ->
     mapped sufile_block s' -> Q tt s') ->
  triple prepare_sufile Q s.
Proof using Hgeom L.
  intros Hi Hf HQ. pose proof (geometry_range _ _ _ Hgeom) as Hg. unfold prepare_sufile.
  wpe_step. eapply (file_ok _ _ _ NILFS_SUFILE_INO 8); [done..|]. wpe_step. wpe_step. wpe_step. wpe_step.
  unfold blocksize. rewrite (inv_opts _ _ _ Hi). cbn [mf_start_blocknr mf_nblocks fst snd].
  wpe_step. eapply map_new; [done|lia|]. intros s1 Hi1 Hu1 _ _ Hm1.
  unfold sh_ncleansegs_off, sh_ndirtysegs_off, sh_last_alloc_off.
  store_step. intros s2 Hi2 Hu2. store_step. intros s3 Hi3 Hu3. store_step. intros s4 Hi4 Hu4. cbn [fst] in *.
  wpe_step. cbn [fst snd]. change (Z.to_nat 1) with 1%nat. cbn [for_upto]. wpe_step. wpe_step.
  change (Z.of_nat 0) with 0. rewrite Z.add_0_r, u64_block by lia. eapply map_new; [done|lia|].
  intros s5 Hi5 Hu5 _ _ Hm5. cbn [entries_from]. 
  eapply (for_upto_ok (fun _ s' => inv sr_raws fs s' /\ upd (eq sufile_block) s5 s')).
  - split; [done|apply upd_refl].
  - intros j s6 Hj (Hi6 & Hu6). unfold sizeof_segment_usage in *.
    assert (Hb : 0 <= 16 * Z.of_nat j /\ 16 * Z.of_nat j + 16 <= bs).
    { pose proof (Z.mul_div_le bs 16). change (Z.to_nat NILFS_SUFILE_FIRST_SEGMENT_USAGE_OFFSET) with 2%nat in Hj. lia. }
    assert (Hm6 : mapped sufile_block s6) by still_mapped.
    destruct (_ <? nr_initial_segments).
    + wpe_step. eapply set_su_flag_ok; [done|done|cbn; lia|cbn; lia|]. intros s7 Hi7 Hu7.
      eapply set_su_flag_ok; [done|still_mapped|cbn; lia|cbn; lia|]. intros s8 Hi8 Hu8. cbn [fst shift] in *.
      split; [done|]. eauto using upd_trans.
    + eapply set_clean_ok; [done|done|cbn; lia|cbn; lia|]. intros s7 Hi7 Hu7. cbn [fst shift] in *.
      split; [done|]. eauto using upd_trans.
  - intros s6 (Hi6 & Hu6). wpe_step. eapply (init_inode_ok _ _ _ _ 8); [done..|]. intros s7 Hi7 Hu7. cbn [fst] in Hu7.
    apply HQ; [done| |still_mapped].
    assert (Hu : upd (eq sufile_block) s s6) by eauto 10 using upd_trans.
    eapply upd_trans; (eapply upd_mono; [|eassumption]); cbn; intros; subst; auto.
Qed.

Definition with_checkpoint fs : nilfs_fs_info := set_ni_checkpoint (Some checkpoint_ptr) fs.

Lemma fs_ok_checkpoint fs : fs_ok fs -> fs_ok (with_checkpoint fs).
Proof using. intros [H1 H2 H3]. by split. Qed.

(** The entry of the first checkpoint, and the others. *)
Lemma first_checkpoint_ok fs s (Q : unit -> ms W -> Prop) : inv sr_raws fs s -> fs_ok fs -> mapped cpfile_block s ->
  (forall s', inv cp_raws (with_checkpoint fs) s' -> upd (eq cpfile_block) s s' -> Q tt s') ->
  triple (init_checkpoint checkpoint_ptr 1) Q s.
Proof using Hgeom.
  intros Hi Hf Hm HQ. pose proof (geometry_range _ _ _ Hgeom) as Hg. unfold init_checkpoint. wpe_step. wpe_step.
  unfold cp_cno_off, cp_create_off, checkpoint_ptr, sizeof_checkpoint.
  store_step. intros s1 Hi1 Hu1. change (1 =? first_cno) with true. cbv iota.
  store_step. intros s2 Hi2 Hu2. cbn [fst] in *. wpe_step. wpe_step. rewrite (inv_fs _ _ _ Hi2).
  eapply (set_raw_inode_ok sr_raws (with_checkpoint fs) _ NILFS_IFILE_INO 6); 
    [by eapply inv_set_fs|by apply fs_ok_checkpoint|done|done|cbn; lia| |].
  - split; [|unfold sizeof_inode, cp_ifile_inode_off; cbn; lia]. cbn [fst shift].
    eapply upd_mapped; [apply (upd_set_fs (fun _ => False))|]. still_mapped.
  - intros s3 Hi3 Hu3. apply HQ; [done|]. eapply upd_trans; [|eapply upd_mono; [|exact Hu3]; done].
    eapply upd_trans; [|apply upd_set_fs]. by eapply upd_trans.
Qed.

Lemma other_checkpoint_ok raws fs s p cno (Q : unit -> ms W -> Prop) : inv raws fs s -> mapped p.1 s ->
  0 <= p.2 -> p.2 + 192 <= bs -> cno <> 1 -> (forall s', inv raws fs s' -> upd (eq p.1) s s' -> Q tt s') ->
  triple (init_checkpoint p cno) Q s.
Proof using.
  intros Hi Hm H0 H1 Hc HQ. unfold init_checkpoint, cp_cno_off, cp_flags_off. wpe_step. wpe_step.
  store_step. intros s1 Hi1 Hu1. unfold first_cno. destruct (Z.eqb_spec cno 1); [done|]. wpe_step.
  eapply load_ok; [done|still_mapped|lia|lia|lia|]. intros v. eapply store_ok; [done|still_mapped|lia|lia|].
  intros s2 Hi2 Hu2. apply HQ; [done|]. by eapply upd_trans.
Qed.

Lemma prepare_cpfile_ok fs s (Q : unit -> ms W -> Prop) : inv sr_raws fs s -> fs_ok fs ->
  (forall s', inv cp_raws (with_checkpoint fs) s' -> upd (fun b => b = cpfile_block \/ b = sr_block) s s' ->
     mapped cpfile_block s' -> Q tt s') ->
  triple prepare_cpfile Q s.
Proof using Hgeom L.
  intros Hi Hf HQ. pose proof (geometry_range _ _ _ Hgeom) as Hg. unfold prepare_cpfile.
  wpe_step. eapply (file_ok _ _ _ NILFS_CPFILE_INO 7); [done..|]. wpe_step. wpe_step.
  unfold blocksize. rewrite (inv_opts _ _ _ Hi). cbn [mf_start_blocknr mf_nblocks fst snd].
  wpe_step. eapply map_new; [done|lia|]. intros s1 Hi1 Hu1 _ _ Hm1. unfold ch_ncheckpoints_off.
  store_step. intros s2 Hi2 Hu2. cbn [fst] in *. wpe_step. change (Z.to_nat 1) with 1%nat. cbn [for_upto]. wpe_step. wpe_step.
  change (Z.of_nat 0) with 0. rewrite Z.add_0_r, u64_block by lia. eapply map_new; [done|lia|].
  intros s3 Hi3 Hu3 _ _ Hm3. cbn [entries_from].
  change (Z.to_nat NILFS_CPFILE_FIRST_CHECKPOINT_OFFSET) with 1%nat.
  pose proof (Z.mul_div_le bs sizeof_checkpoint ltac:(done)) as Hd. unfold sizeof_checkpoint in Hd |- *.
  pose proof (Z.div_le_mono 1024 bs 192 ltac:(lia) ltac:(lia)) as Hle. change (1024 / 192) with 5 in Hle.
  apply (for_upto_ok (fun i s' => upd (eq cpfile_block) s3 s' /\
    if decide (i = 1)%nat then inv sr_raws fs s' else inv cp_raws (with_checkpoint fs) s')).
  - split; [apply upd_refl|]. by rewrite decide_True.
  - intros j s4 Hj (Hu4 & Hi4). destruct (decide (j = 1%nat)) as [Hj1|Hj1].
    + subst j. eapply first_checkpoint_ok; [done|done|still_mapped|]. intros s5 Hi5 Hu5.
      split; [by eapply upd_trans|]. by rewrite decide_False by lia.
    + eapply other_checkpoint_ok; [done|cbn [fst shift]; still_mapped|cbn; lia|cbn; lia|lia|].
      intros s5 Hi5 Hu5. split; [by eapply upd_trans|]. by rewrite decide_False by lia.
  - intros s4 (Hu4 & Hi4). rewrite decide_False in Hi4 by lia. wpe_step.
    eapply (init_inode_ok _ _ _ _ 7); [done|by apply fs_ok_checkpoint|done..|]. intros s5 Hi5 Hu5. cbn [fst] in Hu5.
    apply HQ; [done| |still_mapped]. assert (Hu : upd (eq cpfile_block) s s4) by eauto using upd_trans.
    eapply upd_trans; (eapply upd_mono; [|eassumption]); cbn; intros; subst; auto.
Qed.

Lemma raws_upto_all n : NILFS_MAX_INITIAL_INO <= n -> raws_upto n = raws_upto NILFS_MAX_INITIAL_INO.
Proof using.
  unfold NILFS_MAX_INITIAL_INO, NILFS_USER_INO. intros Hn. unfold raws_upto, base_files, cp_raws, sr_raws.
  unfold NILFS_ROOT_INO, NILFS_ATIME_INO, NILFS_IFILE_INO, NILFS_CPFILE_INO, NILFS_SUFILE_INO, NILFS_DAT_INO.
  cbn [zip_with replicate app insert list_insert fst snd]. repeat (case_if; try lia). done.
Qed.

Lemma inode_ptr_at (b epb i : nat) : Z.of_nat epb = bs / sizeof_inode -> (i < epb)%nat ->
  inode_ptr (Z.of_nat (b * epb + i)) = (ifile_block + 2 + Z.of_nat b, sizeof_inode * Z.of_nat i).
Proof using.
  intros He Hi. unfold inode_ptr. rewrite <- He, Nat2Z.inj_add, Nat2Z.inj_mul.
  replace (Z.of_nat b * Z.of_nat epb + Z.of_nat i) with (Z.of_nat i + Z.of_nat b * Z.of_nat epb) by lia.
  by rewrite Z.div_add, Z.div_small, Z_mod_plus_full, Z.mod_small, Z.add_0_l by lia.
Qed.

Lemma place_raw_inode_ok fs s p n i (Q : unit -> ms W -> Prop) :
  inv (raws_upto n) fs s -> fs_ok fs -> 0 <= n -> start < p.1 -> ptr_ok sizeof_inode (shift p (sizeof_inode * Z.of_nat i)) s ->
  inode_ptr n = shift p (sizeof_inode * Z.of_nat i) ->
  (forall s', inv (raws_upto (n + 1)) fs s' -> upd (fun _ => False) s s' -> Q tt s') ->
  triple (place_raw_inode p n i) Q s.
Proof using.
  intros Hi Hf Hn Hs Hp He HQ. unfold place_raw_inode.
  destruct (Z.ltb_spec n NILFS_MAX_INITIAL_INO) as [Hlt|Hge].
  - wpe_step. wpe_step. rewrite (inv_fs _ _ _ Hi), (ok_files _ Hf).
    assert (Hcases : n = 0 \/ (n = 1 \/ n = 2 \/ n = 7 \/ n = 8 \/ n = 9 \/ n = 10) \/
      (n = 3 \/ n = 4 \/ n = 5 \/ n = 6)) by (unfold NILFS_MAX_INITIAL_INO, NILFS_USER_INO in *; lia).
    destruct Hcases as [->|[Hnew|Hold]].
    + cbn. apply HQ; [exact Hi|apply upd_refl].
    + assert (exists k, table !! Z.to_nat n = Some (Some k) /\ (k < 10)%nat /\ raws_upto n !! k = Some None /\
        raws_upto (n + 1) = <[k := Some (inode_ptr n)]> (raws_upto n)) as (k & Hk & Hk10 & Hr & Hup).
      { destruct Hnew as [->|[->|[->|[->|[->| ->]]]]]; eexists; (split; [reflexivity|]);
          (split; [lia|]); split; reflexivity. }
      rewrite Hk. cbn [mjoin option_join]. destruct (lookup_lt_is_Some_2 base_files k ltac:(cbn; lia)) as [b Hb].
      wpe_step. eapply file_of_ok; [done|done|by eapply files_of_at|].
      cbn [mf_raw_inode]. eapply set_raw_inode_ok; [done|done|done|done|done|done|]. intros s' Hi' Hu'. apply HQ; [|done].
      by rewrite Hup, He.
    + assert (exists k p, table !! Z.to_nat n = Some (Some k) /\ (k < 10)%nat /\ raws_upto n !! k = Some (Some p) /\
        raws_upto (n + 1) = raws_upto n) as (k & q & Hk & Hk10 & Hr & Hup).
      { destruct Hold as [->|[->|[->| ->]]]; do 2 eexists; (split; [reflexivity|]);
          (split; [lia|]); split; reflexivity. }
      rewrite Hk. cbn [mjoin option_join]. destruct (lookup_lt_is_Some_2 base_files k ltac:(cbn; lia)) as [b Hb].
      wpe_step. eapply file_of_ok; [done|done|by eapply files_of_at|].
      cbn [mf_raw_inode]. wpe_step. apply HQ; [by rewrite Hup|apply upd_refl].
  - wpe_step. apply HQ; [|apply upd_refl]. rewrite raws_upto_all by lia. by rewrite raws_upto_all in Hi.
Qed.

Definition all_raws : list (option ptr) := raws_upto NILFS_MAX_INITIAL_INO.

(** The loops over the entries of the inode file. *)
Lemma place_inodes_ok fs s n (Q : unit -> ms W -> Prop) : inv cp_raws fs s -> fs_ok fs -> Z.of_nat n = ni - 2 ->
  (forall s', inv all_raws fs s' -> upd (fun b => ifile_block + 2 <= b < cpfile_block) s s' -> Q tt s') ->
  triple (for_upto n 0 (fun b =>
    let* raw_inode := map_disk_buffer (u64 (ifile_block + 2 + Z.of_nat b)) true in
    for_upto (Z.to_nat (bs / sizeof_inode)) 0 (fun i =>
      place_raw_inode raw_inode (Z.of_nat (b * Z.to_nat (bs / sizeof_inode) + i)) i))) Q s.
Proof using Hgeom L.
  intros Hi Hf Hn HQ. pose proof (geometry_range _ _ _ Hgeom) as Hg.
  pose proof (Z.div_le_mono 1024 bs sizeof_inode ltac:(done) ltac:(lia)) as Hle. change (1024 / sizeof_inode) with 8 in Hle.
  pose proof (Z.mul_div_le bs sizeof_inode ltac:(done)) as Hd. set (epb := Z.to_nat (bs / sizeof_inode)) in *.
  assert (He : Z.of_nat epb = bs / sizeof_inode) by (unfold epb; lia). unfold sizeof_inode in Hd.
  eapply (for_upto_ok (fun b s' => inv (raws_upto (Z.of_nat (b * epb))) fs s' /\
    upd (fun b => ifile_block + 2 <= b < cpfile_block) s s')).
  - split; [exact Hi|apply upd_refl].
  - intros b s1 Hb (Hi1 & Hu1). wpe_step. rewrite u64_block by lia. eapply map_new; [done|lia|].
    intros s2 Hi2 Hu2 _ _ Hm2.
    eapply (for_upto_ok (fun i s' => inv (raws_upto (Z.of_nat (b * epb + i))) fs s' /\ upd (fun _ => False) s2 s')).
    + split; [by rewrite Nat.add_0_r|apply upd_refl].
    + intros i s3 Hik (Hi3 & Hu3). assert (Hlt : (i < epb)%nat) by lia.
      eapply place_raw_inode_ok; [done|done|lia|cbn; lia| | |].
      * split; [cbn; still_mapped|]. unfold sizeof_inode in *. cbn [snd shift]. lia.
      * rewrite (inode_ptr_at b epb i He Hlt). done.
      * intros s4 Hi4 Hu4. split; [|by eapply upd_trans]. by replace (Z.of_nat (b * epb + Datatypes.S i)) with (Z.of_nat (b * epb + i) + 1) by lia.
    + intros s3 (Hi3 & Hu3). split.
      * by replace (Datatypes.S b * epb)%nat with (b * epb + (0 + epb))%nat by lia.
      * eapply upd_trans; [exact Hu1|]. eapply upd_trans; (eapply upd_mono; [|eassumption]); cbn; intros; subst; (done || lia).
  - intros s1 (Hi1 & Hu1). apply HQ; [|done]. unfold all_raws. rewrite <- (raws_upto_all (Z.of_nat ((0 + n) * epb))); [done|].
    unfold NILFS_MAX_INITIAL_INO, NILFS_USER_INO. destruct Hgeom as [(Hbs & _ & ->)|[(Hbs & _ & ->)|(Hbs & _ & ->)]]; [| |].
    + nia.
    + assert (16 <= Z.of_nat epb) by (rewrite He, Hbs; done). nia.
    + assert (16 <= Z.of_nat epb); [|nia]. rewrite He.
      pose proof (Z.div_le_mono 2048 bs sizeof_inode ltac:(done) ltac:(lia)) as Hle'. change (2048 / sizeof_inode) with 16 in Hle'. lia.
Qed.

Lemma prepare_ifile_ok fs s (Q : unit -> ms W -> Prop) : inv cp_raws fs s -> fs_ok fs ->
  (forall b, ifile_block <= b < cpfile_block -> ~ mapped b s) ->
  (forall s', inv all_raws fs s' -> upd (fun b => ifile_block <= b <= cpfile_block) s s' ->
     group ifile_block NILFS_USER_INO s' -> Q tt s') ->
  triple prepare_ifile Q s.
Proof using Hgeom L.
  intros Hi Hf Hn HQ. pose proof (geometry_range _ _ _ Hgeom) as Hg. unfold prepare_ifile.
  wpe_step. eapply (file_ok _ _ _ NILFS_IFILE_INO 6); [done..|]. wpe_step. wpe_step.
  unfold blocksize. rewrite (inv_opts _ _ _ Hi). cbn [mf_start_blocknr mf_nblocks fst snd].
  wpe_step. eapply prepare_group_ok; [done|lia|lia|apply Hn; lia|apply Hn; lia|]. intros s1 Hi1 Hu1 Hg1.
  wpe_step. change (group_desc_blocks_per_group + bitmap_blocks_per_group) with 2.
  eapply place_inodes_ok; [done|done|lia|]. intros s2 Hi2 Hu2. wpe_step.
  assert (Hg2 : group ifile_block 0 s2) by (eapply group_upd; [exact Hu2|cbn; lia..|done]).
  eapply alloc_entries_ok; [done|done|unfold NILFS_USER_INO; lia|]. intros s3 Hi3 Hu3 Hg3.
  eapply (init_inode_ok _ _ _ _ 6); [done..|]. intros s4 Hi4 Hu4. cbn [fst shift] in Hu4. apply HQ; [done| |].
  - eapply upd_trans; [|eapply upd_trans; [|eapply upd_trans]]; (eapply upd_mono; [|eassumption]);
      unfold of_group, checkpoint_ptr; cbn; intros; subst; lia.
  - eapply group_upd; [exact Hu4|unfold checkpoint_ptr; cbn; lia..|done].
Qed.

(** *** The first log *)

Definition no_raws : list (option ptr) := replicate 10 None.

(** The state of the file system before and after [prepare_segment]. *)
Definition fs_before : nilfs_fs_info :=
  mk_ni None (mk_sref 0 0 0 0) None None None (replicate (Z.to_nat NILFS_MAX_INITIAL_INO) None)
    (segment_start_blocknr (layout_of no_raws) 1) 0 0 1 1.

Definition fs_segment : nilfs_fs_info :=
  set_ni_segsum (Some (start, 0)) (set_ni_files table (set_ni_current_segment (Some 0%nat) fs_before)).

Definition fs_root : nilfs_fs_info := set_ni_super_root (Some (sr_block, 0)) fs_segment.

Definition fs_prepared : nilfs_fs_info := with_checkpoint fs_root.

Lemma fs_root_ok : fs_ok fs_root.
Proof using. by split. Qed.

Lemma fs_prepared_ok : fs_ok fs_prepared.
Proof using. by split. Qed.

(** The header of the summary. *)
Definition header_fields : list field :=
  [(ss_magic_off, 4%nat, NILFS_SEGSUM_MAGIC); (ss_bytes_off, 2%nat, sizeof_segment_summary);
   (ss_flags_off, 2%nat, 7); (ss_seq_off, 8%nat, 0); (ss_create_off, 8%nat, ctime);
   (ss_next_off, 8%nat, ni_next fs_before); (ss_nblocks_off, 4%nat, 8 + ni); (ss_nfinfo_off, 4%nat, 5);
   (ss_sumbytes_off, 4%nat, sumbytes); (ss_cno_off, 8%nat, 1)].

(** A block that holds zeros and some stores. *)
Definition holds (b : Z) (l : list field) s : Prop := own b (put_fields l zeros) s /\ Forall (field_inside bs) l.

Lemma holds_upd P b l s s' : upd P s s' -> ~ P b -> holds b l s -> holds b l s'.
Proof using. intros Hu Hp [Ho Hl]. split; [by eapply upd_own|done]. Qed.

Lemma store_holds raws fs p off n v l s (Q : unit -> ms W -> Prop) :
  inv raws fs s -> holds p.1 l s -> 0 <= p.2 + off -> p.2 + off + Z.of_nat n <= bs ->
  (forall s', inv raws fs s' -> upd (eq p.1) s s' -> holds p.1 (l ++ [(p.2 + off, n, v)]) s' -> Q tt s') ->
  triple (store p off n v) Q s.
Proof using.
  intros Hi [Ho Hl] H0 H1 HQ. eapply store_own; [done..|]. intros s' Hi' Hu' Ho'. apply HQ; [done|done|].
  split; [by rewrite put_fields_app|]. apply Forall_app; split; [done|]. by constructor.
Qed.

(** One store of a sequence into a block whose contents are known. *)
Ltac store_known H :=
  wpe_step; eapply store_holds; [eassumption | exact H | cbn [fst snd]; lia | cbn [fst snd]; lia |].

Lemma put_header_ok raws fs s (Q : unit -> ms W -> Prop) : inv raws fs s -> holds start [] s ->
  (forall s', inv raws fs s' -> upd (eq start) s s' -> holds start header_fields s' -> Q tt s') ->
  triple (init_segsum (start, 0) (layout_of raws) (segment_of raws) fs_segment) Q s.
Proof using Hgeom.
  intros Hi Ho HQ. pose proof (geometry_range _ _ _ Hgeom) as Hg.
  unfold init_segsum, ss_magic_off, ss_bytes_off, ss_flags_off, ss_seq_off, ss_create_off, ss_next_off, ss_nblocks_off,
    ss_nfinfo_off, ss_sumbytes_off, ss_cno_off.
  store_known Ho. intros s1 Hi1 Hu1 Ho1. store_known Ho1. intros s2 Hi2 Hu2 Ho2.
  store_known Ho2. intros s3 Hi3 Hu3 Ho3. store_known Ho3. intros s4 Hi4 Hu4 Ho4.
  store_known Ho4. intros s5 Hi5 Hu5 Ho5. store_known Ho5. intros s6 Hi6 Hu6 Ho6.
  store_known Ho6. intros s7 Hi7 Hu7 Ho7. store_known Ho7. intros s8 Hi8 Hu8 Ho8.
  store_known Ho8. intros s9 Hi9 Hu9 Ho9.
  eapply store_holds; [eassumption | exact Ho9 | cbn [fst snd]; lia | cbn [fst snd]; lia |].
  intros s10 Hi10 Hu10 Ho10. apply HQ; [done| |exact Ho10]. eauto 20 using upd_trans.
Qed.

Lemma init_super_root_ok fs s (Q : unit -> ms W -> Prop) : inv no_raws fs s -> fs_ok fs -> mapped sr_block s ->
  (forall s', inv sr_raws fs s' -> upd (eq sr_block) s s' -> Q tt s') ->
  triple (init_super_root (sr_block, 0) (layout_of no_raws)) Q s.
Proof using Hgeom.
  intros Hi Hf Hm HQ. pose proof (geometry_range _ _ _ Hgeom) as Hg.
  unfold init_super_root, sr_bytes_off, sr_nongc_ctime_off, sr_flags_off, sr_cpfile_off, sr_sufile_off, sr_dat_off,
    NILFS_SR_MDT_OFFSET.
  store_step. intros s1 Hi1 Hu1. store_step. intros s2 Hi2 Hu2. store_step. intros s3 Hi3 Hu3. cbn [fst] in *.
  assert (Hp : forall k s', mapped sr_block s' -> 0 <= k <= 2 -> ptr_ok sizeof_inode (shift (sr_block, 0) (16 + sizeof_inode * k)) s')
    by (intros k s' Hs' Hk; split; [done|]; unfold sizeof_inode; cbn [snd shift]; lia).
  wpe_step. eapply (set_raw_inode_ok no_raws fs _ NILFS_CPFILE_INO 7); [done|done|done|done|cbn; lia| |].
  { apply (Hp 1); [still_mapped|lia]. }
  intros s4 Hi4 Hu4. wpe_step.
  eapply (set_raw_inode_ok _ fs _ NILFS_SUFILE_INO 8); [done|done|done|done|cbn; lia| |].
  { apply (Hp 2); [still_mapped|lia]. }
  intros s5 Hi5 Hu5.
  eapply (set_raw_inode_ok _ fs _ NILFS_DAT_INO 9); [done|done|done|done|cbn; lia| |].
  { apply (Hp 0); [still_mapped|lia]. }
  intros s6 Hi6 Hu6. apply HQ; [exact Hi6|]. assert (Hu : upd (eq sr_block) s s3) by eauto using upd_trans.
  eapply upd_trans; [exact Hu|]. eapply upd_trans; [|eapply upd_trans]; (eapply upd_mono; [|eassumption]); done.
Qed.

(** What is known of the log when its files have been prepared. *)
Record prepared raws fs l (ki kd : Z) s : Prop := {
  pr_inv : inv raws fs s;
  pr_sum : holds start l s;
  pr_dat : group dat_block kd s;
  pr_entries : mapped (dat_block + 2) s;
  pr_ifile : group ifile_block ki s;
  pr_cpfile : mapped cpfile_block s;
  pr_sufile : mapped sufile_block s;
  pr_sr : mapped sr_block s;
}.

Definition in_log (b : Z) : Prop := start <= b <= sr_block.
Definition but_root (b : Z) : Prop := in_log b /\ b <> root_block.

Lemma prepare_segment_ok s (Q : unit -> ms W -> Prop) : inv no_raws fs_before s ->
  (forall b, in_log b -> ~ mapped b s) ->
  (forall s', prepared all_raws fs_prepared header_fields NILFS_USER_INO 1 s' -> upd but_root s s' -> Q tt s') ->
  triple (prepare_segment 0) Q s.
Proof using Hgeom L.
  intros Hi Hn HQ. pose proof (geometry_range _ _ _ Hgeom) as Hg. unfold prepare_segment, deref, but_root, in_log in *.
  wpe_step. wpe_step. rewrite (inv_di _ _ _ Hi). wpe_step. wpe_step. wpe_step. wpe_step.
  rewrite (inv_fs _ _ _ Hi). cbn [si_start_blocknr segment_of].
  assert (Hi0 : inv no_raws (set_ni_files table (set_ni_current_segment (Some 0%nat) fs_before))
                  (set_fs (set_ni_files table (set_ni_current_segment (Some 0%nat) fs_before)) s))
    by (by eapply inv_set_fs).
  wpe_step. eapply map_new; [exact Hi0|lia|]. intros s1 Hi1 Hu1 _ Hz1 _.
  assert (Ho1 : holds start [] s1) by (split; [apply Hz1, Hn; lia|constructor]).
  wpe_step. wpe_step. rewrite (inv_fs _ _ _ Hi1). fold fs_segment. wpe_step. wpe_step. 
  assert (Hi2 : inv no_raws fs_segment (set_fs fs_segment s1)) by (by eapply inv_set_fs).
  cbn [m_fs set_fs]. wpe_step. eapply put_header_ok; [exact Hi2|exact Ho1|]. intros s3 Hi3 Hu3 Ho3.
  cbn [si_nblocks segment_of]. replace (start + (8 + ni) - 1) with sr_block by lia.
  assert (Hu03 : upd (eq start) s s3).
  { eapply upd_trans; [eapply (upd_set_fs _ _ s)|]. eapply upd_trans; [exact Hu1|].
    eapply upd_trans; [apply upd_set_fs|exact Hu3]. }
  rewrite u64_block by lia. wpe_step. eapply map_new; [done|lia|]. intros s4 Hi4 Hu4 _ _ Hm4.
  wpe_step. wpe_step. rewrite (inv_fs _ _ _ Hi4). fold fs_root. wpe_step.
  eapply init_super_root_ok; [by eapply inv_set_fs|done|done|]. intros s5 Hi5 Hu5.
  assert (Hu05 : upd (fun b => b = start \/ b = sr_block) s s5).
  { eapply upd_trans; [eapply upd_mono; [|exact Hu03]; auto|]. eapply upd_trans; [eapply upd_mono; [|exact Hu4]; auto|].
    eapply upd_trans; [apply upd_set_fs|]. eapply upd_mono; [|exact Hu5]; auto. }
  wpe_step. eapply prepare_dat_ok; [done|done| |].
  { intros b Hb. eapply unmapped_upd; [exact Hu05|cbn; lia|apply Hn; lia]. }
  intros s6 Hi6 Hu6 Hg6 Hm6. wpe_step. eapply prepare_sufile_ok; [done|done|]. intros s7 Hi7 Hu7 Hm7.
  wpe_step. eapply prepare_cpfile_ok; [done|done|]. intros s8 Hi8 Hu8 Hm8. fold fs_prepared in *.
  eapply prepare_ifile_ok; [done|done| |].
  { intros b Hb. eapply unmapped_upd; [exact Hu8|cbn; lia|]. eapply unmapped_upd; [exact Hu7|cbn; lia|].
    eapply unmapped_upd; [exact Hu6|cbn; lia|]. eapply unmapped_upd; [exact Hu05|cbn; lia|apply Hn; lia]. }
  intros s9 Hi9 Hu9 Hg9. apply HQ.
  - assert (Hu49 : upd (fun b => start < b <= sr_block) s3 s9).
    { eapply upd_trans; [eapply upd_mono; [|exact Hu4]; cbn; intros; lia|]. eapply upd_trans; [apply upd_set_fs|].
      eapply upd_trans; [eapply upd_mono; [|exact Hu5]; cbn; intros; lia|].
      eapply upd_trans; [|eapply upd_trans; [|eapply upd_trans]]; (eapply upd_mono; [|eassumption]); cbn; intros; lia. }
    split; [done| | |still_mapped|done|still_mapped|still_mapped|].
    + eapply holds_upd; [exact Hu49|cbn; lia|done].
    + eapply group_upd; [exact Hu9|cbn; lia..|]. eapply group_upd; [exact Hu8|cbn; lia..|].
      eapply group_upd; [exact Hu7|cbn; lia..|done].
    + assert (Hm4' : mapped sr_block (set_fs fs_root s4)) by exact Hm4. still_mapped.
  - eapply upd_trans; [eapply upd_mono; [|exact Hu05]; cbn; intros; lia|].
    eapply upd_trans; [|eapply upd_trans; [|eapply upd_trans]]; (eapply upd_mono; [|eassumption]); cbn; intros; lia.
Qed.

Lemma load_holds p off n l v s (Q : Z -> ms W -> Prop) : holds p.1 l s ->
  last_field l (p.2 + off) n = Some v -> 0 <= v < 256 ^ Z.of_nat n -> Q v s -> triple (load p off (Z.of_nat n)) Q s.
Proof using Hgeom.
  intros [Ho Hl] Hv Hr HQ. destruct zeros_ok as [Hz _]. eapply load_own; [exact Ho| |exact HQ].
  rewrite (last_field_le l zeros bs _ n v) by done. by rewrite Z.mod_small by done.
Qed.

(** The fields of a directory entry. *)
Definition dir_entry_fields (off name_len rec_len : Z) (name : Z) : list field :=
  [(off + 0, 8%nat, NILFS_ROOT_INO); (off + 10, 1%nat, name_len); (off + 8, 2%nat, rec_len);
   (off + 11, 1%nat, NILFS_FT_DIR); (off + 12, 8%nat, name)].

Lemma put_dir_entry_ok raws fs s b off l name_len rec_len name (Q : unit -> ms W -> Prop) :
  inv raws fs s -> holds b l s -> 0 <= off -> off + 20 <= bs -> 0 <= rec_len < 65535 ->
  (forall s', inv raws fs s' -> upd (eq b) s s' -> holds b (l ++ dir_entry_fields off name_len rec_len name) s' -> Q tt s') ->
  triple (put_dir_entry (b, off) name_len rec_len (le_bytes 8 name)) Q s.
Proof using Hgeom.
  intros Hi Ho H0 H1 Hr HQ. unfold put_dir_entry, de_inode_off, de_name_len_off, de_rec_len_off, de_file_type_off, de_name_off.
  store_known Ho. intros s1 Hi1 Hu1 Ho1. store_known Ho1. intros s2 Hi2 Hu2 Ho2.
  assert (Hrec : nilfs_rec_len_to_disk rec_len = Some rec_len).
  { unfold nilfs_rec_len_to_disk. case_if; [lia|]. case_if; [lia|]. f_equal. apply Z.mod_small. lia. }
  wpe_step. rewrite Hrec. wpe_step. store_known Ho2. intros s3 Hi3 Hu3 Ho3. store_known Ho3. intros s4 Hi4 Hu4 Ho4.
  eapply (store_holds raws fs (b, off) 12 8 name); [eassumption|exact Ho4|cbn [fst snd]; lia|cbn [fst snd]; lia|].
  intros s5 Hi5 Hu5 Ho5. cbn [fst snd] in *. apply HQ; [done|eauto 10 using upd_trans|].
  rewrite <- !app_assoc in Ho5. exact Ho5.
Qed.

Lemma inode_ptr_range ino : 0 <= ino < NILFS_MAX_INITIAL_INO -> ifile_block + 2 <= (inode_ptr ino).1 < cpfile_block.
Proof using Hgeom.
  unfold NILFS_MAX_INITIAL_INO, NILFS_USER_INO, inode_ptr. intros Hi. cbn [fst]. unfold sizeof_inode.
  pose proof (geometry_range _ _ _ Hgeom) as Hg.
  destruct Hgeom as [(Hbs & _ & Hni)|[(Hbs & _ & Hni)|(Hbs & _ & Hni)]].
  - rewrite Hbs, Hni. change (1024 / 128) with 8. pose proof (Z.div_le_mono ino 10 8). pose proof (Z.div_pos ino 8).
    change (10 / 8) with 1 in *. lia.
  - rewrite Hbs, Hni. change (2048 / 128) with 16. rewrite Z.div_small by lia. lia.
  - pose proof (Z.div_le_mono 2048 bs 128 ltac:(lia) ltac:(lia)) as Hle. change (2048 / 128) with 16 in Hle.
    rewrite (Z.div_small ino) by lia. lia.
Qed.

Lemma inc_link_count_ok raws fs s ino i b p (Q : unit -> ms W -> Prop) :
  inv raws fs s -> fs_ok fs -> 0 <= ino -> table !! Z.to_nat ino = Some (Some i) ->
  base_files !! i = Some b -> raws !! i = Some (Some p) ->
  (forall s', inv raws fs s' -> upd (eq p.1) s s' -> Q tt s') -> triple (inc_link_count ino) Q s.
Proof using.
  intros Hi Hf H0 Ht Hb Hp HQ. destruct (inv_raws _ _ _ Hi i p Hp) as (_ & Hm & H1 & H2).
  unfold inc_link_count, raw_inode_of, deref, i_links_count_off. unfold sizeof_inode in H2.
  wpe_step. eapply file_ok; [done|done|lia|done|done|done|]. wpe_step. wpe_step. wpe_step.
  eapply load_ok; [done|done|lia|lia|lia|]. intros v. eapply store_ok; [done|done|lia|lia|]. done.
Qed.

Definition in_inodes (b : Z) : Prop := ifile_block + 2 <= b < cpfile_block.

Lemma make_rootdir_ok s (Q : unit -> ms W -> Prop) : inv all_raws fs_prepared s -> ~ mapped root_block s ->
  (forall s', inv all_raws fs_prepared s' -> upd (fun b => b = root_block \/ in_inodes b) s s' ->
     mapped root_block s' -> Q tt s') ->
  triple nilfs_mkfs_make_rootdir Q s.
Proof using Hgeom L.
  intros Hi Hn HQ. pose proof (geometry_range _ _ _ Hgeom) as Hg. pose proof fs_prepared_ok as Hf.
  pose proof (inode_ptr_range NILFS_ROOT_INO ltac:(done)) as Hino.
  unfold nilfs_mkfs_make_rootdir. wpe_step. eapply (file_ok _ _ _ NILFS_ROOT_INO 0); [done..|].
  cbn [mf_start_blocknr fst snd]. wpe_step. eapply map_new; [done|lia|]. intros s1 Hi1 Hu1 _ Hz1 _.
  assert (Ho1 : holds root_block [] s1) by (split; [by apply Hz1|constructor]). wpe_step. wpe_step.
  unfold blocksize. rewrite (inv_opts _ _ _ Hi1). rewrite !(u32_id bs) by (unfold is_u32; lia).
  rewrite !(u32_id (bs - _)) by (unfold is_u32; change (NILFS_DIR_REC_LEN 1) with 16; lia).
  wpe_step. eapply (init_inode_ok _ _ _ NILFS_ROOT_INO 0); [done|done|done|done|done|reflexivity|]. intros s2 Hi2 Hu2. cbn [fst] in Hu2.
  assert (Ho2 : holds root_block [] s2) by (eapply holds_upd; [exact Hu2|lia|done]).
  change (NILFS_DIR_REC_LEN 1) with 16. change (46 :: replicate 7 0) with (le_bytes 8 46).
  change (46 :: 46 :: replicate 6 0) with (le_bytes 8 11822).
  wpe_step. eapply put_dir_entry_ok; [done|exact Ho2|lia|lia|lia|]. intros s3 Hi3 Hu3 Ho3.
  wpe_step. unfold next_dir_entry, de_rec_len_off. wpe_step.
  eapply (load_holds _ _ 2); [exact Ho3|reflexivity|cbn; lia|]. wpe_step. change (nilfs_rec_len_from_disk 16) with 16.
  change (shift (root_block, 0) 16) with (root_block, 16).
  wpe_step. eapply put_dir_entry_ok; [done|exact Ho3|lia|lia|lia|]. intros s4 Hi4 Hu4 Ho4.
  eapply (inc_link_count_ok _ _ _ NILFS_ROOT_INO 0); [done|done|done|done|reflexivity|reflexivity|]. intros s5 Hi5 Hu5.
  assert (Hu : forall b, b = root_block \/ b = (inode_ptr NILFS_ROOT_INO).1 -> b = root_block \/ in_inodes b)
    by (unfold in_inodes; intros b [->| ->]; [by left|right; lia]).
  apply HQ; [done| |assert (mapped root_block s4) by (eexists; apply Ho4); still_mapped].
  eapply upd_trans; [|eapply upd_trans; [|eapply upd_trans; [|eapply upd_trans]]]; (eapply upd_mono; [|eassumption]);
    cbn; intros; apply Hu; auto.
Qed.

Lemma make_reserved_ok s (Q : unit -> ms W -> Prop) : inv all_raws fs_prepared s ->
  (forall s', inv all_raws fs_prepared s' -> upd in_inodes s s' -> Q tt s') ->
  triple nilfs_mkfs_make_reserved_files Q s.
Proof using Hgeom.
  intros Hi HQ. pose proof fs_prepared_ok as Hf.
  assert (Hu : forall ino s s', 0 <= ino < NILFS_MAX_INITIAL_INO -> upd (eq (inode_ptr ino).1) s s' -> upd in_inodes s s').
  { intros ino s0 s' Hr Hu. pose proof (inode_ptr_range ino Hr). eapply upd_mono; [|exact Hu]. intros b <-. done. }
  unfold nilfs_mkfs_make_reserved_files.
  wpe_step. eapply (init_inode_ok _ _ _ NILFS_ATIME_INO 1); [done|done|done|done|reflexivity|reflexivity|].
  intros s1 Hi1 Hu1%Hu; [|done].
  wpe_step. eapply (init_inode_ok _ _ _ 1 2); [done|done|done|done|reflexivity|reflexivity|].
  intros s2 Hi2 Hu2%Hu; [|done].
  wpe_step. eapply (init_inode_ok _ _ _ 8 3); [done|done|done|done|reflexivity|reflexivity|].
  intros s3 Hi3 Hu3%Hu; [|done].
  wpe_step. eapply (init_inode_ok _ _ _ 9 4); [done|done|done|done|reflexivity|reflexivity|].
  intros s4 Hi4 Hu4%Hu; [|done].
  eapply (init_inode_ok _ _ _ 10 5); [done|done|done|done|reflexivity|reflexivity|].
  intros s5 Hi5 Hu5%Hu; [|done]. apply HQ; [done|]. eauto 10 using upd_trans.
Qed.

(** *** The descriptors of the first log *)

Definition fs_at (vb : Z) : nilfs_fs_info := set_ni_vblocknr vb fs_prepared.

Lemma fs_at_ok vb : fs_ok (fs_at vb).
Proof using. by split. Qed.

(** The blocks that hold the inodes. *)
Definition raw_block (b : Z) : Prop := in_inodes b \/ b = cpfile_block \/ b = sr_block.

Lemma prepared_upd P fs fs' l ki kd s s' : prepared all_raws fs l ki kd s -> inv all_raws fs' s' -> upd P s s' ->
  (forall b, P b -> raw_block b \/ b = dat_block + 2 \/ b = sufile_block \/ b = root_block) -> prepared all_raws fs' l ki kd s'.
Proof using Hgeom.
  intros [H1 H2 H3 H4 H5 H6 H7 H8] Hi Hu HP. pose proof (geometry_range _ _ _ Hgeom) as Hg.
  assert (Hn : forall b, b = start \/ b = dat_block \/ b = dat_block + 1 \/ b = ifile_block \/ b = ifile_block + 1 -> ~ P b).
  { intros b Hb Hp. apply HP in Hp. unfold raw_block, in_inodes in Hp. lia. }
  split; [done|eapply holds_upd; eauto|eapply group_upd; eauto|still_mapped|eapply group_upd; eauto|still_mapped..];
    apply Hn; tauto.
Qed.

Lemma all_raws_block i p : all_raws !! i = Some (Some p) -> raw_block p.1.
Proof using Hgeom.
  intros Hp. assert (Hlt : (i < 10)%nat) by (apply lookup_lt_Some in Hp; exact Hp). unfold raw_block.
  assert (Hin : forall ino, 0 <= ino < NILFS_MAX_INITIAL_INO -> in_inodes (inode_ptr ino).1)
    by (intros; by apply inode_ptr_range).
  destruct i as [|[|[|[|[|[|[|[|[|[|]]]]]]]]]]; [..|lia]; injection Hp as <-; first
    [left; by apply Hin | right; left; reflexivity | right; right; reflexivity].
Qed.

Lemma map_segsum_info_ok raws fs s off item l (Q : ptr * Z -> ms W -> Prop) :
  inv raws fs s -> holds start l s -> 0 <= off -> 0 < item -> off + item <= 1024 ->
  (forall s', inv raws fs s' -> upd (fun _ => False) s s' -> Q ((start, off), off + item) s') ->
  triple (map_segsum_info start off item) Q s.
Proof using Hgeom L.
  intros Hi Ho H0 Hit H1 HQ. pose proof (geometry_range _ _ _ Hgeom) as Hg. unfold map_segsum_info.
  wpe_step. wpe_step. unfold blocksize. rewrite (inv_opts _ _ _ Hi).
  rewrite Z.div_small, Z.mod_small by lia. destruct (Z.ltb_spec (bs - off) item); [lia|].
  rewrite Z.add_0_r, u64_block by lia. wpe_step. destruct Ho as [Ho _]. eapply map_old; [done|exact Ho|].
  intros s1 Hi1 Hu1. wpe_step. rewrite u64_id by (unfold is_u64; lia). by apply HQ.
Qed.

Definition dat_entries (b : Z) : Prop := of_group dat_block b \/ b = dat_block + 2.

Lemma assign_vblocknr_ok s l vb blocknr (Q : Z -> ms W -> Prop) :
  prepared all_raws (fs_at vb) l NILFS_USER_INO vb s -> 0 <= vb < 32 ->
  (forall s', prepared all_raws (fs_at (vb + 1)) l NILFS_USER_INO (vb + 1) s' -> upd dat_entries s s' -> Q vb s') ->
  triple (assign_vblocknr blocknr) Q s.
Proof using Hgeom L.
  intros Hpr Hvb HQ. pose proof (geometry_range _ _ _ Hgeom) as Hg. destruct Hpr as [Hi Ho Hgd Hm Hgi Hmc Hms Hmr].
  pose proof (Z.div_le_mono 1024 bs 32 ltac:(lia) ltac:(lia)) as Hle. change (1024 / 32) with 32 in Hle.
  unfold assign_vblocknr. wpe_step.
  eapply (file_ok _ _ _ NILFS_DAT_INO 9); [done|apply fs_at_ok|done|done|reflexivity|reflexivity|].
  wpe_step. wpe_step. unfold blocksize. rewrite (inv_opts _ _ _ Hi). wpe_step. wpe_step. rewrite (inv_fs _ _ _ Hi).
  cbn [mf_start_blocknr mf_nblocks fst snd]. change (ni_vblocknr (fs_at vb)) with vb. change (ni_cno (fs_at vb)) with 1.
  wpe_step. wpe_step. rewrite (u64_id (vb + 1)) by (unfold is_u64; lia). rewrite (inv_fs _ _ _ Hi).
  change (set_ni_vblocknr (vb + 1) (fs_at vb)) with (fs_at (vb + 1)).
  assert (Hi1 : inv all_raws (fs_at (vb + 1)) (set_fs (fs_at (vb + 1)) s)) by (by eapply inv_set_fs).
  assert (Hu1 : upd (fun _ => False) s (set_fs (fs_at (vb + 1)) s)) by apply upd_set_fs.
  unfold sizeof_dat_entry, group_desc_blocks_per_group, bitmap_blocks_per_group.
  rewrite Z.div_small, Z.mod_small by lia. replace (dat_block + 1 + 1 + 0) with (dat_block + 2) by lia.
  wpe_step. eapply (alloc_entry_ok _ _ _ _ vb); [exact Hi1|exact Hgd|lia|]. intros s2 Hi2 Hu2 Hg2.
  rewrite !u64_block by lia. destruct (Z.leb_spec (dat_block + 3) (dat_block + 2)); [lia|].
  assert (Hm2 : mapped (dat_block + 2) s2) by still_mapped. destruct Hm2 as [blk Hb2].
  wpe_step. eapply map_old; [done|exact Hb2|]. intros s3 Hi3 Hu3.
  assert (Hm3 : mapped (dat_block + 2) s3) by (exists blk; eapply upd_own; [exact Hu3|tauto|done]).
  unfold de_blocknr_off, de_start_off, de_end_off. assert (Hin : 32 * vb + 32 <= bs) by lia.
  wpe_step. eapply store_ok; [done|exact Hm3|cbn [snd shift]; lia|cbn [snd shift]; lia|]. intros s4 Hi4 Hu4.
  wpe_step. eapply store_ok; [done|cbn [fst shift] in *; still_mapped|cbn [snd shift]; lia|cbn [snd shift]; lia|].
  intros s5 Hi5 Hu5. wpe_step.
  eapply store_ok; [done|cbn [fst shift] in *; still_mapped|cbn [snd shift]; lia|cbn [snd shift]; lia|].
  intros s6 Hi6 Hu6. cbn [fst shift] in *. wpe_step.
  assert (Hu26 : upd (eq (dat_block + 2)) s2 s6).
  { eapply upd_trans; [eapply upd_mono; [|exact Hu3]; done|]. by eapply upd_trans; [|eapply upd_trans]. }
  assert (Hu06 : upd dat_entries s s6).
  { eapply upd_trans; [eapply upd_mono; [|exact Hu1]; done|]. eapply upd_trans; (eapply upd_mono; [|eassumption]);
      unfold dat_entries; cbn; intros; subst; auto. }
  apply HQ; [|done]. split; [done| | |still_mapped| |still_mapped..].
  - eapply holds_upd; [exact Hu06|unfold dat_entries, of_group; cbn; lia|done].
  - eapply group_upd; [exact Hu26|cbn; lia..|done].
  - eapply group_upd; [exact Hu06|unfold dat_entries, of_group; cbn; lia..|done].
Qed.

(** The descriptors of [n] blocks, from block [i] of the file on. *)
Fixpoint binfo_fields (n : nat) (i off vb : Z) : list field :=
  match n with
  | O => []
  | Datatypes.S n' => (off, 8%nat, vb) :: (off + 8, 8%nat, i) :: binfo_fields n' (i + 1) (off + 16) (vb + 1)
  end.

Fixpoint dat_binfo_fields (n : nat) (i off : Z) : list field :=
  match n with
  | O => []
  | Datatypes.S n' => (off, 8%nat, i) :: dat_binfo_fields n' (i + 1) (off + 8)
  end.

(** The steps of the loops, on a prepared log. *)
Definition at_step (vb : Z) l s : Prop := prepared all_raws (fs_at vb) l NILFS_USER_INO vb s.

Lemma map_info_step vb l s off item (Q : ptr * Z -> ms W -> Prop) : at_step vb l s ->
  0 <= off -> 0 < item -> off + item <= 1024 ->
  (forall s', at_step vb l s' -> upd in_log s s' -> Q ((start, off), off + item) s') ->
  triple (map_segsum_info start off item) Q s.
Proof using Hgeom L.
  intros Hp H0 H1 H2 HQ. eapply map_segsum_info_ok; [apply Hp|apply (pr_sum _ _ _ _ _ _ Hp)|done..|].
  intros s' Hi Hu. apply HQ; [by eapply prepared_upd|]. eapply upd_mono; [|exact Hu]. done.
Qed.

Lemma store_sum_step vb l s o1 o2 n v (Q : unit -> ms W -> Prop) : at_step vb l s ->
  0 <= o1 + o2 -> o1 + o2 + Z.of_nat n <= 1024 ->
  (forall s', at_step vb (l ++ [(o1 + o2, n, v)]) s' -> upd in_log s s' -> Q tt s') ->
  triple (store (start, o1) o2 n v) Q s.
Proof using Hgeom.
  pose proof (geometry_range _ _ _ Hgeom) as Hg. intros [P1 P2 P3 P4 P5 P6 P7 P8] H0 H1 HQ.
  eapply store_holds; [done|exact P2|cbn [snd]; lia|cbn [snd]; lia|]. cbn [fst snd]. intros s' Hi Hu Ho.
  apply HQ; [|eapply upd_mono; [|exact Hu]; unfold in_log; cbn; lia].
  split; [done|done|eapply group_upd; [exact Hu|cbn; lia..|done]|still_mapped|
    eapply group_upd; [exact Hu|cbn; lia..|done]|still_mapped..].
Qed.

Lemma store_raw_step vb l s p off n v (Q : unit -> ms W -> Prop) : at_step vb l s ->
  raw_block p.1 -> ptr_ok sizeof_inode p s -> 0 <= off -> off + Z.of_nat n <= 128 ->
  (forall s', at_step vb l s' -> upd in_log s s' -> Q tt s') -> triple (store p off n v) Q s.
Proof using Hgeom.
  pose proof (geometry_range _ _ _ Hgeom) as Hg. intros Hp Hr (Hm & H0 & H1) H2 H3 HQ. unfold sizeof_inode in H1.
  eapply store_ok; [apply Hp|done|lia|lia|]. intros s' Hi Hu. apply HQ.
  - eapply prepared_upd; [exact Hp|done|exact Hu|]. intros b <-. by left.
  - eapply upd_mono; [|exact Hu]. intros b <-. unfold raw_block, in_inodes, in_log in *. lia.
Qed.

Lemma ptr_ok_upd P n p s s' : upd P s s' -> ptr_ok n p s -> ptr_ok n p s'.
Proof using. intros Hu [Hm Hr]. split; [by eapply upd_mapped|done]. Qed.

Lemma assign_step vb l s blocknr (Q : Z -> ms W -> Prop) : at_step vb l s -> 0 <= vb < 32 ->
  (forall s', at_step (vb + 1) l s' -> upd in_log s s' -> Q vb s') -> triple (assign_vblocknr blocknr) Q s.
Proof using Hgeom L.
  pose proof (geometry_range _ _ _ Hgeom) as Hg. intros Hp Hv HQ. eapply assign_vblocknr_ok; [exact Hp|done|].
  intros s' Hp' Hu. apply HQ; [done|]. eapply upd_mono; [|exact Hu]. unfold dat_entries, of_group, in_log. lia.
Qed.

Lemma put_binfos_ok fi p n : raw_block p.1 -> forall i s l off vb (Q : Z -> ms W -> Prop),
  at_step vb l s -> ptr_ok sizeof_inode p s ->
  0 <= off -> off + 16 * Z.of_nat n <= 1024 -> (i + n <= 6)%nat -> 0 <= vb -> vb + Z.of_nat n < 32 ->
  (forall s', at_step (vb + Z.of_nat n) (l ++ binfo_fields n (Z.of_nat i) off vb) s' ->
     upd in_log s s' -> Q (off + 16 * Z.of_nat n) s') ->
  triple (put_binfos start fi p n i off) Q s.
Proof using Hgeom L.
  intros Hrb. induction n as [|n IH]; intros i s l off vb Q Hp0 Hp H0 H1 Hn Hv0 Hv HQ; cbn [put_binfos].
  - wpe_step. replace off with (off + 16 * Z.of_nat 0) at 1 by lia. apply HQ; [|apply upd_refl].
    cbn [binfo_fields]. by rewrite app_nil_r, Z.add_0_r.
  - unfold NILFS_BINFO_DATA_SIZE. wpe_step. eapply map_info_step; [exact Hp0|lia..|]. intros s1 Hp1 Hu1. cbv beta iota.
    wpe_step. eapply assign_step; [exact Hp1|lia|]. intros s2 Hp2 Hu2.
    wpe_step. eapply store_sum_step; [exact Hp2|lia|lia|]. intros s3 Hp3 Hu3.
    wpe_step. eapply store_sum_step; [exact Hp3|lia|lia|]. intros s4 Hp4 Hu4.
    assert (Hu04 : upd in_log s s4) by eauto 10 using upd_trans.
    wpe_step. eapply store_raw_step; [exact Hp4|done|by eapply ptr_ok_upd|unfold i_bmap_off; lia|unfold i_bmap_off; lia|].
    intros s5 Hp5 Hu5. rewrite Z.add_0_r, <- app_assoc in Hp5. cbn [app] in Hp5.
    eapply IH; [exact Hp5| |lia|lia|lia|lia|lia|].
    + eapply ptr_ok_upd; [exact Hu5|]. by eapply ptr_ok_upd.
    + intros s6 Hp6 Hu6. replace (off + 16 + 16 * Z.of_nat n) with (off + 16 * Z.of_nat (Datatypes.S n)) by lia.
      apply HQ; [|eauto 10 using upd_trans]. rewrite <- app_assoc in Hp6. cbn [app] in Hp6. cbn [binfo_fields].
      replace (vb + Z.of_nat (Datatypes.S n)) with (vb + 1 + Z.of_nat n) by lia.
      replace (Z.of_nat i + 1) with (Z.of_nat (Datatypes.S i)) by lia. exact Hp6.
Qed.

Lemma put_dat_binfos_ok fi p n : raw_block p.1 -> forall i s l off vb (Q : Z -> ms W -> Prop),
  at_step vb l s -> ptr_ok sizeof_inode p s ->
  0 <= off -> off + 8 * Z.of_nat n <= 1024 -> (i + n <= 6)%nat ->
  (forall s', at_step vb (l ++ dat_binfo_fields n (Z.of_nat i) off) s' ->
     upd in_log s s' -> Q (off + 8 * Z.of_nat n) s') ->
  triple (put_dat_binfos start fi p n i off) Q s.
Proof using Hgeom L.
  intros Hrb. induction n as [|n IH]; intros i s l off vb Q Hp0 Hp H0 H1 Hn HQ; cbn [put_dat_binfos].
  - wpe_step. replace off with (off + 8 * Z.of_nat 0) at 1 by lia. apply HQ; [|apply upd_refl].
    cbn [dat_binfo_fields]. by rewrite app_nil_r.
  - unfold NILFS_BINFO_DAT_DATA_SIZE. wpe_step. eapply map_info_step; [exact Hp0|lia..|]. intros s1 Hp1 Hu1. cbv beta iota.
    wpe_step. eapply store_sum_step; [exact Hp1|lia|lia|]. intros s2 Hp2 Hu2.
    assert (Hu02 : upd in_log s s2) by eauto 10 using upd_trans.
    wpe_step. eapply store_raw_step; [exact Hp2|done|by eapply ptr_ok_upd|unfold i_bmap_off; lia|unfold i_bmap_off; lia|].
    intros s3 Hp3 Hu3. rewrite Z.add_0_r in Hp3.
    eapply IH; [exact Hp3| |lia|lia|lia|].
    + eapply ptr_ok_upd; [exact Hu3|]. by eapply ptr_ok_upd.
    + intros s4 Hp4 Hu4. replace (off + 8 + 8 * Z.of_nat n) with (off + 8 * Z.of_nat (Datatypes.S n)) by lia.
      apply HQ; [|eauto 10 using upd_trans]. rewrite <- app_assoc in Hp4. cbn [app] in Hp4. cbn [dat_binfo_fields].
      replace (Z.of_nat i + 1) with (Z.of_nat (Datatypes.S i)) by lia. exact Hp4.
Qed.

(** A file: its number, first block and number of blocks. *)
Definition file_fields (b : Z * Z * Z) (off vb : Z) : list field :=
  let '(ino, _, n) := b in
  if n =? 0 then []
  else [(off, 8%nat, ino); (off + 16, 4%nat, n); (off + 20, 4%nat, n); (off + 8, 8%nat, 1)] ++
       (if ino =? NILFS_DAT_INO then dat_binfo_fields (Z.to_nat n) 0 (off + 24)
        else binfo_fields (Z.to_nat n) 0 (off + 24) vb).

(** The room of a file in the summary, and its virtual block numbers. *)
Definition file_room (b : Z * Z * Z) : Z :=
  if b.2 =? 0 then 0 else 24 + (if b.1.1 =? NILFS_DAT_INO then 8 else 16) * b.2.

Definition file_vbs (b : Z * Z * Z) : Z := if (b.2 =? 0) || (b.1.1 =? NILFS_DAT_INO) then 0 else b.2.

Fixpoint log_fields (l : list (Z * Z * Z)) (off vb : Z) : list field :=
  match l with
  | [] => []
  | b :: l => file_fields b off vb ++ log_fields l (off + file_room b) (vb + file_vbs b)
  end.

Lemma raw_of vb l s i : at_step vb l s -> (i < 10)%nat ->
  exists p, all_raws !! i = Some (Some p) /\ raw_block p.1 /\ ptr_ok sizeof_inode p s.
Proof using Hgeom.
  intros Hp Hi. assert (exists p, all_raws !! i = Some (Some p)) as [p Hr].
  { destruct i as [|[|[|[|[|[|[|[|[|[|]]]]]]]]]]; [..|lia]; eexists; reflexivity. }
  exists p. split; [done|]. split; [by eapply all_raws_block|]. by apply (inv_raws _ _ _ (pr_inv _ _ _ _ _ _ Hp) i p).
Qed.

Lemma update_blocknr_ok vb l s i b p off (Q : Z -> ms W -> Prop) :
  at_step vb l s -> base_files !! i = Some b -> all_raws !! i = Some (Some p) -> raw_block p.1 ->
  ptr_ok sizeof_inode p s -> 0 <= b.2 <= 4 -> 0 <= off -> off + file_room b <= 1024 -> 0 <= vb -> vb + file_vbs b < 32 ->
  (forall s', at_step (vb + file_vbs b) (l ++ file_fields b off vb) s' -> upd in_log s s' -> Q (off + file_room b) s') ->
  triple (update_blocknr (mk_fi b.1.1 b.1.2 b.2 (Some p)) off) Q s.
Proof using Hgeom L.
  intros Hp0 Hb Hr Hrb Hp Hn H0 H1 Hv0 Hv HQ. destruct b as [[ino st] n]. unfold file_room, file_vbs, file_fields in *.
  cbn [fst snd] in *. unfold update_blocknr, raw_inode_of, deref, sizeof_finfo. wpe_step.
  eapply current_segment_ok; [apply Hp0|apply fs_at_ok|]. cbn [si_start_blocknr segment_of mf_nblocks mf_ino mf_raw_inode].
  destruct (Z.eqb_spec n 0) as [->|Hn0]; cbn [orb] in *.
  - wpe_step. wpe_step. wpe_step. eapply store_raw_step; [exact Hp0|done|done|unfold i_bmap_off; lia..|].
    intros s1 Hp1 Hu1. wpe_step. rewrite !Z.add_0_r in HQ. apply HQ; [|done]. by rewrite app_nil_r.
  - wpe_step. eapply map_info_step; [exact Hp0|lia|lia|destruct (ino =? NILFS_DAT_INO); lia|].
    intros s1 Hp1 Hu1. cbv beta iota. unfold fi_ino_off, fi_nblocks_off, fi_ndatablk_off, fi_cno_off.
    assert (Hroom : off + 24 <= 1024) by (destruct (ino =? NILFS_DAT_INO); lia).
    wpe_step. eapply store_sum_step; [exact Hp1|lia|lia|]. intros s2 Hp2 Hu2.
    wpe_step. eapply store_sum_step; [exact Hp2|lia|lia|]. intros s3 Hp3 Hu3.
    wpe_step. eapply store_sum_step; [exact Hp3|lia|lia|]. intros s4 Hp4 Hu4.
    wpe_step. eapply store_sum_step; [exact Hp4|lia|lia|]. intros s5 Hp5 Hu5.
    assert (Hu05 : upd in_log s s5) by eauto 10 using upd_trans.
    wpe_step. wpe_step. wpe_step. eapply store_raw_step; [exact Hp5|done|by eapply ptr_ok_upd|unfold i_bmap_off; lia..|].
    intros s6 Hp6 Hu6. rewrite Z.add_0_r, <- !app_assoc in Hp6. cbn [app] in Hp6.
    assert (Hu06 : upd in_log s s6) by (by eapply upd_trans).
    assert (Hok6 : ptr_ok sizeof_inode p s6) by (by eapply ptr_ok_upd).
    destruct (Z.eqb_spec ino NILFS_DAT_INO) as [->|Hd].
    + rewrite <- (Z.add_0_r vb) in Hp6. eapply put_dat_binfos_ok; [done|exact Hp6|done|lia|lia|lia|].
      intros s7 Hp7 Hu7. rewrite Z2Nat.id by lia. replace (off + 24 + 8 * n) with (off + (24 + 8 * n)) by lia.
      apply HQ; [|by eapply upd_trans]. rewrite <- !app_assoc in Hp7. exact Hp7.
    + eapply put_binfos_ok; [done|exact Hp6|done|lia|lia|lia|lia|lia|].
      intros s7 Hp7 Hu7. rewrite Z2Nat.id in * by lia. replace (off + 24 + 16 * n) with (off + (24 + 16 * n)) by lia.
      apply HQ; [|by eapply upd_trans]. rewrite <- !app_assoc in Hp7. exact Hp7.
Qed.

Lemma update_blocknrs_ok rest : forall pre vb l s off (Q : unit -> ms W -> Prop), base_files = pre ++ rest ->
  at_step vb l s -> Forall (fun b : Z * Z * Z => 0 <= b.2 <= 4) rest -> 0 <= off -> off + sum_Z (file_room <$> rest) <= 1024 ->
  0 <= vb -> vb + sum_Z (file_vbs <$> rest) < 32 ->
  (forall s', at_step (vb + sum_Z (file_vbs <$> rest)) (l ++ log_fields rest off vb) s' -> upd in_log s s' -> Q tt s') ->
  triple (update_blocknrs (length rest) (length pre) off) Q s.
Proof using Hgeom L.
  induction rest as [|b rest IH]; intros pre vb l s off Q Hpre Hp0 Hn H0 H1 Hv0 Hv HQ; cbn [length update_blocknrs log_fields].
  - wpe_step. apply HQ; [|apply upd_refl]. cbn. by rewrite app_nil_r, Z.add_0_r.
  - apply Forall_cons in Hn as [Hb Hn]. rewrite !fmap_cons, !sum_Z_cons in *.
    assert (Hrooms : 0 <= sum_Z (file_room <$> rest) /\ 0 <= sum_Z (file_vbs <$> rest)).
    { clear -Hn. induction Hn as [|x l Hx _ IH]; [done|]. rewrite !fmap_cons, !sum_Z_cons. unfold file_room at 1, file_vbs at 1.
      destruct (x.2 =? 0), (x.1.1 =? NILFS_DAT_INO); cbn [orb]; lia. }
    assert (Hat : base_files !! length pre = Some b) by (rewrite Hpre; by apply list_lookup_middle).
    assert (Hlt : (length pre < 10)%nat) by (apply lookup_lt_Some in Hat; exact Hat).
    destruct (raw_of _ _ _ _ Hp0 Hlt) as (p & Hr & Hrb & Hok).
    wpe_step. eapply file_of_ok; [apply Hp0|apply fs_at_ok|by apply files_of_at|].
    assert (Hpos : 0 <= file_room b /\ 0 <= file_vbs b).
    { unfold file_room, file_vbs. destruct (b.2 =? 0), (b.1.1 =? NILFS_DAT_INO); cbn [orb]; lia. }
    wpe_step. eapply update_blocknr_ok; [exact Hp0|exact Hat|exact Hr|done|done|done|lia|lia|lia|lia|].
    intros s1 Hp1 Hu1. replace (Datatypes.S (length pre)) with (length (pre ++ [b])) by (rewrite length_app; cbn; lia).
    eapply (IH (pre ++ [b])); [by rewrite <- app_assoc|exact Hp1|done|lia|lia|lia|lia|].
    intros s2 Hp2 Hu2. apply HQ; [|by eapply upd_trans]. rewrite <- app_assoc in Hp2.
    by rewrite Z.add_assoc.
Qed.

(** *** Committing the log *)

Hypothesis Hbps : nblocks <= bps < 2 ^ 64.

Lemma commit_cpfile_ok vb l s (Q : unit -> ms W -> Prop) : at_step vb l s ->
  (forall s', at_step vb l s' -> upd in_log s s' -> Q tt s') -> triple commit_cpfile Q s.
Proof using Hgeom.
  intros Hp0 HQ. pose proof (geometry_range _ _ _ Hgeom) as Hg. unfold commit_cpfile, deref.
  unfold cp_inodes_count_off, cp_blocks_count_off, cp_nblk_inc_off.
  assert (Hi := pr_inv _ _ _ _ _ _ Hp0). assert (Hm := pr_cpfile _ _ _ _ _ _ Hp0).
  wpe_step. wpe_step. rewrite (inv_fs _ _ _ Hi). wpe_step. wpe_step. wpe_step. wpe_step.
  wpe_step. eapply current_segment_ok; [done|apply fs_at_ok|].
  change (ni_checkpoint (fs_at vb)) with (Some checkpoint_ptr). unfold checkpoint_ptr, sizeof_checkpoint.
  store_step. intros s1 Hi1 Hu1. store_step. intros s2 Hi2 Hu2. cbn [fst] in *.
  eapply store_ok; [done|still_mapped|cbn; lia|cbn; lia|]. intros s3 Hi3 Hu3. cbn [fst] in *.
  assert (Hu : upd (eq cpfile_block) s s3) by eauto using upd_trans.
  apply HQ; [eapply prepared_upd; [exact Hp0|done|exact Hu|]|eapply upd_mono; [|exact Hu]];
    unfold raw_block, in_log; cbn; lia.
Qed.

Lemma commit_sufile_ok vb l s (Q : unit -> ms W -> Prop) : at_step vb l s ->
  (forall s', at_step vb l s' -> upd in_log s s' -> Q tt s') -> triple commit_sufile Q s.
Proof using Hgeom Hbps L.
  intros Hp0 HQ. pose proof (geometry_range _ _ _ Hgeom) as Hg. unfold commit_sufile.
  assert (Hi := pr_inv _ _ _ _ _ _ Hp0). destruct (pr_sufile _ _ _ _ _ _ Hp0) as [blk Hb].
  wpe_step. eapply (file_ok _ _ _ NILFS_SUFILE_INO 8); [done|apply fs_at_ok|done|done|reflexivity|reflexivity|].
  wpe_step. wpe_step. unfold blocksize. rewrite (inv_opts _ _ _ Hi). wpe_step. wpe_step. rewrite (inv_di _ _ _ Hi).
  wpe_step. eapply current_segment_ok; [done|apply fs_at_ok|]. cbn [mf_start_blocknr fst snd di_blocks_per_segment layout_of].
  pose proof (Z.div_le_mono 1024 bs 16 ltac:(lia) ltac:(lia)) as Hle. change (1024 / 16) with 64 in Hle.
  rewrite (Z.div_small sufile_block bps) by lia. change (u32 0) with 0.
  change (u64 (0 + NILFS_SUFILE_FIRST_SEGMENT_USAGE_OFFSET)) with 2. unfold sizeof_segment_usage.
  rewrite Z.div_small, Z.mod_small by lia. rewrite Z.add_0_r, u64_block by lia.
  wpe_step. eapply map_old; [done|exact Hb|]. intros s1 Hi1 Hu1. unfold su_lastmod_off, su_nblocks_off.
  assert (Hm1 : mapped sufile_block s1) by (exists blk; eapply upd_own; [exact Hu1|tauto|done]).
  wpe_step. eapply store_ok; [done|exact Hm1|cbn [snd shift]; lia|cbn [snd shift]; lia|]. intros s2 Hi2 Hu2.
  eapply store_ok; [done|cbn [fst shift] in *; still_mapped|cbn [snd shift]; lia|cbn [snd shift]; lia|].
  intros s3 Hi3 Hu3. cbn [fst shift] in *. assert (Hu : upd (eq sufile_block) s s3).
  { eapply upd_trans; [eapply upd_mono; [|exact Hu1]; done|]. by eapply upd_trans. }
  apply HQ; [eapply prepared_upd; [exact Hp0|done|exact Hu|]|eapply upd_mono; [|exact Hu]];
    unfold raw_block, in_log; cbn; lia.
Qed.

(** Blocks of the log but the first. *)
Definition behind (b : Z) : Prop := start < b <= sr_block.

Lemma crc_blocks_ok raws fs n : forall b sum s (Q : Z -> ms W -> Prop), inv raws fs s ->
  start <= b -> b + Z.of_nat n < nblocks ->
  (forall v s', inv raws fs s' -> upd behind s s' -> Q v s') -> triple (crc_blocks n b sum) Q s.
Proof using Hgeom L.
  pose proof (geometry_range _ _ _ Hgeom) as Hg.
  induction n as [|n IH]; intros b sum s Q Hi H0 H1 HQ; cbn [crc_blocks].
  - wpe_step. apply HQ; [done|apply upd_refl].
  - rewrite u64_block by lia. wpe_step. eapply map_new; [done|lia|]. intros s1 Hi1 Hu1 _ _ [blk Hb].
    wpe_step. wpe_step. unfold blocksize. rewrite (inv_opts _ _ _ Hi1).
    destruct (inv_wf _ _ _ Hi1 _ _ Hb) as [Hl _]. wpe_step.
    eapply (load_bytes_own _ _ _ blk blk); [exact Hb| |].
    { unfold rd_bytes. cbn [snd]. destruct (_ && _) eqn:Hc; [|lia]. f_equal. rewrite drop_0, take_ge; [done|lia]. }
    apply IH; [done|lia|lia|]. intros v s2 Hi2 Hu2. apply HQ; [done|].
    eapply upd_trans; [|exact Hu2]. eapply upd_mono; [|exact Hu1]. unfold behind. lia.
Qed.

(** The log with its checksums. *)
Record committed fs l s : Prop := {
  cm_inv : inv all_raws fs s;
  cm_sum : exists covered x, rd_bytes (put_fields l zeros) ss_sumsum_end (sumbytes - ss_sumsum_end) = Some covered /\
    holds start (l ++ [(ss_sumsum_off, 4%nat, crc32_le seed covered); (ss_datasum_off, 4%nat, x)]) s;
}.

Lemma fill_in_checksums_ok vb l s (Q : unit -> ms W -> Prop) : at_step vb l s ->
  (forall s', committed (fs_at vb) l s' -> upd in_log s s' -> Q tt s') ->
  triple (fill_in_checksums (segment_of all_raws) seed) Q s.
Proof using Hgeom Hbps L.
  intros Hp0 HQ. pose proof (geometry_range _ _ _ Hgeom) as Hg. destruct zeros_ok as [Hz _].
  assert (Hi := pr_inv _ _ _ _ _ _ Hp0). assert (Ho := pr_sum _ _ _ _ _ _ Hp0).
  destruct (pr_sr _ _ _ _ _ _ Hp0) as [srb Hsr].
  unfold fill_in_checksums, deref. wpe_step. wpe_step. rewrite (inv_fs _ _ _ Hi). wpe_step. wpe_step. wpe_step. wpe_step.
  wpe_step. wpe_step. unfold blocksize. rewrite (inv_opts _ _ _ Hi).
  cbn [si_sumbytes si_nblocks si_start_blocknr segment_of]. unfold sumbytes, ss_sumsum_end, ss_sumsum_off, ss_datasum_off.
  rewrite (u64_id (256 + 16 * ni - 8)) by (unfold is_u64; lia).
  assert (Hlen := put_fields_length l zeros bs Hz (proj2 Ho)).
  assert (exists cov, rd_bytes (put_fields l zeros) 8 (256 + 16 * ni - 8) = Some cov) as [cov Hcov].
  { unfold rd_bytes. destruct (_ && _) eqn:Hc; [by eexists|lia]. }
  wpe_step. eapply (load_bytes_own _ _ _ _ cov); [apply Ho|exact Hcov|].
  wpe_step. eapply store_holds; [done|exact Ho|cbn; lia|cbn; lia|]. cbn [fst snd]. intros s1 Hi1 Hu1 Ho1.
  assert (Hsr1 : own sr_block srb s1) by (eapply upd_own; [exact Hu1|cbn; lia|done]).
  destruct (inv_wf _ _ _ Hi1 _ _ Hsr1) as [Hls _]. unfold sr_sum_off.
  assert (exists root, rd_bytes srb (0 + 4) (NILFS_SR_BYTES - 4) = Some root) as [root Hroot].
  { unfold rd_bytes. change (NILFS_SR_BYTES - 4) with 396. destruct (_ && _) eqn:Hc; [by eexists|lia]. }
  wpe_step. eapply load_bytes_own; [exact Hsr1|exact Hroot|].
  wpe_step. eapply store_ok; [exact Hi1|by exists srb|cbn; lia|cbn; lia|]. cbn [fst]. intros s2 Hi2 Hu2.
  assert (Ho2 : holds start (l ++ [(4, 4%nat, crc32_le seed cov)]) s2) by (eapply holds_upd; [exact Hu2|cbn; lia|exact Ho1]).
  destruct (Z.eqb_spec (8 + ni) 0); [lia|]. wpe_step. eapply map_old; [done|apply Ho2|]. intros s3 Hi3 Hu3.
  assert (Ho3 : holds start (l ++ [(4, 4%nat, crc32_le seed cov)]) s3) by (eapply holds_upd; [exact Hu3|tauto|done]).
  assert (Hl3 := put_fields_length _ zeros bs Hz (proj2 Ho3)).
  assert (exists data, rd_bytes (put_fields (l ++ [(4, 4%nat, crc32_le seed cov)]) zeros) (0 + 4) (bs - 4) = Some data) as [data Hdata].
  { unfold rd_bytes. destruct (_ && _) eqn:Hc; [by eexists|lia]. }
  wpe_step. eapply load_bytes_own; [apply Ho3|exact Hdata|].
  wpe_step. eapply crc_blocks_ok; [done|lia|lia|]. intros v s4 Hi4 Hu4.
  assert (Ho4 : holds start (l ++ [(4, 4%nat, crc32_le seed cov)]) s4) by (eapply holds_upd; [exact Hu4|unfold behind; lia|done]).
  eapply store_holds; [exact Hi4|exact Ho4|cbn; lia|cbn; lia|]. cbn [fst snd]. intros s5 Hi5 Hu5 Ho5. apply HQ.
  - split; [done|]. exists cov, v. split; [exact Hcov|]. rewrite <- app_assoc in Ho5. exact Ho5.
  - assert (Hlog : in_log start) by (unfold in_log; lia).
    eapply upd_trans; [|eapply upd_trans; [|eapply upd_trans; [|eapply upd_trans]]]; (eapply upd_mono; [|eassumption]);
      unfold behind, in_log in *; cbn; intros; lia.
Qed.

(** The fields of the summary of the first log, and the state in the end. *)
Definition log_summary : list field := header_fields ++ log_fields base_files sizeof_segment_summary 1.

Definition last_ref : nilfs_segment_ref := mk_sref 0 start (count_free_blocks (layout_of all_raws)) 1.

Definition fs_done : nilfs_fs_info := set_ni_last_segment_ref last_ref (fs_at (4 + ni)).

Lemma commit_segment_ok s (Q : unit -> ms W -> Prop) : at_step 1 header_fields s ->
  (forall s', committed fs_done log_summary s' -> upd in_log s s' -> Q tt s') -> triple commit_segment Q s.
Proof using Hgeom Hbps L.
  intros Hp0 HQ. pose proof (geometry_range _ _ _ Hgeom) as Hg. assert (Hi := pr_inv _ _ _ _ _ _ Hp0).
  unfold commit_segment, deref. wpe_step. wpe_step. wpe_step. eapply current_segment_ok; [done|apply fs_at_ok|].
  wpe_step. rewrite (inv_fs _ _ _ Hi). wpe_step.
  change (length (si_files (segment_of all_raws))) with (length base_files).
  assert (Hvbs : sum_Z (file_vbs <$> base_files) = 3 + ni).
  { unfold base_files, file_vbs. cbn. destruct (Z.eqb_spec ni 0); [lia|]. cbn. lia. }
  wpe_step. eapply (update_blocknrs_ok base_files []); [done|exact Hp0| |done| |done|lia|].
  { unfold base_files. repeat constructor; cbn; lia. }
  { unfold base_files, file_room, sizeof_segment_summary. cbn. destruct (Z.eqb_spec ni 0); [lia|]. lia. }
  intros s1 Hp1 Hu1. rewrite Hvbs in Hp1. replace (1 + (3 + ni)) with (4 + ni) in Hp1 by lia.
  wpe_step. eapply commit_cpfile_ok; [exact Hp1|]. intros s2 Hp2 Hu2.
  wpe_step. eapply commit_sufile_ok; [exact Hp2|]. intros s3 Hp3 Hu3.
  wpe_step. wpe_step. rewrite (inv_di _ _ _ (pr_inv _ _ _ _ _ _ Hp3)).
  wpe_step. eapply current_segment_ok; [apply Hp3|apply fs_at_ok|].
  wpe_step. eapply fill_in_checksums_ok; [exact Hp3|]. intros s4 [Hi4 Hs4] Hu4. wpe_step.
  rewrite (inv_fs _ _ _ Hi4). apply HQ.
  - split; [by eapply inv_set_fs|exact Hs4].
  - eapply upd_trans; [|apply upd_set_fs]. eauto 10 using upd_trans.
Qed.

(** *** The superblock *)

Abbreviation sb_block := (NILFS_SB_OFFSET_BYTES / bs).
Abbreviation sb_off := (NILFS_SB_OFFSET_BYTES `mod` bs).

Lemma sb_place : 0 <= sb_block < start /\ 0 <= sb_off /\ sb_off + 1024 <= bs.
Proof using Hgeom Hbps.
  change NILFS_SB_OFFSET_BYTES with 1024. destruct Hgeom as [(-> & -> & _)|[(-> & -> & _)|(Hb & -> & _)]].
  - split_and!; by vm_compute.
  - split_and!; by vm_compute.
  - rewrite Z.div_small, Z.mod_small by lia. lia.
Qed.

Definition sb_zeros : list Z := replicate 1024 0.

(** The superblock in memory: zeros and some stores. *)
Definition sb_holds (l : list field) s : Prop :=
  m_sb s = Some (sb_block, sb_off) /\ Forall (field_inside 1024) l /\
  exists blk, own sb_block blk s /\ rd_bytes blk sb_off 1024 = Some (put_fields l sb_zeros).

Lemma sb_holds_upd P l s s' : upd P s s' -> ~ P sb_block -> sb_holds l s -> sb_holds l s'.
Proof using.
  intros Hu Hp (Hs & Hl & blk & Ho & Hr). split; [by rewrite (upd_sb _ _ _ Hu)|]. split; [done|].
  exists blk. split; [by eapply upd_own|done].
Qed.

(** Storing into a part of a buffer. *)
Lemma rd_put_inside blk off n sub k bytes : rd_bytes blk off n = Some sub -> 0 <= k ->
  k + Z.of_nat (length bytes) <= n -> rd_bytes (put_bytes blk (off + k) bytes) off n = Some (put_bytes sub k bytes).
Proof using.
  unfold rd_bytes. intros Hr Hk Hn. destruct (_ && _) eqn:Hc in Hr; [|done]. injection Hr as <-.
  apply andb_true_iff in Hc as [[H1%Z.leb_le H2%Z.leb_le]%andb_true_iff H3%Z.leb_le].
  rewrite put_bytes_length by lia. destruct (_ && _) eqn:Hc; [|lia]. f_equal.
  assert (Hlen : length (take (Z.to_nat n) (drop (Z.to_nat off) blk)) = Z.to_nat n)
    by (rewrite length_take, length_drop; lia).
  apply list_eq. intros i. rewrite put_bytes_lookup by lia. rewrite !lookup_take, !lookup_drop.
  destruct (decide (i < Z.to_nat n)%nat).
  - rewrite put_bytes_lookup by lia. repeat case_decide; (done || lia || f_equal; lia).
  - rewrite decide_False by lia. done.
Qed.

Lemma rd_bytes_prefix blk off n m sub : rd_bytes blk off n = Some sub -> 0 <= m <= n ->
  rd_bytes blk off m = Some (take (Z.to_nat m) sub).
Proof using.
  unfold rd_bytes. intros Hr Hm. destruct (_ && _) eqn:Hc in Hr; [|done]. injection Hr as <-.
  apply andb_true_iff in Hc as [[H1%Z.leb_le H2%Z.leb_le]%andb_true_iff H3%Z.leb_le].
  destruct (_ && _) eqn:Hc; [|lia]. rewrite take_take. do 2 f_equal. lia.
Qed.

Lemma sb_store_ok raws fs l s f v (Q : unit -> ms W -> Prop) : inv raws fs s -> sb_holds l s -> field_ok f ->
  (forall s', inv raws fs s' -> upd (eq sb_block) s s' ->
     sb_holds (l ++ [(f_off f, Z.to_nat (f_size f), v)]) s' -> Q tt s') ->
  triple (sb_store (sb_block, sb_off) f v) Q s.
Proof using Hgeom Hbps.
  intros Hi (Hs & Hl & blk & Ho & Hr) (F1 & F2 & F3) HQ. pose proof sb_place as (_ & P1 & P2).
  unfold NILFS_MAX_SB_SIZE in F3. unfold sb_store.
  eapply store_own; [exact Hi|exact Ho|cbn [snd]; lia|cbn [snd]; lia|]. cbn [fst snd]. intros s' Hi' Hu Ho'.
  apply HQ; [done|done|]. split; [by rewrite (upd_sb _ _ _ Hu)|]. split.
  { apply Forall_app. split; [done|]. repeat constructor; cbn; lia. }
  eexists. split; [exact Ho'|]. rewrite put_fields_app. unfold put_field at 1. cbn [fst snd].
  apply (rd_put_inside blk sb_off 1024 (put_fields l sb_zeros) (f_off f)); [done|lia|rewrite le_bytes_length; lia].
Qed.

Definition sb_values (l : list (sb_field * Z)) : list field :=
  (fun q : sb_field * Z => (f_off q.1, Z.to_nat (f_size q.1), q.2)) <$> l.

Lemma sb_stores_ok l : forall l0 raws fs s (Q : unit -> ms W -> Prop), inv raws fs s -> sb_holds l0 s ->
  Forall (fun q : sb_field * Z => field_ok q.1) l ->
  (forall s', inv raws fs s' -> upd (eq sb_block) s s' -> sb_holds (l0 ++ sb_values l) s' -> Q tt s') ->
  triple (sb_stores (sb_block, sb_off) l) Q s.
Proof using Hgeom Hbps.
  induction l as [|[f v] l IH]; intros l0 raws fs s Q Hi Ho Hf HQ; cbn [sb_stores].
  - wpe_step. apply HQ; [done|apply upd_refl|by rewrite app_nil_r].
  - apply Forall_cons in Hf as [Hf0 Hf]. wpe_step. eapply sb_store_ok; [done|done|done|]. intros s1 Hi1 Hu1 Ho1.
    eapply IH; [done|exact Ho1|done|]. intros s2 Hi2 Hu2 Ho2. apply HQ; [done|by eapply upd_trans|].
    rewrite <- app_assoc in Ho2. exact Ho2.
Qed.

(** Bytes as the value of a field. *)
Lemma le_bytes_value l : Forall is_u8 l -> le_bytes (length l) (le_value l) = l.
Proof using.
  induction 1 as [|b l Hb _ IH]; [done|]. unfold is_u8 in Hb. change (2 ^ 8) with 256 in Hb. cbn [length le_bytes le_value foldr].
  fold (le_value l). f_equal.
  - rewrite (Z.mul_comm 256), Z_mod_plus_full. by apply Z.mod_small.
  - rewrite (Z.mul_comm 256), Z.div_add, Z.div_small by lia. exact IH.
Qed.

Lemma sb_store_bytes_ok raws fs l s f bytes (Q : unit -> ms W -> Prop) : inv raws fs s -> sb_holds l s -> field_ok f ->
  Z.of_nat (length bytes) = f_size f -> Forall is_u8 bytes ->
  (forall s', inv raws fs s' -> upd (eq sb_block) s s' ->
     sb_holds (l ++ [(f_off f, Z.to_nat (f_size f), le_value bytes)]) s' -> Q tt s') ->
  triple (store_bytes (sb_block, sb_off) (f_off f) bytes) Q s.
Proof using Hgeom Hbps.
  intros Hi Ho Hf Hl Hu HQ. replace bytes with (le_bytes (Z.to_nat (f_size f)) (le_value bytes)) at 1.
  - exact (sb_store_ok raws fs l s f (le_value bytes) Q Hi Ho Hf HQ).
  - rewrite <- Hl, Nat2Z.id. by apply le_bytes_value.
Qed.

(** The fields that [prepare_super_block] and [commit_super_block] store. *)
Definition sb_prepared (uuid : list Z) : list field :=
  sb_values (initial_super_block (layout_of no_raws) o) ++
  [(f_off s_uuid, 16%nat, le_value uuid); (f_off s_volume_name, 80%nat, le_value (mo_volume_label o))].

Definition sb_committed (uuid : list Z) : list field :=
  sb_prepared uuid ++ sb_values [(s_last_cno, 1); (s_last_pseg, start); (s_last_seq, 0);
    (s_free_blocks_count, count_free_blocks (layout_of all_raws)); (s_wtime, ctime)].

Definition sb_crc (uuid : list Z) : Z := crc32_le seed (take 280 (put_fields (sb_committed uuid) sb_zeros)).

Definition sb_final (uuid : list Z) : list field := sb_committed uuid ++ [(f_off s_sum, 4%nat, sb_crc uuid)].

(** The superblock that is written. *)
Definition sb_image (uuid : list Z) : list Z := put_fields (sb_final uuid) sb_zeros.

Lemma initial_fields_ok : Forall (fun q : sb_field * Z => field_ok q.1) (initial_super_block (layout_of no_raws) o).
Proof using. unfold initial_super_block. repeat constructor; cbn; unfold NILFS_MAX_SB_SIZE; lia. Qed.

Hypothesis Hlabel : length (mo_volume_label o) = 80%nat /\ Forall is_u8 (mo_volume_label o).

Lemma prepare_super_block_ok fs s (Q : unit -> ms W -> Prop) : inv no_raws fs s ->
  (forall uuid s', inv no_raws fs s' -> length uuid = 16%nat -> Forall is_u8 uuid -> sb_holds (sb_prepared uuid) s' ->
     (forall b, mapped b s' -> mapped b s \/ b = sb_block) -> Q tt s') ->
  triple prepare_super_block Q s.
Proof using Hgeom Hbps Hlabel L.
  intros Hi HQ. pose proof (geometry_range _ _ _ Hgeom) as Hg. pose proof sb_place as (P0 & P1 & P2).
  unfold prepare_super_block. wpe_step. wpe_step. unfold blocksize. rewrite (inv_opts _ _ _ Hi).
  destruct (Z.ltb_spec bs NILFS_MAX_SB_SIZE) as [Hlt|_]; [unfold NILFS_MAX_SB_SIZE in Hlt; lia|].
  wpe_step. eapply map_new; [done|lia|]. intros s1 Hi1 Hu1 _ _ [blk Hb1]. wpe_step. wpe_step. unfold shift. cbn [fst snd].
  rewrite Z.add_0_l. change (Z.to_nat NILFS_MAX_SB_SIZE) with 1024%nat.
  assert (Hi2 : inv no_raws fs (set_sb (Some (sb_block, sb_off)) s1)) by (destruct Hi1; by split).
  set (s2 := set_sb (Some (sb_block, sb_off)) s1) in *.
  wpe_step. eapply (store_bytes_own no_raws fs _ 0 (replicate 1024 0) blk);
    [exact Hi2|exact Hb1|cbn [snd]; lia|rewrite length_replicate; cbn [snd]; lia|by apply Forall_replicate|].
  cbn [fst snd]. intros s3 Hi3 Hu3 Ho3.
  assert (Hs3 : sb_holds [] s3).
  { split; [by rewrite (upd_sb _ _ _ Hu3)|]. split; [constructor|]. eexists. split; [exact Ho3|].
    rewrite Z.add_0_r. destruct (inv_wf _ _ _ Hi2 _ _ Hb1) as [Hl _].
    pose proof (rd_bytes_put_eq blk sb_off sb_zeros P1 ltac:(unfold sb_zeros; rewrite length_replicate; lia)) as Hr.
    unfold sb_zeros in Hr at 2. rewrite length_replicate in Hr. exact Hr. }
  rewrite (inv_di _ _ _ Hi). wpe_step. eapply sb_stores_ok; [done|exact Hs3|apply initial_fields_ok|].
  intros s4 Hi4 Hu4 Ho4. wpe_step. unfold sys_call, wpe. destruct (ml_uuid_generate (disk := disk) (m_world s4)) as (Hw & Hul & Huu).
  destruct (me_uuid_generate (m_world s4)) as [uuid w] eqn:Huuid. cbn [fst snd] in Hw, Hul, Huu. fold (with_world w s4).
  assert (Hi5 : inv no_raws fs (with_world w s4)) by (apply inv_with_world; [done|]; rewrite Hw; apply Hi4).
  assert (Ho5 : sb_holds (sb_values (initial_super_block (layout_of no_raws) o)) (with_world w s4)) by exact Ho4.
  fold (triple (store_bytes (sb_block, sb_off) (f_off s_uuid) uuid ;; store_bytes (sb_block, sb_off) (f_off s_volume_name) (mo_volume_label o)) Q (with_world w s4)).
  wpe_step. eapply sb_store_bytes_ok; [exact Hi5|exact Ho5|field_side|cbn; lia|done|]. intros s6 Hi6 Hu6 Ho6.
  eapply sb_store_bytes_ok; [exact Hi6|exact Ho6|field_side|cbn; lia|apply Hlabel|]. intros s7 Hi7 Hu7 Ho7.
  apply (HQ uuid); [done|done|done| |].
  - rewrite <- app_assoc in Ho7. exact Ho7.
  - intros b [blk' Hb']. destruct (Z.eq_dec b sb_block) as [->|Hne]; [by right|]. left. exists blk'.
    assert (Hu27 : upd (eq sb_block) s2 s7).
    { eapply upd_trans; [exact Hu3|]. eapply upd_trans; [exact Hu4|]. eapply upd_trans; [apply (upd_with_world _ w)|].
      by eapply upd_trans. }
    eapply (upd_own_inv _ s s1); [exact Hu1|cbn; lia|]. eapply (upd_own_inv _ s2 s7) in Hb'; [exact Hb'|exact Hu27|cbn; lia].
Qed.

Lemma commit_super_block_ok uuid s (Q : unit -> ms W -> Prop) : inv all_raws fs_done s -> sb_holds (sb_prepared uuid) s ->
  (forall s', inv all_raws fs_done s' -> upd (eq sb_block) s s' -> sb_holds (sb_final uuid) s' -> Q tt s') ->
  triple commit_super_block Q s.
Proof using Hgeom Hbps Hlabel.
  intros Hi Ho HQ. pose proof (geometry_range _ _ _ Hgeom) as Hg. pose proof sb_place as (P0 & P1 & P2).
  unfold commit_super_block, deref. wpe_step. wpe_step. wpe_step. rewrite (proj1 Ho). wpe_step.
  rewrite (inv_fs _ _ _ Hi), (inv_di _ _ _ Hi).
  wpe_step. eapply sb_stores_ok; [done|exact Ho| |].
  { repeat constructor; cbn; unfold NILFS_MAX_SB_SIZE; lia. }
  intros s1 Hi1 Hu1 Ho1. destruct Ho1 as (Hs1 & Hl1 & blk & Hb1 & Hr1).
  fold (sb_committed uuid) in Hl1, Hr1.
  assert (Hrd : rd_bytes blk (sb_off + 0) NILFS_SB_BYTES = Some (take 280 (put_fields (sb_committed uuid) sb_zeros))).
  { rewrite Z.add_0_r. apply (rd_bytes_prefix blk sb_off 1024); [exact Hr1|by vm_compute]. }
  wpe_step. eapply load_bytes_own; [exact Hb1|exact Hrd|]. cbn [di_crc_seed layout_of].
  eapply sb_store_ok; [done| |field_side|].
  - split; [exact Hs1|]. split; [exact Hl1|]. exists blk. split; [exact Hb1|exact Hr1].
  - intros s2 Hi2 Hu2 Ho2. apply HQ; [done|by eapply upd_trans|exact Ho2].
Qed.
End Build.
