(* ===== verification/MkfsBuild.v ===== *)
(** * mkfs until the image is complete

    The options that are let through, the choice of the layout, reading the
    header of the device, and the image of the first log and the superblock
    in memory: how the program ends before it writes anything. *)

From Stdlib Require Import String.
From S2P Require Import Prelude Vector Hoare Ondisk Fields Crc32 Sb Kernel Nilfs Parser Ismounted Disk Feature Segment Bitops Tune Mkfs MkfsSpec.

(** ** Options and devices *)

(** The options that [parse_options] lets through. *)
Record valid_options (o : mkfs_options) : Prop := {
  vo_blocksize : mo_blocksize o ∈ [1024; 2048; 4096; 8192; 16384; 32768; 65536];
  vo_bps : 16 <= mo_blocks_per_segment o < 2 ^ 63;
  vo_percentage : 1 <= mo_r_segments_percentage o <= 99;
  vo_label : length (mo_volume_label o) = 80%nat /\ Forall is_u8 (mo_volume_label o);
  vo_compat : sets (mo_compat_array o);
  vo_features : forall t n, t ∈ types -> has (mo_compat_array o) t n = true -> t = 1 /\ n = O;
}.

(** What the loop over the options keeps. *)
Record parsed_options (o : mkfs_options) : Prop := {
  po_blocksize : mo_blocksize o ∈ [1024; 2048; 4096; 8192; 16384; 32768; 65536];
  po_bps : is_u64 (mo_blocks_per_segment o);
  po_percentage : is_u64 (mo_r_segments_percentage o);
  po_label : length (mo_volume_label o) = 80%nat /\ Forall is_u8 (mo_volume_label o);
  po_compat : mo_compat_array o = [0; NILFS_FEATURE_COMPAT_RO_BLOCK_COUNT; 0];
}.

Lemma power_of_two n : 0 < n -> Z.land (n - 1) n = 0 -> n = 2 ^ Z.log2 n.
Proof.
  intros Hn Hl. pose proof (Z.log2_spec n Hn) as [H1 H2]. pose proof (Z.log2_nonneg n) as H0.
  destruct (Z.eq_dec n (2 ^ Z.log2 n)) as [|Hne]; [done|]. exfalso.
  assert (Hb : Z.testbit (Z.land (n - 1) n) (Z.log2 n) = true).
  { rewrite Z.land_spec, Z.bit_log2, andb_true_r by done. rewrite <- (Z.log2_unique (n - 1) (Z.log2 n)) by lia.
    apply Z.bit_log2. assert (0 < 2 ^ Z.log2 n) by (apply Z.pow_pos_nonneg; lia). lia. }
  by rewrite Hl, Z.bits_0 in Hb.
Qed.

Lemma blocksize_checked {W} {E : MkfsEnv W} bs : me_pagesize <= 65536 -> is_i64 bs -> check_blocksize bs = true ->
  u64 bs ∈ [1024; 2048; 4096; 8192; 16384; 32768; 65536].
Proof.
  unfold check_blocksize, NILFS_MIN_BLOCKSIZE. intros Hp Hr [[H1%Z.ltb_ge H2%Z.ltb_ge]%orb_false_iff H3%negb_false_iff%Z.eqb_eq]%negb_true_iff%orb_false_iff.
  unfold is_i64 in Hr. rewrite i64_id in H3 by (unfold is_i64; lia). rewrite u64_id by (unfold is_u64; lia).
  apply power_of_two in H3; [|lia]. pose proof (Z.log2_nonneg bs) as H0. set (k := Z.log2 bs) in *. clearbody k. subst bs.
  assert (Hlo : 10 <= k) by (apply (Z.pow_le_mono_r_iff 2); [lia|lia|exact H2]).
  assert (Hhi : k <= 16) by (apply (Z.pow_le_mono_r_iff 2); [lia|lia|change (2 ^ 16) with 65536; lia]).
  assert (k = 10 \/ k = 11 \/ k = 12 \/ k = 13 \/ k = 14 \/ k = 15 \/ k = 16) as [->|[->|[->|[->|[->|[->| ->]]]]]] by lia;
    cbn; set_solver.
Qed.

Lemma atol_range s : is_i64 (atol s).
Proof.
  unfold atol, is_i64, LONG_MIN, LONG_MAX. destruct (match skip_spaces s with 45 :: s' => _ | _ => _ end) as [neg s'].
  pose proof (strto_digits_nonneg 10 s' 0 ltac:(lia) ltac:(lia)) as Hn. destruct neg; lia.
Qed.

Lemma sys_call_wpe {W A : Type} (f : W -> A * W) (s : ms W) (Q : A -> ms W -> Prop) E X :
  Q (f (m_world s)).1 (with_world (f (m_world s)).2 s) -> wpe (sys_call f) Q E X s.
Proof. unfold wpe, sys_call, with_world. by destruct (f (m_world s)). Qed.

Lemma malloc_wpe {W : Type} {E : MkfsEnv W} {disk : W -> list Z} {L : MkfsLaws E disk} n (s : ms W)
  (Q : unit + Z -> ms W -> Prop) F X :
  (forall r w, disk w = disk (m_world s) -> Q r (with_world w s)) -> wpe (attempt (m_malloc n)) Q F X s.
Proof.
  intros HQ. wpe_step. unfold m_malloc, wpe, malloc, ms_alloc. pose proof (dl_alloc (disk := disk) n (m_world s)) as Ha.
  destruct (malloc n (m_world s)) as [[] w]; by apply HQ.
Qed.

Section Options.
Context {W : Type} {E : MkfsEnv W} {disk : W -> list Z} {L : MkfsLaws E disk}.
Context (d : list Z).
Implicit Types s : ms W.

(** Before the device is opened: it is as it was, and the program ends with
    status 0 or 1. *)
Definition ended (c : Z) s : Prop := (c = EXIT_SUCCESS \/ c = EXIT_FAILURE) /\ disk (m_world s) = d.
Definition parsed s : Prop := disk (m_world s) = d /\ parsed_options (m_opts s).
Abbreviation triple m Q s := (wpe m Q (fun _ _ => False) ended s).

Lemma perr_ended {A} (Q : A -> ms W -> Prop) s : disk (m_world s) = d -> triple perr Q s.
Proof using. intros Hd. split; [by right|done]. Qed.

Lemma parse_option_parsed c arg s (Q : unit -> ms W -> Prop) : parsed s -> Forall is_u8 arg ->
  (forall s', parsed s' -> Q tt s') -> triple (parse_option c arg) Q s.
Proof using L.
  intros [Hd [H1 H2 H3 H4 H5]] Ha HQ. unfold parse_option, modify_opts.
  assert (Hkeep : forall f, parsed_options (f (m_opts s)) -> triple (modify_opts f) Q s).
  { intros f Hf. unfold modify_opts. wpe_step. apply HQ. by split. }
  destruct (c =? 98).
  { wpe_step. wpe_step. destruct (check_blocksize (atol arg)) eqn:Hc; [|by apply perr_ended]. wpe_step. apply HQ.
    split; [done|]. split; try done. apply blocksize_checked; [apply ml_pagesize|apply atol_range|done]. }
  repeat (match goal with |- context [if c =? ?n then _ else _] => destruct (c =? n) end;
    [first [ apply Hkeep; split; try done; solve [apply u64_range | by apply strncpy_spec]
           | split; [auto|done] | idtac ]|]);
  try (apply Hkeep; by split); try (split; [auto|done]).
  wpe_step. wpe_step. wpe_step. apply sys_call_wpe. wpe_step. apply HQ. split; [|by split].
  by rewrite <- Hd; cbn; rewrite ml_time.
Qed.

Lemma parse_option_loop_parsed argv : byte_args argv -> forall s (Q : unit -> ms W -> Prop), parsed s ->
  (forall s', parsed s' -> Q tt s') -> triple (parse_option_loop argv) Q s.
Proof using L.
  induction 1 as [|[c arg] argv Ha _ IH]; intros s Q Hs HQ; cbn [parse_option_loop].
  - wpe_step. by apply HQ.
  - wpe_step. apply parse_option_parsed; [done|done|]. intros s1 Hs1. by apply IH.
Qed.

Definition checked s : Prop := disk (m_world s) = d /\ valid_options (m_opts s).

Lemma parsed_valid o arr : parsed_options o -> check_blocks_per_segment (i64 (mo_blocks_per_segment o)) = true ->
  check_reserved_segments_percentage (i64 (mo_r_segments_percentage o)) = true ->
  gains (Some ok_features) (mo_compat_array o) arr -> valid_options (set_mo_compat_array arr o).
Proof using.
  unfold check_blocks_per_segment, check_reserved_segments_percentage, NILFS_SEG_MIN_BLOCKS.
  intros [H1 H2 H3 H4 H5] [Hb _]%negb_true_iff%orb_false_iff [Hlo Hhi]%negb_true_iff%orb_false_iff [Hsets Hg].
  apply Z.ltb_ge in Hb, Hlo, Hhi. unfold is_u64, i64 in *. split; [done|cbn; word_lia|cbn; word_lia|done|done|].
  intros t n Ht Hn. rewrite H5 in Hg. specialize (Hg t n Ht Hn). cbn [may ok_features] in Hg.
  assert (Hh : has [0; NILFS_FEATURE_COMPAT_RO_BLOCK_COUNT; 0] t n = true) by tauto. clear Hg Hn.
  unfold has, types in *. rewrite !elem_of_cons, elem_of_nil in Ht. destruct Ht as [->|[->|[->|[]]]]; cbn in Hh.
  - by rewrite Z.bits_0 in Hh.
  - split; [done|]. by destruct n.
  - by rewrite Z.bits_0 in Hh.
Qed.

Lemma parse_options_checked argv rest s (Q : unit -> ms W -> Prop) : byte_args argv -> parsed s ->
  (forall s', checked s' -> Q tt s') -> triple (parse_options argv rest) Q s.
Proof using L.
  intros Ha Hs HQ. unfold parse_options. wpe_step. apply parse_option_loop_parsed; [done|done|]. intros s1 [Hd1 Hp1].
  wpe_step. unfold modify_opts at 1. wpe_step. wpe_step. wpe_step.
  set (o := m_opts (set_opts _ s1)). set (s2 := set_opts _ s1) in *.
  assert (Hp : parsed_options o) by (subst o; cbn; destruct (mo_quiet (m_opts s1)); [destruct Hp1; by split|done]).
  destruct (_ && _); [by split; [right|]|]. destruct (mo_show_version_only o); [by split; [left|]|].
  destruct (check_blocks_per_segment _) eqn:Hb; [|by apply perr_ended]. cbn [negb].
  destruct (check_reserved_segments_percentage _) eqn:Hr; [|by apply perr_ended]. cbn [negb].
  assert (Hsets : sets (mo_compat_array o)) by (by rewrite (po_compat o Hp)).
  destruct (mo_fs_features o) as [str|] eqn:Hf.
  - unfold nilfs_mkfs_edit_feature. wpe_step. apply malloc_wpe. intros r w Hw. wpe_step. wpe_step.
    change (m_opts (with_world w s2)) with o.
    match goal with |- context [nilfs_edit_feature ?mem _ _ _ _] =>
      destruct (edit_feature_gains mem str (Some ok_features) None (mo_compat_array o)) as (res & arr & -> & Hg); [done..|] end.
    destruct res; [|by apply perr_ended; cbn; rewrite Hw]. unfold modify_opts. wpe_step. apply HQ.
    split; [by cbn; rewrite Hw|]. by apply parsed_valid.
  - wpe_step. apply HQ. split; [done|]. change (m_opts s2) with o.
    replace o with (set_mo_compat_array (mo_compat_array o) o) by (by destruct o). apply parsed_valid; [done..|]. by split; [|auto].
Qed.

(** The dialogue ends, since every question takes a character. *)
Lemma clear_input_length input : (length (clear_input_buffer input) <= length input)%nat.
Proof using. induction input as [|c input IH]; cbn; [done|]. case_if; lia. Qed.

Lemma confirm_format_ends fuel : forall input, (length input < fuel)%nat -> is_Some (confirm_format fuel input).
Proof using.
  induction fuel as [|fuel IH]; intros input Hf; [lia|]. cbn [confirm_format]. destruct input as [|c input]; [by eexists|].
  cbn [next_char]. destruct (c =? 10); [by eexists|]. destruct (next_char input) as [c_next input'] eqn:Hn.
  case_if; [by eexists|]. case_if; [by eexists|]. apply IH.
  assert (length input' <= length input)%nat by (destruct input; injection Hn as <- <-; cbn; lia).
  pose proof (clear_input_length input'). cbn in Hf. destruct (at_line_end c_next); lia.
Qed.

Lemma sys_call_checked {A} (f : W -> A * W) s (Q : A -> ms W -> Prop) : checked s -> (forall w, disk (f w).2 = disk w) ->
  (forall a s', checked s' -> Q a s') -> triple (sys_call f) Q s.
Proof using.
  intros [Hd Ho] Hf HQ. apply sys_call_wpe, HQ. split; [|done]. by rewrite <- Hd; cbn.
Qed.

Lemma check_mount_checked device s (Q : bool + Z -> ms W -> Prop) : checked s -> (forall r s', checked s' -> Q r s') ->
  triple (attempt (sys_lib (check_mount device))) Q s.
Proof using L.
  intros [Hd Ho] HQ. pose proof (check_mount_quiet disk device (m_world s)) as Hq. unfold wp in Hq. unfold wpe, attempt, sys_lib.
  destruct (check_mount device (m_world s)) as [[b|e| | |] w]; try done; (apply HQ; split; [by rewrite <- Hd|done]).
Qed.

Lemma disk_scan_checked device s (Q : unit -> ms W -> Prop) : checked s -> (forall s', checked s' -> Q tt s') ->
  triple (disk_scan device) Q s.
Proof using L.
  intros Hs HQ. unfold disk_scan. wpe_step. apply sys_call_checked; [done|apply ml_badblocks|]. intros [] s1 Hs1; cbn [negb].
  - wpe_step. wpe_step. wpe_step. apply sys_call_checked; [done|apply ml_run_badblocks|]. intros a s2 Hs2.
    destruct a as [| | |status]; [by apply perr_ended, Hs2..|].
    destruct (status =? 0); [|by apply perr_ended, Hs2]. wpe_step. by apply HQ.
  - wpe_step. by apply HQ.
Qed.

Lemma check_safety_checked device s (Q : unit -> ms W -> Prop) : checked s -> (forall s', checked s' -> Q tt s') ->
  triple (check_safety_of_device_overwrite device) Q s.
Proof using L.
  intros Hs HQ. unfold check_safety_of_device_overwrite. wpe_step. wpe_step.
  destruct device; [wpe_step; by apply HQ|]. destruct (mo_force_overwrite _); [wpe_step; by apply HQ|].
  wpe_step. apply sys_call_checked; [done|apply ml_blkid|]. intros a s1 Hs1.
  destruct (found_signature a); [|wpe_step; by apply HQ]. wpe_step. wpe_step.
  destruct (confirm_format_ends (Datatypes.S (length (me_input (m_world s1)))) (me_input (m_world s1))) as [[] ->]; [lia| |].
  - wpe_step. by apply HQ.
  - by apply perr_ended, Hs1.
Qed.

Lemma open_device_checked argv rest device s (Q : Z -> ms W -> Prop) : byte_args argv -> parsed s ->
  (forall fd s', checked s' -> Q fd s') -> triple (open_device argv rest device) Q s.
Proof using L.
  intros Ha Hs HQ. unfold open_device. wpe_step. apply parse_options_checked; [done|done|]. intros s1 Hs1.
  wpe_step. apply sys_call_checked; [done|apply ml_stat|]. intros r s2 Hs2.
  assert (Hgo : forall s', checked s' -> triple (
    let* r := attempt (sys_lib (check_mount device)) in
    match r with
    | inr _ | inl true => perr
    | inl false =>
      let* r := sys_call me_open in
      match r with
      | inr _ => perr
      | inl fd => check_safety_of_device_overwrite device ;; ret fd
      end
    end) Q s').
  { intros s' Hs'. wpe_step. apply check_mount_checked; [done|]. intros m s3 Hs3.
    destruct m as [[]|]; [by apply perr_ended, Hs3| |by apply perr_ended, Hs3].
    wpe_step. apply sys_call_checked; [done|apply ml_open|]. intros f s4 Hs4.
    destruct f as [fd|]; [|by apply perr_ended, Hs4]. wpe_step. apply check_safety_checked; [done|].
    intros s5 Hs5. wpe_step. by apply HQ. }
  destruct r as [[]|]; [| |by apply perr_ended, Hs2|by apply perr_ended, Hs2];
    (wpe_step; wpe_step; wpe_step; destruct (negb _); [apply disk_scan_checked; [done|exact Hgo]|wpe_step; by apply Hgo]).
Qed.
End Options.

(** The number of segments on a device of [size] bytes, and whether they are
    enough. *)
Definition segments_on (o : mkfs_options) (size : Z) : Z :=
  NILFS_SB2_OFFSET_BYTES size / mo_blocksize o / mo_blocks_per_segment o.

Definition fits (o : mkfs_options) (size : Z) : Prop :=
  nilfs_min_nsegments (segments_on o size) (mo_r_segments_percentage o) <= segments_on o size.

Lemma blocksize_cases o : valid_options o -> exists start ni, geometry (mo_blocksize o) start ni /\
  u64 (u64 (NILFS_DISKHDR_SIZE + mo_blocksize o) - 1) / mo_blocksize o = start /\
  mo_blocksize o = 2 ^ my_log2 (i64 (mo_blocksize o)) /\ 10 <= my_log2 (i64 (mo_blocksize o)) <= 16.
Proof.
  intros [Hb _ _ _ _ _]. unfold geometry. rewrite !elem_of_cons, elem_of_nil in Hb.
  destruct Hb as [->|[->|[->|[->|[->|[->|[->|[]]]]]]]].
  - exists 4, 4. split; [tauto|]. by vm_compute.
  - exists 2, 3. split; [tauto|]. by vm_compute.
  - exists 1, 3. split; [tauto|]. by vm_compute.
  - exists 1, 3. split; [tauto|]. by vm_compute.
  - exists 1, 3. split; [tauto|]. by vm_compute.
  - exists 1, 3. split; [tauto|]. by vm_compute.
  - exists 1, 3. split; [tauto|]. by vm_compute.
Qed.

(** What is decided before a block is built. *)
Record decided (o : mkfs_options) (size start ni bits ctime seed : Z) : Prop := {
  dc_geometry : geometry (mo_blocksize o) start ni;
  dc_bits : mo_blocksize o = 2 ^ bits /\ 10 <= bits <= 16;
  dc_fits : fits o size;
  dc_seed : is_u32 seed;
  dc_ctime : mo_creation_time o <> 0 -> ctime = mo_creation_time o;
}.

Lemma first_mrand48_range t : is_u32 (first_mrand48 t).
Proof.
  unfold first_mrand48, is_u32. rewrite Z.shiftr_div_pow2 by lia.
  match goal with |- context [?x `mod` 2 ^ 48] => pose proof (Z.mod_pos_bound x (2 ^ 48) ltac:(lia)) end.
  split; [apply Z.div_pos; lia|]. apply Z.div_lt_upper_bound; [lia|]. change (2 ^ 16 * 2 ^ 32) with (2 ^ 48). lia.
Qed.

Lemma add_file_to_length bs si ino n f : length (si_files (add_file_to bs si ino n f)) = Datatypes.S (length (si_files si)).
Proof. unfold add_file_to. case_if; cbn [si_files]; rewrite length_app; cbn; lia. Qed.

Section Layout.
Context {W : Type} {E : MkfsEnv W} {disk : W -> list Z} {L : MkfsLaws E disk}.
Context (d : list Z) (o : mkfs_options).
Hypothesis Hvalid : valid_options o.
Hypothesis Hsize : Z.of_nat (length d) < 2 ^ 63.
Abbreviation size := (Z.of_nat (length d)).
Implicit Types s : ms W.

(** A device that is refused, or an environment that fails, before anything
    is written. *)
Definition refused (c : Z) s : Prop :=
  c = EXIT_FAILURE /\ disk (m_world s) = d /\ (~ healthy (E := E) disk \/ ~ fits o size).

Lemma failed_refused c s : failed (disk := disk) d c s -> refused c s.
Proof using. intros (H1 & H2 & H3). split; [done|]. split; [done|]. by left. Qed.

Abbreviation triple m Q s := (wpe m Q (fun _ _ => False) refused s).

Definition start_state s : Prop := disk (m_world s) = d /\ m_opts s = o.

(** A call that reads the system. *)
Lemma sys_call_ok {A} (f : W -> A * W) s (Q : A -> ms W -> Prop) : start_state s ->
  (forall w, disk (f w).2 = disk w) ->
  (forall a s', a = (f (m_world s)).1 -> start_state s' -> m_di s' = m_di s -> Q a s') -> triple (sys_call f) Q s.
Proof using.
  intros [Hd Ho] Hf HQ. unfold sys_call, wpe. specialize (Hf (m_world s)). destruct (f (m_world s)) as [a w] eqn:Hr.
  apply HQ; [done| |done]. split; [|done]. cbn in *. congruence.
Qed.

Lemma fstat_disk fd w : disk (dev_fstat fd w).2 = disk w.
Proof using L. by destruct (dl_fstat fd w _ _ (surjective_pairing _)). Qed.

Lemma getsize_disk fd w : disk (dev_getsize64 fd w).2 = disk w.
Proof using L. by destruct (dl_getsize64 fd w _ _ (surjective_pairing _)). Qed.

(** The size of the device. *)
Lemma get_size_ok fd s (Q : Z -> ms W -> Prop) : start_state s ->
  (forall s', start_state s' -> Q size s') ->
  triple (get_dev_size fd) Q s.
Proof using Hsize L.
  intros Hs HQ. unfold get_dev_size. wpe_step. apply sys_call_ok; [done|apply fstat_disk|]. intros r s1 Hr Hs1 _.
  destruct (dl_fstat fd (m_world s) _ _ (surjective_pairing _)) as [_ Hf]. rewrite <- Hr in Hf.
  destruct r as [[[] n]|e]; cbv beta iota.
  - wpe_step. apply sys_call_ok; [done|apply getsize_disk|]. intros r2 s2 Hr2 Hs2 _.
    destruct (dl_getsize64 fd (m_world s1) _ _ (surjective_pairing _)) as [_ Hg]. rewrite <- Hr2 in Hg.
    destruct r2 as [m|e]; cbv beta iota.
    + wpe_step. rewrite (Hg m eq_refl), (proj1 Hs1). by apply HQ.
    + split; [done|]. split; [apply Hs2|]. left. intros [_ _ Hok _ _ _].
      destruct (Hok fd (m_world s) n (m_world s1) (eq_sym Hr)) as [r Hr3]. congruence.
  - wpe_step. rewrite (Hf n eq_refl), (proj1 Hs), u64_id by (unfold is_u64; lia). by apply HQ.
  - destruct (ml_kind fd (m_world s) n (dev_fstat fd (m_world s)).2). rewrite Hr. by destruct (dev_fstat fd (m_world s)).
  - split; [done|]. split; [apply Hs1|]. left. intros [_ Hok _ _ _ _].
    destruct (Hok fd (m_world s)) as [r Hr3]. congruence.
Qed.

(** The segment while files are added. *)
Definition with_segment (si : nilfs_segment_info) s : ms W := set_di (set_di_seginfo [si] (m_di s)) s.

Lemma add_file_ok si s ino n f (Q : unit -> ms W -> Prop) : m_opts s = o ->
  (length (si_files si) < 16)%nat -> ino < 11 ->
  Q tt (with_segment (add_file_to (mo_blocksize o) si ino n f) s) -> triple (add_file ino n f) Q (with_segment si s).
Proof using.
  intros Ho Hl Hi HQ. unfold add_file, deref. wpe_step. wpe_step. wpe_step. wpe_step.
  unfold MAX_FILES, NILFS_MAX_INITIAL_INO, NILFS_USER_INO.
  destruct (Z.leb_spec 16 (Z.of_nat (length (si_files si)))); [lia|]. destruct (Z.leb_spec 11 ino); [lia|].
  wpe_step. unfold blocksize. cbn [m_opts with_segment set_di]. rewrite Ho. exact HQ.
Qed.

Abbreviation bps := (mo_blocks_per_segment o).

(** What [init_disk_layout] leaves. *)
Definition first_layout (start bits ctime seed : Z) (di : nilfs_disk_info) : Prop :=
  exists n u t, di = mk_di size bits ctime seed bps (segments_on o size) start n u t [].

Lemma segments_shift start ni : geometry (mo_blocksize o) start ni ->
  Z.shiftr (NILFS_SB2_OFFSET_BYTES size) (my_log2 (i64 (mo_blocksize o))) / bps = segments_on o size.
Proof using Hvalid.
  destruct (blocksize_cases o Hvalid) as (_ & _ & _ & _ & Hb & Hr). intros _.
  unfold segments_on. rewrite Z.shiftr_div_pow2 by lia. by rewrite <- Hb.
Qed.

Lemma init_disk_layout_ok fd s (Q : unit -> ms W -> Prop) : start_state s ->
  (forall start ni bits ctime seed s', start_state s' -> first_layout start bits ctime seed (m_di s') ->
     decided o size start ni bits ctime seed -> Q tt s') ->
  triple (init_disk_layout fd) Q s.
Proof using Hvalid Hsize L.
  intros Hs HQ. destruct (blocksize_cases o Hvalid) as (start & ni & Hg & Hstart & Hb & Hr).
  pose proof (geometry_range _ _ _ Hg) as Hgr. destruct (vo_bps o Hvalid) as [Hbps _].
  unfold init_disk_layout. wpe_step. apply sys_call_ok; [done|apply ml_time|]. intros time s1 _ Hs1 _.
  wpe_step. apply get_size_ok; [done|]. intros s2 Hs2. wpe_step. wpe_step. rewrite (proj2 Hs2), Hstart.
  unfold NILFS_PSEG_MIN_BLOCKS. rewrite u64_id by (unfold is_u64; lia).
  destruct (Z.ltb_spec bps (start + 2)); [lia|]. rewrite (segments_shift start ni Hg).
  destruct (Z.ltb_spec (segments_on o size) (nilfs_min_nsegments (segments_on o size) (mo_r_segments_percentage o))) as [Hlt|Hge].
  { split; [done|]. split; [apply Hs2|]. right. unfold fits. lia. }
  wpe_step. eapply (HQ start ni); [exact Hs2|by do 3 eexists|]. split; [done|by rewrite <- Hb|exact Hge|apply first_mrand48_range|].
  intros Hc. by destruct (Z.eqb_spec (mo_creation_time o) 0).
Qed.

(** The files added to the new segment, for each size of a block. *)
Lemma built_segment start ni : geometry (mo_blocksize o) start ni -> 
  let bs := mo_blocksize o in
  let si0 := mk_si start 0 0 sizeof_segment_summary (u32 (DIV_ROUND_UP sizeof_segment_summary bs)) [] 0 in
  let add ino n f si := add_file_to bs si ino n f in
  let si1 := add 10 0 false (add 9 0 false (add 8 0 false (add 1 0 false
               (add NILFS_ATIME_INO 0 false (add NILFS_ROOT_INO 1 false si0))))) in
  let si2 := add NILFS_SUFILE_INO (count_sufile_blocks bs) false
               (add NILFS_CPFILE_INO (count_cpfile_blocks bs) false (add NILFS_IFILE_INO ni false si1)) in
  count_ifile_blocks bs = Some ni /\ count_dat_blocks bs (si_nvblocknrs si2) = Some 3 /\
  add NILFS_DAT_INO 3 true si2 =
    mk_si start (6 + ni) 5 (sumbytes ni) 1
      ((fun b : Z * Z * Z => mk_fi b.1.1 0 b.2 None) <$> base_files start ni) (3 + ni).
Proof using.
  intros [(-> & -> & ->)|[(-> & -> & ->)|(Hb & -> & ->)]]; [by vm_compute..|].
  destruct Hb as [->|[->|[->|[->| ->]]]]; by vm_compute.
Qed.

Lemma fixed_files start ni : geometry (mo_blocksize o) start ni ->
  fix_files ((fun b : Z * Z * Z => mk_fi b.1.1 0 b.2 None) <$> base_files start ni) (u64 (start + 1)) 0 =
  (files_of start ni no_raws, 1 + ni) /\ u32 (6 + ni + u32 (1 + 1)) = 8 + ni /\ u64 (start + (8 + ni)) = start + 8 + ni.
Proof using.
  intros [(_ & -> & ->)|[(_ & -> & ->)|(_ & -> & ->)]]; by vm_compute.
Qed.

Lemma layout_ok fd s (Q : unit -> ms W -> Prop) : start_state s ->
  (forall start ni bits ctime seed tw s', start_state s' ->
     m_di s' = layout_of start ni size bits ctime seed bps (segments_on o size) tw no_raws ->
     decided o size start ni bits ctime seed -> Q tt s') ->
  triple (decide_layout fd) Q s.
Proof using Hvalid Hsize L.
  intros Hs HQ. unfold decide_layout. wpe_step. apply init_disk_layout_ok; [done|]. intros start ni bits ctime seed s1 Hs1 (n & u & t & Hdi) Hdec.
  assert (Hg := dc_geometry _ _ _ _ _ _ _ Hdec). destruct (built_segment start ni Hg) as (Hif & Hdat & Hsi).
  unfold new_segment. wpe_step. wpe_step. wpe_step. rewrite Hdi. cbn [di_seginfo di_first_segment_block].
  unfold blocksize. rewrite (proj2 Hs1). wpe_step. rewrite <- Hdi.
  fold (with_segment (mk_si start 0 0 sizeof_segment_summary (u32 (DIV_ROUND_UP sizeof_segment_summary (mo_blocksize o))) [] 0) s1).
  wpe_step. unfold add_files. wpe_step. wpe_step. unfold blocksize. cbn [m_opts with_segment set_di]. rewrite (proj2 Hs1).
  do 6 (wpe_step; eapply add_file_ok; [apply Hs1|rewrite ?add_file_to_length; cbn; lia|done|]).
  rewrite Hif. wpe_step. wpe_step. 
  do 3 (wpe_step; eapply add_file_ok; [apply Hs1|rewrite ?add_file_to_length; cbn; lia|done|]).
  wpe_step. wpe_step. unfold deref. wpe_step. wpe_step. rewrite Hdat. wpe_step. wpe_step.
  eapply add_file_ok; [apply Hs1|rewrite ?add_file_to_length; cbn; lia|done|]. rewrite Hsi.
  unfold fix_disk_layout. wpe_step. wpe_step. cbn [m_di with_segment set_di]. rewrite Hdi.
  cbn [m_di with_segment set_di set_di_seginfo di_blocks_per_segment di_seginfo di_first_segment_block fix_segments
       si_nblocks si_nblk_sum si_files si_start_blocknr si_nfinfo si_sumbytes si_nvblocknrs].
  destruct (fixed_files start ni Hg) as (Hff & Hn & Hl). rewrite Hn, Hff, Hl.
  pose proof (geometry_range _ _ _ Hg) as Hgr. destruct (vo_bps o Hvalid) as [Hbps _].
  destruct (Z.ltb_spec bps (8 + ni)); [lia|]. cbn [mbind option_bind]. destruct (Z.ltb_spec start (start + 8 + ni)); [|lia].
  wpe_step. eapply (HQ start ni); [split; apply Hs1|reflexivity|exact Hdec].
Qed.
End Layout.

(** ** The image in memory *)

Section Image.
Context {W : Type} {E : MkfsEnv W} {disk : W -> list Z} {L : MkfsLaws E disk}.
Context (d : list Z) (o : mkfs_options) (start ni bits ctime seed tw : Z).
Hypothesis Hvalid : valid_options o.
Abbreviation size := (Z.of_nat (length d)).
Abbreviation nblocks := (start + 8 + ni).
Abbreviation with_layout f :=
  (f start ni size bits ctime seed (mo_blocks_per_segment o) (segments_on o size) tw).
Hypothesis Hdec : decided o size start ni bits ctime seed.
Hypothesis Hbytes : Forall is_u8 d.
Implicit Types s : ms W.

Abbreviation keeps := (with_layout (inv (disk := disk) d o)).
Abbreviation triple m Q s := (wpe m Q (fun _ _ => False) (failed (disk := disk) d) s).

Lemma log_room : geometry (mo_blocksize o) start ni /\ start + 8 + ni <= 16 /\
  start + 8 + ni <= mo_blocks_per_segment o < 2 ^ 64.
Proof using Hdec Hvalid.
  destruct Hdec as [Hg _ _ _ _]. destruct (vo_bps o Hvalid). pose proof Hg as Hg'. unfold geometry in Hg'.
  split; [done|]. lia.
Qed.

Lemma keeps_state raws fs s : keeps raws fs s ->
  disk (m_world s) = d /\ m_opts s = o /\ m_di s = with_layout layout_of raws /\ m_fs s = fs.
Proof using. by intros []. Qed.

Lemma inv_set_pos raws fs n s : keeps raws fs s -> keeps raws fs (set_pos n s).
Proof using. intros [H1 H2 H3 H4 H5 H6 H7 H8]. by split. Qed.

Lemma init_disk_buffer_ok s (Q : unit -> ms W -> Prop) : start_state (disk := disk) d o s ->
  m_di s = with_layout layout_of no_raws ->
  (forall s', keeps no_raws (m_fs s') s' -> (forall b, ~ mapped b s') -> Q tt s') ->
  triple (init_disk_buffer nblocks) Q s.
Proof using Hdec Hvalid L.
  intros [Hd Ho] Hdi HQ. destruct log_room as (Hg & Hr & _). pose proof (geometry_range _ _ _ Hg) as Hgr.
  unfold init_disk_buffer. wpe_step. wpe_step. unfold m_malloc, wpe.
  destruct (malloc (nblocks * 8) s) as [ok s1] eqn:Hm. unfold malloc, ms_alloc in Hm.
  destruct (malloc (nblocks * 8) (m_world s)) as [ok' w1] eqn:Hm1. injection Hm as -> <-. fold (with_world w1 s).
  assert (Hd1 : disk w1 = d).
  { rewrite <- Hd. pose proof (dl_alloc (disk := disk) (nblocks * 8) (m_world s)) as Ha. by rewrite Hm1 in Ha. }
  destruct ok; cbv beta iota.
  - unfold modify.
    assert (Hun : forall b, ~ mapped b (set_buf (replicate (Z.to_nat nblocks) None) (with_world w1 s))).
    { intros b (blk & _ & Hb). cbn in Hb. by apply lookup_replicate in Hb as [? _]. }
    apply HQ; [|exact Hun]. split; cbn; try done.
    + rewrite length_replicate. lia.
    + intros b blk Hb. by destruct (Hun b); exists blk.
    + intros i p Hp. by do 10 (destruct i; [done|]).
  - split; [done|]. split; [|done]. intros [Hok _ _ _ _ _]. specialize (Hok (nblocks * 8) (m_world s)).
    by rewrite Hm1 in Hok.
Qed.

(** Reading the header maps block 0 only. *)
Lemma read_disk_header_ok fd s fs (Q : unit -> ms W -> Prop) : keeps no_raws fs s -> (forall b, ~ mapped b s) ->
  (forall s', keeps no_raws fs s' -> (forall b, mapped b s' -> b = 0) -> Q tt s') ->
  triple (read_disk_header fd) Q s.
Proof using Hdec Hvalid Hbytes L.
  intros Hi Hn HQ. destruct log_room as (Hg & Hr & _). pose proof (geometry_range _ _ _ Hg) as Hgr.
  unfold read_disk_header. wpe_step. wpe_step. unfold blocksize. rewrite (proj1 (proj2 (keeps_state _ _ _ Hi))).
  change NILFS_SB_OFFSET_BYTES with 1024. rewrite !u64_id by (unfold is_u64; word_lia).
  replace ((1024 + mo_blocksize o - 1) / mo_blocksize o) with 1
    by (apply (Z.div_unique_pos _ _ _ 1023); lia).
  unfold lseek. cbn [Z.ltb Z.compare]. wpe_step. wpe_step.
  assert (Hi0 := inv_set_pos _ _ 0 _ Hi). change (Z.to_nat 1) with 1%nat. cbn [for_upto]. wpe_step. wpe_step.
  eapply map_any; [done|exact Hi0|cbn; lia|]. intros s1 Hi1 Hu1 _ _ [blk Hb1].
  assert (Hn1 : forall b, mapped b s1 -> b = 0).
  { intros b Hm. destruct (Z.eq_dec b 0) as [->|Hne]; [done|]. exfalso.
    refine (unmapped_upd _ _ _ b Hu1 _ (Hn b) Hm). cbn. lia. }
  wpe_step. wpe_step. unfold read. wpe_step. wpe_step. wpe_step. apply sys_call_wpe.
  destruct (dev_pread fd (mo_blocksize o) (m_pos s1) (m_world s1)) as [r w] eqn:Hp.
  destruct (dl_pread _ _ _ _ _ _ Hp) as [Hw Hd]. rewrite (proj1 (keeps_state _ _ _ Hi1)) in Hw.
  assert (Hi2 : keeps no_raws fs (with_world w s1)) by by apply inv_with_world.
  destruct r as [data|e]; cbn [fst snd].
  - destruct (Hd data eq_refl) as [_ Hl].
    assert (Hi3 := inv_set_pos _ _ (m_pos (with_world w s1) + Z.of_nat (length data)) _ Hi2).
    wpe_step. wpe_step. wpe_step.
    eapply (store_bytes_own d o); [exact Hi3|exact Hb1|cbn; lia|cbn [snd]; lia| |].
    { eapply ml_pread; [exact Hp|]. by rewrite (proj1 (keeps_state _ _ _ Hi1)). }
    cbn [fst snd]. intros s4 Hi4 Hu4 _. wpe_step. apply HQ; [done|]. intros b Hm.
    destruct (Z.eq_dec b 0) as [->|Hne]; [done|]. apply Hn1. destruct Hm as [blk' Hb']. exists blk'.
    refine (upd_own_inv _ _ _ b _ Hu4 _ Hb'). cbn. lia.
  - wpe_step. split; [done|]. split; [|done]. intros [_ _ _ Hok _ _].
    destruct (Hok fd (mo_blocksize o) (m_pos s1) (m_world s1)) as [r Hr']. by rewrite Hp in Hr'.
Qed.

(** The state when the image is complete. *)
Record built (uuid : list Z) s : Prop := {
  bl_log : with_layout (committed (disk := disk) d o) (with_layout (fs_done o)) (with_layout log_summary) s;
  bl_sb : sb_holds o (with_layout (sb_final o) uuid) s;
  bl_uuid : length uuid = 16%nat /\ Forall is_u8 uuid;
}.

Lemma build_image_ok fd s (Q : unit -> ms W -> Prop) : start_state (disk := disk) d o s ->
  m_di s = with_layout layout_of no_raws -> (forall uuid s', built uuid s' -> Q tt s') -> triple (build_image fd) Q s.
Proof using Hdec Hvalid Hbytes L.
  intros Hs Hdi HQ. destruct log_room as (Hg & Hr & Hb). pose proof (geometry_range _ _ _ Hg) as Hgr.
  destruct (sb_place o start ni (mo_blocks_per_segment o) Hg Hb) as (P0 & _).
  unfold build_image. wpe_step. wpe_step. rewrite Hdi. cbn [di_nblocks_to_write layout_of].
  wpe_step. apply init_disk_buffer_ok; [done|done|]. intros s1 Hi1 Hn1.
  wpe_step. eapply read_disk_header_ok; [exact Hi1|done|]. intros s2 Hi2 Hn2.
  wpe_step. eapply prepare_super_block_ok; [exact Hg|exact Hb|apply Hvalid|exact Hi2|]. intros uuid s3 Hi3 Hu Hu8 Hsb3 Hm3.
  wpe_step. unfold init_nilfs. wpe_step. rewrite (proj1 (proj2 (proj2 (keeps_state _ _ _ Hi3)))).
  fold (with_layout fs_before). assert (Hi4 : keeps no_raws (with_layout fs_before) (set_fs (with_layout fs_before) s3)) by (by eapply inv_set_fs).
  set (s4 := set_fs _ s3) in *. assert (Hsb4 : sb_holds o (with_layout (sb_prepared o) uuid) s4) by exact Hsb3.
  assert (Hnot : ~ in_log start ni (NILFS_SB_OFFSET_BYTES / mo_blocksize o)) by (unfold in_log; lia).
  wpe_step. eapply prepare_segment_ok; [exact Hg|exact Hi4| |].
  { unfold in_log. intros b Hlog Hm. destruct (Hm3 b Hm) as [H0|H0]; [apply Hn2 in H0|]; lia. }
  intros s5 Hp5 Hu5. assert (Hsb5 := sb_holds_upd o _ _ _ _ Hu5 (fun H => Hnot (proj1 H)) Hsb4).
  wpe_step. eapply make_rootdir_ok; [exact Hg|apply Hp5| |].
  { refine (unmapped_upd _ _ _ _ Hu5 _ _); [by intros [_ []]|]. intros Hm.
    destruct (Hm3 _ Hm) as [H0|H0]; [apply Hn2 in H0|]; lia. }
  intros s6 Hi6 Hu6 _. unfold in_inodes in Hu6.
  assert (Hsb6 := sb_holds_upd o _ _ _ _ Hu6 ltac:(cbn; lia) Hsb5).
  wpe_step. eapply make_reserved_ok; [exact Hg|exact Hi6|]. intros s7 Hi7 Hu7.
  assert (Hsb7 := sb_holds_upd o _ _ _ _ Hu7 ltac:(unfold in_inodes; lia) Hsb6).
  wpe_step. eapply commit_segment_ok; [exact Hg|exact Hb| |].
  { eapply prepared_upd; [exact Hg|exact Hp5|exact Hi7| |]; [eapply upd_trans; [exact Hu6|]|].
    - eapply upd_mono; [|exact Hu7]. intros b Hin. by right.
    - cbn. unfold raw_block, in_inodes. intros. lia. }
  intros s8 Hc8 Hu8'. assert (Hsb8 := sb_holds_upd o _ _ _ _ Hu8' Hnot Hsb7).
  eapply commit_super_block_ok; [exact Hg|exact Hb|apply Hvalid|apply Hc8|exact Hsb8|]. intros s9 Hi9 Hu9 Hsb9.
  apply (HQ uuid). split; [|exact Hsb9|done]. destruct Hc8 as [_ (cov & x & Hcov & Hh)]. split; [exact Hi9|].
  exists cov, x. split; [exact Hcov|]. eapply holds_upd; [exact Hu9|cbn; lia|exact Hh].
Qed.
End Image.
