(* ===== verification/MkfsResult.v ===== *)
(** * What mkfs leaves on the device

    Erasing, writing the blocks of the log and the superblocks, and the whole
    program: how it ends and what the device holds then. *)

From Stdlib Require Import String.
From S2P Require Import Prelude Vector Hoare Ondisk Fields Crc32 Sb Kernel Nilfs Parser Ismounted Disk Feature Segment Bitops Tune Mkfs MkfsSpec MkfsBuild.

(** ** Writing to the device *)

Section Write.
Context {W : Type} {E : MkfsEnv W} {disk : W -> list Z} {L : MkfsLaws E disk}.
Context {short : W -> bool} {SW : ShortWrites E short}.
Context (o : mkfs_options) (size start ni bits ctime seed tw : Z) (uuid : list Z).
Hypothesis Hvalid : valid_options o.
Abbreviation bs := (mo_blocksize o).
Abbreviation nblocks := (start + 8 + ni).
Abbreviation with_layout f :=
  (f start ni size bits ctime seed (mo_blocks_per_segment o) (segments_on o size) tw).
Hypothesis Hdec : decided o size start ni bits ctime seed.
Hypothesis Hsize : 0 <= size < 2 ^ 63.
Implicit Types s : ms W.

(** The image is complete, whatever the device of the same size holds. *)
Record ready s : Prop := {
  ry_log : with_layout (committed (disk := disk) (disk (m_world s)) o) (with_layout (fs_done o)) (with_layout log_summary) s;
  ry_sb : sb_holds o (with_layout (sb_final o) uuid) s;
  ry_size : Z.of_nat (length (disk (m_world s))) = size;
  ry_bytes : Forall is_u8 (disk (m_world s));
}.

(** Failures and exits of this phase. *)
Definition unhealthy (c : Z) s : Prop := ~ healthy (E := E) disk.
Definition failure (c : Z) s : Prop := c = EXIT_FAILURE /\ ~ healthy (E := E) disk.
Abbreviation triple m Q s := (wpe m Q unhealthy failure s).

Lemma ready_geometry : geometry bs start ni.
Proof using Hdec. by destruct Hdec. Qed.

Lemma ready_inv s : ready s ->
  with_layout (inv (disk := disk) (disk (m_world s)) o) (all_raws o start ni) (with_layout (fs_done o)) s.
Proof using. by intros [[Hi _] _ _ _]. Qed.

(** Another device, another offset. *)
Lemma ready_world w s : ready s -> Z.of_nat (length (disk w)) = size -> Forall is_u8 (disk w) -> ready (with_world w s).
Proof using.
  intros [[[H1 H2 H3 H4 H5 H6 H7 H8] Hs] Hsb Hl Hb] Hl' Hb'. split; [|exact Hsb|done|done].
  split; [by split|exact Hs].
Qed.

Lemma ready_same w s : ready s -> disk w = disk (m_world s) -> ready (with_world w s).
Proof using. intros Hr Hw. destruct (Hr) as [_ _ Hl Hb]. apply ready_world; [done|by rewrite Hw..]. Qed.

Lemma ready_pos n s : ready s -> ready (set_pos n s).
Proof using.
  intros [[[H1 H2 H3 H4 H5 H6 H7 H8] Hs] Hsb Hl Hb]. split; [|exact Hsb|done|done]. split; [by split|exact Hs].
Qed.

Lemma lift_failed {A} (m : M (ms W) A) d Q s :
  wpe m Q (fun _ _ => False) (failed (disk := disk) d) s -> triple m Q s.
Proof using. intros H. eapply wpe_mono; [exact H|auto|done|]. intros c s' (H1 & H2 & _). by split. Qed.

(** Mapping a block keeps what the blocks hold. *)
Lemma ready_map b clear s (Q : ptr -> ms W -> Prop) : ready s -> 0 <= b < nblocks ->
  (forall s', ready s' -> (forall b' blk, own b' blk s -> own b' blk s') -> mapped b s' -> m_pos s' = m_pos s ->
     disk (m_world s') = disk (m_world s) -> Q (b, 0) s') -> triple (map_disk_buffer b clear) Q s.
Proof using Hdec L.
  intros Hr Hb HQ. apply (lift_failed _ (disk (m_world s))). eapply map_any; [apply ready_geometry|by apply ready_inv|done|].
  intros s' Hi Hu Hown _ Hm.
  assert (Hall : forall b' blk, own b' blk s -> own b' blk s').
  { intros b' blk Ho. destruct (Z.eq_dec b b') as [<-|Hne]; [by apply Hown|]. by eapply upd_own. }
  assert (Hd := inv_disk _ _ _ _ _ _ _ _ _ _ _ _ _ _ Hi).
  destruct Hr as [[_ (cov & x & Hcov & Ho & Hf)] (Hp & Hl & blk & Hblk & Hrd) Hlen Hbytes].
  apply HQ; [|done|done|apply (upd_pos _ _ _ Hu)|done]. split; [| |by rewrite Hd..].
  - split; [by rewrite Hd|]. exists cov, x. split; [exact Hcov|]. split; [by apply Hall|exact Hf].
  - split; [by rewrite (upd_sb _ _ _ Hu)|]. split; [done|]. exists blk. split; [by apply Hall|exact Hrd].
Qed.

Lemma malloc_ready n s (Q : unit + Z -> ms W -> Prop) : ready s ->
  (forall s', ready s' -> Q (inl tt) s') -> (forall s', ready s' -> ~ healthy (E := E) disk -> Q (inr ENOMEM) s') ->
  triple (attempt (m_malloc n)) Q s.
Proof using L.
  intros Hr Hok Hfail. wpe_step. unfold m_malloc, wpe. unfold malloc, ms_alloc.
  pose proof (dl_alloc (disk := disk) n (m_world s)) as Ha.
  destruct (malloc n (m_world s)) as [ok w] eqn:Hm. fold (with_world w s). cbn in Ha.
  destruct ok; [apply Hok; by apply ready_same|]. apply Hfail; [by apply ready_same|].
  intros [Hh _ _ _ _ _]. specialize (Hh n (m_world s)). by rewrite Hm in Hh.
Qed.

(** A short write stays on record: a computation after which there is none
    did not start with one. *)
Definition full {A} (m : M (ms W) A) : Prop := forall s, short (m_world (m s).2) = false -> short (m_world s) = false.

Lemma full_bind {A B} (m : M (ms W) A) (k : A -> M (ms W) B) : full m -> (forall a, full (k a)) -> full (bind m k).
Proof using.
  intros Hm Hk s. specialize (Hm s). unfold bind. destruct (m s) as [[a| | | |] s']; try done.
  intros H. by apply Hm, (Hk a).
Qed.

Lemma full_attempt {A} (m : M (ms W) A) : full m -> full (attempt m).
Proof using. intros Hm s. specialize (Hm s). unfold attempt. by destruct (m s) as [[] ?]. Qed.

Lemma full_malloc n : full (m_malloc n).
Proof using SW.
  intros s. unfold m_malloc, malloc, ms_alloc. pose proof (sw_alloc n (m_world s)) as Hs.
  by destruct (malloc n (m_world s)) as [[] w]; simpl in *; rewrite Hs.
Qed.

Lemma full_write fd bytes : full (write fd bytes).
Proof using SW.
  intros s. unfold write, sys_call, get_state, bind, modify, ret, fail.
  destruct (dev_pwrite fd bytes (m_pos s) (m_world s)) as [r w] eqn:Hw. apply sw_pwrite in Hw.
  destruct r; cbn [fst snd m_world set_pos]; rewrite Hw; intros Hs; by apply orb_false_iff in Hs as [Hs _].
Qed.

Lemma full_fsync fd : full (fsync fd).
Proof using SW.
  intros s. unfold fsync, sys_call, bind. pose proof (sw_fsync fd (m_world s)) as Hs.
  by destruct (me_fsync fd (m_world s)) as [[] w]; simpl in *; rewrite Hs.
Qed.

(** One step of a computation that is [full]. *)
Ltac full :=
  repeat match goal with
  | |- full (bind _ _) => apply full_bind; [|intros]
  | |- full (attempt _) => apply full_attempt
  | |- full (m_malloc _) => apply full_malloc
  | |- full (write _ _) => apply full_write
  | |- full (of_option ?x) => by intros ?; destruct x
  | |- full (match ?x with _ => _ end) => destruct x
  | |- full _ => by intros ?
  end.

Lemma full_write_blocks n fd b : full (write_blocks n fd b).
Proof using SW. revert b; induction n as [|n IH]; intros b; cbn [write_blocks]; unfold map_disk_buffer, load_bytes; full; apply IH. Qed.

Lemma full_write_super_block fd off : full (write_super_block fd off).
Proof using SW. unfold write_super_block, deref, lseek, load_bytes. full. Qed.

(** What may be used about such a computation. *)
Lemma wpe_full {A} (m : M (ms W) A) (Q : A -> ms W -> Prop) F X s : full m ->
  wpe m (fun a s' => (short (m_world s') = false -> short (m_world s) = false) -> Q a s') F X s -> wpe m Q F X s.
Proof using. intros Hm. specialize (Hm s). unfold wpe. destruct (m s) as [[] s']; auto. Qed.

(** Writing inside of the device. *)
Lemma write_ok fd bytes s (Q : Z -> ms W -> Prop) (F : Z -> ms W -> Prop) : ready s -> Forall is_u8 bytes ->
  0 <= m_pos s -> m_pos s + Z.of_nat (length bytes) <= size ->
  (forall k s', ready s' -> (k <= length bytes)%nat -> m_pos s' = m_pos s + Z.of_nat k -> m_buf s' = m_buf s -> m_sb s' = m_sb s ->
     disk (m_world s') = put_bytes (disk (m_world s)) (m_pos s) (take k bytes) ->
     (short (m_world s') = false -> k = length bytes) -> (healthy (E := E) disk -> k = length bytes) -> Q (Z.of_nat k) s') ->
  (forall e s', ready s' -> m_pos s' = m_pos s -> ~ healthy (E := E) disk -> F e s') ->
  wpe (write fd bytes) Q F failure s.
Proof using L SW.
  intros Hr Hu H0 H1 HQ HF. unfold write. wpe_step. wpe_step. wpe_step. apply sys_call_wpe.
  destruct (dev_pwrite fd bytes (m_pos s) (m_world s)) as [r w] eqn:Hw. cbn [fst snd].
  pose proof (ry_size _ Hr) as Hsz. pose proof (ry_bytes _ Hr) as Hby.
  destruct (dl_pwrite (disk := disk) _ _ _ _ _ _ Hw H0 ltac:(lia)) as (k & Hk & Hd & Hc).
  assert (Hr' : ready (with_world w s)).
  { apply ready_world; [done|..]; rewrite Hd.
    - by rewrite put_bytes_length by (rewrite ?length_take; lia).
    - by apply put_bytes_u8; [|apply Forall_take]. }
  pose proof (sw_pwrite _ _ _ _ _ _ Hw) as Hsh. destruct r as [n|e].
  - wpe_step. wpe_step. wpe_step. specialize (Hc _ eq_refl). subst n.
    apply HQ; [by apply ready_pos|done|done|done|done|exact Hd| |].
    + cbn. rewrite Hsh. intros [_ Hn]%orb_false_iff. apply Z.ltb_ge in Hn. lia.
    + intros [_ _ _ _ Hh _]. specialize (Hh fd bytes (m_pos s) (m_world s) H0 ltac:(lia)). rewrite Hw in Hh.
      injection Hh as Hh. lia.
  - wpe_step. apply HF; [done|done|]. intros [_ _ _ _ Hh _].
    specialize (Hh fd bytes (m_pos s) (m_world s) H0 ltac:(lia)). by rewrite Hw in Hh.
Qed.

(** *** Erasing *)

Lemma erase_buffer_ok n : forall bufsz s (Q : Z -> ms W -> Prop), ready s -> (n = O -> ~ healthy (E := E) disk) ->
  2 ^ Z.of_nat n <= bufsz < 2 ^ 64 -> (forall r s', ready s' -> 0 < r < 2 ^ 64 -> Q r s') -> triple (erase_buffer n bufsz) Q s.
Proof using L Hsize.
  induction n as [|n IH]; intros bufsz s Q Hr Hn Hb HQ; cbn [erase_buffer].
  - split; [done|by apply Hn].
  - assert (0 < 2 ^ Z.of_nat n) by lia. rewrite Nat2Z.inj_succ, Z.pow_succ_r in Hb by lia.
    wpe_step. apply malloc_ready; [done| |].
    + intros s1 Hr1. wpe_step. apply HQ; [done|lia].
    + intros s1 Hr1 Hun. apply IH; [done|done| |done]. rewrite Z.shiftr_div_pow2 by lia. change (2 ^ 1) with 2. word_lia.
Qed.

Lemma erase_loop_ok fuel : forall fd bufsz count s (Q : unit -> ms W -> Prop), ready s -> 0 < bufsz < 2 ^ 64 ->
  (Z.to_nat count < fuel)%nat -> 0 <= m_pos s -> m_pos s + count <= size ->
  (forall s', ready s' -> Q tt s') -> triple (erase_loop fuel fd bufsz count) Q s.
Proof using L Hsize short SW.
  induction fuel as [|fuel IH]; intros fd bufsz count s Q Hr Hb Hf H0 H1 HQ; [lia|]. cbn [erase_loop].
  destruct (Z.ltb_spec 0 count); [|wpe_step; by apply HQ].
  set (n := if bufsz <? count then bufsz else count).
  assert (Hn : 0 < n /\ n <= bufsz /\ n <= count) by (unfold n; destruct (Z.ltb_spec bufsz count); lia).
  clearbody n. assert (Hl : Z.of_nat (length (replicate (Z.to_nat n) 0)) = n) by (rewrite length_replicate; lia).
  wpe_step. wpe_step. apply write_ok; [done|by apply Forall_replicate|done|lia| |].
  - intros k s1 Hr1 Hk Hp1 _ _ _ _ Hfull. rewrite u64_id by (unfold is_u64; lia).
    destruct (Z.ltb_spec (Z.of_nat k) n); [wpe_step; intros Hh; specialize (Hfull Hh); lia|].
    apply IH; [done|done|lia|lia|lia|done].
  - intros e s1 Hr1 Hp1 _. change (u64 (-1)) with (2 ^ 64 - 1). destruct (Z.ltb_spec (2 ^ 64 - 1) n); [lia|].
    apply IH; [done|done|lia|lia|lia|done].
Qed.

Lemma erase_disk_range_ok fd off count s (Q : unit -> ms W -> Prop) : ready s -> 0 <= off -> off + count <= size ->
  (forall s', ready s' -> Q tt s') -> triple (erase_disk_range fd off count) Q s.
Proof using L Hsize Hdec short SW.
  intros Hr H0 H1 HQ. pose proof (geometry_range _ _ _ ready_geometry) as Hg.
  unfold erase_disk_range. wpe_step. wpe_step. unfold blocksize. rewrite (inv_opts _ _ _ _ _ _ _ _ _ _ _ _ _ _ (ready_inv _ Hr)).
  unfold MAX_NBLOCKS_CLEAR_BUFFER. rewrite u64_id by (unfold is_u64; lia).
  wpe_step. apply erase_buffer_ok; [done|done|cbn; lia|]. intros r s1 Hr1 Hb. wpe_step. unfold lseek.
  destruct (Z.ltb_spec off 0); [lia|]. wpe_step.
  apply erase_loop_ok; [by apply ready_pos|done|lia|done|done|done].
Qed.

Lemma sector_floor n : 0 <= n -> Z.land n (Z.lnot 511) = n - n `mod` 512.
Proof using.
  intros Hn. rewrite <- Z.ldiff_land. change 511 with (Z.ones 9). rewrite Z.ldiff_ones_r by lia.
  rewrite Z.shiftl_mul_pow2, Z.shiftr_div_pow2 by lia. change (2 ^ 9) with 512.
  pose proof (Z.div_mod n 512 ltac:(done)). lia.
Qed.

(** The smallest device that can be erased. *)
Definition ERASABLE : Z := NILFS_DISK_ERASE_SIZE + NILFS_SB_OFFSET_BYTES.

Lemma erase_disk_ok fd s (Q : unit -> ms W -> Prop) : ready s -> ERASABLE <= size ->
  (forall s', ready s' -> Q tt s') -> triple (erase_disk fd) Q s.
Proof using L Hsize Hdec short SW.
  intros Hr Hs HQ. change ERASABLE with 1049600 in Hs. pose proof (geometry_range _ _ _ ready_geometry) as Hg.
  unfold erase_disk. wpe_step. wpe_step. wpe_step. unfold device_has_boot_sector.
  wpe_step. apply ready_map; [done|lia|]. intros s1 Hr1 _ Hm1 _ _. wpe_step.
  apply (lift_failed _ (disk (m_world s1))). eapply load_ok; [by apply ready_inv|done|cbn; lia|lia|cbn; lia|].
  intros v. wpe_step. rewrite (inv_di _ _ _ _ _ _ _ _ _ _ _ _ _ _ (ready_inv _ Hr)). cbn [di_dev_size layout_of].
  rewrite sector_floor by lia. pose proof (Z.mod_pos_bound size 512 ltac:(done)) as Hmod.
  assert (Hend : 1049600 <= size - size `mod` 512) by word_lia.
  set (end_ := size - size `mod` 512) in *. assert (Hend2 : end_ <= size) by (unfold end_; lia). clearbody end_.
  rewrite (i64_id end_) by (unfold is_i64; lia). change NILFS_DISK_ERASE_SIZE with 1048576. change NILFS_SB_OFFSET_BYTES with 1024.
  assert (Hst : exists st, (if v =? 43605 then 1024 else 0) = st /\ 0 <= st <= 1024) by (exists (if v =? 43605 then 1024 else 0); case_match; lia).
  destruct Hst as (st & -> & Hst).
  destruct (Z.ltb_spec end_ 1048576); [lia|]. destruct (Z.ltb_spec (end_ - 1048576) st); [lia|]. cbn [orb].
  assert (Hrest : forall skip s', ready s' -> triple (if skip : bool then ret tt else
    erase_disk_range fd (end_ - 1048576) 1048576 ;; erase_disk_range fd st (1048576 - st)) Q s').
  { intros [] s' Hr'; [wpe_step; by apply HQ|]. wpe_step. apply erase_disk_range_ok; [done|lia|lia|].
    intros s2 Hr2. apply erase_disk_range_ok; [done|lia|lia|done]. }
  wpe_step. destruct (mo_discard (m_opts s)); [|wpe_step; by apply (Hrest false)].
  wpe_step. apply sys_call_wpe. destruct (ml_discard (disk := disk) fd st (end_ - st) (m_world s1)) as [Hl Hb].
  assert (Hr2 : ready (with_world (me_discard fd st (end_ - st) (m_world s1)).2 s1)).
  { apply ready_world; [done|rewrite Hl; apply Hr1|apply Hb, Hr1]. }
  destruct ((me_discard fd st (end_ - st) (m_world s1)).1); [|wpe_step; by apply (Hrest false)].
  wpe_step. apply sys_call_wpe. wpe_step. apply Hrest. apply ready_same; [done|]. apply ml_discard_zeroes.
Qed.

(** *** Writing the log *)

(** Blocks of the device from block [b] on are what the buffer holds. *)
Definition on_device (b : Z) (n : nat) s (d : list Z) : Prop :=
  forall b' blk, b <= b' < b + Z.of_nat n -> own b' blk s -> rd_bytes d (b' * bs) bs = Some blk.

(** Bytes outside of a range of blocks. *)
Definition same_outside (b : Z) (n : nat) (d d' : list Z) : Prop :=
  forall off k, off + k <= b * bs \/ (b + Z.of_nat n) * bs <= off -> rd_bytes d' off k = rd_bytes d off k.

Lemma write_blocks_ok fd n : forall b s (Q : unit -> ms W -> Prop), ready s -> 0 <= b -> b + Z.of_nat n <= nblocks ->
  nblocks * bs <= size -> 0 <= m_pos s <= b * bs ->
  (forall s', ready s' -> (short (m_world s') = false -> m_pos s = b * bs ->
     on_device b n s (disk (m_world s')) /\ same_outside b n (disk (m_world s)) (disk (m_world s'))) -> Q tt s') ->
  triple (write_blocks n fd b) Q s.
Proof using L SW Hsize Hdec.
  pose proof (geometry_range _ _ _ ready_geometry) as Hg. induction n as [|n IH]; intros b s Q Hr H0 H1 H2 Hp HQ; cbn [write_blocks].
  - wpe_step. apply HQ; [done|]. intros _ _. split; [intros b' blk Hb'; lia|by intros off k _].
  - wpe_step. apply ready_map; [done|lia|]. intros s1 Hr1 Hown [blk Hb] Hp1 Hd1. wpe_step. wpe_step.
    pose proof (ready_inv _ Hr1) as Hi1. unfold blocksize. rewrite (inv_opts _ _ _ _ _ _ _ _ _ _ _ _ _ _ Hi1).
    destruct (inv_wf _ _ _ _ _ _ _ _ _ _ _ _ _ _ Hi1 _ _ Hb) as [Hl Hu].
    wpe_step. apply (lift_failed _ (disk (m_world s1))). eapply (load_bytes_own _ _ _ _ blk blk); [exact Hb| |].
    { unfold rd_bytes. cbn [snd]. destruct (_ && _) eqn:Hc; [|lia]. f_equal. rewrite drop_0, take_ge; [done|lia]. }
    assert (Hput : (b + 1) * bs <= nblocks * bs) by (apply Z.mul_le_mono_nonneg_r; lia).
    wpe_step. apply write_ok; [done|done|lia|nia| |done].
    intros k s2 Hr2 Hk Hp2 Hbuf2 _ Hd2 Hfull _. rewrite u64_id by (unfold is_u64; lia).
    apply wpe_full; [apply full_write_blocks|].
    apply IH; [done|lia|lia|done|lia|]. intros s3 Hr3 Hon Hsh. pose proof (ry_size _ Hr) as Hsz.
    apply HQ; [done|]. intros Hs3 Hpos. specialize (Hfull (Hsh Hs3)). subst k. rewrite take_ge in Hd2 by done.
    rewrite Hp1, Hpos, Hd1 in Hd2. destruct (Hon Hs3 ltac:(lia)) as [Hon' Hout]. split.
    + intros b' blk' Hb' Ho'%Hown. destruct (Z.eq_dec b b') as [<-|Hne].
      * rewrite (own_fun _ _ _ _ Ho' Hb), Hout, Hd2 by lia.
        pose proof (rd_bytes_put_eq (disk (m_world s)) (b * bs) blk) as Hq. rewrite Hl in Hq. apply Hq; nia.
      * apply Hon'; [lia|]. unfold own. by rewrite Hbuf2.
    + intros off k Hk'. rewrite Hout, Hd2 by lia. apply rd_bytes_put_ne; nia.
Qed.

Lemma log_fits : 8192 <= size -> nblocks * bs <= NILFS_SB2_OFFSET_BYTES size /\ NILFS_SB2_OFFSET_BYTES size + 4096 <= size /\
  mo_blocks_per_segment o * bs <= NILFS_SB2_OFFSET_BYTES size.
Proof using Hdec Hvalid Hsize.
  intros Hmin. pose proof (geometry_range _ _ _ ready_geometry) as Hg. destruct (vo_bps o Hvalid) as [Hb _].
  assert (Hn : 16 <= segments_on o size).
  { destruct Hdec as [_ _ Hf _ _]. unfold fits, nilfs_min_nsegments in Hf.
    set (r := u64 (u64 _ + 99) / 100) in Hf. assert (Hr : 0 <= r <= 2 ^ 64 / 100).
    { pose proof (u64_range (u64 (mo_r_segments_percentage o * segments_on o size) + 99)) as Hu. unfold is_u64 in Hu.
      split; [apply Z.div_pos; lia|apply Z.div_le_mono; lia]. }
    change (2 ^ 64 / 100) with 184467440737095516 in Hr. change (Z.max nr_initial_segments NILFS_MIN_NUSERSEGS) with 8 in Hf.
    unfold NILFS_MIN_NRSVSEGS in Hf. rewrite u64_id in Hf by (unfold is_u64; lia). lia. }
  unfold segments_on in Hn. assert (H1 : 16 * mo_blocks_per_segment o <= NILFS_SB2_OFFSET_BYTES size / bs).
  { etransitivity; [|apply Z.mul_div_le with (b := mo_blocks_per_segment o); lia]. rewrite Z.mul_comm. apply Z.mul_le_mono_nonneg_l; lia. }
  assert (H2 : bs * (NILFS_SB2_OFFSET_BYTES size / bs) <= NILFS_SB2_OFFSET_BYTES size) by (apply Z.mul_div_le; lia).
  split; [nia|]. split; [|nia]. unfold NILFS_SB2_OFFSET_BYTES. rewrite Z.shiftr_div_pow2, Z.shiftl_mul_pow2 by lia.
  change (2 ^ 12) with 4096. word_lia.
Qed.

Lemma fsync_ok fd s (Q : unit -> ms W -> Prop) : ready s ->
  (forall s', ready s' -> disk (m_world s') = disk (m_world s) -> Q tt s') -> triple (fsync fd) Q s.
Proof using L.
  intros Hr HQ. unfold fsync. wpe_step. apply sys_call_wpe. assert (Hd := ml_fsync (disk := disk) fd (m_world s)).
  assert (Hr1 := ready_same _ _ Hr Hd). destruct ((me_fsync fd (m_world s)).1) eqn:Hok; wpe_step; [by apply HQ|].
  intros [_ _ _ _ _ Hh]. specialize (Hh fd (m_world s)). congruence.
Qed.

Abbreviation image := (with_layout (sb_image o) uuid).

Lemma image_ok s : ready s -> length image = 1024%nat /\ Forall is_u8 image.
Proof using.
  intros Hr. destruct (ry_sb _ Hr) as (_ & Hl & _).
  assert (Hz : Z.of_nat (length sb_zeros) = 1024) by (unfold sb_zeros; by rewrite length_replicate).
  split.
  - apply Nat2Z.inj. exact (put_fields_length _ _ 1024 Hz Hl).
  - apply put_fields_u8. by apply Forall_replicate.
Qed.

Lemma write_super_block_ok fd off s (Q : unit -> ms W -> Prop) : ready s -> 0 <= off -> off + 1024 <= size ->
  (forall s', ready s' -> (short (m_world s') = false -> disk (m_world s') = put_bytes (disk (m_world s)) off image) ->
     Q tt s') ->
  triple (write_super_block fd off) Q s.
Proof using L SW.
  intros Hr H0 H1 HQ. destruct (image_ok s Hr) as [Hl Hu]. destruct (ry_sb _ Hr) as (Hp & _ & blk & Ho & Hrd).
  unfold write_super_block, deref, lseek. wpe_step. wpe_step. wpe_step. rewrite Hp. wpe_step. wpe_step.
  destruct (Z.ltb_spec off 0); [lia|]. wpe_step. wpe_step. apply (lift_failed _ (disk (m_world s))).
  change NILFS_MAX_SB_SIZE with 1024.
  eapply (load_bytes_own _ _ _ _ blk image); [exact Ho|cbn [snd]; rewrite Z.add_0_r; exact Hrd|].
  wpe_step. apply write_ok; [by apply ready_pos|exact Hu|exact H0|cbn [m_pos set_pos]; rewrite Hl; lia| |done].
  intros k s1 Hr1 Hk _ _ _ Hd1 Hfull _. wpe_step. apply HQ; [done|]. intros Hs1. specialize (Hfull Hs1). subst k.
  by rewrite take_ge in Hd1 by done.
Qed.

(** What the device holds in the end: both superblocks, and the summary of
    the log with its checksum. *)
Record formatted (d : list Z) : Prop := {
  fm_size : Z.of_nat (length d) = size;
  fm_sb : copy_at d NILFS_SB_OFFSET_BYTES = Some image;
  fm_sb2 : copy_at d (NILFS_SB2_OFFSET_BYTES size) = Some image;
  fm_log : exists covered x, 
    rd_bytes (put_fields (with_layout log_summary) (zeros o)) ss_sumsum_end (sumbytes ni - ss_sumsum_end) = Some covered /\
    let summary := with_layout log_summary ++ [(ss_sumsum_off, 4%nat, crc32_le seed covered); (ss_datasum_off, 4%nat, x)] in
    Forall (field_inside bs) summary /\ rd_bytes d (start * bs) bs = Some (put_fields summary (zeros o));
}.

(** The last writes, behind those of the log. *)
Lemma superblocks_ok fd s (Q : unit -> ms W -> Prop) : ready s -> ERASABLE <= size ->
  (forall s' s4, ready s' -> (short (m_world s') = false -> short (m_world s) = false /\
     disk (m_world s4) = put_bytes (disk (m_world s)) 1024 image /\
     disk (m_world s') = put_bytes (disk (m_world s4)) (NILFS_SB2_OFFSET_BYTES size) image) -> ready s4 -> Q tt s') ->
  triple (write_super_block fd NILFS_SB_OFFSET_BYTES ;;
          write_super_block fd (i64 (NILFS_SB2_OFFSET_BYTES size)) ;; fsync fd) Q s.
Proof using L SW Hsize Hdec Hvalid.
  intros Hr Her HQ. destruct log_fits as (Hf1 & Hf2 & _); [by etransitivity; [|exact Her]|].
  pose proof (geometry_range _ _ _ ready_geometry) as Hg. change ERASABLE with 1049600 in Her.
  assert (Hpos : 0 <= NILFS_SB2_OFFSET_BYTES size) by nia.
  change NILFS_SB_OFFSET_BYTES with 1024.
  wpe_step. apply wpe_full; [apply full_write_super_block|]. apply write_super_block_ok; [done|lia|lia|].
  intros s4 Hr4 Hd4 Hs4. wpe_step. rewrite i64_id by (unfold is_i64; lia).
  apply wpe_full; [apply full_write_super_block|]. apply write_super_block_ok; [done|lia|lia|]. intros s5 Hr5 Hd5 Hs5.
  apply wpe_full; [apply full_fsync|]. apply fsync_ok; [done|]. intros s6 Hr6 Hd6 Hs6. apply (HQ s6 s4); [done| |done].
  intros Hsh. rewrite Hd6. specialize (Hs6 Hsh). specialize (Hs5 Hs6). specialize (Hs4 Hs5).
  split; [done|]. split; [by apply Hd4|by apply Hd5].
Qed.

Lemma write_data_ok fd s (Q : unit -> ms W -> Prop) : ready s -> ERASABLE <= size ->
  (forall s', ready s' -> (short (m_world s') = false -> formatted (disk (m_world s'))) -> Q tt s') ->
  triple (write_data fd) Q s.
Proof using L SW Hsize Hdec Hvalid.
  intros Hr Her HQ. pose proof (geometry_range _ _ _ ready_geometry) as Hg. destruct log_fits as (Hf1 & Hf2 & _); [by etransitivity; [|exact Her]|].
  assert (Hfit : nblocks * bs <= size) by lia. assert (Hlow : start * bs + bs <= nblocks * bs) by nia.
  assert (Hdi : forall s', ready s' -> m_di s' = with_layout layout_of (all_raws o start ni)).
  { intros s' Hr'. exact (inv_di _ _ _ _ _ _ _ _ _ _ _ _ _ _ (ready_inv _ Hr')). }
  unfold write_data. wpe_step. wpe_step. rewrite (Hdi s Hr). cbn [di_seginfo di_dev_size layout_of].
  wpe_step. apply erase_disk_ok; [done|done|]. intros s1 Hr1. wpe_step. cbn [write_segments segment_of si_start_blocknr si_nblocks].
  wpe_step. wpe_step. unfold blocksize. rewrite (inv_opts _ _ _ _ _ _ _ _ _ _ _ _ _ _ (ready_inv _ Hr1)).
  rewrite u64_id, i64_id by (unfold is_u64, is_i64; nia). wpe_step. wpe_step. unfold lseek.
  destruct (Z.ltb_spec (start * bs) 0); [lia|]. wpe_step. wpe_step.
  apply write_blocks_ok; [by apply ready_pos|lia|lia|done|cbn; lia|]. intros s2 Hr2 Hon. wpe_step.
  wpe_step. apply wpe_full; [apply full_fsync|]. apply fsync_ok; [done|]. intros s3 Hr3 Hd3 Hs3. rewrite <- Hd3 in Hon. clear Hd3.
  pose proof (ry_size _ Hr3) as Hz3. destruct (image_ok _ Hr3) as [Hil Hiu].
  apply superblocks_ok; [done|done|]. intros s6 s4 Hr6 Hd Hr4. apply HQ; [done|]. intros Hsh.
  destruct (Hd Hsh) as (Hsh3 & Hd4 & Hd6). destruct (Hon (Hs3 Hsh3) eq_refl) as [Hon' _]. pose proof (ry_size _ Hr4) as Hz4.
  split; [apply Hr6| | |].
  - unfold copy_at. change NILFS_MAX_SB_SIZE with 1024. rewrite Hd6, rd_bytes_put_ne by (change NILFS_SB_OFFSET_BYTES with 1024; lia).
    rewrite Hd4. replace 1024 with (Z.of_nat (length image)) at 2 by lia. apply rd_bytes_put_eq; change NILFS_SB_OFFSET_BYTES with 1024; lia.
  - unfold copy_at. change NILFS_MAX_SB_SIZE with 1024. rewrite Hd6. replace 1024 with (Z.of_nat (length image)) by lia.
    apply rd_bytes_put_eq; lia.
  - destruct (ry_log _ Hr1) as [_ (cov & x & Hcov & Ho & Hin)]. exists cov, x. split; [exact Hcov|]. split; [exact Hin|].
    rewrite Hd6, rd_bytes_put_ne by nia. rewrite Hd4, rd_bytes_put_ne by nia.
    apply Hon'; [lia|]. exact Ho.
Qed.

(** The superblock that is written is valid, and its fields are these. *)
Abbreviation committed_fields := (with_layout (sb_committed o) uuid).
Abbreviation final_fields := (with_layout (sb_final o) uuid).

Lemma sb_fields_inside : Forall (field_inside 1024) committed_fields /\ Forall (field_inside 1024) final_fields.
Proof using.
  assert (Hc : Forall (field_inside 1024) committed_fields).
  { unfold sb_committed, sb_prepared, sb_values, initial_super_block.
    repeat (apply Forall_app; split); repeat constructor; cbn; lia. }
  split; [done|]. unfold sb_final. apply Forall_app. split; [done|]. repeat constructor; cbn; lia.
Qed.

Lemma fields_buffer l : Forall (field_inside 1024) l -> sb_buffer (put_fields l sb_zeros).
Proof using.
  intros Hl. assert (Hz : Z.of_nat (length sb_zeros) = 1024) by (unfold sb_zeros; by rewrite length_replicate).
  split; [apply Nat2Z.inj; exact (put_fields_length _ _ 1024 Hz Hl)|]. apply put_fields_u8. by apply Forall_replicate.
Qed.

Lemma fields_get l f v : Forall (field_inside 1024) l -> 0 <= f_size f ->
  last_field l (f_off f) (Z.to_nat (f_size f)) = Some v ->
  sb_bytes_of (put_fields l sb_zeros) f = le_bytes (Z.to_nat (f_size f)) v /\
  sb_get (put_fields l sb_zeros) f = v `mod` 256 ^ f_size f.
Proof using.
  intros Hl Hf Hv. assert (Hz : Z.of_nat (length sb_zeros) = 1024) by (unfold sb_zeros; by rewrite length_replicate).
  assert (Hb : sb_bytes_of (put_fields l sb_zeros) f = le_bytes (Z.to_nat (f_size f)) v).
  { unfold sb_bytes_of. rewrite <- (Z2Nat.id (f_size f)) at 1 by done.
    by rewrite (last_field_bytes _ _ 1024 _ _ v Hz Hl Hv). }
  split; [exact Hb|]. unfold sb_get. rewrite Hb, le_value_bytes. by rewrite Z2Nat.id.
Qed.

Lemma put_bytes_same (l : list Z) off bytes : 0 <= off -> off + Z.of_nat (length bytes) <= Z.of_nat (length l) ->
  rd_bytes l off (Z.of_nat (length bytes)) = Some bytes -> put_bytes l off bytes = l.
Proof using.
  intros H0 H1. unfold rd_bytes. destruct (_ && _); [|done]. intros [= Hb]. unfold put_bytes. rewrite Nat2Z.id in Hb.
  rewrite <- Hb at 1. rewrite <- drop_drop, take_drop. apply take_drop.
Qed.

Lemma put_last l f v : put_fields (l ++ [(f_off f, Z.to_nat (f_size f), v)]) sb_zeros =
  sb_put (put_fields l sb_zeros) f (le_bytes (Z.to_nat (f_size f)) v).
Proof using. by rewrite put_fields_app. Qed.

(** The checksum of a superblock whose checksum was zero when it was
    computed. *)
Lemma check_sum_sealed C seed' n v : sb_buffer C -> sb_get C s_crc_seed = seed' -> sb_get C s_bytes = n ->
  sb_bytes_of C s_sum = le_bytes 4 0 ->
  nilfs_sb_check_sum (sb_put C s_sum (le_bytes 4 v)) = crc32_le seed' (take (Z.to_nat n) C).
Proof using.
  intros Hb <- <- Hs. rewrite check_sum_put_sum by (done || apply le_bytes_length). unfold nilfs_sb_check_sum. do 2 f_equal.
  unfold sb_put. apply put_bytes_same; [done|by rewrite (proj1 Hb)|]. unfold sb_bytes_of in Hs.
  assert (Hr : is_Some (rd_bytes C (f_off s_sum) (f_size s_sum))) by (unfold rd_bytes; rewrite (proj1 Hb); by eexists).
  destruct Hr as [l Hr]. rewrite Hr in Hs. change (l = le_bytes 4 0) in Hs. by subst l.
Qed.

(** The superblock that is written is valid. *)
Lemma image_sum : nilfs_sb_check_sum image = with_layout (sb_crc o) uuid.
Proof using Hdec.
  destruct sb_fields_inside as [Hc _]. pose proof (dc_seed _ _ _ _ _ _ _ Hdec) as Hs. unfold is_u32 in Hs.
  unfold sb_image, sb_final. rewrite (put_last committed_fields s_sum). apply (check_sum_sealed _ _ 280).
  - by apply fields_buffer.
  - destruct (fields_get _ s_crc_seed seed Hc ltac:(done) eq_refl) as [_ ->]. apply Z.mod_small. cbn. lia.
  - by destruct (fields_get _ s_bytes NILFS_SB_BYTES Hc ltac:(done) eq_refl) as [_ ->].
  - by destruct (fields_get _ s_sum 0 Hc ltac:(done) eq_refl) as [-> _].
Qed.

Lemma image_get f v : 0 <= f_size f -> last_field final_fields (f_off f) (Z.to_nat (f_size f)) = Some v ->
  sb_bytes_of image f = le_bytes (Z.to_nat (f_size f)) v /\ sb_get image f = v `mod` 256 ^ f_size f.
Proof using. destruct sb_fields_inside as [_ Hf]. exact (fields_get _ f v Hf). Qed.

Lemma valid_by_fields sb n v : sb_get sb s_magic = NILFS_SUPER_MAGIC -> sb_get sb s_bytes = n -> n <= NILFS_MAX_SB_SIZE ->
  sb_get sb s_sum = v -> nilfs_sb_check_sum sb = v -> nilfs_sb_is_valid sb true = true.
Proof using.
  intros H1 H2 H3 H4 H5. unfold nilfs_sb_is_valid. rewrite H1, H2, H4, H5, !Z.eqb_refl. cbn [negb].
  destruct (Z.ltb_spec NILFS_MAX_SB_SIZE n); [lia|done].
Qed.

Lemma image_valid : nilfs_sb_is_valid image true = true.
Proof using Hdec.
  destruct sb_fields_inside as [_ Hf].
  assert (Hr : is_u32 (with_layout (sb_crc o) uuid)) by (rewrite <- image_sum; exact (check_sum_range _ (fields_buffer _ Hf))).
  apply (valid_by_fields _ 280 (with_layout (sb_crc o) uuid)); [| |done| |exact image_sum].
  - exact (proj2 (image_get s_magic NILFS_SUPER_MAGIC ltac:(done) eq_refl)).
  - exact (proj2 (image_get s_bytes NILFS_SB_BYTES ltac:(done) eq_refl)).
  - etransitivity; [exact (proj2 (image_get s_sum (with_layout (sb_crc o) uuid) ltac:(done) eq_refl))|].
    by apply Z.mod_small.
Qed.
End Write.

(** The fields of a superblock that describe what was asked for. *)
Record superblock_of (o : mkfs_options) (size : Z) (sb : list Z) : Prop := {
  so_device : sb_get sb s_dev_size = size;
  so_blocksize : 2 ^ (sb_get sb s_log_block_size + 10) = mo_blocksize o;
  so_nsegments : sb_get sb s_nsegments = segments_on o size;
  so_bps : sb_get sb s_blocks_per_segment = u32 (mo_blocks_per_segment o);
  so_percentage : sb_get sb s_r_segments_percentage = mo_r_segments_percentage o;
  so_label : sb_bytes_of sb s_volume_name = mo_volume_label o;
  so_features : features_of sb = u64 <$> mo_compat_array o;
  so_ctime : mo_creation_time o <> 0 -> sb_get sb s_ctime = u64 (mo_creation_time o);
  so_state : sb_get sb s_state = NILFS_VALID_FS;
  so_log : sb_get sb s_last_pseg = sb_get sb s_first_data_block /\ sb_get sb s_last_cno = first_cno /\
           sb_get sb s_last_seq = 0;
  so_header : NILFS_DISKHDR_SIZE <= sb_get sb s_first_data_block * mo_blocksize o;
}.

(** A device with both copies of such a superblock. *)
Definition file_system (o : mkfs_options) (d : list Z) : Prop := exists sb,
  copy_at d NILFS_SB_OFFSET_BYTES = Some sb /\ copy_at d (sb2_off d) = Some sb /\
  nilfs_sb_is_valid sb true = true /\ superblock_of o (Z.of_nat (length d)) sb.

Section Fields.
Context (o : mkfs_options) (size start ni bits ctime seed tw : Z) (uuid : list Z).
Hypothesis Hvalid : valid_options o.
Hypothesis Hdec : decided o size start ni bits ctime seed.
Hypothesis Hsize : 8192 <= size < 2 ^ 63.
Abbreviation with_layout f :=
  (f start ni size bits ctime seed (mo_blocks_per_segment o) (segments_on o size) tw).
Abbreviation image := (with_layout (sb_image o) uuid).

Lemma segments_range : 0 <= segments_on o size < 2 ^ 63.
Proof using Hvalid Hdec Hsize.
  destruct (log_fits o size start ni bits ctime seed Hvalid Hdec ltac:(lia) ltac:(lia)) as (Hf1 & Hf2 & _).
  destruct Hdec as [Hg _ _ _ _]. pose proof (geometry_range _ _ _ Hg) as Hgr. destruct (vo_bps o Hvalid) as [Hb _].
  unfold segments_on. assert (H0 : 0 <= NILFS_SB2_OFFSET_BYTES size) by nia. set (n := NILFS_SB2_OFFSET_BYTES size) in *.
  assert (H1 : 0 <= n / mo_blocksize o <= n) by (split; [apply Z.div_pos; lia|apply Z.div_le_upper_bound; nia]).
  split; [apply Z.div_pos; lia|]. apply Z.div_lt_upper_bound; [lia|]. nia.
Qed.

Lemma three_values (l : list Z) : sets l ->
  [u64 (default 0 (l !! 0%nat)); u64 (default 0 (l !! 1%nat)); u64 (default 0 (l !! 2%nat))] = u64 <$> l.
Proof using. by destruct l as [|a [|b [|c [|]]]]. Qed.

Lemma image_superblock : superblock_of o size image.
Proof using Hvalid Hdec Hsize.
  pose proof segments_range as Hseg. destruct Hdec as [Hg [Hbs Hbits] Hfit Hseed Hct]. pose proof (geometry_range _ _ _ Hg) as Hgr.
  destruct Hvalid as [_ Hb Hp [Hl Hl8] Hc _].
  pose proof (fun f v => image_get o size start ni bits ctime seed tw uuid f v) as Hget.
  assert (Hval : forall f v, 0 <= f_size f -> last_field (with_layout (sb_final o) uuid) (f_off f) (Z.to_nat (f_size f)) = Some v ->
    0 <= v < 256 ^ f_size f -> sb_get image f = v).
  { intros f v H0 H1 H2. destruct (Hget f v H0 H1) as [_ ->]. by apply Z.mod_small. }
  assert (Hfirst : sb_get image s_first_data_block = start) by (apply Hval; [done|reflexivity|cbn; lia]).
  split.
  - apply Hval; [done|reflexivity|cbn; lia].
  - rewrite (Hval s_log_block_size (bits - 10)); [|done|reflexivity|cbn; lia]. rewrite Hbs. f_equal. lia.
  - apply Hval; [done|reflexivity|cbn; lia].
  - exact (proj2 (Hget s_blocks_per_segment (mo_blocks_per_segment o) ltac:(done) eq_refl)).
  - apply Hval; [done|reflexivity|cbn; lia].
  - etransitivity; [exact (proj1 (Hget s_volume_name _ ltac:(done) eq_refl))|].
    change (Z.to_nat (f_size s_volume_name)) with 80%nat. rewrite <- Hl. by apply le_bytes_value.
  - rewrite <- (three_values _ Hc). unfold features_of. f_equal; [|f_equal; [|f_equal]].
    + exact (proj2 (Hget s_feature_compat _ ltac:(done) eq_refl)).
    + exact (proj2 (Hget s_feature_compat_ro _ ltac:(done) eq_refl)).
    + exact (proj2 (Hget s_feature_incompat _ ltac:(done) eq_refl)).
  - intros Hz. etransitivity; [exact (proj2 (Hget s_ctime ctime ltac:(done) eq_refl))|]. by rewrite (Hct Hz).
  - apply (Hval s_state NILFS_VALID_FS); [done|reflexivity|change NILFS_VALID_FS with 1; cbn; lia].
  - split; [|split].
    + rewrite Hfirst. apply Hval; [done|reflexivity|cbn; lia].
    + apply (Hval s_last_cno 1); [done|reflexivity|cbn; lia].
    + apply (Hval s_last_seq 0); [done|reflexivity|cbn; lia].
  - rewrite Hfirst. apply Hgr.
Qed.
End Fields.

Lemma formatted_file_system o start ni bits ctime seed tw uuid d : valid_options o ->
  let size := Z.of_nat (length d) in
  decided o size start ni bits ctime seed -> 8192 <= size < 2 ^ 63 ->
  formatted o size start ni bits ctime seed tw uuid d -> file_system o d.
Proof.
  intros Hv size Hdec Hs [_ H1 H2 _]. eexists. split; [exact H1|]. split; [exact H2|].
  split; [by eapply image_valid|]. by apply image_superblock.
Qed.

(** ** The whole program *)

Section Program.
Context {W : Type} {E : MkfsEnv W} {disk : W -> list Z} {L : MkfsLaws E disk}.
Context {short : W -> bool} {SW : ShortWrites E short}.
Context (d : list Z).
Hypothesis Hbytes : Forall is_u8 d.
Hypothesis Hsize : ERASABLE <= Z.of_nat (length d) < 2 ^ 63.
Implicit Types s : ms W.

(** The device has been made into a file system. *)
Definition made (o : mkfs_options) (d' : list Z) : Prop := exists start ni bits ctime seed tw uuid,
  decided o (Z.of_nat (length d)) start ni bits ctime seed /\
  formatted o (Z.of_nat (length d)) start ni bits ctime seed tw uuid d'.

(** What a run that succeeds leaves: with [-n] nothing new, else a device of
    the same size, and a file system unless a write was short. *)
Definition written (o : mkfs_options) (w : W) : Prop :=
  if mo_nflag o then disk w = d
  else length (disk w) = length d /\ (short w = false -> made o (disk w)).

(** How the program exits behind [open_device]. *)
Definition given_up (o : mkfs_options) (c : Z) s : Prop := c = EXIT_FAILURE /\
  (healthy (E := E) disk -> disk (m_world s) = d /\ ~ fits o (Z.of_nat (length d))).

Lemma make_file_system_ok o fd s : valid_options o -> start_state (disk := disk) d o s ->
  wpe (make_file_system fd) (fun _ s' => fits o (Z.of_nat (length d)) /\ written o (m_world s'))
    (fun _ _ => False) (given_up o) s.
Proof using L SW Hbytes Hsize.
  intros Hv Hs. change ERASABLE with 1049600 in Hsize. unfold make_file_system. wpe_step.
  eapply (wpe_mono _ _ _ (refused (disk := disk) d o)); [eapply (layout_ok d o); [done|lia|done|]|exact (fun a s' H => H)|done|].
  2: { intros c s' (H1 & H2 & H3). split; [done|]. intros Hh. split; [done|]. by destruct H3. }
  intros start ni bits ctime seed tw s1 Hs1 Hdi Hdec. assert (Hf := dc_fits _ _ _ _ _ _ _ Hdec). cbv beta. wpe_step.
  eapply (wpe_mono _ _ _ (failed (disk := disk) d)); [eapply (build_image_ok d o start ni bits ctime seed tw); [done..|]|exact (fun a s' H => H)|done|].
  2: { intros c s' (H1 & H2 & H3). by split. }
  intros uuid s2 [Hlog Hsb _]. assert (Hk := inv_opts _ _ _ _ _ _ _ _ _ _ _ _ _ _ (cm_inv _ _ _ _ _ _ _ _ _ _ _ _ _ _ Hlog)).
  assert (Hd2 := inv_disk _ _ _ _ _ _ _ _ _ _ _ _ _ _ (cm_inv _ _ _ _ _ _ _ _ _ _ _ _ _ _ Hlog)).
  assert (Hr : ready (disk := disk) o (Z.of_nat (length d)) start ni bits ctime seed tw uuid s2) by (split; rewrite ?Hd2; done).
  unfold write_disk, written. cbv beta. wpe_step. wpe_step. rewrite Hk. destruct (mo_nflag o); [by wpe_step|]. wpe_step. wpe_step.
  eapply (wpe_mono _ (fun _ s' => length (disk (m_world s')) = length d /\ (short (m_world s') = false ->
    formatted o (Z.of_nat (length d)) start ni bits ctime seed tw uuid (disk (m_world s'))))).
  - eapply write_data_ok; [done|done|lia|exact Hr|change ERASABLE with 1049600; lia|].
    intros s' Hr' Hfm. split; [|done]. apply Nat2Z.inj, Hr'.
  - intros [] s' [Hlen Hfm]. wpe_step. split; [done|]. split; [done|]. intros Hsh.
    exists start, ni, bits, ctime, seed, tw, uuid. auto.
  - intros e s' Hun. split; [done|]. intros Hh. by destruct Hun.
  - intros c s' [H1 H2]. by split.
Qed.

(** The two parts of the program, from the start. *)
Lemma mkfs_ends argv rest device s : byte_args argv -> m_opts s = default_options -> disk (m_world s) = d ->
  match open_device argv rest device s with
  | (Exit c, s1) => main argv rest device s = (Exit c, s1) /\ (c = EXIT_SUCCESS \/ c = EXIT_FAILURE) /\ disk (m_world s1) = d
  | (Ok fd, s1) =>
    let o := m_opts s1 in
    valid_options o /\ exists c s', main argv rest device s = (Exit c, s') /\
    ((c = EXIT_SUCCESS /\ fits o (Z.of_nat (length d)) /\ written o (m_world s')) \/ given_up o c s')
  | _ => False
  end.
Proof using L SW Hbytes Hsize.
  intros Ha Ho Hd. assert (Hp : parsed (disk := disk) d s).
  { split; [done|]. rewrite Ho. split; try done; [set_solver|by split; [|apply Forall_replicate]]. }
  pose proof (open_device_checked d argv rest device s (fun _ => checked (disk := disk) d) Ha Hp ltac:(auto)) as Hopen.
  unfold main, wpe, bind in *. destruct (open_device argv rest device s) as [[fd|e| |c|] s1]; try done.
  destruct Hopen as [Hd1 Hv]. split; [exact Hv|].
  pose proof (make_file_system_ok (m_opts s1) fd s1 Hv ltac:(by split)) as Hmk. unfold wpe in Hmk.
  destruct (make_file_system fd s1) as [[[]|e| |c|] s2]; try done.
  - exists EXIT_SUCCESS, s2. split; [done|]. by left.
  - exists c, s2. split; [done|]. by right.
Qed.
End Program.

(** C39: on a device of at least 1 MB + 1 KB, a file or a block device, and with
    pages of at most 64 KB, mkfs
    always exits with status 0 or 1; it never aborts, runs into an assertion or
    loops.  If the options and the checks let it through, status 0 means that
    the device fits and, unless -n was given, keeps its size and - if no write
    took fewer bytes than it was given, which mkfs does not notice for the log
    and the superblocks - now holds two equal and valid superblocks with the
    checksum, the geometry, the label, the features and the time asked for, and
    with the low 32 bits of the number of blocks per segment asked for.  As
    long as no system call fails and no write is short, status 1 means that
    the device is too small for the options and has not been touched.  If they
    do not let it through, the device has not been touched. *)
Theorem mkfs_outcome {W : Type} {E : MkfsEnv W} {disk : W -> list Z} {L : MkfsLaws E disk}
    {short : W -> bool} {SW : ShortWrites E short} argv rest device (w : W) :
  byte_args argv -> Forall is_u8 (disk w) -> ERASABLE <= Z.of_nat (length (disk w)) < 2 ^ 63 ->
  let s := initial_state w in
  match open_device argv rest device s with
  | (Exit c, s1) =>
    main argv rest device s = (Exit c, s1) /\ (c = EXIT_SUCCESS \/ c = EXIT_FAILURE) /\ disk (m_world s1) = disk w
  | (Ok fd, s1) =>
    let o := m_opts s1 in
    valid_options o /\ exists c s', main argv rest device s = (Exit c, s') /\
    ((c = EXIT_SUCCESS /\ fits o (Z.of_nat (length (disk w))) /\
      if mo_nflag o then disk (m_world s') = disk w
      else length (disk (m_world s')) = length (disk w) /\
           (short (m_world s') = false -> file_system o (disk (m_world s')))) \/
     (c = EXIT_FAILURE /\
      (healthy (E := E) disk -> disk (m_world s') = disk w /\ ~ fits o (Z.of_nat (length (disk w))))))
  | _ => False
  end.
Proof.
  intros Ha Hb Hs s. pose proof (mkfs_ends (disk w) Hb Hs argv rest device s Ha eq_refl eq_refl) as H.
  destruct (open_device argv rest device s) as [[fd|e| |c|] s1]; try done.
  destruct H as (Hv & c & s' & Hm & H). split; [done|]. exists c, s'. split; [done|].
  destruct H as [(Hc & Hf & H)|[Hc H]]; [left|by right]. split; [done|]. split; [done|]. unfold written in H.
  destruct (mo_nflag (m_opts s1)); [done|]. destruct H as [Hlen H]. split; [done|]. intros Hsh.
  destruct (H Hsh) as (start & ni & bits & ctime & seed & tw & uuid & Hdec & Hfm).
  rewrite <- Hlen in Hdec, Hfm. change ERASABLE with 1049600 in Hs.
  eapply formatted_file_system; [done|exact Hdec|lia|exact Hfm].
Qed.

(** ** A device that can be run *)

Module MkfsDemo.
Import TuneDemo.

(** The state is the contents of the device, a file of a little more than
    1 MB. *)
#[export] Instance demo_env : MkfsEnv (list Z) := {
  me_device := file_device;
  me_time := fun d => (1700000000, d);
  me_pagesize := 4096;
  me_stat := fun d => (inl S_IFREG, d);
  me_badblocks := fun d => (false, d);
  me_run_badblocks := fun _ d => (Exited 0, d);
  me_mounts := quiet_mounts;
  me_open := fun d => (inl 3, d);
  me_blkid := fun d => (Build_blkid_answer true 1 0 1 false false, d);
  me_input := fun d => [];
  me_memory := fun d i => 85;
  me_uuid_generate := fun d => (seqZ 1 16, d);
  me_discard := fun _ _ _ d => (true, d);
  me_discard_zeroes := fun _ d => (1, d);
  me_fsync := fun _ d => (true, d);
}.

#[export] Instance demo_laws : MkfsLaws demo_env (fun d : list Z => d).
Proof.
  split; cbn; try done.
  - exact (tl_disk (T := file_env) (disk := fun d : list Z => d)).
  - intros w. split; [done|]. split; [done|]. vm_compute. repeat constructor; discriminate.
  - intros _ n off w bs w' [= <- <-] Hw. by apply Forall_take, Forall_drop.
Qed.

(** A write that does not fit is an error, and not short. *)
#[export] Instance demo_short : ShortWrites demo_env (fun _ => false).
Proof.
  split; cbn; try done. intros _ bs off w r w'. case_if; intros [= <- <-]; cbn; [|done].
  symmetry. apply Z.ltb_irrefl.
Qed.

(** The device never fails. *)
Lemma demo_healthy : healthy (E := demo_env) (fun d => d).
Proof.
  split; cbn; try done; try (intros; by eexists).
  intros _ bs off w _ Hl. case_if; [done|lia].
Qed.

Definition image : list Z := replicate (Z.to_nat 1056768) 0.
Definition device : list Z := codes "disk.img".
Definition argv : list (Z * list Z) := [(98, codes "1024"); (66, codes "16"); (76, codes "root")].

Lemma argv_bytes : byte_args argv.
Proof. repeat constructor; vm_compute; repeat constructor; discriminate. Qed.

Lemma image_bytes : Forall is_u8 image.
Proof. by apply Forall_replicate. Qed.

Lemma image_length : Z.of_nat (length image) = 1056768.
Proof. unfold image. rewrite length_replicate. by apply Z2Nat.id. Qed.

(** The options that come out of the command line. *)
Definition demo_options : mkfs_options := Eval vm_compute in m_opts (open_device argv 1 device (initial_state ([] : list Z))).2.

Lemma demo_opened (img : list Z) :
  open_device argv 1 device (initial_state img) = (Ok 3, set_opts demo_options (initial_state img)).
Proof. vm_compute. reflexivity. Qed.

Lemma demo_fits : fits demo_options 1056768.
Proof. vm_compute. discriminate. Qed.
End MkfsDemo.
Import MkfsDemo.

Lemma mkfs_outcome_witness :
  exists s', main MkfsDemo.argv 1 MkfsDemo.device (initial_state MkfsDemo.image) = (Exit EXIT_SUCCESS, s') /\
    file_system MkfsDemo.demo_options (m_world s').
Proof.
  pose proof (mkfs_outcome (disk := fun d => d) (short := fun _ => false) MkfsDemo.argv 1 MkfsDemo.device MkfsDemo.image MkfsDemo.argv_bytes
    MkfsDemo.image_bytes ltac:(cbv beta; rewrite MkfsDemo.image_length; done)) as H. cbv beta zeta in H.
  rewrite MkfsDemo.demo_opened, MkfsDemo.image_length in H. destruct H as (_ & c & s' & Hm & H). exists s'.
  destruct H as [(-> & _ & H)|[_ H]].
  - split; [exact Hm|]. by apply H.
  - destruct (H MkfsDemo.demo_healthy) as [_ []]. exact MkfsDemo.demo_fits.
Defined.
