(* ===== verification/MkfsLog.v ===== *)
(** * The first log, as the library reads it

    What [Segment] finds in the first segment of a device that mkfs has made
    into a file system: one log, the five files that have blocks, and their
    blocks one after the other. *)

From Stdlib Require Import String.
From S2P Require Import Prelude Vector Hoare Ondisk Fields Crc32 Sb Kernel Nilfs Parser Ismounted Disk Feature Segment Bitops Tune Mkfs MkfsSpec MkfsBuild MkfsResult.

(** ** Reading *)

(** The first segment, where the superblock says it is. *)
Definition first_segment (d : list Z) : option nilfs_segment :=
  sb ← copy_at d NILFS_SB_OFFSET_BYTES;
  let blkbits := sb_get sb s_log_block_size + 10 in
  let start := sb_get sb s_first_data_block in
  let bps := sb_get sb s_blocks_per_segment in
  let segsize := (bps - start) * 2 ^ blkbits in
  addr ← rd_bytes d (start * 2 ^ blkbits) segsize;
  Some (mk_segment 0 addr segsize 0 0 start (bps - start) bps blkbits (sb_get sb s_crc_seed) false false).

(** The files of a log with the blocks that its descriptors name: offset in
    the file and number of the block. *)
Definition read_block (seg : nilfs_segment) (ino : Z) (b : nilfs_block) : option (Z * Z) :=
  off ← rd_le 8 (seg_addr seg) (bk_binfo b + if ino =? NILFS_DAT_INO then 0 else 8);
  Some (off, bk_blocknr b).

Definition read_file (seg : nilfs_segment) (ps : nilfs_psegment) (f : nilfs_file) : option (Z * list (Z * Z)) :=
  ino ← rd_le 8 (seg_addr seg) (fl_finfo f + fi_ino_off);
  '(blocks, _) ← nilfs_block_for_each seg ps f;
  l ← mapM (read_block seg ino) blocks;
  Some (ino, l).

Definition read_log (seg : nilfs_segment) (ps : nilfs_psegment) : option (list (Z * list (Z * Z))) :=
  '(files, last) ← nilfs_file_for_each seg ps;
  if nilfs_file_is_error last then None else mapM (read_file seg ps) files.

(** The files of the first log, from block [start] on, [ni] of them for the
    inode file. *)
Definition log_files (start ni : Z) : list (Z * list (Z * Z)) :=
  (fun f : Z * Z * Z => (f.1.1, (fun i => (i, f.1.2 + i)) <$> seqZ 0 f.2)) <$>
    [(NILFS_ROOT_INO, start + 1, 1); (NILFS_IFILE_INO, start + 2, ni); (NILFS_CPFILE_INO, start + 2 + ni, 1);
     (NILFS_SUFILE_INO, start + 3 + ni, 1); (NILFS_DAT_INO, start + 4 + ni, 3)].

(** ** Reading more memory *)

Lemma trace_more {I : Type} (e e' : I -> option (bool * I)) (n n' : I -> option I) fuel : forall fuel' it r,
  (forall i x, e i = Some x -> e' i = Some x) -> (forall i x, n i = Some x -> n' i = Some x) -> (fuel <= fuel')%nat ->
  trace fuel e n it = Some r -> trace fuel' e' n' it = Some r.
Proof.
  induction fuel as [|fuel IH]; intros fuel' it r He Hn Hf; [done|]. destruct fuel' as [|fuel']; [lia|]. cbn [trace].
  destruct (e it) as [[stop it']|] eqn:H1; [|done]. rewrite (He _ _ H1). cbn [mbind option_bind]. destruct stop; [done|].
  destruct (n it') as [it''|] eqn:H2; [|done]. rewrite (Hn _ _ H2). cbn [mbind option_bind].
  destruct (trace fuel e n it'') as [[l last]|] eqn:H3; [|done]. by rewrite (IH fuel' it'' _ He Hn ltac:(lia) H3).
Qed.

Lemma mapM_more {A B : Type} (f f' : A -> option B) l r : (forall x y, f x = Some y -> f' x = Some y) ->
  mapM f l = Some r -> mapM f' l = Some r.
Proof.
  intros Hf. revert r. induction l as [|x l IH]; intros r; cbn; [done|].
  destruct (f x) as [y|] eqn:H1; [|done]. rewrite (Hf _ _ H1). cbn.
  destruct (mapM f l) as [k|] eqn:H2; [|done]. by rewrite (IH k eq_refl).
Qed.

Section More.
Context (seg seg' : nilfs_segment) (rest : list Z).
Hypothesis Haddr : seg_addr seg' = seg_addr seg ++ rest.
Hypothesis Hsize : seg_segsize seg <= seg_segsize seg'.
Implicit Types (ps : nilfs_psegment) (f : nilfs_file).

(** A read of the smaller memory, if it is defined, is one of the larger. *)
Ltac more :=
  repeat match goal with
  | |- context [rd_le ?n (seg_addr seg) ?off] =>
    let H := fresh in
    destruct (rd_le n (seg_addr seg) off) eqn:H; [|done]; rewrite Haddr, (rd_le_more _ rest _ _ _ H);
    rewrite <- ?Haddr; cbn [mbind option_bind]
  | |- context [if ?b then _ else _] => destruct b
  end; try done.

Lemma info_size_more blkbits f x : nilfs_file_info_size seg blkbits f = Some x -> nilfs_file_info_size seg' blkbits f = Some x.
Proof using Haddr. unfold nilfs_file_info_size. more. Qed.

Lemma init_from_finfo_more blkbits f x :
  nilfs_file_init_from_finfo seg blkbits f = Some x -> nilfs_file_init_from_finfo seg' blkbits f = Some x.
Proof using Haddr.
  unfold nilfs_file_init_from_finfo. case_if; [done|]. more.
  match goal with |- context [nilfs_file_info_size seg ?b ?f] => destruct (nilfs_file_info_size seg b f) eqn:Hs; [|done] end.
  by rewrite (info_size_more _ _ _ Hs).
Qed.

Lemma file_init_more ps x : nilfs_file_init seg ps = Some x -> nilfs_file_init seg' ps = Some x.
Proof using Haddr. unfold nilfs_file_init. more. apply init_from_finfo_more. Qed.

Lemma file_is_valid_more ps f x : nilfs_file_is_valid seg ps f = Some x -> nilfs_file_is_valid seg' ps f = Some x.
Proof using Haddr. unfold nilfs_file_is_valid. case_if; [done|]. more. Qed.

Lemma file_is_end_more ps f x : nilfs_file_is_end seg ps f = Some x -> nilfs_file_is_end seg' ps f = Some x.
Proof using Haddr.
  unfold nilfs_file_is_end. case_if; [done|]. destruct (nilfs_file_is_valid seg ps f) eqn:Hv; [|done].
  by rewrite (file_is_valid_more _ _ _ Hv).
Qed.

Lemma file_next_more ps f x : nilfs_file_next seg ps f = Some x -> nilfs_file_next seg' ps f = Some x.
Proof using Haddr.
  unfold nilfs_file_next. more.
  match goal with |- context [nilfs_file_init_from_finfo seg ?b ?f] => destruct (nilfs_file_init_from_finfo seg b f) eqn:Hs; [|done] end.
  by rewrite (init_from_finfo_more _ _ _ Hs).
Qed.

Lemma file_for_each_more ps x : nilfs_file_for_each seg ps = Some x -> nilfs_file_for_each seg' ps = Some x.
Proof using Haddr Hsize.
  unfold nilfs_file_for_each. destruct (nilfs_file_init seg ps) as [f|] eqn:Hi; [|done].
  rewrite (file_init_more _ _ Hi). cbn [mbind option_bind].
  apply trace_more; [apply file_is_end_more|apply file_next_more|lia].
Qed.

Lemma block_for_each_more ps f x : nilfs_block_for_each seg ps f = Some x -> nilfs_block_for_each seg' ps f = Some x.
Proof using Haddr. unfold nilfs_block_for_each, nilfs_block_init. more. Qed.

Lemma read_file_more ps f x : read_file seg ps f = Some x -> read_file seg' ps f = Some x.
Proof using Haddr.
  unfold read_file. more. destruct (nilfs_block_for_each seg ps f) as [[blocks last]|] eqn:Hb; [|done].
  rewrite (block_for_each_more _ _ _ Hb). cbn [mbind option_bind].
  match goal with |- context [read_block seg ?ino] => destruct (mapM (read_block seg ino) blocks) as [l|] eqn:Hm; [|done] end.
  erewrite mapM_more; [done| |exact Hm]. intros b y. unfold read_block. more.
Qed.

Lemma read_log_more ps x : read_log seg ps = Some x -> read_log seg' ps = Some x.
Proof using Haddr Hsize.
  unfold read_log. destruct (nilfs_file_for_each seg ps) as [[files last]|] eqn:Hf; [|done].
  rewrite (file_for_each_more _ _ Hf). cbn [mbind option_bind]. case_if; [done|]. apply mapM_more, read_file_more.
Qed.
End More.

(** ** The summary that mkfs writes *)

(** The summary, whatever the times, the next segment and the checksums. *)
Definition summary_fields (start ni ctime next c1 c2 : Z) : list field :=
  [(ss_magic_off, 4%nat, NILFS_SEGSUM_MAGIC); (ss_bytes_off, 2%nat, sizeof_segment_summary);
   (ss_flags_off, 2%nat, 7); (ss_seq_off, 8%nat, 0); (ss_create_off, 8%nat, ctime);
   (ss_next_off, 8%nat, next); (ss_nblocks_off, 4%nat, 8 + ni); (ss_nfinfo_off, 4%nat, 5);
   (ss_sumbytes_off, 4%nat, sumbytes ni); (ss_cno_off, 8%nat, 1)] ++
  log_fields (base_files start ni) sizeof_segment_summary 1 ++
  [(ss_sumsum_off, 4%nat, c1); (ss_datasum_off, 4%nat, c2)].

Definition head_of (l : list field) : list Z := put_fields l (replicate 320 0).

(** A segment that begins with the summary. *)
Definition summary_segment (start ni bits ctime next c1 c2 : Z) : nilfs_segment :=
  mk_segment 0 (head_of (summary_fields start ni ctime next c1 c2)) 320 0 0 start 0 0 bits 0 false false.

Lemma summary_log start ni bits ctime next c1 c2 : geometry (2 ^ bits) start ni -> 10 <= bits <= 16 ->
  read_log (summary_segment start ni bits ctime next c1 c2) (mk_psegment 0 start (8 + ni) bits 0) = Some (log_files start ni).
Proof.
  intros Hg Hb. assert (bits = 10 /\ start = 4 /\ ni = 4 \/ bits = 11 /\ start = 2 /\ ni = 3 \/
    (bits = 12 \/ bits = 13 \/ bits = 14 \/ bits = 15 \/ bits = 16) /\ start = 1 /\ ni = 3) as Hc.
  { unfold geometry in Hg.
    assert (bits = 10 \/ bits = 11 \/ bits = 12 \/ bits = 13 \/ bits = 14 \/ bits = 15 \/ bits = 16) as Hk by lia.
    destruct Hk as [->|[->|[->|[->|[->|[->| ->]]]]]]; cbn in Hg; lia. }
  destruct Hc as [(-> & -> & ->)|[(-> & -> & ->)|(Hk & -> & ->)]]; [vm_compute; reflexivity..|].
  destruct Hk as [->|[->|[->|[->| ->]]]]; vm_compute; reflexivity.
Qed.

Lemma summary_geometry bits start ni : geometry (2 ^ bits) start ni -> start = 4 /\ ni = 4 \/ start = 2 /\ ni = 3 \/ start = 1 /\ ni = 3.
Proof. unfold geometry. lia. Qed.

Lemma summary_inside start ni ctime next c1 c2 bits : geometry (2 ^ bits) start ni ->
  Forall (field_inside 320) (summary_fields start ni ctime next c1 c2).
Proof. intros [[-> ->]|[[-> ->]|[-> ->]]]%summary_geometry; vm_compute; repeat constructor; discriminate. Qed.

Section FirstLog.
Context (seg : nilfs_segment) (start ni bits ctime next c1 c2 : Z) (rest covered : list Z).
Hypothesis Hg : geometry (2 ^ bits) start ni.
Hypothesis Hbits : 10 <= bits <= 16.
Abbreviation head := (head_of (summary_fields start ni ctime next c1 c2)).
Hypothesis Haddr : seg_addr seg = head ++ rest.
Hypothesis Hblocknr : seg_blocknr seg = start.
Hypothesis Hnblocks : 8 + ni <= seg_nblocks seg < 2 ^ 32.
Hypothesis Hblkbits : seg_blkbits seg = bits.
Hypothesis Hsegsize : seg_segsize seg = seg_nblocks seg * 2 ^ bits.
Hypothesis Hcovered : rd_bytes head ss_sumsum_end (sumbytes ni - ss_sumsum_end) = Some covered.
Hypothesis Hsum : c1 = crc32_le (seg_seed seg) covered /\ is_u32 c1.

Definition first_ps : nilfs_psegment := mk_psegment 0 start (8 + ni) bits 0.

Lemma head_read off n v : last_field (summary_fields start ni ctime next c1 c2) off n = Some v -> 0 <= v < 256 ^ Z.of_nat n ->
  rd_le (Z.of_nat n) (seg_addr seg) off = Some v.
Proof using Haddr Hg.
  intros Hl Hv. rewrite Haddr. apply rd_le_more. unfold head_of.
  rewrite (last_field_le _ _ 320 _ _ v); [by rewrite Z.mod_small|by rewrite length_replicate|by eapply summary_inside|done].
Qed.

Lemma first_ps_sane : psegment_sanity seg first_ps 64 (256 + 16 * ni) (8 + ni) = None.
Proof using Hg Hbits Hblocknr Hnblocks.
  pose proof (geometry_range _ _ _ Hg) as Hgr. unfold psegment_sanity, first_ps. cbn [ps_blocknr ps_blkbits].
  rewrite Hblocknr. rewrite Z.shiftl_1_l, Z.shiftr_div_pow2 by lia. rewrite !u64_id by (unfold is_u64; lia).
  replace ((256 + 16 * ni + 2 ^ bits - 1) / 2 ^ bits) with 1 by (apply (Z.div_unique_pos _ _ _ (256 + 16 * ni - 1)); lia).
  change (u32 1) with 1. destruct (Z.ltb_spec (start + seg_nblocks seg) (start + (8 + ni))); [lia|].
  destruct (Z.ltb_spec (256 + 16 * ni) 64); [lia|]. by destruct (Z.leb_spec (8 + ni) 1); [lia|].
Qed.

Lemma first_ps_valid : nilfs_psegment_is_valid seg first_ps = Some (true, first_ps).
Proof using All.
  assert (Hf : last_field (summary_fields start ni ctime next c1 c2) 8 4 = Some NILFS_SEGSUM_MAGIC /\
    last_field (summary_fields start ni ctime next c1 c2) 48 4 = Some (sumbytes ni) /\
    last_field (summary_fields start ni ctime next c1 c2) 4 4 = Some c1 /\
    last_field (summary_fields start ni ctime next c1 c2) 12 2 = Some 64 /\
    last_field (summary_fields start ni ctime next c1 c2) 40 4 = Some (8 + ni)).
  { destruct (summary_geometry _ _ _ Hg) as [[-> ->]|[[-> ->]|[-> ->]]]; by split_and!. }
  destruct Hf as (F1 & F2 & F3 & F4 & F5). pose proof (geometry_range _ _ _ Hg) as Hgr. destruct Hsum as [Hcrc Hc1].
  unfold is_u32 in Hc1. unfold sumbytes in F2.
  assert (R1 : rd_le 4 (seg_addr seg) 8 = Some NILFS_SEGSUM_MAGIC) by (apply (head_read 8 4 _ F1); done).
  assert (R2 : rd_le 4 (seg_addr seg) 48 = Some (256 + 16 * ni)) by (apply (head_read 48 4 _ F2); cbn; lia).
  assert (R3 : rd_le 4 (seg_addr seg) 4 = Some c1) by (apply (head_read 4 4 _ F3); cbn; lia).
  assert (R4 : rd_le 2 (seg_addr seg) 12 = Some 64) by (apply (head_read 12 2 _ F4); done).
  assert (R5 : rd_le 4 (seg_addr seg) 40 = Some (8 + ni)) by (apply (head_read 40 4 _ F5); cbn; lia).
  unfold nilfs_psegment_is_valid, ss_magic_off, ss_sumbytes_off, ss_bytes_off, ss_nblocks_off.
  change (ps_segsum first_ps) with 0. rewrite !Z.add_0_l.
  rewrite R1. cbn [mbind option_bind]. rewrite Z.eqb_refl, R2. cbn [negb mbind option_bind].
  destruct (Z.ltb_spec (256 + 16 * ni) ss_sumsum_end) as [H|_]; [unfold ss_sumsum_end in H; lia|].
  destruct (Z.leb_spec (seg_segsize seg) (0 + (256 + 16 * ni))) as [H|_]; [rewrite Hsegsize in H; nia|]. cbn [orb].
  rewrite R3. cbn [mbind option_bind]. pose proof Hcovered as Hcov. unfold sumbytes in Hcov.
  rewrite Haddr, (rd_bytes_more _ rest _ _ _ Hcov), <- Haddr. cbn [mbind option_bind].
  rewrite <- Hcrc, Z.eqb_refl, R4. cbn [negb mbind option_bind]. rewrite R5. cbn [mbind option_bind].
  by rewrite first_ps_sane.
Qed.

(** The log is the only one, and the library reads its files. *)
Lemma first_log_read : exists last, nilfs_psegment_for_each seg (8 + ni) = Some ([first_ps], last) /\
  nilfs_psegment_is_error last = false /\ read_log seg first_ps = Some (log_files start ni).
Proof using All.
  pose proof (geometry_range _ _ _ Hg) as Hgr.
  assert (Hinit : nilfs_psegment_init seg (8 + ni) = first_ps).
  { unfold nilfs_psegment_init, first_ps. rewrite Hblocknr, Hblkbits. f_equal. lia. }
  assert (F5 : last_field (summary_fields start ni ctime next c1 c2) 40 4 = Some (8 + ni))
    by (destruct (summary_geometry _ _ _ Hg) as [[-> ->]|[[-> ->]|[-> ->]]]; reflexivity).
  assert (R5 : rd_le 4 (seg_addr seg) 40 = Some (8 + ni)) by (apply (head_read 40 4 _ F5); cbn; lia).
  set (ps' := mk_psegment (0 + u64 (Z.shiftl (8 + ni) bits)) (u64 (start + (8 + ni))) 0 bits 0).
  assert (He : nilfs_psegment_is_end seg first_ps = Some (false, first_ps)).
  { unfold nilfs_psegment_is_end, NILFS_PSEG_MIN_BLOCKS. change (ps_blkcnt first_ps) with (8 + ni).
    destruct (Z.ltb_spec (8 + ni) 2); [lia|]. by rewrite first_ps_valid. }
  assert (Hn : nilfs_psegment_next seg first_ps = Some ps').
  { unfold nilfs_psegment_next, ss_nblocks_off. change (ps_segsum first_ps) with 0. rewrite Z.add_0_l, R5. cbn [mbind option_bind].
    change (ps_blkcnt first_ps) with (8 + ni). rewrite Z.leb_refl, Z.sub_diag. done. }
  assert (Hl : nilfs_psegment_is_end seg ps' = Some (true, ps')) by done.
  assert (Hnoerr : nilfs_psegment_is_error ps' = false) by done. clearbody ps'.
  unfold nilfs_psegment_for_each. rewrite Hinit. destruct (Z.to_nat (seg_nblocks seg)) as [|k] eqn:Hk; [lia|].
  cbn [trace]. rewrite He. cbn [mbind option_bind]. rewrite Hn. cbn [mbind option_bind]. rewrite Hl. cbn [mbind option_bind].
  exists ps'. split; [done|]. split; [done|].
  eapply (read_log_more (summary_segment start ni bits ctime next c1 c2) seg rest); [exact Haddr| |by apply summary_log].
  cbn. rewrite Hsegsize. nia.
Qed.
End FirstLog.

(** ** The segment on the device *)

Lemma zeros_split o : 320 <= mo_blocksize o -> zeros o = replicate 320 0 ++ replicate (Z.to_nat (mo_blocksize o) - 320) 0.
Proof. intros Hb. unfold zeros. rewrite <- replicate_add. f_equal. lia. Qed.

(** What the checksum of the summary covers does not contain the checksums. *)
Lemma covered_head o l c x k covered : 320 <= mo_blocksize o -> 8 + k <= 320 ->
  Forall (field_inside 320) (l ++ [(ss_sumsum_off, 4%nat, c); (ss_datasum_off, 4%nat, x)]) ->
  rd_bytes (put_fields l (zeros o)) ss_sumsum_end k = Some covered ->
  rd_bytes (head_of (l ++ [(ss_sumsum_off, 4%nat, c); (ss_datasum_off, 4%nat, x)])) ss_sumsum_end k = Some covered.
Proof.
  intros Hb Hk [Hl _]%Forall_app Hc. unfold head_of.
  assert (Hz : Z.of_nat (length (replicate 320 0)) = 320) by by rewrite length_replicate.
  rewrite zeros_split in Hc by done. rewrite put_fields_prefix in Hc by by rewrite Hz.
  assert (Hlen : Z.of_nat (length (put_fields l (replicate 320 0))) = 320) by by apply put_fields_length.
  apply rd_bytes_less in Hc; [|rewrite Hlen; exact Hk]. rewrite put_fields_app. set (h := put_fields l (replicate 320 0)) in *. clearbody h.
  change (rd_bytes (put_bytes (put_bytes h 4 (le_bytes 4 c)) 0 (le_bytes 4 x)) 8 k = Some covered). change (rd_bytes h 8 k = Some covered) in Hc.
  assert (Hlen1 : Z.of_nat (length (put_bytes h 4 (le_bytes 4 c))) = 320) by (rewrite put_bytes_length by (rewrite ?le_bytes_length; lia); done).
  rewrite rd_bytes_put_ne by (rewrite ?Hlen1, ?Hlen, ?le_bytes_length; lia).
  rewrite rd_bytes_put_ne by (rewrite ?Hlen1, ?Hlen, ?le_bytes_length; lia). done.
Qed.

Section Formatted.
Context (o : mkfs_options) (size start ni bits ctime seed tw : Z) (uuid d : list Z).
Hypothesis Hvalid : valid_options o.
Hypothesis Hbps : mo_blocks_per_segment o < 2 ^ 32.
Hypothesis Hdec : decided o size start ni bits ctime seed.
Hypothesis Hsize : 8192 <= size < 2 ^ 63.
Hypothesis Hd : formatted o size start ni bits ctime seed tw uuid d.
Abbreviation bs := (mo_blocksize o).
Abbreviation bps := (mo_blocks_per_segment o).
Abbreviation with_layout f := (f start ni size bits ctime seed (mo_blocks_per_segment o) (segments_on o size) tw).

Definition segment_at (addr : list Z) : nilfs_segment :=
  mk_segment 0 addr ((bps - start) * bs) 0 0 start (bps - start) bps bits seed false false.

(** The first segment is where the superblock says it is. *)
Lemma first_segment_at : exists addr, rd_bytes d (start * bs) ((bps - start) * bs) = Some addr /\ first_segment d = Some (segment_at addr).
Proof using All.
  destruct Hd as [Hlen Hsb _ _].
  destruct (log_fits o size start ni bits ctime seed Hvalid Hdec ltac:(lia) ltac:(lia)) as (_ & Hf2 & Hf3).
  pose proof (dc_geometry _ _ _ _ _ _ _ Hdec) as Hg. destruct (dc_bits _ _ _ _ _ _ _ Hdec) as [Hbs Hbits].
  pose proof (geometry_range _ _ _ Hg) as Hgr. destruct (vo_bps o Hvalid) as [Hb _].
  assert (Hget : forall f v, 0 <= f_size f -> last_field (with_layout (sb_final o) uuid) (f_off f) (Z.to_nat (f_size f)) = Some v ->
      0 <= v < 256 ^ f_size f -> sb_get (with_layout (sb_image o) uuid) f = v).
  { intros f v H0 H1 H2. destruct (image_get o size start ni bits ctime seed tw uuid f v H0 H1) as [_ ->]. by apply Z.mod_small. }
  pose proof (dc_seed _ _ _ _ _ _ _ Hdec) as Hseed. unfold is_u32 in Hseed.
  assert (G1 := Hget s_first_data_block start ltac:(done) eq_refl ltac:(cbn; lia)).
  assert (G2 := Hget s_blocks_per_segment bps ltac:(done) eq_refl ltac:(cbn; lia)).
  assert (G3 := Hget s_log_block_size (bits - 10) ltac:(done) eq_refl ltac:(cbn; lia)).
  assert (G4 := Hget s_crc_seed seed ltac:(done) eq_refl ltac:(cbn; lia)).
  unfold first_segment. rewrite Hsb. cbn [mbind option_bind]. cbv zeta. rewrite G1, G2, G3, G4.
  replace (bits - 10 + 10) with bits by lia. rewrite <- Hbs.
  destruct (rd_bytes_some d (start * bs) ((bps - start) * bs)) as [addr Haddr]; [nia|nia|nia|].
  exists addr. split; [exact Haddr|]. rewrite Haddr. reflexivity.
Qed.

(** It begins with the summary. *)
Lemma segment_summary addr : rd_bytes d (start * bs) ((bps - start) * bs) = Some addr ->
  exists next c1 c2 covered rest, addr = head_of (summary_fields start ni ctime next c1 c2) ++ rest /\
    rd_bytes (head_of (summary_fields start ni ctime next c1 c2)) ss_sumsum_end (sumbytes ni - ss_sumsum_end) = Some covered /\
    c1 = crc32_le seed covered /\ is_u32 c1.
Proof using All.
  intros Haddr. destruct Hd as [_ _ _ (covered & x & Hcov & Hin & Hblk)]. cbv zeta in Hin, Hblk.
  pose proof (dc_geometry _ _ _ _ _ _ _ Hdec) as Hg. destruct (dc_bits _ _ _ _ _ _ _ Hdec) as [Hbs Hbits].
  pose proof (geometry_range _ _ _ Hg) as Hgr. destruct (vo_bps o Hvalid) as [Hb _].
  set (c1 := crc32_le seed covered) in *. set (next := ni_next (fs_before start ni size bits ctime seed bps (segments_on o size) tw)).
  assert (Hsum : with_layout log_summary ++ [(ss_sumsum_off, 4%nat, c1); (ss_datasum_off, 4%nat, x)] = summary_fields start ni ctime next c1 x)
    by (unfold log_summary; by rewrite <- app_assoc).
  assert (H320 : Forall (field_inside 320) (with_layout log_summary ++ [(ss_sumsum_off, 4%nat, c1); (ss_datasum_off, 4%nat, x)])).
  { rewrite Hsum. rewrite Hbs in Hg. by eapply summary_inside. }
  assert (Hu : Forall is_u8 covered).
  { eapply rd_bytes_u8; [exact Hcov|]. apply put_fields_u8. by apply Forall_replicate. }
  pose proof (rd_bytes_prefix _ _ _ bs _ Haddr ltac:(nia)) as Hpre. rewrite Hblk in Hpre. apply (inj Some) in Hpre.
  rewrite zeros_split, put_fields_prefix in Hpre by (lia || by rewrite length_replicate).
  exists next, c1, x, covered. eexists. rewrite <- Hsum. split.
  { etransitivity; [symmetry; apply (take_drop (Z.to_nat bs))|]. rewrite <- Hpre, <- app_assoc. reflexivity. }
  split; [apply (covered_head o); [lia|unfold sumbytes, ss_sumsum_end; lia|exact H320|exact Hcov]|].
  split; [done|]. apply crc32_le_range; [apply Hdec|exact Hu].
Qed.

(** The first segment of a device that mkfs has written, and its log. *)
Lemma formatted_log : exists seg last, first_segment d = Some seg /\ seg_blocknr seg = start /\
  count_ifile_blocks bs = Some ni /\ nilfs_psegment_for_each seg (8 + ni) = Some ([first_ps start ni bits], last) /\
  nilfs_psegment_is_error last = false /\ read_log seg (first_ps start ni bits) = Some (log_files start ni).
Proof using All.
  destruct first_segment_at as (addr & Haddr & Hseg). destruct (segment_summary addr Haddr) as (next & c1 & c2 & covered & rest & Ha & Hc & Hs).
  pose proof (dc_geometry _ _ _ _ _ _ _ Hdec) as Hg. destruct (dc_bits _ _ _ _ _ _ _ Hdec) as [Hbs Hbits].
  pose proof (geometry_range _ _ _ Hg) as Hgr. destruct (vo_bps o Hvalid) as [Hb _].
  destruct (first_log_read (segment_at addr) start ni bits ctime next c1 c2 rest covered) as (last & H1 & H2 & H3);
    [by rewrite <- Hbs|done|exact Ha|done|cbn [seg_nblocks segment_at]; lia|done|cbn; by rewrite <- Hbs|exact Hc|exact Hs|].
  exists (segment_at addr), last. split; [exact Hseg|]. split; [done|]. split; [|done].
  apply (built_segment o start ni Hg).
Qed.
End Formatted.

(** C40: what mkfs writes is what the library reads.  After a run that writes
    a file system, and in which no write took fewer bytes than it was given
    (mkfs does not look at the counts), the log iterator, started on the first
    segment where the superblock says and with the number of blocks that mkfs
    uses of it, finds exactly one log, whose magic, checksum and sizes it
    accepts; and the file and block iterators find in it the root directory,
    the inode file, the checkpoint file, the segment usage file and the DAT, in
    this order, with their blocks numbered one after the other behind the
    summary.  The number of blocks in a segment must fit in the 32 bits of
    its field. *)
Theorem mkfs_first_log {W : Type} {E : MkfsEnv W} {disk : W -> list Z} {L : MkfsLaws E disk}
    {short : W -> bool} {SW : ShortWrites E short} argv rest device (w : W) fd s1 s' :
  byte_args argv -> Forall is_u8 (disk w) -> ERASABLE <= Z.of_nat (length (disk w)) < 2 ^ 63 ->
  open_device argv rest device (initial_state w) = (Ok fd, s1) ->
  main argv rest device (initial_state w) = (Exit EXIT_SUCCESS, s') ->
  mo_nflag (m_opts s1) = false -> mo_blocks_per_segment (m_opts s1) < 2 ^ 32 -> short (m_world s') = false ->
  exists seg ni ps last, first_segment (disk (m_world s')) = Some seg /\
    count_ifile_blocks (mo_blocksize (m_opts s1)) = Some ni /\
    nilfs_psegment_for_each seg (8 + ni) = Some ([ps], last) /\ nilfs_psegment_is_error last = false /\
    read_log seg ps = Some (log_files (seg_blocknr seg) ni).
Proof.
  intros Ha Hb Hs Hopen Hmain Hn Hbps Hsh. pose proof (mkfs_ends (disk w) Hb Hs argv rest device (initial_state w) Ha eq_refl eq_refl) as H.
  rewrite Hopen in H. destruct H as (Hv & c & s2 & Hm & H). rewrite Hmain in Hm. injection Hm as <- <-.
  destruct H as [(_ & _ & H)|[Hc _]]; [|done]. unfold written in H. rewrite Hn in H. destruct H as [_ H]. specialize (H Hsh).
  destruct H as (start & ni & bits & ctime & seed & tw & uuid & Hdec & Hfm). change ERASABLE with 1049600 in Hs.
  destruct (formatted_log (m_opts s1) _ start ni bits ctime seed tw uuid _ Hv Hbps Hdec ltac:(lia) Hfm)
    as (seg & last & H1 & H2 & H3 & H4 & H5 & H6).
  exists seg, ni, (first_ps start ni bits), last. by rewrite H2.
Qed.

Import MkfsDemo.

Lemma mkfs_first_log_witness :
  exists s', main MkfsDemo.argv 1 MkfsDemo.device (initial_state MkfsDemo.image) = (Exit EXIT_SUCCESS, s') /\
    exists seg ps last, first_segment (m_world s') = Some seg /\ nilfs_psegment_for_each seg 12 = Some ([ps], last) /\
      read_log seg ps = Some (log_files (seg_blocknr seg) 4).
Proof.
  assert (Hl : ERASABLE <= Z.of_nat (length MkfsDemo.image) < 2 ^ 63) by by rewrite MkfsDemo.image_length.
  pose proof (mkfs_ends (disk := fun d => d) (short := fun _ => false) MkfsDemo.image MkfsDemo.image_bytes Hl MkfsDemo.argv 1 MkfsDemo.device
    (initial_state MkfsDemo.image) MkfsDemo.argv_bytes eq_refl eq_refl) as H.
  cbv beta zeta in H. rewrite MkfsDemo.demo_opened in H. destruct H as (_ & c & s' & Hm & H).
  assert (Hc : c = EXIT_SUCCESS).
  { destruct H as [[Hc _]|[_ H]]; [done|]. destruct (H MkfsDemo.demo_healthy) as [_ Hf]. exfalso. apply Hf.
    rewrite MkfsDemo.image_length. exact MkfsDemo.demo_fits. }
  subst c. exists s'. split; [exact Hm|].
  destruct (mkfs_first_log (disk := fun d => d) (short := fun _ => false) MkfsDemo.argv 1 MkfsDemo.device MkfsDemo.image 3
    (set_opts MkfsDemo.demo_options (initial_state MkfsDemo.image)) s' MkfsDemo.argv_bytes MkfsDemo.image_bytes Hl
    (MkfsDemo.demo_opened _) Hm eq_refl eq_refl eq_refl) as (seg & ni & ps & last & H1 & H2 & H3 & _ & H4).
  change (count_ifile_blocks (mo_blocksize MkfsDemo.demo_options) = Some ni) in H2. vm_compute in H2. injection H2 as <-.
  exists seg, ps, last. split; [exact H1|]. split; [exact H3|exact H4].
Defined.
