(* ===== verification/Mock.v ===== *)
(** * A concrete kernel

    An instance of the class [Kernel] that can be run: a device that holds one
    dirty segment with one log of two blocks, one of which is live, and a
    world that records the state of the lock and the requests to clean.  It
    shows that the hypotheses of the theorems can hold, and lets the programs
    be evaluated. *)

From S2P Require Import Prelude Vector Hoare Ondisk Crc32 Sb Kernel Nilfs Segment Gc GcProtocol FileSystem Collect Reclaim ReclaimSpec.

Record world := mk_world {
  mw_held : bool; mw_unsafe : bool; mw_blocked : bool; mw_cleaned : list clean_request;
  mw_clock : Z;
}.

Definition set_held (w : world) (b : bool) : world :=
  mk_world b (mw_unsafe w) (mw_blocked w) (mw_cleaned w) (mw_clock w).
Definition set_blocked (w : world) (b : bool) : world :=
  mk_world (mw_held w) (mw_unsafe w) b (mw_cleaned w) (mw_clock w).
Definition note_change (w : world) : world :=
  mk_world (mw_held w) (mw_unsafe w || negb (mw_held w)) (mw_blocked w) (mw_cleaned w) (mw_clock w).
Definition note_clean (r : clean_request) (w : world) : world :=
  let w := note_change w in
  mk_world (mw_held w) (mw_unsafe w) (mw_blocked w) (mw_cleaned w ++ [r]) (mw_clock w).

(** A file system of four segments of sixteen 1 KB blocks. *)
Definition mock_sb : list Z :=
  foldl Demo.put (replicate 1024 0)
    [(0x06, 2%nat, NILFS_SUPER_MAGIC); (0x08, 2%nat, 280); (0x0c, 4%nat, Demo.seed);
     (0x18, 8%nat, 4); (0x28, 8%nat, 2); (0x30, 4%nat, 16); (0x34, 4%nat, 5)].

(** The device: the superblock, and segment 1, with the log of [Segment.Demo] in its first blocks,
    and zeros everywhere else. *)
Definition device_byte_range (n off : Z) : list Z :=
  if off =? NILFS_SB_OFFSET_BYTES then take (Z.to_nat n) mock_sb
  else take (Z.to_nat n) (drop (Z.to_nat (off - 16384)) (seg_addr Demo.segment)
                          ++ replicate (Z.to_nat n) 0).

#[export] Instance mock_device : Device world := {
  dev_alloc := fun n w => (n <? 2 ^ 32, w);
  dev_errno := fun _ => EIO;
  dev_fstat := fun _ w => (inl (S_IFREG, 65536), w);
  dev_getsize64 := fun _ w => (inl 65536, w);
  dev_pread := fun _ n off w => (inl (device_byte_range n off), w);
  dev_pwrite := fun _ bs _ w => (inl (Z.of_nat (length bs)), w);
}.

(** Virtual block 100 is in use since checkpoint 1; 101 was overwritten at 2. *)
Definition period_of (vblocknr : Z) : Z * Z := if vblocknr =? 100 then (1, NILFS_CNO_MAX) else (1, 2).

Definition mock_fs : fs := {|
  fs_snaps := [];
  fs_dat := fun n => let '(a, b) := period_of n in mk_period a b;
  fs_where := fun _ _ _ => 0;
  fs_sui := fun _ => mk_suinfo 0 4 2;
  fs_bytes := fun off n => device_byte_range n off;
  fs_sb := mock_sb;
|}.

(** Four checkpoints; none of them is a snapshot. *)
Definition mock_checkpoints : list nilfs_cpinfo :=
  (fun cno => mk_cpinfo 0 cno (100 * cno) 5 1 10 0) <$> [2; 3; 5; 8].

#[export] Instance mock_kernel : Kernel world := {
  k_device := mock_device;
  k_pagesize := fun _ => 4096;
  k_junk := fun _ => 0;
  k_mmap := fun _ _ _ w => (inr ENODEV, w);
  k_munmap := fun _ _ w => (inl tt, w);
  ioc_change_cpmode := fun _ _ _ w => (inl tt, note_change w);
  ioc_get_cpinfo := fun _ n index mode w =>
    (inl (if mode =? NILFS_CHECKPOINT then take (Z.to_nat n) (filter (fun c => index <= ci_cno c) mock_checkpoints)
          else []), w);
  ioc_delete_checkpoint := fun _ _ w => (inl tt, note_change w);
  ioc_get_cpstat := fun _ w => (inl (mk_cpstat 10 4 0), w);
  ioc_get_suinfo := fun _ n _ w => (inl (take (Z.to_nat n) [mk_suinfo 0 4 2]), w);
  ioc_set_suinfo := fun _ _ w => (inl tt, note_change w);
  ioc_get_sustat := fun _ w => (inl (mk_sustat 4 2 1 0 0 8192), w);
  ioc_get_vinfo := fun _ l w =>
    (inl ((fun v => let '(a, b) := period_of (vi_vblocknr v) in
                    mk_vinfo (vi_vblocknr v) a b 0) <$> l), w);
  ioc_get_bdescs := fun _ l w => (inl (located mock_fs <$> l), w);
  ioc_clean_segments := fun _ v p b d s w => (inl tt, note_clean (mk_request v p b d s) w);
  ioc_sync := fun _ w => (inl 0, w);
  ioc_resize := fun _ _ w => (inl tt, note_change w);
  ioc_set_alloc_range := fun _ _ _ w => (inl tt, w);
  ioc_freeze := fun _ w => (inl tt, w);
  ioc_thaw := fun _ w => (inl tt, w);
  sem_wait := fun w => if mw_held w then (inr EAGAIN, w) else (inl tt, set_held w true);
  sem_trywait := fun w => if mw_held w then (inr EAGAIN, w) else (inl tt, set_held w true);
  sem_post := fun w => (inl tt, set_held w false);
  sigprocmask_block := fun w => (inl tt, set_blocked w true);
  sigprocmask_restore := fun w => set_blocked w false;
  sigpending_intterm := fun w => (inl false, w);
  k_clock_gettime := fun _ w => (inl (mk_timespec (mw_clock w) 0), w);
  k_gettimeofday := fun w => (inl (mw_clock w), w);
}.

(** A device and a kernel that answer nothing, but for the calls given. *)
Definition deaf_device {W : Type} : Device W := {|
  dev_alloc := fun _ w => (true, w); dev_errno := fun _ => EIO; dev_fstat := fun _ w => (inr EIO, w);
  dev_getsize64 := fun _ w => (inr EIO, w); dev_pread := fun _ _ _ w => (inr EIO, w); dev_pwrite := fun _ _ _ w => (inr EIO, w);
|}.

Record answers (W : Type) := mk_answers {
  an_change : Z -> Z -> Z -> W -> (unit + Z) * W; an_cpinfo : Z -> Z -> Z -> Z -> W -> (list nilfs_cpinfo + Z) * W;
  an_delete : Z -> Z -> W -> (unit + Z) * W; an_cpstat : Z -> W -> (nilfs_cpstat + Z) * W;
  an_suinfo : Z -> Z -> Z -> W -> (list nilfs_suinfo + Z) * W; an_sustat : Z -> W -> (nilfs_sustat + Z) * W;
  an_sync : Z -> W -> (Z + Z) * W; an_wait : W -> (unit + Z) * W; an_post : W -> (unit + Z) * W;
  an_block : W -> (unit + Z) * W; an_restore : W -> W; an_pending : W -> (bool + Z) * W;
}.
Arguments mk_answers {W} _ _ _ _ _ _ _ _ _ _ _ _.

Definition no_answers {W : Type} : answers W :=
  mk_answers (fun _ _ _ w => (inr EIO, w)) (fun _ _ _ _ w => (inr EIO, w)) (fun _ _ w => (inr EIO, w)) (fun _ w => (inr EIO, w))
    (fun _ _ _ w => (inr EIO, w)) (fun _ w => (inr EIO, w)) (fun _ w => (inr EIO, w)) (fun w => (inr EIO, w)) (fun w => (inr EIO, w))
    (fun w => (inr EIO, w)) (fun w => w) (fun w => (inr EIO, w)).

Definition deaf_kernel {W : Type} (D : Device W) (A : answers W) : Kernel W := {|
  k_device := D; k_pagesize := fun _ => 4096; k_junk := fun _ => 0;
  k_mmap := fun _ _ _ w => (inr ENODEV, w); k_munmap := fun _ _ w => (inl tt, w);
  ioc_change_cpmode := an_change _ A; ioc_get_cpinfo := an_cpinfo _ A; ioc_delete_checkpoint := an_delete _ A; ioc_get_cpstat := an_cpstat _ A;
  ioc_get_suinfo := an_suinfo _ A; ioc_set_suinfo := fun _ _ w => (inr EIO, w); ioc_get_sustat := an_sustat _ A;
  ioc_get_vinfo := fun _ _ w => (inr EIO, w); ioc_get_bdescs := fun _ _ w => (inr EIO, w); ioc_clean_segments := fun _ _ _ _ _ _ w => (inr EIO, w);
  ioc_sync := an_sync _ A; ioc_resize := fun _ _ w => (inr EIO, w);
  ioc_set_alloc_range := fun _ _ _ w => (inr EIO, w); ioc_freeze := fun _ w => (inr EIO, w); ioc_thaw := fun _ w => (inr EIO, w);
  sem_wait := an_wait _ A; sem_trywait := fun w => (inr EIO, w); sem_post := an_post _ A;
  sigprocmask_block := an_block _ A; sigprocmask_restore := an_restore _ A; sigpending_intterm := an_pending _ A;
  k_clock_gettime := fun _ w => (inr EIO, w); k_gettimeofday := fun w => (inr EIO, w);
|}.

#[export] Instance mock_junk : Junk := {
  junk_vdesc := mk_vdesc 0 0 0 (mk_period 0 0) 0 0 0; junk_bdesc := mk_bdesc 0 0 0 0 0;
  junk_period := mk_period 0 0; junk_u64 := 0;
  junk_sup := mk_suinfo_update 0 0 0 (mk_suinfo 0 0 0); junk_si := mk_suinfo 0 0 0;
}.

Definition mock_nilfs : nilfs := mk_nilfs (Some mock_sb) 3 4 0 0 true.
Definition mock_world : world := mk_world false false false [] 1000.
Definition mock_sys : sys world := mk_sys mock_nilfs mock_world.

Definition empty_vector {A} (junk : A) (size : Z) : nilfs_vector A :=
  mk_vector (replicate 256 junk) size 0 256.

Definition mock_gcs : gcs world :=
  mk_gcs mock_sys [1] (Some zero_stat) (empty_vector junk_vdesc 64) (empty_vector junk_bdesc 40)
    (empty_vector junk_period 16) (empty_vector 0 8) (empty_vector junk_sup 32).

Definition mock_params : nilfs_reclaim_params := mk_params 3 0 8192 NILFS_CNO_MAX.

(** Reclaiming segment 1: the live block moves, the dead one is freed. *)
Example mock_reclaim :
  let '(r, g) := nilfs_xreclaim_segment 1 false mock_params mock_gcs in
  r = Ok tt /\ mw_held (s_world (g_sys g)) = false /\ mw_blocked (s_world (g_sys g)) = false /\
  mw_cleaned (s_world (g_sys g)) =
    [mk_request [mk_vdesc 12 1 100 (mk_period 1 NILFS_CNO_MAX) 17 0 0] [mk_period 1 2] [101] [] [1]] /\
  (rs_live_blks <$> g_stat g) = Some 1 /\ (rs_cleaned_segs <$> g_stat g) = Some 1.
Proof. vm_compute. auto 10. Qed.

Lemma empty_vector_wf {A} (junk : A) size : 0 < size <= 64 -> vec_wf (empty_vector junk size).
Proof.
  intros. split; simpl; unfold NILFS_VECTOR_INIT_MAXELEMS, SIZE_MAX; try lia.
Qed.

Lemma filled_vector_wf {A} (l : list A) junk size : 0 < size <= 64 -> (length l <= 256)%nat ->
  vec_wf (mk_vector (l ++ replicate (256 - length l) junk) size (Z.of_nat (length l)) 256).
Proof.
  intros. split; simpl; unfold NILFS_VECTOR_INIT_MAXELEMS, SIZE_MAX; try lia.
  rewrite length_app, length_replicate. lia.
Qed.

(** ** Witnesses of the theorems on garbage collection *)

Definition two_vdescs : list nilfs_vdesc :=
  [mk_vdesc 12 1 100 (mk_period 1 NILFS_CNO_MAX) 17 0 0; mk_vdesc 12 1 101 (mk_period 1 2) 18 1 0].

Definition collected : gcs world :=
  with_vdescv mock_gcs (mk_vector (two_vdescs ++ replicate (256 - 2) junk_vdesc) 64 2 256).

Lemma toss_vdescs_partition_witness :
  match nilfs_toss_vdescs 5 collected with
  | (Ok _, g') => elems (g_vblocknrv g') = [101]
  | (Err e, _) => alloc_error e
  | _ => False
  end.
Proof.
  pose proof (toss_vdescs_partition collected 5) as Ht.
  specialize (Ht (filled_vector_wf two_vdescs junk_vdesc 64 ltac:(lia) ltac:(simpl; lia))
    (empty_vector_wf 0 8 ltac:(lia)) (empty_vector_wf junk_period 16 ltac:(lia))
    ltac:(repeat constructor; simpl; unfold NILFS_CNO_MIN; lia)).
  assert (Hss : nilfs_get_snapshot collected = (Ok [], collected)) by reflexivity. rewrite Hss in Ht.
  destruct (nilfs_toss_vdescs 5 collected) as [[u|e| | |] g']; try exact Ht.
  destruct Ht as (_ & Ht & _). rewrite Ht. vm_compute. reflexivity.
Defined.

Definition three_periods : list nilfs_period := [mk_period 4 6; mk_period 1 3; mk_period 2 4].

Lemma unify_period_spec_witness :
  exists v, nilfs_unify_period (with_periodv mock_gcs
      (mk_vector (three_periods ++ replicate (256 - 3) junk_period) 16 3 256)) =
    (Ok tt, with_periodv mock_gcs v) /\ vec_wf v.
Proof.
  destruct (unify_period_spec (with_periodv mock_gcs
      (mk_vector (three_periods ++ replicate (256 - 3) junk_period) 16 3 256))) as (v & Hrun & Hv & _).
  - exact (filled_vector_wf three_periods junk_period 16 ltac:(lia) ltac:(simpl; lia)).
  - exists v. split; [exact Hrun|exact Hv].
Defined.

Lemma deselect_segment_spec_witness :
  nilfs_deselect_segment [5; 6; 7; 8; 9] 4 1 = Some ([5; 7; 8; 6; 9], 3).
Proof. exact (deselect_segment_spec [5] 6 [7; 8] [9] 4 eq_refl). Defined.

#[export] Instance mock_quiet {O : Type} (obs : world -> O) : Quiet mock_kernel obs.
Proof. split; reflexivity. Qed.

#[export] Instance mock_quiet_sync : QuietSync mock_kernel mw_cleaned.
Proof. split; intros w; try reflexivity. simpl. by destruct (mw_held w). Qed.

Lemma dryrun_requests_nothing_witness :
  mw_cleaned (s_world (g_sys (nilfs_xreclaim_segment 1 true mock_params mock_gcs).2)) = [].
Proof. exact (dryrun_requests_nothing mw_cleaned 1 mock_params mock_gcs). Defined.

#[export] Instance mock_lock : LockLaws mock_kernel mw_held mw_unsafe.
Proof.
  split; try (by repeat split).
  - simpl. intros w w'. destruct (mw_held w); [done|]. by intros [= <-].
  - simpl. intros w w' e. destruct (mw_held w) eqn:He; [|done]. by intros [= <- <-].
  - simpl. intros w w' [= <-]. done.
  - simpl. intros w. by destruct (mw_held w).
Qed.

Lemma xreclaim_releases_lock_witness :
  mw_held (s_world (g_sys (nilfs_xreclaim_segment 1 false mock_params mock_gcs).2)) = false.
Proof.
  pose proof (xreclaim_releases_lock mw_held mw_unsafe 1 false mock_params mock_gcs eq_refl) as Hx.
  pose proof mock_reclaim as Hr. destruct (nilfs_xreclaim_segment 1 false mock_params mock_gcs) as [r g].
  destruct Hr as [-> _]. exact (proj1 Hx).
Defined.

(** ** The whole reclaim *)

Lemma mock_fs_wf : fs_wf mock_fs.
Proof.
  split.
  - repeat constructor.
  - intros n. simpl. unfold period_of. case_if; simpl; unfold NILFS_CNO_MIN; lia.
  - intros n. simpl. unfold_words. lia.
  - intros off n. simpl. unfold device_byte_range. case_if; apply Forall_take.
    + apply Demo.bytes_u8. vm_compute. reflexivity.
    + apply Forall_app; split; [|apply Forall_replicate; unfold_words; lia].
      apply Forall_drop. exact (so_bytes _ Demo.segment_seg_ok).
Qed.

#[export] Instance mock_laws : FsLaws mock_kernel (fun _ => mock_fs) mw_cleaned mw_held.
Proof.
  split; try done.
  - intros w. exact mock_fs_wf.
  - by intros fd n off w r w' [= <- <-].
  - intros fd n i w r w' [= <- <-] Hn. destruct (Z.to_nat n) eqn:He; [lia|done].
  - by intros fd w r w' [= <- <-].
  - intros fd n i w r w' [= <- <-] _ _. exists []. done.
  - intros fd l w r w' [= <- <-]. split; [by destruct l|].
    rewrite length_fmap, firstn_all. apply Forall2_fmap_r, Forall_Forall2_diag, Forall_forall.
    intros v _. simpl. unfold period_of. by case_if.
  - intros fd l w r w' [= <- <-]. split; [by destruct l|]. by rewrite length_fmap, firstn_all.
  - by intros fd l w r w' [= <- <-].
  - intros w r w'. simpl. destruct (mw_held w) eqn:Hh; by intros [= <- <-].
  - intros w. by eexists.
Qed.

Lemma mock_ready : ready (fs_of := fun _ => mock_fs) (locked := mw_held) mock_gcs [1] [].
Proof.
  split; try done. repeat constructor; lia.
Qed.

Lemma xreclaim_requests_witness :
  exists made, requested (requests := mw_cleaned) (locked := mw_held) mock_gcs made
      (nilfs_xreclaim_segment 1 false mock_params mock_gcs).2 /\ length made = 1%nat.
Proof.
  destruct (xreclaim_requests (fs_of := fun _ => mock_fs) (requests := mw_cleaned) (locked := mw_held)
    mock_gcs [1] [] false mock_params mock_ready) as (made & Hrun & _).
  exists made. pose proof mock_reclaim as Hm. change (Z.of_nat (length [1])) with 1 in Hrun.
  destruct (nilfs_xreclaim_segment 1 false mock_params mock_gcs) as [r g]. destruct Hm as (-> & _ & _ & Hc & _).
  destruct Hrun as [Hreq _]. split; [exact Hreq|]. destruct Hreq as [_ Hreq]. simpl in Hreq. by rewrite <- Hreq, Hc.
Defined.

Lemma dryrun_counts_witness :
  match nilfs_xreclaim_segment 1 true mock_params mock_gcs with
  | (Ok _, g') => exists st', g_stat g' = Some st' /\ stat_ok mock_fs 8192 NILFS_CNO_MAX [1] st'
  | (Err _, _) => True
  | _ => False
  end.
Proof.
  exact (dryrun_counts (fs_of := fun _ => mock_fs) (requests := mw_cleaned) (locked := mw_held)
    mock_gcs [1] [] mock_params zero_stat mock_ready eq_refl ltac:(discriminate) eq_refl).
Defined.
