(* ===== verification/Cnormap.v ===== *)
(** * From times to checkpoint numbers: lib/cnormap.c

    The map keeps a history of spans of checkpoints ([cphist], newest first)
    so that the oldest checkpoint within a period of time can be found without
    scanning all checkpoints again at each call.  The state [cns C] holds the
    nilfs object and its world, the map, and the context of the callback that
    is passed to an enumeration.  Times are [int64_t] in a span and [uint64_t]
    in a checkpoint; the conversions are written out.

    The loops over checkpoints depend on what the kernel reports; they take
    the number of iterations allowed as the argument [fuel]. *)

From S2P Require Import Prelude Vector Ondisk Crc32 Sb Kernel Nilfs.

Record nilfs_cptime := mk_cptime { ct_cno : Z; ct_time : Z }.

Record nilfs_cpspan := mk_cpspan {
  sp_start : nilfs_cptime; sp_end : nilfs_cptime; sp_approx_ncp : Z;
}.

Definition NCP_PER_SPAN : Z := 4096.
Definition INTERVAL_ON_REWIND : Z := 1.
Definition sizeof_nilfs_cpspan : Z := 40.

Record nilfs_cnormap := mk_cnormap {
  cm_cphist : nilfs_vector nilfs_cpspan;
  cm_elapsed : Z;
  cm_base_time : Z;
  cm_base_clock : Z;
  cm_has_boottime : bool;
  cm_has_realtime_coarse : bool;
  cm_has_monotonic_coarse : bool;
}.

Definition set_cphist (m : nilfs_cnormap) (v : nilfs_vector nilfs_cpspan) : nilfs_cnormap :=
  mk_cnormap v (cm_elapsed m) (cm_base_time m) (cm_base_clock m) (cm_has_boottime m)
    (cm_has_realtime_coarse m) (cm_has_monotonic_coarse m).
Definition set_elapsed (m : nilfs_cnormap) (t : Z) : nilfs_cnormap :=
  mk_cnormap (cm_cphist m) t (cm_base_time m) (cm_base_clock m) (cm_has_boottime m)
    (cm_has_realtime_coarse m) (cm_has_monotonic_coarse m).
Definition set_base (m : nilfs_cnormap) (time clock : Z) : nilfs_cnormap :=
  mk_cnormap (cm_cphist m) (cm_elapsed m) time clock (cm_has_boottime m)
    (cm_has_realtime_coarse m) (cm_has_monotonic_coarse m).
Definition set_clocks (m : nilfs_cnormap) (boottime realtime monotonic : bool) : nilfs_cnormap :=
  mk_cnormap (cm_cphist m) (cm_elapsed m) (cm_base_time m) (cm_base_clock m) boottime realtime monotonic.

(** ** Contexts of the callbacks *)

Inductive scan_state := SCAN_INIT_ST | SCAN_NORMAL_ST | SCAN_DONE_ST.
#[export] Instance scan_state_eq_dec : EqDecision scan_state.
Proof. solve_decision. Defined.

Record scan_context := mk_scan {
  sc_index : Z; sc_state : scan_state; sc_time : Z; sc_period : Z; sc_min_incl_cno : Z;
}.

Record find_context := mk_find {
  fc_time : Z; fc_end_cno : Z; fc_min_incl : nilfs_cptime; fc_max_excl : nilfs_cptime;
  fc_nskips : Z;
}.

Record cns (W C : Type) := mk_cns { cn_sys : sys W; cn_map : nilfs_cnormap; cn_ctx : C }.
Arguments mk_cns {W C} _ _ _.
Arguments cn_sys {W C} _.
Arguments cn_map {W C} _.
Arguments cn_ctx {W C} _.

Section Cnormap.
Context {W : Type} {K : Kernel W} (junk_span : nilfs_cpspan).

(** ** Access to the state *)
Section Access.
Context {C : Type}.
Definition lib_call {A} (m : M (sys W) A) : M (cns W C) A :=
  fun s => let '(r, s') := m (cn_sys s) in (r, mk_cns s' (cn_map s) (cn_ctx s)).
Definition the_map : M (cns W C) nilfs_cnormap := gets cn_map.
Definition modify_map (f : nilfs_cnormap -> nilfs_cnormap) : M (cns W C) unit :=
  modify (fun s => mk_cns (cn_sys s) (f (cn_map s)) (cn_ctx s)).
Definition the_ctx : M (cns W C) C := gets cn_ctx.
Definition put_ctx (c : C) : M (cns W C) unit :=
  modify (fun s => mk_cns (cn_sys s) (cn_map s) c).

#[export] Instance cns_alloc : Alloc (cns W C) :=
  fun n s => let '(b, s') := malloc n (cn_sys s) in (b, mk_cns s' (cn_map s) (cn_ctx s)).
End Access.

(** ** Enumerating checkpoints *)
Section Enumerate.
Context {C : Type} (out : nilfs_cpinfo -> M (cns W C) Z).

(** One buffer of checkpoints, first to last: the rest count, and whether
    the callback asked to stop. *)
Fixpoint forward_buffer (cpi : list nilfs_cpinfo) (rest : Z) : M (cns W C) (Z * bool) :=
  match cpi with
  | [] => ret (rest, false)
  | c :: cpi' =>
    let* r := out c in
    if r =? 0 then forward_buffer cpi' rest
    else if 1 <? r then ret (rest, true)
    else forward_buffer cpi' (u64 (rest - 1))
  end.

Fixpoint forward_loop (fuel : nat) (cs_cno rest sidx : Z) : M (cns W C) unit :=
  match fuel with
  | O => out_of_fuel
  | Datatypes.S fuel' =>
    if (0 <? rest) && (sidx <? cs_cno) then
      let* buf := lib_call (nilfs_get_cpinfo sidx NILFS_CHECKPOINT (Z.min rest 512)) in
      match last buf with
      | None => ret tt
      | Some final =>
        let* (rest, stop) := forward_buffer buf rest in
        if (stop : bool) then ret tt
        else forward_loop fuel' cs_cno rest (u64 (ci_cno final + 1))
      end
    else ret tt
  end.

Definition enum_rest (cpstat : nilfs_cpstat) (opt_count : Z) : Z :=
  if negb (opt_count =? 0) && (opt_count <? cs_ncps cpstat) then opt_count else cs_ncps cpstat.

Definition nilfs_enum_cpinfo_forward (fuel : nat) (cpstat : nilfs_cpstat)
    (opt_start opt_count : Z) : M (cns W C) unit :=
  let rest := enum_rest cpstat opt_count in
  let sidx := if negb (opt_start =? 0) then opt_start else NILFS_CNO_MIN in
  m_malloc (56 * 512) ;;
  forward_loop fuel (cs_cno cpstat) rest sidx.

(** One buffer, last to first, without the checkpoints from [eidx] on. *)
Fixpoint backward_buffer (rcpi : list nilfs_cpinfo) (eidx rest : Z) : M (cns W C) (Z * bool) :=
  match rcpi with
  | [] => ret (rest, false)
  | c :: rcpi' =>
    if eidx <=? ci_cno c then backward_buffer rcpi' eidx rest
    else
      let* r := out c in
      if r =? 0 then backward_buffer rcpi' eidx rest
      else if 1 <? r then ret (rest, true)
      else
        let rest := u64 (rest - 1) in
        if rest =? 0 then ret (rest, true) else backward_buffer rcpi' eidx rest
  end.

Inductive walk_state := INIT_ST | NORMAL_ST | ACCEL_ST | DECEL_ST.

(** [recalc_delta]. *)
Definition delta_of (rest : Z) : Z := Z.min 512 (Z.max rest 64).

(** The cursor of the backward walk. *)
Record walk := mk_walk {
  wk_state : walk_state; wk_eidx : Z; wk_prev_head : Z; wk_rest : Z; wk_delta : Z; wk_v : Z;
}.

Definition walk_sidx (k : walk) : Z :=
  if (wk_eidx k <? u64 (NILFS_CNO_MIN + wk_v k))
     || (match wk_state k with INIT_ST => true | _ => false end)
  then NILFS_CNO_MIN else u64 (wk_eidx k - wk_v k).

(** Nothing younger was found at [sidx]: go further back. *)
Definition walk_back (k : walk) (sidx : Z) : walk :=
  let '(st, v) :=
    match wk_state k with
    | NORMAL_ST | ACCEL_ST =>
        (ACCEL_ST, if wk_v k <? u64 (Z.shiftl (wk_v k) 1) then u64 (Z.shiftl (wk_v k) 1) else wk_v k)
    | DECEL_ST => (NORMAL_ST, wk_delta k)
    | INIT_ST => (INIT_ST, wk_v k)
    end in
  mk_walk st sidx (wk_prev_head k) (wk_rest k) (wk_delta k) v.

(** Some checkpoints were jumped over: search again more slowly. *)
Definition walk_slower (k : walk) : walk :=
  let v := Z.shiftr (wk_v k) 1 in
  if v <=? wk_delta k
  then mk_walk NORMAL_ST (wk_eidx k) (wk_prev_head k) (wk_rest k) (wk_delta k) (wk_delta k)
  else mk_walk DECEL_ST (wk_eidx k) (wk_prev_head k) (wk_rest k) (wk_delta k) v.

Definition walk_fast (k : walk) : bool :=
  match wk_state k with ACCEL_ST | DECEL_ST => true | _ => false end.

Fixpoint backward_loop (fuel : nat) (k : walk) : M (cns W C) unit :=
  match fuel with
  | O => out_of_fuel
  | Datatypes.S fuel' =>
    if NILFS_CNO_MIN <? wk_eidx k then
      let sidx := walk_sidx k in
      let req := Z.min (match wk_state k with NORMAL_ST => u64 (wk_eidx k - sidx) | _ => 1 end) 512 in
      let* buf := lib_call (nilfs_get_cpinfo sidx NILFS_CHECKPOINT req) in
      match head buf, last buf with
      | Some first, Some final =>
        match wk_state k with
        | INIT_ST =>
          if wk_eidx k <=? ci_cno first then ret tt
          else backward_loop fuel' (mk_walk NORMAL_ST (wk_eidx k) (wk_prev_head k) (wk_rest k)
                                      (wk_delta k) (wk_v k))
        | _ =>
          if ci_cno first =? wk_prev_head k then
            if sidx =? NILFS_CNO_MIN then ret tt
            else backward_loop fuel' (walk_back k sidx)
          else if walk_fast k && (u64 (ci_cno final + 1) <? wk_prev_head k) then
            backward_loop fuel' (walk_slower k)
          else
            let* (rest, stop) := backward_buffer (reverse buf) (wk_eidx k) (wk_rest k) in
            if (stop : bool) then ret tt
            else
              let delta := delta_of rest in
              backward_loop fuel' (mk_walk NORMAL_ST sidx (ci_cno first) rest delta delta)
        end
      | _, _ => ret tt
      end
    else ret tt
  end.

Definition nilfs_enum_cpinfo_backward (fuel : nat) (cpstat : nilfs_cpstat)
    (opt_start opt_count : Z) : M (cns W C) unit :=
  let rest := enum_rest cpstat opt_count in
  if rest =? 0 then ret tt
  else
    let eidx := if negb (opt_start =? 0) && (opt_start <? cs_cno cpstat)
                then u64 (opt_start + 1) else cs_cno cpstat in
    m_malloc (56 * 512) ;;
    let delta := delta_of rest in
    backward_loop fuel (mk_walk INIT_ST eidx 0 rest delta delta).
End Enumerate.

(** ** Clocks *)
Section Clocks.
Context {C : Type}.

(** A clock that is refused with [EINVAL] is given up for the next one. *)
Definition nilfs_cnormap_get_realtime_clock : M (cns W C) Z :=
  let* m := the_map in
  let clk := if cm_has_realtime_coarse m then CLOCK_REALTIME_COARSE else CLOCK_REALTIME in
  let* r := attempt (lib_call (os (k_clock_gettime clk))) in
  match r with
  | inl ts => ret (tv_sec ts)
  | inr e =>
    if cm_has_realtime_coarse m && (e =? EINVAL) then
      modify_map (fun m => set_clocks m (cm_has_boottime m) false (cm_has_monotonic_coarse m)) ;;
      let* ts := lib_call (os (k_clock_gettime CLOCK_REALTIME)) in ret (tv_sec ts)
    else fail e
  end.

Fixpoint get_monotonic (fuel : nat) : M (cns W C) Z :=
  match fuel with
  | O => out_of_fuel
  | Datatypes.S fuel' =>
    let* m := the_map in
    let clk := if cm_has_boottime m then CLOCK_BOOTTIME
               else if cm_has_monotonic_coarse m then CLOCK_MONOTONIC_COARSE
               else CLOCK_MONOTONIC in
    let* r := attempt (lib_call (os (k_clock_gettime clk))) in
    match r with
    | inl ts => ret (tv_sec ts)
    | inr e =>
      if e =? EINVAL then
        if cm_has_boottime m then
          modify_map (fun m => set_clocks m false (cm_has_realtime_coarse m) (cm_has_monotonic_coarse m)) ;;
          get_monotonic fuel'
        else if cm_has_monotonic_coarse m then
          modify_map (fun m => set_clocks m (cm_has_boottime m) (cm_has_realtime_coarse m) false) ;;
          get_monotonic fuel'
        else fail e
      else fail e
    end
  end.

(** Three clocks can be tried. *)
Definition nilfs_cnormap_get_monotonic_clock : M (cns W C) Z := get_monotonic 3.
End Clocks.

(** ** Growing the history *)

Definition gap_of_spans (gap_from gap_to : Z) : Z :=
  if gap_from <=? gap_to then u64 (gap_to - gap_from) else INTERVAL_ON_REWIND.

(** A span that holds one checkpoint. *)
Definition one_checkpoint (c : nilfs_cpinfo) : nilfs_cpspan :=
  mk_cpspan (mk_cptime (ci_cno c) (i64 (ci_create c))) (mk_cptime (ci_cno c) (i64 (ci_create c))) 1.

Definition cphist_write {C} (v : nilfs_vector nilfs_cpspan) (i : Z) (sp : nilfs_cpspan)
  : M (cns W C) unit :=
  modify_map (fun m => set_cphist m (write_cell v i (fun _ => sp))).

Definition cphist_append {C} (sp : nilfs_cpspan) : M (cns W C) unit :=
  let* m := the_map in
  let* (i, v) := nilfs_vector_get_new_element junk_span (cm_cphist m) in
  cphist_write v i sp.

Definition set_sc (ctx : scan_context) (index : Z) (st : scan_state) (period min_incl : Z) : scan_context :=
  mk_scan index st (sc_time ctx) period min_incl.

Definition nilfs_cpinfo_scan_backward (c : nilfs_cpinfo) : M (cns W scan_context) Z :=
  let* ctx := the_ctx in
  match sc_state ctx with
  | SCAN_INIT_ST =>
    cphist_append (one_checkpoint c) ;;
    modify_map (fun m => set_elapsed m 0) ;;
    let age := u64 (sc_time ctx - ci_create c) in
    if ci_create c <? u64 (sc_time ctx) then
      if sc_period ctx <? age then
        put_ctx (set_sc ctx (sc_index ctx) SCAN_DONE_ST (sc_period ctx) (sc_min_incl_cno ctx)) ;;
        ret 2
      else
        put_ctx (set_sc ctx (sc_index ctx) SCAN_NORMAL_ST (sc_period ctx - age) (ci_cno c)) ;;
        ret 1
    else
      put_ctx (set_sc ctx (sc_index ctx) SCAN_NORMAL_ST (sc_period ctx) (ci_cno c)) ;;
      ret 1
  | st =>
    let* m := the_map in
    match nilfs_vector_get_element (cm_cphist m) (sc_index ctx) with
    | None => fail EINVAL
    | Some i =>
      let* sp := of_option (read_cell (cm_cphist m) i) in
      match st with
      | SCAN_NORMAL_ST =>
        let start_ncp := mk_cpspan (mk_cptime (ci_cno c) (ct_time (sp_start sp))) (sp_end sp)
                           (u32 (sp_approx_ncp sp + 1)) in
        if ci_create c =? u64 (ct_time (sp_start sp)) then
          cphist_write (cm_cphist m) i start_ncp ;;
          put_ctx (set_sc ctx (sc_index ctx) SCAN_NORMAL_ST (sc_period ctx) (ci_cno c)) ;;
          ret 1
        else
          let elapsed := u64 (cm_elapsed m + gap_of_spans (i64 (ci_create c)) (ct_time (sp_start sp))) in
          let* index :=
            (if (u64 (ct_time (sp_start sp)) <? ci_create c) || (NCP_PER_SPAN <=? sp_approx_ncp sp)
             then cphist_append (one_checkpoint c) ;; ret (u32 (sc_index ctx + 1))
             else cphist_write (cm_cphist m) i
                    (mk_cpspan (mk_cptime (ci_cno c) (i64 (ci_create c))) (sp_end sp)
                       (u32 (sp_approx_ncp sp + 1))) ;;
                  ret (sc_index ctx)) in
          modify_map (fun m => set_elapsed m elapsed) ;;
          if sc_period ctx <? elapsed then
            put_ctx (set_sc ctx index SCAN_DONE_ST (sc_period ctx) (sc_min_incl_cno ctx)) ;; ret 2
          else
            put_ctx (set_sc ctx index SCAN_NORMAL_ST (sc_period ctx) (ci_cno c)) ;; ret 1
      | _ => fail EINVAL
      end
    end
  end.

Definition nilfs_cpinfo_scan_forward (c : nilfs_cpinfo) : M (cns W scan_context) Z :=
  let* ctx := the_ctx in
  let* m := the_map in
  match nilfs_vector_get_element (cm_cphist m) 0, sc_state ctx with
  | Some i, SCAN_NORMAL_ST =>
    let* sp := of_option (read_cell (cm_cphist m) i) in
    if ci_create c =? u64 (ct_time (sp_end sp)) then
      cphist_write (cm_cphist m) i
        (mk_cpspan (sp_start sp) (mk_cptime (ci_cno c) (ct_time (sp_end sp)))
           (u32 (sp_approx_ncp sp + 1))) ;;
      ret 1
    else
      let elapsed := u64 (cm_elapsed m + gap_of_spans (ct_time (sp_end sp)) (i64 (ci_create c))) in
      let* index :=
        (if (ci_create c <? u64 (ct_time (sp_end sp))) || (NCP_PER_SPAN <=? sp_approx_ncp sp) then
           let* (k, v) := nilfs_vector_insert_element junk_span (cm_cphist m) 0 in
           cphist_write v k (one_checkpoint c) ;;
           ret (u32 (sc_index ctx + 1))
         else
           cphist_write (cm_cphist m) i
             (mk_cpspan (sp_start sp) (mk_cptime (ci_cno c) (i64 (ci_create c)))
                (u32 (sp_approx_ncp sp + 1))) ;;
           ret (sc_index ctx)) in
      modify_map (fun m => set_elapsed m elapsed) ;;
      if sc_period ctx <=? elapsed then
        put_ctx (set_sc ctx index SCAN_DONE_ST (sc_period ctx) (ci_cno c)) ;; ret 2
      else
        put_ctx (set_sc ctx index SCAN_NORMAL_ST (sc_period ctx) (sc_min_incl_cno ctx)) ;; ret 1
  | _, _ => fail EINVAL
  end.

(** An enumeration with its own context: its result and the context after. *)
Definition run_scan {C D} (ctx : D) (m : M (cns W D) unit) : M (cns W C) ((unit + Z) * D) :=
  fun s => let '(r, s') := attempt m (mk_cns (cn_sys s) (cn_map s) ctx) in
           (match r with
            | Ok x => Ok (x, cn_ctx s')
            | Err e => Err e | Abort => Abort | Exit c => Exit c | NoFuel => NoFuel
            end, mk_cns (cn_sys s') (cn_map s') (cn_ctx s)).

Definition nilfs_cnormap_cphist_init (fuel : nat) (cpstat : nilfs_cpstat) (monotonic_clock period : Z)
  : M (cns W unit) Z :=
  let* realtime := nilfs_cnormap_get_realtime_clock in
  let* (r, ctx) := run_scan (mk_scan 0 SCAN_INIT_ST realtime period NILFS_CNO_MAX)
                     (nilfs_enum_cpinfo_backward nilfs_cpinfo_scan_backward fuel cpstat 0 0) in
  match sc_state ctx, r with
  | SCAN_INIT_ST, inl _ => ret NILFS_CNO_MAX
  | SCAN_INIT_ST, inr e => fail e
  | _, _ =>
    modify_map (fun m => set_base m realtime monotonic_clock) ;;
    match r with inl _ => ret (sc_min_incl_cno ctx) | inr e => fail e end
  end.

Definition nilfs_cnormap_cphist_extend_forward (fuel : nat) (cpstat : nilfs_cpstat)
    (monotonic_clock period end_cno : Z) : M (cns W unit) Z :=
  let* realtime := nilfs_cnormap_get_realtime_clock in
  let* m := the_map in
  let* i := of_option (nilfs_vector_get_element (cm_cphist m) 0) in
  let* latest := of_option (read_cell (cm_cphist m) i) in
  let max_index := u32 (nilfs_vector_get_size (cm_cphist m) - 1) in
  (if 0 <? max_index then
     let* r := attempt (nilfs_vector_delete_elements (cm_cphist m) 1 max_index) in
     (match r with inl v => modify_map (fun m => set_cphist m v) | inr _ => ret tt end) ;;
     modify_map (fun m => set_elapsed m (u64 (ct_time (sp_end latest) - ct_time (sp_start latest))))
   else ret tt) ;;
  let* (r, ctx) := run_scan (mk_scan 0 SCAN_NORMAL_ST 0 period NILFS_CNO_MAX)
                     (nilfs_enum_cpinfo_forward nilfs_cpinfo_scan_forward fuel cpstat
                        (u64 (end_cno + 1)) 0) in
  modify_map (fun m => set_base m realtime monotonic_clock) ;;
  match r with inl _ => ret (sc_min_incl_cno ctx) | inr e => fail e end.

Definition nilfs_cnormap_cphist_extend_backward (fuel : nat) (cpstat : nilfs_cpstat)
    (period index start_cno : Z) : M (cns W unit) Z :=
  if start_cno =? 0 then fail EINVAL
  else if start_cno =? NILFS_CNO_MIN then ret NILFS_CNO_MIN
  else
    let* (r, ctx) := run_scan (mk_scan index SCAN_NORMAL_ST 0 period start_cno)
                       (nilfs_enum_cpinfo_backward nilfs_cpinfo_scan_backward fuel cpstat
                          (start_cno - 1) 0) in
    match r with inl _ => ret (sc_min_incl_cno ctx) | inr e => fail e end.

(** ** Searching the history *)

Definition nilfs_cpinfo_find (c : nilfs_cpinfo) : M (cns W find_context) Z :=
  let* ctx := the_ctx in
  if fc_end_cno ctx <? ci_cno c then ret 2
  else if u64 (fc_time ctx) <=? ci_create c then
    put_ctx (mk_find (fc_time ctx) (fc_end_cno ctx) (mk_cptime (ci_cno c) (i64 (ci_create c)))
               (fc_max_excl ctx) (fc_nskips ctx)) ;;
    ret 2
  else
    put_ctx (mk_find (fc_time ctx) (fc_end_cno ctx) (fc_min_incl ctx)
               (mk_cptime (ci_cno c) (i64 (ci_create c))) (u32 (fc_nskips ctx + 1))) ;;
    ret 0.

(** The loop of [nilfs_cnormap_cphist_search] over the spans, oldest first:
    the span that contains the target time, or the checkpoint that follows
    the gap that contains it. *)
Fixpoint search_spans (fuel : nat) (hist : nilfs_vector nilfs_cpspan) (period delta index : Z)
    (target : nilfs_cpspan) : M (cns W unit) (Z * Z * nilfs_cpspan * option Z) :=
  match fuel with
  | O => out_of_fuel
  | Datatypes.S fuel' =>
    let width := u64 (ct_time (sp_end target) - ct_time (sp_start target)) in
    if u64 (delta + width) <? period then
      if index =? 0 then fail EINVAL
      else
        let* i := of_option (nilfs_vector_get_element hist (index - 1)) in
        let* next := of_option (read_cell hist i) in
        let gap := gap_of_spans (ct_time (sp_end target)) (ct_time (sp_start next)) in
        if period <=? u64 (delta + width + gap)
        then ret (index, delta, next, Some (ct_cno (sp_start next)))
        else search_spans fuel' hist period (u64 (delta + width + gap)) (index - 1) next
    else ret (index, delta, target, None)
  end.

(** Refine within one span: the checkpoint found and the change of [delta];
    the checkpoints passed over are dropped from the span. *)
Definition search_in_span (fuel : nat) (cpstat : nilfs_cpstat) (period delta index : Z)
    (target : nilfs_cpspan) : M (cns W unit) (Z * Z) :=
  if ct_cno (sp_start target) <? ct_cno (sp_end target) then
    let* (r, ctx) := run_scan
      (mk_find (i64 (ct_time (sp_start target) + u64 (period - delta))) (ct_cno (sp_end target))
         (sp_end target) (sp_start target) 0)
      (nilfs_enum_cpinfo_forward nilfs_cpinfo_find fuel cpstat (u64 (ct_cno (sp_start target) + 1)) 1) in
    match r with
    | inr e => fail e
    | inl _ =>
      let* m := the_map in
      (if ct_cno (sp_start target) <? ct_cno (fc_max_excl ctx) then
         cphist_write (cm_cphist m) index
           (mk_cpspan (fc_max_excl ctx) (sp_end target)
              (u32 (sp_approx_ncp target - Z.min (fc_nskips ctx) (u32 (sp_approx_ncp target - 1))))) ;;
         ret (ct_cno (fc_min_incl ctx), u64 (delta + (ct_time (fc_max_excl ctx) - ct_time (sp_start target))))
       else ret (ct_cno (fc_min_incl ctx), delta))
    end
  else ret (ct_cno (sp_end target), delta).

Definition nilfs_cnormap_cphist_search (fuel : nat) (cpstat : nilfs_cpstat) (period : Z)
  : M (cns W unit) Z :=
  let* m := the_map in
  if (nilfs_vector_get_size (cm_cphist m) =? 0) || (period =? 0) then fail EINVAL
  else
    let max_index := u32 (nilfs_vector_get_size (cm_cphist m) - 1) in
    let* i := of_option (nilfs_vector_get_element (cm_cphist m) max_index) in
    let* oldest := of_option (read_cell (cm_cphist m) i) in
    let* (index, delta, target, found) :=
      search_spans (Datatypes.S (Z.to_nat max_index)) (cm_cphist m) period 0 max_index oldest in
    let* (min_incl_cno, delta) :=
      (match found with
       | Some cno => ret (cno, delta)
       | None => search_in_span fuel cpstat period delta index target
       end) in
    let* m := the_map in
    (if index <? max_index then
       let* r := attempt (nilfs_vector_delete_elements (cm_cphist m) (index + 1) (max_index - index)) in
       match r with inl v => modify_map (fun m => set_cphist m v) | inr _ => ret tt end
     else ret tt) ;;
    modify_map (fun m => set_elapsed m (u64 (cm_elapsed m - delta))) ;;
    ret min_incl_cno.

Definition nilfs_cnormap_track_back (fuel : nat) (period : Z) : M (cns W unit) Z :=
  if period =? 0 then ret NILFS_CNO_MAX
  else
    let* cpstat := lib_call nilfs_get_cpstat in
    let* clock := nilfs_cnormap_get_monotonic_clock in
    let* m := the_map in
    if nilfs_vector_get_size (cm_cphist m) =? 0
    then nilfs_cnormap_cphist_init fuel cpstat clock period
    else
      let* i := of_option (nilfs_vector_get_element (cm_cphist m) 0) in
      let* latest := of_option (read_cell (cm_cphist m) i) in
      let call_interval := u64 (clock - cm_base_clock m) in
      let cphist_offset :=
        u64 (call_interval + (if ct_time (sp_end latest) <? cm_base_time m
                              then cm_base_time m - ct_time (sp_end latest) else 0)) in
      if period <? cphist_offset / 2 then
        let* v := nilfs_vector_clear junk_span (cm_cphist m) in
        modify_map (fun m => set_elapsed (set_cphist m v) 0) ;;
        nilfs_cnormap_cphist_init fuel cpstat clock period
      else if period <? cphist_offset then
        nilfs_cnormap_cphist_extend_forward fuel cpstat clock (cphist_offset - period)
          (ct_cno (sp_end latest))
      else if period <? u64 (cphist_offset + cm_elapsed m) then
        nilfs_cnormap_cphist_search fuel cpstat (u64 (cphist_offset + cm_elapsed m) - period)
      else
        let max_index := u32 (nilfs_vector_get_size (cm_cphist m) - 1) in
        let* i := of_option (nilfs_vector_get_element (cm_cphist m) max_index) in
        let* target := of_option (read_cell (cm_cphist m) i) in
        if u64 (cphist_offset + cm_elapsed m) <? period then
          nilfs_cnormap_cphist_extend_backward fuel cpstat (period - cphist_offset) max_index
            (ct_cno (sp_start target))
        else ret (ct_cno (sp_start target)).

(** A clock is missing when it is refused with [EINVAL]. *)
Definition has_clock (r : timespec + Z) : bool :=
  match r with inl _ => true | inr e => negb (e =? EINVAL) end.

Definition nilfs_cnormap_create : M (sys W) nilfs_cnormap :=
  m_malloc 48 ;;
  let* r1 := attempt (os (k_clock_gettime CLOCK_REALTIME_COARSE)) in
  let* r2 := attempt (os (k_clock_gettime CLOCK_MONOTONIC_COARSE)) in
  let* r3 := attempt (os (k_clock_gettime CLOCK_BOOTTIME)) in
  let* cphist := nilfs_vector_create junk_span sizeof_nilfs_cpspan in
  ret (mk_cnormap cphist 0 0 0 (has_clock r3) (has_clock r1) (has_clock r2)).
End Cnormap.
#[export] Existing Instance cns_alloc.
