(* ===== verification/Float64.v ===== *)
(** * The type [double]

    IEEE 754 binary64 with rounding to nearest even, by the executable
    specification of the Standard Library (precision 53, maximal exponent
    1024), and the conversions the sources use.  Integers below 2^53 are
    represented exactly, so comparing them as [double] is comparing them. *)

From Stdlib Require Import SpecFloat.
From S2P Require Import Prelude.

Abbreviation f64 := spec_float.

Definition f64_of_Z (z : Z) : f64 := binary_normalize 53 1024 z 0 false.
Definition f64_add (x y : f64) : f64 := SFadd 53 1024 x y.
Definition f64_sub (x y : f64) : f64 := SFsub 53 1024 x y.
Definition f64_mul (x y : f64) : f64 := SFmul 53 1024 x y.
Definition f64_div (x y : f64) : f64 := SFdiv 53 1024 x y.
Definition f64_ltb (x y : f64) : bool := SFltb x y.

(** The nearest [double] to the quotient of two integers, for the decimal
    notation: the division rounds once, whatever the size of its operands. *)
Definition f64_of_ratio (num : Z) (den : positive) : f64 :=
  match num with
  | Z0 => S754_zero false
  | Zpos p => f64_div (S754_finite false p 0) (S754_finite false den 0)
  | Zneg p => f64_div (S754_finite true p 0) (S754_finite false den 0)
  end.

(** Conversion to an integer type drops the fraction; it is undefined when the
    value does not fit into [int64_t]. *)
Definition f64_to_i64 (x : f64) : option Z :=
  match x with
  | S754_zero _ => Some 0
  | S754_finite s m e =>
    let a := if 0 <=? e then Z.shiftl (Zpos m) e else Z.shiftr (Zpos m) (- e) in
    let z := if s then - a else a in
    if (- 2 ^ 63 <=? z) && (z <? 2 ^ 63) then Some z else None
  | _ => None
  end.

(** ** Integers as doubles *)

Section Exact.
Lemma digits2_bounds p :
  2 ^ (Zpos (digits2_pos p) - 1) <= Zpos p < 2 ^ Zpos (digits2_pos p).
Proof.
  induction p as [p IH|p IH|]; cbn [digits2_pos]; [| |done];
    rewrite Pos2Z.inj_succ; replace (Z.succ (Zpos (digits2_pos p)) - 1) with (Zpos (digits2_pos p)) by lia;
    rewrite Z.pow_succ_r by lia;
    replace (2 ^ Zpos (digits2_pos p)) with (2 * 2 ^ (Zpos (digits2_pos p) - 1)) in *
      by (rewrite <- Z.pow_succ_r by lia; f_equal; lia); lia.
Qed.

Lemma iter_xO p n :
  Zpos (Pos.iter xO p n) = Zpos p * 2 ^ Zpos n /\
  Zpos (digits2_pos (Pos.iter xO p n)) = Zpos (digits2_pos p) + Zpos n.
Proof.
  induction n as [|n [IH1 IH2]] using Pos.peano_ind; [by split; simpl; lia|].
  rewrite Pos.iter_succ. cbn [digits2_pos].
  rewrite (Pos2Z.inj_xO (Pos.iter xO p n)), !Pos2Z.inj_succ, IH1, IH2, Z.pow_succ_r by lia. lia.
Qed.

Lemma shr_fexp_exact m e : Zpos (digits2_pos m) = 53 -> -1000 <= e ->
  shr_fexp 53 1024 (Zpos m) e loc_Exact = (Build_shr_record (Zpos m) false false, e).
Proof.
  intros Hd He. unfold shr_fexp, fexp, emin, Zdigits2. rewrite Hd.
  replace (Z.max (53 + e - 53) (3 - 1024 - 53) - e) with 0 by lia. done.
Qed.

(** A positive integer below 2^53 in canonical form. *)
Lemma binary_round_exact s p : Zpos p < 2 ^ 53 ->
  exists m, binary_round 53 1024 s p 0 = S754_finite s m (Zpos (digits2_pos p) - 53) /\
    Zpos m = Zpos p * 2 ^ (53 - Zpos (digits2_pos p)) /\ Zpos (digits2_pos m) = 53.
Proof.
  intros Hp. pose proof (digits2_bounds p) as [Hlo _].
  assert (Hd : Zpos (digits2_pos p) <= 53).
  { destruct (decide (Zpos (digits2_pos p) <= 53)); [done|].
    pose proof (Z.pow_le_mono_r 2 53 (Zpos (digits2_pos p) - 1)). lia. }
  assert (Hf : fexp 53 1024 (Zpos (digits2_pos p) + 0) = Zpos (digits2_pos p) - 53)
    by (unfold fexp, emin; lia).
  unfold binary_round, shl_align. rewrite Hf, Z.sub_0_r. clear Hf.
  assert (Haux : forall m, Zpos m = Zpos p * 2 ^ (53 - Zpos (digits2_pos p)) -> Zpos (digits2_pos m) = 53 ->
    binary_round_aux 53 1024 s (Zpos m) (Zpos (digits2_pos p) - 53) loc_Exact =
      S754_finite s m (Zpos (digits2_pos p) - 53)).
  { intros m _ Hm. unfold binary_round_aux. rewrite shr_fexp_exact by lia.
    cbn [shr_m loc_of_shr_record round_nearest_even]. rewrite shr_fexp_exact by lia. cbn [shr_m].
    case_if; [done|lia]. }
  destruct (Zpos (digits2_pos p) - 53) as [|q|q] eqn:Hq; [|lia|].
  - exists p. replace (53 - Zpos (digits2_pos p)) with 0 in * by lia. rewrite Z.pow_0_r in *.
    rewrite Haux by lia. split_and!; [done|lia|lia].
  - destruct (iter_xO p q) as [H1 H2]. exists (Pos.iter xO p q).
    replace (53 - Zpos (digits2_pos p)) with (Zpos q) in * by lia.
    change (PosDef.Pos.iter xO p q) with (Pos.iter xO p q).
    rewrite Haux by lia. split_and!; [done|done|lia].
Qed.

(** Comparing canonical forms is comparing the numbers. *)
Lemma f64_compare_pos s1 s2 p q : Zpos p < 2 ^ 53 -> Zpos q < 2 ^ 53 ->
  SFcompare (binary_round 53 1024 s1 p 0) (binary_round 53 1024 s2 q 0) =
    Some (match s1, s2 with
          | true, false => Lt | false, true => Gt
          | false, false => Zpos p ?= Zpos q | true, true => CompOpp (Zpos p ?= Zpos q)
          end).
Proof.
  intros Hp Hq. destruct (binary_round_exact s1 p Hp) as (mp & -> & Hmp & _).
  destruct (binary_round_exact s2 q Hq) as (mq & -> & Hmq & _). cbn [SFcompare].
  assert (Hcmp : match Zpos (digits2_pos p) - 53 ?= Zpos (digits2_pos q) - 53 with
                 | Eq => Pos.compare_cont Eq mp mq | c => c end = (Zpos p ?= Zpos q)).
  { pose proof (digits2_bounds p) as [Hp1 Hp2]. pose proof (digits2_bounds q) as [Hq1 Hq2].
    destruct (Z.compare_spec (Zpos (digits2_pos p) - 53) (Zpos (digits2_pos q) - 53)) as [He|Hl|Hg].
    - assert (He' : Zpos (digits2_pos p) = Zpos (digits2_pos q)) by lia. rewrite He' in Hmp.
      change (Pos.compare_cont Eq mp mq) with (Zpos mp ?= Zpos mq). rewrite Hmp, Hmq.
      symmetry. apply Zmult_compare_compat_r, Z.lt_gt, Z.pow_pos_nonneg; [lia|].
      destruct (binary_round_exact false q Hq) as (m & _ & _ & _).
      pose proof (Z.pow_le_mono_r 2 53 (Zpos (digits2_pos q) - 1)). lia.
    - symmetry. apply Z.compare_lt_iff.
      pose proof (Z.pow_le_mono_r 2 (Zpos (digits2_pos p)) (Zpos (digits2_pos q) - 1)). lia.
    - symmetry. apply Z.compare_gt_iff.
      pose proof (Z.pow_le_mono_r 2 (Zpos (digits2_pos q)) (Zpos (digits2_pos p) - 1)). lia. }
  rewrite <- Hcmp. destruct s1, s2; try done; by destruct (_ - 53 ?= _ - 53).
Qed.

Lemma f64_of_Z_compare a b : Z.abs a < 2 ^ 53 -> Z.abs b < 2 ^ 53 ->
  SFcompare (f64_of_Z a) (f64_of_Z b) = Some (a ?= b).
Proof.
  intros Ha Hb. unfold f64_of_Z, binary_normalize.
  destruct a as [|p|p], b as [|q|q]; try done; simpl in Ha, Hb.
  all: try (rewrite f64_compare_pos by done; simpl; try done).
  - destruct (binary_round_exact false q Hb) as (m & -> & _). done.
  - destruct (binary_round_exact true q Hb) as (m & -> & _). done.
  - destruct (binary_round_exact false p Ha) as (m & -> & _). done.
  - destruct (binary_round_exact true p Ha) as (m & -> & _). done.
Qed.

Lemma f64_of_Z_ltb a b : Z.abs a < 2 ^ 53 -> Z.abs b < 2 ^ 53 ->
  f64_ltb (f64_of_Z a) (f64_of_Z b) = (a <? b).
Proof.
  intros Ha Hb. unfold f64_ltb, SFltb. rewrite f64_of_Z_compare by done.
  unfold Z.ltb. by destruct (a ?= b).
Qed.
End Exact.
