(* ===== verification/Policy.v ===== *)
(** * Cleaning policies: sbin/policies and include/nilfs_cleaning_policy.h

    A policy judges one segment at a time and gives it a score, a [double];
    the cleaner sorts the candidates with the policy's comparison function.
    The segregation policy brings its own selection.  The functions work on
    the state [cns W unit] of the checkpoint map, from which the protected
    checkpoint is taken; the reclaim library runs on a state built from it. *)

From Stdlib Require Import SpecFloat String.
From S2P Require Import Prelude Vector Ondisk Crc32 Sb Kernel Nilfs Segment Gc Cnormap Float64.

(** What the segregation policy remembers of a candidate. *)
Record hc_candidate_meta := mk_meta { hm_is_hot : bool; hm_live_blocks : Z; hm_lastmod : Z }.

Record nilfs_segment_candidate := mk_candidate {
  cd_segnum : Z; cd_score : f64; cd_metadata : option hc_candidate_meta; cd_util : f64;
}.

(** After [memset(&cand, 0, sizeof(cand))]. *)
Definition zero_candidate : nilfs_segment_candidate :=
  mk_candidate 0 (S754_zero false) None (S754_zero false).

Definition f64_one : f64 := f64_of_Z 1.
Definition sizeof_candidate : Z := 32.
Definition HC_HOT_THRESHOLD_SEC : Z := 24 * 60 * 60.
Definition NILFS_CLDCONFIG_NSEGMENTS_PER_CLEAN_MAX : Z := 32.

(** ** Comparison functions *)

(** Higher score first, then the lower segment number; shared by the greedy,
    cost-benefit and segregation policies. *)
Definition cb_compare (c1 c2 : nilfs_segment_candidate) : Z :=
  if f64_ltb (cd_score c2) (cd_score c1) then -1
  else if f64_ltb (cd_score c1) (cd_score c2) then 1
  else if cd_segnum c1 <? cd_segnum c2 then -1 else 1.
Definition greedy_compare := cb_compare.
Definition hc_compare := cb_compare.

(** Lower score first. *)
Definition timestamp_compare (c1 c2 : nilfs_segment_candidate) : Z :=
  if f64_ltb (cd_score c1) (cd_score c2) then -1
  else if f64_ltb (cd_score c2) (cd_score c1) then 1
  else if cd_segnum c1 <? cd_segnum c2 then -1 else 1.

Definition meta_lastmod (c : nilfs_segment_candidate) : Z :=
  match cd_metadata c with Some m => hm_lastmod m | None => 0 end.

Definition age_compare_descending (c1 c2 : nilfs_segment_candidate) : Z :=
  if meta_lastmod c1 <? meta_lastmod c2 then -1
  else if meta_lastmod c2 <? meta_lastmod c1 then 1
  else if cd_segnum c1 <? cd_segnum c2 then -1
  else if cd_segnum c2 <? cd_segnum c1 then 1 else 0.

(** [si->sui_lastmod >= prottime && si->sui_lastmod <= now]: the times are
    compared as unsigned numbers. *)
Definition protected_by_time (si : nilfs_suinfo) (now prottime : Z) : bool :=
  (u64 prottime <=? sui_lastmod si) && (sui_lastmod si <=? u64 now).

Section Policies.
Context {W : Type} {K : Kernel W} {J : Junk} (junk_span : nilfs_cpspan).
Abbreviation P := (M (cns W unit)).

Definition no_vector {A} : nilfs_vector A := mk_vector [] 1 0 0.

(** A call of the reclaim library, which creates its vectors itself. *)
Definition gc_call {A} (m : M (gcs W) A) : P A :=
  fun s => let '(r, g) := m (mk_gcs (cn_sys s) [] None no_vector no_vector no_vector no_vector no_vector) in
           (r, mk_cns (g_sys g) (cn_map s) tt).

Definition track_back (period : Z) : P Z := nilfs_cnormap_track_back junk_span 0 period.

(** [None] for the result 0: clean, or an error.  The result of the first
    call is not looked at: after an error [protcno] is not initialised and
    holds whatever was in memory. *)
Definition nilfs_get_live_blk (sustat : nilfs_sustat) (segnum : Z) : P (option Z) :=
  let* r := attempt (track_back 0) in
  let* junk := lib_call (os_pure k_junk) in
  let protcno := match r with inl cno => cno | inr _ => junk end in
  let* r := attempt (gc_call (assess_segment_if_dirty sustat segnum protcno)) in
  ret (match r with
       | inl (Some st) => Some (i64 (rs_live_blks st))
       | _ => None
       end).

Definition blocks_per_segment : P Z := lib_call nilfs_get_blocks_per_segment.

(** The score is the number of blocks that cleaning the segment frees. *)
Definition greedy_candidate (bps segnum live : Z) : nilfs_segment_candidate :=
  mk_candidate segnum (f64_of_Z (bps - live)) None (f64_div (f64_of_Z live) (f64_of_Z bps)).

(** Each evaluation is [None] when the segment is not eligible. *)
Definition greedy_evaluate (sustat : nilfs_sustat) (si : nilfs_suinfo) (segnum now prottime : Z)
    (cand : nilfs_segment_candidate) : P (option nilfs_segment_candidate) :=
  let* live := nilfs_get_live_blk sustat segnum in
  match live with
  | None => ret None
  | Some live =>
    if live <? 0 then ret None
    else
      let* bps := blocks_per_segment in
      if protected_by_time si now prottime then ret None
      else ret (Some (greedy_candidate bps segnum live))
  end.

(** [(1.0 - u) * age / (1.0 + u)] *)
Definition cb_score (u : f64) (age : Z) : f64 :=
  f64_div (f64_mul (f64_sub f64_one u) (f64_of_Z age)) (f64_add f64_one u).

Definition cb_age (si : nilfs_suinfo) (now : Z) : Z :=
  let age := if sui_lastmod si <=? 0 then 0 else i64 (now - sui_lastmod si) in
  if age <? 0 then 0 else age.

Definition cb_evaluate (sustat : nilfs_sustat) (si : nilfs_suinfo) (segnum now prottime : Z)
    (cand : nilfs_segment_candidate) : P (option nilfs_segment_candidate) :=
  let* live := nilfs_get_live_blk sustat segnum in
  match live with
  | None => ret None
  | Some live =>
    if live <? 0 then ret None
    else
      let* bps := blocks_per_segment in
      let u := f64_div (f64_of_Z live) (f64_of_Z bps) in
      if protected_by_time si now prottime then ret None
      else ret (Some (mk_candidate segnum (cb_score u (cb_age si now)) None u))
  end.

Definition timestamp_candidate (bps segnum live imp : Z) : nilfs_segment_candidate :=
  mk_candidate segnum (f64_of_Z (i64 (- imp))) None (f64_div (f64_of_Z live) (f64_of_Z bps)).

Definition timestamp_evaluate (sustat : nilfs_sustat) (si : nilfs_suinfo) (segnum now prottime : Z)
    (cand : nilfs_segment_candidate) : P (option nilfs_segment_candidate) :=
  let lastmod := i64 (sui_lastmod si) in
  let thr := i64 (ss_nongc_ctime sustat) in
  let* live := nilfs_get_live_blk sustat segnum in
  match live with
  | None => ret None
  | Some live =>
    if live <? 0 then ret None
    else
      let imp := if lastmod <=? now then lastmod else i64 (thr - 1) in
      if thr <=? imp then ret None
      else if (prottime <=? lastmod) && (lastmod <=? now) then ret None
      else
        let* bps := blocks_per_segment in
        ret (Some (timestamp_candidate bps segnum live imp))
  end.

(** ** Segregation by age *)

Definition hc_evaluate (hot_threshold : Z) (sustat : nilfs_sustat) (si : nilfs_suinfo)
    (segnum now prottime : Z) (cand : nilfs_segment_candidate)
  : P (option nilfs_segment_candidate) :=
  let* r := attempt (track_back 0) in
  match r with
  | inr _ => ret None
  | inl protcno =>
    let* r := attempt (gc_call (assess_segment_if_dirty sustat segnum protcno)) in
    match r with
    | inl (Some st) =>
      if protected_by_time si now prottime then ret None
      else if negb (nilfs_suinfo_reclaimable si) then ret None
      else
        let age := i64 (now - sui_lastmod si) in
        let age := if age <? 0 then 0 else age in
        let* m := attempt (m_malloc 16) in
        match m with
        | inr _ => ret None
        | inl _ =>
          ret (Some (mk_candidate segnum (S754_zero false)
                       (Some (mk_meta (age <? hot_threshold) (u32 (rs_live_blks st))
                                (i64 (sui_lastmod si))))
                       (cd_util cand)))
        end
    | _ => ret None
    end
  end.

Definition AGE_WINDOW : Z := 4.

(** The selection loop over the sorted candidates. *)
Fixpoint cluster_loop (seed_ts bps : Z) (cands : list nilfs_segment_candidate) (count accum : Z)
  : list Z :=
  match cands with
  | [] => []
  | c :: cands' =>
    if NILFS_CLDCONFIG_NSEGMENTS_PER_CLEAN_MAX <=? count then []
    else if AGE_WINDOW <? Z.abs (i64 (seed_ts - meta_lastmod c))
         then cluster_loop seed_ts bps cands' count accum
    else
      let live := match cd_metadata c with Some m => hm_live_blocks m | None => 0 end in
      let accum := u64 (accum + live) in
      cd_segnum c :: (if bps <=? accum then [] else cluster_loop seed_ts bps cands' (count + 1) accum)
  end.

Definition cluster (bps : Z) (cands : list nilfs_segment_candidate) : list Z :=
  match cands with
  | [] => []
  | seed :: _ => cluster_loop (meta_lastmod seed) bps cands 0 0
  end.

(** The scan over all segments.  [si] keeps its value when the ioctl fills
    in no entry. *)
Fixpoint scan_segments (n : nat) (segnum : Z) (hot_threshold : Z) (sustat : nilfs_sustat)
    (now prottime : Z) (si : nilfs_suinfo) (capacity : Z) (cands : list nilfs_segment_candidate)
  : P (list nilfs_segment_candidate) :=
  match n with
  | O => ret cands
  | Datatypes.S n' =>
    let* r := attempt (lib_call (nilfs_get_suinfo segnum 1)) in
    match r with
    | inr _ => scan_segments n' (segnum + 1) hot_threshold sustat now prottime si capacity cands
    | inl sis =>
      let si := default si (head sis) in
      let* e := hc_evaluate hot_threshold sustat si segnum now prottime zero_candidate in
      match e with
      | None => scan_segments n' (segnum + 1) hot_threshold sustat now prottime si capacity cands
      | Some c =>
        let* capacity :=
          (if capacity <=? Z.of_nat (length cands)
           then m_malloc (u64 (capacity * 2 * sizeof_candidate)) ;; ret (capacity * 2)
           else ret capacity) in
        scan_segments n' (segnum + 1) hot_threshold sustat now prottime si capacity (cands ++ [c])
      end
    end
  end.

Definition strict_cluster_select (hot_threshold : Z) (sustat : nilfs_sustat) (now prottime : Z)
  : P (list Z) :=
  let* nsegs := lib_call nilfs_get_nsegments in
  if nsegs =? 0 then ret []
  else
    m_malloc (100 * sizeof_candidate) ;;
    let* cands := scan_segments (Z.to_nat nsegs) 0 hot_threshold sustat now prottime junk_si 100 [] in
    let* bps := blocks_per_segment in
    ret (cluster bps (qsort age_compare_descending cands)).

(** ** Policies *)

Record nilfs_cleaning_policy := mk_policy {
  pl_name : string;
  pl_init : option (P Z);   (** yields the policy data: the hot threshold *)
  pl_evaluate : Z -> nilfs_sustat -> nilfs_suinfo -> Z -> Z -> Z -> nilfs_segment_candidate ->
                P (option nilfs_segment_candidate);
  pl_compare : nilfs_segment_candidate -> nilfs_segment_candidate -> Z;
  pl_select : option (Z -> nilfs_sustat -> Z -> Z -> P (list Z));
}.

Definition hc_init : P Z := m_malloc 16 ;; ret HC_HOT_THRESHOLD_SEC.

Definition nilfs_policy_timestamp : nilfs_cleaning_policy :=
  mk_policy "timestamp" None (fun _ => timestamp_evaluate) timestamp_compare None.
Definition nilfs_policy_cost_benefit : nilfs_cleaning_policy :=
  mk_policy "cost-benefit" None (fun _ => cb_evaluate) cb_compare None.
Definition nilfs_policy_greedy : nilfs_cleaning_policy :=
  mk_policy "greedy" None (fun _ => greedy_evaluate) greedy_compare None.
Definition nilfs_policy_hot_cold : nilfs_cleaning_policy :=
  mk_policy "segregation" (Some hc_init) hc_evaluate hc_compare (Some strict_cluster_select).
End Policies.

(** ** The order of the candidates *)

(** What both comparison functions make of integer scores: the greater key
    first, then the lower segment number. *)
Definition by_key {A} (key seg : A -> Z) (x y : A) : Prop :=
  key y < key x \/ (key x = key y /\ seg x <= seg y).

#[export] Instance by_key_trans {A} (key seg : A -> Z) : Transitive (by_key key seg).
Proof. unfold by_key; intros x y z; lia. Qed.

Definition key_compare {A} (key seg : A -> Z) (x y : A) : Z :=
  if key y <? key x then -1 else if key x <? key y then 1
  else if seg x <? seg y then -1 else 1.

Lemma key_compare_sorted {A} (key seg : A -> Z) (l : list A) :
  StronglySorted (by_key key seg) (qsort (key_compare key seg) l).
Proof.
  apply qsort_sorted; [apply _| |]; unfold key_compare, by_key; intros x y; repeat case_if; lia.
Qed.

(** Sorting candidates whose scores compare as integers do. *)
Lemma sort_by_score {A} (cand : A -> nilfs_segment_candidate) compare (key seg : A -> Z) l :
  (forall x y, x ∈ l -> y ∈ l -> compare (cand x) (cand y) = key_compare key seg x y) ->
  exists l', qsort compare (cand <$> l) = cand <$> l' /\ l' ≡ₚ l /\ StronglySorted (by_key key seg) l'.
Proof.
  intros Hc. exists (qsort (key_compare key seg) l). rewrite qsort_fmap.
  rewrite (qsort_ext _ (key_compare key seg)) by exact Hc.
  split_and!; [done|apply qsort_perm|apply key_compare_sorted].
Qed.

(** Sorting the candidates of the greedy policy puts the segments with
    the fewest live blocks first, ties by segment number: the scores are
    [double]s, but they represent the block counts exactly. *)
Theorem greedy_order (bps : Z) (segs : list (Z * Z)) :
  0 <= bps < 2 ^ 32 -> Forall (fun sl => 0 <= sl.2 < 2 ^ 32) segs ->
  let cand := fun sl => greedy_candidate bps sl.1 sl.2 in
  exists segs', qsort greedy_compare (cand <$> segs) = cand <$> segs' /\ segs' ≡ₚ segs /\
    StronglySorted (fun a b => a.2 < b.2 \/ (a.2 = b.2 /\ a.1 <= b.1)) segs'.
Proof.
  intros Hb Hl cand. rewrite Forall_forall in Hl.
  destruct (sort_by_score cand greedy_compare (fun sl => - sl.2) fst segs) as (l' & H1 & H2 & H3).
  { intros x y Hx%Hl Hy%Hl. unfold greedy_compare, cb_compare, key_compare, cand, greedy_candidate. simpl.
    rewrite !f64_of_Z_ltb by lia. repeat case_if; lia. }
  exists l'. split_and!; [done|done|].
  eapply StronglySorted_impl; [|exact H3]. unfold by_key; simpl. lia.
Qed.

(** The timestamp policy sorts the segments by their time of last
    modification, the newest first: the score is the negated time and the
    comparison puts the lower score first. *)
Theorem timestamp_order (bps : Z) (segs : list (Z * Z * Z)) :
  Forall (fun s => 0 <= s.2 < 2 ^ 53) segs ->
  let cand := fun s => timestamp_candidate bps s.1.1 s.1.2 s.2 in
  exists segs', qsort timestamp_compare (cand <$> segs) = cand <$> segs' /\ segs' ≡ₚ segs /\
    StronglySorted (fun a b => b.2 < a.2 \/ (a.2 = b.2 /\ a.1.1 <= b.1.1)) segs'.
Proof.
  intros Hl cand. rewrite Forall_forall in Hl.
  destruct (sort_by_score cand timestamp_compare snd (fun s => s.1.1) segs) as (l' & H1 & H2 & H3);
    [|by exists l'].
  intros x y Hx%Hl Hy%Hl. unfold timestamp_compare, key_compare, cand, timestamp_candidate. simpl.
  rewrite !i64_id by (unfold is_i64; lia). rewrite !f64_of_Z_ltb by lia. repeat case_if; lia.
Qed.

(** ** The cluster of the segregation policy *)

Definition live_of (c : nilfs_segment_candidate) : Z :=
  match cd_metadata c with Some m => hm_live_blocks m | None => 0 end.

Definition older (c1 c2 : nilfs_segment_candidate) : Prop := meta_lastmod c1 <= meta_lastmod c2.
#[export] Instance older_trans : Transitive older.
Proof. unfold older; intros x y z; lia. Qed.

Lemma age_sorted l : StronglySorted older (qsort age_compare_descending l).
Proof.
  apply qsort_sorted; [apply _| |]; unfold age_compare_descending, older; intros x y; repeat case_if; lia.
Qed.

Fixpoint live_total (l : list nilfs_segment_candidate) : Z :=
  match l with [] => 0 | c :: l => live_of c + live_total l end.

(** A candidate as [hc_evaluate] makes it, from a time that is not negative. *)
Definition cand_ok (c : nilfs_segment_candidate) : Prop :=
  0 <= meta_lastmod c < 2 ^ 63 /\ 0 <= live_of c < 2 ^ 32.

(** Past the window nothing is selected any more. *)
Lemma cluster_loop_outside seed bps cands count accum :
  0 <= seed < 2 ^ 63 -> Forall (fun c => cand_ok c /\ seed + AGE_WINDOW < meta_lastmod c) cands ->
  cluster_loop seed bps cands count accum = [].
Proof.
  intros Hs. induction 1 as [|c cands [[Hc _] Hw] _ IH]; simpl; [done|].
  unfold AGE_WINDOW in *. rewrite i64_id by (unfold is_i64; lia). repeat case_if; done || lia.
Qed.

(** What the loop selects from candidates in order of age, none older than
    the seed: a prefix of them. *)
Lemma cluster_loop_prefix seed bps cands : forall count accum,
  0 <= seed < 2 ^ 63 -> Forall cand_ok cands -> StronglySorted older cands ->
  Forall (fun c => seed <= meta_lastmod c) cands ->
  0 <= count <= 32 -> 0 <= accum <= count * 2 ^ 32 ->
  exists k, cluster_loop seed bps cands count accum = cd_segnum <$> take k cands /\
    count + Z.of_nat (length (take k cands)) <= 32 /\
    Forall (fun c => meta_lastmod c <= seed + AGE_WINDOW) (take k cands) /\
    (forall j, (0 < j < k)%nat -> accum + live_total (take j cands) < bps).
Proof.
  induction cands as [|c cands IH]; intros count accum Hs Hok Hss Hge Hcnt Hacc.
  { exists 0%nat. split_and!; [done|simpl; lia|constructor|lia]. }
  inversion Hok as [|? ? Hc Hok']; inversion Hss as [|? ? Hss' Holder]; inversion Hge; subst.
  destruct Hc as [Ht Hl]. simpl. unfold NILFS_CLDCONFIG_NSEGMENTS_PER_CLEAN_MAX.
  destruct (Z.leb_spec 32 count).
  { exists 0%nat. split_and!; [done|simpl; lia|constructor|lia]. }
  unfold AGE_WINDOW in *. rewrite i64_id by (unfold is_i64; lia).
  destruct (Z.ltb_spec 4 (Z.abs (seed - meta_lastmod c))).
  { exists 0%nat. split_and!; [|simpl; lia|constructor|lia].
    apply cluster_loop_outside; [done|]. rewrite Forall_forall in Hok', Holder |- *.
    intros x Hx. split; [by apply Hok'|]. specialize (Holder x Hx). unfold older, AGE_WINDOW in *. lia. }
  fold (live_of c). rewrite u64_id by (unfold is_u64; lia).
  destruct (Z.leb_spec bps (accum + live_of c)).
  { exists 1%nat. simpl. rewrite take_0. split_and!; [done|simpl; lia|repeat constructor; lia|lia]. }
  destruct (IH (count + 1) (accum + live_of c)) as (k & E1 & E2 & E3 & E4); try done; try lia.
  exists (Datatypes.S k). simpl. rewrite E1. split_and!; [done|simpl; lia|by constructor; [lia|]|].
  intros [|[|j]] Hj; simpl; [lia|lia|]. specialize (E4 (Datatypes.S j)). simpl in E4. lia.
Qed.

(** C19: the segregation policy selects a prefix of the candidates in order of
    age, at most 32 of them (the capacity of the caller's array), with the
    oldest among them, none modified more than four seconds after the oldest;
    and it goes on only while the live blocks it has do not fill a segment. *)
Theorem cluster_spec (bps : Z) (cands : list nilfs_segment_candidate) :
  0 < bps -> Forall cand_ok cands -> cands <> [] ->
  let sorted := qsort age_compare_descending cands in
  exists k, cluster bps sorted = cd_segnum <$> take k sorted /\
    (0 < k)%nat /\ Z.of_nat (length (take k sorted)) <= NILFS_CLDCONFIG_NSEGMENTS_PER_CLEAN_MAX /\
    (forall c d, c ∈ take k sorted -> d ∈ cands -> meta_lastmod c <= meta_lastmod d + AGE_WINDOW) /\
    (forall j, (0 < j < k)%nat -> live_total (take j sorted) < bps).
Proof.
  intros Hb Hok Hne sorted.
  assert (Hok' : Forall cand_ok sorted) by (unfold sorted; by rewrite qsort_perm).
  assert (Hss : StronglySorted older sorted) by apply age_sorted.
  assert (Hperm : sorted ≡ₚ cands) by apply qsort_perm.
  destruct sorted as [|seed rest] eqn:Hsorted; [by apply Permutation_nil_l in Hperm; subst|].
  inversion Hss as [|? ? Hss' Hseed]; inversion Hok' as [|? ? Hs _]; subst.
  assert (Hge : Forall (fun c => meta_lastmod seed <= meta_lastmod c) (seed :: rest)) by (constructor; [lia|done]).
  destruct (cluster_loop_prefix (meta_lastmod seed) bps (seed :: rest) 0 0)
    as (k & E1 & E2 & E3 & E4); try done; try lia. { by destruct Hs. }
  exists k. split_and!; [done| |done| |done].
  - destruct k; [|lia]. simpl in E1. rewrite Z.sub_diag in E1. done.
  - intros c d Hc Hd. rewrite Forall_forall in E3, Hge. specialize (E3 c Hc).
    rewrite <- Hperm in Hd. specialize (Hge d Hd). lia.
Qed.

(** ** What the segregation policy may select *)

Section Selection.
Context {W : Type} {K : Kernel W} {J : Junk} (junk_span : nilfs_cpspan).

(** A segment whose usage record [si] allows cleaning it. *)
Definition eligible (now prottime : Z) (si : nilfs_suinfo) : Prop :=
  nilfs_suinfo_reclaimable si = true /\ protected_by_time si now prottime = false.

(** The kernel answered [si] when asked for the usage of segment [seg]. *)
Definition reported (seg : Z) (si : nilfs_suinfo) : Prop :=
  exists sys sis sys', nilfs_get_suinfo (W:=W) seg 1 sys = (Ok sis, sys') /\ head sis = Some si.

Definition candidate_of (now prottime : Z) (c : nilfs_segment_candidate) : Prop :=
  exists si, reported (cd_segnum c) si /\ eligible now prottime si.

(** A successful request for one record yields it. *)
Hypothesis suinfo_one : forall seg sys sis sys',
  nilfs_get_suinfo (W:=W) seg 1 sys = (Ok sis, sys') -> sis <> [].

Lemma hc_evaluate_eligible ht ss si seg now prot cand s c s' :
  hc_evaluate (W:=W) junk_span ht ss si seg now prot cand s = (Ok (Some c), s') ->
  cd_segnum c = seg /\ eligible now prot si.
Proof.
  unfold hc_evaluate. intros H. inv_bind H. destruct a as [protcno|]; [|done].
  inv_bind H. destruct a as [[st|]|]; [|done|done].
  destruct (protected_by_time si now prot) eqn:Hp; [done|].
  destruct (nilfs_suinfo_reclaimable si) eqn:Hr; [|done]. cbn [negb] in H.
  inv_bind H. destruct a; [|done]. injection H as <- <-. done.
Qed.

(** The scan keeps the segment numbers ascending. *)
Definition scanned (now prottime lim : Z) (cands : list nilfs_segment_candidate) : Prop :=
  StronglySorted Z.lt (cd_segnum <$> cands) /\
  Forall (fun c => 0 <= cd_segnum c < lim /\ candidate_of now prottime c) cands.

Lemma scanned_mono now prot lim lim' cands :
  lim <= lim' -> scanned now prot lim cands -> scanned now prot lim' cands.
Proof.
  intros Hle [H1 H2]. split; [done|]. eapply Forall_impl; [exact H2|].
  simpl. intros c [Hc ?]. split; [lia|done].
Qed.

Lemma scanned_snoc now prot seg c cands :
  0 <= seg -> scanned now prot seg cands -> cd_segnum c = seg -> candidate_of now prot c ->
  scanned now prot (seg + 1) (cands ++ [c]).
Proof.
  intros H0 [H1 H2] Hc Hcand. split.
  - rewrite fmap_app. apply StronglySorted_app_2; [|done|by repeat constructor].
    intros x y Hx Hy. apply list_elem_of_fmap in Hx as (d & -> & Hd).
    apply list_elem_of_singleton in Hy as ->. rewrite Forall_forall in H2.
    destruct (H2 d Hd). lia.
  - apply Forall_app. split; [|by repeat constructor; [lia|lia|]].
    eapply Forall_impl; [exact H2|]. simpl. intros d [Hd ?]. split; [lia|done].
Qed.

Lemma lib_call_reported (s : cns W unit) seg sis s0 si :
  attempt (lib_call (nilfs_get_suinfo seg 1)) s = (Ok (inl sis), s0) ->
  reported seg (default si (head sis)).
Proof using suinfo_one.
  unfold attempt, lib_call. destruct (nilfs_get_suinfo seg 1 (cn_sys s)) as [[] sys'] eqn:Hg; try done.
  intros [= -> _]. exists (cn_sys s), sis, sys'. split; [done|].
  apply suinfo_one in Hg. by destruct sis.
Qed.

Lemma scan_segments_sound ht ss now prot n : forall seg si cap cands s cands' s',
  0 <= seg -> scanned now prot seg cands ->
  scan_segments (W:=W) junk_span n seg ht ss now prot si cap cands s = (Ok cands', s') ->
  scanned now prot (seg + Z.of_nat n) cands'.
Proof.
  induction n as [|n IH]; intros seg si cap cands s cands' s' Hseg Hc H.
  { injection H as <- <-. by rewrite Z.add_0_r. }
  replace (seg + Z.of_nat (Datatypes.S n)) with (seg + 1 + Z.of_nat n) by lia.
  assert (Hc' : scanned now prot (seg + 1) cands) by (eapply scanned_mono; [|done]; lia).
  cbn [scan_segments] in H. inv_bind H. destruct a as [sis|]; [|eapply IH; [| |exact H]; [lia|done]].
  inv_bind H. destruct a as [c|]; [|eapply IH; [| |exact H]; [lia|done]].
  apply hc_evaluate_eligible in Hrun0 as [Hn He]. inv_bind H.
  eapply IH; [| |exact H]; [lia|]. apply scanned_snoc; [done|done|done|].
  exists (default si (head sis)). split; [|done]. rewrite Hn. by apply (lib_call_reported s seg sis s0).
Qed.

Lemma cluster_loop_sublist seed bps cands : forall count accum,
  cluster_loop seed bps cands count accum `sublist_of` (cd_segnum <$> cands) /\
  (0 <= count <= 32 -> count + Z.of_nat (length (cluster_loop seed bps cands count accum)) <= 32).
Proof.
  unfold NILFS_CLDCONFIG_NSEGMENTS_PER_CLEAN_MAX.
  induction cands as [|c cands IH]; intros count accum; simpl; [split; [constructor|simpl; lia]|].
  unfold NILFS_CLDCONFIG_NSEGMENTS_PER_CLEAN_MAX. destruct (Z.leb_spec 32 count).
  { split; [apply sublist_nil_l|simpl; lia]. }
  destruct (AGE_WINDOW <? _).
  { destruct (IH count accum) as [IH1 IH2]. split; [by constructor|done]. }
  case_if; [split; [by apply sublist_skip, sublist_nil_l|simpl; lia]|].
  destruct (IH (count + 1) (u64 (accum + match cd_metadata c with Some m => hm_live_blocks m | None => 0 end)))
    as [IH1 IH2].
  split; [by apply sublist_skip|]. simpl. lia.
Qed.

Lemma cluster_sublist bps cands :
  cluster bps cands `sublist_of` (cd_segnum <$> cands) /\ Z.of_nat (length (cluster bps cands)) <= 32.
Proof.
  destruct cands as [|c cands]; [simpl; split; [constructor|lia]|].
  destruct (cluster_loop_sublist (meta_lastmod c) bps (c :: cands) 0 0) as [H1 H2].
  split; [exact H1|]. unfold cluster. lia.
Qed.

(** Whatever the kernel reports, the segregation policy writes at most
    32 segment numbers, all different, all of segments of the file system,
    and each with a usage record from the kernel that says the segment is dirty,
    neither active nor erroneous, and not modified within the protection period. *)
Theorem strict_select_safe (ht : Z) (ss : nilfs_sustat) (now prottime : Z) (s : cns W unit) (nsegs : Z) :
  nilfs_get_nsegments (cn_sys s) = (Ok nsegs, cn_sys s) ->
  match strict_cluster_select junk_span ht ss now prottime s with
  | (Ok segs, _) => Z.of_nat (length segs) <= 32 /\ NoDup segs /\
      Forall (fun seg => 0 <= seg < nsegs /\
                exists si, reported seg si /\ eligible now prottime si) segs
  | _ => True
  end.
Proof.
  intros Hn. destruct (strict_cluster_select _ _ _ _ _ s) as [[segs| | | |] s'] eqn:H; try done.
  unfold strict_cluster_select, lib_call in H. inv_bind H. rewrite Hn in Hrun.
  injection Hrun as <- <-. case_if_in H.
  { injection H as <- <-. simpl. split_and!; [lia|constructor|constructor]. }
  inv_bind H. inv_bind H. inv_bind H. injection H as <- <-. rename a0 into cands.
  apply scan_segments_sound in Hrun0 as [Hs Hf]; [|done|split; [constructor|constructor]].
  destruct (cluster_sublist a1 (qsort age_compare_descending cands)) as [Hsub Hlen].
  assert (Hperm : cd_segnum <$> qsort age_compare_descending cands ≡ₚ cd_segnum <$> cands)
    by (by rewrite qsort_perm).
  assert (Hnd : NoDup (cd_segnum <$> cands)).
  { clear -Hs. induction Hs as [|x l Hl IH Hx]; constructor; [|done].
    intros Hin. rewrite Forall_forall in Hx. specialize (Hx x Hin). lia. }
  split_and!; [done| |].
  - eapply sublist_NoDup; [|exact Hsub]. by rewrite Hperm.
  - rewrite Forall_forall. rewrite Forall_forall in Hf. intros seg Hseg.
    apply (elem_of_sublist _ _ _ Hseg) in Hsub. rewrite Hperm in Hsub.
    apply list_elem_of_fmap in Hsub as (c & -> & Hc). destruct (Hf c Hc) as [Hr (si & Hsi & He)].
    split; [|by exists si]. pose proof (Zle_0_nat (Z.to_nat nsegs)). lia.
Qed.
End Selection.
