(* ===== verification/Cldconfig.v ===== *)
(** * The configuration of the cleaner daemon: sbin/cldconfig.c

    The configuration file is the list of its bytes.  A line is read with
    [fgets] into a buffer of [LINE_MAX] bytes, split into tokens and given to
    the handler of its keyword; a token is the list of its characters.  The
    handlers read the geometry of the file system through the nilfs object,
    so they are computations on [sys W]; messages to the log are left out. *)

From Stdlib Require Import SpecFloat String.
From S2P Require Import Prelude Vector Ondisk Crc32 Sb Kernel Nilfs Parser Float64.

(** ** Data *)

Inductive nilfs_size_unit :=
| NILFS_SIZE_UNIT_NONE | NILFS_SIZE_UNIT_PERCENT
| NILFS_SIZE_UNIT_KB | NILFS_SIZE_UNIT_KIB | NILFS_SIZE_UNIT_MB | NILFS_SIZE_UNIT_MIB
| NILFS_SIZE_UNIT_GB | NILFS_SIZE_UNIT_GIB | NILFS_SIZE_UNIT_TB | NILFS_SIZE_UNIT_TIB
| NILFS_SIZE_UNIT_PB | NILFS_SIZE_UNIT_PIB | NILFS_SIZE_UNIT_EB | NILFS_SIZE_UNIT_EIB.

Record nilfs_param := mk_param { pm_num : Z; pm_unit : nilfs_size_unit }.

Inductive nilfs_selection_policy :=
| NILFS_SELECTION_POLICY_TIMESTAMP | NILFS_SELECTION_POLICY_GREEDY
| NILFS_SELECTION_POLICY_COST_BENEFIT | NILFS_SELECTION_POLICY_SEGREGATION.

Record nilfs_cldconfig := mk_cldconfig {
  cf_selection_policy : nilfs_selection_policy;
  cf_protection_period : timespec;
  cf_policy_name : string;
  cf_log_file : string;
  cf_min_clean_segments : Z;
  cf_max_clean_segments : Z;
  cf_clean_check_interval : timespec;
  cf_nsegments_per_clean : Z;
  cf_mc_nsegments_per_clean : Z;
  cf_cleaning_interval : timespec;
  cf_mc_cleaning_interval : timespec;
  cf_retry_interval : timespec;
  cf_use_mmap : bool;
  cf_use_set_suinfo : bool;
  cf_log_priority : Z;
  cf_min_reclaimable_blocks : Z;
  cf_mc_min_reclaimable_blocks : Z;
}.

Definition NILFS_CLDCONFIG_PROTECTION_PERIOD : Z := 3600.
Definition NILFS_CLDCONFIG_MIN_CLEAN_SEGMENTS : Z := 10.
Definition NILFS_CLDCONFIG_MAX_CLEAN_SEGMENTS : Z := 20.
Definition NILFS_CLDCONFIG_CLEAN_CHECK_INTERVAL : Z := 10.
Definition NILFS_CLDCONFIG_NSEGMENTS_PER_CLEAN : Z := 2.
Definition NILFS_CLDCONFIG_MC_NSEGMENTS_PER_CLEAN : Z := 4.
Definition NILFS_CLDCONFIG_CLEANING_INTERVAL : Z := 5.
Definition NILFS_CLDCONFIG_MC_CLEANING_INTERVAL : Z := 1.
Definition NILFS_CLDCONFIG_RETRY_INTERVAL : Z := 60.
Definition NILFS_CLDCONFIG_MIN_RECLAIMABLE_BLOCKS : Z := 10.
Definition NILFS_CLDCONFIG_MC_MIN_RECLAIMABLE_BLOCKS : Z := 1.
Definition NSEGMENTS_PER_CLEAN_MAX : Z := 32.
Definition LOG_EMERG : Z := 0.
Definition LOG_INFO : Z := 6.
Definition LOG_DEBUG : Z := 7.
Definition LINE_MAX : Z := 2048.
Definition NTOKENS_MAX : nat := 16.

(** ** Updates of one member *)

Definition set_protection_period (c : nilfs_cldconfig) (ts : timespec) : nilfs_cldconfig :=
  mk_cldconfig (cf_selection_policy c) ts (cf_policy_name c) (cf_log_file c) (cf_min_clean_segments c)
    (cf_max_clean_segments c) (cf_clean_check_interval c) (cf_nsegments_per_clean c)
    (cf_mc_nsegments_per_clean c) (cf_cleaning_interval c) (cf_mc_cleaning_interval c)
    (cf_retry_interval c) (cf_use_mmap c) (cf_use_set_suinfo c) (cf_log_priority c)
    (cf_min_reclaimable_blocks c) (cf_mc_min_reclaimable_blocks c).
Definition set_policy (c : nilfs_cldconfig) (p : nilfs_selection_policy) (name : string) : nilfs_cldconfig :=
  mk_cldconfig p (cf_protection_period c) name (cf_log_file c) (cf_min_clean_segments c)
    (cf_max_clean_segments c) (cf_clean_check_interval c) (cf_nsegments_per_clean c)
    (cf_mc_nsegments_per_clean c) (cf_cleaning_interval c) (cf_mc_cleaning_interval c)
    (cf_retry_interval c) (cf_use_mmap c) (cf_use_set_suinfo c) (cf_log_priority c)
    (cf_min_reclaimable_blocks c) (cf_mc_min_reclaimable_blocks c).
Definition set_clean_segments (c : nilfs_cldconfig) (min max : Z) : nilfs_cldconfig :=
  mk_cldconfig (cf_selection_policy c) (cf_protection_period c) (cf_policy_name c) (cf_log_file c) min
    max (cf_clean_check_interval c) (cf_nsegments_per_clean c)
    (cf_mc_nsegments_per_clean c) (cf_cleaning_interval c) (cf_mc_cleaning_interval c)
    (cf_retry_interval c) (cf_use_mmap c) (cf_use_set_suinfo c) (cf_log_priority c)
    (cf_min_reclaimable_blocks c) (cf_mc_min_reclaimable_blocks c).
Definition set_nsegments (c : nilfs_cldconfig) (n mc : Z) : nilfs_cldconfig :=
  mk_cldconfig (cf_selection_policy c) (cf_protection_period c) (cf_policy_name c) (cf_log_file c)
    (cf_min_clean_segments c) (cf_max_clean_segments c) (cf_clean_check_interval c) n mc
    (cf_cleaning_interval c) (cf_mc_cleaning_interval c)
    (cf_retry_interval c) (cf_use_mmap c) (cf_use_set_suinfo c) (cf_log_priority c)
    (cf_min_reclaimable_blocks c) (cf_mc_min_reclaimable_blocks c).
(** The four intervals: check, cleaning, cleaning when short of segments, retry. *)
Definition set_intervals (c : nilfs_cldconfig) (check clean mc retry : timespec) : nilfs_cldconfig :=
  mk_cldconfig (cf_selection_policy c) (cf_protection_period c) (cf_policy_name c) (cf_log_file c)
    (cf_min_clean_segments c) (cf_max_clean_segments c) check (cf_nsegments_per_clean c)
    (cf_mc_nsegments_per_clean c) clean mc retry (cf_use_mmap c) (cf_use_set_suinfo c)
    (cf_log_priority c) (cf_min_reclaimable_blocks c) (cf_mc_min_reclaimable_blocks c).
Definition set_flags (c : nilfs_cldconfig) (mmap suinfo : bool) (log : Z) : nilfs_cldconfig :=
  mk_cldconfig (cf_selection_policy c) (cf_protection_period c) (cf_policy_name c) (cf_log_file c)
    (cf_min_clean_segments c) (cf_max_clean_segments c) (cf_clean_check_interval c)
    (cf_nsegments_per_clean c) (cf_mc_nsegments_per_clean c) (cf_cleaning_interval c)
    (cf_mc_cleaning_interval c) (cf_retry_interval c) mmap suinfo log
    (cf_min_reclaimable_blocks c) (cf_mc_min_reclaimable_blocks c).
Definition set_min_reclaimable (c : nilfs_cldconfig) (n mc : Z) : nilfs_cldconfig :=
  mk_cldconfig (cf_selection_policy c) (cf_protection_period c) (cf_policy_name c) (cf_log_file c)
    (cf_min_clean_segments c) (cf_max_clean_segments c) (cf_clean_check_interval c)
    (cf_nsegments_per_clean c) (cf_mc_nsegments_per_clean c) (cf_cleaning_interval c)
    (cf_mc_cleaning_interval c) (cf_retry_interval c) (cf_use_mmap c) (cf_use_set_suinfo c)
    (cf_log_priority c) n mc.

(** ** Numbers *)

Definition skip_sign (s : list Z) : bool * list Z :=
  match s with
  | 45 :: s' => (true, s')
  | 43 :: s' => (false, s')
  | _ => (false, s)
  end.

(** Whether [strtoul(arg, _, 10)] sets [errno] to [ERANGE]. *)
Definition strtoul_erange (arg : list Z) : bool :=
  ULLONG_MAX <? (strto_digits 10 0 (skip_sign (skip_spaces arg)).2).1.

(** [strtod] on a number in decimal notation (the code calls it only when
    digits and a point follow the sign): the value, where the parse stopped,
    and whether the value is out of range. *)
Definition strtod_exponent (s : list Z) : Z * list Z :=
  match s with
  | c :: s' =>
    if (c =? 101) || (c =? 69) then
      let '(neg, d) := skip_sign s' in
      if is_digit 10 (char_at d)
      then let '(v, rest) := strto_digits 10 0 d in (if neg then - v else v, rest)
      else (0, s)
    else (0, s)
  | [] => (0, s)
  end.

(** The nearest double to [m * 10^e]. *)
Definition decimal (m e : Z) : f64 :=
  if 0 <=? e then f64_of_ratio (m * 10 ^ e) 1
  else f64_of_ratio m (Z.to_pos (10 ^ (- e))).

(** Out of range: infinite, or too small for a normal number and inexact. *)
Definition decimal_erange (m e : Z) (x : f64) : bool :=
  match x with
  | S754_infinity _ => true
  | S754_zero _ => negb (m =? 0)
  | S754_finite _ p k =>
    if Zpos p <? 2 ^ 52 then
      negb (Z.abs m * 10 ^ (Z.max e 0) * 2 ^ (Z.max (- k) 0) =? Zpos p * 10 ^ (Z.max (- e) 0) * 2 ^ (Z.max k 0))
    else false
  | S754_nan => true
  end.

Definition strtod (arg : list Z) : f64 * list Z * bool :=
  let '(neg, s) := skip_sign (skip_spaces arg) in
  let '(ip, s1) := strto_digits 10 0 s in
  match s1 with
  | 46 :: s2 =>
    let '(m, s3) := strto_digits 10 ip s2 in
    let '(e, rest) := strtod_exponent s3 in
    let e := e - (Z.of_nat (length s2) - Z.of_nat (length s3)) in
    let x := decimal (if neg then - m else m) e in
    (x, rest, decimal_erange m e x)
  | _ => (f64_of_Z (if neg then - ip else ip), s1, false)
  end.

(** ** Arguments of the keywords *)

(** [tokens[0]] and [tokens[1]]; a token that is not there is not read. *)
Definition arg1 (tokens : list (list Z)) : option (list Z) := tokens !! 1%nat.

Section Handlers.
Context {W : Type} {K : Kernel W}.
Abbreviation MS := (M (sys W)).

Definition check_tokens (ntoks ntoksmin ntoksmax : Z) : bool := negb (ntoks <? ntoksmin).

Definition nilfs_cldconfig_get_ulong_argument (tokens : list (list Z)) : MS (option Z) :=
  let* arg := of_option (arg1 tokens) in
  let '(num, endptr) := strtoull arg 10 in
  match endptr with
  | _ :: _ => ret None
  | [] => if (num =? ULLONG_MAX) && strtoul_erange arg then ret None else ret (Some num)
  end.

(** Undefined when the fraction times 10^9 does not fit into a [long]. *)
Definition nilfs_cldconfig_get_time_argument (tokens : list (list Z)) : MS (option timespec) :=
  let* arg := of_option (arg1 tokens) in
  let '(num, endptr) := strtoull arg 10 in
  if same_ptr (Some endptr) arg then ret None
  else if char_at endptr =? 46 then
    let '(fnum, endptr, erange) := strtod arg in
    match endptr with
    | _ :: _ => ret None
    | [] =>
      if (erange : bool) then ret None
      else
        let* nsec := of_option (f64_to_i64 (f64_mul (f64_sub fnum (f64_of_Z num)) (f64_of_Z 1000000000))) in
        ret (Some (mk_timespec (i64 num) nsec))
    end
  else match endptr with
       | _ :: _ => ret None
       | [] => if num =? ULLONG_MAX then ret None else ret (Some (mk_timespec (i64 num) 0))
       end.

(** The units of a suffix letter: the SI one, and the IEC one after it. *)
Definition suffix_units (c : Z) : option (nilfs_size_unit * nilfs_size_unit) :=
  if c =? 75 then Some (NILFS_SIZE_UNIT_KB, NILFS_SIZE_UNIT_KIB)
  else if c =? 77 then Some (NILFS_SIZE_UNIT_MB, NILFS_SIZE_UNIT_MIB)
  else if c =? 71 then Some (NILFS_SIZE_UNIT_GB, NILFS_SIZE_UNIT_GIB)
  else if c =? 84 then Some (NILFS_SIZE_UNIT_TB, NILFS_SIZE_UNIT_TIB)
  else if c =? 80 then Some (NILFS_SIZE_UNIT_PB, NILFS_SIZE_UNIT_PIB)
  else if c =? 69 then Some (NILFS_SIZE_UNIT_EB, NILFS_SIZE_UNIT_EIB)
  else None.

(** [None] is -1.  "kB", "?B" are decimal; "?", "?iB" are binary. *)
Definition nilfs_parse_size_suffix (cp : list Z) : option nilfs_size_unit :=
  if char_at cp =? 107 then
    match tail cp with
    | [66] => Some NILFS_SIZE_UNIT_KB
    | _ => None
    end
  else
    match suffix_units (char_at cp), tail cp with
    | Some (si, iec), [] => Some iec
    | Some (si, iec), [66] => Some si
    | Some (si, iec), [105; 66] => Some iec
    | _, _ => None
    end.

Definition nilfs_cldconfig_get_size_argument (tokens : list (list Z)) : MS (option nilfs_param) :=
  let* arg := of_option (arg1 tokens) in
  let '(num, endptr) := strtoull arg 10 in
  if same_ptr (Some endptr) arg then ret None
  else if (num =? ULLONG_MAX) && strtoul_erange arg then ret None
  else match endptr with
       | [] => ret (Some (mk_param num NILFS_SIZE_UNIT_NONE))
       | [37] => if 100 <? num then ret None else ret (Some (mk_param num NILFS_SIZE_UNIT_PERCENT))
       | _ => ret (mk_param num <$> nilfs_parse_size_suffix endptr)
       end.

Definition unit_factor (u : nilfs_size_unit) : option Z :=
  match u with
  | NILFS_SIZE_UNIT_KB => Some 1000
  | NILFS_SIZE_UNIT_KIB => Some (2 ^ 10)
  | NILFS_SIZE_UNIT_MB => Some 1000000
  | NILFS_SIZE_UNIT_MIB => Some (2 ^ 20)
  | NILFS_SIZE_UNIT_GB => Some 1000000000
  | NILFS_SIZE_UNIT_GIB => Some (2 ^ 30)
  | NILFS_SIZE_UNIT_TB => Some 1000000000000
  | NILFS_SIZE_UNIT_TIB => Some (2 ^ 40)
  | NILFS_SIZE_UNIT_PB => Some 1000000000000000
  | NILFS_SIZE_UNIT_PIB => Some (2 ^ 50)
  | NILFS_SIZE_UNIT_EB => Some 1000000000000000000
  | NILFS_SIZE_UNIT_EIB => Some (2 ^ 60)
  | _ => None
  end.

(** Any other unit fails the assertion. *)
Definition nilfs_convert_units_to_bytes (param : nilfs_param) : MS Z :=
  let* f := of_option (unit_factor (pm_unit param)) in
  ret (u64 (pm_num param * f)).

(** Division by zero does not return. *)
Definition div64 (a b : Z) : MS Z := if b =? 0 then abort else ret (a / b).

Definition nilfs_convert_size_to_nsegments (param : nilfs_param) : MS Z :=
  match pm_unit param with
  | NILFS_SIZE_UNIT_NONE => ret (pm_num param)
  | NILFS_SIZE_UNIT_PERCENT =>
    let* n := nilfs_get_nsegments in
    ret (u64 (n * pm_num param + 99) / 100)
  | _ =>
    let* bytes := nilfs_convert_units_to_bytes param in
    let* bs := nilfs_get_block_size in
    let* bps := nilfs_get_blocks_per_segment in
    let segment_size := u64 (bs * bps) in
    div64 (u64 (bytes + segment_size - 1)) segment_size
  end.

Definition nilfs_convert_size_to_blocks_per_segment (param : nilfs_param) : MS Z :=
  match pm_unit param with
  | NILFS_SIZE_UNIT_NONE => ret (pm_num param)
  | NILFS_SIZE_UNIT_PERCENT =>
    let* bps := nilfs_get_blocks_per_segment in
    ret (u64 (bps * pm_num param + 99) / 100)
  | _ =>
    let* block_size := nilfs_get_block_size in
    let* bps := nilfs_get_blocks_per_segment in
    let segment_size := u64 (block_size * bps) in
    let* bytes := nilfs_convert_units_to_bytes param in
    if segment_size =? 0 then abort
    else div64 (u64 (bytes mod segment_size + block_size - 1)) block_size
  end.

(** ** Handlers

    A handler returns the new configuration and its result, 0 or -1. *)
Abbreviation handler := (nilfs_cldconfig -> list (list Z) -> MS (nilfs_cldconfig * Z)).

(** A handler that passes on the result of the time parser ... *)
Definition handle_time (set : nilfs_cldconfig -> timespec -> nilfs_cldconfig) : handler :=
  fun config tokens =>
    let* r := nilfs_cldconfig_get_time_argument tokens in
    ret (match r with Some ts => (set config ts, 0) | None => (config, -1) end).

(** ... and one that ignores a size it cannot parse. *)
Definition handle_size (convert : nilfs_param -> MS Z)
    (set : nilfs_cldconfig -> Z -> nilfs_cldconfig) : handler :=
  fun config tokens =>
    let* r := nilfs_cldconfig_get_size_argument tokens in
    match r with
    | Some param => let* v := convert param in ret (set config v, 0)
    | None => ret (config, 0)
    end.

Definition nilfs_cldconfig_handle_protection_period : handler := handle_time set_protection_period.

Definition nilfs_cldconfig_handle_min_clean_segments : handler :=
  handle_size nilfs_convert_size_to_nsegments
    (fun c v => set_clean_segments c v (cf_max_clean_segments c)).

Definition nilfs_cldconfig_handle_max_clean_segments : handler :=
  handle_size nilfs_convert_size_to_nsegments
    (fun c v => set_clean_segments c (cf_min_clean_segments c) v).

Definition nilfs_cldconfig_handle_clean_check_interval : handler :=
  handle_time (fun c ts => set_intervals c ts (cf_cleaning_interval c) (cf_mc_cleaning_interval c)
                             (cf_retry_interval c)).

Definition nilfs_cldconfig_handle_selection_policy_timestamp (cf : nilfs_cldconfig) : nilfs_cldconfig :=
  set_policy cf NILFS_SELECTION_POLICY_TIMESTAMP "timestamp".
Definition nilfs_cldconfig_handle_selection_policy_greedy (cf : nilfs_cldconfig) : nilfs_cldconfig :=
  set_policy cf NILFS_SELECTION_POLICY_GREEDY "greedy".
Definition nilfs_cldconfig_handle_selection_policy_cost_benefit (cf : nilfs_cldconfig) : nilfs_cldconfig :=
  set_policy cf NILFS_SELECTION_POLICY_COST_BENEFIT "cost-benefit".
Definition nilfs_cldconfig_handle_selection_policy_segregation (cf : nilfs_cldconfig) : nilfs_cldconfig :=
  set_policy cf NILFS_SELECTION_POLICY_SEGREGATION "segregation".

Definition nilfs_cldconfig_polhandle_table : list (string * (nilfs_cldconfig -> nilfs_cldconfig)) :=
  [("timestamp"%string, nilfs_cldconfig_handle_selection_policy_timestamp);
   ("greedy"%string, nilfs_cldconfig_handle_selection_policy_greedy);
   ("cost-benefit"%string, nilfs_cldconfig_handle_selection_policy_cost_benefit);
   ("segregation"%string, nilfs_cldconfig_handle_selection_policy_segregation)].

(** The first entry of a table with this name. *)
Fixpoint table_find {A} (table : list (string * A)) (name : list Z) : option A :=
  match table with
  | [] => None
  | (s, a) :: table' => if bool_decide (codes s = name) then Some a else table_find table' name
  end.

Definition nilfs_cldconfig_handle_selection_policy : handler :=
  fun config tokens =>
    let* arg := of_option (arg1 tokens) in
    ret (match table_find nilfs_cldconfig_polhandle_table arg with
         | Some f => (f config, 0)
         | None => (config, 0)
         end).

Definition handle_nsegments (set : nilfs_cldconfig -> Z -> nilfs_cldconfig) : handler :=
  fun config tokens =>
    let* r := nilfs_cldconfig_get_ulong_argument tokens in
    ret (match r with
         | None => (config, 0)
         | Some n => (set config (if NSEGMENTS_PER_CLEAN_MAX <? n then NSEGMENTS_PER_CLEAN_MAX else n), 0)
         end).

Definition nilfs_cldconfig_handle_nsegments_per_clean : handler :=
  handle_nsegments (fun c n => set_nsegments c n (cf_mc_nsegments_per_clean c)).
Definition nilfs_cldconfig_handle_mc_nsegments_per_clean : handler :=
  handle_nsegments (fun c n => set_nsegments c (cf_nsegments_per_clean c) n).

Definition nilfs_cldconfig_handle_min_reclaimable_blocks : handler :=
  handle_size nilfs_convert_size_to_blocks_per_segment
    (fun c v => set_min_reclaimable c v (cf_mc_min_reclaimable_blocks c)).
Definition nilfs_cldconfig_handle_mc_min_reclaimable_blocks : handler :=
  handle_size nilfs_convert_size_to_blocks_per_segment
    (fun c v => set_min_reclaimable c (cf_min_reclaimable_blocks c) v).

Definition nilfs_cldconfig_handle_cleaning_interval : handler :=
  handle_time (fun c ts => set_intervals c (cf_clean_check_interval c) ts (cf_mc_cleaning_interval c)
                             (cf_retry_interval c)).
Definition nilfs_cldconfig_handle_mc_cleaning_interval : handler :=
  handle_time (fun c ts => set_intervals c (cf_clean_check_interval c) (cf_cleaning_interval c) ts
                             (cf_retry_interval c)).
Definition nilfs_cldconfig_handle_retry_interval : handler :=
  handle_time (fun c ts => set_intervals c (cf_clean_check_interval c) (cf_cleaning_interval c)
                             (cf_mc_cleaning_interval c) ts).

Definition nilfs_cldconfig_handle_use_mmap : handler :=
  fun config _ => ret (set_flags config true (cf_use_set_suinfo config) (cf_log_priority config), 0).
Definition nilfs_cldconfig_handle_use_set_suinfo : handler :=
  fun config _ => ret (set_flags config (cf_use_mmap config) true (cf_log_priority config), 0).

Definition nilfs_cldconfig_log_priority_table : list (string * Z) :=
  [("emerg"%string, LOG_EMERG); ("alert"%string, 1); ("crit"%string, 2); ("err"%string, 3);
   ("warning"%string, 4); ("notice"%string, 5); ("info"%string, LOG_INFO); ("debug"%string, LOG_DEBUG)].

Definition nilfs_cldconfig_handle_log_priority : handler :=
  fun config tokens =>
    let* arg := of_option (arg1 tokens) in
    ret (match table_find nilfs_cldconfig_log_priority_table arg with
         | Some p => (set_flags config (cf_use_mmap config) (cf_use_set_suinfo config) p, 0)
         | None => (config, 0)
         end).

(** Keyword, least and largest number of tokens, handler. *)
Definition nilfs_cldconfig_keyword_table : list (string * (Z * Z * handler)) :=
  [("protection_period"%string, (2, 2, nilfs_cldconfig_handle_protection_period));
   ("min_clean_segments"%string, (2, 2, nilfs_cldconfig_handle_min_clean_segments));
   ("max_clean_segments"%string, (2, 2, nilfs_cldconfig_handle_max_clean_segments));
   ("clean_check_interval"%string, (2, 2, nilfs_cldconfig_handle_clean_check_interval));
   ("selection_policy"%string, (2, 3, nilfs_cldconfig_handle_selection_policy));
   ("nsegments_per_clean"%string, (2, 2, nilfs_cldconfig_handle_nsegments_per_clean));
   ("mc_nsegments_per_clean"%string, (2, 2, nilfs_cldconfig_handle_mc_nsegments_per_clean));
   ("cleaning_interval"%string, (2, 2, nilfs_cldconfig_handle_cleaning_interval));
   ("mc_cleaning_interval"%string, (2, 2, nilfs_cldconfig_handle_mc_cleaning_interval));
   ("retry_interval"%string, (2, 2, nilfs_cldconfig_handle_retry_interval));
   ("use_mmap"%string, (1, 1, nilfs_cldconfig_handle_use_mmap));
   ("log_priority"%string, (2, 2, nilfs_cldconfig_handle_log_priority));
   ("min_reclaimable_blocks"%string, (2, 2, nilfs_cldconfig_handle_min_reclaimable_blocks));
   ("mc_min_reclaimable_blocks"%string, (2, 2, nilfs_cldconfig_handle_mc_min_reclaimable_blocks));
   ("use_set_suinfo"%string, (1, 1, nilfs_cldconfig_handle_use_set_suinfo))].

Definition nilfs_cldconfig_handle_keyword : handler :=
  fun config tokens =>
    match tokens with
    | [] => ret (config, 0)
    | kw :: _ =>
      match table_find nilfs_cldconfig_keyword_table kw with
      | Some (minargs, maxargs, h) =>
        if check_tokens (Z.of_nat (length tokens)) minargs maxargs then h config tokens
        else ret (config, 0)
      | None => ret (config, 0)
      end
    end.

(** ** Reading the file *)

Definition percent (n : Z) : nilfs_param := mk_param n NILFS_SIZE_UNIT_PERCENT.

Definition nilfs_cldconfig_set_default : MS nilfs_cldconfig :=
  let* min := nilfs_convert_size_to_nsegments (percent NILFS_CLDCONFIG_MIN_CLEAN_SEGMENTS) in
  let* max := nilfs_convert_size_to_nsegments (percent NILFS_CLDCONFIG_MAX_CLEAN_SEGMENTS) in
  let* mrb := nilfs_convert_size_to_blocks_per_segment (percent NILFS_CLDCONFIG_MIN_RECLAIMABLE_BLOCKS) in
  let* mc_mrb := nilfs_convert_size_to_blocks_per_segment (percent NILFS_CLDCONFIG_MC_MIN_RECLAIMABLE_BLOCKS) in
  ret (mk_cldconfig NILFS_SELECTION_POLICY_TIMESTAMP
         (mk_timespec NILFS_CLDCONFIG_PROTECTION_PERIOD 0) "timestamp" "/var/log/nilfs/" min max
         (mk_timespec NILFS_CLDCONFIG_CLEAN_CHECK_INTERVAL 0) NILFS_CLDCONFIG_NSEGMENTS_PER_CLEAN
         NILFS_CLDCONFIG_MC_NSEGMENTS_PER_CLEAN (mk_timespec NILFS_CLDCONFIG_CLEANING_INTERVAL 0)
         (mk_timespec NILFS_CLDCONFIG_MC_CLEANING_INTERVAL 0)
         (mk_timespec NILFS_CLDCONFIG_RETRY_INTERVAL 0) true false LOG_INFO mrb mc_mrb).

Definition iseol (c : Z) : bool := (c =? 10) || (c =? 0) || (c =? 35).

(** A token and what follows it; the delimiter is overwritten with NUL. *)
Fixpoint token_span (s : list Z) : list Z * list Z :=
  match s with
  | [] => ([], [])
  | c :: s' =>
    if isspace c then ([], s')
    else if iseol c then ([], [])
    else let '(tok, rest) := token_span s' in (c :: tok, rest)
  end.

Fixpoint tokenize (ntoks : nat) (p : list Z) : list (list Z) :=
  match ntoks with
  | O => []
  | Datatypes.S n =>
    let p := skip_spaces p in
    if iseol (char_at p) then []
    else let '(tok, rest) := token_span p in tok :: tokenize n rest
  end.

(** [fgets]: at most [n] bytes, up to and with the first newline. *)
Fixpoint fgets (n : nat) (file : list Z) : list Z * list Z :=
  match n, file with
  | Datatypes.S n', c :: file' =>
    if c =? 10 then ([c], file')
    else let '(line, rest) := fgets n' file' in (c :: line, rest)
  | _, _ => ([], file)
  end.

(** The bytes of a buffer up to the first NUL: the string it holds. *)
Fixpoint c_string (buf : list Z) : list Z :=
  match buf with
  | c :: buf' => if c =? 0 then [] else c :: c_string buf'
  | [] => []
  end.

Fixpoint skip_line (file : list Z) : list Z :=
  match file with
  | c :: file' => if c =? 10 then file' else skip_line file'
  | [] => []
  end.

(** The loop over the lines.  A line that starts with NUL makes the code read
    the byte before its buffer. *)
Fixpoint read_lines (fuel : nat) (config : nilfs_cldconfig) (file : list Z) : MS (nilfs_cldconfig * Z) :=
  match fuel, file with
  | _, [] => ret (config, 0)
  | O, _ => out_of_fuel
  | Datatypes.S fuel', _ =>
    let '(buf, file) := fgets (Z.to_nat (LINE_MAX - 1)) file in
    let line := c_string buf in
    match last line with
    | None => abort
    | Some c =>
      let file := if c =? 10 then file else skip_line file in
      match tokenize NTOKENS_MAX line with
      | [] => read_lines fuel' config file
      | tokens =>
        let* (config, r) := nilfs_cldconfig_handle_keyword config tokens in
        if r <? 0 then ret (config, r) else read_lines fuel' config file
      end
    end
  end.

(** [None]: the file cannot be opened. *)
Definition nilfs_cldconfig_do_read (config : nilfs_cldconfig) (conffile : option (list Z))
  : MS (nilfs_cldconfig * Z) :=
  match conffile with
  | None => ret (config, -1)
  | Some file => read_lines (length file) config file
  end.

(** [is_reg]: [stat] succeeds on the path and it is a regular file. *)
Definition nilfs_cldconfig_read (is_reg : bool) (conffile : option (list Z)) : MS nilfs_cldconfig :=
  if negb is_reg then fail EINVAL
  else
    let* config := nilfs_cldconfig_set_default in
    let* (config, r) := nilfs_cldconfig_do_read config conffile in
    ret config.
End Handlers.

(** ** Lines and tokens *)

Lemma token_span_chars p : forall tok rest, token_span p = (tok, rest) ->
  (forall c, c ∈ tok -> c ∈ p) /\ (forall c, c ∈ rest -> c ∈ p).
Proof.
  induction p as [|c p IH]; intros tok rest; simpl.
  { intros [= <- <-]. by split. }
  case_if; [intros [= <- <-]; set_solver|]. case_if; [intros [= <- <-]; set_solver|].
  destruct (token_span p) as [t r]. intros [= <- <-]. destruct (IH t r eq_refl). set_solver.
Qed.

Lemma suffix_elem (x : Z) l k : l `suffix_of` k -> x ∈ l -> x ∈ k.
Proof. intros [pre ->]. set_solver. Qed.

Lemma tokenize_chars n : forall p tok c, tok ∈ tokenize n p -> c ∈ tok -> c ∈ p.
Proof.
  induction n as [|n IH]; intros p tok c; cbn [tokenize]; [set_solver|].
  case_if; [set_solver|]. destruct (token_span (skip_spaces p)) as [t r] eqn:Ht.
  apply token_span_chars in Ht as [H1 H2]. intros [->|Hin]%elem_of_cons Hc.
  - eapply suffix_elem; [apply skip_spaces_suffix|]. by apply H1.
  - eapply suffix_elem; [apply skip_spaces_suffix|]. apply H2. by eapply IH.
Qed.

Lemma fgets_app n : forall file line rest, fgets n file = (line, rest) -> file = line ++ rest.
Proof.
  induction n as [|n IH]; intros [|c file] line rest; simpl; try (by intros [= <- <-]).
  case_if; [by intros [= <- <-]|]. destruct (fgets n file) as [l r] eqn:Hf. intros [= <- <-].
  simpl. f_equal. by apply IH.
Qed.

Lemma fgets_line n line rest : 10 ∉ line -> (length line < n)%nat -> fgets n (line ++ 10 :: rest) = (line ++ [10], rest).
Proof.
  revert n; induction line as [|c line IH]; intros [|n] H Hn; try (simpl in Hn; lia); [done|].
  rewrite not_elem_of_cons in H. destruct H as [Hc H]. cbn [app fgets].
  rewrite (proj2 (Z.eqb_neq c 10)) by congruence. rewrite IH; [done|done|simpl in Hn; lia].
Qed.

Lemma c_string_all buf : 0 ∉ buf -> c_string buf = buf.
Proof.
  induction buf as [|c buf IH]; intros H; [done|]. rewrite not_elem_of_cons in H. destruct H as [Hc H]. simpl.
  rewrite (proj2 (Z.eqb_neq c 0)) by congruence. by rewrite IH.
Qed.

Lemma c_string_chars buf c : c ∈ c_string buf -> c ∈ buf.
Proof. induction buf as [|b buf IH]; simpl; [done|]. case_if; set_solver. Qed.

Lemma skip_line_suffix file : skip_line file `suffix_of` file.
Proof.
  induction file as [|c file IH]; simpl; [done|].
  case_if; [by apply suffix_cons_r|by apply suffix_cons_r].
Qed.

Lemma first_line_empty n c file line rest :
  fgets (Datatypes.S n) (c :: file) = (line, rest) -> c_string line = [] -> c = 0.
Proof.
  simpl. destruct (c =? 10) eqn:H10; [intros [= <- <-]; simpl; by case_if|].
  destruct (fgets n file). intros [= <- <-]. simpl. by case_if.
Qed.

Lemma table_find_in {A} (table : list (string * A)) name a :
  table_find table name = Some a -> exists k, codes k = name /\ (k, a) ∈ table.
Proof.
  induction table as [|[k b] table IH]; simpl; [done|]. case_bool_decide as Hk.
  - intros [= ->]. exists k. split; [done|by left].
  - intros H. destruct (IH H) as [k' []]. exists k'. split; [done|by right].
Qed.

(** ** Where reading is undefined *)

(** The lines, cut the way the loop over the file cuts them. *)
Fixpoint file_lines (fuel : nat) (file : list Z) : list (list Z) :=
  match fuel, file with
  | _, [] | O, _ => []
  | Datatypes.S fuel', _ =>
    let '(buf, file) := fgets (Z.to_nat (LINE_MAX - 1)) file in
    let line := c_string buf in
    line :: file_lines fuel' (if default 0 (last line) =? 10 then file else skip_line file)
  end.

(** The keywords whose argument is a time. *)
Definition time_keywords : list string :=
  ["protection_period"; "clean_check_interval"; "cleaning_interval"; "mc_cleaning_interval"; "retry_interval"]%string.
Definition takes_time (k : string) : bool := existsb (String.eqb k) time_keywords.

(** A number with a fractional part whose distance from its whole part, as
    [strtoull] reads it, is not a [long] of nanoseconds: a negative number, one
    above 2^64, or one whose exponent moves the point, as in 1.5e30. *)
Definition undefined_time (arg : list Z) : Prop :=
  let '(num, endptr) := strtoull arg 10 in
  let '(fnum, end_frac, erange) := strtod arg in
  char_at endptr = 46 /\ end_frac = [] /\ erange = false /\
  f64_to_i64 (f64_mul (f64_sub fnum (f64_of_Z num)) (f64_of_Z 1000000000)) = None.

Definition bad_tokens (tokens : list (list Z)) : Prop :=
  exists k arg, tokens !! 0%nat = Some (codes k) /\ takes_time k = true /\ arg1 tokens = Some arg /\ undefined_time arg.

(** The line starts with NUL, or gives a time keyword such a number. *)
Definition undefined_line (line : list Z) : Prop := line = [] \/ bad_tokens (tokenize NTOKENS_MAX line).

(** ** Safety of reading *)

Section Safety.
Context {W : Type} {K : Kernel W}.
Abbreviation MS := (M (sys W)).

(** A superblock with a block size and a segment size. *)
Definition geometry_ok (s : sys W) : Prop :=
  exists sb, n_sb (s_nilfs s) = Some sb /\ 0 <= sb_get sb s_log_block_size < 54 /\
    0 < sb_get sb s_blocks_per_segment < 2 ^ 32 /\
    2 ^ (sb_get sb s_log_block_size + 10) * sb_get sb s_blocks_per_segment < 2 ^ 64.

(** [m] leaves the state alone and yields a value that satisfies [P], or
    aborts, which happens only if [bad]. *)
Definition yields {A} (s : sys W) (bad : Prop) (P : A -> Prop) (m : MS A) : Prop :=
  match m s with
  | (Ok a, s') => s' = s /\ P a
  | (Abort, _) => bad
  | _ => False
  end.

Context (s : sys W) (bad : Prop).

Lemma yields_ret {A} (P : A -> Prop) a : P a -> yields s bad P (ret a).
Proof using. by split. Qed.

Lemma yields_bind {A B} (P : A -> Prop) (Q : B -> Prop) m (k : A -> MS B) :
  yields s bad P m -> (forall a, P a -> yields s bad Q (k a)) -> yields s bad Q (bind m k).
Proof using.
  unfold yields, bind. destruct (m s) as [[a| | | |] s']; try done. intros [-> Ha] Hk. by apply Hk.
Qed.

Lemma yields_mono {A} (P Q : A -> Prop) m :
  (forall a, P a -> Q a) -> yields s bad P m -> yields s bad Q m.
Proof using.
  unfold yields. destruct (m s) as [[]?]; try done. intros Himp [? ?]. split; [done|by apply Himp].
Qed.

Lemma yields_option {A} (P : A -> Prop) (o : option A) :
  (o = None -> bad) -> (forall a, o = Some a -> P a) -> yields s bad P (of_option o).
Proof using. intros Hn Hs. destruct o; [split; [done|by apply Hs]|by apply Hn]. Qed.

(** *** Geometry *)

Section Geometry.
Context (Hgeo : geometry_ok s).

Lemma nsegments_yields : yields s bad (fun _ => True) nilfs_get_nsegments.
Proof using Hgeo.
destruct Hgeo as (sb & Hsb & _). unfold yields, nilfs_get_nsegments, sb_field_of, the_nilfs.
by rewrite bind_gets, Hsb.
Qed.

Lemma bps_yields : yields s bad (fun n => 0 < n /\ forall b, nilfs_get_block_size s = (Ok b, s) ->
0 < b /\ 0 < b * n < 2 ^ 64) nilfs_get_blocks_per_segment.
Proof using Hgeo.
destruct Hgeo as (sb & Hsb & Hl & Hb & Hm). unfold yields, nilfs_get_blocks_per_segment, nilfs_get_block_size.
unfold sb_field_of, the_nilfs, bind, gets. rewrite Hsb. simpl. split; [done|]. split; [lia|]. intros b.
unfold shl64. rewrite u32_id by (unfold is_u32; lia).
replace ((0 <=? _) && _) with true by lia. simpl. intros [= <-].
rewrite Z.shiftl_1_l. assert (0 < 2 ^ (sb_get sb s_log_block_size + 10)) by (apply Z.pow_pos_nonneg; lia).
rewrite u64_id by (unfold is_u64; nia). nia.
Qed.

Lemma block_size_yields :
yields s bad (fun b => nilfs_get_block_size s = (Ok b, s)) nilfs_get_block_size.
Proof using Hgeo.
destruct Hgeo as (sb & Hsb & Hl & _). unfold yields, nilfs_get_block_size.
unfold sb_field_of, the_nilfs, bind, gets. rewrite Hsb. simpl.
unfold shl64. rewrite u32_id by (unfold is_u32; lia). by replace ((0 <=? _) && _) with true by lia.
Qed.

Lemma units_yield param f : unit_factor (pm_unit param) = Some f ->
yields s bad (fun _ => True) (nilfs_convert_units_to_bytes param).
Proof using. unfold nilfs_convert_units_to_bytes, yields. by intros ->. Qed.

Lemma div64_yields a b : b <> 0 -> yields s bad (fun _ => True) (div64 (W:=W) a b).
Proof using. intros. unfold div64, yields. case_if; [done|by split]. Qed.

(** Both conversions share their shape: nothing but the geometry is read. *)
Lemma nsegments_convert_yields param :
yields s bad (fun _ => True) (nilfs_convert_size_to_nsegments param).
Proof using Hgeo.
unfold nilfs_convert_size_to_nsegments. destruct (pm_unit param) eqn:Hu;
  [by apply yields_ret
  |eapply yields_bind; [apply nsegments_yields|intros; by apply yields_ret]|..].
all: eapply yields_bind; [eapply units_yield; by rewrite Hu|]; intros bytes _.
all: eapply yields_bind; [apply block_size_yields|]; intros b Hb.
all: eapply yields_bind; [apply bps_yields|]; intros n [_ Hn].
all: destruct (Hn b Hb); apply div64_yields; rewrite u64_id by (unfold is_u64; lia); lia.
Qed.

Lemma blocks_convert_yields param :
yields s bad (fun _ => True) (nilfs_convert_size_to_blocks_per_segment param).
Proof using Hgeo.
unfold nilfs_convert_size_to_blocks_per_segment. destruct (pm_unit param) eqn:Hu;
  [by apply yields_ret
  |eapply yields_bind; [apply bps_yields|intros; by apply yields_ret]|..].
all: eapply yields_bind; [apply block_size_yields|]; intros b Hb.
all: eapply yields_bind; [apply bps_yields|]; intros n [_ Hn].
all: eapply yields_bind; [eapply units_yield; by rewrite Hu|]; intros bytes _.
all: destruct (Hn b Hb); rewrite (u64_id (b * n)) by (unfold is_u64; lia).
all: case_if; [lia|apply div64_yields; lia].
Qed.

End Geometry.

(** Without a geometry the conversions may abort, but nothing else. *)
Lemma sb_field_weak f : bad -> yields s bad (fun _ => True) (sb_field_of f).
Proof using.
  intros Hb. unfold yields, sb_field_of, the_nilfs. rewrite bind_gets. unfold bind, of_option.
  by destruct (n_sb (s_nilfs s)).
Qed.

Lemma block_size_weak : bad -> yields s bad (fun _ => True) nilfs_get_block_size.
Proof using.
  intros Hb. eapply yields_bind; [by apply sb_field_weak|]. intros l _. by apply yields_option.
Qed.

Lemma div64_weak a b : bad -> yields s bad (fun _ => True) (div64 (W:=W) a b).
Proof using. intros Hb. unfold div64, yields. by case_if. Qed.

Lemma nsegments_convert_weak param :
  bad -> yields s bad (fun _ => True) (nilfs_convert_size_to_nsegments param).
Proof using.
  intros Hb. unfold nilfs_convert_size_to_nsegments. destruct (pm_unit param) eqn:Hu;
    [by apply yields_ret
    |eapply yields_bind; [by apply sb_field_weak|intros; by apply yields_ret]|..].
  all: eapply yields_bind; [eapply units_yield; by rewrite Hu|]; intros bytes _.
  all: eapply yields_bind; [by apply block_size_weak|]; intros b _.
  all: eapply yields_bind; [by apply sb_field_weak|]; intros n _; by apply div64_weak.
Qed.

Lemma blocks_convert_weak param :
  bad -> yields s bad (fun _ => True) (nilfs_convert_size_to_blocks_per_segment param).
Proof using.
  intros Hb. unfold nilfs_convert_size_to_blocks_per_segment. destruct (pm_unit param) eqn:Hu;
    [by apply yields_ret
    |eapply yields_bind; [by apply sb_field_weak|intros; by apply yields_ret]|..].
  all: eapply yields_bind; [by apply block_size_weak|]; intros b _.
  all: eapply yields_bind; [by apply sb_field_weak|]; intros n _.
  all: eapply yields_bind; [eapply units_yield; by rewrite Hu|]; intros bytes _.
  all: case_if; [done|by apply div64_weak].
Qed.

(** *** Handlers *)

Context (Hsegs : forall param, yields s bad (fun _ => True) (nilfs_convert_size_to_nsegments param))
  (Hblocks : forall param, yields s bad (fun _ => True) (nilfs_convert_size_to_blocks_per_segment param)).

(** What the daemon relies on about its configuration. *)
Definition policy_named (p : nilfs_selection_policy) : string :=
  match p with
  | NILFS_SELECTION_POLICY_TIMESTAMP => "timestamp"
  | NILFS_SELECTION_POLICY_GREEDY => "greedy"
  | NILFS_SELECTION_POLICY_COST_BENEFIT => "cost-benefit"
  | NILFS_SELECTION_POLICY_SEGREGATION => "segregation"
  end.

Definition config_ok (c : nilfs_cldconfig) : Prop :=
  0 <= cf_nsegments_per_clean c <= NSEGMENTS_PER_CLEAN_MAX /\
  0 <= cf_mc_nsegments_per_clean c <= NSEGMENTS_PER_CLEAN_MAX /\
  LOG_EMERG <= cf_log_priority c <= LOG_DEBUG /\
  cf_policy_name c = policy_named (cf_selection_policy c).

Definition handled (cr : nilfs_cldconfig * Z) : Prop := config_ok cr.1.

(** The argument of a time is one the code cannot represent only if [bad]. *)
Definition tokens_ok (timed : bool) (min : Z) (tokens : list (list Z)) : Prop :=
  min <= Z.of_nat (length tokens) /\
  (timed = true -> forall arg, arg1 tokens = Some arg -> undefined_time arg -> bad).

Definition handler_ok (timed : bool) (min : Z)
    (h : nilfs_cldconfig -> list (list Z) -> MS (nilfs_cldconfig * Z)) : Prop :=
  forall c tokens, config_ok c -> tokens_ok timed min tokens -> yields s bad handled (h c tokens).

Lemma arg1_yields {A} timed (P : A -> Prop) tokens (k : list Z -> MS A) :
  tokens_ok timed 2 tokens ->
  (forall arg, (timed = true -> undefined_time arg -> bad) -> yields s bad P (k arg)) ->
  yields s bad P (bind (of_option (arg1 tokens)) k).
Proof using.
  intros [Hl Ht] Hk. destruct tokens as [|t0 [|arg rest]]; simpl in Hl; [lia|lia|].
  apply Hk. intros Htimed. by apply (Ht Htimed arg).
Qed.

Lemma ulong_argument_yields tokens : tokens_ok false 2 tokens ->
  yields s bad (fun r => match r with Some n => 0 <= n | None => True end)
    (nilfs_cldconfig_get_ulong_argument tokens).
Proof using.
  intros Ht. apply (arg1_yields false); [done|]. intros arg _.
  pose proof (strtoull_nonneg arg 10 ltac:(lia)) as Hn. destruct (strtoull arg 10) as [n [|]]; [|by apply yields_ret].
  case_if; by apply yields_ret.
Qed.

Lemma time_argument_yields tokens : tokens_ok true 2 tokens ->
  yields s bad (fun _ => True) (nilfs_cldconfig_get_time_argument tokens).
Proof using.
  intros Ht. apply (arg1_yields true); [done|]. intros arg Hundef. specialize (Hundef eq_refl).
  unfold undefined_time in Hundef. destruct (strtoull arg 10) as [n rest].
  destruct (same_ptr _ _); [by apply yields_ret|]. destruct (Z.eqb_spec (char_at rest) 46) as [Hc|_].
  - destruct (strtod arg) as [[x [|]] [|]]; try by apply yields_ret.
    eapply (yields_bind (fun _ => True)); [|intros; by apply yields_ret]. unfold yields, of_option.
    destruct (f64_to_i64 _) eqn:Hf; [done|]. by apply Hundef.
  - destruct rest; [|by apply yields_ret]. case_if; by apply yields_ret.
Qed.

Lemma size_argument_yields tokens : tokens_ok false 2 tokens ->
  yields s bad (fun _ => True) (nilfs_cldconfig_get_size_argument tokens).
Proof using.
  intros Ht. apply (arg1_yields false); [done|]. intros arg _.
  destruct (strtoull arg 10) as [n rest]. destruct (same_ptr _ _); [by apply yields_ret|].
  destruct (_ && _); [by apply yields_ret|]. destruct rest as [|c rest]; [by apply yields_ret|].
  destruct c as [|c|c]; try by apply yields_ret.
  destruct rest; repeat (destruct c as [c|c|]; try by apply yields_ret). case_if; by apply yields_ret.
Qed.

Lemma handle_time_ok set : (forall c ts, config_ok c -> config_ok (set c ts)) ->
  handler_ok true 2 (handle_time set).
Proof using.
  intros Hset c tokens Hc Ht. eapply yields_bind; [by apply time_argument_yields|].
  intros [ts|] _; apply yields_ret; [by apply Hset|done].
Qed.

Lemma handle_size_ok convert set :
  (forall p, yields s bad (fun _ => True) (convert p)) ->
  (forall c v, config_ok c -> config_ok (set c v)) -> handler_ok false 2 (handle_size convert set).
Proof using.
  intros Hconv Hset c tokens Hc Ht. eapply yields_bind; [by apply size_argument_yields|].
  intros [p|] _; [|by apply yields_ret].
  eapply yields_bind; [apply Hconv|]. intros v _. apply yields_ret. by apply Hset.
Qed.

Lemma handle_nsegments_ok set :
  (forall c n, config_ok c -> 0 <= n <= NSEGMENTS_PER_CLEAN_MAX -> config_ok (set c n)) ->
  handler_ok false 2 (handle_nsegments set).
Proof using.
  intros Hset c tokens Hc Ht. eapply yields_bind; [by apply ulong_argument_yields|].
  intros [n|] Hn; apply yields_ret; [|done]. apply Hset; [done|].
  unfold NSEGMENTS_PER_CLEAN_MAX. case_if; lia.
Qed.

Lemma selection_policy_ok : handler_ok false 2 nilfs_cldconfig_handle_selection_policy.
Proof using.
  intros c tokens (H1 & H2 & H3 & H4) Ht. apply (arg1_yields false); [done|]. intros arg _. apply yields_ret.
  destruct (table_find _ arg) as [f|] eqn:Hf; [|done].
  apply table_find_in in Hf as (k & _ & Hf). unfold nilfs_cldconfig_polhandle_table in Hf.
  repeat (apply elem_of_cons in Hf as [[= -> ->]|Hf]; [done|]). by apply elem_of_nil in Hf.
Qed.

Lemma log_priority_ok : handler_ok false 2 nilfs_cldconfig_handle_log_priority.
Proof using.
  intros c tokens (H1 & H2 & H3 & H4) Ht. apply (arg1_yields false); [done|]. intros arg _. apply yields_ret.
  destruct (table_find _ arg) as [p|] eqn:Hf; [|done].
  apply table_find_in in Hf as (k & _ & Hf). unfold nilfs_cldconfig_log_priority_table in Hf.
  assert (Hp : LOG_EMERG <= p <= LOG_DEBUG); [|exact (conj H1 (conj H2 (conj Hp H4)))].
  repeat (apply elem_of_cons in Hf as [[= -> ->]|Hf]; [done|]). by apply elem_of_nil in Hf.
Qed.

Lemma keyword_table_ok :
  Forall (fun e => handler_ok (takes_time e.1) e.2.1.1 e.2.2) nilfs_cldconfig_keyword_table.
Proof using Hsegs Hblocks.
  assert (Hset : forall c n m, config_ok c -> 0 <= n <= NSEGMENTS_PER_CLEAN_MAX ->
            0 <= m <= NSEGMENTS_PER_CLEAN_MAX -> config_ok (set_nsegments c n m))
    by (intros c n m (_&_&H3&H4) Hn Hm; exact (conj Hn (conj Hm (conj H3 H4)))).
  assert (Hset1 : forall c n, config_ok c -> 0 <= n <= NSEGMENTS_PER_CLEAN_MAX ->
            config_ok (set_nsegments c n (cf_mc_nsegments_per_clean c)))
    by (intros c n Hc ?; apply Hset; [done|done|apply Hc]).
  assert (Hset2 : forall c n, config_ok c -> 0 <= n <= NSEGMENTS_PER_CLEAN_MAX ->
            config_ok (set_nsegments c (cf_nsegments_per_clean c) n))
    by (intros c n Hc ?; apply Hset; [done|apply Hc|done]).
  repeat apply Forall_cons_2; try apply Forall_nil_2; simpl.
  all: try (by apply handle_time_ok); try (by apply selection_policy_ok); try (by apply log_priority_ok).
  all: try (apply handle_size_ok; [exact Hsegs || exact Hblocks|done]).
  all: try (by apply handle_nsegments_ok).
  all: intros c tokens Hc _; by apply yields_ret.
Qed.

(** *** The loop *)

Lemma handle_keyword_yields c tokens : config_ok c -> (bad_tokens tokens -> bad) ->
  yields s bad handled (nilfs_cldconfig_handle_keyword c tokens).
Proof using Hsegs Hblocks.
  intros Hc Ht. destruct tokens as [|kw tokens]; [by apply yields_ret|].
  cbn [nilfs_cldconfig_handle_keyword]. destruct (table_find _ kw) as [[[min max] h]|] eqn:Hf;
    [|by apply yields_ret].
  apply table_find_in in Hf as (k & Hk & Hf). pose proof keyword_table_ok as Hall.
  rewrite Forall_forall in Hall. specialize (Hall _ Hf). unfold check_tokens.
  destruct (Z.ltb_spec (Z.of_nat (length (kw :: tokens))) min); simpl negb; [by apply yields_ret|].
  apply Hall; [done|]. split; [done|]. intros Htimed arg Harg Hu.
  apply Ht. exists k, arg. subst kw. by split_and!.
Qed.

Lemma read_lines_yields fuel : forall c file, config_ok c -> (length file <= fuel)%nat ->
  (forall line, line ∈ file_lines fuel file -> undefined_line line -> bad) ->
  yields s bad handled (read_lines fuel c file).
Proof using Hsegs Hblocks.
  induction fuel as [|fuel IH]; intros c [|b file] Hc Hlen Hbad; try (by apply yields_ret);
    [by simpl in Hlen; lia|].
  cbn [read_lines]. cbn [file_lines] in Hbad. change (Z.to_nat (LINE_MAX - 1)) with 2047%nat in *.
  destruct (fgets 2047 (b :: file)) as [buf rest] eqn:Hg. apply fgets_app in Hg as Hbuf.
  pose proof (Hbad (c_string buf) ltac:(by left)) as Hline.
  destruct (last (c_string buf)) as [e|] eqn:He; [|apply Hline; left; by apply last_None].
  simpl in Hbad. set (rest' := if e =? 10 then rest else skip_line rest) in *.
  assert (Hrest : rest' `suffix_of` rest) by (unfold rest'; case_if; [done|apply skip_line_suffix]).
  assert (Hshort : (length rest' <= fuel)%nat).
  { apply suffix_length in Hrest. rewrite Hbuf, length_app in Hlen.
    destruct buf; [done|]. simpl in Hlen. lia. }
  assert (Hnext : forall c', config_ok c' -> yields s bad handled (read_lines fuel c' rest')).
  { intros c' Hc'. apply IH; [done|done|]. intros line Hin. apply Hbad. by right. }
  destruct (tokenize NTOKENS_MAX (c_string buf)) as [|t ts] eqn:Htok; [by apply Hnext|].
  eapply yields_bind; [apply handle_keyword_yields; [done|]|].
  - intros Ht. apply Hline. right. by rewrite Htok.
  - intros [c' r] Hc'. case_if; [by apply yields_ret|by apply Hnext].
Qed.

Lemma set_default_yields : yields s bad config_ok nilfs_cldconfig_set_default.
Proof using Hsegs Hblocks.
  unfold nilfs_cldconfig_set_default.
  do 2 (eapply yields_bind; [apply Hsegs|]; intros ? _).
  do 2 (eapply yields_bind; [apply Hblocks|]; intros ? _).
  apply yields_ret. unfold config_ok, NSEGMENTS_PER_CLEAN_MAX, LOG_EMERG, LOG_DEBUG. simpl.
  unfold NILFS_CLDCONFIG_NSEGMENTS_PER_CLEAN, NILFS_CLDCONFIG_MC_NSEGMENTS_PER_CLEAN, LOG_INFO.
  split_and!; try lia; done.
Qed.

Lemma read_yields (is_reg : bool) content : is_reg = true ->
  (forall file line, content = Some file -> line ∈ file_lines (length file) file -> undefined_line line -> bad) ->
  yields s bad config_ok (nilfs_cldconfig_read is_reg content).
Proof using Hsegs Hblocks.
  intros -> Hbad. eapply yields_bind; [apply set_default_yields|]. intros c Hc.
  eapply (yields_bind handled).
  - destruct content as [file|]; [by apply read_lines_yields; eauto|by apply yields_ret].
  - intros [c' r] Hc'. by apply yields_ret.
Qed.
End Safety.

(** Whenever a configuration is read, it is a good one. *)
Lemma cldconfig_read_good {W} {K : Kernel W} (s : sys W) is_reg content c s' :
  nilfs_cldconfig_read is_reg content s = (Ok c, s') -> s' = s /\ config_ok c.
Proof.
  destruct is_reg; [|done]. intros H.
  pose proof (read_yields s True (fun p => nsegments_convert_weak s True p I)
                (fun p => blocks_convert_weak s True p I) true content eq_refl (fun _ _ _ _ _ => I)) as Hr.
  unfold yields in Hr. by rewrite H in Hr.
Qed.

(** C21: whatever bytes the configuration file has, on a file system whose
    superblock has a block-size shift below 54, some blocks per segment and
    segments of less than 2^64 bytes, reading it ends, changes nothing else,
    and yields a configuration in which at most 32 segments are cleaned at a
    time, the log priority is one of syslog's and the policy has the name it is
    registered with.  The only exception is undefined behaviour, for which a
    line of the file must start with a NUL byte, or must give one of the five
    time keywords a fractional number whose fraction, that is its distance from
    the whole part as [strtoull] reads it, is not a [long] of nanoseconds
    ([undefined_time]: -1.5, 99999999999999999999.5 or 1.5e30, but not 1.5). *)
Theorem cldconfig_read_safe {W} {K : Kernel W} (s : sys W) (file : list Z) :
  geometry_ok s ->
  match nilfs_cldconfig_read true (Some file) s with
  | (Ok c, s') => s' = s /\ config_ok c
  | (Abort, _) => exists line, line ∈ file_lines (length file) file /\ undefined_line line
  | _ => False
  end.
Proof.
  intros Hgeo. apply (read_yields s (exists line, line ∈ file_lines (length file) file /\ undefined_line line)).
  - intros p. by apply nsegments_convert_yields.
  - intros p. by apply blocks_convert_yields.
  - done.
  - intros f line [= <-] Hin Hu. by exists line.
Qed.

(** The numbers that are undefined, and some that are not. *)
Example undefined_times :
  undefined_time (codes "-1.5") /\ undefined_time (codes "99999999999999999999.5") /\
  undefined_time (codes "1.5e30") /\ ~ undefined_time (codes "1.5") /\ ~ undefined_time (codes "18446744073709551615.5") /\
  ~ undefined_time (codes "1").
Proof. vm_compute. intuition discriminate. Qed.

(** ** Tokens *)

(** A character that can stand in a token. *)
Definition token_char (c : Z) : Prop := isspace c = false /\ iseol c = false.

Definition word (t : list Z) : Prop := t <> [] /\ Forall token_char t.

(** The words, each followed by a blank. *)
Definition join_words (ts : list (list Z)) : list Z := concat ((fun t => t ++ [32]) <$> ts).

Lemma token_span_word t rest : Forall token_char t -> token_span (t ++ 32 :: rest) = (t, rest).
Proof.
  induction 1 as [|c t [Hs He] _ IH]; [done|]. cbn [app token_span]. by rewrite Hs, He, IH.
Qed.

Lemma word_head t rest : word t -> skip_spaces (t ++ rest) = t ++ rest /\ iseol (char_at (t ++ rest)) = false.
Proof.
  intros [Hne Ht]. destruct Ht as [|c t [Hs He] _]; [done|]. cbn [app skip_spaces char_at]. by rewrite Hs.
Qed.

(** The tokenizer takes a line apart into its words, up to sixteen of
    them, and drops what follows the end of the line or a comment sign. *)
Theorem tokenize_words (ts : list (list Z)) (rest : list Z) :
  Forall word ts -> iseol (char_at (skip_spaces rest)) = true -> (length ts <= NTOKENS_MAX)%nat ->
  tokenize NTOKENS_MAX (join_words ts ++ rest) = ts.
Proof.
  intros Hts Hrest. generalize NTOKENS_MAX as n.
  induction Hts as [|t ts Ht Hts IH]; intros n Hn.
  - destruct n as [|n]; [done|]. cbn [tokenize join_words concat fmap list_fmap app]. by rewrite Hrest.
  - destruct n as [|n]; [simpl in Hn; lia|]. cbn [tokenize].
    replace (join_words (t :: ts) ++ rest) with (t ++ 32 :: (join_words ts ++ rest))
      by (unfold join_words; simpl; by rewrite <- !app_assoc).
    destruct (word_head t (32 :: (join_words ts ++ rest)) Ht) as [-> ->].
    rewrite token_span_word by apply Ht. f_equal. apply IH. simpl in Hn. lia.
Qed.

Lemma tokenize_words_witness :
  tokenize NTOKENS_MAX (codes "retry_interval 60 # minute") = [codes "retry_interval"; codes "60"].
Proof.
  apply (tokenize_words [codes "retry_interval"; codes "60"] (codes "# minute"));
    [repeat constructor; done|reflexivity|vm_compute; lia].
Defined.

(** ** Sizes *)

Lemma ceil_div (a b : Z) : 0 < b -> 0 <= a ->
  ((a + b - 1) / b - 1) * b < a <= (a + b - 1) / b * b.
Proof.
  intros Hb Ha. pose proof (Z.div_mod (a + b - 1) b ltac:(lia)).
  pose proof (Z.mod_pos_bound (a + b - 1) b ltac:(lia)). nia.
Qed.

(** A size given in bytes becomes the least number of segments that holds
    it, and a percentage the least number of segments that is not below it, as
    long as the 64-bit arithmetic does not overflow. *)
Theorem convert_size_spec {W} {K : Kernel W} (s : sys W) (num : Z) (unit : nilfs_size_unit)
    (nsegs bs bps : Z) :
  nilfs_get_nsegments s = (Ok nsegs, s) -> nilfs_get_block_size s = (Ok bs, s) ->
  nilfs_get_blocks_per_segment s = (Ok bps, s) ->
  0 <= num -> 0 <= nsegs -> 0 < bs -> 0 < bps ->
  match unit_factor unit with
  | Some f =>
    num * f + bs * bps < 2 ^ 64 ->
    exists n, nilfs_convert_size_to_nsegments (mk_param num unit) s = (Ok n, s) /\
      (n - 1) * (bs * bps) < num * f <= n * (bs * bps)
  | None =>
    nsegs * num + 99 < 2 ^ 64 ->
    exists n, nilfs_convert_size_to_nsegments (mk_param num unit) s = (Ok n, s) /\
      (unit = NILFS_SIZE_UNIT_NONE /\ n = num \/
       unit = NILFS_SIZE_UNIT_PERCENT /\ (n - 1) * 100 < nsegs * num <= n * 100)
  end.
Proof.
  intros Hns Hb Hp Hnum Hnsegs Hb0 Hp0. assert (Hseg : 0 < bs * bps) by nia.
  assert (Hbytes : forall f, unit_factor unit = Some f -> 0 <= f -> num * f + bs * bps < 2 ^ 64 ->
    exists n, nilfs_convert_size_to_nsegments (mk_param num unit) s = (Ok n, s) /\
      (n - 1) * (bs * bps) < num * f <= n * (bs * bps)).
  { intros f Hf Hf0 Hlt. exists ((num * f + bs * bps - 1) / (bs * bps)).
    split; [|by apply ceil_div; nia].
    assert (Hrun : nilfs_convert_size_to_nsegments (mk_param num unit) s =
      (let* bytes := nilfs_convert_units_to_bytes (mk_param num unit) in
       let* bs := nilfs_get_block_size in let* bps := nilfs_get_blocks_per_segment in
       div64 (u64 (bytes + u64 (bs * bps) - 1)) (u64 (bs * bps))) s) by (by destruct unit).
    rewrite Hrun. unfold nilfs_convert_units_to_bytes. cbn [pm_unit pm_num]. rewrite Hf.
    rewrite bind_assoc, bind_some, bind_ret. do 2 run_bind.
    rewrite (u64_id (num * f)), (u64_id (bs * bps)), u64_id by (unfold is_u64; nia). unfold div64. case_if; [lia|done]. }
  destruct unit; cbn [unit_factor]; try (apply Hbytes; [done|lia]); intros Hlt.
  - exists num. split; [done|]. by left.
  - exists ((nsegs * num + 100 - 1) / 100). split.
    + unfold nilfs_convert_size_to_nsegments. cbn [pm_unit pm_num]. run_bind.
      rewrite u64_id by (unfold is_u64; nia). unfold ret. do 3 f_equal. lia.
    + right. split; [done|]. apply ceil_div; nia.
Qed.
