(* ===== verification/Realpath.v ===== *)
(** * Canonical paths: lib/realpath.c

    [myrealpath] builds the result in the caller's buffer.  The buffer is the
    list of its cells, a pointer into it an offset; a store or a read outside
    of it ends in [Abort].  [getcwd] and [readlink] are the class [PathOs].
    Here it matters that memory is freed: once a link has been followed, the
    rest of the path lies in a buffer that the next link frees before it is
    copied.

    [walk] is the reference definition: the same function on lists of
    components, without buffers and pointers.  The theorem at the end says
    that the code computes it. *)

From Stdlib Require Import String.
From S2P Require Import Prelude Vector Hoare Parser Cldconfig.

Definition ELOOP : Z := 40.
Definition MAX_READLINKS : Z := 32.

(** [getcwd(buf, size)] and [readlink(path, buf, size)]: what they store. *)
Class PathOs (W : Type) := {
  po_getcwd : Z -> W -> (list Z + Z) * W;
  po_readlink : list Z -> Z -> W -> (list Z + Z) * W;
}.

(** What is documented of them: [getcwd] answers a canonical path that fits,
    and the contents of a link fit and have no NUL. *)
Class PathLaws {W} (P : PathOs W) (canonical : list Z -> Prop) := {
  pl_getcwd : forall n w cwd w', po_getcwd n w = (inl cwd, w') -> canonical cwd /\ Z.of_nat (length cwd) + 1 <= n;
  pl_readlink : forall path n w link w', 0 <= n -> po_readlink path n w = (inl link, w') -> Z.of_nat (length link) <= n /\ 0 ∉ link;
}.

(** ** The code *)

Definition SLASH : Z := 47.
Definition DOT : Z := 46.

(** A store into the buffer. *)
Definition poke (buf : list Z) (i : nat) (v : Z) : option (list Z) :=
  if Nat.ltb i (length buf) then Some (<[i := v]> buf) else None.

Fixpoint poke_all (buf : list Z) (i : nat) (l : list Z) : option (list Z) :=
  match l with
  | [] => Some buf
  | c :: l => buf ← poke buf i c; poke_all buf (Datatypes.S i) l
  end.

(** The loop of "..": [while (npath > resolved_path+1 && (--npath)[-1] != '/')]. *)
Fixpoint back_up (buf : list Z) (npath : nat) : option nat :=
  match npath with
  | Datatypes.S ((Datatypes.S n) as m) => c ← buf !! n; if c =? SLASH then Some m else back_up buf m
  | _ => Some npath
  end.

(** The loop of a relative link: [while ((--npath)[0] != '/')]. *)
Fixpoint back_over (buf : list Z) (npath : nat) : option nat :=
  match npath with
  | O => None
  | Datatypes.S n => c ← buf !! n; if c =? SLASH then Some n else back_over buf n
  end.

Section Realpath.
Context {W : Type} {A : Alloc W} {P : PathOs W}.
Context (maxreslth : Z).
Implicit Types (path buf : list Z).

Fixpoint copy_component path buf (npath : nat) : M W (list Z * list Z * nat) :=
  match path with
  | [] => ret ([], buf, npath)
  | c :: path' =>
    if c =? SLASH then ret (path, buf, npath)
    else if maxreslth - 2 <? Z.of_nat npath then fail ENAMETOOLONG
    else let* buf := of_option (poke buf npath c) in copy_component path' buf (Datatypes.S npath)
  end.

(** The component that was copied may be a symbolic link.  [linked]: [path]
    points into [buf], which is freed before the new one is filled. *)
Definition follow_link path (linked : bool) buf (npath : nat) : M W (list Z * bool * list Z * nat) :=
  let* buf := of_option (poke buf npath 0) in
  let* r := attempt (lift_sum (po_readlink (c_string buf) PATH_MAX)) in
  match r with
  | inr e => if e =? EINVAL then ret (path, linked, buf, npath) else fail e
  | inl link =>
    let* npath := (if char_at link =? SLASH then ret O else of_option (back_over buf npath)) in
    m_malloc (Z.of_nat (length path) + Z.of_nat (length link) + 1) ;;
    if linked then abort else ret (link ++ path, true, buf, npath)
  end.

Fixpoint expand (fuel : nat) path (linked : bool) (readlinks : Z) buf (npath : nat) : M W (list Z * nat) :=
  match fuel with
  | O => out_of_fuel
  | Datatypes.S fuel =>
    match path with
    | [] => ret (buf, npath)
    | c :: path' =>
      let ends c := (c =? 0) || (c =? SLASH) in
      if c =? SLASH then expand fuel path' linked readlinks buf npath
      else if (c =? DOT) && ends (char_at path') then expand fuel path' linked readlinks buf npath
      else if (c =? DOT) && (char_at path' =? DOT) && ends (char_at1 path') then
        let* npath := of_option (back_up buf npath) in
        expand fuel (tail path') linked readlinks buf npath
      else
        let* (path, buf, npath) := copy_component path buf npath in
        if MAX_READLINKS <? readlinks then fail ELOOP
        else
          let* (path, linked, buf, npath) := follow_link path linked buf npath in
          let* buf := of_option (poke buf npath SLASH) in
          expand fuel path linked (readlinks + 1) buf (Datatypes.S npath)
    end
  end.

(** Each turn takes a character off the path or counts towards the limit,
    and a link adds at most [PATH_MAX] characters. *)
Definition EXPAND_FUEL path : nat := (length path + 34 * Z.to_nat (PATH_MAX + 1) + 1)%nat.

(** Where the path starts: behind the current directory or the root. *)
Definition start_path path buf : M W (list Z * list Z * nat) :=
  if char_at path =? SLASH then
    let* buf := of_option (poke buf 0 SLASH) in ret (tail path, buf, 1%nat)
  else
    let* cwd := lift_sum (po_getcwd (maxreslth - 2)) in
    let* buf := of_option (poke_all buf 0 (cwd ++ [0])) in
    let npath := length cwd in
    match npath with
    | O => abort
    | Datatypes.S n =>
      let* c := of_option (buf !! n) in
      if c =? SLASH then ret (path, buf, npath)
      else let* buf := of_option (poke buf npath SLASH) in ret (path, buf, Datatypes.S npath)
    end.

(** The contents of [resolved_path]; NULL is a failure. *)
Definition myrealpath path (resolved_path : list Z) : M W (list Z) :=
  let* (path, buf, npath) := start_path path resolved_path in
  let* (buf, npath) := expand (EXPAND_FUEL path) path false 0 buf npath in
  let* npath := (if Nat.eqb npath 1 then ret npath
                 else let* c := of_option (buf !! (npath - 1)%nat) in
                      ret (if c =? SLASH then (npath - 1)%nat else npath)) in
  of_option (poke buf npath 0).
End Realpath.

(** ** The reference definition *)

(** The components of a path; those between two slashes are empty. *)
Fixpoint split_path (path : list Z) : list (list Z) :=
  match path with
  | [] => [[]]
  | c :: path =>
    if c =? SLASH then [] :: split_path path
    else match split_path path with [] => [[c]] | x :: l => (c :: x) :: l end
  end.

(** The path of a list of components: behind it a slash, or none. *)
Definition slashed (st : list (list Z)) : list Z := mjoin ((fun c => SLASH :: c) <$> st).
Definition render (st : list (list Z)) : list Z := slashed st ++ [SLASH].
Definition path_of (st : list (list Z)) : list Z := match st with [] => [SLASH] | _ => slashed st end.

(** A component of a canonical path. *)
Definition plain (c : list Z) : Prop := c <> [] /\ c <> [DOT] /\ c <> [DOT; DOT] /\ SLASH ∉ c /\ 0 ∉ c.

Definition all_but_last {T} (l : list T) : list T := take (length l - 1) l.

Section Walk.
Context {W : Type} {A : Alloc W} {P : PathOs W}.
Context (maxreslth : Z).

(** [n] more components can be looked up.  [st] is the path so far, [cs] the
    components to come. *)
Fixpoint walk (n : nat) : bool -> list (list Z) -> list (list Z) -> M W (list (list Z)) :=
  fix go (linked : bool) (st cs : list (list Z)) {struct cs} :=
    match cs with
    | [] => ret st
    | c :: cs =>
      if bool_decide (c = []) || bool_decide (c = [DOT]) then go linked st cs
      else if bool_decide (c = [DOT; DOT]) then go linked (all_but_last st) cs
      else if maxreslth - 1 <? Z.of_nat (length (render st)) + Z.of_nat (length c) then fail ENAMETOOLONG
      else
        match n with
        | O => fail ELOOP
        | Datatypes.S n =>
          let* r := attempt (lift_sum (po_readlink (path_of (st ++ [c])) PATH_MAX)) in
          match r with
          | inr e => if e =? EINVAL then walk n linked (st ++ [c]) cs else fail e
          | inl link =>
            m_malloc (Z.of_nat (length (slashed cs)) + Z.of_nat (length link) + 1) ;;
            if linked then abort
            else walk n true (if char_at link =? SLASH then [] else st) (split_path link ++ cs)
          end
        end
    end.
End Walk.

(** ** Components and paths *)

Lemma split_path_app a b : (b = [] \/ char_at b = SLASH) ->
  split_path (a ++ b) = split_path a ++ tail (split_path b).
Proof.
  intros Hb. induction a as [|c a IH]; cbn [app split_path].
  - destruct b as [|c b]; [done|]. destruct Hb as [|Hb]; [done|]. cbn in Hb. subst c. done.
  - destruct (c =? SLASH); [by rewrite IH|]. rewrite IH. assert (exists x l, split_path a = x :: l) as (x & l & ->).
    { destruct a as [|d a]; cbn; [by do 2 eexists|]. destruct (d =? SLASH); [by do 2 eexists|].
      destruct (split_path a); by do 2 eexists. }
    done.
Qed.

Lemma split_component c : SLASH ∉ c -> split_path c = [c].
Proof.
  induction c as [|x c IH]; intros Hc; cbn [split_path]; [done|]. apply not_elem_of_cons in Hc as [H1 H2].
  destruct (Z.eqb_spec x SLASH); [by subst|]. by rewrite IH.
Qed.

(** The first component of a path and the rest. *)
Lemma split_first c b : SLASH ∉ c -> (b = [] \/ char_at b = SLASH) ->
  split_path (c ++ b) = c :: tail (split_path b).
Proof. intros Hc Hb. rewrite split_path_app by done. by rewrite split_component. Qed.

Lemma slashed_split b : (b = [] \/ char_at b = SLASH) -> slashed (tail (split_path b)) = b.
Proof.
  enough (forall a, slashed (split_path a) = SLASH :: a) as H.
  { intros [->|Hb]; [done|]. destruct b as [|c b]; [done|]. cbn in Hb. subst c. exact (H b). }
  induction a as [|c a IH]; cbn [split_path]; [done|]. destruct (Z.eqb_spec c SLASH) as [->|Hc].
  - change (slashed ([] :: split_path a)) with (SLASH :: slashed (split_path a)). by rewrite IH.
  - destruct (split_path a) as [|x l]; [done|]. unfold slashed in *. cbn in *. by injection IH as ->.
Qed.

Lemma render_app st c : render (st ++ [c]) = render st ++ c ++ [SLASH].
Proof. unfold render, slashed. rewrite fmap_app. unfold mjoin. rewrite join_app. cbn. by rewrite app_nil_r, <- !app_assoc. Qed.

Lemma slashed_app st c : slashed (st ++ [c]) = render st ++ c.
Proof. unfold render, slashed. rewrite fmap_app, join_app. cbn. by rewrite app_nil_r, <- app_assoc. Qed.

Lemma render_length st : Forall plain st -> (1 <= length (render st))%nat.
Proof. intros _. unfold render. rewrite length_app. cbn. lia. Qed.

Lemma slashed_no_nul st : Forall plain st -> 0 ∉ slashed st.
Proof.
  intros Hst. unfold slashed. rewrite list_elem_of_join. intros (l & Hl & (c & -> & Hc)%list_elem_of_fmap).
  eapply Forall_forall in Hst; [|exact Hc]. destruct Hst as (_ & _ & _ & _ & H0). by apply elem_of_cons in Hl as [|].
Qed.

Lemma path_of_snoc st c : path_of (st ++ [c]) = render st ++ c.
Proof. rewrite <- slashed_app. by destruct st. Qed.

Lemma c_string_app a b : 0 ∉ a -> c_string (a ++ 0 :: b) = a.
Proof. induction a as [|x a IH]; cbn; [done|]. intros [H1 H2]%not_elem_of_cons. destruct (Z.eqb_spec x 0); [by subst|]. by rewrite IH. Qed.

(** *** The buffer *)

Lemma poke_ok buf i v : (i < length buf)%nat -> poke buf i v = Some (<[i := v]> buf).
Proof. unfold poke. intros Hi. by destruct (Nat.ltb_spec i (length buf)); [|lia]. Qed.

Lemma take_poke (buf : list Z) i v : (i < length buf)%nat -> take (Datatypes.S i) (<[i := v]> buf) = take i buf ++ [v].
Proof. intros Hi. erewrite take_S_r by by apply list_lookup_insert_eq. by rewrite take_insert_ge. Qed.

Lemma poke_all_ok l : forall (buf : list Z) i, (i + length l <= length buf)%nat ->
  exists buf', poke_all buf i l = Some buf' /\ length buf' = length buf /\ take (i + length l) buf' = take i buf ++ l.
Proof.
  induction l as [|c l IH]; intros buf i Hi; cbn [poke_all length] in *.
  - exists buf. by rewrite Nat.add_0_r, app_nil_r.
  - rewrite poke_ok by lia. cbn [mbind option_bind]. destruct (IH (<[i := c]> buf) (Datatypes.S i)) as (buf' & H1 & H2 & H3).
    { rewrite length_insert. lia. }
    exists buf'. split; [done|]. rewrite length_insert in H2. split; [done|].
    replace (i + Datatypes.S (length l))%nat with (Datatypes.S i + length l)%nat by lia. rewrite H3, take_poke by lia.
    by rewrite <- app_assoc.
Qed.

Section Spec.
Context (max : nat).

(** The buffer holds the path so far, up to [npath]. *)
Record path_in (st : list (list Z)) (buf : list Z) (npath : nat) : Prop := {
  pi_length : length buf = max;
  pi_npath : npath = length (render st);
  pi_take : take npath buf = render st;
  pi_plain : Forall plain st;
}.

Lemma path_in_bound st buf npath : path_in st buf npath -> (1 <= npath <= max)%nat.
Proof.
  intros [H1 H2 H3 H4]. pose proof (render_length st H4). assert (Hl : length (take npath buf) = npath) by by rewrite H3.
  rewrite length_take in Hl. lia.
Qed.

Lemma prefix_lookup (buf r : list Z) n i : take n buf = r -> (i < n)%nat -> buf !! i = r !! i.
Proof. intros <- Hi. by rewrite lookup_take_lt. Qed.

Lemma back_up_step buf n : back_up buf (Datatypes.S (Datatypes.S n)) =
  (c ← buf !! n; if c =? SLASH then Some (Datatypes.S n) else back_up buf (Datatypes.S n)).
Proof using. done. Qed.

Lemma back_up_component (buf r c : list Z) k : take (length r + length c) buf = r ++ c -> last r = Some SLASH -> SLASH ∉ c ->
  (k <= length c)%nat -> back_up buf (length r + k + 1) = Some (length r).
Proof.
  intros Ht Hr Hc. rewrite last_lookup in Hr. assert (Hr0 : (1 <= length r)%nat) by (destruct r; [done|cbn; lia]).
  induction k as [|k IH]; intros Hk.
  - destruct (length r) as [|n] eqn:Hn; [lia|]. replace (Datatypes.S n + 0 + 1)%nat with (Datatypes.S (Datatypes.S n)) by lia. rewrite back_up_step.
    rewrite (prefix_lookup _ _ _ n Ht) by lia. rewrite lookup_app_l by lia. cbn in Hr. rewrite Hr. done.
  - replace (length r + Datatypes.S k + 1)%nat with (Datatypes.S (Datatypes.S (length r + k))) by lia. rewrite back_up_step.
    rewrite (prefix_lookup _ _ _ _ Ht) by lia. rewrite lookup_app_r by lia. replace (length r + k - length r)%nat with k by lia.
    destruct (c !! k) as [x|] eqn:Hx; [|apply lookup_ge_None in Hx; lia]. cbn [mbind option_bind].
    destruct (Z.eqb_spec x SLASH) as [->|_]; [by apply list_elem_of_lookup_2 in Hx|].
    replace (Datatypes.S (length r + k)) with (length r + k + 1)%nat by lia. apply IH. lia.
Qed.

Lemma render_last st : last (render st) = Some SLASH.
Proof. unfold render. by rewrite last_snoc. Qed.

Lemma back_up_ok st buf npath : path_in st buf npath ->
  exists npath', back_up buf npath = Some npath' /\ path_in (all_but_last st) buf npath'.
Proof.
  intros Hp. pose proof Hp as [H1 H2 H3 H4]. destruct st as [|c st _] using rev_ind.
  { exists npath. split; [|exact Hp]. cbn in H2. by subst npath. }
  apply Forall_app in H4 as [H4 [Hc _]%Forall_cons]. destruct Hc as (Hc0 & _ & _ & Hc & _).
  rewrite render_app in H2, H3. rewrite !length_app in H2. cbn [length] in H2.
  assert (Ht : take (length (render st) + length c) buf = render st ++ c).
  { replace (length (render st) + length c)%nat with ((length (render st) + length c) `min` npath)%nat by lia.
    rewrite <- take_take, H3, app_assoc, take_app_length' by (rewrite length_app; lia). done. }
  exists (length (render st)). split.
  - subst npath. replace (length (render st) + (length c + 1))%nat with (length (render st) + length c + 1)%nat by lia.
    eapply back_up_component; [exact Ht|apply render_last|exact Hc|lia].
  - unfold all_but_last. rewrite length_app, take_app_length' by (cbn; lia). split; [done|done| |done].
    replace (length (render st)) with (length (render st) `min` (length (render st) + length c))%nat by lia.
    by rewrite <- take_take, Ht, take_app_length.
Qed.

Lemma back_over_component (buf r c : list Z) k : take (length r + length c) buf = r ++ c -> last r = Some SLASH -> SLASH ∉ c ->
  (k <= length c)%nat -> back_over buf (length r + k) = Some (length r - 1)%nat.
Proof.
  intros Ht Hr Hc. rewrite last_lookup in Hr. assert (Hr0 : (1 <= length r)%nat) by (destruct r; [done|cbn; lia]).
  induction k as [|k IH]; intros Hk.
  - destruct (length r) as [|n] eqn:Hn; [lia|]. replace (Datatypes.S n + 0)%nat with (Datatypes.S n) by lia. cbn [back_over].
    rewrite (prefix_lookup _ _ _ n Ht) by lia. rewrite lookup_app_l by lia. cbn in Hr. rewrite Hr. cbn. f_equal. lia.
  - replace (length r + Datatypes.S k)%nat with (Datatypes.S (length r + k)) by lia. cbn [back_over].
    rewrite (prefix_lookup _ _ _ _ Ht) by lia. rewrite lookup_app_r by lia. replace (length r + k - length r)%nat with k by lia.
    destruct (c !! k) as [x|] eqn:Hx; [|apply lookup_ge_None in Hx; lia]. cbn [mbind option_bind].
    destruct (Z.eqb_spec x SLASH) as [->|_]; [by apply list_elem_of_lookup_2 in Hx|]. apply IH. lia.
Qed.

(** *** Copying a component *)

Context {W : Type} {A : Alloc W} {P : PathOs W}.
Implicit Types (w : W) (path buf c rest : list Z) (st cs : list (list Z)).

(** Where a path or a component ends. *)
Definition ended rest : Prop := rest = [] \/ char_at rest = SLASH.

Lemma first_component path : exists c rest, path = c ++ rest /\ SLASH ∉ c /\ ended rest.
Proof using.
  induction path as [|x path (c & rest & -> & Hc & Hr)].
  - exists [], []. split; [done|]. split; [set_solver|by left].
  - destruct (Z.eq_dec x SLASH) as [->|Hx].
    + exists [], (SLASH :: c ++ rest). split; [done|]. split; [set_solver|by right].
    + exists (x :: c), rest. split; [done|]. split; [|done]. by apply not_elem_of_cons.
Qed.

Lemma copy_ok c rest : SLASH ∉ c -> ended rest -> forall buf npath w, length buf = max -> 
  copy_component (Z.of_nat max) (c ++ rest) buf npath w =
    (if bool_decide (c = []) then (Ok (rest, buf, npath), w)
     else if Z.of_nat max - 1 <? Z.of_nat npath + Z.of_nat (length c) then (Err ENAMETOOLONG, w)
     else (Ok (rest, take npath buf ++ c ++ drop (npath + length c) buf, (npath + length c)%nat), w)).
Proof using.
  intros Hc Hr. induction c as [|x c IH]; intros buf npath w Hl; cbn [app length].
  - rewrite bool_decide_true by done. destruct rest as [|y rest]; [done|]. destruct Hr as [|Hr]; [done|]. cbn in Hr. subst y. done.
  - apply not_elem_of_cons in Hc as [Hx Hc]. rewrite bool_decide_false by done. cbn [copy_component].
    destruct (Z.eqb_spec x SLASH) as [->|_]; [done|]. destruct (Z.ltb_spec (Z.of_nat max - 2) (Z.of_nat npath)) as [H1|H1].
    { by destruct (Z.ltb_spec (Z.of_nat max - 1) (Z.of_nat npath + Z.of_nat (Datatypes.S (length c)))); [|lia]. }
    rewrite poke_ok by lia. rewrite bind_some. rewrite IH by (done || by rewrite length_insert).
    destruct (bool_decide (c = [])) eqn:Hcn.
    + apply bool_decide_eq_true in Hcn. subst c. cbn [length]. destruct (Z.ltb_spec (Z.of_nat max - 1) (Z.of_nat npath + Z.of_nat 1)); [lia|].
      rewrite Nat.add_1_r, insert_take_drop by lia. done.
    + replace (Z.of_nat (Datatypes.S npath) + Z.of_nat (length c)) with (Z.of_nat npath + Z.of_nat (Datatypes.S (length c))) by lia.
      case_if; [done|]. rewrite take_poke, drop_insert_lt by lia. rewrite <- app_assoc. cbn [app].
      by replace (Datatypes.S npath + length c)%nat with (npath + Datatypes.S (length c))%nat by lia.
Qed.

(** *** The tests for dots *)

Lemma ended_test rest : ended rest -> 0 ∉ rest -> (char_at rest =? 0) || (char_at rest =? SLASH) = true.
Proof using. intros [->|Hr] _; [done|]. by rewrite Hr. Qed.

Lemma not_ended_test x rest : x <> 0 -> x <> SLASH -> (char_at (x :: rest) =? 0) || (char_at (x :: rest) =? SLASH) = false.
Proof using. cbn. lia. Qed.

Lemma dot_test x c rest : 0 ∉ x :: c ++ rest -> SLASH ∉ x :: c -> ended rest ->
  (x =? DOT) && ((char_at (c ++ rest) =? 0) || (char_at (c ++ rest) =? SLASH)) = bool_decide (x :: c = [DOT]).
Proof using.
  intros Hn Hs Hr. destruct (Z.eqb_spec x DOT) as [->|Hx]; cbn [andb].
  - destruct c as [|y c]; cbn [app].
    + rewrite ended_test by (done || set_solver). by rewrite bool_decide_true.
    + rewrite not_ended_test by set_solver. by rewrite bool_decide_false.
  - rewrite bool_decide_false; [done|]. by intros [= ? ?].
Qed.

Lemma dots_test x c rest : 0 ∉ x :: c ++ rest -> SLASH ∉ x :: c -> ended rest ->
  (x =? DOT) && (char_at (c ++ rest) =? DOT) && ((char_at1 (c ++ rest) =? 0) || (char_at1 (c ++ rest) =? SLASH)) =
  bool_decide (x :: c = [DOT; DOT]).
Proof using.
  intros Hn Hs Hr. destruct (Z.eqb_spec x DOT) as [->|Hx]; cbn [andb]; [|rewrite bool_decide_false; [done|by intros [= ? ?]]].
  destruct c as [|y c]; cbn [app].
  { rewrite bool_decide_false by done. destruct Hr as [->|Hr]; [done|]. rewrite Hr. done. }
  change (char_at (y :: c ++ rest)) with y. destruct (Z.eqb_spec y DOT) as [->|Hy]; cbn [andb]; [|rewrite bool_decide_false; [done|by intros [= ? ?]]].
  change (char_at1 (DOT :: c ++ rest)) with (char_at (c ++ rest)). destruct c as [|z c]; cbn [app].
  - rewrite ended_test by (done || set_solver). by rewrite bool_decide_true.
  - rewrite not_ended_test by set_solver. by rewrite bool_decide_false.
Qed.

Lemma walk_cons n linked st c cs : walk (Z.of_nat max) n linked st (c :: cs) =
  (if bool_decide (c = []) || bool_decide (c = [DOT]) then walk (Z.of_nat max) n linked st cs
   else if bool_decide (c = [DOT; DOT]) then walk (Z.of_nat max) n linked (all_but_last st) cs
   else if Z.of_nat max - 1 <? Z.of_nat (length (render st)) + Z.of_nat (length c) then fail ENAMETOOLONG
   else
     match n with
     | O => fail ELOOP
     | Datatypes.S n =>
       let* r := attempt (lift_sum (po_readlink (path_of (st ++ [c])) PATH_MAX)) in
       match r with
       | inr e => if e =? EINVAL then walk (Z.of_nat max) n linked (st ++ [c]) cs else fail e
       | inl link =>
         m_malloc (Z.of_nat (length (slashed cs)) + Z.of_nat (length link) + 1) ;;
         if linked then abort
         else walk (Z.of_nat max) n true (if char_at link =? SLASH then [] else st) (split_path link ++ cs)
       end
     end).
Proof using. by destruct n. Qed.

Lemma walk_nil n linked st : walk (Z.of_nat max) n linked st [] = ret st.
Proof using. by destruct n. Qed.

(** The rest of a path, with or without its slash. *)
Lemma walk_rest n linked st rest : ended rest ->
  walk (Z.of_nat max) n linked st (tail (split_path rest)) = walk (Z.of_nat max) n linked st (split_path rest).
Proof using.
  intros Hr. destruct rest as [|x rest]; [cbn [split_path tail]; by rewrite (walk_cons n linked st [] [])|]. destruct Hr as [|Hr]; [done|]. cbn in Hr. subst x.
  cbn [split_path]. rewrite Z.eqb_refl. cbn [tail]. by rewrite (walk_cons n linked st [] (split_path rest)).
Qed.

(** *** The loop *)

(** What the code makes of an outcome of [walk]. *)
Definition carried (r : res (list (list Z)) * W) (r' : res (list Z * nat) * W) : Prop :=
  match r with
  | (Ok st, w) => exists buf npath, r' = (Ok (buf, npath), w) /\ path_in st buf npath
  | (Err e, w) => r' = (Err e, w)
  | (Abort, w) => r' = (Abort, w)
  | _ => False
  end.

(** A component has been copied: the buffer and the place behind it. *)
Lemma copied_in st c buf npath : path_in st buf npath -> c <> [] ->
  Z.of_nat npath + Z.of_nat (length c) <= Z.of_nat max - 1 ->
  let buf' := take npath buf ++ c ++ drop (npath + length c) buf in
  length buf' = max /\ take (npath + length c) buf' = render st ++ c.
Proof using.
  intros Hp Hc Hl buf'. pose proof (path_in_bound _ _ _ Hp) as Hb. destruct Hp as [H1 H2 H3 H4].
  assert (Ht : length (take npath buf) = npath) by (rewrite length_take; lia). split.
  - unfold buf'. rewrite !length_app, Ht, length_drop. lia.
  - unfold buf'. rewrite H3, app_assoc. apply take_app_length'. rewrite length_app. rewrite <- H3, Ht. done.
Qed.

(** The link buffer and the slash behind the component or the link. *)
Lemma slash_in st c buf npath : plain c -> Forall plain st -> length buf = max -> npath = length (render st ++ c) ->
  take npath buf = render st ++ c -> (npath < max)%nat -> path_in (st ++ [c]) (<[npath := SLASH]> buf) (Datatypes.S npath).
Proof using.
  intros Hc Hst Hl Hn Ht Hb. split.
  - by rewrite length_insert.
  - rewrite render_app, app_assoc, length_app. cbn. lia.
  - rewrite take_poke by lia. by rewrite render_app, app_assoc, Ht.
  - apply Forall_app. split; [done|]. by constructor.
Qed.

Lemma root_in buf : length buf = max -> (1 <= max)%nat -> path_in [] (<[0%nat := SLASH]> buf) 1.
Proof using. intros Hl Hm. split; [by rewrite length_insert|done|by rewrite take_poke by lia|done]. Qed.

Lemma back_in st c buf npath : Forall plain st -> length buf = max -> npath = length (render st ++ c) ->
  take npath buf = render st ++ c -> SLASH ∉ c -> (npath < max)%nat ->
  exists m, back_over buf npath = Some m /\ path_in st (<[m := SLASH]> buf) (Datatypes.S m).
Proof using.
  intros Hst Hl Hn Ht Hc Hb. rewrite length_app in Hn. pose proof (render_length st Hst) as Hr. exists (length (render st) - 1)%nat. split.
  - subst npath. eapply back_over_component; [exact Ht|apply render_last|exact Hc|lia].
  - assert (Ht1 : take (length (render st)) buf = render st).
    { replace (length (render st)) with (length (render st) `min` npath)%nat by lia. by rewrite <- take_take, Ht, take_app_length. }
    split; [by rewrite length_insert|lia| |done]. rewrite take_poke by lia.
    etransitivity; [|exact Ht1].
    assert (Hx : buf !! (length (render st) - 1)%nat = Some SLASH).
    { rewrite (prefix_lookup _ _ _ _ Ht1) by lia. pose proof (render_last st) as Hlast. rewrite last_lookup in Hlast.
      by replace (length (render st) - 1)%nat with (Init.Nat.pred (length (render st))) by lia. }
    rewrite <- (take_S_r _ _ _ Hx). f_equal. lia.
Qed.

Abbreviation wmax := (Z.of_nat max).

Lemma follow_ok st c rest linked buf npath w : plain c -> Forall plain st -> length buf = max ->
  npath = length (render st ++ c) -> take npath buf = render st ++ c -> (npath < max)%nat ->
  exists buf0, length buf0 = max /\ take npath buf0 = render st ++ c /\
  follow_link rest linked buf npath w =
    match po_readlink (path_of (st ++ [c])) PATH_MAX w with
    | (inr e, w1) => if e =? EINVAL then (Ok (rest, linked, buf0, npath), w1) else (Err e, w1)
    | (inl link, w1) =>
      match malloc (Z.of_nat (length rest) + Z.of_nat (length link) + 1) w1 with
      | (false, w2) => (Err ENOMEM, w2)
      | (true, w2) =>
        if linked then (Abort, w2)
        else (Ok (link ++ rest, true, buf0,
                  if char_at link =? SLASH then O else default O (back_over buf0 npath)), w2)
      end
    end.
Proof using.
  intros Hc Hst Hl Hn Ht Hb. exists (<[npath := 0]> buf). assert (Ht0 : take npath (<[npath := 0]> buf) = render st ++ c) by by rewrite take_insert_ge.
  assert (Hl0 : length (<[npath := 0]> buf) = max) by by rewrite length_insert.
  split; [done|]. split; [done|]. unfold follow_link. rewrite poke_ok by lia. rewrite bind_some.
  assert (Hcs : c_string (<[npath := 0]> buf) = path_of (st ++ [c])).
  { rewrite insert_take_drop, Ht, path_of_snoc by lia. rewrite c_string_app; [done|]. rewrite <- slashed_app.
    apply slashed_no_nul, Forall_app. split; [done|]. by constructor. }
  rewrite Hcs. unfold bind, attempt, lift_sum. destruct (po_readlink (path_of (st ++ [c])) PATH_MAX w) as [[link|e] w1].
  2: { by destruct (e =? EINVAL). }
  assert (exists m, back_over (<[npath := 0]> buf) npath = Some m) as [m Hm].
  { destruct Hc as (_ & _ & _ & Hc & _). destruct (back_in st c _ _ Hst Hl0 Hn Ht0 Hc Hb) as (m & Hm & _). by exists m. }
  rewrite Hm. unfold m_malloc. destruct (char_at link =? SLASH); cbn [default of_option ret];
    (destruct (malloc _ w1) as [[] w2]; [|done]; by destruct linked).
Qed.

Context {L : PathLaws P (fun cwd => exists st, Forall plain st /\ cwd = path_of st)}.

Lemma plain_component x c rest : 0 ∉ x :: c ++ rest -> SLASH ∉ x :: c -> x :: c <> [DOT] -> x :: c <> [DOT; DOT] -> plain (x :: c).
Proof using. clear L. intros H1 H2 H3 H4. split_and!; [done..|]. set_solver. Qed.

Lemma render_component st c : length (render st ++ c) = (length (render st) + length c)%nat.
Proof using. apply length_app. Qed.

Lemma link_in st c buf : Forall plain st -> length buf = max -> take (length (render st ++ c)) buf = render st ++ c -> SLASH ∉ c ->
  (length (render st ++ c) < max)%nat -> forall absolute : bool,
  let m := if absolute then O else default O (back_over buf (length (render st ++ c))) in
  (m < max)%nat /\ path_in (if absolute then [] else st) (<[m := SLASH]> buf) (Datatypes.S m).
Proof using.
  intros Hst Hl Ht Hc Hb [] m; unfold m.
  - split; [lia|]. apply root_in; [done|lia].
  - destruct (back_in st c buf _ Hst Hl eq_refl Ht Hc Hb) as (k & Hk & Hin). rewrite Hk. cbn. split; [|done].
    apply path_in_bound in Hin. lia.
Qed.

(** Enough fuel. *)
Definition enough (path : list Z) (n fuel : nat) : Prop := (length path + n * Z.to_nat (PATH_MAX + 1) < fuel)%nat.

Definition loop_ok (fuel : nat) : Prop := forall path linked rl st buf npath w n, path_in st buf npath -> 0 ∉ path ->
  0 <= rl <= MAX_READLINKS + 1 -> n = Z.to_nat (MAX_READLINKS + 1 - rl) -> enough path n fuel ->
  carried (walk wmax n linked st (split_path path) w) (expand wmax fuel path linked rl buf npath w).

(** A component that is looked up. *)
Lemma component_ok fuel c rest linked rl st buf npath w n : loop_ok fuel -> path_in st buf npath -> plain c -> 0 ∉ rest -> ended rest ->
  0 <= rl <= MAX_READLINKS + 1 -> n = Z.to_nat (MAX_READLINKS + 1 - rl) -> enough (c ++ rest) n (Datatypes.S fuel) ->
  carried (walk wmax n linked st (c :: tail (split_path rest)) w)
    ((let* (path, buf, npath) := copy_component wmax (c ++ rest) buf npath in
      if MAX_READLINKS <? rl then fail ELOOP
      else
        let* (path, linked, buf, npath) := follow_link path linked buf npath in
        let* buf := of_option (poke buf npath SLASH) in
        expand wmax fuel path linked (rl + 1) buf (Datatypes.S npath)) w).
Proof using L.
  intros IH Hp Hpl H0 Hr Hrl Hn Hf. pose proof Hpl as (Hc0 & Hd & Hdd & Hc & _). pose proof Hp as [Hlen Hnp _ Hst].
  rewrite walk_cons, !bool_decide_false by done. cbn [orb]. unfold enough in Hf. rewrite length_app in Hf.
  assert (Hc1 : (1 <= length c)%nat) by (destruct c; [done|cbn; lia]). subst npath.
  destruct (Z.ltb_spec (wmax - 1) (Z.of_nat (length (render st)) + Z.of_nat (length c))) as [Hlong|Hfit].
  { erewrite bind_err; [|rewrite copy_ok, bool_decide_false by done; rewrite (proj2 (Z.ltb_lt _ _) Hlong); reflexivity]. done. }
  erewrite bind_ok; [|rewrite copy_ok, bool_decide_false by done; rewrite (proj2 (Z.ltb_ge _ _) Hfit); reflexivity]. cbv beta iota.
  destruct (copied_in st c buf (length (render st)) Hp Hc0 Hfit) as [Hl Ht].
  set (buf' := take _ buf ++ c ++ _) in *. clearbody buf'. unfold MAX_READLINKS in *. destruct n as [|n].
  { destruct (Z.ltb_spec 32 rl); [done|lia]. }
  destruct (Z.ltb_spec 32 rl); [lia|]. rewrite <- render_component in Ht |- *.
  assert (Hb : (length (render st ++ c) < max)%nat) by (rewrite render_component; lia).
  destruct (follow_ok st c rest linked buf' _ w Hpl Hst Hl eq_refl Ht Hb) as (buf0 & Hl0 & Ht0 & Hfollow).
  rewrite slashed_split by done.
  destruct (po_readlink (path_of (st ++ [c])) PATH_MAX w) as [[link|e] w1] eqn:Hlink;
    erewrite (bind_ok (attempt _)) by (unfold attempt, lift_sum; rewrite Hlink; reflexivity); cbv beta iota.
  - destruct (malloc (Z.of_nat (length rest) + Z.of_nat (length link) + 1) w1) as [[] w2] eqn:Hm.
    2: { erewrite !bind_err; [done|exact Hfollow|]. unfold m_malloc. by rewrite Hm. }
    erewrite (bind_ok (m_malloc _)) by (unfold m_malloc; rewrite Hm; reflexivity).
    destruct linked; [by erewrite bind_abort|]. erewrite bind_ok by exact Hfollow. cbv beta iota.
    assert (Hpm : 0 <= PATH_MAX) by done. destruct (pl_readlink _ _ _ _ _ Hpm Hlink) as [Hll Hl0n]. rewrite <- split_path_app by done.
    destruct (link_in st c buf0 Hst Hl0 Ht0 Hc Hb (char_at link =? SLASH)) as [Hm1 Hin]. set (m := if char_at link =? SLASH then _ else _) in *.
    rewrite poke_ok, bind_some by lia. apply IH; [done|set_solver|unfold MAX_READLINKS; lia..|].
    unfold enough. rewrite Nat.mul_succ_l in Hf. rewrite length_app. unfold PATH_MAX in *. lia.
  - destruct (e =? EINVAL); [|by erewrite bind_err]. erewrite bind_ok by exact Hfollow. cbv beta iota.
    rewrite poke_ok, bind_some by lia. rewrite walk_rest by done. apply IH; [by apply slash_in|done|unfold MAX_READLINKS; lia..|].
    unfold enough. rewrite Nat.mul_succ_l in Hf. lia.
Qed.

Lemma expand_ok fuel : forall path linked rl st buf npath w n, path_in st buf npath -> 0 ∉ path ->
  0 <= rl <= MAX_READLINKS + 1 -> n = Z.to_nat (MAX_READLINKS + 1 - rl) -> enough path n fuel ->
  carried (walk wmax n linked st (split_path path) w) (expand wmax fuel path linked rl buf npath w).
Proof using L.
  unfold enough. induction fuel as [|fuel IH]; intros path linked rl st buf npath w n Hp H0 Hrl Hn Hf; [lia|].
  destruct (first_component path) as (c & rest & -> & Hc & Hr). rewrite split_first by done. cbn [expand].
  rewrite length_app in Hf. destruct c as [|x c]; cbn [app] in *.
  { rewrite walk_cons. cbn [orb bool_decide]. destruct rest as [|y rest]; [cbn [split_path tail]; rewrite walk_nil; by exists buf, npath|].
    destruct Hr as [|Hr]; [done|]. cbn in Hr. subst y. rewrite Z.eqb_refl. cbn [split_path]. rewrite Z.eqb_refl. cbn [tail].
    apply IH; [done|set_solver|done|done|cbn in Hf; lia]. }
  assert (Hxs : x <> SLASH) by set_solver. destruct (Z.eqb_spec x SLASH) as [|_]; [done|].
  rewrite dot_test, dots_test, walk_cons by done. rewrite (bool_decide_false (x :: c = [])) by done. cbn [orb].
  destruct (bool_decide_reflect (x :: c = [DOT])) as [Hd|Hd].
  { injection Hd as -> ->. cbn [app]. rewrite walk_rest by done. apply IH; [done|set_solver|done|done|cbn in Hf; lia]. }
  destruct (bool_decide_reflect (x :: c = [DOT; DOT])) as [Hdd|Hdd].
  { injection Hdd as -> ->. cbn [app tail]. destruct (back_up_ok _ _ _ Hp) as (npath' & Hb & Hp'). rewrite Hb, bind_some, walk_rest by done.
    apply IH; [done|set_solver|done|done|cbn in Hf; lia]. }
  assert (Hpl : plain (x :: c)) by by eapply plain_component.
  pose proof (component_ok fuel (x :: c) rest linked rl st buf npath w n IH Hp Hpl ltac:(set_solver) Hr Hrl Hn) as H.
  rewrite walk_cons, !bool_decide_false in H by done. apply H. unfold enough. rewrite length_app. exact Hf.
Qed.

(** *** The whole function *)

(** The components of a canonical path. *)
Definition components (path : list Z) : list (list Z) := filter (fun c => c <> []) (split_path path).

Lemma split_slashed st : Forall plain st -> split_path (slashed st) = [] :: st.
Proof using.
  induction st as [|c st IH] using rev_ind; intros Hst; [done|]. apply Forall_app in Hst as [Hst [Hc _]%Forall_cons].
  destruct Hc as (_ & _ & _ & Hc & _). rewrite slashed_app. unfold render. rewrite <- app_assoc. cbn [app].
  rewrite split_path_app by (by right). rewrite IH by done. cbn [split_path]. rewrite Z.eqb_refl. cbn [tail].
  by rewrite split_component.
Qed.

Lemma components_path_of st : Forall plain st -> components (path_of st) = st.
Proof using.
  intros Hst. unfold components, path_of. destruct st as [|c st]; [done|]. rewrite split_slashed by done.
  rewrite filter_cons_False by (intros H; by apply H). clear - Hst. induction (c :: st) as [|x l IH]; [done|].
  apply Forall_cons in Hst as [Hx Hst]. rewrite filter_cons_True by apply Hx. by rewrite IH.
Qed.

(** Where the path leads. *)
Definition canonical_path path : M W (list (list Z)) :=
  let* st := (if char_at path =? SLASH then ret []
              else let* cwd := lift_sum (po_getcwd (wmax - 2)) in ret (components cwd)) in
  walk wmax (Z.to_nat (MAX_READLINKS + 1)) false st (split_path path).

Lemma finish_ok st buf npath w : path_in st buf npath -> (2 <= max)%nat ->
  exists buf', (let* npath := (if Nat.eqb npath 1 then ret npath
                 else let* x := of_option (buf !! (npath - 1)%nat) in
                      ret (if x =? SLASH then (npath - 1)%nat else npath)) in
                of_option (poke buf npath 0)) w = (Ok buf', w) /\
    length buf' = max /\ c_string buf' = path_of st /\ Forall plain st.
Proof using.
  intros Hp Hm. pose proof (path_in_bound _ _ _ Hp) as Hb. destruct Hp as [H1 H2 H3 H4]. destruct (Nat.eqb_spec npath 1) as [->|Hn].
  - exists (<[1%nat := 0]> buf). rewrite bind_ret, poke_ok by lia. split; [done|]. split; [by rewrite length_insert|]. split; [|done].
    assert (st = []) as ->.
    { destruct st as [|c st]; [done|]. exfalso. unfold render, slashed in H2. cbn in H2. rewrite !length_app in H2. cbn in H2. lia. }
    rewrite insert_take_drop, H3 by lia. done.
  - assert (Hs : buf !! (npath - 1)%nat = Some SLASH).
    { rewrite (prefix_lookup _ _ _ _ H3) by lia. pose proof (render_last st) as Hlast. rewrite last_lookup in Hlast.
      by replace (npath - 1)%nat with (Init.Nat.pred (length (render st))) by lia. }
    rewrite Hs. exists (<[(npath - 1)%nat := 0]> buf). unfold bind. cbn [of_option ret]. rewrite Z.eqb_refl, poke_ok by lia.
    split; [done|]. split; [by rewrite length_insert|]. split; [|done].
    assert (Hns : st <> []) by (intros ->; cbn in H2; lia).
    assert (Ht : take (npath - 1) buf = slashed st).
    { replace (npath - 1)%nat with ((npath - 1) `min` npath)%nat by lia. rewrite <- take_take, H3. unfold render.
      apply take_app_length'. rewrite H2. unfold render. rewrite length_app. cbn. lia. }
    rewrite insert_take_drop, Ht by lia. rewrite c_string_app by by apply slashed_no_nul. by destruct st.
Qed.

(** Where the loop starts. *)
Lemma start_cwd buf st : (1 <= max)%nat -> length buf = max -> Forall plain st -> Z.of_nat (length (path_of st)) + 1 <= wmax - 2 ->
  forall path w, exists buf' npath,
    (let* buf := of_option (poke_all buf 0 (path_of st ++ [0])) in
     match length (path_of st) with
     | O => abort
     | Datatypes.S n =>
       let* x := of_option (buf !! n) in
       if x =? SLASH then ret (path, buf, length (path_of st))
       else let* buf := of_option (poke buf (length (path_of st)) SLASH) in ret (path, buf, Datatypes.S (length (path_of st)))
     end) w = (Ok (path, buf', npath), w) /\ path_in st buf' npath.
Proof using.
  intros Hm Hl Hst Hfit path w. destruct (poke_all_ok (path_of st ++ [0]) buf 0) as (buf1 & H1 & H2 & H3).
  { rewrite length_app. cbn. lia. }
  rewrite H1, bind_some. rewrite length_app, Nat.add_0_l, take_0, app_nil_l in H3. cbn [length] in H3.
  assert (Ht : take (length (path_of st)) buf1 = path_of st).
  { replace (length (path_of st)) with (length (path_of st) `min` (length (path_of st) + 1))%nat at 1 by lia.
    rewrite <- take_take, H3, take_app_length. done. }
  destruct st as [|c st _] using rev_ind.
  - cbn in Ht |- *. destruct buf1 as [|x buf1]; [cbn in Hl, H2; lia|]. injection Ht as ->. cbn.
    exists (SLASH :: buf1), 1%nat. split; [done|]. split; [by rewrite <- Hl|done..].
  - rewrite path_of_snoc in *. assert (Hplain := Hst). apply Forall_app in Hst as [Hst [Hc _]%Forall_cons].
    pose proof Hc as (Hc0 & _ & _ & Hcs & _). destruct (length (render st ++ c)) as [|n] eqn:Hn; [rewrite length_app in Hn; destruct c; [done|cbn in Hn; lia]|].
    assert (Hx : exists x, buf1 !! n = Some x /\ x <> SLASH).
    { rewrite (prefix_lookup _ _ _ _ Ht) by lia. destruct c as [|y c _] using rev_ind; [done|]. exists y.
      rewrite app_assoc. rewrite lookup_app_r by (rewrite app_assoc, length_app in Hn; cbn in Hn; lia).
      rewrite app_assoc, length_app in Hn. cbn in Hn. replace (n - length (render st ++ c))%nat with 0%nat by lia. split; [done|]. intros ->. apply Hcs, elem_of_app. right. constructor. }
    destruct Hx as (x & Hx & Hxs). rewrite Hx, bind_some. destruct (Z.eqb_spec x SLASH); [done|]. rewrite poke_ok, bind_some by lia.
    exists (<[Datatypes.S n := SLASH]> buf1), (Datatypes.S (Datatypes.S n)). split; [done|]. apply slash_in; [done|done|lia|done|done|lia].
Qed.

Lemma expand_fuel path : enough path (Z.to_nat (MAX_READLINKS + 1)) (EXPAND_FUEL path).
Proof using.
  unfold enough, EXPAND_FUEL. change (Z.to_nat (MAX_READLINKS + 1)) with 33%nat. set (k := Z.to_nat (PATH_MAX + 1)). clearbody k. lia.
Qed.

Lemma from_start st path path' buf buf' npath w w1 : (2 <= max)%nat -> 0 ∉ path' -> path_in st buf' npath ->
  start_path wmax path buf w = (Ok (path', buf', npath), w1) ->
  match walk wmax (Z.to_nat (MAX_READLINKS + 1)) false st (split_path path') w1 with
  | (Ok st, w') => Forall plain st /\ exists buf', myrealpath wmax path buf w = (Ok buf', w') /\
                   length buf' = max /\ c_string buf' = path_of st
  | (Err e, w') => myrealpath wmax path buf w = (Err e, w')
  | (Abort, w') => myrealpath wmax path buf w = (Abort, w')
  | _ => False
  end.
Proof using L.
  intros Hm H0' Hp Hstart. unfold myrealpath. rewrite (bind_ok _ _ _ _ _ Hstart).
  pose proof (expand_ok (EXPAND_FUEL path') path' false 0 st buf' npath w1 (Z.to_nat (MAX_READLINKS + 1)) Hp H0' ltac:(done) eq_refl
    (expand_fuel path')) as He.
  unfold carried in He. destruct (walk _ _ _ _ _ _) as [[st'|e| |c|] w2]; [|by erewrite bind_err|by erewrite bind_abort|done..].
  destruct He as (buf2 & n2 & He & Hp2). split; [apply Hp2|]. rewrite (bind_ok _ _ _ _ _ He).
    destruct (finish_ok st' buf2 n2 w2 Hp2 Hm) as (buf3 & Hf & H1 & H2 & _). by exists buf3.
Qed.

(** Start and loop put together. *)
Lemma myrealpath_walks path buf w : 0 ∉ path -> length buf = max -> (2 <= max)%nat ->
  match canonical_path path w with
  | (Ok st, w') => Forall plain st /\ exists buf', myrealpath wmax path buf w = (Ok buf', w') /\
                   length buf' = max /\ c_string buf' = path_of st
  | (Err e, w') => myrealpath wmax path buf w = (Err e, w')
  | (Abort, w') => myrealpath wmax path buf w = (Abort, w')
  | _ => False
  end.
Proof using L.
  intros H0 Hl Hm. unfold canonical_path. destruct (Z.eqb_spec (char_at path) SLASH) as [Habs|Hrel].
  - destruct path as [|x path]; [done|]. cbn in Habs. subst x. rewrite bind_ret. cbn [split_path]. rewrite Z.eqb_refl.
    rewrite (walk_cons _ _ _ [] (split_path path)). cbn [orb]. refine (from_start [] _ path _ (<[0%nat := SLASH]> buf) 1%nat _ w Hm _ _ _).
    + by apply not_elem_of_cons in H0 as [_ H0].
    + apply root_in; [done|lia].
    + unfold start_path. cbn [char_at]. rewrite Z.eqb_refl, poke_ok by lia. done.
  - destruct (po_getcwd (wmax - 2) w) as [[cwd|e] w1] eqn:Hcwd.
    + destruct (pl_getcwd _ _ _ _ Hcwd) as [(st & Hst & ->) Hfit].
      erewrite bind_ok by (unfold lift_sum, bind; rewrite Hcwd; reflexivity). rewrite components_path_of by done.
      destruct (start_cwd buf st ltac:(lia) Hl Hst Hfit path w1) as (buf' & npath & Hs & Hp). refine (from_start st _ path _ buf' npath _ w1 Hm H0 Hp _).
      unfold start_path. destruct (Z.eqb_spec (char_at path) SLASH); [done|].
      erewrite bind_ok by (unfold lift_sum; rewrite Hcwd; reflexivity). exact Hs.
    + erewrite bind_err by (unfold lift_sum, bind; rewrite Hcwd; reflexivity). unfold myrealpath. apply bind_err.
      unfold start_path. destruct (Z.eqb_spec (char_at path) SLASH); [done|]. apply bind_err. unfold lift_sum. by rewrite Hcwd.
Qed.

(** C11: the canonical path.  Whatever the links are and however long the
    path is, [myrealpath] stores inside the caller's buffer only and ends, and
    it ends as the definition on lists of components does: with the same
    errno, or with a path that is absolute, fits, and has no empty, dot or
    dot-dot component.  The exception is a second symbolic link on the way:
    the rest of the path is then read from memory that has been freed. *)
Theorem myrealpath_canonical path buf w : 0 ∉ path -> length buf = max -> (2 <= max)%nat ->
  match canonical_path path w with
  | (Ok st, w') => Forall plain st /\ exists buf', myrealpath wmax path buf w = (Ok buf', w') /\
                   length buf' = max /\ c_string buf' = path_of st
  | (Err e, w') => myrealpath wmax path buf w = (Err e, w')
  | (Abort, w') => myrealpath wmax path buf w = (Abort, w')
  | _ => False
  end.
Proof using L. apply myrealpath_walks. Qed.
End Spec.

(** ** A file system with links *)

Module RealpathDemo.
(** The current directory is /home; /dev/root is a link to vda, /disk one to
    /dev/root. *)
#[export] Instance demo_paths : PathOs unit := {
  po_getcwd := fun n w => (if n <? 6 then inr ERANGE else inl (codes "/home"), w);
  po_readlink := fun path n w =>
    (if bool_decide (path = codes "/dev/root") then inl (take (Z.to_nat n) (codes "vda"))
     else if bool_decide (path = codes "/disk") then inl (take (Z.to_nat n) (codes "/dev/root")) else inr EINVAL, w);
}.

#[export] Instance demo_memory : Alloc unit := fun _ w => (true, w).

#[export] Instance demo_path_laws : PathLaws demo_paths (fun cwd => exists st, Forall plain st /\ cwd = path_of st).
Proof.
  split; cbn.
  - intros n [] cwd w'. destruct (Z.ltb_spec n 6); [done|]. intros [= <- <-]. split; [|change (6 <= n); lia]. exists [codes "home"]. split; [|done].
    constructor; [|done]. split_and!; vm_compute; set_solver.
  - intros path n [] link w' Hn. case_bool_decide; [|case_bool_decide; [|done]]; intros [= <- <-];
      (rewrite length_take; split; [lia|]; intros [k Hk]%list_elem_of_lookup; apply lookup_take_Some in Hk as [Hk _]; apply list_elem_of_lookup_2 in Hk;
       revert Hk; vm_compute; set_solver).
Qed.

Definition buffer : list Z := replicate 64 85.
End RealpathDemo.
Import RealpathDemo.

Lemma myrealpath_canonical_witness :
  exists buf', myrealpath 64 (codes "..//dev/./root") RealpathDemo.buffer tt = (Ok buf', tt) /\ c_string buf' = codes "/dev/vda".
Proof.
  pose proof (myrealpath_canonical 64 (codes "..//dev/./root") RealpathDemo.buffer tt ltac:(vm_compute; set_solver) eq_refl ltac:(lia)) as H.
  vm_compute in H. destruct H as (_ & buf' & H1 & _ & H2). by exists buf'.
Defined.

(** Two links on the way: a read of freed memory. *)
Lemma two_links_freed : myrealpath 64 (codes "/disk") RealpathDemo.buffer tt = (Abort, tt).
Proof. by vm_compute. Qed.
