(* ===== verification/Cleanerd.v ===== *)
(** * The cleaner daemon: sbin/cleanerd.c

    The daemon alternates between reclaiming segments and waiting for a
    timeout or a message of a client.  Its mode is the number [running]: -1
    suspended, 0 idle, 1 cleaning, 2 cleaning on request of a client.  The
    state [ds W] holds the nilfs object, the checkpoint map and the members of
    [struct nilfs_cleanerd]; the policy is a parameter.  What the daemon needs
    of the system beyond the nilfs library (signals, the message queues, the
    files it reads and logs to) is the class [DaemonOs].

    Times are added and subtracted modulo 2^64; log messages are left out. *)

From Stdlib Require Import String.
From S2P Require Import Prelude Vector Ondisk Crc32 Sb Kernel Nilfs Segment Gc Cnormap Float64 Policy Parser Cldconfig.

(** ** Operations on times: include/compat.h *)

Definition NSEC_PER_SEC : Z := 1000000000.

Definition timespecadd (a b : timespec) : timespec :=
  let sec := i64 (tv_sec a + tv_sec b) in
  let nsec := i64 (tv_nsec a + tv_nsec b) in
  if NSEC_PER_SEC <=? nsec then mk_timespec (i64 (sec + 1)) (nsec - NSEC_PER_SEC)
  else mk_timespec sec nsec.

Definition timespecsub (a b : timespec) : timespec :=
  let sec := i64 (tv_sec a - tv_sec b) in
  let nsec := i64 (tv_nsec a - tv_nsec b) in
  if nsec <? 0 then mk_timespec (i64 (sec - 1)) (nsec + NSEC_PER_SEC)
  else mk_timespec sec nsec.

(** [timespeccmp(a, b, <)] *)
Definition timespec_lt (a b : timespec) : bool :=
  if tv_sec a =? tv_sec b then tv_nsec a <? tv_nsec b else tv_sec a <? tv_sec b.

Definition zero_timespec : timespec := mk_timespec 0 0.

(** ** Messages: include/cleaner_msg.h, include/nilfs_cleaner.h *)

Definition NILFS_CLEANER_CMD_GET_STATUS : Z := 0.
Definition NILFS_CLEANER_CMD_RUN : Z := 1.
Definition NILFS_CLEANER_CMD_SUSPEND : Z := 2.
Definition NILFS_CLEANER_CMD_RESUME : Z := 3.
Definition NILFS_CLEANER_CMD_TUNE : Z := 4.
Definition NILFS_CLEANER_CMD_RELOAD : Z := 5.
Definition NILFS_CLEANER_CMD_WAIT : Z := 6.
Definition NILFS_CLEANER_CMD_STOP : Z := 7.
Definition NILFS_CLEANER_CMD_SHUTDOWN : Z := 8.

Definition NILFS_CLEANER_RSP_ACK : Z := 0.
Definition NILFS_CLEANER_RSP_NACK : Z := 1.
Definition NILFS_CLEANER_STATUS_IDLE : Z := 0.
Definition NILFS_CLEANER_STATUS_RUNNING : Z := 1.
Definition NILFS_CLEANER_STATUS_SUSPENDED : Z := 2.

Definition NILFS_CLEANER_ARG_PROTECTION_PERIOD : Z := 0.
Definition NILFS_CLEANER_ARG_NSEGMENTS_PER_CLEAN : Z := 1.
Definition NILFS_CLEANER_ARG_CLEANING_INTERVAL : Z := 2.
Definition NILFS_CLEANER_ARG_NPASSES : Z := 6.
Definition NILFS_CLEANER_ARG_MIN_RECLAIMABLE_BLOCKS : Z := 8.

Record nilfs_cleaner_args := mk_args {
  ar_valid : Z; ar_npasses : Z; ar_nsegments_per_clean : Z; ar_min_reclaimable_blocks_unit : Z;
  ar_cleaning_interval : Z; ar_cleaning_interval_nsec : Z; ar_protection_period : Z;
  ar_min_reclaimable_blocks : Z;
}.

Record nilfs_cleaner_response := mk_response {
  rsp_result : Z; rsp_status : Z; rsp_err : Z; rsp_jobid : Z;
}.

Definition sizeof_request : Z := 24.
Definition sizeof_args : Z := 48.

(** The header of a request: command, argument size, client. *)
Record nilfs_cleaner_request := mk_creq { rq_cmd : Z; rq_argsize : Z; rq_client_uuid : list Z }.

Definition decode_request (msg : list Z) : option nilfs_cleaner_request :=
  cmd ← rd_le 4 msg 0; argsize ← rd_le 4 msg 4; uuid ← rd_bytes msg 8 16;
  Some (mk_creq (i32 cmd) argsize uuid).

Definition decode_args (msg : list Z) : option nilfs_cleaner_args :=
  valid ← rd_le 2 msg 24; npasses ← rd_le 2 msg 26; nsegs ← rd_le 2 msg 30; unit ← rd_le 1 msg 33;
  ci ← rd_le 2 msg 34; cin ← rd_le 4 msg 36; pp ← rd_le 8 msg 40; mrb ← rd_le 4 msg 68;
  Some (mk_args valid npasses nsegs unit ci cin pp mrb).

(** ** State *)

(** The number of segments per cycle, the interval between cycles and the
    least number of blocks a segment must free. *)
Record gc_speed := mk_speed {
  sp_ncleansegs : Z; sp_cleaning_interval : timespec; sp_min_reclaimable_blocks : Z;
}.

Record nilfs_cleanerd := mk_cleanerd {
  cl_config : nilfs_cldconfig;
  cl_conffile : list Z;
  cl_running : Z;
  cl_fallback : bool;
  cl_retry_cleaning : bool;
  cl_no_timeout : bool;
  cl_shutdown : bool;
  cl_speed : gc_speed;
  cl_target : timespec;
  cl_timeout : timespec;
  cl_prev_nongc_ctime : Z;
  cl_sendq : Z;
  cl_client_uuid : list Z;
  cl_jobid : Z;
  cl_mm_prev_state : Z;
  cl_mm_nrestpasses : Z;
  cl_mm_nrestsegs : Z;
  cl_mm_protection_period : timespec;
  cl_mm_speed : gc_speed;
}.

Definition with_config (c : nilfs_cleanerd) (x : nilfs_cldconfig) : nilfs_cleanerd :=
  mk_cleanerd x (cl_conffile c) (cl_running c) (cl_fallback c) (cl_retry_cleaning c)
    (cl_no_timeout c) (cl_shutdown c) (cl_speed c) (cl_target c) (cl_timeout c)
    (cl_prev_nongc_ctime c) (cl_sendq c) (cl_client_uuid c) (cl_jobid c) (cl_mm_prev_state c)
    (cl_mm_nrestpasses c) (cl_mm_nrestsegs c) (cl_mm_protection_period c) (cl_mm_speed c).
Definition with_conffile (c : nilfs_cleanerd) (x : list Z) : nilfs_cleanerd :=
  mk_cleanerd (cl_config c) x (cl_running c) (cl_fallback c) (cl_retry_cleaning c)
    (cl_no_timeout c) (cl_shutdown c) (cl_speed c) (cl_target c) (cl_timeout c)
    (cl_prev_nongc_ctime c) (cl_sendq c) (cl_client_uuid c) (cl_jobid c) (cl_mm_prev_state c)
    (cl_mm_nrestpasses c) (cl_mm_nrestsegs c) (cl_mm_protection_period c) (cl_mm_speed c).
Definition with_running (c : nilfs_cleanerd) (x : Z) : nilfs_cleanerd :=
  mk_cleanerd (cl_config c) (cl_conffile c) x (cl_fallback c) (cl_retry_cleaning c)
    (cl_no_timeout c) (cl_shutdown c) (cl_speed c) (cl_target c) (cl_timeout c)
    (cl_prev_nongc_ctime c) (cl_sendq c) (cl_client_uuid c) (cl_jobid c) (cl_mm_prev_state c)
    (cl_mm_nrestpasses c) (cl_mm_nrestsegs c) (cl_mm_protection_period c) (cl_mm_speed c).
Definition with_fallback (c : nilfs_cleanerd) (x : bool) : nilfs_cleanerd :=
  mk_cleanerd (cl_config c) (cl_conffile c) (cl_running c) x (cl_retry_cleaning c)
    (cl_no_timeout c) (cl_shutdown c) (cl_speed c) (cl_target c) (cl_timeout c)
    (cl_prev_nongc_ctime c) (cl_sendq c) (cl_client_uuid c) (cl_jobid c) (cl_mm_prev_state c)
    (cl_mm_nrestpasses c) (cl_mm_nrestsegs c) (cl_mm_protection_period c) (cl_mm_speed c).
Definition with_retry_cleaning (c : nilfs_cleanerd) (x : bool) : nilfs_cleanerd :=
  mk_cleanerd (cl_config c) (cl_conffile c) (cl_running c) (cl_fallback c) x (cl_no_timeout c)
    (cl_shutdown c) (cl_speed c) (cl_target c) (cl_timeout c) (cl_prev_nongc_ctime c) (cl_sendq
    c) (cl_client_uuid c) (cl_jobid c) (cl_mm_prev_state c) (cl_mm_nrestpasses c)
    (cl_mm_nrestsegs c) (cl_mm_protection_period c) (cl_mm_speed c).
Definition with_no_timeout (c : nilfs_cleanerd) (x : bool) : nilfs_cleanerd :=
  mk_cleanerd (cl_config c) (cl_conffile c) (cl_running c) (cl_fallback c) (cl_retry_cleaning c)
    x (cl_shutdown c) (cl_speed c) (cl_target c) (cl_timeout c) (cl_prev_nongc_ctime c)
    (cl_sendq c) (cl_client_uuid c) (cl_jobid c) (cl_mm_prev_state c) (cl_mm_nrestpasses c)
    (cl_mm_nrestsegs c) (cl_mm_protection_period c) (cl_mm_speed c).
Definition with_shutdown (c : nilfs_cleanerd) (x : bool) : nilfs_cleanerd :=
  mk_cleanerd (cl_config c) (cl_conffile c) (cl_running c) (cl_fallback c) (cl_retry_cleaning c)
    (cl_no_timeout c) x (cl_speed c) (cl_target c) (cl_timeout c) (cl_prev_nongc_ctime c)
    (cl_sendq c) (cl_client_uuid c) (cl_jobid c) (cl_mm_prev_state c) (cl_mm_nrestpasses c)
    (cl_mm_nrestsegs c) (cl_mm_protection_period c) (cl_mm_speed c).
Definition with_speed (c : nilfs_cleanerd) (x : gc_speed) : nilfs_cleanerd :=
  mk_cleanerd (cl_config c) (cl_conffile c) (cl_running c) (cl_fallback c) (cl_retry_cleaning c)
    (cl_no_timeout c) (cl_shutdown c) x (cl_target c) (cl_timeout c) (cl_prev_nongc_ctime c)
    (cl_sendq c) (cl_client_uuid c) (cl_jobid c) (cl_mm_prev_state c) (cl_mm_nrestpasses c)
    (cl_mm_nrestsegs c) (cl_mm_protection_period c) (cl_mm_speed c).
Definition with_target (c : nilfs_cleanerd) (x : timespec) : nilfs_cleanerd :=
  mk_cleanerd (cl_config c) (cl_conffile c) (cl_running c) (cl_fallback c) (cl_retry_cleaning c)
    (cl_no_timeout c) (cl_shutdown c) (cl_speed c) x (cl_timeout c) (cl_prev_nongc_ctime c)
    (cl_sendq c) (cl_client_uuid c) (cl_jobid c) (cl_mm_prev_state c) (cl_mm_nrestpasses c)
    (cl_mm_nrestsegs c) (cl_mm_protection_period c) (cl_mm_speed c).
Definition with_timeout (c : nilfs_cleanerd) (x : timespec) : nilfs_cleanerd :=
  mk_cleanerd (cl_config c) (cl_conffile c) (cl_running c) (cl_fallback c) (cl_retry_cleaning c)
    (cl_no_timeout c) (cl_shutdown c) (cl_speed c) (cl_target c) x (cl_prev_nongc_ctime c)
    (cl_sendq c) (cl_client_uuid c) (cl_jobid c) (cl_mm_prev_state c) (cl_mm_nrestpasses c)
    (cl_mm_nrestsegs c) (cl_mm_protection_period c) (cl_mm_speed c).
Definition with_prev_nongc_ctime (c : nilfs_cleanerd) (x : Z) : nilfs_cleanerd :=
  mk_cleanerd (cl_config c) (cl_conffile c) (cl_running c) (cl_fallback c) (cl_retry_cleaning c)
    (cl_no_timeout c) (cl_shutdown c) (cl_speed c) (cl_target c) (cl_timeout c) x (cl_sendq c)
    (cl_client_uuid c) (cl_jobid c) (cl_mm_prev_state c) (cl_mm_nrestpasses c) (cl_mm_nrestsegs
    c) (cl_mm_protection_period c) (cl_mm_speed c).
Definition with_sendq (c : nilfs_cleanerd) (x : Z) : nilfs_cleanerd :=
  mk_cleanerd (cl_config c) (cl_conffile c) (cl_running c) (cl_fallback c) (cl_retry_cleaning c)
    (cl_no_timeout c) (cl_shutdown c) (cl_speed c) (cl_target c) (cl_timeout c)
    (cl_prev_nongc_ctime c) x (cl_client_uuid c) (cl_jobid c) (cl_mm_prev_state c)
    (cl_mm_nrestpasses c) (cl_mm_nrestsegs c) (cl_mm_protection_period c) (cl_mm_speed c).
Definition with_client_uuid (c : nilfs_cleanerd) (x : list Z) : nilfs_cleanerd :=
  mk_cleanerd (cl_config c) (cl_conffile c) (cl_running c) (cl_fallback c) (cl_retry_cleaning c)
    (cl_no_timeout c) (cl_shutdown c) (cl_speed c) (cl_target c) (cl_timeout c)
    (cl_prev_nongc_ctime c) (cl_sendq c) x (cl_jobid c) (cl_mm_prev_state c) (cl_mm_nrestpasses
    c) (cl_mm_nrestsegs c) (cl_mm_protection_period c) (cl_mm_speed c).
Definition with_jobid (c : nilfs_cleanerd) (x : Z) : nilfs_cleanerd :=
  mk_cleanerd (cl_config c) (cl_conffile c) (cl_running c) (cl_fallback c) (cl_retry_cleaning c)
    (cl_no_timeout c) (cl_shutdown c) (cl_speed c) (cl_target c) (cl_timeout c)
    (cl_prev_nongc_ctime c) (cl_sendq c) (cl_client_uuid c) x (cl_mm_prev_state c)
    (cl_mm_nrestpasses c) (cl_mm_nrestsegs c) (cl_mm_protection_period c) (cl_mm_speed c).
Definition with_mm_prev_state (c : nilfs_cleanerd) (x : Z) : nilfs_cleanerd :=
  mk_cleanerd (cl_config c) (cl_conffile c) (cl_running c) (cl_fallback c) (cl_retry_cleaning c)
    (cl_no_timeout c) (cl_shutdown c) (cl_speed c) (cl_target c) (cl_timeout c)
    (cl_prev_nongc_ctime c) (cl_sendq c) (cl_client_uuid c) (cl_jobid c) x (cl_mm_nrestpasses c)
    (cl_mm_nrestsegs c) (cl_mm_protection_period c) (cl_mm_speed c).
Definition with_mm_nrestpasses (c : nilfs_cleanerd) (x : Z) : nilfs_cleanerd :=
  mk_cleanerd (cl_config c) (cl_conffile c) (cl_running c) (cl_fallback c) (cl_retry_cleaning c)
    (cl_no_timeout c) (cl_shutdown c) (cl_speed c) (cl_target c) (cl_timeout c)
    (cl_prev_nongc_ctime c) (cl_sendq c) (cl_client_uuid c) (cl_jobid c) (cl_mm_prev_state c) x
    (cl_mm_nrestsegs c) (cl_mm_protection_period c) (cl_mm_speed c).
Definition with_mm_nrestsegs (c : nilfs_cleanerd) (x : Z) : nilfs_cleanerd :=
  mk_cleanerd (cl_config c) (cl_conffile c) (cl_running c) (cl_fallback c) (cl_retry_cleaning c)
    (cl_no_timeout c) (cl_shutdown c) (cl_speed c) (cl_target c) (cl_timeout c)
    (cl_prev_nongc_ctime c) (cl_sendq c) (cl_client_uuid c) (cl_jobid c) (cl_mm_prev_state c)
    (cl_mm_nrestpasses c) x (cl_mm_protection_period c) (cl_mm_speed c).
Definition with_mm_protection_period (c : nilfs_cleanerd) (x : timespec) : nilfs_cleanerd :=
  mk_cleanerd (cl_config c) (cl_conffile c) (cl_running c) (cl_fallback c) (cl_retry_cleaning c)
    (cl_no_timeout c) (cl_shutdown c) (cl_speed c) (cl_target c) (cl_timeout c)
    (cl_prev_nongc_ctime c) (cl_sendq c) (cl_client_uuid c) (cl_jobid c) (cl_mm_prev_state c)
    (cl_mm_nrestpasses c) (cl_mm_nrestsegs c) x (cl_mm_speed c).
Definition with_mm_speed (c : nilfs_cleanerd) (x : gc_speed) : nilfs_cleanerd :=
  mk_cleanerd (cl_config c) (cl_conffile c) (cl_running c) (cl_fallback c) (cl_retry_cleaning c)
    (cl_no_timeout c) (cl_shutdown c) (cl_speed c) (cl_target c) (cl_timeout c)
    (cl_prev_nongc_ctime c) (cl_sendq c) (cl_client_uuid c) (cl_jobid c) (cl_mm_prev_state c)
    (cl_mm_nrestpasses c) (cl_mm_nrestsegs c) (cl_mm_protection_period c) x.

(** ** The policy registry *)

Section Registry.
Context {W : Type}.
Definition MAX_POLICIES : Z := 16.

Definition nilfs_register_policy (registered : list (nilfs_cleaning_policy (W:=W)))
    (policy : nilfs_cleaning_policy (W:=W)) : option (list nilfs_cleaning_policy) :=
  if MAX_POLICIES <=? Z.of_nat (length registered) then None
  else Some (registered ++ [policy]).

Fixpoint nilfs_get_policy (registered : list (nilfs_cleaning_policy (W:=W))) (name : string)
  : option nilfs_cleaning_policy :=
  match registered with
  | [] => None
  | p :: ps => if String.eqb (pl_name p) name then Some p else nilfs_get_policy ps name
  end.
End Registry.

(** ** The system *)

Class DaemonOs (W : Type) := {
  d_sigprocmask : W -> (unit + Z) * W;
  d_sigaction : W -> (unit + Z) * W;
  d_take_signals : W -> (bool * bool) * W;       (** SIGHUP, SIGUSR1 since the last call *)
  d_conffile : list Z -> W -> (bool * option (list Z)) * W;  (** is a regular file; its content *)
  d_setlogmask : Z -> W -> W;
  d_ppoll : timespec -> W -> (bool + Z) * W;     (** is there a message? *)
  d_mq_receive : W -> (list Z + Z) * W;
  d_mq_open : list Z -> W -> (Z + Z) * W;        (** the queue of a client *)
  d_mq_close : Z -> W -> W;
  d_mq_send : Z -> nilfs_cleaner_response -> W -> (unit + Z) * W;
  d_log_open : W -> bool * W;
  d_statvfs : W -> bool * W;
}.

Record ds (W : Type) := mk_ds { d_cns : cns W unit; d_cld : nilfs_cleanerd }.
Arguments mk_ds {W} _ _.
Arguments d_cns {W} _.
Arguments d_cld {W} _.

Definition NILFS_CLEANERD_NSUINFO : Z := 512.
Definition NILFS_CLEANERD_NULLTIME : Z := 2 ^ 63 - 1.

(** ** Members that depend on the mode *)

Definition nilfs_cleanerd_automatic_suspend (c : nilfs_cleanerd) : bool :=
  0 <? cf_min_clean_segments (cl_config c).
Definition nilfs_cleanerd_ncleansegs (c : nilfs_cleanerd) : Z :=
  if cl_running c =? 2 then sp_ncleansegs (cl_mm_speed c) else sp_ncleansegs (cl_speed c).
Definition nilfs_cleanerd_cleaning_interval (c : nilfs_cleanerd) : timespec :=
  if cl_running c =? 2 then sp_cleaning_interval (cl_mm_speed c) else sp_cleaning_interval (cl_speed c).
Definition nilfs_cleanerd_protection_period (c : nilfs_cleanerd) : timespec :=
  if cl_running c =? 2 then cl_mm_protection_period c else cf_protection_period (cl_config c).
Definition nilfs_cleanerd_min_reclaimable_blocks (c : nilfs_cleanerd) : Z :=
  if cl_running c =? 2 then sp_min_reclaimable_blocks (cl_mm_speed c)
  else sp_min_reclaimable_blocks (cl_speed c).

Definition halve_ncleansegs (sp : gc_speed) : gc_speed :=
  if 1 <? sp_ncleansegs sp
  then mk_speed (Z.shiftr (sp_ncleansegs sp) 1) (sp_cleaning_interval sp) (sp_min_reclaimable_blocks sp)
  else sp.

Definition nilfs_cleanerd_reduce_ncleansegs_for_retry (c : nilfs_cleanerd) : nilfs_cleanerd :=
  if cl_running c =? 2 then with_speed c (halve_ncleansegs (cl_speed c))
  else with_mm_speed c (halve_ncleansegs (cl_mm_speed c)).

(** ** Changes of the mode *)

Definition check_interval (c : nilfs_cleanerd) : timespec := cf_clean_check_interval (cl_config c).

Definition nilfs_cleanerd_clean_check_pause (c : nilfs_cleanerd) : nilfs_cleanerd :=
  with_timeout (with_running c 0) (check_interval c).
Definition nilfs_cleanerd_clean_check_resume (c : nilfs_cleanerd) : nilfs_cleanerd := with_running c 1.
Definition nilfs_cleanerd_manual_suspend (c : nilfs_cleanerd) : nilfs_cleanerd :=
  with_timeout (with_running (with_mm_prev_state c (cl_running c)) (-1)) (check_interval c).
Definition nilfs_cleanerd_manual_resume (c : nilfs_cleanerd) : nilfs_cleanerd :=
  let c := with_mm_prev_state c 0 in with_running c (cl_mm_prev_state c).
Definition nilfs_cleanerd_manual_run (c : nilfs_cleanerd) : nilfs_cleanerd := with_running c 2.
Definition nilfs_cleanerd_manual_end (c : nilfs_cleanerd) : nilfs_cleanerd :=
  with_timeout (with_running c 0) (check_interval c).
Definition nilfs_cleanerd_manual_stop (c : nilfs_cleanerd) : nilfs_cleanerd :=
  with_timeout (with_running c 0) (check_interval c).

Definition nilfs_cleanerd_progress (c : nilfs_cleanerd) (nsegs : Z) : nilfs_cleanerd :=
  if cl_running c =? 2 then with_mm_nrestsegs c (Z.max (cl_mm_nrestsegs c - nsegs) 0) else c.

Section Cleanerd.
Context {W : Type} {K : Kernel W} {J : Junk} {D : DaemonOs W} (junk_span : nilfs_cpspan)
  (junk_cand : nilfs_segment_candidate) (fuel : nat).
Context (policy : nilfs_cleaning_policy (W:=W)) (policy_data : Z).
(** The protection period of the command line; [ULONG_MAX] for none. *)
Context (protection_period : Z).
Abbreviation MD := (M (ds W)).

(** *** Access to the state *)

Definition cns_call {A} (m : M (cns W unit) A) : MD A :=
  fun s => let '(r, c) := m (d_cns s) in (r, mk_ds c (d_cld s)).
Definition lib {A} (m : M (sys W) A) : MD A := cns_call (lib_call m).
Definition the_cld : MD nilfs_cleanerd := gets d_cld.
Definition update (f : nilfs_cleanerd -> nilfs_cleanerd) : MD unit :=
  modify (fun s => mk_ds (d_cns s) (f (d_cld s))).
Definition os_call {A} (f : W -> (A + Z) * W) : MD A := lib (os f).
Definition os_ask {A} (f : W -> A * W) : MD A := os_call (fun w => let '(a, w) := f w in (inl a, w)).
Definition os_do (f : W -> W) : MD unit := os_call (fun w => (inl tt, f w)).

#[export] Instance ds_alloc : Alloc (ds W) :=
  fun n s => let '(b, c) := malloc n (d_cns s) in (b, mk_ds c (d_cld s)).

(** *** Configuration *)

Definition nilfs_cleanerd_config (conffile : option (list Z)) : MD unit :=
  let* c := the_cld in
  let* (is_reg, content) := os_ask (d_conffile (default (cl_conffile c) conffile)) in
  let* config := lib (nilfs_cldconfig_read is_reg content) in
  update (fun c => with_config c config) ;;
  let* _ := attempt (lib (if cf_use_mmap config then nilfs_opt_set NILFS_OPT_MMAP
                          else nilfs_opt_clear NILFS_OPT_MMAP)) in
  let* _ := attempt (lib (if cf_use_set_suinfo config then nilfs_opt_set NILFS_OPT_SET_SUINFO
                          else nilfs_opt_clear NILFS_OPT_SET_SUINFO)) in
  os_do (d_setlogmask (cf_log_priority config)) ;;
  if negb (protection_period =? ULONG_MAX)
  then update (fun c => with_config c
                 (set_protection_period (cl_config c) (mk_timespec (i64 protection_period) 0)))
  else ret tt.

Definition auto_speed (config : nilfs_cldconfig) : gc_speed :=
  mk_speed (cf_nsegments_per_clean config) (cf_cleaning_interval config)
    (cf_min_reclaimable_blocks config).
Definition mc_speed (config : nilfs_cldconfig) : gc_speed :=
  mk_speed (cf_mc_nsegments_per_clean config) (cf_mc_cleaning_interval config)
    (cf_mc_min_reclaimable_blocks config).

Definition nilfs_cleanerd_reconfig (conffile : option (list Z)) : MD unit :=
  nilfs_cleanerd_config conffile ;;
  update (fun c => with_speed c (auto_speed (cl_config c))).

(** [nilfs_cleanerd_dump] only writes to the log. *)
Definition nilfs_cleanerd_handle_signals : MD unit :=
  let* (reload, dump) := os_ask d_take_signals in
  if (reload : bool) then let* _ := attempt (nilfs_cleanerd_reconfig None) in ret tt else ret tt.

(** *** Responses *)

Definition nilfs_cleanerd_respond (req : nilfs_cleaner_request) (rsp : nilfs_cleaner_response)
  : MD unit :=
  let* c := the_cld in
  (if (cl_sendq c <? 0) || negb (bool_decide (cl_client_uuid c = rq_client_uuid req)) then
     (if 0 <=? cl_sendq c then os_do (d_mq_close (cl_sendq c)) else ret tt) ;;
     let* r := attempt (os_call (d_mq_open (rq_client_uuid req))) in
     match r with
     | inl q => update (fun c => with_client_uuid (with_sendq c q) (rq_client_uuid req))
     | inr e => update (fun c => with_sendq c (-1)) ;; fail e
     end
   else ret tt) ;;
  let* c := the_cld in
  os_call (d_mq_send (cl_sendq c) rsp).

Definition ack : nilfs_cleaner_response := mk_response NILFS_CLEANER_RSP_ACK 0 0 0.
Definition nack (err : Z) : nilfs_cleaner_response := mk_response NILFS_CLEANER_RSP_NACK 0 err 0.

Definition nilfs_cleanerd_nak (req : nilfs_cleaner_request) (errcode : Z) : MD unit :=
  nilfs_cleanerd_respond req (nack errcode).

(** *** Commands *)

Definition nilfs_cleanerd_cmd_getstat (req : nilfs_cleaner_request) : MD unit :=
  let* c := the_cld in
  let status := if cl_running c =? 0 then NILFS_CLEANER_STATUS_IDLE
                else if 0 <? cl_running c then NILFS_CLEANER_STATUS_RUNNING
                else NILFS_CLEANER_STATUS_SUSPENDED in
  nilfs_cleanerd_respond req (mk_response NILFS_CLEANER_RSP_ACK status 0 0).

Definition valid (a : nilfs_cleaner_args) (bit : Z) : bool := Z.testbit (ar_valid a) bit.

(** The parameters of a manual run are stored one by one, so that a bad one
    leaves those before it changed. *)
Definition run_protection_period (a : nilfs_cleaner_args) : MD unit :=
  if valid a NILFS_CLEANER_ARG_PROTECTION_PERIOD then
    if ULONG_MAX <? ar_protection_period a then fail EINVAL
    else update (fun c => with_mm_protection_period c (mk_timespec (i64 (ar_protection_period a)) 0))
  else update (fun c => with_mm_protection_period c (cf_protection_period (cl_config c))).

Definition set_mm_ncleansegs (c : nilfs_cleanerd) (n : Z) : nilfs_cleanerd :=
  with_mm_speed c (mk_speed n (sp_cleaning_interval (cl_mm_speed c)) (sp_min_reclaimable_blocks (cl_mm_speed c))).
Definition set_mm_interval (c : nilfs_cleanerd) (ts : timespec) : nilfs_cleanerd :=
  with_mm_speed c (mk_speed (sp_ncleansegs (cl_mm_speed c)) ts (sp_min_reclaimable_blocks (cl_mm_speed c))).
Definition set_mm_min_blocks (c : nilfs_cleanerd) (n : Z) : nilfs_cleanerd :=
  with_mm_speed c (mk_speed (sp_ncleansegs (cl_mm_speed c)) (sp_cleaning_interval (cl_mm_speed c)) n).

Definition run_ncleansegs (a : nilfs_cleaner_args) : MD unit :=
  if valid a NILFS_CLEANER_ARG_NSEGMENTS_PER_CLEAN then
    if (ar_nsegments_per_clean a =? 0) || (NSEGMENTS_PER_CLEAN_MAX <? ar_nsegments_per_clean a)
    then fail EINVAL
    else update (fun c => set_mm_ncleansegs c (ar_nsegments_per_clean a))
  else update (fun c => set_mm_ncleansegs c (sp_ncleansegs (cl_speed c))).

Definition run_cleaning_interval (a : nilfs_cleaner_args) : MD unit :=
  if valid a NILFS_CLEANER_ARG_CLEANING_INTERVAL
  then update (fun c => set_mm_interval c (mk_timespec (ar_cleaning_interval a) (ar_cleaning_interval_nsec a)))
  else update (fun c => set_mm_interval c (sp_cleaning_interval (cl_speed c))).

Definition run_min_reclaimable_blocks (a : nilfs_cleaner_args) : MD unit :=
  if valid a NILFS_CLEANER_ARG_MIN_RECLAIMABLE_BLOCKS then
    let* bps := lib nilfs_get_blocks_per_segment in
    let mrb := ar_min_reclaimable_blocks a in
    if ar_min_reclaimable_blocks_unit a =? 0 then
      if bps <? mrb then fail EINVAL else update (fun c => set_mm_min_blocks c mrb)
    else if ar_min_reclaimable_blocks_unit a =? 1 then
      if 100 <? mrb then fail EINVAL
      else update (fun c => set_mm_min_blocks c (u32 (mrb * bps + 99) / 100))
    else fail EINVAL
  else update (fun c => set_mm_min_blocks c (sp_min_reclaimable_blocks (cl_speed c))).

Definition run_npasses (a : nilfs_cleaner_args) : MD unit :=
  if valid a NILFS_CLEANER_ARG_NPASSES then
    if ar_npasses a =? 0 then fail EINVAL
    else update (fun c => with_mm_nrestsegs (with_mm_nrestpasses c (ar_npasses a)) 0)
  else update (fun c => with_mm_nrestsegs (with_mm_nrestpasses c 1) 0).

Definition run_args (msg : list Z) (argsize : Z) : MD unit :=
  if argsize <? sizeof_args then fail EINVAL
  else
    let* a := of_option (decode_args msg) in
    run_protection_period a ;;
    run_ncleansegs a ;;
    run_cleaning_interval a ;;
    run_min_reclaimable_blocks a ;;
    run_npasses a.

Definition nilfs_cleanerd_cmd_run (req : nilfs_cleaner_request) (msg : list Z) (argsize : Z) : MD unit :=
  let* r := attempt (run_args msg argsize) in
  match r with
  | inl _ =>
    update (fun c => let c := nilfs_cleanerd_manual_run c in with_jobid c (u64 (cl_jobid c + 1))) ;;
    let* c := the_cld in
    nilfs_cleanerd_respond req (mk_response NILFS_CLEANER_RSP_ACK 0 0 (u32 (cl_jobid c)))
  | inr e => nilfs_cleanerd_respond req (nack e)
  end.

Definition nilfs_cleanerd_cmd_suspend (req : nilfs_cleaner_request) : MD unit :=
  update (fun c => if cl_running c =? -1 then c else nilfs_cleanerd_manual_suspend c) ;;
  nilfs_cleanerd_respond req ack.

Definition nilfs_cleanerd_cmd_resume (req : nilfs_cleaner_request) : MD unit :=
  update (fun c => if cl_running c =? -1 then nilfs_cleanerd_manual_resume c else c) ;;
  nilfs_cleanerd_respond req ack.

Definition nilfs_cleanerd_cmd_tune (req : nilfs_cleaner_request) : MD unit :=
  nilfs_cleanerd_nak req EOPNOTSUPP.
Definition nilfs_cleanerd_cmd_wait (req : nilfs_cleaner_request) : MD unit :=
  nilfs_cleanerd_nak req EOPNOTSUPP.

(** The path must end within the message; none means the default. *)
Definition nilfs_cleanerd_cmd_reload (req : nilfs_cleaner_request) (msg : list Z) (argsize : Z) : MD unit :=
  let payload := take (Z.to_nat argsize) (drop (Z.to_nat sizeof_request) msg) in
  let path := c_string payload in
  let reload conffile :=
    let* r := attempt (nilfs_cleanerd_reconfig conffile) in
    nilfs_cleanerd_respond req (match r with inl _ => ack | inr e => nack e end) in
  if (argsize =? 0) || ((argsize =? 1) && (char_at payload =? 0)) then reload None
  else if Z.of_nat (length path) <? argsize then reload (Some path)
  else nilfs_cleanerd_respond req (nack EINVAL).

Definition nilfs_cleanerd_cmd_stop (req : nilfs_cleaner_request) : MD unit :=
  update (fun c => if (cl_running c =? 2) || (cl_running c =? -1)
                   then nilfs_cleanerd_manual_stop c else c) ;;
  nilfs_cleanerd_respond req ack.

Definition nilfs_cleanerd_cmd_shutdown (req : nilfs_cleaner_request) : MD unit :=
  update (fun c => with_shutdown c true) ;;
  nilfs_cleanerd_respond req ack.

Definition nilfs_cleanerd_handle_message (msg : list Z) : MD unit :=
  let bytes := Z.of_nat (length msg) in
  if bytes <? sizeof_request then lib errno_now
  else
    let* req := of_option (decode_request msg) in
    if bytes <? sizeof_request + rq_argsize req then lib errno_now
    else
      let argsize := bytes - sizeof_request in
      let cmd := rq_cmd req in
      if cmd =? NILFS_CLEANER_CMD_GET_STATUS then nilfs_cleanerd_cmd_getstat req
      else if cmd =? NILFS_CLEANER_CMD_RUN then nilfs_cleanerd_cmd_run req msg argsize
      else if cmd =? NILFS_CLEANER_CMD_SUSPEND then nilfs_cleanerd_cmd_suspend req
      else if cmd =? NILFS_CLEANER_CMD_RESUME then nilfs_cleanerd_cmd_resume req
      else if cmd =? NILFS_CLEANER_CMD_TUNE then nilfs_cleanerd_cmd_tune req
      else if cmd =? NILFS_CLEANER_CMD_RELOAD then nilfs_cleanerd_cmd_reload req msg argsize
      else if cmd =? NILFS_CLEANER_CMD_WAIT then nilfs_cleanerd_cmd_wait req
      else if cmd =? NILFS_CLEANER_CMD_STOP then nilfs_cleanerd_cmd_stop req
      else if cmd =? NILFS_CLEANER_CMD_SHUTDOWN then nilfs_cleanerd_cmd_shutdown req
      else nilfs_cleanerd_nak req EINVAL.

(** Interrupted or empty-handed, the daemon goes on; the result of handling a
    message is not looked at. *)
Definition nilfs_cleanerd_wait : MD unit :=
  let* c := the_cld in
  let* r := attempt (os_call (d_ppoll (cl_timeout c))) in
  match r with
  | inr e => if e =? EINTR then ret tt else fail e
  | inl false => ret tt
  | inl true =>
    let* r := attempt (os_call d_mq_receive) in
    match r with
    | inr e => if (e =? EINTR) || (e =? EAGAIN) then ret tt else fail e
    | inl msg => let* _ := attempt (nilfs_cleanerd_handle_message msg) in ret tt
    end
  end.

(** *** Whether to clean *)

Definition nilfs_get_reserved_segments (nsegs : Z) : MD Z :=
  let* ratio := lib nilfs_get_reserved_segments_ratio in
  ret (Z.max (u64 (nsegs * ratio + 99) / 100) NILFS_MIN_NRSVSEGS).

(** [true]: sleep. *)
Definition nilfs_cleanerd_handle_clean_check (sustat : nilfs_sustat) : MD bool :=
  let* r_segments := nilfs_get_reserved_segments (ss_nsegs sustat) in
  let* c := the_cld in
  let config := cl_config c in
  let short := ss_ncleansegs sustat <? u64 (cf_min_clean_segments config + r_segments) in
  let set_speed := update (fun c => with_speed c (if short then mc_speed config else auto_speed config)) in
  if (cl_running c =? 1)
     && (u64 (cf_max_clean_segments config + r_segments) <? ss_ncleansegs sustat)
  then update nilfs_cleanerd_clean_check_pause ;; ret true
  else if cl_running c =? 0 then
    if short then update nilfs_cleanerd_clean_check_resume ;; set_speed ;; ret false
    else ret true
  else set_speed ;; ret false.

(** The loop over the segments.  It counts on the ioctl to report at least
    one segment at a time. *)
Fixpoint count_inuse_loop (n : nat) (nsegs segnum rest nfound : Z) : MD Z :=
  match n with
  | O => out_of_fuel
  | Datatypes.S n' =>
    if (0 <? rest) && (segnum <? nsegs) then
      let* sis := lib (nilfs_get_suinfo segnum (Z.min rest NILFS_CLEANERD_NSUINFO)) in
      let found := Z.of_nat (length (filter (fun si => Is_true (nilfs_suinfo_reclaimable si)) sis)) in
      count_inuse_loop n' nsegs (u64 (segnum + Z.of_nat (length sis))) (u64 (rest - found)) (nfound + found)
    else ret nfound
  end.

Definition nilfs_cleanerd_count_inuse_segments (sustat : nilfs_sustat) : MD Z :=
  count_inuse_loop (Datatypes.S (Z.to_nat (ss_nsegs sustat))) (ss_nsegs sustat) 0 (ss_nsegs sustat) 0.

Definition nilfs_cleanerd_handle_manual_mode (sustat : nilfs_sustat) : MD unit :=
  let* c := the_cld in
  (if (cl_mm_nrestsegs c =? 0) && (0 <? cl_mm_nrestpasses c) then
     let* r := attempt (nilfs_cleanerd_count_inuse_segments sustat) in
     match r with
     | inr _ => update (fun c => with_mm_nrestpasses c 0)
     | inl n => update (fun c => with_mm_nrestsegs (with_mm_nrestpasses c (cl_mm_nrestpasses c - 1)) n)
     end
   else ret tt) ;;
  update (fun c => if (cl_mm_nrestpasses c =? 0) && (cl_mm_nrestsegs c =? 0)
                   then nilfs_cleanerd_manual_end c else c).

(** [true]: sleep. *)
Definition nilfs_cleanerd_check_state (sustat : nilfs_sustat) : MD bool :=
  let* c := the_cld in
  if cl_running c <? 0 then ret true
  else
    (if cl_running c =? 2 then nilfs_cleanerd_handle_manual_mode sustat else ret tt) ;;
    let* c := the_cld in
    let* sleep := (if (cl_running c <? 2) && nilfs_cleanerd_automatic_suspend c
                   then nilfs_cleanerd_handle_clean_check sustat else ret false) in
    if (sleep : bool) then ret true
    else
      let* c := the_cld in
      if cl_running c =? 0 then
        if negb (ss_nongc_ctime sustat =? cl_prev_nongc_ctime c)
        then update (fun c => with_prev_nongc_ctime (with_running c 1) (ss_nongc_ctime sustat)) ;; ret false
        else ret true
      else ret false.

(** *** Selecting segments *)

(** [si.sui_lastmod < oldest] compares as unsigned numbers. *)
Definition older_of (oldest : Z) (si : nilfs_suinfo) : Z :=
  if nilfs_suinfo_reclaimable si && (sui_lastmod si <? u64 oldest) then i64 (sui_lastmod si) else oldest.

(** The first pass: the oldest modification time.  An error makes the code
    destroy a vector it has not created. *)
Fixpoint oldest_loop (n : nat) (nsegs segnum oldest : Z) : MD Z :=
  match n with
  | O => out_of_fuel
  | Datatypes.S n' =>
    if segnum <? nsegs then
      let* r := attempt (lib (nilfs_get_suinfo segnum (Z.min (nsegs - segnum) NILFS_CLEANERD_NSUINFO))) in
      match r with
      | inr _ => abort
      | inl [] => ret oldest
      | inl sis =>
        oldest_loop n' nsegs (u64 (segnum + Z.of_nat (length sis))) (foldl older_of oldest sis)
      end
    else ret oldest
  end.

Abbreviation candv := (nilfs_vector nilfs_segment_candidate).

(** One segment: a new candidate, which is removed again if the policy
    rejects the segment. *)
Definition evaluate_one (sustat : nilfs_sustat) (now prottime segnum : Z) (si : nilfs_suinfo) (v : candv)
  : MD candv :=
  if negb (nilfs_suinfo_reclaimable si) then ret v
  else
    let* (i, v) := nilfs_vector_get_new_element junk_cand v in
    let* cand := of_option (read_cell v i) in
    let* e := cns_call (pl_evaluate policy policy_data sustat si segnum now prottime cand) in
    match e with
    | Some c => ret (write_cell v i (fun _ => c))
    | None =>
      let* r := attempt (nilfs_vector_delete_element v (u64 (nilfs_vector_get_size v - 1))) in
      ret (match r with inl v' => v' | inr _ => v end)
    end.

Fixpoint evaluate_buffer (sustat : nilfs_sustat) (now prottime segnum : Z) (sis : list nilfs_suinfo) (v : candv)
  : MD candv :=
  match sis with
  | [] => ret v
  | si :: sis' =>
    let* v := evaluate_one sustat now prottime segnum si v in
    evaluate_buffer sustat now prottime (segnum + 1) sis' v
  end.

Fixpoint evaluate_loop (n : nat) (sustat : nilfs_sustat) (now prottime segnum oldest : Z) (v : candv)
  : MD (Z * candv) :=
  match n with
  | O => out_of_fuel
  | Datatypes.S n' =>
    if segnum <? ss_nsegs sustat then
      let* sis := lib (nilfs_get_suinfo segnum
                         (Z.min (ss_nsegs sustat - segnum) NILFS_CLEANERD_NSUINFO)) in
      match sis with
      | [] => ret (oldest, v)
      | _ =>
        let* v := evaluate_buffer sustat now prottime segnum sis v in
        evaluate_loop n' sustat now prottime (u64 (segnum + Z.of_nat (length sis)))
          (foldl older_of oldest sis) v
      end
    else ret (oldest, v)
  end.

Definition NSELECT : Z := 2.

(** The segments, the start of the protected period and the oldest time. *)
Definition nilfs_cleanerd_select_segments (sustat : nilfs_sustat) : MD (list Z * Z * Z) :=
  let* r := attempt (os_call (k_clock_gettime CLOCK_REALTIME)) in
  match r with
  | inr _ => abort
  | inl ts =>
    let* c := the_cld in
    let ts2 := timespecsub ts (nilfs_cleanerd_protection_period c) in
    let now := tv_sec ts in
    let prottime := tv_sec ts2 in
    let n := Datatypes.S (Z.to_nat (ss_nsegs sustat)) in
    let* oldest := oldest_loop n (ss_nsegs sustat) 0 NILFS_CLEANERD_NULLTIME in
    match pl_select policy with
    | Some select =>
      let* segnums := cns_call (select policy_data sustat now prottime) in
      ret (segnums, prottime, oldest)
    | None =>
      let* v := nilfs_vector_create junk_cand sizeof_candidate in
      let* (oldest, v) := evaluate_loop n sustat now prottime 0 oldest v in
      let v := nilfs_vector_sort (pl_compare policy) v in
      let nssegs := Z.min (nilfs_vector_get_size v) NSELECT in
      ret (cd_segnum <$> take (Z.to_nat nssegs) (elems v), prottime, oldest)
    end
  end.

(** *** Cleaning *)

(** [i] runs over the array; a protected or scrapped segment ends the search. *)
Fixpoint nilfs_segments_still_reclaimable (segnumv : list Z) (protseq : Z) : MD bool :=
  match segnumv with
  | [] => ret false
  | segnum :: segnumv' =>
    let* r := attempt (lib (nilfs_get_suinfo segnum 1)) in
    let protected :=
      let* r := attempt (cns_call (gc_call (nilfs_segment_is_protected segnum protseq))) in
      match r with
      | inl true => ret true
      | _ => nilfs_segments_still_reclaimable segnumv' protseq
      end in
    match r with
    | inl [si] =>
      if negb (nilfs_suinfo_reclaimable si) then nilfs_segments_still_reclaimable segnumv' protseq
      else if nilfs_suinfo_empty si then ret true
      else protected
    | _ => protected
    end
  end.

(** Only if freezing succeeds the file system is thawed. *)
Definition nilfs_shrink_protected_region : MD bool :=
  let* _ := attempt (lib nilfs_sync) in
  let* r := attempt (lib (nilfs_freeze ;; nilfs_thaw)) in
  ret (match r with inl _ => true | inr _ => false end).

(** [nilfs_xreclaim_segment] on the selected segments, with statistics that
    start at zero. *)
Definition reclaim (segnums : list Z) (params : nilfs_reclaim_params) : MD (list Z * nilfs_reclaim_stat) :=
  fun s =>
    let c := d_cns s in
    let '(r, g) := nilfs_xreclaim_segment (Z.of_nat (length segnums)) false params
                     (mk_gcs (cn_sys c) segnums (Some zero_stat) no_vector no_vector no_vector no_vector no_vector) in
    (match r with
     | Ok _ => Ok (g_segnums g, default zero_stat (g_stat g))
     | Err e => Err e | Abort => Abort | Exit st => Exit st | NoFuel => NoFuel
     end, mk_ds (mk_cns (g_sys g) (cn_map c) tt) (d_cld s)).

Definition cleaned (c : nilfs_cleanerd) (n : Z) : nilfs_cleanerd :=
  with_retry_cleaning (with_fallback (nilfs_cleanerd_progress c (i32 n)) false) false.

Definition nothing_cleaned (segnums : list Z) (protseq : Z) : MD unit :=
  let* c := the_cld in
  let* again :=
    (if cl_retry_cleaning c then ret false
     else
       let* still := nilfs_segments_still_reclaimable segnums protseq in
       if (still : bool) then nilfs_shrink_protected_region else ret false) in
  update (fun c => with_retry_cleaning c again).

(** The number of segments done. *)
Definition nilfs_cleanerd_clean_segments (segnums : list Z) (protseq : Z) : MD Z :=
  let* c := the_cld in
  let* protcno := cns_call (nilfs_cnormap_track_back junk_span fuel
                              (u64 (tv_sec (nilfs_cleanerd_protection_period c)))) in
  let params := mk_params 7 (nilfs_cleanerd_min_reclaimable_blocks c) protseq protcno in
  let* r := attempt (reclaim segnums params) in
  match r with
  | inr e =>
    if e =? ENOMEM
    then update (fun c => with_fallback (nilfs_cleanerd_reduce_ncleansegs_for_retry c) true) ;; ret 0
    else fail e
  | inl (segnums, stat) =>
    (if 0 <? rs_cleaned_segs stat then update (fun c => cleaned c (rs_cleaned_segs stat)) else ret tt) ;;
    (if 0 <? rs_deferred_segs stat then
       update (fun c => let c := cleaned c (rs_deferred_segs stat) in
                        if rs_cleaned_segs stat =? 0 then with_no_timeout c true else c)
     else ret tt) ;;
    let ndone := u64 (rs_cleaned_segs stat + rs_deferred_segs stat) in
    (if ndone =? 0 then nothing_cleaned segnums protseq else ret tt) ;;
    ret ndone
  end.

(** *** The time to sleep *)

(** Nothing was cleaned: wait until the oldest segment leaves the protected
    period, but at least for the check interval. *)
Definition idle_timeout (c : nilfs_cleanerd) (pt : timespec) : nilfs_cleanerd :=
  with_timeout c (if timespec_lt pt (check_interval c) then check_interval c else pt).

Definition nilfs_cleanerd_recalc_interval (nchosen ndone prottime oldest : Z) : MD unit :=
  let* c := the_cld in
  if (nchosen =? 0) || (negb (cl_fallback c) && (ndone =? 0) && negb (cl_retry_cleaning c)) then
    if cl_running c =? 2 then update nilfs_cleanerd_manual_end
    else if oldest =? NILFS_CLEANERD_NULLTIME then
      update (fun c =>
        let c := if negb (cl_running c =? 0) then with_running c 0 else c in
        idle_timeout c (nilfs_cleanerd_protection_period c))
    else
      let* curr := os_call (k_clock_gettime CLOCK_REALTIME) in
      let tgt := Z.min oldest (tv_sec curr) in
      let pt := mk_timespec (if prottime <? tgt then i64 (tgt - prottime + 1) else 1) 0 in
      update (fun c => idle_timeout c pt)
  else
    let* curr := os_call (k_clock_gettime CLOCK_MONOTONIC) in
    if cl_fallback c then
      let target := timespecadd curr (cf_retry_interval (cl_config c)) in
      update (fun c => with_timeout (with_target c target) (timespecsub target curr))
    else
      let interval := nilfs_cleanerd_cleaning_interval c in
      if negb (timespec_lt curr (cl_target c)) || cl_no_timeout c then
        update (fun c => with_target (with_timeout c zero_timespec) (timespecadd curr interval))
      else
        update (fun c => with_target (with_timeout c (timespecsub (cl_target c) curr))
                           (timespecadd (cl_target c) interval)).

Definition nilfs_cleanerd_init_interval : MD unit :=
  let* curr := os_call (k_clock_gettime CLOCK_MONOTONIC) in
  update (fun c => with_target c (timespecadd curr (cf_cleaning_interval (cl_config c)))).

(** *** The utilization log

    What the log holds is left out; opening it, and assessing every segment
    for it, is not. *)
Fixpoint log_segments (n : nat) (segnum : Z) (sustat : nilfs_sustat) (protcno : Z) : MD unit :=
  match n with
  | O => ret tt
  | Datatypes.S n' =>
    let* _ := attempt (cns_call (gc_call (assess_segment_if_dirty sustat segnum protcno))) in
    log_segments n' (segnum + 1) sustat protcno
  end.

Definition nilfs_workload_logger : MD unit :=
  let* opened := os_ask d_log_open in
  if negb opened then ret tt
  else
    let* opened := os_ask d_log_open in
    if negb opened then ret tt
    else
      let* nsegments := lib nilfs_get_nsegments in
      let* _ := lib nilfs_get_blocks_per_segment in
      let* r := attempt (cns_call (track_back junk_span 0)) in
      match r with
      | inr _ => ret tt
      | inl protcno =>
        let* r := attempt (lib nilfs_get_sustat) in
        match r with
        | inr _ => ret tt
        | inl sustat =>
          let* ok := os_ask d_statvfs in
          if negb ok then ret tt else log_segments (Z.to_nat nsegments) 0 sustat protcno
        end
      end.

(** *** The main loop *)

(** [prottime] and [oldest] keep their values from one round to the next. *)
Definition clean_round (prottime oldest : Z) (sustat : nilfs_sustat) : MD (Z * Z) :=
  let* (segnums, prottime, oldest) := nilfs_cleanerd_select_segments sustat in
  nilfs_workload_logger ;;
  let* ndone :=
    (match segnums with
     | [] => update (fun c => with_retry_cleaning c false) ;; ret 0
     | _ => nilfs_cleanerd_clean_segments segnums (ss_prot_seq sustat)
     end) in
  nilfs_cleanerd_recalc_interval (Z.of_nat (length segnums)) ndone prottime oldest ;;
  ret (prottime, oldest).

Definition loop_body (prottime oldest : Z) : MD (Z * Z) :=
  update (fun c => with_no_timeout c false) ;;
  os_call d_sigprocmask ;;
  nilfs_cleanerd_handle_signals ;;
  let* sustat := lib nilfs_get_sustat in
  let* sleep := nilfs_cleanerd_check_state sustat in
  let* times := (if (sleep : bool) then ret (prottime, oldest) else clean_round prottime oldest sustat) in
  os_call d_sigprocmask ;;
  nilfs_cleanerd_wait ;;
  ret times.

(** [rounds] bounds the number of rounds; the daemon runs until a client shuts
    it down. *)
Fixpoint main_loop (rounds : nat) (prottime oldest : Z) : MD unit :=
  match rounds with
  | O => out_of_fuel
  | Datatypes.S rounds' =>
    let* c := the_cld in
    if cl_shutdown c then ret tt
    else
      let* (prottime, oldest) := loop_body prottime oldest in
      main_loop rounds' prottime oldest
  end.

Definition start (c : nilfs_cleanerd) : nilfs_cleanerd :=
  with_retry_cleaning (with_fallback (with_running c 1) false) false.

(** SIGTERM, SIGINT, SIGHUP, SIGUSR1, SIGUSR2. *)
Definition nilfs_cleanerd_init_signal_handlers : MD unit :=
  os_call d_sigaction ;; os_call d_sigaction ;; os_call d_sigaction ;; os_call d_sigaction ;;
  os_call d_sigaction.

Definition nilfs_cleanerd_clean_loop (rounds : nat) : MD unit :=
  os_call d_sigprocmask ;;
  nilfs_cleanerd_init_signal_handlers ;;
  let* _ := os_ask d_take_signals in
  update start ;;
  nilfs_cleanerd_init_interval ;;
  update (fun c => let c := with_speed c (auto_speed (cl_config c)) in
                   if nilfs_cleanerd_automatic_suspend c then nilfs_cleanerd_clean_check_pause c else c) ;;
  main_loop rounds 0 0.
End Cleanerd.
#[export] Existing Instance ds_alloc.
