(* ===== verification/CleanerdSpec.v ===== *)
(** * What the cleaner daemon guarantees

    An invariant of the daemon's members that every step keeps, whatever the
    kernel, the clients and the configuration file do; the mode as a state
    machine driven by the commands; the thresholds of the automatic mode; and
    the sleeping time. *)

From Stdlib Require Import String.
From S2P Require Import Prelude Vector Ondisk Crc32 Sb Kernel Nilfs Segment Gc Cnormap Float64 Policy Parser Cldconfig Cleanerd.

(** ** The invariant *)

Definition mode_ok (r : Z) : Prop := r = -1 \/ r = 0 \/ r = 1 \/ r = 2.

(** At most 32 segments are cleaned per cycle: the size of the daemon's array. *)
Record cld_ok (c : nilfs_cleanerd) : Prop := {
  ok_config : config_ok (cl_config c);
  ok_running : mode_ok (cl_running c);
  ok_ncleansegs : 0 <= sp_ncleansegs (cl_speed c) <= NSEGMENTS_PER_CLEAN_MAX;
  ok_mm_ncleansegs : 0 <= sp_ncleansegs (cl_mm_speed c) <= NSEGMENTS_PER_CLEAN_MAX;
  ok_nrestpasses : 0 <= cl_mm_nrestpasses c < 2 ^ 16;
  ok_nrestsegs : 0 <= cl_mm_nrestsegs c;
}.

Section Invariant.
Context {W : Type} {K : Kernel W} {J : Junk} {D : DaemonOs W} (junk_span : nilfs_cpspan)
  (junk_cand : nilfs_segment_candidate) (fuel : nat) (policy : nilfs_cleaning_policy (W:=W))
  (policy_data protection_period : Z).
Abbreviation MD := (M (ds W)).

(** [m] keeps the invariant however it ends, and if it succeeds its result
    satisfies [Q]. *)
Definition safe {A} (Q : A -> Prop) (m : MD A) : Prop :=
  forall s, cld_ok (d_cld s) ->
    cld_ok (d_cld (m s).2) /\ match m s with (Ok a, _) => Q a | _ => True end.

Abbreviation any := (fun _ => True).

Lemma safe_ret {A} (Q : A -> Prop) a : Q a -> safe Q (ret a).
Proof using. by intros ? s Hs. Qed.

Lemma safe_fail {A} (Q : A -> Prop) e : safe Q (fail e).
Proof using. by intros s Hs. Qed.

Lemma safe_abort {A} (Q : A -> Prop) : safe Q abort.
Proof using. by intros s Hs. Qed.

Lemma safe_out_of_fuel {A} (Q : A -> Prop) : safe Q out_of_fuel.
Proof using. by intros s Hs. Qed.

Lemma safe_of_option {A} (o : option A) : safe any (of_option o).
Proof using. by destruct o; intros s Hs. Qed.

Lemma safe_bind {A B} (P : A -> Prop) (Q : B -> Prop) (m : MD A) (k : A -> MD B) :
  safe P m -> (forall a, P a -> safe Q (k a)) -> safe Q (bind m k).
Proof using.
  intros Hm Hk s Hs. destruct (Hm s Hs) as [H1 H2]. unfold bind.
  destruct (m s) as [[a| | | |] s']; simpl in *; try done. by apply Hk.
Qed.

Lemma safe_attempt {A} (m : MD A) (P : A -> Prop) :
  safe P m -> safe (fun r => match r with inl a => P a | inr _ => True end) (attempt m).
Proof using.
  intros Hm s Hs. destruct (Hm s Hs) as [H1 H2]. unfold attempt.
  by destruct (m s) as [[a| | | |] s'].
Qed.

Lemma safe_weaken {A} (P Q : A -> Prop) (m : MD A) : (forall a, P a -> Q a) -> safe P m -> safe Q m.
Proof using.
  intros HPQ Hm s Hs. destruct (Hm s Hs) as [H1 H2]. split; [done|].
  destruct (m s) as [[a| | | |] s']; auto.
Qed.

Lemma safe_the_cld : safe cld_ok the_cld.
Proof using. by intros s Hs. Qed.

Lemma safe_update f : (forall c, cld_ok c -> cld_ok (f c)) -> safe any (update f).
Proof using. intros Hf s Hs. split; [by apply Hf|done]. Qed.

Lemma safe_cns_call {A} (m : M (cns W unit) A) : safe any (cns_call m).
Proof using. intros s Hs. unfold cns_call. destruct (m (d_cns s)) as [[] ?]; done. Qed.

Lemma safe_lib {A} (m : M (sys W) A) : safe any (lib m).
Proof using. apply safe_cns_call. Qed.

Lemma safe_os_call {A} (f : W -> (A + Z) * W) : safe any (os_call f).
Proof using. apply safe_cns_call. Qed.

Lemma safe_os_ask {A} (f : W -> A * W) : safe any (os_ask f).
Proof using. apply safe_cns_call. Qed.

Lemma safe_os_do f : safe any (os_do f).
Proof using. apply safe_cns_call. Qed.

Lemma safe_malloc n : safe any (m_malloc (S:=ds W) n).
Proof using.
  intros s Hs. unfold m_malloc, malloc, ds_alloc. by destruct (malloc n (d_cns s)) as [[] ?].
Qed.
End Invariant.

Create HintDb safe.
#[export] Hint Resolve safe_fail safe_abort safe_out_of_fuel safe_of_option safe_the_cld safe_cns_call
  safe_lib safe_os_call safe_os_ask safe_os_do safe_malloc : safe.

(** [safe_step]: one step of a computation, by the rules above. *)
Ltac safe_step :=
  lazymatch goal with
  | |- safe _ (ret _) => apply safe_ret; try done
  | |- safe _ (update _) => apply safe_update
  | |- safe _ (bind (attempt _) _) => eapply safe_bind; [apply (safe_attempt _ (fun _ => True))|]
  | |- safe _ (bind the_cld _) => eapply safe_bind; [apply safe_the_cld|]
  | |- safe _ (bind _ _) => eapply (safe_bind (fun _ => True))
  | |- safe _ (if ?b then _ else _) => destruct b
  | |- safe _ (match ?x with _ => _ end) => destruct x
  | |- forall _, _ => intros ?
  | |- safe _ _ => solve [eauto with safe]
  end.
Ltac safe_run := repeat safe_step.

(** *** Changes of single members *)

(** [keep_ok]: the members the invariant speaks of are unchanged, or the ones
    that changed are in range. *)
Ltac keep_ok :=
  match goal with
  | H : cld_ok ?c |- cld_ok _ => destruct H; split; cbn; unfold mode_ok in *; try done; try lia
  end.

Lemma ok_speed c sp : cld_ok c -> 0 <= sp_ncleansegs sp <= NSEGMENTS_PER_CLEAN_MAX -> cld_ok (with_speed c sp).
Proof. intros. keep_ok. Qed.

Lemma ok_halve sp : 0 <= sp_ncleansegs sp <= NSEGMENTS_PER_CLEAN_MAX ->
  0 <= sp_ncleansegs (halve_ncleansegs sp) <= NSEGMENTS_PER_CLEAN_MAX.
Proof.
  unfold NSEGMENTS_PER_CLEAN_MAX, halve_ncleansegs. intros. case_if; [|done]. simpl.
  rewrite Z.shiftr_div_pow2 by lia. change (2 ^ 1) with 2.
  split; [apply Z.div_pos; lia|]. apply Z.div_le_upper_bound; lia.
Qed.

Lemma ok_reduce c : cld_ok c -> cld_ok (nilfs_cleanerd_reduce_ncleansegs_for_retry c).
Proof.
  intros Hc. pose proof (ok_halve _ (ok_ncleansegs c Hc)). pose proof (ok_halve _ (ok_mm_ncleansegs c Hc)).
  unfold nilfs_cleanerd_reduce_ncleansegs_for_retry. case_if; keep_ok.
Qed.

Lemma ok_progress c n : cld_ok c -> cld_ok (nilfs_cleanerd_progress c n).
Proof. intros. unfold nilfs_cleanerd_progress. case_if; keep_ok. Qed.

Lemma ok_cleaned c n : cld_ok c -> cld_ok (cleaned c n).
Proof. intros Hc. unfold cleaned. apply (ok_progress _ (i32 n)) in Hc. keep_ok. Qed.

Lemma config_speed c : config_ok c ->
  0 <= sp_ncleansegs (auto_speed c) <= NSEGMENTS_PER_CLEAN_MAX /\
  0 <= sp_ncleansegs (mc_speed c) <= NSEGMENTS_PER_CLEAN_MAX.
Proof. by intros (? & ? & _). Qed.

(** A message consists of bytes. *)
Definition bytes_received (W : Type) {D : DaemonOs W} : Prop :=
  forall w msg w', d_mq_receive w = (inl msg, w') -> Forall is_u8 msg.

Section Steps.
Context {W : Type} {K : Kernel W} {J : Junk} {D : DaemonOs W} (junk_span : nilfs_cpspan)
  (junk_cand : nilfs_segment_candidate) (fuel : nat) (policy : nilfs_cleaning_policy (W:=W))
  (policy_data protection_period : Z).
Abbreviation any := (fun _ => True).

Lemma safe_config conffile : safe any (nilfs_cleanerd_config (W:=W) protection_period conffile).
Proof using.
  unfold nilfs_cleanerd_config. safe_step. intros c Hc. safe_step; [auto with safe|]. intros [is_reg content] _.
  eapply (safe_bind config_ok).
  { intros s Hs. unfold lib, cns_call, lib_call.
    destruct (nilfs_cldconfig_read is_reg content (cn_sys (d_cns s))) as [r sy] eqn:Hr.
    destruct r; try done. apply cldconfig_read_good in Hr as [_ Hr]. done. }
  intros config Hconf. safe_run; keep_ok.
Qed.

Lemma safe_reconfig conffile : safe any (nilfs_cleanerd_reconfig (W:=W) protection_period conffile).
Proof using.
  unfold nilfs_cleanerd_reconfig. safe_step; [apply safe_config|]. intros _ _. apply safe_update.
  intros c Hc. apply ok_speed; [done|]. apply config_speed, Hc.
Qed.

Lemma safe_respond req rsp : safe any (nilfs_cleanerd_respond (W:=W) req rsp).
Proof using. unfold nilfs_cleanerd_respond. safe_run; keep_ok. Qed.

Lemma decode_args_range msg a : Forall is_u8 msg -> decode_args msg = Some a ->
  0 <= ar_nsegments_per_clean a /\ 0 <= ar_npasses a < 2 ^ 16.
Proof using.
  intros Hmsg. unfold decode_args. intros H. repeat (apply bind_Some in H as (? & ? & H)).
  injection H as <-. simpl. change (2 ^ 16) with (256 ^ 2).
  split; [eapply (rd_le_range 2)|eapply (rd_le_range 2)]; try eassumption; lia.
Qed.

Lemma safe_run_args msg argsize : Forall is_u8 msg -> safe any (run_args (W:=W) msg argsize).
Proof using.
  intros Hmsg. unfold run_args. safe_step; [auto with safe|].
  eapply (safe_bind (fun a => 0 <= ar_nsegments_per_clean a /\ 0 <= ar_npasses a < 2 ^ 16)).
  { destruct (decode_args msg) as [a|] eqn:Ha; [|auto with safe]. apply safe_ret. by eapply decode_args_range. }
  intros a [Hn Hp].
  unfold run_protection_period, run_ncleansegs, run_cleaning_interval, run_min_reclaimable_blocks, run_npasses,
    set_mm_ncleansegs, set_mm_interval, set_mm_min_blocks.
  destruct (Z.eqb_spec (ar_nsegments_per_clean a) 0), (Z.ltb_spec NSEGMENTS_PER_CLEAN_MAX (ar_nsegments_per_clean a)),
    (Z.eqb_spec (ar_npasses a) 0); cbn [orb]; safe_run; keep_ok.
Qed.

Lemma safe_handle_message msg : Forall is_u8 msg -> safe any (nilfs_cleanerd_handle_message (W:=W) protection_period msg).
Proof using.
  intros Hmsg. pose proof safe_respond. pose proof safe_reconfig.
  pose proof (fun n => safe_run_args msg n Hmsg).
  unfold nilfs_cleanerd_handle_message, nilfs_cleanerd_cmd_getstat, nilfs_cleanerd_cmd_run,
    nilfs_cleanerd_cmd_suspend, nilfs_cleanerd_cmd_resume, nilfs_cleanerd_cmd_tune, nilfs_cleanerd_cmd_reload,
    nilfs_cleanerd_cmd_wait, nilfs_cleanerd_cmd_stop, nilfs_cleanerd_cmd_shutdown, nilfs_cleanerd_nak.
  safe_run; try (repeat case_if); try done; keep_ok.
Qed.

Lemma safe_wait : bytes_received W -> safe any (nilfs_cleanerd_wait (W:=W) protection_period).
Proof using.
  intros Hbytes. unfold nilfs_cleanerd_wait. do 4 safe_step; [auto with safe|]. intros [[|]|e] _; [|by safe_run..].
  eapply safe_bind; [apply (safe_attempt _ (Forall is_u8))|].
  - intros s Hs. unfold os_call, lib, cns_call, lib_call, os.
    destruct (d_mq_receive (s_world (cn_sys (d_cns s)))) as [[msg|e] w] eqn:Hr; [|done].
    split; [done|]. by eapply Hbytes.
  - intros [msg|e] Hmsg; [|by safe_run]. pose proof (safe_handle_message msg Hmsg). safe_run.
Qed.

Lemma safe_handle_signals : safe any (nilfs_cleanerd_handle_signals (W:=W) protection_period).
Proof using. pose proof safe_reconfig. unfold nilfs_cleanerd_handle_signals. safe_run. Qed.

Lemma safe_clean_check sustat : safe any (nilfs_cleanerd_handle_clean_check (W:=W) sustat).
Proof using.
  unfold nilfs_cleanerd_handle_clean_check, nilfs_get_reserved_segments. safe_step; [by safe_run|].
  intros r _. safe_step. intros c Hc. destruct (config_speed _ (ok_config c Hc)) as [Ha Hm].
  safe_run; try (apply ok_speed; [done|by case_if]); keep_ok.
Qed.

(** Calls of the library leave the members alone. *)
Definition members_kept {A} (m : M (ds W) A) : Prop := forall s, d_cld (m s).2 = d_cld s.

Lemma kept_lib {A} (m : M (sys W) A) : members_kept (lib m).
Proof using.
  intros s. unfold lib, cns_call, lib_call. by destruct (m (cn_sys (d_cns s))) as [[] ?].
Qed.

Lemma kept_bind {A B} (m : M (ds W) A) (k : A -> M (ds W) B) :
  members_kept m -> (forall a, members_kept (k a)) -> members_kept (bind m k).
Proof using.
  intros Hm Hk s. specialize (Hm s). unfold bind. destruct (m s) as [[a| | | |] s']; try done.
  simpl in Hm. by rewrite Hk.
Qed.

Lemma count_inuse_kept n : forall nsegs segnum rest nfound,
  members_kept (count_inuse_loop (W:=W) n nsegs segnum rest nfound).
Proof using.
  induction n as [|n IH]; intros; cbn [count_inuse_loop]; [done|]. case_if; [|done].
  apply kept_bind; [apply kept_lib|]. intros; apply IH.
Qed.

Lemma count_inuse_nonneg n : forall nsegs segnum rest nfound s k s', 0 <= nfound ->
  count_inuse_loop (W:=W) n nsegs segnum rest nfound s = (Ok k, s') -> 0 <= k.
Proof using.
  induction n as [|n IH]; intros nsegs segnum rest nfound s k s' Hn H; cbn [count_inuse_loop] in H; [done|].
  destruct (_ && _); [|by injection H as <- _]. inv_bind H. eapply IH; [|exact H]. lia.
Qed.

Lemma safe_manual_mode sustat : safe any (nilfs_cleanerd_handle_manual_mode (W:=W) sustat).
Proof using.
  intros s Hs. split; [|by destruct (nilfs_cleanerd_handle_manual_mode sustat s) as [[] ?]].
  assert (Hend : forall c, cld_ok c -> cld_ok (if (cl_mm_nrestpasses c =? 0) && (cl_mm_nrestsegs c =? 0)
                                               then nilfs_cleanerd_manual_end c else c))
    by (intros c Hc; case_if; [keep_ok|done]).
  unfold nilfs_cleanerd_handle_manual_mode, the_cld. rewrite bind_gets.
  destruct ((cl_mm_nrestsegs (d_cld s) =? 0) && (0 <? cl_mm_nrestpasses (d_cld s))) eqn:Hc;
    [|by apply Hend].
  assert (Hpos : 0 < cl_mm_nrestpasses (d_cld s)) by lia.
  pose proof (count_inuse_kept (Datatypes.S (Z.to_nat (ss_nsegs sustat))) (ss_nsegs sustat) 0
                (ss_nsegs sustat) 0 s) as Hkept.
  rewrite bind_assoc. unfold attempt, bind, nilfs_cleanerd_count_inuse_segments.
  destruct (count_inuse_loop _ _ _ _ _ s) as [[k|e| | |] s'] eqn:Hr; simpl in Hkept |- *; try by rewrite Hkept.
  - apply (Hend (with_mm_nrestsegs (with_mm_nrestpasses (d_cld s') (cl_mm_nrestpasses (d_cld s') - 1)) k)).
    rewrite Hkept. apply count_inuse_nonneg in Hr; [|lia]. keep_ok.
  - apply (Hend (with_mm_nrestpasses (d_cld s') 0)). rewrite Hkept. keep_ok.
Qed.

Lemma safe_check_state sustat : safe any (nilfs_cleanerd_check_state (W:=W) sustat).
Proof using.
  pose proof (safe_manual_mode sustat). pose proof (safe_clean_check sustat).
  unfold nilfs_cleanerd_check_state. safe_run; keep_ok.
Qed.

Lemma safe_reclaim segnums params : safe any (reclaim (W:=W) segnums params).
Proof using.
  intros s Hs. unfold reclaim. destruct (nilfs_xreclaim_segment _ _ _ _) as [[] g]; done.
Qed.

Lemma safe_still_reclaimable segnums protseq :
  safe any (nilfs_segments_still_reclaimable (W:=W) segnums protseq).
Proof using.
  induction segnums as [|x segnums IH]; cbn [nilfs_segments_still_reclaimable]; safe_run.
Qed.

Lemma safe_clean_segments segnums protseq :
  safe any (nilfs_cleanerd_clean_segments (W:=W) junk_span fuel segnums protseq).
Proof using.
  pose proof safe_still_reclaimable. pose proof safe_reclaim. pose proof ok_cleaned. pose proof ok_reduce.
  unfold nilfs_cleanerd_clean_segments, nothing_cleaned, nilfs_shrink_protected_region.
  safe_run; try (repeat case_if).
  all: try match goal with
           | H : cld_ok ?c |- cld_ok (with_fallback (nilfs_cleanerd_reduce_ncleansegs_for_retry _) _) =>
             apply ok_reduce in H; keep_ok
           | H : cld_ok ?c |- cld_ok (with_no_timeout (cleaned _ ?n) _) => apply (ok_cleaned _ n) in H; keep_ok
           end; auto; keep_ok.
Qed.

Lemma safe_recalc nchosen ndone prottime oldest :
  safe any (nilfs_cleanerd_recalc_interval (W:=W) nchosen ndone prottime oldest).
Proof using.
  unfold nilfs_cleanerd_recalc_interval, idle_timeout. safe_run; try case_if; keep_ok.
Qed.

Lemma safe_vector_enlarge (v : nilfs_vector nilfs_segment_candidate) n :
  safe any (nilfs_vector_enlarge (S:=ds W) junk_cand v n).
Proof using.
  unfold nilfs_vector_enlarge. eapply (safe_bind (fun _ => True)); [|by safe_run].
  intros s Hs. by destruct (enlarge_loop _ _ _ _).
Qed.

Lemma safe_delete_element (v : nilfs_vector nilfs_segment_candidate) i :
  safe any (nilfs_vector_delete_element (S:=ds W) v i).
Proof using. unfold nilfs_vector_delete_element, nilfs_vector_delete_elements. safe_run. Qed.

Lemma safe_evaluate_one sustat now prottime segnum si v :
  safe any (evaluate_one (W:=W) junk_cand policy policy_data sustat now prottime segnum si v).
Proof using.
  pose proof safe_vector_enlarge. pose proof safe_delete_element.
  unfold evaluate_one, nilfs_vector_get_new_element. safe_run.
Qed.

Lemma safe_evaluate_buffer sustat now prottime sis : forall segnum v,
  safe any (evaluate_buffer (W:=W) junk_cand policy policy_data sustat now prottime segnum sis v).
Proof using.
  pose proof safe_evaluate_one.
  induction sis as [|si sis IH]; intros segnum v; cbn [evaluate_buffer]; safe_run.
Qed.

Lemma safe_evaluate_loop n sustat now prottime : forall segnum oldest v,
  safe any (evaluate_loop (W:=W) junk_cand policy policy_data n sustat now prottime segnum oldest v).
Proof using.
  pose proof safe_evaluate_buffer.
  induction n as [|n IH]; intros segnum oldest v; cbn [evaluate_loop]; safe_run.
Qed.

Lemma safe_oldest_loop n : forall nsegs segnum oldest, safe any (oldest_loop (W:=W) n nsegs segnum oldest).
Proof using.
  induction n as [|n IH]; intros nsegs segnum oldest; cbn [oldest_loop]; safe_run.
Qed.

Lemma safe_vector_create : safe any (nilfs_vector_create (S:=ds W) junk_cand sizeof_candidate).
Proof using. unfold nilfs_vector_create. safe_run. Qed.

Lemma safe_select_segments sustat :
  safe any (nilfs_cleanerd_select_segments (W:=W) junk_cand policy policy_data sustat).
Proof using.
  pose proof safe_oldest_loop. pose proof safe_evaluate_loop. pose proof safe_vector_create.
  unfold nilfs_cleanerd_select_segments. safe_run.
Qed.

Lemma safe_log_segments n sustat protcno : forall segnum, safe any (log_segments (W:=W) n segnum sustat protcno).
Proof using. induction n as [|n IH]; intros segnum; cbn [log_segments]; safe_run. Qed.

Lemma safe_workload_logger : safe any (nilfs_workload_logger (W:=W) junk_span).
Proof using. pose proof safe_log_segments. unfold nilfs_workload_logger. safe_run. Qed.

Hypothesis Hbytes : bytes_received W.

Lemma safe_clean_round prottime oldest sustat :
  safe any (clean_round (W:=W) junk_span junk_cand fuel policy policy_data prottime oldest sustat).
Proof using.
  pose proof safe_select_segments. pose proof safe_workload_logger. pose proof safe_clean_segments.
  pose proof safe_recalc. unfold clean_round. safe_run. keep_ok.
Qed.

Lemma safe_loop_body prottime oldest :
  safe any (loop_body (W:=W) junk_span junk_cand fuel policy policy_data protection_period prottime oldest).
Proof using Hbytes.
  pose proof safe_clean_round. pose proof (safe_wait Hbytes). pose proof safe_handle_signals.
  pose proof safe_check_state. unfold loop_body. safe_run. keep_ok.
Qed.

Lemma safe_main_loop rounds : forall prottime oldest,
  safe any (main_loop (W:=W) junk_span junk_cand fuel policy policy_data protection_period rounds prottime oldest).
Proof using Hbytes.
  pose proof safe_loop_body. induction rounds as [|rounds IH]; intros; cbn [main_loop]; safe_run.
Qed.

(** C24: whatever the kernel reports, the clients send and the configuration
    file holds, after any number of rounds the daemon is in one of its four
    modes, its configuration is a good one, and it is set to clean at most 32
    segments per cycle, the capacity of its array, in automatic and in manual
    mode. *)
Theorem daemon_invariant (rounds : nat) (s : ds W) :
  config_ok (cl_config (d_cld s)) ->
  0 <= sp_ncleansegs (cl_mm_speed (d_cld s)) <= NSEGMENTS_PER_CLEAN_MAX ->
  0 <= cl_mm_nrestpasses (d_cld s) < 2 ^ 16 -> 0 <= cl_mm_nrestsegs (d_cld s) ->
  0 <= sp_ncleansegs (cl_speed (d_cld s)) <= NSEGMENTS_PER_CLEAN_MAX -> mode_ok (cl_running (d_cld s)) ->
  cld_ok (d_cld (nilfs_cleanerd_clean_loop junk_span junk_cand fuel policy policy_data protection_period rounds s).2).
Proof using Hbytes.
  intros H1 H2 H3 H4 H5 H6.
  assert (Hsafe : safe any (nilfs_cleanerd_clean_loop (W:=W) junk_span junk_cand fuel policy policy_data
                              protection_period rounds)); [|by apply Hsafe; split].
  pose proof safe_main_loop. unfold nilfs_cleanerd_clean_loop, nilfs_cleanerd_init_signal_handlers,
    nilfs_cleanerd_init_interval, start.
  safe_run; try (apply (config_speed _ (ok_config _ ltac:(eassumption))) || idtac).
  all: match goal with H : cld_ok ?c |- _ => pose proof (config_speed _ (ok_config _ H)) as [? ?] end.
  all: try case_if; keep_ok.
Qed.
End Steps.

(** ** The mode as a state machine *)

Section Mode.
Context {W : Type} {K : Kernel W} {J : Junk} {D : DaemonOs W} (protection_period : Z).

(** [m] leaves the member [f] alone, however it ends. *)
Definition keeps_on {X A} (f : nilfs_cleanerd -> X) (m : M (ds W) A) : Prop :=
  forall s, f (d_cld (m s).2) = f (d_cld s).

Section Rules.
Context {X : Type} (f : nilfs_cleanerd -> X).

Lemma keeps_on_bind {A B} (m : M (ds W) A) (k : A -> M (ds W) B) :
  keeps_on f m -> (forall a, keeps_on f (k a)) -> keeps_on f (bind m k).
Proof using.
  intros Hm Hk s. specialize (Hm s). unfold bind. destruct (m s) as [[a| | | |] s']; try done.
  by rewrite Hk.
Qed.

Lemma keeps_on_attempt {A} (m : M (ds W) A) : keeps_on f m -> keeps_on f (attempt m).
Proof using. intros Hm s. specialize (Hm s). unfold attempt. by destruct (m s) as [[] ?]. Qed.

Lemma keeps_on_cns_call {A} (m : M (cns W unit) A) : keeps_on f (cns_call m).
Proof using. intros s. unfold cns_call. by destruct (m (d_cns s)) as [[] ?]. Qed.

Lemma keeps_on_update g : (forall c, f (g c) = f c) -> keeps_on f (update g).
Proof using. intros Hg s. apply Hg. Qed.

Lemma keeps_on_of_option {A} (o : option A) : keeps_on f (of_option o).
Proof using. by destruct o. Qed.
End Rules.

Ltac keeps_step :=
  lazymatch goal with
  | |- keeps_on _ (ret _) => done
  | |- keeps_on _ (fail _) => done
  | |- keeps_on _ (of_option _) => apply keeps_on_of_option
  | |- keeps_on _ the_cld => done
  | |- keeps_on _ (update _) => apply keeps_on_update; try done
  | |- keeps_on _ (attempt _) => apply keeps_on_attempt
  | |- keeps_on _ (bind _ _) => apply keeps_on_bind
  | |- keeps_on _ (if ?b then _ else _) => destruct b
  | |- keeps_on _ (match ?x with _ => _ end) => destruct x
  | |- forall _, _ => intros ?
  | |- keeps_on _ _ => solve [auto | apply keeps_on_cns_call]
  end.

Lemma respond_keeps {X} (f : nilfs_cleanerd -> X) req rsp :
  (forall c q u, f (with_client_uuid (with_sendq c q) u) = f c) -> (forall c q, f (with_sendq c q) = f c) ->
  keeps_on f (nilfs_cleanerd_respond (W:=W) req rsp).
Proof using. intros H1 H2. unfold nilfs_cleanerd_respond. repeat keeps_step; auto. Qed.

Lemma reconfig_keeps_mode conffile :
  keeps_on cl_running (nilfs_cleanerd_reconfig (W:=W) protection_period conffile).
Proof using. unfold nilfs_cleanerd_reconfig, nilfs_cleanerd_config. repeat keeps_step. Qed.

Lemma run_args_keeps_mode msg argsize : keeps_on cl_running (run_args (W:=W) msg argsize).
Proof using.
  unfold run_args, run_protection_period, run_ncleansegs, run_cleaning_interval, run_min_reclaimable_blocks,
    run_npasses. repeat keeps_step.
Qed.

(** The mode after a command: [args_ok] says whether the arguments of a run
    command were accepted. *)
Definition mode_after (cmd : Z) (args_ok : bool) (mode : Z) : Z :=
  if cmd =? NILFS_CLEANER_CMD_RUN then if args_ok then 2 else mode
  else if cmd =? NILFS_CLEANER_CMD_SUSPEND then -1
  else if cmd =? NILFS_CLEANER_CMD_RESUME then if mode =? -1 then 0 else mode
  else if cmd =? NILFS_CLEANER_CMD_STOP then if (mode =? 2) || (mode =? -1) then 0 else mode
  else mode.

Definition run_accepted (msg : list Z) (s : ds W) : bool :=
  match (run_args msg (Z.of_nat (length msg) - sizeof_request) s).1 with Ok _ => true | _ => false end.

(** A step that sets the mode and then responds. *)
Lemma update_then_respond g req rsp (s : ds W) :
  cl_running (d_cld ((update g ;; nilfs_cleanerd_respond req rsp) s).2) = cl_running (g (d_cld s)).
Proof using. unfold update. rewrite bind_modify. by rewrite (respond_keeps cl_running). Qed.

Lemma cmd_run_mode req msg argsize (s : ds W) :
  cl_running (d_cld (nilfs_cleanerd_cmd_run req msg argsize s).2) =
    match (run_args msg argsize s).1 with Ok _ => 2 | _ => cl_running (d_cld s) end.
Proof using.
  pose proof (run_args_keeps_mode msg argsize s) as Hk. unfold nilfs_cleanerd_cmd_run.
  unfold attempt, bind at 1. destruct (run_args msg argsize s) as [[u|e| | |] s'] eqn:Hr; simpl in Hk |- *; try done.
  - unfold update, the_cld. rewrite bind_modify, bind_gets. by rewrite (respond_keeps cl_running).
  - by rewrite (respond_keeps cl_running).
Qed.

(** C25: a command of a client changes the mode exactly as the state machine
    [mode_after] says, even when the response cannot be sent: run starts a
    manual run if its arguments are good, suspend suspends, resume and stop
    lead back to idle, and no other command touches the mode. *)
Theorem command_mode (msg : list Z) (req : nilfs_cleaner_request) (s : ds W) :
  decode_request msg = Some req -> sizeof_request + rq_argsize req <= Z.of_nat (length msg) ->
  0 <= rq_argsize req ->
  cl_running (d_cld (nilfs_cleanerd_handle_message protection_period msg s).2) =
    mode_after (rq_cmd req) (run_accepted msg s) (cl_running (d_cld s)).
Proof using.
  intros Hreq Hlen Harg. unfold nilfs_cleanerd_handle_message. unfold sizeof_request in *.
  destruct (Z.ltb_spec (Z.of_nat (length msg)) 24); [lia|]. rewrite Hreq, bind_some.
  destruct (Z.ltb_spec (Z.of_nat (length msg)) (24 + rq_argsize req)); [lia|].
  unfold mode_after, run_accepted, NILFS_CLEANER_CMD_GET_STATUS, NILFS_CLEANER_CMD_RUN, NILFS_CLEANER_CMD_SUSPEND,
    NILFS_CLEANER_CMD_RESUME, NILFS_CLEANER_CMD_TUNE, NILFS_CLEANER_CMD_RELOAD, NILFS_CLEANER_CMD_WAIT,
    NILFS_CLEANER_CMD_STOP, NILFS_CLEANER_CMD_SHUTDOWN in *.
  destruct (Z.eqb_spec (rq_cmd req) 0) as [->|]; [by apply (respond_keeps cl_running)|].
  destruct (Z.eqb_spec (rq_cmd req) 1) as [_|].
  { rewrite cmd_run_mode. unfold sizeof_request. by destruct (run_args _ _ _) as [[] ?]. }
  destruct (Z.eqb_spec (rq_cmd req) 2) as [_|].
  { unfold nilfs_cleanerd_cmd_suspend. rewrite update_then_respond. by case_if. }
  destruct (Z.eqb_spec (rq_cmd req) 3) as [_|].
  { unfold nilfs_cleanerd_cmd_resume. rewrite update_then_respond. by case_if. }
  destruct (Z.eqb_spec (rq_cmd req) 4) as [->|]; [by apply (respond_keeps cl_running)|].
  destruct (Z.eqb_spec (rq_cmd req) 5) as [->|].
  { unfold nilfs_cleanerd_cmd_reload. pose proof reconfig_keeps_mode.
    pose proof (fun q r => respond_keeps cl_running q r (fun _ _ _ => eq_refl) (fun _ _ => eq_refl)).
    match goal with |- cl_running (d_cld (?m s).2) = _ => assert (Hm : keeps_on cl_running m) end;
      [repeat keeps_step|exact (Hm s)]. }
  destruct (Z.eqb_spec (rq_cmd req) 6) as [->|]; [by apply (respond_keeps cl_running)|].
  destruct (Z.eqb_spec (rq_cmd req) 7) as [_|].
  { unfold nilfs_cleanerd_cmd_stop. rewrite update_then_respond. by case_if. }
  destruct (Z.eqb_spec (rq_cmd req) 8) as [_|].
  { unfold nilfs_cleanerd_cmd_shutdown. by rewrite update_then_respond. }
  by apply (respond_keeps cl_running).
Qed.
End Mode.

(** ** When the daemon cleans *)

Section Check.
Context {W : Type} {K : Kernel W} {J : Junk} {D : DaemonOs W}.

(** With automatic suspension the daemon cleans with hysteresis.  Below
    the lower threshold it cleans, at the higher speed; above the upper one
    it sleeps; in between it goes on with what it was doing, at the normal
    speed.  The reserved segments count on top of both thresholds. *)
Theorem clean_check_hysteresis (s : ds W) (sustat : nilfs_sustat) (reserved : Z) :
  let c := d_cld s in let config := cl_config c in
  let low := cf_min_clean_segments config + reserved in
  let high := cf_max_clean_segments config + reserved in
  nilfs_get_reserved_segments (ss_nsegs sustat) s = (Ok reserved, s) ->
  cl_running c = 0 \/ cl_running c = 1 -> 0 <= low <= high -> high < 2 ^ 64 ->
  nilfs_cleanerd_handle_clean_check sustat s =
    if ss_ncleansegs sustat <? low
    then (Ok false, mk_ds (d_cns s) (with_speed (with_running c 1) (mc_speed config)))
    else if high <? ss_ncleansegs sustat
    then (Ok true, mk_ds (d_cns s) (if cl_running c =? 1 then nilfs_cleanerd_clean_check_pause c else c))
    else if cl_running c =? 0 then (Ok true, s)
    else (Ok false, mk_ds (d_cns s) (with_speed c (auto_speed config))).
Proof using.
  intros c config low high Hr Hrun Hlow Hhigh. unfold nilfs_cleanerd_handle_clean_check.
  rewrite (bind_ok _ _ _ _ _ Hr). unfold the_cld. rewrite bind_gets. fold c config.
  rewrite !u64_id by (unfold is_u64, low, high in *; lia). fold low high.
  destruct (Z.ltb_spec (ss_ncleansegs sustat) low), (Z.ltb_spec high (ss_ncleansegs sustat)); try lia.
  all: unfold update; destruct Hrun as [Hm|Hm]; rewrite Hm; cbn [Z.eqb andb Pos.eqb].
  all: rewrite ?bind_modify; try done.
  - unfold ret. do 2 f_equal. rewrite <- Hm. subst c. by destruct (d_cld s).
  - unfold ret. subst c. by destruct s.
Qed.

(** A suspended daemon sleeps and stays suspended; nothing but a message
    of a client changes that. *)
Theorem suspended_sleeps (s : ds W) (sustat : nilfs_sustat) :
  cl_running (d_cld s) = -1 -> nilfs_cleanerd_check_state sustat s = (Ok true, s).
Proof using. intros Hm. unfold nilfs_cleanerd_check_state, the_cld. rewrite bind_gets, Hm. done. Qed.
End Check.

(** ** Times as numbers of nanoseconds *)

Definition ns (t : timespec) : Z := tv_sec t * NSEC_PER_SEC + tv_nsec t.

(** A normalised time that is far from overflow. *)
Definition ts_ok (t : timespec) : Prop :=
  - 2 ^ 61 <= tv_sec t <= 2 ^ 61 /\ 0 <= tv_nsec t < NSEC_PER_SEC.

Lemma ns_add a b : ts_ok a -> ts_ok b ->
  ns (timespecadd a b) = ns a + ns b /\ 0 <= tv_nsec (timespecadd a b) < NSEC_PER_SEC.
Proof.
  unfold ts_ok, ns, timespecadd, NSEC_PER_SEC. intros Ha Hb.
  rewrite (i64_id (tv_nsec a + tv_nsec b)), (i64_id (tv_sec a + tv_sec b)) by (unfold is_i64; lia).
  case_if; simpl; [rewrite i64_id by (unfold is_i64; lia)|]; lia.
Qed.

Lemma ns_sub a b : ts_ok a -> ts_ok b ->
  ns (timespecsub a b) = ns a - ns b /\ 0 <= tv_nsec (timespecsub a b) < NSEC_PER_SEC.
Proof.
  unfold ts_ok, ns, timespecsub, NSEC_PER_SEC. intros Ha Hb.
  rewrite (i64_id (tv_nsec a - tv_nsec b)), (i64_id (tv_sec a - tv_sec b)) by (unfold is_i64; lia).
  case_if; simpl; [rewrite i64_id by (unfold is_i64; lia)|]; lia.
Qed.

Lemma ns_lt a b : 0 <= tv_nsec a < NSEC_PER_SEC -> 0 <= tv_nsec b < NSEC_PER_SEC ->
  timespec_lt a b = (ns a <? ns b).
Proof. unfold ns, timespec_lt, NSEC_PER_SEC. intros. case_if; lia. Qed.

Lemma timespecadd_ok a b : ts_ok a -> 0 <= tv_sec b <= 2 ^ 59 -> 0 <= tv_sec a <= 2 ^ 59 ->
  0 <= tv_nsec b < NSEC_PER_SEC -> ts_ok (timespecadd a b).
Proof.
  unfold ts_ok, timespecadd, NSEC_PER_SEC. intros Ha Hb Hc Hd.
  rewrite (i64_id (tv_nsec a + tv_nsec b)), (i64_id (tv_sec a + tv_sec b)) by (unfold is_i64; lia).
  case_if; simpl; [rewrite i64_id by (unfold is_i64; lia)|]; lia.
Qed.

Section Interval.
Context {W : Type} {K : Kernel W} {J : Junk} {D : DaemonOs W}.

(** A time that can be on a clock or in a configuration. *)
Definition ts_small (t : timespec) : Prop := 0 <= tv_sec t <= 2 ^ 59 /\ 0 <= tv_nsec t < NSEC_PER_SEC.

Lemma ts_small_ok t : ts_small t -> ts_ok t.
Proof using. unfold ts_small, ts_ok. lia. Qed.

(** C28: after a round in which segments were cleaned the daemon sleeps until
    its target time, or not at all if that has passed, and the next target
    is one interval later; after a shortage of memory it sleeps for the retry
    interval.  Computed exactly, in nanoseconds. *)
Theorem recalc_interval_spec (s : ds W) (nchosen ndone prottime oldest : Z) (curr : timespec) (w : W) :
  let c := d_cld s in
  let interval := nilfs_cleanerd_cleaning_interval c in
  0 < nchosen -> 0 < ndone \/ cl_fallback c = true ->
  k_clock_gettime CLOCK_MONOTONIC (s_world (cn_sys (d_cns s))) = (inl curr, w) ->
  ts_small curr -> ts_small interval -> ts_small (cl_target c) -> ts_small (cf_retry_interval (cl_config c)) ->
  let r := nilfs_cleanerd_recalc_interval nchosen ndone prottime oldest s in
  let c' := d_cld r.2 in
  r.1 = Ok tt /\
    if cl_fallback c then
      ns (cl_timeout c') = ns (cf_retry_interval (cl_config c)) /\
      ns (cl_target c') = ns curr + ns (cf_retry_interval (cl_config c))
    else if (ns (cl_target c) <=? ns curr) || cl_no_timeout c then
      ns (cl_timeout c') = 0 /\ ns (cl_target c') = ns curr + ns interval
    else
      ns (cl_timeout c') = ns (cl_target c) - ns curr /\ 0 < ns (cl_timeout c') /\
      ns (cl_target c') = ns (cl_target c) + ns interval.
Proof using.
  intros c interval Hch Hdone Hclk Hcurr Hint Htgt Hretry.
  apply ts_small_ok in Hcurr as Hcurr', Hint as Hint', Htgt as Htgt', Hretry as Hretry'.
  intros r c'. subst r c'. unfold nilfs_cleanerd_recalc_interval, the_cld. rewrite bind_gets. fold c.
  destruct (Z.eqb_spec nchosen 0); [lia|]. cbn [orb].
  assert (Hcond : negb (cl_fallback c) && (ndone =? 0) && negb (cl_retry_cleaning c) = false).
  { destruct Hdone as [Hd| ->]; [|done]. destruct (Z.eqb_spec ndone 0); [lia|]. by rewrite andb_false_r. }
  rewrite Hcond.
  assert (Hcall : os_call (k_clock_gettime CLOCK_MONOTONIC) s =
    (Ok curr, mk_ds (mk_cns (mk_sys (s_nilfs (cn_sys (d_cns s))) w) (cn_map (d_cns s)) (cn_ctx (d_cns s))) c)).
  { unfold os_call, lib, cns_call, lib_call, os. by rewrite Hclk. }
  rewrite (bind_ok _ _ _ _ _ Hcall).
  destruct (cl_fallback c) eqn:Hf.
  - split_and!; [done|cbn|cbn].
    + destruct (ns_sub (timespecadd curr (cf_retry_interval (cl_config c))) curr) as [-> _]; [|done|].
      { apply timespecadd_ok; [done|apply Hretry|apply Hcurr|apply Hretry]. }
      destruct (ns_add curr (cf_retry_interval (cl_config c))) as [-> _]; [done|done|]. lia.
    + by destruct (ns_add curr (cf_retry_interval (cl_config c))) as [-> _].
  - rewrite ns_lt by (apply Hcurr || apply Htgt).
    replace (negb (ns curr <? ns (cl_target c))) with (ns (cl_target c) <=? ns curr) by lia.
    destruct ((ns (cl_target c) <=? ns curr) || cl_no_timeout c) eqn:Hn.
    + split_and!; [done|done|]. exact (proj1 (ns_add curr interval Hcurr' Hint')).
    + destruct (ns_sub (cl_target c) curr) as [Hs _]; [done|done|].
      apply orb_false_iff in Hn as [Hn _].
      split_and!; [done|exact Hs|cbn; rewrite Hs; lia|].
      exact (proj1 (ns_add (cl_target c) interval Htgt' Hint')).
Qed.
End Interval.

(** ** Counting the segments of a manual run *)

(** What the ioctl reports: a nonempty piece of the table of segment usage,
    which the call does not change. *)
Class UsageLaws {W : Type} (K : Kernel W) (usage : W -> list nilfs_suinfo) : Prop := {
  suinfo_piece : forall fd n index w, 0 < n -> 0 <= index < Z.of_nat (length (usage w)) ->
    exists (k : nat) w', ioc_get_suinfo fd n index w = (inl (take k (drop (Z.to_nat index) (usage w))), w') /\
      0 < Z.of_nat k <= n /\ usage w' = usage w;
}.

Section Count.
Context {W : Type} {K : Kernel W} {J : Junk} {D : DaemonOs W} (usage : W -> list nilfs_suinfo)
  {L : UsageLaws K usage}.

Definition world_of (s : ds W) : W := s_world (cn_sys (d_cns s)).
Definition nilfs_of (s : ds W) : nilfs := s_nilfs (cn_sys (d_cns s)).

Definition reclaimable_count (l : list nilfs_suinfo) : Z :=
  Z.of_nat (length (filter (fun si => Is_true (nilfs_suinfo_reclaimable si)) l)).

Lemma reclaimable_count_app l k : reclaimable_count (l ++ k) = reclaimable_count l + reclaimable_count k.
Proof using. unfold reclaimable_count. rewrite filter_app, length_app. lia. Qed.

Lemma reclaimable_count_bound l : 0 <= reclaimable_count l <= Z.of_nat (length l).
Proof using. unfold reclaimable_count. pose proof (length_filter (fun si => Is_true (nilfs_suinfo_reclaimable si)) l). lia. Qed.

Lemma take_length_take {A} k (l : list A) : take (length (take k l)) l = take k l.
Proof using. revert k; induction l as [|x l IH]; intros [|k]; simpl; [done..|]. by rewrite IH. Qed.

Lemma lib_suinfo (s : ds W) n index : 0 <= n_iocfd (nilfs_of s) -> 0 < n < 2 ^ 32 ->
  0 <= index < Z.of_nat (length (usage (world_of s))) ->
  exists (k : nat) s', lib (nilfs_get_suinfo index n) s = (Ok (take k (drop (Z.to_nat index) (usage (world_of s)))), s') /\
    (0 < k)%nat /\ usage (world_of s') = usage (world_of s) /\ nilfs_of s' = nilfs_of s /\ d_cld s' = d_cld s.
Proof using L.
  intros Hfd Hn Hi. unfold lib, cns_call, lib_call, nilfs_get_suinfo, with_iocfd, the_nilfs.
  rewrite bind_gets. unfold nilfs_of in Hfd. case_if; [lia|]. rewrite u32_id by (unfold is_u32; lia). unfold os.
  destruct (suinfo_piece (n_iocfd (nilfs_of s)) n index (world_of s)) as (k & w' & Hr & Hk & Hu); [lia|done|].
  unfold nilfs_of, world_of in Hr. rewrite Hr. exists k. eexists. split; [reflexivity|]. simpl. split_and!; [lia|done|done|done].
Qed.

Lemma count_inuse_spec n : forall s segnum nfound,
  let table := usage (world_of s) in let nsegs := Z.of_nat (length table) in
  0 <= n_iocfd (nilfs_of s) -> nsegs < 2 ^ 63 -> 0 <= segnum <= nsegs ->
  nfound = reclaimable_count (take (Z.to_nat segnum) table) -> (Z.to_nat (nsegs - segnum) < n)%nat ->
  exists s', count_inuse_loop n nsegs segnum (nsegs - nfound) nfound s = (Ok (reclaimable_count table), s') /\
    d_cld s' = d_cld s.
Proof using L.
  induction n as [|n IH]; intros s segnum nfound table nsegs Hfd Hmax Hseg Hf Hn; [lia|].
  cbn [count_inuse_loop]. destruct (Z.eq_dec segnum nsegs) as [->|Hne].
  - rewrite Z.ltb_irrefl, andb_false_r. exists s. split; [|done]. subst nfound. unfold ret. do 2 f_equal.
    rewrite take_ge; [done|]. unfold nsegs. lia.
  - pose proof (reclaimable_count_bound (take (Z.to_nat segnum) table)) as Hb. rewrite length_take in Hb.
    rewrite <- Hf in Hb. replace ((0 <? nsegs - nfound) && (segnum <? nsegs)) with true by lia.
    destruct (lib_suinfo s (Z.min (nsegs - nfound) NILFS_CLEANERD_NSUINFO) segnum) as
      (k & s1 & Hr & Hk & Hu & Hnf & Hc); [done|unfold NILFS_CLEANERD_NSUINFO; lia|unfold nsegs, table in *; lia|].
    rewrite (bind_ok _ _ _ _ _ Hr). fold table.
    set (piece := take k (drop (Z.to_nat segnum) table)).
    assert (Hlen : (0 < length piece)%nat /\ (length piece <= length table - Z.to_nat segnum)%nat)
      by (unfold piece; rewrite length_take, length_drop; unfold nsegs in *; lia).
    pose proof (reclaimable_count_bound piece) as Hpb. fold (reclaimable_count piece).
    assert (Hsplit : take (Z.to_nat (segnum + Z.of_nat (length piece))) table = take (Z.to_nat segnum) table ++ piece).
    { rewrite Z2Nat.inj_add, Nat2Z.id by lia. rewrite <- take_take_drop. f_equal. apply take_length_take. }
    rewrite !u64_id by (unfold is_u64; unfold nsegs in *; lia).
    replace (nsegs - nfound - reclaimable_count piece) with (nsegs - (nfound + reclaimable_count piece)) by lia.
    assert (Ht : usage (world_of s1) = table) by done.
    destruct (IH s1 (segnum + Z.of_nat (length piece)) (nfound + reclaimable_count piece)) as (s' & Hrun & Hcld).
    all: rewrite ?Ht; fold nsegs; rewrite ?Hnf; try done; try (unfold nsegs in *; lia).
    + by rewrite Hsplit, reclaimable_count_app, Hf.
    + rewrite Ht in Hrun. exists s'. split; [exact Hrun|]. by rewrite Hcld.
Qed.

(** At the start of a pass of a manual run the daemon counts exactly the
    reclaimable segments of the usage table, and the counting ends: it takes
    no more steps than there are segments. *)
Theorem count_inuse_exact (s : ds W) (sustat : nilfs_sustat) :
  0 <= n_iocfd (nilfs_of s) -> ss_nsegs sustat = Z.of_nat (length (usage (world_of s))) ->
  ss_nsegs sustat < 2 ^ 63 ->
  exists s', nilfs_cleanerd_count_inuse_segments sustat s =
               (Ok (reclaimable_count (usage (world_of s))), s') /\ d_cld s' = d_cld s.
Proof using L.
  intros Hfd Hn Hmax. unfold nilfs_cleanerd_count_inuse_segments. rewrite Hn in *.
  destruct (count_inuse_spec (Datatypes.S (Z.to_nat (Z.of_nat (length (usage (world_of s)))))) s 0 0)
    as (s' & Hrun & Hc); try done; try lia.
  rewrite Z.sub_0_r in Hrun. by exists s'.
Qed.
End Count.

(** ** The generic selection *)

Section Select.
Context {W : Type} {K : Kernel W} {J : Junk} {D : DaemonOs W} (junk_cand : nilfs_segment_candidate)
  (policy : nilfs_cleaning_policy (W:=W)) (policy_data : Z).

(** The kernel answered [si] for segment [seg] within some request. *)
Definition answered (seg : Z) (si : nilfs_suinfo) : Prop :=
  exists base n sys sis sys', nilfs_get_suinfo (W:=W) base n sys = (Ok sis, sys') /\
    sis !! Z.to_nat (seg - base) = Some si /\ base <= seg.

(** The policy puts the number of the segment into its candidate, and the
    ioctl yields no more records than it was asked for. *)
Hypothesis evaluate_segnum : forall sustat si seg now prot cand s c s',
  pl_evaluate policy policy_data sustat si seg now prot cand s = (Ok (Some c), s') -> cd_segnum c = seg.
Hypothesis suinfo_at_most : forall base n sys sis sys', 0 <= n < 2 ^ 32 ->
  nilfs_get_suinfo (W:=W) base n sys = (Ok sis, sys') -> Z.of_nat (length sis) <= n.

(** What the loop over the segments means.  Memory is allocated between the
    questions to the policy. *)
Definition allocs : relation (ds W) := rtc (fun s s' => exists n, s' = (malloc n s).2).

(** The policy is asked about the segments of one answer of the kernel, from
    [seg] on, in their order: about every reclaimable one and no other.  The
    candidates are those it accepted; the states are those of the run. *)
Inductive judged (sustat : nilfs_sustat) (now prot : Z) :
    Z -> list nilfs_suinfo -> ds W -> list nilfs_segment_candidate -> ds W -> Prop :=
| judged_end seg s : judged sustat now prot seg [] s [] s
| judged_pass seg si sis s cs s' : nilfs_suinfo_reclaimable si = false ->
    judged sustat now prot (seg + 1) sis s cs s' -> judged sustat now prot seg (si :: sis) s cs s'
| judged_accept seg si sis s s1 cand c s2 cs s' : nilfs_suinfo_reclaimable si = true -> allocs s s1 ->
    cns_call (pl_evaluate policy policy_data sustat si seg now prot cand) s1 = (Ok (Some c), s2) ->
    judged sustat now prot (seg + 1) sis s2 cs s' -> judged sustat now prot seg (si :: sis) s (c :: cs) s'
| judged_reject seg si sis s s1 cand s2 cs s' : nilfs_suinfo_reclaimable si = true -> allocs s s1 ->
    cns_call (pl_evaluate policy policy_data sustat si seg now prot cand) s1 = (Ok None, s2) ->
    judged sustat now prot (seg + 1) sis s2 cs s' -> judged sustat now prot seg (si :: sis) s cs s'.

(** The kernel is asked about the segments from [seg] on, until all of the file
    system's are seen or it has none to report. *)
Inductive swept (sustat : nilfs_sustat) (now prot : Z) :
    Z -> ds W -> list nilfs_segment_candidate -> ds W -> Prop :=
| swept_all seg s : ss_nsegs sustat <= seg -> swept sustat now prot seg s [] s
| swept_none seg s s' : seg < ss_nsegs sustat ->
    lib (nilfs_get_suinfo seg (Z.min (ss_nsegs sustat - seg) NILFS_CLEANERD_NSUINFO)) s = (Ok [], s') ->
    swept sustat now prot seg s [] s'
| swept_some seg sis s s1 cs s2 cs' s' : seg < ss_nsegs sustat -> sis <> [] ->
    lib (nilfs_get_suinfo seg (Z.min (ss_nsegs sustat - seg) NILFS_CLEANERD_NSUINFO)) s = (Ok sis, s1) ->
    judged sustat now prot seg sis s1 cs s2 ->
    swept sustat now prot (seg + Z.of_nat (length sis)) s2 cs' s' ->
    swept sustat now prot seg s (cs ++ cs') s'.

(** Candidates among the segments from [lo] up to [lim], in ascending order,
    each reported as dirty and neither active nor erroneous. *)
Definition found (lo lim : Z) (cands : list nilfs_segment_candidate) : Prop :=
  StronglySorted Z.lt (cd_segnum <$> cands) /\
  Forall (fun c => lo <= cd_segnum c < lim /\
            exists si, answered (cd_segnum c) si /\ nilfs_suinfo_reclaimable si = true) cands.

Lemma found_mono lo lo' lim lim' cands : lo' <= lo -> lim <= lim' -> found lo lim cands -> found lo' lim' cands.
Proof using.
  intros Hl Hle [H1 H2]. split; [done|]. eapply Forall_impl; [exact H2|].
  simpl. intros c [Hc ?]. split; [lia|done].
Qed.

Lemma found_app lo mid lim cs cs' : lo <= mid <= lim -> found lo mid cs -> found mid lim cs' ->
  found lo lim (cs ++ cs').
Proof using.
  intros Hm Hf Hf'. pose proof Hf as [H1 H2]. pose proof Hf' as [H3 H4]. split.
  - rewrite fmap_app. apply StronglySorted_app_2; [|done|done].
    intros x y Hx Hy. apply list_elem_of_fmap in Hx as (c & -> & Hc). apply list_elem_of_fmap in Hy as (d & -> & Hd).
    rewrite Forall_forall in H2, H4. destruct (H2 c Hc), (H4 d Hd). lia.
  - apply Forall_app. split; [apply (found_mono lo lo mid lim cs)|apply (found_mono mid lo lim lim cs')]; (done || lia).
Qed.

Lemma found_one seg c si : cd_segnum c = seg -> answered seg si -> nilfs_suinfo_reclaimable si = true ->
  found seg (seg + 1) [c].
Proof using.
  intros <- Ha Hr. split; [by repeat constructor|]. repeat constructor; [lia|lia|by exists si].
Qed.

Lemma judged_found sustat now prot seg sis s cs s' : judged sustat now prot seg sis s cs s' ->
  (forall i si, sis !! i = Some si -> answered (seg + Z.of_nat i) si) ->
  found seg (seg + Z.of_nat (length sis)) cs.
Proof using evaluate_segnum.
  induction 1 as [seg s|seg si sis s cs s' Hr _ IH|seg si sis s s1 cand c s2 cs s' Hr _ He _ IH
    |seg si sis s s1 cand s2 cs s' Hr _ _ _ IH]; intros Ha; [by split; constructor|..].
  all: assert (Hrest : found (seg + 1) (seg + 1 + Z.of_nat (length sis)) cs)
    by (apply IH; intros i x Hx; replace (seg + 1 + Z.of_nat i) with (seg + Z.of_nat (Datatypes.S i)) by lia; by apply Ha).
  all: replace (seg + Z.of_nat (length (si :: sis))) with (seg + 1 + Z.of_nat (length sis)) by (simpl; lia).
  - eapply found_mono; [| |exact Hrest]; lia.
  - apply (found_app seg (seg + 1) _ [c] cs); [lia| |done]. apply (found_one seg c si); [| |done].
    + unfold cns_call in He. destruct (pl_evaluate _ _ _ _ _ _ _ _ _) as [r ?] eqn:Hp.
      injection He as -> _. by eapply evaluate_segnum.
    + rewrite <- (Z.add_0_r seg). by apply (Ha 0%nat).
  - eapply found_mono; [| |exact Hrest]; lia.
Qed.

Lemma swept_found sustat now prot seg s cs s' : swept sustat now prot seg s cs s' ->
  0 <= seg -> ss_nsegs sustat < 2 ^ 64 -> found seg (Z.max seg (ss_nsegs sustat)) cs.
Proof using evaluate_segnum suinfo_at_most.
  induction 1 as [seg s Hs|seg s s' Hs Hg|seg sis s s1 cs s2 cs' s' Hs Hne Hg Hj _ IH]; intros H0 Hmax;
    [by split; constructor..|].
  unfold lib, cns_call, lib_call in Hg.
  destruct (nilfs_get_suinfo _ _ (cn_sys (d_cns s))) as [r sy] eqn:Hq. injection Hg as -> _.
  unfold NILFS_CLEANERD_NSUINFO in Hq.
  pose proof (suinfo_at_most seg (Z.min (ss_nsegs sustat - seg) 512) _ _ _ ltac:(lia) Hq) as Hlen.
  apply (found_app seg (seg + Z.of_nat (length sis))); [lia| |].
  - eapply judged_found; [exact Hj|]. intros i x Hi. do 5 eexists. split; [exact Hq|]. split; [|lia].
    by replace (Z.to_nat (seg + Z.of_nat i - seg)) with i by lia.
  - replace (Z.max seg (ss_nsegs sustat)) with (Z.max (seg + Z.of_nat (length sis)) (ss_nsegs sustat)) by lia.
    apply IH; lia.
Qed.

(** *** The vector holds what the policy accepted *)

Lemma read_option {A} (o : option A) (s : ds W) a s' : of_option o s = (Ok a, s') -> s' = s.
Proof using. by destruct o; [intros [= _ <-]|]. Qed.

Lemma malloc_state n (s : ds W) s' : m_malloc n s = (Ok tt, s') -> exists n, s' = (malloc n s).2.
Proof using. unfold m_malloc. intros H. exists n. by destruct (malloc n s) as [[] s1]; injection H. Qed.

Lemma new_element_allocs v s i v' s' :
  nilfs_vector_get_new_element junk_cand v s = (Ok (i, v'), s') -> allocs s s'.
Proof using.
  unfold nilfs_vector_get_new_element. intros H. inv_bind H. injection H as _ _ <-.
  case_if_in Hrun; [|by injection Hrun as _ <-]. unfold nilfs_vector_enlarge in Hrun.
  inv_bind Hrun. apply (f_equal snd) in Hrun0. cbn [snd] in Hrun0. subst s1.
  inv_bind Hrun. apply (f_equal snd) in Hrun. cbn [snd ret] in Hrun. subst s0. destruct a1.
  by eapply rtc_once, malloc_state.
Qed.

Lemma evaluate_one_spec sustat now prot seg si v s v' s' : vec_wf v ->
  evaluate_one (W:=W) junk_cand policy policy_data sustat now prot seg si v s = (Ok v', s') ->
  vec_wf v' /\ exists cs, elems v' = elems v ++ cs /\
    forall sis cs' s'', judged sustat now prot (seg + 1) sis s' cs' s'' ->
      judged sustat now prot seg (si :: sis) s (cs ++ cs') s''.
Proof using.
  intros Hwf H. unfold evaluate_one in H.
  destruct (nilfs_suinfo_reclaimable si) eqn:Hr; cbn [negb] in H.
  2: { injection H as <- <-. split; [done|]. exists []. rewrite app_nil_r. split; [done|]. intros. by apply judged_pass. }
  inv_bind H. destruct a as [i v1]. apply new_element_allocs in Hrun as Hal.
  pose proof (get_new_element_spec junk_cand v s Hwf) as Hnew.
  rewrite Hrun in Hnew. destruct Hnew as (Hw1 & -> & Hn1 & _ & x & Hel).
  pose proof (elems_length v Hwf) as Hlen. pose proof (wf_nelems _ Hwf). pose proof (vec_wf_bounds _ Hw1) as [Hb1 _].
  inv_bind H. apply read_option in Hrun0 as ->. inv_bind H. destruct a0 as [c|].
  - injection H as <- <-. destruct (elems_write_cell v1 (v_nelems v) (fun _ => c) Hw1) as [Hw2 He2]; [lia|].
    split; [done|]. exists [c]. split; [|intros; by eapply judged_accept]. rewrite He2, Hel.
    rewrite alter_app_r_alt by lia. by replace (Z.to_nat (v_nelems v) - length (elems v))%nat with 0%nat by lia.
  - inv_bind H. unfold attempt, nilfs_vector_delete_element, nilfs_vector_get_size in Hrun1.
    rewrite Hn1, u64_id in Hrun1 by (unfold is_u64; lia).
    replace (v_nelems v + 1 - 1) with (v_nelems v) in Hrun1 by lia.
    pose proof (delete_elements_spec v1 (v_nelems v) 1 s1 Hw1 ltac:(lia) ltac:(lia) ltac:(lia)) as Hd.
    replace (_ && _) with true in Hd by (symmetry; rewrite !andb_true_iff, !orb_true_iff, !Z.ltb_lt, Z.leb_le; lia).
    destruct Hd as (v2 & Hd & Hw2 & He2). rewrite Hd in Hrun1. injection Hrun1 as <- <-.
    injection H as <- <-. split; [done|]. exists []. split; [|intros; by eapply judged_reject]. rewrite He2, Hel.
    by rewrite take_app_le, take_ge, drop_ge by (rewrite ?length_app; simpl; lia).
Qed.

Lemma evaluate_buffer_spec sustat now prot sis : forall seg v s v' s', vec_wf v ->
  evaluate_buffer (W:=W) junk_cand policy policy_data sustat now prot seg sis v s = (Ok v', s') ->
  vec_wf v' /\ exists cs, elems v' = elems v ++ cs /\ judged sustat now prot seg sis s cs s'.
Proof using.
  induction sis as [|si sis IH]; intros seg v s v' s' Hwf H.
  { injection H as <- <-. split; [done|]. exists []. rewrite app_nil_r. by split; [|constructor]. }
  cbn [evaluate_buffer] in H. inv_bind H. apply evaluate_one_spec in Hrun as (Hw & cs & He & Hj); [|done].
  apply IH in H as (Hw' & cs' & He' & Hj'); [|done]. split; [done|]. exists (cs ++ cs').
  split; [by rewrite He', He, app_assoc|]. by apply Hj.
Qed.

Lemma evaluate_loop_spec n sustat now prot : forall seg oldest v s oldest' v' s',
  0 <= seg <= ss_nsegs sustat -> ss_nsegs sustat < 2 ^ 64 -> vec_wf v ->
  evaluate_loop (W:=W) junk_cand policy policy_data n sustat now prot seg oldest v s = (Ok (oldest', v'), s') ->
  vec_wf v' /\ exists cs, elems v' = elems v ++ cs /\ swept sustat now prot seg s cs s'.
Proof using suinfo_at_most.
  induction n as [|n IH]; intros seg oldest v s oldest' v' s' Hseg Hmax Hwf H; cbn [evaluate_loop] in H; [done|].
  case_if_in H; [|injection H as _ <- <-; split; [done|]; exists []; rewrite app_nil_r; by split; [|apply swept_all]].
  inv_bind H. pose proof Hrun as Hg. unfold lib, cns_call, lib_call in Hrun.
  destruct (nilfs_get_suinfo _ _ (cn_sys (d_cns s))) as [r sy] eqn:Hq. injection Hrun as -> _.
  unfold NILFS_CLEANERD_NSUINFO in Hq.
  pose proof (suinfo_at_most seg (Z.min (ss_nsegs sustat - seg) 512) _ _ _ ltac:(lia) Hq) as Hlen.
  destruct a as [|si sis].
  { injection H as _ <- <-. split; [done|]. exists []. rewrite app_nil_r. by split; [|apply swept_none]. }
  inv_bind H. apply evaluate_buffer_spec in Hrun as (Hw & cs & He & Hj); [|done].
  rewrite u64_id in H by (unfold is_u64; lia). apply IH in H as (Hw' & cs' & He' & Hs'); [|lia|done|done].
  split; [done|]. exists (cs ++ cs'). split; [by rewrite He', He, app_assoc|]. (eapply (swept_some _ _ _ _ (si :: sis)); [lia|done|exact Hg|exact Hj|exact Hs']).
Qed.

(** C30: without a selection of its own, a policy gets the best two of the
    candidates it accepted, by its own order: the daemon asks the kernel about
    every segment of the file system, up to the first empty answer, and the
    policy, with the time of the clock and that time less the protection
    period, about every segment reported as dirty and neither active nor
    erroneous, in ascending order and about no other; the candidates are
    exactly those it accepts, and the two best ones are what the daemon cleans.
    The policy must put the number of the segment into its candidate, and the
    ioctl must report no more segments than it was asked for. *)
Theorem generic_selection (s : ds W) (sustat : nilfs_sustat) :
  pl_select policy = None -> 0 <= ss_nsegs sustat < 2 ^ 64 ->
  match nilfs_cleanerd_select_segments junk_cand policy policy_data sustat s with
  | (Ok (segs, prot, _), s') => exists ts s0 s1 cands,
      os_call (k_clock_gettime CLOCK_REALTIME) s = (Ok ts, s0) /\
      prot = tv_sec (timespecsub ts (nilfs_cleanerd_protection_period (d_cld s0))) /\
      swept sustat (tv_sec ts) prot 0 s1 cands s' /\
      found 0 (ss_nsegs sustat) cands /\ segs = cd_segnum <$> take 2 (qsort (pl_compare policy) cands)
  | _ => True
  end.
Proof using evaluate_segnum suinfo_at_most.
  intros Hsel Hn. destruct (nilfs_cleanerd_select_segments _ _ _ _ s) as [[[[segs pt] old]| | | |] s'] eqn:H; try done.
  unfold nilfs_cleanerd_select_segments in H. inv_bind H. destruct a as [ts|]; [|done].
  unfold attempt in Hrun. destruct (os_call _ s) as [[ts'| | | |] sc] eqn:Hclock; try done. injection Hrun as -> ->.
  inv_bind H. injection Hrun as <- <-. inv_bind H. rewrite Hsel in H. inv_bind H. inv_bind H. destruct a1 as [oldest v].
  pose proof (create_spec junk_cand sizeof_candidate s1 ltac:(done) ltac:(done)) as Hc. rewrite Hrun0 in Hc.
  destruct Hc as [Hw He]. apply evaluate_loop_spec in Hrun1 as (Hwv & cands & Hel & Hswept); [|lia|lia|done].
  rewrite He in Hel. simpl in Hel. destruct (sort_spec (pl_compare policy) v Hwv) as [Hws Hes].
  injection H as <- <- <- <-. eexists ts, _, _, cands. split; [done|]. split; [done|].
  split; [exact Hswept|]. split.
  { apply swept_found in Hswept; [|lia|lia]. by rewrite Z.max_r in Hswept by lia. }
  rewrite <- Hel, Hes. f_equal. unfold nilfs_vector_get_size, nilfs_vector_sort, NSELECT. cbn [v_nelems].
  pose proof (elems_length v Hwv). pose proof (qsort_length (pl_compare policy) (elems v)).
  destruct (Z.le_ge_cases (v_nelems v) 2) as [Hle|Hge].
  - rewrite Z.min_l by lia. by rewrite !take_ge by lia.
  - by rewrite Z.min_r by lia.
Qed.
End Select.

(** After a shortage of memory the daemon means to take fewer segments, but
    halves the number that belongs to the other mode. *)
Lemma reduce_ncleansegs_ineffective (c : nilfs_cleanerd) :
  nilfs_cleanerd_ncleansegs (nilfs_cleanerd_reduce_ncleansegs_for_retry c) = nilfs_cleanerd_ncleansegs c.
Proof.
  unfold nilfs_cleanerd_reduce_ncleansegs_for_retry, nilfs_cleanerd_ncleansegs. repeat case_if; simpl in *; lia.
Qed.
