(* ===== verification/CleanerExec.v ===== *)
(** * Starting and stopping the daemon: lib/cleaner_exec.c

    The daemon is started in a child process, which prints its process ID,
    and stopped by a signal, after which its end is waited for with growing
    intervals.  The system calls are the class [ExecOs]; what is printed is
    left out.  [fuel] bounds the turns of a loop; the theorem at the end says
    how many are enough. *)

From Stdlib Require Import String.
From S2P Require Import Prelude Vector Hoare Kernel Nilfs Parser Float64 Cldconfig Cleanerd.

Definition ESRCH : Z := 3.
Definition SIGTERM : Z := 15.
Definition WAIT_CLEANERD_MIN_BACKOFF_TIME : Z := 5000.
Definition WAIT_CLEANERD_MAX_BACKOFF_TIME : Z := 2.
Definition WAIT_CLEANERD_RETRY_INTERVAL : Z := 2.
Definition WAIT_CLEANERD_RETRY_TIMEOUT : Z := 8.
Definition cleanerd : list Z := codes "/sbin/nilfs_cleanerd".
Definition cleanerd_protperiod_opt : list Z := codes "-p".

(** [fork] answers 0 in the child and a process ID or an errno in the caller.  [xo_pipe_text] is what comes through the
    pipe until every other process has closed it; [xo_nanosleep] answers what
    the function returns and the errno it leaves; [xo_errno] is errno after a
    failure that does not set it. *)
Class ExecOs (W : Type) := {
  xo_errno : W -> Z;
  xo_stat : list Z -> W -> (unit + Z) * W;
  xo_pipe : W -> (unit + Z) * W;
  xo_fork : W -> (Z + Z) * W;
  xo_setgid : W -> bool * W;
  xo_setuid : W -> bool * W;
  xo_dup2 : W -> bool * W;
  xo_execv : list Z -> list (list Z) -> W -> bool * W;
  xo_fdopen : W -> (unit + Z) * W;
  xo_pipe_text : W -> list Z * W;
  xo_kill : Z -> Z -> W -> (unit + Z) * W;
  xo_monotonic : W -> (timespec + Z) * W;
  xo_nanosleep : timespec -> W -> (Z * Z) * W;
}.

(** A process that has called [nilfs_launch_cleanerd]: the caller, with the
    process ID it got; or its child, which has become the daemon. *)
Inductive launched := Parent (pid : Z) | Became (path : list Z) (args : list (list Z)).

Section Exec.
Context {W : Type} {X : ExecOs W}.

Definition ask {A} (f : W -> A * W) : M W A := fun w => let '(a, w) := f w in (Ok a, w).
Definition osc {A} (f : W -> (A + Z) * W) : M W A := lift_sum f.

Definition fail_errno {A} : M W A := let* e := gets xo_errno in fail e.

Definition process_is_alive (pid : Z) : M W bool :=
  let* r := ask (xo_kill pid 0) in ret (match r with inl _ => true | inr _ => false end).

(** [sscanf(buf, "NILFS_CLEANERD_PID=%lu", &pid)]: [None] unless it is 1. *)
Fixpoint strip_prefix (p s : list Z) : option (list Z) :=
  match p, s with
  | [], _ => Some s
  | c :: p, d :: s => if c =? d then strip_prefix p s else None
  | _, [] => None
  end.

Definition scan_pid (line : list Z) : option Z :=
  s ← strip_prefix (codes "NILFS_CLEANERD_PID=") line;
  let '(v, rest) := strtoull s 10 in
  if same_ptr (Some rest) s then None else Some v.

(** The loop over the lines; each line is a turn. *)
Fixpoint scan_lines (fuel : nat) (text : list Z) : option Z :=
  match fuel with
  | O => None
  | Datatypes.S fuel =>
    match fgets 99 text with
    | ([], _) => None
    | (line, text) => match scan_pid (c_string line) with Some pid => Some pid | None => scan_lines fuel text end
    end
  end.

(** The process ID is stored as [pid_t]. *)
Definition receive_pid : M W Z :=
  osc xo_fdopen ;;
  let* text := ask xo_pipe_text in
  match scan_lines (Datatypes.S (length text)) text with
  | Some pid => ret (i32 pid)
  | None => fail_errno
  end.

Definition daemon_args (device mntdir : list Z) (protperiod : Z) : list (list Z) :=
  [cleanerd] ++ (if negb (protperiod =? ULONG_MAX) then [cleanerd_protperiod_opt; print_cno protperiod] else []) ++
  [device; mntdir].

(** The child: it ends in the daemon or with a failure. *)
Definition launch_child (device mntdir : list Z) (protperiod : Z) : M W launched :=
  let* ok := ask xo_setgid in
  if negb ok then exit_with 1
  else
    let* ok := ask xo_setuid in
    if negb ok then exit_with 1
    else
      let* ok := ask xo_dup2 in
      if negb ok then exit_with 1
      else
        let args := daemon_args device mntdir protperiod in
        let* ok := ask (xo_execv cleanerd args) in
        if (ok : bool) then ret (Became cleanerd args) else exit_with 1.

Definition nilfs_launch_cleanerd (device mntdir : list Z) (protperiod : Z) : M W launched :=
  osc (xo_stat cleanerd) ;;
  osc xo_pipe ;;
  let* pid := osc xo_fork in
  if pid =? 0 then launch_child device mntdir protperiod
  else
    let* r := attempt receive_pid in
    ret (Parent (match r with inl pid => pid | inr _ => 0 end)).

Definition nilfs_ping_cleanerd (pid : Z) : M W bool := process_is_alive pid.

Definition recalc_backoff_time (interval : timespec) : timespec :=
  let sec := Z.shiftl (tv_sec interval) 1 in
  let nsec := Z.shiftl (tv_nsec interval) 1 in
  if 1000000000 <=? nsec then mk_timespec (sec + Z.quot nsec 1000000000) (Z.rem nsec 1000000000)
  else mk_timespec sec nsec.

(** The end of the process, or [None] when the time is up. *)
Fixpoint backoff_loop (fuel : nat) (pid : Z) (waittime end_ : timespec) : M W (option unit) :=
  match fuel with
  | O => out_of_fuel
  | Datatypes.S fuel =>
    let* (rc, errno) := ask (xo_nanosleep waittime) in
    if (rc <? 0) && (errno =? EINTR) then fail errno
    else
      let* alive := process_is_alive pid in
      if negb alive then ret (Some tt)
      else
        let* r := attempt (osc xo_monotonic) in
        match r with
        | inr _ => ret None
        | inl now =>
          if negb (timespec_lt now end_) then ret None
          else backoff_loop fuel pid (recalc_backoff_time waittime) end_
        end
  end.

Fixpoint retry_loop (fuel : nat) (pid : Z) (waittime end_ : timespec) : M W unit :=
  match fuel with
  | O => out_of_fuel
  | Datatypes.S fuel =>
    let* r := attempt (osc xo_monotonic) in
    match r with
    | inr e => fail e
    | inl now =>
      if negb (timespec_lt now end_) then fail_errno
      else
        let* (rc, errno) := ask (xo_nanosleep waittime) in
        if (rc <? 0) && (errno =? EINTR) then fail errno
        else
          let* alive := process_is_alive pid in
          if negb alive then ret tt else retry_loop fuel pid waittime end_
    end
  end.

Definition nilfs_wait_cleanerd (fuel : nat) (pid : Z) : M W unit :=
  let* alive := process_is_alive pid in
  if negb alive then ret tt
  else
    let* start := osc xo_monotonic in
    let waittime := mk_timespec 0 (WAIT_CLEANERD_MIN_BACKOFF_TIME * 1000) in
    let end_ := mk_timespec (tv_sec start + WAIT_CLEANERD_MAX_BACKOFF_TIME) (tv_nsec start) in
    let* gone := backoff_loop fuel pid waittime end_ in
    match gone with
    | Some _ => ret tt
    | None =>
      let waittime := mk_timespec WAIT_CLEANERD_RETRY_INTERVAL 0 in
      let end_ := mk_timespec (tv_sec start + WAIT_CLEANERD_RETRY_TIMEOUT) (tv_nsec start) in
      retry_loop fuel pid waittime end_
    end.

Definition nilfs_shutdown_cleanerd (fuel : nat) (pid : Z) : M W unit :=
  let* r := ask (xo_kill pid SIGTERM) in
  match r with
  | inr e => if e =? ESRCH then ret tt else fail e
  | inl _ => nilfs_wait_cleanerd fuel pid
  end.
End Exec.

(** ** The wait ends *)

Definition ns (t : timespec) : Z := tv_sec t * NSEC_PER_SEC + tv_nsec t.
Definition valid_timespec (t : timespec) : Prop := 0 <= tv_nsec t < NSEC_PER_SEC.

(** A clock that runs, and sleeps that no signal cuts short. *)
Class ExecLaws {W} (X : ExecOs W) (time : W -> Z) := {
  xl_kill : forall pid sig w, time w <= time (xo_kill pid sig w).2;
  xl_monotonic : forall w, exists ts w', xo_monotonic w = (inl ts, w') /\ valid_timespec ts /\ time w <= ns ts <= time w';
  xl_nanosleep : forall ts w, valid_timespec ts -> 0 <= tv_sec ts ->
    exists errno w', xo_nanosleep ts w = ((0, errno), w') /\ time w + ns ts <= time w';
}.

Section Wait.
Context {W : Type} {X : ExecOs W} {time : W -> Z} {L : ExecLaws X time}.
Implicit Types w : W.

Lemma timespec_lt_ns a b : valid_timespec a -> valid_timespec b -> timespec_lt a b = (ns a <? ns b).
Proof using.
  unfold valid_timespec, timespec_lt, ns, NSEC_PER_SEC. intros Ha Hb. destruct (Z.eqb_spec (tv_sec a) (tv_sec b)); lia.
Qed.

(** The last thing was a probe with the signal 0, which failed: the test of
    [process_is_alive], whatever the errno. *)
Definition gone pid w : Prop := exists w0 e, xo_kill pid 0 w0 = (inr e, w).

Lemma wp_alive pid (Q : bool -> W -> Prop) E w :
  (forall b w', time w <= time w' -> (b = false -> gone pid w') -> Q b w') -> wp (process_is_alive pid) Q E w.
Proof using L.
  intros HQ. unfold wp, process_is_alive, bind, ask. pose proof (xl_kill pid 0 w) as Ht.
  destruct (xo_kill pid 0 w) as [[[]|e] w'] eqn:Hk; apply HQ; try done. intros _. by exists w, e.
Qed.

Lemma wp_clock (Q : timespec -> W -> Prop) E w :
  (forall ts w', valid_timespec ts -> time w <= ns ts <= time w' -> Q ts w') -> wp (osc xo_monotonic) Q E w.
Proof using L.
  intros HQ. destruct (xl_monotonic w) as (ts & w' & Hm & Hv & Ht). unfold wp, osc, lift_sum. rewrite Hm. by apply HQ.
Qed.

Lemma wp_sleep ts (Q : Z * Z -> W -> Prop) E w : valid_timespec ts -> 0 <= tv_sec ts ->
  (forall errno w', time w + ns ts <= time w' -> Q (0, errno) w') -> wp (ask (xo_nanosleep ts)) Q E w.
Proof using L.
  intros Hv Hs HQ. destruct (xl_nanosleep ts w Hv Hs) as (e & w' & Hm & Ht). unfold wp, ask. rewrite Hm. by apply HQ.
Qed.

Lemma recalc_backoff ts : valid_timespec ts -> 0 <= tv_sec ts ->
  valid_timespec (recalc_backoff_time ts) /\ 0 <= tv_sec (recalc_backoff_time ts) /\ ns (recalc_backoff_time ts) = 2 * ns ts.
Proof using.
  unfold valid_timespec, recalc_backoff_time, ns, NSEC_PER_SEC. intros Hv Hs. rewrite !Z.shiftl_mul_pow2 by lia. change (2 ^ 1) with 2.
  destruct (Z.leb_spec 1000000000 (tv_nsec ts * 2)); cbn [tv_sec tv_nsec]; [|lia].
  rewrite Z.quot_div_nonneg, Z.rem_mod_nonneg by lia.
  pose proof (Z.div_mod (tv_nsec ts * 2) 1000000000 ltac:(done)). pose proof (Z.mod_pos_bound (tv_nsec ts * 2) 1000000000 ltac:(done)).
  assert (0 <= tv_nsec ts * 2 / 1000000000) by (apply Z.div_pos; lia). lia.
Qed.

(** The [k]-th turn waits for 5 ms times 2^k: after nine of them more than
    two seconds are over. *)
Definition BACKOFF : Z := 5000000.
Definition seconds (n : Z) : Z := n * NSEC_PER_SEC.

Lemma backoff_ends pid start end_ (Q : option unit -> W -> Prop) fuel : forall k ts w,
  valid_timespec end_ -> ns end_ = start + seconds 2 -> valid_timespec ts -> 0 <= tv_sec ts -> ns ts = BACKOFF * 2 ^ Z.of_nat k ->
  start + BACKOFF * (2 ^ Z.of_nat k - 1) <= time w -> (9 <= fuel + k)%nat -> (k < 9)%nat ->
  (forall w', gone pid w' -> Q (Some tt) w') -> (forall w', start + seconds 2 <= time w' -> Q None w') ->
  wp (backoff_loop fuel pid ts end_) Q (fun _ _ => False) w.
Proof using L.
  unfold BACKOFF, seconds, NSEC_PER_SEC. induction fuel as [|fuel IH]; intros k ts w He Hend Hts Hsec Hns Ht Hf Hk HQ1 HQ2; [lia|]. cbn [backoff_loop].
  wp_step. apply wp_sleep; [done|done|]. intros errno w1 Ht1. cbn [Z.ltb Z.compare andb].
  wp_step. apply wp_alive. intros alive w2 Ht2 Hgone. destruct alive; cbn [negb]; [|wp_step; auto].
  wp_step. wp_step. apply wp_clock. intros now w3 Hnow Ht3. rewrite timespec_lt_ns by done.
  destruct (Z.ltb_spec (ns now) (ns end_)) as [Hlt|Hge]; cbn [negb]; [|wp_step; apply HQ2; lia].
  destruct (recalc_backoff ts Hts Hsec) as (Hv' & Hs' & Hn').
  assert (Hpow : 2 ^ Z.of_nat (Datatypes.S k) = 2 * 2 ^ Z.of_nat k) by (rewrite Nat2Z.inj_succ, Z.pow_succ_r; lia).
  apply (IH (Datatypes.S k)); try done; try lia.
  assert (Hk8 : k <> 8%nat); [|lia]. intros ->. change (2 ^ Z.of_nat 8) with 256 in *. lia.
Qed.

Lemma retry_ends pid start end_ (Q : unit -> W -> Prop) (E : Z -> W -> Prop) fuel : forall k ts w,
  valid_timespec end_ -> ns end_ = start + seconds 8 -> ts = mk_timespec 2 0 ->
  start + seconds (2 + 2 * Z.of_nat k) <= time w -> (4 <= fuel + k)%nat -> (k < 4)%nat ->
  (forall w', gone pid w' -> Q tt w') -> (forall e w', start + seconds 8 <= time w' -> E e w') ->
  wp (retry_loop fuel pid ts end_) Q E w.
Proof using L.
  unfold seconds, NSEC_PER_SEC. induction fuel as [|fuel IH]; intros k ts w He Hend -> Ht Hf Hk HQ HE; [lia|]. cbn [retry_loop].
  wp_step. wp_step. apply wp_clock. intros now w1 Hnow Ht1. rewrite timespec_lt_ns by done.
  destruct (Z.ltb_spec (ns now) (ns end_)) as [Hlt|Hge]; cbn [negb].
  2: { unfold fail_errno. wp_step. wp_step. wp_step. apply HE. lia. }
  wp_step. apply wp_sleep; [done|done|]. intros errno w2 Ht2. cbn [Z.ltb Z.compare andb].
  change (ns (mk_timespec 2 0)) with 2000000000 in Ht2.
  wp_step. apply wp_alive. intros alive w3 Ht3 Hgone. destruct alive; cbn [negb]; [|wp_step; auto].
  apply (IH (Datatypes.S k)); try done; try lia.
Qed.

Lemma wait_ends pid fuel w (Q : unit -> W -> Prop) (E : Z -> W -> Prop) : (9 <= fuel)%nat ->
  (forall w', gone pid w' -> Q tt w') -> (forall e w', time w + seconds 8 <= time w' -> E e w') -> wp (nilfs_wait_cleanerd fuel pid) Q E w.
Proof using L.
  intros Hf HQ HE. unfold nilfs_wait_cleanerd. wp_step. apply wp_alive. intros alive w1 Ht1 Hgone.
  destruct alive; cbn [negb]; [|wp_step; auto]. wp_step. apply wp_clock. intros now w2 Hnow Ht2.
  assert (Hv : forall n, valid_timespec (mk_timespec (tv_sec now + n) (tv_nsec now))) by done.
  assert (Hs : forall n, ns (mk_timespec (tv_sec now + n) (tv_nsec now)) = ns now + seconds n) by (intros n; unfold ns, seconds; cbn; lia).
  wp_step. eapply (wp_mono _ (fun r w' => match r with Some _ => gone pid w' | None => ns now + seconds 2 <= time w' end) (fun _ _ => False)).
  - apply (backoff_ends pid (ns now) _ _ fuel 0); [apply Hv|apply Hs|done|done|done| |lia|lia|done|done]. cbn. lia.
  - intros [[]|] w3 H3; [wp_step; auto|]. apply (retry_ends pid (ns now) _ _ _ fuel 0); [apply Hv|apply Hs|done| |lia|lia|done|].
    + cbn. unfold seconds in *. lia.
    + intros e w4 H4. apply HE. lia.
  - done.
Qed.

(** C20: stopping the daemon ends.  While the clock runs and no signal cuts a
    sleep short, nine turns of each loop are enough, whatever the process
    does.  Success means that there was no such process when the signal was to
    be sent (the errno was ESRCH), or that the signal was sent and a later
    probe of the process failed; failure means that the signal could not be
    sent for any other reason, or that it was sent and the process has been
    waited for for eight seconds. *)
Theorem shutdown_cleanerd_ends pid fuel w : (9 <= fuel)%nat ->
  let '(sent, w1) := xo_kill pid SIGTERM w in
  match nilfs_shutdown_cleanerd fuel pid w with
  | (Ok _, w') => sent = inr ESRCH /\ w' = w1 \/ sent = inl tt /\ gone pid w'
  | (Err e, w') => sent = inr e /\ e <> ESRCH /\ w' = w1 \/ sent = inl tt /\ time w + seconds 8 <= time w'
  | _ => False
  end.
Proof using L.
  intros Hf. unfold nilfs_shutdown_cleanerd, bind, ask. pose proof (xl_kill pid SIGTERM w) as Ht.
  destruct (xo_kill pid SIGTERM w) as [[[]|e] w1] eqn:Hk.
  - pose proof (wait_ends pid fuel w1 (fun _ w' => gone pid w') (fun _ w' => time w + seconds 8 <= time w') Hf) as H.
    unfold wp in H. cbn in Ht. destruct (nilfs_wait_cleanerd fuel pid w1) as [[] w2]; [right; split; [done|]|right; split; [done|]|..]; apply H; try done; intros; lia.
  - destruct (Z.eqb_spec e ESRCH) as [->|]; [by left|]. by left.
Qed.
End Wait.

(** A process that survives, on a clock that is the state. *)
Module ExecDemo.
#[export] Instance demo_exec : ExecOs Z := {
  xo_errno := fun _ => 0; xo_stat := fun _ w => (inl tt, w); xo_pipe := fun w => (inl tt, w); xo_fork := fun w => (inl 42, w);
  xo_setgid := fun w => (true, w); xo_setuid := fun w => (true, w); xo_dup2 := fun w => (true, w); xo_execv := fun _ _ w => (true, w);
  xo_fdopen := fun w => (inl tt, w); xo_pipe_text := fun w => (codes "NILFS_CLEANERD_PID=4711", w);
  xo_kill := fun _ _ w => (inl tt, w);
  xo_monotonic := fun w => (inl (mk_timespec (w / NSEC_PER_SEC) (w `mod` NSEC_PER_SEC)), w);
  xo_nanosleep := fun ts w => ((0, 0), w + ns ts);
}.

#[export] Instance demo_exec_laws : ExecLaws demo_exec (fun w => w).
Proof.
  split; cbn.
  - done.
  - intros w. do 2 eexists. split; [done|]. unfold valid_timespec, ns. cbn. pose proof (Z.mod_pos_bound w NSEC_PER_SEC ltac:(done)).
    pose proof (Z.div_mod w NSEC_PER_SEC ltac:(done)). lia.
  - intros ts w _ _. by do 2 eexists.
Qed.
End ExecDemo.
Import ExecDemo.

Lemma shutdown_cleanerd_ends_witness : 0 + seconds 8 <= (nilfs_shutdown_cleanerd 9 4711 0).2.
Proof.
  pose proof (shutdown_cleanerd_ends (time := fun w => w) 4711 9 0 ltac:(lia)) as H.
  assert (Hr : (nilfs_shutdown_cleanerd 9 4711 0).1 = Err 0) by by vm_compute.
  cbn [xo_kill demo_exec] in H. destruct (nilfs_shutdown_cleanerd 9 4711 0) as [r w']. cbn in Hr. subst r.
  destruct H as [[H _]|[_ H]]; [discriminate H|exact H].
Defined.

(** The daemon is started and its process ID read. *)
Lemma launch_reads_pid : nilfs_launch_cleanerd (codes "/dev/vda") (codes "/mnt") ULONG_MAX 0 = (Ok (Parent 4711), 0).
Proof. by vm_compute. Qed.
