(* ===== verification/Mounts.v ===== *)
(** * The mount table

    What lib/nilfs.c and lib/cleaner_ctl.c read of it: entries, options of a
    mount, and the comparison of canonical paths.  The table itself is a
    parameter of the programs. *)

From Stdlib Require Import String.
From S2P Require Import Prelude Vector Hoare Parser Tune Float64 Cldconfig Realpath CleanerExec Ismounted.

Definition CANONICAL_SIZE : Z := PATH_MAX + 2.
Definition MNTTYPE_NILFS : list Z := codes "nilfs2".
Definition MNTOPT_RW : list Z := codes "rw".
Definition MNTOPT_RO : list Z := codes "ro".
Definition COMMA : Z := 44.

(** ** Options of a mount *)

(** The parts of a text between the commas. *)
Fixpoint split_commas (s : list Z) : list (list Z) :=
  match s with
  | [] => [[]]
  | c :: s =>
    if c =? COMMA then [] :: split_commas s
    else match split_commas s with [] => [[c]] | x :: l => (c :: x) :: l end
  end.

(** [strtok_r(opts, ",")]: the parts that are not empty. *)
Definition strtok (opts : list Z) : list (list Z) := filter (fun t => t <> []) (split_commas opts).

(** [hasmntopt(mntent, "rw")]: an option of this name, with or without a value. *)
Definition has_option (name opts : list Z) : bool :=
  existsb (fun t => match strip_prefix name t with Some [] => true | Some (61 :: _) => true | _ => false end) (split_commas opts).

(** ** Paths *)

Section Paths.
Context {W : Type} {A : Alloc W} {P : PathOs W}.

(** The canonical path, in a buffer on the stack that holds [stack]; [None]
    for NULL.  The result does not depend on what the buffer held. *)
Definition real_path (stack : nat -> list Z) (path : list Z) : M W (option (list Z)) :=
  let* r := attempt (myrealpath CANONICAL_SIZE path (stack (Z.to_nat CANONICAL_SIZE))) in
  ret (match r with inl buf => Some (c_string buf) | inr _ => None end).

Definition str_dup (s : list Z) : M W (list Z) := m_malloc (Z.of_nat (length s) + 1) ;; ret s.

(** Whether the entry has the path asked for, if one was. *)
Definition path_matches (stack : nat -> list Z) (wanted : option (list Z)) (path : list Z) : M W bool :=
  match wanted with
  | None => ret true
  | Some wanted => let* r := real_path stack path in ret (bool_decide (default path r = wanted))
  end.
End Paths.
