(* ===== verification/Open.v ===== *)
(** * Opening a file system: lib/nilfs.c

    [nilfs_open] finds the device and the mount point in the mount table,
    opens them and the semaphore of the cleaner as the flags ask for, and
    reads the superblock.  The state [tool W L] is that of a command line
    program: the [struct nilfs] with its two path names, the world, and the
    lines that were printed.  Files, the mount table and the semaphore are the
    class [OpenOs]. *)

From Stdlib Require Import String.
From S2P Require Import Prelude Vector Hoare Ondisk Sb Kernel Nilfs Parser Tune Float64 Cldconfig Realpath CleanerExec Ismounted Mounts.

Definition NILFS_OPEN_RAW : Z := 0x0001.
Definition NILFS_OPEN_RDONLY : Z := 0x0002.
Definition NILFS_OPEN_WRONLY : Z := 0x0004.
Definition NILFS_OPEN_RDWR : Z := 0x0008.
Definition NILFS_OPEN_GCLK : Z := 0x1000.

Definition ENOTBLK : Z := 15.
Definition sizeof_nilfs : Z := 56.

(** [oo_mounts]: the entries of /proc/mounts; [oo_stack]: what a buffer on
    the stack holds. *)
Class OpenOs (W : Type) := {
  oo_stack : nat -> list Z;
  oo_mounts : W -> (list mntent + Z) * W;
  oo_open : list Z -> W -> (Z + Z) * W;
  oo_close : Z -> W -> W;
  oo_stat : list Z -> W -> (stat_answer + Z) * W;
  oo_fstat : Z -> W -> (stat_answer + Z) * W;
  oo_sem_open : list Z -> W -> (unit + Z) * W;
  oo_sem_close : W -> W;
}.

Record tool (W L : Type) := mk_tool {
  t_sys : sys W; t_dev : option (list Z); t_ioc : option (list Z); t_out : list L;
}.
Arguments mk_tool {W L} _ _ _ _.
Arguments t_sys {W L} _.
Arguments t_dev {W L} _.
Arguments t_ioc {W L} _.
Arguments t_out {W L} _.

(** The members of a new object, and what is left when it is freed. *)
Definition new_nilfs : nilfs := mk_nilfs None (-1) (-1) 0 NILFS_CNO_MIN false.

Definition set_sb (nf : nilfs) (sb : option (list Z)) : nilfs :=
  mk_nilfs sb (n_devfd nf) (n_iocfd nf) (n_opts nf) (n_mincno nf) (n_sem nf).
Definition set_devfd (nf : nilfs) (fd : Z) : nilfs :=
  mk_nilfs (n_sb nf) fd (n_iocfd nf) (n_opts nf) (n_mincno nf) (n_sem nf).
Definition set_iocfd (nf : nilfs) (fd : Z) : nilfs :=
  mk_nilfs (n_sb nf) (n_devfd nf) fd (n_opts nf) (n_mincno nf) (n_sem nf).
Definition set_sem (nf : nilfs) (open : bool) : nilfs :=
  mk_nilfs (n_sb nf) (n_devfd nf) (n_iocfd nf) (n_opts nf) (n_mincno nf) open.

Section Open.
Context {W L : Type} {K : Kernel W} {P : PathOs W} {F : OpenOs W}.
Abbreviation MT := (M (tool W L)).

(** ** Computations of the layers below *)

Definition with_sys (s : tool W L) (y : sys W) : tool W L := mk_tool y (t_dev s) (t_ioc s) (t_out s).

Definition slib {T} (m : M (sys W) T) : MT T := fun s => let '(r, y) := m (t_sys s) in (r, with_sys s y).
Definition tcall {T} (m : M W T) : MT T :=
  fun s => let '(r, w) := m (s_world (t_sys s)) in (r, with_sys s (mk_sys (s_nilfs (t_sys s)) w)).
Definition tos {T} (f : W -> (T + Z) * W) : MT T := tcall (lift_sum f).
Definition tdo (f : W -> W) : MT unit := tcall (fun w => (Ok tt, f w)).
Definition the_object : MT nilfs := gets (fun s => s_nilfs (t_sys s)).
Definition change_object (f : nilfs -> nilfs) : MT unit :=
  modify (fun s => with_sys s (mk_sys (f (s_nilfs (t_sys s))) (s_world (t_sys s)))).
Definition set_paths (dev ioc : option (list Z)) : MT unit := modify (fun s => mk_tool (t_sys s) dev ioc (t_out s)).
Definition print_line (l : L) : MT unit := modify (fun s => mk_tool (t_sys s) (t_dev s) (t_ioc s) (t_out s ++ [l])).

(** ** Finding the file system *)

(** [if (dev && myrealpath(dev, ...)) dev = strdup(canonical)] *)
Definition canonical_name (path : option (list Z)) : MT (option (list Z)) :=
  match path with
  | None => ret None
  | Some name =>
    let* r := tcall (real_path oo_stack name) in
    match r with
    | None => ret path
    | Some canonical => let* copy := tcall (str_dup canonical) in ret (Some copy)
    end
  end.

(** The names of the entry; none if there is no memory for them. *)
Definition keep_names (e : mntent) : MT unit :=
  let* r := attempt (tcall (str_dup (mnt_fsname e))) in
  match r with
  | inr err => set_paths None None ;; fail err
  | inl dev =>
    let* r := attempt (tcall (str_dup (mnt_dir e))) in
    match r with
    | inr err => set_paths None None ;; fail err
    | inl ioc => set_paths (Some dev) (Some ioc)
    end
  end.

(** Whether an entry was found; the last one that fits is kept. *)
Fixpoint find_entries (entries : list mntent) (dev dir : option (list Z)) (opt : list Z) (found : bool) : MT bool :=
  match entries with
  | [] => ret found
  | e :: entries =>
    if negb (bool_decide (mnt_type e = MNTTYPE_NILFS)) then find_entries entries dev dir opt found
    else
      let* same := tcall (path_matches oo_stack dir (mnt_dir e)) in
      if negb same then find_entries entries dev dir opt found
      else
        let* same := tcall (path_matches oo_stack dev (mnt_fsname e)) in
        if negb same then find_entries entries dev dir opt found
        else if has_option opt (mnt_opts e) then
          keep_names e ;; find_entries entries dev dir opt true
        else find_entries entries dev dir opt found
  end.

Definition nilfs_find_fs (dev dir : option (list Z)) (opt : list Z) : MT unit :=
  let* dev := canonical_name dev in
  let* dir := canonical_name dir in
  let* entries := tos oo_mounts in
  let* found := find_entries entries dev dir opt false in
  if found then ret tt else fail ENXIO.

(** ** The object *)

(** The size of [semnambuf] is [NAME_MAX - 4]. *)
Definition sem_name (rest : list Z) : MT (list Z) :=
  let name := codes "/nilfs-cleaner-" ++ rest in
  if Z.of_nat (length name) <? 251 then ret name else abort.

Definition the_dev : MT (list Z) := let* dev := gets t_dev in of_option dev.

Definition nilfs_open_sem : MT unit :=
  let* dev := the_dev in
  let* st := tos (oo_stat dev) in
  let* name := (match st_kind st with
                | Block => sem_name (print_cno (st_rdev st))
                | Regular | Directory => sem_name (print_cno (st_dev st) ++ [45] ++ print_cno (st_ino st))
                | OtherKind => fail EINVAL
                end) in
  tos (oo_sem_open name) ;;
  change_object (fun nf => set_sem nf true).

Definition has_flag (flags f : Z) : bool := negb (Z.land flags f =? 0).

(** The device and its superblock. *)
Definition open_raw (dev dir : option (list Z)) : MT unit :=
  (match dev with
   | None => nilfs_find_fs dev dir MNTOPT_RW
   | Some name =>
     let* copy := tcall (str_dup name) in
     let* ioc := gets t_ioc in
     set_paths (Some copy) ioc
   end) ;;
  let* name := the_dev in
  let* fd := tos (oo_open name) in
  change_object (fun nf => set_devfd nf fd) ;;
  let* sb := tcall (nilfs_sb_read fd) in
  change_object (fun nf => set_sb nf (Some sb)) ;;
  if negb (Z.land (sb_get sb s_feature_incompat) (Z.lnot NILFS_FEATURE_INCOMPAT_SUPP) =? 0) then fail ENOTSUP
  else ret tt.

(** The mount point is that of the device, and not hidden by another. *)
Definition check_mount_point (fd : Z) : MT unit :=
  let* name := the_dev in
  let* devst := tos (oo_stat name) in
  match st_kind devst with
  | Block =>
    let* iocst := tos (oo_fstat fd) in
    match st_kind iocst with
    | Directory => if st_dev iocst =? st_rdev devst then ret tt else fail ENOENT
    | _ => fail ENOENT
    end
  | _ => fail ENOTBLK
  end.

(** The mount point; a read-only mount is taken when none is writable. *)
Definition open_ioc (dev dir : option (list Z)) (flags : Z) : MT unit :=
  let* r := attempt (nilfs_find_fs dev dir MNTOPT_RW) in
  (match r with
   | inl _ => ret tt
   | inr e => if has_flag flags NILFS_OPEN_RDONLY then nilfs_find_fs dev dir MNTOPT_RO else fail e
   end) ;;
  let* ioc := gets t_ioc in
  let* name := of_option ioc in
  let* fd := tos (oo_open name) in
  change_object (fun nf => set_iocfd nf fd) ;;
  check_mount_point fd.

Definition close_fd (fd : Z) : MT unit := if 0 <=? fd then tdo (oo_close fd) else ret tt.

(** The label [out_fd]; the errno is taken not to be changed by [close]. *)
Definition close_files : MT unit :=
  let* nf := the_object in
  close_fd (n_devfd nf) ;;
  close_fd (n_iocfd nf) ;;
  change_object (fun _ => new_nilfs) ;;
  set_paths None None.

Definition open_parts (dev dir : option (list Z)) (flags : Z) : MT unit :=
  (if has_flag flags NILFS_OPEN_RAW then open_raw dev dir else ret tt) ;;
  (if has_flag flags (Z.lor NILFS_OPEN_RDONLY (Z.lor NILFS_OPEN_WRONLY NILFS_OPEN_RDWR)) then open_ioc dev dir flags else ret tt) ;;
  (if has_flag flags NILFS_OPEN_GCLK then nilfs_open_sem else ret tt).

(** NULL is a failure. *)
Definition nilfs_open (dev dir : option (list Z)) (flags : Z) : MT unit :=
  if negb (has_flag flags (Z.lor NILFS_OPEN_RAW (Z.lor NILFS_OPEN_RDONLY (Z.lor NILFS_OPEN_WRONLY NILFS_OPEN_RDWR)))) then fail EINVAL
  else
    tcall (m_malloc sizeof_nilfs) ;;
    change_object (fun _ => new_nilfs) ;;
    set_paths None None ;;
    let* r := attempt (open_parts dev dir flags) in
    match r with
    | inl _ => ret tt
    | inr e => close_files ;; fail e
    end.

Definition nilfs_close : MT unit :=
  let* nf := the_object in
  (if n_sem nf then tdo oo_sem_close else ret tt) ;;
  close_files.

Definition nilfs_get_dev : MT (option (list Z)) := gets t_dev.
Definition nilfs_get_root_path : MT (option (list Z)) := gets t_ioc.
Definition nilfs_get_root_fd : MT Z := let* nf := the_object in ret (n_iocfd nf).

(** The lock of the cleaner is the first lock. *)
Definition nilfs_lock_cleaner : MT unit := slib (nilfs_lock 0).
Definition nilfs_unlock_cleaner : MT unit := slib (nilfs_unlock 0).
End Open.
