(* ===== verification/OpenSpec.v ===== *)
(** * What opening a file system leaves

    An object that [nilfs_open] returns has the parts its flags ask for, and
    owns exactly the descriptors it was given; a failure and [nilfs_close]
    leave none behind.  [OpenLaws] states what is documented of files and
    semaphores, as a set of open descriptors and a number of semaphores. *)

From stdpp Require Import gmap.
From Stdlib Require Import String.
From S2P Require Import Prelude Vector Hoare Ondisk Crc32 Sb Kernel Nilfs Segment Gc GcProtocol Parser Realpath Ismounted Mounts Open.

Class OpenLaws {W : Type} {K : Kernel W} (P : PathOs W) (F : OpenOs W) (fds : W -> gset Z) (sems : W -> nat) : Prop := {
  ol_open : forall path w, match oo_open path w with
    | (inl fd, w') => 0 <= fd /\ fd ∉ fds w /\ fds w' = {[fd]} ∪ fds w /\ sems w' = sems w
    | (inr _, w') => fds w' = fds w /\ sems w' = sems w
    end;
  ol_close : forall fd w, fds (oo_close fd w) = fds w ∖ {[fd]} /\ sems (oo_close fd w) = sems w;
  ol_sem_open : forall name w, match oo_sem_open name w with
    | (inl _, w') => fds w' = fds w /\ sems w' = Datatypes.S (sems w)
    | (inr _, w') => fds w' = fds w /\ sems w' = sems w
    end;
  ol_sem_close : forall w, fds (oo_sem_close w) = fds w /\ sems (oo_sem_close w) = Init.Nat.pred (sems w);
  ol_mounts : forall w, fds (oo_mounts w).2 = fds w /\ sems (oo_mounts w).2 = sems w;
  ol_mounts_names : forall w l w', oo_mounts w = (inl l, w') -> Forall (fun e => 0 ∉ mnt_fsname e /\ 0 ∉ mnt_dir e) l;
  ol_stat : forall name w, fds (oo_stat name w).2 = fds w /\ sems (oo_stat name w).2 = sems w;
  ol_fstat : forall fd w, fds (oo_fstat fd w).2 = fds w /\ sems (oo_fstat fd w).2 = sems w;
  ol_stat_size : forall name w st w', oo_stat name w = (inl st, w') -> is_u64 (st_rdev st) /\ is_u64 (st_dev st) /\ is_u64 (st_ino st);
  ol_malloc : forall n w, fds (malloc n w).2 = fds w /\ sems (malloc n w).2 = sems w;
  ol_dev_fstat : forall fd w, fds (dev_fstat fd w).2 = fds w /\ sems (dev_fstat fd w).2 = sems w;
  ol_dev_size : forall fd w, fds (dev_getsize64 fd w).2 = fds w /\ sems (dev_getsize64 fd w).2 = sems w;
  ol_dev_pread : forall fd n off w, fds (dev_pread fd n off w).2 = fds w /\ sems (dev_pread fd n off w).2 = sems w;
  ol_getcwd : forall n w, fds (po_getcwd n w).2 = fds w /\ sems (po_getcwd n w).2 = sems w;
  ol_stack : forall n, length (oo_stack n) = n;
  ol_readlink : forall path n w, fds (po_readlink path n w).2 = fds w /\ sems (po_readlink path n w).2 = sems w;
}.

Section OpenSpec.
Context {W L : Type} {K : Kernel W} {P : PathOs W} {F : OpenOs W} (fds : W -> gset Z) (sems : W -> nat) {OL : OpenLaws P F fds sems}.
Context {PL : PathLaws P (fun cwd => exists st, Forall plain st /\ cwd = path_of st)}.
Implicit Types (s : tool W L) (w : W).

Definition files w : gset Z * nat := (fds w, sems w).
Definition tworld s : W := s_world (t_sys s).
Definition tobject s : nilfs := s_nilfs (t_sys s).

Lemma files_eq w w' : fds w' = fds w /\ sems w' = sems w -> files w' = files w.
Proof using. unfold files. by intros [-> ->]. Qed.

(** *** Reading leaves the files alone *)

Abbreviation keeps_w := (keeps files (fun w : W => w)).

Lemma keeps_lift {A} (f : W -> (A + Z) * W) : (forall w, files (f w).2 = files w) -> keeps_w (lift_sum f).
Proof using. intros Hf w. unfold lift_sum. specialize (Hf w). by destruct (f w) as [[] ?]. Qed.

Lemma keeps_w_malloc n : keeps_w (m_malloc n).
Proof using OL. apply keeps_malloc. intros m w. apply files_eq, ol_malloc. Qed.

#[local] Hint Resolve keeps_w_malloc : keeps.
#[local] Hint Extern 1 (keeps _ _ (lift_sum _)) => (apply keeps_lift; intros; apply files_eq, OL) : keeps.

Lemma keeps_copy max path : forall buf n, keeps_w (copy_component max path buf n).
Proof using OL.
  induction path as [|c path IH]; intros buf n; cbn [copy_component]; [keep|].
  keep; try apply IH.
Qed.

Lemma keeps_realpath max path buf : keeps_w (myrealpath max path buf).
Proof using OL.
  assert (Hf : forall path linked buf n, keeps_w (follow_link path linked buf n)) by (intros; unfold follow_link; keep).
  assert (He : forall fuel path linked r buf n, keeps_w (expand max fuel path linked r buf n)).
  { induction fuel as [|fuel IH]; intros; cbn [expand]; keep; apply keeps_copy. }
  unfold myrealpath, start_path. keep.
Qed.

Lemma keeps_sb_read fd : keeps_w (nilfs_sb_read fd).
Proof using OL. unfold nilfs_sb_read, __nilfs_sb_read, device_size, pread_sb, keep_secondary, Sb.fail_errno. keep. done. Qed.

(** *** The functions *)

(** No path goes through two symbolic links, where [myrealpath] reads memory
    that it has freed, and no superblock of the device has a size of the
    blocks that shifts too far. *)
Hypothesis one_link : forall path w, match canonical_path (Z.to_nat CANONICAL_SIZE) path w with (Abort, _) => False | _ => True end.
Hypothesis sane_blocks : forall fd off w sb w', dev_pread fd NILFS_MAX_SB_SIZE off w = (inl sb, w') ->
  u32 (sb_get sb s_log_block_size + 10) < 64.

(** A computation that ends and leaves the files alone. *)
Definition calm {A} (m : M W A) : Prop := forall w, wp m (fun _ w' => files w' = files w) (fun _ w' => files w' = files w) w.

Lemma calm_keeps {A} (m : M W A) : keeps_w m -> (forall w, wp m (fun _ _ => True) (fun _ _ => True) w) -> calm m.
Proof using. intros Hk Hw w. specialize (Hk w). specialize (Hw w). unfold wp in *. by destruct (m w) as [[] w']. Qed.

Lemma real_path_calm path : 0 ∉ path -> calm (real_path oo_stack path).
Proof using OL PL one_link.
  intros H0. apply calm_keeps; [unfold real_path; keep; apply keeps_realpath|]. intros w. unfold real_path. wp_step. wp_step.
  pose proof (myrealpath_walks (Z.to_nat CANONICAL_SIZE) path (oo_stack (Z.to_nat CANONICAL_SIZE)) w H0 ltac:(apply ol_stack) ltac:(unfold CANONICAL_SIZE, PATH_MAX; lia)) as H.
  pose proof (one_link path w) as Hl. unfold wp. change (Z.of_nat (Z.to_nat CANONICAL_SIZE)) with CANONICAL_SIZE in H.
  destruct (canonical_path (Z.to_nat CANONICAL_SIZE) path w) as [[]]; try done; [destruct H as (_ & b & H & _)|]; by rewrite H.
Qed.

Lemma malloc_ends n w : wp (m_malloc n) (fun _ _ => True) (fun _ _ => True) w.
Proof using. apply wp_malloc. intros b w' _. by destruct b. Qed.

Lemma malloc_calm n : calm (m_malloc n).
Proof using OL. apply calm_keeps; [apply keeps_w_malloc|]. apply malloc_ends. Qed.

Lemma str_dup_calm x : calm (str_dup x).
Proof using OL. intros w. unfold str_dup. eapply wp_seq; [apply malloc_calm| |done]. intros [] w' H. by wp_step. Qed.

Lemma lift_ends {A} (f : W -> (A + Z) * W) w (Q : A -> W -> Prop) (E : Z -> W -> Prop) :
  (forall a w', f w = (inl a, w') -> Q a w') -> (forall e w', f w = (inr e, w') -> E e w') -> wp (lift_sum f) Q E w.
Proof using. intros HQ HE. unfold wp, lift_sum. destruct (f w) as [[a|e] w'] eqn:Hf; auto. Qed.

(** Superblocks that were read have a sane size of the blocks. *)
Definition sane (r : option (list Z)) : Prop := forall sb, r = Some sb -> u32 (sb_get sb s_log_block_size + 10) < 64.

Lemma pread_sane fd off w : wp (pread_sb fd off) (fun r _ => sane r) (fun _ _ => True) w.
Proof using sane_blocks.
  unfold pread_sb. wp_step. wp_step. apply lift_ends; [|intros e w' _; by wp_step]. intros bs w' Hp. wp_step.
  intros sb Hsb. case_if_in Hsb; [|done]. injection Hsb as <-. by eapply sane_blocks.
Qed.

Lemma size_ends fd w : wp (device_size fd) (fun _ _ => True) (fun _ _ => True) w.
Proof using.
  unfold device_size. wp_step. apply lift_ends; [|done]. intros [k n] w' _. destruct k; [|done..]. by apply lift_ends.
Qed.

Lemma secondary_ends sb1 off w : sane sb1 -> wp (keep_secondary sb1 off) (fun _ _ => True) (fun _ _ => True) w.
Proof using.
  intros Hs. unfold keep_secondary. destruct sb1 as [sb|]; [|done]. destruct (nilfs_sb_is_valid sb false); [|done].
  specialize (Hs sb eq_refl). unfold nilfs_sb2_offset_is_too_small. destruct (Z.leb_spec 64 (u32 (sb_get sb s_log_block_size + 10))); [lia|].
  by wp_step; wp_step.
Qed.

Lemma sb_read_calm fd : calm (nilfs_sb_read fd).
Proof using OL sane_blocks.
  apply calm_keeps; [apply keeps_sb_read|]. intros w. unfold nilfs_sb_read, __nilfs_sb_read. wp_step.
  wp_step. eapply wp_mono; [apply malloc_ends|intros _ w1 _|done]. wp_step. eapply wp_mono; [apply malloc_ends|intros _ w2 _|done].
  wp_step. eapply wp_mono; [apply size_ends|intros n w3 _|done]. wp_step. eapply wp_mono; [apply pread_sane|intros r0 w4 _|done].
  wp_step. eapply wp_mono; [apply pread_sane|intros r1 w5 H1|done]. wp_step. eapply wp_mono; [by apply secondary_ends|intros k1 w6 _|done].
  destruct (keep_primary r0), k1; try done. by case_match.
Qed.

(** *** In the state of a program *)

Definition frame s s' : Prop := tobject s' = tobject s /\ files (tworld s') = files (tworld s).
Definition kept s s' : Prop := frame s s' /\ t_dev s' = t_dev s /\ t_ioc s' = t_ioc s.

#[local] Instance frame_preorder : PreOrder frame.
Proof using. split; [done|]. intros s1 s2 s3 [H1 H2] [H3 H4]. split; congruence. Qed.

Lemma kept_frame s s' : kept s s' -> frame s s'.
Proof using. by intros [? _]. Qed.

Lemma tcall_calm {A} (m : M W A) s : calm m -> wp (tcall (L := L) m) (fun _ => kept s) (fun _ => kept s) s.
Proof using.
  intros Hm. specialize (Hm (tworld s)). unfold wp, tcall in *. unfold tworld in Hm. destruct (m (s_world (t_sys s))) as [[] w]; done.
Qed.

(** A calm step, and the rest from a state that is framed. *)
Lemma wp_calm {A B} (m : M W A) (k : A -> M (tool W L) B) (Q : B -> tool W L -> Prop) (E : Z -> tool W L -> Prop) s :
  calm m -> (forall a s', kept s s' -> wp (k a) Q E s') -> (forall e s', kept s s' -> E e s') -> wp (bind (tcall m) k) Q E s.
Proof using. intros Hm Hk HE. eapply wp_seq; [by apply tcall_calm|done|done]. Qed.

Lemma os_calm {A} (f : W -> (A + Z) * W) : (forall w, fds (f w).2 = fds w /\ sems (f w).2 = sems w) -> calm (lift_sum f).
Proof using.
  intros Hf w. specialize (Hf w). apply lift_ends; intros a w' Hfw; rewrite Hfw in Hf; by apply files_eq.
Qed.

Definition no_nul (path : option (list Z)) : Prop := forall p, path = Some p -> 0 ∉ p.

Lemma canonical_name_ok path s : no_nul path -> wp (canonical_name path) (fun _ => kept s) (fun _ => kept s) s.
Proof using OL PL one_link.
  intros H0. unfold canonical_name. destruct path as [p|]; [|done]. apply wp_calm; [by apply real_path_calm, H0| |done].
  intros [c|] s1 H1; [|by wp_step]. apply wp_calm; [apply str_dup_calm| |].
  - intros copy s2 (G1 & G2 & G3). wp_step. destruct H1 as (H1 & H2 & H3). split; [by etrans|]. split; congruence.
  - intros e s2 (G1 & G2 & G3). destruct H1 as (H1 & H2 & H3). split; [by etrans|]. split; congruence.
Qed.

Lemma path_matches_calm wanted path : 0 ∉ path -> calm (path_matches oo_stack wanted path).
Proof using OL PL one_link.
  intros H0. unfold path_matches. destruct wanted as [x|]; [|by intros w]. intros w. eapply wp_seq; [by apply real_path_calm| |done].
  intros r w' H. by wp_step.
Qed.

(** Both names are known. *)
Definition named s : Prop := is_Some (t_dev s) /\ is_Some (t_ioc s).

Lemma keep_names_ok e s : wp (keep_names e) (fun _ s' => frame s s' /\ named s') (fun _ => frame s) s.
Proof using OL.
  unfold keep_names. wp_step. wp_step. eapply wp_mono; [apply tcall_calm, str_dup_calm| |].
  - intros dev s1 [H1 _]. wp_step. wp_step. eapply wp_mono; [apply tcall_calm, str_dup_calm| |].
    + intros ioc s2 [H2 _]. unfold set_paths. wp_step. split; [|split; by eexists]. by trans s1; [|trans s2].
    + intros err s2 [H2 _]. unfold set_paths. wp_step. wp_step. wp_step. by trans s1; [|trans s2].
  - intros err s1 [H1 _]. unfold set_paths. wp_step. wp_step. wp_step. by trans s1.
Qed.

Lemma find_entries_ok l dev dir opt s0 : Forall (fun e => 0 ∉ mnt_fsname e /\ 0 ∉ mnt_dir e) l ->
  forall found s, frame s0 s -> (found = true -> named s) ->
  wp (find_entries l dev dir opt found) (fun r s' => frame s0 s' /\ (r = true -> named s')) (fun _ => frame s0) s.
Proof using OL PL one_link.
  induction 1 as [|e l [He1 He2] Hl IH]; intros found s Hs Hn; cbn [find_entries]; [by wp_step|].
  assert (Hkept : forall s', kept s s' -> frame s0 s' /\ (found = true -> named s')).
  { intros s' (H1 & H2 & H3). split; [by trans s|]. unfold named. rewrite H2, H3. exact Hn. }
  destruct (negb _); [by apply IH|]. apply wp_calm; [by apply path_matches_calm| |by intros _ s' H; apply Hkept].
  intros same s1 H1. destruct (negb same); [by apply IH; apply Hkept|].
  apply wp_calm; [by apply path_matches_calm| |].
  2: { intros _ s' [H _]. trans s1; [by apply Hkept|done]. }
  intros same2 s2 (H2 & H3 & H4).
  assert (Hs2 : frame s0 s2 /\ (found = true -> named s2)).
  { destruct (Hkept _ H1) as [G1 G2]. split; [by trans s1|]. unfold named. by rewrite H3, H4. }
  destruct (negb same2); [by apply IH; apply Hs2|]. destruct (has_option opt (mnt_opts e)); [|by apply IH; apply Hs2].
  eapply wp_seq; [apply keep_names_ok| |].
  - intros _ s3 [H5 H6]. apply IH; [by trans s2; [apply Hs2|]|done].
  - intros err s3 H5. by trans s2; [apply Hs2|].
Qed.

Lemma find_fs_ok dev dir opt s : no_nul dev -> no_nul dir ->
  wp (nilfs_find_fs dev dir opt) (fun _ s' => frame s s' /\ named s') (fun _ => frame s) s.
Proof using OL PL one_link.
  intros H0 H0'. unfold nilfs_find_fs. eapply wp_seq; [by apply canonical_name_ok| |by intros _ s1 [? _]]. intros cdev s1 [H1 _].
  eapply wp_seq; [by apply canonical_name_ok| |by intros _ s2 [? _]; trans s1]. intros cdir s2 [H2 _].
  assert (H12 : frame s s2) by by trans s1. unfold tos. wp_step.
  assert (Hm : wp (tcall (L := L) (lift_sum oo_mounts)) (fun l s3 => frame s2 s3 /\ Forall (fun e => 0 ∉ mnt_fsname e /\ 0 ∉ mnt_dir e) l) (fun _ => frame s2) s2).
  { pose proof (ol_mounts (tworld s2)) as Hq. pose proof (ol_mounts_names (tworld s2)) as Hnames. unfold wp, tcall, lift_sum, tworld in *.
    destruct (oo_mounts (s_world (t_sys s2))) as [[l|e] w]; cbn in Hq |- *; [split; [|by eapply Hnames]|]; (split; [done|by apply files_eq]). }
  eapply wp_mono; [exact Hm| |by intros e3 s3 H3; trans s2]. intros l s3 [H3 Hl]. wp_step. eapply wp_mono; [apply (find_entries_ok l cdev cdir opt s Hl)| |done].
  - by trans s2.
  - done.
  - intros [] s4 [H4 H5]; wp_step; auto.
Qed.

(** *** Descriptors *)

(** The descriptors of an object. *)
Definition own (nf : nilfs) : gset Z :=
  (if bool_decide (0 <= n_devfd nf) then {[n_devfd nf]} else ∅) ∪ (if bool_decide (0 <= n_iocfd nf) then {[n_iocfd nf]} else ∅).

Lemma own_new : own new_nilfs = ∅.
Proof using. unfold own. change (n_devfd new_nilfs) with (-1). change (n_iocfd new_nilfs) with (-1). rewrite bool_decide_false by lia. apply (left_id_L ∅ (∪)). Qed.

(** Besides what was open in [s0], the descriptors and the semaphore of the
    object are. *)
Record owns s0 s : Prop := {
  ow_fds : fds (tworld s) = own (tobject s) ∪ fds (tworld s0);
  ow_new : own (tobject s) ## fds (tworld s0);
  ow_sems : sems (tworld s) = ((if n_sem (tobject s) then 1 else 0) + sems (tworld s0))%nat;
}.

Lemma owns_frame s0 s s' : owns s0 s -> frame s s' -> owns s0 s'.
Proof using. intros [H1 H2 H3] [G1 [= G2 G3]]. by split; rewrite ?G1, ?G2, ?G3. Qed.

(** A file that was opened. *)
Definition opened_fd (fd : Z) s s' : Prop :=
  tobject s' = tobject s /\ t_dev s' = t_dev s /\ t_ioc s' = t_ioc s /\ 0 <= fd /\ fd ∉ fds (tworld s) /\
  fds (tworld s') = {[fd]} ∪ fds (tworld s) /\ sems (tworld s') = sems (tworld s).

Lemma open_ok name s : wp (tos (L := L) (oo_open name)) (fun fd => opened_fd fd s) (fun _ => frame s) s.
Proof using OL.
  pose proof (ol_open name (tworld s)) as H. unfold wp, tos, tcall, lift_sum, tworld in *.
  destruct (oo_open name (s_world (t_sys s))) as [[fd|e] w].
  - destruct H as (H1 & H2 & H3 & H4). by split_and!.
  - split; [done|by apply files_eq].
Qed.

Lemma the_dev_ok s (Q : list Z -> tool W L -> Prop) E : is_Some (t_dev s) -> (forall name, t_dev s = Some name -> Q name s) -> wp the_dev Q E s.
Proof using. intros [name Hn] HQ. unfold the_dev. wp_step. wp_step. rewrite Hn. wp_step. by apply HQ. Qed.

(** The object gets the file. *)
Lemma owns_add s0 s fd s2 s3 : owns s0 s -> opened_fd fd s s2 -> tworld s3 = tworld s2 -> n_sem (tobject s3) = n_sem (tobject s) ->
  own (tobject s3) = {[fd]} ∪ own (tobject s) -> owns s0 s3.
Proof using.
  clear one_link sane_blocks PL OL. intros [O1 O2 O3] (_ & _ & _ & _ & G5 & G6 & G7) Hw Hs Ho. rewrite O1 in G5, G6. split; rewrite ?Ho, ?Hw, ?Hs, ?G6, ?G7; [set_solver..|done].
Qed.

(** *** The parts of an object *)

Definition raw_part (raw : bool) s : Prop :=
  if raw then 0 <= n_devfd (tobject s) /\ exists sb, n_sb (tobject s) = Some sb /\ nilfs_sb_is_valid sb false = true /\
                Z.land (sb_get sb s_feature_incompat) (Z.lnot NILFS_FEATURE_INCOMPAT_SUPP) = 0
  else n_devfd (tobject s) = -1 /\ n_sb (tobject s) = None.

Definition ioc_part (api : bool) s : Prop :=
  if api then 0 <= n_iocfd (tobject s) /\ is_Some (t_ioc s) else n_iocfd (tobject s) = -1.

Definition plain_part (gclk : bool) s : Prop :=
  n_sem (tobject s) = gclk /\ n_opts (tobject s) = 0 /\ n_mincno (tobject s) = NILFS_CNO_MIN.

Lemma parts_frame raw api gclk s s' : frame s s' -> named s' \/ t_dev s' = t_dev s /\ t_ioc s' = t_ioc s ->
  raw_part raw s /\ ioc_part api s /\ plain_part gclk s -> raw_part raw s' /\ ioc_part api s' /\ plain_part gclk s'.
Proof using.
  intros [H _] Hn (H1 & H2 & H3). unfold raw_part, ioc_part, plain_part in *. rewrite H. split; [done|]. split; [|done].
  destruct api; [|done]. destruct H2 as [H2 H4]. split; [done|]. destruct Hn as [[_ Hn]|[_ ->]]; done.
Qed.

Lemma read_valid fd w sb w' : nilfs_sb_read fd w = (Ok sb, w') -> nilfs_sb_is_valid sb false = true.
Proof using.
  unfold nilfs_sb_read. intros H. apply bind_ok_inv in H as ([[sb0 sb1] [off0 off1]] & w1 & Hr & H).
  destruct (sb_read_copies _ _ _ _ _ _ _ Hr) as (_ & G0 & G1 & _). destruct sb0, sb1; unfold ret, abort in H; simplify_eq; [by apply G0..|by apply (G1 _ eq_refl)].
Qed.

Lemma tcall_sb_read fd s : wp (tcall (L := L) (nilfs_sb_read fd)) (fun sb s' => kept s s' /\ nilfs_sb_is_valid sb false = true) (fun _ => kept s) s.
Proof using OL sane_blocks.
  pose proof (tcall_calm _ s (sb_read_calm fd)) as H. pose proof (read_valid fd (tworld s)) as Hv. unfold wp, tcall, tworld in *.
  destruct (nilfs_sb_read fd (s_world (t_sys s))) as [[] w]; try done. split; [done|by eapply Hv].
Qed.

(** A failure in the middle: what was opened is still known. *)
Definition midway s0 s : Prop := owns s0 s /\ n_sem (tobject s) = false.

Lemma midway_frame s0 s s' : midway s0 s -> frame s s' -> midway s0 s'.
Proof using. intros [H1 H2] Hf. split; [by eapply owns_frame|]. by destruct Hf as [-> _]. Qed.

Lemma open_raw_ok dev dir s0 s : no_nul dev -> no_nul dir -> owns s0 s -> tobject s = new_nilfs ->
  wp (open_raw dev dir) (fun _ s' => owns s0 s' /\ is_Some (t_dev s') /\ raw_part true s' /\ ioc_part false s' /\ plain_part false s')
    (fun _ => midway s0) s.
Proof using OL PL one_link sane_blocks.
  intros H0 H0' Ho Hobj. unfold open_raw. assert (Hm : midway s0 s) by (split; [done|by rewrite Hobj]).
  assert (Hname : wp (match dev with None => nilfs_find_fs dev dir MNTOPT_RW
      | Some name => let* copy := tcall (L := L) (str_dup name) in let* ioc := gets t_ioc in set_paths (Some copy) ioc end)
    (fun _ s' => frame s s' /\ is_Some (t_dev s')) (fun _ => frame s) s).
  { destruct dev as [name|].
    - apply wp_calm; [apply str_dup_calm| |by intros _ s1 [? _]]. intros copy s1 [H1 _]. wp_step. wp_step. unfold set_paths. wp_step. split; [by trans s1|by eexists].
    - eapply wp_mono; [by apply find_fs_ok| |done]. intros [] s1 [H1 [H2 _]]. by split. }
  eapply wp_seq; [exact Hname| |intros e s1 H1; by eapply midway_frame]. intros [] s1 [H1 Hdev]. wp_step. apply the_dev_ok; [done|]. intros name _.
  assert (Ho1 := owns_frame _ _ _ Ho H1). destruct H1 as [Hobj1 _]. rewrite Hobj in Hobj1.
  eapply wp_seq; [apply open_ok| |intros e s2 H2; eapply midway_frame; [|exact H2]; split; [done|by rewrite Hobj1]].
  intros fd s2 Hfd. pose proof Hfd as (G1 & G2 & _ & G4 & _). wp_step. unfold change_object. wp_step. set (s3 := with_sys s2 _).
  assert (Hobj3 : tobject s3 = set_devfd new_nilfs fd) by (unfold s3; cbn; fold (tobject s2); by rewrite G1, Hobj1).
  assert (Hm3 : midway s0 s3).
  { split; [|by rewrite Hobj3]. apply (owns_add s0 s1 fd s2); [done|done|done|by rewrite Hobj3, Hobj1|].
    rewrite Hobj3, Hobj1. unfold own. cbn. rewrite bool_decide_true by done. set_solver. }
  eapply wp_seq; [apply tcall_sb_read| |intros e s4 [H4 _]; by eapply midway_frame]. intros sb s4 [(H4 & H5 & H6) Hv].
  destruct (midway_frame _ _ _ Hm3 H4) as [O4 S4]. wp_step. wp_step.
  assert (Hobj4 : tobject s4 = set_devfd new_nilfs fd) by (by destruct H4 as [-> _]).
  set (s5 := with_sys s4 _). assert (Hobj5 : tobject s5 = set_sb (set_devfd new_nilfs fd) (Some sb)) by (unfold s5; cbn; fold (tobject s4); by rewrite Hobj4).
  assert (O5 : owns s0 s5). { destruct O4 as [Q1 Q2 Q3]. rewrite Hobj4 in Q1, Q2, Q3. by split; rewrite Hobj5. }
  destruct (Z.eqb_spec (Z.land (sb_get sb s_feature_incompat) (Z.lnot NILFS_FEATURE_INCOMPAT_SUPP)) 0) as [Hf|Hf]; cbn [negb]; wp_step; [|by split; [|rewrite Hobj5]].
  split; [done|]. split; [change (t_dev s5) with (t_dev s4); rewrite H5; change (t_dev s3) with (t_dev s2); by rewrite G2|].
  unfold raw_part, ioc_part, plain_part. rewrite Hobj5. split_and!; try done. by exists sb.
Qed.

Lemma check_mount_point_ok fd s : is_Some (t_dev s) -> wp (check_mount_point fd) (fun _ => kept s) (fun _ => kept s) s.
Proof using OL.
  intros Hd. unfold check_mount_point. wp_step. apply the_dev_ok; [done|]. intros name _. unfold tos.
  apply wp_calm; [apply os_calm, ol_stat| |done]. intros st s1 H1. destruct (st_kind st); try (by wp_step).
  apply wp_calm; [apply os_calm, ol_fstat| |].
  - intros st' s2 (H2 & H3 & H4). assert (H12 : kept s s2).
    { destruct H1 as (H5 & H6 & H7). split; [by trans s1|]. split; congruence. }
    destruct (st_kind st'); try (by wp_step). case_match; by wp_step.
  - intros e s2 (H2 & H3 & H4). destruct H1 as (H5 & H6 & H7). split; [by trans s1|]. split; congruence.
Qed.

Lemma open_ioc_ok dev dir flags raw s0 s : no_nul dev -> no_nul dir -> owns s0 s -> raw_part raw s /\ ioc_part false s /\ plain_part false s ->
  wp (open_ioc dev dir flags) (fun _ s' => owns s0 s' /\ is_Some (t_dev s') /\ raw_part raw s' /\ ioc_part true s' /\ plain_part false s')
    (fun _ => midway s0) s.
Proof using OL PL one_link.
  intros H0 H0' Ho Hp. assert (Hm : midway s0 s) by (split; [done|apply Hp]). unfold open_ioc.
  assert (Hrest : forall s1, frame s s1 -> named s1 -> wp (let* ioc := gets t_ioc in let* name := of_option ioc in
      let* fd := tos (oo_open name) in change_object (fun nf => set_iocfd nf fd) ;; check_mount_point fd)
    (fun _ s' => owns s0 s' /\ is_Some (t_dev s') /\ raw_part raw s' /\ ioc_part true s' /\ plain_part false s') (fun _ => midway s0) s1).
  { intros s1 H1 [Hd [ioc Hioc]]. wp_step. wp_step. wp_step. rewrite Hioc. wp_step.
    eapply wp_seq; [apply open_ok| |intros e s2 H2; eapply midway_frame; [|exact H2]; by eapply midway_frame].
    intros fd s2 Hfd. pose proof Hfd as (G1 & G2 & G3 & G4 & _). wp_step. unfold change_object. wp_step. set (s3 := with_sys s2 _).
    assert (Hobj3 : tobject s3 = set_iocfd (tobject s) fd) by (unfold s3; cbn; fold (tobject s2); rewrite G1; by destruct H1 as [-> _]).
    destruct Hp as (P1 & P2 & P3). assert (Hm3 : midway s0 s3).
    { split; [|rewrite Hobj3; apply Hm]. apply (owns_add s0 s1 fd s2); [by eapply owns_frame|done|done|by rewrite Hobj3; destruct H1 as [-> _]|].
      destruct H1 as [-> _]. rewrite Hobj3. unfold own, ioc_part in *. cbn. rewrite P2, (bool_decide_true (0 <= fd)) by done. cbn. clear. set_solver. }
    assert (Hd3 : is_Some (t_dev s3)) by (change (t_dev s3) with (t_dev s2); by rewrite G2).
    eapply wp_mono; [by apply check_mount_point_ok| |].
    - intros _ s4 (H4 & H5 & H6). split; [eapply owns_frame; [apply Hm3|done]|]. split; [by rewrite H5|].
      apply (parts_frame _ _ _ s3 s4 H4); [by right|]. unfold raw_part, ioc_part, plain_part in *. rewrite Hobj3.
      split; [exact P1|]. split; [|exact P3]. split; [exact G4|]. change (t_ioc s3) with (t_ioc s2). by rewrite G3, Hioc.
    - intros e s4 [H4 _]. by eapply midway_frame. }
  wp_step. wp_step. eapply wp_mono; [by apply find_fs_ok| |].
  - intros [] s1 [H1 H2]. wp_step. wp_step. by apply Hrest.
  - intros e s1 H1. destruct (has_flag flags NILFS_OPEN_RDONLY); wp_step; [|wp_step; by eapply midway_frame].
    eapply wp_mono; [by apply find_fs_ok| |intros e' s2 H2; eapply midway_frame; [|exact H2]; by eapply midway_frame].
    intros [] s2 [H2 H3]. apply Hrest; [by trans s1|done].
Qed.

(** *** Closing *)

Lemma close_fd_wp fd s (Q : unit -> tool W L -> Prop) E :
  (forall s', tobject s' = tobject s -> fds (tworld s') = (if bool_decide (0 <= fd) then fds (tworld s) ∖ {[fd]} else fds (tworld s)) ->
    sems (tworld s') = sems (tworld s) -> Q tt s') -> wp (close_fd fd) Q E s.
Proof using OL.
  intros HQ. unfold close_fd. destruct (Z.leb_spec 0 fd); cbn.
  - destruct (ol_close fd (tworld s)) as [H1 H2]. apply (HQ (with_sys s (mk_sys (tobject s) (oo_close fd (tworld s))))); [done| |done].
    rewrite bool_decide_true by done. exact H1.
  - apply HQ; [done| |done]. by rewrite bool_decide_false by lia.
Qed.

Lemma close_files_wp (X : gset Z) s : fds (tworld s) = own (tobject s) ∪ X -> own (tobject s) ## X ->
  wp close_files (fun _ s' => fds (tworld s') = X /\ sems (tworld s') = sems (tworld s) /\ tobject s' = new_nilfs) (fun _ _ => False) s.
Proof using OL.
  intros O1 O2. unfold close_files, the_object. wp_step. wp_step. wp_step. apply close_fd_wp. intros s1 G1 G2 G3. wp_step. apply close_fd_wp.
  intros s2 G4 G5 G6. wp_step. unfold change_object, set_paths. wp_step. wp_step. unfold tworld in *. cbn. split; [|split; [congruence|done]].
  unfold own, tobject in *. rewrite G5, G2, O1. clear - O2. destruct (bool_decide _), (bool_decide _); set_solver.
Qed.

Lemma close_files_ok s0 s : midway s0 s -> wp close_files (fun _ s' => files (tworld s') = files (tworld s0) /\ tobject s' = new_nilfs) (fun _ _ => False) s.
Proof using OL.
  intros [[O1 O2 O3] Hs]. rewrite Hs in O3. eapply wp_mono; [by apply (close_files_wp (fds (tworld s0)))| |done].
  intros _ s' (H1 & H2 & H3). split; [|done]. apply files_eq. split; [done|]. by rewrite H2, O3.
Qed.

(** An object that owns its parts is closed. *)
Lemma close_ok s0 s : owns s0 s -> wp nilfs_close (fun _ s' => files (tworld s') = files (tworld s0) /\ tobject s' = new_nilfs) (fun _ _ => False) s.
Proof using OL.
  intros [O1 O2 O3]. unfold nilfs_close, the_object. wp_step. wp_step. wp_step. fold (tobject s). destruct (n_sem (tobject s)) eqn:Hs.
  - destruct (ol_sem_close (tworld s)) as [H1 H2]. set (s1 := with_sys s (mk_sys (tobject s) (oo_sem_close (tworld s)))).
    apply (wp_run _ tt s1); [done|]. change (oo_sem_close (tworld s)) with (tworld s1) in H1, H2. change (tobject s) with (tobject s1) in O1, O2.
    eapply wp_mono; [apply (close_files_wp (fds (tworld s0))); [by rewrite H1|done]| |done].
    intros _ s' (H3 & H4 & H5). split; [|done]. apply files_eq. split; [done|]. by rewrite H4, H2, O3.
  - wp_step. apply close_files_ok. split; [|done]. split; [done..|by rewrite Hs].
Qed.

(** *** The semaphore *)

Lemma sem_name_ok rest s (Q : list Z -> tool W L -> Prop) E : (length rest <= 41)%nat -> (forall name, Q name s) -> wp (sem_name rest) Q E s.
Proof using.
  clear. intros Hl HQ. unfold sem_name. rewrite length_app. destruct (Z.ltb_spec (Z.of_nat (length (codes "/nilfs-cleaner-") + length rest)) 251) as [|H]; [by wp_step|].
  exfalso. change (length (codes "/nilfs-cleaner-")) with 15%nat in H. lia.
Qed.

Definition typed_object (flags : Z) s : Prop :=
  is_Some (t_dev s) /\ raw_part (has_flag flags NILFS_OPEN_RAW) s /\
  ioc_part (has_flag flags (Z.lor NILFS_OPEN_RDONLY (Z.lor NILFS_OPEN_WRONLY NILFS_OPEN_RDWR))) s /\
  plain_part (has_flag flags NILFS_OPEN_GCLK) s.

Lemma sem_open_wp name s :
  wp (tos (L := L) (oo_sem_open name)) (fun _ s' => tobject s' = tobject s /\ t_dev s' = t_dev s /\ t_ioc s' = t_ioc s /\
    fds (tworld s') = fds (tworld s) /\ sems (tworld s') = Datatypes.S (sems (tworld s))) (fun _ => frame s) s.
Proof using OL.
  pose proof (ol_sem_open name (tworld s)) as Hq. unfold wp, tos, tcall, lift_sum, tworld in *.
  destruct (oo_sem_open name (s_world (t_sys s))) as [[[]|e] w]; [destruct Hq; by split_and!|]. split; [done|by apply files_eq].
Qed.

Lemma open_sem_ok raw api s0 s : owns s0 s -> is_Some (t_dev s) -> raw_part raw s /\ ioc_part api s /\ plain_part false s ->
  wp nilfs_open_sem (fun _ s' => owns s0 s' /\ is_Some (t_dev s') /\ raw_part raw s' /\ ioc_part api s' /\ plain_part true s') (fun _ => midway s0) s.
Proof using OL.
  intros Ho Hd Hp. assert (Hm : midway s0 s) by (split; [done|apply Hp]). unfold nilfs_open_sem. wp_step. apply the_dev_ok; [done|]. intros name _. wp_step.
  assert (Hst : wp (tos (L := L) (oo_stat name)) (fun st s1 => kept s s1) (fun _ => kept s) s) by apply tcall_calm, os_calm, ol_stat.
  eapply wp_mono; [exact Hst| |intros e s1 [H1 _]; by eapply midway_frame]. intros st s1 (H1 & H2 & H3).
  assert (Hm1 := midway_frame _ _ _ Hm H1).
  assert (Hsem : forall semname, wp (tos (oo_sem_open semname) ;; change_object (L := L) (fun nf => set_sem nf true))
    (fun _ s' => owns s0 s' /\ is_Some (t_dev s') /\ raw_part raw s' /\ ioc_part api s' /\ plain_part true s') (fun _ => midway s0) s1).
  { intros semname. eapply wp_seq; [apply sem_open_wp| |intros e s2 H4; by eapply midway_frame].
    intros [] s2 (G1 & G2 & G3 & G4 & G5). unfold change_object. wp_step. destruct Hm1 as [[O1 O2 O3] S1]. set (s3 := with_sys s2 _).
    assert (Hobj : tobject s3 = set_sem (tobject s) true) by (unfold s3; cbn; fold (tobject s2); rewrite G1; by destruct H1 as [-> _]).
    rewrite (proj1 H1) in O1, O2, O3. split; [split|].
    - rewrite Hobj. change (tworld s3) with (tworld s2). by rewrite G4.
    - by rewrite Hobj.
    - rewrite Hobj. change (tworld s3) with (tworld s2). rewrite G5, O3. rewrite (proj1 H1) in S1. by rewrite S1.
    - destruct Hp as (P1 & P2 & P3). unfold raw_part, ioc_part, plain_part in *. rewrite Hobj.
      change (t_dev s3) with (t_dev s2). change (t_ioc s3) with (t_ioc s2). rewrite G2, G3, H2, H3. split; [done|]. split; [exact P1|]. split; [exact P2|].
      split; [done|]. apply P3. }
  assert (Hlen : forall n, (length (print_cno n) <= 20)%nat).
  { apply print_cno_length. }
  wp_step. destruct (st_kind st).
  - apply sem_name_ok; [|exact Hsem]. pose proof (Hlen (st_rdev st)). lia.
  - apply sem_name_ok; [|exact Hsem]. rewrite !length_app. change (length [45]) with 1%nat. pose proof (Hlen (st_dev st)). pose proof (Hlen (st_ino st)). lia.
  - apply sem_name_ok; [|exact Hsem]. rewrite !length_app. change (length [45]) with 1%nat. pose proof (Hlen (st_dev st)). pose proof (Hlen (st_ino st)). lia.
  - by wp_step.
Qed.

Lemma open_parts_ok dev dir flags s0 s : no_nul dev -> no_nul dir -> owns s0 s -> tobject s = new_nilfs ->
  has_flag flags (Z.lor NILFS_OPEN_RAW (Z.lor NILFS_OPEN_RDONLY (Z.lor NILFS_OPEN_WRONLY NILFS_OPEN_RDWR))) = true ->
  wp (open_parts dev dir flags) (fun _ s' => owns s0 s' /\ typed_object flags s') (fun _ => midway s0) s.
Proof using OL PL one_link sane_blocks.
  intros H0 H0' Ho Hobj Hflags. unfold open_parts. set (raw := has_flag flags NILFS_OPEN_RAW).
  set (api := has_flag flags (Z.lor NILFS_OPEN_RDONLY (Z.lor NILFS_OPEN_WRONLY NILFS_OPEN_RDWR))).
  assert (Hany : raw || api = true).
  { revert Hflags. unfold raw, api, has_flag. clear. rewrite Z.land_lor_distr_r. destruct (Z.eqb_spec (Z.land flags NILFS_OPEN_RAW) 0) as [->|]; [|done]. by rewrite Z.lor_0_l. }
  eapply (wp_seq _ _ (fun _ s1 => owns s0 s1 /\ (raw = true -> is_Some (t_dev s1)) /\ raw_part raw s1 /\ ioc_part false s1 /\ plain_part false s1) (fun _ => midway s0)); [| |done].
  { destruct raw.
    - eapply wp_mono; [by apply open_raw_ok| |done]. intros _ s1 (G1 & G2 & G3). done.
    - wp_step. unfold raw_part, ioc_part, plain_part. rewrite Hobj. done. }
  intros [] s1 (G1 & G2 & G3).
  eapply (wp_seq _ _ (fun _ s2 => owns s0 s2 /\ is_Some (t_dev s2) /\ raw_part raw s2 /\ ioc_part api s2 /\ plain_part false s2) (fun _ => midway s0)); [| |done].
  { destruct api; [by apply open_ioc_ok|]. wp_step. rewrite orb_false_r in Hany. auto. }
  intros [] s2 (G4 & G5 & G6). unfold typed_object. fold raw api. destruct (has_flag flags NILFS_OPEN_GCLK).
  - eapply wp_mono; [by apply (open_sem_ok raw api)| |done]. intros _ s3 (F1 & F2 & F3). done.
  - wp_step. split; [done|]. by split.
Qed.

(** C14: the object that [nilfs_open] returns has exactly the parts its flags
    ask for: with RAW the device is open and its valid superblock without
    unsupported features is in memory, with an API flag the mount point is
    open, with GCLK the semaphore is, nothing else is, and the name of the
    device is known.  The descriptors and semaphores open now are those of
    before and those of the object; [nilfs_close] closes exactly these.  A
    failure, at whatever point, leaves nothing open.  No path may lead through
    two symbolic links, and the device may not hold a superblock whose block
    size shifts too far. *)
Theorem nilfs_open_typed dev dir flags s : no_nul dev -> no_nul dir ->
  wp (nilfs_open dev dir flags)
    (fun _ s' => typed_object flags s' /\ owns s s' /\
       wp nilfs_close (fun _ s'' => files (tworld s'') = files (tworld s) /\ tobject s'' = new_nilfs) (fun _ _ => False) s')
    (fun _ s' => files (tworld s') = files (tworld s)) s.
Proof using OL PL one_link sane_blocks.
  intros H0 H0'. unfold nilfs_open. destruct (has_flag flags (Z.lor NILFS_OPEN_RAW _)) eqn:Hflags; cbn [negb]; [|by wp_step].
  eapply wp_seq; [apply tcall_calm, malloc_calm| |by intros e s1 [[_ H1] _]]. intros [] s1 [[_ H1] _]. unfold change_object, set_paths.
  wp_step. wp_step. wp_step. wp_step. set (s2 := mk_tool _ None None _).
  assert (Ho : owns s s2).
  { injection H1 as F1 F2. split; change (tobject s2) with new_nilfs; change (tworld s2) with (tworld s1); rewrite ?own_new, ?F1, ?F2.
    - symmetry. apply (left_id_L ∅ (∪)).
    - apply disjoint_empty_l.
    - done. }
  wp_step. wp_step. eapply wp_mono; [by apply (open_parts_ok dev dir flags s)| |].
  - intros [] s3 [G1 G2]. wp_step. split; [done|]. split; [done|]. by apply close_ok.
  - intros e s3 H3. wp_step. eapply wp_mono; [by apply (close_files_ok s)| |done]. intros _ s4 [H4 _]. by wp_step.
Qed.
End OpenSpec.
