(* ===== verification/ResizeMain.v ===== *)
(** * The command line of the resize tool: sbin/nilfs-resize.c

    [main] reads the options, the device and the size, looks the device up in
    the mount table, and opens the file system for [resize_opened] of
    [Resize].  The state is that of [Resize] with the path names of the
    [struct nilfs]. *)

From Stdlib Require Import String.
From S2P Require Import Prelude Vector Hoare Ondisk Sb Kernel Nilfs Segment Gc Parser Realpath Ismounted Mounts Open Resize.

Record resize_params := mk_rparams { rp_version : bool; rp_verbose : bool; rp_yes : bool }.

Definition sector_size : Z := 512.

Record resize_run (W : Type) := mk_run { rr_rs : rs W; rr_dev : option (list Z); rr_ioc : option (list Z) }.
Arguments mk_run {W} _ _ _.
Arguments rr_rs {W} _.
Arguments rr_dev {W} _.
Arguments rr_ioc {W} _.

(** [M] and [P] are known to getopt, but not to the program. *)
Fixpoint nilfs_resize_parse_options (argv : list Z) (o : resize_params) : res resize_params :=
  match argv with
  | [] => Ok o
  | c :: argv =>
    if c =? 104 (* h *) then Exit EXIT_SUCCESS
    else if c =? 118 (* v *) then nilfs_resize_parse_options argv (mk_rparams (rp_version o) true (rp_yes o))
    else if c =? 121 (* y *) then nilfs_resize_parse_options argv (mk_rparams (rp_version o) (rp_verbose o) true)
    else if c =? 86 (* V *) then nilfs_resize_parse_options argv (mk_rparams true (rp_verbose o) (rp_yes o))
    else Exit EXIT_FAILURE
  end.

(** [size & ~(sector_size - 1)] *)
Definition align_sector (size : Z) : Z := Z.land size (u64 (Z.lnot (sector_size - 1))).

Section ResizeMain.
Context {W : Type} {K : Kernel W} {J : Junk} {T : ResizeEnv W} {P : PathOs W} {F : OpenOs W} {MO : MountsOs W}.
Abbreviation MR := (M (resize_run W)).

(** A computation of [Resize], one of [Open], and one on the world. *)
Definition rlib {A} (m : M (rs W) A) : MR A :=
  fun x => let '(r, s) := m (rr_rs x) in (r, mk_run s (rr_dev x) (rr_ioc x)).
Definition with_object {A} (m : M (tool W message) A) : MR A :=
  fun x =>
    let s := rr_rs x in
    let '(r, t) := m (mk_tool (g_sys (r_lib s)) (rr_dev x) (rr_ioc x) (r_out s)) in
    (r, mk_run (with_out (with_lib s (Gc.with_sys (r_lib s) (t_sys t))) (t_out t)) (t_dev t) (t_ioc t)).
Definition wlib {A} (m : M W A) : MR A := rlib (libs (fun y => let '(r, w) := m (s_world y) in (r, mk_sys (s_nilfs y) w))).

(** The size in bytes, [devsize]. *)
Definition nilfs_resize_get_device_size (device : list Z) : MR Z :=
  let* fd := attempt (wlib (lift_sum (oo_open device))) in
  match fd with
  | inr e => rlib (err "cannot open device") ;; fail e
  | inl fd =>
    let* size := attempt (wlib (lift_sum (dev_getsize64 fd))) in
    (match size with inr _ => rlib (err "cannot get device size") | inl _ => ret tt end) ;;
    wlib (modify (oo_close fd)) ;;
    match size with inr e => fail e | inl size => ret size end
  end.

Definition nilfs_resize_online (o : resize_params) (device : list Z) (newsize : Z) : MR Z :=
  let* r := attempt (with_object (nilfs_open (Some device) None (Z.lor NILFS_OPEN_RAW (Z.lor NILFS_OPEN_RDWR NILFS_OPEN_GCLK)))) in
  match r with
  | inr _ => rlib (err "cannot open NILFS") ;; ret EXIT_FAILURE
  | inl _ =>
    let* status := rlib (resize_opened (rp_verbose o) (rp_yes o) newsize) in
    with_object nilfs_close ;;
    ret status
  end.

(** The size that is asked for: the one of the arguments, or that of the
    device; [None] for a bad one. *)
Definition requested_size (args : list (list Z)) (devsize : Z) : MR (option Z) :=
  match args with
  | [] => ret (Some devsize)
  | [] :: _ => abort
  | arg :: args =>
    match nilfs_resize_parse_size arg with
    | None => rlib (err "bad size argument") ;; ret None
    | Some size =>
      if devsize <? size then rlib (err "size larger than partition size") ;; ret None
      else
        match args with
        | _ :: _ => rlib (err "too many arguments.") ;; ret None
        | [] =>
          if negb (Z.land size (sector_size - 1) =? 0) then
            rlib (msg (Text "size is not aligned to sector size. truncated")) ;; ret (Some (align_sector size))
          else ret (Some size)
        end
    end
  end.

(** [main] behind the check of the device. *)
Definition resize_device (o : resize_params) (device : list Z) (args : list (list Z)) : MR Z :=
  let* devsize := attempt (nilfs_resize_get_device_size device) in
  match devsize with
  | inr _ => ret EXIT_FAILURE
  | inl devsize =>
    let* size := requested_size args devsize in
    match size with
    | None => ret EXIT_FAILURE
    | Some size =>
      let* mounted := attempt (wlib (check_mount device)) in
      match mounted with
      | inr _ => rlib (msg (Text "Error checking mount status")) ;; ret EXIT_FAILURE
      | inl false => rlib (err "not currently mounted. Offline resizing is not supported at present.") ;; ret EXIT_FAILURE
      | inl true => nilfs_resize_online o device size
      end
    end
  end.

Definition resize_main (argv : list Z) (args : list (list Z)) : MR unit :=
  match nilfs_resize_parse_options argv (mk_rparams false false false) with
  | Ok o =>
    if rp_version o then rlib (msg (Text "version")) ;; exit_with EXIT_SUCCESS
    else
      match args with
      | [] => exit_with EXIT_FAILURE
      | device :: args =>
        let* st := attempt (wlib (lift_sum (oo_stat device))) in
        match st with
        | inr _ => rlib (err "cannot find device") ;; exit_with EXIT_FAILURE
        | inl st =>
          match st_kind st with
          | Block => let* status := resize_device o device args in exit_with status
          | _ => rlib (err "device must be a block device.") ;; exit_with EXIT_FAILURE
          end
        end
      end
  | Exit c => exit_with c
  | _ => abort
  end.
End ResizeMain.

(** ** The size that is asked for *)

Lemma align_sector_spec size : is_u64 size -> align_sector size = 512 * (size / 512).
Proof.
  intros Hs. unfold align_sector. change (u64 (Z.lnot (sector_size - 1))) with (Z.ldiff (Z.ones 64) (Z.ones 9)).
  rewrite !Z.ldiff_land, Z.land_assoc, Z.land_ones by lia. change (size `mod` 2 ^ 64) with (u64 size). rewrite u64_id by done.
  rewrite <- Z.ldiff_land, Z.ldiff_ones_r, Z.shiftl_mul_pow2, Z.shiftr_div_pow2 by lia. change (2 ^ 9) with 512. lia.
Qed.

Lemma parse_size_range arg size : nilfs_resize_parse_size arg = Some size -> 0 <= size.
Proof.
  unfold nilfs_resize_parse_size. pose proof (strtoull_nonneg arg 0 ltac:(lia)) as H. destruct (strtoull arg 0) as [v [|c []]]; cbn in H.
  - intros [= <-]. exact H.
  - repeat (case_if; [intros [= <-]; apply u64_range|]). done.
  - done.
Qed.

(** No size beyond the device is asked for, and only the whole device may
    end inside a sector. *)
Lemma requested_size_bounds {W : Type} {K : Kernel W} args devsize (x x' : resize_run W) size : is_u64 devsize ->
  requested_size args devsize x = (Ok (Some size), x') -> 0 <= size <= devsize /\ (args = [] /\ size = devsize \/ size `mod` 512 = 0).
Proof.
  intros Hd. unfold requested_size. destruct args as [|[|c arg] args]; [intros [= <- _]; split; [destruct Hd; lia|by left]|done|].
  destruct (nilfs_resize_parse_size (c :: arg)) as [v|] eqn:Hp; [|done]. apply parse_size_range in Hp.
  destruct (Z.ltb_spec devsize v); [done|]. destruct args; [|done]. assert (Hv : is_u64 v) by (destruct Hd; split; lia).
  assert (Hm : Z.land v (sector_size - 1) = v `mod` 512) by (change (sector_size - 1) with (Z.ones 9); by rewrite Z.land_ones by lia).
  rewrite Hm. destruct (Z.eqb_spec (v `mod` 512) 0) as [H0|H0]; cbn [negb].
  - intros [= <- _]. split; [lia|by right].
  - unfold bind, rlib, msg. cbn. intros [= <- _]. rewrite align_sector_spec by done. split; [|right; rewrite Z.mul_comm; by apply Z.mod_mul].
    pose proof (Z.div_mod v 512 ltac:(lia)). pose proof (Z.mod_pos_bound v 512 ltac:(lia)). pose proof (Z.div_pos v 512 ltac:(lia)). lia.
Qed.
