(* ===== verification/CleanerdMain.v ===== *)
(** * Starting and stopping the daemon: sbin/cleanerd.c

    [main] of the cleaner daemon: the command line, the two forks, the object
    with its file system, its configuration, its policy and its queue, the
    main loop of [Cleanerd], and the end.  SIGTERM jumps out of the main loop
    while it sleeps; the number of rounds after which it arrives is a
    parameter. *)

From Stdlib Require Import String.
From S2P Require Import Prelude Vector Hoare Ondisk Sb Kernel Nilfs Segment Gc Cnormap Parser Tune Float64 Policy Cldconfig Realpath Cleanerd CleanerExec Ismounted Mounts Open.

(** The build sets [SYSCONFDIR]. *)
Definition NILFS_CLEANERD_CONFFILE (SYSCONFDIR : list Z) : list Z := SYSCONFDIR ++ codes "/nilfs_cleanerd.conf".
Definition ROOTDIR : list Z := codes "/".
Definition DEVNULL : list Z := codes "/dev/null".
Definition sizeof_cleanerd : Z := 424.

(** The system calls that only [main] makes.  [so_fork] is 0 in the child;
    [so_print] is what the process that started the daemon can read. *)
Class StartOs (W : Type) := {
  so_fork : W -> (Z + Z) * W;
  so_setsid : W -> (unit + Z) * W;
  so_chdir : list Z -> W -> (unit + Z) * W;
  so_getpid : W -> Z;
  so_print : list Z -> W -> W;
  so_write : Z -> list Z -> W -> (Z + Z) * W;
  so_mq_open : list Z -> W -> (Z + Z) * W;
  so_mq_close : Z -> W -> W;
  so_mq_unlink : list Z -> W -> W;
}.

Record cleanerd_params := mk_cparams { cp_conffile : list Z; cp_protection_period : Z }.

(** The loop over the options. *)
Fixpoint cleanerd_options (argv : list (Z * list Z)) (o : cleanerd_params) : res cleanerd_params :=
  match argv with
  | [] => Ok o
  | (c, optarg) :: argv =>
    if c =? 99 (* c *) then cleanerd_options argv (mk_cparams optarg (cp_protection_period o))
    else if c =? 110 (* n *) then cleanerd_options argv o
    else if c =? 112 (* p *) then
      let '(period, endptr) := strtoull optarg 10 in
      if same_ptr (Some endptr) optarg || negb (at_end (Some endptr)) then Exit EXIT_FAILURE
      else if (period =? ULONG_MAX) && strtoul_erange optarg then Exit EXIT_FAILURE
      else cleanerd_options argv (mk_cparams (cp_conffile o) period)
    else if (c =? 104) || (c =? 86) (* h, V *) then Exit EXIT_SUCCESS
    else Exit EXIT_FAILURE
  end.

(** The members behind [memset]. *)
Definition zero_config : nilfs_cldconfig :=
  mk_cldconfig NILFS_SELECTION_POLICY_TIMESTAMP zero_timespec "" "" 0 0 zero_timespec 0 0 zero_timespec zero_timespec zero_timespec false false 0 0 0.
Definition zero_speed : gc_speed := mk_speed 0 zero_timespec 0.
Definition zero_cleanerd : nilfs_cleanerd :=
  mk_cleanerd zero_config [] 0 false false false false zero_speed zero_timespec zero_timespec 0 0 (replicate 16 0) 0 0 0 0 zero_timespec zero_speed.

(** The object, with the members that [Cleanerd] has as parameters. *)
Record cleanerd_object (W : Type) := mk_object {
  ob_cleanerd : nilfs_cleanerd;
  ob_cnormap : nilfs_cnormap;
  ob_policy : nilfs_cleaning_policy (W := W);
  ob_policy_data : Z;
  ob_recvq : Z;
  ob_recvq_name : list Z;
}.
Arguments mk_object {W} _ _ _ _ _ _.
Arguments ob_cleanerd {W} _.
Arguments ob_cnormap {W} _.
Arguments ob_policy {W} _.
Arguments ob_policy_data {W} _.
Arguments ob_recvq {W} _.
Arguments ob_recvq_name {W} _.

Section CleanerdMain.
Context {W : Type} {K : Kernel W} {J : Junk} {D : DaemonOs W} {P : PathOs W} {F : OpenOs W} {SO : StartOs W}.
Context (SYSCONFDIR : list Z) (junk_span : nilfs_cpspan) (junk_cand : nilfs_segment_candidate) (fuel : nat).
Abbreviation MT := (M (tool W unit)).

(** A computation on the daemon: its result and its state afterwards. *)
Definition on_daemon {A} (c : nilfs_cleanerd) (map : nilfs_cnormap) (m : M (ds W) A) : MT (A * nilfs_cleanerd * nilfs_cnormap) :=
  fun s =>
    let '(r, d) := m (mk_ds (mk_cns (t_sys s) map tt) c) in
    (match r with
     | Ok a => Ok (a, d_cld d, cn_map (d_cns d))
     | Err e => Err e | Abort => Abort | Exit st => Exit st | NoFuel => NoFuel
     end, Open.with_sys s (cn_sys (d_cns d))).

(** ** The queue *)

(** The size of [nambuf] is [NAME_MAX - 4]. *)
Definition cleanerd_queue_name (rest : list Z) : MT (list Z) :=
  let name := codes "/nilfs-cleanerq-" ++ rest in
  if Z.of_nat (length name) <? 251 then ret name else abort.

(** What the name ends with. *)
Definition cleanerd_queue_text (st : stat_answer) : option (list Z) :=
  match st_kind st with
  | Block => Some (print_cno (st_rdev st))
  | Regular | Directory => Some (print_cno (st_dev st) ++ [45] ++ print_cno (st_ino st))
  | OtherKind => None
  end.

Definition nilfs_cleanerd_open_queue (device : list Z) : MT (Z * list Z) :=
  let* st := tos (oo_stat device) in
  let* name := match cleanerd_queue_text st with Some text => cleanerd_queue_name text | None => fail EINVAL end in
  let* recvq_name := tcall (str_dup name) in
  let* recvq := tos (so_mq_open name) in
  ret (recvq, recvq_name).

Definition nilfs_cleanerd_close_queue (o : cleanerd_object W) : MT unit :=
  (if 0 <=? ob_recvq o then
     tdo (so_mq_close (ob_recvq o)) ;;
     tdo (so_mq_unlink (ob_recvq_name o))
   else ret tt) ;;
  if 0 <=? cl_sendq (ob_cleanerd o) then tdo (d_mq_close (cl_sendq (ob_cleanerd o))) else ret tt.

(** ** The object *)

(** [a], or [undo] and the failure. *)
Definition or_undo {A} (m : MT A) (undo : MT unit) : MT A :=
  let* r := attempt m in
  match r with
  | inl a => ret a
  | inr e => undo ;; fail e
  end.

Definition builtin_policies : option (list (nilfs_cleaning_policy (W := W))) :=
  registered ← nilfs_register_policy [] (nilfs_policy_timestamp junk_span);
  registered ← nilfs_register_policy registered (nilfs_policy_greedy junk_span);
  registered ← nilfs_register_policy registered (nilfs_policy_cost_benefit junk_span);
  nilfs_register_policy registered (nilfs_policy_hot_cold junk_span).

(** The policy of the configuration, and its initialization. *)
Definition load_policy (registered : list nilfs_cleaning_policy) (c : nilfs_cleanerd) (map : nilfs_cnormap)
  : MT (nilfs_cleaning_policy (W := W) * Z * nilfs_cnormap) :=
  let policy := default (nilfs_policy_timestamp junk_span) (nilfs_get_policy registered (cf_policy_name (cl_config c))) in
  match pl_init policy with
  | None => ret (policy, 0, map)
  | Some init =>
    let* (data, _, map) := on_daemon c map (cns_call init) in
    ret (policy, data, map)
  end.

(** What comes after [nilfs_open]. *)
Definition create_parts (registered : list nilfs_cleaning_policy) (protection_period : Z) (conffile : list Z) : MT (cleanerd_object W) :=
  let* map := slib (nilfs_cnormap_create junk_span) in
  let* name := tcall (str_dup conffile) in
  let* (_, c, map) := on_daemon (with_conffile zero_cleanerd name) map (nilfs_cleanerd_config protection_period None) in
  let* (policy, data, map) := load_policy registered c map in
  let* dev := nilfs_get_dev in
  let* dev := of_option dev in
  let* (recvq, recvq_name) := nilfs_cleanerd_open_queue dev in
  ret (mk_object (with_sendq c (-1)) map policy data recvq recvq_name).

Definition nilfs_cleanerd_create (registered : list nilfs_cleaning_policy) (protection_period : Z)
    (dev dir : option (list Z)) (conffile : list Z) : MT (cleanerd_object W) :=
  tcall (m_malloc sizeof_cleanerd) ;;
  nilfs_open dev dir (Z.lor NILFS_OPEN_RAW (Z.lor NILFS_OPEN_RDWR NILFS_OPEN_GCLK)) ;;
  or_undo (create_parts registered protection_period conffile) nilfs_close.

Definition nilfs_cleanerd_destroy (o : cleanerd_object W) : MT unit :=
  nilfs_cleanerd_close_queue o ;;
  nilfs_close.

(** ** Becoming a daemon *)

Definition oom_adjust : MT unit :=
  let* st := attempt (tos (oo_stat (codes "/proc/self/oom_score_adj"))) in
  let '(path, score) := match st with
                        | inl _ => (codes "/proc/self/oom_score_adj", codes "-1000" ++ [10])
                        | inr _ => (codes "/proc/self/oom_adj", codes "-17" ++ [10])
                        end in
  let* fd := tos (oo_open path) in
  let* r := attempt (tos (so_write fd score)) in
  tdo (oo_close fd) ;;
  match r with inl _ => ret tt | inr e => fail e end.

(** The parent of a fork exits. *)
Definition fork_off : MT unit :=
  let* pid := tos so_fork in
  if pid =? 0 then ret tt else exit_with EXIT_SUCCESS.

Definition announce (pid : Z) : list Z := codes "NILFS_CLEANERD_PID=" ++ print_cno pid ++ [10].

Definition daemonize (nochdir noclose : bool) : MT unit :=
  fork_off ;;
  tos so_setsid ;;
  fork_off ;;
  (if nochdir then ret tt else tos (so_chdir ROOTDIR)) ;;
  let* s := get_state in
  tdo (so_print (announce (so_getpid (s_world (t_sys s))))) ;;
  if noclose then ret tt
  else
    tdo (oo_close 0) ;;
    tdo (oo_close 1) ;;
    tdo (oo_close 2) ;;
    tos (oo_open DEVNULL) ;;
    tos (oo_open DEVNULL) ;;
    tos (oo_open DEVNULL) ;;
    ret tt.

(** ** The program *)

(** [None] for NULL. *)
Definition get_canonical_path (path : list Z) : MT (option (list Z)) :=
  let* r := tcall (real_path oo_stack path) in
  match r with
  | None => ret None
  | Some canonical =>
    let* copy := attempt (tcall (str_dup canonical)) in
    ret (match copy with inl copy => Some copy | inr _ => None end)
  end.

(** The main loop, and how it ends: with success, with a failure, or with
    SIGTERM after [rounds] rounds. *)
Definition clean_loop (o : cleanerd_object W) (protection_period : Z) (rounds : nat) : MT (Z * cleanerd_object W) :=
  fun s =>
    let '(r, d) := nilfs_cleanerd_clean_loop junk_span junk_cand fuel (ob_policy o) (ob_policy_data o) protection_period rounds
                     (mk_ds (mk_cns (t_sys s) (ob_cnormap o) tt) (ob_cleanerd o)) in
    let o := mk_object (d_cld d) (cn_map (d_cns d)) (ob_policy o) (ob_policy_data o) (ob_recvq o) (ob_recvq_name o) in
    (match r with
     | Ok _ | NoFuel => Ok (EXIT_SUCCESS, o)
     | Err _ => Ok (EXIT_FAILURE, o)
     | Abort => Abort
     | Exit c => Exit c
     end, Open.with_sys s (cn_sys (d_cns d))).

(** Behind [daemonize]: the exit status. *)
Definition run_daemon (o : cleanerd_params) (dev dir : option (list Z)) (rounds : nat) : MT Z :=
  let* registered := of_option builtin_policies in
  let* _ := attempt oom_adjust in
  let* object := attempt (nilfs_cleanerd_create registered (cp_protection_period o) dev dir (cp_conffile o)) in
  match object with
  | inr _ => ret EXIT_FAILURE
  | inl object =>
    let* (status, object) := clean_loop object (cp_protection_period o) rounds in
    nilfs_cleanerd_destroy object ;;
    ret status
  end.

(** The paths of the arguments; [None] when one has no canonical path. *)
Definition canonical_args (args : list (list Z)) : MT (option (option (list Z) * option (list Z))) :=
  match args with
  | [] => ret (Some (None, None))
  | path :: args =>
    let* dev := get_canonical_path path in
    match dev, args with
    | None, _ => ret None
    | Some dev, [] => ret (Some (Some dev, None))
    | Some dev, path :: _ =>
      let* dir := get_canonical_path path in
      ret (match dir with None => None | Some dir => Some (Some dev, Some dir) end)
    end
  end.

Definition cleanerd_main (argv : list (Z * list Z)) (args : list (list Z)) (rounds : nat) : MT unit :=
  match cleanerd_options argv (mk_cparams (NILFS_CLEANERD_CONFFILE SYSCONFDIR) ULONG_MAX) with
  | Ok o =>
    let* paths := canonical_args args in
    match paths with
    | None => exit_with EXIT_FAILURE
    | Some (dev, dir) =>
      let* r := attempt (daemonize false false) in
      match r with
      | inr _ => exit_with EXIT_FAILURE
      | inl _ =>
        let* status := run_daemon o dev dir rounds in
        exit_with status
      end
    end
  | Exit c => exit_with c
  | _ => abort
  end.
End CleanerdMain.
