(* ===== verification/CleanerCtl.v ===== *)
(** * Talking to the daemon: lib/cleaner_ctl.c

    A client of the daemon finds the file system in the mount table, opens
    two message queues and sends requests; the daemon of [Cleanerd] answers
    to the queue of the client.  The state [ct W] holds the world and the
    [struct nilfs_cleaner]; the message queues, the mount table and libuuid
    are the class [CtlOs].  Log messages are left out.

    A message is the list of its bytes.  A response is received into a
    variable on the stack: what is not received of it holds what the stack
    held before, [co_stack]. *)

From Stdlib Require Import String.
From S2P Require Import Prelude Vector Hoare Ondisk Fields Kernel Nilfs Parser Tune Float64 Cldconfig Realpath Cleanerd CleanerExec Ismounted Mounts.

(** ** Data *)

Record nilfs_cleaner := mk_cleaner {
  nc_cleanerd_pid : Z; nc_device : option (list Z); nc_mountdir : option (list Z); nc_dev_id : Z; nc_dev_ino : Z;
  nc_sendq : Z; nc_recvq : Z; nc_recvq_name : option (list Z); nc_client_uuid : list Z;
}.

(** Cleared memory, and no queues. *)
Definition new_cleaner : nilfs_cleaner := mk_cleaner 0 None None 0 0 (-1) (-1) None (replicate 16 0).

Definition set_pid (pid : Z) (c : nilfs_cleaner) : nilfs_cleaner :=
  mk_cleaner pid (nc_device c) (nc_mountdir c) (nc_dev_id c) (nc_dev_ino c) (nc_sendq c) (nc_recvq c) (nc_recvq_name c) (nc_client_uuid c).
Definition set_device (device : option (list Z)) (c : nilfs_cleaner) : nilfs_cleaner :=
  mk_cleaner (nc_cleanerd_pid c) device (nc_mountdir c) (nc_dev_id c) (nc_dev_ino c) (nc_sendq c) (nc_recvq c) (nc_recvq_name c) (nc_client_uuid c).
Definition set_mountdir (mountdir : option (list Z)) (c : nilfs_cleaner) : nilfs_cleaner :=
  mk_cleaner (nc_cleanerd_pid c) (nc_device c) mountdir (nc_dev_id c) (nc_dev_ino c) (nc_sendq c) (nc_recvq c) (nc_recvq_name c) (nc_client_uuid c).
Definition set_dev (id ino : Z) (c : nilfs_cleaner) : nilfs_cleaner :=
  mk_cleaner (nc_cleanerd_pid c) (nc_device c) (nc_mountdir c) id ino (nc_sendq c) (nc_recvq c) (nc_recvq_name c) (nc_client_uuid c).
Definition set_sendq (q : Z) (c : nilfs_cleaner) : nilfs_cleaner :=
  mk_cleaner (nc_cleanerd_pid c) (nc_device c) (nc_mountdir c) (nc_dev_id c) (nc_dev_ino c) q (nc_recvq c) (nc_recvq_name c) (nc_client_uuid c).
Definition set_recvq (q : Z) (name : option (list Z)) (c : nilfs_cleaner) : nilfs_cleaner :=
  mk_cleaner (nc_cleanerd_pid c) (nc_device c) (nc_mountdir c) (nc_dev_id c) (nc_dev_ino c) (nc_sendq c) q name (nc_client_uuid c).
Definition set_uuid (uuid : list Z) (c : nilfs_cleaner) : nilfs_cleaner :=
  mk_cleaner (nc_cleanerd_pid c) (nc_device c) (nc_mountdir c) (nc_dev_id c) (nc_dev_ino c) (nc_sendq c) (nc_recvq c) (nc_recvq_name c) uuid.

(** [co_mounts] is [None] if the table cannot be opened; [co_mq_curmsgs] is
    the number of messages that wait; [co_ppoll] says whether one does. *)
Class CtlOs (W : Type) := {
  co_errno : W -> Z;
  co_stack : nat -> list Z;
  co_stat : list Z -> W -> (stat_answer + Z) * W;
  co_mounts : W -> option (list mntent) * W;
  co_uuid_generate : W -> list Z * W;
  co_uuid_text : list Z -> list Z;
  co_mq_create : list Z -> W -> (Z + Z) * W;
  co_mq_open : list Z -> W -> (Z + Z) * W;
  co_mq_close : Z -> W -> W;
  co_mq_unlink : list Z -> W -> W;
  co_mq_curmsgs : Z -> W -> (Z + Z) * W;
  co_mq_send : Z -> list Z -> W -> (unit + Z) * W;
  co_mq_receive : Z -> Z -> W -> (list Z + Z) * W;
  co_mq_timedreceive : Z -> Z -> timespec -> W -> (list Z + Z) * W;
  co_ppoll : Z -> timespec -> W -> (bool + Z) * W;
}.

Definition ETIMEDOUT : Z := 110.
Definition i16 (x : Z) : Z := (x + 2 ^ 15) `mod` 2 ^ 16 - 2 ^ 15.
Definition NILFS_CLEANER_OPEN_GCPID : Z := 1.
Definition NILFS_CLEANER_OPEN_QUEUE : Z := 2.
Definition NILFS_CLEANER_MSG_MAX_PATH : Z := 4064.

(** ** Options of a mount *)

(** [sscanf(opt, "gcpid=%ld", &pid2)] *)
Definition scan_gcpid (opt : list Z) : option Z :=
  s ← strip_prefix (codes "gcpid=") opt;
  if is_digit 10 (char_at (skip_sign (skip_spaces s)).2) then Some (atol s) else None.

Fixpoint find_gcpid (opts : list (list Z)) : option Z :=
  match opts with
  | [] => None
  | opt :: opts => match scan_gcpid opt with Some pid => Some pid | None => find_gcpid opts end
  end.

(** ** State *)

Record ct (W : Type) := mk_ct { ct_world : W; ct_cleaner : nilfs_cleaner }.
Arguments mk_ct {W} _ _.
Arguments ct_world {W} _.
Arguments ct_cleaner {W} _.

Section Ctl.
Context {W : Type} {A : Alloc W} {P : PathOs W} {X : ExecOs W} {Q : CtlOs W}.
Abbreviation MC := (M (ct W)).

Definition wcall {T} (m : M W T) : MC T := fun s => let '(r, w) := m (ct_world s) in (r, mk_ct w (ct_cleaner s)).
Definition wask {T} (f : W -> T * W) : MC T := wcall (ask f).
Definition wos {T} (f : W -> (T + Z) * W) : MC T := wcall (lift_sum f).
Definition wdo (f : W -> W) : MC unit := wcall (fun w => (Ok tt, f w)).
Definition the_cleaner : MC nilfs_cleaner := gets ct_cleaner.
Definition change (f : nilfs_cleaner -> nilfs_cleaner) : MC unit := modify (fun s => mk_ct (ct_world s) (f (ct_cleaner s))).
Definition co_fail {T} : MC T := let* s := get_state in fail (co_errno (ct_world s)).
Definition strdup (s : list Z) : MC (list Z) := wcall (str_dup s).

(** ** Finding the file system *)

Definition nilfs_cleaner_get_device_id : MC unit :=
  let* c := the_cleaner in
  let* device := of_option (nc_device c) in
  let* st := wos (co_stat device) in
  match st_kind st with
  | Block => change (set_dev (st_rdev st) 0)
  | Regular | Directory => change (set_dev (st_dev st) (st_ino st))
  | OtherKind => fail EINVAL
  end.

(** The pid, 0 if the options have none. *)
Definition nilfs_find_gcpid_opt (opts : list Z) : MC Z :=
  let* opts2 := strdup opts in
  ret (match find_gcpid (strtok opts2) with Some pid => i32 pid | None => 0 end).

(** The canonical path; [None] for NULL. *)
Definition realpath_of (path : list Z) : MC (option (list Z)) := wcall (real_path co_stack path).

(** [if (path && myrealpath(path, ...)) cleaner->... = strdup(canonical)] *)
Definition resolve (path : option (list Z)) (store : option (list Z) -> nilfs_cleaner -> nilfs_cleaner) : MC unit :=
  match path with
  | None => ret tt
  | Some path =>
    let* r := realpath_of path in
    match r with
    | None => ret tt
    | Some canonical => let* copy := strdup canonical in change (store (Some copy))
    end
  end.

Definition same_path (wanted : option (list Z)) (path : list Z) : MC bool := wcall (path_matches co_stack wanted path).

(** A copy of the path of the entry, if none was asked for. *)
Definition keep_path (wanted : option (list Z)) (path : list Z) : MC (option (list Z)) :=
  match wanted with
  | Some _ => ret None
  | None =>
    let* r := realpath_of path in
    let* copy := strdup (default path r) in
    ret (Some copy)
  end.

(** The loop over the mount table.  [found]: the device, directory and pid of
    the last entry that fits. *)
Definition match_t : Type := option (list Z) * option (list Z) * Z.

Fixpoint find_loop (entries : list mntent) (found : option match_t) : MC (option match_t) :=
  match entries with
  | [] => ret found
  | e :: entries =>
    if negb (bool_decide (mnt_type e = MNTTYPE_NILFS)) then find_loop entries found
    else
      let* c := the_cleaner in
      let* same := same_path (nc_mountdir c) (mnt_dir e) in
      if negb same then find_loop entries found
      else
        let* same := same_path (nc_device c) (mnt_fsname e) in
        if negb same then find_loop entries found
        else if has_option MNTOPT_RW (mnt_opts e) then
          let* device := keep_path (nc_device c) (mnt_fsname e) in
          let* dir := keep_path (nc_mountdir c) (mnt_dir e) in
          let* pid := nilfs_find_gcpid_opt (mnt_opts e) in
          find_loop entries (Some (device, dir, pid))
        else find_loop entries found
  end.

Definition nilfs_cleaner_find_fs (device mntdir : option (list Z)) : MC unit :=
  resolve device set_device ;;
  resolve mntdir set_mountdir ;;
  let* entries := wask co_mounts in
  match entries with
  | None => co_fail
  | Some entries =>
    let* found := find_loop entries None in
    match found with
    | None => co_fail
    | Some (dev, dir, pid) =>
      change (fun c => match dir with Some _ => set_mountdir dir c | None => c end) ;;
      change (fun c => match dev with Some _ => set_device dev c | None => c end) ;;
      change (fun c => if negb (pid =? 0) then set_pid pid c else c)
    end
  end.

(** ** Queues *)

(** The size of [nambuf], [NAME_MAX - 4]. *)
Definition NAMBUF_SIZE : Z := 251.
Definition QUEUE_PREFIX : list Z := codes "/nilfs-cleanerq-".

(** [snprintf] and the assertion behind it. *)
Definition queue_name (rest : list Z) : MC (list Z) :=
  let name := QUEUE_PREFIX ++ rest in
  if Z.of_nat (length name) <? NAMBUF_SIZE then ret name else abort.

Definition sendq_text (c : nilfs_cleaner) : list Z :=
  if nc_dev_ino c =? 0 then print_cno (nc_dev_id c) else print_cno (nc_dev_id c) ++ [45] ++ print_cno (nc_dev_ino c).

(** The label [abort]. *)
Definition drop_recvq {T} (e : Z) : MC T :=
  let* c := the_cleaner in
  (if 0 <=? nc_recvq c then
     wdo (co_mq_close (nc_recvq c)) ;;
     change (set_recvq (-1) (nc_recvq_name c)) ;;
     let* name := of_option (nc_recvq_name c) in
     wdo (co_mq_unlink name)
   else ret tt) ;;
  fail e.

Definition open_recvq : MC unit :=
  let* c := the_cleaner in
  let* name := queue_name (co_uuid_text (nc_client_uuid c)) in
  let* copy := strdup name in
  change (set_recvq (nc_recvq c) (Some copy)) ;;
  let* r := attempt (wos (co_mq_create name)) in
  match r with
  | inl q => change (set_recvq q (Some copy))
  | inr e => change (set_recvq (-1) (Some copy)) ;; fail e
  end.

Definition open_sendq : MC unit :=
  let* c := the_cleaner in
  let* name := queue_name (sendq_text c) in
  let* r := attempt (wos (co_mq_open name)) in
  match r with
  | inl q => change (set_sendq q)
  | inr e => change (set_sendq (-1)) ;; fail e
  end.

Definition nilfs_cleaner_open_queue : MC unit :=
  let* uuid := wask co_uuid_generate in
  change (set_uuid uuid) ;;
  let* r := attempt (open_recvq ;; open_sendq) in
  match r with
  | inl _ => ret tt
  | inr e => drop_recvq e
  end.

Definition nilfs_cleaner_close_queue : MC unit :=
  let* c := the_cleaner in
  (if 0 <=? nc_recvq c then
     wdo (co_mq_close (nc_recvq c)) ;;
     let* name := of_option (nc_recvq_name c) in
     wdo (co_mq_unlink name) ;;
     change (set_recvq (-1) None)
   else ret tt) ;;
  let* c := the_cleaner in
  if 0 <=? nc_sendq c then wdo (co_mq_close (nc_sendq c)) ;; change (set_sendq (-1)) else ret tt.

(** ** The object *)

(** The allocation of the structure, and what it is before it is filled. *)
Definition nilfs_cleaner_create : MC unit := wcall (m_malloc 88) ;; change (fun _ => new_cleaner).

Definition nilfs_cleaner_launch (device mntdir : list Z) (protperiod : Z) : MC launched :=
  nilfs_cleaner_create ;;
  let* device := strdup device in
  let* mntdir := strdup mntdir in
  change (fun c => set_mountdir (Some mntdir) (set_device (Some device) c)) ;;
  let* l := wcall (nilfs_launch_cleanerd device mntdir protperiod) in
  match l with
  | Became _ _ => ret l
  | Parent pid => change (set_pid pid) ;; nilfs_cleaner_get_device_id ;; ret l
  end.

(** NULL is a failure. *)
Definition nilfs_cleaner_open (device mntdir : option (list Z)) (oflag : Z) : MC unit :=
  nilfs_cleaner_create ;;
  nilfs_cleaner_find_fs device mntdir ;;
  nilfs_cleaner_get_device_id ;;
  let* c := the_cleaner in
  if negb (Z.land oflag NILFS_CLEANER_OPEN_GCPID =? 0) && (nc_cleanerd_pid c =? 0) then co_fail
  else if negb (Z.land oflag NILFS_CLEANER_OPEN_QUEUE =? 0) then nilfs_cleaner_open_queue
  else ret tt.

Definition nilfs_cleaner_ping : MC bool := let* c := the_cleaner in wcall (process_is_alive (nc_cleanerd_pid c)).
Definition nilfs_cleaner_pid : MC Z := let* c := the_cleaner in ret (nc_cleanerd_pid c).
Definition nilfs_cleaner_device : MC (option (list Z)) := let* c := the_cleaner in ret (nc_device c).
Definition nilfs_cleaner_close : MC unit := nilfs_cleaner_close_queue.

(** ** Messages *)

Definition sizeof_response : Z := 16.

Definition decode_response (msg : list Z) : option nilfs_cleaner_response :=
  result ← rd_le 2 msg 0; status ← rd_le 2 msg 2; err ← rd_le 4 msg 4; jobid ← rd_le 4 msg 8;
  Some (mk_response (i16 result) (i16 status) (i32 err) jobid).

Definition encode_header (cmd argsize : Z) (uuid : list Z) : list Z := le_bytes 4 cmd ++ le_bytes 4 argsize ++ uuid.

(** The inner loop runs [count] times, and 2^32 times for 0. *)
Definition drain_count (curmsgs : Z) : nat := Z.to_nat (if u32 curmsgs =? 0 then 2 ^ 32 else u32 curmsgs).

Fixpoint drain (count : nat) (q : Z) : MC unit :=
  match count with
  | O => ret tt
  | Datatypes.S count => wos (co_mq_receive q sizeof_response) ;; drain count q
  end.

(** Each turn empties the queue; a client that is sent messages all the time
    does not get out of it. *)
Fixpoint clear_loop (fuel : nat) (q curmsgs : Z) : MC unit :=
  match fuel with
  | O => out_of_fuel
  | Datatypes.S fuel =>
    if 0 <? curmsgs then
      drain (drain_count curmsgs) q ;;
      let* curmsgs := wos (co_mq_curmsgs q) in
      clear_loop fuel q curmsgs
    else ret tt
  end.

Definition nilfs_cleaner_clear_queueu (fuel : nat) : MC unit :=
  let* c := the_cleaner in
  if nc_recvq c <? 0 then abort
  else
    let* curmsgs := wos (co_mq_curmsgs (nc_recvq c)) in
    clear_loop fuel (nc_recvq c) curmsgs.

(** The beginning of every request. *)
Definition prepare_queues (fuel : nat) : MC unit :=
  let* c := the_cleaner in
  if (nc_sendq c <? 0) || (nc_recvq c <? 0) then fail EBADF else nilfs_cleaner_clear_queueu fuel.

Definition send_request (req : list Z) : MC unit := let* c := the_cleaner in wos (co_mq_send (nc_sendq c) req).

(** What [bytes] and [res] are after a receive.  The number of bytes is
    compared as a [size_t], so that -1 is not less than the size of [res]. *)
Definition check_received (r : list Z + Z) : MC nilfs_cleaner_response :=
  let '(bytes, data, e) := match r with inl data => (Z.of_nat (length data), data, EIO) | inr e => (-1, [], e) end in
  if u64 bytes <? sizeof_response then fail e
  else of_option (decode_response (data ++ drop (length data) (co_stack (Z.to_nat sizeof_response)))).

(** The result of the daemon. *)
Definition check_nack (res : nilfs_cleaner_response) : MC unit :=
  if rsp_result res =? NILFS_CLEANER_RSP_NACK then fail (rsp_err res) else ret tt.

Definition receive_response : MC nilfs_cleaner_response :=
  let* c := the_cleaner in
  let* r := attempt (wos (co_mq_receive (nc_recvq c) sizeof_response)) in
  check_received r.

Section Requests.
Context (fuel : nat).

Definition nilfs_cleaner_command (cmd : Z) : MC unit :=
  prepare_queues fuel ;;
  let* c := the_cleaner in
  send_request (encode_header cmd 0 (nc_client_uuid c)) ;;
  let* res := receive_response in
  check_nack res.

(** [None]: [*status] is left alone. *)
Definition nilfs_cleaner_get_status : MC (option Z) :=
  prepare_queues fuel ;;
  let* c := the_cleaner in
  send_request (encode_header NILFS_CLEANER_CMD_GET_STATUS 0 (nc_client_uuid c)) ;;
  let* res := receive_response in
  if rsp_result res =? NILFS_CLEANER_RSP_ACK then ret (Some (rsp_status res))
  else check_nack res ;; ret None.

(** [args] are the bytes of the structure; the job ID, if it is answered. *)
Definition nilfs_cleaner_run (args : list Z) : MC (option Z) :=
  prepare_queues fuel ;;
  let* c := the_cleaner in
  send_request (encode_header NILFS_CLEANER_CMD_RUN sizeof_args (nc_client_uuid c) ++ args) ;;
  let* res := receive_response in
  if rsp_result res =? NILFS_CLEANER_RSP_ACK then ret (Some (rsp_jobid res))
  else check_nack res ;; ret None.

Definition nilfs_cleaner_suspend : MC unit := nilfs_cleaner_command NILFS_CLEANER_CMD_SUSPEND.
Definition nilfs_cleaner_resume : MC unit := nilfs_cleaner_command NILFS_CLEANER_CMD_RESUME.

Definition nilfs_cleaner_tune (args : list Z) : MC unit :=
  prepare_queues fuel ;;
  let* c := the_cleaner in
  send_request (encode_header NILFS_CLEANER_CMD_TUNE sizeof_args (nc_client_uuid c) ++ args) ;;
  let* res := receive_response in
  check_nack res.

(** The part behind the choice of the path: [path] is what follows the header. *)
Definition reload_with (path : list Z) : MC unit :=
  let* c := the_cleaner in
  send_request (encode_header NILFS_CLEANER_CMD_RELOAD (Z.of_nat (length path)) (nc_client_uuid c) ++ path) ;;
  let* res := receive_response in
  check_nack res.

(** A path that cannot be resolved ends the function with the 0 of the call
    before. *)
Definition nilfs_cleaner_reload (conffile : option (list Z)) : MC unit :=
  prepare_queues fuel ;;
  match conffile with
  | None => reload_with []
  | Some conffile =>
    let* r := attempt (wcall (myrealpath NILFS_CLEANER_MSG_MAX_PATH conffile (co_stack (Z.to_nat NILFS_CLEANER_MSG_MAX_PATH)))) in
    match r with
    | inr _ => ret tt
    | inl pathname => reload_with (c_string pathname ++ [0])
    end
  end.

Definition nilfs_cleaner_wait_common (jobid : Z) : MC unit :=
  prepare_queues fuel ;;
  let* c := the_cleaner in
  send_request (encode_header NILFS_CLEANER_CMD_WAIT 0 (nc_client_uuid c) ++ le_bytes 4 jobid).

Definition nilfs_cleaner_wait (jobid : Z) (abs_timeout : timespec) : MC unit :=
  nilfs_cleaner_wait_common jobid ;;
  let* c := the_cleaner in
  let* r := attempt (wos (co_mq_timedreceive (nc_recvq c) sizeof_response abs_timeout)) in
  let* res := check_received r in
  check_nack res.

Definition nilfs_cleaner_wait_r (jobid : Z) (timeout : timespec) : MC unit :=
  nilfs_cleaner_wait_common jobid ;;
  let* c := the_cleaner in
  let* ready := wos (co_ppoll (nc_recvq c) timeout) in
  if negb ready then fail ETIMEDOUT
  else
    let* res := receive_response in
    check_nack res.

Definition nilfs_cleaner_stop : MC unit := nilfs_cleaner_command NILFS_CLEANER_CMD_STOP.
Definition nilfs_cleaner_shutdown : MC unit := nilfs_cleaner_command NILFS_CLEANER_CMD_SHUTDOWN.
End Requests.
End Ctl.
