(* ===== verification/Handshake.v ===== *)
(** * What the daemon and the control library agree on

    The pid that a starting daemon prints (sbin/cleanerd.c) is the one that
    lib/cleaner_exec.c reads, and both ends of the control queue make the
    same name from the same device (lib/cleaner_ctl.c). *)

From Stdlib Require Import String.
From S2P Require Import Prelude Hoare Parser Cldconfig Realpath Ismounted Mounts CleanerExec CleanerdMain CleanerCtl.

Lemma strip_prefix_app p s : strip_prefix p (p ++ s) = Some s.
Proof. induction p as [|c p IH]; [by destruct s|]. simpl. by rewrite Z.eqb_refl. Qed.

(** The parent scans the pid back out of the line of the daemon. *)
Lemma announced_pid pid : 0 <= pid < 2 ^ 64 -> scan_pid (announce pid) = Some pid.
Proof.
  intros H. unfold scan_pid, announce. rewrite strip_prefix_app. cbn -[strtoull print_cno].
  destruct (strtoull_print pid [10]) as (Hv & _); [done| done|]. rewrite Hv.
  pose proof (print_cno_nonempty pid H). unfold same_ptr. rewrite length_app.
  destruct (print_cno pid) eqn:E; [done|]. simpl. by destruct (length l).
Qed.

Lemma announce_plain pid c : 0 <= pid -> c ∈ [0; 10] -> c ∉ codes "NILFS_CLEANERD_PID=" ++ print_cno pid.
Proof.
  intros H Hc Hin. rewrite elem_of_app in Hin. destruct Hin as [Hin|Hin].
  - revert Hin. apply (bool_decide_unpack _). rewrite !elem_of_cons in Hc. by destruct Hc as [-> |[-> |Hc%not_elem_of_nil]].
  - pose proof (print_cno_digits pid H) as F. rewrite Forall_forall in F. specialize (F c Hin). simpl in F.
    rewrite !elem_of_cons in Hc. destruct Hc as [-> |[-> |Hc%not_elem_of_nil]]; [lia|lia|done].
Qed.

Lemma announce_line pid rest : 0 <= pid -> fgets 99 (announce pid ++ rest) = (announce pid, rest).
Proof.
  intros H. unfold announce. replace (_ ++ rest) with ((codes "NILFS_CLEANERD_PID=" ++ print_cno pid) ++ 10 :: rest)
    by (rewrite <- !app_assoc; done).
  rewrite fgets_line; [by rewrite <- app_assoc|apply announce_plain; [done|set_solver]|].
  rewrite length_app. pose proof (print_cno_length pid). change (length (codes "NILFS_CLEANERD_PID=")) with 19%nat. lia.
Qed.

(** When nothing else is printed before it, the line is the one the parent
    of the daemon looks for. *)
Lemma announced_to_parent pid rest fuel : 0 <= pid < 2 ^ 64 ->
  scan_lines (S fuel) (announce pid ++ rest) = Some pid.
Proof.
  intros H. cbn [scan_lines]. rewrite announce_line by lia.
  assert (E : c_string (announce pid) = announce pid).
  { apply c_string_all. unfold announce. rewrite app_assoc, not_elem_of_app.
    split; [apply announce_plain; [lia|set_solver]|set_solver]. }
  rewrite E, announced_pid by done. unfold announce. by destruct (codes "NILFS_CLEANERD_PID=") eqn:F.
Qed.

Section Queue.
Context {W : Type} {A : Vector.Alloc W} {P : PathOs W} {X : ExecOs W} {Q : CtlOs W}.

(** Both ends of the queue make the same name for the same answer of stat:
    the client finds the queue that the daemon opened.  An inode number is
    not 0. *)
Lemma queue_names_agree device st (s s' : ct W) w :
  nc_device (ct_cleaner s) = Some device ->
  co_stat device (ct_world s) = (inl st, w) ->
  (st_kind st = Block \/ st_ino st <> 0) ->
  nilfs_cleaner_get_device_id s = (Ok tt, s') ->
  cleanerd_queue_text st = Some (sendq_text (ct_cleaner s')).
Proof.
  intros Hd Hst Hino. unfold nilfs_cleaner_get_device_id, the_cleaner, wos, wcall, change.
  unfold bind, gets, of_option, lift_sum, modify. rewrite Hd. cbn. rewrite Hst. cbn.
  unfold cleanerd_queue_text, sendq_text. destruct (st_kind st) eqn:K; cbn; intros [= <-]; cbn; [done| |].
  all: rewrite (proj2 (Z.eqb_neq _ 0)); [done|by destruct Hino].
Qed.
End Queue.
