(* ===== verification/Mntent.v ===== *)
(** * The lines of the mount table: sbin/mount/mount_mntent.c, xmalloc.c

    A table has one line for each mount, with blanks between the fields; the
    blanks, newlines and backslashes of a field are written in octal.  Lines
    are read into a buffer of 4096 bytes. *)

From Stdlib Require Import String.
From S2P Require Import Prelude Vector Hoare Parser Tune Cldconfig.

(** ** Memory, and the end of the program *)

Definition EX_USAGE : Z := 1.
Definition EX_SYSERR : Z := 2.
Definition EX_SOFTWARE : Z := 4.
Definition EX_FILEIO : Z := 16.
Definition EX_FAIL : Z := 32.

Section Memory.
Context {W : Type} {A : Alloc W}.

Definition die {T} (status : Z) : M W T := exit_with status.

Definition xmalloc (size : Z) : M W unit :=
  if size =? 0 then ret tt
  else
    let* r := attempt (m_malloc size) in
    match r with inl _ => ret tt | inr _ => die EX_SYSERR end.

(** A new string. *)
Definition new_text (s : list Z) : M W (list Z) := xmalloc (Z.of_nat (length s) + 1) ;; ret s.

Definition xstrdup (s : option (list Z)) : M W (option (list Z)) :=
  match s with
  | None => ret None
  | Some s => let* s := new_text s in ret (Some s)
  end.
End Memory.

(** ** Fields *)

Definition need_escaping : list Z := [32; 9; 10; 92].

Definition octal (c : Z) : list Z := [92; 48 + Z.shiftr (Z.land c 192) 6; 48 + Z.shiftr (Z.land c 56) 3; 48 + Z.land c 7].

Definition mangled (s : list Z) : list Z := s ≫= (fun c => if bool_decide (c ∈ need_escaping) then octal c else [c]).

Definition is_space_or_tab (c : Z) : bool := (c =? 32) || (c =? 9).

Fixpoint skip_spaces (s : list Z) : list Z :=
  match s with c :: s' => if is_space_or_tab c then skip_spaces s' else s | [] => [] end.
Fixpoint skip_nonspaces (s : list Z) : list Z :=
  match s with c :: s' => if is_space_or_tab c then s else skip_nonspaces s' | [] => [] end.
(** What [skip_nonspaces] goes over. *)
Fixpoint nonspaces (s : list Z) : list Z :=
  match s with c :: s' => if is_space_or_tab c then [] else c :: nonspaces s' | [] => [] end.

Definition isoctal (c : Z) : bool := Z.land c (Z.lnot 7) =? 48.

Fixpoint unescape (s : list Z) : list Z :=
  match s with
  | [] => []
  | c :: s' =>
    match s' with
    | c1 :: c2 :: c3 :: rest =>
      if (c =? 92) && isoctal c1 && isoctal c2 && isoctal c3
      then u8 (64 * Z.land c1 7 + 8 * Z.land c2 7 + Z.land c3 7) :: unescape rest
      else c :: unescape s'
    | _ => c :: unescape s'
    end
  end.

(** The string ends at the first NUL, also at one that was written in octal. *)
Definition unmangled (s : list Z) : list Z := c_string (unescape (nonspaces s)).

(** ** Entries *)

Record my_mntent := mk_mnt {
  mt_fsname : list Z; mt_dir : list Z; mt_type : list Z; mt_opts : list Z; mt_freq : Z; mt_passno : Z;
}.

#[export] Instance my_mntent_eq_dec : EqDecision my_mntent.
Proof. solve_decision. Defined.

Definition with_opts (opts : list Z) (e : my_mntent) : my_mntent :=
  mk_mnt (mt_fsname e) (mt_dir e) (mt_type e) opts (mt_freq e) (mt_passno e).

(** The format of [fprintf]. *)
Definition entry_line (e : my_mntent) : list Z :=
  mangled (mt_fsname e) ++ 32 :: mangled (mt_dir e) ++ 32 :: mangled (mt_type e) ++ 32 :: mangled (mt_opts e) ++
  32 :: print_int (mt_freq e) ++ 32 :: print_int (mt_passno e) ++ [10].

(** An open file: what has not been read of it, and whether reading it ends
    with an error; then what [feof] and [ferror] say, and the members of the
    structure. *)
Record mntFILE := mk_mntFILE {
  mf_rest : list Z; mf_fails : bool; mf_eof : bool; mf_error : bool; mf_lineno : Z; mf_errs : bool; mf_softerrs : Z;
}.

Definition open_file (text : list Z) (fails : bool) : mntFILE := mk_mntFILE text fails false false 0 false 0.
Definition ERR_MAX : Z := 5.
Definition BUF : nat := 4095.

(** [fgets] into [buf]; the counter of lines. *)
Definition get_line (f : mntFILE) : option (list Z) * mntFILE :=
  let '(line, rest) := fgets BUF (mf_rest f) in
  let ended := (length line <? BUF)%nat && bool_decide (last line <> Some 10) in
  if ended && mf_fails f then (None, mk_mntFILE rest true (mf_eof f) true (mf_lineno f) (mf_errs f) (mf_softerrs f))
  else
    match line with
    | [] => (None, mk_mntFILE rest (mf_fails f) true (mf_error f) (mf_lineno f) (mf_errs f) (mf_softerrs f))
    | _ => (Some line, mk_mntFILE rest (mf_fails f) ended (mf_error f) (mf_lineno f + 1) (mf_errs f) (mf_softerrs f))
    end.

(** [index(buf, '\n')] *)
Fixpoint cut_newline (s : list Z) : option (list Z) :=
  match s with
  | [] => None
  | c :: s' => if c =? 10 then Some [] else l ← cut_newline s'; Some (c :: l)
  end.

Definition cut_return (s : list Z) : list Z :=
  match last s with Some 13 => take (length s - 1) s | _ => s end.

(** The line without its end; [None] if it is too long. *)
Definition line_text (buf : list Z) (eof : bool) : option (list Z) :=
  let s := c_string buf in
  match cut_newline s with
  | Some l => Some (cut_return l)
  | None => if eof then Some (cut_return s) else None
  end.

Fixpoint skip_digits (s : list Z) : list Z :=
  match s with c :: s' => if is_digit 10 c then skip_digits s' else s | [] => [] end.

(** The value, and the text behind it if that is the end or a blank. *)
Definition number (s : list Z) : Z * option (list Z) :=
  let '(v, s) := if is_digit 10 (char_at s) then (i32 (atol s), skip_digits s) else (0, s) in
  (v, match s with c :: _ => if is_space_or_tab c then Some (skip_spaces s) else None | [] => Some [] end).

Definition bad_line (f : mntFILE) : mntFILE :=
  mk_mntFILE (mf_rest f) (mf_fails f) (mf_eof f) (mf_error f) (mf_lineno f) (mf_errs f) (mf_softerrs f + 1).
Definition long_line (f : mntFILE) : mntFILE :=
  mk_mntFILE (mf_rest f) (mf_fails f) (mf_eof f) (mf_error f) (mf_lineno f) true (mf_softerrs f).

(** The text behind a field. *)
Definition after_field (s : list Z) : list Z := skip_spaces (skip_nonspaces s).

(** ** Streams *)

(** [mo_fopen_read] answers the text of the file and whether reading it ends
    with an error.  [mo_umask] answers the old mask; [mo_fclose] writes what
    is buffered. *)
Class StreamOs (W : Type) := {
  mo_umask : Z -> W -> Z * W;
  mo_fopen_read : list Z -> W -> (list Z * bool + Z) * W;
  mo_fopen_write : list Z -> list Z -> W -> (Z + Z) * W;
  mo_seek_end : Z -> W -> (unit + Z) * W;
  mo_fprintf : Z -> list Z -> W -> (unit + Z) * W;
  mo_fclose : Z -> W -> (unit + Z) * W;
}.

Definition sizeof_mntFILE : Z := 32.

Section Streams.
Context {W : Type} {A : Alloc W} {SO : StreamOs W}.
Abbreviation MW := (M W).

Definition asks {T} (f : W -> T * W) : MW T := fun w => let '(a, w) := f w in (Ok a, w).

Definition mangle (s : list Z) : MW (list Z) := xmalloc (4 * Z.of_nat (length s) + 1) ;; ret (mangled s).
Definition unmangle (s : list Z) : MW (list Z) := xmalloc (Z.of_nat (length (nonspaces s)) + 1) ;; ret (unmangled s).

(** The opened stream, or an error; then the caller leaks the structure. *)
Definition my_setmntent {T} (fopen : W -> (T + Z) * W) (file : list Z) : MW T :=
  xmalloc sizeof_mntFILE ;;
  let* old_umask := asks (mo_umask 63) in
  let* fp := attempt (lift_sum fopen) in
  asks (mo_umask old_umask) ;;
  new_text file ;;
  match fp with inl fp => ret fp | inr e => fail e end.

Definition my_setmntent_read (file : list Z) : MW mntFILE :=
  let* (text, fails) := my_setmntent (mo_fopen_read file) file in
  ret (open_file text fails).
Definition my_setmntent_write (file mode : list Z) : MW Z := my_setmntent (mo_fopen_write file mode) file.

(** The result of [fclose] is ignored. *)
Definition my_endmntent (fp : Z) : MW unit := asks (mo_fclose fp) ;; ret tt.

Definition my_addmntent (fp : Z) (e : my_mntent) : MW unit :=
  lift_sum (mo_seek_end fp) ;;
  mangle (mt_fsname e) ;;
  mangle (mt_dir e) ;;
  mangle (mt_type e) ;;
  mangle (mt_opts e) ;;
  lift_sum (mo_fprintf fp (entry_line e)).

(** The fields of a line. *)
Definition read_entry (s : list Z) : MW (option my_mntent) :=
  let* fsname := unmangle s in
  let s := after_field s in
  let* dir := unmangle s in
  let s := after_field s in
  let* type := unmangle s in
  let s := after_field s in
  let* opts := unmangle s in
  let s := after_field s in
  let '(freq, s) := number s in
  match s with
  | None => ret None
  | Some s =>
    let '(passno, s) := number s in
    ret (match s with None => None | Some _ => Some (mk_mnt fsname dir type opts freq passno) end)
  end.

(** The next entry; every turn reads a line. *)
Fixpoint my_getmntent (fuel : nat) (f : mntFILE) : MW (option my_mntent * mntFILE) :=
  match fuel with
  | O => out_of_fuel
  | Datatypes.S fuel =>
    if mf_errs f || (ERR_MAX <=? mf_softerrs f) then ret (None, f)
    else
      let '(buf, f) := get_line f in
      match buf with
      | None => ret (None, f)
      | Some buf =>
        match line_text buf (mf_eof f) with
        | None => my_getmntent fuel (bad_line (long_line f))
        | Some line =>
          let s := skip_spaces line in
          if (char_at s =? 0) || (char_at s =? 35) then my_getmntent fuel f
          else
            let* e := read_entry s in
            match e with
            | Some e => ret (Some e, f)
            | None => my_getmntent fuel (bad_line f)
            end
        end
      end
  end.
End Streams.

(** ** What a file holds *)

(** A line that is neither blank nor a comment; [None] for a bad one. *)
Definition entry_of (s0 : list Z) : option my_mntent :=
  let s1 := after_field s0 in
  let s2 := after_field s1 in
  let s3 := after_field s2 in
  let '(freq, s) := number (after_field s3) in
  s ← s;
  let '(passno, s) := number s in
  _ ← s;
  Some (mk_mnt (unmangled s0) (unmangled s1) (unmangled s2) (unmangled s3) freq passno).

(** What becomes of a line. *)
Inductive line_kind := TooLong | Skipped | Bad | Entry (e : my_mntent).

Definition kind_of (buf : list Z) (eof : bool) : line_kind :=
  match line_text buf eof with
  | None => TooLong
  | Some line =>
    let s := skip_spaces line in
    if (char_at s =? 0) || (char_at s =? 35) then Skipped
    else match entry_of s with Some e => Entry e | None => Bad end
  end.

Fixpoint next_entry (fuel : nat) (f : mntFILE) : option my_mntent * mntFILE :=
  match fuel with
  | O => (None, f)
  | Datatypes.S fuel =>
    if mf_errs f || (ERR_MAX <=? mf_softerrs f) then (None, f)
    else
      match get_line f with
      | (None, f) => (None, f)
      | (Some buf, f) =>
        match kind_of buf (mf_eof f) with
        | TooLong => next_entry fuel (bad_line (long_line f))
        | Skipped => next_entry fuel f
        | Bad => next_entry fuel (bad_line f)
        | Entry e => (Some e, f)
        end
      end
  end.

Definition FUEL (f : mntFILE) : nat := Datatypes.S (length (mf_rest f)).

(** *** Reading consumes the file *)

Lemma get_line_shorter f buf f' : get_line f = (Some buf, f') -> (length (mf_rest f') < length (mf_rest f))%nat.
Proof.
  unfold get_line. destruct (fgets BUF (mf_rest f)) as [line rest] eqn:E. apply fgets_app in E. rewrite E, length_app.
  case_if; [done|]. destruct line; [done|]. intros [= _ <-]. simpl. lia.
Qed.

(** *** The monadic reader *)

Section Reader.
Context {W T : Type} {A : Alloc W} (obs : W -> T).
Context (alloc_quiet : forall n w, obs (malloc n w).2 = obs w).

(** [m] gives a value with the property and leaves [obs] alone, unless
    memory runs out. *)
Definition gives {V} (m : M W V) (P : V -> Prop) : Prop :=
  forall w, wpe m (fun a w' => P a /\ obs w' = obs w) (fun _ _ => False) (fun c w' => c = EX_SYSERR /\ obs w' = obs w) w.

Definition yields {V} (m : M W V) (v : V) : Prop := gives m (fun a => a = v).

Lemma gives_ret {V} (v : V) (P : V -> Prop) : P v -> gives (ret v) P.
Proof using. intros H w. by apply wpe_ret. Qed.

Lemma gives_bind {V V'} (m : M W V) (k : V -> M W V') P Q : gives m P -> (forall v, P v -> gives (k v) Q) -> gives (bind m k) Q.
Proof using.
  intros Hm Hk w. eapply wpe_bind, wpe_mono; [apply (Hm w)| |done|done].
  intros a w1 [Ha E]. eapply wpe_mono; [apply (Hk a Ha w1)|..]; cbv beta; rewrite ?E; done.
Qed.

Lemma gives_mono {V} (m : M W V) P Q : gives m P -> (forall v, P v -> Q v) -> gives m Q.
Proof using. intros Hm H w. eapply wpe_mono; [apply (Hm w)|..]; naive_solver. Qed.

Lemma yields_value {V} (v : V) : yields (ret v) v.
Proof using. by apply gives_ret. Qed.

Lemma yields_seq {V V'} (m : M W V) (k : V -> M W V') v v' : yields m v -> yields (k v) v' -> yields (bind m k) v'.
Proof using. intros Hm Hk. eapply gives_bind; [done|]. by intros ? ->. Qed.

Lemma yields_xmalloc n : yields (xmalloc n) tt.
Proof using alloc_quiet.
  intros w. unfold xmalloc. case_if; [by apply wpe_ret|]. unfold wpe, bind, attempt, m_malloc.
  pose proof (alloc_quiet n w). destruct (malloc n w) as [[] w']; done.
Qed.

Lemma yields_unmangle s : yields (unmangle s) (unmangled s).
Proof using alloc_quiet. eapply yields_seq; [apply yields_xmalloc|apply yields_value]. Qed.

Lemma yields_mangle s : yields (mangle s) (mangled s).
Proof using alloc_quiet. eapply yields_seq; [apply yields_xmalloc|apply yields_value]. Qed.

Lemma yields_new_text s : yields (new_text s) s.
Proof using alloc_quiet. eapply yields_seq; [apply yields_xmalloc|apply yields_value]. Qed.

Lemma yields_read_entry s : yields (read_entry s) (entry_of s).
Proof using alloc_quiet.
  unfold read_entry, entry_of. do 4 (eapply yields_seq; [apply yields_unmangle|]).
  destruct (number _) as [freq [s'|]]; [|apply yields_value]. cbn [mbind option_bind].
  destruct (number s') as [passno [s''|]]; apply yields_value.
Qed.

Lemma yields_getmntent fuel f : (length (mf_rest f) < fuel)%nat -> yields (my_getmntent fuel f) (next_entry fuel f).
Proof using alloc_quiet.
  revert f; induction fuel as [|fuel IH]; intros f Hf; [lia|]. cbn [my_getmntent next_entry].
  case_if; [apply yields_value|]. destruct (get_line f) as [[buf|] f'] eqn:E; [|apply yields_value].
  apply get_line_shorter in E. unfold kind_of. destruct (line_text buf (mf_eof f')) as [line|]; [|apply IH; simpl; lia].
  case_if; [apply IH; lia|]. eapply yields_seq; [apply yields_read_entry|].
  destruct (entry_of _); [apply yields_value|apply IH; simpl; lia].
Qed.
End Reader.

(** *** What is written is read back *)

Definition blank_free (s : list Z) : Prop := Forall (fun c => is_space_or_tab c = false) s.

Lemma escaped_cases c : c ∈ need_escaping -> c = 32 \/ c = 9 \/ c = 10 \/ c = 92.
Proof. unfold need_escaping. set_solver. Qed.

Lemma unescape_octal c rest : c ∈ need_escaping -> unescape (octal c ++ rest) = c :: unescape rest.
Proof. by intros [-> |[-> |[-> | ->]]]%escaped_cases. Qed.

Lemma unescape_other c rest : c <> 92 -> unescape (c :: rest) = c :: unescape rest.
Proof. intros H%Z.eqb_neq. cbn [unescape]. rewrite H. by destruct rest as [|? [|? [|? ?]]]. Qed.

Lemma mangled_cons c s : mangled (c :: s) = (if bool_decide (c ∈ need_escaping) then octal c else [c]) ++ mangled s.
Proof. done. Qed.

Lemma unescape_mangled s : unescape (mangled s) = s.
Proof.
  induction s as [|c s IH]; [done|]. rewrite mangled_cons. case_bool_decide as Hc.
  - by rewrite unescape_octal, IH.
  - cbn [app]. rewrite unescape_other, IH; [done|]. intros ->. apply Hc. unfold need_escaping. set_solver.
Qed.

Lemma mangled_chars (P : Z -> Prop) s :
  (forall c, c ∈ need_escaping -> Forall P (octal c)) -> (forall c, c ∈ s -> c ∉ need_escaping -> P c) -> Forall P (mangled s).
Proof.
  intros Ho Hs. induction s as [|c s IH]; [constructor|]. rewrite mangled_cons, Forall_app. split.
  - case_bool_decide as Hc; [by apply Ho|]. constructor; [apply Hs; [by left|done]|constructor].
  - apply IH. intros c' Hc'. apply Hs. by right.
Qed.

Lemma mangled_blank_free s : blank_free (mangled s).
Proof.
  apply mangled_chars; [by intros c [-> |[-> |[-> | ->]]]%escaped_cases; repeat constructor|].
  intros c _ Hc. unfold is_space_or_tab. destruct (Z.eqb_spec c 32), (Z.eqb_spec c 9); subst; try done;
    exfalso; apply Hc; unfold need_escaping; set_solver.
Qed.

Lemma mangled_no_newline s : 10 ∉ mangled s.
Proof.
  intros H. assert (F : Forall (fun c => c <> 10) (mangled s)); [|rewrite Forall_forall in F; by apply (F 10)].
  apply mangled_chars; [by intros c [-> |[-> |[-> | ->]]]%escaped_cases; repeat constructor|].
  intros c _ Hc ->. apply Hc. unfold need_escaping. set_solver.
Qed.

Lemma mangled_no_nul s : 0 ∉ s -> 0 ∉ mangled s.
Proof.
  intros Hs H. assert (F : Forall (fun c => c <> 0) (mangled s)); [|rewrite Forall_forall in F; by apply (F 0)].
  apply mangled_chars; [by intros c [-> |[-> |[-> | ->]]]%escaped_cases; repeat constructor|]. by intros c Hc _ ->.
Qed.

(** A text that begins with neither a blank nor NUL. *)
Definition begins (s : list Z) : Prop := exists c s', s = c :: s' /\ is_space_or_tab c = false /\ c <> 0.

Lemma begins_app s t : begins s -> begins (s ++ t).
Proof. intros (c & s' & -> & H). by exists c, (s' ++ t). Qed.

Lemma skip_spaces_begins s : begins s -> skip_spaces s = s.
Proof. intros (c & s' & -> & H & _). simpl. by rewrite H. Qed.

Lemma mangled_begins s : s <> [] -> 0 ∉ s -> begins (mangled s).
Proof.
  intros Hs H0. pose proof (mangled_blank_free s) as F. pose proof (mangled_no_nul s H0) as N.
  destruct (mangled s) as [|c m] eqn:E.
  - destruct s as [|c s]; [done|]. rewrite mangled_cons in E. by case_bool_decide.
  - exists c, m. split_and!; [done|by inversion F|]. intros ->. apply N. by left.
Qed.

Lemma nonspaces_app m r : blank_free m -> nonspaces (m ++ 32 :: r) = m.
Proof. induction 1 as [|c m Hc _ IH]; [done|]. simpl. by rewrite Hc, IH. Qed.

Lemma skip_nonspaces_app m r : blank_free m -> skip_nonspaces (m ++ 32 :: r) = 32 :: r.
Proof. induction 1 as [|c m Hc _ IH]; [done|]. simpl. by rewrite Hc, IH. Qed.

Lemma field_back s r : 0 ∉ s -> begins r -> unmangled (mangled s ++ 32 :: r) = s /\ after_field (mangled s ++ 32 :: r) = r.
Proof.
  intros H0 Hr. split.
  - unfold unmangled. rewrite nonspaces_app by apply mangled_blank_free. by rewrite unescape_mangled, c_string_all.
  - unfold after_field. rewrite skip_nonspaces_app by apply mangled_blank_free. simpl. by apply skip_spaces_begins.
Qed.

(** *** Numbers *)

Definition is_count (n : Z) : Prop := 0 <= n < 2 ^ 31.

Lemma print_int_nonneg n : 0 <= n -> print_int n = print_cno n.
Proof. intros H. unfold print_int. case_if; [lia|done]. Qed.

Lemma atol_print n s : is_count n -> stops s -> atol (print_cno n ++ s) = n.
Proof.
  intros Hn Hs. assert (Hn' : 0 <= n < 2 ^ 64) by (unfold is_count in Hn; lia).
  destruct (strtoull_print n s Hn' Hs) as (_ & d & l & Hd & Hl). destruct (is_digit_dec d Hd) as (_ & _ & H3).
  assert (V : (strto_digits 10 0 (print_cno n ++ s)).1 = n).
  { unfold print_cno. rewrite <- dec_digits_app. destruct (strto_dec_digits 20 n s 0) as (k & Hk & Hv).
    { unfold is_count in Hn. lia. }
    by rewrite Hv, Z.mul_0_l, Z.add_0_l, strto_digits_stops. }
  unfold atol. rewrite Hl in *. cbn [Parser.skip_spaces]. rewrite H3.
  rewrite (digit_no_sign d l Hd), V. unfold is_count in Hn. unfold LONG_MAX. lia.
Qed.

Lemma skip_digits_print n s : 0 <= n -> stops s -> skip_digits (print_cno n ++ s) = s.
Proof.
  intros Hn Hs. pose proof (print_cno_digits n Hn) as F. induction F as [|c l Hc _ IH].
  - destruct s as [|c s]; [done|]. simpl. unfold stops in Hs. simpl in Hs. by rewrite Hs.
  - simpl. destruct (is_digit_dec (c - 48)) as (H1 & _); [lia|].
    replace (48 + (c - 48)) with c in H1 by lia. by rewrite H1.
Qed.

Lemma digits_begin n s : 0 <= n < 2 ^ 64 -> begins (print_cno n ++ s).
Proof.
  intros Hn. destruct (dec_digits_head 20 n []) as (d & l & Hd & E); [lia..|].
  exists (48 + d), (l ++ s). unfold print_cno. rewrite E. unfold is_space_or_tab. split_and!; [done| |lia].
  destruct (Z.eqb_spec (48 + d) 32), (Z.eqb_spec (48 + d) 9); try done; lia.
Qed.

Lemma number_back n s : is_count n -> stops s -> (s = [] \/ is_space_or_tab (char_at s) = true) ->
  number (print_cno n ++ s) = (n, Some (skip_spaces s)).
Proof.
  intros Hn Hs Hend. assert (Hn' : 0 <= n < 2 ^ 64) by (unfold is_count in Hn; lia).
  unfold number. destruct (dec_digits_head 20 n []) as (d & l & Hd & E); [lia..|].
  destruct (is_digit_dec d Hd) as (H1 & _).
  assert (Hc : char_at (print_cno n ++ s) = 48 + d) by (unfold print_cno; by rewrite E).
  rewrite Hc, H1, atol_print, skip_digits_print by (done || lia).
  unfold i32, is_count in *. rewrite Z.mod_small by lia.
  replace (n + 2 ^ 31 - 2 ^ 31) with n by lia. destruct s as [|c s]; [done|].
  destruct Hend as [?|Hend]; [done|]. simpl in *. by rewrite Hend.
Qed.

(** *** Lines *)

(** An entry that a line can hold: the fields are neither empty nor have a
    NUL, the first one does not begin a comment, the numbers are not
    negative, and the line fits the buffer. *)
Record printable (e : my_mntent) : Prop := {
  pr_fsname : mt_fsname e <> [] /\ 0 ∉ mt_fsname e /\ head (mt_fsname e) <> Some 35;
  pr_dir : mt_dir e <> [] /\ 0 ∉ mt_dir e;
  pr_type : mt_type e <> [] /\ 0 ∉ mt_type e;
  pr_opts : mt_opts e <> [] /\ 0 ∉ mt_opts e;
  pr_freq : is_count (mt_freq e);
  pr_passno : is_count (mt_passno e);
  pr_fits : (length (entry_line e) <= BUF)%nat;
}.

Definition entry_text (e : my_mntent) : list Z :=
  mangled (mt_fsname e) ++ 32 :: mangled (mt_dir e) ++ 32 :: mangled (mt_type e) ++ 32 :: mangled (mt_opts e) ++
  32 :: print_cno (mt_freq e) ++ 32 :: print_cno (mt_passno e).

Lemma entry_line_text e : printable e -> entry_line e = entry_text e ++ [10].
Proof.
  intros P. unfold entry_line, entry_text. destruct (pr_freq e P), (pr_passno e P).
  rewrite !print_int_nonneg by done. repeat (rewrite <- app_assoc; cbn [app]). done.
Qed.

Lemma begins_mangled s r : s <> [] /\ 0 ∉ s -> begins (mangled s ++ r).
Proof. intros [Hs H0]. by apply begins_app, mangled_begins. Qed.

Lemma entry_back e : printable e -> entry_of (entry_text e) = Some e.
Proof.
  intros [[F1 [F2 _]] D T Op Hf Hp _]. unfold entry_of, entry_text.
  assert (Bf : begins (print_cno (mt_freq e) ++ 32 :: print_cno (mt_passno e))) by (apply digits_begin; unfold is_count in Hf; lia).
  destruct (field_back (mt_fsname e) (mangled (mt_dir e) ++ 32 :: mangled (mt_type e) ++ 32 :: mangled (mt_opts e) ++
    32 :: print_cno (mt_freq e) ++ 32 :: print_cno (mt_passno e))) as [-> ->]; [done|by apply begins_mangled|].
  destruct (field_back (mt_dir e) (mangled (mt_type e) ++ 32 :: mangled (mt_opts e) ++
    32 :: print_cno (mt_freq e) ++ 32 :: print_cno (mt_passno e))) as [-> ->]; [apply D|by apply begins_mangled|].
  destruct (field_back (mt_type e) (mangled (mt_opts e) ++
    32 :: print_cno (mt_freq e) ++ 32 :: print_cno (mt_passno e))) as [-> ->]; [apply T|by apply begins_mangled|].
  destruct (field_back (mt_opts e) (print_cno (mt_freq e) ++ 32 :: print_cno (mt_passno e))) as [-> ->]; [apply Op|done|].
  rewrite number_back by (done || by right). cbn [mbind option_bind skip_spaces is_space_or_tab Z.eqb Pos.eqb orb].
  assert (Bp : begins (print_cno (mt_passno e) ++ [])) by (apply digits_begin; unfold is_count in Hp; lia).
  rewrite <- (app_nil_r (print_cno (mt_passno e))), skip_spaces_begins, number_back by (done || by left).
  by destruct e.
Qed.

Lemma digits_not_elem n c : 0 <= n -> ~ 48 <= c < 58 -> c ∉ print_cno n.
Proof. intros Hn Hc Hin. pose proof (print_cno_digits n Hn) as F. rewrite Forall_forall in F. by apply Hc, (F c). Qed.

Lemma entry_text_plain e c : printable e -> c ∈ [0; 10] -> c ∉ entry_text e.
Proof.
  intros [[_ [F _]] [_ D] [_ T] [_ Op] [Hf _] [Hp _] _] Hc.
  assert (Hm : forall s, 0 ∉ s -> c ∉ mangled s).
  { intros s Hs. rewrite !elem_of_cons in Hc. destruct Hc as [-> |[-> |Hc%not_elem_of_nil]]; [|apply mangled_no_newline|done].
    by apply mangled_no_nul. }
  assert (Hd : forall n, 0 <= n -> c ∉ print_cno n).
  { intros n Hn. apply digits_not_elem; [done|]. rewrite !elem_of_cons in Hc. destruct Hc as [-> |[-> |Hc%not_elem_of_nil]]; [lia|lia|done]. }
  assert (H32 : c <> 32) by (intros ->; revert Hc; apply (bool_decide_unpack _); done).
  unfold entry_text. repeat (rewrite not_elem_of_app || rewrite not_elem_of_cons). split_and!; auto.
Qed.

Lemma cut_newline_at l : 10 ∉ l -> cut_newline (l ++ [10]) = Some l.
Proof.
  induction l as [|c l IH]; intros H; [done|]. rewrite not_elem_of_cons in H. destruct H as [Hc H].
  simpl. rewrite (proj2 (Z.eqb_neq c 10)) by congruence. by rewrite IH.
Qed.

Lemma entry_text_last e : printable e -> exists d, 0 <= d < 10 /\ last (entry_text e) = Some (48 + d).
Proof.
  intros P. pose proof (print_cno_digits (mt_passno e) ltac:(apply (pr_passno e P))) as F.
  assert (N : print_cno (mt_passno e) <> []).
  { apply print_cno_nonempty. pose proof (pr_passno e P). unfold is_count in *. lia. }
  destruct (exists_last N) as (l & c & E). rewrite E in F. apply Forall_app in F as [_ F]. inversion F; subst.
  exists (c - 48). split; [lia|]. replace (48 + (c - 48)) with c by lia. unfold entry_text. rewrite E.
  repeat (rewrite app_comm_cons || rewrite app_assoc). by rewrite last_snoc.
Qed.

Lemma kind_of_entry e eof : printable e -> kind_of (entry_line e) eof = Entry e.
Proof.
  intros P. unfold kind_of, line_text. rewrite entry_line_text by done.
  assert (H0 : 0 ∉ entry_text e) by (apply entry_text_plain; [done|set_solver]).
  rewrite c_string_all by (rewrite not_elem_of_app; set_solver).
  rewrite cut_newline_at by (apply entry_text_plain; [done|set_solver]).
  assert (Hr : cut_return (entry_text e) = entry_text e).
  { unfold cut_return. destruct (entry_text_last e P) as (d & Hd & ->).
    assert (d = 0 \/ d = 1 \/ d = 2 \/ d = 3 \/ d = 4 \/ d = 5 \/ d = 6 \/ d = 7 \/ d = 8 \/ d = 9) by lia.
    intuition (subst; reflexivity). }
  rewrite Hr. destruct (pr_fsname e P) as (F1 & F2 & F3).
  assert (B : begins (entry_text e)) by (by apply begins_mangled). rewrite skip_spaces_begins by done.
  rewrite entry_back by done. destruct B as (c & s & E & Hb & Hc). rewrite E. simpl.
  rewrite (proj2 (Z.eqb_neq c 0)) by done. rewrite (proj2 (Z.eqb_neq c 35)); [done|]. intros ->.
  unfold entry_text in E. destruct (mt_fsname e) as [|d fs]; [done|]. rewrite mangled_cons in E.
  case_bool_decide; [done|]. injection E as -> _. by apply F3.
Qed.

(** *** Files *)

(** The stream is in order, with [text] left. *)
Definition at_text (f : mntFILE) (text : list Z) (fails : bool) : Prop :=
  mf_rest f = text /\ mf_fails f = fails /\ mf_errs f = false /\ mf_softerrs f < ERR_MAX.

Lemma get_line_entry e rest f : printable e -> mf_rest f = entry_line e ++ rest ->
  get_line f = (Some (entry_line e), mk_mntFILE rest (mf_fails f) false (mf_error f) (mf_lineno f + 1) (mf_errs f) (mf_softerrs f)).
Proof.
  intros P E. pose proof (pr_fits e P) as L. unfold get_line. rewrite entry_line_text in * by done. rewrite E, <- app_assoc.
  rewrite length_app in L. simpl in L. cbn [app]. rewrite fgets_line; [|apply entry_text_plain; [done|set_solver]|unfold BUF in *; lia].
  rewrite last_snoc, (bool_decide_eq_false_2 (Some 10 <> Some 10)) by (intros H; by apply H).
  rewrite andb_false_r. cbn [andb]. by destruct (entry_text e).
Qed.

Lemma next_entry_line e rest f fuel : printable e -> at_text f (entry_line e ++ rest) (mf_fails f) ->
  exists f', next_entry (Datatypes.S fuel) f = (Some e, f') /\ at_text f' rest (mf_fails f) /\ mf_error f' = mf_error f.
Proof.
  intros P (E & _ & He & Hs). cbn [next_entry]. rewrite He. unfold ERR_MAX in *. case_if; [lia|]. cbn [orb].
  rewrite (get_line_entry e rest f P E), kind_of_entry by done. eexists; split_and!; [done| |done]. by split_and!.
Qed.

(** The text at its end: with the error if there is one. *)
Lemma next_entry_end f fuel fails : at_text f [] fails ->
  exists f', next_entry (Datatypes.S fuel) f = (None, f') /\ mf_error f' = (fails || mf_error f).
Proof.
  intros (E & Hf & He & Hs). cbn [next_entry]. rewrite He. unfold ERR_MAX in *. case_if; [lia|]. cbn [orb].
  unfold get_line. rewrite E, Hf. simpl. destruct fails; by eexists.
Qed.

(** The entries up to the end of the file, or to where reading stops; then
    whether that is an error. *)
Fixpoint all_entries (fuel : nat) (f : mntFILE) : list my_mntent * bool :=
  match fuel with
  | O => ([], false)
  | Datatypes.S fuel =>
    match next_entry (FUEL f) f with
    | (None, f) => ([], mf_error f)
    | (Some e, f) => let '(es, err) := all_entries fuel f in (e :: es, err)
    end
  end.

Lemma next_entry_shorter fuel : forall f e f', next_entry fuel f = (Some e, f') -> (length (mf_rest f') < length (mf_rest f))%nat.
Proof.
  induction fuel as [|fuel IH]; intros f e f'; [done|]. cbn [next_entry]. case_if; [done|].
  destruct (get_line f) as [[buf|] f1] eqn:E; [|done]. apply get_line_shorter in E.
  destruct (kind_of buf (mf_eof f1)); intros H; try (apply IH in H; simpl in H; lia). injection H as <- <-. lia.
Qed.

Lemma all_entries_lines es fails : Forall printable es -> forall fuel f,
  at_text f (es ≫= entry_line) fails -> mf_error f = false -> (length es < fuel)%nat -> all_entries fuel f = (es, fails).
Proof.
  induction 1 as [|e es P _ IH]; intros fuel f Hf He Hn; (destruct fuel as [|fuel]; [simpl in Hn; lia|]); cbn [all_entries].
  - destruct (next_entry_end f (length (mf_rest f)) fails Hf) as (f' & En & Ee). unfold FUEL. rewrite En, Ee, He. by destruct fails.
  - assert (Ef : fails = mf_fails f) by (symmetry; apply Hf). rewrite Ef in Hf.
    destruct (next_entry_line e _ f (length (mf_rest f)) P Hf) as (f' & En & H' & He'). unfold FUEL. rewrite En.
    rewrite (IH fuel f'); [by rewrite Ef|by rewrite Ef|by rewrite He'|simpl in Hn; lia].
Qed.

Lemma lines_long_enough es : (length es <= length (es ≫= entry_line))%nat.
Proof.
  induction es as [|e es IH]; [done|]. change ((e :: es) ≫= entry_line) with (entry_line e ++ (es ≫= entry_line)).
  assert (H : (0 < length (entry_line e))%nat) by (unfold entry_line; rewrite length_app; simpl; lia).
  rewrite length_app. cbn [length]. lia.
Qed.

(** The entries that the text of a file holds. *)
Definition entries_in (text : list Z) (fails : bool) : list my_mntent * bool :=
  all_entries (Datatypes.S (length text)) (open_file text fails).

Lemma entries_in_lines es fails : Forall printable es -> entries_in (es ≫= entry_line) fails = (es, fails).
Proof.
  intros P. apply all_entries_lines; [done|by split_and!|done|]. pose proof (lines_long_enough es). lia.
Qed.
