(* ===== verification/Fstab.v ===== *)
(** * The mount table: sbin/mount/fstab.c

    The entries of a table are a ring of nodes around a dummy, the head,
    linked in both directions; a node is reached by its identity in a store,
    and following one that is not there is undefined.  /etc/mtab is changed
    under a lock, a file that is made as a link, by writing a new table and
    renaming it.  The signals that [lock_mtab] sets handlers for, and the
    texts that are printed, are left out. *)

From Stdlib Require Import String.
From stdpp Require Import gmap.
From S2P Require Import Prelude Vector Hoare Ondisk Kernel Nilfs Parser Float64 Cldconfig Cleanerd CleanerExec Mntent.

Definition _PATH_MOUNTED : list Z := codes "/etc/mtab".
Definition _PATH_MOUNTED_LOCK : list Z := codes "/etc/mtab~".
Definition _PATH_MOUNTED_TMP : list Z := codes "/etc/mtab.tmp".
Definition _PATH_PROC_MOUNTS : list Z := codes "/proc/mounts".
Definition _PATH_MNTTAB : list Z := codes "/etc/fstab".
Definition MNTTYPE_IGNORE : list Z := codes "ignore".
Definition EEXIST : Z := 17.
Definition MOUNTLOCK_MAXTIME : Z := 30.
Definition MOUNTLOCK_WAITTIME : Z := 5000.

(** [mb_lstat] answers whether the file is a symbolic link, [mb_owner] the
    user and the group of a file. *)
Class MtabOs (W : Type) := {
  mb_streams :: StreamOs W;
  mb_lstat : list Z -> W -> (bool + Z) * W;
  mb_owner : list Z -> W -> ((Z * Z) + Z) * W;
  mb_open : list Z -> Z -> W -> (Z + Z) * W;
  mb_close : Z -> W -> W;
  mb_getpid : W -> Z;
  mb_link : list Z -> list Z -> W -> (unit + Z) * W;
  mb_unlink : list Z -> W -> (unit + Z) * W;
  mb_rename : list Z -> list Z -> W -> (unit + Z) * W;
  mb_setlk : Z -> W -> (unit + Z) * W;
  mb_setlkw : Z -> W -> (unit + Z) * W;
  mb_alarm : Z -> W -> W;
  mb_monotonic : W -> (timespec + Z) * W;
  mb_nanosleep : timespec -> W -> W;
  mb_fchmod : Z -> Z -> W -> (unit + Z) * W;
  mb_fchown : Z -> Z -> Z -> W -> (unit + Z) * W;
}.

Definition O_WRONLY_CREAT : Z := 65.
Definition O_RDWR_CREAT : Z := 66.
Definition O_WRONLY : Z := 1.

(** ** Chains *)

Record node := mk_node { nd_nxt : option nat; nd_prev : option nat; nd_m : my_mntent }.
Record mntentchn := mk_chain { ch_nodes : gmap nat node; ch_fresh : nat }.

Definition HEAD : nat := 0.
Definition sizeof_mntentchn : Z := 64.
Definition no_entry : my_mntent := mk_mnt [] [] [] [] 0 0.
(** [mc->nxt = mc->prev = NULL] *)
Definition empty_chain : mntentchn := mk_chain {[HEAD := mk_node None None no_entry]} 1.

Definition set_nxt (q : option nat) (n : node) : node := mk_node q (nd_prev n) (nd_m n).
Definition set_prev (q : option nat) (n : node) : node := mk_node (nd_nxt n) q (nd_m n).
Definition set_m (e : my_mntent) (n : node) : node := mk_node (nd_nxt n) (nd_prev n) e.

Definition mounted_on (dir : list Z) (e : my_mntent) : bool := bool_decide (mt_dir e = dir).

Section Chains.
Context {W : Type} {A : Alloc W}.
Abbreviation MW := (M W).

Definition load (c : mntentchn) (p : nat) : MW node := of_option (ch_nodes c !! p).
Definition change_node (c : mntentchn) (p : nat) (f : node -> node) : MW mntentchn :=
  let* n := load c p in ret (mk_chain (<[p := f n]> (ch_nodes c)) (ch_fresh c)).
Definition new_node (c : mntentchn) (n : node) : MW (mntentchn * nat) :=
  xmalloc sizeof_mntentchn ;;
  ret (mk_chain (<[ch_fresh c := n]> (ch_nodes c)) (Datatypes.S (ch_fresh c)), ch_fresh c).
Definition my_free_mc (c : mntentchn) (p : nat) : MW mntentchn :=
  load c p ;; ret (mk_chain (delete p (ch_nodes c)) (ch_fresh c)).

(** More turns than a loop over the nodes takes. *)
Definition TURNS (c : mntentchn) : nat := Datatypes.S (Datatypes.S (ch_fresh c)).

(** [for (...; mc && mc != mc0; mc = mc->prev) if (...) return mc;] *)
Fixpoint find_backward (fuel : nat) (c : mntentchn) (wanted : my_mntent -> bool) (mc : option nat) : MW (option nat) :=
  match fuel with
  | O => out_of_fuel
  | Datatypes.S fuel =>
    match mc with
    | None => ret None
    | Some p =>
      if Nat.eqb p HEAD then ret None
      else
        let* n := load c p in
        if wanted (nd_m n) then ret (Some p) else find_backward fuel c wanted (nd_prev n)
    end
  end.

Fixpoint find_forward (fuel : nat) (c : mntentchn) (wanted : my_mntent -> bool) (mc : option nat) : MW (option nat) :=
  match fuel with
  | O => out_of_fuel
  | Datatypes.S fuel =>
    match mc with
    | None => ret None
    | Some p =>
      if Nat.eqb p HEAD then ret None
      else
        let* n := load c p in
        if wanted (nd_m n) then ret (Some p) else find_forward fuel c wanted (nd_nxt n)
    end
  end.

Fixpoint discard_loop (fuel : nat) (c : mntentchn) (mc : option nat) : MW mntentchn :=
  match fuel with
  | O => out_of_fuel
  | Datatypes.S fuel =>
    match mc with
    | None => ret c
    | Some p =>
      if Nat.eqb p HEAD then ret c
      else
        let* n := load c p in
        let* c := my_free_mc c p in
        discard_loop fuel c (nd_nxt n)
    end
  end.

Definition discard_mntentchn (c : mntentchn) : MW mntentchn :=
  let* h := load c HEAD in discard_loop (TURNS c) c (nd_nxt h).

(** Reading a table: every turn takes an entry of the file. *)
Fixpoint read_entries (fuel : nat) (f : mntFILE) (c : mntentchn) (mc : nat) : MW (mntFILE * mntentchn * nat) :=
  match fuel with
  | O => out_of_fuel
  | Datatypes.S fuel =>
    let* (e, f) := my_getmntent (FUEL f) f in
    match e with
    | None => ret (f, c, mc)
    | Some e =>
      if bool_decide (mt_type e = MNTTYPE_IGNORE) then read_entries fuel f c mc
      else
        let* (c, new) := new_node c (mk_node (Some HEAD) (Some mc) e) in
        let* c := change_node c mc (set_nxt (Some new)) in
        read_entries fuel f c new
    end
  end.

Definition read_mntentchn (f : mntFILE) (c : mntentchn) : MW mntentchn :=
  let* (f, c, mc) := read_entries (FUEL f) f c HEAD in
  let* c := change_node c HEAD (set_prev (Some mc)) in
  if mf_error f then
    let* c := change_node c HEAD (set_prev None) in
    change_node c HEAD (set_nxt None)
  else ret c.

(** Unlinking and freeing a node. *)
Definition remove_node (c : mntentchn) (mc : nat) : MW mntentchn :=
  let* n := load c mc in
  let* prev := of_option (nd_prev n) in
  let* next := of_option (nd_nxt n) in
  let* c := change_node c prev (set_nxt (Some next)) in
  let* c := change_node c next (set_prev (Some prev)) in
  my_free_mc c mc.

Definition replace_opts (c : mntentchn) (mc : nat) (instead : my_mntent) : MW mntentchn :=
  let* opts := new_text (mt_opts instead) in
  let* n := load c mc in
  change_node c mc (set_m (with_opts opts (nd_m n))).

Definition link_last (c : mntentchn) (absent : nat) : MW mntentchn :=
  let* c := change_node c absent (set_nxt (Some HEAD)) in
  let* h := load c HEAD in
  let* c := match nd_prev h with
            | Some prev => let* c := change_node c absent (set_prev (Some prev)) in change_node c prev (set_nxt (Some absent))
            | None => change_node c absent (set_prev (Some HEAD))
            end in
  let* c := change_node c HEAD (set_prev (Some absent)) in
  let* h := load c HEAD in
  match nd_nxt h with
  | None => change_node c HEAD (set_nxt (Some absent))
  | Some _ => ret c
  end.

Definition append_node (c : mntentchn) (e : my_mntent) : MW mntentchn :=
  let* (c, absent) := new_node c (mk_node None None e) in
  new_text (mt_fsname e) ;;
  new_text (mt_dir e) ;;
  new_text (mt_type e) ;;
  new_text (mt_opts e) ;;
  link_last c absent.

(** What happens to the entry of a directory: the last one is removed,
    without [instead]; or it gets other options, or a new one is added. *)
Definition change_entry (c : mntentchn) (dir : list Z) (instead : option my_mntent) : MW mntentchn :=
  let* h := load c HEAD in
  let* mc := find_backward (TURNS c) c (mounted_on dir) (nd_prev h) in
  match mc, instead with
  | Some mc, None => remove_node c mc
  | Some mc, Some instead => replace_opts c mc instead
  | None, Some instead => append_node c instead
  | None, None => ret c
  end.
End Chains.

(** ** The table of the program *)

(** [ms_info]: whether /etc/mtab does not exist and whether it is a symbolic
    link, once that is known; [ms_table]: the table once it has been read;
    then [we_created_lockfile] and [lockfile_fd]. *)
Record mtab_state (W : Type) := mk_mts {
  ms_world : W; ms_info : option (bool * bool); ms_table : option mntentchn; ms_created : bool; ms_fd : Z;
}.
Arguments mk_mts {W} _ _ _ _ _.
Arguments ms_world {W} _.
Arguments ms_info {W} _.
Arguments ms_table {W} _.
Arguments ms_created {W} _.
Arguments ms_fd {W} _.

Definition initial_mtab {W} (w : W) : mtab_state W := mk_mts w None None false (-1).

Section Table.
Context {W : Type} {A : Alloc W} {MO : MtabOs W}.
Abbreviation MM := (M (mtab_state W)).

Definition in_world {T} (m : M W T) : MM T :=
  fun s => let '(r, w) := m (ms_world s) in (r, mk_mts w (ms_info s) (ms_table s) (ms_created s) (ms_fd s)).
Definition mtry {T} (f : W -> (T + Z) * W) : MM (T + Z) := attempt (in_world (lift_sum f)).
Definition mdo (f : W -> W) : MM unit := in_world (modify f).
Definition set_info (i : bool * bool) : MM unit :=
  modify (fun s => mk_mts (ms_world s) (Some i) (ms_table s) (ms_created s) (ms_fd s)).
Definition set_table (c : mntentchn) : MM unit :=
  modify (fun s => mk_mts (ms_world s) (ms_info s) (Some c) (ms_created s) (ms_fd s)).
Definition set_created (b : bool) : MM unit :=
  modify (fun s => mk_mts (ms_world s) (ms_info s) (ms_table s) b (ms_fd s)).
Definition set_fd (fd : Z) : MM unit :=
  modify (fun s => mk_mts (ms_world s) (ms_info s) (ms_table s) (ms_created s) fd).

Definition get_mtab_info : MM (bool * bool) :=
  let* info := gets ms_info in
  match info with
  | Some info => ret info
  | None =>
    let* st := mtry (mb_lstat _PATH_MOUNTED) in
    let info := match st with inr _ => (true, false) | inl link => (false, link) end in
    set_info info ;;
    ret info
  end.

Definition mtab_does_not_exist : MM bool := let* info := get_mtab_info in ret info.1.
Definition mtab_is_a_symlink : MM bool := let* info := get_mtab_info in ret info.2.

Definition mtab_is_writable : MM bool :=
  let* link := mtab_is_a_symlink in
  if link then ret false
  else
    let* fd := mtry (mb_open _PATH_MOUNTED O_RDWR_CREAT) in
    match fd with
    | inl fd => mdo (mb_close fd) ;; ret true
    | inr _ => ret false
    end.

(** The chain of a file that was opened; the empty one otherwise. *)
Definition read_mounttable : MM mntentchn :=
  let* mfp := attempt (in_world (my_setmntent_read _PATH_MOUNTED)) in
  match mfp with
  | inl f => in_world (read_mntentchn f empty_chain)
  | inr _ =>
    let* mfp := attempt (in_world (my_setmntent_read _PATH_PROC_MOUNTS)) in
    match mfp with
    | inl f => in_world (read_mntentchn f empty_chain)
    | inr _ => ret empty_chain
    end
  end.

Definition mtab_head : MM mntentchn :=
  let* table := gets ms_table in
  match table with
  | Some c => ret c
  | None =>
    let* c := read_mounttable in
    set_table c ;;
    ret c
  end.

(** The next node for which a test holds: from a node, or from the head. *)
Definition from_node (prev : bool) (mc : option nat) (wanted : my_mntent -> bool) : MM (option nat) :=
  let* c := mtab_head in
  let* n := in_world (load c (default HEAD mc)) in
  in_world (if prev then find_backward (TURNS c) c wanted (nd_prev n) else find_forward (TURNS c) c wanted (nd_nxt n)).

Definition getmntfile (name : list Z) : MM (option nat) :=
  from_node false None (fun e => bool_decide (mt_dir e = name) || bool_decide (mt_fsname e = name)).
Definition getmntdirbackward (name : list Z) (mcprev : option nat) : MM (option nat) :=
  from_node true mcprev (mounted_on name).
Definition getmntdevbackward (name : list Z) (mcprev : option nat) : MM (option nat) :=
  from_node true mcprev (fun e => bool_decide (mt_fsname e = name)).

(** The entry of a node. *)
Definition entry_at (p : nat) : MM my_mntent :=
  let* c := mtab_head in let* n := in_world (load c p) in ret (nd_m n).

Fixpoint count_backward (fuel : nat) (c : mntentchn) (wanted : my_mntent -> bool) (mc : option nat) (ct : Z) : MM Z :=
  match fuel with
  | O => out_of_fuel
  | Datatypes.S fuel =>
    match mc with
    | None => ret ct
    | Some p =>
      if Nat.eqb p HEAD then ret ct
      else
        let* n := in_world (load c p) in
        count_backward fuel c wanted (nd_prev n) (if wanted (nd_m n) then ct + 1 else ct)
    end
  end.

Definition is_mounted_once (name : list Z) : MM bool :=
  let* c := mtab_head in
  let* n := in_world (load c HEAD) in
  let* ct := count_backward (TURNS c) c (fun e => bool_decide (mt_dir e = name) || bool_decide (mt_fsname e = name)) (nd_prev n) 0 in
  ret (ct =? 1).

(** [strstr(opts, "loop=")]: what comes before it, and what it begins. *)
Fixpoint strstr (needle s : list Z) : option (list Z * list Z) :=
  match strip_prefix needle s with
  | Some rest => Some ([], rest)
  | None => match s with [] => None | c :: s => '(before, rest) ← strstr needle s; Some (c :: before, rest) end
  end.

Definition ends_option (s : list Z) : bool := (char_at s =? 0) || (char_at s =? 44).

Definition has_loop (file : list Z) (e : my_mntent) : bool :=
  match strstr (codes "loop=") (mt_opts e) with
  | None => false
  | Some (before, s) =>
    match strip_prefix file s with
    | None => false
    | Some rest => (match last before with None => true | Some c => c =? 44 end) && ends_option rest
    end
  end.

Definition getmntoptfile (file : list Z) : MM (option nat) := from_node false None (has_loop file).

(** ** The lock *)

Definition unlock_mtab : MM unit :=
  let* created := gets ms_created in
  if created then
    let* fd := gets ms_fd in
    mdo (mb_close fd) ;;
    set_fd (-1) ;;
    mtry (mb_unlink _PATH_MOUNTED_LOCK) ;;
    set_created false
  else ret tt.

(** The name that is linked. *)
Definition linktarget (pid : Z) : list Z := _PATH_MOUNTED_LOCK ++ Tune.print_int pid.

Definition give_up_lock {T} (target : list Z) (status : Z) : MM T := mtry (mb_unlink target) ;; die status.

Definition lock_time (target : list Z) : MM timespec :=
  let* now := mtry mb_monotonic in
  match now with inl now => ret now | inr _ => give_up_lock target EX_SYSERR end.

(** Someone else has the lock: wait for it, then try again. *)
Definition wait_for_lock (target : list Z) (maxtime : timespec) (fd : Z) : MM unit :=
  let* now := lock_time target in
  (if timespec_lt now maxtime then
     mdo (mb_alarm (u32 (tv_sec maxtime - tv_sec now))) ;;
     let* r := mtry (mb_setlkw fd) in
     match r with
     | inr _ => give_up_lock target EX_FILEIO
     | inl _ =>
       mdo (mb_alarm 0) ;;
       mdo (mb_nanosleep (mk_timespec 0 (1000 * MOUNTLOCK_WAITTIME)))
     end
   else give_up_lock target EX_FILEIO) ;;
  mdo (mb_close fd).

(** A turn of the loop. *)
Definition try_lock (target : list Z) (maxtime : timespec) : MM unit :=
  let* j := mtry (mb_link target _PATH_MOUNTED_LOCK) in
  match j with
  | inl _ => set_created true
  | inr e => if e =? EEXIST then ret tt else give_up_lock target EX_FILEIO
  end ;;
  let* r := mtry (mb_open _PATH_MOUNTED_LOCK O_WRONLY) in
  match r with
  | inr e =>
    set_fd (-1) ;;
    let* now := lock_time target in
    if (e =? ENOENT) && timespec_lt now maxtime then set_created false
    else give_up_lock target EX_FILEIO
  | inl fd =>
    set_fd fd ;;
    match j with
    | inl _ => mtry (mb_setlk fd) ;; mtry (mb_unlink target) ;; ret tt
    | inr _ => wait_for_lock target maxtime fd
    end
  end.

Fixpoint lock_loop (fuel : nat) (target : list Z) (maxtime : timespec) : MM unit :=
  match fuel with
  | O => out_of_fuel
  | Datatypes.S fuel =>
    let* created := gets ms_created in
    if created then ret tt
    else
      try_lock target maxtime ;;
      lock_loop fuel target maxtime
  end.

Definition lock_mtab (fuel : nat) : MM unit :=
  let* s := get_state in
  let target := linktarget (mb_getpid (ms_world s)) in
  let* i := mtry (mb_open target O_WRONLY_CREAT) in
  match i with
  | inr _ => die EX_FILEIO
  | inl i =>
    mdo (mb_close i) ;;
    let* now := mtry mb_monotonic in
    match now with
    | inr _ => die EX_SYSERR
    | inl now => lock_loop fuel target (mk_timespec (tv_sec now + MOUNTLOCK_MAXTIME) (tv_nsec now))
    end
  end.

(** ** Changing the table *)

(** The loop that writes the chain. *)
Fixpoint write_chain (fuel : nat) (c : mntentchn) (mftmp : Z) (mc : option nat) : MM unit :=
  match fuel with
  | O => out_of_fuel
  | Datatypes.S fuel =>
    match mc with
    | None => ret tt
    | Some p =>
      if Nat.eqb p HEAD then ret tt
      else
        let* n := in_world (load c p) in
        let* r := attempt (in_world (my_addmntent mftmp (nd_m n))) in
        match r with
        | inr _ => die EX_FILEIO
        | inl _ => write_chain fuel c mftmp (nd_nxt n)
        end
    end
  end.

(** Whether the temporary file has its mode and owner. *)
Definition fix_owner (fd : Z) : MM bool :=
  let* r := mtry (mb_fchmod fd 420) in
  match r with
  | inr _ => ret false
  | inl _ =>
    let* sbuf := mtry (mb_owner _PATH_MOUNTED) in
    match sbuf with
    | inr _ => ret true
    | inl (uid, gid) => let* r := mtry (mb_fchown fd uid gid) in ret (match r with inl _ => true | inr _ => false end)
    end
  end.

Definition write_table (c : mntentchn) : MM unit :=
  let* mftmp := attempt (in_world (my_setmntent_write _PATH_MOUNTED_TMP (codes "w"))) in
  match mftmp with
  | inr _ => in_world (discard_mntentchn c) ;; ret tt
  | inl mftmp =>
    let* h := in_world (load c HEAD) in
    write_chain (TURNS c) c mftmp (nd_nxt h) ;;
    in_world (discard_mntentchn c) ;;
    let* fixed := fix_owner mftmp in
    if fixed then
      in_world (my_endmntent mftmp) ;;
      mtry (mb_rename _PATH_MOUNTED_TMP _PATH_MOUNTED) ;;
      ret tt
    else ret tt
  end.

(** What is done while the lock is held. *)
Definition change_table (dir : list Z) (instead : option my_mntent) : MM unit :=
  let* mfp := attempt (in_world (my_setmntent_read _PATH_MOUNTED)) in
  match mfp with
  | inr _ => ret tt
  | inl f =>
    let* c := in_world (read_mntentchn f empty_chain) in
    let* c := in_world (change_entry c dir instead) in
    write_table c
  end.

Definition update_mtab (fuel : nat) (dir : list Z) (instead : option my_mntent) : MM unit :=
  let* missing := mtab_does_not_exist in
  if missing then ret tt
  else
    let* writable := mtab_is_writable in
    if negb writable then ret tt
    else
      lock_mtab fuel ;;
      change_table dir instead ;;
      unlock_mtab.
End Table.
