(* ===== verification/FstabSpec.v ===== *)
(** * The chains of the mount table and its update: proofs

    A chain represents a list of entries; removing, changing and adding a
    node are those operations of lists.  [update_mtab] replaces the table by
    the updated one while it holds the lock. *)

From stdpp Require Import gmap.
From S2P Require Import Prelude Vector Hoare Ondisk Kernel Nilfs Parser Float64 Cldconfig Cleanerd CleanerExec Mntent Fstab.

(** ** Segments of a chain *)

Abbreviation named := (list (nat * my_mntent)).
Abbreviation store := (gmap nat node).

Definition first_of (l : named) (q : nat) : nat := match l with [] => q | (a, _) :: _ => a end.
Definition last_of (p : nat) (l : named) : nat := match last l with Some (a, _) => a | None => p end.

(** The nodes of [l], in order, between [p] and [q]. *)
Fixpoint seg (m : store) (p : nat) (l : named) (q : nat) : Prop :=
  match l with
  | [] => True
  | (a, e) :: l' => m !! a = Some (mk_node (Some (first_of l' q)) (Some p) e) /\ seg m a l' q
  end.

Lemma last_of_cons p a e (l : named) : last_of p ((a, e) :: l) = last_of a l.
Proof.
  unfold last_of. destruct l as [|x l]; [done|]. change (last ((a, e) :: x :: l)) with (last (x :: l)).
  destruct (last (x :: l)) as [[]|] eqn:E; [done|]. by apply last_None in E.
Qed.

Lemma last_of_snoc p a e (l : named) : last_of p (l ++ [(a, e)]) = a.
Proof. unfold last_of. by rewrite last_snoc. Qed.

Lemma last_of_elem p (l : named) : l <> [] -> last_of p l ∈ l.*1.
Proof.
  intros H. destruct (exists_last H) as (l' & [a e] & ->). rewrite last_of_snoc, fmap_app. set_solver.
Qed.

Lemma first_of_any (l : named) q q' : l <> [] -> first_of l q = first_of l q'.
Proof. by destruct l as [|[]]. Qed.

Lemma last_of_any p p' (l : named) : l <> [] -> last_of p l = last_of p' l.
Proof. intros H. destruct (exists_last H) as (l' & [a e] & ->). by rewrite !last_of_snoc. Qed.

Lemma first_of_app (l1 l2 : named) q : first_of (l1 ++ l2) q = first_of l1 (first_of l2 q).
Proof. by destruct l1 as [|[]]. Qed.

Lemma last_of_app p (l1 l2 : named) : last_of p (l1 ++ l2) = last_of (last_of p l1) l2.
Proof.
  revert p; induction l1 as [|[a e] l1 IH]; intros p; [done|]. cbn [app]. by rewrite !last_of_cons.
Qed.

Lemma seg_app m (l1 l2 : named) : forall p q, seg m p (l1 ++ l2) q <-> seg m p l1 (first_of l2 q) /\ seg m (last_of p l1) l2 q.
Proof.
  induction l1 as [|[a e] l1 IH]; intros p q; cbn [app seg]; [unfold last_of; simpl; tauto|]. rewrite IH, first_of_app, last_of_cons. tauto.
Qed.

Lemma seg_frame m m' (l : named) : (forall a, a ∈ l.*1 -> m' !! a = m !! a) -> forall p q, seg m p l q -> seg m' p l q.
Proof.
  intros H. induction l as [|[a e] l IH]; intros p q; [done|]. intros [Ha Hl]. split.
  - rewrite H; [done|by left].
  - apply IH; [|done]. intros b Hb. apply H. by right.
Qed.

Lemma seg_alter f a m (l : named) p q : a ∉ l.*1 -> seg m p l q -> seg (alter f a m) p l q.
Proof. intros Ha. apply seg_frame. intros b Hb. rewrite lookup_alter_ne; [done|]. by intros ->. Qed.

Lemma seg_insert n a m (l : named) p q : a ∉ l.*1 -> seg m p l q -> seg (<[a := n]> m) p l q.
Proof. intros Ha. apply seg_frame. intros b Hb. rewrite lookup_insert_ne; [done|]. by intros ->. Qed.

Lemma seg_delete a m (l : named) p q : a ∉ l.*1 -> seg m p l q -> seg (delete a m) p l q.
Proof. intros Ha. apply seg_frame. intros b Hb. rewrite lookup_delete_ne; [done|]. by intros ->. Qed.

(** Another successor of the last node, or predecessor of the first one. *)
Lemma seg_nxt m (l : named) p q q' : NoDup l.*1 -> seg m p l q -> seg (alter (set_nxt (Some q')) (last_of p l) m) p l q'.
Proof.
  revert p; induction l as [|[a e] l IH]; intros p N; [done|]. apply NoDup_cons in N as [Na N]. intros [Ha Hl].
  rewrite last_of_cons. split; [|by apply IH]. destruct l as [|[b e'] l].
  - cbn. by rewrite lookup_alter_eq, Ha.
  - rewrite lookup_alter_ne; [done|]. intros H. apply Na. rewrite <- H at 1. by apply last_of_elem.
Qed.

Lemma seg_prev m (l : named) p p' q : NoDup l.*1 -> seg m p l q -> seg (alter (set_prev (Some p')) (first_of l q) m) p' l q.
Proof.
  destruct l as [|[a e] l]; [done|]. intros [Na N]%NoDup_cons [Ha Hl]. cbn [first_of seg]. split.
  - by rewrite lookup_alter_eq, Ha.
  - by apply seg_alter.
Qed.

Lemma first_of_elem (l : named) q : l <> [] -> first_of l q ∈ l.*1.
Proof. destruct l as [|[a e] l]; [done|]. intros _. by left. Qed.

(** ** Chains *)

(** The pointers of the head; both forms are ends of an empty chain. *)
Definition head_ok (l : named) (n p : option nat) : Prop :=
  (n = Some (first_of l HEAD) /\ p = Some (last_of HEAD l)) \/ (l = [] /\ n = None /\ (p = None \/ p = Some HEAD)).

Record chain_of (c : mntentchn) (l : named) : Prop := {
  co_nodup : NoDup (HEAD :: l.*1);
  co_fresh : Forall (fun p => (p < ch_fresh c)%nat) (HEAD :: l.*1);
  co_seg : seg (ch_nodes c) HEAD l HEAD;
  co_head : exists n p e, ch_nodes c !! HEAD = Some (mk_node n p e) /\ head_ok l n p;
}.

Lemma short_enough (l : list nat) n : NoDup l -> Forall (fun p => (p < n)%nat) l -> (length l <= n)%nat.
Proof.
  intros N F. rewrite <- (length_seq n 0). apply submseteq_length, NoDup_submseteq; [done|].
  intros x Hx. rewrite Forall_forall in F. apply elem_of_seq. pose proof (F x Hx). lia.
Qed.

Lemma chain_length c l : chain_of c l -> (length l < TURNS c)%nat.
Proof. intros [N F _ _]. pose proof (short_enough _ _ N F) as H. simpl in H. rewrite length_fmap in H. unfold TURNS. lia. Qed.

(** The head alone does not matter for the segment. *)
Lemma not_head (l : named) p : NoDup (HEAD :: l.*1) -> p ∈ l.*1 -> p <> HEAD.
Proof. intros [H _]%NoDup_cons Hp ->. done. Qed.

Lemma insert_as_alter (m : store) p n f : m !! p = Some n -> <[p := f n]> m = alter f p m.
Proof.
  intros H. apply map_eq. intros i. destruct (decide (i = p)) as [-> |Hi].
  - by rewrite lookup_insert_eq, lookup_alter_eq, H.
  - by rewrite lookup_insert_ne, lookup_alter_ne.
Qed.

Section Chains.
Context {W T : Type} {A : Alloc W} (obs : W -> T).
Context (alloc_quiet : forall n w, obs (malloc n w).2 = obs w).

Lemma bind_load {V} c p n (k : node -> M W V) Q : ch_nodes c !! p = Some n -> gives obs (k n) Q -> gives obs (bind (load c p) k) Q.
Proof using. intros H HQ. unfold load. rewrite H. eapply gives_bind; [by apply (yields_value obs)|]. by intros ? ->. Qed.

Lemma bind_change {V} c p f (k : mntentchn -> M W V) Q : is_Some (ch_nodes c !! p) ->
  gives obs (k (mk_chain (alter f p (ch_nodes c)) (ch_fresh c))) Q -> gives obs (bind (change_node c p f) k) Q.
Proof using.
  intros [n H] HQ. unfold change_node, load. rewrite H. intros w. specialize (HQ w). rewrite <- (insert_as_alter _ _ _ _ H) in HQ. exact HQ.
Qed.

Lemma gives_change c p f (P : mntentchn -> Prop) : is_Some (ch_nodes c !! p) ->
  P (mk_chain (alter f p (ch_nodes c)) (ch_fresh c)) -> gives obs (change_node c p f) P.
Proof using.
  intros [n H] HP. unfold change_node, load. rewrite H. apply gives_ret. by rewrite (insert_as_alter _ _ _ _ H).
Qed.

(** *** Searching *)

(** The last entry for which the test holds. *)
Definition found (l : named) (wanted : my_mntent -> bool) (r : option nat) : Prop :=
  match r with
  | None => Forall (fun x => wanted x.2 = false) l
  | Some a => exists l1 e l2, l = l1 ++ (a, e) :: l2 /\ wanted e = true /\ Forall (fun x => wanted x.2 = false) l2
  end.

Lemma find_backward_from c wanted q l1 : forall l2 fuel, NoDup (HEAD :: l1.*1) -> seg (ch_nodes c) HEAD l1 q ->
  (length l1 < fuel)%nat -> Forall (fun x => wanted x.2 = false) l2 ->
  gives obs (find_backward fuel c wanted (Some (last_of HEAD l1))) (found (l1 ++ l2) wanted).
Proof using.
  clear alloc_quiet. revert q. induction l1 as [|[a e] l1 IH] using rev_ind; intros q l2 fuel N S1 Hf F;
    (destruct fuel as [|fuel]; [simpl in Hf; lia|]); cbn [find_backward].
  - by apply gives_ret.
  - rewrite last_of_snoc. rewrite length_app in Hf. simpl in Hf.
    destruct (Nat.eqb_spec a HEAD) as [-> |_].
    { exfalso. apply NoDup_cons in N as [N _]. apply N. rewrite fmap_app. set_solver. }
    apply seg_app in S1 as [S1 [Sa _]]. eapply bind_load; [exact Sa|]. cbn.
    rewrite <- app_assoc. destruct (wanted e) eqn:E.
    + apply gives_ret. exists l1, e, l2. done.
    + eapply IH; [| exact S1|lia|by constructor].
      rewrite fmap_app in N. apply (NoDup_app (HEAD :: l1.*1)) in N. apply N.
Qed.

Lemma gives_find_backward c l wanted h : chain_of c l -> ch_nodes c !! HEAD = Some h ->
  gives obs (find_backward (TURNS c) c wanted (nd_prev h)) (found l wanted).
Proof using.
  intros C Hh. pose proof (chain_length c l C). destruct C as [N F S1 (n & p & e & Hn & Hok)]. rewrite Hh in Hn. injection Hn as ->. cbn.
  destruct Hok as [[_ ->]|(-> & _ & [-> | ->])].
  - pose proof (find_backward_from c wanted HEAD l [] (TURNS c) N S1 H (Forall_nil_2 _)) as G. by rewrite app_nil_r in G.
  - apply gives_ret. constructor.
  - apply gives_ret. constructor.
Qed.

End Chains.

(** *** Removing *)

Lemma seg_lookup m p l q a : seg m p l q -> a ∈ l.*1 -> is_Some (m !! a).
Proof.
  revert p; induction l as [|[b e] l IH]; intros p; [set_solver|]. cbn. intros [Hb Hl] [-> |Ha]%elem_of_cons; [by eexists|by eapply IH].
Qed.

(** The nodes around a place are there. *)
Lemma neighbours c l1 l2 p : chain_of c (l1 ++ l2) -> p = last_of HEAD l1 \/ p = first_of l2 HEAD -> is_Some (ch_nodes c !! p).
Proof.
  intros [N F S1 (n & p' & e & Hn & _)] Hp. destruct (decide (p = HEAD)) as [-> |Hh]; [by rewrite Hn|].
  eapply seg_lookup; [exact S1|]. rewrite fmap_app. apply elem_of_app.
  destruct Hp as [-> | ->]; [left; apply last_of_elem|right; apply first_of_elem]; intros ->; by apply Hh.
Qed.

Lemma unlink_seg (m : store) l1 a e l2 : NoDup (HEAD :: (l1 ++ (a, e) :: l2).*1) -> seg m HEAD (l1 ++ (a, e) :: l2) HEAD ->
  seg (delete a (alter (set_prev (Some (last_of HEAD l1))) (first_of l2 HEAD)
    (alter (set_nxt (Some (first_of l2 HEAD))) (last_of HEAD l1) m))) HEAD (l1 ++ l2) HEAD.
Proof.
  intros N S1. apply seg_app in S1 as [S1 [Sa S2]]. rewrite fmap_app in N. cbn in N.
  apply (NoDup_app (HEAD :: l1.*1)) in N as (N1 & D & N2). apply NoDup_cons in N1 as [Nh N1]. apply NoDup_cons in N2 as [Na N2].
  apply seg_app. split.
  - apply seg_delete; [intros Ha; by apply (D a); [right|left]|]. apply seg_alter; [|by eapply seg_nxt].
    destruct l2 as [|[b e'] l2]; [done|]. intros Hb. apply (D b); [by right|by right; left].
  - apply seg_delete; [done|]. eapply seg_prev; [done|]. apply seg_alter; [|done].
    destruct (decide (l1 = [])) as [-> |H1]; [intros Hh; by apply (D HEAD); [left|right]|].
    intros Hl. apply (D (last_of HEAD l1)); [right; by apply last_of_elem|by right].
Qed.

Lemma unlink_head (m : store) l1 a e l2 n p h : NoDup (HEAD :: (l1 ++ (a, e) :: l2).*1) -> m !! HEAD = Some (mk_node n p h) ->
  head_ok (l1 ++ (a, e) :: l2) n p ->
  exists n' p', delete a (alter (set_prev (Some (last_of HEAD l1))) (first_of l2 HEAD)
    (alter (set_nxt (Some (first_of l2 HEAD))) (last_of HEAD l1) m)) !! HEAD = Some (mk_node n' p' h) /\ head_ok (l1 ++ l2) n' p'.
Proof.
  intros N Hm [[-> ->]|(E & _)]; [|by destruct l1].
  assert (Ha : a <> HEAD) by (apply (not_head _ _ N); rewrite fmap_app; set_solver).
  assert (H1 : l1 <> [] -> last_of HEAD l1 <> HEAD).
  { intros H. apply (not_head _ _ N). rewrite fmap_app. apply elem_of_app. left. by apply last_of_elem. }
  assert (H2 : l2 <> [] -> first_of l2 HEAD <> HEAD).
  { intros H. apply (not_head _ _ N). rewrite fmap_app. apply elem_of_app. right. right. by apply first_of_elem. }
  rewrite lookup_delete_ne by done. exists (Some (first_of (l1 ++ l2) HEAD)), (Some (last_of HEAD (l1 ++ l2))).
  split; [|by left]. rewrite !first_of_app, !last_of_app, last_of_cons in *.
  destruct (decide (l2 = [])) as [-> |D2]; [cbn [first_of]; rewrite lookup_alter_eq|rewrite lookup_alter_ne by auto];
    (destruct (decide (l1 = [])) as [-> |D1]; [cbn [first_of last_of]; try rewrite lookup_alter_eq|rewrite lookup_alter_ne by auto]).
  - cbn. by rewrite Hm.
  - cbn; rewrite ?Hm. cbn. by rewrite (first_of_any l1 a HEAD D1).
  - cbn; rewrite ?Hm. cbn. by rewrite (last_of_any a HEAD l2 D2).
  - rewrite ?Hm; cbn [first_of]. by rewrite (first_of_any l1 a (first_of l2 HEAD) D1), (last_of_any a (last_of HEAD l1) l2 D2).
Qed.

Section Updates.
Context {W T : Type} {A : Alloc W} (obs : W -> T).
Context (alloc_quiet : forall n w, obs (malloc n w).2 = obs w).

Lemma gives_remove c l1 a e l2 : chain_of c (l1 ++ (a, e) :: l2) -> gives obs (remove_node c a) (fun c' => chain_of c' (l1 ++ l2)).
Proof using.
  intros C. unfold remove_node. pose proof C as [N F S1 (n & p & h & Hh & Hok)]. apply seg_app in S1 as S2. destruct S2 as [_ [Sa _]].
  eapply bind_load; [exact Sa|]. cbn [nd_prev nd_nxt]. unfold of_option at 1 2.
  eapply gives_bind; [by apply (yields_value obs)|]. intros ? ->. eapply gives_bind; [by apply (yields_value obs)|]. intros ? ->.
  assert (L : is_Some (ch_nodes c !! last_of HEAD l1)).
  { eapply (neighbours c l1 ((a, e) :: l2)); [done|by left]. }
  assert (R : is_Some (ch_nodes c !! first_of l2 HEAD)).
  { eapply (neighbours c (l1 ++ [(a, e)]) l2); [by rewrite <- app_assoc|by right]. }
  eapply bind_change; [done|]. eapply bind_change; [by apply lookup_alter_is_Some|]. unfold my_free_mc.
  eapply gives_bind; [|intros ? _; apply gives_ret].
  - unfold load. cbn. assert (G : is_Some (alter (set_prev (Some (last_of HEAD l1))) (first_of l2 HEAD)
      (alter (set_nxt (Some (first_of l2 HEAD))) (last_of HEAD l1) (ch_nodes c)) !! a)) by (rewrite !lookup_alter_is_Some; by eexists).
    destruct G as [x ->]. by apply (gives_ret obs x (fun _ => True)).
  - cbn. assert (M : (l1 ++ l2).*1 `sublist_of` (l1 ++ (a, e) :: l2).*1).
    { rewrite !fmap_app. cbn. by apply sublist_app, sublist_cons. }
    destruct (unlink_head (ch_nodes c) l1 a e l2 n p h N Hh Hok) as (n' & p' & E & O').
    split; cbn.
    + eapply sublist_NoDup; [exact N|]. by constructor.
    + rewrite Forall_forall in *. intros x Hx. apply F. revert Hx. rewrite !elem_of_cons, !fmap_app, !elem_of_app. cbn.
      rewrite elem_of_cons. tauto.
    + by eapply unlink_seg.
    + by exists n', p', h.
Qed.

Lemma alter_opts_seg m p l1 a e l2 q opts : NoDup (l1 ++ (a, e) :: l2).*1 -> seg m p (l1 ++ (a, e) :: l2) q ->
  seg (alter (set_m (with_opts opts e)) a m) p (l1 ++ (a, with_opts opts e) :: l2) q.
Proof using.
  clear alloc_quiet. rewrite fmap_app. cbn. intros (N1 & D & [Na N2]%NoDup_cons)%NoDup_app [S1 [Sa S2]]%seg_app. apply seg_app. cbn [seg first_of]. split_and!.
  - apply seg_alter; [|done]. intros Ha. apply (D a Ha). by left.
  - by rewrite lookup_alter_eq, Sa.
  - by apply seg_alter.
Qed.

Lemma gives_replace c l1 a e l2 instead : chain_of c (l1 ++ (a, e) :: l2) ->
  gives obs (replace_opts c a instead) (fun c' => chain_of c' (l1 ++ (a, with_opts (mt_opts instead) e) :: l2)).
Proof using alloc_quiet.
  intros [N F S1 (n & p & h & Hh & Hok)]. apply seg_app in S1 as S2. destruct S2 as [_ [Sa _]]. unfold replace_opts.
  eapply gives_bind; [by apply (yields_new_text obs)|]. intros ? ->. eapply bind_load; [exact Sa|]. cbn [nd_m].
  apply gives_change; [by eexists|].
  assert (E : (l1 ++ (a, with_opts (mt_opts instead) e) :: l2).*1 = (l1 ++ (a, e) :: l2).*1) by (by rewrite !fmap_app).
  split; cbn [ch_nodes ch_fresh]; rewrite ?E; [done|done| |].
  - apply alter_opts_seg; [by apply NoDup_cons in N as [_ N]|done].
  - exists n, p, h. split.
    + rewrite lookup_alter_ne; [done|]. apply (not_head _ _ N). rewrite fmap_app. set_solver.
    + destruct Hok as [[-> ->]|(El & _)]; [left|by destruct l1]. by rewrite !first_of_app, !last_of_app, !last_of_cons.
Qed.

(** A node behind the last one. *)
Lemma appended_chain (m m' : store) fresh l e n p h : NoDup (HEAD :: l.*1) -> Forall (fun p => (p < fresh)%nat) (HEAD :: l.*1) ->
  seg m HEAD l HEAD -> m !! HEAD = Some (mk_node n p h) -> head_ok l n p ->
  (forall b, b ∈ l.*1 -> m' !! b = alter (set_nxt (Some fresh)) (last_of HEAD l) m !! b) ->
  m' !! fresh = Some (mk_node (Some HEAD) (Some (last_of HEAD l)) e) ->
  m' !! HEAD = Some (mk_node (Some (first_of l fresh)) (Some fresh) h) ->
  chain_of (mk_chain m' (Datatypes.S fresh)) (l ++ [(fresh, e)]).
Proof using.
  clear alloc_quiet. intros N F S1 Hh Hok Hl Ha Hm.
  assert (Fr : fresh ∉ HEAD :: l.*1) by (intros Hin; rewrite Forall_forall in F; pose proof (F _ Hin); lia).
  split; cbn [ch_nodes ch_fresh].
  - rewrite fmap_app, app_comm_cons. change ([(fresh, e)].*1) with [fresh]. apply NoDup_app. split_and!; [done| |apply NoDup_singleton].
    intros x Hx ->%list_elem_of_singleton. done.
  - rewrite fmap_app, app_comm_cons. change ([(fresh, e)].*1) with [fresh]. apply Forall_app. split; [|repeat constructor].
    eapply Forall_impl; [exact F|]. simpl. lia.
  - apply seg_app. cbn [seg first_of]. split_and!; [|done|done]. eapply seg_frame; [exact Hl|]. eapply seg_nxt; [|done].
    by apply NoDup_cons in N as [_ N].
  - exists (Some (first_of l fresh)), (Some fresh), h. split; [done|]. left. by rewrite first_of_app, last_of_snoc.
Qed.

(** The new node [a] is in the store; [l] is what the chain was before. *)
Lemma gives_link_last c1 a (l : named) e n p h (P : store -> Prop) :
  a <> HEAD -> a ∉ l.*1 -> HEAD ∉ l.*1 -> (l <> [] -> last_of HEAD l <> HEAD /\ is_Some (ch_nodes c1 !! last_of HEAD l)) ->
  ch_nodes c1 !! a = Some (mk_node None None e) -> ch_nodes c1 !! HEAD = Some (mk_node n p h) -> head_ok l n p ->
  (forall m', (forall b, b ∈ l.*1 -> m' !! b = alter (set_nxt (Some a)) (last_of HEAD l) (ch_nodes c1) !! b) ->
    m' !! a = Some (mk_node (Some HEAD) (Some (last_of HEAD l)) e) ->
    m' !! HEAD = Some (mk_node (Some (first_of l a)) (Some a) h) -> P m') ->
  gives obs (link_last c1 a) (fun c' => ch_fresh c' = ch_fresh c1 /\ P (ch_nodes c')).
Proof using.
  clear alloc_quiet. intros Ha Fr Nh Hl M1 M3 Hok Fin. unfold link_last. set (m0 := ch_nodes c1) in *.
  eapply bind_change; [by eexists|]. fold m0. eapply bind_load; [cbn; rewrite lookup_alter_ne by done; exact M3|]. cbn [nd_prev].
  destruct (decide (l = [])) as [-> |Dl].
  - assert (E : p = None /\ n = None \/ p = Some HEAD) by (destruct Hok as [[-> ->]|(_ & -> & [-> | ->])]; auto).
    destruct E as [[-> ->]| ->].
    + eapply bind_change; [cbn; rewrite lookup_alter_eq, M1; by eexists|]. cbn [ch_nodes ch_fresh].
      eapply bind_change; [cbn; rewrite !lookup_alter_ne, M3 by done; by eexists|]. cbn [ch_nodes ch_fresh].
      eapply bind_load; [cbn; rewrite lookup_alter_eq, !lookup_alter_ne, M3 by done; done|]. cbn.
      apply gives_change; [cbn; rewrite lookup_alter_eq, !lookup_alter_ne, M3 by done; by eexists|].
      split; [done|]. apply Fin; cbn; [set_solver| |].
      * rewrite !(lookup_alter_ne _ _ HEAD), !lookup_alter_eq, M1 by done. done.
      * rewrite !lookup_alter_eq, !lookup_alter_ne, M3 by done. done.
    + eapply gives_bind.
      { eapply bind_change; [cbn; rewrite lookup_alter_eq, M1; by eexists|]. cbn [ch_nodes ch_fresh].
        apply gives_change; [cbn; rewrite !lookup_alter_ne, M3 by done; by eexists|]. exact (eq_refl _). }
      intros ? <-. eapply bind_change; [cbn; rewrite lookup_alter_eq, !lookup_alter_ne, M3 by done; by eexists|].
      eapply bind_load; [cbn; rewrite !lookup_alter_eq, !lookup_alter_ne, M3 by done; done|]. cbn [nd_nxt fmap option_fmap option_map].
      apply gives_ret. split; [done|]. apply Fin; cbn; [set_solver| |].
      * rewrite !(lookup_alter_ne _ _ HEAD), !lookup_alter_eq, M1 by done. done.
      * rewrite !lookup_alter_eq, !lookup_alter_ne, M3 by done. done.
  - destruct Hok as [[-> ->]|(? & _)]; [|done]. destruct (Hl Dl) as [D2 D3].
    assert (D4 : last_of HEAD l <> a) by (intros <-; by apply Fr, last_of_elem).
    eapply gives_bind.
    { eapply bind_change; [cbn; rewrite lookup_alter_eq, M1; by eexists|]. cbn [ch_nodes ch_fresh].
      apply gives_change; [cbn; by rewrite !lookup_alter_ne by done|]. exact (eq_refl _). }
    intros ? <-. eapply bind_change; [cbn; rewrite !lookup_alter_ne, M3 by done; by eexists|].
    eapply bind_load; [cbn; rewrite lookup_alter_eq, !lookup_alter_ne, M3 by done; done|]. cbn [nd_nxt fmap option_fmap option_map].
    apply gives_ret. split; [done|]. apply Fin; cbn.
    * intros b Hb. assert (b <> a) by (intros ->; done). rewrite (lookup_alter_ne _ _ HEAD) by (intros <-; done).
      destruct (decide (last_of HEAD l = b)) as [<- |Db]; [by rewrite !lookup_alter_eq, !lookup_alter_ne by done|].
      by rewrite !lookup_alter_ne by done.
    * rewrite !(lookup_alter_ne _ _ HEAD), (lookup_alter_ne _ _ (last_of HEAD l)), !lookup_alter_eq, M1 by done. done.
    * rewrite lookup_alter_eq, !lookup_alter_ne, M3 by done. cbn. by rewrite (first_of_any l HEAD a Dl).
Qed.

Lemma gives_append c l e : chain_of c l -> gives obs (append_node c e) (fun c' => exists a, chain_of c' (l ++ [(a, e)])).
Proof using alloc_quiet.
  intros [N F S1 (n & p & h & Hh & Hok)]. unfold append_node, new_node. set (a := ch_fresh c).
  assert (Fr : a ∉ HEAD :: l.*1) by (intros Hin; rewrite Forall_forall in F; pose proof (F _ Hin); unfold a in *; lia).
  apply not_elem_of_cons in Fr as [Ha Fr]. eapply gives_bind.
  { eapply gives_bind; [by apply yields_xmalloc|]. intros _ _. by apply (yields_value obs). }
  intros ? ->. do 4 (eapply gives_bind; [by apply (yields_new_text obs)|]; intros ? _).
  assert (Nl : HEAD ∉ l.*1) by (by apply NoDup_cons in N as [? _]).
  eapply gives_mono; [eapply (gives_link_last _ a l e n p h (fun m' => chain_of (mk_chain m' (Datatypes.S a)) (l ++ [(a, e)])))|].
  - done.
  - done.
  - done.
  - intros Hl. pose proof (last_of_elem HEAD l Hl) as Hin. split; [by intros E; rewrite E in Hin|].
    cbn. rewrite lookup_insert_ne by (intros E; by rewrite E in Fr). by eapply seg_lookup.
  - cbn. by rewrite lookup_insert_eq.
  - cbn. by rewrite lookup_insert_ne.
  - done.
  - intros m' H1 H2 H3. eapply appended_chain; [done..| |done|done]. intros b Hb. rewrite H1 by done. cbn.
    assert (b <> a) by (intros ->; done). destruct (decide (last_of HEAD l = b)) as [<- |Db].
    + by rewrite !lookup_alter_eq, lookup_insert_ne.
    + by rewrite !lookup_alter_ne, lookup_insert_ne by done.
  - cbn. intros [m f] [E P]. exists a. cbn in *. by subst.
Qed.
End Updates.

(** ** The update of a list of entries *)

(** The last entry for which the test holds becomes [f] of it; [None] when
    there is none. *)
Fixpoint change_last (wanted : my_mntent -> bool) (f : my_mntent -> list my_mntent) (es : list my_mntent) : option (list my_mntent) :=
  match es with
  | [] => None
  | e :: es' =>
    match change_last wanted f es' with
    | Some r => Some (e :: r)
    | None => if wanted e then Some (f e ++ es') else None
    end
  end.

(** Without [instead] the last entry of the directory goes; otherwise it
    gets other options, or the new entry comes last. *)
Definition updated (dir : list Z) (instead : option my_mntent) (es : list my_mntent) : list my_mntent :=
  match change_last (mounted_on dir) (fun e => match instead with None => [] | Some new => [with_opts (mt_opts new) e] end) es with
  | Some es' => es'
  | None => es ++ (match instead with None => [] | Some new => [new] end)
  end.

Lemma change_last_none wanted f (es : list my_mntent) : Forall (fun e => wanted e = false) es -> change_last wanted f es = None.
Proof. induction 1 as [|e es H _ IH]; [done|]. simpl. by rewrite IH, H. Qed.

Lemma change_last_at wanted f es1 e es2 : wanted e = true -> Forall (fun e => wanted e = false) es2 ->
  change_last wanted f (es1 ++ e :: es2) = Some (es1 ++ f e ++ es2).
Proof.
  intros He F. induction es1 as [|e1 es1 IH]; simpl; [by rewrite change_last_none, He|by rewrite IH].
Qed.

Lemma found_none (l : named) wanted : Forall (fun x => wanted x.2 = false) l -> Forall (fun e => wanted e = false) l.*2.
Proof. intros F. by apply Forall_fmap. Qed.

Section Change.
Context {W T : Type} {A : Alloc W} (obs : W -> T).
Context (alloc_quiet : forall n w, obs (malloc n w).2 = obs w).

Definition represents (c : mntentchn) (es : list my_mntent) : Prop := exists l, chain_of c l /\ l.*2 = es.

Lemma gives_change_entry c es dir instead : represents c es ->
  gives obs (change_entry c dir instead) (fun c' => represents c' (updated dir instead es)).
Proof using alloc_quiet.
  intros (l & C & <-). destruct (co_head c l C) as (n & p & h & Hh & _). unfold change_entry.
  eapply bind_load; [exact Hh|]. eapply gives_bind; [by eapply (gives_find_backward obs c l)|].
  intros [a|] H; cbn in H.
  - destruct H as (l1 & e & l2 & -> & He & F%found_none). unfold updated. rewrite fmap_app. cbn [fmap list_fmap snd].
    rewrite change_last_at by done. destruct instead as [new|].
    + eapply gives_mono; [by eapply gives_replace|]. cbn. intros c' C'. eexists. split; [done|]. by rewrite fmap_app.
    + eapply gives_mono; [by eapply gives_remove|]. cbn. intros c' C'. eexists. split; [done|]. by rewrite fmap_app.
  - apply found_none in H. unfold updated. rewrite change_last_none by done. destruct instead as [new|].
    + eapply gives_mono; [by eapply gives_append|]. cbn. intros c' (a & C'). eexists. split; [done|]. by rewrite fmap_app.
    + apply gives_ret. exists l. by rewrite app_nil_r.
Qed.

(** *** Reading a table *)

Definition kept (e : my_mntent) : Prop := mt_type e <> MNTTYPE_IGNORE.

(** The chain while it is read: the head has no predecessor yet. *)
Record growing (c : mntentchn) (l : named) (mc : nat) : Prop := {
  gr_nodup : NoDup (HEAD :: l.*1);
  gr_fresh : Forall (fun p => (p < ch_fresh c)%nat) (HEAD :: l.*1);
  gr_seg : seg (ch_nodes c) HEAD l HEAD;
  gr_last : mc = last_of HEAD l;
  gr_head : exists h, ch_nodes c !! HEAD = Some (mk_node (match l with [] => None | _ => Some (first_of l HEAD) end) None h);
}.

Lemma growing_empty : growing empty_chain [] HEAD.
Proof using. split; [apply NoDup_singleton|repeat constructor|done|done|]. by exists no_entry. Qed.

Lemma growing_snoc c l mc e : growing c l mc ->
  growing (mk_chain (alter (set_nxt (Some (ch_fresh c))) mc (<[ch_fresh c := mk_node (Some HEAD) (Some mc) e]> (ch_nodes c)))
    (Datatypes.S (ch_fresh c))) (l ++ [(ch_fresh c, e)]) (ch_fresh c).
Proof using.
  intros [N F S1 -> (h & Hh)]. set (a := ch_fresh c) in *.
  assert (Fr : a ∉ HEAD :: l.*1) by (intros Hin; rewrite Forall_forall in F; pose proof (F _ Hin); unfold a in *; lia).
  apply not_elem_of_cons in Fr as [Ha Fr]. pose proof N as [Nh N1]%NoDup_cons.
  assert (Da : last_of HEAD l <> a).
  { destruct (decide (l = [])) as [-> |Hl]; [done|]. intros E. pose proof (last_of_elem HEAD l Hl) as Hin. by rewrite E in Hin. }
  split; cbn [ch_nodes ch_fresh].
  - rewrite fmap_app, app_comm_cons. change ([(a, e)].*1) with [a]. apply NoDup_app. split_and!; [done| |apply NoDup_singleton].
    intros x Hx ->%list_elem_of_singleton. apply elem_of_cons in Hx as [?|?]; done.
  - rewrite fmap_app, app_comm_cons. change ([(a, e)].*1) with [a]. apply Forall_app. split; [|repeat constructor].
    eapply Forall_impl; [exact F|]. simpl. lia.
  - apply seg_app. cbn [seg first_of]. split_and!; [|by rewrite lookup_alter_ne, lookup_insert_eq by done|done].
    eapply seg_nxt; [done|]. by apply seg_insert.
  - by rewrite last_of_snoc.
  - exists h. destruct (decide (l = [])) as [-> |Hl].
    + cbn. by rewrite lookup_alter_eq, lookup_insert_ne, Hh.
    + rewrite lookup_alter_ne, lookup_insert_ne, Hh by (try done; intros E; pose proof (last_of_elem HEAD l Hl) as Hin; by rewrite E in Hin).
      rewrite first_of_app. cbn [first_of]. rewrite (first_of_any l a HEAD Hl). by destruct l.
Qed.

Lemma gives_read_entries fuel : forall f c l mc, (length (mf_rest f) < fuel)%nat -> growing c l mc ->
  gives obs (read_entries fuel f c mc) (fun '(f', c', mc') => exists l', growing c' l' mc' /\
    l'.*2 = l.*2 ++ filter kept (all_entries fuel f).1 /\ mf_error f' = (all_entries fuel f).2).
Proof using alloc_quiet.
  induction fuel as [|fuel IH]; intros f c l mc Hf G; [lia|]. cbn [read_entries all_entries].
  eapply gives_bind; [apply yields_getmntent; [done|unfold FUEL; lia]|]. intros ? ->.
  destruct (next_entry (FUEL f) f) as [[e|] f1] eqn:En.
  - pose proof (next_entry_shorter _ _ _ _ En). destruct (all_entries fuel f1) as [es err] eqn:Ea. cbn [fst snd].
    rewrite filter_cons. unfold kept at 1. case_bool_decide as Ht.
    + rewrite decide_False by (intros Hk; by apply Hk). eapply gives_mono; [apply IH; [lia|done]|]. by rewrite Ea.
    + rewrite decide_True by done. unfold new_node. eapply gives_bind.
      { eapply gives_bind; [by apply yields_xmalloc|]. intros _ _. by apply (yields_value obs). }
      intros ? ->. eapply bind_change.
      { cbn. pose proof G as [N F S1 -> (h & Hh)]. destruct (decide (last_of HEAD l = ch_fresh c)) as [E|Dl].
        - rewrite E, lookup_insert_eq. by eexists.
        - rewrite lookup_insert_ne by done. destruct (decide (l = [])) as [-> |Hl]; [cbn; by eexists|].
          eapply seg_lookup; [done|]. by apply last_of_elem. }
      cbn [ch_nodes ch_fresh]. eapply gives_mono; [apply IH; [lia|by apply growing_snoc]|]. cbn beta.
      intros [[f' c'] mc'] (l' & G' & El & Ee). exists l'. rewrite Ea in El, Ee. split_and!; [done| |done].
      rewrite El, fmap_app, <- app_assoc. done.
  - apply gives_ret. exists l. by rewrite app_nil_r.
Qed.

(** The table that reading a file gives: none when it ends with an error. *)
Definition table_of (f : mntFILE) : list my_mntent :=
  let '(es, err) := all_entries (FUEL f) f in if err then [] else filter kept es.

Lemma grown c l mc h n : growing c l mc -> ch_nodes c !! HEAD = Some (mk_node n None h) ->
  chain_of (mk_chain (alter (set_prev (Some mc)) HEAD (ch_nodes c)) (ch_fresh c)) l.
Proof using.
  intros [N F S1 -> (h' & Hh')] Hh. rewrite Hh in Hh'. injection Hh' as -> ->. split; cbn [ch_nodes ch_fresh]; [done|done| |].
  - apply seg_alter; [by apply NoDup_cons in N as [N _]|done].
  - eexists _, _, h'. rewrite lookup_alter_eq, Hh. split; [done|]. unfold head_ok. destruct l as [|x l]; [right; auto|by left].
Qed.

Lemma gives_read_chain f : gives obs (read_mntentchn f empty_chain) (fun c => represents c (table_of f)).
Proof using alloc_quiet.
  unfold read_mntentchn, table_of. eapply gives_bind; [eapply (gives_read_entries (FUEL f)); [unfold FUEL; lia|apply growing_empty]|].
  intros [[f' c] mc] (l & G & El & Ee). pose proof (gr_head _ _ _ G) as (h & Hh). pose proof (grown _ _ _ _ _ G Hh) as C.
  eapply bind_change; [by eexists|]. rewrite Ee. destruct (all_entries (FUEL f) f) as [es err]. cbn [fst snd] in *. destruct err.
  - eapply bind_change; [cbn; rewrite lookup_alter_eq, Hh; by eexists|]. apply gives_change; [cbn; rewrite !lookup_alter_eq, Hh; by eexists|].
    exists []. split; [|done]. destruct C as [N F _ _]. split; cbn [ch_nodes ch_fresh].
    + apply NoDup_singleton.
    + inversion F; subst. by constructor.
    + done.
    + eexists _, _, h. rewrite !lookup_alter_eq, Hh. split; [done|]. right. auto.
  - apply gives_ret. exists l. by rewrite El.
Qed.
End Change.
