(* ===== verification/MtabSpec.v ===== *)
(** * Updating the mount table: proofs

    [lock_mtab] ends, with the lock or with the program; while the lock is
    held, [update_mtab] replaces the table by the updated one, completely or
    not at all, unless an input or output error strikes. *)

From Stdlib Require Import String.
From stdpp Require Import gmap.
From S2P Require Import Prelude Vector Hoare Ondisk Kernel Nilfs Parser Float64 Cldconfig Cleanerd CleanerExec Mntent Fstab FstabSpec.

(** ** What is assumed of the system *)

(** The files, the stream that is being written (its number, its file and
    what has been given to it), and whether the lock file is there and ours;
    then what the table was when the lock was taken, and whether there was an
    error of reading or closing since. *)
Record mtab_view := mk_view {
  mv_files : gmap (list Z) (list Z);
  mv_stream : option (Z * list Z * list Z);
  mv_locked : bool;
  mv_old : option (list Z);
  mv_fault : bool;
}.

Definition mtab_of (v : mtab_view) : option (list Z) := mv_files v !! _PATH_MOUNTED.

Section Locked.
Context {W : Type} (view : W -> mtab_view).

(** What is known of the system: nothing while others may have the lock. *)
Definition locked_view (w : W) : option mtab_view := if mv_locked (view w) then Some (view w) else None.

Definition quiet {T} (f : W -> T * W) : Prop := forall w r w', f w = (r, w') -> locked_view w' = locked_view w.
Definition silent (f : W -> W) : Prop := forall w, locked_view (f w) = locked_view w.
End Locked.

Definition with_stream (v : mtab_view) (files : gmap (list Z) (list Z)) (st : option (Z * list Z * list Z)) (fault : bool) : mtab_view :=
  mk_view files st (mv_locked v) (mv_old v) fault.

(** The functions that change no file, and those that do, while the lock is
    ours.  A link that succeeds takes the lock; a lock file that cannot be
    found is lost; removing the lock file gives the lock back, unless that
    fails.  A file that cannot be opened for writing may have been emptied.
    A stream that is closed with an error holds a part of what was given to
    it. *)
Class MtabLaws {W : Type} {A : Alloc W} (MO : MtabOs W) (view : W -> mtab_view) : Prop := {
  ml_malloc : forall n, quiet view (malloc n);
  ml_umask : forall m, quiet view (mo_umask m);
  ml_seek : forall h, quiet view (mo_seek_end h);
  ml_lstat : forall p, quiet view (mb_lstat p);
  ml_owner : forall p, quiet view (mb_owner p);
  ml_close : forall fd, silent view (mb_close fd);
  ml_setlk : forall fd, quiet view (mb_setlk fd);
  ml_setlkw : forall fd, quiet view (mb_setlkw fd);
  ml_alarm : forall n, silent view (mb_alarm n);
  ml_monotonic : quiet view mb_monotonic;
  ml_nanosleep : forall t, silent view (mb_nanosleep t);
  ml_fchmod : forall fd m, quiet view (mb_fchmod fd m);
  ml_fchown : forall fd u g, quiet view (mb_fchown fd u g);
  ml_unlink : forall p w r w', mb_unlink p w = (r, w') -> p <> _PATH_MOUNTED_LOCK ->
    locked_view view w' = (match r with
                           | inl _ => (fun v => with_stream v (delete p (mv_files v)) (mv_stream v) (mv_fault v))
                           | inr _ => id
                           end) <$> locked_view view w;
  ml_open : forall p fl w r w', mb_open p fl w = (r, w') -> locked_view view w = None -> locked_view view w' = None;
  ml_open_lock : forall w r w', mb_open _PATH_MOUNTED_LOCK O_WRONLY w = (r, w') ->
    locked_view view w' = (if bool_decide (r = inr ENOENT) then None else locked_view view w);
  ml_link : forall p w r w', mb_link p _PATH_MOUNTED_LOCK w = (r, w') -> locked_view view w = None ->
    match r with
    | inl _ => exists files, locked_view view w' = Some (mk_view files None true (files !! _PATH_MOUNTED) false)
    | inr _ => locked_view view w' = None
    end;
  ml_unlock : forall w r w' v, mb_unlink _PATH_MOUNTED_LOCK w = (r, w') -> locked_view view w = Some v ->
    view w' = match r with inl _ => mk_view (mv_files v) (mv_stream v) false (mv_old v) (mv_fault v) | inr _ => v end;
  ml_read : forall p w r w' v, mo_fopen_read p w = (r, w') -> locked_view view w = Some v ->
    match r with
    | inl (text, fails) => exists all, mv_files v !! p = Some all /\ text `prefix_of` all /\ (fails = false -> text = all) /\
        locked_view view w' = Some (with_stream v (mv_files v) (mv_stream v) (mv_fault v || fails))
    | inr _ => locked_view view w' = Some v
    end;
  ml_write : forall p w r w' v, mo_fopen_write p (codes "w") w = (r, w') -> locked_view view w = Some v -> mv_stream v = None ->
    match r with
    | inl h => locked_view view w' = Some (with_stream v (<[p := []]> (mv_files v)) (Some (h, p, [])) (mv_fault v))
    | inr _ => locked_view view w' = Some v \/ locked_view view w' = Some (with_stream v (<[p := []]> (mv_files v)) None (mv_fault v))
    end;
  ml_print : forall h text w r w' v p buf, mo_fprintf h text w = (r, w') -> locked_view view w = Some v ->
    mv_stream v = Some (h, p, buf) ->
    exists buf', locked_view view w' = Some (with_stream v (mv_files v) (Some (h, p, buf')) (mv_fault v)) /\
      (r = inl tt -> buf' = buf ++ text);
  ml_fclose : forall h w r w' v p buf text, mo_fclose h w = (r, w') -> locked_view view w = Some v ->
    mv_stream v = Some (h, p, buf) -> mv_files v !! p = Some text ->
    exists part, locked_view view w' = Some (with_stream v (<[p := text ++ part]> (mv_files v)) None
        (mv_fault v || bool_decide (r <> inl tt))) /\ (r = inl tt -> part = buf);
  ml_rename : forall p q w r w' v text, mb_rename p q w = (r, w') -> locked_view view w = Some v -> mv_stream v = None ->
    mv_files v !! p = Some text ->
    locked_view view w' = Some (match r with
                                | inl _ => with_stream v (<[q := text]> (delete p (mv_files v))) (mv_stream v) (mv_fault v)
                                | inr _ => v
                                end);
}.

(** Time passes between two readings of the clock, and it does not go
    back. *)
Class ClockLaws {W : Type} (MO : MtabOs W) (clock : W -> Z) (tick : Z) : Prop := {
  cl_tick : 0 < tick;
  cl_read : forall w r w', mb_monotonic w = (r, w') -> clock w + tick <= clock w' /\
    forall now, r = inl now -> valid_timespec now /\ ns now = clock w';
  cl_link : forall p q w r w', mb_link p q w = (r, w') -> clock w <= clock w';
  cl_open : forall p fl w r w', mb_open p fl w = (r, w') -> clock w <= clock w';
  cl_close : forall fd w, clock w <= clock (mb_close fd w);
  cl_setlk : forall fd w r w', mb_setlk fd w = (r, w') -> clock w <= clock w';
  cl_setlkw : forall fd w r w', mb_setlkw fd w = (r, w') -> clock w <= clock w';
  cl_alarm : forall n w, clock w <= clock (mb_alarm n w);
  cl_nanosleep : forall t w, clock w <= clock (mb_nanosleep t w);
  cl_unlink : forall p w r w', mb_unlink p w = (r, w') -> clock w <= clock w';
}.

(** ** Steps *)

Section Steps.
Context {W : Type} {A : Alloc W} {MO : MtabOs W}.

Definition put_world (s : mtab_state W) (w : W) : mtab_state W := mk_mts w (ms_info s) (ms_table s) (ms_created s) (ms_fd s).

Lemma wpe_in_world {V} (m : M W V) Q E X s :
  wpe m (fun a w => Q a (put_world s w)) (fun e w => E e (put_world s w)) (fun c w => X c (put_world s w)) (ms_world s) ->
  wpe (in_world m) Q E X s.
Proof using. unfold wpe, in_world. by destruct (m (ms_world s)) as [[] w]. Qed.

Lemma wpe_mtry {V} (f : W -> (V + Z) * W) (Q : V + Z -> mtab_state W -> Prop) E X s :
  (forall r w, f (ms_world s) = (r, w) -> Q r (put_world s w)) -> wpe (mtry f) Q E X s.
Proof using.
  intros H. unfold mtry. apply wpe_attempt, wpe_in_world. unfold wpe, lift_sum.
  destruct (f (ms_world s)) as [[a|e] w] eqn:F; by apply H.
Qed.

Lemma wpe_mdo (f : W -> W) (Q : unit -> mtab_state W -> Prop) E X s : Q tt (put_world s (f (ms_world s))) -> wpe (mdo f) Q E X s.
Proof using. intros H. apply wpe_in_world. by apply wpe_modify. Qed.
End Steps.

Ltac mstep :=
  match goal with
  | |- wpe (mtry _) _ _ _ _ => apply wpe_mtry
  | |- wpe (mdo _) _ _ _ _ => apply wpe_mdo
  | |- wpe (set_created _) _ _ _ _ => apply wpe_modify
  | |- wpe (set_fd _) _ _ _ _ => apply wpe_modify
  | |- wpe (die _) _ _ _ _ => apply wpe_exit
  | |- _ => wpe_step
  end; cbv beta iota.

(** ** The lock *)

Section Lock.
Context {W : Type} {A : Alloc W} {MO : MtabOs W} {view : W -> mtab_view} {ML : MtabLaws MO view}.
Context {clock : W -> Z} {tick : Z} {CL : ClockLaws MO clock tick}.
Abbreviation state := (mtab_state W).
Abbreviation L := (locked_view view).

Definition fresh_lock (v : mtab_view) : Prop := mv_stream v = None /\ mv_fault v = false /\ mv_old v = mtab_of v.
Definition holds (s : state) : Prop := ms_created s = true /\ exists v, L (ms_world s) = Some v /\ fresh_lock v.
Definition is_free (s : state) : Prop := ms_created s = false /\ L (ms_world s) = None.

(** How the program may die: with the table as it was, if the lock is
    ours. *)
Definition dead (c : Z) (s : state) : Prop :=
  (c = EX_SYSERR \/ c = EX_FILEIO) /\ forall v, L (ms_world s) = Some v -> mtab_of v = mv_old v.

(** In either state. *)
Definition settled (s : state) : Prop := forall v, L (ms_world s) = Some v -> mtab_of v = mv_old v.

Lemma holds_settled s : holds s -> settled s.
Proof using. clear ML CL. intros (_ & v & E & _ & _ & H) v' E'. rewrite E in E'. by injection E' as <-. Qed.

Lemma free_settled s : is_free s -> settled s.
Proof using. clear ML CL. intros (_ & E) v' E'. by rewrite E in E'. Qed.

Lemma settled_view s s' : L (ms_world s') = L (ms_world s) -> settled s -> settled s'.
Proof using. clear ML CL. unfold settled. by intros ->. Qed.

(** Neither the lock file nor the table. *)
Definition other_file (p : list Z) : Prop := p <> _PATH_MOUNTED_LOCK /\ p <> _PATH_MOUNTED.

Lemma linktarget_other pid : other_file (linktarget pid).
Proof using.
  clear. split; [|discriminate]. unfold linktarget. intros E. rewrite <- (app_nil_r _PATH_MOUNTED_LOCK) in E at 2. apply app_inv_head in E.
  unfold Tune.print_int in E. case_if_in E; [done|]. unfold print_cno in E.
  destruct (dec_digits_head 20 pid []) as (d & l & _ & Hd); [lia|done|]. by rewrite Hd in E.
Qed.

(** Removing another file keeps the table. *)
Lemma unlink_same p w r w' v : mb_unlink p w = (r, w') -> other_file p -> L w = Some v ->
  exists v', L w' = Some v' /\ mtab_of v' = mtab_of v /\ mv_stream v' = mv_stream v /\ mv_fault v' = mv_fault v /\ mv_old v' = mv_old v.
Proof using ML.
  intros R [H1 H2] Hv. rewrite (ml_unlink _ _ _ _ R H1), Hv. cbn. eexists. split; [done|]. destruct r; [|done]. split; [|done].
  unfold mtab_of. cbn. by rewrite lookup_delete_ne.
Qed.

Lemma unlink_settled p s r w : mb_unlink p (ms_world s) = (r, w) -> other_file p -> settled s -> settled (put_world s w).
Proof using ML.
  intros R Hp H v Hv. cbn in Hv. destruct (L (ms_world s)) as [v0|] eqn:E.
  - destruct (unlink_same _ _ _ _ _ R Hp E) as (v' & E' & M & _ & _ & O'). rewrite E' in Hv. injection Hv as <-.
    rewrite M, O'. by apply H.
  - destruct Hp as [Hp _]. rewrite (ml_unlink _ _ _ _ R Hp), E in Hv. done.
Qed.

Definition EXIT_OK (c : Z) : Prop := c = EX_SYSERR \/ c = EX_FILEIO.

Lemma wpe_give_up {V} target status (Q : V -> state -> Prop) E s : other_file target -> EXIT_OK status -> settled s ->
  wpe (give_up_lock target status) Q E dead s.
Proof using ML.
  intros Ht Hs H. unfold give_up_lock. mstep. mstep. intros r w R. apply wpe_exit. split; [done|].
  by eapply unlink_settled.
Qed.

Lemma wpe_lock_time target (Q : timespec -> state -> Prop) E s : other_file target -> settled s ->
  (forall now w, valid_timespec now -> ns now = clock w -> clock (ms_world s) + tick <= clock w -> L w = L (ms_world s) -> Q now (put_world s w)) ->
  wpe (lock_time target) Q E dead s.
Proof using ML CL.
  intros Ht H HQ. unfold lock_time. mstep. mstep. intros r w R. destruct (cl_read _ _ _ R) as [C1 C2].
  pose proof (ml_monotonic _ _ _ R) as V1. destruct r as [now|e].
  - apply wpe_ret. destruct (C2 now eq_refl). by apply HQ.
  - apply wpe_give_up; [done|by left|]. by apply (settled_view s).
Qed.

Abbreviation now_at s := (clock (ms_world s)).

(** A turn that does not get the lock: time has passed, and the limit was not
    reached. *)
Definition waited (s : state) (maxtime : timespec) (s' : state) : Prop :=
  is_free s' /\ now_at s + tick <= now_at s' /\ now_at s + tick < ns maxtime.

Lemma wait_spec target maxtime fd s : other_file target -> valid_timespec maxtime -> is_free s ->
  wpe (wait_for_lock target maxtime fd) (fun _ => waited s maxtime) (fun _ _ => False) dead s.
Proof using ML CL.
  intros Ht Vm [Fc Fl]. unfold wait_for_lock. mstep. apply wpe_lock_time; [done|by apply free_settled|].
  intros now w Vn En Ct Lw. mstep. rewrite timespec_lt_ns by done. destruct (Z.ltb_spec (ns now) (ns maxtime)) as [Hlt|_].
  - do 4 mstep. intros r w1 R. pose proof (cl_setlkw _ _ _ _ R) as C1. pose proof (ml_setlkw _ _ _ _ R) as L1. cbn in C1, L1.
    pose proof (cl_alarm (u32 (tv_sec maxtime - tv_sec now)) w) as C0.
    rewrite (ml_alarm (view := view) (u32 (tv_sec maxtime - tv_sec now)) w), Lw in L1.
    destruct r as [?|e].
    + do 3 mstep. mstep. set (w2 := mb_alarm 0 w1). pose proof (cl_alarm 0 w1). pose proof (ml_alarm (view := view) 0 w1) as L2.
      set (t := mk_timespec 0 (1000 * MOUNTLOCK_WAITTIME)). pose proof (cl_nanosleep t w2). pose proof (ml_nanosleep (view := view) t w2) as L3.
      pose proof (cl_close fd (mb_nanosleep t w2)). pose proof (ml_close (view := view) fd (mb_nanosleep t w2)) as L4.
      split_and!; cbn [ms_world put_world]; fold w2 t; [split; [done|]; cbn; fold w2; rewrite L4, L3; unfold w2; rewrite L2, L1; exact Fl|unfold w2 in *; lia|lia].
    + apply wpe_give_up; [done|by right|]. apply (settled_view s); [done|by apply free_settled].
  - apply wpe_give_up; [done|by right|]. apply (settled_view s); [done|by apply free_settled].
Qed.

(** Somebody else's lock file went away, or ours did. *)
Lemma lost_spec target maxtime e s0 s : other_file target -> valid_timespec maxtime -> settled s ->
  (e = ENOENT -> L (ms_world s) = None) -> now_at s0 <= now_at s ->
  wpe (let* now := lock_time target in
       if (e =? ENOENT) && timespec_lt now maxtime then set_created false else give_up_lock target EX_FILEIO)
    (fun _ => waited s0 maxtime) (fun _ _ => False) dead s.
Proof using ML CL.
  intros Ht Vm St Hl Hc. mstep. apply wpe_lock_time; [done|done|]. intros now w Vn En Ct Lw.
  rewrite timespec_lt_ns by done. destruct (Z.eqb_spec e ENOENT) as [-> |_], (Z.ltb_spec (ns now) (ns maxtime)) as [Hlt|_]; cbn [andb];
    try (apply wpe_give_up; [done|by right|]; by apply (settled_view s)).
  mstep. split_and!; [split; [done|]; cbn; rewrite Lw; by apply Hl|cbn; lia|lia].
Qed.

(** A turn gets the lock, waits, or ends the program. *)
Lemma try_spec target maxtime s : other_file target -> valid_timespec maxtime -> is_free s ->
  wpe (try_lock target maxtime) (fun _ s' => holds s' \/ waited s maxtime s') (fun _ _ => False) dead s.
Proof using ML CL.
  intros Ht Vm F. pose proof F as [Fc Fl]. unfold try_lock. mstep. mstep. intros j w R.
  pose proof (cl_link _ _ _ _ _ R) as C1. pose proof (ml_link _ _ _ _ R Fl) as L1. mstep.
  set (s1 := mk_mts w (ms_info s) (ms_table s) (match j with inl _ => true | inr _ => ms_created s end) (ms_fd s)).
  assert (Hs1 : match j with inl _ => holds s1 | inr _ => is_free s1 end).
  { destruct j as [[]|e]; [|by split]. destruct L1 as (files & L1). split; [done|]. by eexists. }
  assert (St : settled s1) by (destruct j; [by apply holds_settled|by apply free_settled]).
  apply (wpe_mono _ (fun _ s' => s' = s1) (fun _ _ => False) dead).
  { destruct j as [[]|e]; [by apply wpe_modify|]. case_if; [by apply wpe_ret|]. apply wpe_give_up; [done|by right|done]. }
  2-3: done.
  intros _ ? ->. mstep. mstep. intros r w2 R2. pose proof (cl_open _ _ _ _ _ R2) as C2. pose proof (ml_open_lock _ _ _ R2) as L2.
  destruct r as [fd|e]; mstep; mstep.
  - rewrite bool_decide_eq_false_2 in L2 by done. destruct j as [[]|e].
    + mstep. mstep. intros r w3 R3. mstep. mstep. intros r4 w4 R4. apply wpe_ret. left. destruct Hs1 as (_ & v & L3 & Fv1 & Fv2 & Fv3).
      pose proof (ml_setlk _ _ _ _ R3) as L4. cbn in L4. rewrite L2 in L4. rewrite <- L4 in L3.
      destruct (unlink_same _ _ _ _ _ R4 Ht L3) as (v' & E' & M & S' & F' & O'). split; [done|]. exists v'. split; [done|].
      unfold fresh_lock. rewrite S', F', O', M. by split_and!.
    + eapply wpe_mono; [apply wait_spec; [done|done|]|..]; [|cbn|done|done].
      * destruct Hs1 as [? L3]. split; [done|]. cbn. by rewrite L2.
      * intros _ s' (F' & T1 & T2). right. cbn in *. split_and!; [done|lia|lia].
  - eapply wpe_mono; [apply (lost_spec target maxtime e s); [done|done| | |cbn in *; lia]|..]; [| |by right|done|done].
    + intros v Hv. cbn in Hv. rewrite L2 in Hv. case_bool_decide; [done|]. by apply St.
    + intros ->. cbn. rewrite L2. by rewrite bool_decide_eq_true_2.
Qed.

Lemma loop_spec target maxtime fuel : other_file target -> valid_timespec maxtime -> forall s, is_free s ->
  Z.max 0 (ns maxtime - now_at s) + tick < Z.of_nat fuel * tick ->
  wpe (lock_loop fuel target maxtime) (fun _ => holds) (fun _ _ => False) dead s.
Proof using ML CL.
  intros Ht Vm. pose proof cl_tick as Tp. induction fuel as [|fuel IH]; intros s F Hf; [lia|]. cbn [lock_loop].
  mstep. mstep. rewrite (proj1 F). eapply wpe_seq; [by apply try_spec|]. cbv beta. intros _ s' [H|(F' & T1 & T2)].
  - destruct fuel as [|fuel]; [lia|]. cbn [lock_loop]. mstep. mstep. rewrite (proj1 H). by apply wpe_ret.
  - apply IH; [done|]. lia.
Qed.

(** The turns of [MOUNTLOCK_MAXTIME] seconds. *)
Definition enough_turns (fuel : nat) : Prop := MOUNTLOCK_MAXTIME * NSEC_PER_SEC + tick < Z.of_nat fuel * tick.

Lemma lock_spec fuel s : is_free s -> enough_turns fuel -> wpe (lock_mtab fuel) (fun _ => holds) (fun _ _ => False) dead s.
Proof using ML CL.
  intros F Hf. unfold lock_mtab. set (target := linktarget (mb_getpid (ms_world s))). mstep. mstep. mstep. mstep. intros i w R.
  destruct F as [Fc Fl]. pose proof (ml_open _ _ _ _ _ R Fl) as L1.
  destruct i as [fd|e]; [|apply wpe_exit; split; [by right|intros v; cbn; by rewrite L1]].
  do 4 mstep. intros r w2 R2. pose proof (ml_close (view := view) fd w) as L2. pose proof (ml_monotonic _ _ _ R2) as L3.
  cbn in L3. rewrite L2, L1 in L3. destruct (cl_read _ _ _ R2) as [_ C2].
  destruct r as [now|e]; [|apply wpe_exit; split; [by left|intros v; cbn; by rewrite L3]].
  destruct (C2 now eq_refl) as [Vn En]. apply loop_spec; [apply linktarget_other|done|by split|].
  unfold ns in *. cbn. unfold enough_turns in Hf. pose proof cl_tick. unfold MOUNTLOCK_MAXTIME, NSEC_PER_SEC in *. lia.
Qed.
End Lock.

(** ** The update *)

(** What has become of the table: it is as it was, or, unless an error was
    reported, it is the updated one. *)
Definition outcome (dir : list Z) (instead : option my_mntent) (v : mtab_view) : Prop :=
  mtab_of v = mv_old v \/
  (mv_fault v = false -> exists text, mv_old v = Some text /\
    mtab_of v = Some (updated dir instead (table_of (open_file text false)) ≫= entry_line)).

Section Update.
Context {W : Type} {A : Alloc W} {MO : MtabOs W} {view : W -> mtab_view} {ML : MtabLaws MO view}.
Abbreviation state := (mtab_state W).
Abbreviation L := (locked_view view).
Abbreviation dead := (dead (view := view)).

(** The lock is held, and [v] is what is known. *)
Definition at_view (v : mtab_view) (s : state) : Prop := ms_created s = true /\ L (ms_world s) = Some v.
(** The table has not been changed yet. *)
Definition untouched (v : mtab_view) : Prop := mtab_of v = mv_old v.

Lemma alloc_quiet n w : L (malloc n w).2 = L w.
Proof using ML. destruct (malloc n w) as [r w'] eqn:E. by apply (ml_malloc n w r w'). Qed.

Lemma dead_at v c s : at_view v s -> untouched v -> EXIT_OK c -> dead c s.
Proof using. clear ML. intros [_ E] U H. split; [done|]. intros v'. rewrite E. by intros [= <-]. Qed.

Lemma wpe_gives {V} (m : M W V) P Q E v s : gives L m P -> at_view v s -> untouched v ->
  (forall a s', P a -> at_view v s' -> Q a s') -> wpe (in_world m) Q E dead s.
Proof using.
  clear ML. intros G [C Hv] U H. apply wpe_in_world. eapply wpe_mono; [apply (G (ms_world s))|..]; cbv beta; [|done|].
  - intros a w [Ha Ev]. apply H; [done|]. split; [done|]. cbn. by rewrite Ev.
  - intros c w [-> Ev]. apply (dead_at v); [|done|by left]. split; [done|]. cbn. by rewrite Ev.
Qed.

Lemma gives_asks {V} (f : W -> V * W) : quiet view f -> gives L (asks f) (fun _ => True).
Proof using. clear ML. intros Hq w. unfold wpe, asks. destruct (f w) as [a w'] eqn:E. split; [done|]. by eapply Hq. Qed.

(** A step that does not matter, and the rest. *)
Lemma seq_gives {V V'} (m : M W V) P (k : V -> M W V') Q E X w v : gives L m P -> L w = Some v ->
  (forall w', L w' = Some v -> X EX_SYSERR w') -> (forall a w', P a -> L w' = Some v -> wpe (k a) Q E X w') ->
  wpe (bind m k) Q E X w.
Proof using.
  clear ML. intros G Hv D H. eapply wpe_seq; [eapply wpe_mono; [apply (G w)|..]|].
  - intros a w' Ha. exact Ha.
  - done.
  - intros c w' [-> E']. apply D. by rewrite E'.
  - cbv beta. intros a w' [Ha E']. apply H; [done|]. by rewrite E'.
Qed.

(** Opening a stream: [fopen] in the middle, with nothing that matters
    around it. *)
Lemma setmntent_spec {V} (fopen : W -> (V + Z) * W) file (K : V + Z -> mtab_view -> Prop) v s :
  at_view v s -> untouched v ->
  (forall w r w', fopen w = (r, w') -> L w = Some v -> exists v', L w' = Some v' /\ K r v' /\ untouched v') ->
  wpe (attempt (in_world (my_setmntent fopen file))) (fun r s' => exists v', at_view v' s' /\ K r v' /\ untouched v')
    (fun _ _ => False) dead s.
Proof using ML.
  intros [C Hv] U Hk. apply wpe_attempt, wpe_in_world. unfold my_setmntent.
  assert (D : forall v' w, untouched v' -> L w = Some v' -> dead EX_SYSERR (put_world s w)).
  { intros v' w U' Hv'. apply (dead_at v'); [by split|done|by left]. }
  eapply (seq_gives _ _ _ _ _ _ _ v); [by apply (yields_xmalloc L alloc_quiet)|done|by eauto|]. intros _ w1 _ E1.
  eapply (seq_gives _ _ _ _ _ _ _ v); [apply gives_asks, ml_umask|done|by eauto|]. intros mask w2 _ E2.
  eapply (wpe_seq _ _ (fun r w3 => exists v', L w3 = Some v' /\ K r v' /\ untouched v')).
  { apply wpe_attempt. unfold wpe, lift_sum. destruct (fopen w2) as [[a|e] w3] eqn:F; by apply (Hk _ _ _ F). }
  cbv beta. intros r w3 (v' & E3 & Kr & U').
  eapply (seq_gives _ _ _ _ _ _ _ v'); [apply gives_asks, ml_umask|done|by eauto|]. intros _ w4 _ E4.
  eapply (seq_gives _ _ _ _ _ _ _ v'); [by apply (yields_new_text L alloc_quiet)|done|by eauto|]. intros _ w5 _ E5.
  destruct r as [a|e]; [apply wpe_ret|apply wpe_fail]; exists v'; by split.
Qed.

(** *** Writing *)

Definition writing (v : mtab_view) (h : Z) (buf : list Z) : mtab_view :=
  with_stream v (mv_files v) (Some (h, _PATH_MOUNTED_TMP, buf)) (mv_fault v).

Lemma add_spec e h v buf s : at_view (writing v h buf) s -> untouched v ->
  wpe (attempt (in_world (my_addmntent h e)))
    (fun r s' => exists buf', at_view (writing v h buf') s' /\ (forall u, r = inl u -> buf' = buf ++ entry_line e))
    (fun _ _ => False) dead s.
Proof using ML.
  intros [C Hv] U. apply wpe_attempt, wpe_in_world. unfold my_addmntent.
  assert (D : forall w, L w = Some (writing v h buf) -> dead EX_SYSERR (put_world s w)).
  { intros w Hw. apply (dead_at (writing v h buf)); [by split|done|by left]. }
  eapply (wpe_seq _ _ (fun _ w => L w = Some (writing v h buf))).
  { unfold wpe, lift_sum. destruct (mo_seek_end h (ms_world s)) as [[u|e'] w1] eqn:Es; pose proof (ml_seek _ _ _ _ Es) as E1.
    - by rewrite E1.
    - exists buf. split; [|done]. split; [done|]. cbn. by rewrite E1. }
  cbv beta. intros _ w1 E1.
  eapply seq_gives; [by apply (yields_mangle L alloc_quiet)|done|done|]. intros _ w2 _ E2.
  eapply seq_gives; [by apply (yields_mangle L alloc_quiet)|done|done|]. intros _ w3 _ E3.
  eapply seq_gives; [by apply (yields_mangle L alloc_quiet)|done|done|]. intros _ w4 _ E4.
  eapply seq_gives; [by apply (yields_mangle L alloc_quiet)|done|done|]. intros _ w5 _ E5.
  unfold wpe, lift_sum. destruct (mo_fprintf h (entry_line e) w5) as [r w6] eqn:Ep.
  destruct (ml_print _ _ _ _ _ _ _ _ Ep E5 eq_refl) as (buf' & E6 & Hb).
  destruct r as [[]|e']; exists buf'; (split; [by split|]); [intros _ _; by apply Hb|done].
Qed.

Lemma write_chain_spec c h v fuel l : forall p buf s, NoDup (HEAD :: l.*1) -> seg (ch_nodes c) p l HEAD -> (length l < fuel)%nat ->
  at_view (writing v h buf) s -> untouched v ->
  wpe (write_chain fuel c h (Some (first_of l HEAD))) (fun _ => at_view (writing v h (buf ++ (l.*2 ≫= entry_line)))) (fun _ _ => False) dead s.
Proof using ML.
  revert fuel. induction l as [|[a e] l IH]; intros fuel p buf s N S1 Hf Hv U; (destruct fuel as [|fuel]; [simpl in Hf; lia|]);
    cbn [write_chain first_of].
  - apply wpe_ret. by rewrite app_nil_r.
  - cbn in N. destruct (Nat.eqb_spec a HEAD) as [-> |_].
    { exfalso. apply NoDup_cons in N as [N _]. apply N. by left. }
    destruct S1 as [Sa S1]. apply wpe_bind. eapply wpe_gives; [|done|done|].
    { unfold load. rewrite Sa. by apply (yields_value L). }
    intros ? s1 -> Hv1. cbn [nd_m nd_nxt]. eapply wpe_seq; [by apply add_spec|]. cbv beta.
    intros r s2 (buf' & Hv2 & Hb). destruct r as [u|e'].
    + rewrite (Hb u eq_refl) in Hv2. eapply wpe_mono; [eapply IH; [|exact S1|simpl in Hf; lia|exact Hv2|done]|..]; [|cbv beta|done|done].
      * apply NoDup_cons in N as [N1 N2]. apply NoDup_cons in N2 as [N2 N3]. apply NoDup_cons. split; [|done].
        intros Hin. apply N1. by right.
      * intros _ s3. cbn [fmap list_fmap snd]. change ((e :: l.*2) ≫= entry_line) with (entry_line e ++ (l.*2 ≫= entry_line)).
        by rewrite <- app_assoc.
    + apply wpe_exit. apply (dead_at (writing v h buf')); [done|done|by right].
Qed.

Lemma discard_loop_spec l : forall c p fuel, NoDup (HEAD :: l.*1) -> seg (ch_nodes c) p l HEAD -> (length l < fuel)%nat ->
  gives L (discard_loop fuel c (Some (first_of l HEAD))) (fun _ => True).
Proof using.
  clear ML. induction l as [|[a e] l IH]; intros c p fuel N S1 Hf; (destruct fuel as [|fuel]; [simpl in Hf; lia|]); cbn [discard_loop first_of].
  - by apply gives_ret.
  - cbn in N. destruct (Nat.eqb_spec a HEAD) as [-> |_].
    { exfalso. apply NoDup_cons in N as [N _]. apply N. by left. }
    destruct S1 as [Sa S1]. eapply bind_load; [exact Sa|]. unfold my_free_mc. cbn [nd_nxt].
    apply NoDup_cons in N as [N1 N2]. apply NoDup_cons in N2 as [N2 N3].
    eapply (gives_bind _ _ _ (fun c' => ch_nodes c' = delete a (ch_nodes c))).
    { eapply bind_load; [exact Sa|]. by apply gives_ret. }
    intros c' E. eapply (IH _ a); [|rewrite E; by apply seg_delete|simpl in Hf; lia].
    apply NoDup_cons. split; [|done]. intros Hin. apply N1. by right.
Qed.

Lemma discard_spec c es : represents c es -> gives L (discard_mntentchn c) (fun _ => True).
Proof using.
  clear ML. intros (l & C & _). pose proof (chain_length c l C) as Hl. destruct C as [N F S1 (n & p & h & Hh & Hok)]. unfold discard_mntentchn.
  eapply bind_load; [exact Hh|]. cbn [nd_nxt]. destruct Hok as [[-> _]|(_ & -> & _)]; [|by apply gives_ret]. by eapply discard_loop_spec.
Qed.

Lemma quiet_answer {V} (f : W -> (V + Z) * W) v s : quiet view f -> at_view v s ->
  wpe (mtry f) (fun _ => at_view v) (fun _ _ => False) dead s.
Proof using. clear ML. intros Q [C Hv]. apply wpe_mtry. intros r w E. split; [done|]. cbn. by rewrite (Q _ _ _ E). Qed.

Lemma fix_owner_spec fd v s : at_view v s -> wpe (fix_owner fd) (fun _ => at_view v) (fun _ _ => False) dead s.
Proof using ML.
  intros Hv. unfold fix_owner. eapply wpe_seq; [apply quiet_answer; [apply ml_fchmod|done]|]. cbv beta. intros r s1 H1.
  destruct r; [|by apply wpe_ret]. eapply wpe_seq; [apply quiet_answer; [apply ml_owner|done]|]. cbv beta. intros r s2 H2.
  destruct r as [[uid gid]|]; [|by apply wpe_ret]. eapply wpe_seq; [apply quiet_answer; [apply ml_fchown|done]|]. cbv beta. intros r s3 H3.
  by apply wpe_ret.
Qed.

(** Closing the new table and renaming it: the table is as it was, or it is
    what was written unless closing it failed. *)
Definition replaced (v : mtab_view) (text : list Z) (v' : mtab_view) : Prop :=
  mv_old v' = mv_old v /\ (mtab_of v' = mtab_of v \/ (mv_fault v' = false -> mv_fault v = false /\ mtab_of v' = Some text)).

Lemma rename_spec h v text s : at_view (writing v h text) s -> mv_files v !! _PATH_MOUNTED_TMP = Some [] ->
  wpe (in_world (my_endmntent h) ;; mtry (mb_rename _PATH_MOUNTED_TMP _PATH_MOUNTED) ;; ret tt)
    (fun _ s' => exists v', at_view v' s' /\ replaced v text v') (fun _ _ => False) dead s.
Proof using ML.
  intros [C Hv] Ht. mstep. apply wpe_in_world. unfold my_endmntent. mstep. unfold wpe at 1, asks.
  destruct (mo_fclose h (ms_world s)) as [r w1] eqn:Ec. destruct (ml_fclose _ _ _ _ _ _ _ [] Ec Hv eq_refl Ht) as (part & E1 & Hp).
  apply wpe_ret. change (mv_files (writing v h text)) with (mv_files v) in E1.
  mstep. mstep. intros r2 w2 Er.
  pose proof (ml_rename _ _ _ _ _ _ part Er E1 eq_refl ltac:(apply lookup_insert_eq)) as E2. apply wpe_ret. eexists. split; [split; [done|exact E2]|].
  unfold replaced, mtab_of. destruct r2 as [u|e]; (split; [done|]).
  - right. intros Hf%orb_false_iff. destruct Hf as [Hf Hr]. apply bool_decide_eq_false in Hr. split; [done|].
    cbn [mv_files with_stream]. rewrite lookup_insert_eq, Hp; [done|]. by destruct (decide (r = inl tt)).
  - left. cbn [mv_files with_stream]. by rewrite lookup_insert_ne.
Qed.

(** The temporary file is opened, or that fails. *)
Definition emptied (v : mtab_view) (r : Z + Z) (v' : mtab_view) : Prop :=
  match r with
  | inl h => v' = with_stream v (<[_PATH_MOUNTED_TMP := []]> (mv_files v)) (Some (h, _PATH_MOUNTED_TMP, [])) (mv_fault v)
  | inr _ => mtab_of v' = mtab_of v /\ mv_old v' = mv_old v
  end.

Lemma open_tmp v : untouched v -> mv_stream v = None -> forall w r w', mo_fopen_write _PATH_MOUNTED_TMP (codes "w") w = (r, w') ->
  L w = Some v -> exists v', L w' = Some v' /\ emptied v r v' /\ untouched v'.
Proof using ML.
  intros U Sv w r w' E Ev. pose proof (ml_write _ _ _ _ _ E Ev Sv) as E'.
  assert (M : forall st, mtab_of (with_stream v (<[_PATH_MOUNTED_TMP := []]> (mv_files v)) st (mv_fault v)) = mtab_of v).
  { intros st. unfold mtab_of, with_stream. cbn [mv_files]. by rewrite lookup_insert_ne. }
  destruct r as [h|e].
  - eexists. split_and!; [exact E'|reflexivity|]. unfold untouched. by rewrite M.
  - destruct E' as [E'|E']; eexists; (split; [exact E'|]); [by split_and!|]. unfold emptied, untouched. by rewrite !M.
Qed.

Lemma write_table_spec c es v s : represents c es -> at_view v s -> untouched v -> mv_stream v = None ->
  wpe (write_table c) (fun _ s' => exists v', at_view v' s' /\ replaced v (es ≫= entry_line) v') (fun _ _ => False) dead s.
Proof using ML.
  intros R Hv U Sv. pose proof (discard_spec c es R) as G. unfold write_table, my_setmntent_write.
  eapply wpe_seq; [by apply (setmntent_spec _ _ (emptied v) v); [..|by apply open_tmp]|].
  cbv beta. intros r s1 (v1 & Hv1 & K1 & U1). destruct r as [h|e]; cycle 1.
  { destruct K1 as (M1 & O1). apply wpe_bind. eapply wpe_gives; [exact G|done|done|]. intros _ s2 _ Hv2. apply wpe_ret.
    exists v1. split; [done|]. split; [done|by left]. }
  cbn in K1. subst v1.
  set (v0 := with_stream v (<[_PATH_MOUNTED_TMP := []]> (mv_files v)) (Some (h, _PATH_MOUNTED_TMP, [])) (mv_fault v)) in *.
  change v0 with (writing v0 h []) in Hv1. destruct R as (l & C & <-). pose proof (chain_length c l C) as Hl.
  destruct C as [N F S1 (n & p & hm & Hh & Hok)].
  apply wpe_bind. eapply wpe_gives; [unfold load; rewrite Hh; by apply (yields_value L)|exact Hv1|done|]. intros ? s2 -> Hv2. cbn [nd_nxt].
  apply (wpe_seq _ _ (fun _ => at_view (writing v0 h (l.*2 ≫= entry_line)))).
  { destruct Hok as [[-> _]|(-> & -> & _)]; [|by apply wpe_ret]. by apply (write_chain_spec c h v0 (TURNS c) l HEAD []). }
  intros _ s3 Hv3. apply wpe_bind. eapply wpe_gives; [exact G|exact Hv3|done|]. intros _ s4 _ Hv4.
  eapply wpe_seq; [by apply fix_owner_spec|]. cbv beta. intros fixed s5 Hv5.
  assert (M : mtab_of v0 = mtab_of v) by (unfold mtab_of, v0; cbn [mv_files with_stream]; by rewrite lookup_insert_ne).
  destruct fixed; [|apply wpe_ret; eexists; split; [exact Hv5|]; split; [done|by left]].
  eapply wpe_mono; [apply (rename_spec h v0); [exact Hv5|by apply lookup_insert_eq]|..]; [|done|done].
  cbv beta. intros _ s6 (v' & Hv' & Ro & Rm). exists v'. split; [done|]. rewrite M in Rm. by split.
Qed.

Lemma read_spec v s : at_view v s -> untouched v ->
  wpe (attempt (in_world (my_setmntent_read _PATH_MOUNTED))) (fun r s' => exists v', at_view v' s' /\ untouched v' /\
      mv_stream v' = mv_stream v /\ mv_old v' = mv_old v /\ match r with
      | inl f => exists all text fails, f = open_file text fails /\ mv_old v = Some all /\
          (mv_fault v' = false -> fails = false /\ text = all)
      | inr _ => True
      end) (fun _ _ => False) dead s.
Proof using ML.
  intros Hv U. set (K := fun (r : list Z * bool + Z) v' => mv_stream v' = mv_stream v /\ mv_old v' = mv_old v /\ match r with
    | inl (text, fails) => exists all, mv_old v = Some all /\ (mv_fault v' = false -> fails = false /\ text = all)
    | inr _ => True end).
  assert (Hk : forall w r w', mo_fopen_read _PATH_MOUNTED w = (r, w') -> L w = Some v -> exists v', L w' = Some v' /\ K r v' /\ untouched v').
  { intros w r w' E Ev. pose proof (ml_read _ _ _ _ _ E Ev) as M. destruct r as [[t fl]|e]; [|eexists; by split].
    destruct M as (all & Ha & _ & Hf & E'). eexists. split; [exact E'|]. split; [|done]. split; [done|]. split; [done|]. exists all.
    split; [by rewrite <- U|]. cbn. intros [_ ->]%orb_false_iff. auto. }
  pose proof (setmntent_spec (mo_fopen_read _PATH_MOUNTED) _PATH_MOUNTED K v s Hv U Hk) as G. clear Hk.
  unfold wpe, attempt, in_world, my_setmntent_read, bind in *. destruct (my_setmntent _ _ _) as [[[text fails]|e| |st|] w]; cbn in *; try done.
  - destruct G as (v' & Hv' & (Hs' & Ho & all & Ha & Hf) & U'). exists v'. split_and!; [done|done|done|done|]. by exists all, text, fails.
  - destruct G as (v' & Hv' & (Hs' & Ho & _) & U'). by exists v'.
Qed.

Lemma change_table_spec dir instead v s : at_view v s -> untouched v -> mv_stream v = None ->
  wpe (change_table dir instead) (fun _ s' => exists v', at_view v' s' /\ outcome dir instead v') (fun _ _ => False) dead s.
Proof using ML.
  intros Hv U Sv. unfold change_table. eapply wpe_seq; [by apply read_spec|]. cbv beta. intros r s1 (v1 & Hv1 & U1 & Hs1 & Ho & Hr).
  rewrite Sv in Hs1.
  destruct r as [f|e]; [|apply wpe_ret; exists v1; split; [done|by left]]. destruct Hr as (all & text & fails & -> & Ha & Hf).
  apply wpe_bind. eapply wpe_gives; [by apply gives_read_chain, alloc_quiet|exact Hv1|done|]. intros c s2 R Hv2.
  apply wpe_bind. eapply wpe_gives; [by apply (gives_change_entry L alloc_quiet _ _ dir instead R)|exact Hv2|done|]. intros c' s3 R' Hv3.
  eapply wpe_mono; [apply (write_table_spec c' (updated dir instead (table_of (open_file text fails))) v1); done|..]; [|done|done]. cbv beta. intros _ s4 (v' & Hv' & Eo & Em).
  exists v'. split; [done|]. destruct Em as [Em|Em].
  - left. by rewrite Em, Eo.
  - right. intros Fv'. destruct (Em Fv') as [F1 Et]. destruct (Hf F1) as [-> ->]. exists all. split; [by rewrite Eo, Ho|done].
Qed.

(** The lock is given back, unless the lock file cannot be removed. *)
Definition lock_returned (v : mtab_view) (w : W) : Prop :=
  view w = mk_view (mv_files v) (mv_stream v) false (mv_old v) (mv_fault v) \/
  view w = v /\ exists w0 e, mb_unlink _PATH_MOUNTED_LOCK w0 = (inr e, w) /\ L w0 = Some v.

Lemma unlock_spec v s : at_view v s ->
  wpe unlock_mtab (fun _ s' => ms_created s' = false /\ lock_returned v (ms_world s')) (fun _ _ => False) dead s.
Proof using ML.
  intros [C Hv]. unfold unlock_mtab. mstep. mstep. rewrite C. do 8 mstep. intros r w R. mstep. split; [done|]. cbn in *.
  rewrite <- (ml_close (view := view) (ms_fd s)) in Hv. pose proof (ml_unlock _ _ _ _ R Hv) as E. destruct r as [[]|e]; [by left|].
  right. split; [done|]. by eexists _, e.
Qed.
End Update.

Section Mtab.
Context {W : Type} {A : Alloc W} {MO : MtabOs W} {view : W -> mtab_view} {ML : MtabLaws MO view}.
Context {clock : W -> Z} {tick : Z} {CL : ClockLaws MO clock tick}.

(** What the program has found out about the table, or does first. *)
Definition looked_up (s : mtab_state W) : (bool * bool) * W :=
  match ms_info s with
  | Some info => (info, ms_world s)
  | None => let '(st, w) := mb_lstat _PATH_MOUNTED (ms_world s) in (match st with inr _ => (true, false) | inl link => (false, link) end, w)
  end.

(** Why the table is left alone: when the program looks, it is missing or a
    symbolic link, or the program cannot open it for writing; [w'] is the
    world after that. *)
Definition not_writable (s : mtab_state W) (w' : W) : Prop :=
  let '((missing, link), w) := looked_up s in
  ((missing = true \/ link = true) /\ w' = w) \/ exists e, mb_open _PATH_MOUNTED O_RDWR_CREAT w = (inr e, w').

Lemma info_spec s : is_free (view := view) s ->
  wpe get_mtab_info (fun info s' => is_free (view := view) s' /\ ms_info s' = Some info /\ looked_up s = (info, ms_world s'))
    (fun _ _ => False) (dead (view := view)) s.
Proof using ML.
  intros F. unfold get_mtab_info, looked_up. mstep. mstep. destruct (ms_info s) as [info|] eqn:E; [by apply wpe_ret|].
  mstep. mstep. intros r w R. rewrite R. pose proof (ml_lstat _ _ _ _ R) as Lq. mstep. unfold set_info. mstep. mstep.
  destruct F as [Fc Fl]. split; [|by split]. split; [done|]. cbn. by rewrite Lq.
Qed.

Lemma writable_spec s info : is_free (view := view) s -> ms_info s = Some info -> info.1 = false ->
  wpe mtab_is_writable (fun b s' => is_free (view := view) s' /\ (b = false -> not_writable s (ms_world s'))) (fun _ _ => False) (dead (view := view)) s.
Proof using ML.
  intros F E E1. unfold mtab_is_writable, mtab_is_a_symlink, get_mtab_info. do 4 mstep. rewrite E. do 2 mstep.
  unfold not_writable, looked_up. rewrite E. destruct info as [missing link]. cbn [fst snd] in *. destruct link.
  - apply wpe_ret. split; [done|]. intros _. left. by split; [right|].
  - mstep. mstep. intros r w R. destruct F as [Fc Fl]. pose proof (ml_open _ _ _ _ _ R Fl) as Lq. destruct r as [fd|e].
    + do 3 mstep. split; [|done]. split; [done|]. cbn. by rewrite (ml_close (view := view)).
    + mstep. split; [by split|]. intros _. right. by exists e.
Qed.

(** C22: [update_mtab] ends, and the table of mounts is replaced as a whole.
    It is left alone when the program finds it missing, a symbolic link, or
    cannot open it for writing (and then looking is all it has done).
    Otherwise the program takes the lock, or ends with a status for an error of
    a system call or for its thirty seconds being over; while it has the lock
    the table is read, the entry of the directory is removed, gets the other
    options or is added at the end - in a ring of linked nodes, with no
    access outside of it - and the new table takes the place of the old one.
    When the function returns, the lock has been given back, unless removing
    the lock file failed, and the table is then the old one or exactly the
    updated one, unless an error of reading or closing a file was ignored.
    [enough_turns]: the clock advances by at least [tick] from one reading to
    the next, and the bound on the turns is that of thirty seconds of them.
    The system is one in which nobody else changes the table while the lock
    is held. *)
Theorem update_mtab_replaces fuel dir instead s : is_free (view := view) s -> enough_turns (tick := tick) fuel ->
  wpe (update_mtab fuel dir instead)
    (fun _ s' => ms_created s' = false /\
       (not_writable s (ms_world s') \/ exists v, outcome dir instead v /\ lock_returned (view := view) v (ms_world s')))
    (fun _ _ => False) (dead (view := view)) s.
Proof using ML CL.
  intros F Hf. unfold update_mtab, mtab_does_not_exist. apply wpe_bind. eapply wpe_seq; [by apply info_spec|]. cbv beta.
  intros info s1 (F1 & E1 & Lk). apply wpe_ret. destruct (info.1) eqn:E2.
  { apply wpe_ret. split; [apply F1|]. left. unfold not_writable. rewrite Lk. destruct info. left. by split; [left|]. }
  eapply wpe_seq; [by apply (writable_spec s1 info)|]. cbv beta. intros b s2 [F2 Hb].
  destruct b; cbn [negb].
  2: { apply wpe_ret. split; [apply F2|left]. specialize (Hb eq_refl). unfold not_writable in *. rewrite Lk. unfold looked_up in Hb.
       by rewrite E1 in Hb. }
  eapply wpe_seq; [by apply lock_spec|]. cbv beta. intros _ s3 (C & v & Hv & Sv & _ & U).
  eapply wpe_seq; [apply (change_table_spec dir instead v); [by split|by symmetry|done]|]. cbv beta. intros _ s4 (v' & Hv' & Out).
  eapply wpe_mono; [by apply (unlock_spec v')|..]; [|done|done]. cbv beta. intros _ s5 [C5 E5]. split; [done|]. right. by exists v'.
Qed.
End Mtab.
