(* ===== verification/MountOpts.v ===== *)
(** * Mount options: sbin/mount/mount_opts.c

    Options are separated by commas outside of quotes.  Those of the table
    become flags of mount(2), the others are passed on as a text; in the mount
    table they are searched, replaced and removed.  The label handling of
    SELinux is left out, as the build leaves it out by default; [MS_SILENT] and
    [MS_NOSUB] are not known to this file, so their options are passed on. *)

From Stdlib Require Import String.
From S2P Require Import Prelude Vector Hoare Parser Tune Float64 Cldconfig Cleanerd CleanerExec Mntent.

(** ** Flags *)

Definition MS_RDONLY : Z := 1.
Definition MS_NOSUID : Z := 2.
Definition MS_NODEV : Z := 4.
Definition MS_NOEXEC : Z := 8.
Definition MS_SYNCHRONOUS : Z := 16.
Definition MS_REMOUNT : Z := 32.
Definition MS_MANDLOCK : Z := 64.
Definition MS_DIRSYNC : Z := 128.
Definition MS_NOATIME : Z := 0x400.
Definition MS_NODIRATIME : Z := 0x800.
Definition MS_BIND : Z := 0x1000.
Definition MS_REC : Z := 0x4000.
Definition MS_RELATIME : Z := 0x200000.
Definition MS_NOAUTO : Z := 0x80000000.
Definition MS_USERS : Z := 0x40000000.
Definition MS_USER : Z := 0x20000000.
Definition MS_OWNER : Z := 0x10000000.
Definition MS_GROUP : Z := 0x08000000.
Definition MS_PAMCONSOLE : Z := 0x04000000.
Definition MS_NETDEV : Z := 0x00040000.
Definition MS_COMMENT : Z := 0x00020000.
Definition MS_LOOP : Z := 0x00010000.

Definition lor_all (l : list Z) : Z := foldr Z.lor 0 l.
Definition MS_NOSYS : Z := lor_all [MS_NOAUTO; MS_USERS; MS_USER; MS_COMMENT; MS_LOOP; MS_PAMCONSOLE; MS_NETDEV].
Definition MS_NOMTAB : Z := lor_all [MS_REMOUNT; MS_NOAUTO; MS_USERS; MS_USER; MS_PAMCONSOLE].
Definition MS_SECURE : Z := lor_all [MS_NOEXEC; MS_NOSUID; MS_NODEV].
Definition MS_OWNERSECURE : Z := Z.lor MS_NOSUID MS_NODEV.

Record opt_entry := mk_opt_map { om_opt : list Z; om_skip : bool; om_inv : bool; om_mask : Z }.

Definition opt_map : list opt_entry :=
  (fun '(o, s, i, m) => mk_opt_map (codes o) s i m) <$>
  [("defaults"%string, false, false, 0);
   ("ro"%string, true, false, MS_RDONLY);
   ("rw"%string, true, true, MS_RDONLY);
   ("exec"%string, false, true, MS_NOEXEC);
   ("noexec"%string, false, false, MS_NOEXEC);
   ("suid"%string, false, true, MS_NOSUID);
   ("nosuid"%string, false, false, MS_NOSUID);
   ("dev"%string, false, true, MS_NODEV);
   ("nodev"%string, false, false, MS_NODEV);
   ("sync"%string, false, false, MS_SYNCHRONOUS);
   ("async"%string, false, true, MS_SYNCHRONOUS);
   ("dirsync"%string, false, false, MS_DIRSYNC);
   ("remount"%string, false, false, MS_REMOUNT);
   ("bind"%string, false, false, MS_BIND);
   ("rbind"%string, false, false, Z.lor MS_BIND MS_REC);
   ("auto"%string, false, true, MS_NOAUTO);
   ("noauto"%string, false, false, MS_NOAUTO);
   ("users"%string, false, false, MS_USERS);
   ("nousers"%string, false, true, MS_USERS);
   ("user"%string, false, false, MS_USER);
   ("nouser"%string, false, true, MS_USER);
   ("owner"%string, false, false, MS_OWNER);
   ("noowner"%string, false, true, MS_OWNER);
   ("group"%string, false, false, MS_GROUP);
   ("nogroup"%string, false, true, MS_GROUP);
   ("_netdev"%string, false, false, MS_COMMENT);
   ("comment"%string, false, false, MS_COMMENT);
   ("mand"%string, false, false, MS_MANDLOCK);
   ("nomand"%string, false, true, MS_MANDLOCK);
   ("loop"%string, true, false, MS_LOOP);
   ("atime"%string, false, true, MS_NOATIME);
   ("noatime"%string, false, false, MS_NOATIME);
   ("diratime"%string, false, true, MS_NODIRATIME);
   ("nodiratime"%string, false, false, MS_NODIRATIME);
   ("relatime"%string, false, false, MS_RELATIME);
   ("norelatime"%string, false, true, MS_RELATIME)].

(** The options with a value: the tag and whether it stays out of the mount
    table.  Their values are a list in the same order. *)
Definition string_opt_map : list (list Z * bool) :=
  (fun '(t, s) => (codes t, s)) <$>
  [("loop="%string, false); ("vfs="%string, true); ("offset="%string, false); ("encryption="%string, false);
   ("speed="%string, false); ("comment="%string, true); ("uhelper="%string, false)].

Abbreviation string_opts := (list (option (list Z))).
Definition clear_string_opts : string_opts := (fun _ => None) <$> string_opt_map.

(** [getpwnam] and [getgrnam]; [realloc] of a string answers whether the
    block has moved. *)
Class OptsOs (W : Type) := {
  op_uid : list Z -> W -> option Z * W;
  op_gid : list Z -> W -> option Z * W;
  op_realloc : Z -> Z -> W -> option bool * W;
}.

Definition COMMA : Z := 44.
Definition QUOTE : Z := 34.

Section Opts.
Context {W : Type} {A : Alloc W} {OO : OptsOs W}.
Abbreviation MW := (M W).

(** Whether the block has moved. *)
Definition xrealloc (old size : Z) : MW bool :=
  let* r := asks (op_realloc old size) in
  match r with Some moved => ret moved | None => die EX_SYSERR end.

(** [xstrconcat3] and [xstrconcat4] *)
Definition xstrconcat (s : option (list Z)) (parts : list (list Z)) : MW (option (list Z)) :=
  let text := default [] s ++ mjoin parts in
  let len := Z.of_nat (length text) in
  if len =? 0 then ret None
  else
    (match s with
     | None => xmalloc (len + 1)
     | Some s => xrealloc (Z.of_nat (length s) + 1) (len + 1) ;; ret tt
     end) ;;
    ret (Some text).

Definition append_opt (s opt val : option (list Z)) : MW (option (list Z)) :=
  match opt, s, val with
  | None, _, _ => ret s
  | Some opt, None, None => xstrdup (Some opt)
  | Some opt, None, Some val => xstrconcat None [opt; val]
  | Some opt, Some s, None => xstrconcat (Some s) [[COMMA]; opt]
  | Some opt, Some s, Some val => xstrconcat (Some s) [[COMMA]; opt; val]
  end.

Definition append_numopt (s : option (list Z)) (opt : list Z) (num : Z) : MW (option (list Z)) :=
  append_opt s (Some opt) (Some (print_int num)).

(** ** Parsing *)

(** The options of a text; one that a quote does not end is lost. *)
Fixpoint opt_items (s : list Z) (quoted : bool) (opt : option (list Z)) : list (list Z) :=
  match s with
  | [] => []
  | c :: s' =>
    let item := default [] opt in
    let quoted := if c =? QUOTE then negb quoted else quoted in
    if quoted then opt_items s' quoted (Some (item ++ [c]))
    else if c =? COMMA then item :: opt_items s' quoted None
    else match s' with [] => [item ++ [c]] | _ => opt_items s' quoted (Some (item ++ [c])) end
  end.

(** [None] if it is not an option with a value. *)
Fixpoint parse_string_opt (s : list Z) (map : list (list Z * bool)) (vals : string_opts) : MW (option string_opts) :=
  match map, vals with
  | (tag, _) :: map, v :: vals =>
    match strip_prefix tag s with
    | Some val => let* val := new_text val in ret (Some (Some val :: vals))
    | None => let* r := parse_string_opt s map vals in ret (cons v <$> r)
    end
  | _, _ => ret None
  end.

(** The flags with an option of the table. *)
Definition apply_opt (om : opt_entry) (mask : Z) : Z :=
  if om_inv om then Z.land mask (Z.lnot (om_mask om))
  else
    let mask := Z.lor mask (om_mask om) in
    let mask := if (om_mask om =? MS_USER) || (om_mask om =? MS_USERS) then Z.lor mask MS_SECURE else mask in
    if (om_mask om =? MS_OWNER) || (om_mask om =? MS_GROUP) then Z.lor mask MS_OWNERSECURE else mask.

(** A name that is not a number is replaced by the number. *)
Definition numeric_id (prefix opt : list Z) (look : list Z -> W -> option Z * W) : MW (option Z) :=
  match strip_prefix prefix opt with
  | Some name => if is_digit 10 (char_at name) then ret None else asks (look name)
  | None => ret None
  end.

Definition parse_opt (opt : list Z) (mask : Z) (extra_opts : option (list Z)) : MW (Z * option (list Z)) :=
  match find (fun om => bool_decide (om_opt om = opt)) opt_map with
  | Some om => ret (apply_opt om mask, extra_opts)
  | None =>
    let* uid := numeric_id (codes "uid=") opt op_uid in
    match uid with
    | Some uid => let* extra := append_numopt extra_opts (codes "uid=") uid in ret (mask, extra)
    | None =>
      let* gid := numeric_id (codes "gid=") opt op_gid in
      match gid with
      | Some gid => let* extra := append_numopt extra_opts (codes "gid=") gid in ret (mask, extra)
      | None => let* extra := append_opt extra_opts (Some opt) None in ret (mask, extra)
      end
    end
  end.

Fixpoint parse_items (items : list (list Z)) (flags : Z) (extra : option (list Z)) (vals : string_opts)
  : MW (Z * option (list Z) * string_opts) :=
  match items with
  | [] => ret (flags, extra, vals)
  | opt :: items =>
    let* r := parse_string_opt opt string_opt_map vals in
    match r with
    | Some vals => parse_items items flags extra vals
    | None =>
      let* (flags, extra) := parse_opt opt flags extra in
      parse_items items flags extra vals
    end
  end.

(** The flags, the other options, and the values of those of
    [string_opt_map]. *)
Definition parse_opts (readonly readwrite : bool) (options : option (list Z)) : MW (Z * option (list Z) * string_opts) :=
  let* (flags, extra, vals) :=
    (match options with
     | None => ret (0, None, clear_string_opts)
     | Some options =>
       let* opts := new_text options in
       parse_items (opt_items opts false None) 0 None clear_string_opts
     end) in
  let flags := if readonly then Z.lor flags MS_RDONLY else flags in
  let flags := if readwrite then Z.land flags (Z.lnot MS_RDONLY) else flags in
  ret (flags, extra, vals).

(** ** The options of an entry *)

Fixpoint flag_opts (map : list opt_entry) (flags : Z) (s : option (list Z)) : MW (option (list Z)) :=
  match map with
  | [] => ret s
  | om :: map =>
    if om_skip om || om_inv om || (om_mask om =? 0) || negb (Z.land flags (om_mask om) =? om_mask om) then flag_opts map flags s
    else
      let* s := append_opt s (Some (om_opt om)) None in
      flag_opts map (Z.land flags (Z.lnot (om_mask om))) s
  end.

Fixpoint value_opts (map : list (list Z * bool)) (vals : string_opts) (s : option (list Z)) : MW (option (list Z)) :=
  match map, vals with
  | (tag, skip) :: map, v :: vals =>
    let* s := match skip, v with
              | false, Some v => append_opt s (Some tag) (Some v)
              | _, _ => ret s
              end in
    value_opts map vals s
  | _, _ => ret s
  end.

Definition fix_opts_string (flags : Z) (extra_opts user : option (list Z)) (vals : string_opts) : MW (option (list Z)) :=
  let* s := append_opt None (Some (codes (if Z.land flags MS_RDONLY =? 0 then "rw" else "ro"))) None in
  let* s := flag_opts opt_map flags s in
  let* s := value_opts string_opt_map vals s in
  let* s := match extra_opts with
            | Some (_ :: _) => append_opt s extra_opts None
            | _ => ret s
            end in
  match user with
  | Some user => append_opt s (Some (codes "user=")) (Some user)
  | None => ret s
  end.

(** ** Searching and replacing *)

(** The text up to the next comma outside of quotes, and the rest. *)
Fixpoint strchrnulq (s : list Z) (quoted : bool) : list Z * list Z :=
  match s with
  | [] => ([], [])
  | c :: s' =>
    if c =? QUOTE then let '(tok, rest) := strchrnulq s' (negb quoted) in (c :: tok, rest)
    else if negb quoted && (c =? COMMA) then ([], s)
    else let '(tok, rest) := strchrnulq s' quoted in (c :: tok, rest)
  end.

(** An option to look for: [sscanf] with a format, or a name. *)
Inductive opt_token := Scan_int (prefix : list Z) | Scan_ulong (prefix : list Z) | Name (name : list Z).

Definition gcpid_opt_fmt : opt_token := Scan_int (codes "gcpid=").
Definition pp_opt_fmt : opt_token := Scan_ulong (codes "pp=").
Definition nogc_opt_fmt : opt_token := Name (codes "nogc").

(** The value, 0 for a name. *)
Definition scan_opt (token : opt_token) (opt : list Z) : option Z :=
  match token with
  | Scan_int prefix =>
    s ← strip_prefix prefix opt;
    if is_digit 10 (char_at (skip_sign (Parser.skip_spaces s)).2) then Some (i32 (atol s)) else None
  | Scan_ulong prefix =>
    s ← strip_prefix prefix opt;
    let '(v, rest) := strtoull s 10 in
    if same_ptr (Some rest) s then None else Some v
  | Name name => if bool_decide (opt = name) then Some 0 else None
  end.

(** The loop with [strtok_opt]: where the option begins, and its value. *)
Fixpoint find_token (fuel : nat) (s : list Z) (ind : nat) (token : opt_token) : option (nat * Z) :=
  match fuel, s with
  | Datatypes.S fuel, _ :: _ =>
    let '(opt, delm) := strchrnulq s false in
    match scan_opt token opt with
    | Some v => Some (ind, v)
    | None => find_token fuel (tail delm) (ind + length opt + 1)%nat token
    end
  | _, _ => None
  end.

Definition find_opt (opts : option (list Z)) (token : opt_token) : MW (option (nat * Z)) :=
  match opts with
  | None => ret None
  | Some opts =>
    let* opts2 := new_text opts in
    ret (find_token (length opts2) opts2 0 token)
  end.

(** The buffer after the option between [ind] and [ep] was overwritten with
    [instead]: a rest that has to move backward is copied only after that. *)
Definition overwrite (text : list Z) (ind ep : nat) (instead : list Z) : list Z :=
  let buf := text ++ [0] in
  let rest_len := (length text - ep)%nat in
  if (length instead <=? ep - ind)%nat then take ind buf ++ instead ++ drop ep buf
  else
    let copied := take ind buf ++ instead ++ drop (ind + length instead) buf in
    take ind buf ++ instead ++ take (rest_len + 1) (drop ep copied).

(** The option to overwrite: the one found, with a comma if it is removed. *)
Definition old_option (text : list Z) (ind : nat) (instead : list Z) : nat * nat :=
  let '(opt, rest) := strchrnulq (drop ind text) false in
  let ep := (ind + length opt)%nat in
  match instead, rest with
  | [], _ :: _ => (ind, Datatypes.S ep)
  | [], [] => (Nat.pred ind, ep)
  | _, _ => (ind, ep)
  end.

(** The pointers into the old block are used after [xrealloc]: that is
    undefined when the block has moved, and so is a string without end. *)
Definition replace_found (text : list Z) (ind : nat) (instead : list Z) : MW (list Z) :=
  let '(ind, ep) := old_option text ind instead in
  let buf := overwrite text ind ep instead in
  let* moved := xrealloc (Z.of_nat (length text) + 1) (Z.of_nat (length buf)) in
  if moved && negb (bool_decide (instead = [])) then abort
  else if bool_decide (0 ∈ buf) then ret (c_string buf) else abort.

Definition replace_opt (s : option (list Z)) (token : opt_token) (instead : option (list Z)) : MW (option (list Z)) :=
  match s with
  | None | Some [] => append_opt s instead None
  | Some text =>
    let* r := find_opt s token in
    match r with
    | None => append_opt s instead None
    | Some (ind, _) => let* text := replace_found text ind (default [] instead) in ret (Some text)
    end
  end.

(** The format with a value. *)
Definition print_opt (token : opt_token) (v : Z) : list Z :=
  match token with
  | Scan_int prefix => prefix ++ print_int (i32 v)
  | Scan_ulong prefix => prefix ++ print_cno (u64 v)
  | Name name => name
  end.

(** [buf] has 128 bytes. *)
Definition replace_optval (s : option (list Z)) (token : opt_token) (v : Z) : MW (option (list Z)) :=
  let buf := print_opt token v in
  if Z.of_nat (length buf) <? 128 then replace_opt s token (Some buf) else die EX_SOFTWARE.

Definition replace_drop_opt (s : option (list Z)) (token : opt_token) (v : Z) (cond : bool) : MW (option (list Z)) :=
  if cond then replace_optval s token v else replace_opt s token None.
End Opts.
