(* ===== verification/MountOptsSpec.v ===== *)
(** * Options in the mount table: proofs

    On a list of options joined by commas, [find_opt] finds the first one
    that matches, and [replace_opt] replaces, removes or appends it - unless
    the new option is longer than the old one, which it spoils. *)

From Stdlib Require Import String.
From S2P Require Import Prelude Vector Hoare Parser Tune Float64 Cldconfig Realpath Cleanerd CleanerExec Mntent MountOpts.

(** ** Options joined by commas *)

Fixpoint join_opts (opts : list (list Z)) : list Z :=
  match opts with
  | [] => []
  | [o] => o
  | o :: os => o ++ COMMA :: join_opts os
  end.

(** Whether a quote is open after [o]; [None] if a comma ends it before. *)
Fixpoint quote_state (o : list Z) (quoted : bool) : option bool :=
  match o with
  | [] => Some quoted
  | c :: o => if c =? QUOTE then quote_state o (negb quoted) else if negb quoted && (c =? COMMA) then None else quote_state o quoted
  end.

(** A single option. *)
Definition good_opt (o : list Z) : Prop := o <> [] /\ (0 ∉ o) /\ quote_state o false = Some false.

Lemma strchrnulq_at o : forall q r, quote_state o q = Some false -> r = [] \/ char_at r = COMMA -> strchrnulq (o ++ r) q = (o, r).
Proof.
  induction o as [|c o IH]; intros q r; cbn [quote_state strchrnulq app].
  - intros [= ->] [-> |Hr]; [done|]. destruct r as [|c r]; [done|]. simpl in Hr. subst. done.
  - case_if; [intros; by rewrite IH|]. destruct (negb q && (c =? COMMA)); [done|]. intros. by rewrite IH.
Qed.

Lemma join_cons o os : os <> [] -> join_opts (o :: os) = o ++ COMMA :: join_opts os.
Proof. by destruct os. Qed.

Lemma join_app os1 os2 : os1 <> [] -> os2 <> [] -> join_opts (os1 ++ os2) = join_opts os1 ++ COMMA :: join_opts os2.
Proof.
  intros H1 H2. induction os1 as [|o os1 IH]; [done|]. destruct os1 as [|o' os1].
  - cbn [app]. by rewrite join_cons.
  - change ((o :: o' :: os1) ++ os2) with (o :: ((o' :: os1) ++ os2)). rewrite !join_cons, IH, <- app_assoc by done. done.
Qed.

(** Where the text of an option begins. *)
Definition offset (os : list (list Z)) : nat := match os with [] => O | _ => Datatypes.S (length (join_opts os)) end.

Lemma drop_offset os1 o os2 : drop (offset os1) (join_opts (os1 ++ o :: os2)) = join_opts (o :: os2).
Proof.
  destruct os1 as [|o' os1]; [done|]. rewrite join_app by done. unfold offset.
  rewrite drop_app_ge by lia. by replace (_ - _)%nat with 1%nat by lia.
Qed.

Lemma take_offset os1 o os2 : take (offset os1) (join_opts (os1 ++ o :: os2)) = match os1 with [] => [] | _ => join_opts os1 ++ [COMMA] end.
Proof.
  destruct os1 as [|o' os1]; [done|]. rewrite join_app by done. unfold offset.
  replace (join_opts (o' :: os1) ++ COMMA :: join_opts (o :: os2)) with ((join_opts (o' :: os1) ++ [COMMA]) ++ join_opts (o :: os2))
    by (by rewrite <- app_assoc).
  rewrite take_app_length'; [done|]. rewrite length_app. simpl. lia.
Qed.

Lemma strchrnulq_join o os : good_opt o -> strchrnulq (join_opts (o :: os)) false = (o, match os with [] => [] | _ => COMMA :: join_opts os end).
Proof.
  intros (_ & _ & Q). destruct os as [|o' os].
  - cbn [join_opts]. rewrite <- (app_nil_r o) at 1. apply strchrnulq_at; [done|by left].
  - rewrite join_cons by done. apply strchrnulq_at; [done|by right].
Qed.

(** The first option that matches. *)
Fixpoint first_match (token : opt_token) (opts : list (list Z)) : option (nat * Z) :=
  match opts with
  | [] => None
  | o :: os =>
    match scan_opt token o with
    | Some v => Some (O, v)
    | None => '(i, v) ← first_match token os; Some (Datatypes.S i, v)
    end
  end.

Lemma join_nonempty o os : good_opt o -> exists c s, join_opts (o :: os) = c :: s.
Proof. intros (H & _). destruct o as [|c o]; [done|]. destruct os; by eexists _, _. Qed.

Lemma find_token_join token opts : Forall good_opt opts -> forall fuel ind, (length opts <= fuel)%nat ->
  find_token fuel (join_opts opts) ind token = '(i, v) ← first_match token opts; Some ((ind + offset (take i opts))%nat, v).
Proof.
  induction 1 as [|o os G _ IH]; intros fuel ind Hf; [by destruct fuel|]. destruct fuel as [|fuel]; [simpl in Hf; lia|].
  pose proof (strchrnulq_join o os G) as E. destruct (join_nonempty o os G) as (c & s & J). rewrite J in *. cbn [find_token].
  rewrite E. cbn [first_match]. destruct (scan_opt token o) as [v|] eqn:Sv.
  - cbn. by rewrite Nat.add_0_r.
  - destruct os as [|o' os]; [by destruct fuel|]. cbn [tail]. rewrite IH by (simpl in *; lia).
    destruct (first_match token (o' :: os)) as [[i v]|]; cbn [mbind option_bind]; [|done]. f_equal. f_equal.
    unfold offset. destruct i as [|i]; cbn [take]; [simpl; lia|]. rewrite (join_cons o (o' :: take i os)) by done. rewrite length_app. simpl. lia.
Qed.

(** ** Replacing *)

(** What [replace_opt] does to the list: the first option that matches is
    replaced, or removed when there is nothing instead; without one the new
    option comes last. *)
Definition replaced (token : opt_token) (instead : option (list Z)) (opts : list (list Z)) : list (list Z) :=
  match first_match token opts, instead with
  | Some (i, _), Some new => <[i := new]> opts
  | Some (i, _), None => delete i opts
  | None, Some new => opts ++ [new]
  | None, None => opts
  end.

Lemma first_match_split token opts i v : first_match token opts = Some (i, v) ->
  exists os1 o os2, opts = os1 ++ o :: os2 /\ i = length os1 /\ scan_opt token o = Some v.
Proof.
  revert i; induction opts as [|o opts IH]; intros i; [done|]. cbn. destruct (scan_opt token o) as [u|] eqn:E.
  - intros [= <- <-]. by exists [], o, opts.
  - destruct (first_match token opts) as [[j u]|]; [|done]. cbn. intros [= <- ->].
    destruct (IH j eq_refl) as (os1 & o' & os2 & -> & -> & H). by exists (o :: os1), o', os2.
Qed.

Lemma join_prefix os1 o os2 : join_opts (os1 ++ o :: os2) = take (offset os1) (join_opts (os1 ++ o :: os2)) ++ join_opts (o :: os2).
Proof. rewrite <- (drop_offset os1 o os2). by rewrite take_drop. Qed.

(** The text in its three parts. *)
Lemma join_parts os1 o os2 :
  join_opts (os1 ++ o :: os2) =
    match os1 with [] => [] | _ => join_opts os1 ++ [COMMA] end ++ o ++ match os2 with [] => [] | _ => COMMA :: join_opts os2 end.
Proof.
  rewrite join_prefix, take_offset. f_equal. destruct os2 as [|o' os2]; [by rewrite app_nil_r|by rewrite join_cons].
Qed.

Lemma overwrite_parts a o b new : (length new <= length o)%nat ->
  overwrite (a ++ o ++ b) (length a) (length a + length o) new = a ++ new ++ b ++ [0].
Proof.
  intros H. unfold overwrite. rewrite (proj2 (Nat.leb_le _ _)) by lia. rewrite <- !app_assoc, take_app_length. f_equal. f_equal.
  rewrite (app_assoc a o), drop_app_length'; [done|]. by rewrite length_app.
Qed.

Lemma before_length os1 : length (match os1 with [] => [] | _ => join_opts os1 ++ [COMMA] end) = offset os1.
Proof. destruct os1; [done|]. rewrite length_app. simpl. lia. Qed.

Lemma replace_text os1 o os2 new : good_opt o -> new <> [] -> (length new <= length o)%nat ->
  let text := join_opts (os1 ++ o :: os2) in
  let '(ind, ep) := old_option text (offset os1) new in
  overwrite text ind ep new = join_opts (os1 ++ new :: os2) ++ [0].
Proof.
  intros G Hn Hl text. unfold old_option, text. rewrite drop_offset, strchrnulq_join by done. destruct new as [|c new]; [done|].
  rewrite !join_parts, <- (before_length os1), overwrite_parts by done. by rewrite <- !app_assoc.
Qed.

Lemma remove_text os1 o os2 : good_opt o ->
  let text := join_opts (os1 ++ o :: os2) in
  let '(ind, ep) := old_option text (offset os1) [] in
  overwrite text ind ep [] = join_opts (os1 ++ os2) ++ [0].
Proof.
  intros G text. unfold old_option, text. rewrite drop_offset, strchrnulq_join by done. destruct os2 as [|o' os2].
  - rewrite join_parts, app_nil_r. destruct os1 as [|o1 os1].
    + cbn [offset Nat.pred app]. pose proof (overwrite_parts [] o [] [] (Nat.le_0_l _)) as E. by rewrite app_nil_r in E.
    + unfold offset. cbn [Nat.pred]. rewrite <- app_assoc.
      pose proof (overwrite_parts (join_opts (o1 :: os1)) ([COMMA] ++ o) [] [] (Nat.le_0_l _)) as E. rewrite !app_nil_r in E.
      rewrite length_app in E. cbn [length] in E. rewrite Nat.add_succ_comm. rewrite (app_nil_r (o1 :: os1)). exact E.
  - rewrite join_parts. rewrite <- (before_length os1), <- Nat.add_succ_r.
    pose proof (overwrite_parts (match os1 with [] => [] | _ => join_opts os1 ++ [COMMA] end) (o ++ [COMMA]) (join_opts (o' :: os2)) []
      (Nat.le_0_l _)) as E. rewrite length_app, Nat.add_1_r, <- app_assoc in E. cbn [app] in E |- *. rewrite E.
    destruct os1 as [|o1 os1]; [done|]. rewrite join_app by done. by rewrite <- !app_assoc.
Qed.

Lemma join_no_nul opts : Forall (fun o => 0 ∉ o) opts -> 0 ∉ join_opts opts.
Proof.
  induction 1 as [|o os H _ IH]; [set_solver|]. destruct os as [|o' os]; [done|]. rewrite join_cons by done.
  rewrite not_elem_of_app, not_elem_of_cons. done.
Qed.

Section Replace.
Context {W T : Type} {A : Alloc W} {OO : OptsOs W} (obs : W -> T).
Context (alloc_quiet : forall n w, obs (malloc n w).2 = obs w).
Context (realloc_quiet : forall a b w, obs (op_realloc a b w).2 = obs w).

Lemma gives_xrealloc a b (P : bool -> Prop) : (forall w moved, (op_realloc a b w).1 = Some moved -> P moved) -> gives obs (xrealloc a b) P.
Proof using realloc_quiet.
  intros H w. unfold xrealloc, asks, wpe, bind. pose proof (realloc_quiet a b w) as Q. specialize (H w).
  destruct (op_realloc a b w) as [[moved|] w']; split; auto.
Qed.

Lemma yields_xstrconcat s parts : default [] s ++ mjoin parts <> [] -> yields obs (xstrconcat s parts) (Some (default [] s ++ mjoin parts)).
Proof using alloc_quiet realloc_quiet.
  intros H. unfold xstrconcat. case_if; [destruct (default [] s ++ mjoin parts); [done|simpl in *; lia]|].
  eapply gives_bind; [|by intros [] _; apply yields_value]. destruct s as [s|]; [|by apply yields_xmalloc].
  eapply gives_bind; [by apply (gives_xrealloc _ _ (fun _ => True))|]. intros _ _. by apply (yields_value obs tt).
Qed.

Lemma yields_append_opt s opt : yields obs (append_opt (Some s) (Some opt) None) (Some (s ++ COMMA :: opt)).
Proof using alloc_quiet realloc_quiet.
  unfold append_opt. eapply gives_mono; [apply yields_xstrconcat|]; cbn [default mjoin list_join app];
    [by destruct s|]. intros ? ->. by rewrite app_nil_r.
Qed.

Lemma yields_find_opt opts token : Forall good_opt opts ->
  yields obs (find_opt (Some (join_opts opts)) token) ('(i, v) ← first_match token opts; Some (offset (take i opts), v)).
Proof using alloc_quiet.
  clear realloc_quiet. intros G. unfold find_opt. eapply yields_seq; [by apply yields_new_text|].
  rewrite find_token_join; [apply yields_value|done|]. clear -G. induction G as [|o os Ho _ IH]; [done|].
  destruct Ho as [Ho _]. destruct o as [|c o]; [done|]. destruct os as [|o' os]; [simpl; lia|]. rewrite join_cons, length_app by done. simpl in *. lia.
Qed.

(** The new option is not longer than the one it replaces. *)
Definition fits (token : opt_token) (new : list Z) (opts : list (list Z)) : Prop :=
  forall i v o, first_match token opts = Some (i, v) -> opts !! i = Some o -> (length new <= length o)%nat.

Definition good_instead (token : opt_token) (instead : option (list Z)) (opts : list (list Z)) : Prop :=
  match instead with Some new => good_opt new /\ fits token new opts | None => True end.

Lemma replaced_good token instead opts : Forall good_opt opts -> good_instead token instead opts -> Forall good_opt (replaced token instead opts).
Proof using.
  clear realloc_quiet alloc_quiet. intros G Gi. unfold replaced. destruct (first_match token opts) as [[i v]|], instead as [new|]; try done.
  - apply Forall_insert; [done|]. apply Gi.
  - by apply Forall_delete.
  - apply Forall_app. split; [done|]. constructor; [apply Gi|constructor].
Qed.

Lemma yields_end text buf ind ep instead : overwrite text ind ep instead = buf ++ [0] -> 0 ∉ buf ->
  (instead <> [] -> (length buf <= length text)%nat) -> (forall a b w, b <= a -> (op_realloc a b w).1 <> Some true) ->
  yields obs (let b := overwrite text ind ep instead in
    let* moved := xrealloc (Z.of_nat (length text) + 1) (Z.of_nat (length b)) in
    if moved && negb (bool_decide (instead = [])) then abort
    else if bool_decide (0 ∈ b) then ret (c_string b) else abort) buf.
Proof using realloc_quiet.
  clear alloc_quiet. intros -> Nul Hl Stays. cbv zeta.
  eapply (gives_bind _ _ _ (fun moved => moved && negb (bool_decide (instead = [])) = false)).
  - apply gives_xrealloc. intros w [|] H; [|done]. case_bool_decide as E; [done|]. exfalso. revert H. apply Stays.
    specialize (Hl E). rewrite length_app. simpl. lia.
  - intros moved ->. rewrite bool_decide_eq_true_2 by set_solver. rewrite c_string_app by done. apply yields_value.
Qed.

Lemma parts_length os1 o os2 new : (length new <= length o)%nat -> (length (join_opts (os1 ++ new :: os2)) <= length (join_opts (os1 ++ o :: os2)))%nat.
Proof using. clear. intros H. rewrite !join_parts, !length_app. lia. Qed.

Lemma yields_replace_found os1 o os2 instead : good_opt o ->
  (forall a b w, b <= a -> (op_realloc a b w).1 <> Some true) ->
  (instead <> [] -> (length instead <= length o)%nat) ->
  (forall r, r = os1 ++ match instead with [] => os2 | _ => instead :: os2 end -> 0 ∉ join_opts r) ->
  yields obs (replace_found (join_opts (os1 ++ o :: os2)) (offset os1) instead)
    (join_opts (os1 ++ match instead with [] => os2 | _ => instead :: os2 end)).
Proof using realloc_quiet.
  clear alloc_quiet. intros Go Stays Hl Nul. unfold replace_found. destruct instead as [|c new].
  - pose proof (remove_text os1 o os2 Go) as E. cbv zeta in E. destruct (old_option _ _ _) as [ind ep].
    apply yields_end; [done|by apply Nul|done|done].
  - pose proof (replace_text os1 o os2 (c :: new) Go ltac:(done) (Hl ltac:(done))) as E. cbv zeta in E. destruct (old_option _ _ _) as [ind ep].
    apply yields_end; [done|by apply Nul| |done]. intros _. apply parts_length. by apply Hl.
Qed.

Lemma insert_middle (os1 : list (list Z)) o os2 new : <[length os1 := new]> (os1 ++ o :: os2) = os1 ++ new :: os2.
Proof using. clear. induction os1 as [|x os1 IH]; [done|]. simpl. by rewrite IH. Qed.

Lemma yields_replace_opt opts token instead : opts <> [] -> Forall good_opt opts -> good_instead token instead opts ->
  (forall a b w, b <= a -> (op_realloc a b w).1 <> Some true) ->
  yields obs (replace_opt (Some (join_opts opts)) token instead) (Some (join_opts (replaced token instead opts))).
Proof using alloc_quiet realloc_quiet.
  intros N G Gi Stays. pose proof (replaced_good _ _ _ G Gi) as Gr.
  assert (J : exists c s, join_opts opts = c :: s) by (destruct opts as [|o opts']; [done|]; apply join_nonempty; by inversion G).
  destruct J as (c & s & J). unfold replace_opt. rewrite J. rewrite <- J.
  eapply gives_bind; [by apply yields_find_opt|]. intros ? ->. unfold replaced in *. destruct (first_match token opts) as [[i v]|] eqn:F; cbn [mbind option_bind].
  - destruct (first_match_split _ _ _ _ F) as (os1 & o & os2 & -> & -> & _).
    assert (Go : good_opt o) by (apply Forall_app in G as [_ G]; by inversion G). rewrite take_app_length.
    assert (Nul : forall r, Forall good_opt r -> 0 ∉ join_opts r).
    { intros r Fr. apply join_no_nul. eapply Forall_impl; [exact Fr|]. by intros x (_ & ? & _). }
    assert (Hl : default [] instead <> [] -> (length (default [] instead) <= length o)%nat).
    { destruct instead as [new|]; [|done]. intros _. destruct Gi as [_ Hf]. eapply Hf; [done|]. by rewrite lookup_app_r, Nat.sub_diag. }
    assert (E : (match instead with Some new => <[length os1 := new]> (os1 ++ o :: os2) | None => delete (length os1) (os1 ++ o :: os2) end)
      = os1 ++ match default [] instead with [] => os2 | _ => default [] instead :: os2 end).
    { destruct instead as [new|]; [|by rewrite delete_middle]. rewrite insert_middle. destruct Gi as [(Hn & _) _]. by destruct new. }
    destruct instead as [new|]; rewrite E in *; (eapply gives_bind; [apply yields_replace_found; [done|done|done|]|]).
    1,3: intros r ->; by apply Nul.
    all: intros ? ->; apply yields_value.
  - destruct instead as [new|]; [|by apply yields_value]. rewrite join_app by done. apply yields_append_opt.
Qed.

(** ** Values *)

(** A value that the format prints as it is. *)
Definition storable (token : opt_token) (v : Z) : Prop :=
  match token with
  | Scan_int prefix => prefix = codes "gcpid=" /\ is_count v
  | Scan_ulong prefix => prefix = codes "pp=" /\ 0 <= v < 2 ^ 64
  | Name _ => False
  end.

Lemma strip_app p s : strip_prefix p (p ++ s) = Some s.
Proof using. clear. induction p as [|c p IH]; [by destruct s|]. simpl. by rewrite Z.eqb_refl. Qed.

Lemma digits_sign n : 0 <= n < 2 ^ 64 -> is_digit 10 (char_at (skip_sign (Parser.skip_spaces (print_cno n))).2) = true.
Proof using.
  clear. intros Hn. destruct (dec_digits_head 20 n []) as (d & l & Hd & E); [lia..|]. unfold print_cno. rewrite E.
  destruct (is_digit_dec d Hd) as (H1 & _ & H3). cbn [Parser.skip_spaces]. rewrite H3. unfold skip_sign. by rewrite digit_no_sign.
Qed.

Lemma scan_print token v : storable token v -> scan_opt token (print_opt token v) = Some v.
Proof using.
  clear. destruct token as [prefix|prefix|name]; cbn [storable scan_opt print_opt]; [intros [_ Hv]|intros [_ Hv]|done]; rewrite strip_app; cbn [mbind option_bind].
  - unfold is_count in Hv. replace (i32 v) with v by (unfold i32; rewrite Z.mod_small by lia; lia). rewrite print_int_nonneg, digits_sign by lia.
    rewrite <- (app_nil_r (print_cno v)), atol_print by done. f_equal. unfold i32. rewrite Z.mod_small by lia. lia.
  - rewrite u64_id by (unfold is_u64; lia). destruct (strtoull_print v [] Hv) as (E & d & l & _ & Hl); [done|].
    rewrite app_nil_r in *. rewrite E. unfold same_ptr. by rewrite Hl.
Qed.

Lemma quote_state_plain o q : Forall (fun c => c <> QUOTE /\ c <> COMMA) o -> quote_state o q = Some q.
Proof using.
  clear. induction 1 as [|c o [Hq Hc] _ IH]; [done|]. cbn. rewrite (proj2 (Z.eqb_neq c QUOTE)), (proj2 (Z.eqb_neq c COMMA)) by done.
  by rewrite andb_false_r.
Qed.

Lemma plain_good o : o <> [] -> Forall (fun c => c <> 0 /\ c <> QUOTE /\ c <> COMMA) o -> good_opt o.
Proof using.
  clear. intros Hn F. split_and!; [done| |].
  - intros H. rewrite Forall_forall in F. by destruct (F 0 H).
  - apply quote_state_plain. eapply Forall_impl; [exact F|]. simpl. tauto.
Qed.

Lemma print_good token v : storable token v -> good_opt (print_opt token v).
Proof using.
  clear. assert (D : forall n, 0 <= n -> Forall (fun c => c <> 0 /\ c <> QUOTE /\ c <> COMMA) (print_cno n)).
  { intros n Hn. eapply Forall_impl; [by apply print_cno_digits|]. unfold QUOTE, COMMA. simpl. lia. }
  destruct token as [prefix|prefix|name]; cbn [storable print_opt]; [intros [-> Hv]|intros [-> Hv]|done]; (apply plain_good; [done|]);
    (apply Forall_app; split; [by repeat constructor|]).
  - unfold is_count in Hv. replace (i32 v) with v by (unfold i32; rewrite Z.mod_small by lia; lia). rewrite print_int_nonneg by lia. apply D. lia.
  - rewrite u64_id by (unfold is_u64; lia). apply D. lia.
Qed.

Lemma first_match_app token os1 o os2 v : first_match token os1 = None -> scan_opt token o = Some v ->
  first_match token (os1 ++ o :: os2) = Some (length os1, v).
Proof using.
  clear. intros H1 H2. induction os1 as [|x os1 IH]; cbn in *; [by rewrite H2|]. destruct (scan_opt token x); [done|].
  destruct (first_match token os1) as [[]|]; [done|]. by rewrite IH.
Qed.

Lemma first_match_before token opts i v : first_match token opts = Some (i, v) -> first_match token (take i opts) = None.
Proof using.
  clear. revert i; induction opts as [|o opts IH]; intros i; [done|]. cbn. destruct (scan_opt token o) as [u|] eqn:E.
  - by intros [= <- _].
  - destruct (first_match token opts) as [[j u]|]; [|done]. cbn. intros [= <- ->]. cbn. by rewrite E, (IH j).
Qed.

Lemma first_match_replaced token v opts : storable token v ->
  snd <$> first_match token (replaced token (Some (print_opt token v)) opts) = Some v.
Proof using.
  clear. intros S1. pose proof (scan_print token v S1) as E. unfold replaced. destruct (first_match token opts) as [[i u]|] eqn:F.
  - pose proof (first_match_before _ _ _ _ F) as B. destruct (first_match_split _ _ _ _ F) as (os1 & o & os2 & -> & -> & _).
    rewrite take_app_length in B. rewrite insert_middle. by rewrite (first_match_app _ _ _ _ v).
  - by rewrite (first_match_app _ _ _ _ v).
Qed.

(** C26: a value that is stored among the options of the mount table - the
    process ID of the daemon, or the protection period - is the one that a
    later search finds, and every other option is still there, in its place
    and unchanged; the old value is replaced where it was, or the new one is
    added at the end.  This holds as long as the new text is not longer than
    the old one, and the block stays in its place then. *)
Theorem option_stored opts token v : opts <> [] -> Forall good_opt opts -> storable token v ->
  fits token (print_opt token v) opts -> (forall a b w, b <= a -> (op_realloc a b w).1 <> Some true) ->
  gives obs (let* s := replace_drop_opt (Some (join_opts opts)) token v true in
             let* r := find_opt s token in
             ret (s, r))
    (fun '(s, r) => s = Some (join_opts (replaced token (Some (print_opt token v)) opts)) /\ snd <$> r = Some v).
Proof using alloc_quiet realloc_quiet.
  intros N G S1 F Stays. pose proof (print_good token v S1) as Gp.
  assert (Gi : good_instead token (Some (print_opt token v)) opts) by (by split).
  assert (Gr : Forall good_opt (replaced token (Some (print_opt token v)) opts)) by (by apply replaced_good).
  unfold replace_drop_opt, replace_optval. case_if; cycle 1.
  { exfalso. destruct token as [prefix|prefix|name]; cbn [storable print_opt] in *; [| |done]; destruct S1 as [-> Hv]; rewrite length_app in *.
    - unfold is_count in Hv. replace (i32 v) with v in * by (unfold i32; rewrite Z.mod_small by lia; lia). rewrite print_int_nonneg in * by lia.
      pose proof (print_cno_length v). simpl in *. lia.
    - pose proof (print_cno_length (u64 v)). simpl in *. lia. }
  eapply gives_bind; [by apply yields_replace_opt|]. intros ? ->. eapply gives_bind; [by apply yields_find_opt|]. intros ? ->.
  apply gives_ret. split; [done|]. pose proof (first_match_replaced token v opts S1) as M.
  destruct (first_match token _) as [[i u]|]; [|done]. cbn in *. congruence.
Qed.
End Replace.
