(* ===== verification/Mount.v ===== *)
(** * Mounting: sbin/mount/mount.nilfs2.c, sundries.c

    The program checks the mount table, stops the cleaner daemon for a
    remount, mounts, starts the daemon and updates the table.  The state is
    that of the table ([Fstab]).  Messages, signals and [umask] are left out. *)

From Stdlib Require Import String.
From S2P Require Import Prelude Vector Hoare Ondisk Kernel Nilfs Parser Tune Float64 Cldconfig Realpath Cleanerd CleanerExec Ismounted Mounts Mntent Fstab MountOpts.

Definition fstype : list Z := codes "nilfs2".

(** [mp_rofs]: the answer of BLKROGET; [mp_suid]: whether the user is not
    the effective one; [mp_mount] takes the device, the directory, the type
    and the data, NULL or a text. *)
Class MountOs (W : Type) := {
  mp_stack : nat -> list Z;
  mp_rofs : Z -> W -> (bool + Z) * W;
  mp_suid : W -> bool;
  mp_mount : list Z -> list Z -> option (list Z) -> Z -> option (list Z) -> W -> (unit + Z) * W;
}.

(** Not an exit status: the child has become the daemon. *)
Definition DAEMON : Z := -1.

(** The options of the command line. *)
Record mount_options := mk_mopts {
  mo_fstype : option (list Z); mo_opts : option (list Z); mo_fake : bool; mo_nomtab : bool; mo_readonly : bool; mo_readwrite : bool;
  mo_version : bool;
}.

Inductive remount_type := NORMAL_MOUNT | RW2RO_REMOUNT | RW2RW_REMOUNT.

Record nilfs_mount_info := mk_minfo {
  mi_optstr : option (list Z); mi_gcpid : Z; mi_type : remount_type; mi_mounted : bool; mi_protperiod : Z; mi_nogc : bool;
}.

Section Paths.
Context {W : Type} {A : Alloc W} {P : PathOs W} {MO : MtabOs W} {MP : MountOs W}.
Abbreviation MM := (M (mtab_state W)).

Definition special_names : list (list Z) := [codes "none"; codes "proc"; codes "devpts"].

Definition canonicalize (path : list Z) : MM (list Z) :=
  if bool_decide (path ∈ special_names) then in_world (new_text path)
  else
    let* r := attempt (in_world (myrealpath (PATH_MAX + 1) path (mp_stack (Z.to_nat (PATH_MAX + 2))))) in
    match r with
    | inl canonical => in_world (new_text (c_string canonical))
    | inr _ => in_world (new_text path)
    end.

(** NULL stays NULL. *)
Definition canonicalize_opt (path : option (list Z)) : MM (option (list Z)) :=
  match path with
  | None => ret None
  | Some path => let* canonical := canonicalize path in ret (Some canonical)
  end.
End Paths.

Section Mount.
Context {W : Type} {A : Alloc W} {P : PathOs W} {X : ExecOs W} {MO : MtabOs W} {OO : OptsOs W} {MP : MountOs W}.
Abbreviation MM := (M (mtab_state W)).
Context (fuel : nat).

Definition find_option (opts : list Z) (token : opt_token) : MM (option Z) :=
  let* r := in_world (find_opt (Some opts) token) in ret (snd <$> r).

(** The options of the table of the program. *)
Definition launch_cleanerd (device mntdir : list Z) (protperiod : Z) : MM (option Z) :=
  let* r := attempt (in_world (nilfs_launch_cleanerd device mntdir protperiod)) in
  match r with
  | inl (Parent pid) => ret (Some pid)
  | inl (Became _ _) => exit_with DAEMON
  | inr _ => ret None
  end.

(** ** Looking into the table *)

(** The loop over the entries of a device, from the last one on. *)
Fixpoint rw_mount_loop (n : nat) (fsname : list Z) (mc : option nat) : MM (option nat) :=
  match n, mc with
  | O, _ => out_of_fuel
  | _, None => ret None
  | Datatypes.S n, Some p =>
    let* e := entry_at p in
    let* rw := (if bool_decide (mt_type e = fstype) then find_option (mt_opts e) (Name (codes "rw")) else ret None) in
    match rw with
    | Some _ => ret (Some p)
    | None =>
      let* mc := getmntdevbackward fsname mc in
      rw_mount_loop n fsname mc
    end
  end.

Definition table_turns : MM nat := let* c := mtab_head in ret (TURNS c).

Definition find_rw_mount (device : list Z) : MM (option nat) :=
  let* fsname := canonicalize device in
  let* mc := getmntdevbackward fsname None in
  let* n := table_turns in
  rw_mount_loop n fsname mc.

Fixpoint mounted_loop (n : nat) (fsname : option (list Z)) (dir : list Z) (mc : option nat) : MM bool :=
  match n, mc with
  | O, _ => out_of_fuel
  | _, None => ret false
  | Datatypes.S n, Some p =>
    let* e := entry_at p in
    if bool_decide (mt_type e = fstype) && match fsname with None => true | Some f => bool_decide (mt_fsname e = f) end then ret true
    else
      let* mc := getmntdirbackward dir mc in
      mounted_loop n fsname dir mc
  end.

Definition mounted (spec : option (list Z)) (node : list Z) : MM bool :=
  let* fsname := canonicalize_opt spec in
  let* dir := canonicalize node in
  let* mc := getmntdirbackward dir None in
  let* n := table_turns in
  mounted_loop n fsname dir mc.

(** ** The entry *)

Definition fix_extra_opts_string (exopts : option (list Z)) (gcpid protection_period : Z) : MM (option (list Z)) :=
  let* s := in_world (xstrdup exopts) in
  let* s := in_world (replace_drop_opt s gcpid_opt_fmt gcpid (negb (gcpid =? 0))) in
  in_world (replace_drop_opt s pp_opt_fmt protection_period (negb (protection_period =? ULONG_MAX))).

(** A new entry goes to the end of the file. *)
Definition append_entry (e : my_mntent) : MM unit :=
  lock_mtab fuel ;;
  let* mfp := attempt (in_world (my_setmntent_write _PATH_MOUNTED (codes "a+"))) in
  match mfp with
  | inl fp => attempt (in_world (my_addmntent fp e)) ;; in_world (my_endmntent fp)
  | inr _ => ret tt
  end ;;
  unlock_mtab.

(** NULL options are undefined when the entry is written. *)
Definition update_mtab_entry (spec node type : list Z) (opts : option (list Z)) (freq pass : Z) (addnew : bool) : MM unit :=
  let* fsname := canonicalize spec in
  let* dir := canonicalize node in
  let* type := in_world (new_text type) in
  let* opts := in_world (xstrdup opts) in
  let* opts := of_option opts in
  let mnt := mk_mnt fsname dir type opts freq pass in
  if addnew then append_entry mnt else update_mtab fuel dir (Some mnt).

Definition check_remount_dir (mc : nat) (mntdir : list Z) : MM bool :=
  let* dir := canonicalize mntdir in
  let* e := entry_at mc in
  ret (bool_decide (dir = mt_dir e)).

Definition check_mtab (nomtab : bool) : MM bool := if nomtab then ret false else mtab_is_writable.

(** ** Mounting *)

Definition set_flag (flags f : Z) : bool := negb (Z.land flags f =? 0).

(** The remount of a file system that the daemon cleans: it is stopped. *)
Definition prepare_remount (device mntdir : list Z) (flags : Z) (mc : nat) (mi : nilfs_mount_info) : MM (option nilfs_mount_info) :=
  let type := if set_flag flags MS_RDONLY then RW2RO_REMOUNT else RW2RW_REMOUNT in
  let* same := check_remount_dir mc mntdir in
  if negb same then ret None
  else
    let* e := entry_at mc in
    let* pid := find_option (mt_opts e) gcpid_opt_fmt in
    let* stopped := (match pid with
                     | None => ret (inl tt)
                     | Some pid => attempt (in_world (nilfs_shutdown_cleanerd fuel pid))
                     end) in
    match stopped with
    | inr _ => ret None
    | inl _ =>
      let* optstr := in_world (new_text (mt_opts e)) in
      ret (Some (mk_minfo (Some optstr) (default 0 pid) type (mi_mounted mi) (mi_protperiod mi) (mi_nogc mi)))
    end.

(** [None] for a failure. *)
Definition prepare_mount (device mntdir : list Z) (flags : Z) : MM (option nilfs_mount_info) :=
  let* already := (if set_flag flags MS_REMOUNT then ret false else mounted None mntdir) in
  if (already : bool) then ret None
  else
    let* is_mounted := mounted (Some device) mntdir in
    let mi := mk_minfo None 0 NORMAL_MOUNT is_mounted ULONG_MAX false in
    if set_flag flags MS_BIND then ret (Some mi)
    else
      let* mc := find_rw_mount device in
      match mc with
      | None => ret (Some mi)
      | Some mc =>
        let* e := entry_at mc in
        let* pp := find_option (mt_opts e) pp_opt_fmt in
        let* nogc := find_option (mt_opts e) nogc_opt_fmt in
        let mi := mk_minfo None 0 NORMAL_MOUNT is_mounted (default ULONG_MAX pp) (match nogc with Some _ => true | None => false end) in
        if set_flag flags MS_REMOUNT then prepare_remount device mntdir flags mc mi
        else if set_flag flags MS_RDONLY then ret (Some mi)
        else ret None
      end.

(** After a failed remount the daemon is started again, if the table can take
    its process ID. *)
Definition restart_cleanerd (device mntdir : list Z) (nomtab : bool) (mi : nilfs_mount_info) : MM nilfs_mount_info :=
  let* mtab_ok := check_mtab nomtab in
  if negb (mi_nogc mi) && mtab_ok then
    let* pid := launch_cleanerd device mntdir (mi_protperiod mi) in
    match pid with
    | Some pid =>
      let* optstr := in_world (replace_drop_opt (mi_optstr mi) gcpid_opt_fmt pid (negb (pid =? 0))) in
      update_mtab_entry device mntdir fstype optstr 0 0 (negb (mi_mounted mi)) ;;
      ret (mk_minfo optstr pid (mi_type mi) (mi_mounted mi) (mi_protperiod mi) (mi_nogc mi))
    | None => ret mi
    end
  else ret mi.

(** Whether the file system is mounted. *)
Definition do_mount_one (device mntdir : list Z) (nomtab : bool) (extra_opts : option (list Z)) (flags : Z) (mi : nilfs_mount_info)
  : MM (bool * nilfs_mount_info) :=
  let* exopts := in_world (xstrdup extra_opts) in
  let* exopts := in_world (replace_opt exopts pp_opt_fmt None) in
  let* exopts := in_world (replace_opt exopts nogc_opt_fmt None) in
  let* res := mtry (mp_mount device mntdir (Some fstype) (Z.land flags (Z.lnot MS_NOSYS)) exopts) in
  match res, mi_type mi with
  | inl _, _ => ret (true, mi)
  | inr _, NORMAL_MOUNT => ret (false, mi)
  | inr _, _ => let* mi := restart_cleanerd device mntdir nomtab mi in ret (false, mi)
  end.

Definition update_mount_state (device mntdir : list Z) (nomtab : bool) (extra_opts : option (list Z)) (flags : Z) (vals : list (option (list Z)))
    (mi : nilfs_mount_info) : MM unit :=
  let* nogc := in_world (find_opt extra_opts nogc_opt_fmt) in
  let rungc := match nogc with None => true | Some _ => false end && negb (set_flag flags MS_RDONLY) && negb (set_flag flags MS_BIND) in
  let* (pid, pp) :=
    (if rungc then
       let* pp := in_world (find_opt extra_opts pp_opt_fmt) in
       let pp := match pp with Some (_, pp) => pp | None => mi_protperiod mi end in
       let* pid := launch_cleanerd device mntdir pp in
       ret (default 0 pid, pp)
     else ret (0, ULONG_MAX)) in
  let* ok := check_mtab nomtab in
  if negb ok then ret tt
  else
    let* exopts := fix_extra_opts_string extra_opts pid pp in
    let* optstr := in_world (fix_opts_string (Z.lor (Z.land flags (Z.lnot MS_NOMTAB)) MS_NETDEV) exopts None vals) in
    update_mtab_entry device mntdir fstype optstr 0 0 (negb (mi_mounted mi)).

(** The exit status. *)
Definition mount_one (device mntdir : list Z) (o : mount_options) (flags : Z) (extra_opts : option (list Z)) (vals : list (option (list Z)))
  : MM Z :=
  let* mi := prepare_mount device mntdir flags in
  match mi with
  | None => ret EX_FAIL
  | Some mi =>
    let* (ok, mi) := (if mo_fake o then ret (true, mi) else do_mount_one device mntdir (mo_nomtab o) extra_opts flags mi) in
    if (ok : bool) then update_mount_state device mntdir (mo_nomtab o) extra_opts flags vals mi ;; ret 0
    else ret EX_FAIL
  end.

(** ** The program *)

(** Whether the device could be asked; the answer itself is not used. *)
Definition device_is_readonly (device : list Z) : MM bool :=
  let* fd := mtry (mb_open device O_RDONLY) in
  match fd with
  | inr _ => ret false
  | inl fd =>
    let* ro := mtry (mp_rofs fd) in
    match ro with
    | inr _ => ret false
    | inl _ => mdo (mb_close fd) ;; ret true
    end
  end.

Fixpoint parse_options (argv : list (Z * list Z)) (o : mount_options) : MM mount_options :=
  match argv with
  | [] => ret o
  | (c, optarg) :: argv =>
    let* opts := (if c =? 111 (* o *) then in_world (append_opt (mo_opts o) (Some optarg) None) else ret (mo_opts o)) in
    parse_options argv (mk_mopts (if c =? 116 (* t *) then Some optarg else mo_fstype o) opts
      ((c =? 102 (* f *)) || mo_fake o) ((c =? 110 (* n *)) || mo_nomtab o) ((c =? 114 (* r *)) || mo_readonly o)
      ((c =? 119 (* w *)) || mo_readwrite o) ((c =? 86 (* V *)) || mo_version o))
  end.

(** The handler of [atexit] runs when the program ends. *)
Definition exiting (m : MM Z) : MM unit :=
  fun s =>
    match m s with
    | (Ok status, s) | (Exit status, s) => bind unlock_mtab (fun _ => exit_with status) s
    | (Err e, s) => (Err e, s)
    | (Abort, s) => (Abort, s)
    | (NoFuel, s) => (NoFuel, s)
    end.

(** The checks of the arguments. *)
Definition check_arguments (o : mount_options) (device : list Z) (flags : Z) : MM unit :=
  (match mo_fstype o with
   | Some t => match strip_prefix fstype t with Some _ => ret tt | None => die EX_USAGE end
   | None => ret tt
   end) ;;
  let* s := get_state in
  if mp_suid (ms_world s) then die EX_USAGE
  else
    let* missing := (if mo_nomtab o then ret false else mtab_does_not_exist) in
    if (missing : bool) then die EX_USAGE
    else if set_flag flags MS_RDONLY || set_flag flags MS_BIND then ret tt
    else
      let* ok := device_is_readonly device in
      if (ok : bool) then ret tt else die EX_USAGE.

Definition mount_main (argv : list (Z * list Z)) (args : list (list Z)) : MM unit :=
  let* o := parse_options argv (mk_mopts None None false false false false false) in
  if mo_version o then exit_with EXIT_SUCCESS
  else
    let* (flags, extra_opts, vals) := in_world (parse_opts (mo_readonly o) (mo_readwrite o) (mo_opts o)) in
    match args with
    | device :: mntdir :: _ =>
      check_arguments o device flags ;;
      exiting (mount_one device mntdir o flags extra_opts vals)
    | _ => die EX_USAGE
    end.
End Mount.
