(* ===== verification/Umount.v ===== *)
(** * Unmounting: sbin/mount/umount.nilfs2.c

    The program stops the cleaner daemon, unmounts, starts the daemon again
    if the file system is busy, and updates the mount table.  The table that
    was read first is used for every directory of the command line. *)

From Stdlib Require Import String.
From S2P Require Import Prelude Vector Hoare Ondisk Kernel Nilfs Parser Tune Float64 Cldconfig Realpath Cleanerd CleanerExec Ismounted Mounts Mntent Fstab MountOpts Mount.

Definition MS_MGC_VAL : Z := 0xC0ED0000.
Definition EBUSY : Z := 16.
Definition LOOP_CLR_FD : Z := 0x4C01.

Class UmountOs (W : Type) := {
  up_umount : list Z -> W -> (unit + Z) * W;
  up_loop_clear : Z -> W -> (unit + Z) * W;
}.

Record umount_options := mk_uopts { uo_nomtab : bool; uo_remount : bool; uo_version : bool }.

(** How [umount_one] goes on. *)
Inductive umount_result := Unmounted | Failed (err : Z).

#[export] Instance umount_result_eq_dec : EqDecision umount_result.
Proof. solve_decision. Defined.

Section Umount.
Context {W : Type} {A : Alloc W} {P : PathOs W} {X : ExecOs W} {MO : MtabOs W} {OO : OptsOs W} {MP : MountOs W} {UP : UmountOs W}.
Abbreviation MM := (M (mtab_state W)).
Context (fuel : nat).

Definition del_loop (device : list Z) : MM unit :=
  let* fd := mtry (mb_open device O_RDONLY) in
  match fd with
  | inr _ => ret tt
  | inl fd =>
    let* r := mtry (up_loop_clear fd) in
    match r with
    | inr _ => ret tt
    | inl _ => mdo (mb_close fd)
    end
  end.

Definition read_only_mount_point (e : my_mntent) : MM bool :=
  let* r := find_option (mt_opts e) (Name (codes "ro")) in ret (match r with Some _ => true | None => false end).

Definition get_mtab_gcpid (e : my_mntent) : MM Z := let* pid := find_option (mt_opts e) gcpid_opt_fmt in ret (default 0 pid).

Definition change_mtab_opt (nomtab : bool) (spec node type opts : list Z) : MM unit :=
  let* fsname := canonicalize spec in
  let* dir := canonicalize node in
  let* type := in_world (new_text type) in
  if nomtab then ret tt else update_mtab fuel node (Some (mk_mnt fsname dir type opts 0 0)).

(** The daemon of the entry, which is stopped; whether it was alive. *)
Definition stop_cleanerd (e : my_mntent) : MM (Z * bool) :=
  let* ro := read_only_mount_point e in
  if ro then ret (0, false)
  else
    let* pid := get_mtab_gcpid e in
    if pid =? 0 then ret (pid, false)
    else
      let* alive := in_world (nilfs_ping_cleanerd pid) in
      attempt (in_world (nilfs_shutdown_cleanerd fuel pid)) ;;
      ret (pid, alive).

(** The daemon is started again for a file system that stays mounted;
    whether that succeeded. *)
Definition restart_umount (nomtab : bool) (spec node type opts : list Z) (e : my_mntent) : MM bool :=
  let* pp := find_option (mt_opts e) pp_opt_fmt in
  let* pid := launch_cleanerd spec node (default ULONG_MAX pp) in
  match pid with
  | None => ret false
  | Some pid =>
    let* s := in_world (new_text opts) in
    let* s := in_world (replace_drop_opt (Some s) gcpid_opt_fmt pid (negb (pid =? 0))) in
    let* s := of_option s in
    change_mtab_opt nomtab spec node type s ;;
    ret true
  end.

(** What is done about a busy file system: [Some] result ends the umount. *)
Definition busy (o : umount_options) (nomtab : bool) (spec node type opts : list Z) (mc : option my_mntent) (pid : Z) (alive : bool)
  : MM (option umount_result) :=
  if uo_remount o then
    let* res := mtry (mp_mount spec node None (lor_all [MS_MGC_VAL; MS_REMOUNT; MS_RDONLY]) None) in
    match res with
    | inl _ =>
      let* ro := in_world (new_text (codes "ro")) in
      change_mtab_opt nomtab spec node type ro ;;
      ret (Some Unmounted)
    | inr _ => ret None
    end
  else
    let* again := (if alive then in_world (nilfs_ping_cleanerd pid) else ret true) in
    if (again : bool) then ret None
    else
      let* e := of_option mc in
      let* ok := restart_umount nomtab spec node type opts e in
      ret (if (ok : bool) then Some (Failed EBUSY) else None).

(** The loop device of an entry. *)
Definition loop_option (opts : list Z) : option (list Z) :=
  head (omap (strip_prefix (codes "loop=")) (strtok opts)).

(** What is left after the umount: the loop device, and the table. *)
Definition finish_umount (nomtab : bool) (spec node : list Z) (mc : option my_mntent) (res : umount_result) : MM unit :=
  let* (loopdev, node) :=
    (match res, mc with
     | Failed _, _ => ret (None, node)
     | Unmounted, Some e =>
       if bool_decide (mt_type e = codes "loop") then ret (Some spec, node)
       else
         let* optl := in_world (new_text (mt_opts e)) in
         ret (loop_option optl, node)
     | Unmounted, None =>
       let* mc := getmntoptfile spec in
       match mc with
       | None => ret (None, node)
       | Some p => let* e := entry_at p in ret (None, mt_dir e)
       end
     end) in
  (match loopdev with Some loopdev => del_loop loopdev | None => ret tt end) ;;
  let gone := match res with Unmounted => true | Failed err => (err =? EINVAL) || (err =? ENOENT) end in
  if negb nomtab && gone then update_mtab fuel node None else ret tt.

Definition exit_value (res : umount_result) : Z := match res with Unmounted => 0 | Failed _ => 1 end.

(** The exit value, and whether the table is left alone from now on. *)
Definition umount_one (o : umount_options) (nomtab : bool) (spec node type opts : list Z) (mc : option my_mntent) : MM (Z * bool) :=
  let nomtab := nomtab || bool_decide (node = codes "/") || bool_decide (node = codes "root") in
  let* (pid, alive) := (match mc with Some e => stop_cleanerd e | None => ret (0, false) end) in
  let* r := mtry (up_umount node) in
  let res := match r with inl _ => Unmounted | inr err => Failed err end in
  let* ended := (if bool_decide (res = Failed EBUSY) then busy o nomtab spec node type opts mc pid alive else ret None) in
  match ended with
  | Some res => ret (exit_value res, nomtab)
  | None =>
    finish_umount nomtab spec node mc res ;;
    ret (exit_value res, nomtab)
  end.

Definition umount_dir (o : umount_options) (nomtab : bool) (arg : list Z) : MM (Z * bool) :=
  if bool_decide (arg = []) then die EX_USAGE
  else
    let* mntdir := canonicalize arg in
    let* mc := getmntdirbackward mntdir None in
    match mc with
    | None => umount_one o nomtab arg mntdir fstype arg None
    | Some p =>
      let* e := entry_at p in
      match strip_prefix fstype (mt_type e) with
      | None => die EX_USAGE
      | Some _ => umount_one o nomtab (mt_fsname e) (mt_dir e) (mt_type e) (mt_opts e) (Some e)
      end
    end.

(** The sum of the exit values. *)
Fixpoint umount_all (o : umount_options) (nomtab : bool) (args : list (list Z)) (sum : Z) : MM Z :=
  match args with
  | [] => ret sum
  | arg :: args =>
    let* (r, nomtab) := umount_dir o nomtab arg in
    umount_all o nomtab args (sum + r)
  end.

Fixpoint umount_parse_options (argv : list Z) (o : umount_options) : umount_options :=
  match argv with
  | [] => o
  | c :: argv =>
    umount_parse_options argv
      (mk_uopts ((c =? 110 (* n *)) || uo_nomtab o) ((c =? 114 (* r *)) || uo_remount o) ((c =? 86 (* V *)) || uo_version o))
  end.

Definition umount_main (argv : list Z) (args : list (list Z)) : MM unit :=
  let o := umount_parse_options argv (mk_uopts false false false) in
  if uo_version o then exit_with EXIT_SUCCESS
  else
    let* s := get_state in
    if mp_suid (ms_world s) then die EX_USAGE
    else
      match args with
      | [] => die EX_USAGE
      | _ => exiting (umount_all o (uo_nomtab o) args 0)
      end.
End Umount.
