(* ===== verification/MountSpec.v ===== *)
(** * Mounting: proofs

    Looking into the mount table finds the entries it should, and a file
    system that is mounted for writing is not mounted for writing again. *)

From Stdlib Require Import String.
From stdpp Require Import gmap.
From S2P Require Import Prelude Vector Hoare Ondisk Kernel Nilfs Parser Tune Float64 Cldconfig Realpath Cleanerd CleanerExec Ismounted Mounts Mntent Fstab FstabSpec MountOpts MountOptsSpec Mount.

Section Looking.
Context {W T : Type} {A : Alloc W} {P : PathOs W} {X : ExecOs W} {MO : MtabOs W} {OO : OptsOs W} {MP : MountOs W} (obs : W -> T).
Context (alloc_quiet : forall n w, obs (malloc n w).2 = obs w).
Abbreviation state := (mtab_state W).

(** [s] with another world that looks the same. *)
Definition same (s s' : state) : Prop :=
  obs (ms_world s') = obs (ms_world s) /\ ms_info s' = ms_info s /\ ms_table s' = ms_table s /\ ms_created s' = ms_created s /\ ms_fd s' = ms_fd s.

Lemma same_refl s : same s s.
Proof using. by split_and!. Qed.

Lemma same_trans s1 s2 s3 : same s1 s2 -> same s2 s3 -> same s1 s3.
Proof using. unfold same. intros (? & ? & ? & ? & ?) (? & ? & ? & ? & ?). split_and!; congruence. Qed.

(** [m] gives a value with the property and changes nothing, unless memory
    runs out. *)
Definition looks {V} (m : M state V) (Q : V -> Prop) (s : state) : Prop :=
  wpe m (fun a s' => Q a /\ same s s') (fun _ _ => False) (fun c s' => c = EX_SYSERR /\ same s s') s.

Lemma looks_ret {V} (v : V) (Q : V -> Prop) s : Q v -> looks (ret v) Q s.
Proof using. intros H. apply wpe_ret. split; [done|apply same_refl]. Qed.

Lemma looks_bind {V V'} (m : M state V) (k : V -> M state V') Q R s :
  looks m Q s -> (forall v s', Q v -> same s s' -> looks (k v) R s') -> looks (bind m k) R s.
Proof using.
  intros Hm Hk. eapply wpe_seq; [exact Hm|]. cbv beta. intros v s1 [Hv Hs].
  eapply wpe_mono; [by apply (Hk v s1)|..]; cbv beta; [|done|]; intros ? s2 [? ?]; (split; [done|by eapply same_trans]).
Qed.

Lemma looks_mono {V} (m : M state V) Q R s : looks m Q s -> (forall v, Q v -> R v) -> looks m R s.
Proof using. intros Hm H. eapply wpe_mono; [exact Hm|..]; cbv beta; [|done|done]. intros v s' [Hv ?]. split; [by apply H|done]. Qed.

Lemma looks_gives {V} (m : M W V) Q s : gives obs m Q -> looks (in_world m) Q s.
Proof using.
  intros G. unfold looks, wpe, in_world. specialize (G (ms_world s)). unfold wpe in G. destruct (m (ms_world s)) as [[] w]; try done.
  - destruct G as [HQ E]. split; [done|]. by split_and!.
  - destruct G as [HQ E]. split; [done|]. by split_and!.
Qed.

(** The canonical name of a path, in a system that looks like [t]. *)
Definition stands_for (t : T) (path name : list Z) : Prop :=
  forall w, obs w = t -> exists r w', attempt (myrealpath (PATH_MAX + 1) path (mp_stack (Z.to_nat (PATH_MAX + 2)))) w = (Ok r, w') /\ obs w' = obs w /\
    name = (if bool_decide (path ∈ special_names) then path else match r with inl buf => c_string buf | inr _ => path end).

Lemma stands_same path name s s' : stands_for (obs (ms_world s)) path name -> same s s' -> stands_for (obs (ms_world s')) path name.
Proof using. intros H [-> _]. done. Qed.

Lemma looks_canonicalize path name s : stands_for (obs (ms_world s)) path name -> looks (canonicalize path) (fun r => r = name) s.
Proof using alloc_quiet.
  intros N. unfold canonicalize. destruct (N (ms_world s) eq_refl) as (r & w & E & Eo & ->).
  destruct (bool_decide (path ∈ special_names)); [by apply looks_gives, yields_new_text|].
  apply (looks_bind _ _ (fun r' => r' = r)).
  - unfold looks, wpe, attempt, in_world in *. destruct (myrealpath _ _ _ (ms_world s)) as [[] w1]; try done.
    + injection E as <- <-. split; [done|]. by split_and!.
    + injection E as <- <-. split; [done|]. by split_and!.
  - intros ? s1 -> _. destruct r as [buf|e]; by apply looks_gives, yields_new_text.
Qed.

(** ** Searching a table that was read *)

Context (c : mntentchn) (l : named) (C : chain_of c l).

Definition has_table (s : state) : Prop := ms_table s = Some c.

Lemma same_table s s' : has_table s -> same s s' -> has_table s'.
Proof using. unfold has_table. intros H (_ & _ & -> & _). done. Qed.

Lemma looks_head s : has_table s -> looks mtab_head (fun c' => c' = c) s.
Proof using. intros H. unfold mtab_head, looks. apply wpe_bind, wpe_gets. rewrite H. apply wpe_ret. split; [done|apply same_refl]. Qed.

Lemma looks_load p n s : ch_nodes c !! p = Some n -> looks (in_world (load c p)) (fun n' => n' = n) s.
Proof using. intros H. apply looks_gives. unfold load. rewrite H. apply (yields_value obs). Qed.

(** The node at a place of the list. *)
Lemma node_at l1 a e l2 : l = l1 ++ (a, e) :: l2 ->
  ch_nodes c !! a = Some (mk_node (Some (first_of l2 HEAD)) (Some (last_of HEAD l1)) e).
Proof using C. intros E. destruct C as [_ _ S1 _]. rewrite E in S1. apply seg_app in S1 as [_ [Sa _]]. done. Qed.

Lemma looks_entry l1 a e l2 s : l = l1 ++ (a, e) :: l2 -> has_table s -> looks (entry_at a) (fun e' => e' = e) s.
Proof using C.
  intros E H. unfold entry_at. eapply looks_bind; [by apply looks_head|]. intros ? s1 -> _.
  eapply looks_bind; [eapply looks_load, node_at, E|]. intros ? s2 -> _. by apply looks_ret.
Qed.

Lemma looks_search wanted s : has_table s -> looks (from_node true None wanted) (found l wanted) s.
Proof using C.
  intros H. unfold from_node. eapply looks_bind; [by apply looks_head|]. intros ? s1 -> _.
  destruct (co_head c l C) as (n & p & h & Hh & Hok). cbn [default]. eapply looks_bind; [by eapply looks_load|]. intros ? s2 -> _.
  apply looks_gives. by apply (gives_find_backward obs c l wanted (mk_node n p h)).
Qed.

Lemma looks_search_from l1 a e l2 wanted s : l = l1 ++ (a, e) :: l2 -> has_table s ->
  looks (from_node true (Some a) wanted) (found l1 wanted) s.
Proof using C.
  intros E H. pose proof (chain_length c l C) as Hl. unfold from_node. eapply looks_bind; [by apply looks_head|]. intros ? s1 -> _.
  cbn [default]. eapply looks_bind; [eapply looks_load, node_at, E|]. intros ? s2 -> _. apply looks_gives. cbn [nd_prev].
  destruct C as [N _ S1 _]. rewrite E in *. apply seg_app in S1 as [S1 _]. rewrite length_app in Hl. simpl in Hl.
  rewrite fmap_app in N. apply (NoDup_app (HEAD :: l1.*1)) in N as [N _].
  pose proof (find_backward_from obs c wanted _ l1 [] (TURNS c) N S1 ltac:(lia) (Forall_nil_2 _)) as G. by rewrite app_nil_r in G.
Qed.

(** An entry of the file system on the directory; of the device, when it is
    mounted for writing. *)
Definition mount_test (fsname : option (list Z)) (dir : list Z) (e : my_mntent) : bool :=
  mounted_on dir e && (bool_decide (mt_type e = fstype) && match fsname with None => true | Some f => bool_decide (mt_fsname e = f) end).
Definition option_of (e : my_mntent) (token : opt_token) : option Z := snd <$> find_token (length (mt_opts e)) (mt_opts e) 0 token.
Definition rw_test (fsname : list Z) (e : my_mntent) : bool :=
  bool_decide (mt_fsname e = fsname) && (bool_decide (mt_type e = fstype) && bool_decide (option_of e (Name (codes "rw")) <> None)).

Lemma none_of (test wanted : my_mntent -> bool) (l' : list (nat * my_mntent)) : (forall e, test e = true -> wanted e = true) ->
  Forall (fun x => wanted x.2 = false) l' -> existsb test l'.*2 = false.
Proof using.
  clear. intros H. induction 1 as [|[a e] l' Hx _ IH]; [done|]. cbn in *. rewrite IH. destruct (test e) eqn:E; [|done].
  apply H in E. congruence.
Qed.

Lemma existsb_split (test wanted : my_mntent -> bool) (l1 : list (nat * my_mntent)) a e l2 : (forall e, test e = true -> wanted e = true) ->
  Forall (fun x => wanted x.2 = false) l2 -> existsb test (l1 ++ (a, e) :: l2).*2 = existsb test l1.*2 || test e.
Proof using.
  clear. intros H F. rewrite fmap_app, existsb_app. cbn. rewrite (none_of test wanted l2 H F). by rewrite orb_false_r.
Qed.

Lemma mounted_loop_spec fsname dir n : forall l1 l2 mc s, l = l1 ++ l2 -> found l1 (mounted_on dir) mc -> (length l1 < n)%nat -> has_table s ->
  looks (mounted_loop n fsname dir mc) (fun b => b = existsb (mount_test fsname dir) l1.*2) s.
Proof using C.
  clear alloc_quiet. assert (Hw : forall e, mount_test fsname dir e = true -> mounted_on dir e = true) by (by intros e [H _]%andb_true_iff).
  induction n as [|n IH]; intros l1 l2 mc s E F Hn H; [lia|]. destruct mc as [a|]; cbn [mounted_loop].
  - destruct F as (l1' & e & l2' & -> & He & F). rewrite <- app_assoc in E. cbn [app] in E.
    rewrite (existsb_split _ (mounted_on dir)) by done. eapply looks_bind; [by eapply looks_entry|]. intros ? s1 -> S1.
    unfold mount_test at 2. rewrite He. cbn [andb]. destruct (bool_decide (mt_type e = fstype) && _) eqn:Et.
    + apply looks_ret. by rewrite orb_true_r.
    + rewrite orb_false_r. pose proof (same_table _ _ H S1) as H1. eapply looks_bind; [by eapply looks_search_from|].
      intros mc s2 F2 S2. rewrite length_app in Hn; simpl in Hn. eapply IH; [exact E|done|lia|by eapply same_table].
  - apply looks_ret. symmetry. by eapply none_of.
Qed.

Lemma looks_turns s : has_table s -> looks table_turns (fun n => n = TURNS c) s.
Proof using. clear alloc_quiet C. intros H. unfold table_turns. eapply looks_bind; [by apply looks_head|]. intros ? s1 -> _. by apply looks_ret. Qed.

(** The part of [mounted] that searches the table. *)
Definition search_mounted (fsname : option (list Z)) (dir : list Z) : M state bool :=
  let* mc := getmntdirbackward dir None in
  let* n := table_turns in
  mounted_loop n fsname dir mc.

Lemma looks_search_mounted fsname dir s : has_table s -> looks (search_mounted fsname dir) (fun b => b = existsb (mount_test fsname dir) l.*2) s.
Proof using alloc_quiet C.
  intros H. unfold search_mounted. eapply looks_bind; [by apply looks_search|]. intros mc s3 F S3.
  pose proof (same_table _ _ H S3) as H3. eapply looks_bind; [by apply looks_turns|]. intros ? s4 -> S4.
  pose proof (chain_length c l C). eapply (mounted_loop_spec _ _ _ l []); [by rewrite app_nil_r|done|done|by eapply same_table].
Qed.

Lemma looks_mounted device mntdir fsname dir s : stands_for (obs (ms_world s)) device fsname ->
  stands_for (obs (ms_world s)) mntdir dir -> has_table s ->
  looks (mounted (Some device) mntdir) (fun b => b = existsb (mount_test (Some fsname) dir) l.*2) s.
Proof using alloc_quiet C.
  intros N1 N2 H. unfold mounted. apply (looks_bind _ _ (fun r => r = Some fsname)).
  { cbn. eapply looks_bind; [by apply looks_canonicalize|]. intros ? s1 -> _. by apply looks_ret. }
  intros ? s1 -> S1. pose proof (same_table _ _ H S1) as H1. pose proof (stands_same _ _ _ _ N2 S1).
  eapply looks_bind; [by apply looks_canonicalize|]. intros ? s2 -> S2.
  by apply looks_search_mounted, (same_table s1).
Qed.

Lemma looks_option e token s : looks (find_option (mt_opts e) token) (fun v => v = option_of e token) s.
Proof using alloc_quiet.
  clear C. unfold find_option. eapply looks_bind; [apply looks_gives|].
  - unfold find_opt. eapply yields_seq; [by apply yields_new_text|apply yields_value].
  - intros ? s1 -> _. by apply looks_ret.
Qed.

(** The entry that is found is one for writing; without one there is none. *)
Definition rw_found (fsname : list Z) (l' : list (nat * my_mntent)) (r : option nat) : Prop :=
  match r with
  | None => existsb (rw_test fsname) l'.*2 = false
  | Some a => exists l1 e l2, l' = l1 ++ (a, e) :: l2 /\ rw_test fsname e = true
  end.

Lemma rw_loop_spec fsname n : forall l1 l2 mc s, l = l1 ++ l2 -> found l1 (fun e => bool_decide (mt_fsname e = fsname)) mc ->
  (length l1 < n)%nat -> has_table s -> looks (rw_mount_loop n fsname mc) (rw_found fsname l1) s.
Proof using alloc_quiet C.
  set (wanted := fun e => bool_decide (mt_fsname e = fsname)).
  assert (Hw : forall e, rw_test fsname e = true -> wanted e = true) by (by intros e [H _]%andb_true_iff).
  induction n as [|n IH]; intros l1 l2 mc s E F Hn H; [lia|]. destruct mc as [a|]; cbn [rw_mount_loop].
  - destruct F as (l1' & e & l2' & -> & He & F). rewrite <- app_assoc in E. cbn [app] in E.
    eapply looks_bind; [by eapply looks_entry|]. intros ? s1 -> S1. pose proof (same_table _ _ H S1) as H1.
    apply (looks_bind _ _ (fun rw => rw_test fsname e = bool_decide (rw <> None))).
    { assert (Er : rw_test fsname e = bool_decide (mt_type e = fstype) && bool_decide (option_of e (Name (codes "rw")) <> None))
        by (unfold rw_test; unfold wanted in He; by rewrite He).
      rewrite Er. destruct (bool_decide (mt_type e = fstype)); [|by apply looks_ret].
      eapply looks_mono; [apply looks_option|]. by intros ? ->. }
    intros rw s2 Er S2. pose proof (same_table _ _ H1 S2) as H2. destruct rw as [v|].
    + apply looks_ret. exists l1', e, l2'. split; [done|]. rewrite Er. by apply bool_decide_eq_true.
    + eapply looks_bind; [by eapply looks_search_from|]. intros mc s3 F3 S3. rewrite length_app in Hn; simpl in Hn.
      eapply looks_mono; [eapply IH; [exact E|exact F3|lia|by eapply same_table]|]. intros [p|] R; cbn in *.
      * destruct R as (k1 & e' & k2 & -> & R). exists k1, e', (k2 ++ (a, e) :: l2'). by rewrite <- app_assoc.
      * by rewrite (existsb_split _ wanted), R, Er.
  - apply looks_ret. by eapply none_of.
Qed.

Lemma looks_rw_mount device fsname s : stands_for (obs (ms_world s)) device fsname -> has_table s -> looks (find_rw_mount device) (rw_found fsname l) s.
Proof using alloc_quiet C.
  intros N H. unfold find_rw_mount. eapply looks_bind; [by apply looks_canonicalize|]. intros ? s2 -> S2.
  pose proof (same_table _ _ H S2) as H2. eapply looks_bind; [by apply looks_search|]. intros mc s3 F S3.
  pose proof (same_table _ _ H2 S3) as H3. eapply looks_bind; [by apply looks_turns|]. intros ? s4 -> S4.
  pose proof (chain_length c l C). eapply (rw_loop_spec _ _ l []); [by rewrite app_nil_r|done|done|by eapply same_table].
Qed.
End Looking.

Section Refused.
Context {W T : Type} {A : Alloc W} {P : PathOs W} {X : ExecOs W} {MO : MtabOs W} {OO : OptsOs W} {MP : MountOs W} (obs : W -> T).
Context (alloc_quiet : forall n w, obs (malloc n w).2 = obs w).
(** What is seen of the system tells which text a file has, and whether
    reading it ends with an error. *)
Context (file_text : list Z -> T -> option (list Z * bool)).
Context (umask_quiet : forall m w, obs (mo_umask m w).2 = obs w).
Context (read_law : forall p w r w', mo_fopen_read p w = (r, w') ->
  obs w' = obs w /\ file_text p (obs w) = match r with inl x => Some x | inr _ => None end).
Abbreviation state := (mtab_state W).

(** The table that the program looks into. *)
Definition mounts_now (t : T) : list my_mntent :=
  match file_text _PATH_MOUNTED t with
  | Some (text, fails) => table_of (open_file text fails)
  | None => match file_text _PATH_PROC_MOUNTS t with Some (text, fails) => table_of (open_file text fails) | None => [] end
  end.

(** A step that keeps what is seen at [t]. *)
Definition unseen_at {V} (t : T) (m : M W V) (Q : V -> Prop) : Prop :=
  forall w, obs w = t -> wpe m (fun a w' => Q a /\ obs w' = t) (fun _ _ => False) (fun c w' => c = EX_SYSERR /\ obs w' = t) w.

Lemma unseen_gives {V} t (m : M W V) Q : gives obs m Q -> unseen_at t m Q.
Proof using.
  intros G w Hw. eapply wpe_mono; [apply (G w)|..]; cbv beta; [|done|]; (intros ? w' [? ->]; by split).
Qed.

Lemma unseen_umask t m : unseen_at t (asks (mo_umask m)) (fun _ => True).
Proof using umask_quiet. intros w Hw. unfold wpe, asks. pose proof (umask_quiet m w) as E. destruct (mo_umask m w) as [r w']. cbn in *. by rewrite E. Qed.

Definition opened (file : list Z) (t : T) (r : mntFILE + Z) : Prop :=
  match r with
  | inl f => exists text fails, f = open_file text fails /\ file_text file t = Some (text, fails)
  | inr _ => file_text file t = None
  end.

Lemma unseen_fopen t file :
  unseen_at t (attempt (lift_sum (mo_fopen_read file))) (fun r => file_text file t = match r with inl x => Some x | inr _ => None end).
Proof using read_law.
  intros w <-. unfold wpe, attempt, lift_sum. destruct (mo_fopen_read file w) as [r w'] eqn:E. pose proof (read_law _ _ _ _ E) as [Eo Et].
  destruct r; by split.
Qed.

Lemma unseen_open t file : unseen_at t (attempt (my_setmntent_read file)) (opened file t).
Proof using alloc_quiet umask_quiet read_law.
  assert (H : unseen_at t (attempt (my_setmntent (mo_fopen_read file) file))
    (fun r => file_text file t = match r with inl x => Some x | inr _ => None end)).
  { unfold my_setmntent. intros w Hw. apply wpe_attempt.
    apply wpe_bind. eapply wpe_mono; [by apply (unseen_gives t _ _ (yields_xmalloc obs alloc_quiet _) w)|cbv beta; intros [] w1 [_ H1]|done|by intros].
    apply wpe_bind. eapply wpe_mono; [by apply (unseen_umask t _ w1)|cbv beta; intros old w2 [_ H2]|done|by intros].
    apply wpe_bind. eapply wpe_mono; [by apply (unseen_fopen t file w2)|cbv beta; intros fp w3 [Hf H3]|done|by intros].
    apply wpe_bind. eapply wpe_mono; [by apply (unseen_umask t _ w3)|cbv beta; intros ? w4 [_ H4]|done|by intros].
    apply wpe_bind. eapply wpe_mono; [by apply (unseen_gives t _ _ (yields_new_text obs alloc_quiet file) w4)|cbv beta; intros ? w5 [_ H5]|done|by intros].
    destruct fp; by split. }
  intros w Hw. specialize (H w Hw). unfold my_setmntent_read, attempt, bind, wpe in *.
  destruct (my_setmntent _ _ w) as [[[text fails]| | | |] w1]; cbn in *; try done. destruct H as [Hf H1]. split; [|done]. by exists text, fails.
Qed.

Lemma unseen_looks {V} s (m : M W V) Q : unseen_at (obs (ms_world s)) m Q -> looks obs (in_world m) Q s.
Proof using.
  intros G. unfold looks, wpe, in_world. specialize (G (ms_world s) eq_refl). unfold wpe in G. destruct (m (ms_world s)) as [[] w]; try done.
  - destruct G as [HQ E]. split; [done|]. by split_and!.
  - destruct G as [HQ E]. split; [done|]. by split_and!.
Qed.

Lemma attempt_in_world {V} (m : M W V) (s : state) : attempt (in_world m) s = in_world (attempt m) s.
Proof using. unfold attempt, in_world. by destruct (m (ms_world s)) as [[] ?]. Qed.

Lemma looks_open file s : looks obs (attempt (in_world (my_setmntent_read file))) (opened file (obs (ms_world s))) s.
Proof using alloc_quiet umask_quiet read_law.
  unfold looks, wpe. rewrite attempt_in_world. apply unseen_looks, unseen_open.
Qed.

Lemma represents_empty : represents empty_chain [].
Proof using.
  clear. exists []. split; [|done]. split; cbn [ch_nodes ch_fresh].
  - apply NoDup_singleton.
  - by repeat constructor.
  - done.
  - eexists _, _, _. split; [done|]. right. auto.
Qed.

Lemma looks_read s : looks obs read_mounttable (fun c => represents c (mounts_now (obs (ms_world s)))) s.
Proof using alloc_quiet umask_quiet read_law.
  unfold read_mounttable, mounts_now. eapply looks_bind; [apply looks_open|]. intros r s1 Hr (E1 & _).
  unfold opened in Hr. destruct r as [f|e].
  - destruct Hr as (text & fails & -> & ->). by apply looks_gives, gives_read_chain.
  - rewrite Hr. eapply looks_bind; [apply looks_open|]. rewrite E1. intros r s2 Hr2 _. unfold opened in Hr2. destruct r as [f|e2].
    + destruct Hr2 as (text & fails & -> & ->). by apply looks_gives, gives_read_chain.
    + rewrite Hr2. apply looks_ret, represents_empty.
Qed.
(** Reading the table does nothing else that is seen. *)
Definition refuses (m : M state Z) (s : state) : Prop :=
  wpe m (fun st s' => st = EX_FAIL /\ obs (ms_world s') = obs (ms_world s)) (fun _ _ => False)
    (fun c s' => c = EX_SYSERR /\ obs (ms_world s') = obs (ms_world s)) s.

Lemma refuses_looks (m : M state Z) s : looks obs m (fun st => st = EX_FAIL) s -> refuses m s.
Proof using. intros H. eapply wpe_mono; [exact H|..]; cbv beta; [|done|]; (intros ? s' [? [E _]]; by split). Qed.

Lemma refuses_bind {V} (m : M state V) (k : V -> M state Z) Q s :
  looks obs m Q s -> (forall v s', Q v -> same obs s s' -> refuses (k v) s') -> refuses (bind m k) s.
Proof using.
  intros Hm Hk. apply wpe_bind. eapply wpe_mono; [exact Hm|..]; cbv beta; [|done|by intros ? s' [? [E _]]].
  intros v s1 [Hv Hs]. pose proof (Hk v s1 Hv Hs) as H. destruct Hs as [E _]. unfold refuses in H. by rewrite E in H.
Qed.

(** The first search reads the table. *)
Lemma refuses_first test mc (k : option nat -> M state Z) s : ms_table s = None ->
  (forall c l s', chain_of c l -> l.*2 = mounts_now (obs (ms_world s)) -> has_table c s' -> obs (ms_world s') = obs (ms_world s) ->
    refuses (bind (from_node true mc test) k) s') ->
  refuses (bind (from_node true mc test) k) s.
Proof using alloc_quiet umask_quiet read_law.
  intros N H. pose proof (looks_read s) as R. unfold refuses, looks, wpe in R |- *. unfold bind at 1. unfold from_node at 1. unfold bind at 1.
  unfold mtab_head at 1. unfold bind at 1, gets. rewrite N. unfold bind at 1.
  destruct (read_mounttable s) as [[c|e| |st|] s1]; try done; [|destruct R as [-> (E & _)]; by rewrite E].
  destruct R as [(l & C & El) (E & _)]. set (s2 := mk_mts (ms_world s1) (ms_info s1) (Some c) (ms_created s1) (ms_fd s1)).
  specialize (H c l s2 C El eq_refl E). unfold refuses, wpe in H. cbn [ms_world s2] in H. rewrite E in H. exact H.
Qed.

Lemma refuses_assoc {V V'} (m : M state V) (k : V -> M state V') (h : V' -> M state Z) s :
  refuses (bind m (fun v => bind (k v) h)) s <-> refuses (bind (bind m k) h) s.
Proof using. unfold refuses, wpe, bind. by destruct (m s) as [[] ?]. Qed.

(** What follows the first search, with a table that was read. *)
Lemma refuses_mounted mntdir dir (k : bool -> M state Z) s : stands_for obs (obs (ms_world s)) mntdir dir -> ms_table s = None ->
  (forall c l s', chain_of c l -> l.*2 = mounts_now (obs (ms_world s)) -> has_table c s' -> obs (ms_world s') = obs (ms_world s) -> refuses (k (existsb (mount_test None dir) l.*2)) s') ->
  refuses (bind (mounted None mntdir) k) s.
Proof using alloc_quiet umask_quiet read_law.
  intros D N H. unfold mounted. apply refuses_assoc. apply (refuses_bind _ _ (fun r => r = None)); [by apply looks_ret|].
  intros ? s1 -> (E1 & _ & T1 & _). apply refuses_assoc. eapply refuses_bind; [apply looks_canonicalize; [done|by rewrite E1; apply D]|].
  intros ? s2 -> (E2 & _ & T2 & _). apply (refuses_assoc (getmntdirbackward dir None)), refuses_first; [by rewrite T2, T1|].
  intros c l s3 C El H3 E3. rewrite E2, E1 in El, E3. apply refuses_assoc.
  apply (refuses_bind (search_mounted None dir) _ _ _ (looks_search_mounted obs alloc_quiet c l C None dir s3 H3)).
  intros ? s4 -> S4. apply (H c l); [done..|by apply (same_table obs c s3)|]. rewrite <- E3. apply S4.
Qed.

(** An entry of the table for writing is found, and its options are read. *)
Lemma looks_written (c : mntentchn) (l : named) device fsname s (Q : option nilfs_mount_info -> Prop) (k : option nat -> M state (option nilfs_mount_info)) :
  chain_of c l -> has_table c s -> stands_for obs (obs (ms_world s)) device fsname -> existsb (rw_test fsname) l.*2 = true ->
  (forall mc l1 e l2 s', l = l1 ++ (mc, e) :: l2 -> has_table c s' -> looks obs (k (Some mc)) Q s') ->
  looks obs (bind (find_rw_mount device) k) Q s.
Proof using alloc_quiet.
  intros C H D R Hk. eapply looks_bind; [by eapply (looks_rw_mount obs alloc_quiet c l C)|]. intros [mc|] s1 F S1; cbn in F; [|congruence].
  destruct F as (l1 & e & l2 & El & _). eapply Hk; [exact El|]. by apply (same_table obs c s).
Qed.

(** C5: of the program that mount.nilfs2.c makes up without libmount: neither
    is a file system mounted for writing twice, nor anything over a directory
    on which a nilfs2 file system is mounted.  When the mount table has an
    entry for the canonical name of the directory, or one of the device's
    canonical name with the option "rw", a mount that is no remount (nor, for
    the device, a bind or read-only one) fails; then neither mount(2) is
    called, nor a daemon started, nor a file changed - all that is seen of the
    system is as it was, also when memory runs out.  The condition
    [stands_for]: as long as the system looks as at the start, the paths of
    the device and of the directory resolve to the same two names (nobody
    moves them meanwhile).  The program with libmount has no such property:
    it reports the overlap and goes on ([AttrsSpec.overlap_goes_on], finding
    mount_libmount.c:335). *)
Theorem mount_refused fuel device mntdir fsname dir o flags extra_opts vals s :
  stands_for obs (obs (ms_world s)) device fsname -> stands_for obs (obs (ms_world s)) mntdir dir ->
  ms_table s = None -> set_flag flags MS_REMOUNT = false ->
  let es := mounts_now (obs (ms_world s)) in
  existsb (mount_test None dir) es = true \/
  (existsb (rw_test fsname) es = true /\ set_flag flags MS_BIND = false /\ set_flag flags MS_RDONLY = false) ->
  refuses (mount_one fuel device mntdir o flags extra_opts vals) s.
Proof using alloc_quiet umask_quiet read_law.
  intros D1 D2 N R1 es H. unfold mount_one, prepare_mount. rewrite R1. apply refuses_assoc, (refuses_mounted mntdir dir); [done..|].
  intros c l s1 C El H1 E1. rewrite <- E1 in D1, D2. cbv beta. rewrite El. fold es. destruct (existsb (mount_test None dir) es).
  { by apply refuses_looks, looks_ret. }
  destruct H as [H|(Hw & B1 & B2)]; [done|]. rewrite B1, B2. apply (refuses_bind _ _ (fun r => r = None)).
  - eapply looks_bind; [by apply (looks_mounted obs alloc_quiet c l C device mntdir fsname dir)|]. intros b s2 _ S2.
    pose proof (same_table obs c _ _ H1 S2) as H2. pose proof (stands_same obs _ _ _ _ D1 S2).
    apply (looks_written c l device fsname); [done..|by rewrite El|]. clear s2 S2 H2 H. intros mc l1 e l2 s2 E2 H2.
    eapply looks_bind; [by apply (looks_entry obs c l C l1 mc e l2)|]. intros ? s3 -> S3.
    eapply looks_bind; [by apply looks_option|]. intros ? s4 _ S4. eapply looks_bind; [by apply looks_option|]. intros ? s5 _ S5.
    by apply looks_ret.
  - intros ? s6 -> _. by apply refuses_looks, looks_ret.
Qed.
End Refused.
