(* ===== verification/Attrs.v ===== *)
(** * The attributes of a mount: sbin/mount/mount_attrs.c

    With libmount the process ID of the daemon, the protection period and the
    option "nogc" are attributes of a mount, a text of options.  The functions
    of libmount that take such a text apart are parameters. *)

From Stdlib Require Import String.
From S2P Require Import Prelude Vector Hoare Parser Tune Cldconfig CleanerExec Mntent.

(** A number: the value, and how many characters it has. *)
Record next_option := mk_next { no_name : nat; no_namesz : nat; no_val : option (nat * nat); no_next : nat }.

(** [as_next] is mnt_optstr_next_option on a text: where the name, the value
    and the next option begin, with the lengths; [None] at the end.
    [as_append] is mnt_optstr_append_option, with the name and the value. *)
Class OptstrOs (W : Type) := {
  as_next : list Z -> option next_option;
  as_append : option (list Z) -> list Z -> option (list Z) -> W -> (list Z + Z) * W;
}.

Definition NOATTR_NAME : list Z := codes "none".
Definition PPOPT_NAME : list Z := codes "pp".
Definition NOGCOPT_NAME : list Z := codes "nogc".
Definition PIDOPT_NAME : list Z := codes "gcpid".

Record nilfs_mount_attrs := mk_attrs { ma_gcpid : Z; ma_nogc : bool; ma_pp : Z }.

Definition nilfs_mount_attrs_init : nilfs_mount_attrs := mk_attrs 0 false ULONG_MAX.

(** [strncmp(name, s, namesz)]: a shorter name is equal, too. *)
Definition name_is (name s : list Z) : bool := match strip_prefix name s with Some _ => true | None => false end.

(** [strtoul] of a value, and whether it ends with the value. *)
Definition attr_number (str : list Z) (voff valsz : nat) : Z * bool :=
  let val := drop voff str in
  let '(v, endptr) := strtoull val 10 in
  (v, (length val - length endptr =? valsz)%nat).

(** What an option is. *)
Inductive attr_kind := Attr (a : nilfs_mount_attrs) | Other | Invalid (a : nilfs_mount_attrs).

Definition attr_of (str name : list Z) (val : option (nat * nat)) (mtab : bool) (a : nilfs_mount_attrs) : attr_kind :=
  if name_is name PPOPT_NAME then
    match val with
    | None | Some (_, O) => Invalid a
    | Some (voff, valsz) =>
      let '(v, ok) := attr_number str voff valsz in
      let a := mk_attrs (ma_gcpid a) (ma_nogc a) v in
      if (ok : bool) then Attr a else Invalid a
    end
  else if name_is name NOGCOPT_NAME then
    match val with Some _ => Invalid a | None => Attr (mk_attrs (ma_gcpid a) true (ma_pp a)) end
  else if name_is name PIDOPT_NAME then
    match val, mtab with
    | None, _ | Some (_, O), _ | _, false => Invalid a
    | Some (voff, valsz), true =>
      let '(v, ok) := attr_number str voff valsz in
      let a := mk_attrs (i32 v) (ma_nogc a) (ma_pp a) in
      if (ok : bool) then Attr a else Invalid a
    end
  else if name_is name NOATTR_NAME then
    match val, mtab with None, true => Attr a | _, _ => Invalid a end
  else Other.

Section Parse.
Context {W : Type} {A : Alloc W} {OS : OptstrOs W}.
Abbreviation MW := (M W).

Definition append_option (s : option (list Z)) (name : list Z) (val : option (list Z)) : MW (option (list Z)) :=
  let* s := lift_sum (as_append s name val) in ret (Some s).

(** The options from [prev] up to the comma before [stop]. *)
Definition append_rest (wanted : bool) (str : list Z) (prev : option nat) (stop : nat) (rest : option (list Z)) : MW (option (list Z)) :=
  match wanted, prev with
  | true, Some prev => append_option rest (take (stop - prev) (drop prev str)) None
  | _, _ => ret rest
  end.

(** The outcome: the attributes, also those of a text that is invalid, then
    the texts of the attributes and of the other options, or a failure. *)
Definition parsed : Type := nilfs_mount_attrs * (option (list Z) * option (list Z) + Z).

Fixpoint parse_attrs (fuel : nat) (str : list Z) (mtab want_found want_rest : bool) (p : nat) (prev : option nat) (a : nilfs_mount_attrs)
    (found rest : option (list Z)) : MW parsed :=
  match fuel with
  | O => out_of_fuel
  | Datatypes.S fuel =>
    match as_next (drop p str) with
    | None =>
      let* r := attempt (append_rest want_rest str prev (length str) rest) in
      ret (a, match r with inl rest => inl (found, rest) | inr e => inr e end)
    | Some n =>
      let noff := (p + no_name n)%nat in
      let name := take (no_namesz n) (drop noff str) in
      let val := (fun '(off, sz) => ((p + off)%nat, sz)) <$> no_val n in
      match attr_of str name val mtab a with
      | Invalid a => ret (a, inr (-1))
      | Other => parse_attrs fuel str mtab want_found want_rest (p + no_next n) (Some (default noff prev)) a found rest
      | Attr a =>
        let* r := attempt (append_rest want_rest str prev (noff - 1) rest) in
        match r with
        | inr e => ret (a, inr e)
        | inl rest =>
          let* r := attempt (if want_found then append_option found name ((fun '(off, sz) => take sz (drop off str)) <$> val) else ret found) in
          match r with
          | inr e => ret (a, inr e)
          | inl found =>
            parse_attrs fuel str mtab want_found want_rest (p + no_next n) (if want_rest then None else prev) a found rest
          end
        end
      end
    end
  end.

Definition nilfs_mount_attrs_parse (a : nilfs_mount_attrs) (optstr : list Z) (want_found want_rest mtab : bool) : MW parsed :=
  let* r := attempt (m_malloc (Z.of_nat (length optstr) + 1)) in
  match r with
  | inr _ => ret (a, inr (-1))
  | inl _ => parse_attrs (Datatypes.S (length optstr)) optstr mtab want_found want_rest 0 None a None None
  end.
End Parse.

(** ** Setting attributes *)

(** The attributes of the file system of the context. *)
Class AttrsOs (W : Type) := {
  at_set : option (list Z) -> W -> W;
  at_append : list Z -> W -> W;
}.

Section Update.
Context {W : Type} {AO : AttrsOs W}.

Definition gcpid_text (pid : Z) : list Z := PIDOPT_NAME ++ codes "=" ++ print_cno (u64 pid).
Definition pp_text (pp : Z) : list Z := PPOPT_NAME ++ codes "=" ++ print_cno pp.

Definition nilfs_mount_attrs_update (old_attrs new_attrs : option nilfs_mount_attrs) : M W unit :=
  match old_attrs, new_attrs with
  | None, None => ret tt
  | _, None => modify (at_set None)
  | _, Some a =>
    modify (at_set None) ;;
    if ma_nogc a then modify (at_append NOGCOPT_NAME)
    else if negb (ma_gcpid a =? 0) then
      modify (at_append (gcpid_text (ma_gcpid a))) ;;
      if negb (ma_pp a =? ULONG_MAX) then modify (at_append (pp_text (ma_pp a))) else ret tt
    else match old_attrs with Some _ => modify (at_set (Some NOATTR_NAME)) | None => ret tt end
  end.
End Update.
