(* ===== verification/Libmount.v ===== *)
(** * Mounting with libmount: sbin/mount/mount_libmount.c, umount_libmount.c

    The context of libmount is part of the world; its functions are
    parameters.  Messages and [umask] are left out. *)

From Stdlib Require Import String.
From S2P Require Import Prelude Vector Hoare Ondisk Kernel Parser Tune Cldconfig Cleanerd CleanerExec Mntent MountOpts Attrs.

Definition fstype : list Z := codes "nilfs2".

(** An entry of the mount table, as libmount describes it. *)
Record libmnt_fs := mk_fs { fs_id : Z; fs_source : list Z; fs_target : list Z; fs_root : option (list Z); fs_attributes : option (list Z) }.

(** The functions that answer a number give 0 or a negative one for an
    error.  [lm_entries] is what mnt_table_next_fs yields from the last entry
    on, behind which it gives no entry; [lm_match_*] compare an entry. *)
Class LibmountOs (W : Type) := {
  lm_optstr :: OptstrOs W;
  lm_attrs :: AttrsOs W;
  lm_new_context : W -> bool * W;
  lm_has_fs : W -> bool;
  lm_set_fstype : list Z -> W -> W;
  lm_disable_helpers : W -> W;
  lm_enable_fake : W -> W;
  lm_enable_verbose : W -> W;
  lm_enable_lazy : W -> W;
  lm_enable_rdonly_umount : W -> W;
  lm_disable_mtab : W -> W;
  lm_append_options : list Z -> W -> Z * W;
  lm_set_source : option (list Z) -> W -> W;
  lm_set_target : list Z -> W -> W;
  lm_source : W -> list Z;
  lm_target : W -> list Z;
  lm_fstype : W -> list Z;
  lm_root : W -> option (list Z);
  lm_set_root : option (list Z) -> W -> W;
  lm_attributes : W -> option (list Z);
  lm_is_fake : W -> bool;
  lm_is_rdonly_umount : W -> bool;
  lm_get_mflags : W -> (Z + Z) * W;
  lm_get_mtab : W -> Z * W;
  lm_new_iter : W -> bool * W;
  lm_entries : W -> list libmnt_fs;
  lm_is_mounted : W -> bool;
  lm_match_fstype : libmnt_fs -> list Z -> bool;
  lm_match_source : libmnt_fs -> list Z -> W -> bool;
  lm_match_target : libmnt_fs -> list Z -> W -> bool;
  lm_match_options : libmnt_fs -> list Z -> bool;
  lm_prepare_mount : W -> Z * W;
  lm_do_mount : W -> Z * W;
  lm_finalize_mount : W -> Z * W;
  lm_prepare_umount : W -> Z * W;
  lm_do_umount : W -> Z * W;
  lm_finalize_umount : W -> Z * W;
  lm_open : list Z -> W -> (Z + Z) * W;
  lm_rofs : Z -> W -> (bool + Z) * W;
  lm_close : Z -> W -> W;
  lm_suid : W -> bool;
}.

(** Not an exit status: the child has become the daemon. *)
Definition DAEMON : Z := -1.

Definition set_flag (flags f : Z) : bool := negb (Z.land flags f =? 0).

Section Common.
Context {W : Type} {A : Alloc W} {X : ExecOs W} {LM : LibmountOs W}.
Abbreviation MW := (M W).

Definition launch_cleanerd (device mntdir : list Z) (protperiod : Z) : MW (option Z) :=
  let* r := attempt (nilfs_launch_cleanerd device mntdir protperiod) in
  match r with
  | inl (Parent pid) => ret (Some pid)
  | inl (Became _ _) => exit_with DAEMON
  | inr _ => ret None
  end.

(** The daemon with the options of one that was stopped. *)
Definition restart_cleanerd (old : nilfs_mount_attrs) (finalize : W -> Z * W) : MW unit :=
  let* source := gets lm_source in
  let* target := gets lm_target in
  let* pid := launch_cleanerd source target (ma_pp old) in
  match pid with
  | Some pid =>
    nilfs_mount_attrs_update (Some old) (Some (mk_attrs pid false (ma_pp old))) ;;
    asks finalize ;;
    ret tt
  | None => ret tt
  end.
End Common.

(** ** mount.nilfs2 *)

Module MountLib.
Inductive mount_type := NORMAL_MOUNT | RW2RO_REMOUNT | RW2RW_REMOUNT.

Record nilfs_mount_info := mk_minfo {
  mi_mflags : Z; mi_type : mount_type; mi_mounted : bool; mi_old_attrs : nilfs_mount_attrs; mi_new_attrs : nilfs_mount_attrs;
}.
Definition with_mflags (mflags : Z) (mi : nilfs_mount_info) := mk_minfo mflags (mi_type mi) (mi_mounted mi) (mi_old_attrs mi) (mi_new_attrs mi).
Definition with_type (t : mount_type) (mi : nilfs_mount_info) := mk_minfo (mi_mflags mi) t (mi_mounted mi) (mi_old_attrs mi) (mi_new_attrs mi).
Definition with_mounted (b : bool) (mi : nilfs_mount_info) := mk_minfo (mi_mflags mi) (mi_type mi) b (mi_old_attrs mi) (mi_new_attrs mi).
Definition with_old (a : nilfs_mount_attrs) (mi : nilfs_mount_info) := mk_minfo (mi_mflags mi) (mi_type mi) (mi_mounted mi) a (mi_new_attrs mi).
Definition with_new (a : nilfs_mount_attrs) (mi : nilfs_mount_info) := mk_minfo (mi_mflags mi) (mi_type mi) (mi_mounted mi) (mi_old_attrs mi) a.

Section Mount.
Context {W : Type} {A : Alloc W} {X : ExecOs W} {LM : LibmountOs W}.
Abbreviation MW := (M W).
Context (fuel : nat).

(** An error number, or nothing. *)
Definition device_is_readonly (device : list Z) : MW (option Z) :=
  let* fd := attempt (lift_sum (lm_open device)) in
  match fd with
  | inr e => ret (Some e)
  | inl fd =>
    let* ro := attempt (lift_sum (lm_rofs fd)) in
    modify (lm_close fd) ;;
    ret (match ro with inl _ => None | inr e => Some e end)
  end.

Definition append_or_die (options : list Z) : MW unit :=
  let* res := asks (lm_append_options options) in
  if negb (res =? 0) then die EX_SYSERR else ret tt.

(** The options of the command line: the type, the attributes, and whether
    the version is asked for. *)
Fixpoint mount_option_loop (argv : list (Z * list Z)) (type : option (list Z)) (version : bool) (mi : nilfs_mount_info)
  : MW (option (list Z) * bool * nilfs_mount_info) :=
  match argv with
  | [] => ret (type, version, mi)
  | (c, optarg) :: argv =>
    if c =? 102 (* f *) then modify lm_enable_fake ;; mount_option_loop argv type version mi
    else if c =? 118 (* v *) then modify lm_enable_verbose ;; mount_option_loop argv type version mi
    else if c =? 110 (* n *) then modify lm_disable_mtab ;; mount_option_loop argv type version mi
    else if c =? 116 (* t *) then mount_option_loop argv (Some optarg) version mi
    else if c =? 111 (* o *) then
      let* (a, r) := nilfs_mount_attrs_parse (mi_new_attrs mi) optarg false true false in
      match r with
      | inr _ => die EX_SYSERR
      | inl (_, rest) =>
        (match rest with Some rest => append_or_die rest | None => ret tt end) ;;
        mount_option_loop argv type version (with_new a mi)
      end
    else if c =? 114 (* r *) then append_or_die (codes "ro") ;; mount_option_loop argv type version mi
    else if c =? 119 (* w *) then append_or_die (codes "rw") ;; mount_option_loop argv type version mi
    else mount_option_loop argv type (version || (c =? 86 (* V *))) mi
  end.

Definition nilfs_mount_parse_options (argv : list (Z * list Z)) (mi : nilfs_mount_info) : MW (option (list Z) * nilfs_mount_info) :=
  let* fs := gets lm_has_fs in
  if negb fs then die EX_SYSERR
  else
    let* (type, version, mi) := mount_option_loop argv None false mi in
    if (version : bool) then exit_with EXIT_SUCCESS else ret (type, mi).

Definition nilfs_find_mount (target options : option (list Z)) : MW (option libmnt_fs) :=
  let* src := gets lm_source in
  let* type := gets lm_fstype in
  let* iter := asks lm_new_iter in
  if negb iter then die EX_SYSERR
  else
    let* w := get_state in
    ret (find (fun fs =>
      lm_match_fstype fs type && lm_match_source fs src w &&
      match target with None => true | Some target => lm_match_target fs target w end &&
      match options with None => true | Some options => lm_match_options fs options end) (lm_entries w)).

Definition nilfs_find_rw_mount : MW (option libmnt_fs) := nilfs_find_mount None (Some (codes "rw")).

(** The remount of [fs], with [res] from before. *)
Definition prepare_remount (res : Z) (fs : libmnt_fs) (mi : nilfs_mount_info) : MW (Z * nilfs_mount_info) :=
  let mi := with_type (if set_flag (mi_mflags mi) MS_RDONLY then RW2RO_REMOUNT else RW2RW_REMOUNT) mi in
  let* (a, r) :=
    (match fs_attributes fs with
     | None => ret (mi_old_attrs mi, inl (None, None))
     | Some attrs => nilfs_mount_attrs_parse (mi_old_attrs mi) attrs false false true
     end) in
  let mi := with_old a mi in
  match r with
  | inr _ => ret (res, mi)
  | inl _ =>
    let* target := gets lm_target in
    let* w := get_state in
    if negb (lm_match_target fs target w) then ret (res, mi)
    else if negb (ma_gcpid a =? 0) then
      let* stopped := attempt (nilfs_shutdown_cleanerd fuel (ma_gcpid a)) in
      ret (match stopped with inl _ => 0 | inr _ => -1 end, mi)
    else ret (0, mi)
  end.

(** The result is [res] as the last call has left it. *)
Definition nilfs_prepare_mount (mi : nilfs_mount_info) : MW (Z * nilfs_mount_info) :=
  let* res := asks lm_prepare_mount in
  if res <? 0 then ret (res, mi)
  else
    let* r := asks lm_get_mflags in
    match r with
    | inr res => ret (res, mi)
    | inl mflags =>
      let mi := with_mflags mflags mi in
      let* source := gets lm_source in
      let* r := (if negb (set_flag mflags MS_RDONLY) && negb (set_flag mflags MS_BIND) then device_is_readonly source else ret None) in
      match r with
      | Some e => ret (- e, mi)
      | None =>
        let* res := asks lm_get_mtab in
        if res <? 0 then ret (res, mi)
        else
          let* is_mounted := gets lm_is_mounted in
          let mi := with_mounted is_mounted mi in
          if set_flag mflags MS_BIND then ret (0, mi)
          else
            let* fs := nilfs_find_rw_mount in
            match fs with
            | None => ret (0, mi)
            | Some fs =>
              if set_flag mflags MS_REMOUNT then prepare_remount res fs mi
              else if set_flag mflags MS_RDONLY then ret (0, mi)
              else ret (res, mi)
            end
      end
    end.

Definition nilfs_do_mount_one (mi : nilfs_mount_info) : MW Z :=
  let* res := asks lm_do_mount in
  if res =? 0 then ret res
  else
    match mi_type mi with
    | NORMAL_MOUNT => ret res
    | _ =>
      (if ma_nogc (mi_old_attrs mi) then ret tt else restart_cleanerd (mi_old_attrs mi) lm_finalize_mount) ;;
      ret res
    end.

Definition nilfs_mnt_context_complete_root : MW Z :=
  let* res := asks lm_get_mtab in
  if res <? 0 then ret res
  else
    let* target := gets lm_target in
    let* fs := nilfs_find_mount (Some target) None in
    match fs with Some fs => modify (lm_set_root (fs_root fs)) | None => ret tt end ;;
    ret 0.

Definition nilfs_update_mount_state (mi : nilfs_mount_info) : MW Z :=
  let* w := get_state in
  (match lm_root w with
   | None => if set_flag (mi_mflags mi) MS_REMOUNT || lm_is_fake w then nilfs_mnt_context_complete_root else ret 0
   | Some _ => ret 0
   end) ;;
  let gc_ok := negb (set_flag (mi_mflags mi) MS_RDONLY) && negb (set_flag (mi_mflags mi) MS_BIND) in
  let rungc := gc_ok && negb (ma_nogc (mi_new_attrs mi)) in
  let old_attrs := if set_flag (mi_mflags mi) MS_REMOUNT then Some (mi_old_attrs mi) else None in
  let new := mi_new_attrs mi in
  let* new :=
    (if rungc then
       let pp := if ma_pp new =? ULONG_MAX then ma_pp (mi_old_attrs mi) else ma_pp new in
       let* source := gets lm_source in
       let* target := gets lm_target in
       let* pid := launch_cleanerd source target pp in
       ret (mk_attrs (default (ma_gcpid new) pid) (ma_nogc new) pp)
     else ret new) in
  nilfs_mount_attrs_update old_attrs (Some new) ;;
  asks lm_finalize_mount.

Definition nilfs_mount_one (mi : nilfs_mount_info) : MW Z :=
  let* (res, mi) := nilfs_prepare_mount mi in
  if negb (res =? 0) then ret EX_FAIL
  else
    let* fake := gets lm_is_fake in
    let* res := (if (fake : bool) then ret 0 else nilfs_do_mount_one mi) in
    if negb (res =? 0) then ret EX_FAIL
    else
      let* res := nilfs_update_mount_state mi in
      ret (if res =? 0 then 0 else EX_FAIL).

(** The exit status. *)
Definition mount_main (argv : list (Z * list Z)) (args : list (list Z)) : MW Z :=
  let* ok := asks lm_new_context in
  if negb ok then die EX_SYSERR
  else
    modify (lm_set_fstype fstype) ;;
    modify lm_disable_helpers ;;
    let* (type, mi) := nilfs_mount_parse_options argv (mk_minfo 0 NORMAL_MOUNT false nilfs_mount_attrs_init nilfs_mount_attrs_init) in
    match args with
    | [] => die EX_USAGE
    | device :: args =>
      modify (lm_set_source (Some device)) ;;
      match args with
      | [] => die EX_USAGE
      | mntdir :: _ =>
        modify (lm_set_target mntdir) ;;
        let* suid := gets lm_suid in
        if match type with Some t => negb (name_is fstype t) | None => false end then die EX_USAGE
        else if (suid : bool) then die EX_USAGE
        else nilfs_mount_one mi
      end
    end.
End Mount.
End MountLib.

(** ** umount.nilfs2 *)

Module UmountLib.
Section Umount.
Context {W : Type} {A : Alloc W} {X : ExecOs W} {LM : LibmountOs W}.
Abbreviation MW := (M W).
Context (fuel : nat).

Fixpoint umount_option_loop (argv : list Z) (version : bool) : MW bool :=
  match argv with
  | [] => ret version
  | c :: argv =>
    (if c =? 108 (* l *) then modify lm_enable_lazy
     else if c =? 110 (* n *) then modify lm_disable_mtab
     else if c =? 118 (* v *) then modify lm_enable_verbose
     else if c =? 114 (* r *) then modify lm_enable_rdonly_umount
     else ret tt) ;;
    umount_option_loop argv (version || (c =? 86 (* V *)))
  end.

Definition nilfs_umount_parse_options (argv : list Z) : MW unit :=
  let* fs := gets lm_has_fs in
  if negb fs then die EX_SYSERR
  else
    let* version := umount_option_loop argv false in
    if (version : bool) then exit_with EXIT_SUCCESS else ret tt.

(** The attributes, and the result. *)
Definition nilfs_prepare_umount (old : nilfs_mount_attrs) : MW (Z * nilfs_mount_attrs) :=
  let* res := asks lm_prepare_umount in
  if res <? 0 then ret (res, old)
  else
    let* attrs := gets lm_attributes in
    match attrs with
    | None => ret (0, nilfs_mount_attrs_init)
    | Some attrs =>
      let* (a, r) := nilfs_mount_attrs_parse nilfs_mount_attrs_init attrs false false true in
      match r with inr _ => die EX_SYSERR | inl _ => ret (0, a) end
    end.

Definition nilfs_do_umount_one (old : nilfs_mount_attrs) : MW Z :=
  let* alive :=
    (if negb (ma_gcpid old =? 0) then
       let* alive := nilfs_ping_cleanerd (ma_gcpid old) in
       attempt (nilfs_shutdown_cleanerd fuel (ma_gcpid old)) ;;
       ret alive
     else ret false) in
  let* res := asks lm_do_umount in
  let* rdonly := gets lm_is_rdonly_umount in
  if (res =? 0) || negb rdonly then ret res
  else
    let* r := asks lm_get_mflags in
    match r with
    | inr _ => ret res
    | inl mflags =>
      if negb (Z.land mflags (Z.lor MS_REMOUNT MS_RDONLY) =? Z.lor MS_REMOUNT MS_RDONLY) then ret res
      else
        let* again := (if (alive : bool) then nilfs_ping_cleanerd (ma_gcpid old) else ret true) in
        (if (again : bool) then ret tt else restart_cleanerd old lm_finalize_umount) ;;
        ret res
    end.

Definition nilfs_umount_one (old : nilfs_mount_attrs) : MW (Z * nilfs_mount_attrs) :=
  let* (res, old) := nilfs_prepare_umount old in
  if negb (res =? 0) then ret (EX_FAIL, old)
  else
    let* fake := gets lm_is_fake in
    let* res := (if (fake : bool) then ret 0 else nilfs_do_umount_one old) in
    if negb (res =? 0) then ret (EX_FAIL, old)
    else
      let* res := asks lm_finalize_umount in
      ret (if res =? 0 then 0 else EX_FAIL, old).

Fixpoint umount_all (args : list (list Z)) (old : nilfs_mount_attrs) (sum : Z) : MW Z :=
  match args with
  | [] => ret sum
  | arg :: args =>
    modify (lm_set_source None) ;;
    modify (lm_set_target arg) ;;
    let* (r, old) := nilfs_umount_one old in
    umount_all args old (sum + r)
  end.

Definition umount_main (argv : list Z) (args : list (list Z)) : MW unit :=
  let* ok := asks lm_new_context in
  if negb ok then die EX_SYSERR
  else
    nilfs_umount_parse_options argv ;;
    modify (lm_set_fstype fstype) ;;
    modify lm_disable_helpers ;;
    let* suid := gets lm_suid in
    if (suid : bool) then die EX_USAGE
    else
      match args with
      | [] => die EX_USAGE
      | _ => let* status := umount_all args (mk_attrs 0 false 0) 0 in exit_with status
      end.
End Umount.
End UmountLib.
