(* ===== verification/AttrsSpec.v ===== *)
(** * The attributes of a mount: proofs

    A text of options is taken apart into the attributes and the other
    options; the attributes that one program stores are read back by the
    other. *)

From Stdlib Require Import String.
From S2P Require Import Prelude Vector Hoare Parser Tune Cldconfig Mntent MountOpts MountOptsSpec Attrs Libmount.

(** ** Options *)

Inductive mopt := Pp (n : Z) | Nogc | Gcpid (n : Z) | Noattr | Plain (name : list Z) (val : option (list Z)).

Definition EQUALS : Z := 61.
Definition option_text (name : list Z) (val : option (list Z)) : list Z := name ++ match val with None => [] | Some v => EQUALS :: v end.

Definition mopt_name (o : mopt) : list Z :=
  match o with Pp _ => PPOPT_NAME | Nogc => NOGCOPT_NAME | Gcpid _ => PIDOPT_NAME | Noattr => NOATTR_NAME | Plain name _ => name end.
Definition mopt_val (o : mopt) : option (list Z) :=
  match o with Pp n | Gcpid n => Some (print_cno n) | Nogc | Noattr => None | Plain _ val => val end.
Definition text_of (o : mopt) : list Z := option_text (mopt_name o) (mopt_val o).

(** A name or a value without the characters that separate them. *)
Definition plain (s : list Z) : Prop := s <> [] /\ Forall (fun c => c <> COMMA /\ c <> EQUALS /\ c <> QUOTE /\ c <> 0) s.
Definition plain_val (val : option (list Z)) : Prop := match val with Some v => plain v | None => True end.

(** The numbers fit; other options have no name that one of the attributes
    begins with. *)
Definition mopt_ok (mtab : bool) (o : mopt) : Prop :=
  match o with
  | Pp n => 0 <= n < 2 ^ 64
  | Nogc => True
  | Gcpid n => is_count n /\ mtab = true
  | Noattr => mtab = true
  | Plain name val => plain name /\ plain_val val /\ Forall (fun s => name_is name s = false) [PPOPT_NAME; NOGCOPT_NAME; PIDOPT_NAME; NOATTR_NAME]
  end.

Definition is_attr (o : mopt) : bool := match o with Plain _ _ => false | _ => true end.

Definition apply_mopt (a : nilfs_mount_attrs) (o : mopt) : nilfs_mount_attrs :=
  match o with
  | Pp n => mk_attrs (ma_gcpid a) (ma_nogc a) n
  | Nogc => mk_attrs (ma_gcpid a) true (ma_pp a)
  | Gcpid n => mk_attrs n (ma_nogc a) (ma_pp a)
  | _ => a
  end.

(** Options added to a text. *)
Definition extended (s : option (list Z)) (os : list mopt) : option (list Z) :=
  match os, s with
  | [], _ => s
  | _, None => Some (join_opts (text_of <$> os))
  | _, Some s => Some (s ++ COMMA :: join_opts (text_of <$> os))
  end.

Definition others (os : list mopt) : list mopt := List.filter (fun o => negb (is_attr o)) os.

Lemma extended_app s os1 os2 : extended (extended s os1) os2 = extended s (os1 ++ os2).
Proof.
  destruct os1 as [|o1 os1]; [done|]. destruct os2 as [|o2 os2]; [by rewrite app_nil_r|].
  assert (E : join_opts (text_of <$> (o1 :: os1) ++ o2 :: os2) = join_opts (text_of <$> o1 :: os1) ++ COMMA :: join_opts (text_of <$> o2 :: os2))
    by (by rewrite fmap_app, join_app).
  cbn [app] in *. unfold extended. destruct s as [s|]; rewrite E; [by rewrite <- app_assoc|done].
Qed.

(** ** What is assumed of libmount *)

Class OptstrLaws {W T : Type} (OS : OptstrOs W) (obs : W -> T) : Prop := {
  ol_end : as_next [] = None;
  ol_next : forall name val rest, plain name -> plain_val val -> rest = [] \/ char_at rest = COMMA ->
    as_next (option_text name val ++ rest) =
      Some (mk_next 0 (length name) ((fun v => (Datatypes.S (length name), length v)) <$> val)
              (length (option_text name val) + match rest with [] => 0 | _ => 1 end));
  ol_append : forall s t w r w', as_append s t None w = (r, w') ->
    obs w' = obs w /\ match r with
                      | inl s' => s' = match s with None => t | Some s => s ++ COMMA :: t end
                      | inr e => e < 0
                      end;
}.

(** ** One option *)

Lemma comma_stops rest : rest = [] \/ char_at rest = COMMA -> stops rest.
Proof. intros [-> |H]; [done|]. unfold stops. by rewrite H. Qed.

Lemma attr_number_print pre n rest : 0 <= n < 2 ^ 64 -> rest = [] \/ char_at rest = COMMA ->
  attr_number (pre ++ print_cno n ++ rest) (length pre) (length (print_cno n)) = (n, true).
Proof.
  intros Hn Hr. unfold attr_number. rewrite drop_app_length. destruct (strtoull_print n rest Hn (comma_stops _ Hr)) as [-> _].
  rewrite length_app. f_equal. apply Nat.eqb_eq. lia.
Qed.

Lemma print_cno_plain n : 0 <= n < 2 ^ 64 -> plain (print_cno n).
Proof.
  intros Hn. split; [by apply print_cno_nonempty|]. eapply Forall_impl; [apply print_cno_digits; lia|]. cbv beta.
  unfold COMMA, EQUALS, QUOTE. intros c Hc. lia.
Qed.

Lemma mopt_plain mtab o : mopt_ok mtab o -> plain (mopt_name o) /\ plain_val (mopt_val o).
Proof.
  assert (C : forall s, bool_decide (s <> [] /\ Forall (fun c => c <> COMMA /\ c <> EQUALS /\ c <> QUOTE /\ c <> 0) s) = true -> plain s)
    by (intros s H; by apply bool_decide_eq_true in H).
  destruct o as [n| |n| |name val]; cbn [mopt_ok mopt_name mopt_val plain_val]; intros H.
  - split; [by apply C|by apply print_cno_plain].
  - split; [by apply C|done].
  - split; [by apply C|]. destruct H as [H _]. apply print_cno_plain. unfold is_count in H. lia.
  - split; [by apply C|done].
  - by destruct H as (? & ? & _).
Qed.

Lemma attr_of_text mtab pre o rest a : mopt_ok mtab o -> rest = [] \/ char_at rest = COMMA ->
  attr_of (pre ++ text_of o ++ rest) (mopt_name o) ((fun v => ((length pre + Datatypes.S (length (mopt_name o)))%nat, length v)) <$> mopt_val o) mtab a =
    if is_attr o then Attr (apply_mopt a o) else Other.
Proof.
  intros Hok Hr.
  assert (Num : forall name n, 0 <= n < 2 ^ 64 ->
    attr_number (pre ++ option_text name (Some (print_cno n)) ++ rest) (length pre + Datatypes.S (length name)) (length (print_cno n)) = (n, true)).
  { intros name n Hn. unfold option_text. pose proof (attr_number_print (pre ++ name ++ [EQUALS]) n rest Hn Hr) as E.
    rewrite !length_app in E. cbn [length] in E. rewrite Nat.add_1_r in E. rewrite <- E. f_equal. by rewrite <- !app_assoc. }
  assert (Len : forall n, 0 <= n < 2 ^ 64 -> exists k, length (print_cno n) = Datatypes.S k).
  { intros n Hn. pose proof (print_cno_nonempty n Hn) as N. destruct (print_cno n) as [|c l]; [done|]. by exists (length l). }
  destruct o as [n| |n| |name val]; cbn [mopt_ok] in Hok; cbn [mopt_name mopt_val fmap option_fmap option_map is_attr apply_mopt]; unfold text_of; cbn [mopt_name mopt_val].
  - pose proof (Num PPOPT_NAME n Hok) as E. destruct (Len n Hok) as [k Hk]. unfold attr_of. rewrite Hk in *. cbn [name_is]. by rewrite E.
  - done.
  - destruct Hok as [Hn ->]. assert (Hn' : 0 <= n < 2 ^ 64) by (unfold is_count in Hn; lia).
    pose proof (Num PIDOPT_NAME n Hn') as E. destruct (Len n Hn') as [k Hk]. unfold attr_of. rewrite Hk in *. cbn. cbn in E. rewrite E.
    unfold i32, is_count in *. rewrite Z.mod_small by lia. by replace (n + 2 ^ 31 - 2 ^ 31) with n by lia.
  - by rewrite Hok.
  - destruct Hok as (_ & _ & F). rewrite !Forall_cons in F. destruct F as (F1 & F2 & F3 & F4 & _). unfold attr_of. by rewrite F1, F2, F3, F4.
Qed.

(** ** The loop *)

Definition tail_text (os : list mopt) : list Z := match os with [] => [] | _ => COMMA :: join_opts (text_of <$> os) end.

Lemma join_head o os : join_opts (text_of <$> o :: os) = text_of o ++ tail_text os.
Proof. destruct os as [|o' os]; [by rewrite app_nil_r|]. by rewrite fmap_cons, join_cons. Qed.

Lemma tail_text_ok os : tail_text os = [] \/ char_at (tail_text os) = COMMA.
Proof. destruct os; [by left|by right]. Qed.

Definition texts_offset (os : list mopt) : nat := offset (text_of <$> os).

(** Where the loop stands with [os] left. *)
Definition position (str : list Z) (done os : list mopt) : nat := match os with [] => length str | _ => texts_offset done end.

Lemma drop_position done os : drop (position (join_opts (text_of <$> done ++ os)) done os) (join_opts (text_of <$> done ++ os)) = join_opts (text_of <$> os).
Proof.
  destruct os as [|o os]; cbn [position]; [by rewrite drop_all|]. rewrite fmap_app, fmap_cons. apply drop_offset.
Qed.

Lemma text_parts done o os : exists pre, length pre = texts_offset done /\ join_opts (text_of <$> done ++ o :: os) = pre ++ text_of o ++ tail_text os.
Proof.
  exists (match text_of <$> done with [] => [] | _ => join_opts (text_of <$> done) ++ [COMMA] end). split; [apply before_length|].
  rewrite fmap_app, fmap_cons, join_parts. f_equal. f_equal. by destruct os.
Qed.

Lemma position_next done o os : let str := join_opts (text_of <$> done ++ o :: os) in
  (position str done (o :: os) + (length (text_of o) + match tail_text os with [] => 0 | _ => 1 end))%nat = position str (done ++ [o]) os.
Proof.
  intros str. destruct (text_parts done o os) as (pre & Hp & E). unfold position at 1. rewrite <- Hp. destruct os as [|o' os].
  - unfold position, str. rewrite E, !length_app. cbn. lia.
  - destruct (text_parts done o []) as (pre' & Hp' & E'). cbn [position tail_text]. unfold texts_offset, offset in *.
    assert (L : length (join_opts (text_of <$> done ++ [o])) = (length pre' + length (text_of o))%nat) by (rewrite E', !length_app; cbn; lia).
    destruct (text_of <$> done ++ [o]) eqn:F; [by destruct done|]. rewrite L. lia.
Qed.

Lemma pending_text done pend (stop : nat) str tl : pend <> [] -> str = join_opts (text_of <$> done ++ pend) ++ tl ->
  stop = length (join_opts (text_of <$> done ++ pend)) ->
  take (stop - texts_offset done) (drop (texts_offset done) str) = join_opts (text_of <$> pend).
Proof.
  intros N -> ->. destruct pend as [|o pend]; [done|]. destruct (text_parts done o pend) as (pre & <- & E).
  rewrite join_head, E, !length_app, <- !app_assoc, drop_app_length.
  rewrite app_assoc, take_app_length'; [done|]. rewrite length_app. lia.
Qed.

(** What is before an option. *)
Lemma text_before done os str : str = join_opts (text_of <$> done ++ os) -> os <> [] ->
  exists tl, str = join_opts (text_of <$> done) ++ tl /\ (texts_offset done - 1)%nat = length (join_opts (text_of <$> done)).
Proof.
  intros -> N. destruct done as [|o done]; [by eexists|]. exists (COMMA :: join_opts (text_of <$> os)). split.
  - rewrite fmap_app, join_app; [done|done|by destruct os].
  - unfold texts_offset, offset. cbn [fmap list_fmap]. lia.
Qed.

Section Parsed.
Context {W T : Type} {A : Alloc W} {OS : OptstrOs W} (obs : W -> T) {OL : OptstrLaws OS obs}.
Context (alloc_quiet : forall n w, obs (malloc n w).2 = obs w).

(** The place of the first of the options that wait to be copied. *)
Definition waiting (want : bool) (done pend : list mopt) (prev : option nat) : Prop :=
  want = true -> prev = match pend with [] => None | _ => Some (texts_offset done) end.

Lemma gives_append_rest want str done pend prev stop rest tl : waiting want done pend prev ->
  str = join_opts (text_of <$> done ++ pend) ++ tl -> stop = length (join_opts (text_of <$> done ++ pend)) ->
  gives obs (attempt (append_rest want str prev stop rest))
    (fun r => match r with inl rest' => rest' = (if want then extended rest pend else rest) | inr e => e < 0 end).
Proof using OL.
  intros Wp Es El. unfold append_rest. destruct want; [|by apply gives_ret]. rewrite (Wp eq_refl).
  destruct pend as [|o pend]; [by apply gives_ret|]. rewrite (pending_text done (o :: pend) stop str tl) by done.
  intros w. unfold wpe, attempt, append_option, bind, lift_sum. destruct (as_append rest _ None w) as [[s|e] w'] eqn:E;
    destruct (ol_append (obs := obs) _ _ _ _ _ E) as [Eo H]; (split; [|done]); [|done]. rewrite H. by destruct rest.
Qed.

Lemma gives_parse mtab want str : forall os fuel done pend a prev rest,
  Forall (mopt_ok mtab) os -> str = join_opts (text_of <$> (done ++ pend) ++ os) -> waiting want done pend prev -> (length os < fuel)%nat ->
  Forall (fun o => is_attr o = false) pend ->
  gives obs (parse_attrs fuel str mtab false want (position str (done ++ pend) os) prev a None rest)
    (fun '(a', r) => match r with
                     | inl (found, rest') => a' = foldl apply_mopt a os /\ found = None /\
                         rest' = (if want then extended rest (pend ++ others os) else rest)
                     | inr e => e < 0
                     end).
Proof using OL.
  induction os as [|o os IH]; intros fuel done pend a prev rest F Es Wp Hf Hp; (destruct fuel as [|fuel]; [simpl in Hf; lia|]); cbn [parse_attrs].
  - assert (Ed : drop (position str (done ++ pend) []) str = []) by apply drop_all. rewrite Ed, ol_end. rewrite app_nil_r in Es.
    eapply gives_bind; [apply (gives_append_rest want str done pend prev _ rest []); [done|by rewrite app_nil_r|by rewrite <- Es]|].
    intros r Hr. apply gives_ret. destruct r as [rest'|e]; [|done]. cbn [others List.filter]. by rewrite app_nil_r.
  - apply Forall_cons in F as [Ho F]. pose proof (drop_position (done ++ pend) (o :: os)) as Ed. rewrite <- Es in Ed. rewrite Ed, join_head.
    destruct (mopt_plain mtab o Ho) as [Pn Pv].
    unfold text_of at 1. rewrite ol_next by (done || apply tail_text_ok). cbn [no_name no_namesz no_val no_next].
    pose proof (position_next (done ++ pend) o os) as Pos. rewrite <- Es in Pos. fold (text_of o). rewrite Pos.
    destruct (text_parts (done ++ pend) o os) as (pre & Hpre & Et). rewrite <- Es in Et.
    assert (Ep : position str (done ++ pend) (o :: os) = length pre) by (by rewrite Hpre).
    rewrite Ep, Nat.add_0_r.
    assert (En : take (length (mopt_name o)) (drop (length pre) str) = mopt_name o).
    { rewrite Et, drop_app_length. unfold text_of, option_text. by rewrite <- app_assoc, take_app_length. }
    rewrite En. replace (_ <$> (_ <$> mopt_val o)) with
      ((fun v => ((length pre + Datatypes.S (length (mopt_name o)))%nat, length v)) <$> mopt_val o) by (by destruct (mopt_val o)).
    rewrite Et at 1. rewrite (attr_of_text mtab) by (done || apply tail_text_ok). destruct (is_attr o) eqn:Ea.
    + destruct (text_before (done ++ pend) (o :: os) str Es ltac:(done)) as (tl & Etl & El). rewrite <- Hpre in El.
      eapply gives_bind; [by apply (gives_append_rest want str done pend prev _ rest tl)|]. intros [rest'|e] Hr; [|by apply gives_ret].
      eapply gives_bind; [apply (yields_value obs (inl None))|]. intros ? ->.
      pose proof (IH fuel ((done ++ pend) ++ [o]) [] (apply_mopt a o) (if want then None else prev) rest') as G.
      rewrite !app_nil_r in G. eapply gives_mono; [apply G; [done|by rewrite <- app_assoc|by intros ->|simpl in Hf; lia|constructor]|].
      intros [a' [[found rest2]|e]]; [|done]. intros (-> & -> & ->). split_and!; [done..|]. unfold others. cbn [List.filter].
      rewrite Ea. cbn [negb]. destruct want; [|done]. by rewrite Hr, extended_app.
    + pose proof (IH fuel done (pend ++ [o]) a (Some (default (length pre) prev)) rest) as G.
      rewrite !app_assoc in G. eapply gives_mono; [apply G|].
      * done.
      * by rewrite <- app_assoc.
      * intros Hw. rewrite (Wp Hw), Hpre. destruct pend; [by rewrite app_nil_r|done].
      * simpl in Hf. lia.
      * apply Forall_app. by split; [|constructor].
      * intros [a' [[found rest2]|e]]; [|done]. intros (-> & -> & ->). split_and!; [by destruct o|done|]. unfold others. cbn [List.filter].
        rewrite Ea. cbn [negb]. by rewrite <- app_assoc.
Qed.

Lemma texts_long os mtab : Forall (mopt_ok mtab) os -> (length os <= length (join_opts (text_of <$> os)))%nat.
Proof using.
  clear. induction 1 as [|o os H _ IH]; [done|]. rewrite join_head, length_app. destruct (mopt_plain mtab o H) as [[N _] _].
  assert (1 <= length (text_of o))%nat by (unfold text_of, option_text; rewrite length_app; destruct (mopt_name o); [done|simpl; lia]).
  destruct os as [|o' os]; simpl in *; lia.
Qed.

(** A text of options gives the attributes in it, and the other options in
    their order. *)
Lemma gives_attrs mtab want os a : Forall (mopt_ok mtab) os ->
  gives obs (nilfs_mount_attrs_parse a (join_opts (text_of <$> os)) false want mtab)
    (fun '(a', r) => match r with
                     | inl (found, rest) => a' = foldl apply_mopt a os /\ found = None /\ rest = (if want then extended None (others os) else None)
                     | inr e => e < 0
                     end).
Proof using OL alloc_quiet.
  intros F. unfold nilfs_mount_attrs_parse. eapply (gives_bind obs _ _ (fun _ => True)).
  - intros w. unfold wpe, attempt, m_malloc. pose proof (alloc_quiet (Z.of_nat (length (join_opts (text_of <$> os))) + 1) w) as E.
    by destruct (malloc _ w) as [[|] w'].
  - intros [_|e] _; [|by apply gives_ret].
    pose proof (gives_parse mtab want (join_opts (text_of <$> os)) os (Datatypes.S (length (join_opts (text_of <$> os)))) [] [] a None None F eq_refl) as G.
    cbn [app] in G. assert (P0 : position (join_opts (text_of <$> os)) [] os = O) by (by destruct os). rewrite P0 in G.
    apply G; [done|pose proof (texts_long os mtab F); lia|constructor].
Qed.
End Parsed.

(** ** From one program to the next *)

(** What is stored in the context is read back from it; an attribute is added
    behind a comma. *)
Class StoreLaws {W : Type} (LM : LibmountOs W) : Prop := {
  sl_set : forall s w, lm_attributes (at_set s w) = s;
  sl_append : forall s w, lm_attributes (at_append s w) = Some (match lm_attributes w with None => s | Some t => t ++ COMMA :: s end);
}.

(** What there is to know of attributes: the process ID and the period only
    matter while a daemon runs. *)
Definition stored (a : nilfs_mount_attrs) : nilfs_mount_attrs :=
  if ma_nogc a then mk_attrs 0 true ULONG_MAX
  else if ma_gcpid a =? 0 then nilfs_mount_attrs_init
  else mk_attrs (ma_gcpid a) false (ma_pp a).

Definition attrs_ok (a : nilfs_mount_attrs) : Prop := is_count (ma_gcpid a) /\ 0 <= ma_pp a < 2 ^ 64.

Section Kept.
Context {W T : Type} {A : Alloc W} {X : CleanerExec.ExecOs W} {LM : LibmountOs W} (obs : W -> T) {OL : OptstrLaws lm_optstr obs} {SL : StoreLaws LM}.
Context (alloc_quiet : forall n w, obs (malloc n w).2 = obs w).

(** The options that are stored. *)
Definition stored_opts (old : option nilfs_mount_attrs) (a : nilfs_mount_attrs) : list mopt :=
  if ma_nogc a then [Nogc]
  else if ma_gcpid a =? 0 then match old with Some _ => [Noattr] | None => [] end
  else Gcpid (ma_gcpid a) :: (if ma_pp a =? ULONG_MAX then [] else [Pp (ma_pp a)]).

Lemma gcpid_option pid : is_count pid -> gcpid_text pid = text_of (Gcpid pid).
Proof using. clear. intros H. unfold is_count in H. unfold gcpid_text, u64. rewrite Z.mod_small by lia. reflexivity. Qed.

Lemma update_stores old a w : attrs_ok a ->
  exists w1, nilfs_mount_attrs_update old (Some a) w = (Ok tt, w1) /\ lm_attributes w1 = extended None (stored_opts old a).
Proof using SL.
  clear OL alloc_quiet. intros [Hg Hp]. unfold nilfs_mount_attrs_update, stored_opts, bind, modify. destruct (ma_nogc a); cbn [negb].
  - destruct old; (eexists; split; [done|]; by rewrite sl_append, sl_set).
  - destruct (ma_gcpid a =? 0); cbn [negb].
    + destruct old; (eexists; split; [done|]; by rewrite sl_set).
    + destruct (ma_pp a =? ULONG_MAX); cbn [negb]; destruct old; (eexists; split; [done|]; by rewrite ?sl_append, sl_set, gcpid_option).
Qed.

Lemma stored_opts_ok old a : attrs_ok a -> Forall (mopt_ok true) (stored_opts old a) /\ foldl apply_mopt nilfs_mount_attrs_init (stored_opts old a) = stored a.
Proof using.
  clear. intros [Hg Hp]. unfold stored_opts, stored. destruct (ma_nogc a); [by repeat constructor|].
  destruct (ma_gcpid a =? 0); [destruct old; by repeat constructor|].
  destruct (Z.eqb_spec (ma_pp a) ULONG_MAX) as [E|_].
  - split; [by apply Forall_singleton|]. cbn. by rewrite E.
  - split; [|done]. apply Forall_cons; split; [by split|by apply Forall_singleton].
Qed.

(** C13: what mount stores is what umount finds - the process ID of the
    daemon, so that it is stopped, the protection period, for which it may
    have to be started again, and that there is none: the text of attributes
    that [nilfs_mount_attrs_update] leaves in the context, whatever the old
    attributes were, is taken apart by the preparation of the umount into the
    same attributes.  Only when memory runs out does the program end
    instead. *)
Theorem attrs_kept old a before w v v' : attrs_ok a -> lm_prepare_umount v = (0, v') ->
  exists w1, nilfs_mount_attrs_update old (Some a) w = (Ok tt, w1) /\
    (lm_attributes v' = lm_attributes w1 ->
     wpe (UmountLib.nilfs_prepare_umount before) (fun r v'' => r = (0, stored a) /\ obs v'' = obs v') (fun _ _ => False)
       (fun c _ => c = EX_SYSERR) v).
Proof using OL SL alloc_quiet.
  intros Ha Hv. destruct (update_stores old a w Ha) as (w1 & E & Et). exists w1. split; [done|]. intros Ev. rewrite Et in Ev.
  destruct (stored_opts_ok old a Ha) as [Ok1 Fold]. unfold UmountLib.nilfs_prepare_umount. apply wpe_bind.
  unfold wpe at 1, asks. rewrite Hv. cbn [Z.ltb Z.compare]. apply wpe_bind, wpe_gets. rewrite Ev, <- Fold.
  destruct (stored_opts old a) as [|o os]; [by apply wpe_ret|]. cbn [extended]. apply wpe_bind.
  eapply wpe_mono; [apply (gives_attrs obs alloc_quiet true false (o :: os) nilfs_mount_attrs_init Ok1)|..]; cbv beta; [|done|by intros ? ? [-> _]].
  intros [a' [[found rest]|e]] v2 [H Eo]; [|by apply wpe_exit]. destruct H as (-> & _ & _). by apply wpe_ret.
Qed.
End Kept.

(** ** What is not refused *)

Section Refusals.
Context {W : Type} {A : Alloc W} {X : CleanerExec.ExecOs W} {LM : LibmountOs W}.
Import MountLib.

(** A second mount for writing is reported, but the result is still the 0 of
    the call before: the program goes on to mount. *)
Lemma overlap_goes_on fuel mi mflags fs w w1 w2 w3 w4 w5 :
  lm_prepare_mount w = (0, w1) -> lm_get_mflags w1 = (inl mflags, w2) ->
  set_flag mflags MS_RDONLY = false -> set_flag mflags MS_BIND = false -> set_flag mflags MS_REMOUNT = false ->
  device_is_readonly (lm_source w2) w2 = (Ok None, w3) -> lm_get_mtab w3 = (0, w4) -> nilfs_find_rw_mount w4 = (Ok (Some fs), w5) ->
  exists mi', nilfs_prepare_mount fuel mi w = (Ok (0, mi'), w5).
Proof using.
  intros E1 E2 F1 F2 F3 E3 E4 E5. unfold nilfs_prepare_mount, bind, asks, gets. rewrite E1. cbn -[nilfs_find_rw_mount]. rewrite E2, F1, F2.
  cbn -[nilfs_find_rw_mount]. rewrite E3, E4. cbn -[nilfs_find_rw_mount]. rewrite E5, F3. by eexists.
Qed.

(** Nor is a remount at another mount point. *)
Lemma remount_elsewhere_goes_on fuel mi fs w : fs_attributes fs = None -> lm_match_target fs (lm_target w) w = false ->
  exists mi', prepare_remount fuel 0 fs mi w = (Ok (0, mi'), w).
Proof using. intros E1 E2. unfold prepare_remount, bind, ret, gets, get_state. rewrite E1. cbn. rewrite E2. by eexists. Qed.
End Refusals.
