(* ===== verification/MountDemo.v ===== *)
(** * Mounting on a concrete system

    A system with a few files, one lock and a clock: the mount table is
    updated in it, a second mount is refused, and options are stored.  With
    libmount in its place the second mount is not refused.  The
    runs are the witnesses of the theorems about the mount helpers. *)

From Stdlib Require Import String.
From stdpp Require Import gmap.
From S2P Require Import Prelude Vector Hoare Ondisk Kernel Nilfs Parser Tune Float64 Cldconfig Realpath Cleanerd CleanerExec Ismounted Mounts Mntent Fstab FstabSpec MtabSpec MountOpts MountOptsSpec Mount MountSpec Attrs Libmount AttrsSpec.

Module MountDemo.
(** The files, the stream and the lock; the time; the calls of mount(2). *)
Record world := mk_world { wd_view : mtab_view; wd_time : Z; wd_mounts : list (list Z * list Z) }.
Definition with_view (w : world) (v : mtab_view) : world := mk_world v (wd_time w) (wd_mounts w).
Definition with_files (w : world) (files : gmap (list Z) (list Z)) : world :=
  with_view w (with_stream (wd_view w) files (mv_stream (wd_view w)) (mv_fault (wd_view w))).
Definition files_of (w : world) : gmap (list Z) (list Z) := mv_files (wd_view w).
Definition tick : Z := 10 * NSEC_PER_SEC.

#[export] Instance demo_alloc : Alloc world := fun _ w => (true, w).

Definition demo_read (p : list Z) (w : world) : (list Z * bool + Z) * world :=
  (match files_of w !! p with Some text => inl (text, false) | None => inr ENOENT end, w).
Definition demo_write (p mode : list Z) (w : world) : (Z + Z) * world :=
  let files := if bool_decide (mode = codes "w") then <[p := []]> (files_of w) else files_of w in
  (inl 5, with_view w (with_stream (wd_view w) files (Some (5, p, [])) (mv_fault (wd_view w)))).
Definition demo_print (h : Z) (text : list Z) (w : world) : (unit + Z) * world :=
  match mv_stream (wd_view w) with
  | Some (h, p, buf) => (inl tt, with_view w (with_stream (wd_view w) (files_of w) (Some (h, p, buf ++ text)) (mv_fault (wd_view w))))
  | None => (inr 9, w)
  end.
Definition demo_close (h : Z) (w : world) : (unit + Z) * world :=
  match mv_stream (wd_view w) with
  | Some (_, p, buf) =>
    (inl tt, with_view w (with_stream (wd_view w) (<[p := default [] (files_of w !! p) ++ buf]> (files_of w)) None (mv_fault (wd_view w))))
  | None => (inr 9, w)
  end.
Definition demo_link (p q : list Z) (w : world) : (unit + Z) * world :=
  if mv_locked (wd_view w) then (inr EEXIST, w)
  else (inl tt, with_view w (mk_view (files_of w) None true (files_of w !! _PATH_MOUNTED) false)).
Definition demo_unlink (p : list Z) (w : world) : (unit + Z) * world :=
  if bool_decide (p = _PATH_MOUNTED_LOCK)
  then (inl tt, with_view w (mk_view (files_of w) (mv_stream (wd_view w)) false (mv_old (wd_view w)) (mv_fault (wd_view w))))
  else (inl tt, with_files w (delete p (files_of w))).
Definition demo_rename (p q : list Z) (w : world) : (unit + Z) * world :=
  match files_of w !! p with
  | Some text => (inl tt, with_files w (<[q := text]> (delete p (files_of w))))
  | None => (inr ENOENT, w)
  end.
Definition later (w : world) : world := mk_world (wd_view w) (wd_time w + tick) (wd_mounts w).
Definition time_of (w : world) : timespec := mk_timespec (wd_time w / NSEC_PER_SEC) (wd_time w `mod` NSEC_PER_SEC).

#[export] Instance demo_mtab : MtabOs world := {
  mb_streams := {|
    mo_umask := fun _ w => (18, w); mo_fopen_read := demo_read; mo_fopen_write := demo_write;
    mo_seek_end := fun _ w => (inl tt, w); mo_fprintf := demo_print; mo_fclose := demo_close |};
  mb_lstat := fun _ w => (inl false, w); mb_owner := fun _ w => (inl (0, 0), w); mb_open := fun _ _ w => (inl 3, w);
  mb_close := fun _ w => w; mb_getpid := fun _ => 42; mb_link := demo_link; mb_unlink := demo_unlink; mb_rename := demo_rename;
  mb_setlk := fun _ w => (inl tt, w); mb_setlkw := fun _ w => (inl tt, w); mb_alarm := fun _ w => w;
  mb_monotonic := fun w => (inl (time_of (later w)), later w); mb_nanosleep := fun _ w => w;
  mb_fchmod := fun _ _ w => (inl tt, w); mb_fchown := fun _ _ _ w => (inl tt, w);
}.

Lemma locked_inv w v : locked_view wd_view w = Some v -> wd_view w = v /\ mv_locked v = true.
Proof. unfold locked_view. destruct (mv_locked (wd_view w)) eqn:E; [|done]. intros [= <-]. by split. Qed.

Lemma locked_same w v : wd_view w = v -> mv_locked v = true -> locked_view wd_view w = Some v.
Proof. unfold locked_view. by intros -> ->. Qed.

#[export] Instance demo_laws : MtabLaws demo_mtab wd_view.
Proof.
  split; try (by intros ? w r w' [= <- <-]); try (by intros ? ? w r w' [= <- <-]); try (by intros ? w); try (by intros ? ? ? w r w' [= <- <-]).
  - by intros w r w' [= <- <-].
  - intros p w r w' E Hp. cbn in E. unfold demo_unlink in E. rewrite bool_decide_eq_false_2 in E by done. injection E as <- <-.
    unfold locked_view, with_files. cbn. by destruct (mv_locked (wd_view w)).
  - intros w r w' [= <- <-]. by rewrite bool_decide_eq_false_2.
  - intros p w r w' E U. unfold locked_view in U. cbn in E. unfold demo_link in E. destruct (mv_locked (wd_view w)); [done|].
    injection E as <- <-. by eexists.
  - intros w r w' v E [<- _]%locked_inv. cbn in E. unfold demo_unlink in E. rewrite bool_decide_eq_true_2 in E by done. by injection E as <- <-.
  - intros p w r w' v [= <- <-] L. destruct (locked_inv _ _ L) as [<- K]. unfold files_of. destruct (mv_files (wd_view w) !! p) as [text|] eqn:F; [|done].
    exists text. split_and!; [done..|]. rewrite orb_false_r. unfold with_stream. rewrite L. by destruct (wd_view w).
  - intros p w r w' v [= <- <-] L _. destruct (locked_inv _ _ L) as [<- K]. by apply locked_same.
  - intros h text w r w' v p buf E L Es. destruct (locked_inv _ _ L) as [<- K]. cbn in E. unfold demo_print in E. rewrite Es in E.
    injection E as <- <-. exists (buf ++ text). split; [|done]. by apply locked_same.
  - intros h w r w' v p buf text E L Es Et. destruct (locked_inv _ _ L) as [<- K]. cbn in E. unfold demo_close, files_of in E. rewrite Es, Et in E.
    injection E as <- <-. exists buf. split; [|done]. rewrite bool_decide_eq_false_2, orb_false_r by (intros H; by apply H). by apply locked_same.
  - intros p q w r w' v text E L _ F. destruct (locked_inv _ _ L) as [<- K]. cbn in E. unfold demo_rename, files_of in E. rewrite F in E.
    injection E as <- <-. by apply locked_same.
Qed.

#[export] Instance demo_clock : ClockLaws demo_mtab wd_time tick.
Proof.
  split; [done|..]; try (intros; reflexivity).
  - intros w r w' [= <- <-]. split; [done|]. intros now [= <-]. cbn. unfold time_of, later, valid_timespec, ns. cbn.
    split; [apply Z.mod_pos_bound; done|]. unfold NSEC_PER_SEC. rewrite Z.mul_comm, <- Z.div_mod; done.
  - intros p q w r w' E. cbn in E. unfold demo_link in E. destruct (mv_locked (wd_view w)); by injection E as <- <-.
  - intros p fl w r w' [= <- <-]. done.
  - intros fd w r w' [= <- <-]. done.
  - intros fd w r w' [= <- <-]. done.
  - intros p w r w' E. cbn in E. unfold demo_unlink in E. by case_bool_decide; injection E as <- <-.
Qed.

Definition table : list Z := codes "/dev/sda1 / ext4 rw 0 1
/dev/sdb1 /mnt/my\040disk nilfs2 rw,gcpid=77 0 0
".
Definition demo_files : gmap (list Z) (list Z) := {[_PATH_MOUNTED := table]}.
Definition demo_world : world := mk_world (mk_view demo_files None false None false) 0 [].
Definition demo_state : mtab_state world := mk_mts demo_world None None false 0.
Definition disk : list Z := codes "/mnt/my disk".
Definition new_entry : my_mntent := mk_mnt (codes "/dev/sdb1") disk fstype (codes "ro") 0 0.

Definition table_after (m : M (mtab_state world) unit) : option (list Z) := mtab_of (wd_view (ms_world (m demo_state).2)).

(** The options of the entry are replaced; without a new entry it is removed. *)
Example table_with_options : table_after (update_mtab 5 disk (Some new_entry)) = Some (codes "/dev/sda1 / ext4 rw 0 1
/dev/sdb1 /mnt/my\040disk nilfs2 ro 0 0
").
Proof. vm_compute. reflexivity. Qed.
Example table_without : table_after (update_mtab 5 disk None) = Some (codes "/dev/sda1 / ext4 rw 0 1
").
Proof. vm_compute. reflexivity. Qed.

(** ** Mounting *)

#[export] Instance demo_paths : PathOs world := {
  po_getcwd := fun _ w => (inl (codes "/root"), w); po_readlink := fun _ _ w => (inr 22, w);
}.
#[export] Instance demo_exec : ExecOs world := {
  xo_errno := fun _ => 0; xo_stat := fun _ w => (inl tt, w); xo_pipe := fun w => (inl tt, w); xo_fork := fun w => (inl 4711, w);
  xo_setgid := fun w => (true, w); xo_setuid := fun w => (true, w); xo_dup2 := fun w => (true, w); xo_execv := fun _ _ w => (true, w);
  xo_fdopen := fun w => (inl tt, w); xo_pipe_text := fun w => (codes "NILFS_CLEANERD_PID=4711", w);
  xo_kill := fun _ _ w => (inr ESRCH, w);
  xo_monotonic := fun w => (inl (time_of w), w); xo_nanosleep := fun ts w => ((0, 0), w);
}.
#[export] Instance demo_opts : OptsOs world := { op_uid := fun _ w => (None, w); op_gid := fun _ w => (None, w); op_realloc := fun _ _ w => (Some false, w) }.
#[export] Instance demo_mount : MountOs world := {
  mp_stack := fun n => replicate n 0; mp_rofs := fun _ w => (inl false, w); mp_suid := fun _ => false;
  mp_mount := fun device dir _ _ _ w => (inl tt, mk_world (wd_view w) (wd_time w) (wd_mounts w ++ [(device, dir)]));
}.

Definition options : mount_options := mk_mopts None None false false false false false.
Definition mount_run (device dir : string) : res Z * mtab_state world :=
  mount_one 5 (codes device) (codes dir) options 0 None (repeat None 8) demo_state.

(** A device that is not mounted gets its entry; the daemon runs. *)
Example mount_elsewhere : let r := mount_run "/dev/sdc1" "/mnt/x" in
  r.1 = Ok 0 /\ wd_mounts (ms_world r.2) = [(codes "/dev/sdc1", codes "/mnt/x")] /\
  mtab_of (wd_view (ms_world r.2)) = Some (table ++ codes "/dev/sdc1 /mnt/x nilfs2 rw,gcpid=4711 0 0
").
Proof. vm_compute. split_and!; reflexivity. Qed.

(** The buffer of a path, with NUL behind it. *)
Definition buffer (path : list Z) : list Z := path ++ replicate (Z.to_nat (PATH_MAX + 2) - length path) 0.

(** What a file holds for the program. *)
Definition demo_text (p : list Z) (w : world) : option (list Z * bool) := (fun text => (text, false)) <$> files_of w !! p.
End MountDemo.

(** ** With libmount *)

Module LibDemo.
Record world := mk_world { lw_attrs : option (list Z); lw_entries : list libmnt_fs; lw_mounts : Z; lw_target : list Z }.
#[export] Instance lib_alloc : Alloc world := fun _ w => (true, w).

(** The text up to a character. *)
Fixpoint span (p : Z -> bool) (s : list Z) : list Z * list Z :=
  match s with
  | c :: s' => if p c then let '(a, b) := span p s' in (c :: a, b) else ([], s)
  | [] => ([], [])
  end.
Definition skip_comma (s : list Z) : nat := match s with [] => 0 | _ => 1 end.
Definition demo_next (s : list Z) : option next_option :=
  match s with
  | [] => None
  | _ =>
    let '(name, r) := span (fun c => negb (c =? COMMA) && negb (c =? EQUALS)) s in
    match r with
    | 61 :: r =>
      let '(v, r) := span (fun c => negb (c =? COMMA)) r in
      Some (mk_next 0 (length name) (Some (Datatypes.S (length name), length v)) (length name + Datatypes.S (length v) + skip_comma r))
    | _ => Some (mk_next 0 (length name) None (length name + skip_comma r))
    end
  end.
Definition demo_append (s : option (list Z)) (name : list Z) (val : option (list Z)) (w : world) : (list Z + Z) * world :=
  (inl (match s with None => option_text name val | Some s => s ++ COMMA :: option_text name val end), w).
Definition with_attrs (o : option (list Z)) (w : world) : world := mk_world o (lw_entries w) (lw_mounts w) (lw_target w).

#[export] Instance demo_optstr : OptstrOs world := { as_next := demo_next; as_append := demo_append }.
#[export] Instance demo_attrs : AttrsOs world := {
  at_set := with_attrs;
  at_append s w := with_attrs (Some (match lw_attrs w with None => s | Some t => t ++ COMMA :: s end)) w;
}.

Lemma span_at p s r : Forall (fun c => p c = true) s -> r = [] \/ p (char_at r) = false -> span p (s ++ r) = (s, r).
Proof.
  induction 1 as [|c s Hc _ IH]; intros Hr; cbn [app span].
  - destruct r as [|c r]; [done|]. destruct Hr as [?|Hr]; [done|]. simpl in Hr. cbn [span]. by rewrite Hr.
  - by rewrite Hc, IH.
Qed.

#[export] Instance demo_optstr_laws : OptstrLaws demo_optstr (fun w : world => w).
Proof.
  split.
  - done.
  - intros name val rest [N F] Pv Hr. cbn [as_next demo_optstr]. unfold demo_next.
    assert (Fn : Forall (fun c => negb (c =? COMMA) && negb (c =? EQUALS) = true) name).
    { eapply Forall_impl; [exact F|]. cbv beta. intros c (H1 & H2 & _). by rewrite (proj2 (Z.eqb_neq _ _) H1), (proj2 (Z.eqb_neq _ _) H2). }
    destruct (option_text name val ++ rest) as [|c0 s0] eqn:E; [by destruct name|]. rewrite <- E. clear E c0 s0. unfold option_text.
    destruct val as [v|]; cbn [fmap option_fmap option_map].
    + rewrite <- app_assoc, (span_at _ name) by (done || by right). cbn [app]. destruct Pv as [_ Fv].
      rewrite (span_at _ v); [|eapply Forall_impl; [exact Fv|]; cbv beta; intros c (H1 & _); by rewrite (proj2 (Z.eqb_neq _ _) H1)
                              |destruct Hr as [-> |Hr]; [by left|right; by rewrite Hr]].
      rewrite length_app. cbn [length]. destruct rest; done.
    + rewrite app_nil_r, (span_at _ name) by (done || by (destruct Hr as [-> |Hr]; [left|right; rewrite Hr])).
      destruct rest as [|c rest]; [done|]. destruct Hr as [?|Hr]; [done|]. simpl in Hr. by subst c.
  - intros s t w r w' E. cbn in E. injection E as <- <-. unfold option_text. rewrite app_nil_r. by destruct s.
Qed.

#[export] Instance demo_libmount : LibmountOs world := {
  lm_optstr := demo_optstr; lm_attrs := demo_attrs; lm_new_context := fun w => (true, w); lm_has_fs := fun _ => true;
  lm_set_fstype := fun _ w => w; lm_disable_helpers := fun w => w; lm_enable_fake := fun w => w; lm_enable_verbose := fun w => w;
  lm_enable_lazy := fun w => w; lm_enable_rdonly_umount := fun w => w; lm_disable_mtab := fun w => w; lm_append_options := fun _ w => (0, w);
  lm_set_source := fun _ w => w; lm_set_target := fun d w => mk_world (lw_attrs w) (lw_entries w) (lw_mounts w) d;
  lm_source := fun _ => codes "/dev/sdb1"; lm_target := lw_target; lm_fstype := fun _ => Libmount.fstype; lm_root := fun _ => None;
  lm_set_root := fun _ w => w; lm_attributes := lw_attrs; lm_is_fake := fun _ => false; lm_is_rdonly_umount := fun _ => false;
  lm_get_mflags := fun w => (inl 0, w); lm_get_mtab := fun w => (0, w); lm_new_iter := fun w => (true, w); lm_entries := lw_entries;
  lm_is_mounted := fun _ => false; lm_match_fstype := fun _ _ => true; lm_match_source := fun fs s _ => bool_decide (fs_source fs = s);
  lm_match_target := fun fs d _ => bool_decide (fs_target fs = d); lm_match_options := fun _ _ => true;
  lm_prepare_mount := fun w => (0, w); lm_do_mount := fun w => (0, mk_world (lw_attrs w) (lw_entries w) (lw_mounts w + 1) (lw_target w));
  lm_finalize_mount := fun w => (0, w); lm_prepare_umount := fun w => (0, w); lm_do_umount := fun w => (0, w); lm_finalize_umount := fun w => (0, w);
  lm_open := fun _ w => (inl 3, w); lm_rofs := fun _ w => (inl false, w); lm_close := fun _ w => w; lm_suid := fun _ => false;
}.

#[export] Instance demo_store_laws : StoreLaws demo_libmount.
Proof. by split. Qed.

#[export] Instance lib_exec : ExecOs world := {
  xo_errno := fun _ => 0; xo_stat := fun _ w => (inl tt, w); xo_pipe := fun w => (inl tt, w); xo_fork := fun w => (inl 4711, w);
  xo_setgid := fun w => (true, w); xo_setuid := fun w => (true, w); xo_dup2 := fun w => (true, w); xo_execv := fun _ _ w => (true, w);
  xo_fdopen := fun w => (inl tt, w); xo_pipe_text := fun w => (codes "NILFS_CLEANERD_PID=4711", w);
  xo_kill := fun _ _ w => (inr ESRCH, w); xo_monotonic := fun w => (inl (mk_timespec 0 0), w); xo_nanosleep := fun ts w => ((0, 0), w);
}.

(** The device is mounted for writing on another directory. *)
Definition start : world := mk_world None [mk_fs 1 (codes "/dev/sdb1") (codes "/mnt/my disk") None None] 0 [].

(** It is mounted a second time, and a second daemon is started. *)
Example mounted_twice : let r := MountLib.mount_main 5 [] [codes "/dev/sdb1"; codes "/mnt/x"] start in
  r.1 = Ok 0 /\ lw_mounts r.2 = 1 /\ lw_attrs r.2 = Some (codes "gcpid=4711").
Proof. vm_compute. split_and!; reflexivity. Qed.

Definition attrs : nilfs_mount_attrs := mk_attrs 4711 false 3600.
Definition umounting : world := with_attrs (Some (codes "gcpid=4711,pp=3600")) start.
End LibDemo.

Section AttrsWitness.
Import LibDemo.

Lemma attrs_kept_witness :
  exists w1, nilfs_mount_attrs_update None (Some LibDemo.attrs) LibDemo.start = (Ok tt, w1) /\
    (lm_attributes LibDemo.umounting = lm_attributes w1 ->
     wpe (UmountLib.nilfs_prepare_umount nilfs_mount_attrs_init) (fun r v'' => r = (0, stored LibDemo.attrs) /\ v'' = LibDemo.umounting)
       (fun _ _ => False) (fun c _ => c = EX_SYSERR) LibDemo.umounting).
Proof.
  apply (attrs_kept (LM := demo_libmount) (fun w : LibDemo.world => w)).
  - done.
  - split; split; (discriminate || reflexivity).
  - reflexivity.
Defined.
End AttrsWitness.

Import MountDemo.

Lemma update_mtab_replaces_witness :
  wpe (update_mtab 5 disk (Some new_entry))
    (fun _ s' => ms_created s' = false /\
       (not_writable demo_state (ms_world s') \/ exists v, outcome disk (Some new_entry) v /\ lock_returned (view := wd_view) v (ms_world s')))
    (fun _ _ => False) (dead (view := wd_view)) demo_state.
Proof.
  apply (update_mtab_replaces (ML := demo_laws) (CL := demo_clock)).
  - split; reflexivity.
  - unfold enough_turns, tick, MOUNTLOCK_MAXTIME, NSEC_PER_SEC. lia.
Defined.

Lemma mount_refused_witness :
  refuses (fun w : world => w) (mount_one 5 (codes "/dev/sdb1") (codes "/mnt/x") options 0 None (repeat None 8)) demo_state.
Proof.
  apply (mount_refused (fun w : world => w)) with (file_text := demo_text) (fsname := codes "/dev/sdb1") (dir := codes "/mnt/x").
  - done.
  - done.
  - intros p w r w' [= <- <-]. split; [done|]. unfold demo_text. by destruct (files_of w !! p).
  - intros w _. exists (inl (buffer (codes "/dev/sdb1"))), w. split; [vm_compute; reflexivity|]. split; [done|vm_compute; reflexivity].
  - intros w _. exists (inl (buffer (codes "/mnt/x"))), w. split; [vm_compute; reflexivity|]. split; [done|vm_compute; reflexivity].
  - reflexivity.
  - reflexivity.
  - right. split; [vm_compute; reflexivity|by split].
Defined.

Lemma option_stored_witness :
  gives (fun w : world => w) (let* s := replace_drop_opt (Some (join_opts [codes "rw"; codes "gcpid=4711"; codes "pp=60"])) gcpid_opt_fmt 352 true in
             let* r := find_opt s gcpid_opt_fmt in
             ret (s, r))
    (fun '(s, r) => s = Some (join_opts (replaced gcpid_opt_fmt (Some (print_opt gcpid_opt_fmt 352)) [codes "rw"; codes "gcpid=4711"; codes "pp=60"])) /\
                    snd <$> r = Some 352).
Proof.
  apply (option_stored (fun w : world => w)).
  - done.
  - done.
  - done.
  - repeat (apply Forall_cons; split); [split_and!; [discriminate|apply (bool_decide_unpack _); reflexivity|reflexivity]..|constructor].
  - split; [reflexivity|split; [discriminate|reflexivity]].
  - intros i v o [= <- <-] [= <-]. apply Nat.leb_le. reflexivity.
  - intros a b w _. discriminate.
Defined.
