(* ===== verification/Clean.v ===== *)
(** * The client program: sbin/nilfs-clean.c

    The options choose a command and the parameters of a run; the command is
    one request to the daemon.  getopt is given by its results, pairs of an
    option character and its argument ([None] for a null pointer).  Messages
    are left out. *)

From Stdlib Require Import String.
From S2P Require Import Prelude Vector Hoare Ondisk Fields Kernel Nilfs Parser Tune Float64 Cldconfig Realpath Cleanerd CleanerExec Ismounted Mounts CleanerCtl.

(** ** Options *)

Definition NILFS_CLEAN_CMD_RUN : Z := 0.
Definition NILFS_CLEAN_CMD_INFO : Z := 1.
Definition NILFS_CLEAN_CMD_SUSPEND : Z := 2.
Definition NILFS_CLEAN_CMD_RESUME : Z := 3.
Definition NILFS_CLEAN_CMD_RELOAD : Z := 4.
Definition NILFS_CLEAN_CMD_STOP : Z := 5.
Definition NILFS_CLEAN_CMD_SHUTDOWN : Z := 6.

Definition NILFS_CLEANER_ARG_UNIT_NONE : Z := 0.
Definition NILFS_CLEANER_ARG_UNIT_PERCENT : Z := 1.

(** The static variables of the program. *)
Record clean_options := mk_clean {
  no_clean_cmd : Z; no_conffile : option (list Z); no_show_version_only : bool;
  no_protection_period : Z; no_nsegments_per_clean : Z; no_cleaning_interval : timespec;
  no_min_reclaimable_blocks : Z; no_min_reclaimable_blocks_unit : Z;
}.

Definition default_clean : clean_options :=
  mk_clean NILFS_CLEAN_CMD_RUN None false ULONG_MAX 2 (mk_timespec 0 100000000) ULONG_MAX NILFS_CLEANER_ARG_UNIT_NONE.

Definition set_clean_cmd (cmd : Z) (o : clean_options) : clean_options :=
  mk_clean cmd (no_conffile o) (no_show_version_only o) (no_protection_period o) (no_nsegments_per_clean o)
    (no_cleaning_interval o) (no_min_reclaimable_blocks o) (no_min_reclaimable_blocks_unit o).
Definition set_conffile (conffile : option (list Z)) (o : clean_options) : clean_options :=
  mk_clean (no_clean_cmd o) conffile (no_show_version_only o) (no_protection_period o) (no_nsegments_per_clean o)
    (no_cleaning_interval o) (no_min_reclaimable_blocks o) (no_min_reclaimable_blocks_unit o).
Definition set_version (o : clean_options) : clean_options :=
  mk_clean (no_clean_cmd o) (no_conffile o) true (no_protection_period o) (no_nsegments_per_clean o)
    (no_cleaning_interval o) (no_min_reclaimable_blocks o) (no_min_reclaimable_blocks_unit o).
Definition set_period (period : Z) (o : clean_options) : clean_options :=
  mk_clean (no_clean_cmd o) (no_conffile o) (no_show_version_only o) period (no_nsegments_per_clean o)
    (no_cleaning_interval o) (no_min_reclaimable_blocks o) (no_min_reclaimable_blocks_unit o).
Definition set_gcspeed (nsegs : Z) (interval : timespec) (o : clean_options) : clean_options :=
  mk_clean (no_clean_cmd o) (no_conffile o) (no_show_version_only o) (no_protection_period o) nsegs
    interval (no_min_reclaimable_blocks o) (no_min_reclaimable_blocks_unit o).
Definition set_min_reclaimable (blocks unit : Z) (o : clean_options) : clean_options :=
  mk_clean (no_clean_cmd o) (no_conffile o) (no_show_version_only o) (no_protection_period o) (no_nsegments_per_clean o)
    (no_cleaning_interval o) blocks unit.

(** [None] of the outer option is undefined behaviour (a conversion of a
    double that does not fit), of the inner one an error. *)
Definition nilfs_clean_parse_gcspeed (arg : list Z) (o : clean_options) : option (option clean_options) :=
  let '(nsegs, endptr) := strtoull arg 10 in
  if same_ptr (Some endptr) arg || negb ((char_at endptr =? 47) || (char_at endptr =? 0)) then Some None
  else if nsegs =? ULONG_MAX then Some None
  else if char_at endptr =? 47 then
    let rest := tail endptr in
    let '(interval, endptr2) := strtoull rest 10 in
    if same_ptr (Some endptr2) rest then Some None
    else if char_at endptr2 =? 46 then
      let '(interval2, endptr3, erange) := strtod rest in
      match endptr3 with
      | _ :: _ => Some None
      | [] =>
        if (erange : bool) then Some None
        else
          nsec ← f64_to_i64 (f64_mul (f64_sub interval2 (f64_of_Z interval)) (f64_of_Z 1000000000));
          Some (Some (set_gcspeed (i32 nsegs) (mk_timespec (i64 interval) nsec) o))
      end
    else
      match endptr2 with
      | _ :: _ => Some None
      | [] => if interval =? ULONG_MAX then Some None
              else Some (Some (set_gcspeed (i32 nsegs) (mk_timespec (i64 interval) 0) o))
      end
  else Some (Some (set_gcspeed (i32 nsegs) (mk_timespec 1 0) o)).

Definition nilfs_clean_parse_min_reclaimable (arg : list Z) (o : clean_options) : option clean_options :=
  let '(blocks, endptr) := strtoull arg 10 in
  if same_ptr (Some endptr) arg || negb ((char_at endptr =? 0) || (char_at endptr =? 37)) then None
  else if blocks =? ULONG_MAX then None
  else if char_at endptr =? 37 then
    if 100 <? blocks then None else Some (set_min_reclaimable blocks NILFS_CLEANER_ARG_UNIT_PERCENT o)
  else Some (set_min_reclaimable blocks NILFS_CLEANER_ARG_UNIT_NONE o).

(** The body of the loop over the options. *)
Definition parse_clean_option (c : Z) (optarg : option (list Z)) : M clean_options unit :=
  let* o := get_state in
  let command cmd := put_state (set_clean_cmd cmd o) in
  if c =? 98 (* b *) then command NILFS_CLEAN_CMD_STOP
  else if c =? 99 (* c *) then
    put_state (set_clean_cmd NILFS_CLEAN_CMD_RELOAD (match optarg with Some _ => set_conffile optarg o | None => o end))
  else if c =? 104 (* h *) then exit_with EXIT_SUCCESS
  else if c =? 108 (* l *) then command NILFS_CLEAN_CMD_INFO
  else if c =? 109 (* m *) then
    let* arg := of_option optarg in
    match nilfs_clean_parse_min_reclaimable arg o with
    | Some o => put_state o
    | None => exit_with EXIT_FAILURE
    end
  else if c =? 112 (* p *) then
    let* arg := of_option optarg in
    match nilfs_parse_protection_period arg with
    | PeriodOk seconds => put_state (set_period seconds o)
    | _ => exit_with EXIT_FAILURE
    end
  else if c =? 113 (* q *) then command NILFS_CLEAN_CMD_SHUTDOWN
  else if c =? 114 (* r *) then command NILFS_CLEAN_CMD_RESUME
  else if c =? 115 (* s *) then command NILFS_CLEAN_CMD_SUSPEND
  else if c =? 83 (* S *) then
    let* arg := of_option optarg in
    let* r := of_option (nilfs_clean_parse_gcspeed arg o) in
    match r with
    | Some o => put_state o
    | None => exit_with EXIT_FAILURE
    end
  else if c =? 118 (* v *) then ret tt
  else if c =? 86 (* V *) then put_state (set_version o)
  else exit_with EXIT_FAILURE.

Fixpoint nilfs_clean_parse_options (argv : list (Z * option (list Z))) : M clean_options unit :=
  match argv with
  | [] => ret tt
  | (c, optarg) :: argv => parse_clean_option c optarg ;; nilfs_clean_parse_options argv
  end.

(** ** Requests *)

(** The stores to [args], and the structure on the stack. *)
Definition run_fields (o : clean_options) : list field :=
  let period := negb (no_protection_period o =? ULONG_MAX) in
  let blocks := negb (no_min_reclaimable_blocks o =? ULONG_MAX) in
  let bit b n := if (b : bool) then 2 ^ n else 0 in
  [(2, 2%nat, 1); (6, 2%nat, no_nsegments_per_clean o); (10, 2%nat, tv_sec (no_cleaning_interval o));
   (12, 4%nat, tv_nsec (no_cleaning_interval o));
   (0, 2%nat, 2 ^ NILFS_CLEANER_ARG_NPASSES + 2 ^ NILFS_CLEANER_ARG_CLEANING_INTERVAL +
              2 ^ NILFS_CLEANER_ARG_NSEGMENTS_PER_CLEAN + bit period NILFS_CLEANER_ARG_PROTECTION_PERIOD +
              bit blocks NILFS_CLEANER_ARG_MIN_RECLAIMABLE_BLOCKS)] ++
  (if period then [(16, 8%nat, no_protection_period o)] else []) ++
  (if blocks then [(44, 4%nat, no_min_reclaimable_blocks o); (9, 1%nat, no_min_reclaimable_blocks_unit o)] else []).

Section Clean.
Context {W : Type} {A : Alloc W} {P : PathOs W} {X : ExecOs W} {Q : CtlOs W}.
Context (fuel : nat).
Abbreviation MC := (M (ct W)).

Definition nilfs_clean_do_run (o : clean_options) : MC unit :=
  let args := put_fields (run_fields o) (co_stack (Z.to_nat sizeof_args)) in
  let* _ := nilfs_cleaner_run fuel args in
  ret tt.

(** What is printed for the status is left out; [cleaner_status] may be what
    the stack held. *)
Definition nilfs_clean_do_getinfo : MC unit := let* _ := nilfs_cleaner_get_status fuel in ret tt.
Definition nilfs_clean_do_suspend : MC unit := nilfs_cleaner_suspend fuel.
Definition nilfs_clean_do_resume : MC unit := nilfs_cleaner_resume fuel.
Definition nilfs_clean_do_reload (o : clean_options) : MC unit := nilfs_cleaner_reload fuel (no_conffile o).
Definition nilfs_clean_do_stop : MC unit := nilfs_cleaner_stop fuel.
Definition nilfs_clean_do_shutdown : MC unit := nilfs_cleaner_shutdown fuel.

(** The exit status. *)
Definition nilfs_clean_request (o : clean_options) : MC Z :=
  let cmd := no_clean_cmd o in
  let* r := attempt (
    if cmd =? NILFS_CLEAN_CMD_RUN then nilfs_clean_do_run o
    else if cmd =? NILFS_CLEAN_CMD_INFO then nilfs_clean_do_getinfo
    else if cmd =? NILFS_CLEAN_CMD_SUSPEND then nilfs_clean_do_suspend
    else if cmd =? NILFS_CLEAN_CMD_RESUME then nilfs_clean_do_resume
    else if cmd =? NILFS_CLEAN_CMD_RELOAD then nilfs_clean_do_reload o
    else if cmd =? NILFS_CLEAN_CMD_STOP then nilfs_clean_do_stop
    else if cmd =? NILFS_CLEAN_CMD_SHUTDOWN then nilfs_clean_do_shutdown
    else fail 0) in
  ret (match r with inl _ => EXIT_SUCCESS | inr _ => EXIT_FAILURE end).

(** A run without a signal in it: SIGINT, SIGTERM and SIGHUP leave the
    request by a jump behind it, with the status [EXIT_FAILURE]. *)
Definition nilfs_do_clean (o : clean_options) (device : option (list Z)) : MC Z :=
  let* r := attempt (nilfs_cleaner_open device None NILFS_CLEANER_OPEN_QUEUE) in
  match r with
  | inr _ => ret EXIT_FAILURE
  | inl _ =>
    let* status := nilfs_clean_request o in
    nilfs_cleaner_close ;;
    ret status
  end.

(** [args]: the arguments behind the options. *)
Definition main (argv : list (Z * option (list Z))) (args : list (list Z)) : MC unit :=
  match nilfs_clean_parse_options argv default_clean with
  | (Ok _, o) =>
    if no_show_version_only o then exit_with EXIT_SUCCESS
    else
      let* device :=
        (match args with
         | [] => ret None
         | device :: _ =>
           let* r := attempt (wos (co_stat device)) in
           match r with
           | inl (mk_stat Block _ _ _) => ret (Some device)
           | _ => exit_with EXIT_FAILURE
           end
         end) in
      match args with
      | _ :: _ :: _ => exit_with EXIT_FAILURE
      | _ => let* status := nilfs_do_clean o device in exit_with status
      end
  | (Exit c, _) => exit_with c
  | _ => abort
  end.
End Clean.
