(* ===== verification/ClientSpec.v ===== *)
(** * The client and the daemon

    The library of [CleanerCtl] on one side of the message queues, the daemon
    of [Cleanerd] on the other.  [Mail] states what a queue is: a response
    that the daemon sends to the queue of a client is in its inbox.  The
    instance [net_ctl] is the client's view of the daemon: sending a request
    is running the handler of the daemon on it. *)

From Stdlib Require Import String.
From S2P Require Import Prelude Vector Hoare Ondisk Fields Crc32 Sb Kernel Nilfs Parser Tune Segment Gc Cnormap Float64 Policy Cldconfig Realpath Cleanerd CleanerExec Ismounted Mounts CleanerCtl Clean.

(** ** Queues *)

(** [queue_of q w]: the client whose queue the descriptor is. *)
Class Mail {W : Type} (D : DaemonOs W) := {
  inbox : list Z -> W -> list nilfs_cleaner_response;
  inbox_pop : list Z -> W -> W;
  queue_of : Z -> W -> option (list Z);
}.

(** The queue of [u] can be reached. *)
Class MailLaws {W : Type} {D : DaemonOs W} (B : Mail D) (u : list Z) := {
  ml_open : forall w, exists q w', d_mq_open u w = (inl q, w') /\ 0 <= q /\ queue_of q w' = Some u /\ inbox u w' = inbox u w;
  ml_close : forall q w, inbox u (d_mq_close q w) = inbox u w;
  ml_send : forall q rsp w, queue_of q w = Some u -> exists w', d_mq_send q rsp w = (inl tt, w') /\
    inbox u w' = inbox u w ++ [rsp] /\ queue_of q w' = Some u;
  ml_pop : forall w, inbox u (inbox_pop u w) = tail (inbox u w);
  ml_pop_queue : forall q w, queue_of q (inbox_pop u w) = queue_of q w;
}.

Definition encode_response (r : nilfs_cleaner_response) : list Z :=
  le_bytes 2 (rsp_result r) ++ le_bytes 2 (rsp_status r) ++ le_bytes 4 (rsp_err r) ++ le_bytes 4 (rsp_jobid r) ++ le_bytes 4 0.

(** ** Encoding and decoding *)

Lemma signed_mod w x : 0 < w -> - 2 ^ (w - 1) <= x < 2 ^ (w - 1) -> (x `mod` 2 ^ w + 2 ^ (w - 1)) `mod` 2 ^ w - 2 ^ (w - 1) = x.
Proof.
  intros Hw Hx. assert (Hp : 2 ^ w = 2 * 2 ^ (w - 1)) by (rewrite <- Z.pow_succ_r by lia; f_equal; lia).
  rewrite Zplus_mod_idemp_l. rewrite Z.mod_small by lia. lia.
Qed.

Definition response_ok (r : nilfs_cleaner_response) : Prop :=
  - 2 ^ 15 <= rsp_result r < 2 ^ 15 /\ - 2 ^ 15 <= rsp_status r < 2 ^ 15 /\ - 2 ^ 31 <= rsp_err r < 2 ^ 31 /\ is_u32 (rsp_jobid r).

Lemma response_length r : length (encode_response r) = 16%nat.
Proof. unfold encode_response. by rewrite !length_app, !le_bytes_length. Qed.

Lemma response_roundtrip r : response_ok r -> decode_response (encode_response r) = Some r.
Proof.
  destruct r as [result status err jobid]. intros (H1 & H2 & H3 & H4). cbn in H1, H2, H3, H4. unfold encode_response. cbn [rsp_result rsp_status rsp_err rsp_jobid].
  set (buf := le_bytes 2 result ++ _).
  assert (R1 : rd_le 2 buf 0 = Some (result `mod` 2 ^ 16)) by (by eapply (rd_le_field [])).
  assert (R2 : rd_le 2 buf 2 = Some (status `mod` 2 ^ 16)) by (by eapply (rd_le_field (le_bytes 2 result))).
  assert (R3 : rd_le 4 buf 4 = Some (err `mod` 2 ^ 32)) by (by eapply (rd_le_field (le_bytes 2 result ++ le_bytes 2 status))).
  assert (R4 : rd_le 4 buf 8 = Some (jobid `mod` 2 ^ 32)) by (by eapply (rd_le_field (le_bytes 2 result ++ le_bytes 2 status ++ le_bytes 4 err))).
  unfold decode_response. rewrite R1, R2, R3, R4. cbn [mbind option_bind].
  unfold i16, i32. rewrite !(signed_mod 16), (signed_mod 32) by done. by rewrite Z.mod_small.
Qed.

Lemma header_decoded cmd n u rest : 0 <= cmd < 2 ^ 31 -> is_u32 n -> length u = 16%nat ->
  decode_request (encode_header cmd n u ++ rest) = Some (mk_creq cmd n u).
Proof.
  intros Hc Hn Hu. unfold encode_header. set (buf := (le_bytes 4 cmd ++ _) ++ rest).
  assert (R1 : rd_le 4 buf 0 = Some (cmd `mod` 2 ^ 32)) by (unfold buf; rewrite <- !app_assoc; by eapply (rd_le_field [])).
  assert (R2 : rd_le 4 buf 4 = Some (n `mod` 2 ^ 32)) by (unfold buf; rewrite <- !app_assoc; by eapply (rd_le_field (le_bytes 4 cmd))).
  assert (R3 : rd_bytes buf 8 16 = Some u).
  { unfold buf. rewrite <- !app_assoc. eapply (rd_bytes_field (le_bytes 4 cmd ++ le_bytes 4 n) u rest); [by rewrite <- app_assoc|done|by rewrite Hu]. }
  unfold decode_request. rewrite R1, R2, R3. cbn [mbind option_bind].
  unfold i32. rewrite (signed_mod 32) by lia. by rewrite Z.mod_small.
Qed.

Lemma header_length cmd n u rest : length u = 16%nat -> Z.of_nat (length (encode_header cmd n u ++ rest)) = 24 + Z.of_nat (length rest).
Proof. intros Hu. unfold encode_header. rewrite !length_app, !le_bytes_length, Hu. lia. Qed.

(** ** The arguments of a run *)

(** Options that fit into the fields of a request and that the daemon takes. *)
Record good_run (o : clean_options) (bps : Z) : Prop := {
  gr_nsegs : 1 <= no_nsegments_per_clean o <= NSEGMENTS_PER_CLEAN_MAX;
  gr_interval : 0 <= tv_sec (no_cleaning_interval o) < 2 ^ 16 /\ 0 <= tv_nsec (no_cleaning_interval o) < 2 ^ 32;
  gr_period : 0 <= no_protection_period o < 2 ^ 64;
  gr_blocks : no_min_reclaimable_blocks o = ULONG_MAX \/
    0 <= no_min_reclaimable_blocks o <= bps /\ no_min_reclaimable_blocks_unit o = NILFS_CLEANER_ARG_UNIT_NONE \/
    0 <= no_min_reclaimable_blocks o <= 100 /\ no_min_reclaimable_blocks_unit o = NILFS_CLEANER_ARG_UNIT_PERCENT /\
      100 * bps + 99 < 2 ^ 32;
  gr_bps : is_u32 bps;
}.

Section Args.
Context (o : clean_options) (bps : Z) (stack hdr : list Z).
Hypothesis Hgood : good_run o bps.
Hypothesis Hstack : Z.of_nat (length stack) = sizeof_args.
Hypothesis Hhdr : Z.of_nat (length hdr) = 24.
Abbreviation args := (put_fields (run_fields o) stack).
Abbreviation period := (no_protection_period o).
Abbreviation blocks := (no_min_reclaimable_blocks o).

Lemma run_fields_inside : Forall (field_inside 48) (run_fields o).
Proof using. clear. unfold run_fields. repeat (apply Forall_app; split); repeat (case_if || constructor); cbn; lia. Qed.

Lemma args_get off n v : 0 <= off -> last_field (run_fields o) off n = Some v -> 0 <= v < 256 ^ Z.of_nat n ->
  rd_le (Z.of_nat n) (hdr ++ args) (24 + off) = Some v.
Proof using Hstack Hhdr.
  intros Ho Hv Hr. rewrite rd_le_behind by done. rewrite (last_field_le _ _ 48 _ _ v Hstack run_fields_inside Hv). by rewrite Z.mod_small.
Qed.

Lemma args_any off n : 0 <= off -> 0 <= n -> off + n <= 48 -> exists v, rd_le n (hdr ++ args) (24 + off) = Some v.
Proof using Hstack Hhdr.
  intros H1 H2 H3. assert (Hlen : Z.of_nat (length args) = 48) by (apply put_fields_length; [exact Hstack|apply run_fields_inside]).
  rewrite rd_le_behind by done. unfold rd_le. destruct (rd_bytes_some args off n) as [x ->]; [lia..|]. by eexists.
Qed.

Lemma args_fixed : rd_le 2 (hdr ++ args) 26 = Some 1 /\ rd_le 2 (hdr ++ args) 30 = Some (no_nsegments_per_clean o) /\
  rd_le 2 (hdr ++ args) 34 = Some (tv_sec (no_cleaning_interval o)) /\ rd_le 4 (hdr ++ args) 36 = Some (tv_nsec (no_cleaning_interval o)) /\
  rd_le 2 (hdr ++ args) 24 = Some (70 + (if negb (period =? ULONG_MAX) then 1 else 0) + (if negb (blocks =? ULONG_MAX) then 256 else 0)).
Proof using Hgood Hstack Hhdr.
  destruct Hgood as [Hn [Hi1 Hi2] _ _ _]. change NSEGMENTS_PER_CLEAN_MAX with 32 in Hn.
  split; [|split; [|split; [|split]]].
  - apply (args_get 2 2%nat); [done| |done]. unfold run_fields. by repeat case_if.
  - apply (args_get 6 2%nat); [done| |cbn; lia]. unfold run_fields. by repeat case_if.
  - apply (args_get 10 2%nat); [done| |cbn; lia]. unfold run_fields. by repeat case_if.
  - apply (args_get 12 4%nat); [done| |cbn; lia]. unfold run_fields. by repeat case_if.
  - apply (args_get 0 2%nat); [done| |repeat case_if; done]. unfold run_fields. by repeat case_if.
Qed.

Lemma args_period : exists pp, rd_le 8 (hdr ++ args) 40 = Some pp /\ (period <> ULONG_MAX -> pp = period).
Proof using Hgood Hstack Hhdr.
  destruct Hgood as [_ _ Hp _ _]. destruct (Z.eqb_spec period ULONG_MAX) as [He|He].
  - destruct (args_any 16 8) as [v Hv]; [done..|]. by exists v.
  - exists period. split; [|done]. apply (args_get 16 8%nat); [done| |cbn; lia]. unfold run_fields.
    rewrite (proj2 (Z.eqb_neq _ _) He). by repeat case_if.
Qed.

Lemma args_blocks : exists b n, rd_le 4 (hdr ++ args) 68 = Some b /\ rd_le 1 (hdr ++ args) 33 = Some n /\
  (blocks <> ULONG_MAX -> b = blocks /\ n = no_min_reclaimable_blocks_unit o).
Proof using Hgood Hstack Hhdr.
  destruct Hgood as [_ _ _ Hbl Hbps]. unfold is_u32 in Hbps. destruct (Z.eqb_spec blocks ULONG_MAX) as [He|He].
  - destruct (args_any 44 4) as [v Hv]; [done..|]. destruct (args_any 9 1) as [v' Hv']; [done..|]. by exists v, v'.
  - exists blocks, (no_min_reclaimable_blocks_unit o).
    split; [apply (args_get 44 4%nat); [done| |cbn; lia]|split; [apply (args_get 9 1%nat); [done| |]|done]].
    + unfold run_fields. rewrite (proj2 (Z.eqb_neq _ _) He). by repeat case_if.
    + unfold run_fields. rewrite (proj2 (Z.eqb_neq _ _) He). by repeat case_if.
    + unfold NILFS_CLEANER_ARG_UNIT_NONE, NILFS_CLEANER_ARG_UNIT_PERCENT in Hbl. cbn. lia.
Qed.

(** The arguments as the daemon decodes them. *)
Lemma args_decoded :
  exists a, decode_args (hdr ++ args) = Some a /\ ar_npasses a = 1 /\
    ar_nsegments_per_clean a = no_nsegments_per_clean o /\
    mk_timespec (ar_cleaning_interval a) (ar_cleaning_interval_nsec a) = no_cleaning_interval o /\
    valid a NILFS_CLEANER_ARG_NPASSES = true /\ valid a NILFS_CLEANER_ARG_CLEANING_INTERVAL = true /\
    valid a NILFS_CLEANER_ARG_NSEGMENTS_PER_CLEAN = true /\
    valid a NILFS_CLEANER_ARG_PROTECTION_PERIOD = negb (period =? ULONG_MAX) /\
    valid a NILFS_CLEANER_ARG_MIN_RECLAIMABLE_BLOCKS = negb (blocks =? ULONG_MAX) /\
    (period <> ULONG_MAX -> ar_protection_period a = period) /\
    (blocks <> ULONG_MAX -> ar_min_reclaimable_blocks a = blocks /\
       ar_min_reclaimable_blocks_unit a = no_min_reclaimable_blocks_unit o).
Proof using Hgood Hstack Hhdr.
  destruct args_fixed as (R2 & R3 & R5 & R6 & R1). destruct args_period as (pp & R7 & Hpp). destruct args_blocks as (b & n & R8 & R4 & Hb).
  unfold decode_args. rewrite R1, R2, R3, R4, R5, R6, R7, R8. cbn [mbind option_bind].
  eexists. split; [reflexivity|]. cbn [ar_npasses ar_nsegments_per_clean ar_cleaning_interval ar_cleaning_interval_nsec ar_protection_period
    ar_min_reclaimable_blocks ar_min_reclaimable_blocks_unit]. unfold valid. cbn [ar_valid].
  split_and!; try done; try (by destruct (no_cleaning_interval o)); by repeat case_if.
Qed.
End Args.

(** ** The daemon's side *)

Section Daemon.
Context {W : Type} {K : Kernel W} {J : Junk} {D : DaemonOs W} {B : Mail D} (u : list Z) {L : MailLaws B u}.
Context (protection_period : Z).
Implicit Types (s : ds W) (c : nilfs_cleanerd) (w : W).

Definition world s : W := s_world (cn_sys (d_cns s)).
Definition object s : nilfs := s_nilfs (cn_sys (d_cns s)).
Definition put_world w s : ds W :=
  mk_ds (mk_cns (mk_sys (object s) w) (cn_map (d_cns s)) (cn_ctx (d_cns s))) (d_cld s).

(** The daemon keeps the queue of the client it last answered. *)
Definition linked s : Prop := 0 <= cl_sendq (d_cld s) -> cl_client_uuid (d_cld s) = u -> queue_of (cl_sendq (d_cld s)) (world s) = Some u.

(** The members but those that remember the client. *)
Definition unlinked c : nilfs_cleanerd := with_client_uuid (with_sendq c 0) [].
Definition same c c' : Prop := unlinked c = unlinked c'.

Lemma wp_os_call {T} (f : W -> (T + Z) * W) (Q : T -> ds W -> Prop) E s :
  match f (world s) with (inl a, w) => Q a (put_world w s) | (inr e, w) => E e (put_world w s) end -> wp (os_call f) Q E s.
Proof using.
  unfold wp, os_call, lib, cns_call, lib_call, os, put_world, object, world.
  by destruct (f (s_world (cn_sys (d_cns s)))) as [[a|e] w].
Qed.

Lemma wp_os_do f (Q : unit -> ds W -> Prop) E s : Q tt (put_world (f (world s)) s) -> wp (os_do f) Q E s.
Proof using. intros HQ. by apply wp_os_call. Qed.

Lemma wp_update f (Q : unit -> ds W -> Prop) E s : Q tt (mk_ds (d_cns s) (f (d_cld s))) -> wp (update f) Q E s.
Proof using. done. Qed.

Lemma wp_the_cld (Q : nilfs_cleanerd -> ds W -> Prop) E s : Q (d_cld s) s -> wp the_cld Q E s.
Proof using. done. Qed.

(** What the daemon leaves when it has answered [rsp] in [s0]: the response in
    the inbox, the members [c]. *)
Definition answered s0 (rsp : nilfs_cleaner_response) c s : Prop :=
  inbox u (world s) = inbox u (world s0) ++ [rsp] /\ linked s /\ object s = object s0 /\ same (d_cld s) c.

Lemma respond_answers req rsp s : rq_client_uuid req = u -> linked s ->
  wp (nilfs_cleanerd_respond req rsp) (fun _ => answered s rsp (d_cld s)) (fun _ _ => False) s.
Proof using L.
  intros Hu Hs. unfold nilfs_cleanerd_respond. wp_step. apply wp_the_cld.
  assert (Hsend : forall s', 0 <= cl_sendq (d_cld s') -> queue_of (cl_sendq (d_cld s')) (world s') = Some u -> cl_client_uuid (d_cld s') = u ->
    inbox u (world s') = inbox u (world s) -> object s' = object s -> same (d_cld s') (d_cld s) ->
    wp (let* c := the_cld in os_call (d_mq_send (cl_sendq c) rsp)) (fun _ => answered s rsp (d_cld s)) (fun _ _ => False) s').
  { intros s' _ Hq Hu' Hi Ho Hc. wp_step. apply wp_the_cld. apply wp_os_call.
    destruct (ml_send (cl_sendq (d_cld s')) rsp (world s') Hq) as (w & Hw & Hw1 & Hw2). rewrite Hw.
    split; [by rewrite <- Hi|]. split; [by intros _ _|]. by split. }
  destruct (Z.ltb_spec (cl_sendq (d_cld s)) 0) as [Hneg|Hpos]; cbn [orb].
  2: destruct (bool_decide_reflect (cl_client_uuid (d_cld s) = rq_client_uuid req)) as [He|He]; cbn [negb].
  - wp_step. wp_step. destruct (Z.leb_spec 0 (cl_sendq (d_cld s))); [lia|]. wp_step. wp_step. wp_step. apply wp_os_call. rewrite Hu.
    destruct (ml_open (world s)) as (q & w & Hw & Hq0 & Hq & Hi). rewrite Hw. apply wp_update. by apply Hsend.
  - wp_step. wp_step. apply Hsend; [lia|apply Hs; [lia|congruence]|congruence|done..].
  - wp_step. wp_step. destruct (Z.leb_spec 0 (cl_sendq (d_cld s))); [|lia]. apply wp_os_do. wp_step. wp_step. apply wp_os_call. rewrite Hu.
    destruct (ml_open (d_mq_close (cl_sendq (d_cld s)) (world s))) as (q & w & Hw & Hq0 & Hq & Hi).
    change (world (put_world (d_mq_close (cl_sendq (d_cld s)) (world s)) s)) with (d_mq_close (cl_sendq (d_cld s)) (world s)).
    rewrite Hw. apply wp_update. apply Hsend; try done.
    etransitivity; [exact Hi|]. apply ml_close.
Qed.

(** A change of the members, and a response. *)
Lemma update_answers f req rsp s : rq_client_uuid req = u -> linked s ->
  (forall c, cl_sendq (f c) = cl_sendq c /\ cl_client_uuid (f c) = cl_client_uuid c) ->
  wp (update f ;; nilfs_cleanerd_respond req rsp) (fun _ => answered s rsp (f (d_cld s))) (fun _ _ => False) s.
Proof using L.
  intros Hu Hs Hf. wp_step. apply wp_update. apply (respond_answers req rsp (mk_ds (d_cns s) (f (d_cld s)))); [done|].
  unfold linked. cbn. destruct (Hf (d_cld s)) as [-> ->]. exact Hs.
Qed.

(** *** The commands *)

Hypothesis Hu : length u = 16%nat.
Abbreviation handle := (nilfs_cleanerd_handle_message protection_period).

(** [served msg rsp f]: the daemon answers the message with [rsp] and changes
    its members by [f]. *)
Definition served (msg : list Z) (rsp : nilfs_cleaner_response) (f : nilfs_cleanerd -> nilfs_cleanerd) s : Prop :=
  wp (handle msg) (fun _ => answered s rsp (f (d_cld s))) (fun _ _ => False) s.

(** The header of a request is what the daemon takes it for. *)
Lemma handle_header cmd n rest s : 0 <= cmd < 2 ^ 31 -> is_u32 n -> n <= Z.of_nat (length rest) ->
  handle (encode_header cmd n u ++ rest) s =
    (let req := mk_creq cmd n u in
     let msg := encode_header cmd n u ++ rest in
     let argsize := Z.of_nat (length rest) in
     if cmd =? NILFS_CLEANER_CMD_GET_STATUS then nilfs_cleanerd_cmd_getstat req
     else if cmd =? NILFS_CLEANER_CMD_RUN then nilfs_cleanerd_cmd_run req msg argsize
     else if cmd =? NILFS_CLEANER_CMD_SUSPEND then nilfs_cleanerd_cmd_suspend req
     else if cmd =? NILFS_CLEANER_CMD_RESUME then nilfs_cleanerd_cmd_resume req
     else if cmd =? NILFS_CLEANER_CMD_TUNE then nilfs_cleanerd_cmd_tune req
     else if cmd =? NILFS_CLEANER_CMD_RELOAD then nilfs_cleanerd_cmd_reload protection_period req msg argsize
     else if cmd =? NILFS_CLEANER_CMD_WAIT then nilfs_cleanerd_cmd_wait req
     else if cmd =? NILFS_CLEANER_CMD_STOP then nilfs_cleanerd_cmd_stop req
     else if cmd =? NILFS_CLEANER_CMD_SHUTDOWN then nilfs_cleanerd_cmd_shutdown req
     else nilfs_cleanerd_nak req EINVAL) s.
Proof using Hu.
  intros Hc Hn Hl. unfold nilfs_cleanerd_handle_message. rewrite header_length by done. unfold sizeof_request.
  destruct (Z.ltb_spec (24 + Z.of_nat (length rest)) 24); [lia|]. rewrite header_decoded, bind_some by done. cbn [rq_argsize rq_cmd].
  destruct (Z.ltb_spec (24 + Z.of_nat (length rest)) (24 + n)); [lia|].
  by replace (24 + Z.of_nat (length rest) - 24) with (Z.of_nat (length rest)) by lia.
Qed.

(** What the daemon makes of the commands that only change its mode. *)
Definition command_effect (cmd : Z) c : nilfs_cleanerd :=
  if cmd =? NILFS_CLEANER_CMD_SUSPEND then if cl_running c =? -1 then c else nilfs_cleanerd_manual_suspend c
  else if cmd =? NILFS_CLEANER_CMD_RESUME then if cl_running c =? -1 then nilfs_cleanerd_manual_resume c else c
  else if cmd =? NILFS_CLEANER_CMD_STOP then
    if (cl_running c =? 2) || (cl_running c =? -1) then nilfs_cleanerd_manual_stop c else c
  else with_shutdown c true.

Definition status_of c : Z :=
  if cl_running c =? 0 then NILFS_CLEANER_STATUS_IDLE
  else if 0 <? cl_running c then NILFS_CLEANER_STATUS_RUNNING else NILFS_CLEANER_STATUS_SUSPENDED.

Lemma served_command cmd s : linked s ->
  cmd ∈ [NILFS_CLEANER_CMD_SUSPEND; NILFS_CLEANER_CMD_RESUME; NILFS_CLEANER_CMD_STOP; NILFS_CLEANER_CMD_SHUTDOWN] ->
  served (encode_header cmd 0 u) ack (command_effect cmd) s.
Proof using L Hu.
  intros Hs Hc. rewrite <- (app_nil_r (encode_header cmd 0 u)). unfold served, wp.
  rewrite !elem_of_cons, elem_of_nil in Hc.
  destruct Hc as [->|[->|[->|[->|[]]]]]; rewrite handle_header by done; cbn [length Z.of_nat]; cbv zeta; cbn [Z.eqb];
    apply (update_answers _ (mk_creq _ 0 u) ack s eq_refl Hs); intros c; by repeat case_if.
Qed.

Lemma served_status s : linked s ->
  served (encode_header NILFS_CLEANER_CMD_GET_STATUS 0 u) (mk_response NILFS_CLEANER_RSP_ACK (status_of (d_cld s)) 0 0) id s.
Proof using L Hu.
  intros Hs. rewrite <- (app_nil_r (encode_header _ 0 u)). unfold served, wp. rewrite handle_header by done.
  exact (respond_answers (mk_creq _ 0 u) _ s eq_refl Hs).
Qed.

Lemma served_unsupported cmd n rest s : linked s -> cmd = NILFS_CLEANER_CMD_TUNE \/ cmd = NILFS_CLEANER_CMD_WAIT -> is_u32 n ->
  n <= Z.of_nat (length rest) -> served (encode_header cmd n u ++ rest) (nack EOPNOTSUPP) id s.
Proof using L Hu.
  intros Hs Hc Hn Hl. unfold served, wp. destruct Hc as [->| ->]; rewrite handle_header by done;
    exact (respond_answers (mk_creq _ n u) _ s eq_refl Hs).
Qed.


(** *** A run *)

Lemma wp_bps bps (Q : Z -> ds W -> Prop) E s : (exists sb, n_sb (object s) = Some sb /\ sb_get sb s_blocks_per_segment = bps) ->
  Q bps s -> wp (lib nilfs_get_blocks_per_segment) Q E s.
Proof using.
  intros (sb & Hsb & <-) HQ. destruct s as [[[nf w] mp cx] c]. unfold object in Hsb. cbn in Hsb.
  unfold wp, lib, cns_call, lib_call, nilfs_get_blocks_per_segment, sb_field_of, the_nilfs, gets, bind. cbn. by rewrite Hsb.
Qed.

Definition blocks_of (o : clean_options) (bps : Z) c : Z :=
  if no_min_reclaimable_blocks o =? ULONG_MAX then sp_min_reclaimable_blocks (cl_speed c)
  else if no_min_reclaimable_blocks_unit o =? NILFS_CLEANER_ARG_UNIT_NONE then no_min_reclaimable_blocks o
  else (no_min_reclaimable_blocks o * bps + 99) / 100.

Lemma run_blocks o bps a s : good_run o bps -> (exists sb, n_sb (object s) = Some sb /\ sb_get sb s_blocks_per_segment = bps) ->
  valid a NILFS_CLEANER_ARG_MIN_RECLAIMABLE_BLOCKS = negb (no_min_reclaimable_blocks o =? ULONG_MAX) ->
  (no_min_reclaimable_blocks o <> ULONG_MAX -> ar_min_reclaimable_blocks a = no_min_reclaimable_blocks o /\
     ar_min_reclaimable_blocks_unit a = no_min_reclaimable_blocks_unit o) ->
  wp (run_min_reclaimable_blocks a) (fun _ s' => s' = mk_ds (d_cns s) (set_mm_min_blocks (d_cld s) (blocks_of o bps (d_cld s))))
    (fun _ _ => False) s.
Proof using.
  clear Hu. intros [_ _ _ Hbl Hb] Hbps V A. unfold run_min_reclaimable_blocks, blocks_of. rewrite V.
  destruct (Z.eqb_spec (no_min_reclaimable_blocks o) ULONG_MAX) as [He|He]; cbn [negb]; [by apply wp_update|].
  destruct (A He) as [-> ->]. wp_step. apply (wp_bps bps); [done|]. unfold is_u32 in Hb.
  unfold NILFS_CLEANER_ARG_UNIT_NONE, NILFS_CLEANER_ARG_UNIT_PERCENT in *.
  destruct Hbl as [|[[H1 H2]|(H1 & H2 & H3)]]; [done|rewrite H2..]; cbn [Z.eqb].
  - destruct (Z.ltb_spec bps (no_min_reclaimable_blocks o)); [lia|]. by apply wp_update.
  - destruct (Z.ltb_spec 100 (no_min_reclaimable_blocks o)); [lia|]. apply wp_update. rewrite u32_id by (unfold is_u32; nia). done.
Qed.

(** The members before the mode is changed. *)
Definition run_parameters (o : clean_options) (bps : Z) c : nilfs_cleanerd :=
  let c := with_mm_protection_period c (if no_protection_period o =? ULONG_MAX then cf_protection_period (cl_config c)
                                        else mk_timespec (i64 (no_protection_period o)) 0) in
  let c := with_mm_speed c (mk_speed (no_nsegments_per_clean o) (no_cleaning_interval o)
    (blocks_of o bps c)) in
  with_mm_nrestsegs (with_mm_nrestpasses c 1) 0.

Lemma run_args_taken o bps stack hdr s : good_run o bps -> Z.of_nat (length stack) = sizeof_args -> Z.of_nat (length hdr) = 24 ->
  (exists sb, n_sb (object s) = Some sb /\ sb_get sb s_blocks_per_segment = bps) ->
  wp (run_args (hdr ++ put_fields (run_fields o) stack) sizeof_args)
    (fun _ s' => s' = mk_ds (d_cns s) (run_parameters o bps (d_cld s))) (fun _ _ => False) s.
Proof using.
  clear Hu. intros Hg Hst Hh Hbps. destruct (args_decoded o bps stack hdr Hg Hst Hh) as (a & Ha & A1 & A2 & A3 & V1 & V2 & V3 & V4 & V5 & A4 & A5).
  pose proof Hg as [Hn _ Hp _ _]. unfold run_args. rewrite Z.ltb_irrefl, Ha. wp_step. wp_step.
  unfold run_protection_period. rewrite V4. wp_step.
  apply (wp_mono _ (fun _ s' => s' = mk_ds (d_cns s) (with_mm_protection_period (d_cld s)
    (if no_protection_period o =? ULONG_MAX then cf_protection_period (cl_config (d_cld s)) else mk_timespec (i64 (no_protection_period o)) 0))) (fun _ _ => False)).
  { destruct (Z.eqb_spec (no_protection_period o) ULONG_MAX) as [He|He]; cbn [negb]; [by apply wp_update|]. rewrite (A4 He).
    destruct (Z.ltb_spec ULONG_MAX (no_protection_period o)); [unfold ULONG_MAX in *; lia|]. by apply wp_update. }
  2: done.
  intros _ s1 ->. set (c1 := with_mm_protection_period _ _). unfold run_ncleansegs. rewrite V3, A2. wp_step.
  destruct (Z.eqb_spec (no_nsegments_per_clean o) 0); [lia|]. destruct (Z.ltb_spec NSEGMENTS_PER_CLEAN_MAX (no_nsegments_per_clean o)); [lia|].
  apply wp_update. unfold run_cleaning_interval. rewrite V2, A3. wp_step. apply wp_update. wp_step. cbn [d_cld d_cns].
  eapply wp_mono; [apply (run_blocks o bps a); [done|exact Hbps|done|done]| |done].
  intros _ s2 ->. unfold run_npasses. rewrite V1, A1. by apply wp_update.
Qed.

(** The members after a run request, and the number of the job. *)
Definition run_effect (o : clean_options) (bps : Z) c : nilfs_cleanerd :=
  let c := nilfs_cleanerd_manual_run (run_parameters o bps c) in with_jobid c (u64 (cl_jobid c + 1)).

Lemma served_run o bps stack s : good_run o bps -> Z.of_nat (length stack) = sizeof_args -> linked s ->
  (exists sb, n_sb (object s) = Some sb /\ sb_get sb s_blocks_per_segment = bps) ->
  served (encode_header NILFS_CLEANER_CMD_RUN sizeof_args u ++ put_fields (run_fields o) stack)
    (mk_response NILFS_CLEANER_RSP_ACK 0 0 (u32 (u64 (cl_jobid (d_cld s) + 1)))) (run_effect o bps) s.
Proof using L Hu.
  intros Hg Hst Hs Hbps. assert (Hlen : Z.of_nat (length (put_fields (run_fields o) stack)) = sizeof_args).
  { apply put_fields_length; [exact Hst|apply run_fields_inside]. }
  unfold served, wp. rewrite handle_header by (done || rewrite Hlen; done). rewrite Hlen.
  enough (Hw : wp (nilfs_cleanerd_cmd_run (mk_creq NILFS_CLEANER_CMD_RUN sizeof_args u)
      (encode_header NILFS_CLEANER_CMD_RUN sizeof_args u ++ put_fields (run_fields o) stack) sizeof_args)
    (fun _ => answered s (mk_response NILFS_CLEANER_RSP_ACK 0 0 (u32 (u64 (cl_jobid (d_cld s) + 1)))) (run_effect o bps (d_cld s)))
    (fun _ _ => False) s) by exact Hw.
  unfold nilfs_cleanerd_cmd_run. wp_step. wp_step.
  eapply wp_mono; [apply (run_args_taken o bps stack _ s Hg Hst); [unfold encode_header; rewrite !length_app, !le_bytes_length, Hu; done|exact Hbps]| |done].
  intros _ s1 ->. wp_step. apply wp_update. wp_step. apply wp_the_cld. cbn [d_cld cl_jobid].
  apply (respond_answers (mk_creq _ _ u) _ (mk_ds (d_cns s) (run_effect o bps (d_cld s))) eq_refl). exact Hs.
Qed.
End Daemon.

(** ** The client's side *)

Section Client.
Context {W : Type} {K : Kernel W} {J : Junk} {D : DaemonOs W} {B : Mail D} (u : list Z) {L : MailLaws B u}.
Context (protection_period : Z) (stack : nat -> list Z) {P : PathOs (ds W)}.
Hypothesis Hu : length u = 16%nat.
Hypothesis Hstack : forall n, length (stack n) = n.
Implicit Types (d : ds W).
Abbreviation MC := (M (ct (ds W))).

(** The world of the client is the daemon.  A request that is sent is handled
    at once, as long as the main loop of the daemon runs: once it has been shut
    down, a request stays in its queue, and there is no response.  A response
    is taken from the inbox.  Where the inbox is empty the client would be
    blocked; the call fails here, and the theorem shows that it never comes to
    this.  Finding the file system is not part of this world. *)
#[local] Instance net_ctl : CtlOs (ds W) := {
  co_errno := fun _ => 0;
  co_stack := stack;
  co_stat := fun _ d => (inr ENODEV, d);
  co_mounts := fun d => (None, d);
  co_uuid_generate := fun d => (u, d);
  co_uuid_text := fun uuid => uuid;
  co_mq_create := fun _ d => (inr ENODEV, d);
  co_mq_open := fun _ d => (inr ENODEV, d);
  co_mq_close := fun _ d => d;
  co_mq_unlink := fun _ d => d;
  co_mq_curmsgs := fun _ d => (inl (Z.of_nat (length (inbox u (world d)))), d);
  co_mq_send := fun _ msg d => (inl tt, if cl_shutdown (d_cld d) then d else (nilfs_cleanerd_handle_message protection_period msg d).2);
  co_mq_receive := fun _ _ d =>
    match inbox u (world d) with
    | [] => (inr EAGAIN, d)
    | r :: _ => (inl (encode_response r), put_world (inbox_pop u (world d)) d)
    end;
  co_mq_timedreceive := fun _ _ _ d =>
    match inbox u (world d) with
    | [] => (inr ETIMEDOUT, d)
    | r :: _ => (inl (encode_response r), put_world (inbox_pop u (world d)) d)
    end;
  co_ppoll := fun _ _ d => (inl (negb (Nat.eqb (length (inbox u (world d))) 0)), d);
}.

(** The queues are open. *)
Definition opened (c : nilfs_cleaner) : Prop := 0 <= nc_sendq c /\ 0 <= nc_recvq c /\ nc_client_uuid c = u.

(** A daemon whose inbox for the client has been emptied. *)
Definition emptied d d' : Prop :=
  inbox u (world d') = [] /\ d_cld d' = d_cld d /\ object d' = object d /\ (linked u d -> linked u d').

Lemma wp_wos {T} (f : ds W -> (T + Z) * ds W) (Q : T -> ct (ds W) -> Prop) E s :
  match f (ct_world s) with (inl a, d) => Q a (mk_ct d (ct_cleaner s)) | (inr e, d) => E e (mk_ct d (ct_cleaner s)) end -> wp (wos f) Q E s.
Proof using. unfold wp, wos, wcall, lift_sum. by destruct (f (ct_world s)) as [[a|e] d]. Qed.

Lemma pop_emptied d : object (put_world (inbox_pop u (world d)) d) = object d /\ d_cld (put_world (inbox_pop u (world d)) d) = d_cld d /\
  inbox u (world (put_world (inbox_pop u (world d)) d)) = tail (inbox u (world d)) /\
  (linked u d -> linked u (put_world (inbox_pop u (world d)) d)).
Proof using L.
  split; [done|]. split; [done|]. split; [exact (ml_pop (world d))|]. unfold linked. intros Hl H1 H2.
  change (queue_of (cl_sendq (d_cld d)) (inbox_pop u (world d)) = Some u). rewrite ml_pop_queue. by apply Hl.
Qed.

Lemma drain_ok n : forall q (s : ct (ds W)), length (inbox u (world (ct_world s))) = n ->
  wp (drain n q) (fun _ s' => ct_cleaner s' = ct_cleaner s /\ emptied (ct_world s) (ct_world s')) (fun _ _ => False) s.
Proof using L.
  induction n as [|n IH]; intros q s Hn; cbn [drain].
  - wp_step. split; [done|]. unfold emptied. by destruct (inbox u (world (ct_world s))).
  - wp_step. apply wp_wos. cbn [co_mq_receive net_ctl]. destruct (inbox u (world (ct_world s))) as [|r l] eqn:Hi; [done|].
    destruct (pop_emptied (ct_world s)) as (P1 & P2 & P3 & P4). rewrite Hi in P3. cbn [tail] in P3.
    eapply wp_mono; [apply IH; cbn [ct_world]; rewrite P3; by injection Hn| |done]. intros _ s' (G1 & G2 & G3 & G4 & G5). cbn [ct_cleaner ct_world] in *.
    split; [done|]. split; [done|]. split; [congruence|]. split; [congruence|auto].
Qed.

Lemma prepare_ok fuel s : (2 <= fuel)%nat -> opened (ct_cleaner s) -> Z.of_nat (length (inbox u (world (ct_world s)))) < 2 ^ 32 ->
  wp (prepare_queues fuel) (fun _ s' => ct_cleaner s' = ct_cleaner s /\ emptied (ct_world s) (ct_world s')) (fun _ _ => False) s.
Proof using L.
  clear Hu Hstack. intros Hf (Hs & Hr & _) Hlen. unfold prepare_queues, the_cleaner. wp_step. wp_step.
  destruct (Z.ltb_spec (nc_sendq (ct_cleaner s)) 0); [lia|]. destruct (Z.ltb_spec (nc_recvq (ct_cleaner s)) 0); [lia|]. cbn [orb].
  unfold nilfs_cleaner_clear_queueu, the_cleaner. wp_step. wp_step. destruct (Z.ltb_spec (nc_recvq (ct_cleaner s)) 0); [lia|].
  wp_step. apply wp_wos. cbn [co_mq_curmsgs net_ctl]. destruct fuel as [|[|fuel]]; [lia..|]. cbn [clear_loop].
  destruct s as [d c]. cbn [ct_world ct_cleaner] in *. destruct (Z.ltb_spec 0 (Z.of_nat (length (inbox u (world d))))) as [Hpos|Hz].
  - assert (Hn : drain_count (Z.of_nat (length (inbox u (world d)))) = length (inbox u (world d))).
    { unfold drain_count. rewrite u32_id by (unfold is_u32; lia). destruct (Z.eqb_spec (Z.of_nat (length (inbox u (world d)))) 0); lia. }
    rewrite Hn. wp_step. eapply wp_mono; [by apply drain_ok| |done]. intros _ [d' c'] [Hc (G1 & G2 & G3 & G4)]. cbn [ct_world ct_cleaner] in *.
    wp_step. apply wp_wos. cbn [co_mq_curmsgs net_ctl ct_world]. rewrite G1. cbn. by split.
  - wp_step. split; [done|]. split; [|done]. cbn in *. destruct (inbox u (world d)); [done|cbn in Hz; lia].
Qed.

(** What a request leaves: the daemon's members changed by [f], and nothing in
    the inbox. *)
Definition exchanged (f : nilfs_cleanerd -> nilfs_cleanerd) (s s' : ct (ds W)) : Prop :=
  ct_cleaner s' = ct_cleaner s /\ inbox u (world (ct_world s')) = [] /\ linked u (ct_world s') /\
  object (ct_world s') = object (ct_world s) /\ same (d_cld (ct_world s')) (f (d_cld (ct_world s))).

Definition posted (f : nilfs_cleanerd -> nilfs_cleanerd) rsp (s s' : ct (ds W)) : Prop :=
  ct_cleaner s' = ct_cleaner s /\ inbox u (world (ct_world s')) = [rsp] /\ linked u (ct_world s') /\
  object (ct_world s') = object (ct_world s) /\ same (d_cld (ct_world s')) (f (d_cld (ct_world s))).

Definition is_open (s : ct (ds W)) : Prop :=
  opened (ct_cleaner s) /\ linked u (ct_world s) /\ Z.of_nat (length (inbox u (world (ct_world s)))) < 2 ^ 32.

(** The main loop of the daemon runs, too. *)
Definition serving (s : ct (ds W)) : Prop := is_open s /\ cl_shutdown (d_cld (ct_world s)) = false.

(** The client sends a message, and what the daemon answers is in the inbox. *)
Lemma wp_send msg rsp f s : cl_shutdown (d_cld (ct_world s)) = false -> served u protection_period msg rsp f (ct_world s) -> inbox u (world (ct_world s)) = [] ->
  wp (send_request msg) (fun _ => posted f rsp s) (fun _ _ => False) s.
Proof using.
  unfold served, send_request, the_cleaner, wp at 1. intros Hrun Hserved Hi. wp_step. wp_step. apply wp_wos. cbn [co_mq_send net_ctl]. rewrite Hrun.
  destruct (nilfs_cleanerd_handle_message protection_period msg (ct_world s)) as [[] d']; [|done..].
  destruct Hserved as (H1 & H2 & H3 & H4). rewrite Hi in H1. by split_and!.
Qed.

Lemma check_received_response r (Q : nilfs_cleaner_response -> ct (ds W) -> Prop) E s :
  response_ok r -> Q r s -> wp (check_received (inl (encode_response r))) Q E s.
Proof using Hstack.
  clear Hu. intros Hr HQ. unfold check_received. rewrite response_length. change (u64 (Z.of_nat 16) <? sizeof_response) with false. cbn [fst snd].
  rewrite drop_ge by (cbn [co_stack net_ctl]; rewrite Hstack; done). rewrite app_nil_r. by apply (wp_of_option _ r); [apply response_roundtrip|].
Qed.

(** The response is taken from the inbox. *)
Lemma receive_ok rsp f (Q : nilfs_cleaner_response -> ct (ds W) -> Prop) E s s0 : response_ok rsp -> posted f rsp s0 s ->
  (forall s', exchanged f s0 s' -> Q rsp s') -> wp receive_response Q E s.
Proof using L Hstack.
  clear Hu. intros Hr (H1 & H2 & H3 & H4 & H5) HQ. destruct s as [d c]. cbn [ct_world ct_cleaner] in *.
  unfold receive_response, the_cleaner. wp_step. wp_step. wp_step. wp_step. apply wp_wos. cbn [co_mq_receive net_ctl ct_world]. rewrite H2.
  apply check_received_response; [done|]. destruct (pop_emptied d) as (P1 & P2 & P3 & P4). rewrite H2 in P3. apply HQ.
  split; [done|]. split; [done|]. split; [by apply P4|]. cbn [ct_world]. by rewrite P1, P2.
Qed.

(** The beginning of every request: the inbox is emptied, the message is
    sent, and the daemon has answered. *)
Lemma post_ok fuel msg rsp f s :
  (2 <= fuel)%nat -> serving s ->
  (forall d, linked u d -> object d = object (ct_world s) -> d_cld d = d_cld (ct_world s) -> served u protection_period (msg u) rsp f d) ->
  wp (prepare_queues fuel) (fun _ => wp the_cleaner (fun c => wp (send_request (msg (nc_client_uuid c)))
    (fun _ => posted f rsp s) (fun _ _ => False)) (fun _ _ => False)) (fun _ _ => False) s.
Proof using L.
  clear Hu Hstack. intros Hf ((Ho & Hl & Hn) & Hrun) Hserved. eapply wp_mono; [by apply prepare_ok| |done].
  intros _ [d c] [Hc (H1 & H2 & H3 & H4)]. cbn [ct_world ct_cleaner] in *. subst c. unfold the_cleaner. wp_step.
  cbn [ct_cleaner]. destruct Ho as (Ho1 & Ho2 & ->). eapply wp_mono; [apply (wp_send _ rsp f); [cbn; congruence|..]| |done].
  - apply Hserved; [by apply H4|done..].
  - done.
  - intros [] s' (G1 & G2 & G3 & G4 & G5). cbn [ct_world ct_cleaner] in *. rewrite H3 in G4. rewrite H2 in G5. by split_and!.
Qed.

(** Every request but [wait]. *)
Lemma request_ok fuel msg rsp f {T} (k : nilfs_cleaner_response -> MC T) (Q : T -> ct (ds W) -> Prop) E s :
  (2 <= fuel)%nat -> serving s -> response_ok rsp ->
  (forall d, linked u d -> object d = object (ct_world s) -> d_cld d = d_cld (ct_world s) -> served u protection_period (msg u) rsp f d) ->
  (forall s', exchanged f s s' -> wp (k rsp) Q E s') ->
  wp (prepare_queues fuel ;; let* c := the_cleaner in send_request (msg (nc_client_uuid c)) ;; let* res := receive_response in k res) Q E s.
Proof using L Hstack.
  clear Hu. intros Hf Ho Hr Hserved Hk. wp_step. eapply wp_mono; [by apply (post_ok fuel msg rsp f)| |done].
  - intros [] s1 H1. wp_step. eapply wp_mono; [exact H1| |done]. intros c s2 H2. wp_step. eapply wp_mono; [exact H2| |done].
    intros [] s3 H3. wp_step. by eapply receive_ok.
Qed.

(** *** Sessions *)

(** The requests of a client. *)
Inductive request :=
  | GetStatus
  | Run (o : clean_options)
  | Suspend | Resume | Stop | Shutdown
  | Tune (args : list Z)
  | WaitR (jobid : Z) (timeout : timespec).

(** The call of the library for a request, and what it gives. *)
Definition issue (fuel : nat) (r : request) : MC (option Z) :=
  match r with
  | GetStatus => nilfs_cleaner_get_status fuel
  | Run o => nilfs_cleaner_run fuel (put_fields (run_fields o) (co_stack (Z.to_nat sizeof_args)))
  | Suspend => nilfs_cleaner_suspend fuel ;; ret None
  | Resume => nilfs_cleaner_resume fuel ;; ret None
  | Stop => nilfs_cleaner_stop fuel ;; ret None
  | Shutdown => nilfs_cleaner_shutdown fuel ;; ret None
  | Tune args => nilfs_cleaner_tune fuel args ;; ret None
  | WaitR jobid timeout => nilfs_cleaner_wait_r fuel jobid timeout ;; ret None
  end.

(** What the daemon promises for a request: the outcome of the call, and the
    change of its members. *)
Definition outcome (c : nilfs_cleanerd) (r : request) : option Z + Z :=
  match r with
  | GetStatus => inl (Some (status_of c))
  | Run o => inl (Some (u32 (u64 (cl_jobid c + 1))))
  | Suspend | Resume | Stop | Shutdown => inl None
  | Tune _ | WaitR _ _ => inr EOPNOTSUPP
  end.

Definition perform (bps : Z) (c : nilfs_cleanerd) (r : request) : nilfs_cleanerd :=
  match r with
  | GetStatus | Tune _ | WaitR _ _ => c
  | Run o => run_effect o bps c
  | Suspend => command_effect NILFS_CLEANER_CMD_SUSPEND c
  | Resume => command_effect NILFS_CLEANER_CMD_RESUME c
  | Stop => command_effect NILFS_CLEANER_CMD_STOP c
  | Shutdown => command_effect NILFS_CLEANER_CMD_SHUTDOWN c
  end.

Definition request_ok_for (bps : Z) (r : request) : Prop :=
  match r with
  | Run o => good_run o bps
  | Tune args => Z.of_nat (length args) = sizeof_args
  | _ => True
  end.

(** The outcomes of a list of requests, each tried whatever became of the
    ones before. *)
Fixpoint session (fuel : nat) (l : list request) : MC (list (option Z + Z)) :=
  match l with
  | [] => ret []
  | r :: l =>
    let* a := attempt (issue fuel r) in
    let* rest := session fuel l in
    ret (a :: rest)
  end.

Fixpoint outcomes (bps : Z) (c : nilfs_cleanerd) (l : list request) : list (option Z + Z) :=
  match l with
  | [] => []
  | r :: l => outcome c r :: outcomes bps (perform bps c r) l
  end.

Lemma status_ok c : response_ok (mk_response NILFS_CLEANER_RSP_ACK (status_of c) 0 0).
Proof using. clear. unfold response_ok, status_of, is_u32. by repeat case_if; split_and!. Qed.

Lemma jobid_ok x : response_ok (mk_response NILFS_CLEANER_RSP_ACK 0 0 (u32 x)).
Proof using. clear. unfold response_ok. split_and!; [done..|apply u32_range]. Qed.

(** One of the commands without arguments. *)
Lemma command_ok fuel cmd s : (2 <= fuel)%nat -> serving s ->
  cmd ∈ [NILFS_CLEANER_CMD_SUSPEND; NILFS_CLEANER_CMD_RESUME; NILFS_CLEANER_CMD_STOP; NILFS_CLEANER_CMD_SHUTDOWN] ->
  wp (nilfs_cleaner_command fuel cmd ;; ret None) (fun r => fun s' => r = (None : option Z) /\ exchanged (command_effect cmd) s s') (fun _ _ => False) s.
Proof using L Hu Hstack.
  intros Hf Hs Hc. wp_step. unfold nilfs_cleaner_command.
  apply (request_ok fuel (fun v => encode_header cmd 0 v) ack (command_effect cmd)); [done|done|done| |].
  - intros d Hd _ _. by apply served_command.
  - intros s' He. by repeat wp_step.
Qed.

(** A request that the daemon does not support. *)
Lemma unsupported_ok fuel cmd n rest s : (2 <= fuel)%nat -> serving s -> cmd = NILFS_CLEANER_CMD_TUNE \/ cmd = NILFS_CLEANER_CMD_WAIT ->
  is_u32 n -> n <= Z.of_nat (length rest) ->
  wp (prepare_queues fuel ;; let* c := the_cleaner in send_request (encode_header cmd n (nc_client_uuid c) ++ rest) ;;
      let* res := receive_response in check_nack res)
    (fun _ _ => False) (fun e s' => e = EOPNOTSUPP /\ exchanged id s s') s.
Proof using L Hu Hstack.
  intros Hf Hs Hc Hn Hl. apply (request_ok fuel (fun v => encode_header cmd n v ++ rest) (nack EOPNOTSUPP) id); [done|done|done| |].
  - intros d Hd _ _. by apply served_unsupported.
  - intros s' He. exact (conj eq_refl He).
Qed.

Lemma wait_ok fuel jobid timeout s : (2 <= fuel)%nat -> serving s ->
  wp (nilfs_cleaner_wait_r fuel jobid timeout) (fun _ _ => False) (fun e s' => e = EOPNOTSUPP /\ exchanged id s s') s.
Proof using L Hu Hstack.
  intros Hf Hs. unfold nilfs_cleaner_wait_r, nilfs_cleaner_wait_common. wp_step. wp_step.
  eapply wp_mono; [eapply (post_ok fuel (fun v => encode_header NILFS_CLEANER_CMD_WAIT 0 v ++ le_bytes 4 jobid) (nack EOPNOTSUPP) id); [done|done|]| |done].
  - intros d Hd _ _. apply served_unsupported; [done..|by right|done|rewrite le_bytes_length; done].
  - intros [] s1 H1. wp_step. eapply wp_mono; [exact H1| |done]. intros c s2 H2. eapply wp_mono; [exact H2| |done].
    intros [] s3 H3. wp_step. unfold the_cleaner. wp_step. wp_step. apply wp_wos. cbn [co_ppoll net_ctl].
    pose proof H3 as (_ & H4 & _). rewrite H4. cbn [length Nat.eqb negb]. destruct s3 as [d3 c3]. cbn [ct_world ct_cleaner] in *.
    wp_step. eapply (receive_ok (nack EOPNOTSUPP)); [done|exact H3|]. intros s' He. exact (conj eq_refl He).
Qed.

(** One request. *)
Lemma issue_ok fuel bps r s : (2 <= fuel)%nat -> serving s -> request_ok_for bps r ->
  (exists sb, n_sb (object (ct_world s)) = Some sb /\ sb_get sb s_blocks_per_segment = bps) ->
  wp (issue fuel r) (fun a s' => outcome (d_cld (ct_world s)) r = inl a /\ exchanged (fun c => perform bps c r) s s')
    (fun e s' => outcome (d_cld (ct_world s)) r = inr e /\ exchanged (fun c => perform bps c r) s s') s.
Proof using L Hu Hstack.
  intros Hf Hs Hr Hb.
  assert (Hcmd : forall cmd, cmd ∈ [NILFS_CLEANER_CMD_SUSPEND; NILFS_CLEANER_CMD_RESUME; NILFS_CLEANER_CMD_STOP; NILFS_CLEANER_CMD_SHUTDOWN] ->
    wp (nilfs_cleaner_command fuel cmd ;; ret None) (fun a s' => (inl None : option Z + Z) = inl a /\ exchanged (command_effect cmd) s s')
      (fun e s' => (inl None : option Z + Z) = inr e /\ exchanged (command_effect cmd) s s') s).
  { intros cmd Hc. eapply wp_mono; [by apply command_ok| |done]. intros a s' [-> He]. done. }
  destruct r as [|o| | | | |args|jobid timeout]; cbn [issue outcome perform request_ok_for] in *;
    [| |apply Hcmd; repeat (apply list_elem_of_here || apply list_elem_of_further)..| |].
  - apply (request_ok fuel (fun v => encode_header NILFS_CLEANER_CMD_GET_STATUS 0 v)
      (mk_response NILFS_CLEANER_RSP_ACK (status_of (d_cld (ct_world s))) 0 0) id); [done|done|apply status_ok| |].
    + intros d Hd _ Hc. rewrite <- Hc. by apply served_status.
    + intros s' He. by split.
  - apply (request_ok fuel (fun v => encode_header NILFS_CLEANER_CMD_RUN sizeof_args v ++ put_fields (run_fields o) (stack (Z.to_nat sizeof_args)))
      (mk_response NILFS_CLEANER_RSP_ACK 0 0 (u32 (u64 (cl_jobid (d_cld (ct_world s)) + 1)))) (run_effect o bps));
      [done|done|apply (jobid_ok (u64 (cl_jobid (d_cld (ct_world s)) + 1)))| |].
    + intros d Hd Ho Hc. rewrite <- Hc. apply served_run; try done; [by rewrite Hstack|by rewrite Ho].
    + intros s' He. by split.
  - wp_step. unfold nilfs_cleaner_tune. eapply wp_mono; [apply (unsupported_ok fuel NILFS_CLEANER_CMD_TUNE sizeof_args args); [done|done|by left|done|by rewrite Hr]|done|].
    intros e s' [-> He]. done.
  - wp_step. eapply wp_mono; [by apply wait_ok|done|]. intros e s' [-> He]. done.
Qed.

(** What the daemon promises does not depend on the client it remembers. *)
Lemma perform_unlinked bps c r : unlinked (perform bps c r) = perform bps (unlinked c) r.
Proof using.
  clear. destruct r; try done; unfold perform, command_effect; cbn; by repeat case_if.
Qed.

Lemma outcome_same c c' r : same c c' -> outcome c r = outcome c' r.
Proof using.
  clear. intros Hc. assert (Hu : forall x, outcome (unlinked x) r = outcome x r) by (intros x; by destruct r).
  by rewrite <- (Hu c), <- (Hu c'), Hc.
Qed.

Lemma perform_same bps c c' r : same c c' -> same (perform bps c r) (perform bps c' r).
Proof using. clear. unfold same. intros Hc. by rewrite !perform_unlinked, Hc. Qed.

Lemma outcomes_same bps l : forall c c', same c c' -> outcomes bps c l = outcomes bps c' l.
Proof using.
  clear. induction l as [|r l IH]; intros c c' Hc; [done|]. cbn. f_equal; [by apply outcome_same|by apply IH, perform_same].
Qed.

Lemma performs_same bps l : forall c c', same c c' -> same (foldl (perform bps) c l) (foldl (perform bps) c' l).
Proof using. clear. induction l as [|r l IH]; intros c c' Hc; [done|]. cbn. by apply IH, perform_same. Qed.

(** After a request the client is as it was. *)
Lemma exchanged_open f s s' : is_open s -> exchanged f s s' -> is_open s'.
Proof using.
  clear. intros (H1 & H2 & H3) (G1 & G2 & G3 & _). split; [by rewrite G1|]. split; [done|]. by rewrite G2.
Qed.

(** Nothing is asked of a daemon that was shut down. *)
Fixpoint ends_with_shutdown (l : list request) : Prop :=
  match l with
  | [] => True
  | Shutdown :: l => l = []
  | _ :: l => ends_with_shutdown l
  end.

Lemma perform_runs bps c r : r <> Shutdown -> cl_shutdown (perform bps c r) = cl_shutdown c.
Proof using. clear. intros Hr. destruct r; try done; unfold perform, command_effect; cbn; by repeat case_if. Qed.

Lemma same_runs c c' : same c c' -> cl_shutdown c = cl_shutdown c'.
Proof using. clear. intros Hc. exact (f_equal cl_shutdown Hc). Qed.

(** C18: The library and the daemon together implement the abstract cleaner.
    A client whose queues are open makes a list of requests (status, run,
    suspend, resume, stop, tune, wait, and at the end perhaps shutdown) to a
    daemon whose main loop runs and which takes one message after the other,
    doing nothing else in between.  One by one it gets the outcomes that the
    abstract cleaner gives (the mode of the daemon, the number of the new job,
    or EOPNOTSUPP for the two requests that the daemon refuses); no call waits
    for a response that is not there, aborts or fails otherwise; and the
    members of the daemon at the end are those of the abstract cleaner, apart
    from the two that remember the client's queue.  The conditions
    ([request_ok_for]): the options of a run fit into the fields of the
    request and are values that the daemon takes (1 to 32 segments, an
    interval below 2 ^ 16 seconds, at most the blocks of a segment or a
    percentage), and the argument of tune has its 48 bytes.  Nothing follows a
    shutdown, after which the loop of cleanerd.c:1786 has ended and a client
    would wait without end. *)
Theorem session_refines fuel bps l s :
  (2 <= fuel)%nat -> serving s -> Forall (request_ok_for bps) l -> ends_with_shutdown l ->
  (exists sb, n_sb (object (ct_world s)) = Some sb /\ sb_get sb s_blocks_per_segment = bps) ->
  exists s', session fuel l s = (Ok (outcomes bps (d_cld (ct_world s)) l), s') /\
    is_open s' /\ same (d_cld (ct_world s')) (foldl (perform bps) (d_cld (ct_world s)) l).
Proof using L Hu Hstack.
  intros Hf [Hs Hrun] Hl. assert (Hrun' : l <> [] -> cl_shutdown (d_cld (ct_world s)) = false) by done. clear Hrun.
  revert s Hs Hrun'. induction Hl as [|r l Hr Hl IH]; intros s Hs Hrun Hend Hb; [by exists s|].
  cbn [session outcomes foldl]. unfold bind at 1, attempt.
  pose proof (issue_ok fuel bps r s Hf (conj Hs (Hrun ltac:(done))) Hr Hb) as Hi. unfold wp in Hi.
  assert (Hnext : forall a s1, outcome (d_cld (ct_world s)) r = a -> exchanged (fun c => perform bps c r) s s1 ->
    exists s', (let* rest := session fuel l in ret (a :: rest)) s1 =
      (Ok (outcome (d_cld (ct_world s)) r :: outcomes bps (perform bps (d_cld (ct_world s)) r) l), s') /\ is_open s' /\
      same (d_cld (ct_world s')) (foldl (perform bps) (perform bps (d_cld (ct_world s)) r) l)).
  { intros a s1 <- He. pose proof He as (_ & _ & _ & Ho & Hc). destruct (IH s1) as (s' & Hr' & Hs' & Hc').
    - by eapply exchanged_open.
    - intros Hne. rewrite (same_runs _ _ Hc), perform_runs; [by apply Hrun|]. intros ->. by apply Hne.
    - destruct r; try done. cbn in Hend. by subst l.
    - by rewrite Ho.
    - exists s'. unfold bind. rewrite Hr'. split; [|split; [done|]].
      + cbn. by rewrite (outcomes_same bps l _ _ Hc).
      + etransitivity; [exact Hc'|]. by apply performs_same. }
  destruct (issue fuel r s) as [[a|e| | |] s1]; [| |done..]; destruct Hi as [Ha He]; by apply (Hnext _ s1).
Qed.
End Client.
