(* ===== verification/CnormapSpec.v ===== *)
(** * Enumerating checkpoints

    The enumerations of lib/cnormap.c ask the kernel for checkpoints in pieces.
    Whatever the size of the pieces, they present the checkpoints to the
    callback in order, without gaps or repetitions. *)

From S2P Require Import Prelude Vector Ondisk Crc32 Sb Kernel Nilfs Cnormap.

(** The checkpoints of a world, and what the ioctl reports of them: a first
    part of those from [index] on, empty only if there are none. *)
Class CheckpointLaws {W : Type} (K : Kernel W) (cps : W -> list nilfs_cpinfo) : Prop := {
  cpinfo_piece : forall fd n index w, 0 < n ->
    let rest := filter (fun c => index <= ci_cno c) (cps w) in
    exists (k : nat) w', ioc_get_cpinfo fd n index NILFS_CHECKPOINT w = (inl (take k rest), w') /\
      Z.of_nat k <= n /\ (rest <> [] -> (0 < k)%nat) /\ cps w' = cps w;
  cps_alloc : forall n w, cps (malloc n w).2 = cps w;
}.

Definition by_cno : relation nilfs_cpinfo := fun a b => ci_cno a < ci_cno b.

Section Forward.
Context {W : Type} {K : Kernel W} (cps : W -> list nilfs_cpinfo) {L : CheckpointLaws K cps}.
Abbreviation st := (cns W (list nilfs_cpinfo)).

Definition cps_of (s : st) : list nilfs_cpinfo := cps (s_world (cn_sys s)).
Definition mincno_of (s : st) : Z := n_mincno (s_nilfs (cn_sys s)).

(** A callback that keeps what it is shown. *)
Definition record (c : nilfs_cpinfo) : M st Z :=
  let* seen := the_ctx in put_ctx (seen ++ [c]) ;; ret 1.

(** Checkpoints in ascending order, below [lim], none below [mincno]. *)
Definition enumerable (lim : Z) (s : st) : Prop :=
  0 <= n_iocfd (s_nilfs (cn_sys s)) /\ StronglySorted by_cno (cps_of s) /\
  Forall (fun c => mincno_of s <= ci_cno c /\ NILFS_CNO_MIN <= ci_cno c < lim) (cps_of s).

(** The checkpoints from [i] on. *)
Definition from (i : Z) (l : list nilfs_cpinfo) : list nilfs_cpinfo := filter (fun c => i <= ci_cno c) l.

Lemma from_max i m l : Forall (fun c => m <= ci_cno c) l -> from (if i <? m then m else i) l = from i l.
Proof using.
  intros Hm. case_if; [|done]. unfold from. induction Hm as [|c l Hc _ IH]; [done|].
  rewrite !filter_cons. case_decide; case_decide; try lia. by rewrite IH.
Qed.

(** Behind the last checkpoint of a first part, the rest remains. *)
Lemma from_next i l buf rest final :
  StronglySorted by_cno l -> from i l = buf ++ rest -> last buf = Some final ->
  from (ci_cno final + 1) l = rest.
Proof using.
  intros Hl Hsplit Hlast.
  assert (Hii : from (ci_cno final + 1) l = from (ci_cno final + 1) (from i l)).
  { unfold from. symmetry. apply list_filter_filter_l. intros c Hc.
    assert (Hf : final ∈ from i l) by (rewrite Hsplit; apply elem_of_app; left; by apply last_Some_elem_of).
    unfold from in Hf. apply list_elem_of_filter in Hf as [Hf _]. lia. }
  assert (Hs : StronglySorted by_cno (buf ++ rest)).
  { rewrite <- Hsplit. unfold from. clear -Hl. induction Hl as [|c l Hl IH Hc]; [constructor|].
    rewrite filter_cons. case_decide; [|done]. constructor; [done|].
    rewrite Forall_forall in Hc |- *. intros d [_ Hd]%list_elem_of_filter. by apply Hc. }
  rewrite Hii, Hsplit. apply last_Some in Hlast as [buf' ->].
  rewrite <- app_assoc in Hs |- *. unfold from.
  rewrite filter_app. simpl. rewrite filter_cons_False by lia.
  apply StronglySorted_app in Hs as (Hbefore & _ & Hs). inversion Hs as [|? ? _ Hafter]; subst.
  rewrite (filter_all_fail _ buf'), (filter_all_pass _ rest); [done| |].
  - eapply Forall_impl; [exact Hafter|]. unfold by_cno. simpl. lia.
  - apply Forall_forall. intros c Hc. specialize (Hbefore c final Hc ltac:(by left)). unfold by_cno in Hbefore. lia.
Qed.

(** *** The loop *)

Lemma record_buffer buf : forall rest (s : st), Z.of_nat (length buf) <= rest < 2 ^ 64 ->
  forward_buffer record buf rest s =
    (Ok (rest - Z.of_nat (length buf), false), mk_cns (cn_sys s) (cn_map s) (cn_ctx s ++ buf)).
Proof using.
  induction buf as [|c buf IH]; intros rest s Hr.
  { unfold forward_buffer, ret. rewrite app_nil_r, Z.sub_0_r. by destruct s. }
  cbn [forward_buffer]. unfold record at 1, the_ctx, put_ctx. rewrite bind_assoc, bind_gets, bind_assoc, bind_modify, bind_ret.
  cbn [length] in Hr |- *. cbn [Z.eqb Z.ltb Z.compare Pos.compare Pos.compare_cont].
  rewrite u64_id by (unfold is_u64; lia). rewrite IH by lia. cbn [cn_sys cn_map cn_ctx]. rewrite <- app_assoc. simpl app.
  by replace (rest - 1 - Z.of_nat (length buf)) with (rest - Z.of_nat (Datatypes.S (length buf))) by lia.
Qed.

Lemma first_is_least k l c buf d :
  StronglySorted by_cno l -> take k l = c :: buf -> d ∈ l -> ci_cno c <= ci_cno d.
Proof using.
  intros Hs Ht Hd. destruct l as [|c' l]; [by rewrite take_nil in Ht|]. destruct k; [done|].
  injection Ht as -> _. inversion Hs as [|? ? _ Hc]; subst. apply elem_of_cons in Hd as [->|Hd]; [lia|].
  rewrite Forall_forall in Hc. specialize (Hc d Hd). unfold by_cno in Hc. lia.
Qed.

(** One request, at the place the library makes of it. *)
Lemma get_cpinfo_spec lim (s : st) i n : enumerable lim s -> NILFS_CNO_MIN <= i -> 0 < n < 2 ^ 32 ->
  exists (k : nat) s', lib_call (nilfs_get_cpinfo i NILFS_CHECKPOINT n) s = (Ok (take k (from i (cps_of s))), s') /\
    Z.of_nat k <= n /\ (from i (cps_of s) <> [] -> (0 < k)%nat) /\
    cps_of s' = cps_of s /\ enumerable lim s' /\ cn_ctx s' = cn_ctx s.
Proof using L.
  intros (Hfd & Hsort & Hall) Hi Hn. unfold lib_call, nilfs_get_cpinfo, with_iocfd, the_nilfs.
  rewrite bind_gets. case_if; [lia|]. cbn [Z.eqb NILFS_CHECKPOINT andb].
  destruct (Z.ltb_spec i NILFS_CNO_MIN); [lia|]. rewrite bind_gets.
  set (m := n_mincno (s_nilfs (cn_sys s))). set (j := if i <? m then m else i).
  rewrite u32_id by (unfold is_u32; lia).
  assert (Hm : Forall (fun c => m <= ci_cno c) (cps_of s)) by (eapply Forall_impl; [exact Hall|]; by intros c [? _]).
  destruct (cpinfo_piece (n_iocfd (s_nilfs (cn_sys s))) n j (s_world (cn_sys s))) as (k & w' & Hr & Hk & Hpos & Hw); [lia|].
  fold (from j (cps (s_world (cn_sys s)))) in Hr, Hpos. fold (cps_of s) in Hr, Hpos.
  unfold j in Hr, Hpos. rewrite (from_max i m _ Hm) in Hr, Hpos. fold j in Hr.
  unfold bind at 1, os. rewrite Hr. exists k.
  destruct (take k (from i (cps_of s))) as [|c l] eqn:Hbuf.
  - eexists. split; [reflexivity|]. split_and!; try done.
    by unfold enumerable, mincno_of, cps_of in *; simpl; rewrite Hw.
  - destruct ((j =? m) && (m <? ci_cno c)) eqn:Hup.
    + eexists. split; [reflexivity|]. split_and!; try done. split_and!; [done|by unfold cps_of; simpl; rewrite Hw|].
      unfold mincno_of, cps_of. simpl. rewrite Hw. fold (cps_of s).
      apply andb_true_iff in Hup as [Hj%Z.eqb_eq _].
      assert (Hfrom : from i (cps_of s) = cps_of s).
      { rewrite <- (from_max i m _ Hm). fold j. rewrite Hj. by apply filter_all_pass. }
      rewrite Hfrom in Hbuf. rewrite Forall_forall in Hall |- *. intros d Hd.
      split; [|by apply Hall]. by eapply first_is_least.
    + eexists. split; [reflexivity|]. split_and!; try done.
      by unfold enumerable, mincno_of, cps_of in *; simpl; rewrite Hw.
Qed.

Lemma forward_loop_spec fuel lim : forall (s : st) rest sidx,
  enumerable lim s -> lim < 2 ^ 64 -> NILFS_CNO_MIN <= sidx -> 0 <= rest < 2 ^ 64 ->
  (length (from sidx (cps_of s)) < fuel)%nat ->
  exists s', forward_loop record fuel lim rest sidx s = (Ok tt, s') /\
    cn_ctx s' = cn_ctx s ++ take (Z.to_nat rest) (from sidx (cps_of s)).
Proof using L.
  induction fuel as [|fuel IH]; intros s rest sidx Hen Hlim Hs Hr Hf; [lia|]. cbn [forward_loop].
  destruct ((0 <? rest) && (sidx <? lim)) eqn:Hcond.
  2: { exists s. split; [done|]. destruct (Z.eq_dec rest 0) as [->|Hne]; [by rewrite app_nil_r|].
       assert (Hnone : from sidx (cps_of s) = []).
       { apply filter_all_fail. destruct Hen as (_ & _ & Hall). eapply Forall_impl; [exact Hall|].
         intros c [_ ?]. simpl. lia. }
       by rewrite Hnone, take_nil, app_nil_r. }
  destruct (get_cpinfo_spec lim s sidx (Z.min rest 512) Hen Hs) as (k & s1 & Hrun & Hk & Hpos & Hcps & Hen1 & Hctx); [lia|].
  rewrite (bind_ok _ _ _ _ _ Hrun). set (R := from sidx (cps_of s)) in *.
  destruct (last (take k R)) as [final|] eqn:Hlast.
  2: { apply last_None in Hlast. assert (HR : R = []).
       { revert Hpos Hlast. generalize R. intros [|c l] Hpos Hl; [done|].
         specialize (Hpos ltac:(done)). destruct k; [lia|done]. }
       exists s1. split; [done|]. by rewrite HR, take_nil, app_nil_r, Hctx. }
  assert (Hlen : (0 < length (take k R))%nat /\ Z.of_nat (length (take k R)) <= rest).
  { split; [by destruct (take k R); [|simpl; lia]|]. rewrite length_take. lia. }
  rewrite (bind_ok _ _ _ _ _ (record_buffer (take k R) rest s1 ltac:(lia))).
  destruct Hen as (_ & Hsort & Hall).
  assert (Hfinal : NILFS_CNO_MIN <= ci_cno final < lim).
  { apply last_Some_elem_of in Hlast. apply elem_of_take in Hlast as (i & Hi & _).
    apply list_elem_of_lookup_2 in Hi. unfold R, from in Hi. apply list_elem_of_filter in Hi as [_ Hi].
    rewrite Forall_forall in Hall. by apply Hall. }
  rewrite u64_id by (unfold is_u64, NILFS_CNO_MIN in *; lia).
  assert (Hnext : from (ci_cno final + 1) (cps_of s) = drop k R)
    by (eapply from_next; [done|symmetry; apply take_drop|done]).
  set (s2 := mk_cns (cn_sys s1) (cn_map s1) (cn_ctx s1 ++ take k R)).
  assert (Hs2 : cps_of s2 = cps_of s) by exact Hcps.
  pose proof (length_take R k) as Hlt. pose proof (length_drop R k) as Hld.
  destruct (IH s2 (rest - Z.of_nat (length (take k R))) (ci_cno final + 1)) as (s' & Hs' & Hc');
    [done|done|lia|lia|rewrite Hs2, Hnext; lia|].
  exists s'. split; [exact Hs'|]. rewrite Hc', Hs2, Hnext. unfold s2. cbn [cn_ctx]. rewrite Hctx, <- app_assoc. f_equal.
  destruct (Nat.le_ge_cases k (length R)) as [Hle|Hge].
  - rewrite take_take_drop. f_equal. lia.
  - rewrite (take_ge R k), (drop_ge R k), take_nil, app_nil_r, take_ge by lia. done.
Qed.

(** C32: the forward enumeration shows the callback the checkpoints from the
    given number on, in ascending order, each once, and no more than it asked
    for, in whatever pieces the kernel hands them out; and it ends. *)
Theorem forward_enumeration (s : st) (cpstat : nilfs_cpstat) (opt_start opt_count : Z) (fuel : nat) :
  enumerable (cs_cno cpstat) s -> cs_cno cpstat < 2 ^ 64 -> 0 <= opt_start -> 0 <= opt_count ->
  0 <= cs_ncps cpstat < 2 ^ 64 -> (length (cps_of s) < fuel)%nat ->
  match nilfs_enum_cpinfo_forward record fuel cpstat opt_start opt_count s with
  | (Ok _, s') => cn_ctx s' =
      cn_ctx s ++ take (Z.to_nat (enum_rest cpstat opt_count)) (from (Z.max opt_start NILFS_CNO_MIN) (cps_of s))
  | (Err e, s') => e = ENOMEM
  | _ => False
  end.
Proof using L.
  intros Hen Hlim Hstart Hcount Hncps Hf. unfold nilfs_enum_cpinfo_forward, m_malloc.
  unfold bind at 1, malloc, cns_alloc, malloc, sys_alloc.
  pose proof (cps_alloc (CheckpointLaws:=L) (56 * 512) (s_world (cn_sys s))) as Ha.
  destruct (malloc (56 * 512) (s_world (cn_sys s))) as [[] w]; [|done]. simpl in Ha.
  set (s1 := mk_cns _ _ _).
  assert (Hs1 : cps_of s1 = cps_of s) by exact Ha.
  assert (Hstart' : (if negb (opt_start =? 0) then opt_start else NILFS_CNO_MIN) = Z.max opt_start NILFS_CNO_MIN)
    by (unfold NILFS_CNO_MIN; destruct (Z.eqb_spec opt_start 0); simpl; lia).
  rewrite Hstart'. destruct (forward_loop_spec fuel (cs_cno cpstat) s1 (enum_rest cpstat opt_count)
    (Z.max opt_start NILFS_CNO_MIN)) as (s' & Hrun & Hc); try done; try lia.
  - unfold enumerable, mincno_of in *. by rewrite Hs1.
  - unfold enum_rest. case_if; lia.
  - rewrite Hs1. unfold from. pose proof (length_filter (fun c => Z.max opt_start NILFS_CNO_MIN <= ci_cno c) (cps_of s)). lia.
  - rewrite Hrun, Hc, Hs1. done.
Qed.
End Forward.
