(* ===== verification/Lscp.v ===== *)
(** * Listing checkpoints: bin/lscp.c

    The lines that [lscp] prints are values of [lscp_line]; the text of the
    date is left out, the line keeps the time.  The checkpoints are read
    through a window of at most [LSCP_NCPINFO]; backwards, the window moves by
    steps that grow where there are no checkpoints, which is a machine with
    the states of [lscp_state]. *)

From S2P Require Import Prelude Vector Hoare Ondisk Sb Kernel Nilfs Parser Tune Realpath Ismounted Mounts Open.

Definition LSCP_NCPINFO : Z := 512.
Definition LSCP_MINDELTA : Z := 64.

(** Flag bits of [ci_flags]. *)
Definition NILFS_CPINFO_SNAPSHOT : Z := 0.
Definition NILFS_CPINFO_MINOR : Z := 3.
Definition nilfs_cpinfo_snapshot (ci : nilfs_cpinfo) : bool := Z.testbit (ci_flags ci) NILFS_CPINFO_SNAPSHOT.
Definition nilfs_cpinfo_minor (ci : nilfs_cpinfo) : bool := Z.testbit (ci_flags ci) NILFS_CPINFO_MINOR.

Inductive lscp_state := LSCP_INIT_ST | LSCP_NORMAL_ST | LSCP_ACCEL_ST | LSCP_DECEL_ST.

(** The static variables of the program, [mode] and [rvs]. *)
Record lscp_params := mk_lscp {
  lp_all : bool; lp_block_count : bool; lp_rvs : bool; lp_mode : Z; lp_index : Z; lp_lines : Z;
}.

Definition lscp_defaults : lscp_params := mk_lscp false true false NILFS_CHECKPOINT 0 0.

Inductive lscp_line :=
  | CpHeader (block_count : bool)
  | CpLine (cno create : Z) (snapshot minor : bool) (blocks inodes : Z).

(** The body of the loop over the options. *)
Definition parse_lscp_option (c : Z) (optarg : list Z) : M lscp_params unit :=
  let* o := get_state in
  if c =? 97 (* a *) then put_state (mk_lscp true (lp_block_count o) (lp_rvs o) (lp_mode o) (lp_index o) (lp_lines o))
  else if c =? 98 (* b *) then put_state (mk_lscp (lp_all o) true (lp_rvs o) (lp_mode o) (lp_index o) (lp_lines o))
  else if c =? 103 (* g *) then put_state (mk_lscp (lp_all o) false (lp_rvs o) (lp_mode o) (lp_index o) (lp_lines o))
  else if c =? 114 (* r *) then put_state (mk_lscp (lp_all o) (lp_block_count o) true (lp_mode o) (lp_index o) (lp_lines o))
  else if c =? 115 (* s *) then put_state (mk_lscp (lp_all o) (lp_block_count o) (lp_rvs o) NILFS_SNAPSHOT (lp_index o) (lp_lines o))
  else if c =? 105 (* i *) then put_state (mk_lscp (lp_all o) (lp_block_count o) (lp_rvs o) (lp_mode o) (u64 (atol optarg)) (lp_lines o))
  else if c =? 110 (* n *) then put_state (mk_lscp (lp_all o) (lp_block_count o) (lp_rvs o) (lp_mode o) (lp_index o) (u64 (atol optarg)))
  else if (c =? 104) || (c =? 86) (* h, V *) then exit_with EXIT_SUCCESS
  else exit_with EXIT_FAILURE.

Fixpoint parse_lscp_options (argv : list (Z * list Z)) : M lscp_params unit :=
  match argv with
  | [] => ret tt
  | (c, optarg) :: argv => parse_lscp_option c optarg ;; parse_lscp_options argv
  end.

(** [show_all || nilfs_cpinfo_snapshot(cpi) || !nilfs_cpinfo_minor(cpi)] *)
Definition shown (o : lscp_params) (ci : nilfs_cpinfo) : bool :=
  lp_all o || nilfs_cpinfo_snapshot ci || negb (nilfs_cpinfo_minor ci).

(** [param_lines && param_lines < n ? param_lines : n] *)
Definition lines_of (o : lscp_params) (n : Z) : Z :=
  if negb (lp_lines o =? 0) && (lp_lines o <? n) then lp_lines o else n.

(** The end of the range, exclusive. *)
Definition end_of (o : lscp_params) (cpstat : nilfs_cpstat) : Z :=
  if negb (lp_index o =? 0) && (lp_index o <? cs_cno cpstat) then u64 (lp_index o + 1) else cs_cno cpstat.

Definition line_of (o : lscp_params) (ci : nilfs_cpinfo) : lscp_line :=
  CpLine (ci_cno ci) (ci_create ci) (nilfs_cpinfo_snapshot ci) (nilfs_cpinfo_minor ci)
    (if lp_block_count o then ci_blocks_count ci else ci_nblk_inc ci) (ci_inodes_count ci).

(** The variables of the loop backwards. *)
Record lscp_search := mk_search {
  ls_eidx : Z; ls_prev_head : Z; ls_rest : Z; ls_delta : Z; ls_v : Z; ls_state : lscp_state;
}.

(** The label [recalc_delta]. *)
Definition recalc_delta (eidx prev_head rest : Z) (state : lscp_state) : lscp_search :=
  let delta := Z.min LSCP_NCPINFO (Z.max rest LSCP_MINDELTA) in
  mk_search eidx prev_head rest delta delta state.

(** No younger checkpoint was found: the window moves further back. *)
Definition further_back (b : lscp_search) (sidx : Z) : lscp_search :=
  let doubled := u64 (ls_v b * 2) in
  let v := if ls_v b <? doubled then doubled else ls_v b in
  match ls_state b with
  | LSCP_INIT_ST => mk_search sidx (ls_prev_head b) (ls_rest b) (ls_delta b) (ls_v b) LSCP_INIT_ST
  | LSCP_NORMAL_ST | LSCP_ACCEL_ST => mk_search sidx (ls_prev_head b) (ls_rest b) (ls_delta b) v LSCP_ACCEL_ST
  | LSCP_DECEL_ST => mk_search sidx (ls_prev_head b) (ls_rest b) (ls_delta b) (ls_delta b) LSCP_NORMAL_ST
  end.

(** The window was too large: search again more slowly. *)
Definition more_slowly (b : lscp_search) : lscp_search :=
  let v := ls_v b / 2 in
  if v <=? ls_delta b then mk_search (ls_eidx b) (ls_prev_head b) (ls_rest b) (ls_delta b) (ls_delta b) LSCP_NORMAL_ST
  else mk_search (ls_eidx b) (ls_prev_head b) (ls_rest b) (ls_delta b) v LSCP_DECEL_ST.

Definition accelerated (b : lscp_search) : bool :=
  match ls_state b with LSCP_ACCEL_ST | LSCP_DECEL_ST => true | _ => false end.

Definition is_init (b : lscp_search) : bool := match ls_state b with LSCP_INIT_ST => true | _ => false end.
Definition is_normal (b : lscp_search) : bool := match ls_state b with LSCP_NORMAL_ST => true | _ => false end.

(** [sidx] *)
Definition window_start (b : lscp_search) : Z :=
  if (ls_eidx b <? u64 (NILFS_CNO_MIN + ls_v b)) || is_init b then NILFS_CNO_MIN else u64 (ls_eidx b - ls_v b).

Section Lscp.
Context {W : Type} {K : Kernel W} {P : PathOs W} {F : OpenOs W}.
Abbreviation MT := (M (tool W lscp_line)).
Context (o : lscp_params).

Definition lscp_print_header : MT unit := print_line (CpHeader (lp_block_count o)).
Definition lscp_print_cpinfo (ci : nilfs_cpinfo) : MT unit := print_line (line_of o ci).

(** The checkpoints that were read are the buffer [cpinfos]. *)
Definition lscp_get_cpinfo (cno mode count : Z) : MT (list nilfs_cpinfo) :=
  slib (nilfs_get_cpinfo cno mode (Z.min count LSCP_NCPINFO)).

(** The rest that remains. *)
Fixpoint print_forward (cpinfos : list nilfs_cpinfo) (rest : Z) : MT Z :=
  match cpinfos with
  | [] => ret rest
  | ci :: cpinfos =>
    if shown o ci then lscp_print_cpinfo ci ;; print_forward cpinfos (u64 (rest - 1))
    else print_forward cpinfos rest
  end.

Fixpoint forward_cpinfos (fuel : nat) (lim rest sidx : Z) : MT unit :=
  match fuel with
  | O => out_of_fuel
  | Datatypes.S fuel =>
    if (0 <? rest) && (sidx <? lim) then
      let* cpinfos := lscp_get_cpinfo sidx NILFS_CHECKPOINT rest in
      match last cpinfos with
      | None => ret tt
      | Some final =>
        let* rest := print_forward cpinfos rest in
        forward_cpinfos fuel lim rest (u64 (ci_cno final + 1))
      end
    else ret tt
  end.

Definition lscp_forward_cpinfo (fuel : nat) (cpstat : nilfs_cpstat) : MT unit :=
  forward_cpinfos fuel (cs_cno cpstat) (lines_of o (cs_ncps cpstat))
    (if negb (lp_index o =? 0) then lp_index o else NILFS_CNO_MIN).

(** From the last one to the first; [None] when nothing remains. *)
Fixpoint print_back (cpinfos : list nilfs_cpinfo) (eidx rest : Z) : MT (option Z) :=
  match cpinfos with
  | [] => ret (Some rest)
  | ci :: cpinfos =>
    if (ci_cno ci <? eidx) && shown o ci then
      lscp_print_cpinfo ci ;;
      let rest := u64 (rest - 1) in
      if rest =? 0 then ret None else print_back cpinfos eidx rest
    else print_back cpinfos eidx rest
  end.

(** The checkpoints of a window; [None] ends the loop. *)
Definition print_window (b : lscp_search) (sidx : Z) (first : nilfs_cpinfo) (cpinfos : list nilfs_cpinfo) : MT (option lscp_search) :=
  let* rest := print_back (reverse cpinfos) (ls_eidx b) (ls_rest b) in
  ret (match rest with
       | None => None
       | Some rest => Some (recalc_delta sidx (ci_cno first) rest LSCP_NORMAL_ST)
       end).

(** The body of the loop; [None] ends it. *)
Definition backward_step (b : lscp_search) : MT (option lscp_search) :=
  let sidx := window_start b in
  let* cpinfos := lscp_get_cpinfo sidx NILFS_CHECKPOINT (if is_normal b then u64 (ls_eidx b - sidx) else 1) in
  match cpinfos, last cpinfos with
  | first :: _, Some final =>
    if is_init b then
      ret (if ls_eidx b <=? ci_cno first then None
           else Some (mk_search (ls_eidx b) (ls_prev_head b) (ls_rest b) (ls_delta b) (ls_v b) LSCP_NORMAL_ST))
    else if ci_cno first =? ls_prev_head b then
      ret (if sidx =? NILFS_CNO_MIN then None else Some (further_back b sidx))
    else if accelerated b && (u64 (ci_cno final + 1) <? ls_prev_head b) then ret (Some (more_slowly b))
    else print_window b sidx first cpinfos
  | _, _ => ret None
  end.

Fixpoint backward_cpinfos (fuel : nat) (b : lscp_search) : MT unit :=
  match fuel with
  | O => out_of_fuel
  | Datatypes.S fuel =>
    if NILFS_CNO_MIN <? ls_eidx b then
      let* r := backward_step b in
      match r with Some b => backward_cpinfos fuel b | None => ret tt end
    else ret tt
  end.

Definition lscp_backward_cpinfo (fuel : nat) (cpstat : nilfs_cpstat) : MT unit :=
  let rest := lines_of o (cs_ncps cpstat) in
  if rest =? 0 then ret tt
  else backward_cpinfos fuel (recalc_delta (end_of o cpstat) 0 rest LSCP_INIT_ST).

(** The number of the first snapshot from [cno] on; [nreq] is 1 at first. *)
Fixpoint search_snapshot (fuel : nat) (lim cno nreq : Z) : MT (option Z) :=
  match fuel with
  | O => out_of_fuel
  | Datatypes.S fuel =>
    if cno <? lim then
      let* cpinfos := lscp_get_cpinfo cno NILFS_CHECKPOINT nreq in
      match cpinfos with
      | [] => ret None
      | _ =>
        match List.find nilfs_cpinfo_snapshot cpinfos with
        | Some ci => ret (Some (ci_cno ci))
        | None => let cno := u64 (cno + Z.of_nat (length cpinfos)) in search_snapshot fuel lim cno (u64 (lim - cno))
        end
      end
    else ret None
  end.

Definition lscp_search_snapshot (fuel : nat) (cpstat : nilfs_cpstat) (sidx : Z) : MT (option Z) :=
  search_snapshot fuel (cs_cno cpstat) sidx 1.

Fixpoint print_all (cpinfos : list nilfs_cpinfo) : MT unit :=
  match cpinfos with
  | [] => ret tt
  | ci :: cpinfos => lscp_print_cpinfo ci ;; print_all cpinfos
  end.

Fixpoint forward_ssinfos (fuel : nat) (lim rest sidx : Z) : MT unit :=
  match fuel with
  | O => out_of_fuel
  | Datatypes.S fuel =>
    if (0 <? rest) && (sidx <? lim) then
      let* cpinfos := lscp_get_cpinfo sidx NILFS_SNAPSHOT rest in
      match last cpinfos with
      | None => ret tt
      | Some final =>
        print_all cpinfos ;;
        if ci_next final =? 0 then ret tt
        else forward_ssinfos fuel lim (u64 (rest - Z.of_nat (length cpinfos))) (ci_next final)
      end
    else ret tt
  end.

Definition lscp_forward_ssinfo (fuel : nat) (cpstat : nilfs_cpstat) : MT unit :=
  let rest := lines_of o (cs_nsss cpstat) in
  let sidx := lp_index o in
  if (rest =? 0) || (cs_cno cpstat <=? sidx) then ret tt
  else if 0 <? sidx then
    let* found := lscp_search_snapshot fuel cpstat sidx in
    match found with
    | None => ret tt
    | Some sidx => forward_ssinfos fuel (cs_cno cpstat) rest sidx
    end
  else forward_ssinfos fuel (cs_cno cpstat) rest sidx.

(** The loops over a buffer of snapshots, from the last one to the first. *)
Fixpoint print_snapshots (cpinfos : list nilfs_cpinfo) (eidx rest rns : Z) : MT (Z * Z * Z) :=
  match cpinfos with
  | [] => ret (eidx, rest, rns)
  | ci :: cpinfos =>
    if negb (0 <? rest) then ret (eidx, rest, rns)
    else if (eidx <=? ci_cno ci) || negb (nilfs_cpinfo_snapshot ci) then print_snapshots cpinfos eidx rest rns
    else
      lscp_print_cpinfo ci ;;
      print_snapshots cpinfos (ci_cno ci) (u64 (rest - 1)) (u64 (rns - 1))
  end.

Fixpoint print_remainder (cpinfos : list nilfs_cpinfo) (eidx rest : Z) : MT unit :=
  match cpinfos with
  | [] => ret tt
  | ci :: cpinfos =>
    if negb (0 <? rest) then ret tt
    else if eidx <=? ci_cno ci then print_remainder cpinfos eidx rest
    else lscp_print_cpinfo ci ;; print_remainder cpinfos eidx (u64 (rest - 1))
  end.

Fixpoint backward_ssinfos (fuel : nat) (eidx rest rns : Z) : MT unit :=
  match fuel with
  | O => out_of_fuel
  | Datatypes.S fuel =>
    if (0 <? rest) && (NILFS_CNO_MIN <? eidx) then
      if (rns <=? LSCP_NCPINFO) || (eidx <=? NILFS_CNO_MIN + LSCP_NCPINFO) then
        let* cpinfos := lscp_get_cpinfo 0 NILFS_SNAPSHOT rns in
        print_remainder (reverse cpinfos) eidx rest
      else
        let sidx := if NILFS_CNO_MIN + LSCP_NCPINFO <=? eidx then u64 (eidx - LSCP_NCPINFO) else NILFS_CNO_MIN in
        let* cpinfos := lscp_get_cpinfo sidx NILFS_CHECKPOINT (u64 (eidx - sidx)) in
        match cpinfos with
        | [] => ret tt
        | _ =>
          let* (_, rest, rns) := print_snapshots (reverse cpinfos) eidx rest rns in
          backward_ssinfos fuel sidx rest rns
        end
    else ret tt
  end.

Definition lscp_backward_ssinfo (fuel : nat) (cpstat : nilfs_cpstat) : MT unit :=
  backward_ssinfos fuel (end_of o cpstat) (lines_of o (cs_nsss cpstat)) (cs_nsss cpstat).

(** [main] from [nilfs_get_cpstat] on: the exit status. *)
Definition lscp_list (fuel : nat) : MT Z :=
  let* r := attempt (
    let* cpstat := slib nilfs_get_cpstat in
    lscp_print_header ;;
    if lp_mode o =? NILFS_CHECKPOINT then
      if negb (lp_rvs o) then lscp_forward_cpinfo fuel cpstat else lscp_backward_cpinfo fuel cpstat
    else
      if negb (lp_rvs o) then lscp_forward_ssinfo fuel cpstat else lscp_backward_ssinfo fuel cpstat) in
  ret (match r with inl _ => EXIT_SUCCESS | inr _ => EXIT_FAILURE end).

(** [main] behind the options; [args] are the arguments that are left. *)
Definition lscp_run (fuel : nat) (args : list (list Z)) : MT unit :=
  let* dev := (match args with
               | [] => ret None
               | [dev] => ret (Some dev)
               | _ => exit_with EXIT_FAILURE
               end) in
  let* r := attempt (nilfs_open dev None NILFS_OPEN_RDONLY) in
  match r with
  | inr _ => exit_with EXIT_FAILURE
  | inl _ =>
    let* status := lscp_list fuel in
    nilfs_close ;;
    exit_with status
  end.
End Lscp.

Definition lscp_main {W : Type} {K : Kernel W} {P : PathOs W} {F : OpenOs W} (fuel : nat)
    (argv : list (Z * list Z)) (args : list (list Z)) : M (tool W lscp_line) unit :=
  match parse_lscp_options argv lscp_defaults with
  | (Ok _, o) => lscp_run o fuel args
  | (Exit c, _) => exit_with c
  | _ => abort
  end.
