(* ===== verification/LscpSpec.v ===== *)
(** * What lscp lists

    The listings of [Lscp] against their definition on the sequence of all
    checkpoints: whatever the machine that moves the window does, the lines
    are those of the checkpoints asked for, in order, each once. *)

From S2P Require Import Prelude Vector Hoare Ondisk Sb Kernel Nilfs CnormapSpec Parser Tune Realpath Ismounted Mounts Open Lscp.

(** ** Sorted lists of checkpoints *)

(** The checkpoints below [e], and the snapshots. *)
Definition before (e : Z) (l : list nilfs_cpinfo) : list nilfs_cpinfo := filter (fun c => ci_cno c < e) l.
Definition snapshots (l : list nilfs_cpinfo) : list nilfs_cpinfo := filter (fun c => nilfs_cpinfo_snapshot c) l.

Implicit Types (l : list nilfs_cpinfo) (c d : nilfs_cpinfo).

Lemma sorted_filter (Pr : nilfs_cpinfo -> Prop) `{forall c, Decision (Pr c)} l : StronglySorted by_cno l -> StronglySorted by_cno (filter Pr l).
Proof.
  induction 1 as [|c l Hl IH Hc]; [constructor|]. rewrite filter_cons. case_decide; [|done]. constructor; [done|].
  rewrite Forall_forall in Hc |- *. intros d [_ Hd]%list_elem_of_filter. by apply Hc.
Qed.

Lemma filter_swap (Pr Qr : nilfs_cpinfo -> Prop) `{forall c, Decision (Pr c)} `{forall c, Decision (Qr c)} l :
  filter Pr (filter Qr l) = filter Qr (filter Pr l).
Proof.
  rewrite !list_filter_filter. apply list_filter_iff. intros c. tauto.
Qed.

Lemma elem_from i l c : c ∈ from i l <-> i <= ci_cno c /\ c ∈ l.
Proof. unfold from. by rewrite list_elem_of_filter. Qed.
Lemma elem_before e l c : c ∈ before e l <-> ci_cno c < e /\ c ∈ l.
Proof. unfold before. by rewrite list_elem_of_filter. Qed.

Lemma from_all i l : Forall (fun c => i <= ci_cno c) l -> from i l = l.
Proof. apply filter_all_pass. Qed.
Lemma from_none i l : Forall (fun c => ~ i <= ci_cno c) l -> from i l = [].
Proof. apply filter_all_fail. Qed.
Lemma before_none e l : Forall (fun c => ~ ci_cno c < e) l -> before e l = [].
Proof. apply filter_all_fail. Qed.

(** Sorted numbers are at least as far apart as their places. *)
Lemma sorted_spaced l : StronglySorted by_cno l -> forall s i c, Forall (fun d => s <= ci_cno d) l -> l !! i = Some c -> s + Z.of_nat i <= ci_cno c.
Proof.
  induction 1 as [|d l Hl IH Hd]; intros s i c Hs Hi; [done|]. apply Forall_cons in Hs as [Hs _]. destruct i as [|i]; [injection Hi as <-; lia|].
  specialize (IH (s + 1) i c). rewrite Nat2Z.inj_succ. enough (s + 1 + Z.of_nat i <= ci_cno c) by lia. apply IH; [|done].
  eapply Forall_impl; [exact Hd|]. unfold by_cno. simpl. intros. lia.
Qed.

Lemma sorted_drop l s k : StronglySorted by_cno l -> Forall (fun d => s <= ci_cno d) l -> Forall (fun c => s + Z.of_nat k <= ci_cno c) (drop k l).
Proof.
  intros Hl Hs. apply Forall_lookup. intros i c Hi. rewrite lookup_drop in Hi. pose proof (sorted_spaced l Hl s _ c Hs Hi). lia.
Qed.

(** As many sorted numbers as there is room for. *)
Lemma sorted_length l s e : StronglySorted by_cno l -> Forall (fun d => s <= ci_cno d < e) l -> Z.of_nat (length l) <= Z.max 0 (e - s).
Proof.
  intros Hl Hs. destruct (length l) as [|n] eqn:Hn; [lia|]. destruct (lookup_lt_is_Some_2 l n) as [c Hc]; [lia|].
  assert (Hge : Forall (fun d => s <= ci_cno d) l) by (eapply Forall_impl; [exact Hs|]; simpl; lia).
  pose proof (sorted_spaced l Hl s n c Hge Hc). rewrite Forall_lookup in Hs. specialize (Hs _ _ Hc). simpl in Hs. lia.
Qed.

(** A sorted list is cut at a number. *)
Lemma sorted_cut l s : StronglySorted by_cno l -> l = before s l ++ from s l.
Proof.
  induction 1 as [|c l Hl IH Hc]; [done|]. unfold before, from in *. rewrite !filter_cons. case_decide; case_decide; try lia.
  - simpl. by f_equal.
  - assert (filter (fun d => s <= ci_cno d) l = l /\ filter (fun d => ci_cno d < s) l = []) as [-> ->]; [|done].
    split; [apply filter_all_pass|apply filter_all_fail]; (eapply Forall_impl; [exact Hc|]); unfold by_cno; simpl; lia.
Qed.

Lemma before_split l s e : StronglySorted by_cno l -> s <= e -> before e l = before s l ++ from s (before e l).
Proof.
  intros Hl Hse. rewrite (sorted_cut (before e l) s) at 1 by (by apply sorted_filter). f_equal.
  unfold before. apply list_filter_filter_l. lia.
Qed.

(** What follows a member of a sorted list is the list from its number on. *)
Lemma from_member l pre c post : StronglySorted by_cno l -> l = pre ++ c :: post -> from (ci_cno c) l = c :: post.
Proof.
  intros Hl ->. unfold from. rewrite filter_app. apply StronglySorted_app in Hl as (Hb & _ & Hs). inversion Hs as [|? ? _ Hafter]; subst.
  rewrite (filter_all_fail _ pre), filter_all_pass; [done| |].
  - constructor; [lia|]. eapply Forall_impl; [exact Hafter|]. unfold by_cno. simpl. lia.
  - apply Forall_forall. intros d Hd. specialize (Hb d c Hd ltac:(by left)). unfold by_cno in Hb. lia.
Qed.

(** The visible part of a window that reaches to [e]. *)
Lemma window_visible l s e k : Forall (fun c => e <= ci_cno c) (drop k (from s l)) -> before e (take k (from s l)) = from s (before e l).
Proof.
  intros Hd. transitivity (before e (from s l)); [|apply filter_swap]. rewrite <- (take_drop k (from s l)) at 2. unfold before. rewrite filter_app.
  rewrite (filter_all_fail _ (drop k _)); [by rewrite app_nil_r|]. eapply Forall_impl; [exact Hd|]. simpl. lia.
Qed.

Lemma filter_reverse (Pr : nilfs_cpinfo -> Prop) `{forall c, Decision (Pr c)} l : filter Pr (reverse l) = reverse (filter Pr l).
Proof.
  induction l as [|c l IH]; [done|]. rewrite reverse_cons, filter_app, IH, !filter_cons. case_decide; [by rewrite reverse_cons|]. by rewrite app_nil_r.
Qed.

Lemma sorted_head l c i : StronglySorted by_cno l -> head (from i l) = Some c -> i <= ci_cno c /\ c ∈ l /\ Forall (fun d => ci_cno d < i \/ ci_cno c <= ci_cno d) l.
Proof.
  intros Hl Hh. destruct (from i l) as [|c' f] eqn:Hf; [done|]. injection Hh as ->.
  assert (Hc : c ∈ from i l) by (rewrite Hf; by left). apply elem_from in Hc as [H1 H2]. split_and!; [done..|].
  apply Forall_forall. intros d Hd. destruct (Z.lt_ge_cases (ci_cno d) i); [by left|right].
  assert (Hdf : d ∈ from i l) by (by apply elem_from). rewrite Hf in Hdf. apply elem_of_cons in Hdf as [->|Hdf]; [lia|].
  assert (Hs : StronglySorted by_cno (c :: f)) by (rewrite <- Hf; by apply sorted_filter). inversion Hs as [|? ? _ Hall]; subst.
  rewrite Forall_forall in Hall. specialize (Hall d Hdf). unfold by_cno in Hall. lia.
Qed.

(** ** The listing asked for *)

(** The next snapshot is linked to each. *)
Fixpoint chained l : Prop :=
  match l with
  | [] => True
  | c :: l' => ci_next c = match l' with [] => 0 | d :: _ => ci_cno d end /\ chained l'
  end.

(** The snapshots from the one with number [index] on; all from 0. *)
Definition snapshots_at (index : Z) l : list nilfs_cpinfo :=
  if index =? 0 then snapshots l
  else match head (from index (snapshots l)) with
       | Some c => if ci_cno c =? index then from index (snapshots l) else []
       | None => []
       end.

(** The counts, with the number of the next checkpoint. *)
Definition stat_of (next : Z) l : nilfs_cpstat := mk_cpstat next (Z.of_nat (length l)) (Z.of_nat (length (snapshots l))).

Definition listing (o : lscp_params) (next : Z) l : list nilfs_cpinfo :=
  let st := stat_of next l in
  if lp_mode o =? NILFS_CHECKPOINT then
    take (Z.to_nat (lines_of o (cs_ncps st)))
      (if lp_rvs o then reverse (filter (fun c => shown o c) (before (end_of o st) l))
       else filter (fun c => shown o c) (from (lp_index o) l))
  else
    take (Z.to_nat (lines_of o (cs_nsss st)))
      (if lp_rvs o then reverse (before (end_of o st) (snapshots l)) else from (lp_index o) (snapshots l)).

(** What is documented of the queries: as many entries as there are and as
    are asked for; each may fail. *)
Class ListingLaws {W : Type} (K : Kernel W) (cps : W -> list nilfs_cpinfo) (next : W -> Z) : Prop := {
  ll_checkpoints : forall fd n index w, match ioc_get_cpinfo fd n index NILFS_CHECKPOINT w with
    | (inl l, w') => l = take (Z.to_nat n) (from index (cps w)) /\ cps w' = cps w
    | (inr _, w') => cps w' = cps w
    end;
  ll_snapshots : forall fd n index w, match ioc_get_cpinfo fd n index NILFS_SNAPSHOT w with
    | (inl l, w') => l = take (Z.to_nat n) (snapshots_at index (cps w)) /\ cps w' = cps w
    | (inr _, w') => cps w' = cps w
    end;
  ll_cpstat : forall fd w, match ioc_get_cpstat fd w with
    | (inl st, w') => st = stat_of (next w) (cps w) /\ cps w' = cps w
    | (inr _, w') => cps w' = cps w
    end;
}.

Section Listing.
Context {W : Type} {K : Kernel W} {P : PathOs W} {F : OpenOs W} (cps : W -> list nilfs_cpinfo) (next : W -> Z) {LL : ListingLaws K cps next}.
Context (o : lscp_params) (C : list nilfs_cpinfo) (newest : nilfs_cpinfo) (lim : Z).
Implicit Types (s : tool W lscp_line).

Definition lworld s : W := s_world (t_sys s).
Definition lobject s : nilfs := s_nilfs (t_sys s).
Definition SS : list nilfs_cpinfo := snapshots C.

(** The object is open and knows no number above the first one. *)
Definition ready s : Prop :=
  0 <= n_iocfd (lobject s) /\ cps (lworld s) = C /\ Forall (fun c => n_mincno (lobject s) <= ci_cno c) C.

(** The checkpoints: ascending, the newest among them and below the next
    number, linked. *)
Hypothesis C_sorted : StronglySorted by_cno C.
Hypothesis C_range : Forall (fun c => NILFS_CNO_MIN <= ci_cno c) C.
Hypothesis C_newest : last C = Some newest.
Hypothesis C_below_lim : ci_cno newest < lim.
Hypothesis C_width : lim < 2 ^ 64.
Hypothesis C_chained : chained SS.

Lemma newest_in : newest ∈ C.
Proof using C_newest. by apply last_Some_elem_of. Qed.

Lemma C_below : Forall (fun c => ci_cno c < lim) C.
Proof using C_sorted C_newest C_below_lim.
  clear C_width C_chained C_range. apply last_Some in C_newest as [C' HC]. apply Forall_forall. intros c Hc. rewrite HC in C_sorted, Hc.
  apply StronglySorted_app in C_sorted as (Hb & _ & _). apply elem_of_app in Hc as [Hc|Hc%list_elem_of_singleton]; [|subst; lia].
  specialize (Hb c newest Hc ltac:(by left)). unfold by_cno in Hb. lia.
Qed.

(** *** Requests *)

(** A request that is answered in full, or fails and leaves the output. *)
Lemma slib_wp {A} (m : M (sys W) A) s (Q : A -> tool W lscp_line -> Prop) E :
  (forall a y, m (t_sys s) = (Ok a, y) -> Q a (with_sys s y)) -> (forall e y, m (t_sys s) = (Err e, y) -> E e (with_sys s y)) ->
  match (m (t_sys s)).1 with Ok _ | Err _ => True | _ => False end -> wp (slib m) Q E s.
Proof using.
  clear. intros HQ HE Hm. unfold wp, slib. destruct (m (t_sys s)) as [[] y]; cbn in Hm |- *; try done; [by apply HQ|by apply HE].
Qed.

Definition answer (mode i : Z) : list nilfs_cpinfo := if mode =? NILFS_CHECKPOINT then from i C else snapshots_at i C.

Lemma get_answer mode i n s : ready s -> mode = NILFS_CHECKPOINT /\ NILFS_CNO_MIN <= i \/ mode = NILFS_SNAPSHOT -> 0 < n ->
  wp (lscp_get_cpinfo i mode n) (fun r s' => r = take (Z.to_nat (Z.min n LSCP_NCPINFO)) (answer mode i) /\ ready s' /\ t_out s' = t_out s)
    (fun _ s' => t_out s' = t_out s) s.
Proof using LL C_sorted.
  clear C_range C_newest C_below_lim C_width C_chained newest.
  intros (Hfd & HC & Hmin) Hmode Hn. unfold lscp_get_cpinfo. set (m := Z.min n LSCP_NCPINFO).
  assert (Hm : 0 < m < 2 ^ 32) by (unfold m, LSCP_NCPINFO; lia). unfold wp, slib, nilfs_get_cpinfo, with_iocfd, the_nilfs.
  rewrite bind_gets. fold (lobject s). destruct (Z.ltb_spec (n_iocfd (lobject s)) 0); [lia|].
  destruct ((mode =? NILFS_CHECKPOINT) && (i <? NILFS_CNO_MIN)) eqn:He; [exfalso; destruct Hmode as [[-> ?]| ->]; [|done]; simpl in He; lia|].
  rewrite bind_gets. fold (lobject s). set (j := if _ && _ then _ else _). rewrite u32_id by (unfold is_u32; lia).
  unfold bind at 1, os. fold (lworld s).
  assert (Hans : match ioc_get_cpinfo (n_iocfd (lobject s)) m j mode (lworld s) with
    | (inl l, w') => l = take (Z.to_nat m) (answer mode i) /\ cps w' = C | (inr _, w') => cps w' = C end).
  { unfold answer. destruct Hmode as [[-> Hi]| ->].
    - pose proof (ll_checkpoints (n_iocfd (lobject s)) m j (lworld s)) as H2. rewrite HC in H2. unfold j in *. cbn [Z.eqb NILFS_CHECKPOINT andb] in *.
      by rewrite (from_max i _ _ Hmin) in H2.
    - pose proof (ll_snapshots (n_iocfd (lobject s)) m j (lworld s)) as H2. by rewrite HC in H2. }
  destruct (ioc_get_cpinfo _ m j mode (lworld s)) as [[l|e] w'] eqn:Hioc; [|done]. destruct Hans as [Hl Hw].
  destruct l as [|c l]; [by split_and!|]. destruct (_ && (n_mincno (lobject s) <? ci_cno c)) eqn:Hup; [|by split_and!].
  split_and!; try done. split_and!; [done..|]. unfold lobject. cbn. fold (lobject s). rewrite !andb_true_iff in Hup. destruct Hup as [[Hmo Hj] _].
  apply Z.eqb_eq in Hmo, Hj. subst mode. destruct Hmode as [[_ Hi]|]; [|done]. unfold j in Hj. cbn [Z.eqb NILFS_CHECKPOINT andb] in Hj.
  assert (Hfrom : answer NILFS_CHECKPOINT i = C).
  { unfold answer. cbn. rewrite <- (from_max i (n_mincno (lobject s)) C Hmin), Hj. by apply from_all. }
  rewrite Hfrom in Hl. apply Forall_forall. intros d Hd. by eapply first_is_least.
Qed.

(** *** The output *)

(** What is to be printed, and what was before. *)
Context (all : list nilfs_cpinfo) (out0 : list lscp_line).

(** [rem] remains to be printed; a failure leaves a first part. *)
Definition left_over (rem : list nilfs_cpinfo) s : Prop :=
  ready s /\ exists done, all = done ++ rem /\ t_out s = out0 ++ map (line_of o) done.
Definition cut_short s : Prop := exists done rem, all = done ++ rem /\ t_out s = out0 ++ map (line_of o) done.

Lemma left_cut rem s : left_over rem s -> cut_short s.
Proof using. clear. intros [_ (d & H1 & H2)]. by exists d, rem. Qed.

Lemma print_left c rem s (Q : unit -> tool W lscp_line -> Prop) E : left_over (c :: rem) s ->
  (forall s', left_over rem s' -> Q tt s') -> wp (lscp_print_cpinfo o c) Q E s.
Proof using.
  clear. intros [H1 (d & H2 & H3)] HQ. unfold lscp_print_cpinfo, print_line. wp_step. apply HQ. split; [done|]. exists (d ++ [c]). cbn.
  rewrite map_app, H3, <- !app_assoc. by split.
Qed.

Lemma get_left mode i n rem s (Q : list nilfs_cpinfo -> tool W lscp_line -> Prop) : left_over rem s ->
  mode = NILFS_CHECKPOINT /\ NILFS_CNO_MIN <= i \/ mode = NILFS_SNAPSHOT -> 0 < n ->
  (forall s', left_over rem s' -> Q (take (Z.to_nat (Z.min n LSCP_NCPINFO)) (answer mode i)) s') ->
  wp (lscp_get_cpinfo i mode n) Q (fun _ => cut_short) s.
Proof using LL C_sorted.
  clear C_range C_newest C_below_lim C_width C_chained newest. intros [H1 H2] Hm Hn HQ. eapply wp_mono; [by apply get_answer| |].
  - intros r s' (-> & G1 & G2). apply HQ. split; [done|]. by rewrite G2.
  - intros e s' G. unfold cut_short. rewrite G. destruct H2 as (d & H2 & H3). by exists d, rem.
Qed.

(** *** Forwards *)

Abbreviation visible := (filter (fun c => shown o c)).

Lemma print_forward_left l : forall rem rest s, left_over (visible l ++ rem) s -> Z.of_nat (length l) <= rest < 2 ^ 64 ->
  wp (print_forward o l rest) (fun rest' s' => rest' = rest - Z.of_nat (length (visible l)) /\ left_over rem s') (fun _ => cut_short) s.
Proof using.
  clear. induction l as [|c l IH]; intros rem rest s Hl Hr; cbn [print_forward].
  { wp_step. split; [simpl; lia|done]. }
  cbn [length] in Hr. rewrite filter_cons in *. destruct (shown o c) eqn:Hs.
  - rewrite decide_True in * by done. wp_step. eapply print_left; [exact Hl|]. intros s' Hl'. eapply wp_mono; [apply IH; [exact Hl'|]| |done].
    + rewrite u64_id by (unfold is_u64; lia). lia.
    + intros rest' s'' [-> H]. rewrite u64_id by (unfold is_u64; lia). split; [|done]. cbn [length]. lia.
  - rewrite decide_False in * by (intros []). apply IH; [done|lia].
Qed.

Lemma last_take_none {A} k (l : list A) : (0 < k)%nat -> last (take k l) = None -> l = [].
Proof using. clear. intros Hk Hl%last_None. destruct l; [done|]. by destruct k; [lia|]. Qed.

(** Behind the last one that was read, the rest remains. *)
Lemma rest_behind l i k final : StronglySorted by_cno l -> last (take k (from i l)) = Some final -> from (ci_cno final + 1) l = drop k (from i l).
Proof using. clear. intros Hl Hf. eapply from_next; [done| |done]. symmetry. apply take_drop. Qed.

Lemma take_visible l k rest : (length (visible (take k l)) <= rest)%nat ->
  take rest (visible l) = visible (take k l) ++ take (rest - length (visible (take k l))) (visible (drop k l)).
Proof using. clear. intros H. rewrite <- (take_drop k l) at 1. rewrite filter_app, take_app. by rewrite take_ge by lia. Qed.

Lemma forward_left fuel : forall rest sidx s, left_over (take (Z.to_nat rest) (visible (from sidx C))) s ->
  NILFS_CNO_MIN <= sidx -> 0 <= rest < 2 ^ 64 -> (length (from sidx C) < fuel)%nat ->
  wp (forward_cpinfos o fuel lim rest sidx) (fun _ => left_over []) (fun _ => cut_short) s.
Proof using LL C_sorted C_range C_newest C_below_lim C_width.
  clear C_chained. induction fuel as [|fuel IH]; intros rest sidx s Hl Hs Hr Hf; [lia|]. cbn [forward_cpinfos].
  destruct ((0 <? rest) && (sidx <? lim)) eqn:Hcond.
  2: { wp_step. destruct (Z.eq_dec rest 0) as [->|]; [exact Hl|]. assert (Hnone : from sidx C = []).
       { apply from_none. eapply Forall_impl; [apply C_below|]. simpl. lia. }
       by rewrite Hnone, filter_nil, take_nil in Hl. }
  wp_step. eapply get_left; [exact Hl|by left|lia|]. intros s1 Hl1. change (answer NILFS_CHECKPOINT sidx) with (from sidx C).
  set (k := Z.to_nat (Z.min rest LSCP_NCPINFO)). assert (Hk : (0 < k)%nat /\ Z.of_nat k <= rest) by (unfold k, LSCP_NCPINFO; lia).
  destruct (last (take k (from sidx C))) as [final|] eqn:Hlast.
  2: { wp_step. apply last_take_none in Hlast; [|lia]. by rewrite Hlast, filter_nil, take_nil in Hl1. }
  assert (Hlen : (length (visible (take k (from sidx C))) <= Z.to_nat rest)%nat).
  { etransitivity; [apply length_filter|]. rewrite length_take. lia. }
  rewrite (take_visible _ k) in Hl1 by done. wp_step. eapply wp_mono; [apply print_forward_left; [exact Hl1|]| |done].
  { rewrite length_take. lia. }
  intros rest' s2 [-> Hl2]. assert (Hfin : final ∈ C /\ sidx <= ci_cno final).
  { apply last_Some_elem_of in Hlast. apply elem_of_take in Hlast as (j & Hj & _). apply list_elem_of_lookup_2, elem_from in Hj. tauto. }
  pose proof C_below as Hb. rewrite Forall_forall in Hb. specialize (Hb final (proj1 Hfin)).
  rewrite u64_id by (unfold is_u64, NILFS_CNO_MIN in *; lia).
  pose proof (rest_behind C sidx k final C_sorted Hlast) as Hnext. apply IH; [|lia|lia|].
  - rewrite Hnext. by replace (Z.to_nat (rest - _)) with (Z.to_nat rest - length (visible (take k (from sidx C))))%nat by lia.
  - rewrite Hnext, length_drop. assert (from sidx C <> []) by (intros E; by rewrite E, take_nil in Hlast). destruct (from sidx C); [done|cbn [length] in *; lia].
Qed.

(** *** Backwards *)

(** What is visible of a window, printed from its end. *)
Lemma print_back_left e l : forall rem rest s, left_over (take (Z.to_nat rest) (filter (fun c => ci_cno c < e) (visible l) ++ rem)) s -> 0 < rest < 2 ^ 64 ->
  wp (print_back o l e rest)
    (fun r s' => match r with None => left_over [] s' | Some rest' => 0 < rest' < 2 ^ 64 /\ left_over (take (Z.to_nat rest') rem) s' end) (fun _ => cut_short) s.
Proof using.
  clear. induction l as [|c l IH]; intros rem rest s Hl Hr; cbn [print_back].
  { wp_step. by split. }
  rewrite filter_cons in Hl. destruct (shown o c) eqn:Hs.
  2: { rewrite andb_false_r. rewrite decide_False in Hl by (intros []). by apply IH. }
  rewrite decide_True in Hl by done. rewrite filter_cons in Hl. rewrite andb_true_r. destruct (Z.ltb_spec (ci_cno c) e).
  2: { rewrite decide_False in Hl by lia. by apply IH. }
  rewrite decide_True in Hl by done. replace (Z.to_nat rest) with (Datatypes.S (Z.to_nat (rest - 1))) in Hl by lia.
  wp_step. eapply print_left; [exact Hl|]. intros s1 Hl1. rewrite u64_id by (unfold is_u64; lia). destruct (Z.eqb_spec (rest - 1) 0) as [E|].
  - wp_step. by rewrite E in Hl1.
  - apply IH; [done|lia].
Qed.

(** The state of the search, and what remains to be listed. *)
Record searching (b : lscp_search) : Prop := {
  se_eidx : NILFS_CNO_MIN <= ls_eidx b <= Z.min lim (ci_cno newest + LSCP_MINDELTA);
  se_rest : 0 < ls_rest b < 2 ^ 64;
  se_delta : ls_delta b = Z.min LSCP_NCPINFO (Z.max (ls_rest b) LSCP_MINDELTA);
  se_v : LSCP_MINDELTA <= ls_v b <= 2 ^ 64 - 2 /\ (accelerated b = false -> ls_v b = ls_delta b);
  se_gap : Forall (fun c => ci_cno c < ls_eidx b \/ ls_prev_head b <= ci_cno c) C;
  se_prev : ls_prev_head b = 0 /\ accelerated b = false \/ exists p, p ∈ C /\ ci_cno p = ls_prev_head b /\ ls_eidx b <= ls_prev_head b;
}.

Definition to_list (rest e : Z) : list nilfs_cpinfo := take (Z.to_nat rest) (reverse (visible (before e C))).

(** How many steps remain at most. *)
Definition effort (b : lscp_search) : Z :=
  66 * ls_eidx b + match ls_state b with LSCP_NORMAL_ST => 0 | LSCP_INIT_ST => 1 | _ => 1 + Z.log2 (ls_v b) end.

Lemma window_bounds b : searching b -> NILFS_CNO_MIN < ls_eidx b ->
  NILFS_CNO_MIN <= window_start b < ls_eidx b /\ (is_normal b = true -> ls_eidx b - window_start b <= LSCP_NCPINFO).
Proof using C_width.
  clear C_sorted C_range C_newest C_below_lim C_chained. intros [H1 H2 H3 [H4 H5] H6 H7] He. unfold window_start, LSCP_MINDELTA, LSCP_NCPINFO, NILFS_CNO_MIN in *.
  rewrite (u64_id (1 + _)) by (unfold is_u64; lia). assert (Hd : ls_delta b <= 512) by lia.
  destruct (Z.ltb_spec (ls_eidx b) (1 + ls_v b)) as [Hlt|Hge]; cbn [orb].
  - split; [lia|]. intros Hn. assert (ls_v b = ls_delta b) by (apply H5; unfold is_normal, accelerated in *; by destruct (ls_state b)). lia.
  - destruct (is_init b) eqn:Hi.
    + split; [lia|]. intros Hn. unfold is_init, is_normal in *. by destruct (ls_state b).
    + rewrite u64_id by (unfold is_u64; lia). split; [lia|]. intros Hn. assert (ls_v b = ls_delta b) by (apply H5; unfold is_normal, accelerated in *; by destruct (ls_state b)). lia.
Qed.

Lemma log2_width v : 0 < v < 2 ^ 64 -> 0 <= Z.log2 v <= 63.
Proof using. clear. intros Hv. split; [apply Z.log2_nonneg|]. assert (Z.log2 v < 64) by (apply Z.log2_lt_pow2; lia). lia. Qed.

(** Behind a window, fewer steps remain. *)
Lemma effort_back b b' : ls_eidx b' < ls_eidx b -> 0 < ls_v b' < 2 ^ 64 -> effort b' < effort b.
Proof using.
  clear. intros He Hv. unfold effort. pose proof (log2_width _ Hv). assert (0 <= Z.log2 (ls_v b)) by apply Z.log2_nonneg.
  destruct (ls_state b'), (ls_state b); lia.
Qed.

(** Nothing in the window. *)
Lemma further_back_ok b : searching b -> is_init b = false -> NILFS_CNO_MIN < ls_eidx b ->
  Forall (fun c => ci_cno c < window_start b \/ ls_prev_head b <= ci_cno c) C -> (exists p, p ∈ C /\ ci_cno p = ls_prev_head b /\ ls_eidx b <= ls_prev_head b) ->
  searching (further_back b (window_start b)) /\ effort (further_back b (window_start b)) < effort b /\ ls_eidx (further_back b (window_start b)) = window_start b /\
  ls_rest (further_back b (window_start b)) = ls_rest b.
Proof using C_width.
  clear C_sorted C_range C_newest C_below_lim C_chained. intros Hb Hi He Hgap (p & Hp1 & Hp2 & Hp3).
  destruct (window_bounds b Hb He) as [Hw _]. destruct Hb as [H1 H2 H3 [H4 H5] H6 H7]. unfold LSCP_MINDELTA, LSCP_NCPINFO in *.
  set (v := if ls_v b <? u64 (ls_v b * 2) then u64 (ls_v b * 2) else ls_v b). assert (Hv : 64 <= v <= 2 ^ 64 - 2).
  { unfold v. pose proof (Z.mod_pos_bound (ls_v b * 2) (2 ^ 64)). destruct (Z.ltb_spec (ls_v b) (u64 (ls_v b * 2))) as [Hlt|]; [|lia].
    unfold u64 in *. destruct (Z.lt_ge_cases (ls_v b * 2) (2 ^ 64)); [rewrite Z.mod_small in * by lia; lia|].
    rewrite <- (Z.mod_unique (ls_v b * 2) (2 ^ 64) 1 (ls_v b * 2 - 2 ^ 64)) in Hlt by lia. lia. }
  assert (Hprev : ls_prev_head b = 0 /\ false = false \/ exists p, p ∈ C /\ ci_cno p = ls_prev_head b /\ window_start b <= ls_prev_head b)
    by (right; exists p; split_and!; try done; lia).
  assert (Hprev' : ls_prev_head b = 0 /\ true = false \/ exists p, p ∈ C /\ ci_cno p = ls_prev_head b /\ window_start b <= ls_prev_head b)
    by (right; exists p; split_and!; try done; lia).
  unfold further_back. fold v. destruct (ls_state b) eqn:Hst; [by unfold is_init in Hi; rewrite Hst in Hi|..].
  all: split_and!; [|apply effort_back; simpl; lia|done|done].
  all: split; cbn; try done; unfold LSCP_MINDELTA, LSCP_NCPINFO; try lia. all: split; [lia|done].
Qed.

Lemma more_slowly_ok b : searching b -> accelerated b = true ->
  searching (more_slowly b) /\ effort (more_slowly b) < effort b /\ ls_eidx (more_slowly b) = ls_eidx b /\ ls_rest (more_slowly b) = ls_rest b.
Proof using.
  clear. intros [H1 H2 H3 [H4 H5] H6 H7] Ha. unfold more_slowly, LSCP_MINDELTA, LSCP_NCPINFO in *. destruct (Z.leb_spec (ls_v b / 2) (ls_delta b)) as [Hle|Hgt].
  - split_and!; [|unfold effort; cbn; pose proof (Z.log2_nonneg (ls_v b)); unfold accelerated in Ha; destruct (ls_state b); try done; lia|done..].
    split; cbn; try done; unfold LSCP_MINDELTA, LSCP_NCPINFO. { split; [lia|done]. } destruct H7 as [[_ H7]|H7]; [congruence|by right].
  - assert (Hh : ls_v b = 2 * (ls_v b / 2) + ls_v b mod 2) by (apply Z.div_mod; lia). pose proof (Z.mod_pos_bound (ls_v b) 2 ltac:(lia)).
    split_and!; [| |done..].
    + split; cbn; try done; unfold LSCP_MINDELTA, LSCP_NCPINFO; try lia. destruct H7 as [[_ H7]|H7]; [congruence|by right].
    + assert (Hlog : Z.log2 (ls_v b / 2) < Z.log2 (ls_v b)).
      { rewrite <- Z.div2_div, Z.div2_spec, Z.log2_shiftr by lia. assert (0 < Z.log2 (ls_v b)) by (apply Z.log2_pos; lia). lia. }
      unfold effort. cbn. unfold accelerated in Ha. destruct (ls_state b); try done; lia.
Qed.

Lemma to_list_none rest e : Forall (fun c => ~ ci_cno c < e) C -> to_list rest e = [].
Proof using. clear. intros H. unfold to_list. rewrite before_none by done. rewrite filter_nil. apply take_nil. Qed.

Lemma to_list_split rest i e : i <= e ->
  to_list rest e = take (Z.to_nat rest) (reverse (visible (from i (before e C))) ++ reverse (visible (before i C))).
Proof using C_sorted.
  clear -C_sorted. intros H. unfold to_list. rewrite (before_split C i e) at 1 by done. by rewrite filter_app, reverse_app.
Qed.

(** A window with the least checkpoint in it. *)
Lemma recalc_ok b first rest : searching b -> NILFS_CNO_MIN < ls_eidx b -> head (from (window_start b) C) = Some first -> 0 < rest < 2 ^ 64 ->
  searching (recalc_delta (window_start b) (ci_cno first) rest LSCP_NORMAL_ST) /\
  effort (recalc_delta (window_start b) (ci_cno first) rest LSCP_NORMAL_ST) < effort b.
Proof using C_sorted C_width.
  clear C_range C_newest C_below_lim C_chained. intros Hb He Hfirst Hr. destruct (window_bounds b Hb He) as [Hw _]. destruct (sorted_head _ _ _ C_sorted Hfirst) as (F1 & F2 & F3).
  destruct Hb as [H1 H2 H3 [H4 H5] H6 H7]. split.
  - split; cbn; unfold LSCP_MINDELTA, LSCP_NCPINFO in *; try done; try lia. right. by exists first.
  - apply effort_back; cbn; unfold LSCP_MINDELTA, LSCP_NCPINFO; lia.
Qed.

Lemma print_window_ok b first k s : searching b -> NILFS_CNO_MIN < ls_eidx b -> left_over (to_list (ls_rest b) (ls_eidx b)) s ->
  head (from (window_start b) C) = Some first -> Forall (fun c => ls_eidx b <= ci_cno c) (drop k (from (window_start b) C)) ->
  wp (print_window o b (window_start b) first (take k (from (window_start b) C)))
    (fun r s' => match r with None => left_over [] s' | Some b' => searching b' /\ effort b' < effort b /\ left_over (to_list (ls_rest b') (ls_eidx b')) s' end)
    (fun _ => cut_short) s.
Proof using C_sorted C_width.
  clear C_range C_newest C_below_lim C_chained. intros Hb He Hl Hfirst Hd. destruct (window_bounds b Hb He) as [Hw _]. unfold print_window. wp_step.
  rewrite (to_list_split _ (window_start b)) in Hl by lia. rewrite <- (window_visible C _ _ k) in Hl by done. unfold before at 1 in Hl.
  rewrite (filter_swap _ (fun c => ci_cno c < ls_eidx b)), <- !filter_reverse in Hl.
  eapply wp_mono; [apply print_back_left; [exact Hl|apply Hb]| |done].
  intros [rest'|] s1 H; wp_step; [|exact H]. destruct H as [Hr H]. split; [by apply recalc_ok|]. split; [by apply recalc_ok|]. cbn. unfold to_list. by rewrite filter_reverse in H.
Qed.

Lemma window_low b : searching b -> NILFS_CNO_MIN < ls_eidx b -> window_start b <= Z.max NILFS_CNO_MIN (ls_eidx b - ls_v b).
Proof using C_width.
  clear C_sorted C_range C_newest C_below_lim C_chained. intros [H1 H2 H3 [H4 H5] H6 H7] He. unfold window_start, LSCP_MINDELTA, NILFS_CNO_MIN in *.
  rewrite (u64_id (1 + _)) by (unfold is_u64; lia). destruct (Z.ltb_spec (ls_eidx b) (1 + ls_v b)); cbn [orb]; [lia|].
  destruct (is_init b); [lia|]. rewrite u64_id by (unfold is_u64; lia). lia.
Qed.

Lemma from_window_nonempty b : searching b -> NILFS_CNO_MIN < ls_eidx b -> from (window_start b) C <> [].
Proof using C_range C_newest C_below_lim C_width.
  clear C_sorted C_chained. intros Hb He Hn. pose proof newest_in as Hin. pose proof (window_low b Hb He) as Hw. destruct Hb as [H1 _ _ [H4 _] _ _].
  rewrite Forall_forall in C_range. pose proof (C_range newest Hin) as Hpos. apply (conj (A := window_start b <= ci_cno newest)), elem_from in Hin; [|simpl in Hpos; lia].
  rewrite Hn in Hin. by apply not_elem_of_nil in Hin.
Qed.

(** A window with one checkpoint in it, that before the previous one. *)
Lemma single_window b first f : searching b -> NILFS_CNO_MIN < ls_eidx b -> accelerated b = true -> from (window_start b) C = first :: f ->
  ci_cno first <> ls_prev_head b -> ls_prev_head b <= ci_cno first + 1 -> Forall (fun c => ls_eidx b <= ci_cno c) f.
Proof using C_sorted C_width.
  clear C_range C_newest C_below_lim C_chained. intros Hb He Ha Hf Hne Hge. destruct (window_bounds b Hb He) as [Hw _]. destruct Hb as [_ _ _ _ _ Hp].
  destruct Hp as [[_ Hp]|(p & Hp1 & Hp2 & Hp3)]; [congruence|].
  assert (Hs : StronglySorted by_cno (first :: f)) by (rewrite <- Hf; by apply sorted_filter). inversion Hs as [|? ? _ Hall]; subst.
  eapply Forall_impl; [exact Hall|]. unfold by_cno. cbn. intros c Hc. lia.
Qed.

Lemma take_last k (l : list nilfs_cpinfo) c l' : (0 < k)%nat -> l = c :: l' -> exists final, head (take k l) = Some c /\ last (take k l) = Some final /\
  match take k l with [] => False | first :: _ => first = c end.
Proof using. clear. intros Hk ->. destruct k as [|k]; [lia|]. cbn [take]. destruct (last (c :: take k l')) as [final|] eqn:E; [by exists final|]. by apply last_None in E. Qed.

Lemma backward_step_ok b s : searching b -> NILFS_CNO_MIN < ls_eidx b -> left_over (to_list (ls_rest b) (ls_eidx b)) s ->
  wp (backward_step o b)
    (fun r s' => match r with None => left_over [] s' | Some b' => searching b' /\ effort b' < effort b /\ left_over (to_list (ls_rest b') (ls_eidx b')) s' end)
    (fun _ => cut_short) s.
Proof using LL C_sorted C_range C_newest C_below_lim C_width.
  clear C_chained. intros Hb He Hl. destruct (window_bounds b Hb He) as [Hw Hwn]. unfold backward_step. wp_step.
  assert (Hcount : 0 < (if is_normal b then u64 (ls_eidx b - window_start b) else 1)).
  { case_if; [|lia]. pose proof (se_eidx _ Hb). unfold NILFS_CNO_MIN in *. rewrite u64_id by (unfold is_u64; lia). lia. }
  eapply get_left; [exact Hl|by left; split; [done|lia]|exact Hcount|]. intros s1 Hl1. cbv beta. change (answer NILFS_CHECKPOINT (window_start b)) with (from (window_start b) C).
  set (k := Z.to_nat _). assert (Hk : (0 < k)%nat) by (unfold k, LSCP_NCPINFO; lia).
  destruct (from (window_start b) C) as [|first f] eqn:Hf; [by apply from_window_nonempty in Hf|].
  assert (Hfirst : head (from (window_start b) C) = Some first) by (by rewrite Hf).
  destruct (sorted_head _ _ _ C_sorted Hfirst) as (F1 & F2 & F3).
  destruct (take_last k (first :: f) first f Hk eq_refl) as (final & _ & Hfinal & Hcons).
  destruct (take k (first :: f)) as [|first' t] eqn:Ht; [done|]. subst first'. rewrite Hfinal.
  assert (Hnone : window_start b = NILFS_CNO_MIN -> ls_eidx b <= ci_cno first -> to_list (ls_rest b) (ls_eidx b) = []).
  { intros Hw1 Hle. apply to_list_none. rewrite Forall_forall in C_range, F3 |- *. intros c Hc. specialize (F3 c Hc). specialize (C_range c Hc). simpl in C_range. lia. }
  destruct (is_init b) eqn:Hi.
  { wp_step. destruct (Z.leb_spec (ls_eidx b) (ci_cno first)) as [Hle|Hgt].
    - rewrite Hnone in Hl1; [done| |done]. unfold window_start. by rewrite Hi, orb_true_r.
    - assert (Hst : ls_state b = LSCP_INIT_ST) by (unfold is_init in Hi; by destruct (ls_state b)). destruct Hb as [H1 H2 H3 [H4 H5] H6 H7].
      unfold accelerated in *. rewrite Hst in *. split_and!; [|unfold effort; rewrite Hst; cbn; lia|done]. by split. }
  destruct (Z.eqb_spec (ci_cno first) (ls_prev_head b)) as [Hsame|Hother].
  { wp_step. destruct (se_prev _ Hb) as [[Hz _]|Hp].
    { rewrite Forall_forall in C_range. specialize (C_range first F2). unfold NILFS_CNO_MIN in C_range. lia. }
    assert (Hle : ls_eidx b <= ci_cno first) by (destruct Hp as (p & _ & _ & ?); lia).
    destruct (Z.eqb_spec (window_start b) NILFS_CNO_MIN) as [Hw1|Hw1]; [by rewrite Hnone in Hl1|].
    destruct (further_back_ok b Hb Hi He) as (G1 & G2 & G3 & G4); [by rewrite <- Hsame|done|]. split_and!; [done..|]. rewrite G3, G4.
    rewrite (to_list_split _ (window_start b)) in Hl1 by lia. rewrite (from_none _ (before _ C)) in Hl1; [done|].
    rewrite Forall_forall in F3 |- *. intros c [Hc1 Hc2]%elem_before. specialize (F3 c Hc2). lia. }
  destruct (accelerated b && (u64 (ci_cno final + 1) <? ls_prev_head b)) eqn:Hslow.
  { wp_step. apply andb_true_iff in Hslow as [Ha _]. destruct (more_slowly_ok b Hb Ha) as (G1 & G2 & G3 & G4). split_and!; [done..|]. by rewrite G3, G4. }
  rewrite <- Ht, <- Hf. apply print_window_ok; [done..|by rewrite Hf|]. destruct (is_normal b) eqn:Hn.
  - unfold k. eapply Forall_impl; [apply (sorted_drop _ (window_start b)); [by apply sorted_filter|]|].
    + apply Forall_forall. intros c [Hc _]%elem_from. exact Hc.
    + intros c Hc. pose proof (se_eidx _ Hb). unfold NILFS_CNO_MIN in *. rewrite u64_id in Hc by (unfold is_u64; lia). simpl in Hc. specialize (Hwn eq_refl). lia.
  - assert (Ha : accelerated b = true) by (unfold accelerated, is_init, is_normal in *; by destruct (ls_state b)).
    assert (Hk1 : k = 1%nat) by done. rewrite Hk1 in *. rewrite Hf. cbn [drop]. rewrite Ha in Hslow. cbn [andb] in Hslow.
    cbn in Ht. injection Ht as <-. injection Hfinal as <-. apply Z.ltb_ge in Hslow. eapply single_window; try done.
    pose proof C_below as Hbelow. rewrite Forall_forall in Hbelow, C_range. specialize (Hbelow first F2). specialize (C_range first F2). unfold NILFS_CNO_MIN in C_range.
    rewrite u64_id in Hslow by (unfold is_u64; lia). lia.
Qed.

Lemma backward_left fuel : forall b s, searching b -> left_over (to_list (ls_rest b) (ls_eidx b)) s -> (Z.to_nat (effort b) < fuel)%nat ->
  wp (backward_cpinfos o fuel b) (fun _ => left_over []) (fun _ => cut_short) s.
Proof using LL C_sorted C_range C_newest C_below_lim C_width.
  clear C_chained. induction fuel as [|fuel IH]; intros b s Hb Hl Hf; [lia|]. cbn [backward_cpinfos]. destruct (Z.ltb_spec NILFS_CNO_MIN (ls_eidx b)) as [He|He].
  - wp_step. eapply wp_mono; [by apply backward_step_ok| |done]. intros [b'|] s' H; [|by wp_step]. destruct H as (G1 & G2 & G3). apply IH; [done..|].
    assert (0 <= effort b'); [|lia]. unfold effort. pose proof (se_eidx _ G1) as G4. unfold NILFS_CNO_MIN in G4. pose proof (Z.log2_nonneg (ls_v b')). destruct (ls_state b'); lia.
  - wp_step. rewrite to_list_none in Hl; [done|]. eapply Forall_impl; [exact C_range|]. simpl. lia.
Qed.

(** *** Snapshots forwards *)

Lemma SS_sorted : StronglySorted by_cno SS.
Proof using C_sorted. by apply sorted_filter. Qed.

Lemma elem_SS c : c ∈ SS <-> nilfs_cpinfo_snapshot c = true /\ c ∈ C.
Proof using. clear. unfold SS, snapshots. rewrite list_elem_of_filter. by rewrite Is_true_true. Qed.

Lemma from_SS i : from i SS = snapshots (from i C).
Proof using. clear. apply filter_swap. Qed.

Lemma find_none l : List.find nilfs_cpinfo_snapshot l = None -> snapshots l = [].
Proof using. clear. intros H. apply filter_all_fail, Forall_forall. intros c Hc Hs. apply Is_true_true in Hs. by rewrite (List.find_none _ _ H c ltac:(by apply list_elem_of_In)) in Hs. Qed.

Lemma find_some l c : List.find nilfs_cpinfo_snapshot l = Some c -> head (snapshots l) = Some c.
Proof using.
  clear. induction l as [|d l IH]; [done|]. cbn [List.find]. unfold snapshots. rewrite filter_cons. destruct (nilfs_cpinfo_snapshot d) eqn:Hd.
  - intros [= ->]. by rewrite decide_True by done.
  - rewrite decide_False by (intros []). exact IH.
Qed.

Lemma snapshots_app l1 l2 : snapshots (l1 ++ l2) = snapshots l1 ++ snapshots l2.
Proof using. apply filter_app. Qed.

(** Where none of the numbers that were read is a snapshot, none is skipped. *)
Lemma skip_read i k : (0 < k)%nat -> snapshots (take k (from i C)) = [] ->
  from (i + Z.of_nat (length (take k (from i C)))) SS = from i SS.
Proof using C_sorted.
  clear -C_sorted. intros Hk Hn. rewrite !from_SS. set (n := length (take k (from i C))).
  assert (Hd : Forall (fun c => i + Z.of_nat n <= ci_cno c) (drop n (from i C))).
  { apply sorted_drop; [by apply sorted_filter|]. apply Forall_forall. intros c [Hc _]%elem_from. exact Hc. }
  assert (Ht : take n (from i C) = take k (from i C)).
  { unfold n. rewrite length_take. destruct (Nat.le_ge_cases k (length (from i C))); [by rewrite Nat.min_l|]. by rewrite Nat.min_r, !take_ge by lia. }
  assert (Hii : from (i + Z.of_nat n) C = from (i + Z.of_nat n) (take n (from i C)) ++ drop n (from i C)).
  { transitivity (from (i + Z.of_nat n) (from i C)); [unfold from; symmetry; apply list_filter_filter_l; lia|].
    rewrite <- (take_drop n (from i C)) at 1. unfold from at 1. rewrite filter_app. f_equal. by apply filter_all_pass. }
  transitivity (snapshots (drop n (from i C))); [|by rewrite <- (take_drop n (from i C)) at 2; rewrite snapshots_app, Ht, Hn].
  rewrite Hii, snapshots_app, Ht. enough (snapshots (from (i + Z.of_nat n) (take k (from i C))) = []) as -> by done.
  apply filter_all_fail, Forall_forall. intros c Hc Hs. apply elem_from in Hc as [_ Hc].
  assert (Hin : c ∈ snapshots (take k (from i C))) by (by apply list_elem_of_filter). rewrite Hn in Hin. by apply not_elem_of_nil in Hin.
Qed.

Lemma search_left fuel : forall i n rem s, left_over rem s -> NILFS_CNO_MIN <= i <= lim -> (i < lim -> 0 < n) -> (Z.to_nat (lim - i) < fuel)%nat ->
  wp (search_snapshot fuel lim i n)
    (fun r s' => left_over rem s' /\ match r with Some j => exists c, head (from i SS) = Some c /\ ci_cno c = j | None => from i SS = [] end)
    (fun _ => cut_short) s.
Proof using LL C_sorted C_newest C_below_lim C_width.
  clear C_range C_chained. induction fuel as [|fuel IH]; intros i n rem s Hl Hi Hn Hf; [lia|]. cbn [search_snapshot]. destruct (Z.ltb_spec i lim) as [Hlt|Hge].
  2: { wp_step. split; [done|]. apply from_none, Forall_forall. intros c [_ Hc]%elem_SS. pose proof C_below as Hb. rewrite Forall_forall in Hb. specialize (Hb c Hc). lia. }
  wp_step. eapply get_left; [exact Hl|left; split; [done|lia]|by apply Hn|]. intros s1 Hl1. change (answer NILFS_CHECKPOINT i) with (from i C).
  set (k := Z.to_nat _). assert (Hk : (0 < k)%nat) by (unfold k, LSCP_NCPINFO; specialize (Hn Hlt); lia).
  destruct (take k (from i C)) as [|c0 t0] eqn:Ht.
  { wp_step. split; [done|]. rewrite from_SS. assert (HR : from i C = []) by (destruct (from i C); [done|by destruct k; [lia|]]). by rewrite HR. }
  rewrite <- Ht. destruct (List.find nilfs_cpinfo_snapshot (take k (from i C))) as [c|] eqn:Hfind.
  { wp_step. split; [done|]. exists c. split; [|done]. apply find_some in Hfind. rewrite from_SS, <- (take_drop k (from i C)), snapshots_app.
    by destruct (snapshots (take k (from i C))). }
  pose proof (skip_read i k Hk (find_none _ Hfind)) as Hskip. set (m := Z.of_nat (length (take k (from i C)))) in *.
  assert (Hm : 0 < m <= lim - i).
  { split; [unfold m; rewrite Ht; cbn; lia|]. unfold m. rewrite length_take. pose proof (sorted_length (from i C) i lim) as Hlen.
    enough (Z.of_nat (length (from i C)) <= Z.max 0 (lim - i)) by lia. apply Hlen; [by apply sorted_filter|]. apply Forall_forall. intros c [H1 H2]%elem_from.
    pose proof C_below as Hb. rewrite Forall_forall in Hb. specialize (Hb c H2). lia. }
  unfold NILFS_CNO_MIN in *. rewrite (u64_id (i + m)) by (unfold is_u64; lia). rewrite u64_id by (unfold is_u64; lia).
  eapply wp_mono; [apply (IH _ _ rem); [done|lia|lia|lia]| |done]. intros r s2 H. by rewrite Hskip in H.
Qed.

Lemma print_all_left l : forall rem s, left_over (l ++ rem) s -> wp (print_all o l) (fun _ => left_over rem) (fun _ => cut_short) s.
Proof using.
  clear. induction l as [|c l IH]; intros rem s Hl; cbn [print_all]; [by wp_step|]. wp_step. eapply print_left; [exact Hl|]. intros s' Hl'. by apply IH.
Qed.

Lemma take_cut l k rest : (k <= rest)%nat -> take rest l = take k l ++ take (rest - length (take k l)) (drop k l).
Proof using. clear. intros H. rewrite <- (take_drop k l) at 1. rewrite take_app. rewrite take_ge by (rewrite length_take; lia). done. Qed.

(** The link of the last one of a first part. *)
Lemma chained_next l k final : chained l -> last (take k l) = Some final -> ci_next final = match drop k l with [] => 0 | d :: _ => ci_cno d end.
Proof using.
  clear. revert k. induction l as [|c l IH]; intros k Hc Hl; [by rewrite take_nil in Hl|]. destruct Hc as [H1 H2]. destruct k as [|k]; [done|]. cbn [take drop] in *.
  destruct (take k l) as [|d t] eqn:Ht.
  - injection Hl as <-. by destruct k, l.
  - apply IH; [done|]. rewrite Ht. rewrite last_cons_cons in Hl. exact Hl.
Qed.

Lemma chained_suffix l1 l2 : chained (l1 ++ l2) -> chained l2.
Proof using. clear. induction l1 as [|c l1 IH]; [done|]. intros [_ H]. by apply IH. Qed.

Lemma forward_ss_left fuel : forall rest i R pre s, SS = pre ++ R -> snapshots_at i C = R -> (R <> [] -> i < lim) -> left_over (take (Z.to_nat rest) R) s ->
  0 <= rest < 2 ^ 64 -> (length R < fuel)%nat -> wp (forward_ssinfos o fuel lim rest i) (fun _ => left_over []) (fun _ => cut_short) s.
Proof using LL C_sorted C_range C_newest C_below_lim C_chained.
  clear C_width. induction fuel as [|fuel IH]; intros rest i R pre s HS HR Hi Hl Hr Hf; [lia|]. cbn [forward_ssinfos].
  destruct ((0 <? rest) && (i <? lim)) eqn:Hcond.
  2: { wp_step. destruct (Z.eq_dec rest 0) as [->|]; [exact Hl|]. destruct R; [by rewrite take_nil in Hl|]. specialize (Hi ltac:(done)). lia. }
  wp_step. eapply get_left; [exact Hl|by right|lia|]. intros s1 Hl1. change (answer NILFS_SNAPSHOT i) with (snapshots_at i C). rewrite HR.
  set (k := Z.to_nat (Z.min rest LSCP_NCPINFO)). assert (Hk : (0 < k)%nat /\ Z.of_nat k <= rest) by (unfold k, LSCP_NCPINFO; lia).
  destruct (last (take k R)) as [final|] eqn:Hlast.
  2: { wp_step. apply last_take_none in Hlast; [|lia]. by rewrite Hlast, take_nil in Hl1. }
  rewrite (take_cut R k) in Hl1 by lia. wp_step. eapply wp_mono; [by apply print_all_left| |done]. intros [] s2 Hl2.
  assert (Hnext := chained_next R k final (chained_suffix pre R ltac:(by rewrite <- HS)) Hlast). destruct (drop k R) as [|d R'] eqn:Hd.
  { rewrite Hnext. cbn. by rewrite take_nil in Hl2. }
  assert (HSd : SS = (pre ++ take k R) ++ d :: R') by by rewrite <- app_assoc, <- Hd, take_drop.
  assert (HdS : d ∈ SS) by (rewrite HSd; apply elem_of_app; right; by left). apply elem_SS in HdS as [_ HdC].
  pose proof C_below as Hbelow. rewrite Forall_forall in C_range, Hbelow. specialize (C_range d HdC). specialize (Hbelow d HdC). simpl in C_range. unfold NILFS_CNO_MIN in C_range.
  rewrite Hnext. destruct (Z.eqb_spec (ci_cno d) 0); [lia|]. pose proof (length_take R k). rewrite u64_id by (unfold is_u64; lia).
  apply (IH _ _ (d :: R') (pre ++ take k R)); [done| |done| |lia|].
  - unfold snapshots_at. destruct (Z.eqb_spec (ci_cno d) 0); [lia|]. pose proof (from_member _ _ _ _ SS_sorted HSd) as Hm. fold SS. rewrite Hm. cbn. by rewrite Z.eqb_refl.
  - by replace (Z.to_nat (rest - _)) with (Z.to_nat rest - length (take k R))%nat by lia.
  - rewrite <- Hd, length_drop. assert (R <> []) by (intros E; by rewrite E, take_nil in Hlast). destruct R; [done|cbn [length] in *; lia].
Qed.

(** *** Snapshots backwards *)

(** In descending order, the numbers that follow are below. *)
Lemma print_snapshots_left e l : forall rem rest rns s, StronglySorted (fun c d => ci_cno d < ci_cno c) l -> 
  left_over (take (Z.to_nat rest) (filter (fun c => ci_cno c < e) (snapshots l) ++ rem)) s -> 0 <= rest < 2 ^ 64 -> rest <= rns < 2 ^ 64 ->
  wp (print_snapshots o l e rest rns)
    (fun r s' => let n := Z.of_nat (length (filter (fun c => ci_cno c < e) (snapshots l))) in
       0 <= r.1.2 <= r.2 /\ r.2 <= rns /\ left_over (take (Z.to_nat r.1.2) rem) s' /\ (0 < r.1.2 -> r.2 = rns - n)) (fun _ => cut_short) s.
Proof using.
  clear. revert e. induction l as [|c l IH]; intros e rem rest rns s Hs Hl Hr Hn; cbn [print_snapshots].
  { wp_step. cbn. split_and!; try lia. exact Hl. }
  inversion Hs as [|? ? Hs' Hc]; subst. destruct (Z.ltb_spec 0 rest) as [Hpos|Hz]; cbn [negb].
  2: { wp_step. cbn. replace rest with 0 in * by lia. split_and!; try lia. exact Hl. }
  unfold snapshots in *. rewrite filter_cons in *. destruct (nilfs_cpinfo_snapshot c) eqn:Hsnap.
  2: { rewrite orb_true_r. rewrite decide_False in * by (intros []). by apply IH. }
  rewrite decide_True in * by done. rewrite filter_cons in *. rewrite orb_false_r. destruct (Z.leb_spec e (ci_cno c)).
  { rewrite decide_False in * by lia. by apply IH. }
  rewrite decide_True in * by done. replace (Z.to_nat rest) with (Datatypes.S (Z.to_nat (rest - 1))) in Hl by lia.
  wp_step. eapply print_left; [exact Hl|]. intros s1 Hl1. rewrite !u64_id by (unfold is_u64; lia).
  assert (Hsame : filter (fun d => ci_cno d < ci_cno c) (snapshots l) = filter (fun d => ci_cno d < e) (snapshots l)).
  { unfold snapshots. assert (Hall : Forall (fun d => ci_cno d < ci_cno c) (filter (fun d => nilfs_cpinfo_snapshot d) l)).
    { apply Forall_forall. intros d [_ Hd]%list_elem_of_filter. rewrite Forall_forall in Hc. by apply Hc. }
    rewrite filter_all_pass by exact Hall. symmetry. apply filter_all_pass. eapply Forall_impl; [exact Hall|]. simpl. lia. }
  eapply wp_mono; [apply (IH (ci_cno c) rem); [done| |lia|lia]| |done].
  - unfold snapshots in Hsame. by rewrite Hsame.
  - intros r s2 (H1 & H2 & H3 & H4). unfold snapshots in Hsame. rewrite Hsame in H4. cbn [length]. split_and!; [lia|lia|lia|done|]. intros Hp. specialize (H4 Hp). lia.
Qed.

Lemma print_remainder_left e l : forall rest s, left_over (take (Z.to_nat rest) (filter (fun c => ci_cno c < e) l)) s -> 0 <= rest < 2 ^ 64 ->
  wp (print_remainder o l e rest) (fun _ => left_over []) (fun _ => cut_short) s.
Proof using.
  clear. induction l as [|c l IH]; intros rest s Hl Hr; cbn [print_remainder].
  { wp_step. by rewrite filter_nil, take_nil in Hl. }
  destruct (Z.ltb_spec 0 rest) as [Hpos|Hz]; cbn [negb]; [|wp_step; by replace rest with 0 in Hl by lia].
  rewrite filter_cons in Hl. destruct (Z.leb_spec e (ci_cno c)); [rewrite decide_False in Hl by lia; by apply IH|].
  rewrite decide_True in Hl by done. replace (Z.to_nat rest) with (Datatypes.S (Z.to_nat (rest - 1))) in Hl by lia.
  wp_step. eapply print_left; [exact Hl|]. intros s1 Hl1. rewrite u64_id by (unfold is_u64; lia). apply IH; [done|lia].
Qed.

Lemma sorted_reverse l : StronglySorted by_cno l -> StronglySorted (fun c d => ci_cno d < ci_cno c) (reverse l).
Proof using.
  clear. induction 1 as [|c l Hl IH Hc]; [constructor|]. rewrite reverse_cons. apply StronglySorted_app. split_and!; [|done|].
  - intros a b Ha Hb%list_elem_of_singleton. subst b. rewrite Forall_forall in Hc. by apply Hc, elem_of_reverse.
  - constructor; constructor.
Qed.

(** The first ones contain those below [e], if these are not more. *)
Lemma first_ones l e m : StronglySorted by_cno l -> (length (before e l) <= m)%nat -> before e (take m l) = before e l.
Proof using.
  clear. intros Hl Hm. pose proof (sorted_cut l e Hl) as Hcut. rewrite Hcut at 1. rewrite take_app, (take_ge (before e l)) by done. unfold before at 1. rewrite filter_app.
  rewrite (filter_all_fail _ (take _ _)), app_nil_r; [|apply Forall_forall; intros c (i & Hi & _)%elem_of_take; apply list_elem_of_lookup_2, elem_from in Hi; lia].
  apply filter_all_pass, Forall_forall. intros c Hc. by apply elem_before in Hc as [? _].
Qed.

Lemma SS_range : Forall (fun c => NILFS_CNO_MIN <= ci_cno c) SS.
Proof using C_range. apply Forall_forall. intros c [_ Hc]%elem_SS. rewrite Forall_forall in C_range. by apply C_range. Qed.

(** The snapshots of a window that was read. *)
Lemma window_snapshots i e k : Forall (fun c => e <= ci_cno c) (drop k (from i C)) ->
  filter (fun c => ci_cno c < e) (snapshots (reverse (take k (from i C)))) = reverse (from i (before e SS)).
Proof using.
  clear. intros Hd. unfold snapshots at 1. rewrite !filter_reverse. f_equal. rewrite (filter_swap (fun c => ci_cno c < e)).
  fold (before e (take k (from i C))). rewrite (window_visible C i e k Hd). unfold from, before, SS, snapshots.
  rewrite (filter_swap _ (fun c => i <= ci_cno c)). f_equal. apply filter_swap.
Qed.

Lemma backward_ss_left fuel : forall e rest rns s, left_over (take (Z.to_nat rest) (reverse (before e SS))) s -> NILFS_CNO_MIN <= e <= Z.min lim (ci_cno newest + LSCP_MINDELTA) ->
  0 <= rest <= rns -> rns < 2 ^ 64 -> (0 < rest -> Z.of_nat (length (before e SS)) <= rns) -> (Z.to_nat e < fuel)%nat ->
  wp (backward_ssinfos o fuel e rest rns) (fun _ => left_over []) (fun _ => cut_short) s.
Proof using LL C_sorted C_range C_newest C_below_lim C_width.
  clear C_chained. induction fuel as [|fuel IH]; intros e rest rns s Hl He Hr Hn Hlen Hf; [lia|]. cbn [backward_ssinfos].
  destruct ((0 <? rest) && (NILFS_CNO_MIN <? e)) eqn:Hcond.
  2: { wp_step. destruct (Z.eq_dec rest 0) as [->|]; [exact Hl|]. rewrite before_none in Hl; [by rewrite reverse_nil, take_nil in Hl|].
       eapply Forall_impl; [apply SS_range|]. simpl. lia. }
  assert (Hpos : 0 < rest) by lia. specialize (Hlen Hpos). assert (Hroom : Z.of_nat (length (before e SS)) <= Z.max 0 (e - 1)).
  { apply sorted_length; [apply sorted_filter, SS_sorted|]. apply Forall_forall. intros c [H1 H2]%elem_before. pose proof SS_range as Hge.
    rewrite Forall_forall in Hge. specialize (Hge c H2). unfold NILFS_CNO_MIN in Hge. lia. }
  destruct ((rns <=? LSCP_NCPINFO) || (e <=? NILFS_CNO_MIN + LSCP_NCPINFO)) eqn:Hrem.
  { wp_step. eapply get_left; [exact Hl|by right|lia|]. intros s1 Hl1. change (answer NILFS_SNAPSHOT 0) with SS. apply print_remainder_left; [|lia].
    rewrite filter_reverse. fold (before e (take (Z.to_nat (Z.min rns LSCP_NCPINFO)) SS)). rewrite first_ones; [done|apply SS_sorted|].
    unfold LSCP_NCPINFO, NILFS_CNO_MIN in *. lia. }
  apply orb_false_iff in Hrem as [Hr1 Hr2]. unfold LSCP_NCPINFO, NILFS_CNO_MIN in *. destruct (Z.leb_spec (1 + 512) e); [|lia].
  rewrite (u64_id (e - 512)) by (unfold is_u64; lia). replace (e - (e - 512)) with 512 by lia. rewrite (u64_id 512) by done.
  wp_step. eapply get_left; [exact Hl|by left; split; [done|unfold NILFS_CNO_MIN; lia]|lia|]. intros s1 Hl1. cbv beta. change (answer NILFS_CHECKPOINT (e - 512)) with (from (e - 512) C).
  set (k := Z.to_nat (Z.min 512 LSCP_NCPINFO)). destruct (take k (from (e - 512) C)) as [|c0 t0] eqn:Ht.
  { exfalso. assert (Hin : newest ∈ from (e - 512) C) by (apply elem_from; split; [unfold LSCP_MINDELTA in *; lia|by apply last_Some_elem_of]).
    assert (HR : from (e - 512) C = []) by (destruct (from (e - 512) C); [done|by change k with 512%nat in Ht]). rewrite HR in Hin. by apply not_elem_of_nil in Hin. }
  rewrite <- Ht. rewrite (before_split SS (e - 512) e), reverse_app in Hl1 by (apply SS_sorted || lia).
  assert (Hd : Forall (fun c => e <= ci_cno c) (drop k (from (e - 512) C))).
  { eapply Forall_impl; [apply (sorted_drop _ (e - 512)); [by apply sorted_filter|]|].
    - apply Forall_forall. intros c [Hc _]%elem_from. exact Hc.
    - intros c Hc. change (Z.of_nat k) with 512 in Hc. simpl in Hc. lia. }
  rewrite <- (window_snapshots _ _ k) in Hl1 by done.
  wp_step. eapply wp_mono; [apply print_snapshots_left; [|exact Hl1|lia|lia]| |done].
  { apply sorted_reverse. assert (Hs : StronglySorted by_cno (from (e - 512) C)) by (by apply sorted_filter).
    rewrite <- (take_drop k (from (e - 512) C)) in Hs. by apply StronglySorted_app in Hs as (_ & ? & _). }
  intros [[e' rest'] rns'] s2. rewrite (window_snapshots _ _ k) by done. cbn. intros (G1 & G2 & G3 & G4). apply IH; try lia; [done|].
  intros Hp. specialize (G4 Hp). rewrite (before_split SS (e - 512) e) in Hlen by (apply SS_sorted || lia). rewrite length_app in Hlen. rewrite length_reverse in G4. lia.
Qed.

(** *** The four listings *)

Hypothesis o_index : is_u64 (lp_index o).
Hypothesis o_lines : is_u64 (lp_lines o).

Lemma lim_pos : 1 < lim.
Proof using C_range C_newest C_below_lim. pose proof newest_in as H. rewrite Forall_forall in C_range. specialize (C_range newest H). unfold NILFS_CNO_MIN in *. lia. Qed.

Lemma lines_bounds n : 0 <= n -> 0 <= lines_of o n <= n.
Proof using o_lines. clear -o_lines. unfold lines_of, is_u64 in *. destruct (negb (lp_lines o =? 0)); cbn [andb]; [destruct (Z.ltb_spec (lp_lines o) n)|]; lia. Qed.

Lemma end_bounds : NILFS_CNO_MIN <= end_of o (stat_of lim C) <= lim.
Proof using C_range C_newest C_below_lim C_width o_index.
  pose proof lim_pos as Hp. unfold end_of. cbn [cs_cno stat_of]. unfold is_u64, NILFS_CNO_MIN in *. destruct (negb (lp_index o =? 0)); cbn [andb]; [|lia].
  destruct (Z.ltb_spec (lp_index o) lim); [|lia]. rewrite u64_id by (unfold is_u64; lia). lia.
Qed.

Lemma C_few : Z.of_nat (length C) < 2 ^ 64 /\ Z.of_nat (length SS) <= Z.of_nat (length C).
Proof using C_sorted C_range C_newest C_below_lim C_width.
  split; [|unfold SS, snapshots; pose proof (length_filter (fun c => nilfs_cpinfo_snapshot c) C); lia]. pose proof lim_pos.
  enough (Z.of_nat (length C) <= Z.max 0 (lim - 1)) by lia. apply sorted_length; [done|]. pose proof C_below as Hb. rewrite Forall_forall in C_range, Hb |- *.
  intros c Hc. specialize (C_range c Hc). specialize (Hb c Hc). unfold NILFS_CNO_MIN in C_range. lia.
Qed.

Lemma forward_cp_list fuel s : lp_mode o = NILFS_CHECKPOINT -> lp_rvs o = false -> left_over (listing o lim C) s -> (length C < fuel)%nat ->
  wp (lscp_forward_cpinfo o fuel (stat_of lim C)) (fun _ => left_over []) (fun _ => cut_short) s.
Proof using LL C_sorted C_range C_newest C_below_lim C_width o_index o_lines.
  clear C_chained. intros Hm Hv Hl Hf. unfold lscp_forward_cpinfo. cbn [cs_cno stat_of]. unfold listing in Hl. rewrite Hm, Hv in Hl. cbn [Z.eqb NILFS_CHECKPOINT] in Hl.
  destruct C_few as [Hc _]. cbn [cs_ncps cs_cno stat_of] in *. pose proof (lines_bounds (Z.of_nat (length C)) ltac:(lia)).
  set (i := if negb (lp_index o =? 0) then lp_index o else NILFS_CNO_MIN). assert (Hi : NILFS_CNO_MIN <= i /\ from i C = from (lp_index o) C).
  { unfold i, is_u64, NILFS_CNO_MIN in *. destruct (Z.eqb_spec (lp_index o) 0) as [->|]; cbn [negb]; [|split; [lia|done]]. split; [lia|].
    rewrite !from_all; [done| |]; (eapply Forall_impl; [exact C_range|]); simpl; lia. }
  rewrite <- (proj2 Hi) in Hl. apply forward_left; [exact Hl|apply Hi|lia|]. unfold from. pose proof (length_filter (fun c => i <= ci_cno c) C). lia.
Qed.

Lemma backward_cp_list fuel s : end_of o (stat_of lim C) <= ci_cno newest + LSCP_MINDELTA ->
  lp_mode o = NILFS_CHECKPOINT -> lp_rvs o = true -> left_over (listing o lim C) s -> (Z.to_nat (66 * lim + 1) < fuel)%nat ->
  wp (lscp_backward_cpinfo o fuel (stat_of lim C)) (fun _ => left_over []) (fun _ => cut_short) s.
Proof using LL C_sorted C_range C_newest C_below_lim C_width o_index o_lines.
  clear C_chained. intros Hnear Hm Hv Hl Hf. unfold lscp_backward_cpinfo. unfold listing in Hl. rewrite Hm, Hv in Hl. cbn [Z.eqb NILFS_CHECKPOINT] in Hl.
  destruct C_few as [Hc _]. cbn [cs_ncps cs_cno stat_of] in *. set (rest := lines_of o (Z.of_nat (length C))) in *.
  pose proof (lines_bounds (Z.of_nat (length C)) ltac:(lia)) as Hr. fold rest in Hr. pose proof end_bounds as He. destruct (Z.eqb_spec rest 0) as [E|].
  { wp_step. by rewrite E in Hl. }
  apply backward_left; [|exact Hl|unfold effort; cbn; unfold NILFS_CNO_MIN in *; lia]. split; cbn; unfold LSCP_MINDELTA, LSCP_NCPINFO in *; try done; try lia.
  eapply Forall_impl; [exact C_range|]. unfold NILFS_CNO_MIN. simpl. lia.
Qed.

Lemma forward_ss_list fuel s : lp_mode o = NILFS_SNAPSHOT -> lp_rvs o = false -> left_over (listing o lim C) s -> (length C + Z.to_nat lim < fuel)%nat ->
  wp (lscp_forward_ssinfo o fuel (stat_of lim C)) (fun _ => left_over []) (fun _ => cut_short) s.
Proof using LL C_sorted C_range C_newest C_below_lim C_width C_chained o_index o_lines.
  intros Hm Hv Hl Hf. unfold lscp_forward_ssinfo. cbn [cs_cno stat_of]. unfold listing in Hl. rewrite Hm, Hv in Hl. cbn [Z.eqb NILFS_CHECKPOINT NILFS_SNAPSHOT] in Hl. fold SS in Hl.
  destruct C_few as [Hc Hc']. cbn [cs_nsss stat_of] in *. fold SS in *. set (rest := lines_of o (Z.of_nat (length SS))) in *.
  pose proof (lines_bounds (Z.of_nat (length SS)) ltac:(lia)) as Hr. fold rest in Hr. pose proof C_below as Hb. rewrite Forall_forall in Hb.
  pose proof lim_pos as Hp. pose proof (length_filter (fun c => lp_index o <= ci_cno c) SS) as Hlen. fold (from (lp_index o) SS) in Hlen.
  destruct (Z.eqb_spec rest 0) as [E|]; cbn [orb]; [wp_step; by rewrite E in Hl|]. destruct (Z.leb_spec lim (lp_index o)).
  { wp_step. rewrite from_none, take_nil in Hl; [done|]. apply Forall_forall. intros c [_ Hin]%elem_SS. specialize (Hb c Hin). lia. }
  unfold is_u64, NILFS_CNO_MIN in *. destruct (Z.ltb_spec 0 (lp_index o)) as [Hi|Hi].
  - wp_step. unfold lscp_search_snapshot. cbn [cs_cno stat_of]. eapply wp_mono; [apply search_left; [exact Hl|unfold NILFS_CNO_MIN; lia|lia|lia]| |done]. intros [j|] s1 [Hl1 Hj]; [|wp_step; by rewrite Hj, take_nil in Hl1].
    destruct Hj as (c & Hhead & <-). destruct (sorted_head _ _ _ SS_sorted Hhead) as (F1 & F2 & _). destruct (from (lp_index o) SS) as [|c' R] eqn:HR; [done|]. injection Hhead as ->.
    pose proof (sorted_cut SS (lp_index o) SS_sorted) as Hcut. rewrite HR in Hcut.
    apply (forward_ss_left _ _ _ (c :: R) (before (lp_index o) SS)); [done| | |done|lia|lia].
    + unfold snapshots_at. destruct (Z.eqb_spec (ci_cno c) 0); [lia|]. fold SS. rewrite (from_member _ _ _ _ SS_sorted Hcut). cbn. by rewrite Z.eqb_refl.
    + intros _. apply elem_SS in F2 as [_ F2]. by apply Hb.
  - assert (H0 : from (lp_index o) SS = SS) by (apply from_all; eapply Forall_impl; [apply SS_range|]; unfold NILFS_CNO_MIN; simpl; lia). rewrite H0 in Hl.
    replace (lp_index o) with 0 by lia. apply (forward_ss_left _ _ _ SS []); [done|done|lia|done|lia|lia].
Qed.

Lemma backward_ss_list fuel s : end_of o (stat_of lim C) <= ci_cno newest + LSCP_MINDELTA ->
  lp_mode o = NILFS_SNAPSHOT -> lp_rvs o = true -> left_over (listing o lim C) s -> (Z.to_nat lim < fuel)%nat ->
  wp (lscp_backward_ssinfo o fuel (stat_of lim C)) (fun _ => left_over []) (fun _ => cut_short) s.
Proof using LL C_sorted C_range C_newest C_below_lim C_width o_index o_lines.
  clear C_chained. intros Hnear Hm Hv Hl Hf. unfold lscp_backward_ssinfo. unfold listing in Hl. rewrite Hm, Hv in Hl. cbn [Z.eqb NILFS_CHECKPOINT NILFS_SNAPSHOT] in Hl. fold SS in Hl.
  destruct C_few as [Hc Hc']. cbn [cs_nsss stat_of] in *. fold SS in *. pose proof (lines_bounds (Z.of_nat (length SS)) ltac:(lia)) as Hr. pose proof end_bounds as He.
  apply backward_ss_left; [exact Hl|lia|lia|lia| |lia]. intros _. pose proof (length_filter (fun c => ci_cno c < end_of o (stat_of lim C)) SS) as Hlen. unfold before. lia.
Qed.
End Listing.

(** The checkpoints of a file system, and the number of the next one. *)
Definition consistent (next : Z) (l : list nilfs_cpinfo) : Prop := exists newest,
  StronglySorted by_cno l /\ Forall (fun c => NILFS_CNO_MIN <= ci_cno c) l /\ last l = Some newest /\ ci_cno newest < next < 2 ^ 64 /\ chained (snapshots l).

(** A listing backwards begins less than a window behind the newest one. *)
Definition near (o : lscp_params) (next : Z) (l : list nilfs_cpinfo) : Prop :=
  lp_rvs o = true -> forall newest, last l = Some newest -> end_of o (stat_of next l) <= ci_cno newest + LSCP_MINDELTA.

(** C17: [lscp] prints the header and one line for each checkpoint asked for:
    from the number of the option [-i] on, or with [-r] from there backwards,
    without the minor ones unless all are shown, or the snapshots alone, in
    order, each once, and at most as many as the option [-n] allows.  It ends,
    however the windows, the states of the search and the links between
    snapshots lead it.  When a query fails it has printed a first part of
    these lines, and its status says so.  The file system answers each query
    with the checkpoints there are, at least one; the number of the next one
    may be any above the newest.  The condition for [-r], [near]: the number at
    which the listing begins, that of [-i] or else the next one, is at most
    LSCP_MINDELTA = 64 above the newest; where the gap is larger,
    [lscp -r] can end without any line (finding lscp.c:210, the run
    [ListDemo.lscp_reversed_gap]). *)
Theorem lscp_lists {W : Type} {K : Kernel W} (cps : W -> list nilfs_cpinfo) (next : W -> Z) {LL : ListingLaws K cps next} (o : lscp_params)
    (l : list nilfs_cpinfo) (fuel : nat) (s : tool W lscp_line) :
  let n := next (lworld s) in
  consistent n l -> ready cps l s -> near o n l ->
  is_u64 (lp_index o) -> is_u64 (lp_lines o) -> lp_mode o = NILFS_CHECKPOINT \/ lp_mode o = NILFS_SNAPSHOT ->
  (length l + Z.to_nat (66 * n + 1) < fuel)%nat ->
  let lines := CpHeader (lp_block_count o) :: map (line_of o) (listing o n l) in
  wp (lscp_list o fuel)
    (fun status s' => status = EXIT_SUCCESS /\ t_out s' = t_out s ++ lines \/
       status = EXIT_FAILURE /\ exists printed, printed `prefix_of` lines /\ t_out s' = t_out s ++ printed)
    (fun _ _ => False) s.
Proof.
  intros n (newest & H1 & H2 & H3 & [H4 H4'] & H5) Hready Hnear Hi Hn Hm Hf lines. pose proof (lim_pos l newest n H2 H3 H4) as Hpos.
  unfold lscp_list. wp_step. wp_step.
  set (out1 := t_out s ++ [CpHeader (lp_block_count o)]). set (all := listing o n l).
  eapply (wp_mono _ (fun _ => left_over cps o l all out1 []) (fun _ s' => cut_short o all out1 s' \/ t_out s' = t_out s)).
  - wp_step. destruct Hready as (R1 & R2 & R3). unfold wp at 1, slib, nilfs_get_cpstat, with_iocfd, the_nilfs. rewrite bind_gets. fold (lobject s).
    destruct (Z.ltb_spec (n_iocfd (lobject s)) 0); [lia|]. unfold os. fold (lworld s). pose proof (ll_cpstat (n_iocfd (lobject s)) (lworld s)) as Hst.
    destruct (ioc_get_cpstat _ (lworld s)) as [[st|e] w']; [|by right].
    destruct Hst as [-> Hw]. rewrite R2 in Hw |- *. fold n. wp_step. unfold lscp_print_header, print_line. wp_step. set (s1 := mk_tool _ _ _ _).
    assert (Hl : left_over cps o l all out1 all s1) by (split; [by split_and!|]; exists []; split; [done|by rewrite app_nil_r]).
    eapply (wp_mono _ (fun _ => left_over cps o l all out1 []) (fun _ => cut_short o all out1)); [|done|by left].
    destruct Hm as [Hm|Hm]; rewrite Hm; cbn [Z.eqb NILFS_CHECKPOINT NILFS_SNAPSHOT]; destruct (lp_rvs o) eqn:Hv; cbn [negb].
    + eapply backward_cp_list; try done; [by apply Hnear|lia].
    + by eapply forward_cp_list; try done; lia.
    + eapply backward_ss_list; try done; [by apply Hnear|lia].
    + by eapply forward_ss_list; try done; lia.
  - intros _ s' [_ (d & G1 & G2)]. wp_step. left. split; [done|]. rewrite app_nil_r in G1. rewrite G2, <- G1. unfold out1. by rewrite <- app_assoc.
  - intros _ s' Hs'. wp_step. right. split; [done|]. destruct Hs' as [(d & rem & G1 & G2)|G].
    + exists (CpHeader (lp_block_count o) :: map (line_of o) d). split; [|rewrite G2; unfold out1; by rewrite <- app_assoc].
      exists (map (line_of o) rem). unfold lines. fold all. by rewrite G1, map_app.
    + exists []. split; [by eexists|]. by rewrite app_nil_r.
Qed.
