(* ===== verification/Cptools.v ===== *)
(** * Changing, making and removing checkpoints: bin/chcp.c, mkcp.c, rmcp.c

    Each program is a Module with its options and its run on the object that
    [nilfs_open] returns.  [chcp] and [mkcp] change modes under the lock of the
    cleaner and with signals blocked; [rmcp] deletes ranges of numbers.  The
    messages of [rmcp] are lines of output, those of the others are left out.
    getopt is given by its results, pairs of an option and its argument. *)

From Stdlib Require Import String.
From S2P Require Import Prelude Vector Hoare Ondisk Sb Kernel Nilfs Parser Tune Realpath Ismounted Mounts Open.

(** [EBUSY] of a snapshot. *)
Definition EBUSY : Z := 16.

(** [sigprocmask(SIG_BLOCK)], [body], and the old mask; [status] is the exit
    status so far. *)
Definition signals_blocked {W L : Type} {K : Kernel W} (body : M (tool W L) Z) : M (tool W L) Z :=
  let* r := attempt (tos sigprocmask_block) in
  match r with
  | inr _ => ret EXIT_FAILURE
  | inl _ =>
    let* status := body in
    tdo sigprocmask_restore ;;
    ret status
  end.

(** The end of each program: [nilfs_close], and the status. *)
Definition opened {W L : Type} {K : Kernel W} {P : PathOs W} {F : OpenOs W} (dev : option (list Z)) (flags : Z) (body : M (tool W L) Z) : M (tool W L) Z :=
  let* r := attempt (nilfs_open dev None flags) in
  match r with
  | inr _ => exit_with EXIT_FAILURE
  | inl _ =>
    let* status := body in
    nilfs_close ;;
    ret status
  end.

(** ** chcp *)

Module Chcp.

Definition CHCP_MODE_CP : list Z := codes "cp".
Definition CHCP_MODE_SS : list Z := codes "ss".
Definition CHCP_BASE : Z := 10.

(** The mode, the device and the numbers; [None] is too few arguments. *)
Definition chcp_args (args : list (list Z)) : option (list Z * option (list Z) * list (list Z)) :=
  match args with
  | [] | [_] => None
  | [modestr; cno] => Some (modestr, None, [cno])
  | modestr :: arg :: args =>
    let '(cno, endptr) := nilfs_parse_cno arg CHCP_BASE in
    if (NILFS_CNO_MAX <=? cno) || negb (at_end endptr) then Some (modestr, None, arg :: args)
    else Some (modestr, Some arg, args)
  end.

Definition chcp_mode (modestr : list Z) : option Z :=
  if bool_decide (modestr = CHCP_MODE_CP) then Some NILFS_CHECKPOINT
  else if bool_decide (modestr = CHCP_MODE_SS) then Some NILFS_SNAPSHOT
  else None.

(** A number that can be changed. *)
Definition chcp_cno (arg : list Z) : option Z :=
  let '(cno, endptr) := nilfs_parse_cno arg CHCP_BASE in
  if (NILFS_CNO_MAX <=? cno) || negb (at_end endptr) then None else Some cno.

Section Chcp.
Context {W L : Type} {K : Kernel W} {P : PathOs W} {F : OpenOs W}.
Abbreviation MT := (M (tool W L)).

(** The loop over the numbers. *)
Fixpoint chcp_each (mode : Z) (args : list (list Z)) (status : Z) : MT Z :=
  match args with
  | [] => ret status
  | arg :: args =>
    let* waitset := attempt (tos sigpending_intterm) in
    match waitset with
    | inr _ | inl true => ret EXIT_FAILURE
    | inl false =>
      match chcp_cno arg with
      | None => chcp_each mode args EXIT_FAILURE
      | Some cno =>
        let* r := attempt (slib (nilfs_change_cpmode cno mode)) in
        match r with
        | inr _ => chcp_each mode args EXIT_FAILURE
        | inl _ => chcp_each mode args status
        end
      end
    end
  end.

(** Between [nilfs_open] and [nilfs_close]; the result of unlocking is
    ignored. *)
Definition chcp_change (mode : Z) (args : list (list Z)) : MT Z :=
  signals_blocked (
    let* r := attempt nilfs_lock_cleaner in
    match r with
    | inr _ => ret EXIT_FAILURE
    | inl _ =>
      let* status := chcp_each mode args EXIT_SUCCESS in
      let* _ := attempt nilfs_unlock_cleaner in
      ret status
    end).

Fixpoint chcp_options (argv : list Z) : MT unit :=
  match argv with
  | [] => ret tt
  | c :: argv => if (c =? 104) || (c =? 86) (* h, V *) then exit_with EXIT_SUCCESS else exit_with EXIT_FAILURE
  end.

Definition chcp_main (argv : list Z) (args : list (list Z)) : MT unit :=
  chcp_options argv ;;
  match chcp_args args with
  | None => exit_with EXIT_FAILURE
  | Some (modestr, dev, cnos) =>
    match chcp_mode modestr with
    | None => exit_with EXIT_FAILURE
    | Some mode =>
      let* status := opened dev (Z.lor NILFS_OPEN_RDWR NILFS_OPEN_GCLK) (chcp_change mode cnos) in
      exit_with status
    end
  end.
End Chcp.
End Chcp.

(** ** mkcp *)

Module Mkcp.

Record mkcp_params := mk_mkcp { mk_ss : bool; mk_print : bool }.

Fixpoint mkcp_options (argv : list Z) (o : mkcp_params) : res mkcp_params :=
  match argv with
  | [] => Ok o
  | c :: argv =>
    if c =? 115 (* s *) then mkcp_options argv (mk_mkcp true (mk_print o))
    else if c =? 112 (* p *) then mkcp_options argv (mk_mkcp (mk_ss o) true)
    else if (c =? 104) || (c =? 86) (* h, V *) then Exit EXIT_SUCCESS
    else Exit EXIT_FAILURE
  end.

Section Mkcp.
Context {W : Type} {K : Kernel W} {P : PathOs W} {F : OpenOs W}.
Abbreviation MT := (M (tool W Z)).

(** The status after the step, which may fail. *)
Definition or_failure (status : Z) (m : MT unit) : MT Z :=
  let* r := attempt m in ret (match r with inl _ => status | inr _ => EXIT_FAILURE end).

Definition mkcp_snapshot (cno : Z) : MT Z :=
  let* r := attempt nilfs_lock_cleaner in
  match r with
  | inr _ => ret EXIT_FAILURE
  | inl _ =>
    let* status := or_failure EXIT_SUCCESS (slib (nilfs_change_cpmode cno NILFS_SNAPSHOT)) in
    or_failure status nilfs_unlock_cleaner
  end.

(** Between [nilfs_open] and [nilfs_close]: the status and the number. *)
Definition mkcp_make (o : mkcp_params) : MT (Z * Z) :=
  let* r := attempt (slib nilfs_sync) in
  match r with
  | inr _ => ret (EXIT_FAILURE, 0)
  | inl cno =>
    let* status := signals_blocked (if mk_ss o then mkcp_snapshot cno else ret EXIT_SUCCESS) in
    ret (status, cno)
  end.

(** The number is printed by [%ld]. *)
Definition mkcp_print (o : mkcp_params) (status cno : Z) : MT unit :=
  if (status =? 0) && mk_print o then print_line (i64 cno) else ret tt.

Definition mkcp_main (argv : list Z) (args : list (list Z)) : MT unit :=
  match mkcp_options argv (mk_mkcp false false) with
  | Ok o =>
    match args with
    | _ :: _ :: _ => exit_with EXIT_FAILURE
    | _ =>
      let* r := attempt (nilfs_open (head args) None (Z.lor NILFS_OPEN_RDWR NILFS_OPEN_GCLK)) in
      match r with
      | inr _ => exit_with EXIT_FAILURE
      | inl _ =>
        let* (status, cno) := mkcp_make o in
        nilfs_close ;;
        mkcp_print o status cno ;;
        exit_with status
      end
    end
  | Exit c => exit_with c
  | _ => abort
  end.
End Mkcp.
End Mkcp.

(** ** rmcp *)

Module Rmcp.

Record rmcp_params := mk_rmcp { rm_force : bool; rm_interactive : bool }.

Inductive rmcp_line :=
  | CannotRemoveSnapshot (cno : Z)
  | CannotRemove (cno : Z)
  | InvalidRange (arg : list Z)
  | Remaining
  | InvalidCheckpoint (arg : list Z)
  | NoValid (arg : list Z)
  | ChcpPrompt.

Definition RMCP_BASE : Z := 10.
Definition INT_MAX : Z := 2 ^ 31 - 1.

(** A line of the standard input, [None] at its end. *)
Class Stdin (W : Type) := stdin_gets : W -> option (list Z) * W.

Fixpoint rmcp_options (argv : list Z) (o : rmcp_params) : res rmcp_params :=
  match argv with
  | [] => Ok o
  | c :: argv =>
    if c =? 102 (* f *) then rmcp_options argv (mk_rmcp true false)
    else if c =? 105 (* i *) then rmcp_options argv (mk_rmcp false true)
    else if (c =? 104) || (c =? 86) (* h, V *) then Exit EXIT_SUCCESS
    else Exit EXIT_FAILURE
  end.

Section Rmcp.
Context {W : Type} {K : Kernel W} {P : PathOs W} {F : OpenOs W} {I : Stdin W}.
Abbreviation MT := (M (tool W rmcp_line)).
Context (o : rmcp_params).

Definition rmcp_confirm : MT bool :=
  let* ans := tcall (fun w => let '(r, w) := stdin_gets w in (Ok r, w)) in
  ret (match ans with Some ans => (char_at ans =? 121) || (char_at ans =? 89) | None => false end).

(** [n++] of an int. *)
Definition count (n : Z) : MT Z := if INT_MAX <=? n then abort else ret (n + 1).

(** How the loop over a range ended, with [nd] and [nss]. *)
Record removed := mk_removed { rd_ret : Z; rd_nd : Z; rd_nss : Z }.

Fixpoint remove_loop (fuel : nat) (cno end_ nocp nd nss : Z) : MT removed :=
  match fuel with
  | O => out_of_fuel
  | Datatypes.S fuel =>
    if cno <=? end_ then
      let* r := attempt (slib (nilfs_delete_checkpoint cno)) in
      match r with
      | inl _ => let* nd := count nd in remove_loop fuel (u64 (cno + 1)) end_ nocp nd nss
      | inr e =>
        if e =? EBUSY then
          let* nss := count nss in
          (if negb (rm_force o) then print_line (CannotRemoveSnapshot cno) else ret tt) ;;
          remove_loop fuel (u64 (cno + 1)) end_ nocp nd nss
        else if e =? ENOENT then
          let* nocp := count nocp in
          remove_loop fuel (u64 (cno + 1)) end_ nocp nd nss
        else
          print_line (CannotRemove cno) ;;
          ret (mk_removed (-1) nd nss)
      end
    else ret (mk_removed (if negb (rm_force o) && ((0 <? nss) || ((0 <? nocp) && (nd =? 0))) then 1 else 0) nd nss)
  end.

Definition rmcp_remove_range (fuel : nat) (start end_ : Z) : MT removed := remove_loop fuel start end_ 0 0 0.

(** The range that is removed: from the oldest checkpoint on, and without
    the newest one. *)
Definition clip (cpstat : nilfs_cpstat) (start end_ : Z) : MT (Z * Z) :=
  if negb (start =? end_) then
    let* oldest := slib nilfs_get_oldest_cno in
    ret (if start <? oldest then oldest else start, if cs_cno cpstat <=? end_ then u64 (cs_cno cpstat - 2) else end_)
  else ret (start, end_).

(** The label [warn_on_invalid_checkpoint]. *)
Definition warn_on_invalid_checkpoint (arg : list Z) (start end_ : Z) : MT unit :=
  print_line (if start =? end_ then InvalidCheckpoint arg else NoValid arg).

(** The loop over the arguments: the status and [nsnapshots]. *)
Fixpoint rmcp_each (fuel : nat) (cpstat : nilfs_cpstat) (args : list (list Z)) (status nsnapshots : Z) : MT (Z * Z) :=
  match args with
  | [] => ret (status, nsnapshots)
  | arg :: args =>
    let next := rmcp_each fuel cpstat args in
    let* range := (fun s => (nilfs_parse_cno_range arg RMCP_BASE, s)) in
    let invalid := print_line (InvalidRange arg) ;; next EXIT_FAILURE nsnapshots in
    match range with
    | None => invalid
    | Some (start, end_) =>
      if (end_ <? start) || (start <? NILFS_CNO_MIN) then invalid
      else
        let* go := (if rm_interactive o then rmcp_confirm else ret true) in
        if negb go then next status nsnapshots
        else
          let* (start, end_) := clip cpstat start end_ in
          if end_ <? start then
            if rm_force o then next status nsnapshots
            else warn_on_invalid_checkpoint arg start end_ ;; next EXIT_FAILURE nsnapshots
          else
            let* r := rmcp_remove_range fuel start end_ in
            let nsnapshots := nsnapshots + rd_nss r in
            if rd_ret r =? 0 then next status nsnapshots
            else if rd_ret r <? 0 then print_line Remaining ;; ret (EXIT_FAILURE, nsnapshots)
            else if rm_force o || negb (rd_nd r =? 0) || (u64 (end_ - start + 1 - rd_nss r) =? 0) then next EXIT_FAILURE nsnapshots
            else warn_on_invalid_checkpoint arg start end_ ;; next EXIT_FAILURE nsnapshots
    end
  end.

(** Between [nilfs_open] and [nilfs_close]. *)
Definition rmcp_remove (fuel : nat) (args : list (list Z)) : MT Z :=
  let* r := attempt (slib nilfs_get_cpstat) in
  match r with
  | inr _ => ret EXIT_FAILURE
  | inl cpstat =>
    let* (status, nsnapshots) := rmcp_each fuel cpstat args EXIT_SUCCESS 0 in
    (if negb (rm_force o) && negb (nsnapshots =? 0) then print_line ChcpPrompt else ret tt) ;;
    ret status
  end.

(** The device and the ranges. *)
Definition rmcp_args (args : list (list Z)) : res (option (list Z) * list (list Z)) :=
  match args with
  | [] => Exit EXIT_FAILURE
  | [arg] => Ok (None, [arg])
  | arg :: args' =>
    match nilfs_parse_cno_range arg RMCP_BASE with
    | Ok None => Ok (Some arg, args')
    | Ok (Some _) => Ok (None, args)
    | _ => Abort
    end
  end.

Definition rmcp_run (fuel : nat) (args : list (list Z)) : MT unit :=
  let* (dev, ranges) := (fun s => (rmcp_args args, s)) in
  let* status := opened dev NILFS_OPEN_RDWR (rmcp_remove fuel ranges) in
  exit_with status.
End Rmcp.

Definition rmcp_main {W : Type} {K : Kernel W} {P : PathOs W} {F : OpenOs W} {I : Stdin W} (fuel : nat)
    (argv : list Z) (args : list (list Z)) : M (tool W rmcp_line) unit :=
  match rmcp_options argv (mk_rmcp false false) with
  | Ok o => rmcp_run o fuel args
  | Exit c => exit_with c
  | _ => abort
  end.
End Rmcp.
