(* ===== verification/CptoolsSpec.v ===== *)
(** * What the checkpoint tools do to the checkpoints

    The state of a file system that [Cptools] is about is the mode of each
    checkpoint, the lock of the cleaner and the signal mask.  [CpLaws] states
    what is documented of the ioctls on it; the theorems describe what each
    program leaves, on every path. *)

From stdpp Require Import gmap.
From S2P Require Import Prelude Vector Hoare Ondisk Sb Kernel Nilfs Parser Tune Realpath Ismounted Mounts Open Cptools.

(** The modes of the checkpoints, the number of the next one, and whether the
    lock is held and the signals blocked by the program; [v_unsafe] once a
    mode was changed without either, [v_stuck] once the lock could not be
    given back: a [sem_post] that fails leaves it as it is. *)
Record cp_view := mk_view { v_modes : gmap Z Z; v_next : Z; v_held : bool; v_blocked : bool; v_unsafe : bool; v_stuck : bool }.

Definition with_modes (m : gmap Z Z) (v : cp_view) : cp_view := mk_view m (v_next v) (v_held v) (v_blocked v) (v_unsafe v) (v_stuck v).
Definition with_held (b : bool) (v : cp_view) : cp_view := mk_view (v_modes v) (v_next v) b (v_blocked v) (v_unsafe v) (v_stuck v).
Definition with_blocked (b : bool) (v : cp_view) : cp_view := mk_view (v_modes v) (v_next v) (v_held v) b (v_unsafe v) (v_stuck v).
Definition stuck (v : cp_view) : cp_view := mk_view (v_modes v) (v_next v) (v_held v) (v_blocked v) (v_unsafe v) true.
Definition changed (cno mode : Z) (v : cp_view) : cp_view :=
  mk_view (<[cno := mode]> (v_modes v)) (v_next v) (v_held v) (v_blocked v) (v_unsafe v || negb (v_held v && v_blocked v)) (v_stuck v).

Class CpLaws {W : Type} (K : Kernel W) (view : W -> cp_view) : Prop := {
  cl_change : forall fd cno mode w, match ioc_change_cpmode fd cno mode w with
    | (inl _, w') => is_Some (v_modes (view w) !! cno) /\ view w' = changed cno mode (view w)
    | (inr _, w') => view w' = view w
    end;
  cl_delete : forall fd cno w, match ioc_delete_checkpoint fd cno w with
    | (inl _, w') => v_modes (view w) !! cno = Some NILFS_CHECKPOINT /\ view w' = with_modes (delete cno (v_modes (view w))) (view w)
    | (inr e, w') => (e = EBUSY -> v_modes (view w) !! cno = Some NILFS_SNAPSHOT) /\ (e = ENOENT -> v_modes (view w) !! cno = None) /\ view w' = view w
    end;
  cl_sync : forall fd w, match ioc_sync fd w with
    | (inl cno, w') => exists next, NILFS_CNO_MIN <= cno /\ view w' = mk_view (<[cno := default NILFS_CHECKPOINT (v_modes (view w) !! cno)]> (v_modes (view w))) next
        (v_held (view w)) (v_blocked (view w)) (v_unsafe (view w)) (v_stuck (view w))
    | (inr _, w') => v_modes (view w') = v_modes (view w) /\ v_held (view w') = v_held (view w) /\ v_blocked (view w') = v_blocked (view w) /\ v_unsafe (view w') = v_unsafe (view w) /\
        v_stuck (view w') = v_stuck (view w)
    end;
  cl_cpstat : forall fd w, match ioc_get_cpstat fd w with
    | (inl st, w') => cs_cno st = v_next (view w) /\ view w' = view w
    | (inr _, w') => view w' = view w
    end;
  cl_cpinfo : forall fd n index w, match ioc_get_cpinfo fd n index NILFS_CHECKPOINT w with
    | (inl (ci :: _), w') => (forall c m, v_modes (view w) !! c = Some m -> index <= c -> ci_cno ci <= c) /\ view w' = view w
    | (_, w') => view w' = view w
    end;
  cl_lock : forall w, match sem_wait w with (inl _, w') => view w' = with_held true (view w) | (inr _, w') => view w' = view w end;
  cl_unlock : forall w, match sem_post w with (inl _, w') => view w' = with_held false (view w) | (inr _, w') => view w' = stuck (view w) end;
  cl_block : forall w, match sigprocmask_block w with (inl _, w') => view w' = with_blocked true (view w) | (inr _, w') => view w' = view w end;
  cl_restore : forall w, view (sigprocmask_restore w) = with_blocked false (view w);
  cl_pending : forall w, view (sigpending_intterm w).2 = view w;
}.

Section Cptools.
Context {W L : Type} {K : Kernel W} (view : W -> cp_view) {CL : CpLaws K view}.
Implicit Types (s : tool W L).

Definition tview s : cp_view := view (s_world (t_sys s)).
Definition tobj s : nilfs := s_nilfs (t_sys s).

(** The object and the output stay. *)
Definition still s s' : Prop := tobj s' = tobj s /\ t_out s' = t_out s.

#[local] Instance still_preorder : PreOrder still.
Proof using. split; [done|]. intros s1 s2 s3 [H1 H2] [H3 H4]. split; congruence. Qed.

(** ** Single steps *)

Lemma change_wp cno mode s : wp (slib (nilfs_change_cpmode cno mode))
  (fun _ s' => still s s' /\ is_Some (v_modes (tview s) !! cno) /\ tview s' = changed cno mode (tview s)) (fun _ s' => still s s' /\ tview s' = tview s) s.
Proof using CL.
  unfold wp, slib, nilfs_change_cpmode, with_iocfd, the_nilfs. rewrite bind_gets. case_if; [done|]. case_if; [done|]. unfold os.
  pose proof (cl_change (n_iocfd (s_nilfs (t_sys s))) cno mode (s_world (t_sys s))) as Hq. unfold tview.
  destruct (ioc_change_cpmode _ cno mode _) as [[[]|e] w']; cbn; [|done]. by destruct Hq.
Qed.

Lemma delete_wp cno s : 0 <= n_iocfd (tobj s) -> wp (slib (nilfs_delete_checkpoint cno))
  (fun _ s' => still s s' /\ v_modes (tview s) !! cno = Some NILFS_CHECKPOINT /\ tview s' = with_modes (delete cno (v_modes (tview s))) (tview s))
  (fun e s' => still s s' /\ (e = EBUSY -> v_modes (tview s) !! cno = Some NILFS_SNAPSHOT) /\ (e = ENOENT -> v_modes (tview s) !! cno = None) /\ tview s' = tview s) s.
Proof using CL.
  intros Hfd. unfold wp, slib, nilfs_delete_checkpoint, with_iocfd, the_nilfs. rewrite bind_gets. unfold tobj in Hfd. case_if; [lia|]. unfold os.
  pose proof (cl_delete (n_iocfd (s_nilfs (t_sys s))) cno (s_world (t_sys s))) as Hq. unfold tview.
  destruct (ioc_delete_checkpoint _ cno _) as [[[]|e] w']; cbn; by destruct Hq.
Qed.

Lemma tos_wp {A} (f : W -> (A + Z) * W) s (Q : A -> tool W L -> Prop) (E : Z -> tool W L -> Prop) :
  (forall a w', f (s_world (t_sys s)) = (inl a, w') -> Q a (with_sys s (mk_sys (tobj s) w'))) ->
  (forall e w', f (s_world (t_sys s)) = (inr e, w') -> E e (with_sys s (mk_sys (tobj s) w'))) -> wp (tos f) Q E s.
Proof using. intros HQ HE. unfold wp, tos, tcall, lift_sum. destruct (f (s_world (t_sys s))) as [[a|e] w'] eqn:Hf; [by apply HQ|by apply HE]. Qed.

Lemma sem_wp op (index := 0) s : n_sem (tobj s) = true ->
  wp (slib (with_sem index op)) (fun _ s' => still s s' /\ exists w', op (s_world (t_sys s)) = (inl tt, w') /\ tview s' = view w')
    (fun _ s' => still s s' /\ exists e w', op (s_world (t_sys s)) = (inr e, w') /\ tview s' = view w') s.
Proof using.
  intros Hs. unfold wp, slib, with_sem, the_nilfs. cbn [Z.leb Z.compare]. change (1 <=? index) with false. cbv iota. rewrite bind_gets. unfold tobj in Hs. rewrite Hs.
  unfold os. destruct (op (s_world (t_sys s))) as [[[]|e] w'] eqn:Hop; cbn; (split; [done|]).
  - by exists w'.
  - by exists e, w'.
Qed.

Lemma take_lock_wp s : n_sem (tobj s) = true -> wp nilfs_lock_cleaner (fun _ s' => still s s' /\ tview s' = with_held true (tview s)) (fun _ s' => still s s' /\ tview s' = tview s) s.
Proof using CL.
  intros Hs. eapply wp_mono; [by apply sem_wp| |]; pose proof (cl_lock (s_world (t_sys s))) as H.
  - intros [] s' [H1 (w' & Hw & H2)]. rewrite Hw in H. split; [done|]. by rewrite H2.
  - intros e s' [H1 (e' & w' & Hw & H2)]. rewrite Hw in H. split; [done|]. by rewrite H2.
Qed.

Lemma drop_lock_wp s : n_sem (tobj s) = true ->
  wp nilfs_unlock_cleaner (fun _ s' => still s s' /\ tview s' = with_held false (tview s)) (fun _ s' => still s s' /\ tview s' = stuck (tview s)) s.
Proof using CL.
  intros Hs. eapply wp_mono; [by apply sem_wp| |]; pose proof (cl_unlock (s_world (t_sys s))) as H.
  - intros [] s' [H1 (w' & Hw & H2)]. rewrite Hw in H. split; [done|]. by rewrite H2.
  - intros e s' [H1 (e' & w' & Hw & H2)]. rewrite Hw in H. split; [done|]. by rewrite H2.
Qed.

(** Signals are blocked in the body, and not behind it. *)
Lemma signals_blocked_wp (body : M (tool W L) Z) s (R : Z -> tool W L -> Prop) :
  (forall s', still s s' -> tview s' = with_blocked true (tview s) -> wp body (fun st s'' => forall s3, still s'' s3 -> tview s3 = with_blocked false (tview s'') -> R st s3) (fun _ _ => False) s') ->
  (forall s', still s s' -> tview s' = tview s -> R EXIT_FAILURE s') ->
  wp (signals_blocked body) (fun st s' => R st s') (fun _ _ => False) s.
Proof using CL.
  intros Hbody Hfail. unfold signals_blocked. wp_step. wp_step. apply tos_wp; pose proof (cl_block (s_world (t_sys s))) as H.
  - intros [] w' Hw. rewrite Hw in H. wp_step. eapply wp_mono; [apply Hbody; [done|exact H]| |done]. intros st s2 H3. wp_step.
    unfold tdo, tcall. eapply (wp_run _ tt); [reflexivity|]. wp_step. apply H3; [done|]. exact (cl_restore (s_world (t_sys s2))).
  - intros e w' Hw. rewrite Hw in H. wp_step. by apply Hfail.
Qed.

(** ** chcp *)

(** Only checkpoints that are asked for change, to the mode that is asked
    for; none is made. *)
Definition remoded (mode : Z) (args : list (list Z)) (m m' : gmap Z Z) : Prop :=
  forall c, m' !! c = m !! c \/ is_Some (m !! c) /\ m' !! c = Some mode /\ exists arg, arg ∈ args /\ Chcp.chcp_cno arg = Some c.

(** Every number is valid and that of a checkpoint of this mode. *)
Definition all_moded (mode : Z) (args : list (list Z)) (m : gmap Z Z) : Prop :=
  forall arg, arg ∈ args -> exists c, Chcp.chcp_cno arg = Some c /\ m !! c = Some mode.

(** Under the lock, with signals blocked, and still safe. *)
Definition guarded s s' : Prop :=
  still s s' /\ v_held (tview s') = v_held (tview s) /\ v_blocked (tview s') = v_blocked (tview s) /\ v_unsafe (tview s') = v_unsafe (tview s) /\
  v_stuck (tview s') = v_stuck (tview s).

Lemma remoded_step mode arg args c m m' m'' : Chcp.chcp_cno arg = Some c -> is_Some (m !! c) -> m' = <[c := mode]> m -> remoded mode args m' m'' -> remoded mode (arg :: args) m m''.
Proof using.
  intros Hc Hs -> H d. specialize (H d). destruct (decide (c = d)) as [<-|Hne].
  - right. split; [done|]. split; [|exists arg; by split; [left|]]. rewrite lookup_insert_eq in H. destruct H as [H|(_ & H & _)]; done.
  - rewrite lookup_insert_ne in H by done. destruct H as [H|(H1 & H2 & arg' & H3 & H4)]; [by left|]. right. split_and!; [done..|]. exists arg'. by split; [right|].
Qed.

Lemma remoded_skip mode arg args m m' : remoded mode args m m' -> remoded mode (arg :: args) m m'.
Proof using. intros H d. destruct (H d) as [?|(H1 & H2 & arg' & H3 & H4)]; [by left|]. right. split_and!; [done..|]. exists arg'. by split; [right|]. Qed.

(** A mode that was set stays. *)
Lemma remoded_keeps mode args m m' c : remoded mode args m m' -> m !! c = Some mode -> m' !! c = Some mode.
Proof using. intros H Hc. destruct (H c) as [->|(_ & H1 & _)]; done. Qed.

Definition each_done (mode : Z) (args : list (list Z)) s (status st : Z) s' : Prop :=
  guarded s s' /\ remoded mode args (v_modes (tview s)) (v_modes (tview s')) /\
  (st = EXIT_SUCCESS -> status = EXIT_SUCCESS /\ all_moded mode args (v_modes (tview s'))).

Lemma guarded_view s s' : still s s' -> tview s' = tview s -> guarded s s'.
Proof using. intros H1 H2. unfold guarded. by rewrite H2. Qed.

Lemma guarded_trans s1 s2 s3 : guarded s1 s2 -> guarded s2 s3 -> guarded s1 s3.
Proof using. intros (H1 & H2 & H3 & H4 & H5) (G1 & G2 & G3 & G4 & G5). split; [by trans s2|]. split_and!; congruence. Qed.

Lemma chcp_each_ok mode args : forall status s, v_held (tview s) = true -> v_blocked (tview s) = true ->
  wp (Chcp.chcp_each mode args status) (each_done mode args s status) (fun _ _ => False) s.
Proof using CL.
  induction args as [|arg args IH]; intros status s Hh Hb; cbn [Chcp.chcp_each].
  { wp_step. split; [by apply guarded_view|]. split; [by left|]. intros ->. split; [done|]. by intros arg ?%not_elem_of_nil. }
  assert (Hskip : forall s', guarded s s' -> tview s' = tview s -> wp (Chcp.chcp_each mode args EXIT_FAILURE) (each_done mode (arg :: args) s status) (fun _ _ => False) s').
  { intros s' H1 H2. eapply wp_mono; [apply (IH EXIT_FAILURE); by rewrite H2| |done]. intros st s'' (G1 & G2 & G3). split; [by eapply guarded_trans|].
    split; [rewrite H2 in G2; by apply remoded_skip|]. intros Hst. by destruct (G3 Hst). }
  assert (Hbreak : forall s', still s s' -> tview s' = tview s -> each_done mode (arg :: args) s status EXIT_FAILURE s').
  { intros s' H1 H2. split; [by apply guarded_view|]. split; [|done]. rewrite H2. by left. }
  wp_step. wp_step. apply tos_wp; pose proof (cl_pending (s_world (t_sys s))) as Hp; [intros [] w' Hw|intros e w' Hw]; rewrite Hw in Hp.
  1, 3: wp_step; by apply Hbreak.
  set (s1 := with_sys s _). assert (Hv1 : tview s1 = tview s) by exact Hp. assert (Hg1 : guarded s s1) by by apply guarded_view.
  destruct (Chcp.chcp_cno arg) as [c|] eqn:Hc; [|by apply Hskip].
  wp_step. wp_step. eapply wp_mono; [apply change_wp| |].
  2: { intros e s2 [H1 H2]. rewrite Hv1 in H2. apply Hskip; [|done]. eapply guarded_trans; [exact Hg1|]. apply guarded_view; [done|by rewrite Hv1]. }
  intros _ s2 (H1 & H2 & H3). rewrite Hv1 in H2, H3. unfold changed in H3. rewrite Hh, Hb, orb_false_r in H3.
  assert (Hg2 : guarded s s2) by (split; [by trans s1|]; by rewrite H3, Hh, Hb).
  eapply wp_mono; [apply (IH status); by rewrite H3| |done]. intros st s3 (G1 & G2 & G3). rewrite H3 in G2. cbn [v_modes] in G2.
  split; [by eapply guarded_trans|]. split; [by eapply remoded_step|]. intros Hst. destruct (G3 Hst) as [G4 G5]. split; [done|].
  intros arg' [->|Ha]%elem_of_cons; [|by apply G5]. exists c. split; [done|]. eapply remoded_keeps; [done|]. apply lookup_insert_eq.
Qed.

(** Afterwards the lock is held if, and only if, giving it back failed; the
    signals are let in, and no mode was changed without both. *)
Definition released s s' : Prop :=
  still s s' /\ v_held (tview s') = v_stuck (tview s') /\ v_blocked (tview s') = false /\ v_unsafe (tview s') = v_unsafe (tview s).

(** The lock was given back, or that failed. *)
Definition dropped s s' : Prop := still s s' /\ (tview s' = with_held false (tview s) \/ tview s' = stuck (tview s)).

Lemma dropped_released s s3 s4 s5 : still s s3 -> v_held (tview s3) = true -> v_stuck (tview s3) = false ->
  v_unsafe (tview s3) = v_unsafe (tview s) -> dropped s3 s4 -> still s4 s5 -> tview s5 = with_blocked false (tview s4) ->
  released s s5 /\ v_modes (tview s5) = v_modes (tview s3).
Proof using.
  intros S3 H1 H2 H3 [S4 D] S5 E. unfold released. rewrite E. destruct D as [-> | ->]; cbn;
    (split; [|done]); (split_and!; [|congruence..]); (trans s4; [|done]; by trans s3).
Qed.

(** C27: [chcp] changes modes only of checkpoints it was asked to change, and
    only while it holds the lock of the cleaner with signals blocked; whatever
    fails or interrupts it, the signals are let in again and the lock is
    given back - unless [sem_post] itself fails, which the program ignores and after which
    the lock is still held.  A status of success means that every number was
    that of a checkpoint, which now has the mode. *)
Theorem chcp_changes (mode : Z) (args : list (list Z)) s :
  n_sem (tobj s) = true -> v_held (tview s) = false -> v_stuck (tview s) = false -> v_blocked (tview s) = false ->
  wp (Chcp.chcp_change mode args)
    (fun status s' => released s s' /\ remoded mode args (v_modes (tview s)) (v_modes (tview s')) /\
       (status = EXIT_SUCCESS -> all_moded mode args (v_modes (tview s'))))
    (fun _ _ => False) s.
Proof using CL.
  intros Hs Hh Hk Hb. unfold Chcp.chcp_change. apply signals_blocked_wp.
  2: { intros s' H1 H2. unfold released. rewrite H2, Hh, Hk, Hb. split; [done|]. split; [by left|done]. }
  intros s1 H1 H2. wp_step. wp_step. eapply wp_mono; [apply take_lock_wp; by rewrite (proj1 H1)| |].
  - intros _ s2 [H3 H4]. rewrite H2 in H4. wp_step. eapply wp_mono; [apply chcp_each_ok; by rewrite H4| |done].
    intros st s3 ((G1 & G2 & G3 & G4 & G4') & G5 & G6). rewrite H4 in *. cbn in *.
    assert (S3 : still s s3) by (trans s2; [|done]; by trans s1).
    assert (Hend : forall s4, dropped s3 s4 -> forall s5, still s4 s5 -> tview s5 = with_blocked false (tview s4) ->
      released s s5 /\ remoded mode args (v_modes (tview s)) (v_modes (tview s5)) /\ (st = EXIT_SUCCESS -> all_moded mode args (v_modes (tview s5)))).
    { intros s4 F1 s5 F2 F3. destruct (dropped_released s s3 s4 s5) as [R ->]; [done|done|congruence|done..|].
      split; [done|]. split; [exact G5|]. intros Hst. by apply G6. }
    wp_step. wp_step. eapply wp_mono; [apply drop_lock_wp; by rewrite (proj1 S3)| |].
    + intros _ s4 [F1 F2]. wp_step. apply Hend. split; [done|by left].
    + intros e s4 [F1 F2]. wp_step. apply Hend. split; [done|by right].
  - intros e s2 [H3 H4]. wp_step. intros s3 H5 H6. unfold released. rewrite H6, H4, H2. cbn.
    split; [split_and!; [|congruence|done..]; trans s2; [|done]; by trans s1|]. split; [by left|done].
Qed.
End Cptools.

(** ** mkcp *)

Section Mkcp.
Context {W : Type} {K : Kernel W} (view : W -> cp_view) {CL : CpLaws K view}.
Implicit Types (s : tool W Z).
Abbreviation modes := (fun s => v_modes (tview view s)).
#[local] Existing Instance still_preorder.

(** What [mkcp] made: nothing, or the checkpoint [cno], of this mode. *)
Definition made (cno : Z) s s' : Prop :=
  guarded view s s' /\ forall c, c <> cno -> modes s' !! c = modes s !! c.

Lemma sync_wp s : wp (slib nilfs_sync)
  (fun cno s' => still s s' /\ made cno s s' /\ NILFS_CNO_MIN <= cno /\ modes s' !! cno = Some (default NILFS_CHECKPOINT (modes s !! cno)))
  (fun _ s' => still s s' /\ guarded view s s' /\ modes s' = modes s) s.
Proof using CL.
  unfold wp, slib, nilfs_sync, with_iocfd, the_nilfs. rewrite bind_gets. case_if; [by split_and!|]. unfold os.
  pose proof (cl_sync (n_iocfd (s_nilfs (t_sys s))) (s_world (t_sys s))) as Hq. unfold tview, made, guarded.
  destruct (ioc_sync _ _) as [[cno|e] w']; cbn.
  - destruct Hq as (next & Hcno & Hv). unfold tview. cbn. rewrite Hv. cbn. split_and!; try done; [|by rewrite lookup_insert_eq].
    intros c Hc. by rewrite lookup_insert_ne.
  - destruct Hq as (H1 & H2 & H3 & H4 & H5). by split_and!.
Qed.

Definition snapshot_made cno s (status : Z) s' : Prop :=
  still s s' /\ v_held (tview view s') = v_stuck (tview view s') /\ v_blocked (tview view s') = v_blocked (tview view s) /\ v_unsafe (tview view s') = v_unsafe (tview view s) /\
  (forall c, c <> cno -> modes s' !! c = modes s !! c) /\ (is_Some (modes s !! cno) -> is_Some (modes s' !! cno)) /\ (status = EXIT_SUCCESS -> modes s' !! cno = Some NILFS_SNAPSHOT).

Lemma mkcp_snapshot_ok cno s : n_sem (tobj s) = true -> v_held (tview view s) = false -> v_stuck (tview view s) = false -> v_blocked (tview view s) = true ->
  wp (Mkcp.mkcp_snapshot cno) (snapshot_made cno s) (fun _ _ => False) s.
Proof using CL.
  intros Hs Hh Hk Hb. unfold Mkcp.mkcp_snapshot. wp_step. wp_step. eapply wp_mono; [by apply (take_lock_wp view)| |].
  2: { intros e s1 [H1 H2]. wp_step. unfold snapshot_made. rewrite H2, Hh, Hk. by split_and!. }
  intros _ s1 [H1 H2].
  assert (Hend : forall st s2, still s s2 -> (tview view s2 = tview view s1 /\ st = EXIT_FAILURE \/ tview view s2 = changed cno NILFS_SNAPSHOT (tview view s1) /\ is_Some (modes s1 !! cno)) ->
    wp (Mkcp.or_failure st nilfs_unlock_cleaner) (snapshot_made cno s) (fun _ _ => False) s2).
  { intros st s2 H3 H4. unfold Mkcp.or_failure. assert (Hlast : forall st' s3, (st' = st \/ st' = EXIT_FAILURE) -> dropped view s2 s3 -> snapshot_made cno s st' s3).
    { intros st' s3 Hst [H5 H6]. split; [by trans s2|].
      destruct H4 as [ [H4 Hst'] | [H4 Hin] ]; destruct H6 as [-> | ->]; rewrite H4, H2; cbn;
        (rewrite ?Hk, ?Hb; cbn; rewrite ?orb_false_r; split_and!; try done);
        [intros Hz; exfalso; destruct Hst as [E|E]; rewrite E in Hz; [rewrite Hst' in Hz|]; done..
        |intros c Hc; by rewrite lookup_insert_ne|by rewrite lookup_insert_eq; eexists|by rewrite lookup_insert_eq
        |intros c Hc; by rewrite lookup_insert_ne|by rewrite lookup_insert_eq; eexists|by rewrite lookup_insert_eq]. }
    wp_step. wp_step. eapply wp_mono; [apply (drop_lock_wp view); by rewrite (proj1 H3)| |].
    - intros _ s3 [H5 H6]. wp_step. apply Hlast; [by left|]. split; [done|by left].
    - intros e s3 [H5 H6]. wp_step. apply Hlast; [by right|]. split; [done|by right]. }
  wp_step. unfold Mkcp.or_failure at 1. wp_step. wp_step. eapply wp_mono; [apply (change_wp view)| |].
  - intros _ s2 (H3 & H4 & H5). wp_step. apply Hend; [by trans s1|]. by right.
  - intros e s2 [H3 H4]. wp_step. apply Hend; [by trans s1|]. by left.
Qed.

(** The lock is held if, and only if, giving it back failed; signals are let
    in, and no mode was changed without both. *)
Definition undone s s' : Prop := v_held (tview view s') = v_stuck (tview view s') /\ v_blocked (tview view s') = false /\ v_unsafe (tview view s') = v_unsafe (tview view s).

Definition mkcp_post (o : Mkcp.mkcp_params) s (r : Z * Z) s' : Prop :=
  undone s s' /\ (forall c, modes s' !! c = modes s !! c \/ c = r.2 /\ is_Some (modes s' !! c)) /\
  (r.1 = EXIT_SUCCESS -> exists mode, modes s' !! r.2 = Some mode /\ (Mkcp.mk_ss o = true -> mode = NILFS_SNAPSHOT)).

Lemma mkcp_blocked_ok (o : Mkcp.mkcp_params) cno s : n_sem (tobj s) = true -> v_held (tview view s) = false -> v_stuck (tview view s) = false -> v_blocked (tview view s) = false -> is_Some (modes s !! cno) ->
  wp (signals_blocked (if Mkcp.mk_ss o then Mkcp.mkcp_snapshot cno else ret EXIT_SUCCESS))
    (fun status s' => still s s' /\ undone s s' /\ (forall c, c <> cno -> modes s' !! c = modes s !! c) /\ is_Some (modes s' !! cno) /\
       (status = EXIT_SUCCESS -> Mkcp.mk_ss o = true -> modes s' !! cno = Some NILFS_SNAPSHOT)) (fun _ _ => False) s.
Proof using CL.
  intros Hs Hh Hk Hb Hin. apply (signals_blocked_wp view).
  2: { intros s1 H1 H2. unfold undone. rewrite H2, Hh, Hk. by split_and!. }
  intros s1 H1 H2. destruct (Mkcp.mk_ss o).
  - eapply wp_mono; [apply mkcp_snapshot_ok; [by rewrite (proj1 H1)|by rewrite H2..]| |done].
    intros st s2 (G1 & G2 & G3 & G4 & G5 & G6 & G7) s3 F1 F2. unfold undone. rewrite F2. rewrite H2 in *. cbn in *. split_and!; try done; [by trans s2; [trans s1|]|by apply G6|].
    intros Hst _. by apply G7.
  - wp_step. intros s3 F1 F2. unfold undone. rewrite F2, H2. cbn. rewrite Hh, Hk. split_and!; try done. by trans s1.
Qed.

Lemma mkcp_make_ok (o : Mkcp.mkcp_params) s : n_sem (tobj s) = true -> v_held (tview view s) = false -> v_stuck (tview view s) = false -> v_blocked (tview view s) = false ->
  wp (Mkcp.mkcp_make o) (fun r s' => still s s' /\ mkcp_post o s r s') (fun _ _ => False) s.
Proof using CL.
  intros Hs Hh Hk Hb. unfold Mkcp.mkcp_make. wp_step. wp_step. eapply wp_mono; [apply sync_wp| |].
  2: { intros e s1 (H1 & (H2 & H3 & H4 & H5 & H5') & H6). wp_step. split; [done|]. split; [unfold undone; split_and!; congruence|].
       split; [intros c; left; congruence|done]. }
  intros cno s1 (H1 & ((H2 & H3 & H4 & H5 & H5') & H6) & H7 & H8). wp_step.
  eapply wp_mono; [apply (mkcp_blocked_ok o cno); [by rewrite (proj1 H1)|congruence..|by rewrite H8; eexists]| |done].
  intros status s2 (G1 & G2 & G3 & [mode G4] & G5). wp_step. split; [by trans s1|]. split; [unfold undone in *; destruct G2 as (-> & -> & ->); by split_and!|]. split.
  - intros c. destruct (decide (c = cno)) as [->|Hc]; [right; split; [done|by exists mode]|left; by rewrite G3, H6].
  - intros Hst. exists mode. split; [done|]. intros Hss. specialize (G5 Hst Hss). congruence.
Qed.

(** [mkcp] from the open file system on, with the line it prints. *)
Definition mkcp_all (o : Mkcp.mkcp_params) : M (tool W Z) (Z * Z) :=
  let* (status, cno) := Mkcp.mkcp_make o in
  Mkcp.mkcp_print o status cno ;;
  ret (status, cno).

(** C31: when [mkcp] succeeds there is a checkpoint with the number it prints,
    a snapshot if one was asked for, and no other checkpoint has changed;
    when it fails it prints nothing and has changed no other checkpoint
    either.  The mode is changed under the lock with signals blocked; on every
    path the signals are let in again and the lock is given back - unless
    [sem_post] itself fails, after which the lock is still held. *)
Theorem mkcp_makes (o : Mkcp.mkcp_params) s :
  n_sem (tobj s) = true -> v_held (tview view s) = false -> v_stuck (tview view s) = false -> v_blocked (tview view s) = false ->
  wp (mkcp_all o)
    (fun r s' => let '(status, cno) := r in
       undone s s' /\
       (forall c, modes s' !! c = modes s !! c \/ c = cno /\ is_Some (modes s' !! c)) /\
       (status = EXIT_SUCCESS -> exists mode, modes s' !! cno = Some mode /\ (Mkcp.mk_ss o = true -> mode = NILFS_SNAPSHOT)) /\
       t_out s' = t_out s ++ (if (status =? 0) && Mkcp.mk_print o then [i64 cno] else []))
    (fun _ _ => False) s.
Proof using CL.
  intros Hs Hh Hk Hb. unfold mkcp_all. wp_step. eapply wp_mono; [by apply mkcp_make_ok| |done].
  intros [status cno] s1 ([H1 H2] & H3 & H4 & H5). wp_step. unfold Mkcp.mkcp_print, print_line.
  destruct ((status =? 0) && Mkcp.mk_print o) eqn:E; wp_step; wp_step; rewrite E; (split_and!; [done..|]); cbn; rewrite H2; [done|by rewrite app_nil_r].
Qed.
End Mkcp.

(** ** rmcp *)

Section Rmcp.
Import Rmcp.
Context {W : Type} {K : Kernel W} (view : W -> cp_view) {CL : CpLaws K view} {I : Stdin W}.
Hypothesis stdin_view : forall w, view (stdin_gets w).2 = view w.
Context (o : rmcp_params).
Implicit Types (s : tool W rmcp_line) (m : gmap Z Z).
Abbreviation modes := (fun s => v_modes (tview view s)).

(** Plain checkpoints were deleted, of those in [R]. *)
Definition pruned (R : Z -> Prop) m m' : Prop := forall c, m' !! c = m !! c \/ m !! c = Some NILFS_CHECKPOINT /\ m' !! c = None /\ R c.

Lemma pruned_refl R m : pruned R m m.
Proof using. by left. Qed.

Lemma pruned_trans R m1 m2 m3 : pruned R m1 m2 -> pruned R m2 m3 -> pruned R m1 m3.
Proof using. clear. intros H1 H2 c. destruct (H1 c) as [E1|(E1 & E1' & HR)], (H2 c) as [E2|(E2 & E2' & HR')]; [left|right|right|right]; split_and?; congruence. Qed.

Lemma pruned_mono (R R' : Z -> Prop) m m' : pruned R m m' -> (forall c, R c -> R' c) -> pruned R' m m'.
Proof using. clear. intros H HR c. destruct (H c) as [?|(? & ? & ?)]; [by left|]. right. auto. Qed.

(** What was there is there, or was a plain checkpoint. *)
Lemma pruned_before R m m' c x : pruned R m m' -> m' !! c = Some x -> m !! c = Some x.
Proof using. clear. intros H Hc. destruct (H c) as [<-|(_ & ? & _)]; [done|congruence]. Qed.

(** The object is open, and no checkpoint is below the first number. *)
Definition listed s : Prop := 0 <= n_iocfd (tobj s) /\ (forall c x, modes s !! c = Some x -> n_mincno (tobj s) <= c).

(** The deletions of a run. *)
Definition cleared (R : Z -> Prop) s s' : Prop := listed s' /\ pruned R (modes s) (modes s') /\ v_next (tview view s') = v_next (tview view s).

Lemma cleared_trans (R1 R2 R : Z -> Prop) s1 s2 s3 : cleared R1 s1 s2 -> cleared R2 s2 s3 -> (forall c, R1 c \/ R2 c -> R c) -> cleared R s1 s3.
Proof using.
  clear. intros (H1 & H2 & H3) (H4 & H5 & H6) HR. split; [done|]. split; [|congruence].
  eapply pruned_trans; [apply (pruned_mono R1); [done|auto]|apply (pruned_mono R2); [done|auto]].
Qed.

Lemma listed_same s s' : listed s -> tobj s' = tobj s -> tview view s' = tview view s -> listed s'.
Proof using. unfold listed. by intros H -> ->. Qed.

(** A number that was dealt with. *)
Definition gone m (c : Z) : Prop := m !! c = None \/ m !! c = Some NILFS_SNAPSHOT.

Lemma pruned_gone R m m' c : pruned R m m' -> gone m c -> gone m' c.
Proof using. clear. intros H [Hc|Hc]; destruct (H c) as [E|(_ & E & _)]; unfold gone; rewrite E; auto. Qed.

(** A loop over the numbers from [cno] to [end_]. *)
Definition range (a b c : Z) : Prop := a <= c <= b.

Lemma count_wp n s (Q : Z -> tool W rmcp_line -> Prop) E : n < INT_MAX -> Q (n + 1) s -> wp (count n) Q E s.
Proof using. clear. intros Hn HQ. unfold count. destruct (Z.leb_spec INT_MAX n); [lia|]. by wp_step. Qed.

Record loop_post (cno end_ nocp nd nss : Z) s (r : removed) (nocp' : Z) s' : Prop := {
  lp_cleared : cleared (range cno end_) s s';
  lp_counts : nocp <= nocp' /\ nss <= rd_nss r /\ nd <= rd_nd r;
  lp_some : nd < rd_nd r -> exists c, range cno end_ c /\ modes s !! c = Some NILFS_CHECKPOINT;
  lp_each : 0 <= rd_ret r -> cno <= end_ -> nd < rd_nd r \/ nocp < nocp' \/ nss < rd_nss r;
  lp_ret : 0 <= rd_ret r -> rd_ret r = if negb (rm_force o) && ((0 <? rd_nss r) || ((0 <? nocp') && (rd_nd r =? 0))) then 1 else 0;
  lp_gone : 0 <= rd_ret r -> forall c, range cno end_ c -> gone (modes s') c;
  lp_none : 0 <= rd_ret r -> nss = rd_nss r -> forall c, range cno end_ c -> modes s' !! c = None;
}.

(** The first number, and the loop over the others. *)
Lemma removing_step cno end_ nocp nd nss nocp1 nd1 nss1 s s1 r nocp' s' :
  cno <= end_ -> loop_post (cno + 1) end_ nocp1 nd1 nss1 s1 r nocp' s' -> cleared (fun c => c = cno) s s1 ->
  nd1 = nd + 1 /\ modes s !! cno = Some NILFS_CHECKPOINT /\ modes s1 !! cno = None /\ nocp1 = nocp /\ nss1 = nss \/
  nss1 = nss + 1 /\ modes s1 !! cno = Some NILFS_SNAPSHOT /\ nocp1 = nocp /\ nd1 = nd \/
  nocp1 = nocp + 1 /\ modes s1 !! cno = None /\ nss1 = nss /\ nd1 = nd ->
  loop_post cno end_ nocp nd nss s r nocp' s'.
Proof using.
  clear. intros Hle [P1 (P2 & P3 & P4) P5 P6 P7 P8 P9] Hc Hcase.
  assert (Hpr : pruned (range (cno + 1) end_) (modes s1) (modes s')) by apply P1.
  assert (Hnone : modes s1 !! cno = None -> modes s' !! cno = None) by (intros E; destruct (Hpr cno) as [E'|(_ & ? & _)]; congruence).
  assert (Hgone : gone (modes s') cno) by (eapply pruned_gone; [exact Hpr|]; unfold gone; destruct Hcase as [(_ & _ & ? & _)|[(_ & ? & _)|(_ & ? & _)]]; auto).
  assert (Hsplit : forall c, range cno end_ c -> c = cno \/ range (cno + 1) end_ c) by (unfold range; intros; lia).
  split.
  - eapply cleared_trans; [exact Hc|exact P1|]. unfold range. intros c [->|?]; lia.
  - lia.
  - intros Hn. destruct Hcase as [(_ & Hcp & _)|Hcase]; [exists cno; split; [unfold range; lia|done]|].
    destruct P5 as (c & G1 & G2); [lia|]. exists c. split; [unfold range in *; lia|]. eapply pruned_before; [apply Hc|exact G2].
  - intros _ _. lia.
  - exact P7.
  - intros Hr c [->|Hin]%Hsplit; [done|by apply P8].
  - intros Hr Hn c [->|Hin]%Hsplit; [|apply P9; [done|lia|done]]. apply Hnone. destruct Hcase as [(_ & _ & ? & _)|[(? & _)|(_ & ? & _)]]; [done|lia|done].
Qed.

Lemma print_quiet (l : rmcp_line) s (Q : unit -> tool W rmcp_line -> Prop) E :
  (forall s', tobj s' = tobj s -> tview view s' = tview view s -> Q tt s') -> wp (print_line l) Q E s.
Proof using. clear. intros HQ. unfold print_line. wp_step. by apply HQ. Qed.

Lemma cleared_same (R : Z -> Prop) s s' : listed s -> tobj s' = tobj s -> tview view s' = tview view s -> cleared R s s'.
Proof using. clear. intros H1 H2 H3. split; [by eapply listed_same|]. rewrite H3. split; [apply pruned_refl|done]. Qed.

Lemma remove_loop_ok fuel : forall cno end_ nocp nd nss s, listed s -> 0 <= cno -> end_ < 2 ^ 64 - 1 -> 0 <= nocp -> 0 <= nd -> 0 <= nss ->
  nocp + nd + nss + Z.max 0 (end_ - cno + 1) <= INT_MAX -> (Z.to_nat (end_ - cno + 1) < fuel)%nat ->
  wp (remove_loop o fuel cno end_ nocp nd nss) (fun r s' => exists nocp', loop_post cno end_ nocp nd nss s r nocp' s') (fun _ _ => False) s.
Proof using CL.
  clear stdin_view. induction fuel as [|fuel IH]; intros cno end_ nocp nd nss s Hs Hc He H0 H1 H2 Hn Hf; [lia|]. cbn [remove_loop].
  destruct (Z.leb_spec cno end_) as [Hle|Hgt].
  2: { wp_step. exists nocp. split; cbn; try lia; try done; [by apply cleared_same|..]; unfold range; intros; exfalso; lia. }
  rewrite u64_id by (unfold is_u64; lia).
  assert (Hrest : forall nocp1 nd1 nss1 s1, cleared (fun c => c = cno) s s1 ->
    nd1 = nd + 1 /\ modes s !! cno = Some NILFS_CHECKPOINT /\ modes s1 !! cno = None /\ nocp1 = nocp /\ nss1 = nss \/
    nss1 = nss + 1 /\ modes s1 !! cno = Some NILFS_SNAPSHOT /\ nocp1 = nocp /\ nd1 = nd \/
    nocp1 = nocp + 1 /\ modes s1 !! cno = None /\ nss1 = nss /\ nd1 = nd ->
    wp (remove_loop o fuel (cno + 1) end_ nocp1 nd1 nss1) (fun r s' => exists nocp', loop_post cno end_ nocp nd nss s r nocp' s') (fun _ _ => False) s1).
  { intros nocp1 nd1 nss1 s1 Hcl Hcase. eapply wp_mono; [apply (IH (cno + 1) end_ nocp1 nd1 nss1); try lia; apply Hcl| |done].
    intros r s' [nocp' Hp]. exists nocp'. by eapply removing_step. }
  wp_step. wp_step. eapply wp_mono; [apply (delete_wp view); apply Hs| |].
  - intros _ s1 ([F1 F2] & F3 & F4). wp_step. apply count_wp; [lia|]. apply Hrest; [|left; rewrite F4; cbn; rewrite lookup_delete_eq; by split_and!].
    unfold cleared, listed. rewrite F1, F4. cbn. split; [split; [apply Hs|]|split; [|done]].
    + intros c x [_ Hx]%lookup_delete_Some. by apply Hs in Hx.
    + intros c. destruct (decide (c = cno)) as [->|Hne]; [right; by rewrite lookup_delete_eq|left; by rewrite lookup_delete_ne].
  - intros e s1 ([F1 F2] & F3 & F4 & F5). destruct (Z.eqb_spec e EBUSY) as [->|Hb]; [|destruct (Z.eqb_spec e ENOENT) as [->|Hno]].
    + wp_step. apply count_wp; [lia|]. specialize (F3 eq_refl). wp_step. destruct (negb (rm_force o)).
      * apply print_quiet. intros s2 G1 G2. apply Hrest; [apply cleared_same; [done|congruence..]|]. right; left. rewrite G2, F5. by split_and!.
      * wp_step. apply Hrest; [by apply cleared_same|]. right; left. rewrite F5. by split_and!.
    + wp_step. apply count_wp; [lia|]. specialize (F4 eq_refl). apply Hrest; [by apply cleared_same|]. right; right. rewrite F5. by split_and!.
    + wp_step. apply print_quiet. intros s2 G1 G2. wp_step. exists nocp. split; cbn; try lia. apply cleared_same; [done|congruence..].
Qed.

(** What [rmcp_remove_range] tells of a range. *)
Lemma remove_range_ok fuel start end_ s : listed s -> 0 <= start <= end_ -> end_ < 2 ^ 64 - 1 -> end_ - start + 1 <= INT_MAX -> (Z.to_nat (end_ - start + 1) < fuel)%nat ->
  wp (rmcp_remove_range o fuel start end_)
    (fun r s' => cleared (range start end_) s s' /\ (rd_ret r = 0 -> (forall c, range start end_ c -> gone (modes s') c) /\
       (rm_force o = false -> (forall c, range start end_ c -> modes s' !! c = None) /\ exists c, range start end_ c /\ modes s !! c = Some NILFS_CHECKPOINT)))
    (fun _ _ => False) s.
Proof using CL.
  clear stdin_view. intros Hs Hr He Hn Hf. eapply wp_mono; [apply (remove_loop_ok fuel start end_ 0 0 0); try done; lia| |done].
  intros r s' [nocp' [P1 P2 P3 P4 P5 P6 P7]]. split; [done|]. intros Hz. rewrite Hz in *. split; [by apply P6|]. intros Hforce. specialize (P5 ltac:(lia)).
  rewrite Hforce in P5. cbn [negb andb] in P5. destruct (Z.ltb_spec 0 (rd_nss r)) as [|Hss]; [done|]. cbn [orb] in P5. split; [apply P7; lia|].
  apply P3. specialize (P4 ltac:(lia) ltac:(lia)). destruct (Z.ltb_spec 0 nocp'), (Z.eqb_spec (rd_nd r) 0); cbn [andb] in P5; try done; lia.
Qed.

Lemma oldest_wp s : listed s ->
  wp (slib nilfs_get_oldest_cno) (fun r s' => listed s' /\ tview view s' = tview view s /\ forall c x, modes s !! c = Some x -> r <= c) (fun _ _ => False) s.
Proof using CL.
  clear stdin_view. intros [Hfd Hmin]. unfold tobj in *. unfold wp, slib, nilfs_get_oldest_cno, nilfs_get_cpinfo, with_iocfd, the_nilfs, put_nilfs, modify, ret.
  rewrite bind_gets. unfold attempt, bind, gets. destruct (Z.ltb_spec (n_iocfd (s_nilfs (t_sys s))) 0); [lia|]. cbn [Z.eqb NILFS_CHECKPOINT andb].
  set (mc := n_mincno (s_nilfs (t_sys s))) in *. destruct (mc <? NILFS_CNO_MIN); [by split_and!|]. rewrite Z.ltb_irrefl. change (u32 1) with 1. unfold os.
  pose proof (cl_cpinfo (n_iocfd (s_nilfs (t_sys s))) 1 mc (s_world (t_sys s))) as Hq.
  destruct (ioc_get_cpinfo _ 1 mc _ _) as [[[|ci l]|e] w']; unfold tview; cbn.
  - unfold listed, tview. cbn. rewrite Hq. by split_and!.
  - destruct Hq as [Hq Hv]. rewrite Z.eqb_refl. cbn. fold mc. destruct (mc <? ci_cno ci); cbn; unfold listed, tview; cbn; rewrite Hv; split_and!; try done.
    + intros c x Hx. eapply Hq; [exact Hx|]. by eapply Hmin.
    + intros c x Hx. eapply Hq; [exact Hx|]. by eapply Hmin.
  - unfold listed, tview. cbn. rewrite Hq. by split_and!.
Qed.

(** The numbers that an argument asks for. *)
Definition asked (next : Z) (arg : list Z) (c : Z) : Prop :=
  exists a b, nilfs_parse_cno_range arg RMCP_BASE = Ok (Some (a, b)) /\ NILFS_CNO_MIN <= a <= b /\ a <= c <= b /\ (a <> b -> next <= b -> c <= next - 2).

Lemma clip_wp cpstat a b s : listed s -> cs_cno cpstat = v_next (tview view s) -> 2 <= cs_cno cpstat < 2 ^ 64 -> NILFS_CNO_MIN <= a <= b -> b < 2 ^ 64 ->
  wp (clip cpstat a b) (fun r s' => listed s' /\ tview view s' = tview view s /\ a <= r.1 /\ r.2 <= b /\ (a = b -> r = (a, b)) /\ (a <> b -> r.2 = if cs_cno cpstat <=? b then cs_cno cpstat - 2 else b) /\
    forall c x, modes s !! c = Some x -> a <= c -> r.1 <= c) (fun _ _ => False) s.
Proof using CL.
  clear stdin_view. intros Hs Hn H2 Hab Hb. unfold clip. destruct (Z.eqb_spec a b) as [->|Hne]; cbn [negb].
  { wp_step. cbn. split_and!; try done; lia. }
  wp_step. eapply wp_mono; [by apply oldest_wp| |done]. intros r s1 (G1 & G2 & G3). wp_step. cbn. unfold NILFS_CNO_MIN in *.
  assert (Hend : (if cs_cno cpstat <=? b then u64 (cs_cno cpstat - 2) else b) = if cs_cno cpstat <=? b then cs_cno cpstat - 2 else b).
  { case_if; [|done]. apply u64_id. unfold is_u64. lia. }
  rewrite Hend. split_and!; try done.
  - destruct (Z.ltb_spec a r); lia.
  - destruct (Z.leb_spec (cs_cno cpstat) b); lia.
  - intros c x Hx Hc. specialize (G3 c x Hx). destruct (Z.ltb_spec a r); lia.
Qed.

(** The range that is asked for is cleared once the range that is removed is. *)
Definition dealt next arg s s' : Prop :=
  (forall c, asked next arg c -> gone (modes s') c) /\
  (rm_force o = false -> (forall c, asked next arg c -> modes s' !! c = None) /\ exists c, asked next arg c /\ modes s !! c = Some NILFS_CHECKPOINT).

Lemma asked_clipped next arg a b c : nilfs_parse_cno_range arg RMCP_BASE = Ok (Some (a, b)) -> NILFS_CNO_MIN <= a <= b ->
  asked next arg c <-> a <= c <= b /\ (a <> b -> next <= b -> c <= next - 2).
Proof using.
  clear. intros Hp Hab. split.
  - intros (a' & b' & Hp' & _ & H). rewrite Hp in Hp'. by injection Hp' as <- <-.
  - intros H. exists a, b. by split_and!; try apply Hab; try apply H.
Qed.

Definition each_post next (args : list (list Z)) s (status st : Z) s' : Prop :=
  cleared (fun c => exists arg, arg ∈ args /\ asked next arg c) s s' /\
  (st = EXIT_SUCCESS -> status = EXIT_SUCCESS /\ (rm_interactive o = false -> forall arg, arg ∈ args ->
     (forall c, asked next arg c -> gone (modes s') c) /\
     (rm_force o = false -> (forall c, asked next arg c -> modes s' !! c = None) /\ exists c, asked next arg c /\ modes s !! c = Some NILFS_CHECKPOINT))).

Lemma range_parsed arg a b : nilfs_parse_cno_range arg RMCP_BASE = Ok (Some (a, b)) -> a < NILFS_CNO_MAX /\ b <= NILFS_CNO_MAX.
Proof using.
  clear. unfold nilfs_parse_cno_range, NILFS_CNO_MIN. intros H. destruct arg as [|x arg]; [done|]. injection H as H. assert (Hmax : 1 < NILFS_CNO_MAX) by done.
  repeat case_match; simplify_eq; repeat match goal with H : (_ <? _) && _ = true |- _ => apply andb_true_iff in H as [?%Z.ltb_lt _] end; lia.
Qed.

Lemma range_answered arg : arg <> [] -> exists r, nilfs_parse_cno_range arg RMCP_BASE = Ok r.
Proof using. clear. destruct arg as [|x arg]; [done|]. intros _. by eexists. Qed.

Lemma confirm_wp s (Q : bool -> tool W rmcp_line -> Prop) E :
  (forall b s', tobj s' = tobj s -> tview view s' = tview view s -> Q b s') -> wp rmcp_confirm Q E s.
Proof using stdin_view.
  intros HQ. unfold rmcp_confirm. wp_step. unfold wp at 1, tcall. pose proof (stdin_view (s_world (t_sys s))) as Hv.
  destruct (stdin_gets (s_world (t_sys s))) as [r w]. wp_step. by apply HQ.
Qed.

(** The result for one argument more: it failed, or it was dealt with. *)
Lemma each_cons next arg args s s1 status status1 st s' : listed s -> cleared (asked next arg) s s1 -> each_post next args s1 status1 st s' ->
  status1 = EXIT_FAILURE \/ status1 = status /\ (rm_interactive o = false -> dealt next arg s s1) -> each_post next (arg :: args) s status st s'.
Proof using.
  clear. intros Hl Hc [H1 H2] Hst. assert (Hpr : pruned (fun c => exists arg, arg ∈ args /\ asked next arg c) (modes s1) (modes s')) by apply H1. split.
  - eapply cleared_trans; [exact Hc|exact H1|]. intros c [Ha|(x & Hx & Ha)]; [exists arg|exists x]; (split; [|done]); [by left|by right].
  - intros E. destruct (H2 E) as [H3 H4]. destruct Hst as [->|[-> Hd]]; [done|]. split; [done|]. intros Hi x Hx. apply elem_of_cons in Hx as [->|Hx].
    + destruct (Hd Hi) as [D1 D2]. split; [intros c Hca; eapply pruned_gone; [exact Hpr|by apply D1]|]. intros Hf. destruct (D2 Hf) as [D3 D4]. split; [|done].
      intros c Hca. destruct (Hpr c) as [E'|(_ & ? & _)]; [rewrite E'; by apply D3|done].
    + destruct (H4 Hi x Hx) as [D1 D2]. split; [done|]. intros Hf. destruct (D2 Hf) as [D3 (c & D4 & D5)]. split; [done|]. exists c. split; [done|].
      eapply pruned_before; [apply Hc|exact D5].
Qed.

Section Each.
Context (fuel : nat) (cpstat : nilfs_cpstat).
Abbreviation next := (cs_cno cpstat).

(** The arguments that follow. *)
Definition follows (args : list (list Z)) : Prop := forall status nss s, listed s -> next = v_next (tview view s) ->
  wp (rmcp_each o fuel cpstat args status nss) (fun r s' => each_post next args s status r.1 s') (fun _ _ => False) s.

(** A range that was clipped. *)
Lemma range_ok arg args a b x y status nss s s1 : follows args -> listed s -> next = v_next (tview view s) -> 2 <= next <= INT_MAX -> (Z.to_nat next < fuel)%nat ->
  nilfs_parse_cno_range arg RMCP_BASE = Ok (Some (a, b)) -> NILFS_CNO_MIN <= a <= b ->
  listed s1 -> tview view s1 = tview view s -> a <= x -> y <= b -> (a = b -> (x, y) = (a, b)) -> (a <> b -> y = if next <=? b then next - 2 else b) ->
  (forall c z, modes s !! c = Some z -> a <= c -> x <= c) ->
  wp (if y <? x then if rm_force o then rmcp_each o fuel cpstat args status nss else warn_on_invalid_checkpoint arg x y ;; rmcp_each o fuel cpstat args EXIT_FAILURE nss
      else
        let* r := rmcp_remove_range o fuel x y in
        let nsnapshots := nss + rd_nss r in
        if rd_ret r =? 0 then rmcp_each o fuel cpstat args status nsnapshots
        else if rd_ret r <? 0 then print_line Remaining ;; ret (EXIT_FAILURE, nsnapshots)
        else if rm_force o || negb (rd_nd r =? 0) || (u64 (y - x + 1 - rd_nss r) =? 0) then rmcp_each o fuel cpstat args EXIT_FAILURE nsnapshots
        else warn_on_invalid_checkpoint arg x y ;; rmcp_each o fuel cpstat args EXIT_FAILURE nsnapshots)
    (fun r s' => each_post next (arg :: args) s status r.1 s') (fun _ _ => False) s1.
Proof using CL.
  clear stdin_view. intros IH Hl Hn Hw Hf Hp Hab Hl1 Hv1 Hax Hyb Heq Hne Hold. destruct (range_parsed _ _ _ Hp) as [Ha Hb]. unfold NILFS_CNO_MAX, INT_MAX, NILFS_CNO_MIN in *.
  pose proof (asked_clipped next arg a b) as Hasked.
  assert (Hgo : forall status1 nss1 s2, cleared (range x y) s1 s2 -> (status1 = EXIT_FAILURE \/ status1 = status /\ (rm_interactive o = false -> dealt next arg s s2)) ->
    wp (rmcp_each o fuel cpstat args status1 nss1) (fun r s' => each_post next (arg :: args) s status r.1 s') (fun _ _ => False) s2).
  { intros status1 nss1 s2 Hc Hst. eapply wp_mono; [apply IH; [apply Hc|destruct Hc as (_ & _ & ->); by rewrite Hv1]| |done]. intros r s' Hr. eapply each_cons; [done| |exact Hr|exact Hst].
    destruct Hc as (C1 & C2 & C3). rewrite Hv1 in C2, C3. split; [done|]. split; [|done]. eapply pruned_mono; [exact C2|]. unfold range. intros c Hc.
    apply Hasked; [done..|]. split; [lia|]. intros E1 E2. specialize (Hne E1). destruct (Z.leb_spec next b); lia. }
  assert (Hwarn : forall nss1 s2, cleared (range x y) s1 s2 ->
    wp (warn_on_invalid_checkpoint arg x y ;; rmcp_each o fuel cpstat args EXIT_FAILURE nss1) (fun r s' => each_post next (arg :: args) s status r.1 s') (fun _ _ => False) s2).
  { intros nss1 s2 Hc. wp_step. apply print_quiet. intros s3 G1 G2. apply Hgo; [|by left]. unfold cleared, listed in *. by rewrite G1, G2. }
  assert (Hin : forall c, asked next arg c -> c <= y).
  { intros c Hc. apply Hasked in Hc as [Hc1 Hc2]; [|done..]. destruct (Z.eq_dec a b) as [E|E]; [specialize (Heq E); simplify_eq; lia|].
    specialize (Hne E). destruct (Z.leb_spec next b); [specialize (Hc2 E); lia|lia]. }
  assert (Hbelow : forall c, asked next arg c -> x <= c \/ modes s !! c = None).
  { intros c Hc. apply Hasked in Hc as [Hc1 _]; [|done..]. destruct (modes s !! c) as [m|] eqn:E; [left; eapply Hold; [exact E|lia]|by right]. }
  destruct (Z.ltb_spec y x) as [Hlt|Hge].
  { destruct (rm_force o) eqn:Hforce; [|apply Hwarn; by apply cleared_same]. apply Hgo; [by apply cleared_same|]. right. split; [done|]. intros _. split; [|congruence].
    intros c Hc. specialize (Hin c Hc). destruct (Hbelow c Hc) as [|E]; [lia|]. left. by rewrite Hv1. }
  assert (Hrange : 0 <= x <= y /\ y < 2 ^ 64 - 1 /\ y - x + 1 <= next).
  { destruct (Z.eq_dec a b) as [E|E]; [specialize (Heq E); simplify_eq; lia|]. specialize (Hne E). destruct (Z.leb_spec next b); lia. }
  destruct Hrange as (R1 & R2 & R3). wp_step. eapply wp_mono; [apply (remove_range_ok fuel x y); unfold INT_MAX; try done; lia| |done].
  intros r s2 [Hc Hz]. destruct (Z.eqb_spec (rd_ret r) 0) as [E|E].
  - apply Hgo; [done|]. right. split; [done|]. intros _. destruct (Hz E) as [Z1 Z2]. rewrite Hv1 in Z2. destruct Hc as (_ & C2 & _). rewrite Hv1 in C2.
    assert (Hnone : forall c, modes s !! c = None -> modes s2 !! c = None) by (intros c Hcn; destruct (C2 c) as [->|(_ & ? & _)]; done).
    split; [|intros Hforce; destruct (Z2 Hforce) as [Z3 (d & Z4 & Z5)]; split].
    + intros c Hc. specialize (Hin c Hc). destruct (Hbelow c Hc) as [|Hn']; [apply Z1; unfold range; lia|left; by apply Hnone].
    + intros c Hc. specialize (Hin c Hc). destruct (Hbelow c Hc) as [|Hn']; [apply Z3; unfold range; lia|by apply Hnone].
    + exists d. split; [|done]. unfold range in Z4. apply Hasked; [done..|]. split; [lia|]. intros E1 E2. specialize (Hne E1). destruct (Z.leb_spec next b); lia.
  - destruct (rd_ret r <? 0).
    + wp_step. apply print_quiet. intros s3 G1 G2. wp_step. cbn. split; [|done]. destruct Hc as (C1 & C2 & C3). rewrite Hv1 in C2, C3.
      unfold cleared. rewrite G2. split; [by eapply listed_same|]. split; [|done]. eapply pruned_mono; [exact C2|]. unfold range. intros c Hc. exists arg. split; [by left|].
      apply Hasked; [done..|]. split; [lia|]. intros E1 E2. specialize (Hne E1). destruct (Z.leb_spec next b); lia.
    + destruct (_ || _ || _); [apply Hgo; [done|by left]|by apply Hwarn].
Qed.

Lemma rmcp_each_ok args : 2 <= next <= INT_MAX -> (Z.to_nat next < fuel)%nat -> [] ∉ args -> follows args.
Proof using CL stdin_view.
  intros Hw Hf. induction args as [|arg args IH]; intros Hnil status nss s Hl Hn; cbn [rmcp_each].
  { wp_step. cbn. split; [by apply cleared_same|]. intros ->. split; [done|]. intros _ arg ?%not_elem_of_nil. done. }
  apply not_elem_of_cons in Hnil as [Hne Hnil]. specialize (IH Hnil). destruct (range_answered arg ltac:(done)) as [r Hr].
  assert (Hinv : wp (print_line (InvalidRange arg) ;; rmcp_each o fuel cpstat args EXIT_FAILURE nss) (fun r s' => each_post next (arg :: args) s status r.1 s') (fun _ _ => False) s).
  { wp_step. apply print_quiet. intros s1 G1 G2. eapply wp_mono; [apply IH; [by eapply listed_same|by rewrite G2]| |done]. intros r' s' Hr'.
    eapply each_cons; [done|by apply cleared_same|exact Hr'|by left]. }
  wp_step. eapply (wp_run _ r s); [by rewrite Hr|]. destruct r as [[a b]|]; [|exact Hinv]. destruct ((b <? a) || (a <? NILFS_CNO_MIN)) eqn:Hbad; [exact Hinv|].
  assert (Hgo : forall s1, tobj s1 = tobj s -> tview view s1 = tview view s ->
    wp (let* (start, end_) := clip cpstat a b in
        if end_ <? start then if rm_force o then rmcp_each o fuel cpstat args status nss else warn_on_invalid_checkpoint arg start end_ ;; rmcp_each o fuel cpstat args EXIT_FAILURE nss
        else
          let* r := rmcp_remove_range o fuel start end_ in
          let nsnapshots := nss + rd_nss r in
          if rd_ret r =? 0 then rmcp_each o fuel cpstat args status nsnapshots
          else if rd_ret r <? 0 then print_line Remaining ;; ret (EXIT_FAILURE, nsnapshots)
          else if rm_force o || negb (rd_nd r =? 0) || (u64 (end_ - start + 1 - rd_nss r) =? 0) then rmcp_each o fuel cpstat args EXIT_FAILURE nsnapshots
          else warn_on_invalid_checkpoint arg start end_ ;; rmcp_each o fuel cpstat args EXIT_FAILURE nsnapshots)
      (fun r s' => each_post next (arg :: args) s status r.1 s') (fun _ _ => False) s1).
  { intros s1 G1 G2. destruct (range_parsed _ _ _ Hr) as [Ha Hb]. unfold NILFS_CNO_MAX, INT_MAX in *. assert (Hl1 : listed s1) by by eapply listed_same.
    wp_step. eapply wp_mono; [apply clip_wp; [done|by rewrite G2|lia|lia|lia]| |done]. intros [x y] s2 (C1 & C2 & C3 & C4 & C5 & C6 & C7). cbn in *. rewrite G2 in *.
    apply (range_ok arg args a b x y status nss s s2); try done; lia. }
  wp_step. destruct (rm_interactive o) eqn:Hi.
  - apply confirm_wp. intros [] s1 G1 G2; cbn [negb]; [by apply Hgo|]. eapply wp_mono; [apply IH; [by eapply listed_same|by rewrite G2]| |done]. intros r' s' Hr'.
    eapply each_cons; [done|by apply cleared_same|exact Hr'|]. right. split; [done|congruence].
  - wp_step. by apply Hgo.
Qed.
End Each.

(** C10: [rmcp] deletes nothing but plain checkpoints in the ranges it was
    given, and with a range that reaches beyond the newest one not that one;
    snapshots and everything else stay.  It ends, whatever the numbers in the
    arguments.  When it succeeds (and does not
    ask), every checkpoint that was asked for is gone or is a snapshot; without
    [-f] also no snapshot was among them, and each argument named at least one
    checkpoint that was deleted.  The condition on the file system: the number
    of its next checkpoint is at least 2 and at most INT_MAX, so that the
    counters of the program, which are of type [int], do not overflow. *)
Theorem rmcp_removes (fuel : nat) (args : list (list Z)) s : listed s -> [] ∉ args ->
  let next := v_next (tview view s) in
  2 <= next <= INT_MAX -> (Z.to_nat next < fuel)%nat ->
  wp (rmcp_remove o fuel args)
    (fun status s' =>
       pruned (fun c => exists arg, arg ∈ args /\ asked next arg c) (modes s) (modes s') /\
       (status = EXIT_SUCCESS -> rm_interactive o = false -> forall arg, arg ∈ args ->
          (forall c, asked next arg c -> gone (modes s') c) /\
          (rm_force o = false -> (forall c, asked next arg c -> modes s' !! c = None) /\ exists c, asked next arg c /\ modes s !! c = Some NILFS_CHECKPOINT)))
    (fun _ _ => False) s.
Proof using CL stdin_view.
  intros Hl Hnil next Hw Hf. unfold rmcp_remove. wp_step. wp_step. unfold wp at 1, slib, nilfs_get_cpstat, with_iocfd, the_nilfs. rewrite bind_gets.
  destruct Hl as [Hfd Hmin]. unfold tobj in Hfd. case_if; [lia|]. unfold os. pose proof (cl_cpstat (n_iocfd (s_nilfs (t_sys s))) (s_world (t_sys s))) as Hq.
  destruct (ioc_get_cpstat _ _) as [[st|e] w'].
  - destruct Hq as [Hst Hv]. set (s1 := with_sys s _). assert (Hv1 : tview view s1 = tview view s) by exact Hv. change (v_next (view (s_world (t_sys s)))) with next in Hst.
    wp_step. eapply wp_mono; [apply (rmcp_each_ok fuel st args); rewrite ?Hst; try done; [split; [done|by rewrite Hv1]|by rewrite Hv1]| |done].
    intros [status nss] s2 [(_ & C2 & _) C3]. rewrite Hst, Hv1 in *. cbn in C3. wp_step.
    assert (Hend : forall s3, tview view s3 = tview view s2 -> wp (ret status) (fun status s' =>
       pruned (fun c => exists arg, arg ∈ args /\ asked next arg c) (modes s) (modes s') /\
       (status = EXIT_SUCCESS -> rm_interactive o = false -> forall arg, arg ∈ args ->
          (forall c, asked next arg c -> gone (modes s') c) /\
          (rm_force o = false -> (forall c, asked next arg c -> modes s' !! c = None) /\ exists c, asked next arg c /\ modes s !! c = Some NILFS_CHECKPOINT)))
      (fun _ _ => False) s3).
    { intros s3 E. wp_step. rewrite E. split; [exact C2|]. intros Est. by apply C3. }
    destruct (_ && _); [apply print_quiet; intros s3 _ G2; by apply Hend|wp_step; by apply Hend].
  - wp_step. unfold tview. cbn. rewrite Hq. split; [apply pruned_refl|done].
Qed.
End Rmcp.
