(* ===== verification/Dumpseg.v ===== *)
(** * Printing segments: bin/dumpseg.c

    The lines that [dumpseg] prints of a segment are a function of the bytes
    of the segment; [None] is an access outside of them.  The texts of error
    messages are left out, the lines keep the codes.  The
    theorem says that a segment with any contents is printed, with block lines
    for blocks of the segment only. *)

From S2P Require Import Prelude Vector Hoare Ondisk Crc32 Sb Kernel Nilfs Segment Parser Tune Realpath Ismounted Mounts Open.

Definition DUMPSEG_BASE : Z := 10.
Definition ss_create_off : Z := 24.
Definition ss_next_off : Z := 32.

Inductive dump_line :=
  | SegmentLine (segnum : Z)
  | SequenceLine (seq next : Z)
  | LogLine (blocknr nblocks : Z)
  | CreationLine (text : list Z)
  | NfinfoLine (nfinfo : Z)
  | FinfoHeader
  | FinfoLine (ino cno nblocks ndatblk : Z)
  | VirtualData (vblocknr blkoff blocknr : Z)
  | VirtualNode (vblocknr blocknr : Z)
  | RealData (blkoff blocknr : Z)
  | RealNode (blkoff level blocknr : Z)
  | LogError (error : Z) (details : list Z)
  | FileError (error : Z) (details : list Z).

(** The dates of the C library: [localtime_r], which fails for a year it
    cannot represent, and [strftime] with the format of the code.  [junk_tm] is
    what the uninitialised structure holds. *)
Class Dates := {
  dt_tm : Type;
  junk_tm : dt_tm;
  localtime_r : Z -> option dt_tm;
  strftime : dt_tm -> list Z;
}.

(** The result of [localtime_r] is not looked at. *)
Definition date_text {D : Dates} (t : Z) : list Z := strftime (default junk_tm (localtime_r t)).

Section Print.
Context {D : Dates} (seg : nilfs_segment).
Abbreviation mem := (seg_addr seg).

Definition dumpseg_print_psegment_error (pseg : nilfs_psegment) : option dump_line :=
  let field n off := rd_le n mem (ps_segsum pseg + off) in
  let e := ps_error pseg in
  if e =? NILFS_PSEGMENT_ERROR_ALIGNMENT then
    hdrsize ← field 2 ss_bytes_off; Some (LogError e [hdrsize])
  else if e =? NILFS_PSEGMENT_ERROR_BIGPSEG then
    nblocks ← field 4 ss_nblocks_off;
    Some (LogError e [nblocks; u32 (u32 (u32 (ps_blocknr pseg - seg_blocknr seg) + nblocks) - seg_nblocks seg)])
  else if e =? NILFS_PSEGMENT_ERROR_BIGHDR then
    hdrsize ← field 2 ss_bytes_off;
    sumbytes ← field 4 ss_sumbytes_off; Some (LogError e [hdrsize; sumbytes])
  else if e =? NILFS_PSEGMENT_ERROR_BIGSUM then
    sumbytes ← field 4 ss_sumbytes_off;
    nblocks ← field 4 ss_nblocks_off; Some (LogError e [sumbytes; u64 (Z.shiftl nblocks (ps_blkbits pseg))])
  else Some (LogError e []).

Definition dumpseg_print_file_error (pseg : nilfs_psegment) (file : nilfs_file) : option dump_line :=
  let e := fl_error file in
  if e =? NILFS_FILE_ERROR_MANYBLKS then
    nblocks ← rd_le 4 mem (fl_finfo file + fi_nblocks_off);
    pseg_nblocks ← rd_le 4 mem (ps_segsum pseg + ss_nblocks_off);
    Some (FileError e [u64 (fl_blocknr file - ps_blocknr pseg); nblocks; pseg_nblocks])
  else if e =? NILFS_FILE_ERROR_BLKCNT then
    nblocks ← rd_le 4 mem (fl_finfo file + fi_nblocks_off);
    ndatablk ← rd_le 4 mem (fl_finfo file + fi_ndatablk_off);
    Some (FileError e [nblocks; ndatablk])
  else if e =? NILFS_FILE_ERROR_OVERRUN then
    sumbytes ← rd_le 4 mem (ps_segsum pseg + ss_sumbytes_off);
    Some (FileError e [fl_offset file; fl_sumlen file; sumbytes])
  else Some (FileError e []).

Definition dumpseg_print_virtual_block (blk : nilfs_block) : option dump_line :=
  vblocknr ← rd_le 8 mem (bk_binfo blk);
  if nilfs_block_is_data blk then
    blkoff ← rd_le 8 mem (bk_binfo blk + 8); Some (VirtualData vblocknr blkoff (bk_blocknr blk))
  else Some (VirtualNode vblocknr (bk_blocknr blk)).

Definition dumpseg_print_real_block (blk : nilfs_block) : option dump_line :=
  blkoff ← rd_le 8 mem (bk_binfo blk);
  if nilfs_block_is_data blk then Some (RealData blkoff (bk_blocknr blk))
  else level ← rd_le 1 mem (bk_binfo blk + 8); Some (RealNode blkoff level (bk_blocknr blk)).

(** The counts are printed by [%d]. *)
Definition dumpseg_print_file (pseg : nilfs_psegment) (file : nilfs_file) : option (list dump_line) :=
  ino ← rd_le 8 mem (fl_finfo file + fi_ino_off);
  cno ← rd_le 8 mem (fl_finfo file + fi_cno_off);
  nblocks ← rd_le 4 mem (fl_finfo file + fi_nblocks_off);
  ndatablk ← rd_le 4 mem (fl_finfo file + fi_ndatablk_off);
  '(blks, _) ← nilfs_block_for_each seg pseg file;
  blocks ← mapM (if fl_use_real_blocknr file then dumpseg_print_real_block else dumpseg_print_virtual_block) blks;
  Some (FinfoHeader :: FinfoLine ino cno (i32 nblocks) (i32 ndatablk) :: blocks).

Definition dumpseg_print_psegment (pseg : nilfs_psegment) : option (list dump_line) :=
  nblocks ← rd_le 4 mem (ps_segsum pseg + ss_nblocks_off);
  create ← rd_le 8 mem (ps_segsum pseg + ss_create_off);
  nfinfo ← rd_le 4 mem (ps_segsum pseg + ss_nfinfo_off);
  '(fs, final) ← nilfs_file_for_each seg pseg;
  files ← mapM (dumpseg_print_file pseg) fs;
  errors ← (if nilfs_file_is_error final then line ← dumpseg_print_file_error pseg final; Some [line] else Some []);
  Some (LogLine (ps_blocknr pseg) nblocks :: CreationLine (date_text (i64 create)) :: NfinfoLine (i32 nfinfo) :: concat files ++ errors).

(** The first log has the number of the next segment in it. *)
Definition print_sequence (logs : list nilfs_psegment) : option (list dump_line) :=
  match logs with
  | [] => Some []
  | pseg :: _ =>
    next ← rd_le 8 mem (ps_segsum pseg + ss_next_off);
    seq ← rd_le 8 mem (ps_segsum pseg + ss_seq_off);
    if seg_blocks_per_segment seg =? 0 then None
    else Some [SequenceLine seq (next / seg_blocks_per_segment seg)]
  end.

(** The loop over the logs, whose first test comes before it. *)
Definition dumpseg_print_segment : option (list dump_line) :=
  '(logs, final) ← nilfs_psegment_for_each seg (seg_nblocks seg);
  sequence ← print_sequence logs;
  lines ← mapM dumpseg_print_psegment logs;
  errors ← (if nilfs_psegment_is_error final then line ← dumpseg_print_psegment_error final; Some [line] else Some []);
  Some (SegmentLine (seg_segnum seg) :: sequence ++ concat lines ++ errors).
End Print.

(** ** The program *)

Section Dumpseg.
Context {W : Type} {K : Kernel W} {P : PathOs W} {F : OpenOs W} {D : Dates}.
Abbreviation MT := (M (tool W dump_line)).

Definition print_lines (l : list dump_line) : MT unit :=
  modify (fun s => mk_tool (t_sys s) (t_dev s) (t_ioc s) (t_out s ++ l)).

(** The loop over the segment numbers. *)
Fixpoint dumpseg_each (args : list (list Z)) (status : Z) : MT Z :=
  match args with
  | [] => ret status
  | arg :: args =>
    let '(segnum, endptr) := strtoull arg DUMPSEG_BASE in
    match endptr with
    | _ :: _ => dumpseg_each args EXIT_FAILURE
    | [] =>
      let* r := attempt (slib (nilfs_get_segment segnum)) in
      match r with
      | inr _ => ret EXIT_FAILURE
      | inl segment =>
        let* lines := of_option (dumpseg_print_segment segment) in
        print_lines lines ;;
        let* r := attempt (slib (nilfs_put_segment segment)) in
        match r with
        | inr _ => ret EXIT_FAILURE
        | inl _ => dumpseg_each args status
        end
      end
    end
  end.

(** The device, if the first argument is not a number. *)
Definition dumpseg_args (args : list (list Z)) : option (option (list Z) * list (list Z)) :=
  match args with
  | [] => None
  | arg :: args' =>
    match (strtoull arg DUMPSEG_BASE).2 with
    | [] => Some (None, args)
    | _ => Some (Some arg, args')
    end
  end.

Fixpoint dumpseg_options (argv : list Z) : MT unit :=
  match argv with
  | [] => ret tt
  | c :: argv => if (c =? 104) || (c =? 86) (* h, V *) then exit_with EXIT_SUCCESS else exit_with EXIT_FAILURE
  end.

Definition dumpseg_main (argv : list Z) (args : list (list Z)) : MT unit :=
  dumpseg_options argv ;;
  match dumpseg_args args with
  | None => exit_with EXIT_FAILURE
  | Some (dev, segnums) =>
    let* r := attempt (nilfs_open dev None NILFS_OPEN_RAW) in
    match r with
    | inr _ => exit_with EXIT_FAILURE
    | inl _ =>
      let* _ := attempt (slib (nilfs_opt_set NILFS_OPT_MMAP)) in
      let* status := dumpseg_each segnums EXIT_SUCCESS in
      nilfs_close ;;
      exit_with status
    end
  end.
End Dumpseg.

(** ** Any contents can be printed *)

(** The number of the block that a line is about. *)
Definition line_block (l : dump_line) : option Z :=
  match l with
  | VirtualData _ _ b | VirtualNode _ b | RealData _ b | RealNode _ _ b => Some b
  | _ => None
  end.

(** The state in which a loop ends: one that [is_end] left behind. *)
Lemma trace_end {I} (is_end : I -> option (bool * I)) (next : I -> option I) (R : I -> Prop) fuel : forall it l final,
  (forall it it' it'', R it -> is_end it = Some (false, it') -> next it' = Some it'' -> R it'') ->
  R it -> trace fuel is_end next it = Some (l, final) -> exists it0, R it0 /\ is_end it0 = Some (true, final).
Proof.
  induction fuel as [|fuel IH]; intros it l final Hstep Hr; [done|]. cbn [trace]. destruct (is_end it) as [[[] it']|] eqn:He; [| |done]; cbn.
  - intros [= <- <-]. by exists it.
  - destruct (next it') as [it''|] eqn:Hn; [|done]. cbn. destruct (trace fuel is_end next it'') as [[l' final']|] eqn:Ht; [|done]. cbn. intros [= <- <-].
    eapply IH; [exact Hstep| |exact Ht]. by eapply Hstep.
Qed.

Section Safe.
Context (seg : nilfs_segment) (Hseg : seg_ok seg).
Abbreviation mem := (seg_addr seg).

Lemma log_error_printed final : nilfs_psegment_is_error final = true ->
  (exists ps, ps_error ps = 0 /\ nilfs_psegment_is_end seg ps = Some (true, final)) -> is_Some (dumpseg_print_psegment_error seg final).
Proof using.
  clear Hseg. intros He (ps & H0 & Hend). unfold nilfs_psegment_is_end in Hend. unfold nilfs_psegment_is_error in He. case_if_in Hend; [injection Hend as <-; by rewrite H0 in He|].
  destruct (nilfs_psegment_is_valid seg ps) as [[ok ps']|] eqn:Hv; [|done]. cbn in Hend. injection Hend as Hok <-. unfold nilfs_psegment_is_valid in Hv.
  destruct (rd_le 4 mem (ps_segsum ps + ss_magic_off)) as [magic|]; [|done]. cbn in Hv. case_if_in Hv; [injection Hv as <- <-; by rewrite H0 in He|].
  destruct (rd_le 4 mem (ps_segsum ps + ss_sumbytes_off)) as [sumbytes|] eqn:Hsb; [|done]. cbn in Hv. case_if_in Hv; [injection Hv as <- <-; by rewrite H0 in He|].
  destruct (rd_le 4 mem (ps_segsum ps + 4)) as [sum|]; [|done]. cbn in Hv. destruct (rd_bytes mem _ _) as [covered|]; [|done]. cbn in Hv.
  case_if_in Hv; [injection Hv as <- <-; by rewrite H0 in He|]. destruct (rd_le 2 mem (ps_segsum ps + ss_bytes_off)) as [hdrsize|] eqn:Hh; [|done]. cbn in Hv.
  destruct (rd_le 4 mem (ps_segsum ps + ss_nblocks_off)) as [nblocks|] eqn:Hn; [|done]. cbn in Hv. destruct (psegment_sanity seg ps hdrsize sumbytes nblocks) as [e|]; [|injection Hv as <- <-; by rewrite H0 in He].
  injection Hv as <- <-. unfold dumpseg_print_psegment_error. cbn [ps_error ps_segsum set_ps_error]. rewrite Hsb, Hh, Hn. cbn. repeat case_if; by eexists.
Qed.

(** *** Errors of files *)

Lemma adjust_error B f : fl_error (nilfs_file_adjust_finfo_position B f) = fl_error f.
Proof using. clear. unfold nilfs_file_adjust_finfo_position. by case_if. Qed.

Lemma from_finfo_error bits f f' : nilfs_file_init_from_finfo seg bits f = Some f' -> fl_error f' = fl_error f.
Proof using.
  clear. unfold nilfs_file_init_from_finfo. case_if; [by intros [= <-]|]. destruct (rd_le 8 mem _); [|done]. cbn. destruct (nilfs_file_info_size _ _ _); [|done]. cbn. by intros [= <-].
Qed.

Lemma file_init_error ps f : nilfs_file_init seg ps = Some f -> fl_error f = 0.
Proof using.
  clear. unfold nilfs_file_init. destruct (rd_le 4 mem (ps_segsum ps + ss_nfinfo_off)); [|done]. cbn. destruct (rd_le 4 mem (ps_segsum ps + ss_sumbytes_off)); [|done]. cbn.
  destruct (rd_le 2 mem _); [|done]. cbn. intros H%from_finfo_error. by rewrite adjust_error in H.
Qed.

Lemma file_next_error ps f f' : nilfs_file_next seg ps f = Some f' -> fl_error f' = fl_error f.
Proof using.
  clear. unfold nilfs_file_next. destruct (rd_le 4 mem _); [|done]. cbn. destruct (nilfs_file_init_from_finfo _ _ _) as [f1|] eqn:H; [|done]. cbn.
  intros [= <-]. apply from_finfo_error in H. cbn. by rewrite adjust_error in H.
Qed.

Lemma file_end_error ps f stop f' : nilfs_file_is_end seg ps f = Some (stop, f') -> stop = false -> f' = f.
Proof using.
  clear. unfold nilfs_file_is_end. case_if; [by intros [= <- <-]|]. destruct (nilfs_file_is_valid seg ps f) as [[ok f1]|] eqn:Hv; [|done]. cbn. intros [= <- <-] Hok.
  apply negb_false_iff in Hok. subst ok. revert Hv. unfold nilfs_file_is_valid. case_if; [done|].
  destruct (rd_le 4 mem (fl_finfo f + fi_nblocks_off)); [|done]. cbn. destruct (rd_le 4 mem (ps_segsum ps + ss_nblocks_off)); [|done]. cbn.
  case_if; [done|]. destruct (rd_le 4 mem (fl_finfo f + fi_ndatablk_off)); [|done]. cbn. case_if; [done|]. by intros [= <-].
Qed.

Lemma file_error_printed ps final : nilfs_file_is_error final = true -> is_Some (rd_le 4 mem (ps_segsum ps + ss_sumbytes_off)) ->
  (exists f, fl_error f = 0 /\ nilfs_file_is_end seg ps f = Some (true, final)) -> is_Some (dumpseg_print_file_error seg ps final).
Proof using.
  clear. intros He [sumbytes Hs] (f & H0 & Hend). unfold nilfs_file_is_end in Hend. unfold nilfs_file_is_error in He. case_if_in Hend; [injection Hend as <-; by rewrite H0 in He|].
  destruct (nilfs_file_is_valid seg ps f) as [[ok f']|] eqn:Hv; [|done]. cbn in Hend. injection Hend as Hok <-. unfold nilfs_file_is_valid in Hv.
  unfold dumpseg_print_file_error. rewrite Hs. case_if_in Hv; [injection Hv as <- <-; cbn; repeat case_if; by eexists|].
  destruct (rd_le 4 mem (fl_finfo f + fi_nblocks_off)) as [nblocks|] eqn:Hn; [|done]. cbn in Hv. destruct (rd_le 4 mem (ps_segsum ps + ss_nblocks_off)) as [pn|] eqn:Hp; [|done]. cbn in Hv.
  case_if_in Hv; [injection Hv as <- <-; cbn; rewrite ?Hn, ?Hp; cbn; repeat case_if; by eexists|].
  destruct (rd_le 4 mem (fl_finfo f + fi_ndatablk_off)) as [nd|] eqn:Hd; [|done]. cbn in Hv. case_if_in Hv; [|injection Hv as <- <-; by rewrite H0 in He].
  injection Hv as <- <-; cbn; rewrite ?Hn, ?Hd; cbn; repeat case_if; by eexists.
Qed.

Lemma files_end ps l final : nilfs_file_for_each seg ps = Some (l, final) -> exists f, fl_error f = 0 /\ nilfs_file_is_end seg ps f = Some (true, final).
Proof using.
  clear. unfold nilfs_file_for_each. intros Ht. destruct (nilfs_file_init seg ps) as [f|] eqn:Hi; [|done].
  refine (trace_end (nilfs_file_is_end seg ps) (nilfs_file_next seg ps) (fun f => fl_error f = 0) _ f l final _ _ Ht); [|by eapply file_init_error].
  intros f1 f2 f3 H1 H2 H3. apply file_next_error in H3. rewrite H3. by rewrite (file_end_error _ _ _ _ H2 eq_refl).
Qed.

Lemma logs_end blkcnt l final : nilfs_psegment_for_each seg blkcnt = Some (l, final) -> exists ps, ps_error ps = 0 /\ nilfs_psegment_is_end seg ps = Some (true, final).
Proof using.
  clear. unfold nilfs_psegment_for_each. intros Ht.
  refine (trace_end (nilfs_psegment_is_end seg) (nilfs_psegment_next seg) (fun ps => ps_error ps = 0) _ (nilfs_psegment_init seg blkcnt) l final _ eq_refl Ht). intros p1 p2 p3 H1 H2 H3.
  assert (Hp : ps_error p3 = ps_error p2) by (unfold nilfs_psegment_next in H3; destruct (rd_le 4 mem _); [|done]; cbn in H3; by injection H3 as <-). rewrite Hp.
  unfold nilfs_psegment_is_end in H2. case_if_in H2; [done|]. destruct (nilfs_psegment_is_valid seg p1) as [[ok p4]|] eqn:Hv; [|done]. cbn in H2.
  injection H2 as Hok <-. apply negb_false_iff in Hok. subst ok. revert Hv. clear -H1. unfold nilfs_psegment_is_valid.
  destruct (rd_le 4 mem (ps_segsum p1 + ss_magic_off)); [|done]. cbn. case_if; [done|]. destruct (rd_le 4 mem (ps_segsum p1 + ss_sumbytes_off)); [|done]. cbn. case_if; [done|].
  destruct (rd_le 4 mem (ps_segsum p1 + 4)); [|done]. cbn. destruct (rd_bytes mem _ _); [|done]. cbn. case_if; [done|]. destruct (rd_le 2 mem _); [|done]. cbn.
  destruct (rd_le 4 mem _); [|done]. cbn. destruct (psegment_sanity _ _ _ _ _); [done|]. by intros [= <-].
Qed.

(** *** The lines *)

(** Lines about at most [n] blocks, all of them of the segment. *)
Definition about (n : Z) (ls : list dump_line) : Prop :=
  Z.of_nat (length (omap line_block ls)) <= n /\ Forall (fun b => seg_blocknr seg <= b < seg_blocknr seg + seg_nblocks seg) (omap line_block ls).

Lemma about_app m n l1 l2 : about m l1 -> about n l2 -> about (m + n) (l1 ++ l2).
Proof using. clear. unfold about. rewrite omap_app, length_app, Forall_app. intros [H1 H2] [H3 H4]. split_and!; [lia|done|done]. Qed.

Lemma about_other n l ls : line_block l = None -> about n ls -> about n (l :: ls).
Proof using. clear. unfold about. intros H. cbn [omap list_omap]. by rewrite H. Qed.

Lemma about_mono m n ls : about m ls -> m <= n -> about n ls.
Proof using. clear. intros [H1 H2] H. split; [lia|done]. Qed.

Lemma about_concat {A} (w : A -> Z) (l : list A) (k : list (list dump_line)) : Forall2 (fun x => about (w x)) l k -> about (sum_Z (w <$> l)) (concat k).
Proof using. clear. induction 1 as [|x ls l k Hx _ IH]; [done|]. cbn [fmap list_fmap concat]. rewrite sum_Z_cons. by apply about_app. Qed.

Lemma mapM_all {A B} (f : A -> option B) (R : A -> B -> Prop) l : Forall (fun x => exists y, f x = Some y /\ R x y) l -> exists k, mapM f l = Some k /\ Forall2 R l k.
Proof using.
  clear. induction 1 as [|x l (y & Hy & Hr) _ (k & Hk & IH)]; [by exists []|]. exists (y :: k). cbn. rewrite Hy. cbn. rewrite Hk. cbn. split; [done|by constructor].
Qed.

Lemma block_printed (real : bool) b : 0 <= bk_binfo b -> bk_binfo b + binfosize b <= seg_segsize seg ->
  (bk_dsize b, bk_nsize b) = binfo_sizes real ->
  exists line, (if real then dumpseg_print_real_block seg else dumpseg_print_virtual_block seg) b = Some line /\ line_block line = Some (bk_blocknr b).
Proof using Hseg.
  intros H0 Hend Hs. unfold binfosize in Hend. destruct real; injection Hs as Hd Hn; rewrite Hd, Hn in Hend; unfold NILFS_BINFO_DATA_SIZE, NILFS_BINFO_NODE_SIZE, NILFS_BINFO_DAT_DATA_SIZE, NILFS_BINFO_DAT_NODE_SIZE in Hend.
  - unfold dumpseg_print_real_block. destruct (rd_seg seg Hseg 8 (bk_binfo b)) as (x & Hx & _); [done|lia|case_if_in Hend; lia|]. rewrite Hx. cbn.
    destruct (nilfs_block_is_data b); [by eexists|]. destruct (rd_seg seg Hseg 1 (bk_binfo b + 8)) as (y & Hy & _); [lia..|]. rewrite Hy. by eexists.
  - unfold dumpseg_print_virtual_block. destruct (rd_seg seg Hseg 8 (bk_binfo b)) as (x & Hx & _); [done|lia|case_if_in Hend; lia|]. rewrite Hx. cbn.
    destruct (nilfs_block_is_data b); [|by eexists]. destruct (rd_seg seg Hseg 8 (bk_binfo b + 8)) as (y & Hy & _); [lia..|]. rewrite Hy. by eexists.
Qed.

Lemma file_printed ps f : ps_valid seg ps -> file_in_log seg ps f -> exists ls, dumpseg_print_file seg ps f = Some ls /\ about (fl_nblocks seg f) ls.
Proof using Hseg.
  intros Hps Hf. destruct (blocks_spec seg ps f Hseg Hps Hf) as (nb & nd & final & Hnb & Hnd & Hblks & Hpos).
  destruct Hps as (k & nblocks & sby & hd & Hat & Hn & Hsby & Hhd & Hk & _ & _ & Hh & _ & Hh0 & Hsum).
  destruct Hf as (nblocks' & sby' & Hn' & Hsby' & used & nb' & nd' & Hp & Hb & Hd & Hcnt & Hfit & Hend & Hlen).
  rewrite Hn in Hn'; rewrite Hsby in Hsby'; injection Hn' as <-; injection Hsby' as <-.
  destruct (log_range seg Hseg ps k nblocks sby hd Hat Hk (conj Hh0 Hh) Hsum) as (_ & L1 & _ & L2 & _). destruct Hp as (P1 & P2 & _).
  unfold nblocks_at, ndatablk_at, fi_nblocks_off, fi_ndatablk_off in *. assert (Hge : 0 <= nb) by (rewrite Hnb in Hb; injection Hb as ->; lia).
  destruct (rd_seg seg Hseg 8 (fl_finfo f + fi_ino_off)) as (ino & Hino & _); [unfold fi_ino_off; lia..|].
  destruct (rd_seg seg Hseg 8 (fl_finfo f + fi_cno_off)) as (cno & Hcno & _); [unfold fi_cno_off; lia..|].
  unfold dumpseg_print_file, fi_nblocks_off, fi_ndatablk_off. rewrite Hino, Hcno, Hnb, Hnd, Hblks. cbn [mbind option_bind].
  set (blks := block_at _ _ _ _ _ <$> _).
  destruct (mapM_all (if fl_use_real_blocknr f then dumpseg_print_real_block seg else dumpseg_print_virtual_block seg)
    (fun b line => line_block line = Some (bk_blocknr b) /\ seg_blocknr seg <= bk_blocknr b < seg_blocknr seg + seg_nblocks seg) blks) as (ls & Hls & Hall).
  { apply Forall_fmap, Forall_forall. intros i Hi%elem_of_seq. specialize (Hpos i ltac:(lia)). cbn in Hpos. destruct Hpos as (_ & Q1 & Q2 & _ & Q3 & _ & Q4).
    set (b := block_at _ _ _ _ _ _) in *. destruct (block_printed (fl_use_real_blocknr f) b) as (line & Hline & Hbn).
    - unfold sizeof_finfo in Q2. lia.
    - done.
    - unfold b, block_at. by destruct (binfo_sizes _).
    - exists line. split; [|done]. by destruct (fl_use_real_blocknr f). }
  rewrite Hls. eexists. split; [reflexivity|]. apply about_other; [done|]. apply about_other; [done|]. unfold fl_nblocks, nblocks_at, fi_nblocks_off. rewrite Hnb. cbn.
  assert (Homap : omap line_block ls = bk_blocknr <$> blks).
  { clear -Hall. induction Hall as [|b line bs ls [Hb _] _ IH]; [done|]. cbn. rewrite Hb. by f_equal. }
  unfold about. rewrite Homap. split; [unfold blks; rewrite !length_fmap, length_seq; lia|]. apply Forall_fmap. clear -Hall. induction Hall as [|b line bs ls [_ Hb] _ IH]; by constructor.
Qed.

Lemma log_printed {D : Dates} ps : ps_valid seg ps -> exists ls, dumpseg_print_psegment seg ps = Some ls /\ about (ps_nblocks seg ps) ls.
Proof using Hseg.
  intros Hps. destruct (files_spec seg ps Hseg Hps) as (fs & final & Hfs & Hin & Hsum). pose proof Hps as (k & nblocks & sby & hd & Hat & Hn & Hsby & Hhd & Hk & _ & _ & Hh & _ & Hh0 & Hsb).
  destruct (log_range seg Hseg ps k nblocks sby hd Hat Hk (conj Hh0 Hh) Hsb) as (_ & L1 & _ & L2 & L3 & _).
  assert (Hspace : ps_segsum ps + 1024 <= seg_segsize seg) by lia. unfold dumpseg_print_psegment. rewrite Hn.
  destruct (rd_seg seg Hseg 8 (ps_segsum ps + ss_create_off)) as (create & Hc & _); [unfold ss_create_off; lia..|].
  destruct (rd_seg seg Hseg 4 (ps_segsum ps + ss_nfinfo_off)) as (nfinfo & Hnf & _); [unfold ss_nfinfo_off; lia..|].
  rewrite Hc, Hnf, Hfs. cbn [mbind option_bind].
  destruct (mapM_all (dumpseg_print_file seg ps) (fun f => about (fl_nblocks seg f)) fs) as (files & Hfiles & Hall).
  { eapply Forall_impl; [exact Hin|]. intros f Hf. by apply file_printed. }
  rewrite Hfiles. cbn [mbind option_bind].
  assert (Herr : exists errors, (if nilfs_file_is_error final then line ← dumpseg_print_file_error seg ps final; Some [line] else Some []) = Some errors /\ about 0 errors).
  { destruct (nilfs_file_is_error final) eqn:He; [|by exists []].
    destruct (file_error_printed ps final He ltac:(by eexists) (files_end ps fs final Hfs)) as [line Hline]. rewrite Hline. cbn. exists [line]. split; [done|].
    apply about_other; [|done]. unfold dumpseg_print_file_error in Hline. clear -Hline. repeat case_if_in Hline;
      repeat match goal with H : _ ≫= _ = Some _ |- _ => apply bind_Some in H as (? & _ & H) end; by injection Hline as <-. }
  destruct Herr as (errors & -> & Ha). eexists. split; [reflexivity|]. do 3 (apply about_other; [done|]).
  eapply about_mono; [apply about_app; [by apply (about_concat (fl_nblocks seg) fs)|exact Ha]|]. lia.
Qed.

Lemma sequence_printed logs : Forall (ps_valid seg) logs -> 0 < seg_blocks_per_segment seg -> exists ls, print_sequence seg logs = Some ls /\ about 0 ls.
Proof using Hseg.
  intros Hv Hbps. destruct logs as [|ps logs]; [by exists []|]. apply Forall_cons in Hv as [Hps _].
  pose proof Hps as (k & nblocks & sby & hd & Hat & Hn & Hsby & Hhd & Hk & _ & _ & Hh & _ & Hh0 & Hsb).
  destruct (log_range seg Hseg ps k nblocks sby hd Hat Hk (conj Hh0 Hh) Hsb) as (_ & L1 & _ & L2 & L3 & _). assert (Hspace : ps_segsum ps + 1024 <= seg_segsize seg) by lia.
  cbn [print_sequence]. destruct (rd_seg seg Hseg 8 (ps_segsum ps + ss_next_off)) as (next & Hx & _); [unfold ss_next_off; lia..|].
  destruct (rd_seg seg Hseg 8 (ps_segsum ps + ss_seq_off)) as (sq & Hq & _); [unfold ss_seq_off; lia..|]. rewrite Hx, Hq. cbn.
  destruct (Z.eqb_spec (seg_blocks_per_segment seg) 0); [lia|]. eexists. split; [done|]. by apply about_other.
Qed.
End Safe.

(** C29: [dumpseg] prints a segment with any contents, however corrupted: it
    reads only inside the segment, also where it explains an error, and ends;
    it prints at most as many block lines as the segment has blocks, and each
    is about a block of the segment.  The text of a date is whatever the C
    library makes of the time, or of a structure that was not filled. *)
Theorem dumpseg_prints {D : Dates} (seg : nilfs_segment) : seg_ok seg -> 0 < seg_blocks_per_segment seg ->
  exists lines, dumpseg_print_segment seg = Some lines /\
    Z.of_nat (length (omap line_block lines)) <= seg_nblocks seg /\
    Forall (fun b => seg_blocknr seg <= b < seg_blocknr seg + seg_nblocks seg) (omap line_block lines).
Proof.
  intros Hseg Hbps. destruct (psegments_spec seg Hseg (seg_nblocks seg) (so_nblocks _ Hseg)) as (logs & final & Hlogs & Hv & Hsum).
  destruct (sequence_printed seg Hseg logs Hv Hbps) as (sq & Hsq & Ha1).
  destruct (mapM_all (dumpseg_print_psegment seg) (fun ps => about seg (ps_nblocks seg ps)) logs) as (lines & Hlines & Hall).
  { eapply Forall_impl; [exact Hv|]. intros ps Hps. by apply log_printed. }
  assert (Herr : exists errors, (if nilfs_psegment_is_error final then line ← dumpseg_print_psegment_error seg final; Some [line] else Some []) = Some errors /\ about seg 0 errors).
  { destruct (nilfs_psegment_is_error final) eqn:He; [|by exists []]. destruct (log_error_printed seg final He (logs_end seg _ _ _ Hlogs)) as [line Hline]. rewrite Hline.
    exists [line]. split; [done|]. apply about_other; [|done]. unfold dumpseg_print_psegment_error in Hline. clear -Hline. repeat case_if_in Hline;
      repeat match goal with H : _ ≫= _ = Some _ |- _ => apply bind_Some in H as (? & _ & H) end; by injection Hline as <-. }
  destruct Herr as (errors & Herr & Ha3). unfold dumpseg_print_segment. rewrite Hlogs. cbn [mbind option_bind]. rewrite Hsq. cbn [mbind option_bind]. rewrite Hlines. cbn [mbind option_bind].
  rewrite Herr. eexists. split; [reflexivity|]. apply (about_other seg); [done|]. eapply about_mono; [|exact Hsum].
  replace (sum_Z (ps_nblocks seg <$> logs)) with (0 + (sum_Z (ps_nblocks seg <$> logs) + 0)) by lia. apply about_app; [done|]. apply about_app; [by apply about_concat|done].
Qed.

(** Dates in the era; the structure holds zeros before it is filled. *)
Definition demo_dates : Dates := {|
  dt_tm := Z; junk_tm := 0; localtime_r := fun t => if Z.abs t <? 2 ^ 55 then Some t else None;
  strftime := print_cno;
|}.

Lemma dumpseg_prints_witness : exists lines, dumpseg_print_segment (D := demo_dates) Demo.segment = Some lines /\
  Z.of_nat (length (omap line_block lines)) <= 4 /\ Forall (fun b => 4096 <= b < 4096 + 4) (omap line_block lines).
Proof. exact (dumpseg_prints (D := demo_dates) Demo.segment Demo.segment_seg_ok eq_refl). Defined.
