(* ===== verification/Lssu.v ===== *)
(** * Listing segments: bin/lssu.c

    The segments are listed from their usage alone, or with the blocks that
    are in use at the moment, which a dry run of the collector counts.  The
    lines keep times and numbers; texts are left out. *)

From S2P Require Import Prelude Vector Hoare Ondisk Sb Kernel Nilfs Gc GcProtocol Cnormap Parser Tune Float64 Policy Realpath Ismounted Mounts Open.

Definition LSSU_NSEGS : Z := 512.

(** The static variables that the options set, and the period. *)
Record lssu_params := mk_lssu {
  lu_all : bool; lu_latest : bool; lu_index : Z; lu_lines : Z; lu_period : Z;
}.

Definition lssu_defaults : lssu_params := mk_lssu false false 0 0 ULONG_MAX.

Inductive lssu_line :=
  | SuHeader (latest : bool)
  | SuLine (segnum lastmod : Z) (active dirty error : bool) (nblocks : Z)
  | SuUsage (segnum lastmod : Z) (active dirty error protected : bool) (nblocks nliveblks ratio : Z).

Fixpoint lssu_options (argv : list (Z * list Z)) (o : lssu_params) : res lssu_params :=
  match argv with
  | [] => Ok o
  | (c, optarg) :: argv =>
    if c =? 97 (* a *) then lssu_options argv (mk_lssu true (lu_latest o) (lu_index o) (lu_lines o) (lu_period o))
    else if c =? 105 (* i *) then lssu_options argv (mk_lssu (lu_all o) (lu_latest o) (u64 (atol optarg)) (lu_lines o) (lu_period o))
    else if c =? 108 (* l *) then lssu_options argv (mk_lssu (lu_all o) true (lu_index o) (lu_lines o) (lu_period o))
    else if c =? 110 (* n *) then lssu_options argv (mk_lssu (lu_all o) (lu_latest o) (lu_index o) (u64 (atol optarg)) (lu_period o))
    else if c =? 112 (* p *) then
      match nilfs_parse_protection_period optarg with
      | PeriodOk period => lssu_options argv (mk_lssu (lu_all o) (lu_latest o) (lu_index o) (lu_lines o) period)
      | _ => Exit EXIT_FAILURE
      end
    else if (c =? 104) || (c =? 86) (* h, V *) then Exit EXIT_SUCCESS
    else Exit EXIT_FAILURE
  end.

(** The variables [now], [prottime], [protcno] and [blocks_per_segment] of the
    mode with the latest usage. *)
Record lssu_latest := mk_latest { lt_now : Z; lt_prottime : Z; lt_protcno : Z; lt_blocks : Z }.

Section Lssu.
Context {W : Type} {K : Kernel W} {P : PathOs W} {F : OpenOs W} {J : Junk} (junk_span : nilfs_cpspan).
Abbreviation MT := (M (tool W lssu_line)).
Context (o : lssu_params).

(** [nilfs_assess_segment] on the array [segnums]: its statistics. *)
Definition assess (segnum : Z) (params : nilfs_reclaim_params) : M (sys W) nilfs_reclaim_stat :=
  fun y =>
    let '(r, g) := nilfs_xreclaim_segment 1 true params (mk_gcs y [segnum] (Some zero_stat) no_vector no_vector no_vector no_vector no_vector) in
    (match r with
     | Ok _ => Ok (default zero_stat (g_stat g))
     | Err e => Err e | Abort => Abort | Exit st => Exit st | NoFuel => NoFuel
     end, g_sys g).

Definition lssu_get_latest_usage (segnum protseq protcno : Z) : MT Z :=
  let params := if negb (protcno =? NILFS_CNO_MAX)
                then mk_params (Z.lor NILFS_RECLAIM_PARAM_PROTSEQ NILFS_RECLAIM_PARAM_PROTCNO) 0 protseq protcno
                else mk_params NILFS_RECLAIM_PARAM_PROTSEQ 0 protseq 0 in
  let* r := attempt (slib (assess segnum params)) in
  ret (match r with
       | inr _ => -1
       | inl stat => if 0 <? rs_protected_segs stat then -2 else i64 (rs_live_blks stat)
       end).

(** The block count is printed by [%u] although it is a [size_t]. *)
Definition usage_line (l : lssu_latest) (segnum : Z) (si : nilfs_suinfo) (nliveblks ratio : Z) (protected : bool) : lssu_line :=
  SuUsage segnum (sui_lastmod si) (nilfs_suinfo_active si) (nilfs_suinfo_dirty si) (nilfs_suinfo_error si) protected
    (sui_nblocks si) (u32 nliveblks) ratio.

(** The case [LSSU_MODE_LATEST_USAGE]; the product is that of signed numbers
    and the quotient one of a [size_t]. *)
Definition print_usage (l : lssu_latest) (protseq segnum : Z) (si : nilfs_suinfo) : MT unit :=
  let t := i64 (sui_lastmod si) in
  let protected := (lt_prottime l <=? t) && (t <=? lt_now l) in
  if negb (nilfs_suinfo_dirty si) || nilfs_suinfo_error si then print_line (usage_line l segnum si 0 0 protected)
  else
    let* r := lssu_get_latest_usage segnum protseq (lt_protcno l) in
    if 0 <=? r then
      if (2 ^ 63 <=? r * 100 + 99) || (lt_blocks l =? 0) then abort
      else print_line (usage_line l segnum si r (i32 ((r * 100 + 99) / lt_blocks l)) protected)
    else if r =? -2 then print_line (usage_line l segnum si (sui_nblocks si) 100 true)
    else fail EINVAL.

Definition normal_line (segnum : Z) (si : nilfs_suinfo) : lssu_line :=
  SuLine segnum (sui_lastmod si) (nilfs_suinfo_active si) (nilfs_suinfo_dirty si) (nilfs_suinfo_error si) (sui_nblocks si).

(** The number of lines. *)
Fixpoint lssu_print_suinfo (mode : option lssu_latest) (protseq segnum : Z) (suinfos : list nilfs_suinfo) (n : Z) : MT Z :=
  match suinfos with
  | [] => ret n
  | si :: suinfos =>
    if negb (lu_all o) && nilfs_suinfo_clean si then lssu_print_suinfo mode protseq (u64 (segnum + 1)) suinfos n
    else
      (match mode with
       | None => print_line (normal_line segnum si)
       | Some l => print_usage l protseq segnum si
       end) ;;
      lssu_print_suinfo mode protseq (u64 (segnum + 1)) suinfos (n + 1)
  end.

Fixpoint list_suinfos (mode : option lssu_latest) (fuel : nat) (sustat : nilfs_sustat) (rest segnum : Z) : MT unit :=
  match fuel with
  | O => out_of_fuel
  | Datatypes.S fuel =>
    if (0 <? rest) && (segnum <? ss_nsegs sustat) then
      let* suinfos := slib (nilfs_get_suinfo segnum (Z.min rest LSSU_NSEGS)) in
      let* n := lssu_print_suinfo mode (ss_prot_seq sustat) segnum suinfos 0 in
      list_suinfos mode fuel sustat (u64 (rest - n)) (u64 (segnum + Z.of_nat (length suinfos)))
    else ret tt
  end.

Definition rest_of (nsegs : Z) : Z := if negb (lu_lines o =? 0) && (lu_lines o <? nsegs) then lu_lines o else nsegs.

(** The exit status. *)
Definition lssu_list_suinfo (mode : option lssu_latest) (fuel : nat) : MT Z :=
  print_line (SuHeader (match mode with Some _ => true | None => false end)) ;;
  let* r := attempt (
    let* sustat := slib nilfs_get_sustat in
    list_suinfos mode fuel sustat (rest_of (ss_nsegs sustat)) (lu_index o)) in
  ret (match r with inl _ => EXIT_SUCCESS | inr _ => EXIT_FAILURE end).

(** A run of the checkpoint mapper. *)
Definition mapped {A} (map : nilfs_cnormap) (m : M (cns W unit) A) : M (sys W) A :=
  fun y => let '(r, c) := m (mk_cns y map tt) in (r, cn_sys c).

(** The start of the protected period and the first protected checkpoint. *)
Definition lssu_get_protcno (fuel : nat) (now : Z) : MT (Z * Z) :=
  if lu_period o =? ULONG_MAX then ret (now, NILFS_CNO_MAX)
  else
    let* map := slib (nilfs_cnormap_create junk_span) in
    let* protcno := slib (mapped map (nilfs_cnormap_track_back junk_span fuel (lu_period o))) in
    ret (i64 (now - lu_period o), protcno).

(** What the mode with the latest usage needs. *)
Definition lssu_prepare (fuel : nat) : MT (option lssu_latest) :=
  if lu_latest o then
    let* now := tos k_gettimeofday in
    let* blocks := slib nilfs_get_blocks_per_segment in
    let* (prottime, protcno) := lssu_get_protcno fuel now in
    ret (Some (mk_latest now prottime protcno blocks))
  else ret None.

(** Between [nilfs_open] and [nilfs_close]. *)
Definition lssu_list (fuel : nat) : MT Z :=
  let* mode := attempt (lssu_prepare fuel) in
  match mode with
  | inr _ => ret EXIT_FAILURE
  | inl mode => lssu_list_suinfo mode fuel
  end.

Definition lssu_run (fuel : nat) (args : list (list Z)) : MT unit :=
  match args with
  | _ :: _ :: _ => exit_with EXIT_FAILURE
  | _ =>
    let flags := if lu_latest o then Z.lor NILFS_OPEN_RDONLY (Z.lor NILFS_OPEN_RAW NILFS_OPEN_GCLK) else NILFS_OPEN_RDONLY in
    let* r := attempt (nilfs_open (head args) None flags) in
    match r with
    | inr _ => exit_with EXIT_FAILURE
    | inl _ =>
      let* status := lssu_list fuel in
      nilfs_close ;;
      exit_with status
    end
  end.
End Lssu.

Definition lssu_main {W : Type} {K : Kernel W} {P : PathOs W} {F : OpenOs W} {J : Junk} (junk_span : nilfs_cpspan) (fuel : nat)
    (argv : list (Z * list Z)) (args : list (list Z)) : M (tool W lssu_line) unit :=
  match lssu_options argv lssu_defaults with
  | Ok o => lssu_run junk_span o fuel args
  | Exit c => exit_with c
  | _ => abort
  end.

(** ** What is listed *)

Fixpoint numbered (k : Z) (l : list nilfs_suinfo) : list (Z * nilfs_suinfo) :=
  match l with
  | [] => []
  | si :: l => (k, si) :: numbered (k + 1) l
  end.

Definition listed_segment (o : lssu_params) (x : Z * nilfs_suinfo) : Prop := lu_all o = true \/ nilfs_suinfo_clean x.2 = false.

#[export] Instance listed_segment_dec o x : Decision (listed_segment o x).
Proof. unfold listed_segment. apply _. Defined.

(** The segments asked for: from the number of the option [-i] on, without
    the clean ones unless all are shown, at most as many as [-n] allows. *)
Definition segments_of (o : lssu_params) (segs : list nilfs_suinfo) : list (Z * nilfs_suinfo) :=
  take (Z.to_nat (rest_of o (Z.of_nat (length segs))))
    (filter (listed_segment o) (numbered (lu_index o) (drop (Z.to_nat (lu_index o)) segs))).

Definition line_of_segment (x : Z * nilfs_suinfo) : lssu_line := normal_line x.1 x.2.

(** The usage of the segments, and what is documented of the queries: each
    may fail. *)
Class SuinfoLaws {W : Type} (K : Kernel W) (segs : W -> list nilfs_suinfo) : Prop := {
  su_suinfo : forall fd n index w, match ioc_get_suinfo fd n index w with
    | (inl l, w') => l = take (Z.to_nat n) (drop (Z.to_nat index) (segs w)) /\ segs w' = segs w
    | (inr _, w') => segs w' = segs w
    end;
  su_sustat : forall fd w, match ioc_get_sustat fd w with
    | (inl st, w') => ss_nsegs st = Z.of_nat (length (segs w)) /\ segs w' = segs w
    | (inr _, w') => segs w' = segs w
    end;
}.

Lemma numbered_app k l1 l2 : numbered k (l1 ++ l2) = numbered k l1 ++ numbered (k + Z.of_nat (length l1)) l2.
Proof.
  revert k. induction l1 as [|x l1 IH]; intros k; cbn [numbered app]; [by rewrite Z.add_0_r|]. rewrite IH. cbn [length app]. do 3 f_equal. lia.
Qed.

Lemma length_numbered k l : length (numbered k l) = length l.
Proof. revert k. induction l as [|x l IH]; intros k; [done|]. cbn. by rewrite IH. Qed.

Section Listing.
Context {W : Type} {K : Kernel W} {P : PathOs W} {F : OpenOs W} {J : Junk} (segs : W -> list nilfs_suinfo) {SL : SuinfoLaws K segs}.
Context (o : lssu_params) (S0 : list nilfs_suinfo) (everything : list (Z * nilfs_suinfo)) (out0 : list lssu_line).
Implicit Types (s : tool W lssu_line).
Hypothesis few : Z.of_nat (length S0) < 2 ^ 64.

(** [rem] is still to be printed. *)
Definition to_print (rem : list (Z * nilfs_suinfo)) s : Prop :=
  0 <= n_iocfd (s_nilfs (t_sys s)) /\ segs (s_world (t_sys s)) = S0 /\ exists done, everything = done ++ rem /\ t_out s = out0 ++ map line_of_segment done.
Definition printed_some s : Prop := exists done rem, everything = done ++ rem /\ t_out s = out0 ++ map line_of_segment done.

Abbreviation seen := (filter (listed_segment o)).

Lemma print_suinfo_ok protseq l : forall segnum n rem s, to_print (seen (numbered segnum l) ++ rem) s -> 0 <= segnum -> segnum + Z.of_nat (length l) < 2 ^ 64 ->
  wp (lssu_print_suinfo o None protseq segnum l n) (fun n' s' => n' = n + Z.of_nat (length (seen (numbered segnum l))) /\ to_print rem s') (fun _ => printed_some) s.
Proof using.
  clear. induction l as [|si l IH]; intros segnum n rem s Hs H0 Hl; cbn [lssu_print_suinfo].
  { wp_step. split; [cbn; lia|exact Hs]. }
  cbn [numbered length] in *. rewrite filter_cons in *. rewrite u64_id by (unfold is_u64; lia).
  destruct (negb (lu_all o) && nilfs_suinfo_clean si) eqn:Hskip.
  - apply andb_true_iff in Hskip as [Ha%negb_true_iff Hc]. rewrite decide_False in * by (unfold listed_segment; cbn; intros [|]; congruence). apply IH; [done|lia..].
  - assert (Hlisted : listed_segment o (segnum, si)) by (unfold listed_segment; cbn; destruct (lu_all o); [by left|by right]).
    rewrite decide_True in * by done. wp_step. unfold print_line. wp_step. destruct Hs as (S1 & S2 & d & S3 & S4).
    eapply wp_mono; [apply (IH (segnum + 1) (n + 1) rem); [|lia..]| |done].
    + split; [done|]. split; [done|]. exists (d ++ [(segnum, si)]). cbn [t_out]. rewrite map_app, S3, S4, <- !app_assoc. by split.
    + intros n' s' [-> H]. split; [cbn [length]; lia|done].
Qed.

Lemma get_suinfos_ok i n rem s (Q : list nilfs_suinfo -> tool W lssu_line -> Prop) : to_print rem s -> 0 < n < 2 ^ 32 ->
  (forall s', to_print rem s' -> Q (take (Z.to_nat n) (drop (Z.to_nat i) S0)) s') -> wp (slib (nilfs_get_suinfo i n)) Q (fun _ => printed_some) s.
Proof using SL.
  clear few. intros (S1 & S2 & S3) Hn HQ. unfold wp, slib, nilfs_get_suinfo, with_iocfd, the_nilfs. rewrite bind_gets. case_if; [lia|]. rewrite u32_id by (unfold is_u32; lia). unfold os.
  pose proof (su_suinfo (n_iocfd (s_nilfs (t_sys s))) n i (s_world (t_sys s))) as Hq. rewrite S2 in Hq.
  destruct (ioc_get_suinfo _ n i _) as [[l|e] w'].
  - destruct Hq as [-> Hw]. apply HQ. by split_and!.
  - destruct S3 as (d & S3 & S4). by exists d, rem.
Qed.

Lemma list_suinfos_ok sustat fuel : ss_nsegs sustat = Z.of_nat (length S0) -> forall rest segnum s,
  to_print (take (Z.to_nat rest) (seen (numbered segnum (drop (Z.to_nat segnum) S0)))) s -> 0 <= segnum < 2 ^ 64 -> 0 <= rest < 2 ^ 64 ->
  (length (drop (Z.to_nat segnum) S0) < fuel)%nat -> wp (list_suinfos o None fuel sustat rest segnum) (fun _ => to_print []) (fun _ => printed_some) s.
Proof using SL few.
  intros Hn. induction fuel as [|fuel IH]; intros rest segnum s Hs H0 Hr Hf; [lia|]. cbn [list_suinfos].
  destruct ((0 <? rest) && (segnum <? ss_nsegs sustat)) eqn:Hcond.
  2: { wp_step. destruct (Z.eq_dec rest 0) as [->|]; [exact Hs|]. rewrite (drop_ge S0) in Hs by lia. cbn [numbered] in Hs. by rewrite filter_nil, take_nil in Hs. }
  wp_step. eapply get_suinfos_ok; [exact Hs|unfold LSSU_NSEGS; lia|]. intros s1 Hs1. set (m := Z.to_nat (Z.min rest LSSU_NSEGS)). set (D := drop (Z.to_nat segnum) S0) in *.
  assert (Hm : (0 < m)%nat /\ Z.of_nat m <= rest) by (unfold m, LSSU_NSEGS; lia).
  assert (HD : Z.of_nat (length D) = Z.of_nat (length S0) - segnum) by (unfold D; rewrite length_drop; lia).
  pose proof (length_take D m) as Hlt. pose proof (length_drop D m) as Hld.
  assert (Hcount : (length (seen (numbered segnum (take m D))) <= m)%nat) by (etransitivity; [apply length_filter|]; rewrite length_numbered; lia).
  rewrite <- (take_drop m D), numbered_app, filter_app, take_app, take_ge in Hs1 by lia.
  wp_step. eapply wp_mono; [apply print_suinfo_ok; [exact Hs1|lia|lia]| |done]. intros n s2 [-> Hs2]. set (c := length (seen (numbered segnum (take m D)))) in *.
  rewrite !u64_id by (unfold is_u64; lia). assert (Hnext : drop (Z.to_nat (segnum + Z.of_nat (length (take m D)))) S0 = drop m D).
  { unfold D at 2. rewrite drop_drop. destruct (Nat.le_ge_cases m (length D)); [f_equal; lia|]. rewrite !drop_ge; [done|lia|lia]. }
  apply IH; [|lia|lia|rewrite Hnext; lia]. rewrite Hnext. by replace (Z.to_nat (rest - (0 + Z.of_nat c))) with (Z.to_nat rest - c)%nat by lia.
Qed.
End Listing.

(** C23: without [-l], [lssu] prints the header and one line for each segment
    asked for, in order, and ends; when a query fails it has printed a first
    part of these lines, and its status says so. *)
Theorem lssu_lists {W : Type} {K : Kernel W} {J : Junk} (segs : W -> list nilfs_suinfo) {SL : SuinfoLaws K segs}
    (o : lssu_params) (fuel : nat) (s : tool W lssu_line) :
  let l := segs (s_world (t_sys s)) in
  0 <= n_iocfd (s_nilfs (t_sys s)) -> is_u64 (lu_index o) -> is_u64 (lu_lines o) -> Z.of_nat (length l) < 2 ^ 64 -> (length l < fuel)%nat ->
  let lines := SuHeader false :: map line_of_segment (segments_of o l) in
  wp (lssu_list_suinfo o None fuel)
    (fun status s' => status = EXIT_SUCCESS /\ t_out s' = t_out s ++ lines \/
       status = EXIT_FAILURE /\ exists printed, printed `prefix_of` lines /\ t_out s' = t_out s ++ printed)
    (fun _ _ => False) s.
Proof.
  intros l Hfd Hi Hn Hfew Hf lines. unfold lssu_list_suinfo, print_line. wp_step. wp_step. wp_step. wp_step. set (s1 := mk_tool _ _ _ _). set (out1 := t_out s ++ [SuHeader false]).
  set (all := segments_of o l).
  eapply (wp_mono _ (fun _ => to_print segs l all out1 []) (fun _ => printed_some all out1)).
  - wp_step. unfold wp at 1, slib, nilfs_get_sustat, with_iocfd, the_nilfs. rewrite bind_gets. change (s_nilfs (t_sys s1)) with (s_nilfs (t_sys s)). case_if; [lia|]. unfold os.
    pose proof (su_sustat (n_iocfd (s_nilfs (t_sys s))) (s_world (t_sys s))) as Hq. change (s_world (t_sys s1)) with (s_world (t_sys s)).
    destruct (ioc_get_sustat _ _) as [[st|e] w'].
    + destruct Hq as [Hst Hw]. fold l in Hst, Hw. rewrite Hst. unfold is_u64 in *. apply (list_suinfos_ok segs o l all out1); try done; [| |].
      * split; [done|]. split; [done|]. exists []. split; [done|]. cbn. by rewrite app_nil_r.
      * unfold rest_of. destruct (negb (lu_lines o =? 0)); cbn [andb]; [destruct (Z.ltb_spec (lu_lines o) (Z.of_nat (length l)))|]; lia.
      * rewrite length_drop. lia.
    + exists [], all. split; [done|]. cbn. by rewrite app_nil_r.
  - intros _ s' (_ & _ & d & G1 & G2). wp_step. left. split; [done|]. rewrite app_nil_r in G1. rewrite G2, <- G1. unfold out1. by rewrite <- app_assoc.
  - intros e s' (d & rem & G1 & G2). wp_step. right. split; [done|]. exists (SuHeader false :: map line_of_segment d). split.
    + exists (map line_of_segment rem). unfold lines. fold all. by rewrite G1, map_app.
    + rewrite G2. unfold out1. by rewrite <- app_assoc.
Qed.

(** Where the kernel reports no segment although there are more, the listing
    never ends. *)
Lemma lssu_stuck {W : Type} {K : Kernel W} {J : Junk} (o : lssu_params) (sustat : nilfs_sustat) rest segnum fuel : forall (s : tool W lssu_line),
  0 <= n_iocfd (s_nilfs (t_sys s)) -> (forall fd n i w, ioc_get_suinfo fd n i w = (inl [], w)) -> is_u64 rest -> 0 < rest -> is_u64 segnum -> segnum < ss_nsegs sustat ->
  (list_suinfos o None fuel sustat rest segnum s).1 = NoFuel.
Proof.
  induction fuel as [|fuel IH]; intros s Hfd Hnone Hr Hpos Hs Hlt; [done|]. cbn [list_suinfos]. destruct (Z.ltb_spec 0 rest), (Z.ltb_spec segnum (ss_nsegs sustat)); try lia. cbn [andb].
  assert (Hget : slib (L := lssu_line) (nilfs_get_suinfo segnum (Z.min rest LSSU_NSEGS)) s = (Ok [], s)).
  { unfold slib, nilfs_get_suinfo, with_iocfd, the_nilfs. rewrite bind_gets. case_if; [lia|]. unfold os. rewrite Hnone. by destruct s as [[]]. }
  rewrite (bind_ok _ _ _ _ _ Hget). cbn [lssu_print_suinfo length]. rewrite bind_ret, Z.sub_0_r, Z.add_0_r, !u64_id by done. by apply IH.
Qed.
