(* ===== verification/Scenarios.v ===== *)
(** * The theorems at work

    Concrete inputs on the kernel of [Mock] at which the hypotheses of the
    theorems hold, and the runs behind the remarks on single functions. *)

From Stdlib Require Import String SpecFloat.
From S2P Require Import Prelude Vector Crc32 Ondisk Sb Kernel Nilfs Segment Parser Bitops Gc GcProtocol Mock Cnormap Float64 Policy Cldconfig Cleanerd CleanerdSpec CnormapSpec.

(** ** Vectors and superblocks *)

Lemma vector_refines_list_witness :
  op_outcome (exec_ops 0 [VPush 7; VPush 5; VSort Z.sub; VDelete 0 1] (empty_vector 0 8) mock_world).1 (Some [7]).
Proof.
  exact (vector_refines_list 0 [VPush 7; VPush 5; VSort Z.sub; VDelete 0 1] (empty_vector 0 8) mock_world
    (empty_vector_wf 0 8 ltac:(lia)) ltac:(repeat constructor; simpl; lia)).
Defined.

Lemma mock_sb_buffer : sb_buffer mock_sb.
Proof. split; [by vm_compute|]. apply Demo.bytes_u8. by vm_compute. Qed.

(** A label written into the superblock. *)
Definition labelled : list Z := sb_put mock_sb s_volume_name (codes "gc-test" ++ replicate 73 0).

Lemma sb_write_image_witness :
  nilfs_sb_is_valid (sb_seal (sb_update_fields NILFS_SB_LABEL labelled mock_sb)) true = true.
Proof.
  apply (sb_write_image NILFS_SB_LABEL labelled mock_sb); [|exact mock_sb_buffer|by vm_compute].
  split; [by vm_compute|]. apply Demo.bytes_u8. by vm_compute.
Defined.

(** ** Garbage collection *)

Lemma toss_bdescs_filter_witness :
  exists v, nilfs_toss_bdescs (with_bdescv mock_gcs
      (mk_vector ([mk_bdesc 3 20 20 0 0; mk_bdesc 3 21 40 1 0] ++ replicate (256 - 2) junk_bdesc) 40 2 256)) =
    (Ok tt, with_bdescv mock_gcs v) /\ vec_wf v.
Proof.
  destruct (toss_bdescs_filter (with_bdescv mock_gcs
      (mk_vector ([mk_bdesc 3 20 20 0 0; mk_bdesc 3 21 40 1 0] ++ replicate (256 - 2) junk_bdesc) 40 2 256)))
    as (v & Hrun & Hv & _).
  - exact (filled_vector_wf [mk_bdesc 3 20 20 0 0; mk_bdesc 3 21 40 1 0] junk_bdesc 40 ltac:(lia) ltac:(simpl; lia)).
  - exists v. split; [exact Hrun|exact Hv].
Defined.

(** ** Checkpoints *)

#[export] Instance mock_checkpoint_laws : CheckpointLaws mock_kernel (fun _ => mock_checkpoints).
Proof.
  split; [|done]. intros fd n index w Hn rest. exists (Z.to_nat n), w.
  split_and!; [done|lia|lia|done].
Qed.

Definition mock_map : nilfs_cnormap := mk_cnormap no_vector 0 0 0 true true true.
Definition mock_enum : cns world (list nilfs_cpinfo) := mk_cns mock_sys mock_map [].

Lemma forward_enumeration_witness :
  match nilfs_enum_cpinfo_forward record 5 (mk_cpstat 10 4 0) 3 2 mock_enum with
  | (Ok _, s') => ci_cno <$> cn_ctx s' = [3; 5]
  | (Err e, _) => e = ENOMEM
  | _ => False
  end.
Proof.
  pose proof (forward_enumeration (fun _ => mock_checkpoints) mock_enum (mk_cpstat 10 4 0) 3 2 5) as Hf.
  assert (Hen : enumerable (fun _ => mock_checkpoints) 10 mock_enum).
  { split_and!; [done| |]; repeat constructor; unfold by_cno, mincno_of, NILFS_CNO_MIN; simpl; lia. }
  specialize (Hf Hen ltac:(simpl; lia) ltac:(lia) ltac:(lia) ltac:(simpl; lia) ltac:(vm_compute; lia)).
  destruct (nilfs_enum_cpinfo_forward record 5 (mk_cpstat 10 4 0) 3 2 mock_enum) as [[u|e| | |] s'];
    [|exact Hf|exact Hf..]. rewrite Hf. vm_compute. reflexivity.
Defined.

(** ** Policies *)

Lemma greedy_order_witness :
  exists segs', segs' ≡ₚ [(1, 900); (2, 30); (3, 500)] /\
    StronglySorted (fun a b : Z * Z => a.2 < b.2 \/ (a.2 = b.2 /\ a.1 <= b.1)) segs'.
Proof.
  destruct (greedy_order 2048 [(1, 900); (2, 30); (3, 500)]) as (l & _ & Hp & Hs);
    [lia|repeat constructor; simpl; lia|exists l; split; [exact Hp|exact Hs]].
Defined.

(** The segment modified last comes first. *)
Example timestamp_newest_first :
  cd_segnum <$> qsort timestamp_compare
    ((fun s => timestamp_candidate 2048 s.1.1 s.1.2 s.2) <$> [(1, 10, 100); (2, 10, 300); (3, 10, 200)]) = [2; 3; 1].
Proof. vm_compute. reflexivity. Qed.

Lemma timestamp_order_witness :
  exists segs', segs' ≡ₚ [(1, 10, 100); (2, 10, 300); (3, 10, 200)] /\
    StronglySorted (fun a b : Z * Z * Z => b.2 < a.2 \/ (a.2 = b.2 /\ a.1.1 <= b.1.1)) segs'.
Proof.
  destruct (timestamp_order 2048 [(1, 10, 100); (2, 10, 300); (3, 10, 200)]) as (l & _ & Hp & Hs);
    [repeat constructor; simpl; lia|exists l; split; [exact Hp|exact Hs]].
Defined.

Definition aged (segnum live lastmod : Z) : nilfs_segment_candidate :=
  mk_candidate segnum (S754_zero false) (Some (mk_meta false live lastmod)) (S754_zero false).

Definition aged_cands : list nilfs_segment_candidate := [aged 4 100 1005; aged 7 50 1000; aged 9 60 1003].

Lemma cluster_spec_witness :
  exists k, cluster 128 (qsort age_compare_descending aged_cands) =
              cd_segnum <$> take k (qsort age_compare_descending aged_cands) /\ (0 < k)%nat.
Proof.
  destruct (cluster_spec 128 aged_cands) as (k & Hc & Hk & _);
    [lia|repeat constructor; vm_compute; discriminate || reflexivity|done|exists k; split; [exact Hc|exact Hk]].
Defined.

(** Segment 4 is five seconds younger than the oldest. *)
Example aged_cluster : cluster 128 (qsort age_compare_descending aged_cands) = [7; 9].
Proof. vm_compute. reflexivity. Qed.

(** ** The daemon *)

Definition junk_cpspan : nilfs_cpspan := mk_cpspan (mk_cptime 0 0) (mk_cptime 0 0) 0.
Definition mock_cns : cns world unit := mk_cns mock_sys mock_map tt.

Lemma mock_suinfo_one : forall seg (sys : sys world) sis sys',
  nilfs_get_suinfo seg 1 sys = (Ok sis, sys') -> sis <> [].
Proof.
  intros seg sys sis sys'. unfold nilfs_get_suinfo, with_iocfd, the_nilfs. rewrite bind_gets.
  case_if; [done|]. by intros [= <- _].
Qed.

Lemma strict_select_safe_witness :
  match strict_cluster_select junk_cpspan HC_HOT_THRESHOLD_SEC (mk_sustat 4 2 1 0 0 8192) 1000 500 mock_cns with
  | (Ok segs, _) => Z.of_nat (length segs) <= 32 /\ NoDup segs
  | _ => True
  end.
Proof.
  pose proof (strict_select_safe junk_cpspan mock_suinfo_one HC_HOT_THRESHOLD_SEC (mk_sustat 4 2 1 0 0 8192)
    1000 500 mock_cns 4 ltac:(by vm_compute)) as Hs.
  destruct (strict_cluster_select _ _ _ _ _ mock_cns) as [[segs| | | |] s']; [|exact Hs..].
  split; [exact (proj1 Hs)|exact (proj1 (proj2 Hs))].
Defined.

Lemma mock_geometry : geometry_ok mock_sys.
Proof. exists mock_sb. split; [done|]. by vm_compute. Qed.

Lemma cldconfig_read_safe_witness :
  match nilfs_cldconfig_read true (Some (codes "nsegments_per_clean 99")) mock_sys with
  | (Ok c, s') => s' = mock_sys /\ config_ok c
  | (Abort, _) => exists line,
      line ∈ file_lines (length (codes "nsegments_per_clean 99")) (codes "nsegments_per_clean 99") /\
      undefined_line line
  | _ => False
  end.
Proof. exact (cldconfig_read_safe mock_sys (codes "nsegments_per_clean 99") mock_geometry). Defined.

Lemma convert_size_spec_witness :
  exists n, nilfs_convert_size_to_nsegments (mk_param 20 NILFS_SIZE_UNIT_KB) mock_sys = (Ok n, mock_sys) /\
    (n - 1) * (1024 * 16) < 20000 <= n * (1024 * 16).
Proof.
  exact (convert_size_spec mock_sys 20 NILFS_SIZE_UNIT_KB 4 1024 16 ltac:(by vm_compute) ltac:(by vm_compute)
    ltac:(by vm_compute) ltac:(lia) ltac:(lia) ltac:(lia) ltac:(lia) ltac:(lia)).
Defined.

Definition newline : string := String (Ascii.ascii_of_nat 10) EmptyString.
Definition conf (text : string) : res nilfs_cldconfig :=
  (nilfs_cldconfig_read true (Some (codes text)) mock_sys).1.

(** A size of a whole number of segments sets the least number of reclaimable
    blocks to zero: the bytes are taken modulo the segment size. *)
Example min_reclaimable_blocks_modulo :
  match conf ("min_reclaimable_blocks 16KiB") with Ok c => cf_min_reclaimable_blocks c = 0 | _ => False end.
Proof. vm_compute. reflexivity. Qed.

(** An exponent makes more than 10^9 nanoseconds. *)
Example time_with_exponent :
  match conf ("retry_interval 1.5e3") with
  | Ok c => cf_retry_interval c = mk_timespec 1 1499000000000
  | _ => False
  end.
Proof. vm_compute. reflexivity. Qed.

(** A negative time with a fraction does not fit into the member. *)
Example negative_time_undefined : conf ("protection_period -1.5") = Abort.
Proof. vm_compute. reflexivity. Qed.

(** A bad time value drops the rest of the file, any other bad value does not. *)
Example bad_time_stops :
  match conf ("retry_interval soon" ++ newline ++ "nsegments_per_clean 7"),
        conf ("log_priority loud" ++ newline ++ "nsegments_per_clean 7") with
  | Ok c, Ok d => cf_nsegments_per_clean c = 2 /\ cf_nsegments_per_clean d = 7
  | _, _ => False
  end.
Proof. vm_compute. auto. Qed.

(** Zero segments per cycle is accepted. *)
Example zero_nsegments : match conf ("nsegments_per_clean 0") with Ok c => cf_nsegments_per_clean c = 0 | _ => False end.
Proof. vm_compute. reflexivity. Qed.

#[export] Instance mock_daemon : DaemonOs world := {
  d_sigprocmask := fun w => (inl tt, w);
  d_sigaction := fun w => (inl tt, w);
  d_take_signals := fun w => ((false, false), w);
  d_conffile := fun _ w => ((true, Some []), w);
  d_setlogmask := fun _ w => w;
  d_ppoll := fun _ w => (inl false, w);
  d_mq_receive := fun w => (inr EAGAIN, w);
  d_mq_open := fun _ w => (inl 7, w);
  d_mq_close := fun _ w => w;
  d_mq_send := fun _ _ w => (inl tt, w);
  d_log_open := fun w => (false, w);
  d_statvfs := fun w => (true, w);
}.

Definition mock_config : nilfs_cldconfig :=
  match nilfs_cldconfig_set_default mock_sys with
  | (Ok c, _) => c
  | _ => mk_cldconfig NILFS_SELECTION_POLICY_TIMESTAMP zero_timespec "timestamp" "" 0 0 zero_timespec 0 0
           zero_timespec zero_timespec zero_timespec false false 0 0 0
  end.

Definition mock_cld (running : Z) : nilfs_cleanerd :=
  mk_cleanerd mock_config [] running false false false false (auto_speed mock_config) zero_timespec zero_timespec 0
    (-1) [] 0 0 0 0 zero_timespec (mk_speed 0 zero_timespec 0).

Definition mock_ds (running : Z) : ds world := mk_ds mock_cns (mock_cld running).

Lemma daemon_invariant_witness :
  cld_ok (d_cld (nilfs_cleanerd_clean_loop junk_cpspan zero_candidate 10 (nilfs_policy_timestamp junk_cpspan) 0 ULONG_MAX 3 (mock_ds 0)).2).
Proof.
  apply (daemon_invariant junk_cpspan zero_candidate 10 (nilfs_policy_timestamp junk_cpspan) 0 ULONG_MAX);
    [by intros w msg w'|by vm_compute|by vm_compute|by vm_compute|by vm_compute|by vm_compute|by right; left].
Defined.

(** A suspend request of client 0. *)
Definition suspend_msg : list Z := le_bytes 4 NILFS_CLEANER_CMD_SUSPEND ++ le_bytes 4 0 ++ replicate 16 0.

Lemma command_mode_witness :
  cl_running (d_cld (nilfs_cleanerd_handle_message ULONG_MAX suspend_msg (mock_ds 1)).2) = -1.
Proof.
  exact (command_mode ULONG_MAX suspend_msg (mk_creq 2 0 (replicate 16 0)) (mock_ds 1) ltac:(by vm_compute)
    ltac:(by vm_compute) ltac:(by vm_compute)).
Defined.

(** Resuming does not lead back to the mode before the suspension. *)
Example resume_loses_mode :
  cl_running (nilfs_cleanerd_manual_resume (nilfs_cleanerd_manual_suspend (mock_cld 2))) = 0.
Proof. reflexivity. Qed.

Lemma clean_check_hysteresis_witness :
  nilfs_cleanerd_handle_clean_check (mk_sustat 4 5 1 0 0 8192) (mock_ds 0) =
    (Ok false, mk_ds mock_cns (with_speed (with_running (mock_cld 0) 1) (mc_speed mock_config))).
Proof.
  exact (clean_check_hysteresis (mock_ds 0) (mk_sustat 4 5 1 0 0 8192) 8 ltac:(by vm_compute)
    ltac:(by left) ltac:(by vm_compute) ltac:(by vm_compute)).
Defined.

Lemma suspended_sleeps_witness :
  nilfs_cleanerd_check_state (mk_sustat 4 5 1 0 0 8192) (mock_ds (-1)) = (Ok true, mock_ds (-1)).
Proof. exact (suspended_sleeps (mock_ds (-1)) (mk_sustat 4 5 1 0 0 8192) eq_refl). Defined.

(** The target, 0, has passed: no sleep. *)
Lemma recalc_interval_spec_witness :
  ns (cl_timeout (d_cld (nilfs_cleanerd_recalc_interval 2 2 0 0 (mock_ds 1)).2)) = 0.
Proof.
  pose proof (recalc_interval_spec (mock_ds 1) 2 2 0 0 (mk_timespec 1000 0) mock_world ltac:(lia) ltac:(left; lia)
    eq_refl ltac:(by vm_compute) ltac:(by vm_compute) ltac:(by vm_compute) ltac:(by vm_compute)) as [_ Hr].
  exact (proj1 Hr).
Defined.

#[export] Instance mock_usage_laws : UsageLaws mock_kernel (fun _ => replicate 4 (mk_suinfo 0 4 2)).
Proof.
  split. intros fd n index w Hn Hi. exists 1%nat, w. split_and!; [|lia|lia|done].
  simpl in Hi. assert (Hj : index = 0 \/ index = 1 \/ index = 2 \/ index = 3) by lia.
  unfold ioc_get_suinfo, mock_kernel. rewrite take_ge by (simpl; lia).
  by destruct Hj as [->|[->|[->| ->]]].
Qed.

Lemma count_inuse_exact_witness :
  exists s', nilfs_cleanerd_count_inuse_segments (mk_sustat 4 2 1 0 0 8192) (mock_ds 2) = (Ok 4, s').
Proof.
  destruct (count_inuse_exact (fun _ => replicate 4 (mk_suinfo 0 4 2)) (mock_ds 2) (mk_sustat 4 2 1 0 0 8192)) as (s' & Hr & _);
    [by vm_compute|done|by vm_compute|exists s'; exact Hr].
Defined.

Lemma greedy_evaluate_segnum sustat si seg now prot cand (s : cns world unit) c s' :
  pl_evaluate (nilfs_policy_greedy junk_cpspan) 0 sustat si seg now prot cand s = (Ok (Some c), s') -> cd_segnum c = seg.
Proof.
  simpl. unfold greedy_evaluate. intros H. inv_bind H. destruct a as [live|]; [|done].
  case_if_in H; [done|]. inv_bind H. case_if_in H; [done|]. by injection H as <- _.
Qed.

Lemma mock_suinfo_at_most base n (sys : Nilfs.sys world) sis sys' : 0 <= n < 2 ^ 32 ->
  nilfs_get_suinfo base n sys = (Ok sis, sys') -> Z.of_nat (length sis) <= n.
Proof.
  intros Hn. unfold nilfs_get_suinfo, with_iocfd, the_nilfs. rewrite bind_gets. case_if; [done|].
  rewrite u32_id by (unfold is_u32; lia). intros [= <- _]. rewrite length_take. simpl. lia.
Qed.

Lemma generic_selection_witness :
  match nilfs_cleanerd_select_segments zero_candidate (nilfs_policy_greedy junk_cpspan) 0
          (mk_sustat 4 2 1 0 0 8192) (mock_ds 1) with
  | (Ok (segs, prot, _), s') => exists ts s0 s1 cands,
      os_call (k_clock_gettime CLOCK_REALTIME) (mock_ds 1) = (Ok ts, s0) /\
      prot = tv_sec (timespecsub ts (nilfs_cleanerd_protection_period (d_cld s0))) /\
      swept (nilfs_policy_greedy junk_cpspan) 0 (mk_sustat 4 2 1 0 0 8192) (tv_sec ts) prot 0 s1 cands s' /\
      found 0 4 cands /\ segs = cd_segnum <$> take 2 (qsort greedy_compare cands)
  | _ => True
  end.
Proof.
  exact (generic_selection zero_candidate (nilfs_policy_greedy junk_cpspan) 0 greedy_evaluate_segnum mock_suinfo_at_most
    (mock_ds 1) (mk_sustat 4 2 1 0 0 8192) eq_refl ltac:(simpl; lia)).
Defined.

(** A whole selection: segments 2 and 3 hold no live block. *)
Example mock_selection :
  match nilfs_cleanerd_select_segments zero_candidate (nilfs_policy_greedy junk_cpspan) 0
          (mk_sustat 4 2 1 0 0 8192) (mock_ds 1) with
  | (Ok (segs, _, _), _) => segs = [2; 3]
  | _ => False
  end.
Proof. vm_compute. reflexivity. Qed.
