(* ===== verification/ClientDemo.v ===== *)
(** * A session of a client

    A world that is the queue of one client, in which the daemon and the client
    can be run against each other: the witness of the theorem about sessions. *)

From S2P Require Import Prelude Ondisk Sb Kernel Nilfs Gc Mock Cnormap Policy Cldconfig Cleanerd CleanerCtl Clean ClientSpec Scenarios.

(** The daemon needs nothing but the queue for the requests. *)
Abbreviation net := (list nilfs_cleaner_response).
Definition uuid : list Z := replicate 16 7.

#[export] Instance net_kernel : Kernel net := deaf_kernel deaf_device no_answers.

#[export] Instance net_daemon : DaemonOs net := {
  d_sigprocmask := fun w => (inl tt, w); d_sigaction := fun w => (inl tt, w); d_take_signals := fun w => ((false, false), w);
  d_conffile := fun _ w => ((false, None), w); d_setlogmask := fun _ w => w; d_ppoll := fun _ w => (inl false, w);
  d_mq_receive := fun w => (inr EAGAIN, w); d_mq_open := fun _ w => (inl 7, w); d_mq_close := fun _ w => w;
  d_mq_send := fun _ r w => (inl tt, w ++ [r]); d_log_open := fun w => (false, w); d_statvfs := fun w => (true, w);
}.

#[export] Instance net_mail : Mail net_daemon := {
  inbox := fun _ w => w; inbox_pop := fun _ w => tail w; queue_of := fun _ _ => Some uuid;
}.

#[export] Instance net_laws : MailLaws net_mail uuid.
Proof. split; try done; intros; [by exists 7, w|by exists (w ++ [rsp])]. Qed.

(** A client whose last response was not read. *)
Definition state (running : Z) : ct (ds net) :=
  mk_ct (mk_ds (mk_cns (mk_sys mock_nilfs [ack]) mock_map tt) (mock_cld running)) (mk_cleaner 0 None None 0 0 3 4 None uuid).

Definition requests : list request :=
  [GetStatus; Run default_clean; GetStatus; Suspend; Run default_clean; Tune (replicate 48 0); Stop; GetStatus;
   WaitR 1 (mk_timespec 1 0); Shutdown].

Lemma default_good : good_run default_clean 16.
Proof. split; [by vm_compute..|by left|by vm_compute]. Qed.

Lemma session_refines_witness : exists s',
  session uuid ULONG_MAX (fun n => replicate n 0) 2 requests (state 0) =
    (Ok [inl (Some NILFS_CLEANER_STATUS_IDLE); inl (Some 1); inl (Some NILFS_CLEANER_STATUS_RUNNING); inl None; inl (Some 2);
         inr EOPNOTSUPP; inl None; inl (Some NILFS_CLEANER_STATUS_IDLE); inr EOPNOTSUPP; inl None], s') /\
  cl_shutdown (d_cld (ct_world s')) = true.
Proof.
  destruct (session_refines uuid ULONG_MAX (fun n => replicate n 0) eq_refl (fun n => length_replicate n 0) 2 16 requests (state 0))
    as (s' & Hs & _ & Hc); [lia|by split; [split_and!|]| |done|by exists mock_sb|].
  - unfold requests. repeat (apply Forall_cons; split; [try done; apply default_good|]). apply Forall_nil; done.
  - exists s'. split; [etransitivity; [exact Hs|by vm_compute]|].
    change (cl_shutdown (unlinked (d_cld (ct_world s'))) = true). rewrite Hc. by vm_compute.
Defined.
