(* ===== verification/ToolDemo.v ===== *)
(** * The tools on concrete file systems

    Worlds in which the command line programs run: a file system with four
    checkpoints, the modes of checkpoints under a lock, and a table of open
    files.  They are the witnesses of the theorems about the tools, and show
    single runs of them. *)

From stdpp Require Import gmap.
From Stdlib Require Import String.
From S2P Require Import Prelude Vector Hoare Ondisk Crc32 Sb Kernel Nilfs Segment Gc GcProtocol Mock Parser Tune Realpath Ismounted Mounts Open OpenSpec Cnormap CnormapSpec Lscp LscpSpec Cptools CptoolsSpec Dumpseg Lssu.

(** ** Listings *)

Module ListDemo.
(** The first one is minor, 3 and 5 are snapshots; the next number is 12. *)
Definition checkpoints : list nilfs_cpinfo :=
  [mk_cpinfo 8 2 200 5 1 10 0; mk_cpinfo 1 3 300 6 1 11 5; mk_cpinfo 1 5 500 7 1 12 0; mk_cpinfo 0 8 800 8 1 13 0].
Definition segments : list nilfs_suinfo := [mk_suinfo 100 4 2; mk_suinfo 0 0 0; mk_suinfo 200 8 3].

Definition list_kernel : Kernel unit :=
  deaf_kernel deaf_device (mk_answers (an_change _ no_answers)
    (fun _ n index mode w => (inl (take (Z.to_nat n) (if mode =? NILFS_CHECKPOINT then from index checkpoints else snapshots_at index checkpoints)), w))
    (an_delete _ no_answers) (fun _ w => (inl (stat_of 12 checkpoints), w))
    (fun _ n index w => (inl (take (Z.to_nat n) (drop (Z.to_nat index) segments)), w)) (fun _ w => (inl (mk_sustat 3 1 2 0 0 0), w))
    (an_sync _ no_answers) (an_wait _ no_answers) (an_post _ no_answers) (an_block _ no_answers) (an_restore _ no_answers) (an_pending _ no_answers)).

Definition list_laws : ListingLaws list_kernel (fun _ => checkpoints) (fun _ => 12).
Proof. by split. Defined.

Definition segment_laws : SuinfoLaws list_kernel (fun _ => segments).
Proof. by split. Defined.

Definition start {L} : tool unit L := mk_tool (mk_sys (mk_nilfs None (-1) 3 0 1 false) tt) None None [].

Definition reversed : lscp_params := mk_lscp false true true NILFS_CHECKPOINT 0 0.

(** [lscp -r]: the minor checkpoint is not shown. *)
Example lscp_reversed :
  (let '(r, s) := lscp_list (K := list_kernel) reversed 700 start in (r, t_out s)) =
  (Ok EXIT_SUCCESS, [CpHeader true; CpLine 8 800 false false 13 1; CpLine 5 500 true false 12 1; CpLine 3 300 true false 11 1]).
Proof. by vm_compute. Qed.

(** [lscp -s -i 4] starts at number 4; it does not skip four snapshots. *)
Example lscp_from_number :
  (let '(r, s) := lscp_list (K := list_kernel) (mk_lscp false true false NILFS_SNAPSHOT 4 0) 700 start in (r, t_out s)) =
  (Ok EXIT_SUCCESS, [CpHeader true; CpLine 5 500 true false 12 1]).
Proof. by vm_compute. Qed.

(** Where the numbers near the next one are not in use, [lscp -r] lists
    nothing. *)
Definition gap_kernel : Kernel unit :=
  deaf_kernel deaf_device (mk_answers (an_change _ no_answers) (fun _ n index _ w => (inl (take (Z.to_nat n) (from index checkpoints)), w))
    (an_delete _ no_answers) (fun _ w => (inl (mk_cpstat 1000 4 2), w)) (an_suinfo _ no_answers) (an_sustat _ no_answers)
    (an_sync _ no_answers) (an_wait _ no_answers) (an_post _ no_answers) (an_block _ no_answers) (an_restore _ no_answers) (an_pending _ no_answers)).

Example lscp_reversed_gap :
  (let '(r, s) := lscp_list (K := gap_kernel) reversed 700 start in (r, t_out s)) = (Ok EXIT_SUCCESS, [CpHeader true]) /\
  (let '(r, s) := lscp_list (K := gap_kernel) lscp_defaults 700 start in (r, length (t_out s))) = (Ok EXIT_SUCCESS, 4%nat).
Proof. by vm_compute. Qed.

Lemma checkpoints_consistent : consistent 12 checkpoints.
Proof.
  exists (mk_cpinfo 0 8 800 8 1 13 0). split_and!; [|repeat (apply Forall_cons; split; [done|]); apply Forall_nil; done|done|done|done|by vm_compute].
  repeat (apply SSorted_cons; [|repeat (apply Forall_cons; split; [done|]); apply Forall_nil; done]). apply SSorted_nil.
Qed.

Lemma checkpoints_ready : ready (fun _ => checkpoints) checkpoints (start : tool unit lscp_line).
Proof. split_and!; [done|done|]. repeat (apply Forall_cons; split; [done|]). by apply Forall_nil. Qed.
End ListDemo.

Lemma lscp_lists_witness :
  let lines := CpHeader true :: map (line_of ListDemo.reversed) (listing ListDemo.reversed 12 ListDemo.checkpoints) in
  wp (lscp_list (K := ListDemo.list_kernel) ListDemo.reversed 900)
    (fun status s' => status = EXIT_SUCCESS /\ t_out s' = [] ++ lines \/ status = EXIT_FAILURE /\ exists printed, printed `prefix_of` lines /\ t_out s' = [] ++ printed)
    (fun _ _ => False) ListDemo.start.
Proof.
  apply (lscp_lists (fun _ => ListDemo.checkpoints) (fun _ => 12) (LL := ListDemo.list_laws) ListDemo.reversed ListDemo.checkpoints 900 ListDemo.start).
  - exact ListDemo.checkpoints_consistent.
  - exact ListDemo.checkpoints_ready.
  - intros _ newest [= <-]. by vm_compute.
  - by vm_compute.
  - by vm_compute.
  - by left.
  - apply Nat.ltb_lt. by vm_compute.
Defined.

Lemma lssu_lists_witness :
  let lines := SuHeader false :: map line_of_segment (segments_of lssu_defaults ListDemo.segments) in
  wp (lssu_list_suinfo (K := ListDemo.list_kernel) lssu_defaults None 4)
    (fun status s' => status = EXIT_SUCCESS /\ t_out s' = [] ++ lines \/ status = EXIT_FAILURE /\ exists printed, printed `prefix_of` lines /\ t_out s' = [] ++ printed)
    (fun _ _ => False) ListDemo.start.
Proof.
  apply (lssu_lists (fun _ => ListDemo.segments) (SL := ListDemo.segment_laws) lssu_defaults 4 ListDemo.start); by vm_compute || (apply Nat.ltb_lt; by vm_compute).
Defined.

(** ** Modes of checkpoints *)

Module ModeDemo.
Definition change (_ cno mode : Z) (v : cp_view) : (unit + Z) * cp_view :=
  match v_modes v !! cno with Some _ => (inl tt, changed cno mode v) | None => (inr ENOENT, v) end.

Definition remove (_ cno : Z) (v : cp_view) : (unit + Z) * cp_view :=
  match v_modes v !! cno with
  | Some m => if m =? NILFS_CHECKPOINT then (inl tt, with_modes (delete cno (v_modes v)) v) else if m =? NILFS_SNAPSHOT then (inr EBUSY, v) else (inr EIO, v)
  | None => (inr ENOENT, v)
  end.

Definition sync (_ : Z) (v : cp_view) : (Z + Z) * cp_view :=
  let cno := Z.max 1 (v_next v) in
  (inl cno, mk_view (<[cno := default NILFS_CHECKPOINT (v_modes v !! cno)]> (v_modes v)) (cno + 1) (v_held v) (v_blocked v) (v_unsafe v) (v_stuck v)).

Definition mode_kernel : Kernel cp_view :=
  deaf_kernel deaf_device (mk_answers change (an_cpinfo _ no_answers) remove (fun _ v => (inl (mk_cpstat (v_next v) 0 0), v))
    (an_suinfo _ no_answers) (an_sustat _ no_answers) sync (fun v => (inl tt, with_held true v)) (fun v => (inl tt, with_held false v))
    (fun v => (inl tt, with_blocked true v)) (with_blocked false) (fun v => (inl false, v))).

Definition mode_laws : CpLaws mode_kernel (fun v => v).
Proof.
  split; try done.
  - intros fd cno mode v. cbn. unfold change. destruct (v_modes v !! cno) eqn:E; cbn; [split; [by eexists|]|]; done.
  - intros fd cno v. cbn. unfold remove. destruct (v_modes v !! cno) as [m|] eqn:E; [|by split_and!].
    destruct (Z.eqb_spec m NILFS_CHECKPOINT) as [->|]; [done|]. destruct (Z.eqb_spec m NILFS_SNAPSHOT) as [->|]; by split_and!.
  - intros fd v. cbn. eexists. split; [unfold NILFS_CNO_MIN; lia|done].
Defined.

(** Checkpoints 1 to 3; 2 is a snapshot. *)
Definition modes : gmap Z Z := {[1 := NILFS_CHECKPOINT; 2 := NILFS_SNAPSHOT; 3 := NILFS_CHECKPOINT]}.
Definition mode_view : cp_view := mk_view modes 4 false false false false.
Definition start {L} : tool cp_view L := mk_tool (mk_sys (mk_nilfs None (-1) 3 0 1 true) mode_view) None None [].

#[export] Instance mode_stdin : Rmcp.Stdin cp_view := fun v => (Some (codes "yes"), v).

(** [chcp cp 2 9]: there is no checkpoint 9. *)
Example chcp_run :
  (let '(r, s) := Chcp.chcp_change (K := mode_kernel) NILFS_CHECKPOINT [codes "2"; codes "9"] (start (L := unit)) in
   (r, v_modes (s_world (t_sys s)) !! 2, v_held (s_world (t_sys s)), v_unsafe (s_world (t_sys s)))) = (Ok EXIT_FAILURE, Some NILFS_CHECKPOINT, false, false).
Proof. by vm_compute. Qed.

(** [chcp ss /dev/sda1 3]: the name of the device is taken for a number. *)
Example chcp_device_ignored :
  Chcp.chcp_args [codes "ss"; codes "/dev/sda1"; codes "3"] = Some (codes "ss", None, [codes "/dev/sda1"; codes "3"]) /\
  Chcp.chcp_args [codes "ss"; codes "2"; codes "3"] = Some (codes "ss", Some (codes "2"), [codes "3"]).
Proof. by vm_compute. Qed.

(** [rmcp ..3]: the snapshot stays, and the status says so. *)
Example rmcp_run :
  (let '(r, s) := Rmcp.rmcp_remove (K := mode_kernel) (Rmcp.mk_rmcp false false) 5 [codes "..3"] start in
   (r, map_to_list (v_modes (s_world (t_sys s))), t_out s)) =
  (Ok EXIT_FAILURE, [(2, NILFS_SNAPSHOT)], [Rmcp.CannotRemoveSnapshot 2; Rmcp.ChcpPrompt]).
Proof. by vm_compute. Qed.
End ModeDemo.

Lemma chcp_changes_witness :
  wp (Chcp.chcp_change (K := ModeDemo.mode_kernel) NILFS_SNAPSHOT [codes "3"])
    (fun status s' => released (fun v => v) ModeDemo.start s' /\ remoded NILFS_SNAPSHOT [codes "3"] ModeDemo.modes (v_modes (tview (fun v => v) s')) /\
       (status = EXIT_SUCCESS -> all_moded NILFS_SNAPSHOT [codes "3"] (v_modes (tview (fun v => v) s'))))
    (fun _ _ => False) (ModeDemo.start (L := unit)).
Proof. exact (chcp_changes (fun v => v) (CL := ModeDemo.mode_laws) NILFS_SNAPSHOT [codes "3"] ModeDemo.start eq_refl eq_refl eq_refl eq_refl). Defined.

Lemma mkcp_makes_witness :
  wp (mkcp_all (K := ModeDemo.mode_kernel) (Mkcp.mk_mkcp true true))
    (fun r s' => let '(status, cno) := r in undone (fun v => v) ModeDemo.start s' /\
       (forall c, v_modes (tview (fun v => v) s') !! c = ModeDemo.modes !! c \/ c = cno /\ is_Some (v_modes (tview (fun v => v) s') !! c)) /\
       (status = EXIT_SUCCESS -> exists mode, v_modes (tview (fun v => v) s') !! cno = Some mode /\ (true = true -> mode = NILFS_SNAPSHOT)) /\
       t_out s' = [] ++ (if (status =? 0) && true then [i64 cno] else []))
    (fun _ _ => False) ModeDemo.start.
Proof. exact (mkcp_makes (fun v => v) (CL := ModeDemo.mode_laws) (Mkcp.mk_mkcp true true) ModeDemo.start eq_refl eq_refl eq_refl eq_refl). Defined.

Lemma rmcp_removes_witness :
  wp (Rmcp.rmcp_remove (K := ModeDemo.mode_kernel) (I := ModeDemo.mode_stdin) (Rmcp.mk_rmcp true false) 5 [codes "1.."])
    (fun status s' => pruned (fun c => exists arg, arg ∈ [codes "1.."] /\ asked 4 arg c) ModeDemo.modes (v_modes (tview (fun v => v) s')) /\
       (status = EXIT_SUCCESS -> false = false -> forall arg, arg ∈ [codes "1.."] ->
          (forall c, asked 4 arg c -> gone (v_modes (tview (fun v => v) s')) c) /\
          (true = false -> (forall c, asked 4 arg c -> v_modes (tview (fun v => v) s') !! c = None) /\ exists c, asked 4 arg c /\ ModeDemo.modes !! c = Some NILFS_CHECKPOINT)))
    (fun _ _ => False) ModeDemo.start.
Proof.
  apply (rmcp_removes (fun v => v) (CL := ModeDemo.mode_laws) (I := ModeDemo.mode_stdin) (fun w => eq_refl) (Rmcp.mk_rmcp true false) 5 [codes "1.."] ModeDemo.start).
  - split; [done|]. intros c x Hx. change (ModeDemo.modes !! c = Some x) in Hx. change (1 <= c). unfold ModeDemo.modes in Hx.
    repeat (apply lookup_insert_Some in Hx as [[<- _]|[_ Hx]]; [lia|]). apply lookup_singleton_Some in Hx as [<- _]. lia.
  - by apply not_elem_of_cons; split; [|apply not_elem_of_nil].
  - by vm_compute.
  - apply Nat.ltb_lt. by vm_compute.
Defined.

(** ** Open files *)

Module OpenDemo.
(** The open descriptors, and the number of semaphores. *)
Definition table : Type := list Z * nat.

Definition fresh_fd (l : list Z) : Z := 1 + foldr Z.max 2 l.

Lemma fresh_fd_above l : 0 <= fresh_fd l /\ fresh_fd l ∉ l.
Proof.
  assert (Hge : forall x, x ∈ l -> x <= foldr Z.max 2 l).
  { induction l as [|y l IH]; intros x Hx; [by apply not_elem_of_nil in Hx|]. cbn. apply elem_of_cons in Hx as [->|Hx]; [lia|]. specialize (IH x Hx). lia. }
  assert (H2 : 2 <= foldr Z.max 2 l) by (clear; induction l; cbn; lia). unfold fresh_fd. split; [lia|]. intros Hin. specialize (Hge _ Hin). lia.
Qed.

Definition entry : mntent := mk_mntent (codes "/dev/sda1") (codes "/mnt") MNTTYPE_NILFS (codes "rw,relatime").

#[export] Instance table_os : OpenOs table := {
  oo_stack := fun n => replicate n 0;
  oo_mounts := fun w => (inl [entry], w);
  oo_open := fun _ w => let fd := fresh_fd w.1 in (inl fd, (fd :: w.1, w.2));
  oo_close := fun fd w => (filter (fun x => x <> fd) w.1, w.2);
  oo_stat := fun _ w => (inl (mk_stat Block 2049 0 0), w);
  oo_fstat := fun _ w => (inl (mk_stat Directory 0 2049 2), w);
  oo_sem_open := fun _ w => (inl tt, (w.1, Datatypes.S w.2));
  oo_sem_close := fun w => (w.1, Init.Nat.pred w.2);
}.

#[export] Instance table_paths : PathOs table := { po_getcwd := fun _ w => (inr ENOENT, w); po_readlink := fun _ _ w => (inr EINVAL, w) }.

(** Every read finds the superblock of [Mock]. *)
Definition table_device : Device table := {|
  dev_alloc := fun _ w => (true, w); dev_errno := fun _ => EIO; dev_fstat := fun _ w => (inl (S_IFREG, 65536), w);
  dev_getsize64 := fun _ w => (inl 65536, w); dev_pread := fun _ _ _ w => (inl mock_sb, w); dev_pwrite := fun _ _ _ w => (inr EIO, w);
|}.
#[export] Instance table_kernel : Kernel table := deaf_kernel table_device no_answers.

Definition fds (w : table) : gset Z := list_to_set w.1.

Lemma no_zero (l : list Z) : forallb (fun c => negb (c =? 0)) l = true -> 0 ∉ l.
Proof. intros Hl Hin. apply list_elem_of_In in Hin. rewrite forallb_forall in Hl. by specialize (Hl 0 Hin). Qed.

#[export] Instance table_laws : OpenLaws table_paths table_os fds snd.
Proof.
  split; try done.
  - intros path [l n]. cbn. destruct (fresh_fd_above l) as [H1 H2]. split_and!; [done| |done|done]. unfold fds. cbn. by rewrite elem_of_list_to_set.
  - intros fd [l n]. cbn. split; [|done]. unfold fds. cbn. apply set_eq. intros x. rewrite elem_of_difference, !elem_of_list_to_set, list_elem_of_filter, elem_of_singleton. tauto.
  - intros w l w' [= <- _]. apply Forall_singleton. by split; apply no_zero; vm_compute.
  - intros name w st w' [= <- _]. by vm_compute.
  - intros n. apply length_replicate.
Qed.

#[export] Instance table_path_laws : PathLaws table_paths (fun cwd => exists st, Forall plain st /\ cwd = path_of st).
Proof. by split. Qed.

(** Without links no walk aborts. *)
Lemma walk_no_links max n : forall linked st cs (w : table), match Realpath.walk max n linked st cs w with (Abort, _) => False | _ => True end.
Proof.
  induction n as [|n IHn]; intros linked st cs; revert linked st; induction cs as [|c cs IH]; intros linked st w; try done; cbn [Realpath.walk].
  - destruct (bool_decide _ || bool_decide _); [apply IH|]. destruct (bool_decide _); [apply IH|]. by case_if.
  - destruct (bool_decide _ || bool_decide _); [apply IH|]. destruct (bool_decide _); [apply IH|]. case_if; [done|]. exact (IHn linked (st ++ [c]) cs w).
Qed.

Lemma no_links path (w : table) : match canonical_path (Z.to_nat CANONICAL_SIZE) path w with (Abort, _) => False | _ => True end.
Proof.
  unfold canonical_path, bind. destruct (char_at path =? SLASH); [|done]. exact (walk_no_links _ _ false [] (split_path path) w).
Qed.

Definition start : tool table unit := mk_tool (mk_sys new_nilfs ([0; 1; 2], 0%nat)) None None [].
Definition every_part : Z := Z.lor NILFS_OPEN_RAW (Z.lor NILFS_OPEN_RDWR NILFS_OPEN_GCLK).

(** The device and the mount point are open, and the semaphore. *)
Example open_run :
  (let '(r, s) := nilfs_open (Some (codes "/dev/./sda1")) None every_part start in
   (r, s_world (t_sys s), n_devfd (s_nilfs (t_sys s)), n_iocfd (s_nilfs (t_sys s)), n_sem (s_nilfs (t_sys s)), t_ioc s)) =
  (Ok tt, ([4; 3; 0; 1; 2], 1%nat), 3, 4, true, Some (codes "/mnt")).
Proof. by vm_compute. Qed.
End OpenDemo.

Lemma nilfs_open_typed_witness :
  wp (nilfs_open (L := unit) (F := OpenDemo.table_os) (P := OpenDemo.table_paths) (K := OpenDemo.table_kernel) (Some (codes "/dev/./sda1")) None OpenDemo.every_part)
    (fun _ s' => typed_object OpenDemo.every_part s' /\ owns OpenDemo.fds snd OpenDemo.start s' /\
       wp (nilfs_close (F := OpenDemo.table_os)) (fun _ s'' => files OpenDemo.fds snd (tworld s'') = files OpenDemo.fds snd ([0; 1; 2], 0%nat) /\ tobject s'' = new_nilfs) (fun _ _ => False) s')
    (fun _ s' => files OpenDemo.fds snd (tworld s') = files OpenDemo.fds snd ([0; 1; 2], 0%nat)) OpenDemo.start.
Proof.
  apply (nilfs_open_typed OpenDemo.fds snd (OL := OpenDemo.table_laws) (PL := OpenDemo.table_path_laws) OpenDemo.no_links).
  - intros fd off w sb w' [= <- _]. by vm_compute.
  - intros p [= <-]. apply OpenDemo.no_zero. by vm_compute.
  - done.
Defined.
